(* ===== verification/_CoqProject ===== *)
-Q . S2P
Prelude.v
KeeperCodec.v
KeeperPayloads.v
KeeperHistory.v
KeeperHistoryCodec.v
KeeperOutput.v
KeeperInput.v
Keeper.v
KeeperRun.v
KeeperGuarantees.v
KeeperServer.v
Viewport.v
TerminalViewRecord.v
TerminalViewRegistry.v
TerminalViewInvariant.v
TerminalViewRuns.v
TerminalViewGuarantees.v
TerminalViewOwner.v
TerminalViewOwnerStreams.v
TerminalViewOwnerRuns.v
TerminalViewOwnerSystem.v
TerminalViewOwnerGuarantees.v
CellTypes.v
TermSpans.v
CellDelta.v
CellWire.v
CellChunks.v
CellChunkPlan.v
CellChunkGuarantees.v
CellAssembler.v
FrameFold.v
TerminalToken.v
TerminalReplica.v
ReplicaRuns.v
ReplicaGuarantees.v
ReplicaLiveness.v
TermEmitter.v
TermEmitterGuarantees.v
SyncOutput.v
CellEmitter.v
CellCadence.v
CellDeliveries.v
CellEmissions.v
CellEmitterGuarantees.v
CadenceGuarantees.v
LayoutEdit.v
LayoutLemmas.v
LayoutGuarantees.v
LayoutRuns.v
LayoutClaims.v
Toasts.v
SpawnLedger.v
PendingCloses.v
LayoutRecords.v
LayoutRecordsGuarantees.v
DeckState.v
ClientStore.v
DeckIntent.v
DeckGuarantees.v
DeckClaims.v
SpawnClaims.v
CloseClaims.v
ToastClaims.v
InputRouter.v
InputDispatch.v
InputOperations.v
InputPaths.v
InputRuns.v
InputClaims.v
PacketStream.v
PeerPackets.v
AttachmentPackets.v
AttachmentPort.v
AttachmentAccounts.v
PacketClaims.v
UploadStore.v
UploadOwner.v
UploadFrames.v
UploadInvariant.v
UploadClaims.v
