(* ===== verification/Prelude.v ===== *)
(** * Roost: a verification development

    Roost lets several devices share terminal sessions.  Four programs under
    [src/crates] carry a session: the _keeper_ daemon ([roost-keeper]) owns the
    PTYs and outlives everything else; the _worker_ ([roost-worker]) connects
    to its keeper over a framed socket, decides who watches what, parses the
    output ([roost-term]) and sends each viewer the cells of its screen; the
    _coordinator_ ([roost-coord]) relays browsers to workers; the _client_
    ([roost-client-core]) holds a replica of every screen it shows, arranges
    them, and carries what is typed back.  [roost-protocol] holds the logic the
    programs share.  The development follows a session's bytes through all of
    them but the coordinator: PTY to keeper, keeper to worker, worker to screen
    frames, frames to replicas, keystrokes back to the PTY; it models the
    client's own state around that path, the arrangement of panes and what a
    user does to it; and, beside the terminal, the carriers that bypass the
    coordinator and the files a user uploads into a session.

    ** Layout

    This file is the prelude: machine integers, bytes, Rust's [Result] and
    slices, and the lemmas and tactics the components share.  A component's
    model comes first, then the files that prove things of it.

    The keeper, [src/crates/roost-keeper/src]:

    - [KeeperCodec] ([codec.rs]): the envelope of the keeper's socket, its
      constructor, and the incremental decoder with its buffer.
    - [KeeperPayloads] ([payloads.rs], [frames.rs]): the fixed-layout payloads
      and the negotiation of features.
    - [KeeperHistory] ([channel_history.rs], [history.rs]): the bounded output
      ring of a channel with its geometry markers, the ordered records a worker
      replays, and their codec; [KeeperHistoryCodec] proves the codec.
    - [KeeperOutput] ([output_ring.rs], [server/connection.rs]): Module
      [OutputRing] is the queue between the blocking PTY reader and the keeper;
      Module [Signal] is the wake-up protocol of readers and connection loop, a
      transition system of their atomic actions.
    - [KeeperInput] ([input_queue.rs]): the input lane of a channel, its
      budgets, the write loop, and its thread against the keeper's calls and
      connections coming and going, a transition system again.
    - [Keeper] ([keeper.rs], [keeper_ops.rs], [keeper_reap.rs],
      [pty_channel.rs], [pty_channel_reap.rs]): the registry of channels and
      every frame handler, in the state-and-effects monad [KM] (a keeper, the
      effects emitted, and an error; [None] outside is a panic).  Record
      [World] is what the operating system answers.  [KeeperRun] is its life as
      a step relation with the ghost account of what each channel produced, and
      a concrete run; [KeeperGuarantees] the properties.
    - [KeeperServer] ([server.rs], [server/connection.rs],
      [server/exit_watch.rs], [capability.rs], [bin/roost-keeper.rs]): the
      connection's authentication, the answering of frames, the loop's turns
      and the daemon's decision to stop.

    Who watches, [src/crates/roost-protocol/src] and
    [src/crates/roost-worker/src/terminal_view]:

    - [Viewport] ([viewport.rs], [validate.rs], [wire/brand.rs]): grid limits,
      the per-axis minimum, the identifiers, and maps walked in byte order.
    - [TerminalViewRecord] and [TerminalViewRegistry] ([terminal_view]): view
      records, retained claims, the four indexes and every operation on them;
      [TerminalViewInvariant] and [TerminalViewRuns] hold the lemmas,
      [TerminalViewGuarantees] the properties.
    - [TerminalViewOwner]: the worker's owner of that registry, the decisions
      taken under its lock and the effects they defer.
      [TerminalViewOwnerSystem] interleaves decisions, effects and applies;
      [TerminalViewOwnerStreams] and [TerminalViewOwnerRuns] hold the
      invariants, [TerminalViewOwnerGuarantees] the frames a decision sends and
      the properties.

    What a screen is, and its way over the wire, [roost-protocol/src/cell] and
    [roost-term/src]:

    - [CellTypes], [CellDelta], [CellWire], [CellChunks]: spans, rows and
      frames; deltas and batches; the messages; snapshots in bounded parts.
      [CellChunkPlan], [CellChunkGuarantees] and [CellAssembler] prove the last.
    - [TermSpans] ([row_spans.rs]) and [TermEmitter] ([frame.rs],
      [emitter.rs]): a terminal's rows into spans and its screen into frames;
      [TermEmitterGuarantees] relates the emitter to the replicas of
      [CellDelta].

    Who sends it, [src/crates/roost-worker/src/session]:

    - [SyncOutput] ([sync_output.rs], [stream_fence.rs]), [CellEmitter]
      ([emit*.rs], [cell_sink.rs], [snapshot_cursor*.rs], [cell_gates.rs]) and
      [CellCadence] ([cell_scheduler.rs], [emit_ingest.rs],
      [cell_sink_lifecycle.rs]): the synchronized-output scan, the sinks with
      what each still owes, and when a frame is built.  [CellDeliveries] and
      [CellEmissions] hold the invariant of the delivery records,
      [CellEmitterGuarantees] and [CadenceGuarantees] the properties.

    Who receives it, [src/crates/roost-client-core/src/terminal] and
    [handle_sweep]:

    - [FrameFold], [TerminalToken] and [TerminalReplica]: folding a frame, the
      carrier's identity and one session's replica; [ReplicaRuns] is the sweep
      that keeps it alive and its life as a list of operations,
      [ReplicaGuarantees] and [ReplicaLiveness] the properties.

    What a user does, [src/crates/roost-client-core/src]:

    - [LayoutEdit] ([store/layout]): a folder's tree of panes and
      every edit of it; [LayoutLemmas], [LayoutGuarantees] and [LayoutRuns] lead
      to [LayoutClaims].
    - [LayoutRecords] ([store/layout/record.rs]), with
      [LayoutRecordsGuarantees]: what is stored of them.
    - [Toasts], [SpawnLedger], [PendingCloses]: the slices of the store a deck
      works on; [ClientStore] holds the mutations that cross them
      ([store/toasts.rs], [optimistic_spawn/settle.rs], [handle_close_kill.rs]).
      [ToastClaims], [SpawnClaims] and [CloseClaims] are their properties.
    - [DeckState], [DeckIntent] ([deck]): the deck with its source of pane ids,
      and every intent it takes; [DeckGuarantees] and [DeckClaims].
    - [InputRouter] ([terminal/input]) and [InputDispatch] ([handle_input.rs],
      [handle_sync/promotion]): the lanes of typed batches, and every handler a
      keystroke, an answer, a lost carrier or a sweep reaches.
      [InputOperations] describes any operation as a list of elementary changes,
      proves the invariant over those and describes every operation so,
      [InputPaths] every handler; [InputRuns] is runs of events; [InputClaims]
      what sweeps owe and the properties.

    The direct carriers, which bypass the coordinator,
    [roost-protocol/src/terminal_peer], [attachment_transfer] and
    [roost-worker/src/attachments]:

    - [PacketStream]: what the two framings share: little-endian words, a
      message cut into packets, byte quotas ([PacketQuota]), and the contracts of
      a sending and a receiving half ([SenderLaws], [ReceiverLaws],
      [CarefulReceiver]) with the theorems a carrier gets from them.
    - [PeerPackets] and [AttachmentPackets] ([packets.rs], [packet_queue.rs] of
      each): the framing, assembler and send queue of the terminal carrier and
      of the attachment carrier, and that they keep those contracts.
    - [AttachmentPort] ([peer_budget.rs], [peer_packet_port.rs],
      [peer_packet_egress.rs]): the byte budgets the uploads of a worker share
      and the port of one upload; [AttachmentAccounts] is their invariant over
      every run of a worker, [PacketClaims] the properties of the packet lanes.

    Where an upload's chunks go, over a carrier or relayed by the coordinator,
    [roost-worker/src/attachments]:

    - [UploadStore] ([mod.rs], [receipts.rs], [journal.rs], [naming.rs],
      [file_hash.rs], [file_store.rs], [store_paths.rs]): what an upload is
      described by, its journal, names and paths, and the disk beneath it.
    - [UploadOwner] ([operation_owner.rs], [operation_open.rs],
      [operation_commit.rs], [upload.rs]): the table of operations in progress
      and every call on it: a chunk, the two rounds of a commit's flushes, the
      status, a carrier's detachment, the idle sweep.
    - [UploadFrames] says what each call leaves alone whatever fails,
      [UploadInvariant] what every journal and operation stands for;
      [UploadClaims] is runs with faults and restarts, and the properties.

    Definitions keep the source's names; where two files declare the same name
    the file's name tells them apart.

    ** How the code is represented

    A [u32] or [u64] is a [Z], wrapped ([u32], [u64] of this file) wherever the
    code casts or may overflow and bounded by hypotheses ([fits]) where the
    code relies on the wire's width; saturating arithmetic is written out.
    Payload bytes are lists of [byte], strings are Rocq strings of their UTF-8
    bytes, and a cell's text is a list of Unicode scalars.  A [f64] is the
    Standard Library's specification of a binary64 number.  A slice index is a
    partial operation ([slice_get]): [None] is the panic Rust would raise, and
    the totality theorems exclude it.  A [HashMap] is a [gmap]; its iteration
    order, which Rust leaves open, is an argument ([order], [keys],
    [iteration]) of every operation that depends on it, and the theorems
    quantify over it.  A [BTreeSet] or [BTreeMap] is walked in byte order
    ([Viewport.btree], [Viewport.bindings]).  Values shared by reference
    counting and copied before they are written are values.  Locks and threads
    are transition systems whose steps are the sections a lock or an atomic
    makes indivisible; an instant is an argument.

    Code outside the repository is a parameter: [serde_json] ([Keeper.Json],
    [LayoutRecords.RecordsCodec]), SHA-256, and the encoded lengths of protobuf
    messages ([CellChunks.WireSizes]) are classes with the laws the code relies
    on; the operating system is [Keeper.World]; the terminal engine is the
    record of its answers ([TermEmitter.TerminalCore]) under the contract its
    trait documents; a frame sink is [CellEmitter.SinkTransport], a data
    channel [AttachmentPort.NativePeer].  An allocation that may fail is a
    boolean argument.  The ports of [AttachmentPort] take their calls one at a
    time, each under its own lock; between two ports only the budget's counter
    is shared, and a deadline may fire at any time.  Where a
    component reads a part of the repository that is modelled elsewhere or not
    yet, that part is a class too: [LayoutEdit.PaneIdSource] (with the deck's
    and a page's instance), [ReplicaRuns.SweepView],
    [InputDispatch.InputHost] (whose state moves at will between events).  Each
    theorem that uses one has an instance at concrete functions.

    The file system is [UploadStore.Disk]: what each path names now, which of it
    was never flushed, and the faults that the calls to come will meet, each of
    which passes, fails (a write after some of its bytes) or is the one in which
    the process dies; the theorems quantify over the faults.  Metadata reads
    always answer, and a file's text is the value written to it through the
    class [Serde].  An open file is a number, under which the disk knows the name
    the file has by now ([d_opened]), so a write goes where the file is and not
    where its name was.  The safety theorems of uploads hold while a request id
    belongs to one session ([proper]; [shared_upload_id_mixes] is what happens
    otherwise), and no one but the worker writes its directories during a run.

    ** Fuel

    [KeeperCodec.push_loop] runs on fuel that is the buffer's length plus one:
    each turn removes at least seven bytes, and [push_total_bounded] proves the
    result exists for every input.  [KeeperInput.write_loop] recurses on the
    descriptor's answers; [write_batch_exact] proves that as many answers as
    bytes suffice.  [TerminalViewRecord.evict_process] runs as many passes as
    there are claims, each removing one; [evict_process_bounded] proves the cap
    holds when they are spent.  [TermSpans.spans_loop] has the row's cells as
    fuel and takes at least one a turn, [SyncOutput.observe_loop] the chunk's
    bytes, [CellEmitter.drain_sink_cursor] the parts that are parked.
    [CellEmitter.emit_cell_frame_at] nests once, for the repair of a stream
    that failed ([EMIT_NESTING]).  [LayoutEdit.build_balanced] has the number
    of sessions, which each split divides, and [LayoutRecords.walk] the number
    of nodes, of which each turn pops one.  [AttachmentPort.flush_lane] has the
    bytes its lane holds, of which each turn sends one or more
    ([flush_lane_moves] with [flush_fuel_enough]), and [PacketStream.cut] the
    message's length.  [UploadStore.free_candidate] has the source's own limit
    of suffixes, and [UploadStore.lowest_free] one try more than there are names
    taken ([lowest_free_fresh]).  Everything else is structural.

    ** What the theorems show

    - Output: what a PTY produces reaches the worker whole and in order
      ([OutputRing.output_conserved], [Signal.no_lost_wakeup]), its exit is
      reported after its last byte ([exit_after_last_byte]), and a worker that
      reconnects is answered with an exact window of the stream at the
      geometries it was produced at ([history_answer_exact],
      [history_codec_inverse]), or not answered at all, once a resize sequence no
      history can carry was applied.  Output on a stream that may deliver reaches
      the frame builder, at the latest when a synchronized frame's ceiling falls
      due ([output_reaches_builder]), and the chunked scan for synchronized output
      sees what a byte-wise one sees ([sync_scan_exact]).
    - Input, at the keeper: each accepted batch is settled once, in order, with
      an outcome that is true of the PTY ([lane_exactly_once],
      [write_batch_exact]).  At the client: no batch is out twice, batches
      leave in the order typed, lanes keep their bounds, a pane is told of each
      batch once, and sweeps settle everything ([input_never_doubled],
      [input_leaves_in_order], [lanes_stay_bounded], [outcomes_told_once],
      [sweeps_settle_everything]), whatever the rest of the client does.
    - Protocol: no bytes and no frame panic the keeper, frames survive any cut
      of the stream, each request is answered as the table says
      ([push_total_bounded], [feed_split_invariant], [handle_answers]); nothing
      is served before the capability is proved ([authentication_gate]).
    - Views: the registry's indexes agree, and its caps on sessions, sockets and
      the process hold, in every reachable state ([registry_invariant]); the PTY's size is the per-axis minimum of the
      records that bind it ([effective_geometry_exact]); commands are answered
      truthfully, on their socket unless the view is parked under it
      ([view_command_answered], [command_reaches_socket]); applies
      are single-flight and settle ([streams_single_flight], [owner_settles]).
    - Screens: a row's spans paint its cells, where the reader can tell them apart
      ([row_spans_faithful]), the emitter's frames rebuild the core's screen, its
      images included, at any replica
      ([emitter_refines_screen]), they survive the wire and the division into
      parts ([cell_frame_roundtrip], [snapshot_roundtrip],
      [assembler_only_completes_snapshots]), batches are their deltas
      ([fold_batch_exact]), and a sink the worker counts as holding a baseline
      does hold it ([baselined_sinks_paint]).
    - Replicas: what a client holds is always paintable, admission and renderer
      deltas are exact, and a watched pane always has a deadline
      ([replica_always_paintable], [admission_exact],
      [renderer_deltas_exact], [watched_pane_has_deadline]).
    - Packet lanes: each is an ordered channel that hands over whole messages
      exactly as they were taken, and refuses everything else
      ([packet_lanes_deliver], [assemblers_take_exactly]); the counters uploads
      share are exact and bounded over every run, and nothing but a short control
      frame is heard before the hello ([ports_account], [ports_gated]).
    - Uploads: an answer that says committed is true for ever, of the bytes
      offered, their order and their total, whatever fails and whenever the
      process dies ([uploads_stored_as_offered]); a stored file is never touched
      again ([stored_files_stay]); an undisturbed upload, on either carrier and
      into either directory, ends committed ([upload_completes]).
    - Arrangements: every edit and intent whose caller keeps its duties keeps every
      arrangement sound
      ([layout_edits_sound], [deck_intents_sound]), reconciliation is exact
      ([reconcile_exact]), an undo restores what was closed
      ([close_undo_roundtrip]), closes and spawns settle once and on their own
      clocks ([closes_independent], [spawn_settles_once]), and a stored record
      is read back whole or not at all ([restore_exact]).
    - Faults the model exposes, each with its theorem:
      [wrong_lane_shutdown_stops], [oversized_resize_silences_history],
      [new_accepts_undecodable_frame], [reregistered_view_stays_parked],
      [viewer_cap_not_enforced], [refused_admission_forgets_claim],
      [chunk_part_disarms_watchdog], [sync_hold_opens_unwatched],
      [long_cut_forgotten], [wide_cluster_sliced],
      [encoder_ships_zero_width], [unknown_mouse_dropped],
      [decoders_report_differently], [kitty_flags_not_compared],
      [unordered_full_misplaces_delta], [deep_split_forgets_layouts],
      [forced_kill_after_boundary], [raising_again_moves_window],
      [packet_refused_before_its_id], [backslash_upload_lost],
      [committed_upload_spoilt], [other_carrier_refused],
      [shared_upload_id_mixes], [returning_socket_unanswered],
      [stale_reorder_duplicates].

    ** What is not modelled, and the plan

    Left out for good: socket and file I/O, process creation and signals (the
    keeper's [client.rs], [process_reap.rs], [transport.rs]), Windows job
    objects, logging, generated messages ([roost-proto]), third-party code, the
    user interface and the benchmarks, and [clamp_terminal_geometry].

    Of uploads: a loss of power (what was flushed is tracked, no theorem loses
    what was not), the reaper of old files, the registry of project directories,
    and the grants and sockets in front of the owner.

    Of the modelled components: the worker's metadata lanes and query replies;
    retained history and images of a client's replica; the deck's painted view
    and pixel geometry; the smoke observer of the input path.

    Planned next, in this order: the client's route registry and candidates,
    which the input path sees behind [InputHost]; its Sync link's redial and
    hydration; the session event fold of [roost-protocol]; the layout
    documents; the terminal carrier's port in the worker, with its history
    budgets, and the negotiation of both carriers; the worker's link to the
    coordinator. *)
From stdpp Require Export base gmap strings list.
From Stdlib Require Export ZArith Lia.
From coqutil Require Byte Word.LittleEndianList.

#[global] Open Scope Z_scope.

(** ** Machine integers and bytes *)

(** An unsigned byte; every [u8] of the source. *)
Abbreviation byte := Corelib.Init.Byte.byte.

(** Wrap-around of an unsigned integer of [bits] bits: what a Rust [as] cast
    to that width, or a release-build overflow, leaves. *)
Definition wrap (bits : Z) (v : Z) : Z := v mod 2 ^ bits.

Abbreviation u8 := (wrap 8).
Abbreviation u16 := (wrap 16).
Abbreviation u32 := (wrap 32).
Abbreviation u64 := (wrap 64).

(** [v] is representable as an unsigned integer of [bits] bits. *)
Definition fits (bits : Z) (v : Z) : Prop := 0 <= v < 2 ^ bits.

(** [usize::saturating_sub], [u64::saturating_sub]. *)
Definition saturating_sub (a b : Z) : Z := Z.max 0 (a - b).

(** [u64::saturating_add]. *)
Definition saturating_add64 (a b : Z) : Z := Z.min (2 ^ 64 - 1) (a + b).

(** A slice's length as a [usize]. *)
Definition len {A} (l : list A) : Z := Z.of_nat (length l).

(** [uN::to_be_bytes] for an [n]-byte integer. *)
Definition to_be_bytes (n : nat) (v : Z) : list byte :=
  rev (LittleEndianList.le_split n v).

(** [uN::from_be_bytes]. *)
Definition from_be_bytes (l : list byte) : Z :=
  LittleEndianList.le_combine (rev l).

(** [slice.get(from..to)]. *)
Definition slice_get {A} (l : list A) (from to : nat) : option (list A) :=
  if (from <=? to)%nat && (to <=? length l)%nat
  then Some (take (to - from) (drop from l)) else None.

(** ** Results *)

(** Rust's [Result]. *)
Inductive result (A E : Type) : Type :=
| Ok (a : A)
| Err (e : E).
Arguments Ok {A E} a.
Arguments Err {A E} e.

Declare Scope result_scope.
Delimit Scope result_scope with result.
#[global] Open Scope result_scope.

(** The [?] operator. *)
Notation "'let?' x ':=' e 'in' k" :=
  (match e with Ok x => k | Err err => Err err end)
  (at level 10, x name, e at level 200, k at level 200) : result_scope.

Definition is_ok {A E} (r : result A E) : bool :=
  match r with Ok _ => true | Err _ => false end.

Definition ok_or {A E} (o : option A) (e : E) : result A E :=
  match o with Some a => Ok a | None => Err e end.

#[global] Instance byte_eq_dec : EqDecision byte := Byte.byte_eq_dec.

(** ** Automation *)

(** Turns the boolean tests of the code into propositions. *)
Ltac bool_to_prop :=
  repeat match goal with
  | H : context [(_ <=? _)%nat] |- _ => progress (rewrite ?Nat.leb_le, ?Nat.leb_gt in H)
  | H : _ && _ = true |- _ => apply andb_true_iff in H as [? ?]
  | H : _ || _ = false |- _ => apply orb_false_iff in H as [? ?]
  | H : (_ <=? _) = true |- _ => apply Z.leb_le in H
  | H : (_ <=? _) = false |- _ => apply Z.leb_gt in H
  | H : (_ <? _) = true |- _ => apply Z.ltb_lt in H
  | H : (_ <? _) = false |- _ => apply Z.ltb_ge in H
  | H : (_ =? _) = true |- _ => apply Z.eqb_eq in H
  | H : (_ =? _) = false |- _ => apply Z.eqb_neq in H
  | H : (_ =? _)%nat = true |- _ => apply Nat.eqb_eq in H
  | H : (_ =? _)%nat = false |- _ => apply Nat.eqb_neq in H
  | H : negb _ = true |- _ => apply negb_true_iff in H
  | H : negb _ = false |- _ => apply negb_false_iff in H
  end.

(** Case analysis on the innermost test of a goal or hypothesis. *)
Ltac case_if :=
  match goal with
  | |- context [if ?b then _ else _] => destruct b eqn:?
  | H : context [if ?b then _ else _] |- _ => destruct b eqn:?
  end.

(** ** Byte codecs *)

Lemma length_to_be_bytes n v : length (to_be_bytes n v) = n.
Proof.
  unfold to_be_bytes. by rewrite length_rev, LittleEndianList.length_le_split.
Qed.

Lemma from_to_be_bytes n v :
  from_be_bytes (to_be_bytes n v) = v mod 2 ^ (Z.of_nat n * 8).
Proof.
  unfold from_be_bytes, to_be_bytes.
  by rewrite rev_involutive, LittleEndianList.le_combine_split.
Qed.

Lemma from_to_be_bytes_fits n v :
  fits (Z.of_nat n * 8) v -> from_be_bytes (to_be_bytes n v) = v.
Proof. intros H. rewrite from_to_be_bytes. by apply Z.mod_small. Qed.

Lemma to_from_be_bytes l : to_be_bytes (length l) (from_be_bytes l) = l.
Proof.
  unfold from_be_bytes, to_be_bytes.
  rewrite <- (length_rev l), LittleEndianList.split_le_combine.
  apply rev_involutive.
Qed.

Lemma to_from_be_bytes_len n l :
  length l = n -> to_be_bytes n (from_be_bytes l) = l.
Proof. intros <-. apply to_from_be_bytes. Qed.

Lemma from_be_bytes_fits l : fits (8 * len l) (from_be_bytes l).
Proof.
  unfold fits, from_be_bytes, len. rewrite <- (length_rev l).
  apply LittleEndianList.le_combine_bound.
Qed.

(** ** Lists *)

Lemma len_nonneg {A} (l : list A) : 0 <= len l.
Proof. unfold len. lia. Qed.

Lemma len_app {A} (l k : list A) : len (l ++ k) = len l + len k.
Proof. unfold len. rewrite length_app. lia. Qed.

Lemma len_nil {A} : len (@nil A) = 0.
Proof. done. Qed.

Lemma len_cons {A} (x : A) l : len (x :: l) = 1 + len l.
Proof. unfold len. cbn [length]. lia. Qed.

Lemma len_to_be_bytes n v : len (to_be_bytes n v) = Z.of_nat n.
Proof. unfold len. by rewrite length_to_be_bytes. Qed.

Lemma len_zero_nil {A} (l : list A) : len l = 0 <-> l = [].
Proof. unfold len. destruct l; cbn [length]; split; intros; [done|done|lia|done]. Qed.

Create Rewrite HintDb lens.
#[export] Hint Rewrite @len_app @len_nil @len_cons len_to_be_bytes : lens.

Lemma slice_get_Some {A} (l : list A) from to s :
  slice_get l from to = Some s <->
  (from <= to <= length l)%nat /\ s = take (to - from) (drop from l).
Proof.
  unfold slice_get.
  destruct (Nat.leb_spec from to), (Nat.leb_spec to (length l)); cbn [andb];
    split; intros HS; try done; try (destruct HS as [? ?]; lia);
    [by simplify_eq | by destruct HS as [_ ->]].
Qed.

Lemma slice_get_length {A} (l : list A) from to s :
  slice_get l from to = Some s -> length s = (to - from)%nat.
Proof. intros [? ->]%slice_get_Some. rewrite length_take, length_drop. lia. Qed.

Lemma slice_get_app_skip {A} (p l : list A) from to :
  slice_get (p ++ l) (length p + from) (length p + to) = slice_get l from to.
Proof.
  unfold slice_get. rewrite length_app.
  replace (length p + from <=? length p + to)%nat with (from <=? to)%nat
    by (destruct (Nat.leb_spec from to), (Nat.leb_spec (length p + from) (length p + to)); lia).
  replace (length p + to <=? length p + length l)%nat with (to <=? length l)%nat
    by (destruct (Nat.leb_spec to (length l)), (Nat.leb_spec (length p + to) (length p + length l)); lia).
  case_if; [|done]. do 2 f_equal; [lia|].
  rewrite <- drop_drop, drop_app_length. done.
Qed.

Lemma slice_get_prefix {A} (p l : list A) :
  slice_get (p ++ l) 0 (length p) = Some p.
Proof.
  apply slice_get_Some. rewrite length_app. split; [lia|].
  by rewrite drop_0, Nat.sub_0_r, take_app_length.
Qed.

Lemma slice_get_range {A} (l : list A) (a b : Z) :
  0 <= a <= b -> b <= len l ->
  slice_get l (Z.to_nat a) (Z.to_nat b) = Some (take (Z.to_nat (b - a)) (drop (Z.to_nat a) l)).
Proof.
  unfold len. intros. apply slice_get_Some. split; [lia|]. f_equal. lia.
Qed.

Lemma slice_get_tail {A} (l : list A) (a : Z) :
  0 <= a <= len l -> slice_get l (Z.to_nat a) (length l) = Some (drop (Z.to_nat a) l).
Proof.
  unfold len. intros. apply slice_get_Some. split; [lia|].
  rewrite take_ge; [done|]. rewrite length_drop. lia.
Qed.

Lemma len_take {A} (l : list A) (n : Z) :
  0 <= n <= len l -> len (take (Z.to_nat n) l) = n.
Proof. unfold len. rewrite length_take. lia. Qed.

Lemma len_drop {A} (l : list A) (n : Z) :
  0 <= n <= len l -> len (drop (Z.to_nat n) l) = len l - n.
Proof. unfold len. rewrite length_drop. lia. Qed.

Lemma take_split {A} (l : list A) (a b : nat) :
  (a <= b)%nat -> take b l = take a l ++ take (b - a) (drop a l).
Proof.
  intros Hab. rewrite <- (take_drop a l) at 1.
  rewrite take_app, take_take, length_take.
  destruct (decide (a <= length l)%nat) as [Ha|Ha].
  - replace (b `min` a)%nat with a by lia. by replace (a `min` length l)%nat with a by lia.
  - rewrite !(drop_ge l) by lia. rewrite !take_nil, !app_nil_r. f_equal. lia.
Qed.

Lemma wrap_small bits v : fits bits v -> wrap bits v = v.
Proof. apply Z.mod_small. Qed.

(** As many distinct numbers below [n] as [n]: all of them. *)
Lemma nat_cover (l : list nat) n i :
  NoDup l -> (forall k, k ∈ l -> (k < n)%nat) -> length l = n -> (i < n)%nat -> i ∈ l.
Proof.
  intros Hnd Hlt Hlen Hi.
  assert (Hp : l ≡ₚ seq 0 n).
  { apply submseteq_length_Permutation; [|by rewrite length_seq; lia].
    apply NoDup_submseteq; [done|]. intros k Hk. apply elem_of_seq. specialize (Hlt k Hk). lia. }
  rewrite Hp. apply elem_of_seq. lia.
Qed.
