(* ===== verification/KeeperCodec.v ===== *)
(** * The keeper's framed wire codec

    Models [crates/roost-keeper/src/codec.rs]: the tag table, the frame
    envelope, the scalar codecs, and the streaming decoder [FrameDecoder].
    The decoder's unguarded indexing is modelled with an explicit panic
    outcome ([None]), so that "this input cannot crash the daemon" is a
    statement about the model. *)
From S2P Require Import Prelude.

(** ** Constants *)

Definition KEEPER_MAX_MUX_FRAME_BYTES : Z := 16 * 1024 * 1024.
Definition MUX_FRAME_HEADER_BYTES : Z := 3.
Definition KEEPER_MAX_INPUT_BYTES : Z := 64 * 1024.
Definition KEEPER_MAX_TERMINAL_DIMENSION : Z := 65535.
Definition KEEPER_MAX_HISTORY_RESIZE_RECORDS : Z := 4096.

(** ** Frame tags *)

Inductive MuxFrameType :=
| Spawn | SpawnAck | SpawnErr | KillChild | Exit
| PtyIn | PtyOut | PtyInRequest | PtyInAck | PtyInReject | PtyInAmbiguous
| Resize | ResizeRequest | ResizeAck | ResizeReject | ResizeStatus
| ListChannels | ListChannelsResp | Hello | HelloResp
| GetHistory | GetHistoryResp | GetHistoryRecords | GetHistoryRecordsResp
| Shutdown | ShutdownAck | GetTerminalState | GetTerminalStateResp
| ShutdownIfEmpty | ShutdownIfEmptyAck | ShutdownIfEmptyReject
| Ping | Pong.

#[global] Instance MuxFrameType_eq_dec : EqDecision MuxFrameType.
Proof. solve_decision. Defined.

(** [MuxFrameType::tag]: the enum's discriminants are the wire values. *)
Definition tag (t : MuxFrameType) : byte :=
  match t with
  | Spawn => Byte.x10 | SpawnAck => Byte.x11 | SpawnErr => Byte.x12
  | KillChild => Byte.x31 | Exit => Byte.x32
  | PtyIn => Byte.x20 | PtyOut => Byte.x21 | PtyInRequest => Byte.x22
  | PtyInAck => Byte.x23 | PtyInReject => Byte.x24 | PtyInAmbiguous => Byte.x25
  | Resize => Byte.x30 | ResizeRequest => Byte.x33 | ResizeAck => Byte.x34
  | ResizeReject => Byte.x35 | ResizeStatus => Byte.x36
  | ListChannels => Byte.xe0 | ListChannelsResp => Byte.xe1
  | Hello => Byte.xe2 | HelloResp => Byte.xe3
  | GetHistory => Byte.xe4 | GetHistoryResp => Byte.xe5
  | GetHistoryRecords => Byte.xe6 | GetHistoryRecordsResp => Byte.xe7
  | Shutdown => Byte.xe8 | ShutdownAck => Byte.xe9
  | GetTerminalState => Byte.xea | GetTerminalStateResp => Byte.xeb
  | ShutdownIfEmpty => Byte.xec | ShutdownIfEmptyAck => Byte.xed
  | ShutdownIfEmptyReject => Byte.xee
  | Ping => Byte.xf0 | Pong => Byte.xf1
  end.

(** [MuxFrameType::from_tag]. *)
Definition from_tag (b : byte) : option MuxFrameType :=
  match b with
  | Byte.x10 => Some Spawn | Byte.x11 => Some SpawnAck | Byte.x12 => Some SpawnErr
  | Byte.x20 => Some PtyIn | Byte.x21 => Some PtyOut | Byte.x22 => Some PtyInRequest
  | Byte.x23 => Some PtyInAck | Byte.x24 => Some PtyInReject
  | Byte.x25 => Some PtyInAmbiguous
  | Byte.x30 => Some Resize | Byte.x31 => Some KillChild | Byte.x32 => Some Exit
  | Byte.x33 => Some ResizeRequest | Byte.x34 => Some ResizeAck
  | Byte.x35 => Some ResizeReject | Byte.x36 => Some ResizeStatus
  | Byte.xe0 => Some ListChannels | Byte.xe1 => Some ListChannelsResp
  | Byte.xe2 => Some Hello | Byte.xe3 => Some HelloResp
  | Byte.xe4 => Some GetHistory | Byte.xe5 => Some GetHistoryResp
  | Byte.xe6 => Some GetHistoryRecords | Byte.xe7 => Some GetHistoryRecordsResp
  | Byte.xe8 => Some Shutdown | Byte.xe9 => Some ShutdownAck
  | Byte.xea => Some GetTerminalState | Byte.xeb => Some GetTerminalStateResp
  | Byte.xec => Some ShutdownIfEmpty | Byte.xed => Some ShutdownIfEmptyAck
  | Byte.xee => Some ShutdownIfEmptyReject
  | Byte.xf0 => Some Ping | Byte.xf1 => Some Pong
  | _ => None
  end.

(** ** Frames and errors *)

Record MuxFrame := mkMuxFrame {
  frame_type : MuxFrameType;
  frame_channel : Z;  (* channel_id: u16 *)
  frame_payload : list byte;
}.

Inductive CodecError :=
| FrameTooLarge (length : Z)
| LengthMismatch (claimed actual : Z)
| TruncatedPayload (name : string) (offset : Z)
| BadDimension (value : Z)
| InputTooLarge (name : string) (length : Z)
| BadJson (name reason : string)
| MalformedLengthPrefix (length : Z).

(** ** Scalar codecs *)

(** [write_sequence]: append a big-endian [u64]. *)
Definition write_sequence (out : list byte) (value : Z) : list byte :=
  out ++ to_be_bytes 8 value.

(** [read_sequence]. *)
Definition read_sequence (payload : list byte) (offset : nat) : option Z :=
  from_be_bytes <$> slice_get payload offset (offset + 8).

(** [read_u32]. *)
Definition read_u32 (payload : list byte) (offset : nat) : option Z :=
  from_be_bytes <$> slice_get payload offset (offset + 4).

(** [check_dimension]. *)
Definition check_dimension (value : Z) : result Z CodecError :=
  if (value =? 0) || (KEEPER_MAX_TERMINAL_DIMENSION <? value)
  then Err (BadDimension value) else Ok value.

(** ** Encoding *)

(** [MuxFrame::encode]. *)
Definition encode (f : MuxFrame) : list byte :=
  let body := 1 + 2 + len (frame_payload f) in
  to_be_bytes 4 (u32 body) ++ [tag (frame_type f)] ++
  to_be_bytes 2 (frame_channel f) ++ frame_payload f.

(** [MuxFrame::new]. *)
Definition MuxFrame_new (t : MuxFrameType) (channel : Z) (payload : list byte)
  : result MuxFrame CodecError :=
  if KEEPER_MAX_MUX_FRAME_BYTES <? len payload
  then Err (FrameTooLarge (u32 (len payload)))
  else Ok (mkMuxFrame t channel payload).

(** ** The streaming decoder *)

Inductive StreamEvent :=
| Frame (ft : option MuxFrameType) (raw_tag : byte) (channel : Z) (payload : list byte)
| Failed (e : CodecError).

Record FrameDecoder := mkDecoder { buffered : list byte }.

Definition FrameDecoder_new : FrameDecoder := mkDecoder [].

(** [FrameDecoder::buffered_len]. *)
Definition buffered_len (d : FrameDecoder) : Z := len (buffered d).

(** The loop of [FrameDecoder::push] over what is buffered. [None] is the
    panic of [frame[0]], [frame[1]], [frame[2]] or [frame[3..]] out of range;
    the fuel bounds the iterations, each of which consumes a frame. *)
Fixpoint push_loop (fuel : nat) (buf : list byte) (events : list StreamEvent)
  : option (list StreamEvent * list byte) :=
  match fuel with
  | O => Some (events, buf)
  | S fuel =>
    match slice_get buf 0 4 with
    | None => Some (events, buf)
    | Some prefix =>
      if negb (length prefix =? 4)%nat then
        Some (events ++ [Failed (MalformedLengthPrefix (len prefix))], [])
      else
      let claimed := from_be_bytes prefix in
      if KEEPER_MAX_MUX_FRAME_BYTES <? claimed then
        Some (events ++ [Failed (FrameTooLarge claimed)], [])
      else if claimed <? MUX_FRAME_HEADER_BYTES then
        Some (events ++ [Failed (LengthMismatch claimed (saturating_sub (len buf) 4))], [])
      else
        let total := 4 + claimed in
        if len buf <? total then Some (events, buf)
        else
          let frame := drop 4 (take (Z.to_nat total) buf) in
          let rest := drop (Z.to_nat total) buf in
          match frame !! 0%nat, frame !! 1%nat, frame !! 2%nat with
          | Some raw_tag, Some c0, Some c1 =>
            push_loop fuel rest
              (events ++ [Frame (from_tag raw_tag) raw_tag
                                (from_be_bytes [c0; c1]) (drop 3 frame)])
          | _, _, _ => None
          end
    end
  end.

(** [FrameDecoder::push]: the decoder after the read, and its events. *)
Definition push (d : FrameDecoder) (bytes : list byte)
  : option (FrameDecoder * list StreamEvent) :=
  let buf := buffered d ++ bytes in
  match push_loop (S (length buf)) buf [] with
  | Some (events, rest) => Some (mkDecoder rest, events)
  | None => None
  end.

(** ** Tags: lemmas *)

Lemma from_tag_tag t : from_tag (tag t) = Some t.
Proof. by destruct t. Qed.

Lemma tag_from_tag b t : from_tag b = Some t -> tag t = b.
Proof. destruct b; cbn; intros H; by simplify_eq. Qed.

(** ** Scalars: lemmas *)

Lemma slice_get_at {A} (p m l : list A) from to :
  from = length p -> to = (length p + length m)%nat ->
  slice_get (p ++ m ++ l) from to = Some m.
Proof.
  intros -> ->. rewrite <- (Nat.add_0_r (length p)) at 1.
  by rewrite slice_get_app_skip, slice_get_prefix.
Qed.

Lemma read_sequence_at p v l offset :
  fits 64 v -> offset = length p ->
  read_sequence (p ++ to_be_bytes 8 v ++ l) offset = Some v.
Proof.
  intros Hv ->. unfold read_sequence.
  rewrite slice_get_at by (rewrite ?length_to_be_bytes; done).
  cbn. by rewrite from_to_be_bytes_fits.
Qed.

Lemma read_sequence_head v l :
  fits 64 v -> read_sequence (to_be_bytes 8 v ++ l) 0 = Some v.
Proof. intros Hv. by apply (read_sequence_at [] v l 0). Qed.

Lemma read_u32_at p v l offset :
  fits 32 v -> offset = length p ->
  read_u32 (p ++ to_be_bytes 4 v ++ l) offset = Some v.
Proof.
  intros Hv ->. unfold read_u32.
  rewrite slice_get_at by (rewrite ?length_to_be_bytes; done).
  cbn. by rewrite from_to_be_bytes_fits.
Qed.

Lemma read_sequence_Some payload offset v :
  read_sequence payload offset = Some v ->
  (offset + 8 <= length payload)%nat /\ fits 64 v /\
  to_be_bytes 8 v = take 8 (drop offset payload).
Proof.
  unfold read_sequence. intros (s & Hs & ->)%fmap_Some.
  pose proof (slice_get_length _ _ _ _ Hs) as Hl.
  apply slice_get_Some in Hs as [? Heq].
  replace (offset + 8 - offset)%nat with 8%nat in * by lia.
  split_and!; [lia| |].
  - pose proof (from_be_bytes_fits s) as Hf. unfold len in Hf. by rewrite Hl in Hf.
  - rewrite to_from_be_bytes_len by done. done.
Qed.

Lemma read_u32_Some payload offset v :
  read_u32 payload offset = Some v ->
  (offset + 4 <= length payload)%nat /\ fits 32 v /\
  to_be_bytes 4 v = take 4 (drop offset payload).
Proof.
  unfold read_u32. intros (s & Hs & ->)%fmap_Some.
  pose proof (slice_get_length _ _ _ _ Hs) as Hl.
  apply slice_get_Some in Hs as [? Heq].
  replace (offset + 4 - offset)%nat with 4%nat in * by lia.
  split_and!; [lia| |].
  - pose proof (from_be_bytes_fits s) as Hf. unfold len in Hf. by rewrite Hl in Hf.
  - rewrite to_from_be_bytes_len by done. done.
Qed.

Lemma check_dimension_ok v d :
  check_dimension v = Ok d <-> d = v /\ v <> 0 /\ v <= KEEPER_MAX_TERMINAL_DIMENSION.
Proof.
  unfold check_dimension, KEEPER_MAX_TERMINAL_DIMENSION.
  destruct (Z.eqb_spec v 0), (Z.ltb_spec 65535 v); cbn [orb]; naive_solver lia.
Qed.

(** ** The decoder's single step *)

(** What one iteration of the decoding loop makes of the buffer: it waits for
    more bytes, it fails the stream, or it yields a frame. *)
Inductive outcome :=
| Wait
| Bad (e : CodecError)
| Got (ev : StreamEvent) (rest : list byte).

Definition parse_one (buf : list byte) : outcome :=
  match buf with
  | b0 :: b1 :: b2 :: b3 :: body =>
    let claimed := from_be_bytes [b0; b1; b2; b3] in
    if KEEPER_MAX_MUX_FRAME_BYTES <? claimed then Bad (FrameTooLarge claimed)
    else if claimed <? MUX_FRAME_HEADER_BYTES then Bad (LengthMismatch claimed (len body))
    else if len body <? claimed then Wait
    else match take (Z.to_nat claimed) body with
         | t :: c0 :: c1 :: payload =>
           Got (Frame (from_tag t) t (from_be_bytes [c0; c1]) payload)
               (drop (Z.to_nat claimed) body)
         | _ => Wait
         end
  | _ => Wait
  end.

Lemma take_long {A} (l : list A) (n : Z) :
  3 <= n -> n <= len l ->
  exists a b c k, take (Z.to_nat n) l = a :: b :: c :: k.
Proof.
  unfold len. intros Hn Hl.
  destruct l as [|a [|b [|c l]]]; cbn [length] in Hl; try lia.
  exists a, b, c, (take (Z.to_nat n - 3) l).
  by replace (Z.to_nat n) with (S (S (S (Z.to_nat n - 3)))) at 1 by lia.
Qed.

(** One iteration of the code's loop is [parse_one]; in particular none of the
    indexing in it can be out of range. *)
Lemma push_loop_step n buf evs :
  push_loop (S n) buf evs =
  match parse_one buf with
  | Wait => Some (evs, buf)
  | Bad e => Some (evs ++ [Failed e], [])
  | Got ev rest => push_loop n rest (evs ++ [ev])
  end.
Proof.
  cbn [push_loop]. unfold slice_get, parse_one.
  destruct buf as [|b0 [|b1 [|b2 [|b3 body]]]]; try done.
  cbn [Nat.leb andb length Nat.sub take drop Nat.eqb negb].
  rewrite !len_cons. unfold MUX_FRAME_HEADER_BYTES, saturating_sub.
  pose proof (len_nonneg body).
  destruct (KEEPER_MAX_MUX_FRAME_BYTES <? _); [done|].
  set (claimed := from_be_bytes _).
  destruct (Z.ltb_spec claimed 3).
  { by replace (Z.max 0 _) with (len body) by lia. }
  replace (1 + (1 + (1 + (1 + len body))) <? 4 + claimed) with (len body <? claimed)
    by (destruct (Z.ltb_spec (len body) claimed),
          (Z.ltb_spec (1 + (1 + (1 + (1 + len body)))) (4 + claimed)); lia).
  destruct (Z.ltb_spec (len body) claimed); [done|].
  replace (Z.to_nat (4 + claimed)) with (S (S (S (S (Z.to_nat claimed))))) by lia.
  cbn [take drop].
  destruct (take_long body claimed) as (t & c0 & c1 & k & ->); [lia|lia|].
  done.
Qed.

Lemma parse_one_shrinks buf ev rest :
  parse_one buf = Got ev rest -> (length rest < length buf)%nat.
Proof.
  destruct buf as [|b0 [|b1 [|b2 [|b3 body]]]]; try done. cbn [parse_one].
  repeat case_match; intros ?; simplify_eq.
  rewrite length_drop. cbn [length]. lia.
Qed.

(** A verdict on a buffer is not changed by the bytes that arrive later. *)
Lemma parse_one_app buf more :
  match parse_one buf with
  | Wait => True
  | Bad _ => exists e, parse_one (buf ++ more) = Bad e
  | Got ev rest => parse_one (buf ++ more) = Got ev (rest ++ more)
  end.
Proof.
  destruct buf as [|b0 [|b1 [|b2 [|b3 body]]]]; try done. cbn [parse_one app].
  set (claimed := from_be_bytes _).
  destruct (KEEPER_MAX_MUX_FRAME_BYTES <? claimed); [by eexists|].
  destruct (Z.ltb_spec claimed MUX_FRAME_HEADER_BYTES); [by eexists|].
  destruct (Z.ltb_spec (len body) claimed) as [|Hle]; [done|].
  replace (len (body ++ more) <? claimed) with false
    by (symmetry; apply Z.ltb_ge; rewrite len_app; pose proof (len_nonneg more); lia).
  assert (Z.to_nat claimed <= length body)%nat by (unfold len in *; lia).
  rewrite take_app_le, drop_app_le by done.
  by destruct (take (Z.to_nat claimed) body) as [|t [|c0 [|c1 k]]].
Qed.

(** ** The decoding loop: lemmas *)

Lemma push_loop_total n buf evs : is_Some (push_loop n buf evs).
Proof.
  revert buf evs. induction n as [|n IH]; intros; [by eexists|].
  rewrite push_loop_step. case_match; [by eexists|by eexists|apply IH].
Qed.

(** The loop never runs out of fuel. *)
Lemma push_loop_fuel n m buf evs :
  (length buf < n)%nat -> (length buf < m)%nat ->
  push_loop n buf evs = push_loop m buf evs.
Proof.
  revert m buf evs. induction n as [|n IH]; intros m buf evs Hn Hm; [lia|].
  destruct m as [|m]; [lia|]. rewrite !push_loop_step.
  case_match eqn:E; try done. apply parse_one_shrinks in E. apply IH; lia.
Qed.

Lemma push_loop_acc n buf evs :
  push_loop n buf evs =
  match push_loop n buf [] with
  | Some (es, rest) => Some (evs ++ es, rest)
  | None => None
  end.
Proof.
  revert buf evs. induction n as [|n IH]; intros buf evs.
  { cbn. by rewrite app_nil_r. }
  rewrite !push_loop_step. destruct (parse_one buf); cbn.
  - by rewrite app_nil_r.
  - done.
  - rewrite IH, (IH _ [ev]).
    destruct (push_loop n rest []) as [[]|]; [by rewrite <- app_assoc|done].
Qed.

Definition is_failed (ev : StreamEvent) : bool :=
  match ev with Failed _ => true | Frame _ _ _ _ => false end.

(** No event of the list ends the stream. *)
Definition intact (evs : list StreamEvent) : Prop :=
  Forall (fun ev => is_failed ev = false) evs.

(** The buffer decoded to the end, with enough fuel for any buffer. *)
Definition decode_all (buf : list byte) : option (list StreamEvent * list byte) :=
  push_loop (S (length buf)) buf [].
Arguments decode_all : simpl never.

Lemma decode_all_step buf :
  decode_all buf =
  match parse_one buf with
  | Wait => Some ([], buf)
  | Bad e => Some ([Failed e], [])
  | Got ev rest =>
    match decode_all rest with
    | Some (es, r) => Some (ev :: es, r)
    | None => None
    end
  end.
Proof.
  unfold decode_all at 1. rewrite push_loop_step.
  destruct (parse_one buf) eqn:E; try done. cbn [app].
  rewrite push_loop_acc. unfold decode_all.
  apply parse_one_shrinks in E.
  rewrite (push_loop_fuel (length buf) (S (length rest))) by lia. done.
Qed.

Lemma decode_all_total buf : exists es rest, decode_all buf = Some (es, rest).
Proof. destruct (push_loop_total (S (length buf)) buf []) as [[es r] ?]. by exists es, r. Qed.

Lemma parse_one_got_not_failed buf ev rest :
  parse_one buf = Got ev rest -> is_failed ev = false.
Proof.
  destruct buf as [|b0 [|b1 [|b2 [|b3 body]]]]; try done. cbn [parse_one].
  repeat case_match; intros ?; by simplify_eq.
Qed.

(** Decoding a buffer, then the remainder with what arrives next, is decoding
    the whole at once, as long as the first part did not fail the stream. *)
Lemma decode_all_app buf more es rest :
  decode_all buf = Some (es, rest) -> intact es ->
  decode_all (buf ++ more) =
  match decode_all (rest ++ more) with
  | Some (es', r) => Some (es ++ es', r)
  | None => None
  end.
Proof.
  remember (length buf) as n eqn:Hn. revert buf Hn es rest.
  induction n as [n IH] using lt_wf_ind. intros buf -> es rest Hd Hi.
  rewrite decode_all_step in Hd. pose proof (parse_one_app buf more) as Happ.
  destruct (parse_one buf) as [|e|ev r] eqn:E; simplify_eq.
  - cbn. by destruct (decode_all (rest ++ more)) as [[]|].
  - inversion Hi as [|? ? Hx]; done.
  - destruct (decode_all_total r) as (es1 & r1 & Hr). rewrite Hr in Hd. simplify_eq.
    rewrite decode_all_step, Happ.
    erewrite IH; [|by eapply parse_one_shrinks|done|done|by inversion Hi].
    by destruct (decode_all (rest ++ more)) as [[]|].
Qed.

(** If the whole decodes without failure then so does each prefix of it. *)
Lemma decode_all_prefix_intact buf more es rest es' rest' :
  decode_all buf = Some (es, rest) ->
  decode_all (buf ++ more) = Some (es', rest') ->
  intact es' -> intact es.
Proof.
  remember (length buf) as n eqn:Hn. revert buf Hn es rest es' rest'.
  induction n as [n IH] using lt_wf_ind. intros buf -> es rest es' rest' Hd Hd' Hi.
  rewrite decode_all_step in Hd, Hd'. pose proof (parse_one_app buf more) as Happ.
  destruct (parse_one buf) as [|e|ev r] eqn:E; simplify_eq; [constructor| |].
  - destruct Happ as [e' Happ]. rewrite Happ in Hd'. simplify_eq.
    inversion Hi; done.
  - rewrite Happ in Hd'.
    destruct (decode_all_total r) as (es1 & r1 & Hr). rewrite Hr in Hd. simplify_eq.
    destruct (decode_all_total (r ++ more)) as (es2 & r2 & Hr2). rewrite Hr2 in Hd'.
    simplify_eq. inversion Hi; simplify_eq. constructor; [done|].
    eapply IH; [by eapply parse_one_shrinks|reflexivity|done|done|done].
Qed.

Lemma push_decode d bytes :
  push d bytes =
  match decode_all (buffered d ++ bytes) with
  | Some (es, r) => Some (mkDecoder r, es)
  | None => None
  end.
Proof. done. Qed.

(** ** Sequences of reads *)

(** The decoder over a sequence of socket reads, as the connection loops of the
    keeper and of its client feed it. *)
Fixpoint feed (d : FrameDecoder) (reads : list (list byte))
  : option (FrameDecoder * list StreamEvent) :=
  match reads with
  | [] => Some (d, [])
  | bytes :: reads =>
    match push d bytes with
    | None => None
    | Some (d, es) =>
      match feed d reads with
      | None => None
      | Some (d', es') => Some (d', es ++ es')
      end
    end
  end.

(** The event a well-formed frame decodes to. *)
Definition frame_event (f : MuxFrame) : StreamEvent :=
  Frame (Some (frame_type f)) (tag (frame_type f)) (frame_channel f) (frame_payload f).

(** A frame the wire can carry: the channel fits its two bytes and the body,
    with its three bytes of header, the frame bound. *)
Definition frame_wire_ok (f : MuxFrame) : Prop :=
  fits 16 (frame_channel f) /\
  MUX_FRAME_HEADER_BYTES + len (frame_payload f) <= KEEPER_MAX_MUX_FRAME_BYTES.

Lemma to_be_bytes_4 v : exists a b c d, to_be_bytes 4 v = [a; b; c; d].
Proof.
  pose proof (length_to_be_bytes 4 v) as H.
  destruct (to_be_bytes 4 v) as [|a [|b [|c [|d [|]]]]]; try discriminate. by repeat eexists.
Qed.

Lemma to_be_bytes_2 v : exists a b, to_be_bytes 2 v = [a; b].
Proof.
  pose proof (length_to_be_bytes 2 v) as H.
  destruct (to_be_bytes 2 v) as [|a [|b [|]]]; try discriminate. by repeat eexists.
Qed.

Lemma parse_one_encode f rest :
  frame_wire_ok f -> parse_one (encode f ++ rest) = Got (frame_event f) rest.
Proof.
  intros [Hc Hp]. unfold encode, MUX_FRAME_HEADER_BYTES, KEEPER_MAX_MUX_FRAME_BYTES in *.
  pose proof (len_nonneg (frame_payload f)).
  assert (fits 32 (1 + 2 + len (frame_payload f))) as Hf by (unfold fits; lia).
  rewrite wrap_small by done.
  pose proof (from_to_be_bytes_fits 4 _ Hf) as H4.
  pose proof (from_to_be_bytes_fits 2 _ Hc) as H2.
  destruct (to_be_bytes_4 (1 + 2 + len (frame_payload f))) as (a & b & c & d & E4).
  destruct (to_be_bytes_2 (frame_channel f)) as (x & y & E2).
  rewrite E4 in *. rewrite E2 in *. cbn [app parse_one].
  rewrite H4. unfold KEEPER_MAX_MUX_FRAME_BYTES, MUX_FRAME_HEADER_BYTES.
  destruct (Z.ltb_spec (16 * 1024 * 1024) (1 + 2 + len (frame_payload f))); [lia|].
  destruct (Z.ltb_spec (1 + 2 + len (frame_payload f)) 3); [lia|].
  rewrite !len_cons, len_app. pose proof (len_nonneg rest).
  case_if; bool_to_prop; [lia|].
  replace (Z.to_nat (1 + 2 + len (frame_payload f)))
    with (S (S (S (length (frame_payload f))))) by (unfold len; lia).
  cbn [take drop]. rewrite take_app_length, drop_app_length, H2.
  unfold frame_event. by rewrite from_tag_tag.
Qed.

Lemma decode_all_encoded fs :
  Forall frame_wire_ok fs ->
  decode_all (concat (map encode fs)) = Some (map frame_event fs, []).
Proof.
  induction 1 as [|f fs Hf _ IH]; [done|]. cbn [map concat].
  rewrite decode_all_step, parse_one_encode by done. by rewrite IH.
Qed.

Lemma intact_frame_events fs : intact (map frame_event fs).
Proof. unfold intact. rewrite Forall_map. by apply Forall_true. Qed.

(** A decoder between reads holds no complete frame and no bad prefix. *)
Definition idle (d : FrameDecoder) : Prop :=
  decode_all (buffered d) = Some ([], buffered d).

Lemma decode_all_leaves_idle buf es rest :
  decode_all buf = Some (es, rest) -> intact es -> idle (mkDecoder rest).
Proof.
  remember (length buf) as n eqn:Hn. revert buf Hn es rest.
  induction n as [n IH] using lt_wf_ind. intros buf -> es rest Hd Hi.
  rewrite decode_all_step in Hd.
  destruct (parse_one buf) as [|e|ev r] eqn:E; simplify_eq.
  - unfold idle. cbn. by rewrite decode_all_step, E.
  - by inversion Hi.
  - destruct (decode_all_total r) as (es1 & r1 & Hr). rewrite Hr in Hd. simplify_eq.
    eapply IH; [by eapply parse_one_shrinks|reflexivity|done|by inversion Hi].
Qed.

(** A sequence of reads is decoded like the one read of all of it. *)
Lemma feed_decode_all d reads es rest :
  idle d -> decode_all (buffered d ++ concat reads) = Some (es, rest) -> intact es ->
  feed d reads = Some (mkDecoder rest, es).
Proof.
  revert d es rest. induction reads as [|bytes reads IH]; intros d es rest Hidle Hd Hi.
  { cbn in Hd. rewrite app_nil_r, Hidle in Hd. simplify_eq. by destruct d. }
  cbn [concat feed] in *. rewrite app_assoc in Hd. rewrite push_decode.
  destruct (decode_all_total (buffered d ++ bytes)) as (es1 & r1 & H1). rewrite H1.
  pose proof (decode_all_prefix_intact _ _ _ _ _ _ H1 Hd Hi) as Hi1.
  rewrite (decode_all_app _ _ _ _ H1 Hi1) in Hd.
  destruct (decode_all_total (r1 ++ concat reads)) as (es2 & r2 & H2).
  rewrite H2 in Hd. simplify_eq. apply Forall_app in Hi as [_ Hi2].
  rewrite (IH (mkDecoder r1) es2 rest); [done|by eapply decode_all_leaves_idle|done|done].
Qed.

(** What the decoder holds back is always less than one largest frame. *)
Lemma decode_all_bounded buf es rest :
  decode_all buf = Some (es, rest) -> len rest < 4 + KEEPER_MAX_MUX_FRAME_BYTES.
Proof.
  remember (length buf) as n eqn:Hn. revert buf Hn es rest.
  induction n as [n IH] using lt_wf_ind. intros buf -> es rest Hd.
  rewrite decode_all_step in Hd.
  destruct (parse_one buf) as [|e|ev r] eqn:E; simplify_eq; [|done|].
  - unfold KEEPER_MAX_MUX_FRAME_BYTES.
    destruct rest as [|b0 [|b1 [|b2 [|b3 body]]]]; try done.
    cbn [parse_one] in E. rewrite !len_cons.
    unfold KEEPER_MAX_MUX_FRAME_BYTES, MUX_FRAME_HEADER_BYTES in E.
    set (claimed := from_be_bytes _) in E.
    destruct (Z.ltb_spec (16 * 1024 * 1024) claimed); [done|].
    destruct (Z.ltb_spec claimed 3); [done|].
    destruct (Z.ltb_spec (len body) claimed); [lia|].
    destruct (take_long body claimed) as (t & c0 & c1 & k & Ht); [lia|lia|].
    by rewrite Ht in E.
  - destruct (decode_all_total r) as (es1 & r1 & Hr). rewrite Hr in Hd. simplify_eq.
    eapply IH; [by eapply parse_one_shrinks|reflexivity|done].
Qed.

(** ** Properties of the decoder *)

(** Whatever bytes a peer sends, and whatever the decoder still holds, a read
    is decoded without an index out of range (the four-byte denial of service
    the source's comment describes cannot happen) and leaves less than one
    largest frame buffered, so a peer cannot grow the keeper's memory. *)
Theorem push_total_bounded (d : FrameDecoder) (bytes : list byte) :
  exists d' events, push d bytes = Some (d', events) /\
    buffered_len d' < 4 + KEEPER_MAX_MUX_FRAME_BYTES.
Proof.
  rewrite push_decode.
  destruct (decode_all_total (buffered d ++ bytes)) as (es & r & H). rewrite H.
  exists (mkDecoder r), es. split; [done|]. by eapply decode_all_bounded.
Qed.

(** A socket read splits wherever it likes: a stream that contains no protocol
    violation decodes to the same events and the same remainder however it is
    cut into reads. *)
Theorem feed_split_invariant (reads : list (list byte)) d events :
  push FrameDecoder_new (concat reads) = Some (d, events) ->
  Forall (fun ev => is_failed ev = false) events ->
  feed FrameDecoder_new reads = Some (d, events).
Proof.
  rewrite push_decode. intros Hd Hi. case_match eqn:E; [|done]. case_match. simplify_eq.
  by eapply feed_decode_all.
Qed.

Lemma feed_split_invariant_witness :
  feed FrameDecoder_new [[Byte.x00; Byte.x00]; [Byte.x00; Byte.x03; Byte.xf0]; [Byte.x00; Byte.x00]]
  = Some (mkDecoder [], [Frame (Some Ping) Byte.xf0 0 []]).
Proof.
  apply feed_split_invariant; [by vm_compute|].
  repeat constructor.
Defined.

(** Round trip of the envelope: frames written one after another and cut into
    arbitrary reads decode to exactly those frames, in order, with nothing
    left over. *)
Theorem frames_roundtrip (fs : list MuxFrame) (reads : list (list byte)) :
  Forall frame_wire_ok fs -> concat reads = concat (map encode fs) ->
  feed FrameDecoder_new reads = Some (FrameDecoder_new, map frame_event fs).
Proof.
  intros Hfs Hr. eapply feed_decode_all; [done| |apply intact_frame_events].
  cbn [buffered FrameDecoder_new app]. rewrite Hr. by apply decode_all_encoded.
Qed.

Lemma frames_roundtrip_witness :
  feed FrameDecoder_new
    [[Byte.x00; Byte.x00; Byte.x00; Byte.x05; Byte.x21; Byte.x00];
     [Byte.x07; Byte.x68; Byte.x69; Byte.x00; Byte.x00; Byte.x00; Byte.x03; Byte.xf1; Byte.x00; Byte.x00]]
  = Some (FrameDecoder_new,
          map frame_event [mkMuxFrame PtyOut 7 [Byte.x68; Byte.x69]; mkMuxFrame Pong 0 []]).
Proof.
  apply frames_roundtrip; [|by vm_compute].
  repeat constructor; vm_compute; congruence.
Defined.

(** The frame bound is checked against two different quantities: [MuxFrame::new]
    bounds the payload, the decoder bounds the payload plus its three header
    bytes. A payload within three bytes of the maximum is therefore accepted by
    the constructor and refused by every decoder. *)
Theorem new_accepts_undecodable_frame (t : MuxFrameType) (payload : list byte) :
  KEEPER_MAX_MUX_FRAME_BYTES - 3 < len payload <= KEEPER_MAX_MUX_FRAME_BYTES ->
  exists f, MuxFrame_new t 1 payload = Ok f /\
    push FrameDecoder_new (encode f)
    = Some (FrameDecoder_new, [Failed (FrameTooLarge (3 + len payload))]).
Proof.
  unfold MuxFrame_new, KEEPER_MAX_MUX_FRAME_BYTES. intros Hl.
  destruct (Z.ltb_spec (16 * 1024 * 1024) (len payload)); [lia|].
  eexists. split; [done|]. rewrite push_decode. cbn [buffered FrameDecoder_new app].
  rewrite decode_all_step. unfold encode. cbn [frame_type frame_channel frame_payload].
  assert (fits 32 (1 + 2 + len payload)) as Hf by (unfold fits; lia).
  rewrite wrap_small by done. pose proof (from_to_be_bytes_fits 4 _ Hf) as H4.
  destruct (to_be_bytes_4 (1 + 2 + len payload)) as (a & b & c & e & E4).
  rewrite E4 in *. cbn [app parse_one]. rewrite H4.
  unfold KEEPER_MAX_MUX_FRAME_BYTES.
  destruct (Z.ltb_spec (16 * 1024 * 1024) (1 + 2 + len payload)); [|lia].
  done.
Qed.

Lemma new_accepts_undecodable_frame_witness :
  exists f, MuxFrame_new PtyOut 1 (repeat Byte.x00 (Z.to_nat (16 * 1024 * 1024))) = Ok f /\
    push FrameDecoder_new (encode f)
    = Some (FrameDecoder_new,
            [Failed (FrameTooLarge (3 + len (repeat Byte.x00 (Z.to_nat (16 * 1024 * 1024)))))]).
Proof.
  apply new_accepts_undecodable_frame.
  unfold len, KEEPER_MAX_MUX_FRAME_BYTES. rewrite repeat_length. lia.
Defined.
