(* ===== verification/KeeperPayloads.v ===== *)
(** * The keeper's typed payloads

    Models [crates/roost-keeper/src/payloads.rs] (capability negotiation,
    sequenced input, sequenced geometry, terminal state) and the records of
    [crates/roost-keeper/src/frames.rs]. The JSON payloads are serde's, so
    their bytes are a parameter of the components that use them; the binary
    payloads are encoded and decoded here. *)
From S2P Require Import Prelude KeeperCodec.

(** ** Capability negotiation *)

Inductive KeeperFeature :=
| OrderedHistory | AcknowledgedInput | AcknowledgedResize | TerminalStateFeature.

#[global] Instance KeeperFeature_eq_dec : EqDecision KeeperFeature.
Proof. solve_decision. Defined.

(** [KeeperFeature::SUPPORTED]. *)
Definition SUPPORTED : list KeeperFeature :=
  [OrderedHistory; AcknowledgedInput; AcknowledgedResize; TerminalStateFeature].

(** [KeeperFeature::REQUIRED]. *)
Definition REQUIRED : list KeeperFeature :=
  [OrderedHistory; AcknowledgedInput; AcknowledgedResize].

(** [KeeperFeature::wire_name]. *)
Definition wire_name (f : KeeperFeature) : string :=
  match f with
  | OrderedHistory => "ordered_history_v1"
  | AcknowledgedInput => "acknowledged_input_v1"
  | AcknowledgedResize => "acknowledged_resize_v1"
  | TerminalStateFeature => "terminal_state_v1"
  end.

(** [KeeperFeature::from_wire_name]: the first supported feature of that name. *)
Definition from_wire_name (name : string) : option KeeperFeature :=
  List.find (fun f => String.eqb (wire_name f) name) SUPPORTED.

(** The loop of [negotiate_features]. *)
Definition negotiate_step (negotiated : list KeeperFeature) (name : string)
  : list KeeperFeature :=
  match from_wire_name name with
  | None => negotiated
  | Some f => if bool_decide (f ∈ negotiated) then negotiated else negotiated ++ [f]
  end.

(** [negotiate_features]. *)
Definition negotiate_features (requested : list string) : list KeeperFeature :=
  foldl negotiate_step [] requested.

Definition KEEPER_PROTOCOL_VERSION : Z := 3.

(** ** JSON payload records *)

Record ShellSpec := mkShellSpec {
  program : string;
  args : list string;
  env : list (string * string);
  cwd : option string;
}.

(** [ShellSpec::default_login]. *)
Definition default_login (shell : string) : ShellSpec :=
  mkShellSpec shell ["-l"] [("SHELL", shell)] None.

Record SpawnRequest := mkSpawnRequest {
  spawn_channel_id : Z;
  spawn_cols : Z;
  spawn_rows : Z;
  shell_spec : ShellSpec;
}.

Record SpawnAckFrame := mkSpawnAck { ack_channel_id : Z; ack_pid : Z }.
Record SpawnErrFrame := mkSpawnErr { err_channel_id : Z; err_error : string }.
Record ExitFrame := mkExitFrame { exit_code : option Z }.
Record ChannelBinding := mkBinding { binding_channel_id : Z; binding_pid : Z }.

Record KeeperHelloRequest := mkHelloRequest {
  hello_version : Z;
  hello_capability : string;
  hello_features : list string;
  hello_pid : option Z;
  hello_process_epoch : option string;
}.

(** ** Sequenced input *)

Record PtyInRequestP := mkPtyInRequest { input_seq : Z; input_bytes : list byte }.

(** [PtyInRequest::encode]. *)
Definition PtyInRequest_encode (r : PtyInRequestP) : list byte :=
  write_sequence [] (input_seq r) ++ input_bytes r.

(** [PtyInRequest::decode]. *)
Definition PtyInRequest_decode (payload : list byte) (name : string)
  : result PtyInRequestP CodecError :=
  match read_sequence payload 0 with
  | None => Err (TruncatedPayload name 0)
  | Some seq =>
    let bytes := drop 8 payload in
    if KEEPER_MAX_INPUT_BYTES <? len bytes
    then Err (InputTooLarge name (u32 (len bytes)))
    else Ok (mkPtyInRequest seq bytes)
  end.

Inductive PtyInRejectReason :=
| NoSuchChannel | NoReader | QueueFull | ChildExited | PartialWrite.

#[global] Instance PtyInRejectReason_eq_dec : EqDecision PtyInRejectReason.
Proof. solve_decision. Defined.

(** [PtyInRejectReason::code]. *)
Definition reason_code (r : PtyInRejectReason) : Z :=
  match r with
  | NoSuchChannel => 1 | NoReader => 2 | QueueFull => 3
  | ChildExited => 4 | PartialWrite => 5
  end.

(** [PtyInRejectReason::from_code]. *)
Definition reason_from_code (code : Z) : PtyInRejectReason :=
  if code =? 2 then NoReader
  else if code =? 3 then QueueFull
  else if code =? 4 then ChildExited
  else if code =? 5 then PartialWrite
  else NoSuchChannel.

Inductive PtyInResult :=
| Ack (seq written : Z)
| Reject (seq : Z) (reason : PtyInRejectReason)
| Ambiguous (seq written : Z) (reason : PtyInRejectReason).

(** [PtyInResult::encode]: [[seq:u64][written:u32][reason:u8]]. *)
Definition PtyInResult_encode (r : PtyInResult) : list byte :=
  let '(seq, written, reason) :=
    match r with
    | Ack seq written => (seq, written, 0)
    | Reject seq reason => (seq, 0, reason_code reason)
    | Ambiguous seq written reason => (seq, written, reason_code reason)
    end in
  write_sequence [] seq ++ to_be_bytes 4 written ++ to_be_bytes 1 reason.

(** [PtyInResult::decode]. *)
Definition PtyInResult_decode (t : MuxFrameType) (payload : list byte)
  : option PtyInResult :=
  match read_sequence payload 0 with
  | None => None
  | Some seq =>
    let written := default 0 (read_u32 payload 8) in
    let reason := reason_from_code
      (default 0 ((fun b => from_be_bytes [b]) <$> payload !! 12%nat)) in
    match t with
    | PtyInAck => Some (Ack seq written)
    | PtyInReject => Some (Reject seq reason)
    | PtyInAmbiguous => Some (Ambiguous seq written reason)
    | _ => None
    end
  end.

(** ** Sequenced geometry *)

Record ResizeRequestP := mkResizeRequest {
  resize_seq : Z; resize_cols : Z; resize_rows : Z;
}.

(** [ResizeRequest::encode]: [[seq:u64][cols:u32][rows:u32]]. *)
Definition ResizeRequest_encode (r : ResizeRequestP) : result (list byte) CodecError :=
  let? cols := check_dimension (resize_cols r) in
  let? rows := check_dimension (resize_rows r) in
  Ok (write_sequence [] (resize_seq r) ++ to_be_bytes 4 cols ++ to_be_bytes 4 rows).

(** [ResizeRequest::decode]. *)
Definition ResizeRequest_decode (payload : list byte) (name : string)
  : result ResizeRequestP CodecError :=
  match read_sequence payload 0 with
  | None => Err (TruncatedPayload name 0)
  | Some seq =>
    match read_u32 payload 8 with
    | None => Err (TruncatedPayload name 8)
    | Some cols =>
      match read_u32 payload 12 with
      | None => Err (TruncatedPayload name 12)
      | Some rows =>
        let? c := check_dimension cols in
        let? r := check_dimension rows in
        Ok (mkResizeRequest seq (u16 c) (u16 r))
      end
    end
  end.

Record TerminalState := mkTerminalState {
  applied_seq : Z; state_cols : Z; state_rows : Z;
}.

(** [TerminalState::encode]. *)
Definition TerminalState_encode (s : TerminalState) : result (list byte) CodecError :=
  ResizeRequest_encode (mkResizeRequest (applied_seq s) (state_cols s) (state_rows s)).

(** [TerminalState::decode]. *)
Definition TerminalState_decode (payload : list byte) : result TerminalState CodecError :=
  let? r := ResizeRequest_decode payload "terminal state" in
  Ok (mkTerminalState (resize_seq r) (resize_cols r) (resize_rows r)).

(** [pty_in_request_frame]. *)
Definition pty_in_request_frame (channel : Z) (request : PtyInRequestP)
  : result MuxFrame CodecError :=
  MuxFrame_new PtyInRequest channel (PtyInRequest_encode request).

(** ** Lemmas: negotiation *)

Lemma from_wire_name_wire_name f : from_wire_name (wire_name f) = Some f.
Proof. by destruct f. Qed.

Lemma wire_name_from_wire_name name f : from_wire_name name = Some f -> wire_name f = name.
Proof. intros [_ H]%List.find_some. by apply String.eqb_eq. Qed.

Lemma negotiate_snoc requested name :
  negotiate_features (requested ++ [name]) =
  negotiate_step (negotiate_features requested) name.
Proof. unfold negotiate_features. by rewrite foldl_app. Qed.

Lemma negotiate_features_elem requested f :
  f ∈ negotiate_features requested <-> wire_name f ∈ requested.
Proof.
  induction requested as [|name requested IH] using rev_ind; [set_solver|].
  rewrite negotiate_snoc, elem_of_app, list_elem_of_singleton. unfold negotiate_step.
  destruct (from_wire_name name) as [g|] eqn:E.
  - apply wire_name_from_wire_name in E as <-.
    assert (wire_name f = wire_name g <-> f = g) by (destruct f, g; done).
    case_bool_decide; [|rewrite elem_of_app, list_elem_of_singleton]; naive_solver.
  - rewrite IH. split; [by left|]. intros [?|<-]; [done|].
    by rewrite from_wire_name_wire_name in E.
Qed.

Lemma negotiate_features_NoDup requested : NoDup (negotiate_features requested).
Proof.
  induction requested as [|name requested IH] using rev_ind; [constructor|].
  rewrite negotiate_snoc. unfold negotiate_step.
  case_match; [|done]. case_bool_decide; [done|].
  apply NoDup_app. split_and!; [done| |by apply NoDup_singleton].
  intros x ? ->%list_elem_of_singleton. done.
Qed.

(** ** Lemmas: binary payloads *)

(** A terminal dimension the wire accepts. *)
Definition dimension_ok (v : Z) : Prop := 1 <= v <= KEEPER_MAX_TERMINAL_DIMENSION.

Lemma check_dimension_Ok v : dimension_ok v -> check_dimension v = Ok v.
Proof. intros H. apply check_dimension_ok. unfold dimension_ok in H. lia. Qed.

Lemma check_dimension_inv v d :
  0 <= v -> check_dimension v = Ok d -> d = v /\ dimension_ok v.
Proof. intros ? (-> & ? & ?)%check_dimension_ok. unfold dimension_ok. lia. Qed.

Lemma dimension_fits16 v : dimension_ok v -> fits 16 v.
Proof. unfold dimension_ok, fits, KEEPER_MAX_TERMINAL_DIMENSION. lia. Qed.

Lemma dimension_fits32 v : dimension_ok v -> fits 32 v.
Proof. unfold dimension_ok, fits, KEEPER_MAX_TERMINAL_DIMENSION. lia. Qed.

Lemma dimension_u16 v : dimension_ok v -> u16 v = v.
Proof. intros H. by apply Z.mod_small, dimension_fits16. Qed.

#[export] Hint Resolve dimension_fits16 dimension_fits32 check_dimension_Ok : core.

Lemma PtyInRequest_roundtrip r name :
  fits 64 (input_seq r) -> len (input_bytes r) <= KEEPER_MAX_INPUT_BYTES ->
  PtyInRequest_decode (PtyInRequest_encode r) name = Ok r.
Proof.
  intros Hs Hl. unfold PtyInRequest_decode, PtyInRequest_encode, write_sequence.
  cbn [app]. rewrite read_sequence_head by done.
  rewrite drop_app_length' by (by rewrite length_to_be_bytes).
  destruct (Z.ltb_spec KEEPER_MAX_INPUT_BYTES (len (input_bytes r))); [lia|].
  by destruct r.
Qed.

Lemma reason_roundtrip r : reason_from_code (reason_code r) = r.
Proof. by destruct r. Qed.

(** The frame type a write's result travels under. *)
Definition result_tag (r : PtyInResult) : MuxFrameType :=
  match r with
  | Ack _ _ => PtyInAck | Reject _ _ => PtyInReject | Ambiguous _ _ _ => PtyInAmbiguous
  end.

(** The integers of a result fit their wire widths. *)
Definition result_wire_ok (r : PtyInResult) : Prop :=
  match r with
  | Ack seq written => fits 64 seq /\ fits 32 written
  | Reject seq _ => fits 64 seq
  | Ambiguous seq written _ => fits 64 seq /\ fits 32 written
  end.

Lemma PtyInResult_fields seq written reason :
  fits 64 seq -> fits 32 written -> fits 8 reason ->
  let p := write_sequence [] seq ++ to_be_bytes 4 written ++ to_be_bytes 1 reason in
  read_sequence p 0 = Some seq /\ read_u32 p 8 = Some written /\
  (fun b => from_be_bytes [b]) <$> p !! 12%nat = Some reason.
Proof.
  intros Hs Hw Hr p. unfold p, write_sequence. cbn [app]. split_and!.
  - by apply read_sequence_head.
  - apply read_u32_at; [done|]. by rewrite length_to_be_bytes.
  - rewrite lookup_app_r by (rewrite length_to_be_bytes; lia).
    rewrite lookup_app_r by (rewrite !length_to_be_bytes; lia).
    rewrite !length_to_be_bytes. cbn [Nat.sub].
    pose proof (length_to_be_bytes 1 reason) as Hl.
    pose proof (from_to_be_bytes_fits 1 reason Hr) as Hf.
    destruct (to_be_bytes 1 reason) as [|b [|]]; try done. cbn. by f_equal.
Qed.

Lemma PtyInResult_roundtrip r :
  result_wire_ok r -> PtyInResult_decode (result_tag r) (PtyInResult_encode r) = Some r.
Proof.
  intros Hr. unfold PtyInResult_decode, PtyInResult_encode.
  destruct r as [seq w|seq re|seq w re]; cbn [result_wire_ok result_tag] in *.
  - destruct Hr. destruct (PtyInResult_fields seq w 0) as (-> & -> & _); done.
  - destruct (PtyInResult_fields seq 0 (reason_code re)) as (-> & _ & ->);
      [done|done|by destruct re|]. cbn. by rewrite reason_roundtrip.
  - destruct Hr. destruct (PtyInResult_fields seq w (reason_code re)) as (-> & -> & ->);
      [done|done|by destruct re|]. cbn. by rewrite reason_roundtrip.
Qed.

(** The fields of a resize fit the wire. *)
Definition resize_wire_ok (r : ResizeRequestP) : Prop :=
  fits 64 (resize_seq r) /\ dimension_ok (resize_cols r) /\ dimension_ok (resize_rows r).

Lemma ResizeRequest_encode_Ok r :
  dimension_ok (resize_cols r) -> dimension_ok (resize_rows r) ->
  ResizeRequest_encode r =
  Ok (to_be_bytes 8 (resize_seq r) ++ to_be_bytes 4 (resize_cols r)
      ++ to_be_bytes 4 (resize_rows r)).
Proof. intros Hc Hr. unfold ResizeRequest_encode. by rewrite !check_dimension_Ok. Qed.

Lemma ResizeRequest_roundtrip r name :
  resize_wire_ok r ->
  exists bytes, ResizeRequest_encode r = Ok bytes /\
    ResizeRequest_decode bytes name = Ok r.
Proof.
  intros (Hs & Hc & Hr). eexists. split; [by apply ResizeRequest_encode_Ok|].
  unfold ResizeRequest_decode.
  rewrite read_sequence_head by done.
  rewrite (read_u32_at (to_be_bytes 8 _)) by (rewrite ?length_to_be_bytes; auto).
  rewrite app_assoc, <- (app_nil_r (to_be_bytes 4 (resize_rows r))).
  rewrite (read_u32_at (_ ++ _)) by (rewrite ?length_app, ?length_to_be_bytes; auto).
  rewrite !check_dimension_Ok, !dimension_u16 by done. by destruct r.
Qed.

Lemma ResizeRequest_decode_wire_ok payload name r :
  ResizeRequest_decode payload name = Ok r -> resize_wire_ok r.
Proof.
  unfold ResizeRequest_decode. intros H.
  destruct (read_sequence payload 0) as [seq|] eqn:E1; [|done].
  destruct (read_u32 payload 8) as [c|] eqn:E2; [|done].
  destruct (read_u32 payload 12) as [w|] eqn:E3; [|done].
  apply read_sequence_Some in E1 as (_ & ? & _).
  apply read_u32_Some in E2 as (_ & [? _] & _). apply read_u32_Some in E3 as (_ & [? _] & _).
  destruct (check_dimension c) as [c'|] eqn:Ec; [|done].
  destruct (check_dimension w) as [w'|] eqn:Ew; [|done].
  apply check_dimension_inv in Ec as [-> ?]; [|done].
  apply check_dimension_inv in Ew as [-> ?]; [|done].
  simplify_eq. by rewrite !dimension_u16.
Qed.

Lemma negotiate_features_order requested :
  negotiate_features requested `sublist_of` omap from_wire_name requested.
Proof.
  induction requested as [|name requested IH] using rev_ind; [done|].
  rewrite negotiate_snoc, omap_app. unfold negotiate_step. cbn [omap list_omap].
  destruct (from_wire_name name) as [f|]; cbn.
  - case_bool_decide; [by apply sublist_inserts_r|]. by apply sublist_app.
  - by rewrite app_nil_r.
Qed.

(** ** Properties of the payload codecs *)

(** Negotiation grants exactly the requested features this build supports, each
    once, in the order the client asked for them; a name this build has never
    heard of is skipped and fails nothing. *)
Theorem negotiate_features_spec (requested : list string) :
  NoDup (negotiate_features requested) /\
  (forall f, f ∈ negotiate_features requested <-> wire_name f ∈ requested) /\
  negotiate_features requested `sublist_of` omap from_wire_name requested.
Proof.
  split_and!; [apply negotiate_features_NoDup| |apply negotiate_features_order].
  intros f. apply negotiate_features_elem.
Qed.

(** Round trip of the sequenced payloads: an input request, the result of a write
    under the tag that names it, a geometry request and the terminal state each
    decode to what was encoded. In particular an ambiguous result never decodes
    as the rejection a client may retry. *)
Theorem payloads_roundtrip (req : PtyInRequestP) (res : PtyInResult)
    (resize : ResizeRequestP) (state : TerminalState) (name : string) :
  fits 64 (input_seq req) -> len (input_bytes req) <= KEEPER_MAX_INPUT_BYTES ->
  result_wire_ok res -> resize_wire_ok resize ->
  resize_wire_ok (mkResizeRequest (applied_seq state) (state_cols state) (state_rows state)) ->
  PtyInRequest_decode (PtyInRequest_encode req) name = Ok req /\
  PtyInResult_decode (result_tag res) (PtyInResult_encode res) = Some res /\
  (exists bytes, ResizeRequest_encode resize = Ok bytes /\
     ResizeRequest_decode bytes name = Ok resize) /\
  (exists bytes, TerminalState_encode state = Ok bytes /\
     TerminalState_decode bytes = Ok state).
Proof.
  intros ? ? ? ? Hst. split_and!.
  - by apply PtyInRequest_roundtrip.
  - by apply PtyInResult_roundtrip.
  - by apply ResizeRequest_roundtrip.
  - destruct (ResizeRequest_roundtrip _ "terminal state" Hst) as (bytes & He & Hd).
    exists bytes. unfold TerminalState_encode, TerminalState_decode.
    rewrite He, Hd. by destruct state.
Qed.

Lemma payloads_roundtrip_witness :
  PtyInRequest_decode (PtyInRequest_encode (mkPtyInRequest 9 [Byte.x61])) "n"
    = Ok (mkPtyInRequest 9 [Byte.x61]) /\
  PtyInResult_decode PtyInAmbiguous (PtyInResult_encode (Ambiguous 9 3 PartialWrite))
    = Some (Ambiguous 9 3 PartialWrite) /\
  (exists bytes, ResizeRequest_encode (mkResizeRequest 2 80 24) = Ok bytes /\
     ResizeRequest_decode bytes "n" = Ok (mkResizeRequest 2 80 24)) /\
  (exists bytes, TerminalState_encode (mkTerminalState 2 80 24) = Ok bytes /\
     TerminalState_decode bytes = Ok (mkTerminalState 2 80 24)).
Proof.
  apply (payloads_roundtrip (mkPtyInRequest 9 [Byte.x61]) (Ambiguous 9 3 PartialWrite)
           (mkResizeRequest 2 80 24) (mkTerminalState 2 80 24) "n");
    repeat split; vm_compute; congruence.
Defined.
