(* ===== verification/KeeperHistory.v ===== *)
(** * A channel's retained history

    Models [crates/roost-keeper/src/channel_history.rs] (the raw-output ring,
    the head sequence and the resize markers a channel retains) and
    [crates/roost-keeper/src/history.rs] (the ordered records a resuming
    worker replays, and their binary codec). The refinement theorem relates
    the bounded history to the full stream of bytes and geometry changes the
    PTY produced. *)
From S2P Require Import Prelude KeeperCodec KeeperPayloads.

(** ** Ordered records (history.rs) *)

Definition HISTORY_FORMAT_VERSION : Z := 1.
Definition HISTORY_HEADER_BYTES : nat := 21.
Definition HISTORY_OUTPUT_HEADER_BYTES : nat := 5.
Definition HISTORY_RESIZE_BYTES : nat := 17.
Definition HISTORY_OUTPUT_TAG : byte := Byte.x01.
Definition HISTORY_RESIZE_TAG : byte := Byte.x02.
Definition MAX_HISTORY_RECORDS : Z := KEEPER_MAX_HISTORY_RESIZE_RECORDS * 2 + 1.
Definition MAX_HISTORY_PAYLOAD_BYTES : Z := 2 * 1024 * 1024.
Definition MAX_SAFE_INTEGER : Z := 2 ^ 53 - 1.

Inductive HistoryRecord :=
| Output (bytes : list byte)
| ResizeRecord (seq cols rows : Z).

Record HistoryRecords := mkHistoryRecords {
  hr_head_seq : Z;
  hr_base_cols : Z;
  hr_base_rows : Z;
  hr_records : list HistoryRecord;
}.

(** [HistoryRecords::unknown_channel]. *)
Definition unknown_channel : HistoryRecords := mkHistoryRecords 0 80 24 [].

(** [HistoryRecords::window]: the retained output bytes, oldest first. *)
Definition window (h : HistoryRecords) : list byte :=
  foldl (fun w r => match r with Output bytes => w ++ bytes | ResizeRecord _ _ _ => w end)
    [] (hr_records h).

(** [invalid]. *)
Definition invalid (reason : string) : CodecError := BadJson "history records" reason.

(** [truncated]. *)
Definition truncated (offset : nat) : CodecError :=
  TruncatedPayload "history records" (Z.of_nat offset).

(** The validation loop of [HistoryRecords::encode]: the payload size and the
    raw byte count, or the bound a record breaks. *)
Fixpoint check_records (rs : list HistoryRecord) (payload_bytes raw_bytes : Z)
  : result (Z * Z) CodecError :=
  match rs with
  | [] => Ok (payload_bytes, raw_bytes)
  | Output bytes :: rs =>
    if (len bytes =? 0) then Err (invalid "an output record is empty") else
    let raw_bytes := raw_bytes + len bytes in
    let payload_bytes := payload_bytes + (Z.of_nat HISTORY_OUTPUT_HEADER_BYTES + len bytes) in
    if MAX_HISTORY_PAYLOAD_BYTES <? payload_bytes
    then Err (invalid "the payload exceeds its bound")
    else check_records rs payload_bytes raw_bytes
  | ResizeRecord seq cols rows :: rs =>
    if MAX_SAFE_INTEGER <? seq
    then Err (invalid "a resize sequence is past the largest exact counter") else
    let? _c := check_dimension cols in
    let? _r := check_dimension rows in
    let payload_bytes := payload_bytes + Z.of_nat HISTORY_RESIZE_BYTES in
    if MAX_HISTORY_PAYLOAD_BYTES <? payload_bytes
    then Err (invalid "the payload exceeds its bound")
    else check_records rs payload_bytes raw_bytes
  end.

(** One record's bytes: the writing loop of [HistoryRecords::encode]. *)
Definition encode_record (r : HistoryRecord) : list byte :=
  match r with
  | Output bytes => HISTORY_OUTPUT_TAG :: to_be_bytes 4 (u32 (len bytes)) ++ bytes
  | ResizeRecord seq cols rows =>
    HISTORY_RESIZE_TAG :: to_be_bytes 8 seq ++ to_be_bytes 4 cols ++ to_be_bytes 4 rows
  end.

(** [HistoryRecords::encode]. *)
Definition history_encode (h : HistoryRecords) : result (list byte) CodecError :=
  if MAX_SAFE_INTEGER <? hr_head_seq h
  then Err (invalid "the head is past the largest exact counter") else
  let? _c := check_dimension (hr_base_cols h) in
  let? _r := check_dimension (hr_base_rows h) in
  if MAX_HISTORY_RECORDS <? len (hr_records h)
  then Err (invalid "more records than the retention bound allows") else
  let? sizes := check_records (hr_records h) (Z.of_nat HISTORY_HEADER_BYTES) 0 in
  if hr_head_seq h <? snd sizes
  then Err (invalid "the retained output exceeds the head") else
  Ok (to_be_bytes 1 HISTORY_FORMAT_VERSION ++ to_be_bytes 8 (hr_head_seq h)
      ++ to_be_bytes 4 (hr_base_cols h) ++ to_be_bytes 4 (hr_base_rows h)
      ++ to_be_bytes 4 (u32 (len (hr_records h)))
      ++ concat (map encode_record (hr_records h))).

(** [dimension]. *)
Definition dimension (payload : list byte) (offset : nat) : result Z CodecError :=
  let? value := ok_or (read_u32 payload offset) (truncated offset) in
  let? d := check_dimension value in
  Ok (u16 d).

(** [payload.get(start..start + length)], for a length read off the wire. *)
Definition get_run (payload : list byte) (start : nat) (length : Z) : option (list byte) :=
  if Z.of_nat start + length <=? len payload
  then Some (take (Z.to_nat length) (drop start payload)) else None.

(** The record loop of [HistoryRecords::decode]: [count] records from [offset]. *)
Fixpoint decode_records (count : nat) (payload : list byte) (head_seq : Z)
    (offset : nat) (raw_bytes : Z) (records : list HistoryRecord)
  : result (nat * list HistoryRecord) CodecError :=
  match count with
  | O => Ok (offset, records)
  | S count =>
    match payload !! offset with
    | None => Err (truncated offset)
    | Some b =>
      if bool_decide (b = HISTORY_OUTPUT_TAG) then
        let? length := ok_or (read_u32 payload (offset + 1)) (truncated offset) in
        let start := (offset + HISTORY_OUTPUT_HEADER_BYTES)%nat in
        let? bytes :=
          match get_run payload start length with
          | Some bytes => if (len bytes =? 0)
                          then Err (invalid "an output record is empty or runs past the payload")
                          else Ok bytes
          | None => Err (invalid "an output record is empty or runs past the payload")
          end in
        let raw_bytes := raw_bytes + length in
        if head_seq <? raw_bytes
        then Err (invalid "the retained output exceeds the head")
        else decode_records count payload head_seq (start + Z.to_nat length) raw_bytes
               (records ++ [Output bytes])
      else if bool_decide (b = HISTORY_RESIZE_TAG) then
        if len payload <? Z.of_nat offset + Z.of_nat HISTORY_RESIZE_BYTES
        then Err (truncated offset) else
        let? seq := ok_or (read_sequence payload (offset + 1)) (truncated offset) in
        if MAX_SAFE_INTEGER <? seq
        then Err (invalid "a resize sequence is past the largest exact counter") else
        let? cols := dimension payload (offset + 9) in
        let? rows := dimension payload (offset + 13) in
        decode_records count payload head_seq (offset + HISTORY_RESIZE_BYTES) raw_bytes
          (records ++ [ResizeRecord seq cols rows])
      else Err (invalid "unknown record tag")
    end
  end.

(** [HistoryRecords::decode]. *)
Definition history_decode (payload : list byte) : result HistoryRecords CodecError :=
  if (length payload <? HISTORY_HEADER_BYTES)%nat
  then Err (TruncatedPayload "history records" (len payload)) else
  if MAX_HISTORY_PAYLOAD_BYTES <? len payload
  then Err (invalid "the payload exceeds its bound") else
  if negb (bool_decide (take 1 payload = to_be_bytes 1 HISTORY_FORMAT_VERSION))
  then Err (invalid "an unknown history format version") else
  let? head_seq := ok_or (read_sequence payload 1) (truncated 1) in
  if MAX_SAFE_INTEGER <? head_seq
  then Err (invalid "the head is past the largest exact counter") else
  let? base_cols := dimension payload 9 in
  let? base_rows := dimension payload 13 in
  let? count := ok_or (read_u32 payload 17) (truncated 17) in
  if MAX_HISTORY_RECORDS <? count
  then Err (invalid "more records than the retention bound allows") else
  let? decoded := decode_records (Z.to_nat count) payload head_seq HISTORY_HEADER_BYTES 0 [] in
  if negb (fst decoded =? length payload)%nat
  then Err (invalid "bytes trail the last record")
  else Ok (mkHistoryRecords head_seq base_cols base_rows (snd decoded)).

(** ** The channel's history (channel_history.rs) *)

Definition KEEPER_RING_CAP_BYTES : Z := 1024 * 1024.

Record ResizeMarker := mkMarker {
  marker_head : Z;  (* the raw-output sequence at which the geometry took effect *)
  marker_seq : Z;
  marker_cols : Z;
  marker_rows : Z;
}.

Record ChannelHistory := mkHistory {
  ring : list byte;
  ring_cap : Z;
  head_seq : Z;
  base_cols : Z;
  base_rows : Z;
  current_cols : Z;
  current_rows : Z;
  resizes : list ResizeMarker;
  max_resizes : Z;
}.

(** [ChannelHistory::with_limits]. *)
Definition with_limits (cols rows cap max : Z) : ChannelHistory :=
  mkHistory [] cap 0 cols rows cols rows [] max.

(** [ChannelHistory::new]. *)
Definition history_new (cols rows : Z) : ChannelHistory :=
  with_limits cols rows KEEPER_RING_CAP_BYTES KEEPER_MAX_HISTORY_RESIZE_RECORDS.

(** [ChannelHistory::retained_bytes]. *)
Definition retained_bytes (h : ChannelHistory) : Z := len (ring h).

(** The loop of [ChannelHistory::trim_evicted]: markers at or below the
    retained tail are popped, the last popped one becoming the base. *)
Fixpoint trim_markers (tail cols rows : Z) (ms : list ResizeMarker)
  : Z * Z * list ResizeMarker :=
  match ms with
  | [] => (cols, rows, [])
  | m :: ms' =>
    if tail <? marker_head m then (cols, rows, m :: ms')
    else trim_markers tail (marker_cols m) (marker_rows m) ms'
  end.

(** [ChannelHistory::trim_evicted]. *)
Definition trim_evicted (h : ChannelHistory) : ChannelHistory :=
  let retained_tail := u64 (head_seq h - len (ring h)) in
  let '(cols, rows, ms) := trim_markers retained_tail (base_cols h) (base_rows h) (resizes h) in
  mkHistory (ring h) (ring_cap h) (head_seq h) cols rows (current_cols h) (current_rows h)
    ms (max_resizes h).

(** [ChannelHistory::record_output]. *)
Definition record_output (h : ChannelHistory) (bytes : list byte) : ChannelHistory :=
  match bytes with
  | [] => h
  | _ =>
    let head := u64 (head_seq h + len bytes) in
    let keep := Z.min (len bytes) (ring_cap h) in
    let extended := ring h ++ drop (Z.to_nat (len bytes - keep)) bytes in
    let excess := saturating_sub (len extended) (ring_cap h) in
    trim_evicted
      (mkHistory (drop (Z.to_nat excess) extended) (ring_cap h) head
         (base_cols h) (base_rows h) (current_cols h) (current_rows h)
         (resizes h) (max_resizes h))
  end.

(** [ChannelHistory::record_resize]. *)
Definition record_resize (h : ChannelHistory) (seq cols rows : Z) : ChannelHistory :=
  let h :=
    if max_resizes h <=? len (resizes h)
    then mkHistory [] (ring_cap h) (head_seq h) (current_cols h) (current_rows h)
           (current_cols h) (current_rows h) [] (max_resizes h)
    else h in
  mkHistory (ring h) (ring_cap h) (head_seq h) (base_cols h) (base_rows h) cols rows
    (resizes h ++ [mkMarker (head_seq h) seq cols rows]) (max_resizes h).

(** The marker loop of [ChannelHistory::ordered]. [None] is the panic of a
    slice [retained[from..to]] out of range. *)
Fixpoint ordered_loop (retained : list byte) (tail head : Z) (ms : list ResizeMarker)
    (raw_seq : Z) (records : list HistoryRecord) : option (Z * list HistoryRecord) :=
  match ms with
  | [] => Some (raw_seq, records)
  | m :: ms =>
    if (marker_head m <? tail) || (head <? marker_head m)
    then ordered_loop retained tail head ms raw_seq records
    else
      let resize := ResizeRecord (marker_seq m) (marker_cols m) (marker_rows m) in
      if raw_seq <? marker_head m then
        match slice_get retained (Z.to_nat (u64 (raw_seq - tail)))
                (Z.to_nat (u64 (marker_head m - tail))) with
        | None => None
        | Some bytes =>
          ordered_loop retained tail head ms (marker_head m) (records ++ [Output bytes; resize])
        end
      else ordered_loop retained tail head ms raw_seq (records ++ [resize])
  end.

(** [ChannelHistory::ordered]. *)
Definition ordered (h : ChannelHistory) : option HistoryRecords :=
  let retained := ring h in
  let retained_tail := u64 (head_seq h - len retained) in
  match ordered_loop retained retained_tail (head_seq h) (resizes h) retained_tail [] with
  | None => None
  | Some (raw_seq, records) =>
    if raw_seq <? head_seq h then
      match slice_get retained (Z.to_nat (u64 (raw_seq - retained_tail))) (length retained) with
      | None => None
      | Some bytes =>
        Some (mkHistoryRecords (head_seq h) (base_cols h) (base_rows h)
                (records ++ [Output bytes]))
      end
    else Some (mkHistoryRecords (head_seq h) (base_cols h) (base_rows h) records)
  end.

(** ** Specification: the stream a channel produced *)

(** A grid geometry, columns then rows. *)
Abbreviation geometry := (Z * Z)%type.

(** The geometry in effect at raw-output position [p], given the geometry
    before the first marker. *)
Fixpoint geom_at (g : geometry) (ms : list ResizeMarker) (p : Z) : geometry :=
  match ms with
  | [] => g
  | m :: ms =>
    if marker_head m <=? p then geom_at (marker_cols m, marker_rows m) ms p else g
  end.

(** The geometry after the last marker. *)
Fixpoint last_geom (g : geometry) (ms : list ResizeMarker) : geometry :=
  match ms with
  | [] => g
  | m :: ms => last_geom (marker_cols m, marker_rows m) ms
  end.

(** Each byte with the geometry it was produced at, from position [p] on. *)
Fixpoint stamp (g : geometry) (ms : list ResizeMarker) (p : Z) (bytes : list byte)
  : list (byte * geometry) :=
  match bytes with
  | [] => []
  | b :: bytes => (b, geom_at g ms p) :: stamp g ms (p + 1) bytes
  end.

(** What a resuming worker reconstructs: each byte of the records with the
    geometry its core has when it parses it, and the geometry it ends at. *)
Fixpoint replay (g : geometry) (rs : list HistoryRecord) : list (byte * geometry) * geometry :=
  match rs with
  | [] => ([], g)
  | Output bytes :: rs =>
    let '(tail, g') := replay g rs in (map (fun b => (b, g)) bytes ++ tail, g')
  | ResizeRecord _ cols rows :: rs => replay (cols, rows) rs
  end.

(** What the keeper records into a channel's history, in order. *)
Inductive hist_op :=
| OpOutput (bytes : list byte)
| OpResize (seq cols rows : Z).

Definition run_op (h : ChannelHistory) (op : hist_op) : ChannelHistory :=
  match op with
  | OpOutput bytes => record_output h bytes
  | OpResize seq cols rows => record_resize h seq cols rows
  end.

Definition run_ops (h : ChannelHistory) (ops : list hist_op) : ChannelHistory :=
  foldl run_op h ops.

(** The unbounded stream: every byte ever emitted with its geometry, and the
    geometry now. *)
Definition stream := (list (byte * geometry) * geometry)%type.

Definition stream_op (s : stream) (op : hist_op) : stream :=
  match op with
  | OpOutput bytes => (fst s ++ map (fun b => (b, snd s)) bytes, snd s)
  | OpResize _ cols rows => (fst s, (cols, rows))
  end.

Definition stream_ops (s : stream) (ops : list hist_op) : stream := foldl stream_op s ops.

(** ** Lemmas: geometry and stamping *)

Lemma stamp_app g ms p l k : stamp g ms p (l ++ k) = stamp g ms p l ++ stamp g ms (p + len l) k.
Proof.
  revert p. induction l as [|b l IH]; intros p; cbn [stamp app].
  - by rewrite len_nil, Z.add_0_r.
  - rewrite IH, len_cons. by rewrite Z.add_assoc.
Qed.

Lemma length_stamp g ms p l : length (stamp g ms p l) = length l.
Proof. revert p. induction l; intros; cbn [stamp length]; auto. Qed.

Lemma stamp_drop g ms p l (n : nat) :
  (n <= length l)%nat -> drop n (stamp g ms p l) = stamp g ms (p + Z.of_nat n) (drop n l).
Proof.
  revert p n. induction l as [|b l IH]; intros p [|n] Hn; cbn [stamp drop length] in *.
  - done.
  - lia.
  - by rewrite Z.add_0_r.
  - rewrite IH by lia. f_equal. lia.
Qed.

Lemma stamp_ext g g' ms ms' p l :
  (forall q, p <= q < p + len l -> geom_at g ms q = geom_at g' ms' q) ->
  stamp g ms p l = stamp g' ms' p l.
Proof.
  revert p. induction l as [|b l IH]; intros p H; cbn [stamp]; [done|].
  rewrite len_cons in H. pose proof (len_nonneg l). f_equal.
  - f_equal. apply H. lia.
  - apply IH. intros q Hq. apply H. lia.
Qed.

Lemma stamp_const g ms p l g' :
  (forall q, p <= q < p + len l -> geom_at g ms q = g') ->
  stamp g ms p l = map (fun b => (b, g')) l.
Proof.
  revert p. induction l as [|b l IH]; intros p H; cbn [stamp map]; [done|].
  rewrite len_cons in H. pose proof (len_nonneg l). f_equal.
  - f_equal. apply H. lia.
  - apply IH. intros q Hq. apply H. lia.
Qed.

(** Markers in stream order, none before position [lo]. *)
Fixpoint markers_from (lo : Z) (ms : list ResizeMarker) : Prop :=
  match ms with
  | [] => True
  | m :: ms => lo <= marker_head m /\ markers_from (marker_head m) ms
  end.

Lemma markers_from_weaken lo lo' ms : lo' <= lo -> markers_from lo ms -> markers_from lo' ms.
Proof. destruct ms; cbn; [done|]. intros ? []. split; [lia|done]. Qed.

Lemma markers_from_snoc lo ms m :
  markers_from lo ms -> (forall x, x ∈ ms -> marker_head x <= marker_head m) ->
  lo <= marker_head m -> markers_from lo (ms ++ [m]).
Proof.
  revert lo. induction ms as [|x ms IH]; intros lo H Hm Hlo; cbn in *; [done|].
  destruct H as [? H]. split; [done|]. apply IH; [done| |].
  - intros y Hy. apply Hm. by right.
  - apply Hm. by left.
Qed.

Lemma geom_at_before g ms lo p : markers_from lo ms -> p < lo -> geom_at g ms p = g.
Proof.
  destruct ms as [|m ms]; cbn; [done|]. intros [? _] ?.
  destruct (Z.leb_spec (marker_head m) p); [lia|done].
Qed.

Lemma geom_at_after g ms p :
  (forall m, m ∈ ms -> marker_head m <= p) -> geom_at g ms p = last_geom g ms.
Proof.
  revert g. induction ms as [|m ms IH]; intros g H; cbn; [done|].
  destruct (Z.leb_spec (marker_head m) p) as [|Hgt].
  - apply IH. intros x Hx. apply H. by right.
  - specialize (H m ltac:(by left)). lia.
Qed.

Lemma geom_at_snoc g ms m p :
  p < marker_head m -> geom_at g (ms ++ [m]) p = geom_at g ms p.
Proof.
  intros Hp. revert g. induction ms as [|x ms IH]; intros g; cbn.
  - destruct (Z.leb_spec (marker_head m) p); [lia|done].
  - case_match; [apply IH|done].
Qed.

Lemma last_geom_snoc g ms m : last_geom g (ms ++ [m]) = (marker_cols m, marker_rows m).
Proof. revert g. induction ms; intros; cbn; auto. Qed.

(** ** The invariant and the simulation *)

(** The sequence of the oldest retained byte. *)
Definition retained_from (h : ChannelHistory) : Z := head_seq h - len (ring h).

Definition base_geom (h : ChannelHistory) : geometry := (base_cols h, base_rows h).
Definition current_geom (h : ChannelHistory) : geometry := (current_cols h, current_rows h).

Record hist_wf (h : ChannelHistory) : Prop := {
  wf_ring : len (ring h) <= ring_cap h;
  wf_tail : len (ring h) <= head_seq h;
  wf_head : head_seq h < 2 ^ 64;
  wf_markers : markers_from (retained_from h) (resizes h);
  wf_below : forall m, m ∈ resizes h -> marker_head m <= head_seq h;
  wf_current : last_geom (base_geom h) (resizes h) = current_geom h;
}.

(** The retained window, each byte with its geometry. *)
Definition content (h : ChannelHistory) : list (byte * geometry) :=
  stamp (base_geom h) (resizes h) (retained_from h) (ring h).

(** The bounded history [h] is a window onto the stream [s]. *)
Definition window_of (h : ChannelHistory) (s : stream) : Prop :=
  hist_wf h /\ head_seq h = len (fst s) /\ current_geom h = snd s /\
  content h = drop (Z.to_nat (retained_from h)) (fst s).

Lemma trim_markers_spec tail cols rows ms lo :
  markers_from lo ms -> forall cols' rows' ms',
  trim_markers tail cols rows ms = (cols', rows', ms') ->
  markers_from tail ms' /\
  (forall p, tail <= p -> geom_at (cols', rows') ms' p = geom_at (cols, rows) ms p) /\
  last_geom (cols', rows') ms' = last_geom (cols, rows) ms /\
  (forall m, m ∈ ms' -> m ∈ ms) /\ len ms' <= len ms.
Proof.
  revert lo cols rows. induction ms as [|m ms IH]; intros lo cols rows Hms cols' rows' ms' H;
    cbn in *; [by simplify_eq|].
  destruct Hms as [Hlo Hms]. rewrite len_cons.
  destruct (Z.ltb_spec tail (marker_head m)).
  - simplify_eq. cbn. split_and!; [lia|done|done|done|done|rewrite len_cons; lia].
  - destruct (IH _ _ _ Hms _ _ _ H) as (H1 & H2 & H3 & H4 & H5). split_and!; [done| |done| |lia].
    + intros p Hp. rewrite H2 by done.
      by destruct (Z.leb_spec (marker_head m) p); [|lia].
    + intros x Hx. right. auto.
Qed.

(** Recording output keeps the newest [ring_cap] bytes of what was retained and
    what arrived. *)
Lemma record_output_ring h bytes :
  len (ring h) <= ring_cap h ->
  let keep := Z.min (len bytes) (ring_cap h) in
  let extended := ring h ++ drop (Z.to_nat (len bytes - keep)) bytes in
  drop (Z.to_nat (saturating_sub (len extended) (ring_cap h))) extended =
  drop (Z.to_nat (saturating_sub (len (ring h) + len bytes) (ring_cap h))) (ring h ++ bytes).
Proof.
  intros Hr keep extended. unfold saturating_sub.
  pose proof (len_nonneg (ring h)). pose proof (len_nonneg bytes).
  unfold extended. rewrite len_app. unfold keep.
  destruct (Z.le_gt_cases (len bytes) (ring_cap h)).
  - rewrite Z.min_l by lia. rewrite Z.sub_diag. cbn [Z.to_nat drop]. done.
  - rewrite Z.min_r by lia. rewrite len_drop by lia.
    replace (Z.to_nat (Z.max 0 (len (ring h) + (len bytes - (len bytes - ring_cap h)) - ring_cap h)))
      with (length (ring h)) by (unfold len; lia).
    rewrite drop_app_length, drop_app_ge by (unfold len in *; lia).
    f_equal. unfold len. lia.
Qed.

(** How many bytes recording [bytes] evicts. *)
Definition evicts (h : ChannelHistory) (bytes : list byte) : Z :=
  saturating_sub (len (ring h) + len bytes) (ring_cap h).

Lemma evicts_bounds h bytes : len (ring h) <= ring_cap h ->
  0 <= evicts h bytes <= len (ring h) + len bytes /\
  len (ring h) + len bytes - evicts h bytes <= ring_cap h.
Proof.
  pose proof (len_nonneg (ring h)). pose proof (len_nonneg bytes).
  unfold evicts, saturating_sub. lia.
Qed.

Lemma len_evicted h bytes : len (ring h) <= ring_cap h ->
  len (drop (Z.to_nat (evicts h bytes)) (ring h ++ bytes)) =
  len (ring h) + len bytes - evicts h bytes.
Proof.
  intros Hr. destruct (evicts_bounds h bytes Hr).
  rewrite len_drop by (rewrite len_app; lia). by rewrite len_app.
Qed.

(** Recording output in closed form: the head advances, the window slides, and
    the markers the window slid over become the base. *)
Lemma record_output_eq h bytes :
  hist_wf h -> bytes <> [] -> head_seq h + len bytes < 2 ^ 64 ->
  exists cols' rows' ms',
    trim_markers (retained_from h + evicts h bytes) (base_cols h) (base_rows h) (resizes h)
      = (cols', rows', ms') /\
    record_output h bytes =
    mkHistory (drop (Z.to_nat (evicts h bytes)) (ring h ++ bytes)) (ring_cap h)
      (head_seq h + len bytes) cols' rows' (current_cols h) (current_rows h) ms'
      (max_resizes h).
Proof.
  intros [Hr Ht Hhd _ _ _] Hne Hlt. destruct bytes as [|b0 bs]; [done|]. clear Hne.
  set (bytes := b0 :: bs) in *. unfold record_output. fold bytes. cbn zeta.
  pose proof (record_output_ring h bytes Hr) as Hring. cbn zeta in Hring.
  fold (evicts h bytes) in Hring. subst bytes. rewrite Hring. set (bytes := b0 :: bs) in *.
  destruct (evicts_bounds h bytes Hr) as [He _].
  pose proof (len_nonneg (ring h)). pose proof (len_nonneg bytes).
  rewrite wrap_small by (unfold fits; lia).
  unfold trim_evicted. cbn [ring head_seq base_cols base_rows resizes].
  rewrite len_evicted by done.
  replace (head_seq h + len bytes - (len (ring h) + len bytes - evicts h bytes))
    with (retained_from h + evicts h bytes) by (unfold retained_from; lia).
  rewrite wrap_small by (unfold fits, retained_from; lia).
  destruct (trim_markers _ _ _ _) as [[c' r'] ms'] eqn:Htrim. by exists c', r', ms'.
Qed.

Lemma record_output_window h s bytes :
  window_of h s -> len (fst s) + len bytes < 2 ^ 64 ->
  window_of (record_output h bytes) (stream_op s (OpOutput bytes)).
Proof.
  intros (Hwf & Hh & Hc & Hcont) Hlt. pose proof Hwf as [Hr Ht Hhd Hm Hb Hl].
  destruct (decide (bytes = [])) as [->|Hne]; [unfold window_of; cbn; by rewrite app_nil_r|].
  destruct (record_output_eq h bytes) as (c' & r' & ms' & Htrim & ->); [done|done|lia|].
  destruct (trim_markers_spec _ _ _ _ _ Hm _ _ _ Htrim) as (T1 & T2 & T3 & T4 & _).
  destruct (evicts_bounds h bytes Hr) as [Hk Hcap].
  pose proof (len_evicted h bytes Hr) as Hlen. set (k := evicts h bytes) in *.
  set (h' := mkHistory _ _ _ _ _ _ _ _ _).
  assert (Htail : retained_from h' = retained_from h + k)
    by (unfold retained_from; cbn [h' ring head_seq]; lia).
  pose proof (len_nonneg bytes).
  split_and!; [split| | |]; cbn [h' ring ring_cap head_seq resizes fst snd stream_op].
  1-3: lia.
  - by rewrite Htail.
  - intros m Hin. pose proof (Hb m (T4 m Hin)). lia.
  - unfold base_geom, current_geom in *. cbn in *. by rewrite T3.
  - rewrite len_app, Hh. unfold len. by rewrite length_map.
  - done.
  - unfold content. rewrite Htail. cbn [h' ring resizes].
    rewrite (stamp_ext _ (base_geom h) _ (resizes h)) by (intros q Hq; apply T2; lia).
    rewrite <- (Z2Nat.id k) at 1 by lia.
    rewrite <- stamp_drop by (unfold len in *; rewrite length_app; lia).
    rewrite stamp_app. fold (content h). rewrite Hcont.
    replace (retained_from h + len (ring h)) with (head_seq h) by (unfold retained_from; lia).
    rewrite (stamp_const _ _ _ bytes (snd s)).
    2: { intros q Hq. rewrite geom_at_after; [congruence|]. intros m Hin.
         pose proof (Hb m Hin). lia. }
    assert (Z.to_nat (retained_from h) <= length (fst s))%nat
      by (unfold retained_from; rewrite Hh; unfold len; lia).
    rewrite <- drop_app_le by done.
    rewrite drop_drop. f_equal. unfold retained_from. lia.
Qed.

Lemma record_resize_window h s seq cols rows :
  window_of h s -> window_of (record_resize h seq cols rows) (stream_op s (OpResize seq cols rows)).
Proof.
  intros (Hwf & Hh & Hc & Hcont). pose proof Hwf as [Hr Ht Hhd Hm Hb Hl].
  pose proof (len_nonneg (ring h)). pose proof (len_nonneg (fst s)).
  unfold record_resize. case_if.
  - split_and!; [split| | |]; cbn; rewrite ?len_nil; try done; try lia.
    + unfold retained_from. cbn. rewrite len_nil. lia.
    + intros m ->%list_elem_of_singleton. done.
    + rewrite drop_ge; [done|]. unfold retained_from. cbn. rewrite Hh. unfold len. cbn. lia.
  - split_and!; [split| | |]; cbn; try done.
    + apply markers_from_snoc; [done|done|]. unfold retained_from. cbn. lia.
    + intros m [?| ->%list_elem_of_singleton]%elem_of_app; [auto|done].
    + by rewrite last_geom_snoc.
    + transitivity (content h); [|exact Hcont]. apply stamp_ext. intros q Hq.
      apply geom_at_snoc. cbn. unfold retained_from in Hq. cbn in Hq. lia.
Qed.

(** ** Replaying the ordered records *)

Lemma replay_app g rs ks :
  replay g (rs ++ ks) =
  let '(t1, g1) := replay g rs in let '(t2, g2) := replay g1 ks in (t1 ++ t2, g2).
Proof.
  revert g. induction rs as [|[bytes|q c r] rs IH]; intros g; cbn.
  - by destruct (replay g ks).
  - rewrite IH. destruct (replay g rs) as [t1 g1], (replay g1 ks). by rewrite app_assoc.
  - apply IH.
Qed.

(** A record a history may hold: output is never empty, and a resize is one of
    the retained markers. *)
Definition record_of (ms : list ResizeMarker) (r : HistoryRecord) : Prop :=
  match r with
  | Output bytes => bytes <> []
  | ResizeRecord seq cols rows => exists m, m ∈ ms /\
      seq = marker_seq m /\ cols = marker_cols m /\ rows = marker_rows m
  end.

Lemma record_of_mono ms ms' r : ms ⊆ ms' -> record_of ms r -> record_of ms' r.
Proof. destruct r; cbn; [done|]. intros Hs (m & ? & ?). eauto. Qed.

Section OrderedLoop.
Context (retained : list byte) (tail head : Z).
Context (Htail : 0 <= tail) (Hhead : head = tail + len retained) (Hfit : head < 2 ^ 64).

(** The bytes from position [a] up to position [b]. *)
Definition cut (a b : Z) : list byte :=
  take (Z.to_nat (b - a)) (drop (Z.to_nat (a - tail)) retained).

Lemma len_cut a b : tail <= a <= b -> b <= head -> len (cut a b) = b - a.
Proof using Hhead.
  intros. unfold cut. rewrite len_take; [done|]. rewrite len_drop by lia. lia.
Qed.

Lemma cut_split a b c : tail <= a <= b -> b <= c <= head -> cut a c = cut a b ++ cut b c.
Proof using Type.
  intros. unfold cut. rewrite (take_split _ (Z.to_nat (b - a)) (Z.to_nat (c - a))) by lia.
  f_equal. rewrite drop_drop. f_equal; [|f_equal]; lia.
Qed.

Lemma cut_get a b : tail <= a <= b -> b <= head ->
  slice_get retained (Z.to_nat (u64 (a - tail))) (Z.to_nat (u64 (b - tail))) = Some (cut a b).
Proof using All.
  intros. rewrite !wrap_small by (unfold fits; lia).
  rewrite slice_get_range by lia. unfold cut. do 3 f_equal. lia.
Qed.

Lemma ordered_loop_spec ms raw records g :
  tail <= raw <= head -> markers_from raw ms ->
  (forall m, m ∈ ms -> marker_head m <= head) ->
  exists raw' rs,
    ordered_loop retained tail head ms raw records = Some (raw', records ++ rs) /\
    raw <= raw' <= head /\
    replay g rs = (stamp g ms raw (cut raw raw'), last_geom g ms) /\
    (forall m, m ∈ ms -> marker_head m <= raw') /\
    Forall (record_of ms) rs /\ len rs <= 2 * len ms.
Proof using All.
  revert raw records g. induction ms as [|m ms IH]; intros raw records g Hraw Hms Hb; cbn [ordered_loop].
  { exists raw, []. rewrite app_nil_r. split_and!; try done; try lia; [|set_solver].
    cbn. unfold cut. by rewrite Z.sub_diag. }
  cbn in Hms. destruct Hms as [Hm Hms]. pose proof (Hb m ltac:(by left)) as Hmh.
  destruct (Z.ltb_spec (marker_head m) tail); [lia|].
  destruct (Z.ltb_spec head (marker_head m)); [lia|]. cbn [orb].
  set (mg := (marker_cols m, marker_rows m)).
  assert (Hstamp : forall raw', marker_head m <= raw' <= head ->
    stamp g (m :: ms) raw (cut raw raw') =
    map (fun b => (b, g)) (cut raw (marker_head m)) ++ stamp mg ms (marker_head m) (cut (marker_head m) raw')).
  { intros raw' Hr'. rewrite (cut_split raw (marker_head m) raw') by lia. rewrite stamp_app.
    rewrite len_cut by lia. f_equal.
    - apply stamp_const. rewrite len_cut by lia. intros q Hq. cbn [geom_at].
      destruct (Z.leb_spec (marker_head m) q); [lia|done].
    - replace (raw + (marker_head m - raw)) with (marker_head m) by lia.
      apply stamp_ext. intros q Hq. cbn [geom_at].
      destruct (Z.leb_spec (marker_head m) q); [done|lia]. }
  assert (Hb' : forall x, x ∈ ms -> marker_head x <= head) by (intros; apply Hb; by right).
  destruct (Z.ltb_spec raw (marker_head m)).
  - rewrite cut_get by lia.
    destruct (IH (marker_head m) (records ++ [Output (cut raw (marker_head m));
      ResizeRecord (marker_seq m) (marker_cols m) (marker_rows m)]) mg)
      as (raw' & rs & Hl & Hr' & Hrep & Hle & Hof & Hlen); [lia|done|done|].
    rewrite Hl. eexists raw', (Output _ :: ResizeRecord _ _ _ :: rs).
    split_and!; [by rewrite <- app_assoc|lia|lia| | | |].
    + cbn [replay]. fold mg. rewrite Hrep, Hstamp by lia. done.
    + intros x [->|?]%elem_of_cons; [lia|auto].
    + constructor; [|constructor].
      * cbn. intros Hnil. apply (f_equal len) in Hnil. rewrite len_cut, len_nil in Hnil; lia.
      * exists m. split; [by left|done].
      * eapply Forall_impl; [exact Hof|]. intros r. apply record_of_mono. set_solver.
    + rewrite !len_cons. lia.
  - assert (raw = marker_head m) as -> by lia.
    destruct (IH (marker_head m) (records ++ [ResizeRecord (marker_seq m) (marker_cols m) (marker_rows m)]) mg)
      as (raw' & rs & Hl & Hr' & Hrep & Hle & Hof & Hlen); [lia|done|done|].
    rewrite Hl. eexists raw', (ResizeRecord _ _ _ :: rs).
    split_and!; [by rewrite <- app_assoc|lia|lia| | | |].
    + cbn [replay]. fold mg. rewrite Hrep, Hstamp by lia.
      unfold cut at 2. by rewrite Z.sub_diag.
    + intros x [->|?]%elem_of_cons; [lia|auto].
    + constructor; [exists m; split; [by left|done]|].
      eapply Forall_impl; [exact Hof|]. intros r. apply record_of_mono. set_solver.
    + rewrite !len_cons. lia.
Qed.

Lemma cut_all : cut tail head = retained.
Proof using Hhead.
  unfold cut. rewrite Z.sub_diag. cbn [Z.to_nat drop]. apply take_ge. unfold len in *. lia.
Qed.

Lemma cut_last a : tail <= a <= head -> cut a head = drop (Z.to_nat (a - tail)) retained.
Proof using Hhead.
  intros. unfold cut. apply take_ge. rewrite length_drop. unfold len in *. lia.
Qed.

(** Past the last marker the whole rest has one geometry. *)
Lemma stamp_past_markers g ms raw :
  tail <= raw <= head -> (forall m, m ∈ ms -> marker_head m <= raw) ->
  stamp g ms tail retained =
  stamp g ms tail (cut tail raw) ++ map (fun b => (b, last_geom g ms)) (cut raw head).
Proof using Hhead.
  intros Hraw Hms. rewrite <- cut_all at 1. rewrite (cut_split tail raw head) by lia.
  rewrite stamp_app. f_equal. apply stamp_const. rewrite !len_cut by lia. intros q Hq.
  apply geom_at_after. intros m Hin. pose proof (Hms m Hin). lia.
Qed.
End OrderedLoop.

(** A well-formed history always answers, and its records replay to the
    retained window and to the geometry the PTY has now. *)
Lemma ordered_spec h :
  hist_wf h -> exists hr, ordered h = Some hr /\
    hr_head_seq hr = head_seq h /\ (hr_base_cols hr, hr_base_rows hr) = base_geom h /\
    replay (base_geom h) (hr_records hr) = (content h, current_geom h) /\
    Forall (record_of (resizes h)) (hr_records hr) /\
    len (hr_records hr) <= 2 * len (resizes h) + 1.
Proof.
  intros [Hr Ht Hhd Hm Hb Hl]. pose proof (len_nonneg (ring h)).
  unfold ordered. rewrite (wrap_small 64 (head_seq h - len (ring h))) by (unfold fits; lia).
  fold (retained_from h).
  assert (Hhead : head_seq h = retained_from h + len (ring h)) by (unfold retained_from; lia).
  assert (Htail : 0 <= retained_from h) by lia.
  destruct (ordered_loop_spec (ring h) _ _ Htail Hhead Hhd (resizes h) (retained_from h) []
              (base_geom h)) as (raw & rs & -> & Hraw & Hrep & Hle & Hof & Hlen);
    [lia|done|done|]. cbn [app].
  pose proof (stamp_past_markers (ring h) _ _ Hhead (base_geom h) (resizes h) raw
                ltac:(lia) Hle) as Hsplit.
  rewrite (cut_last (ring h) _ _ Hhead raw) in Hsplit by lia.
  destruct (Z.ltb_spec raw (head_seq h)).
  - rewrite wrap_small by (unfold fits; lia). rewrite slice_get_tail by lia.
    eexists. split; [done|]. cbn [hr_head_seq hr_base_cols hr_base_rows hr_records].
    split_and!; [done|done| | |].
    + rewrite replay_app, Hrep. cbn [replay]. rewrite app_nil_r, <- Hl. f_equal.
      symmetry. exact Hsplit.
    + apply Forall_app. split; [done|]. constructor; [|constructor]. cbn.
      intros Hnil%(f_equal len). rewrite len_drop, len_nil in Hnil; lia.
    + rewrite len_app, len_cons, len_nil. lia.
  - eexists. split; [done|]. cbn [hr_head_seq hr_base_cols hr_base_rows hr_records].
    split_and!; [done|done| |done|lia]. rewrite Hrep, Hl. f_equal.
    replace raw with (head_seq h) by lia. by rewrite cut_all by lia.
Qed.

(** The raw output of a sequence of recordings. *)
Fixpoint output_total (ops : list hist_op) : Z :=
  match ops with
  | [] => 0
  | OpOutput bytes :: ops => len bytes + output_total ops
  | OpResize _ _ _ :: ops => output_total ops
  end.

Lemma output_total_nonneg ops : 0 <= output_total ops.
Proof.
  induction ops as [|[bytes|] ops IH]; cbn; [done| |done].
  pose proof (len_nonneg bytes). lia.
Qed.

Lemma run_ops_window ops h s :
  window_of h s -> len (fst s) + output_total ops < 2 ^ 64 ->
  window_of (run_ops h ops) (stream_ops s ops).
Proof.
  revert h s. induction ops as [|op ops IH]; intros h s Hw Hlt; cbn; [done|].
  pose proof (output_total_nonneg ops).
  apply IH; destruct op as [bytes|seq cols rows]; cbn [run_op stream_op fst output_total] in *.
  - by apply record_output_window; [|lia].
  - by apply record_resize_window.
  - rewrite len_app. unfold len in *. rewrite length_map. lia.
  - done.
Qed.

Lemma stream_ops_total ops s : len (fst (stream_ops s ops)) = len (fst s) + output_total ops.
Proof.
  revert s. induction ops as [|[bytes|seq cols rows] ops IH]; intros s; cbn [output_total].
  - cbn. lia.
  - cbn [stream_ops foldl]. unfold stream_ops in IH. rewrite IH. cbn [stream_op fst].
    rewrite len_app. unfold len at 2. rewrite length_map. fold (len bytes). lia.
  - cbn [stream_ops foldl]. unfold stream_ops in IH. by rewrite IH.
Qed.

Lemma with_limits_window cols rows cap max :
  0 <= cap -> window_of (with_limits cols rows cap max) ([], (cols, rows)).
Proof. intros. split_and!; [split| | |]; cbn; try done. set_solver. Qed.

(** The limits are fixed when a channel is spawned. *)
Lemma run_op_limits h op :
  ring_cap (run_op h op) = ring_cap h /\ max_resizes (run_op h op) = max_resizes h.
Proof.
  destruct op as [bytes|seq cols rows]; cbn.
  - unfold record_output. destruct bytes; [done|]. unfold trim_evicted. by case_match; case_match.
  - unfold record_resize. by case_if.
Qed.

Lemma run_ops_limits h ops :
  ring_cap (run_ops h ops) = ring_cap h /\ max_resizes (run_ops h ops) = max_resizes h.
Proof.
  revert h. induction ops as [|op ops IH]; intros h; [done|].
  destruct (IH (run_op h op)) as [H1 H2], (run_op_limits h op) as [H3 H4].
  split; [by rewrite <- H3|by rewrite <- H4].
Qed.

(** ** Properties of the channel history *)

(** The bounded history is a faithful window onto the PTY's stream. After any
    sequence of output chunks and geometry changes, the ordered records exist
    (no slice of the ring is out of range), they carry the exact head, they
    replay to precisely the newest retained bytes of the stream, each at the
    geometry it was produced at, and they end at the PTY's present geometry;
    the ring never exceeds its cap. *)
Theorem ordered_replays_stream (cols rows cap max : Z) (ops : list hist_op) :
  0 <= cap -> output_total ops < 2 ^ 64 ->
  let h := run_ops (with_limits cols rows cap max) ops in
  let s := stream_ops ([], (cols, rows)) ops in
  exists hr, ordered h = Some hr /\
    hr_head_seq hr = len (fst s) /\
    replay (hr_base_cols hr, hr_base_rows hr) (hr_records hr)
      = (drop (Z.to_nat (len (fst s) - retained_bytes h)) (fst s), snd s) /\
    retained_bytes h <= cap.
Proof.
  intros Hcap Hlt h s.
  assert (window_of h s) as (Hwf & Hh & Hc & Hcont)
    by (apply run_ops_window; [by apply with_limits_window|cbn [fst]; rewrite len_nil; lia]).
  destruct (ordered_spec h Hwf) as (hr & Ho & Hhd & Hbase & Hrep & _).
  exists hr. split_and!; [done|congruence| |].
  - rewrite Hbase, Hrep, Hcont, Hc. unfold retained_from, retained_bytes. by rewrite Hh.
  - pose proof (wf_ring h Hwf) as Hr. unfold h in Hr at 2.
    by rewrite (proj1 (run_ops_limits _ _)) in Hr.
Qed.

Lemma ordered_replays_stream_witness :
  exists hr, ordered (run_ops (with_limits 80 24 3 4)
      [OpOutput [Byte.x61; Byte.x62]; OpResize 1 100 30; OpOutput [Byte.x63; Byte.x64]]) = Some hr /\
    hr_head_seq hr = 4 /\
    replay (hr_base_cols hr, hr_base_rows hr) (hr_records hr)
      = ([(Byte.x62, (80, 24)); (Byte.x63, (100, 30)); (Byte.x64, (100, 30))], (100, 30)) /\
    3 <= 3.
Proof.
  apply (ordered_replays_stream 80 24 3 4
           [OpOutput [Byte.x61; Byte.x62]; OpResize 1 100 30; OpOutput [Byte.x63; Byte.x64]]);
    vm_compute; congruence.
Defined.
