(* ===== verification/KeeperHistoryCodec.v ===== *)
(** * The ordered-history payload: round trips and bounds

    Theorems on the codec of [crates/roost-keeper/src/history.rs] defined in
    [KeeperHistory]: encoding and decoding are inverse on every history either
    accepts, and every history a channel can build encodes. *)
From S2P Require Import Prelude KeeperCodec KeeperPayloads KeeperHistory.

(** ** What the code's types say of a history *)

(** The integer widths of a record's fields. *)
Definition record_typed (r : HistoryRecord) : Prop :=
  match r with
  | Output _ => True
  | ResizeRecord seq cols rows => fits 64 seq /\ fits 16 cols /\ fits 16 rows
  end.

Definition history_typed (h : HistoryRecords) : Prop :=
  fits 64 (hr_head_seq h) /\ fits 16 (hr_base_cols h) /\ fits 16 (hr_base_rows h) /\
  Forall record_typed (hr_records h).

(** A record both the encoder and the decoder accept. *)
Definition record_valid (r : HistoryRecord) : Prop :=
  match r with
  | Output bytes => bytes <> []
  | ResizeRecord seq cols rows =>
    0 <= seq <= MAX_SAFE_INTEGER /\ dimension_ok cols /\ dimension_ok rows
  end.

(** The bytes of a list of records, and the output bytes among them. *)
Definition records_bytes (rs : list HistoryRecord) : list byte := concat (map encode_record rs).

Fixpoint raw_total (rs : list HistoryRecord) : Z :=
  match rs with
  | [] => 0
  | Output bytes :: rs => len bytes + raw_total rs
  | ResizeRecord _ _ _ :: rs => raw_total rs
  end.

Lemma raw_total_nonneg rs : 0 <= raw_total rs.
Proof. induction rs as [|[bytes|] rs IH]; cbn; [done| |done]. pose proof (len_nonneg bytes). lia. Qed.

Lemma record_valid_typed r : record_valid r -> record_typed r.
Proof.
  destruct r; cbn; [done|]. unfold MAX_SAFE_INTEGER. intros (? & ? & ?).
  split_and!; [unfold fits; lia|auto|auto].
Qed.

Lemma len_encode_output bytes : len (encode_record (Output bytes)) = 5 + len bytes.
Proof. cbn [encode_record]. autorewrite with lens. lia. Qed.

Lemma len_encode_resize seq cols rows : len (encode_record (ResizeRecord seq cols rows)) = 17.
Proof. cbn [encode_record]. autorewrite with lens. lia. Qed.

Lemma records_bytes_cons r rs : records_bytes (r :: rs) = encode_record r ++ records_bytes rs.
Proof. done. Qed.

(** ** The encoder's validation loop *)

Lemma check_records_Ok rs p raw :
  Forall record_valid rs -> p + len (records_bytes rs) <= MAX_HISTORY_PAYLOAD_BYTES ->
  check_records rs p raw = Ok (p + len (records_bytes rs), raw + raw_total rs).
Proof.
  intros Hv. revert p raw. induction Hv as [|r rs Hr Hv IH]; intros p raw Hp.
  { cbn. by rewrite len_nil, !Z.add_0_r. }
  rewrite records_bytes_cons, len_app in *. pose proof (len_nonneg (records_bytes rs)).
  destruct r as [bytes|seq cols rows]; cbn [check_records raw_total].
  - rewrite len_encode_output in *. cbn in Hr.
    destruct (Z.eqb_spec (len bytes) 0) as [E|_]; [by apply len_zero_nil in E|].
    unfold HISTORY_OUTPUT_HEADER_BYTES.
    destruct (Z.ltb_spec MAX_HISTORY_PAYLOAD_BYTES (p + (Z.of_nat 5 + len bytes))); [lia|].
    rewrite IH by lia. do 2 f_equal; lia.
  - rewrite len_encode_resize in *. destruct Hr as (Hs & Hc & Hr).
    destruct (Z.ltb_spec MAX_SAFE_INTEGER seq); [lia|].
    rewrite !check_dimension_Ok by done. unfold HISTORY_RESIZE_BYTES.
    destruct (Z.ltb_spec MAX_HISTORY_PAYLOAD_BYTES (p + Z.of_nat 17)); [lia|].
    rewrite IH by lia. do 2 f_equal; lia.
Qed.

Lemma check_records_inv rs p raw p' raw' :
  Forall record_typed rs -> check_records rs p raw = Ok (p', raw') ->
  Forall record_valid rs /\ p' = p + len (records_bytes rs) /\ raw' = raw + raw_total rs /\
  (p <= MAX_HISTORY_PAYLOAD_BYTES -> p' <= MAX_HISTORY_PAYLOAD_BYTES).
Proof.
  intros Ht. revert p raw. induction Ht as [|r rs Hr Ht IH]; intros p raw H.
  { cbn in *. simplify_eq. rewrite len_nil. split_and!; [done|lia|lia|done]. }
  rewrite records_bytes_cons, len_app.
  destruct r as [bytes|seq cols rows]; cbn [check_records raw_total] in *.
  - destruct (Z.eqb_spec (len bytes) 0) as [|Hne]; [done|].
    unfold HISTORY_OUTPUT_HEADER_BYTES in H. case_if; [done|]. bool_to_prop.
    apply IH in H as (? & -> & -> & ?). rewrite len_encode_output.
    split_and!; [|lia|lia|intros; lia]. constructor; [|done].
    cbn. intros ->. by apply Hne.
  - destruct (Z.ltb_spec MAX_SAFE_INTEGER seq); [done|]. destruct Hr as (Hs & Hc & Hr).
    destruct (check_dimension cols) as [c|] eqn:Ec; [|done].
    destruct (check_dimension rows) as [w|] eqn:Ew; [|done].
    apply check_dimension_inv in Ec as [_ ?]; [|apply Hc].
    apply check_dimension_inv in Ew as [_ ?]; [|apply Hr].
    unfold HISTORY_RESIZE_BYTES in H. case_if; [done|]. bool_to_prop.
    apply IH in H as (? & -> & -> & ?). rewrite len_encode_resize.
    split_and!; [|lia|lia|intros; lia]. constructor; [|done].
    cbn. unfold fits in Hs. split_and!; [lia|lia|done|done].
Qed.

(** ** Decoding what was encoded *)

Lemma dimension_at p v l offset :
  dimension_ok v -> offset = length p -> dimension (p ++ to_be_bytes 4 v ++ l) offset = Ok v.
Proof.
  intros Hv ->. unfold dimension. rewrite read_u32_at by auto.
  cbn [ok_or]. rewrite check_dimension_Ok by done. by rewrite dimension_u16.
Qed.

Lemma get_run_at p bytes l : get_run (p ++ bytes ++ l) (length p) (len bytes) = Some bytes.
Proof.
  unfold get_run. rewrite !len_app. pose proof (len_nonneg l).
  destruct (Z.leb_spec (Z.of_nat (length p) + len bytes) (len p + (len bytes + len l)));
    [|unfold len in *; lia].
  rewrite drop_app_length. unfold len. rewrite Nat2Z.id, take_app_length. done.
Qed.

Lemma lookup_at_tag (pre l post : list byte) b :
  (pre ++ (b :: l) ++ post) !! length pre = Some b.
Proof. cbn [app]. by apply list_lookup_middle. Qed.

Lemma decode_output_step n pre bytes post head raw acc :
  bytes <> [] -> fits 32 (len bytes) -> raw + len bytes <= head ->
  decode_records (S n) (pre ++ encode_record (Output bytes) ++ post) head (length pre) raw acc =
  decode_records n ((pre ++ encode_record (Output bytes)) ++ post) head
    (length (pre ++ encode_record (Output bytes))) (raw + len bytes) (acc ++ [Output bytes]).
Proof.
  intros Hne Hfit Hraw. cbn [decode_records encode_record].
  rewrite wrap_small by done.
  rewrite lookup_at_tag. rewrite bool_decide_true by done.
  set (be := to_be_bytes 4 (len bytes)).
  assert (E1 : pre ++ (HISTORY_OUTPUT_TAG :: be ++ bytes) ++ post =
    (pre ++ [HISTORY_OUTPUT_TAG]) ++ be ++ (bytes ++ post)) by (by rewrite <- !app_assoc).
  assert (E2 : pre ++ (HISTORY_OUTPUT_TAG :: be ++ bytes) ++ post =
    (pre ++ HISTORY_OUTPUT_TAG :: be) ++ bytes ++ post)
    by (by rewrite <- !app_assoc; cbn; rewrite <- !app_assoc).
  rewrite E1 at 1. unfold be at 1. rewrite read_u32_at by (rewrite ?length_app; done).
  cbn [ok_or]. unfold HISTORY_OUTPUT_HEADER_BYTES.
  replace (length pre + 5)%nat with (length (pre ++ HISTORY_OUTPUT_TAG :: be))
    by (rewrite length_app; cbn [length]; unfold be; rewrite length_to_be_bytes; lia).
  rewrite E2 at 1. rewrite get_run_at.
  destruct (Z.eqb_spec (len bytes) 0) as [E|_]; [by apply len_zero_nil in E|].
  destruct (Z.ltb_spec head (raw + len bytes)); [lia|].
  f_equal.
  - by rewrite app_assoc.
  - rewrite !length_app. cbn [length]. rewrite length_app. unfold len. lia.
Qed.

Lemma decode_resize_step n pre seq cols rows post head raw acc :
  record_valid (ResizeRecord seq cols rows) ->
  decode_records (S n) (pre ++ encode_record (ResizeRecord seq cols rows) ++ post) head
    (length pre) raw acc =
  decode_records n ((pre ++ encode_record (ResizeRecord seq cols rows)) ++ post) head
    (length (pre ++ encode_record (ResizeRecord seq cols rows))) raw
    (acc ++ [ResizeRecord seq cols rows]).
Proof.
  intros (Hs & Hc & Hr). cbn [decode_records encode_record].
  rewrite lookup_at_tag. rewrite bool_decide_false by done.
  rewrite bool_decide_true by done.
  set (s8 := to_be_bytes 8 seq). set (c4 := to_be_bytes 4 cols). set (r4 := to_be_bytes 4 rows).
  assert (L8 : length s8 = 8%nat) by apply length_to_be_bytes.
  assert (L4 : length c4 = 4%nat) by apply length_to_be_bytes.
  assert (R4 : length r4 = 4%nat) by apply length_to_be_bytes.
  set (payload := pre ++ (HISTORY_RESIZE_TAG :: s8 ++ c4 ++ r4) ++ post).
  assert (E1 : payload = (pre ++ [HISTORY_RESIZE_TAG]) ++ s8 ++ (c4 ++ r4 ++ post))
    by (unfold payload; by rewrite <- !app_assoc; cbn; rewrite <- !app_assoc).
  assert (E2 : payload = (pre ++ HISTORY_RESIZE_TAG :: s8) ++ c4 ++ (r4 ++ post))
    by (unfold payload; by rewrite <- !app_assoc; cbn; rewrite <- !app_assoc).
  assert (E3 : payload = (pre ++ HISTORY_RESIZE_TAG :: s8 ++ c4) ++ r4 ++ post)
    by (unfold payload; by rewrite <- !app_assoc; cbn; rewrite <- !app_assoc).
  assert (Hlen : len payload = Z.of_nat (length pre) + 17 + len post).
  { unfold payload, len. rewrite !length_app. cbn [length]. rewrite !length_app. lia. }
  pose proof (len_nonneg post). unfold HISTORY_RESIZE_BYTES.
  destruct (Z.ltb_spec (len payload) (Z.of_nat (length pre) + Z.of_nat 17)); [lia|].
  rewrite E1 at 1. unfold s8 at 1.
  rewrite read_sequence_at by (rewrite ?length_app; auto; unfold fits, MAX_SAFE_INTEGER in *; lia).
  cbn [ok_or]. destruct (Z.ltb_spec MAX_SAFE_INTEGER seq); [lia|].
  rewrite E2 at 1. unfold c4 at 1.
  rewrite dimension_at by (auto; rewrite length_app; cbn [length]; lia).
  rewrite E3 at 1. unfold r4 at 1.
  rewrite dimension_at by (auto; rewrite length_app; cbn [length]; rewrite length_app; lia).
  f_equal.
  - unfold payload. by rewrite app_assoc.
  - rewrite !length_app. cbn [length]. rewrite !length_app. lia.
Qed.

Lemma decode_records_encoded rs pre post head raw acc :
  Forall record_valid rs -> len (records_bytes rs) < 2 ^ 32 -> raw + raw_total rs <= head ->
  decode_records (length rs) (pre ++ records_bytes rs ++ post) head (length pre) raw acc =
  Ok ((length pre + length (records_bytes rs))%nat, acc ++ rs).
Proof.
  intros Hv. revert pre raw acc. induction Hv as [|r rs Hr Hv IH]; intros pre raw acc Hlen Hraw.
  { cbn. by rewrite Nat.add_0_r, app_nil_r. }
  rewrite records_bytes_cons in *. rewrite len_app in Hlen.
  pose proof (len_nonneg (records_bytes rs)). pose proof (raw_total_nonneg rs).
  cbn [length]. rewrite <- (app_assoc (encode_record r)).
  destruct r as [bytes|seq cols rows]; cbn [raw_total] in Hraw.
  - rewrite len_encode_output in Hlen. pose proof (len_nonneg bytes).
    rewrite decode_output_step by (done || unfold fits; lia).
    rewrite IH by lia. rewrite !length_app, <- app_assoc, Nat.add_assoc. done.
  - rewrite decode_resize_step by done. rewrite len_encode_resize in Hlen.
    rewrite IH by lia. rewrite !length_app, <- app_assoc, Nat.add_assoc. done.
Qed.

(** ** Whole payloads *)

(** A history the wire format can carry. *)
Record history_valid (h : HistoryRecords) : Prop := {
  hv_head : 0 <= hr_head_seq h <= MAX_SAFE_INTEGER;
  hv_cols : dimension_ok (hr_base_cols h);
  hv_rows : dimension_ok (hr_base_rows h);
  hv_count : len (hr_records h) <= MAX_HISTORY_RECORDS;
  hv_records : Forall record_valid (hr_records h);
  hv_size : 21 + len (records_bytes (hr_records h)) <= MAX_HISTORY_PAYLOAD_BYTES;
  hv_raw : raw_total (hr_records h) <= hr_head_seq h;
}.

Definition header (h : HistoryRecords) : list byte :=
  to_be_bytes 1 HISTORY_FORMAT_VERSION ++ to_be_bytes 8 (hr_head_seq h)
  ++ to_be_bytes 4 (hr_base_cols h) ++ to_be_bytes 4 (hr_base_rows h)
  ++ to_be_bytes 4 (len (hr_records h)).

Lemma length_header h : length (header h) = 21%nat.
Proof. unfold header. by rewrite !length_app, !length_to_be_bytes. Qed.

Lemma count_fits h : len (hr_records h) <= MAX_HISTORY_RECORDS -> fits 32 (len (hr_records h)).
Proof.
  unfold MAX_HISTORY_RECORDS, KEEPER_MAX_HISTORY_RESIZE_RECORDS, fits.
  pose proof (len_nonneg (hr_records h)). lia.
Qed.

Lemma history_encode_valid h :
  history_valid h -> history_encode h = Ok (header h ++ records_bytes (hr_records h)).
Proof.
  intros [H1 H2 H3 H4 H5 H6 H7]. unfold history_encode.
  destruct (Z.ltb_spec MAX_SAFE_INTEGER (hr_head_seq h)); [lia|].
  rewrite !check_dimension_Ok by done.
  destruct (Z.ltb_spec MAX_HISTORY_RECORDS (len (hr_records h))); [lia|].
  rewrite check_records_Ok by (done || unfold HISTORY_HEADER_BYTES; lia). cbn [snd].
  destruct (Z.ltb_spec (hr_head_seq h) (0 + raw_total (hr_records h))); [lia|].
  rewrite wrap_small by (by apply count_fits). unfold header. by rewrite <- !app_assoc.
Qed.

Lemma history_encode_inv h p :
  history_typed h -> history_encode h = Ok p ->
  history_valid h /\ p = header h ++ records_bytes (hr_records h).
Proof.
  intros (T1 & T2 & T3 & T4) H.
  assert (Hv : history_valid h).
  { unfold history_encode in H.
    destruct (Z.ltb_spec MAX_SAFE_INTEGER (hr_head_seq h)); [done|].
    destruct (check_dimension (hr_base_cols h)) eqn:Ec; [|done].
    destruct (check_dimension (hr_base_rows h)) eqn:Er; [|done].
    apply check_dimension_inv in Ec as [_ ?]; [|apply T2].
    apply check_dimension_inv in Er as [_ ?]; [|apply T3].
    destruct (Z.ltb_spec MAX_HISTORY_RECORDS (len (hr_records h))); [done|].
    destruct (check_records _ _ _) as [[size raw]|] eqn:E; [|done]. cbn [snd] in H.
    apply check_records_inv in E as (? & -> & -> & Hsize); [|done].
    specialize (Hsize ltac:(done)). unfold HISTORY_HEADER_BYTES in Hsize.
    destruct (Z.ltb_spec (hr_head_seq h) (0 + raw_total (hr_records h))); [done|].
    unfold fits in T1. split; done || lia. }
  split; [done|]. rewrite history_encode_valid in H by done. by simplify_eq.
Qed.

(** The five header fields of an encoded history. *)
Lemma header_fields h body :
  history_valid h ->
  let p := header h ++ body in
  take 1 p = to_be_bytes 1 HISTORY_FORMAT_VERSION /\
  read_sequence p 1 = Some (hr_head_seq h) /\
  dimension p 9 = Ok (hr_base_cols h) /\ dimension p 13 = Ok (hr_base_rows h) /\
  read_u32 p 17 = Some (len (hr_records h)).
Proof.
  intros [H1 H2 H3 H4 _ _ _] p. unfold p, header.
  set (v := to_be_bytes 1 HISTORY_FORMAT_VERSION). set (s := to_be_bytes 8 (hr_head_seq h)).
  set (c := to_be_bytes 4 (hr_base_cols h)). set (r := to_be_bytes 4 (hr_base_rows h)).
  assert (length v = 1%nat) by apply length_to_be_bytes.
  assert (length s = 8%nat) by apply length_to_be_bytes.
  assert (length c = 4%nat) by apply length_to_be_bytes.
  assert (length r = 4%nat) by apply length_to_be_bytes.
  rewrite <- !app_assoc. split_and!.
  - by apply take_app_length'.
  - apply read_sequence_at; [unfold fits, MAX_SAFE_INTEGER in *; lia|done].
  - rewrite (app_assoc v). apply dimension_at; [done|]. rewrite length_app. lia.
  - rewrite (app_assoc v), (app_assoc (v ++ s)). apply dimension_at; [done|].
    rewrite !length_app. lia.
  - rewrite (app_assoc v), (app_assoc (v ++ s)), (app_assoc ((v ++ s) ++ c)).
    apply read_u32_at; [by apply count_fits|]. rewrite !length_app. lia.
Qed.

Lemma history_decode_valid h :
  history_valid h -> history_decode (header h ++ records_bytes (hr_records h)) = Ok h.
Proof.
  intros Hv. pose proof (header_fields h (records_bytes (hr_records h)) Hv) as HF.
  destruct HF as (F1 & F2 & F3 & F4 & F5). destruct Hv as [H1 H2 H3 H4 H5 H6 H7].
  unfold history_decode. rewrite length_app, length_header.
  unfold HISTORY_HEADER_BYTES at 1. cbn [Nat.add Nat.ltb Nat.leb].
  rewrite len_app. unfold len at 1. rewrite length_header.
  destruct (Z.ltb_spec MAX_HISTORY_PAYLOAD_BYTES
              (Z.of_nat 21 + len (records_bytes (hr_records h)))); [lia|].
  rewrite F1, bool_decide_true by done. cbn [negb]. rewrite F2. cbn [ok_or].
  destruct (Z.ltb_spec MAX_SAFE_INTEGER (hr_head_seq h)); [lia|].
  rewrite F3, F4, F5. cbn [ok_or].
  destruct (Z.ltb_spec MAX_HISTORY_RECORDS (len (hr_records h))); [lia|].
  unfold len at 1. rewrite Nat2Z.id.
  rewrite <- (app_nil_r (records_bytes (hr_records h))) at 1.
  replace HISTORY_HEADER_BYTES with (length (header h)) by apply length_header.
  rewrite decode_records_encoded.
  - cbn [fst snd app]. rewrite length_header, Nat.eqb_refl. by destruct h.
  - done.
  - unfold MAX_HISTORY_PAYLOAD_BYTES in *. lia.
  - lia.
Qed.

(** ** Everything decoded was encoded *)

Lemma dimension_inv payload offset d :
  dimension payload offset = Ok d ->
  dimension_ok d /\ (offset + 4 <= length payload)%nat /\
  to_be_bytes 4 d = take 4 (drop offset payload).
Proof.
  unfold dimension. destruct (read_u32 payload offset) as [v|] eqn:E; [|done]. cbn [ok_or].
  apply read_u32_Some in E as (? & [? _] & ?).
  destruct (check_dimension v) as [v'|] eqn:Ev; [|done].
  apply check_dimension_inv in Ev as [-> ?]; [|done].
  intros [=<-]. by rewrite dimension_u16.
Qed.

Lemma drop_lookup (l : list byte) i b : l !! i = Some b -> drop i l = b :: drop (S i) l.
Proof. apply drop_S. Qed.

Lemma take_drop_step (l : list byte) (off a b : nat) :
  take (a + b) (drop off l) = take a (drop off l) ++ take b (drop (off + a) l).
Proof.
  rewrite (take_split _ a (a + b)) by lia. rewrite drop_drop. do 2 f_equal. lia.
Qed.

Lemma decode_records_inv n payload head off raw acc off' recs :
  raw <= head -> (off <= length payload)%nat ->
  decode_records n payload head off raw acc = Ok (off', recs) ->
  exists rs, recs = acc ++ rs /\ length rs = n /\ Forall record_valid rs /\
    raw + raw_total rs <= head /\
    off' = (off + length (records_bytes rs))%nat /\ (off' <= length payload)%nat /\
    take (length (records_bytes rs)) (drop off payload) = records_bytes rs.
Proof.
  revert off raw acc. induction n as [|n IH]; intros off raw acc Hraw Hoff H; cbn [decode_records] in H.
  { simplify_eq. exists []. rewrite app_nil_r. cbn. split_and!; done || lia. }
  destruct (payload !! off) as [b|] eqn:Eb; [|done].
  apply drop_lookup in Eb as Hd.
  case_bool_decide as Ht; [|case_bool_decide as Ht'; try done].
  - subst b. destruct (read_u32 payload (off + 1)) as [l|] eqn:El; [|done]. cbn [ok_or] in H.
    apply read_u32_Some in El as (El1 & El2 & El3).
    unfold get_run, HISTORY_OUTPUT_HEADER_BYTES in H.
    destruct (Z.leb_spec (Z.of_nat (off + 5) + l) (len payload)) as [Hfit|]; [|done].
    set (bytes := take (Z.to_nat l) (drop (off + 5) payload)) in *.
    assert (Hlb : length bytes = Z.to_nat l)
      by (unfold bytes; rewrite length_take, length_drop; unfold len in *; lia).
    destruct (Z.eqb_spec (len bytes) 0) as [|Hne]; [done|].
    destruct (Z.ltb_spec head (raw + l)); [done|].
    apply IH in H as (rs & -> & Hn & Hv & Hr & -> & Hle & Htk);
      [|lia|unfold len, fits in *; lia].
    assert (Hlen : len bytes = l) by (unfold len, fits in *; lia).
    assert (Henc : encode_record (Output bytes) = take (5 + Z.to_nat l) (drop off payload)).
    { rewrite (take_drop_step _ _ 5). fold bytes. rewrite (take_drop_step _ _ 1 4), <- El3.
      rewrite Hd at 1. cbn [encode_record take app]. by rewrite Hlen, wrap_small. }
    assert (Hlr : length (encode_record (Output bytes)) = (5 + Z.to_nat l)%nat).
    { rewrite Henc, length_take, length_drop. unfold len, fits in *. lia. }
    exists (Output bytes :: rs). rewrite records_bytes_cons, length_app, Hlr. cbn [raw_total].
    split_and!; [by rewrite <- app_assoc|cbn; lia| |lia|lia|lia|].
    + constructor; [|done]. cbn. intros Hnil. by rewrite Hnil in Hne.
    + rewrite take_drop_step, <- Henc. f_equal. rewrite <- Htk at 2. do 2 f_equal. lia.
  - subst b. unfold HISTORY_RESIZE_BYTES in H.
    destruct (Z.ltb_spec (len payload) (Z.of_nat off + Z.of_nat 17)); [done|].
    destruct (read_sequence payload (off + 1)) as [seq|] eqn:Es; [|done]. cbn [ok_or] in H.
    apply read_sequence_Some in Es as (_ & Es2 & Es3).
    destruct (Z.ltb_spec MAX_SAFE_INTEGER seq); [done|].
    destruct (dimension payload (off + 9)) as [c|] eqn:Ec; [|done].
    destruct (dimension payload (off + 13)) as [w|] eqn:Ew; [|done].
    apply dimension_inv in Ec as (? & _ & Ec3). apply dimension_inv in Ew as (? & _ & Ew3).
    apply IH in H as (rs & -> & Hn & Hv & Hr & -> & Hle & Htk); [|lia|unfold len in *; lia].
    assert (Henc : encode_record (ResizeRecord seq c w) = take 17 (drop off payload)).
    { rewrite (take_drop_step _ _ 13 4), <- Ew3, (take_drop_step _ _ 9 4), <- Ec3,
        (take_drop_step _ _ 1 8), <- Es3. rewrite Hd at 1. cbn [encode_record take app].
      by rewrite <- !app_assoc. }
    assert (Hlr : length (encode_record (ResizeRecord seq c w)) = 17%nat).
    { rewrite Henc, length_take, length_drop. unfold len in *. lia. }
    exists (ResizeRecord seq c w :: rs). rewrite records_bytes_cons, length_app, Hlr.
    cbn [raw_total]. split_and!; [by rewrite <- app_assoc|cbn; lia| |lia|lia|lia|].
    + constructor; [|done]. cbn. unfold fits in Es2. split_and!; done || lia.
    + rewrite take_drop_step, <- Henc. f_equal. rewrite <- Htk at 2. done.
Qed.

Lemma history_decode_inv p h :
  history_decode p = Ok h ->
  history_valid h /\ p = header h ++ records_bytes (hr_records h).
Proof.
  unfold history_decode. intros H.
  destruct (Nat.ltb_spec (length p) HISTORY_HEADER_BYTES) as [|Hl]; [done|].
  destruct (Z.ltb_spec MAX_HISTORY_PAYLOAD_BYTES (len p)); [done|].
  case_bool_decide as Hver; [|done]. cbn [negb] in H.
  destruct (read_sequence p 1) as [hd|] eqn:Es; [|done]. cbn [ok_or] in H.
  destruct (Z.ltb_spec MAX_SAFE_INTEGER hd); [done|].
  destruct (dimension p 9) as [c|] eqn:Ec; [|done].
  destruct (dimension p 13) as [w|] eqn:Ew; [|done].
  destruct (read_u32 p 17) as [n|] eqn:En; [|done]. cbn [ok_or] in H.
  destruct (Z.ltb_spec MAX_HISTORY_RECORDS n); [done|].
  destruct (decode_records _ _ _ _ _ _) as [[off recs]|] eqn:Er; [|done].
  destruct (Nat.eqb_spec off (length p)) as [Hoff|]; cbn [fst snd negb] in H.
  2: { by rewrite (proj2 (Nat.eqb_neq off (length p))) in H. }
  rewrite (proj2 (Nat.eqb_eq off (length p)) Hoff) in H. cbn [negb] in H.
  apply read_sequence_Some in Es as (_ & Es2 & Es3). apply read_u32_Some in En as (_ & En2 & En3).
  apply dimension_inv in Ec as (? & _ & Ec3). apply dimension_inv in Ew as (? & _ & Ew3).
  unfold fits, HISTORY_HEADER_BYTES in *.
  apply decode_records_inv in Er as (rs & -> & Hn & Hv & Hr & Ho & _ & Htk); [|lia|lia].
  cbn [app] in *. simplify_eq. cbn [hr_records].
  assert (Hp : length p = (21 + length (records_bytes rs))%nat) by lia.
  assert (Hcount : len rs = n) by (unfold len; lia).
  split.
  - split; cbn [hr_head_seq hr_base_cols hr_base_rows hr_records]; try done; try lia.
    unfold len in *. lia.
  - unfold header. cbn [hr_head_seq hr_base_cols hr_base_rows hr_records].
    rewrite Hcount, <- Hver, Es3, Ec3, Ew3, En3, <- Htk.
    rewrite <- (take_ge p (21 + length (records_bytes rs))) at 1 by lia.
    rewrite <- (drop_0 p) at 1. rewrite take_drop_step. f_equal.
    rewrite (take_drop_step _ _ 17 4), (take_drop_step _ _ 13 4), (take_drop_step _ _ 9 4),
      (take_drop_step _ _ 1 8). cbn [Nat.add]. by rewrite drop_0, <- !app_assoc.
Qed.

Lemma history_valid_typed h : history_valid h -> history_typed h.
Proof.
  intros [? ? ? _ ? _ _]. split_and!; auto.
  - unfold fits, MAX_SAFE_INTEGER in *. lia.
  - eapply Forall_impl; [done|]. apply record_valid_typed.
Qed.

(** ** The histories a channel builds *)

Lemma replay_length g rs : len (fst (replay g rs)) = raw_total rs.
Proof.
  revert g. induction rs as [|[bytes|q c r] rs IH]; intros g; cbn; [done| |apply IH].
  specialize (IH g). destruct (replay g rs) as [t g']. cbn in *.
  rewrite len_app, <- IH. unfold len. by rewrite length_map.
Qed.

Lemma records_bytes_bound rs : len (records_bytes rs) <= raw_total rs + 17 * len rs.
Proof.
  induction rs as [|[bytes|q c r] rs IH]; [done| |]; rewrite records_bytes_cons, len_app, len_cons;
    cbn [raw_total]; [rewrite len_encode_output|rewrite len_encode_resize]; lia.
Qed.

(** A marker with a geometry the wire accepts and a sequence up to [limit]: the
    wire takes it when that is the largest exact counter. *)
Definition marker_sound (limit : Z) (m : ResizeMarker) : Prop :=
  0 <= marker_seq m <= limit /\
  dimension_ok (marker_cols m) /\ dimension_ok (marker_rows m).

(** So is every geometry and sequence a history holds. *)
Definition history_sound (limit : Z) (h : ChannelHistory) : Prop :=
  dimension_ok (base_cols h) /\ dimension_ok (base_rows h) /\
  dimension_ok (current_cols h) /\ dimension_ok (current_rows h) /\
  Forall (marker_sound limit) (resizes h) /\
  len (resizes h) <= max_resizes h.

Lemma ordered_valid h hr :
  hist_wf h -> history_sound MAX_SAFE_INTEGER h -> ordered h = Some hr ->
  ring_cap h = KEEPER_RING_CAP_BYTES -> max_resizes h = KEEPER_MAX_HISTORY_RESIZE_RECORDS ->
  head_seq h <= MAX_SAFE_INTEGER -> history_valid hr.
Proof.
  intros Hwf (Hbc & Hbr & _ & _ & Hms & Hlen) Ho Hcap Hmax Hhd.
  destruct (ordered_spec h Hwf) as (hr' & Ho' & Hh & Hb & Hrep & Hof & Hcount).
  rewrite Ho in Ho'. simplify_eq. unfold base_geom in Hb. injection Hb as Hc Hr.
  assert (Hraw : raw_total (hr_records hr') = len (ring h)).
  { rewrite <- (replay_length (base_geom h)), Hrep. cbn. unfold content, len. by rewrite length_stamp. }
  pose proof (records_bytes_bound (hr_records hr')).
  pose proof (wf_ring h Hwf). pose proof (wf_tail h Hwf). pose proof (len_nonneg (ring h)).
  unfold KEEPER_RING_CAP_BYTES, KEEPER_MAX_HISTORY_RESIZE_RECORDS in *.
  split; try congruence; try lia.
  - unfold MAX_HISTORY_RECORDS, KEEPER_MAX_HISTORY_RESIZE_RECORDS. lia.
  - eapply Forall_impl; [exact Hof|]. intros [bytes|q c r]; cbn; [done|].
    intros (m & Hin & -> & -> & ->). rewrite Forall_forall in Hms. by apply Hms.
  - unfold MAX_HISTORY_PAYLOAD_BYTES. lia.
Qed.

(** A history of 64-bit sequences is ordered into records the encoder can be
    asked for, whether or not it takes them. *)
Lemma ordered_typed h hr :
  hist_wf h -> history_sound (2 ^ 64 - 1) h -> ordered h = Some hr -> history_typed hr.
Proof.
  intros Hwf (Hbc & Hbr & _ & _ & Hms & _) Ho.
  destruct (ordered_spec h Hwf) as (hr' & Ho' & Hh & Hb & _ & Hof & _).
  rewrite Ho in Ho'. simplify_eq. unfold base_geom in Hb. injection Hb as Hc Hr.
  pose proof (wf_head h Hwf). pose proof (wf_tail h Hwf). pose proof (len_nonneg (ring h)).
  unfold dimension_ok, KEEPER_MAX_TERMINAL_DIMENSION in *.
  split_and!; unfold fits in *; [lia|lia|lia|].
  eapply Forall_impl; [exact Hof|]. intros [bytes|q c r]; cbn; [done|].
  intros (m & Hin & -> & -> & ->). rewrite Forall_forall in Hms. destruct (Hms m Hin) as (? & Hmc & Hmr).
  unfold dimension_ok, KEEPER_MAX_TERMINAL_DIMENSION, fits in *. lia.
Qed.

Lemma trim_markers_sound limit tail cols rows ms cols' rows' ms' :
  dimension_ok cols -> dimension_ok rows -> Forall (marker_sound limit) ms ->
  trim_markers tail cols rows ms = (cols', rows', ms') ->
  dimension_ok cols' /\ dimension_ok rows' /\ Forall (marker_sound limit) ms' /\ len ms' <= len ms.
Proof.
  intros Hc Hr Hms. revert cols rows Hc Hr.
  induction Hms as [|m ms Hm Hms IH]; intros cols rows Hc Hr H; cbn in H; [by simplify_eq|].
  rewrite len_cons. case_if; [simplify_eq; rewrite len_cons; split_and!; auto; lia|].
  destruct Hm as (_ & ? & ?). apply IH in H as (? & ? & ? & ?); [|done|done]. split_and!; auto. lia.
Qed.

Lemma record_output_sound limit h bytes : history_sound limit h -> history_sound limit (record_output h bytes).
Proof.
  intros Hs. destruct bytes as [|b bytes]; [done|]. cbn [record_output]. unfold trim_evicted.
  destruct (trim_markers _ _ _ _) as [[c' r'] ms'] eqn:E.
  destruct Hs as (? & ? & ? & ? & ? & ?).
  eapply (trim_markers_sound limit) in E as (? & ? & ? & ?); [|done..].
  cbn [base_cols base_rows resizes] in *. split_and!; cbn; try done. lia.
Qed.

Lemma record_resize_sound limit h seq cols rows :
  history_sound limit h -> 1 <= max_resizes h -> 0 <= seq <= limit ->
  dimension_ok cols -> dimension_ok rows -> history_sound limit (record_resize h seq cols rows).
Proof.
  intros (? & ? & ? & ? & ? & ?) Hm Hs Hc Hr.
  assert (Forall (marker_sound limit) [mkMarker (head_seq h) seq cols rows]) by by constructor.
  unfold record_resize. case_if; bool_to_prop; split_and!; cbn; try done.
  - by apply Forall_app.
  - rewrite len_app, len_cons, len_nil. lia.
Qed.

(** What the keeper may record: a geometry the wire accepts, under a sequence
    up to [limit]. *)
Definition op_sound (limit : Z) (op : hist_op) : Prop :=
  match op with
  | OpOutput _ => True
  | OpResize seq cols rows =>
    0 <= seq <= limit /\ dimension_ok cols /\ dimension_ok rows
  end.

Lemma run_ops_sound limit ops h :
  history_sound limit h -> 1 <= max_resizes h -> Forall (op_sound limit) ops ->
  history_sound limit (run_ops h ops).
Proof.
  intros Hs Hm Hops. revert h Hs Hm. induction Hops as [|op ops Hop Hops IH]; intros h Hs Hm; [done|].
  cbn. apply IH; [|by rewrite (proj2 (run_op_limits h op))].
  destruct op; cbn in *; [by apply record_output_sound|]. destruct Hop as (? & ? & ?).
  by apply record_resize_sound.
Qed.

(** ** Properties of the payload *)

(** C25: Encoding and decoding an ordered history are inverse of each other: a history
    encodes to a payload exactly when that payload decodes to it. So decoding
    recovers every record, and the format is canonical: the decoder accepts no
    payload other than the one the encoder writes (no trailing bytes, no empty
    run, no output past the head, no out-of-range dimension). *)
Theorem history_codec_inverse (h : HistoryRecords) (p : list byte) :
  history_typed h -> history_encode h = Ok p <-> history_decode p = Ok h.
Proof.
  intros Ht. split; intros H.
  - apply history_encode_inv in H as [Hv ->]; [|done]. by apply history_decode_valid.
  - apply history_decode_inv in H as [Hv ->]. by apply history_encode_valid.
Qed.

Lemma history_codec_inverse_witness :
  history_encode (mkHistoryRecords 5 80 24 [Output [Byte.x61]; ResizeRecord 1 100 30])
  = Ok [Byte.x01; Byte.x00; Byte.x00; Byte.x00; Byte.x00; Byte.x00; Byte.x00; Byte.x00; Byte.x05;
        Byte.x00; Byte.x00; Byte.x00; Byte.x50; Byte.x00; Byte.x00; Byte.x00; Byte.x18;
        Byte.x00; Byte.x00; Byte.x00; Byte.x02;
        Byte.x01; Byte.x00; Byte.x00; Byte.x00; Byte.x01; Byte.x61;
        Byte.x02; Byte.x00; Byte.x00; Byte.x00; Byte.x00; Byte.x00; Byte.x00; Byte.x00; Byte.x01;
        Byte.x00; Byte.x00; Byte.x00; Byte.x64; Byte.x00; Byte.x00; Byte.x00; Byte.x1e].
Proof.
  apply history_codec_inverse; [|by vm_compute].
  repeat constructor; vm_compute; congruence.
Defined.

(** A keeper never builds a history it cannot send. Whatever output a channel
    emitted (below the largest exact counter) and whatever valid geometry
    changes it took, the ordered records encode within every bound and decode
    to themselves, so the answer to [GetHistoryRecords] exists. *)
Theorem keeper_history_encodes (cols rows : Z) (ops : list hist_op) :
  dimension_ok cols -> dimension_ok rows -> Forall (op_sound MAX_SAFE_INTEGER) ops ->
  output_total ops <= MAX_SAFE_INTEGER ->
  exists hr p, ordered (run_ops (history_new cols rows) ops) = Some hr /\
    history_encode hr = Ok p /\ history_decode p = Ok hr /\
    len p <= MAX_HISTORY_PAYLOAD_BYTES.
Proof.
  intros Hc Hr Hops Htot. set (h := run_ops _ _).
  assert (window_of h (stream_ops ([], (cols, rows)) ops)) as (Hwf & Hh & _).
  { apply run_ops_window; [by apply with_limits_window|].
    cbn [fst]. rewrite len_nil. unfold MAX_SAFE_INTEGER in Htot. lia. }
  destruct (ordered_spec h Hwf) as (hr & Ho & _).
  assert (history_valid hr) as Hv.
  { destruct (run_ops_limits (history_new cols rows) ops).
    eapply (ordered_valid h); try done.
    - apply run_ops_sound; [|done|done]. split_and!; cbn; done || constructor.
    - rewrite Hh, stream_ops_total. cbn [fst]. rewrite len_nil. lia. }
  exists hr, (header hr ++ records_bytes (hr_records hr)). split_and!.
  - done.
  - by apply history_encode_valid.
  - by apply history_decode_valid.
  - rewrite len_app. unfold len at 1. rewrite length_header. apply (hv_size hr Hv).
Qed.

Lemma keeper_history_encodes_witness :
  exists hr p, ordered (run_ops (history_new 80 24) [OpOutput [Byte.x61]; OpResize 1 100 30]) = Some hr /\
    history_encode hr = Ok p /\ history_decode p = Ok hr /\ len p <= MAX_HISTORY_PAYLOAD_BYTES.
Proof.
  apply keeper_history_encodes; [done|done| |done]. repeat constructor; vm_compute; congruence.
Defined.
