(* ===== verification/KeeperOutput.v ===== *)
(** * A channel's output ring and its wake-up signal

    Models [crates/roost-keeper/src/output_ring.rs]: the bounded queue of
    chunks a blocking PTY reader hands to the keeper's loop ([OutputRing]), the
    reader thread's loop, and the coalesced signal that wakes the serving
    connection ([OutputSignal]), together with the part of the connection loop
    ([server/connection.rs], [forward_until_end]) that waits on it. *)
From S2P Require Import Prelude.

Definition OUTPUT_QUEUE_DEPTH : Z := 256.
Definition READ_CHUNK_BYTES : Z := 16 * 1024.

(** ** The ring *)

Module OutputRing.

(** The receiving end of a channel's output: the queued chunks, the partial
    chunk, and whether the reader thread still holds the sender. *)
Record t := mk {
  chunks : list (list byte);
  pending : list byte;
  sender_alive : bool;
}.

Definition new : t := mk [] [] true.

(** The loop of [OutputRing::take]: receive until [limit] bytes are pending or
    nothing is queued. *)
Fixpoint fill (limit : Z) (queue : list (list byte)) (pending : list byte)
  : list (list byte) * list byte :=
  match queue with
  | [] => ([], pending)
  | chunk :: queue' =>
    if len pending <? limit then fill limit queue' (pending ++ chunk)
    else (queue, pending)
  end.

(** [OutputRing::take]. *)
Definition take (r : t) (limit : Z) : t * option (list byte) :=
  let '(queue, pending) := fill limit (chunks r) (pending r) in
  match pending with
  | [] => (mk queue pending (sender_alive r), None)
  | _ =>
    let n := Z.to_nat (Z.min limit (len pending)) in
    (mk queue (drop n pending) (sender_alive r), Some (list.take n pending))
  end.

(** [OutputRing::is_eof]. *)
Definition is_eof (r : t) : t * bool :=
  match pending r with
  | _ :: _ => (r, false)
  | [] =>
    match chunks r with
    | chunk :: queue => (mk queue chunk (sender_alive r), false)
    | [] => (r, negb (sender_alive r))
    end
  end.

(** [OutputRing::is_drained]. *)
Definition is_drained (r : t) : t * bool :=
  match pending r with
  | _ :: _ => (r, false)
  | [] =>
    match chunks r with
    | chunk :: queue => (mk queue chunk (sender_alive r), false)
    | [] => (r, true)
    end
  end.

(** What one blocking read of the PTY returned to [pump_pty_output]. *)
Inductive read_result :=
| ReadBytes (bytes : list byte)
| ReadEof
| ReadInterrupted
| ReadError.

(** One turn of the reader thread ([pump_pty_output]): a chunk is sent when the
    queue has room, an interrupted read is retried, and end of file or an error
    drops the sender. [None] is a turn that cannot be taken: the thread is gone,
    blocked on a full queue, or the read returned what no read can. *)
Definition pump (r : t) (res : read_result) : option t :=
  if negb (sender_alive r) then None
  else match res with
  | ReadBytes bytes =>
    if (0 <? len bytes) && (len bytes <=? READ_CHUNK_BYTES)
       && (len (chunks r) <? OUTPUT_QUEUE_DEPTH)
    then Some (mk (chunks r ++ [bytes]) (pending r) true) else None
  | ReadEof | ReadError => Some (mk (chunks r) (pending r) false)
  | ReadInterrupted => Some r
  end.

(** Everything handed over and not yet taken, in order. *)
Definition held (r : t) : list byte := pending r ++ concat (chunks r).

(** The ring in a running channel: the bytes the PTY produced, those the keeper
    took, and the interleaving of reader turns and keeper calls. *)
Inductive run : list byte -> list byte -> t -> Prop :=
| run_start : run [] [] new
| run_pump produced taken r res r' :
    run produced taken r -> pump r res = Some r' ->
    run (produced ++ match res with ReadBytes bytes => bytes | _ => [] end) taken r'
| run_take produced taken r limit r' out :
    run produced taken r -> 0 <= limit -> take r limit = (r', out) ->
    run produced (taken ++ default [] out) r'
| run_eof produced taken r r' b :
    run produced taken r -> is_eof r = (r', b) -> run produced taken r'
| run_drained produced taken r r' b :
    run produced taken r -> is_drained r = (r', b) -> run produced taken r'.

(** ** Lemmas *)

Lemma fill_held limit queue pending :
  let '(queue', pending') := fill limit queue pending in
  pending' ++ concat queue' = pending ++ concat queue.
Proof.
  revert pending. induction queue as [|c queue IH]; intros pending; cbn [fill]; [done|].
  case_if; [|done]. specialize (IH (pending ++ c)).
  destruct (fill limit queue (pending ++ c)). rewrite IH. cbn. by rewrite app_assoc.
Qed.

Lemma fill_enough limit queue pending :
  let '(queue', pending') := fill limit queue pending in
  limit <= len pending' \/ queue' = [].
Proof.
  revert pending. induction queue as [|c queue IH]; intros pending; cbn [fill]; [by right|].
  case_if; bool_to_prop; [apply IH|by left].
Qed.

Lemma take_held r limit r' out :
  0 <= limit -> take r limit = (r', out) ->
  default [] out ++ held r' = held r /\
  len (default [] out) = Z.min limit (len (held r)) /\ sender_alive r' = sender_alive r.
Proof.
  intros Hl. unfold take.
  pose proof (fill_held limit (chunks r) (pending r)) as Hh.
  pose proof (fill_enough limit (chunks r) (pending r)) as He.
  destruct (fill limit (chunks r) (pending r)) as [queue pending'].
  fold (held r) in Hh. rewrite <- Hh, len_app.
  pose proof (len_nonneg (concat queue)).
  assert (Hmin : Z.min limit (len pending') = Z.min limit (len pending' + len (concat queue))).
  { destruct He as [| ->]; [|cbn]; rewrite ?len_nil; lia. }
  destruct pending' as [|b pending']; intros Hout; simplify_eq; cbn [default held pending chunks].
  - cbn [app]. rewrite len_nil in *. split_and!; [done|lia|done].
  - unfold held, id. cbn [pending chunks]. rewrite app_assoc, take_drop. split_and!; [done| |done].
    rewrite len_take; [lia|]. pose proof (len_nonneg (b :: pending')). lia.
Qed.

Lemma probe_held r :
  held (fst (is_eof r)) = held r /\ sender_alive (fst (is_eof r)) = sender_alive r /\
  held (fst (is_drained r)) = held r /\ sender_alive (fst (is_drained r)) = sender_alive r.
Proof.
  destruct r as [[|c q] [|b p] alive]; unfold held; cbn; rewrite ?app_nil_r; done.
Qed.

(** No chunk in flight is empty: [pump_pty_output] never sends one. *)
Definition chunks_ok (r : t) : Prop := Forall (fun c => c <> []) (chunks r).

Lemma pump_held r res r' :
  pump r res = Some r' ->
  held r' = held r ++ match res with ReadBytes bytes => bytes | _ => [] end.
Proof.
  unfold pump, held. intros Hp. repeat case_if; try done.
  destruct res; repeat case_if; simplify_eq; cbn; rewrite ?app_nil_r; try done.
  by rewrite concat_app, <- !app_assoc; cbn; rewrite app_nil_r.
Qed.

Lemma pump_chunks r res r' : chunks_ok r -> pump r res = Some r' -> chunks_ok r'.
Proof.
  unfold pump, chunks_ok. intros Hc Hp. repeat case_if; try done.
  destruct res as [bytes| | |]; repeat case_if; simplify_eq; try done.
  apply Forall_app. split; [done|]. bool_to_prop. repeat constructor. by intros ->.
Qed.

Lemma fill_chunks limit queue pending (P : list byte -> Prop) :
  Forall P queue -> Forall P (fst (fill limit queue pending)).
Proof.
  intros H. revert pending. induction H as [|c queue Hc Hq IH]; intros pending; cbn; [done|].
  case_if; [apply IH|by constructor].
Qed.

Lemma take_chunks r limit : chunks_ok r -> chunks_ok (fst (take r limit)).
Proof.
  intros Hc. unfold take. pose proof (fill_chunks limit (chunks r) (pending r) _ Hc) as Hf.
  by destruct (fill limit (chunks r) (pending r)) as [q [|]].
Qed.

Lemma probe_chunks r :
  chunks_ok r -> chunks_ok (fst (is_eof r)) /\ chunks_ok (fst (is_drained r)).
Proof. destruct r as [[|c q] [|b p] alive]; [done..|by inversion 1|done]. Qed.

Lemma run_inv produced taken r :
  run produced taken r -> produced = taken ++ held r /\ chunks_ok r.
Proof.
  induction 1 as [|produced taken r res r' H [-> IHc] Hp|produced taken r limit r' out H [-> IHc] Hl Ht
    |produced taken r r' b H [-> IHc] He|produced taken r r' b H [-> IHc] He].
  - by split; [|constructor].
  - by split; [apply pump_held in Hp as ->; rewrite app_assoc|eapply pump_chunks].
  - destruct (take_held r limit r' out Hl Ht) as [<- _]. split; [by rewrite app_assoc|].
    replace r' with (fst (take r limit)) by (by rewrite Ht). by apply take_chunks.
  - destruct (probe_held r) as (H1 & _), (probe_chunks r IHc) as [H2 _].
    rewrite He in H1, H2. cbn [fst] in H1, H2. by rewrite H1.
  - destruct (probe_held r) as (_ & _ & H1 & _), (probe_chunks r IHc) as [_ H2].
    rewrite He in H1, H2. cbn [fst] in H1, H2. by rewrite H1.
Qed.

Lemma is_drained_spec r : chunks_ok r -> snd (is_drained r) = true <-> held r = [].
Proof.
  intros Hc. destruct r as [[|c q] [|b p] alive]; unfold held; cbn; try done.
  inversion Hc. by destruct c.
Qed.

Lemma is_eof_spec r :
  chunks_ok r -> snd (is_eof r) = true <-> sender_alive r = false /\ held r = [].
Proof.
  intros Hc. destruct r as [[|c q] [|b p] [|]]; unfold held; cbn; try naive_solver.
  inversion Hc. destruct c; naive_solver.
Qed.

Lemma taken_all r (taken : list byte) : taken = taken ++ held r <-> held r = [].
Proof.
  split; intros Heq; [|by rewrite Heq, app_nil_r].
  apply (app_inv_head taken). by rewrite app_nil_r.
Qed.

(** ** Properties *)

(** C19: Output is neither lost, duplicated nor reordered: in every interleaving of
    the blocking reader with the keeper's calls, what the keeper took followed
    by what the ring holds is exactly what the PTY produced; a drain returns as
    much as its limit allows; and end of output is reported only once the child
    let go of the PTY and every byte it wrote was taken. *)
Theorem output_conserved produced taken r :
  run produced taken r ->
  produced = taken ++ held r /\
  (forall limit, 0 <= limit ->
     len (default [] (snd (take r limit))) = Z.min limit (len (held r))) /\
  (snd (is_eof r) = true <-> sender_alive r = false /\ taken = produced) /\
  (snd (is_drained r) = true <-> taken = produced).
Proof.
  intros [-> Hc]%run_inv. split_and!; [done| | |].
  - intros limit Hl. destruct (take r limit) as [r' out] eqn:E.
    by destruct (take_held r limit r' out Hl E) as (_ & ? & _).
  - by rewrite is_eof_spec, taken_all.
  - by rewrite is_drained_spec, taken_all.
Qed.

Lemma output_conserved_witness :
  let r := mk [[Byte.x63]] [Byte.x62] true in
  [Byte.x61; Byte.x62; Byte.x63] = [Byte.x61] ++ held r /\
  (forall limit, 0 <= limit ->
     len (default [] (snd (take r limit))) = Z.min limit (len (held r))) /\
  (snd (is_eof r) = true <-> sender_alive r = false /\ [Byte.x61] = [Byte.x61; Byte.x62; Byte.x63]) /\
  (snd (is_drained r) = true <-> [Byte.x61] = [Byte.x61; Byte.x62; Byte.x63]).
Proof.
  apply output_conserved.
  apply (run_pump [Byte.x61; Byte.x62] [Byte.x61] (mk [] [Byte.x62] true) (ReadBytes [Byte.x63])).
  - apply (run_take [Byte.x61; Byte.x62] [] (mk [[Byte.x61; Byte.x62]] [] true) 1 _ (Some [Byte.x61]));
      [|done|done].
    by apply (run_pump [] [] new (ReadBytes [Byte.x61; Byte.x62])); [constructor|].
  - done.
Defined.

End OutputRing.

(** ** The signal and the loop that waits on it *)

Module Signal.

(** What wakes the connection loop. *)
Inductive LoopEvent :=
| Received (bytes : list byte)
| Closed
| Output.

Definition EVENT_QUEUE_DEPTH : Z := 8.
Definition DRAIN_LIMIT_BYTES : Z := 16 * 1024.

(** [OutputSignal]; [waker] says whether a serving connection is attached. *)
Record OutputSignal := mkSignal { raised : bool; waker : bool }.

Definition init : OutputSignal := mkSignal false false.

(** The first half of [OutputSignal::raise], its atomic swap; [true] when the
    caller goes on to call the waker. *)
Definition raise_swap (s : OutputSignal) : OutputSignal * bool :=
  (mkSignal true (waker s), negb (raised s)).

(** The second half: the waker, a [try_send] on the loop's queue. *)
Definition raise_wake (s : OutputSignal) (inbox : list LoopEvent) : list LoopEvent :=
  if waker s && (len inbox <? EVENT_QUEUE_DEPTH) then inbox ++ [Output] else inbox.

(** [OutputSignal::take]. *)
Definition take_raised (s : OutputSignal) : OutputSignal * bool :=
  (mkSignal false (waker s), raised s).
(** [OutputSignal::attach], [detach]. *)
Definition attach (s : OutputSignal) : OutputSignal := mkSignal (raised s) true.
Definition detach (s : OutputSignal) : OutputSignal := mkSignal (raised s) false.

(** Where a channel's reader thread is: about to read, between its hand-over
    and the swap of [raise], or between that swap and the waker. *)
Inductive reader := Reading | Handed | Waking.

(** A channel as the loop and its reader see it; [served] until the keeper
    drops it. *)
Record chan := mkChan { pc : reader; ring : OutputRing.t; served : bool }.

(** Where the connection loop is in [forward_until_end]. A phase with an index
    is a pass over the channels that has reached that one. *)
Inductive phase :=
| Taking
| Draining (i : nat)
| Reaping (i : nat)
| Checking (i : nat)
| Waiting (backlogged : bool)
| Answering
| Ended.

Record state := mkState {
  signal : OutputSignal;
  inbox : list LoopEvent;
  chans : list chan;
  at_ : phase;
}.

Definition set_chan (s : state) (i : nat) (c : chan) : state :=
  mkState (signal s) (inbox s) (<[i := c]> (chans s)) (at_ s).
Definition goto (s : state) (p : phase) : state :=
  mkState (signal s) (inbox s) (chans s) p.
Definition with_ring (c : chan) (r : OutputRing.t) : chan := mkChan (pc c) r (served c).

(** The atomic actions of the three kinds of thread: the PTY readers, the
    socket reader, and the loop. *)
Inductive action :=
| Pump (i : nat) (res : OutputRing.read_result)
| Swap (i : nat)
| Wake (i : nat)
| Socket (ev : LoopEvent)
| Step
| ReapExited (code_seen : bool)
| Timeout
| Open
| Replace (i : nat).

(** A reader thread's turn: the hand-over (or its end) leads to the raise.
    Once the keeper dropped the channel a send fails and the thread ends. *)
Definition pump_turn (s : state) (i : nat) (c : chan) (res : OutputRing.read_result) : option state :=
  match pc c, res with
  | Reading, OutputRing.ReadInterrupted => if OutputRing.sender_alive (ring c) then Some s else None
  | Reading, _ =>
    if served c then
      r' ← OutputRing.pump (ring c) res;
      Some (set_chan s i (mkChan Handed r' true))
    else if OutputRing.sender_alive (ring c) then
      Some (set_chan s i (mkChan Handed
        (OutputRing.mk (OutputRing.chunks (ring c)) (OutputRing.pending (ring c)) false) false))
    else None
  | _, _ => None
  end.

(** [output_backlogged] at one channel: it stops at the first that is. *)
Definition check_turn (s : state) (i : nat) (c : chan) : state :=
  if served c then
    let '(r', drained) := OutputRing.is_drained (ring c) in
    goto (set_chan s i (with_ring c r')) (if drained then Checking (S i) else Waiting true)
  else goto s (Checking (S i)).

(** One step of the loop's passes over the channels: [drain_output],
    [output_backlogged], and the phases between them. *)
Definition loop_turn (s : state) : option state :=
  match at_ s with
  | Taking => Some (mkState (fst (take_raised (signal s))) (inbox s) (chans s) (Draining 0))
  | Draining i =>
    match chans s !! i with
    | None => Some (goto s (Reaping 0))
    | Some c =>
      let c' := if served c then with_ring c (fst (OutputRing.take (ring c) DRAIN_LIMIT_BYTES)) else c in
      Some (goto (set_chan s i c') (Draining (S i)))
    end
  | Checking i =>
    match chans s !! i with
    | None => Some (goto s (Waiting false))
    | Some c => Some (check_turn s i c)
    end
  | Waiting _ =>
    match inbox s with
    | [] => None
    | ev :: rest =>
      Some (mkState (signal s) rest (chans s)
        match ev with Received _ => Answering | Output => Taking | Closed => Ended end)
    end
  | Answering => Some (goto s Taking)
  | Reaping _ | Ended => None
  end.

(** One step of [reap_exited]: a channel whose child exited is dropped once its
    output ended. [code_seen] is what [try_wait] answered. *)
Definition reap_turn (s : state) (code_seen : bool) : option state :=
  match at_ s with
  | Reaping i =>
    match chans s !! i with
    | None => Some (goto s (Checking 0))
    | Some c =>
      if served c && code_seen then
        let '(r', eof) := OutputRing.is_eof (ring c) in
        Some (goto (set_chan s i (mkChan (pc c) r' (negb eof))) (Reaping (S i)))
      else Some (goto s (Reaping (S i)))
    end
  | _ => None
  end.

Definition step (s : state) (a : action) : option state :=
  match a with
  | Pump i res => c ← chans s !! i; pump_turn s i c res
  | Swap i =>
    c ← chans s !! i;
    match pc c with
    | Handed =>
      let '(sig, must_wake) := raise_swap (signal s) in
      Some (mkState sig (inbox s)
        (<[i := mkChan (if must_wake then Waking else Reading) (ring c) (served c)]> (chans s)) (at_ s))
    | _ => None
    end
  | Wake i =>
    c ← chans s !! i;
    match pc c with
    | Waking =>
      Some (mkState (signal s) (raise_wake (signal s) (inbox s))
        (<[i := mkChan Reading (ring c) (served c)]> (chans s)) (at_ s))
    | _ => None
    end
  | Socket ev =>
    match ev with
    | Output => None
    | _ => if len (inbox s) <? EVENT_QUEUE_DEPTH
           then Some (mkState (signal s) (inbox s ++ [ev]) (chans s) (at_ s)) else None
    end
  | Step => loop_turn s
  | ReapExited code_seen => reap_turn s code_seen
  | Timeout => match at_ s with Waiting _ => Some (goto s Taking) | _ => None end
  | Open =>
    match at_ s with
    | Answering =>
      Some (mkState (signal s) (inbox s) (chans s ++ [mkChan Reading OutputRing.new true]) Answering)
    | _ => None
    end
  | Replace i =>
    c ← chans s !! i;
    match at_ s with
    | Answering => Some (set_chan s i (mkChan (pc c) (ring c) false))
    | _ => None
    end
  end.

Fixpoint steps (s : state) (acts : list action) : option state :=
  match acts with
  | [] => Some s
  | a :: acts' => s' ← step s a; steps s' acts'
  end.

(** The loop's entry: any channels left by earlier connections, readers
    anywhere, with this connection's waker attached. *)
Definition entry (s : state) : Prop :=
  at_ s = Taking /\ waker (signal s) = true /\
  Forall (fun c => OutputRing.chunks_ok (ring c)) (chans s).

(** ** The invariant *)

Definition some_waking (l : list chan) : Prop := exists j c, l !! j = Some c /\ pc c = Waking.

(** The loop is past [take] and has not come back to it. *)
Definition busy (p : phase) : bool :=
  match p with Draining _ | Reaping _ | Checking _ | Waiting _ => true | _ => false end.

(** The channels a pass of [output_backlogged] has found drained. *)
Definition checked (p : phase) (i : nat) : bool :=
  match p with Checking k => Nat.ltb i k | Waiting false => true | _ => false end.

(** Output on a channel already checked will be announced. *)
Definition announced (raised : bool) (c : chan) : Prop :=
  served c = true -> OutputRing.held (ring c) <> [] -> raised = true \/ pc c = Handed.

Record inv (s : state) : Prop := {
  inv_waker : waker (signal s) = true;
  inv_chunks : forall i c, chans s !! i = Some c -> OutputRing.chunks_ok (ring c);
  inv_raised : busy (at_ s) = true -> raised (signal s) = true ->
               inbox s <> [] \/ some_waking (chans s);
  inv_checked : forall i c, checked (at_ s) i = true -> chans s !! i = Some c ->
                announced (raised (signal s)) c;
}.

Lemma some_waking_insert l i c c' :
  l !! i = Some c -> (pc c = Waking -> pc c' = Waking) ->
  some_waking l -> some_waking (<[i := c']> l).
Proof.
  intros Hi Hpc (j & d & Hj & Hd). destruct (decide (i = j)) as [-> |Hne].
  - exists j, c'. split; [|naive_solver]. apply list_lookup_insert_eq. by eapply lookup_lt_Some.
  - exists j, d. split; [|done]. by rewrite list_lookup_insert_ne.
Qed.

Lemma entry_inv s : entry s -> inv s.
Proof.
  intros (Hat & Hw & Hc). split; rewrite ?Hat; try done.
  intros i c Hi. rewrite Forall_lookup in Hc. by eapply Hc.
Qed.

(** Replacing a channel's record keeps the invariant when the new record keeps
    its chunks well-formed, its waker call pending, and its output announced. *)
Lemma set_chan_inv s i c c' :
  inv s -> chans s !! i = Some c -> OutputRing.chunks_ok (ring c') ->
  (pc c = Waking -> pc c' = Waking) ->
  (checked (at_ s) i = true -> announced (raised (signal s)) c') ->
  inv (set_chan s i c').
Proof.
  intros [Hw Hc Hr Hk] Hi Hok Hpc Hann. split; cbn; [done| | |].
  - intros j d [(-> & <- & _)|[? Hj]]%list_lookup_insert_Some; [done|by eapply Hc].
  - intros Hb Hra. destruct (Hr Hb Hra); [by left|right]. by eapply some_waking_insert.
  - intros j d Hch [(-> & <- & _)|[? Hj]]%list_lookup_insert_Some; [by apply Hann|by eapply Hk].
Qed.

(** Moving to a phase that has checked no more channels. *)
Lemma goto_inv s p :
  inv s -> (busy p = true -> busy (at_ s) = true) ->
  (forall i c, checked p i = true -> chans s !! i = Some c -> announced (raised (signal s)) c) ->
  inv (goto s p).
Proof. intros [Hw Hc Hr Hk] Hb Hch. split; cbn; auto. Qed.

Lemma pump_turn_inv s i c res s' :
  inv s -> chans s !! i = Some c -> pump_turn s i c res = Some s' -> inv s'.
Proof.
  intros Hinv Hi. pose proof (inv_chunks s Hinv i c Hi) as Hc. unfold pump_turn.
  assert (Hset : forall r' b, pc c = Reading -> OutputRing.chunks_ok r' ->
    inv (set_chan s i (mkChan Handed r' b))).
  { intros r' b Hpc Hr. eapply set_chan_inv; try done; [by rewrite Hpc|]. intros _ _ _. by right. }
  destruct (pc c), res; intros H; try done; repeat case_if; simplify_eq; try done;
    try (apply bind_Some in H as (r' & Hp & [= <-]); apply Hset; [done|];
         by eapply OutputRing.pump_chunks); by apply Hset.
Qed.

Lemma checked_next s i j c :
  inv s -> at_ s = Checking i -> checked (Checking (S i)) j = true ->
  (i = j -> announced (raised (signal s)) c) -> chans s !! j = Some c ->
  announced (raised (signal s)) c.
Proof.
  intros Hinv Hat Hj Hi Hl. destruct (decide (i = j)) as [-> |]; [by apply Hi|].
  apply (inv_checked s Hinv j c); [|done]. rewrite Hat. cbn [checked] in *.
  apply Nat.ltb_lt in Hj. apply Nat.ltb_lt. lia.
Qed.

Lemma check_turn_inv s i c :
  inv s -> at_ s = Checking i -> chans s !! i = Some c -> inv (check_turn s i c).
Proof.
  intros Hinv Hat Hi. pose proof (inv_chunks s Hinv i c Hi) as Hc. unfold check_turn.
  destruct (served c) eqn:Hs.
  - pose proof (OutputRing.is_drained_spec _ Hc) as [Hd _].
    pose proof (OutputRing.probe_held (ring c)) as (_ & _ & Hh & _).
    pose proof (OutputRing.probe_chunks _ Hc) as [_ Hc'].
    destruct (OutputRing.is_drained (ring c)) as [r' drained]; cbn [fst snd] in *.
    assert (Hset : inv (set_chan s i (with_ring c r'))).
    { eapply set_chan_inv; try done. rewrite Hat. cbn [checked]. rewrite Nat.ltb_lt. lia. }
    destruct drained; (apply goto_inv; [done|cbn; by rewrite Hat|]); [|done].
    intros j d Hj Hl. eapply (checked_next (set_chan s i (with_ring c r'))); try done.
    intros <-. cbn in Hl. rewrite list_lookup_insert_eq in Hl by (by eapply lookup_lt_Some).
    simplify_eq. intros _. cbn [with_ring ring]. by rewrite Hh, Hd.
  - apply goto_inv; [done|cbn; by rewrite Hat|]. intros j d Hj Hl.
    eapply checked_next; try done. intros <- Hs'. congruence.
Qed.

Lemma loop_turn_inv s s' : inv s -> loop_turn s = Some s' -> inv s'.
Proof.
  intros Hinv H. unfold loop_turn in H. destruct (at_ s) as [|i|i|i|b| |] eqn:Hat; simplify_eq.
  - destruct Hinv. by split.
  - destruct (chans s !! i) as [c|] eqn:Hi; simplify_eq.
    + apply goto_inv; cbn; [|by rewrite Hat|done].
      pose proof (inv_chunks s Hinv i c Hi).
      eapply set_chan_inv; try done; destruct (served c); try done; [by apply OutputRing.take_chunks|..];
        by rewrite Hat.
    + apply goto_inv; by rewrite ?Hat.
  - destruct (chans s !! i) as [c|] eqn:Hi; simplify_eq; [by apply check_turn_inv|].
    apply goto_inv; cbn; rewrite ?Hat; try done. intros j d _ Hl.
    apply (inv_checked s Hinv j d); [|done]. rewrite Hat. cbn [checked]. apply Nat.ltb_lt.
    apply lookup_lt_Some in Hl. apply lookup_ge_None in Hi. lia.
  - destruct (inbox s) as [|ev rest]; simplify_eq. destruct Hinv. by destruct ev; split.
  - by apply goto_inv.
Qed.

Lemma reap_turn_inv s b s' : inv s -> reap_turn s b = Some s' -> inv s'.
Proof.
  intros Hinv H. unfold reap_turn in H. destruct (at_ s) as [|i|i|i|?| |] eqn:Hat; simplify_eq.
  destruct (chans s !! i) as [c|] eqn:Hi; simplify_eq; [|by apply goto_inv; rewrite ?Hat].
  pose proof (OutputRing.probe_chunks _ (inv_chunks s Hinv i c Hi)) as [Hc' _].
  destruct (OutputRing.is_eof (ring c)) as [r' eof]; cbn [fst] in *.
  case_if; simplify_eq; (apply goto_inv; cbn; rewrite ?Hat; try done).
  eapply set_chan_inv; try done. by rewrite Hat.
Qed.

Lemma swap_inv s i s' : inv s -> step s (Swap i) = Some s' -> inv s'.
Proof.
  intros [Hw Hc Hr Hk] H. cbn in H. apply bind_Some in H as (c & Hi & H).
  destruct (pc c) eqn:Hpc; simplify_eq. split; cbn; [done| | |].
  - intros j d [(-> & <- & _)|[? Hj]]%list_lookup_insert_Some; [exact (Hc _ _ Hi)|by eapply Hc].
  - intros Hb _. destruct (raised (signal s)) eqn:Hra; cbn.
    + destruct (Hr Hb eq_refl); [by left|right].
      eapply some_waking_insert; [done| |done]. by rewrite Hpc.
    + right. exists i, (mkChan Waking (ring c) (served c)). split; [|done]. apply list_lookup_insert_eq. by eapply lookup_lt_Some.
  - intros j d _ _ _ _. by left.
Qed.

Lemma wake_inv s i s' : inv s -> step s (Wake i) = Some s' -> inv s'.
Proof.
  intros [Hw Hc Hr Hk] H. cbn in H. apply bind_Some in H as (c & Hi & H).
  destruct (pc c) eqn:Hpc; simplify_eq. split; cbn; [done| | |].
  - intros j d [(-> & <- & _)|[? Hj]]%list_lookup_insert_Some; [exact (Hc _ _ Hi)|by eapply Hc].
  - intros _ _. left. unfold raise_wake. rewrite Hw. cbn [andb].
    case_if; [by destruct (inbox s)|]. intros Hnil. rewrite Hnil in *. done.
  - intros j d Hch [(-> & <- & _)|[? Hj]]%list_lookup_insert_Some; [|by eapply Hk].
    intros Hs Hh. destruct (Hk _ _ Hch Hi Hs Hh) as [|]; [by left|congruence].
Qed.

Lemma signal_step_inv s a s' : inv s -> step s a = Some s' -> inv s'.
Proof.
  intros Hinv H. destruct a as [i res|i|i|ev| |b| | |i].
  - cbn in H. apply bind_Some in H as (c & Hi & H). by eapply pump_turn_inv.
  - by eapply swap_inv.
  - by eapply wake_inv.
  - cbn in H. destruct ev; simplify_eq; case_if; simplify_eq; destruct Hinv; split; cbn; try done;
      intros; left; by destruct (inbox s).
  - by eapply loop_turn_inv.
  - by eapply reap_turn_inv.
  - cbn in H. destruct (at_ s) eqn:Hat; simplify_eq. by apply goto_inv.
  - cbn in H. destruct (at_ s) eqn:Hat; simplify_eq. destruct Hinv as [Hw Hc Hr Hk].
    split; cbn; try done. intros i c [Hi|[_ Hi]]%lookup_app_Some; [by eapply Hc|].
    apply list_lookup_singleton_Some in Hi as [_ <-]. constructor.
  - cbn in H. apply bind_Some in H as (c & Hi & H). destruct (at_ s) eqn:Hat; simplify_eq.
    eapply set_chan_inv; try done. exact (inv_chunks s Hinv i c Hi).
Qed.

Lemma steps_inv acts s s' : inv s -> steps s acts = Some s' -> inv s'.
Proof.
  revert s. induction acts as [|a acts IH]; intros s Hs H; cbn in H; [by simplify_eq|].
  apply bind_Some in H as (s1 & H1 & H). by eapply IH; [eapply signal_step_inv|].
Qed.

(** C18: No wake-up is lost. Whatever the interleaving of the PTY readers, the
    socket reader and the connection loop, when the loop is waiting out its
    tick with nothing in its queue and some served channel holds output, a
    reader is on its way to wake it: running that reader's remaining one or two
    atomic actions puts [Output] in the queue. *)
Theorem no_lost_wakeup s0 acts s i c :
  entry s0 -> steps s0 acts = Some s ->
  at_ s = Waiting false -> inbox s = [] ->
  chans s !! i = Some c -> served c = true -> OutputRing.held (ring c) <> [] ->
  exists j s', (steps s [Wake j] = Some s' \/ steps s [Swap j; Wake j] = Some s') /\
               inbox s' = [Output].
Proof.
  intros Hent%entry_inv Hrun Hat Hin Hi Hs Hh.
  destruct (steps_inv _ _ _ Hent Hrun) as [Hw _ Hr Hk].
  rewrite Hat in *. destruct (raised (signal s)) eqn:Hra.
  - destruct (Hr eq_refl eq_refl) as [|(j & d & Hj & Hd)]; [done|].
    exists j. eexists. split; [left; cbn; rewrite Hj; cbn; by rewrite Hd|].
    cbn. unfold raise_wake. by rewrite Hw, Hin.
  - destruct (Hk i c eq_refl Hi Hs Hh) as [|Hpc]; [done|].
    exists i. eexists. split.
    + right. cbn. rewrite Hi. cbn. rewrite Hpc. cbn.
      rewrite list_lookup_insert_eq by (by eapply lookup_lt_Some). cbn. by rewrite Hra.
    + cbn. unfold raise_wake. cbn. by rewrite Hw, Hin.
Qed.

(** A chunk lands after the loop's last look, and its reader has not raised. *)
Lemma no_lost_wakeup_witness :
  let s0 := mkState (mkSignal true true) [] [mkChan Reading OutputRing.new true] Taking in
  let s := mkState (mkSignal false true) []
    [mkChan Handed (OutputRing.mk [[Byte.x61]] [] true) true] (Waiting false) in
  exists j s', (steps s [Wake j] = Some s' \/ steps s [Swap j; Wake j] = Some s') /\
               inbox s' = [Output].
Proof.
  intros s0 s.
  apply (no_lost_wakeup s0
    [Step; Step; Step; ReapExited false; ReapExited false; Step; Step;
     Pump 0 (OutputRing.ReadBytes [Byte.x61])]
    s 0 (mkChan Handed (OutputRing.mk [[Byte.x61]] [] true) true)); try done.
  unfold entry. split_and!; try done. repeat constructor.
Defined.

End Signal.
