(* ===== verification/KeeperInput.v ===== *)
(** * The keeper's PTY-input lane

    Models [crates/roost-keeper/src/input_queue.rs]: the route acknowledged
    input answers on ([InputRoute]), one channel's bounded FIFO ([InputLane]),
    the thread that writes it to the PTY ([drain_lane], [settle_batch],
    [write_batch]) and the result each acknowledged batch is answered with.
    The PTY's write half is a script of responses of [std::io::Write], one per
    [write] call, so every short write, interruption and refusal is covered.
    The keeper's thread and the lane's thread interleave at the source's lock
    and atomic operations. *)
From S2P Require Import Prelude KeeperCodec KeeperPayloads.

Definition KEEPER_INPUT_QUEUE_MAX_COMMANDS : Z := 200.
Definition KEEPER_INPUT_QUEUE_MAX_BYTES : Z := 256 * 1024.

(** ** The result route *)

(** [InputRoute]: the attached connection's generation, and the counter. *)
Record InputRoute := mkRoute { attached : option Z; generations : Z }.

Definition route_default : InputRoute := mkRoute None 0.

(** [InputRoute::attach]. *)
Definition attach (r : InputRoute) : InputRoute * Z :=
  let generation := u64 (generations r + 1) in
  (mkRoute (Some generation) generation, generation).

(** [InputRoute::detach]. *)
Definition detach (r : InputRoute) : InputRoute := mkRoute None (generations r).

(** [InputRoute::current]. *)
Definition current (r : InputRoute) : option Z := attached r.

(** [InputRoute::deliver], given whether the sink's write would succeed. *)
Definition route_deliver (r : InputRoute) (generation : Z) (sink_ok : bool) : bool :=
  match attached r with
  | Some current => (current =? generation) && sink_ok
  | None => false
  end.

(** ** Batches and the lane *)

Inductive InputReply :=
| Unacknowledged
| Acknowledged (seq : Z) (generation : option Z).

Record Batch := mkBatch { batch_bytes : list byte; batch_reply : InputReply }.

(** [LaneState] with the lane's [exited] flag. *)
Record Lane := mkLane {
  lane_channel : Z;
  lane_queue : list Batch;
  held_bytes : Z;
  writing : bool;
  closed : bool;
  exited : bool;
}.

(** [InputLane::start]. *)
Definition lane_start (channel : Z) : Lane := mkLane channel [] 0 false false false.

(** [InputLane::enqueue]. *)
Definition enqueue (l : Lane) (bytes : list byte) (reply : InputReply) : Lane * bool :=
  let commands := len (lane_queue l) + (if writing l then 1 else 0) in
  if (KEEPER_INPUT_QUEUE_MAX_COMMANDS <=? commands)
     || (KEEPER_INPUT_QUEUE_MAX_BYTES <? held_bytes l + len bytes)
  then (l, false)
  else (mkLane (lane_channel l) (lane_queue l ++ [mkBatch bytes reply])
          (held_bytes l + len bytes) (writing l) (closed l) (exited l), true).

(** [InputLane::mark_exited]. *)
Definition mark_exited (l : Lane) : Lane :=
  mkLane (lane_channel l) (lane_queue l) (held_bytes l) (writing l) (closed l) true.

(** [Drop for InputLane]. *)
Definition lane_drop (l : Lane) : Lane :=
  mkLane (lane_channel l) (lane_queue l) (held_bytes l) (writing l) true (exited l).

(** What [next_batch] does when the lane's thread holds the lock. *)
Inductive next :=
| Blocked
| Stopped
| Got (batch : Batch) (l : Lane).

(** [next_batch]. *)
Definition next_batch (l : Lane) : next :=
  match lane_queue l with
  | batch :: queue =>
    Got batch (mkLane (lane_channel l) queue (held_bytes l) true (closed l) (exited l))
  | [] => if closed l then Stopped else Blocked
  end.

(** The release at the end of [drain_lane]'s turn. *)
Definition release (l : Lane) (batch : Batch) : Lane :=
  mkLane (lane_channel l) (lane_queue l) (held_bytes l - len (batch_bytes batch)) false
    (closed l) (exited l).

(** ** Writing a batch *)

Inductive WriteOutcome :=
| Complete (written : Z)
| Rejected (reason : PtyInRejectReason)
| Partial (written : Z) (reason : PtyInRejectReason).

(** What one call of the PTY's [write] answers: room for so many bytes, of which
    it takes at most what it was offered, an interruption, or an error. *)
Inductive write_response :=
| Accepts (room : nat)
| Interrupted
| Refuses.

(** [stalled]. *)
Definition stalled (written : nat) : WriteOutcome :=
  if (written =? 0)%nat then Rejected NoReader
  else Partial (u32 (Z.of_nat written)) PartialWrite.

(** The loop of [write_batch]: the bytes written, whether it ran to the end,
    and the rest of the script. [None] while [write] blocks. *)
Fixpoint write_loop (bytes : list byte) (written : nat) (script : list write_response)
  : option (nat * bool * list write_response) :=
  if (length bytes <=? written)%nat then Some (written, true, script)
  else match script with
  | [] => None
  | Accepts room :: script =>
    let accepted := Nat.min room (length bytes - written) in
    if (accepted =? 0)%nat then Some (written, false, script)
    else write_loop bytes (written + accepted) script
  | Interrupted :: script => write_loop bytes written script
  | Refuses :: script => Some (written, false, script)
  end.

(** [write_batch]: the outcome and the bytes that reached the PTY. *)
Definition write_batch (bytes : list byte) (script : list write_response) (flush_ok : bool)
  : option (WriteOutcome * list byte) :=
  match bytes with
  | [] => Some (Complete 0, [])
  | _ =>
    '(written, finished, _) ← write_loop bytes 0 script;
    let landed := take written bytes in
    Some (if finished && flush_ok then Complete (u32 (Z.of_nat written)) else stalled written,
          landed)
  end.

(** [acknowledged_result]. *)
Definition acknowledged_result (seq : Z) (outcome : WriteOutcome) : MuxFrameType * PtyInResult :=
  match outcome with
  | Complete written => (PtyInAck, Ack seq written)
  | Rejected reason => (PtyInReject, Reject seq reason)
  | Partial written reason => (PtyInAmbiguous, Ambiguous seq written reason)
  end.

(** ** The lane's thread *)

(** Where the lane's thread is in [drain_lane] and [settle_batch]: at
    [next_batch], before the route check, before the closed/exited check,
    before the delivery, before the release, or stopped. *)
Inductive thread :=
| AtNext
| AtRoute (batch : Batch)
| AtWrite (batch : Batch)
| AtDeliver (batch : Batch) (outcome : WriteOutcome)
| AtRelease (batch : Batch)
| AtEnd.

(** What became of a batch. *)
Inductive disposition :=
| Dropped
| Settled (outcome : WriteOutcome).

(** A lane with its thread, the route, and what the outside saw: every batch
    accepted, every batch settled with the bytes it put on the PTY, and the
    result frames delivered with the generation they went to. *)
Record system := mkSystem {
  lane : Lane;
  route : InputRoute;
  thread_at : thread;
  accepted : list Batch;
  settled : list (Batch * disposition * list byte);
  pty : list byte;
  sent : list (Z * MuxFrame);
}.

Inductive action :=
| Enqueue (bytes : list byte) (reply : InputReply)
| MarkExited
| Close
| Attach
| Detach
| Next
| CheckRoute
| Write (script : list write_response) (flush_ok : bool)
| Deliver (sink_ok : bool)
| Release.

(** The route check of [settle_batch]: a batch of a departed connection. *)
Definition departed (r : InputRoute) (reply : InputReply) : bool :=
  match reply with
  | Acknowledged _ (Some generation) => negb (bool_decide (current r = Some generation))
  | _ => false
  end.

(** The delivery of [settle_batch]: the frame that reached the connection. *)
Definition deliver (l : Lane) (r : InputRoute) (reply : InputReply) (outcome : WriteOutcome)
    (sink_ok : bool) : list (Z * MuxFrame) :=
  match reply with
  | Unacknowledged => []
  | Acknowledged seq generation =>
    let '(t, res) := acknowledged_result seq outcome in
    match generation, MuxFrame_new t (lane_channel l) (PtyInResult_encode res) with
    | Some generation, Ok frame =>
      if route_deliver r generation sink_ok then [(generation, frame)] else []
    | _, _ => []
    end
  end.

Definition set_lane (s : system) (l : Lane) : system :=
  mkSystem l (route s) (thread_at s) (accepted s) (settled s) (pty s) (sent s).
Definition set_route (s : system) (r : InputRoute) : system :=
  mkSystem (lane s) r (thread_at s) (accepted s) (settled s) (pty s) (sent s).
Definition set_thread (s : system) (t : thread) : system :=
  mkSystem (lane s) (route s) t (accepted s) (settled s) (pty s) (sent s).
Definition settle (s : system) (t : thread) (batch : Batch) (d : disposition)
    (landed : list byte) : system :=
  mkSystem (lane s) (route s) t (accepted s) (settled s ++ [(batch, d, landed)])
    (pty s ++ landed) (sent s).

(** The thread's turn between the checks of [settle_batch] and the write. *)
Definition write_turn (s : system) (batch : Batch) (script : list write_response)
    (flush_ok : bool) : option system :=
  '(outcome, landed) ←
     (if closed (lane s) || exited (lane s) then Some (Rejected ChildExited, [])
      else write_batch (batch_bytes batch) script flush_ok);
  Some (settle s (AtDeliver batch outcome) batch (Settled outcome) landed).

Definition step (s : system) (a : action) : option system :=
  match a, thread_at s with
  | Enqueue bytes reply, _ =>
    let '(l, ok) := enqueue (lane s) bytes reply in
    Some (mkSystem l (route s) (thread_at s)
            (if ok then accepted s ++ [mkBatch bytes reply] else accepted s)
            (settled s) (pty s) (sent s))
  | MarkExited, _ => Some (set_lane s (mark_exited (lane s)))
  | Close, _ => Some (set_lane s (lane_drop (lane s)))
  | Attach, _ => Some (set_route s (fst (attach (route s))))
  | Detach, _ => Some (set_route s (detach (route s)))
  | Next, AtNext =>
    match next_batch (lane s) with
    | Blocked => None
    | Stopped => Some (set_thread s AtEnd)
    | Got batch l => Some (set_thread (set_lane s l) (AtRoute batch))
    end
  | CheckRoute, AtRoute batch =>
    Some (if departed (route s) (batch_reply batch)
          then settle s (AtRelease batch) batch Dropped []
          else set_thread s (AtWrite batch))
  | Write script flush_ok, AtWrite batch => write_turn s batch script flush_ok
  | Deliver sink_ok, AtDeliver batch outcome =>
    Some (mkSystem (lane s) (route s) (AtRelease batch) (accepted s) (settled s) (pty s)
            (sent s ++ deliver (lane s) (route s) (batch_reply batch) outcome sink_ok))
  | Release, AtRelease batch =>
    Some (set_thread (set_lane s (release (lane s) batch)) AtNext)
  | _, _ => None
  end.

Definition start (channel : Z) (r : InputRoute) : system :=
  mkSystem (lane_start channel) r AtNext [] [] [] [].

(** Every interleaving of the keeper's calls and the lane's thread. *)
Inductive reachable (channel : Z) : system -> Prop :=
| reach_start r : reachable channel (start channel r)
| reach_step s a s' : reachable channel s -> step s a = Some s' -> reachable channel s'.

(** ** Lemmas: the write loop *)

Lemma write_loop_bounds bytes written script written' finished rest :
  (written <= length bytes)%nat ->
  write_loop bytes written script = Some (written', finished, rest) ->
  (written <= written' <= length bytes)%nat /\
  (finished = true <-> written' = length bytes).
Proof.
  revert written. induction script as [|[room| |] script IH]; intros written Hw H; cbn in H;
    destruct (Nat.leb_spec (length bytes) written); simplify_eq; try (split; [lia|split; [lia|done]]).
  - case_if; bool_to_prop; simplify_eq; [split; [lia|split; [done|lia]]|].
    apply IH in H as [? ?]; [|lia]. split; [lia|done].
  - by apply IH.
  - split; [lia|]. split; [done|lia].
Qed.

(** Each response but an interruption lands a byte or ends the write. *)
Fixpoint effective (script : list write_response) : nat :=
  match script with
  | [] => 0
  | Interrupted :: script => effective script
  | _ :: script => S (effective script)
  end.

Lemma write_loop_total bytes written script :
  (length bytes - written <= effective script)%nat ->
  is_Some (write_loop bytes written script).
Proof.
  revert written. induction script as [|[room| |] script IH]; intros written H; cbn [write_loop effective] in *;
    destruct (Nat.leb_spec (length bytes) written); try done; try lia.
  - case_if; [done|]. bool_to_prop. apply IH. lia.
  - by apply IH.
Qed.

(** What an outcome says about the bytes that reached the PTY. *)
Definition outcome_exact (bytes : list byte) (outcome : WriteOutcome) (landed : list byte) : Prop :=
  match outcome with
  | Complete written => landed = bytes /\ written = len bytes
  | Rejected _ => landed = []
  | Partial written _ => landed = take (Z.to_nat written) bytes /\ 1 <= written <= len bytes
  end.

Lemma write_batch_outcome bytes script flush_ok outcome landed :
  len bytes <= KEEPER_INPUT_QUEUE_MAX_BYTES ->
  write_batch bytes script flush_ok = Some (outcome, landed) ->
  outcome_exact bytes outcome landed.
Proof.
  unfold KEEPER_INPUT_QUEUE_MAX_BYTES, write_batch. intros Hlen H.
  destruct bytes as [|b bytes]; [by simplify_eq|]. remember (b :: bytes) as bs.
  apply bind_Some in H as ([[written finished] rest] & Hloop & H). simplify_eq.
  apply write_loop_bounds in Hloop as [Hb Hf]; [|lia].
  assert (Hu : u32 (Z.of_nat written) = Z.of_nat written)
    by (apply wrap_small; unfold fits, len in *; lia).
  destruct finished; cbn [andb].
  - rewrite (proj1 Hf eq_refl), firstn_all in *. destruct flush_ok.
    + cbn [outcome_exact]. by rewrite Hu.
    + unfold stalled. case_if; bool_to_prop; [done|]. rewrite Hu. cbn [outcome_exact].
      rewrite Nat2Z.id, firstn_all. split; [done|]. unfold len. lia.
  - unfold stalled. case_if; bool_to_prop; [by subst|]. rewrite Hu. cbn [outcome_exact].
    rewrite Nat2Z.id. split; [done|]. unfold len. lia.
Qed.

(** ** The lane's invariant *)

Fixpoint total_bytes (bs : list Batch) : Z :=
  match bs with [] => 0 | b :: bs => len (batch_bytes b) + total_bytes bs end.

Lemma total_bytes_app l k : total_bytes (l ++ k) = total_bytes l + total_bytes k.
Proof. induction l as [|b l IH]; cbn; lia. Qed.

Lemma total_bytes_nonneg l : 0 <= total_bytes l.
Proof. induction l as [|b l IH]; cbn; [lia|]. pose proof (len_nonneg (batch_bytes b)). lia. Qed.

(** The batch the thread holds, and whether it is settled yet. *)
Definition inflight (t : thread) : list Batch :=
  match t with
  | AtRoute b | AtWrite b | AtDeliver b _ | AtRelease b => [b]
  | AtNext | AtEnd => []
  end.
Definition unsettled (t : thread) : list Batch :=
  match t with AtRoute b | AtWrite b => [b] | _ => [] end.

(** The answers a settled batch is owed. *)
Definition owed (channel : Z) (entry : Batch * disposition * list byte) : list (Z * MuxFrame) :=
  match entry with
  | (mkBatch _ (Acknowledged seq (Some generation)), Settled outcome, _) =>
    let '(t, res) := acknowledged_result seq outcome in
    [(generation, mkMuxFrame t channel (PtyInResult_encode res))]
  | _ => []
  end.

(** What is settled and already past its delivery. *)
Definition delivered (s : system) : list (Batch * disposition * list byte) :=
  match thread_at s with
  | AtDeliver _ _ => removelast (settled s)
  | _ => settled s
  end.

Definition entry_exact (entry : Batch * disposition * list byte) : Prop :=
  match entry with
  | (b, Dropped, landed) => landed = []
  | (b, Settled outcome, landed) => outcome_exact (batch_bytes b) outcome landed
  end.

Definition commands (s : system) : list Batch := inflight (thread_at s) ++ lane_queue (lane s).

Record lane_inv (channel : Z) (s : system) : Prop := {
  lane_inv_channel : lane_channel (lane s) = channel;
  lane_inv_fifo : accepted s =
    map (fst ∘ fst) (settled s) ++ unsettled (thread_at s) ++ lane_queue (lane s);
  lane_inv_held : held_bytes (lane s) = total_bytes (commands s);
  lane_inv_writing : writing (lane s) = true <-> inflight (thread_at s) <> [];
  lane_inv_bytes : held_bytes (lane s) <= KEEPER_INPUT_QUEUE_MAX_BYTES;
  lane_inv_commands : len (commands s) <= KEEPER_INPUT_QUEUE_MAX_COMMANDS;
  lane_inv_pty : pty s = concat (map snd (settled s));
  lane_inv_exact : Forall entry_exact (settled s);
  lane_inv_sent : sent s `sublist_of` concat (map (owed channel) (delivered s));
  lane_inv_deliver : forall b outcome, thread_at s = AtDeliver b outcome ->
    exists landed, last (settled s) = Some (b, Settled outcome, landed);
}.

Lemma len_result_encode r : len (PtyInResult_encode r) = 13.
Proof. by destruct r; unfold PtyInResult_encode, write_sequence; autorewrite with lens. Qed.

Lemma result_frame_Ok t channel r :
  MuxFrame_new t channel (PtyInResult_encode r) = Ok (mkMuxFrame t channel (PtyInResult_encode r)).
Proof. unfold MuxFrame_new. by rewrite len_result_encode. Qed.

Lemma deliver_owed l r b outcome landed sink_ok :
  deliver l r (batch_reply b) outcome sink_ok `sublist_of`
  owed (lane_channel l) (b, Settled outcome, landed).
Proof.
  destruct b as [bytes [|seq [g|]]]; cbn; try constructor.
  - destruct (acknowledged_result seq outcome) as [t res]. rewrite result_frame_Ok.
    case_if; [done|apply sublist_nil_l].
  - destruct (acknowledged_result seq outcome). constructor.
Qed.

Lemma inflight_bytes s b :
  inflight (thread_at s) = [b] -> held_bytes (lane s) = total_bytes (commands s) ->
  held_bytes (lane s) <= KEEPER_INPUT_QUEUE_MAX_BYTES ->
  len (batch_bytes b) <= KEEPER_INPUT_QUEUE_MAX_BYTES.
Proof.
  unfold commands. intros -> Hh Hb. cbn in Hh.
  pose proof (total_bytes_nonneg (lane_queue (lane s))). lia.
Qed.

Lemma enqueue_inv channel s bytes reply s' :
  lane_inv channel s -> step s (Enqueue bytes reply) = Some s' -> lane_inv channel s'.
Proof.
  intros [Hc Hf Hh Hw Hb Hn Hp He Hs Hd] H. cbn in H. unfold enqueue in H.
  case_if; [by simplify_eq; split|]. bool_to_prop. simplify_eq.
  unfold commands in *. cbn in *. split; cbn; unfold commands; cbn; try done.
  - by rewrite Hf, <- !app_assoc.
  - rewrite !total_bytes_app, Hh, total_bytes_app. cbn. lia.
  - rewrite !len_app, len_cons, len_nil in *.
    destruct (writing (lane s)); [|assert (inflight (thread_at s) = []) as ->
      by (destruct (inflight (thread_at s)); [done|]; by destruct Hw as [_ Hw]; discriminate Hw)];
      destruct (thread_at s); cbn in *; rewrite ?len_cons, ?len_nil; lia.
Qed.

Lemma next_inv channel s s' :
  lane_inv channel s -> step s Next = Some s' -> lane_inv channel s'.
Proof.
  intros [Hc Hf Hh Hw Hb Hn Hp He Hs Hd] H. cbn in H. unfold next_batch, commands in *.
  destruct (thread_at s) eqn:Ht; simplify_eq.
  destruct (lane_queue (lane s)) as [|b q] eqn:Hq.
  - case_if; simplify_eq. unfold delivered in Hs. rewrite Ht in Hs.
    split; cbn; unfold commands; cbn; rewrite ?Hq; done.
  - simplify_eq. unfold delivered in Hs. rewrite Ht in Hs.
    split; cbn; unfold commands; cbn; done.
Qed.

Lemma check_route_inv channel s s' :
  lane_inv channel s -> step s CheckRoute = Some s' -> lane_inv channel s'.
Proof.
  intros [Hc Hf Hh Hw Hb Hn Hp He Hs Hd] H. cbn in H.
  unfold commands, delivered in *. destruct (thread_at s) eqn:Ht; simplify_eq.
  case_if; split; cbn; unfold commands, delivered; cbn; try done.
  - rewrite Hf, map_app, <- app_assoc. done.
  - rewrite map_app, concat_app, Hp. cbn. by rewrite !app_nil_r.
  - apply Forall_app. by split; [|constructor].
  - rewrite map_app, concat_app. cbn. by destruct batch as [? [|? []]]; cbn; rewrite app_nil_r.
Qed.

Lemma write_inv channel s script flush_ok s' :
  lane_inv channel s -> step s (Write script flush_ok) = Some s' -> lane_inv channel s'.
Proof.
  intros [Hc Hf Hh Hw Hb Hn Hp He Hs Hd] H. cbn in H.
  destruct (thread_at s) as [|b0|b0|? ?|?|] eqn:Ht; simplify_eq.
  assert (Hlen : len (batch_bytes b0) <= KEEPER_INPUT_QUEUE_MAX_BYTES)
    by (by eapply (inflight_bytes s); [rewrite Ht| |]).
  unfold write_turn in H. apply bind_Some in H as ([outcome landed] & Ho & H). simplify_eq.
  assert (Hex : outcome_exact (batch_bytes b0) outcome landed)
    by (case_if; [by simplify_eq|by eapply write_batch_outcome]).
  unfold commands, delivered in *. rewrite Ht in *.
  split; cbn; unfold commands, delivered; cbn; try done.
  - rewrite Hf, map_app, <- app_assoc. done.
  - by rewrite map_app, concat_app, Hp; cbn; rewrite app_nil_r.
  - apply Forall_app. by split; [|constructor].
  - by rewrite removelast_last.
  - intros b' o' [= -> ->]. exists landed. by rewrite last_snoc.
Qed.

Lemma deliver_inv channel s sink_ok s' :
  lane_inv channel s -> step s (Deliver sink_ok) = Some s' -> lane_inv channel s'.
Proof.
  intros [Hc Hf Hh Hw Hb Hn Hp He Hs Hd] H. cbn in H.
  destruct (thread_at s) as [|?|?|b0 o0|?|] eqn:Ht; simplify_eq.
  destruct (Hd b0 o0 eq_refl) as (landed & [pre Hl]%last_Some).
  unfold commands, delivered in *. rewrite Ht in *.
  split; cbn; unfold commands, delivered; cbn; try done.
  rewrite Hl, removelast_last in Hs. rewrite Hl, map_app, concat_app. apply sublist_app; [done|].
  cbn [map concat]. rewrite app_nil_r. apply deliver_owed.
Qed.

Lemma release_inv channel s s' :
  lane_inv channel s -> step s Release = Some s' -> lane_inv channel s'.
Proof.
  intros [Hc Hf Hh Hw Hb Hn Hp He Hs Hd] H. cbn in H.
  unfold commands, delivered in *. destruct (thread_at s) as [|?|?|? ?|b0|] eqn:Ht; simplify_eq.
  cbn in *. rewrite len_cons in Hn. pose proof (len_nonneg (batch_bytes b0)).
  split; cbn; unfold commands, delivered; cbn; try done; lia.
Qed.

Lemma step_inv channel s a s' :
  lane_inv channel s -> step s a = Some s' -> lane_inv channel s'.
Proof.
  intros Hi H. destruct a; [by eapply enqueue_inv| | | | |by eapply next_inv
    |by eapply check_route_inv|by eapply write_inv|by eapply deliver_inv|by eapply release_inv].
  all: destruct Hi; cbn in H; simplify_eq; by split.
Qed.

Lemma reachable_inv channel s : reachable channel s -> lane_inv channel s.
Proof.
  induction 1 as [r|s a s' _ IH H]; [|by eapply step_inv].
  split; cbn; try done; constructor.
Qed.

(** ** Properties *)

(** A batch's outcome says exactly what reached the PTY, whatever short
    writes, interruptions and refusals the descriptor answers: a completed
    batch landed whole, a rejected one landed not at all (so a retry cannot
    duplicate), and a partial one landed exactly the prefix of the length it
    reports, at least one byte. A descriptor that keeps answering something
    other than an interruption ends the write within as many answers as there
    are bytes. *)
Theorem write_batch_exact bytes script flush_ok :
  len bytes <= KEEPER_INPUT_QUEUE_MAX_BYTES ->
  (length bytes <= effective script)%nat ->
  exists outcome landed,
    write_batch bytes script flush_ok = Some (outcome, landed) /\
    outcome_exact bytes outcome landed.
Proof.
  intros Hlen Hscript.
  assert (Hsome : is_Some (write_batch bytes script flush_ok)).
  { unfold write_batch. destruct bytes as [|b bytes]; [done|].
    destruct (write_loop_total (b :: bytes) 0 script) as [[[w f] rest] Hl]; [lia|].
    rewrite Hl. cbn. done. }
  destruct Hsome as [[outcome landed] H]. exists outcome, landed.
  split; [done|]. by eapply write_batch_outcome.
Qed.

Lemma write_batch_exact_witness :
  exists outcome landed,
    write_batch [Byte.x61; Byte.x62; Byte.x63] [Accepts 1; Interrupted; Accepts 1; Refuses] true
      = Some (outcome, landed) /\
    outcome_exact [Byte.x61; Byte.x62; Byte.x63] outcome landed.
Proof. apply write_batch_exact; vm_compute; [done|lia]. Defined.

(** C3: The lane is a bounded exactly-once FIFO in every interleaving of the
    keeper's calls, connections coming and going, and the lane's thread: every
    batch accepted is settled once, in order, or is still held; the PTY holds
    exactly the concatenation of what the settled batches landed, each as its
    outcome says; at most 200 commands and 256 KiB are held; and the frames
    delivered are, in order, among those owed to settled acknowledged batches,
    at most one each, to the connection that asked. *)
Theorem lane_exactly_once channel s :
  reachable channel s ->
  accepted s = map (fst ∘ fst) (settled s) ++ unsettled (thread_at s) ++ lane_queue (lane s) /\
  pty s = concat (map snd (settled s)) /\
  Forall entry_exact (settled s) /\
  held_bytes (lane s) = total_bytes (inflight (thread_at s) ++ lane_queue (lane s)) /\
  held_bytes (lane s) <= KEEPER_INPUT_QUEUE_MAX_BYTES /\
  len (inflight (thread_at s) ++ lane_queue (lane s)) <= KEEPER_INPUT_QUEUE_MAX_COMMANDS /\
  sent s `sublist_of` concat (map (owed channel) (settled s)).
Proof.
  intros [Hc Hf Hh Hw Hb Hn Hp He Hs Hd]%reachable_inv. split_and!; try done.
  etrans; [exact Hs|]. unfold delivered. destruct (thread_at s) as [| | |b o| |]; try done.
  destruct (Hd b o eq_refl) as (landed & [pre ->]%last_Some).
  rewrite removelast_last, map_app, concat_app. by apply sublist_inserts_r.
Qed.

Definition demo_batch : Batch := mkBatch [Byte.x61; Byte.x62] (Acknowledged 7 (Some 1)).
Definition demo_acts : list action :=
  [Attach; Enqueue [Byte.x61; Byte.x62] (Acknowledged 7 (Some 1)); Next; CheckRoute;
   Write [Accepts 1; Accepts 5] true; Deliver true; Release; Enqueue [Byte.x63] Unacknowledged].
Definition demo_state : system :=
  default (start 1 route_default) (foldl (fun s a => s ≫= fun s => step s a)
    (Some (start 1 route_default)) demo_acts).

Lemma reachable_steps channel s acts s' :
  reachable channel s ->
  foldl (fun s a => s ≫= fun s => step s a) (Some s) acts = Some s' -> reachable channel s'.
Proof.
  revert s. induction acts as [|a acts IH]; intros s Hs H; cbn [foldl] in H; [by simplify_eq|].
  cbn [mbind option_bind] in H. destruct (step s a) as [s1|] eqn:E.
  - by eapply IH; [eapply reach_step|].
  - exfalso. clear -H. induction acts as [|b acts IH]; cbn in H; [done|by apply IH].
Qed.

Lemma lane_exactly_once_witness :
  let s := demo_state in
  (pty s = [Byte.x61; Byte.x62] /\ len (sent s) = 1) /\
  accepted s = map (fst ∘ fst) (settled s) ++ unsettled (thread_at s) ++ lane_queue (lane s) /\
  pty s = concat (map snd (settled s)) /\
  Forall entry_exact (settled s) /\
  held_bytes (lane s) = total_bytes (inflight (thread_at s) ++ lane_queue (lane s)) /\
  held_bytes (lane s) <= KEEPER_INPUT_QUEUE_MAX_BYTES /\
  len (inflight (thread_at s) ++ lane_queue (lane s)) <= KEEPER_INPUT_QUEUE_MAX_COMMANDS /\
  sent s `sublist_of` concat (map (owed 1) (settled s)).
Proof.
  split; [vm_compute; done|]. apply (lane_exactly_once 1).
  apply (reachable_steps 1 (start 1 route_default) demo_acts); [constructor|].
  vm_compute. done.
Defined.

(** While the connection that asked is still attached and its socket takes
    the write, settling an acknowledged batch delivers exactly one frame, to
    that connection and on the lane's channel, and the frame decodes to the
    batch's own sequence with the outcome the write had: [PtyInAck] with the
    whole length, [PtyInReject] with nothing written, or [PtyInAmbiguous]. *)
Theorem acknowledged_answer channel s b seq g outcome s' :
  reachable channel s -> thread_at s = AtDeliver b outcome ->
  batch_reply b = Acknowledged seq (Some g) -> fits 64 seq ->
  current (route s) = Some g -> step s (Deliver true) = Some s' ->
  exists frame, sent s' = sent s ++ [(g, frame)] /\ frame_channel frame = channel /\
    let '(t, res) := acknowledged_result seq outcome in
    frame_type frame = t /\ PtyInResult_decode t (frame_payload frame) = Some res.
Proof.
  intros [Hc Hf Hh Hw Hb Hn Hp He Hs Hd]%reachable_inv Ht Hr Hseq Hcur H. cbn in H.
  rewrite Ht in H. simplify_eq. cbn [sent]. rewrite Hr. cbn [deliver].
  destruct (acknowledged_result seq outcome) as [t res] eqn:Hres.
  rewrite result_frame_Ok. unfold route_deliver. unfold current in Hcur. rewrite Hcur, Z.eqb_refl.
  eexists. split; [done|]. split; [done|]. split; [done|]. cbn [frame_payload].
  destruct (Hd b outcome Ht) as (landed & [pre Hl]%last_Some).
  rewrite Hl in He. apply Forall_app in He as [_ [Hex _]%Forall_cons]. cbn in Hex.
  assert (Hlen : len (batch_bytes b) <= KEEPER_INPUT_QUEUE_MAX_BYTES)
    by (by eapply (inflight_bytes s); [rewrite Ht| |]).
  unfold KEEPER_INPUT_QUEUE_MAX_BYTES in Hlen. pose proof (len_nonneg (batch_bytes b)).
  assert (Htag : t = result_tag res) by (destruct outcome; cbn in Hres; by simplify_eq).
  rewrite Htag. apply PtyInResult_roundtrip.
  destruct outcome; cbn in Hres; simplify_eq; cbn in *; unfold fits in *; lia.
Qed.

Definition answer_state : system :=
  default (start 1 route_default) (foldl (fun s a => s ≫= fun s => step s a)
    (Some (start 1 route_default)) (take 5 demo_acts)).

Lemma acknowledged_answer_witness :
  exists s', step answer_state (Deliver true) = Some s' /\
  exists frame, sent s' = sent answer_state ++ [(1, frame)] /\ frame_channel frame = 1 /\
    let '(t, res) := acknowledged_result 7 (Complete 2) in
    frame_type frame = t /\ PtyInResult_decode t (frame_payload frame) = Some res.
Proof.
  eexists. split; [vm_compute; reflexivity|].
  apply (acknowledged_answer 1 answer_state demo_batch 7 1 (Complete 2)); try done.
  apply (reachable_steps 1 (start 1 route_default) (take 5 demo_acts)); [constructor|].
  vm_compute. done.
Defined.
