(* ===== verification/Keeper.v ===== *)
(** * The keeper's channel registry and frame dispatcher

    Models [crates/roost-keeper/src/keeper.rs] and [keeper_ops.rs] (the
    registry, the dispatch table, every frame handler, the output drain and the
    reap of exited channels), [pty_channel.rs] and the Unix part of
    [pty_channel_reap.rs] (one live PTY: spawn, resize, input, exit and kill).
    What the operating system answers ([portable_pty], the file system, the
    child's status) is the record [World], an argument of every operation that
    asks it; serde's JSON is the class [Json]. A Rust panic is [None]. *)
From stdpp Require Import sorting pretty.
From S2P Require Import Prelude KeeperCodec KeeperPayloads KeeperHistory KeeperOutput KeeperInput.

(** ** The outside world *)

(** What the operating system answers during one operation. *)
Record World := mkWorld {
  openpty : Z -> Z -> result unit string;             (* cols, rows *)
  cwd_metadata : string -> result unit string;
  spawn_command : ShellSpec -> result (option Z) string;  (* the child's pid *)
  try_clone_reader : result unit string;
  take_writer : result unit string;
  start_lane : result unit string;
  start_reader : result unit string;
  try_wait : Z -> option Z;                           (* channel: exit code once exited *)
  resize_master_pty : Z -> Z -> Z -> result unit string; (* channel, cols, rows *)
  foreground_group : Z -> option Z;                   (* channel *)
  own_pid : Z;
}.

(** ** One PTY (pty_channel.rs) *)

Inductive SpawnError :=
| BadChannelId (channel : Z)
| BadSpawnDimension (name : string) (actual max : Z)
| BadCwd (path reason : string)
| PtyError (reason : string).

(** [SpawnError]'s [Display]. *)
Definition spawn_error_to_string (e : SpawnError) : string :=
  match e with
  | BadChannelId c => "channel " +:+ pretty c +:+ " is the control lane, which is never a PTY"
  | BadSpawnDimension name actual max =>
    "the " +:+ name +:+ " of " +:+ pretty actual +:+ " is outside 1..=" +:+ pretty max
  | BadCwd path reason => "the working directory " +:+ path +:+ " is not usable: " +:+ reason
  | PtyError reason => "the PTY could not be opened: " +:+ reason
  end.

(** [PtyChannel]. *)
Record PtyChannel := mkPty {
  pty_channel_id : Z;
  pty_output : OutputRing.t;
  pty_input : Lane;
  pty_pid : option Z;
  pty_applied_seq : Z;
  pty_cols : Z;
  pty_rows : Z;
}.

Definition map_pty {A} (r : result A string) : result A SpawnError :=
  match r with Ok a => Ok a | Err reason => Err (PtyError reason) end.

(** [PtyChannel::spawn]. *)
Definition pty_spawn (w : World) (channel_id : Z) (spec : ShellSpec) (cols rows : Z)
  : result PtyChannel SpawnError :=
  if channel_id =? 0 then Err (BadChannelId channel_id) else
  let max := u16 KEEPER_MAX_TERMINAL_DIMENSION in
  if (cols =? 0) || (max <? cols) then Err (BadSpawnDimension "column count" cols max) else
  if (rows =? 0) || (max <? rows) then Err (BadSpawnDimension "row count" rows max) else
  let? _p := map_pty (openpty w cols rows) in
  let? _d := match cwd spec with
             | None => Ok tt
             | Some path => match cwd_metadata w path with
                            | Ok _ => Ok tt
                            | Err reason => Err (BadCwd path reason)
                            end
             end in
  let? pid := map_pty (spawn_command w spec) in
  let? _r := map_pty (try_clone_reader w) in
  let? _w := map_pty (take_writer w) in
  let? _l := map_pty (start_lane w) in
  let? _t := map_pty (start_reader w) in
  Ok (mkPty channel_id OutputRing.new (lane_start channel_id) pid 0 cols rows).

Definition with_input (p : PtyChannel) (l : Lane) : PtyChannel :=
  mkPty (pty_channel_id p) (pty_output p) l (pty_pid p) (pty_applied_seq p) (pty_cols p) (pty_rows p).
Definition with_output (p : PtyChannel) (r : OutputRing.t) : PtyChannel :=
  mkPty (pty_channel_id p) r (pty_input p) (pty_pid p) (pty_applied_seq p) (pty_cols p) (pty_rows p).
Definition with_geometry (p : PtyChannel) (cols rows : Z) : PtyChannel :=
  mkPty (pty_channel_id p) (pty_output p) (pty_input p) (pty_pid p) (pty_applied_seq p) cols rows.
Definition with_applied (p : PtyChannel) (seq : Z) : PtyChannel :=
  mkPty (pty_channel_id p) (pty_output p) (pty_input p) (pty_pid p) seq (pty_cols p) (pty_rows p).

(** [PtyChannel::terminal_state]. *)
Definition pty_terminal_state (p : PtyChannel) : TerminalState :=
  mkTerminalState (pty_applied_seq p) (pty_cols p) (pty_rows p).

(** [PtyChannel::resize_master]. *)
Definition resize_master (w : World) (p : PtyChannel) (cols rows : Z)
  : PtyChannel * result unit SpawnError :=
  if (cols =? 0) || (rows =? 0)
  then (p, Err (BadSpawnDimension "geometry" (Z.max cols rows) (2 ^ 16 - 1)))
  else match map_pty (resize_master_pty w (pty_channel_id p) cols rows) with
  | Err e => (p, Err e)
  | Ok _ => (with_geometry p cols rows, Ok tt)
  end.

(** [PtyChannel::apply_resize]. *)
Definition apply_resize (w : World) (p : PtyChannel) (seq cols rows : Z)
  : PtyChannel * result Z SpawnError :=
  if seq <=? pty_applied_seq p then (p, Ok (pty_applied_seq p))
  else match resize_master w p cols rows with
  | (p', Err e) => (p', Err e)
  | (p', Ok _) => (with_applied p' seq, Ok seq)
  end.

(** [PtyChannel::apply_unsequenced_resize]. *)
Definition apply_unsequenced_resize (w : World) (p : PtyChannel) (cols rows : Z)
  : PtyChannel * result unit SpawnError := resize_master w p cols rows.

(** [PtyChannel::exited] on Unix. *)
Definition pty_exited (w : World) (p : PtyChannel) : PtyChannel * option Z :=
  match try_wait w (pty_channel_id p) with
  | Some status => (with_input p (mark_exited (pty_input p)), Some status)
  | None => (p, None)
  end.

(** [PtyChannel::enqueue_input]. *)
Definition enqueue_input (w : World) (p : PtyChannel) (bytes : list byte) (reply : InputReply)
  : PtyChannel * result unit PtyInRejectReason :=
  match pty_exited w p with
  | (p', Some _) => (p', Err ChildExited)
  | (p', None) =>
    let '(l, ok) := enqueue (pty_input p') bytes reply in
    (with_input p' l, if ok then Ok tt else Err QueueFull)
  end.

(** [PtyChannel::read_output], [output_backlogged], [output_closed]. *)
Definition read_output (p : PtyChannel) (limit : Z) : PtyChannel * option (list byte) :=
  let '(r, out) := OutputRing.take (pty_output p) limit in (with_output p r, out).
Definition pty_output_backlogged (p : PtyChannel) : PtyChannel * bool :=
  let '(r, drained) := OutputRing.is_drained (pty_output p) in (with_output p r, negb drained).
Definition output_closed (p : PtyChannel) : PtyChannel * bool :=
  let '(r, eof) := OutputRing.is_eof (pty_output p) in (with_output p r, eof).

(** Where a reap of a process tree starts ([process_reap::ReapTarget]). *)
Record ReapTarget := mkReapTarget { leader : Z; reap_foreground : option Z }.

(** [PtyChannel::reap_target]. *)
Definition reap_target (w : World) (p : PtyChannel) : PtyChannel * option ReapTarget :=
  match pty_exited w p with
  | (p', Some _) => (p', None)
  | (p', None) =>
    (p', pid ← pty_pid p';
         if pid <? 2 ^ 31
         then Some (mkReapTarget pid (foreground_group w (pty_channel_id p'))) else None)
  end.

(** ** The keeper *)

(** [KeeperContractV1]: what the binary reports about itself. *)
Record KeeperContractV1 := mkContract {
  protocol_version : Z;
  supported_features : list string;
  required_features : list string;
  implementation_digest : option string;
  bun_abi : string;
  platform : string;
  arch : string;
  build_sha : string;
}.

Record Channel := mkChannel { pty : PtyChannel; history : ChannelHistory }.

Record Keeper := mkKeeper {
  channels : gmap Z Channel;
  contract : KeeperContractV1;
  input_route : InputRoute;
  process_epoch : option string;
  output_signal : Signal.OutputSignal;
}.

(** [Keeper::new]; the contract and the epoch come from the host. *)
Definition keeper_new (c : KeeperContractV1) (epoch : option string) : Keeper :=
  mkKeeper ∅ c route_default epoch Signal.init.

Record KeeperHelloResponse := mkHelloResponse {
  resp_version : Z;
  authenticated : bool;
  resp_features : list KeeperFeature;
  resp_contract : KeeperContractV1;
  resp_pid : Z;
  resp_epoch : option string;
  bindings : list ChannelBinding;
  spawning_channels : list Z;
}.

(** What an operation did outside the keeper: a PTY opened, its size changed,
    a process tree reaped, or a channel dropped with its input lane closed. *)
Inductive effect :=
| Opened (channel cols rows : Z)
| Resized (channel seq cols rows : Z)
| Reaped (target : ReapTarget)
| DroppedChannel (channel : Z) (lane : Lane).

(** serde_json for the frames the keeper reads and writes. *)
Class Json := {
  parse_hello : list byte -> option KeeperHelloRequest;
  parse_spawn : list byte -> option SpawnRequest;
  parse_legacy_resize : list byte -> option (Z * Z);
  json_hello : KeeperHelloResponse -> result (list byte) string;
  json_list : list ChannelBinding -> result (list byte) string;
  json_spawn_ack : SpawnAckFrame -> result (list byte) string;
  json_spawn_err : SpawnErrFrame -> result (list byte) string;
  json_exit : ExitFrame -> result (list byte) string;
}.

(** serde decodes a [u16] field only from an integer in its range, and writes a
    struct of one optional integer in a few bytes. *)
Class JsonLaws (J : Json) : Prop := {
  parse_spawn_u16 : forall p r, parse_spawn p = Some r ->
    fits 16 (spawn_channel_id r) /\ fits 16 (spawn_cols r) /\ fits 16 (spawn_rows r);
  parse_resize_u16 : forall p c r, parse_legacy_resize p = Some (c, r) -> fits 16 c /\ fits 16 r;
  json_exit_small : forall e, exists p, json_exit e = Ok p /\ len p <= 1024;
}.

(** ** The handler monad: the keeper is threaded, effects are collected, and an
    error keeps what was already done. *)

Definition KM (A : Type) : Type := Keeper -> option (Keeper * list effect * result A CodecError).

Definition kret {A} (a : A) : KM A := fun k => Some (k, [], Ok a).
Definition kerr {A} (e : CodecError) : KM A := fun k => Some (k, [], Err e).
Definition kpanic {A} : KM A := fun _ => None.
Definition klift {A} (r : result A CodecError) : KM A := fun k => Some (k, [], r).
Definition kbind {A B} (m : KM A) (f : A -> KM B) : KM B := fun k =>
  match m k with
  | None => None
  | Some (k1, e1, Err err) => Some (k1, e1, Err err)
  | Some (k1, e1, Ok a) =>
    match f a k1 with
    | None => None
    | Some (k2, e2, r) => Some (k2, e1 ++ e2, r)
    end
  end.
Definition kget : KM Keeper := fun k => Some (k, [], Ok k).
Definition kemit (es : list effect) : KM unit := fun k => Some (k, es, Ok tt).
Definition set_channels (k : Keeper) (m : gmap Z Channel) : Keeper :=
  mkKeeper m (contract k) (input_route k) (process_epoch k) (output_signal k).
Definition kchannels (f : gmap Z Channel -> gmap Z Channel) : KM unit := fun k =>
  Some (set_channels k (f (channels k)), [], Ok tt).

Notation "'let!' x ':=' e 'in' k" := (kbind e (fun x => k))
  (at level 10, x name, e at level 200, k at level 200).

(** [frame.parse_json().ok_or_else(..)]. *)
Definition kparse {A} (o : option A) (name : string) : KM A :=
  match o with Some a => kret a | None => kerr (BadJson name "unreadable") end.

(** [MuxFrame::json]. *)
Definition frame_json (t : MuxFrameType) (channel : Z) (json : result (list byte) string)
  : result MuxFrame CodecError :=
  match json with
  | Err reason => Err (BadJson "frame" reason)
  | Ok payload => MuxFrame_new t channel payload
  end.

(** [PtyChannel::kill] on Unix. *)
Definition pty_kill (w : World) (p : PtyChannel) : PtyChannel * list effect :=
  match reap_target w p with
  | (p', Some target) => (p', [Reaped target])
  | (p', None) => (p', [])
  end.

(** ** The handlers (keeper_ops.rs) *)

Definition binding_le (a b : ChannelBinding) : Prop := binding_channel_id a <= binding_channel_id b.

#[global] Instance binding_le_dec : RelDecision binding_le.
Proof. intros a b. unfold binding_le. apply _. Defined.

#[global] Instance binding_le_total : Total binding_le.
Proof. intros a b. unfold binding_le. lia. Qed.

Section Handlers.
Context `{J : Json}.

(** [Keeper::channel_count], [is_empty]. *)
Definition channel_count (k : Keeper) : Z := Z.of_nat (size (channels k)).
Definition is_empty (k : Keeper) : bool := channel_count k =? 0.

(** [Keeper::channel_ids]. *)
Definition channel_ids (k : Keeper) : list Z := merge_sort Z.le (elements (dom (channels k))).

(** [Keeper::live_bindings]. *)
Definition live_bindings (k : Keeper) : list ChannelBinding :=
  merge_sort binding_le
    (omap (fun '(_, c) => mkBinding (pty_channel_id (pty c)) <$> pty_pid (pty c))
       (map_to_list (channels k))).

(** [Keeper::hello_response]. *)
Definition hello_response (w : World) (k : Keeper) (request : KeeperHelloRequest)
  : KeeperHelloResponse :=
  mkHelloResponse KEEPER_PROTOCOL_VERSION true (negotiate_features (hello_features request))
    (contract k) (own_pid w) (process_epoch k) (live_bindings k) [].

(** [Keeper::answer_hello]. *)
Definition answer_hello (w : World) (frame : MuxFrame) : KM (list MuxFrame) :=
  let! request := kparse (parse_hello (frame_payload frame)) "Hello" in
  let! k := kget in
  let! hello := klift (frame_json HelloResp 0 (json_hello (hello_response w k request))) in
  kret [hello].

(** [Keeper::list_channels]. *)
Definition list_channels : KM (list MuxFrame) :=
  let! k := kget in
  let! answer := klift (frame_json ListChannelsResp 0 (json_list (live_bindings k))) in
  kret [answer].

(** [Keeper::shutdown_if_empty]. *)
Definition shutdown_if_empty : KM (list MuxFrame) :=
  let! k := kget in
  let! answer := klift (MuxFrame_new
    (if is_empty k then ShutdownIfEmptyAck else ShutdownIfEmptyReject) 0 []) in
  kret [answer].

(** The removal of a live channel a respawn replaces: killed, then dropped. *)
Definition replace_existing (w : World) (id : Z) : KM unit :=
  let! k := kget in
  match channels k !! id with
  | None => kret tt
  | Some existing =>
    let! _u := kchannels (delete id) in
    let '(p, killed) := pty_kill w (pty existing) in
    kemit (killed ++ [DroppedChannel id (lane_drop (pty_input p))])
  end.

(** [Keeper::spawn]. *)
Definition spawn (w : World) (frame : MuxFrame) : KM (list MuxFrame) :=
  let! request := kparse (parse_spawn (frame_payload frame)) "Spawn" in
  let id := spawn_channel_id request in
  let! _r := replace_existing w id in
  match pty_spawn w id (shell_spec request) (spawn_cols request) (spawn_rows request) with
  | Ok p =>
    let pid := default 0 (pty_pid p) in
    let! _c := kchannels (insert id
      (mkChannel p (history_new (spawn_cols request) (spawn_rows request)))) in
    let! _e := kemit [Opened id (spawn_cols request) (spawn_rows request)] in
    let! ack := klift (frame_json SpawnAck id (json_spawn_ack (mkSpawnAck id pid))) in
    kret [ack]
  | Err err =>
    let! failure := klift (frame_json SpawnErr id
      (json_spawn_err (mkSpawnErr id (spawn_error_to_string err)))) in
    kret [failure]
  end.

(** [self.channels.get_mut(..)] followed by a write through the reference. *)
Definition put_pty (id : Z) (c : Channel) (p : PtyChannel) : KM unit :=
  kchannels (insert id (mkChannel p (history c))).

(** [Keeper::legacy_input]. *)
Definition legacy_input (w : World) (frame : MuxFrame) : KM (list MuxFrame) :=
  if (len (frame_payload frame) =? 0) || (KEEPER_MAX_INPUT_BYTES <? len (frame_payload frame))
  then kret []
  else
    let! k := kget in
    match channels k !! frame_channel frame with
    | None => kret []
    | Some c =>
      let '(p, _) := enqueue_input w (pty c) (frame_payload frame) Unacknowledged in
      let! _u := put_pty (frame_channel frame) c p in
      kret []
    end.

(** [result_frame]. *)
Definition result_frame (t : MuxFrameType) (channel : Z) (r : PtyInResult)
  : result MuxFrame CodecError := MuxFrame_new t channel (PtyInResult_encode r).

(** [resize_reject]. *)
Definition resize_reject (channel seq reason : Z) : result MuxFrame CodecError :=
  MuxFrame_new ResizeReject channel (write_sequence [] seq ++ to_be_bytes 1 reason).

(** [Keeper::sequenced_input]. *)
Definition sequenced_input (w : World) (frame : MuxFrame) : KM (list MuxFrame) :=
  let! request := klift (PtyInRequest_decode (frame_payload frame) "PtyInRequest") in
  let! k := kget in
  let reply := Acknowledged (input_seq request) (current (input_route k)) in
  let refuse reason :=
    let! answer := klift (result_frame PtyInReject (frame_channel frame)
                            (Reject (input_seq request) reason)) in
    kret [answer] in
  match channels k !! frame_channel frame with
  | None => refuse NoSuchChannel
  | Some c =>
    let '(p, queued) := enqueue_input w (pty c) (input_bytes request) reply in
    let! _u := put_pty (frame_channel frame) c p in
    match queued with Ok _ => kret [] | Err reason => refuse reason end
  end.

(** [Keeper::legacy_resize]. *)
Definition legacy_resize (w : World) (frame : MuxFrame) : KM (list MuxFrame) :=
  let! request := kparse (parse_legacy_resize (frame_payload frame)) "Resize" in
  let id := frame_channel frame in
  let! k := kget in
  match channels k !! id with
  | None => kret []
  | Some c =>
    let '(p, applied) := apply_unsequenced_resize w (pty c) (fst request) (snd request) in
    match applied with
    | Ok _ =>
      let! _u := kchannels (insert id
        (mkChannel p (record_resize (history c) 0 (fst request) (snd request)))) in
      let! _e := kemit [Resized id 0 (fst request) (snd request)] in
      kret []
    | Err _ => let! _u := put_pty id c p in kret []
    end
  end.

(** The ack a resize is answered with: the state the channel is in. *)
Definition resize_ack (id : Z) (state : TerminalState) : KM (list MuxFrame) :=
  let! payload := klift (ResizeRequest_encode
    (mkResizeRequest (applied_seq state) (state_cols state) (state_rows state))) in
  let! ack := klift (MuxFrame_new ResizeAck id payload) in
  kret [ack].

(** [Keeper::sequenced_resize]. *)
Definition sequenced_resize (w : World) (frame : MuxFrame) : KM (list MuxFrame) :=
  let! request := klift (ResizeRequest_decode (frame_payload frame) "ResizeRequest") in
  let id := frame_channel frame in
  let refuse := let! answer := klift (resize_reject id (resize_seq request) 1) in kret [answer] in
  let! k := kget in
  match channels k !! id with
  | None => refuse
  | Some c =>
    let before := pty_applied_seq (pty c) in
    let '(p, applied) :=
      apply_resize w (pty c) (resize_seq request) (resize_cols request) (resize_rows request) in
    match applied with
    | Ok _ =>
      let state := pty_terminal_state p in
      let moved := (before <? resize_seq request) && (applied_seq state =? resize_seq request) in
      let h := if moved
               then record_resize (history c) (resize_seq request) (state_cols state) (state_rows state)
               else history c in
      let! _u := kchannels (insert id (mkChannel p h)) in
      let! _e := kemit (if moved then [Resized id (resize_seq request) (state_cols state) (state_rows state)]
                     else []) in
      resize_ack id state
    | Err _ => let! _u := put_pty id c p in refuse
    end
  end.

(** [Keeper::state_of]. *)
Definition state_of (k : Keeper) (id : Z) : TerminalState :=
  match channels k !! id with
  | Some c => pty_terminal_state (pty c)
  | None => mkTerminalState 0 80 24
  end.

(** [Keeper::resize_status]. *)
Definition resize_status (frame : MuxFrame) : KM (list MuxFrame) :=
  let! k := kget in
  resize_ack (frame_channel frame) (state_of k (frame_channel frame)).

(** [Keeper::terminal_state]. *)
Definition terminal_state (frame : MuxFrame) : KM (list MuxFrame) :=
  let! k := kget in
  let! payload := klift (TerminalState_encode (state_of k (frame_channel frame))) in
  let! response := klift (MuxFrame_new GetTerminalStateResp (frame_channel frame) payload) in
  kret [response].

(** [Keeper::ordered_history]; [None] is the panic of its slicing. *)
Definition ordered_history (k : Keeper) (id : Z) : option HistoryRecords :=
  match channels k !! id with
  | None => Some unknown_channel
  | Some c => ordered (history c)
  end.

(** [Keeper::history_records]. *)
Definition history_records (frame : MuxFrame) : KM (list MuxFrame) :=
  let! k := kget in
  match ordered_history k (frame_channel frame) with
  | None => kpanic
  | Some records =>
    let! payload := klift (history_encode records) in
    let! response := klift (MuxFrame_new GetHistoryRecordsResp (frame_channel frame) payload) in
    kret [response]
  end.

(** [Keeper::legacy_history] with [unwrap_or_default]. *)
Definition legacy_history (k : Keeper) (id : Z) : Z * list byte :=
  match channels k !! id with
  | Some c => (head_seq (history c), ring (history c))
  | None => (0, [])
  end.

(** [Keeper::legacy_history_resp]. *)
Definition legacy_history_resp (frame : MuxFrame) : KM (list MuxFrame) :=
  let! k := kget in
  let '(head, bytes) := legacy_history k (frame_channel frame) in
  let! answer := klift (MuxFrame_new GetHistoryResp (frame_channel frame)
                          (to_be_bytes 8 head ++ bytes)) in
  kret [answer].

(** The [KillChild] arm of [Keeper::dispatch]. *)
Definition kill_child (w : World) (frame : MuxFrame) : KM (list MuxFrame) :=
  let! k := kget in
  match channels k !! frame_channel frame with
  | None => kret []
  | Some c =>
    let '(p, killed) := pty_kill w (pty c) in
    let! _u := put_pty (frame_channel frame) c p in
    let! _e := kemit killed in
    kret []
  end.

(** ** Dispatch (keeper.rs) *)

Definition simple_frame (t : MuxFrameType) : KM (list MuxFrame) :=
  let! f := klift (MuxFrame_new t 0 []) in kret [f].

(** [Keeper::dispatch]. *)
Definition dispatch (w : World) (frame : MuxFrame) : KM (list MuxFrame) :=
  let control_only := frame_channel frame =? 0 in
  let per_channel := negb (frame_channel frame =? 0) in
  match frame_type frame, control_only, per_channel with
  | Ping, _, _ => simple_frame Pong
  | Pong, _, _ => kret []
  | Hello, true, _ => answer_hello w frame
  | ListChannels, true, _ => list_channels
  | Shutdown, true, _ => simple_frame ShutdownAck
  | ShutdownIfEmpty, true, _ => shutdown_if_empty
  | Spawn, _, true => spawn w frame
  | PtyIn, _, true => legacy_input w frame
  | PtyInRequest, _, true => sequenced_input w frame
  | Resize, _, true => legacy_resize w frame
  | ResizeRequest, _, true => sequenced_resize w frame
  | ResizeStatus, _, true => resize_status frame
  | GetTerminalState, _, true => terminal_state frame
  | GetHistoryRecords, _, true => history_records frame
  | GetHistory, _, true => legacy_history_resp frame
  | KillChild, _, true => kill_child w frame
  | _, _, _ => kret []
  end.

(** [Keeper::reject]. *)
Definition reject (frame : MuxFrame) : list MuxFrame :=
  match frame_type frame with
  | PtyInRequest =>
    match result_frame PtyInReject (frame_channel frame) (Reject 0 NoSuchChannel) with
    | Ok rejection => [rejection]
    | Err _ => []
    end
  | _ => []
  end.

(** [Keeper::handle]. *)
Definition handle (w : World) (k : Keeper) (frame : MuxFrame)
  : option (Keeper * list effect * list MuxFrame) :=
  match dispatch w frame k with
  | None => None
  | Some (k', es, Ok frames) => Some (k', es, frames)
  | Some (k', es, Err _) => Some (k', es, reject frame)
  end.

(** The loop of [Keeper::drain_output] over the channels in the map's order. *)
Fixpoint drain_output (order : list Z) (limit : Z) (frames : list MuxFrame) : KM (list MuxFrame) :=
  match order with
  | [] => kret frames
  | id :: order =>
    let! k := kget in
    match channels k !! id with
    | None => drain_output order limit frames
    | Some c =>
      let '(p, out) := read_output (pty c) limit in
      match out with
      | None => let! _u := put_pty id c p in drain_output order limit frames
      | Some bytes =>
        let! _u := kchannels (insert id (mkChannel p (record_output (history c) bytes))) in
        let! f := klift (MuxFrame_new PtyOut id bytes) in
        drain_output order limit (frames ++ [f])
      end
    end
  end.

(** The loop of [Keeper::output_backlogged], which stops at the first channel
    that is. *)
Fixpoint output_backlogged (order : list Z) : KM bool :=
  match order with
  | [] => kret false
  | id :: order =>
    let! k := kget in
    match channels k !! id with
    | None => output_backlogged order
    | Some c =>
      let '(p, backlogged) := pty_output_backlogged (pty c) in
      let! _u := put_pty id c p in
      if backlogged then kret true else output_backlogged order
    end
  end.

(** The first pass of [Keeper::reap_exited]: the finished channels. *)
Fixpoint finished_channels (w : World) (order : list Z) (acc : list (Z * Z)) : KM (list (Z * Z)) :=
  match order with
  | [] => kret acc
  | id :: order =>
    let! k := kget in
    match channels k !! id with
    | None => finished_channels w order acc
    | Some c =>
      match pty_exited w (pty c) with
      | (p, None) => let! _u := put_pty id c p in finished_channels w order acc
      | (p, Some status) =>
        let '(p, eof) := output_closed p in
        let! _u := put_pty id c p in
        finished_channels w order (if eof then acc ++ [(id, status)] else acc)
      end
    end
  end.

(** [status.exit_code() as i32]. *)
Definition as_i32 (code : Z) : Z :=
  let c := u32 code in if c <? 2 ^ 31 then c else c - 2 ^ 32.

(** The second pass: each finished channel is dropped and its exit framed. *)
Fixpoint report_exits (finished : list (Z * Z)) (exits : list MuxFrame) : KM (list MuxFrame) :=
  match finished with
  | [] => kret exits
  | (id, status) :: finished =>
    let! k := kget in
    let! _e := kemit match channels k !! id with
                     | Some c => [DroppedChannel id (lane_drop (pty_input (pty c)))]
                     | None => []
                     end in
    let! _u := kchannels (delete id) in
    let! f := klift (frame_json Exit id (json_exit (mkExitFrame (Some (as_i32 status))))) in
    report_exits finished (exits ++ [f])
  end.

(** [Keeper::reap_exited]. *)
Definition reap_exited (w : World) (order : list Z) : KM (list MuxFrame) :=
  let! finished := finished_channels w order [] in
  report_exits finished [].

(** [Keeper::reap_all_channels] on Unix: the targets handed to the reaper. *)
Fixpoint reap_all_channels (w : World) (order : list Z) : KM unit :=
  match order with
  | [] => kret tt
  | id :: order =>
    let! k := kget in
    match channels k !! id with
    | None => reap_all_channels w order
    | Some c =>
      let '(p, target) := reap_target w (pty c) in
      let! _u := put_pty id c p in
      let! _e := kemit match target with Some t => [Reaped t] | None => [] end in
      reap_all_channels w order
    end
  end.

(** [Keeper::attach_input_results], [detach_input_results]. *)
Definition attach_input_results (k : Keeper) : Keeper * Z :=
  let '(r, generation) := attach (input_route k) in
  (mkKeeper (channels k) (contract k) r (process_epoch k) (output_signal k), generation).
Definition detach_input_results (k : Keeper) : Keeper :=
  mkKeeper (channels k) (contract k) (detach (input_route k)) (process_epoch k) (output_signal k).

End Handlers.
