(* ===== verification/KeeperRun.v ===== *)
(** * The keeper over a whole run

    The keeper of [Keeper.v] driven by any interleaving of worker frames, output
    drains, reaps, connections, PTY readers and input lanes. Each channel's
    ghost account ([born], [oplog], [produced]) is computed from what the run
    shows outside: the frames sent, the effects on the operating system and the
    bytes the PTYs produced. The theorems relate the keeper's state, and its
    answers, to that account.  A concrete run closes the file. *)
From stdpp Require Import sorting.
From S2P Require Import Prelude KeeperCodec KeeperPayloads KeeperHistory KeeperHistoryCodec.
From S2P Require Import KeeperOutput KeeperInput Keeper.

(** ** Runs *)

(** What happens to a keeper: a worker's frame, a turn's drain, backlog check
    and reap, a connection attaching or detaching, a PTY reader's turn, and any
    move of a lane's own thread. *)
Inductive event :=
| EHandle (w : World) (frame : MuxFrame)
| EDrain (order : list Z)
| EBacklogged (order : list Z)
| EReap (w : World) (order : list Z)
| EAttach
| EDetach
| EPump (id : Z) (res : OutputRing.read_result)
| ELane (id : Z) (l : Lane).

(** A fallible pass of the server loop; an unframeable payload ends the
    connection and nothing of the pass is written. *)
Definition pass {A} (r : option (Keeper * list effect * result A CodecError)) (none : A)
  : option (Keeper * list effect * A) :=
  match r with
  | None => None
  | Some (k, es, Ok a) => Some (k, es, a)
  | Some (k, es, Err _) => Some (k, es, none)
  end.

Section Run.
Context `{J : Json}.

Definition kstep (k : Keeper) (ev : event) : option (Keeper * list effect * list MuxFrame) :=
  match ev with
  | EHandle w frame => handle w k frame
  | EDrain order => pass (drain_output order Signal.DRAIN_LIMIT_BYTES [] k) []
  | EBacklogged order =>
    match output_backlogged order k with
    | None => None
    | Some (k', es, _) => Some (k', es, [])
    end
  | EReap w order => pass (reap_exited w order k) []
  | EAttach => Some (fst (attach_input_results k), [], [])
  | EDetach => Some (detach_input_results k, [], [])
  | EPump id res =>
    c ← channels k !! id;
    r ← OutputRing.pump (pty_output (pty c)) res;
    Some (set_channels k (<[id := mkChannel (with_output (pty c) r) (history c)]> (channels k)), [], [])
  | ELane id l =>
    c ← channels k !! id;
    Some (set_channels k (<[id := mkChannel (with_input (pty c) l) (history c)]> (channels k)), [], [])
  end.

(** A pass visits each channel once, in whatever order the map gives. *)
Definition visits (k : Keeper) (order : list Z) : Prop := order ≡ₚ elements (dom (channels k)).

Definition event_ok (k : Keeper) (ev : event) : Prop :=
  match ev with
  | EDrain order | EBacklogged order | EReap _ order => visits k order
  | _ => True
  end.

(** One line of a run's record. *)
Definition entry : Type := event * list effect * list MuxFrame.

Inductive run (c : KeeperContractV1) (epoch : option string) : list entry -> Keeper -> Prop :=
| run_new : run c epoch [] (keeper_new c epoch)
| run_event tr k ev k' es fs :
    run c epoch tr k -> event_ok k ev -> kstep k ev = Some (k', es, fs) ->
    run c epoch (tr ++ [(ev, es, fs)]) k'.

(** ** A channel's account, computed from the record *)

Record account := mkAccount {
  born : option (Z * Z);      (* the geometry of its latest spawn, while it lives *)
  oplog : list hist_op;       (* output framed and geometry applied since *)
  produced : list byte;       (* what its PTY produced since *)
}.

Definition no_account : account := mkAccount None [] [].

Definition effect_account (id : Z) (a : account) (e : effect) : account :=
  match e with
  | Opened i cols rows => if i =? id then mkAccount (Some (cols, rows)) [] [] else a
  | Resized i seq cols rows =>
    if i =? id then mkAccount (born a) (oplog a ++ [OpResize seq cols rows]) (produced a) else a
  | DroppedChannel i _ => if i =? id then no_account else a
  | Reaped _ => a
  end.

Definition frame_account (id : Z) (a : account) (f : MuxFrame) : account :=
  match frame_type f with
  | PtyOut => if frame_channel f =? id
              then mkAccount (born a) (oplog a ++ [OpOutput (frame_payload f)]) (produced a) else a
  | _ => a
  end.

Definition event_account (id : Z) (a : account) (ev : event) : account :=
  match ev with
  | EPump i (OutputRing.ReadBytes bytes) =>
    if i =? id then mkAccount (born a) (oplog a) (produced a ++ bytes) else a
  | _ => a
  end.

Definition entry_account (id : Z) (a : account) (e : entry) : account :=
  let '(ev, es, fs) := e in
  foldl (frame_account id) (foldl (effect_account id) (event_account id a ev) es) fs.

Definition account_of (id : Z) (tr : list entry) : account :=
  foldl (entry_account id) no_account tr.

(** The output a channel's frames carried since its spawn. *)
Fixpoint outputs (ops : list hist_op) : list byte :=
  match ops with
  | [] => []
  | OpOutput bytes :: ops => bytes ++ outputs ops
  | OpResize _ _ _ :: ops => outputs ops
  end.

(** ** The invariant *)

(** A resize the keeper applied has a [u64] sequence and a valid geometry. *)
Definition op_typed (op : hist_op) : Prop :=
  match op with
  | OpOutput _ => True
  | OpResize seq cols rows => fits 64 seq /\ dimension_ok cols /\ dimension_ok rows
  end.

(** Live channel [c] is what its account says. *)
Record chan_ok (id : Z) (c : Channel) (a : account) : Prop := {
  ok_id : pty_channel_id (pty c) = id;
  ok_range : 0 < id < 2 ^ 16;
  ok_chunks : OutputRing.chunks_ok (pty_output (pty c));
  ok_history : exists cols rows, born a = Some (cols, rows) /\
    dimension_ok cols /\ dimension_ok rows /\
    history c = run_ops (history_new cols rows) (oplog a);
  ok_produced : produced a = outputs (oplog a) ++ OutputRing.held (pty_output (pty c));
  ok_geometry : (pty_cols (pty c), pty_rows (pty c)) = current_geom (history c);
  ok_dims : dimension_ok (pty_cols (pty c)) /\ dimension_ok (pty_rows (pty c));
  ok_applied : fits 64 (pty_applied_seq (pty c));
  ok_ops : Forall op_typed (oplog a);
}.

Definition map_ok (m : gmap Z Channel) (acc : Z -> account) : Prop :=
  forall id, match m !! id with
             | Some c => chan_ok id c (acc id)
             | None => born (acc id) = None
             end.

(** The accounts after a step's effects, then its frames. *)
Definition after (es : list effect) (fs : list MuxFrame) (acc : Z -> account) : Z -> account :=
  fun id => foldl (frame_account id) (foldl (effect_account id) (acc id) es) fs.

Lemma after_app es es' fs acc id : after (es ++ es') fs acc id = after es' fs (after es [] acc) id.
Proof. unfold after. cbn. by rewrite foldl_app. Qed.

Lemma after_frames es fs fs' acc id : after es (fs ++ fs') acc id = after [] fs' (after es fs acc) id.
Proof. unfold after. cbn. by rewrite foldl_app. Qed.

Lemma map_ok_ext m acc acc' : (forall id, acc id = acc' id) -> map_ok m acc -> map_ok m acc'.
Proof. intros He Hok id. rewrite <- He. apply Hok. Qed.

(** ** Changes that leave every account as it was *)

(** [c'] shows the outside what [c] does: only its lane moved, or its ring was
    probed. *)
Record same_view (c c' : Channel) : Prop := {
  same_id : pty_channel_id (pty c') = pty_channel_id (pty c);
  same_held : OutputRing.held (pty_output (pty c')) = OutputRing.held (pty_output (pty c));
  same_chunks : OutputRing.chunks_ok (pty_output (pty c)) -> OutputRing.chunks_ok (pty_output (pty c'));
  same_geometry : (pty_cols (pty c'), pty_rows (pty c'), pty_applied_seq (pty c'))
                = (pty_cols (pty c), pty_rows (pty c), pty_applied_seq (pty c));
  same_history : history c' = history c;
}.

#[global] Instance same_view_preorder : PreOrder same_view.
Proof.
  split.
  - intros c. by split.
  - intros c1 c2 c3 [] []. split; try congruence. auto.
Qed.

Definition map_same (m m' : gmap Z Channel) : Prop :=
  forall id, match m !! id, m' !! id with
             | Some c, Some c' => same_view c c'
             | None, None => True
             | _, _ => False
             end.

#[global] Instance map_same_preorder : PreOrder map_same.
Proof.
  split.
  - intros m id. by destruct (m !! id).
  - intros m1 m2 m3 H1 H2 id. specialize (H1 id). specialize (H2 id).
    destruct (m1 !! id), (m2 !! id), (m3 !! id); try done. by etrans.
Qed.

Lemma map_same_insert m id c c' :
  m !! id = Some c -> same_view c c' -> map_same m (<[id := c']> m).
Proof.
  intros Hc Hs i. destruct (decide (id = i)) as [-> |Hne].
  - by rewrite lookup_insert_eq, Hc.
  - rewrite lookup_insert_ne by done. by destruct (m !! i).
Qed.

Lemma chan_ok_same id c c' a : same_view c c' -> chan_ok id c a -> chan_ok id c' a.
Proof.
  intros [Hi Hh Hc Hg Hhist] []. injection Hg as ? ? ?. split; rewrite ?Hhist, ?Hh; try congruence; auto.
Qed.

Lemma map_ok_same m m' acc : map_same m m' -> map_ok m acc -> map_ok m' acc.
Proof.
  intros Hs Hok id. specialize (Hs id). specialize (Hok id).
  destruct (m !! id), (m' !! id); try done. by eapply chan_ok_same.
Qed.

Lemma with_input_same c l : same_view c (mkChannel (with_input (pty c) l) (history c)).
Proof. by split. Qed.

Lemma exited_same w c p st :
  pty_exited w (pty c) = (p, st) -> same_view c (mkChannel p (history c)).
Proof. unfold pty_exited. case_match; intros; simplify_eq; by split. Qed.

Lemma enqueue_same w c bytes reply p q :
  enqueue_input w (pty c) bytes reply = (p, q) -> same_view c (mkChannel p (history c)).
Proof.
  unfold enqueue_input. destruct (pty_exited w (pty c)) as [p1 [st|]] eqn:E; intros H.
  - simplify_eq. by eapply exited_same.
  - apply exited_same in E. destruct (enqueue (pty_input p1) bytes reply) as [l ok]. simplify_eq.
    etrans; [exact E|]. apply (with_input_same (mkChannel p1 (history c))).
Qed.

Lemma reap_target_same w c p t :
  reap_target w (pty c) = (p, t) -> same_view c (mkChannel p (history c)).
Proof.
  unfold reap_target. destruct (pty_exited w (pty c)) as [p1 [st|]] eqn:E; intros; simplify_eq;
    by eapply exited_same.
Qed.

Definition is_reaped (e : effect) : Prop := match e with Reaped _ => True | _ => False end.

Lemma kill_same w c p es :
  pty_kill w (pty c) = (p, es) -> same_view c (mkChannel p (history c)) /\ Forall is_reaped es.
Proof.
  unfold pty_kill. destruct (reap_target w (pty c)) as [p1 [t|]] eqn:E; intros; simplify_eq;
    (split; [by eapply reap_target_same|]); by repeat constructor.
Qed.

(** An operation that leaves every channel's view as it was. *)
Definition calm (k k' : Keeper) (es : list effect) : Prop :=
  map_same (channels k) (channels k') /\ Forall is_reaped es.

Lemma calm_refl k : calm k k [].
Proof. split; [reflexivity|constructor]. Qed.

Lemma calm_trans k1 k2 k3 es es' : calm k1 k2 es -> calm k2 k3 es' -> calm k1 k3 (es ++ es').
Proof. intros [] []. split; [by etrans|by apply Forall_app]. Qed.

Lemma calm_put k id c p :
  channels k !! id = Some c -> same_view c (mkChannel p (history c)) ->
  calm k (set_channels k (<[id := mkChannel p (history c)]> (channels k))) [].
Proof. intros. split; [by eapply map_same_insert|constructor]. Qed.

Lemma reaped_account id a es : Forall is_reaped es -> foldl (effect_account id) a es = a.
Proof. induction 1 as [|[] es He _ IH]; done. Qed.

Lemma calm_ok k k' es acc :
  calm k k' es -> map_ok (channels k) acc -> map_ok (channels k') (after es [] acc).
Proof.
  intros [Hs He] Hok. apply (map_ok_ext _ acc); [|by eapply map_ok_same].
  intros id. unfold after. cbn. by rewrite reaped_account.
Qed.

(** Operations that only look. *)
Definition looks {A} (m : KM A) : Prop :=
  forall k k' es r, m k = Some (k', es, r) -> k' = k /\ es = [].

Lemma looks_ret {A} (a : A) : looks (kret a).
Proof. unfold looks, kret. intros. by simplify_eq. Qed.
Lemma looks_err {A} e : looks (@kerr A e).
Proof. unfold looks, kerr. intros. by simplify_eq. Qed.
Lemma looks_lift {A} (r : result A CodecError) : looks (klift r).
Proof. unfold looks, klift. intros. by simplify_eq. Qed.
Lemma looks_get : looks kget.
Proof. unfold looks, kget. intros. by simplify_eq. Qed.
Lemma looks_parse {A} (o : option A) name : looks (kparse o name).
Proof. destruct o; [apply looks_ret|apply looks_err]. Qed.
Lemma looks_bind {A B} (m : KM A) (f : A -> KM B) :
  looks m -> (forall a, looks (f a)) -> looks (kbind m f).
Proof.
  intros Hm Hf k k' es r H. unfold kbind in H.
  destruct (m k) as [[[k1 e1] [a|err]]|] eqn:E; simplify_eq; [|by eapply Hm].
  apply Hm in E as [-> ->]. destruct (f a k) as [[[k2 e2] r2]|] eqn:E; simplify_eq.
  by apply Hf in E as [-> ->].
Qed.
#[local] Hint Resolve looks_ret looks_err looks_lift looks_get looks_parse looks_bind : looks.

Lemma looks_panic {A} : looks (@kpanic A).
Proof. by unfold looks, kpanic. Qed.
#[local] Hint Resolve looks_panic : looks.

Lemma resize_ack_looks id st : looks (resize_ack id st).
Proof. unfold resize_ack. auto 10 with looks. Qed.
#[local] Hint Resolve resize_ack_looks : looks.

Lemma queries_look w frame :
  looks (answer_hello w frame) /\ looks list_channels /\ looks shutdown_if_empty /\
  looks (resize_status frame) /\ looks (terminal_state frame) /\ looks (history_records frame) /\
  looks (legacy_history_resp frame) /\ forall t, looks (simple_frame t).
Proof.
  unfold answer_hello, list_channels, shutdown_if_empty, resize_status, terminal_state,
    history_records, legacy_history_resp, simple_frame.
  split_and!; eauto 10 with looks; (apply looks_bind; [apply looks_get|]); intros k;
    case_match; eauto 10 with looks.
Qed.

Lemma looks_calm {A} (m : KM A) k k' es r : looks m -> m k = Some (k', es, r) -> calm k k' es.
Proof. intros Hm H. apply Hm in H as [-> ->]. apply calm_refl. Qed.

End Run.

(** Evaluates the handler monad's plumbing in a hypothesis. *)
Ltac kunfold H :=
  unfold kparse, put_pty, kbind, kret, kerr, klift, kget, kemit, kchannels in H; cbn in H.

Section RunSteps.
Context `{J : Json} {JL : JsonLaws J}.

Lemma input_calm w frame k k' es r :
  legacy_input w frame k = Some (k', es, r) \/ sequenced_input w frame k = Some (k', es, r) ->
  calm k k' es.
Proof.
  intros [H|H].
  - unfold legacy_input in H. case_if; [kunfold H; simplify_eq; apply calm_refl|].
    kunfold H. destruct (channels k !! frame_channel frame) as [c|] eqn:Hc.
    + destruct (enqueue_input _ _ _ _) as [p q] eqn:E. simplify_eq.
      apply calm_put; [done|by eapply enqueue_same].
    + simplify_eq. apply calm_refl.
  - unfold sequenced_input in H. kunfold H.
    destruct (PtyInRequest_decode _ _) as [req|]; [|simplify_eq; apply calm_refl].
    destruct (channels k !! frame_channel frame) as [c|] eqn:Hc.
    + destruct (enqueue_input _ _ _ _) as [p q] eqn:E. apply enqueue_same in E.
      repeat case_match; simplify_eq; by apply calm_put.
    + repeat case_match; simplify_eq; apply calm_refl.
Qed.

Lemma kill_calm w frame k k' es r : kill_child w frame k = Some (k', es, r) -> calm k k' es.
Proof.
  intros H. unfold kill_child in H. kunfold H.
  destruct (channels k !! frame_channel frame) as [c|] eqn:Hc; [|simplify_eq; apply calm_refl].
  destruct (pty_kill w (pty c)) as [p e] eqn:E. apply kill_same in E as [Hs He]. simplify_eq.
  split; [by eapply calm_put|]. by rewrite app_nil_r.
Qed.

(** ** The operations that change a channel's account *)

Lemma outputs_app l l' : outputs (l ++ l') = outputs l ++ outputs l'.
Proof. induction l as [|[] l IH]; cbn; rewrite ?IH, ?app_assoc; done. Qed.

Lemma run_ops_snoc h ops op : run_ops h (ops ++ [op]) = run_op (run_ops h ops) op.
Proof. unfold run_ops. by rewrite foldl_app. Qed.

Lemma current_geom_output h bytes : current_geom (record_output h bytes) = current_geom h.
Proof. unfold record_output, trim_evicted. by repeat case_match. Qed.

Lemma current_geom_resize h seq cols rows : current_geom (record_resize h seq cols rows) = (cols, rows).
Proof. unfold record_resize. by repeat case_match. Qed.

(** Accounts that agree away from [id]. *)
Lemma map_ok_insert m id c acc acc' :
  map_ok m acc -> (forall i, i <> id -> acc' i = acc i) -> chan_ok id c (acc' id) ->
  map_ok (<[id := c]> m) acc'.
Proof.
  intros Hok Heq Hc i. destruct (decide (i = id)) as [-> |Hne].
  - by rewrite lookup_insert_eq.
  - rewrite lookup_insert_ne, Heq by done. apply Hok.
Qed.

Lemma map_ok_delete m id acc acc' :
  map_ok m acc -> (forall i, i <> id -> acc' i = acc i) -> born (acc' id) = None ->
  map_ok (delete id m) acc'.
Proof.
  intros Hok Heq Hb i. destruct (decide (i = id)) as [-> |Hne].
  - by rewrite lookup_delete_eq.
  - rewrite lookup_delete_ne, Heq by done. apply Hok.
Qed.

Lemma resized_ok id c a seq cols rows p :
  chan_ok id c a -> fits 64 seq -> dimension_ok cols -> dimension_ok rows ->
  p = with_applied (with_geometry (pty c) cols rows) (pty_applied_seq p) ->
  fits 64 (pty_applied_seq p) ->
  chan_ok id (mkChannel p (record_resize (history c) seq cols rows))
    (mkAccount (born a) (oplog a ++ [OpResize seq cols rows]) (produced a)).
Proof.
  intros [Hid Hrg Hch (c0 & r0 & Hb & Hc0 & Hr0 & Hh) Hp Hg Hd Ha Ho] Hs Hc Hr -> Hf.
  split; cbn in *; try done.
  - exists c0, r0. split_and!; try done. by rewrite run_ops_snoc, Hh.
  - by rewrite outputs_app; cbn; rewrite app_nil_r.
  - apply Forall_app. split; [done|]. by apply Forall_singleton.
Qed.

Lemma resize_master_spec w p cols rows p' r :
  resize_master w p cols rows = (p', r) ->
  (r = Ok tt /\ p' = with_geometry p cols rows /\ cols <> 0 /\ rows <> 0) \/
  (exists e, r = Err e) /\ p' = p.
Proof.
  unfold resize_master. case_if; intros H; [simplify_eq; right; eauto|]. bool_to_prop.
  destruct (map_pty _); simplify_eq; [left|right]; eauto.
Qed.

Lemma resized_account id seq cols rows acc i :
  after [Resized id seq cols rows] [] acc i =
  if id =? i then mkAccount (born (acc i)) (oplog (acc i) ++ [OpResize seq cols rows]) (produced (acc i))
  else acc i.
Proof. done. Qed.

Lemma legacy_resize_ok w frame k k' es r acc :
  map_ok (channels k) acc -> legacy_resize w frame k = Some (k', es, r) ->
  map_ok (channels k') (after es [] acc).
Proof.
  intros Hok H. unfold legacy_resize in H. kunfold H.
  destruct (parse_legacy_resize _) as [[cols rows]|] eqn:Hp; [|simplify_eq; exact Hok].
  cbn in H. set (id := frame_channel frame) in *.
  destruct (channels k !! id) as [c|] eqn:Hc; [|simplify_eq; exact Hok].
  pose proof (Hok id) as Hid. rewrite Hc in Hid.
  destruct (apply_unsequenced_resize _ _ _ _) as [p applied] eqn:E.
  apply resize_master_spec in E as [(-> & -> & Hc0 & Hr0)|[[e ->] ->]].
  - cbn in H. simplify_eq. apply parse_resize_u16 in Hp as [Hfc Hfr].
    assert (dimension_ok cols /\ dimension_ok rows) as [Hdc Hdr].
    { unfold dimension_ok, KEEPER_MAX_TERMINAL_DIMENSION, fits in *. lia. }
    eapply map_ok_insert; [done| |].
    + intros i Hi. rewrite resized_account. case_if; bool_to_prop; done.
    + rewrite resized_account, Z.eqb_refl. apply resized_ok; try done. by destruct Hid.
  - cbn in H. simplify_eq. by eapply calm_ok; [apply calm_put; [|by split]|].
Qed.

Lemma apply_resize_spec w p seq cols rows p' r :
  apply_resize w p seq cols rows = (p', r) ->
  (seq <= pty_applied_seq p /\ r = Ok (pty_applied_seq p) /\ p' = p) \/
  (pty_applied_seq p < seq /\ r = Ok seq /\ p' = with_applied (with_geometry p cols rows) seq) \/
  (pty_applied_seq p < seq /\ (exists e, r = Err e) /\ p' = p).
Proof.
  unfold apply_resize. case_if; bool_to_prop; intros H; [simplify_eq; by left|right].
  destruct (resize_master w p cols rows) as [p1 r1] eqn:E.
  apply resize_master_spec in E as [(-> & -> & _)|[[e ->] ->]]; simplify_eq; [left|right]; eauto.
Qed.

(** What a sequenced resize leaves in the channel and shows outside, before its
    answer is framed. *)
Lemma sequenced_resize_ok w frame k k' es r acc :
  map_ok (channels k) acc -> sequenced_resize w frame k = Some (k', es, r) ->
  map_ok (channels k') (after es [] acc).
Proof.
  intros Hok H. unfold sequenced_resize, resize_ack in H. kunfold H.
  destruct (ResizeRequest_decode _ _) as [req|] eqn:Hd; [|simplify_eq; exact Hok].
  apply ResizeRequest_decode_wire_ok in Hd as (Hs & Hdc & Hdr).
  set (id := frame_channel frame) in *.
  destruct (channels k !! id) as [c|] eqn:Hc; [|repeat case_match; simplify_eq; exact Hok].
  pose proof (Hok id) as Hid. rewrite Hc in Hid.
  destruct (apply_resize _ _ _ _ _) as [p applied] eqn:E.
  apply apply_resize_spec in E as [(Hle & -> & ->)|[(Hlt & -> & ->)|(Hlt & [e ->] & ->)]].
  - assert (Hz : pty_applied_seq (pty c) <? resize_seq req = false) by (apply Z.ltb_ge; lia).
    cbn in H. rewrite Hz in H. cbn in H.
    assert (Hcalm : calm k (set_channels k (<[id := mkChannel (pty c) (history c)]> (channels k))) [])
      by (apply calm_put; [done|by split]).
    repeat case_match; simplify_eq; by eapply calm_ok.
  - assert (Hz : pty_applied_seq (pty c) <? resize_seq req = true) by (apply Z.ltb_lt; lia).
    cbn in H. rewrite Hz, Z.eqb_refl in H. cbn in H.
    assert (Hres : map_ok (<[id := mkChannel (with_applied (with_geometry (pty c) (resize_cols req)
        (resize_rows req)) (resize_seq req)) (record_resize (history c) (resize_seq req)
        (resize_cols req) (resize_rows req))]> (channels k))
      (after [Resized id (resize_seq req) (resize_cols req) (resize_rows req)] [] acc)).
    { eapply map_ok_insert; [done| |].
      - intros i Hi. rewrite resized_account. case_if; bool_to_prop; done.
      - rewrite resized_account, Z.eqb_refl. by apply resized_ok. }
    repeat case_match; simplify_eq; exact Hres.
  - cbn in H. repeat case_match; simplify_eq; by eapply calm_ok; [apply calm_put; [|by split]|].
Qed.

Lemma replace_existing_ok w id k k' es r acc :
  map_ok (channels k) acc -> replace_existing w id k = Some (k', es, r) ->
  r = Ok tt /\ map_ok (channels k') (after es [] acc).
Proof.
  intros Hok H. unfold replace_existing in H. kunfold H.
  destruct (channels k !! id) as [c|] eqn:Hc; [|simplify_eq; by split].
  destruct (pty_kill w (pty c)) as [p killed] eqn:E. apply kill_same in E as [_ Hk].
  simplify_eq. split; [done|]. eapply map_ok_delete; [exact Hok| |].
  - intros i Hi. rewrite after_app. unfold after. cbn. rewrite reaped_account by done.
    case_if; bool_to_prop; congruence.
  - rewrite after_app. unfold after. cbn. by rewrite Z.eqb_refl.
Qed.

Lemma pty_spawn_spec w id spec cols rows p :
  fits 16 id -> fits 16 cols -> fits 16 rows -> pty_spawn w id spec cols rows = Ok p ->
  0 < id < 2 ^ 16 /\ dimension_ok cols /\ dimension_ok rows /\
  exists pid, p = mkPty id OutputRing.new (lane_start id) pid 0 cols rows.
Proof.
  unfold pty_spawn, fits, dimension_ok, KEEPER_MAX_TERMINAL_DIMENSION. intros Hi Hc Hr H.
  destruct (id =? 0) eqn:E1; [done|]. do 2 (case_if; [done|]). bool_to_prop.
  change (u16 65535) with 65535 in *.
  repeat (case_match; try done); simplify_eq; (split_and!; [lia..|by eexists]).
Qed.

Lemma spawned_ok id cols rows pid a :
  0 < id < 2 ^ 16 -> dimension_ok cols -> dimension_ok rows ->
  chan_ok id (mkChannel (mkPty id OutputRing.new (lane_start id) pid 0 cols rows) (history_new cols rows))
    (effect_account id a (Opened id cols rows)).
Proof.
  intros Hid Hc Hr. cbn. rewrite Z.eqb_refl. split; cbn; try done.
  - constructor.
  - by exists cols, rows.
Qed.

#[local] Arguments replace_existing : simpl never.

Lemma spawn_ok w frame k k' es r acc :
  map_ok (channels k) acc -> spawn w frame k = Some (k', es, r) ->
  map_ok (channels k') (after es [] acc).
Proof.
  intros Hok H. unfold spawn in H. kunfold H.
  destruct (parse_spawn _) as [req|] eqn:Hp; [|simplify_eq; exact Hok].
  apply parse_spawn_u16 in Hp as (Hfi & Hfc & Hfr). cbn in H.
  destruct (replace_existing _ _ _) as [[[k1 e1] r1]|] eqn:Hr; [|done].
  destruct (replace_existing_ok _ _ _ _ _ _ _ Hok Hr) as [-> Hok1].
  destruct (pty_spawn _ _ _ _ _) as [p|err] eqn:Hs.
  - apply pty_spawn_spec in Hs as (Hid & Hdc & Hdr & pid & ->); [|done..].
    assert (Hins : map_ok (<[spawn_channel_id req := mkChannel
        (mkPty (spawn_channel_id req) OutputRing.new (lane_start (spawn_channel_id req)) pid 0
           (spawn_cols req) (spawn_rows req)) (history_new (spawn_cols req) (spawn_rows req))]> (channels k1))
      (after (e1 ++ [Opened (spawn_channel_id req) (spawn_cols req) (spawn_rows req)]) [] acc)).
    { eapply map_ok_insert; [exact Hok1| |].
      - intros i Hi. rewrite after_app. unfold after at 1. cbn. case_if; bool_to_prop; done.
      - rewrite after_app. by apply spawned_ok. }
    cbn in H. repeat case_match; simplify_eq; cbn; exact Hins.
  - cbn in H. repeat case_match; simplify_eq; by rewrite app_nil_r.
Qed.

(** ** The passes of a server turn *)

Lemma read_output_spec p limit p' out :
  0 <= limit -> read_output p limit = (p', out) ->
  p' = with_output p (pty_output p') /\
  default [] out ++ OutputRing.held (pty_output p') = OutputRing.held (pty_output p) /\
  len (default [] out) <= limit /\
  (OutputRing.chunks_ok (pty_output p) -> OutputRing.chunks_ok (pty_output p')).
Proof.
  unfold read_output. intros Hl H.
  pose proof (OutputRing.take_chunks (pty_output p) limit) as Hch.
  destruct (OutputRing.take (pty_output p) limit) as [r o] eqn:E. simplify_eq.
  destruct (OutputRing.take_held _ _ _ _ Hl E) as (Hh & Hlen & _). cbn in *. split_and!; try done. lia.
Qed.

Lemma drained_ok id c a bytes p :
  chan_ok id c a -> p = with_output (pty c) (pty_output p) ->
  bytes ++ OutputRing.held (pty_output p) = OutputRing.held (pty_output (pty c)) ->
  (OutputRing.chunks_ok (pty_output (pty c)) -> OutputRing.chunks_ok (pty_output p)) ->
  chan_ok id (mkChannel p (record_output (history c) bytes))
    (mkAccount (born a) (oplog a ++ [OpOutput bytes]) (produced a)).
Proof.
  intros [Hid Hrg Hch (c0 & r0 & Hb & Hc0 & Hr0 & Hh) Hp Hg Hd Ha Ho] Heq Hheld Hchunks.
  rewrite Heq in *. split; cbn in *; try done; auto.
  - exists c0, r0. split_and!; try done. by rewrite run_ops_snoc, Hh.
  - rewrite outputs_app. cbn. by rewrite app_nil_r, <- app_assoc, Hheld.
  - by rewrite current_geom_output.
  - apply Forall_app. split; [done|]. by apply Forall_singleton.
Qed.

(** The account of a drain: each frame is recorded in its channel before it is
    sent, and the frames of the pass are exactly what was taken. *)
Lemma drain_ok order limit frames k acc :
  0 <= limit <= KEEPER_MAX_MUX_FRAME_BYTES -> map_ok (channels k) acc ->
  exists k' fs, drain_output order limit frames k = Some (k', [], Ok (frames ++ fs)) /\
    map_ok (channels k') (after [] fs acc).
Proof.
  intros Hl. revert frames k acc. induction order as [|id order IH]; intros frames k acc Hok.
  - exists k, []. unfold drain_output, kret. by rewrite app_nil_r.
  - cbn [drain_output]. unfold kbind at 1, kget. destruct (channels k !! id) as [c|] eqn:Hc.
    2: { destruct (IH frames k acc Hok) as (k' & fs & -> & Hok'). by exists k', fs. }
    pose proof (Hok id) as Hid. rewrite Hc in Hid.
    destruct (read_output (pty c) limit) as [p out] eqn:E.
    destruct (read_output_spec _ _ _ _ (proj1 Hl) E) as (Hp & Hheld & Hlen & Hch).
    destruct out as [bytes|]; cbn [default] in *.
    + unfold put_pty, kbind, kchannels, klift, MuxFrame_new. change (len bytes <= limit) in Hlen.
      assert (Hb : KEEPER_MAX_MUX_FRAME_BYTES <? len bytes = false) by (apply Z.ltb_ge; lia).
      rewrite Hb. cbn.
      set (k1 := set_channels _ _). set (f := mkMuxFrame PtyOut id bytes).
      assert (Hok1 : map_ok (channels k1) (after [] [f] acc)).
      { eapply map_ok_insert; [exact Hok| |]; unfold after; cbn.
        - intros i Hi. case_if; bool_to_prop; congruence.
        - rewrite Z.eqb_refl. by apply drained_ok. }
      destruct (IH (frames ++ [f]) k1 _ Hok1) as (k' & fs & -> & Hok').
      exists k', (f :: fs). by rewrite <- app_assoc.
    + unfold put_pty, kbind, kchannels. cbn.
      set (k1 := set_channels _ _).
      assert (Hok1 : map_ok (channels k1) acc).
      { eapply map_ok_same; [|exact Hok]. eapply map_same_insert; [done|].
        rewrite Hp. by split. }
      destruct (IH frames k1 _ Hok1) as (k' & fs & -> & Hok'). by exists k', fs.
Qed.

Lemma probed_same c r :
  OutputRing.held r = OutputRing.held (pty_output (pty c)) ->
  (OutputRing.chunks_ok (pty_output (pty c)) -> OutputRing.chunks_ok r) ->
  same_view c (mkChannel (with_output (pty c) r) (history c)).
Proof. intros Hh Hc. by split. Qed.

Lemma backlogged_calm order k k' es r : output_backlogged order k = Some (k', es, r) -> calm k k' es.
Proof.
  revert k es. induction order as [|id order IH]; intros k es H; cbn [output_backlogged] in H.
  { kunfold H. simplify_eq. apply calm_refl. }
  kunfold H. destruct (channels k !! id) as [c|] eqn:Hc.
  - unfold pty_output_backlogged in H.
    destruct (OutputRing.probe_held (pty_output (pty c))) as (_ & _ & Hh & _).
    pose proof (fun Hok => proj2 (OutputRing.probe_chunks (pty_output (pty c)) Hok)) as Hch.
    destruct (OutputRing.is_drained (pty_output (pty c))) as [p drained]. cbn in *.
    assert (Hcalm : calm k (set_channels k
      (<[id := mkChannel (with_output (pty c) p) (history c)]> (channels k))) [])
      by (apply calm_put; [done|by apply probed_same]).
    destruct drained; cbn in H.
    + destruct (output_backlogged order _) as [[[k2 e2] r2]|] eqn:E; simplify_eq.
      apply IH in E. by apply (calm_trans _ _ _ [] es Hcalm).
    + by simplify_eq.
  - destruct (output_backlogged order k) as [[[k2 e2] r2]|] eqn:E; simplify_eq. by apply IH in E.
Qed.

Lemma output_closed_same c p b :
  output_closed (pty c) = (p, b) -> same_view c (mkChannel p (history c)).
Proof.
  unfold output_closed. destruct (OutputRing.probe_held (pty_output (pty c))) as (Hh & _).
  pose proof (fun Hok => proj1 (OutputRing.probe_chunks (pty_output (pty c)) Hok)) as Hch.
  destruct (OutputRing.is_eof (pty_output (pty c))). intros. simplify_eq. by apply probed_same.
Qed.

(** What the first pass of a reap lists for a channel: its child exited and its
    output ended, every byte taken. *)
Definition finish_of (w : World) (m : gmap Z Channel) (id : Z) : option (Z * Z) :=
  c ← m !! id;
  status ← try_wait w (pty_channel_id (pty c));
  if snd (OutputRing.is_eof (pty_output (pty c))) then Some (id, status) else None.

Lemma finish_of_insert w m id c i : i <> id -> finish_of w (<[id := c]> m) i = finish_of w m i.
Proof. intros. unfold finish_of. by rewrite lookup_insert_ne. Qed.

Lemma omap_finish_insert w m id c (order : list Z) :
  id ∉ order -> omap (finish_of w (<[id := c]> m)) order = omap (finish_of w m) order.
Proof.
  intros Hi. induction order as [|i order IH]; [done|]. cbn.
  rewrite finish_of_insert by set_solver. rewrite IH by set_solver. done.
Qed.

Lemma finished_spec w order acc k :
  NoDup order ->
  exists k', finished_channels w order acc k
    = Some (k', [], Ok (acc ++ omap (finish_of w (channels k)) order)) /\ calm k k' [].
Proof.
  intros Hnd. revert acc k. induction Hnd as [|id order Hid Hnd IH]; intros acc k.
  { exists k. split; [|apply calm_refl]. cbn [finished_channels omap]. unfold kret. cbn.
    by rewrite app_nil_r. }
  cbn [finished_channels]. unfold kbind at 1, kget. cbn [omap list_omap].
  destruct (channels k !! id) as [c|] eqn:Hc; unfold finish_of at 1; rewrite Hc; cbn [mbind option_bind].
  2: { destruct (IH acc k) as (k' & -> & Hk). by exists k'. }
  destruct (pty_exited w (pty c)) as [p [status|]] eqn:He.
  - assert (Hwait : try_wait w (pty_channel_id (pty c)) = Some status /\ pty_output p = pty_output (pty c)).
    { unfold pty_exited in He. by case_match; simplify_eq. }
    destruct Hwait as [-> Hout]. cbn [mbind option_bind].
    apply exited_same in He. unfold output_closed. rewrite Hout.
    destruct (output_closed_same (mkChannel p (history c)) (with_output p (fst (OutputRing.is_eof (pty_output p))))
      (snd (OutputRing.is_eof (pty_output p)))) as [Hi Hh Hch Hg Hhi].
    { unfold output_closed. cbn. by destruct (OutputRing.is_eof (pty_output p)). }
    rewrite Hout in *. destruct (OutputRing.is_eof (pty_output (pty c))) as [r eof]. cbn [fst snd] in *.
    assert (Hcalm : calm k (set_channels k (<[id := mkChannel (with_output p r) (history c)]> (channels k))) []).
    { apply calm_put; [done|]. etrans; [exact He|]. by split. }
    unfold put_pty, kbind, kchannels.
    destruct (IH (if eof then acc ++ [(id, status)] else acc)
      (set_channels k (<[id := mkChannel (with_output p r) (history c)]> (channels k)))) as (k' & -> & Hk).
    exists k'. split; [|by apply (calm_trans _ _ _ [] [] Hcalm)].
    unfold set_channels at 1. cbn [channels app]. rewrite omap_finish_insert by done.
    destruct eof; [by rewrite <- app_assoc|done].
  - assert (Hwait : try_wait w (pty_channel_id (pty c)) = None)
      by (unfold pty_exited in He; by case_match; simplify_eq).
    rewrite Hwait. cbn [mbind option_bind]. apply exited_same in He.
    unfold put_pty, kbind, kchannels.
    destruct (IH acc (set_channels k (<[id := mkChannel p (history c)]> (channels k)))) as (k' & -> & Hk).
    exists k'. split; [|by apply (calm_trans _ _ _ [] [] (calm_put _ _ _ _ Hc He))].
    unfold set_channels at 1. cbn [channels app]. by rewrite omap_finish_insert.
Qed.

(** The frame an exit is reported with. *)
Definition reports (e : Z * Z) (f : MuxFrame) : Prop :=
  frame_type f = Exit /\ frame_channel f = e.1 /\
  json_exit (mkExitFrame (Some (as_i32 e.2))) = Ok (frame_payload f).

Definition drop_all (l : list (Z * Z)) (m : gmap Z Channel) : gmap Z Channel :=
  foldl (fun m e => delete e.1 m) m l.

Lemma report_exits_ok l exits k acc :
  map_ok (channels k) acc ->
  exists k' es fs, report_exits l exits k = Some (k', es, Ok (exits ++ fs)) /\
    Forall2 reports l fs /\ channels k' = drop_all l (channels k) /\
    map_ok (channels k') (after es [] acc).
Proof.
  revert exits k acc. induction l as [|[id status] l IH]; intros exits k acc Hok.
  { exists k, [], []. unfold report_exits, kret. by rewrite app_nil_r. }
  cbn [report_exits]. unfold kbind, kget, kemit, kchannels, klift, frame_json.
  destruct (json_exit_small (mkExitFrame (Some (as_i32 status)))) as (p & Hp & Hlen).
  rewrite Hp. unfold MuxFrame_new.
  assert (Hb : KEEPER_MAX_MUX_FRAME_BYTES <? len p = false)
    by (apply Z.ltb_ge; unfold KEEPER_MAX_MUX_FRAME_BYTES; lia).
  rewrite Hb. set (es1 := match channels k !! id with Some _ => _ | None => [] end).
  set (k1 := set_channels k (delete id (channels k))).
  assert (Hok1 : map_ok (channels k1) (after es1 [] acc)).
  { eapply map_ok_delete; [exact Hok| |].
    - intros i Hi. unfold es1. destruct (channels k !! id); [|done].
      unfold after. cbn. case_if; bool_to_prop; congruence.
    - pose proof (Hok id) as Hid. unfold es1. destruct (channels k !! id); [|done].
      unfold after. cbn. by rewrite Z.eqb_refl. }
  destruct (IH (exits ++ [mkMuxFrame Exit id p]) k1 _ Hok1) as (k' & es & fs & -> & Hf & Hch & Hok').
  exists k', (es1 ++ es), (mkMuxFrame Exit id p :: fs). split_and!.
  - cbn. by rewrite <- app_assoc, ?app_nil_r.
  - by constructor.
  - done.
  - eapply map_ok_ext; [|exact Hok']. intros i. by rewrite after_app.
Qed.

(** ** Answers *)

(** The frames a request may be answered with. *)
Definition answer_types (t : MuxFrameType) : list MuxFrameType :=
  match t with
  | Ping => [Pong]
  | Hello => [HelloResp]
  | ListChannels => [ListChannelsResp]
  | Shutdown => [ShutdownAck]
  | ShutdownIfEmpty => [ShutdownIfEmptyAck; ShutdownIfEmptyReject]
  | Spawn => [SpawnAck; SpawnErr]
  | PtyInRequest => [PtyInReject]
  | ResizeRequest => [ResizeAck; ResizeReject]
  | ResizeStatus => [ResizeAck]
  | GetTerminalState => [GetTerminalStateResp]
  | GetHistoryRecords => [GetHistoryRecordsResp]
  | GetHistory => [GetHistoryResp]
  | _ => []
  end.

(** An answer is one of those, on the lane of its request; a spawn is answered
    on the channel its payload names, a ping always on the control lane. *)
Definition answers (frame f : MuxFrame) : Prop :=
  frame_type f ∈ answer_types (frame_type frame) /\
  (frame_type frame ∈ [Spawn; Ping] \/ frame_channel f = frame_channel frame).

Definition at_most_one (P : MuxFrame -> Prop) (fs : list MuxFrame) : Prop :=
  fs = [] \/ exists f, fs = [f] /\ P f.

Definition yields (P : MuxFrame -> Prop) (m : KM (list MuxFrame)) : Prop :=
  forall k k' es fs, m k = Some (k', es, Ok fs) -> at_most_one P fs.

Lemma yields_nil P : yields P (kret []).
Proof. unfold yields, kret. intros. simplify_eq. by left. Qed.

Lemma yields_bind {A} P (m : KM A) f : (forall a, yields P (f a)) -> yields P (kbind m f).
Proof.
  intros Hf k k' es fs H. unfold kbind in H. repeat case_match; simplify_eq. by eapply Hf.
Qed.

Lemma yields_frame P r : (forall f, r = Ok f -> P f) -> yields P (let! f := klift r in kret [f]).
Proof.
  intros HP k k' es fs H. kunfold H. destruct r as [f|]; simplify_eq. right. eauto.
Qed.

Lemma MuxFrame_new_inv t c p f :
  MuxFrame_new t c p = Ok f -> frame_type f = t /\ frame_channel f = c /\ frame_payload f = p.
Proof. unfold MuxFrame_new. intros. case_if; by simplify_eq. Qed.

Lemma frame_json_inv t c j f : frame_json t c j = Ok f -> frame_type f = t /\ frame_channel f = c.
Proof. unfold frame_json. destruct j; [|done]. by intros (? & ? & _)%MuxFrame_new_inv. Qed.

Lemma resize_ack_yields id st (P : MuxFrame -> Prop) :
  (forall f, frame_type f = ResizeAck -> frame_channel f = id -> P f) -> yields P (resize_ack id st).
Proof.
  intros HP. apply yields_bind. intros p. apply yields_frame.
  intros f (? & ? & _)%MuxFrame_new_inv. auto.
Qed.

(** Solves that a handler answers from the table. *)
Ltac yields_tac :=
  repeat (first
    [ apply yields_nil
    | apply resize_ack_yields; intros f ? ?
    | apply yields_frame; intros f Hf;
      first [apply frame_json_inv in Hf as [? ?] | apply MuxFrame_new_inv in Hf as (? & ? & _)]
    | apply yields_bind; intros ?
    | case_match
    | by (unfold yields, kpanic) ]).

Lemma dispatch_yields w frame : yields (answers frame) (dispatch w frame).
Proof.
  destruct frame as [t id payload]. unfold dispatch. cbn [frame_type frame_channel].
  destruct (id =? 0) eqn:Hid; bool_to_prop; cbn [negb]; destruct t; try apply yields_nil;
    unfold simple_frame, answer_hello, list_channels, shutdown_if_empty, spawn, legacy_input,
      sequenced_input, legacy_resize, sequenced_resize, resize_status, terminal_state,
      history_records, legacy_history_resp, kill_child, resize_reject, result_frame;
    yields_tac; (split; cbn [frame_type frame_channel answer_types] in *;
      [set_solver|first [left; set_solver|right; congruence]]).
Qed.

Lemma reject_yields frame : at_most_one (answers frame) (reject frame).
Proof.
  unfold reject. destruct (frame_type frame) eqn:Ht; try by left.
  destruct (result_frame _ _ _) as [f|] eqn:Hf; [|by left].
  apply MuxFrame_new_inv in Hf as (? & ? & _). right. exists f. split; [done|].
  split; rewrite Ht; [set_solver|by right].
Qed.

Lemma handle_yields w k frame k' es fs :
  handle w k frame = Some (k', es, fs) -> at_most_one (answers frame) fs.
Proof.
  unfold handle. destruct (dispatch w frame k) as [[[k1 e1] [fs1|]]|] eqn:E; intros; simplify_eq.
  - by eapply dispatch_yields.
  - apply reject_yields.
Qed.

Lemma answers_not_output frame f : answers frame f -> frame_type f <> PtyOut.
Proof. intros [Ht _] Hf. rewrite Hf in Ht. destruct (frame_type frame); cbn in Ht; set_solver. Qed.

Lemma quiet_frames_account id a fs :
  Forall (fun f => frame_type f <> PtyOut) fs -> foldl (frame_account id) a fs = a.
Proof.
  induction 1 as [|f fs Hf _ IH]; [done|]. cbn. unfold frame_account at 2.
  by destruct (frame_type f).
Qed.

(** ** Every step keeps the accounts *)

Lemma dispatch_ok w frame k k' es r acc :
  map_ok (channels k) acc -> dispatch w frame k = Some (k', es, r) ->
  map_ok (channels k') (after es [] acc).
Proof.
  intros Hok H.
  pose proof (queries_look w frame) as (Q1 & Q2 & Q3 & Q4 & Q5 & Q6 & Q7 & Q8).
  assert (Hcalm : forall m : KM (list MuxFrame), looks m -> m k = Some (k', es, r) ->
    map_ok (channels k') (after es [] acc)) by (intros m Hm Hr; by eapply calm_ok; [eapply looks_calm|]).
  unfold dispatch in H.
  destruct (frame_type frame), (frame_channel frame =? 0); cbn [negb] in H;
    first [ by apply (Hcalm _ (looks_ret _) H) | by eapply Hcalm; [|exact H] | idtac ].
  - by eapply spawn_ok.
  - eapply calm_ok; [by eapply kill_calm|done].
  - eapply calm_ok; [eapply input_calm; by left; eauto|done].
  - eapply calm_ok; [eapply input_calm; by right; eauto|done].
  - by eapply legacy_resize_ok.
  - by eapply sequenced_resize_ok.
Qed.

Lemma pump_account id c a r res :
  chan_ok id c a -> OutputRing.pump (pty_output (pty c)) res = Some r ->
  chan_ok id (mkChannel (with_output (pty c) r) (history c)) (event_account id a (EPump id res)).
Proof.
  intros [Hid Hrg Hch Hh Hp Hg Hd Ha Ho] Hpump.
  pose proof (OutputRing.pump_chunks _ _ _ Hch Hpump) as Hch'.
  apply OutputRing.pump_held in Hpump. cbn. rewrite Z.eqb_refl.
  destruct res; split; cbn; try done; rewrite Hpump, Hp; by rewrite ?app_nil_r, ?app_assoc.
Qed.

Lemma entry_account_after id acc ev es fs :
  (forall i res, ev <> EPump i res) -> entry_account id (acc id) (ev, es, fs) = after es fs acc id.
Proof. intros Hev. unfold entry_account. destruct ev; try done. by exfalso; eapply Hev. Qed.

Lemma visits_NoDup k order : visits k order -> NoDup order.
Proof. unfold visits. intros ->. apply NoDup_elements. Qed.

Lemma kstep_ok k ev k' es fs acc :
  map_ok (channels k) acc -> event_ok k ev -> kstep k ev = Some (k', es, fs) ->
  map_ok (channels k') (fun id => entry_account id (acc id) (ev, es, fs)).
Proof.
  intros Hok Hev H.
  assert (Hgo : (forall i res, ev <> EPump i res) -> map_ok (channels k') (after es fs acc) ->
    map_ok (channels k') (fun id => entry_account id (acc id) (ev, es, fs))).
  { intros Hne. apply map_ok_ext. intros id. by rewrite entry_account_after. }
  destruct ev as [w frame|order|order|w order| | |id res|id l]; cbn in H.
  - apply Hgo; [done|]. pose proof (handle_yields _ _ _ _ _ _ H) as Hy. unfold handle in H.
    destruct (dispatch w frame k) as [[[k1 e1] r1]|] eqn:E; [|done].
    eapply (map_ok_ext _ (after es [] acc)); [|eapply dispatch_ok; [done|]; by destruct r1; simplify_eq].
    intros i. unfold after. rewrite (quiet_frames_account _ _ fs); [done|].
    destruct Hy as [->|(f & -> & Hf)]; repeat constructor. by eapply answers_not_output.
  - apply Hgo; [done|]. unfold pass in H.
    destruct (drain_ok order Signal.DRAIN_LIMIT_BYTES [] k acc) as (k1 & fs1 & Hd & Hok1); [done|done|].
    rewrite Hd in H. by simplify_eq.
  - apply Hgo; [done|]. destruct (output_backlogged order k) as [[[k1 e1] r1]|] eqn:E; simplify_eq.
    eapply calm_ok; [by eapply backlogged_calm|done].
  - apply Hgo; [done|]. apply visits_NoDup in Hev.
    destruct (finished_spec w order [] k Hev) as (k1 & Hf & Hcalm).
    destruct (report_exits_ok (omap (finish_of w (channels k)) order) [] k1 acc) as (k2 & e2 & f2 & Hr & Hrep & _ & Hok2).
    { by apply (calm_ok _ _ [] acc Hcalm). }
    unfold pass, reap_exited, kbind in H. rewrite Hf in H. cbn [app] in *. rewrite Hr in H.
    simplify_eq. eapply map_ok_ext; [|exact Hok2]. intros i. unfold after.
    rewrite (quiet_frames_account _ _ fs); [done|].
    clear -Hrep. induction Hrep as [|e f l fs (Ht & _) _ IH]; constructor; [by rewrite Ht|done].
  - simplify_eq. apply Hgo; [done|]. exact Hok.
  - simplify_eq. apply Hgo; [done|]. exact Hok.
  - apply bind_Some in H as (c & Hc & H). apply bind_Some in H as (r & Hr & H). simplify_eq.
    pose proof (Hok id) as Hid. rewrite Hc in Hid.
    eapply map_ok_insert; [exact Hok| |by apply pump_account].
    intros i Hi. cbn. destruct res; try done. case_if; bool_to_prop; congruence.
  - apply bind_Some in H as (c & Hc & H). simplify_eq. apply Hgo; [done|].
    eapply map_ok_same; [|exact Hok]. eapply map_same_insert; [done|]. apply with_input_same.
Qed.

Lemma run_ok c epoch tr k :
  run c epoch tr k -> map_ok (channels k) (fun id => account_of id tr).
Proof.
  induction 1 as [|tr k ev k' es fs Hrun IH Hev Hstep].
  - intros id. cbn. by rewrite lookup_empty.
  - eapply map_ok_ext; [|eapply kstep_ok; [exact IH|exact Hev|exact Hstep]].
    intros id. unfold account_of. by rewrite foldl_app.
Qed.

End RunSteps.

(** ** A worked run of the keeper

    A concrete JSON codec, a concrete operating system and a concrete run, on
    which the keeper's theorems are evaluated: a spawn, output in two chunks, a
    drain, a resize and more output that is not drained yet. The codec writes
    integers as fixed-width bytes instead of JSON text; the theorems ask no
    more of it than [JsonLaws]. *)
Definition field16 (p : list byte) (from : nat) : option Z :=
  from_be_bytes <$> slice_get p from (from + 2).

Definition demo_shell : ShellSpec := default_login "/bin/sh".

#[global] Instance demo_json : Json := {
  parse_hello := fun p => Some (mkHelloRequest 3 "" ["acknowledged_input_v1"] None None);
  parse_spawn := fun p =>
    c ← field16 p 0; w ← field16 p 2; h ← field16 p 4; Some (mkSpawnRequest c w h demo_shell);
  parse_legacy_resize := fun p => w ← field16 p 0; h ← field16 p 2; Some (w, h);
  json_hello := fun _ => Ok [];
  json_list := fun l => Ok (concat (map (fun b => to_be_bytes 2 (binding_channel_id b)) l));
  json_spawn_ack := fun a => Ok (to_be_bytes 4 (ack_pid a));
  json_spawn_err := fun _ => Ok [];
  json_exit := fun e => Ok (match exit_code e with Some c => to_be_bytes 4 (u32 c) | None => [] end);
}.

Lemma field16_fits p from v : field16 p from = Some v -> fits 16 v.
Proof.
  unfold field16. intros (s & Hs & ->)%fmap_Some. apply slice_get_length in Hs.
  pose proof (from_be_bytes_fits s) as H. unfold len in H. rewrite Hs in H.
  replace (from + 2 - from)%nat with 2%nat in H by lia. done.
Qed.

#[global] Instance demo_laws : JsonLaws demo_json.
Proof.
  split.
  - intros p r H. cbn in H. apply bind_Some in H as (c & Hc & H).
    apply bind_Some in H as (w & Hw & H). apply bind_Some in H as (h & Hh & H). simplify_eq.
    split_and!; cbn; by eapply field16_fits.
  - intros p c r H. cbn in H. apply bind_Some in H as (w & Hw & H).
    apply bind_Some in H as (h & Hh & H). simplify_eq. split; by eapply field16_fits.
  - intros [[c|]]; eexists; (split; [reflexivity|]); rewrite ?len_to_be_bytes; done.
Qed.

(** Everything succeeds, and every child runs as process 4242. *)
Definition demo_world : World := mkWorld (fun _ _ => Ok tt) (fun _ => Ok tt) (fun _ => Ok (Some 4242))
  (Ok tt) (Ok tt) (Ok tt) (Ok tt) (fun _ => None) (fun _ _ _ => Ok tt) (fun _ => None) 100.

(** The same once every child has exited with code 0. *)
Definition exited_world : World := mkWorld (fun _ _ => Ok tt) (fun _ => Ok tt) (fun _ => Ok (Some 4242))
  (Ok tt) (Ok tt) (Ok tt) (Ok tt) (fun _ => Some 0) (fun _ _ _ => Ok tt) (fun _ => None) 100.

Definition demo_contract : KeeperContractV1 := mkContract 3 [] [] None "rust" "linux" "x86_64" "dev".

(** ** Evaluating a run *)

Fixpoint exec (k : Keeper) (evs : list event) : option (list entry * Keeper) :=
  match evs with
  | [] => Some ([], k)
  | ev :: evs =>
    '(k', es, fs) ← kstep k ev;
    '(tr, k'') ← exec k' evs;
    Some ((ev, es, fs) :: tr, k'')
  end.

Definition event_okb (k : Keeper) (ev : event) : bool :=
  match ev with
  | EDrain order | EBacklogged order | EReap _ order =>
    bool_decide (order ≡ₚ elements (dom (channels k)))
  | _ => true
  end.

Fixpoint exec_okb (k : Keeper) (evs : list event) : bool :=
  match evs with
  | [] => true
  | ev :: evs =>
    event_okb k ev && match kstep k ev with Some (k', _, _) => exec_okb k' evs | None => false end
  end.

Lemma exec_run c epoch tr k evs tr' k' :
  run c epoch tr k -> exec_okb k evs = true -> exec k evs = Some (tr', k') ->
  run c epoch (tr ++ tr') k'.
Proof.
  revert tr k tr'. induction evs as [|ev evs IH]; intros tr k tr' Hrun Hok H; cbn in Hok, H.
  - simplify_eq. by rewrite app_nil_r.
  - apply andb_true_iff in Hok as [Hev Hok].
    destruct (kstep k ev) as [[[k1 es] fs]|] eqn:Hs; [|done]. cbn in H.
    apply bind_Some in H as ([tr1 k2] & H1 & H). simplify_eq.
    rewrite cons_middle, app_assoc. eapply IH; [|done|done].
    eapply run_event; [done| |done].
    destruct ev; try done; cbn in *; by apply bool_decide_eq_true in Hev.
Qed.

Definition demo_start : Keeper := keeper_new demo_contract None.

Definition demo_events : list event :=
  [EHandle demo_world (mkMuxFrame Spawn 1 [Byte.x00; Byte.x01; Byte.x00; Byte.x50; Byte.x00; Byte.x18]);
   EPump 1 (OutputRing.ReadBytes [Byte.x61; Byte.x62]);
   EPump 1 (OutputRing.ReadBytes [Byte.x63]);
   EDrain [1];
   EHandle demo_world (mkMuxFrame ResizeRequest 1
     (to_be_bytes 8 7 ++ to_be_bytes 4 100 ++ to_be_bytes 4 30));
   EPump 1 (OutputRing.ReadBytes [Byte.x64])].

Definition demo_result : list entry * Keeper := default ([], demo_start) (exec demo_start demo_events).
Definition demo_keeper : Keeper := snd demo_result.
Definition demo_channel : Channel :=
  default (mkChannel (mkPty 0 OutputRing.new (lane_start 0) None 0 0 0) (history_new 0 0))
    (channels demo_keeper !! 1).

Lemma demo_run : run demo_contract None (fst demo_result) demo_keeper.
Proof.
  apply (exec_run demo_contract None [] demo_start demo_events); [constructor| |].
  - vm_compute. done.
  - vm_compute. done.
Qed.
