(* ===== verification/KeeperGuarantees.v ===== *)
(** * What the keeper guarantees its worker

    The properties of the keeper over every run of [KeeperRun.v]: the exactness
    of its history answer, the completeness of output before an exit is
    reported, the agreement of geometries, the answer every request gets, and
    the per-branch behaviour of the resize and input handlers. *)
From stdpp Require Import sorting.
From S2P Require Import Prelude KeeperCodec KeeperPayloads KeeperHistory KeeperHistoryCodec.
From S2P Require Import KeeperOutput KeeperInput Keeper KeeperRun.

Section Guarantees.
Context `{J : Json} {JL : JsonLaws J}.

(** ** Lemmas *)

Lemma output_total_outputs ops : output_total ops = len (outputs ops).
Proof.
  induction ops as [|[bytes|q c r] ops IH]; cbn [output_total outputs]; [done| |done].
  rewrite len_app. lia.
Qed.

Lemma stream_bytes g ops bs :
  map fst (fst (stream_ops (bs, g) ops)) = map fst bs ++ outputs ops.
Proof.
  revert g bs. induction ops as [|[bytes|q c r] ops IH]; intros g bs; cbn [outputs].
  - cbn. by rewrite app_nil_r.
  - cbn [stream_ops foldl stream_op]. unfold stream_ops in IH. cbn [fst snd].
    rewrite IH, map_app, map_map, <- app_assoc. cbn. by rewrite map_id.
  - cbn [stream_ops foldl stream_op]. unfold stream_ops in IH. by rewrite IH.
Qed.

(** The stream a channel's account amounts to. *)
Definition account_stream (a : account) : stream :=
  stream_ops ([], default (80, 24) (born a)) (oplog a).

(** A live channel's history is a window onto its account's stream. *)
Lemma live_window id ch a :
  chan_ok id ch a -> len (outputs (oplog a)) < 2 ^ 64 ->
  window_of (history ch) (account_stream a) /\
  ring_cap (history ch) = KEEPER_RING_CAP_BYTES /\
  max_resizes (history ch) = KEEPER_MAX_HISTORY_RESIZE_RECORDS.
Proof.
  intros [_ _ _ (c0 & r0 & Hb & Hc0 & Hr0 & Hh) _ _ _ _ _] Hlen.
  unfold account_stream. rewrite Hb. cbn [default]. rewrite Hh. split.
  - apply run_ops_window; [by apply with_limits_window|].
    cbn [fst]. rewrite len_nil, output_total_outputs. lia.
  - destruct (run_ops_limits (history_new c0 r0) (oplog a)) as [-> ->]. done.
Qed.

(** Every resize sequence applied is one a JavaScript number holds exactly. *)
Definition exact_sequences (ops : list hist_op) : Prop :=
  Forall (fun op => match op with OpResize seq _ _ => seq <= MAX_SAFE_INTEGER | _ => True end) ops.

Lemma live_sound limit id ch a :
  chan_ok id ch a -> 0 <= limit ->
  Forall (fun op => match op with OpResize seq _ _ => seq <= limit | _ => True end) (oplog a) ->
  history_sound limit (history ch).
Proof.
  intros [_ _ _ (c0 & r0 & Hb & Hc0 & Hr0 & ->) _ _ _ _ Ho] Hl Hseq.
  apply run_ops_sound; [|done|].
  - split_and!; cbn; done || constructor.
  - apply Forall_forall. intros op Hin. rewrite Forall_forall in Ho, Hseq.
    specialize (Ho op Hin). specialize (Hseq op Hin). destruct op; [done|].
    destruct Ho as (Hf & ? & ?). unfold fits in Hf. split_and!; [lia|lia|done|done].
Qed.

(** Every sequence a channel applied is a 64-bit one. *)
Lemma live_typed id ch a : chan_ok id ch a -> history_sound (2 ^ 64 - 1) (history ch).
Proof.
  intros Hok. apply (live_sound _ id ch a Hok); [lia|]. destruct Hok as [_ _ _ _ _ _ _ _ Ho].
  eapply Forall_impl; [exact Ho|]. intros [bytes|seq c r]; [done|]. intros (Hf & _). unfold fits in Hf. cbn. lia.
Qed.

Lemma live_chan c epoch tr k id ch :
  run c epoch tr k -> channels k !! id = Some ch -> chan_ok id ch (account_of id tr).
Proof. intros Hrun Hc. pose proof (run_ok _ _ _ _ Hrun id) as H. by rewrite Hc in H. Qed.

Lemma account_stream_len a : len (fst (account_stream a)) = len (outputs (oplog a)).
Proof. unfold account_stream. rewrite stream_ops_total, output_total_outputs. cbn [fst]. by rewrite len_nil, Z.add_0_l. Qed.

Lemma dispatch_channel w id t p k (m : KM (list MuxFrame)) k' es fs :
  dispatch w (mkMuxFrame t id p) = m -> m k = Some (k', es, Ok fs) ->
  handle w k (mkMuxFrame t id p) = Some (k', es, fs).
Proof. intros Hd Hm. unfold handle. by rewrite Hd, Hm. Qed.

Lemma per_channel id : 0 < id -> id =? 0 = false.
Proof. intros. apply Z.eqb_neq. lia. Qed.

Lemma MuxFrame_new_Ok t id p :
  len p <= KEEPER_MAX_MUX_FRAME_BYTES -> MuxFrame_new t id p = Ok (mkMuxFrame t id p).
Proof. intros H. unfold MuxFrame_new. by rewrite (proj2 (Z.ltb_ge _ _) H). Qed.

(** ** Properties *)

(** C1: A history answer is an exact boundary of the connection's output. At any
    point of any run, while a live channel's output since its spawn is below
    the largest exact counter, the keeper answers [GetHistoryRecords] with
    exactly one frame whose payload decodes; the head it carries is the number of
    output bytes framed to the worker since the spawn; its records replay to the
    newest of exactly those bytes, each at the geometry the PTY had, and end at
    its present geometry; and nothing the PTY produced is missing from the head
    but what the channel's ring still holds.  The only other outcome is that no
    frame answers and nothing changes, and it needs that the channel applied a
    resize sequence past the largest exact counter. *)
Theorem history_answer_exact c epoch tr k id ch p w :
  run c epoch tr k -> channels k !! id = Some ch ->
  let a := account_of id tr in
  len (outputs (oplog a)) <= MAX_SAFE_INTEGER ->
  let request := mkMuxFrame GetHistoryRecords id p in
  (exists payload hr,
     handle w k request = Some (k, [], [mkMuxFrame GetHistoryRecordsResp id payload]) /\
     history_decode payload = Ok hr /\
     hr_head_seq hr = len (outputs (oplog a)) /\
     replay (hr_base_cols hr, hr_base_rows hr) (hr_records hr)
       = (drop (Z.to_nat (len (outputs (oplog a)) - retained_bytes (history ch))) (fst (account_stream a)),
          snd (account_stream a)) /\
     map fst (fst (account_stream a)) = outputs (oplog a) /\
     produced a = outputs (oplog a) ++ OutputRing.held (pty_output (pty ch)))
  \/ (handle w k request = Some (k, [], []) /\ ~ exact_sequences (oplog a)).
Proof.
  intros Hrun Hc a Hlen request. pose proof (live_chan _ _ _ _ _ _ Hrun Hc) as Hok. fold a in Hok.
  destruct (live_window id ch a Hok) as ((Hwf & Hhead & Hgeom & Hcont) & Hcap & Hmax);
    [unfold MAX_SAFE_INTEGER in Hlen; lia|].
  rewrite account_stream_len in Hhead.
  destruct (ordered_spec (history ch) Hwf) as (hr & Ho & Hhr & Hbase & Hrep & _).
  assert (Hd : dispatch w request = history_records request).
  { unfold dispatch. cbn [frame_type frame_channel request]. by rewrite per_channel by apply Hok. }
  destruct (history_encode hr) as [payload|e] eqn:He.
  - left. apply history_encode_inv in He as [Hv ->];
      [|by eapply ordered_typed; [exact Hwf|by apply (live_typed id ch a)|]].
    exists (header hr ++ records_bytes (hr_records hr)), hr. split_and!.
    + eapply dispatch_channel; [exact Hd|].
      unfold history_records, kbind, kget, klift, kret, ordered_history. cbn [frame_channel request].
      rewrite Hc, Ho, history_encode_valid by done. rewrite MuxFrame_new_Ok; [done|].
      pose proof (hv_size hr Hv) as Hs. rewrite len_app. unfold len at 1. rewrite length_header.
      unfold MAX_HISTORY_PAYLOAD_BYTES, KEEPER_MAX_MUX_FRAME_BYTES in *. lia.
    + by apply history_decode_valid.
    + congruence.
    + rewrite Hbase, Hrep, Hcont, Hgeom. unfold retained_from, retained_bytes. by rewrite Hhead.
    + unfold account_stream. by rewrite stream_bytes.
    + apply Hok.
  - right. split.
    + unfold handle. rewrite Hd. unfold history_records, kbind, kget, klift, ordered_history.
      cbn [frame_channel request]. by rewrite Hc, Ho, He.
    + intros Hseq. assert (Hv : history_valid hr); [|by rewrite history_encode_valid in He].
      eapply ordered_valid; eauto; [|lia]. by apply (live_sound _ id ch a).
Qed.

(** ** The reap *)

Lemma finish_of_id w m id e : finish_of w m id = Some e -> e.1 = id.
Proof.
  unfold finish_of. intros (c & _ & (st & _ & H)%bind_Some)%bind_Some. by case_match; simplify_eq.
Qed.

Lemma omap_finish_ids w m order id :
  id ∈ map fst (omap (finish_of w m) order) <-> id ∈ order /\ is_Some (finish_of w m id).
Proof.
  rewrite list_elem_of_fmap. split.
  - intros (e & -> & (i & Hi & He)%list_elem_of_omap). rewrite (finish_of_id _ _ _ _ He). by split.
  - intros [Hi [e He]]. exists e. split; [by rewrite (finish_of_id _ _ _ _ He)|].
    apply list_elem_of_omap. eauto.
Qed.

Lemma omap_finish_NoDup w m order : NoDup order -> NoDup (map fst (omap (finish_of w m) order)).
Proof.
  induction 1 as [|id order Hid Hnd IH]; [constructor|]. cbn.
  destruct (finish_of w m id) as [e|] eqn:He; [|done]. cbn. constructor; [|done].
  rewrite (finish_of_id _ _ _ _ He), omap_finish_ids. by intros [? _].
Qed.

Lemma reports_channels l fs : Forall2 reports l fs -> map frame_channel fs = map fst l.
Proof. induction 1 as [|e f l fs (_ & Hc & _) _ IH]; cbn; congruence. Qed.

Lemma drop_all_lookup l m id :
  (id ∈ map fst l -> drop_all l m !! id = None) /\ (id ∉ map fst l -> drop_all l m !! id = m !! id).
Proof.
  revert m. induction l as [|e l IH]; intros m; [split; cbn; set_solver|].
  change (drop_all (e :: l) m) with (drop_all l (delete e.1 m)). cbn [map].
  destruct (IH (delete e.1 m)) as [H1 H2].
  destruct (decide (id ∈ map fst l)) as [Hin|Hin]; [split; [auto|set_solver]|].
  rewrite H2 by done. split; intros H.
  - assert (id = e.1) as -> by set_solver. apply lookup_delete_eq.
  - apply lookup_delete_ne. set_solver.
Qed.

Lemma finish_of_live w m acc id :
  map_ok m acc ->
  is_Some (finish_of w m id) <-> exists ch, m !! id = Some ch /\
    is_Some (try_wait w id) /\ OutputRing.sender_alive (pty_output (pty ch)) = false /\
    OutputRing.held (pty_output (pty ch)) = [].
Proof.
  intros Hok. unfold finish_of. pose proof (Hok id) as Hid.
  destruct (m !! id) as [ch|]; cbn; [|split; [by intros []|by intros (? & ? & _)]].
  pose proof (OutputRing.is_eof_spec _ (ok_chunks _ _ _ Hid)) as Heof. rewrite (ok_id _ _ _ Hid).
  destruct (try_wait w id); cbn; [|split; [by intros []|by intros (? & _ & [] & _)]].
  destruct (snd (OutputRing.is_eof _)); split.
  - intros _. exists ch. naive_solver.
  - by eexists.
  - by intros [].
  - intros (ch' & ? & _ & ? & ?). simplify_eq. by destruct Heof as [_ Heof]; discriminate Heof.
Qed.

Lemma finish_of_status w m acc id e :
  map_ok m acc -> finish_of w m id = Some e -> try_wait w id = Some e.2.
Proof.
  unfold finish_of. intros Hok H. apply bind_Some in H as (ch & Hl & H).
  pose proof (Hok id) as Hid. rewrite Hl in Hid. rewrite (ok_id _ _ _ Hid) in H.
  apply bind_Some in H as (st & Hst & H). by case_match; simplify_eq.
Qed.

(** C2: A channel's exit is reported exactly once, exactly when its child exited
    and its output ended, and only after every byte it produced was framed to
    the worker. In any run, one reap reports precisely the channels whose child
    exited, whose reader let go and whose ring is empty, each in one [Exit]
    frame with the status the system gave; it drops those channels and no
    other; and the output framed for a reported channel since its spawn is all
    that its PTY produced. *)
Theorem exit_after_last_byte c epoch tr k w order :
  run c epoch tr k -> visits k order ->
  exists k' es fs, kstep k (EReap w order) = Some (k', es, fs) /\
    NoDup (map frame_channel fs) /\
    (forall f, f ∈ fs -> frame_type f = Exit /\ exists status,
       try_wait w (frame_channel f) = Some status /\
       json_exit (mkExitFrame (Some (as_i32 status))) = Ok (frame_payload f)) /\
    forall id,
      (id ∈ map frame_channel fs <-> exists ch, channels k !! id = Some ch /\
         is_Some (try_wait w id) /\ OutputRing.sender_alive (pty_output (pty ch)) = false /\
         OutputRing.held (pty_output (pty ch)) = []) /\
      (id ∈ map frame_channel fs -> channels k' !! id = None /\
         produced (account_of id tr) = outputs (oplog (account_of id tr))) /\
      (id ∉ map frame_channel fs -> (is_Some (channels k' !! id) <-> is_Some (channels k !! id))).
Proof.
  intros Hrun Hv. pose proof (run_ok _ _ _ _ Hrun) as Hok. pose proof (visits_NoDup _ _ Hv) as Hnd.
  destruct (finished_spec w order [] k Hnd) as (k1 & Hf & Hcalm).
  pose proof (calm_ok _ _ [] _ Hcalm Hok) as Hok1.
  destruct (report_exits_ok (omap (finish_of w (channels k)) order) [] k1 _ Hok1)
    as (k2 & e2 & f2 & Hr & Hrep & Hch & _).
  exists k2, e2, f2. pose proof (reports_channels _ _ Hrep) as Hids.
  assert (Hin : forall id, id ∈ map frame_channel f2 <-> is_Some (finish_of w (channels k) id)).
  { intros id. rewrite Hids, omap_finish_ids. split; [by intros [_ ?]|]. intros Hid. split; [|done].
    unfold visits in Hv. rewrite Hv, elem_of_elements, elem_of_dom.
    apply (finish_of_live _ _ _ _ Hok) in Hid as (ch & -> & _). by eexists. }
  split_and!.
  - unfold kstep, pass, reap_exited, kbind. rewrite Hf. cbn [app]. by rewrite Hr.
  - rewrite Hids. by apply omap_finish_NoDup.
  - intros f [n Hn]%list_elem_of_lookup.
    destruct (Forall2_lookup_r _ _ _ _ _ Hrep Hn) as (e & He%list_elem_of_lookup_2 & Ht & Hc & Hj).
    split; [done|]. exists e.2. split; [|done]. rewrite Hc.
    apply list_elem_of_omap in He as (i & _ & Hi). pose proof (finish_of_id _ _ _ _ Hi) as ->.
    exact (finish_of_status _ _ _ _ _ Hok Hi).
  - intros id. split; [rewrite Hin; by eapply finish_of_live|]. rewrite Hch.
    destruct (drop_all_lookup (omap (finish_of w (channels k)) order) (channels k1) id) as [Hd1 Hd2].
    rewrite Hids in *. split.
    + intros Hid. split; [by apply Hd1|]. apply Hin, (finish_of_live _ _ _ _ Hok) in Hid as (ch & Hl & _ & _ & Hh).
      pose proof (Hok id) as Hc. rewrite Hl in Hc. by rewrite (ok_produced _ _ _ Hc), Hh, app_nil_r.
    + intros Hid. rewrite Hd2 by done. destruct Hcalm as [Hs _]. specialize (Hs id).
      destruct (channels k !! id), (channels k1 !! id); try done; by split; intros [].
Qed.

(** ** Every frame is handled *)

Definition never_panics {A} (m : KM A) : Prop := forall k, is_Some (m k).

Lemma np_bind {A B} (m : KM A) (f : A -> KM B) :
  never_panics m -> (forall a, never_panics (f a)) -> never_panics (kbind m f).
Proof.
  intros Hm Hf k. unfold kbind. destruct (Hm k) as [[[k1 e1] [a|err]] ->]; [|done].
  by destruct (Hf a k1) as [[[k2 e2] r] ->].
Qed.

Lemma np_parse {A} (o : option A) name : never_panics (kparse o name).
Proof. intros k. destruct o; by eexists. Qed.

Ltac np_tac :=
  repeat (first
    [ apply np_bind; [|intros ?]
    | apply np_parse
    | case_match
    | by (intros ?; eexists; reflexivity) ]).

Lemma dispatch_total w frame :
  frame_type frame <> GetHistoryRecords -> never_panics (dispatch w frame).
Proof.
  intros Hne. unfold dispatch.
  destruct (frame_type frame), (frame_channel frame =? 0); cbn [negb]; try congruence;
    unfold simple_frame, answer_hello, list_channels, shutdown_if_empty, spawn, replace_existing,
      legacy_input, sequenced_input, legacy_resize, sequenced_resize, resize_status, resize_ack,
      terminal_state, legacy_history_resp, kill_child, put_pty; np_tac.
Qed.

(** No live channel has emitted 2^64 bytes since its spawn. *)
Definition small_output (k : Keeper) (tr : list entry) : Prop :=
  forall id ch, channels k !! id = Some ch -> len (outputs (oplog (account_of id tr))) < 2 ^ 64.

Lemma history_total c epoch tr k frame w :
  run c epoch tr k -> small_output k tr ->
  frame_type frame = GetHistoryRecords -> is_Some (dispatch w frame k).
Proof.
  intros Hrun Hlen Ht. unfold dispatch. rewrite Ht.
  destruct (frame_channel frame =? 0); cbn [negb]; [by eexists|].
  unfold history_records, ordered_history, kbind, kget, klift, kret.
  destruct (channels k !! frame_channel frame) as [ch|] eqn:Hc.
  - destruct (live_window _ _ _ (live_chan _ _ _ _ _ _ Hrun Hc) (Hlen _ _ Hc)) as ((Hwf & _) & _).
    destruct (ordered_spec _ Hwf) as (hr & -> & _). repeat case_match; simplify_eq; by eexists.
  - repeat case_match; simplify_eq; by eexists.
Qed.

(** C4: Every frame is handled and answered from the protocol's table. At any
    point of any run, while no live channel has emitted 2^64 bytes since its spawn,
    no frame whatsoever panics the keeper; the reply is at most one frame, of
    a type that answers the request's, on the request's own lane (a spawn is
    answered on the channel its payload names); and a malformed sequenced input
    is still refused, with the sequence 0. *)
Theorem handle_answers c epoch tr k w frame :
  run c epoch tr k -> small_output k tr ->
  exists k' es fs, handle w k frame = Some (k', es, fs) /\
    at_most_one (answers frame) fs /\
    (frame_type frame = PtyInRequest -> 0 < frame_channel frame ->
     is_ok (PtyInRequest_decode (frame_payload frame) "PtyInRequest") = false ->
     exists f, fs = [f] /\ PtyInResult_decode PtyInReject (frame_payload f) = Some (Reject 0 NoSuchChannel)).
Proof.
  intros Hrun Hlen.
  assert (is_Some (dispatch w frame k)) as [[[k1 es] r] Hd].
  { destruct (decide (frame_type frame = GetHistoryRecords)); [by eapply history_total|].
    by apply dispatch_total. }
  assert (exists fs, handle w k frame = Some (k1, es, fs)) as [fs Hh].
  { unfold handle. rewrite Hd. destruct r; eauto. }
  exists k1, es, fs. split_and!; [done|by eapply handle_yields|].
  intros Ht Hc Hbad. unfold handle in Hh. unfold dispatch in Hh. rewrite Ht, per_channel in Hh by done.
  cbn [negb] in Hh. unfold sequenced_input, kbind, klift in Hh.
  destruct (PtyInRequest_decode _ _); [done|]. simplify_eq.
  unfold reject, result_frame. rewrite Ht, result_frame_Ok. eexists. split; [done|]. by vm_compute.
Qed.

(** ** Geometry *)

Lemma stream_geometry ops h bs :
  current_geom (run_ops h ops) = snd (stream_ops (bs, current_geom h) ops).
Proof.
  revert bs h. induction ops as [|op ops IH]; intros bs h; [done|].
  cbn [run_ops stream_ops foldl]. unfold run_ops, stream_ops in IH. rewrite (IH (fst (stream_op (bs, current_geom h) op))).
  destruct op as [bytes|seq cols rows]; cbn [run_op stream_op fst snd];
    by rewrite ?current_geom_output, ?current_geom_resize.
Qed.

(** The keeper's geometry is the PTY's. For every live channel of every run,
    the state the keeper answers questions with is a valid geometry, it is the
    one the last successful spawn or resize of that PTY set, and the channel's
    history ends at it; and [GetTerminalState] is answered with one frame that
    decodes to exactly that state. *)
Theorem geometry_agreement c epoch tr k id ch p w :
  run c epoch tr k -> channels k !! id = Some ch ->
  let st := state_of k id in
  dimension_ok (state_cols st) /\ dimension_ok (state_rows st) /\
  (state_cols st, state_rows st) = snd (account_stream (account_of id tr)) /\
  (state_cols st, state_rows st) = current_geom (history ch) /\
  exists f, handle w k (mkMuxFrame GetTerminalState id p) = Some (k, [], [f]) /\
    frame_type f = GetTerminalStateResp /\ frame_channel f = id /\
    TerminalState_decode (frame_payload f) = Ok st.
Proof.
  intros Hrun Hc st. pose proof (live_chan _ _ _ _ _ _ Hrun Hc) as Hok.
  assert (Hst : st = pty_terminal_state (pty ch)) by (unfold st, state_of; by rewrite Hc).
  destruct (ok_dims _ _ _ Hok) as [Hdc Hdr]. pose proof (ok_geometry _ _ _ Hok) as Hg.
  split_and!; rewrite ?Hst; cbn; try done.
  - destruct (ok_history _ _ _ Hok) as (c0 & r0 & Hb & _ & _ & Hh). rewrite Hg, Hh.
    unfold account_stream. rewrite Hb. apply (stream_geometry (oplog (account_of id tr)) (history_new c0 r0)).
  - destruct (ResizeRequest_roundtrip (mkResizeRequest (pty_applied_seq (pty ch)) (pty_cols (pty ch))
      (pty_rows (pty ch))) "terminal state") as (bytes & He & Hd).
    { split; [apply Hok|done]. }
    exists (mkMuxFrame GetTerminalStateResp id bytes). split_and!; try done.
    + eapply (dispatch_channel w id GetTerminalState p k (terminal_state (mkMuxFrame GetTerminalState id p))).
      { unfold dispatch. cbn [frame_type frame_channel]. by rewrite per_channel by apply Hok. }
      unfold terminal_state, kbind, kget, klift, kret, state_of. cbn [frame_channel]. rewrite Hc.
      unfold TerminalState_encode. cbn [pty_terminal_state applied_seq state_cols state_rows].
      rewrite He, MuxFrame_new_Ok; [done|].
      unfold ResizeRequest_encode in He. cbn [resize_cols resize_rows resize_seq] in He.
      rewrite !check_dimension_Ok in He by done. simplify_eq. unfold write_sequence.
      autorewrite with lens. unfold KEEPER_MAX_MUX_FRAME_BYTES. lia.
    + cbn [frame_payload]. unfold TerminalState_decode. by rewrite Hd.
Qed.

(** ** Sequenced resizes *)

(** [f] acknowledges that the channel is in state [st]. *)
Definition is_ack (f : MuxFrame) (id : Z) (st : TerminalState) : Prop :=
  frame_type f = ResizeAck /\ frame_channel f = id /\
  ResizeRequest_decode (frame_payload f) "ResizeAck"
    = Ok (mkResizeRequest (applied_seq st) (state_cols st) (state_rows st)).

(** [f] refuses the resize of sequence [seq]. *)
Definition is_refusal (f : MuxFrame) (id seq : Z) : Prop :=
  frame_type f = ResizeReject /\ frame_channel f = id /\
  read_sequence (frame_payload f) 0 = Some seq.

Lemma resize_ack_spec id st k :
  fits 64 (applied_seq st) -> dimension_ok (state_cols st) -> dimension_ok (state_rows st) ->
  exists f, resize_ack id st k = Some (k, [], Ok [f]) /\ is_ack f id st.
Proof.
  intros Hs Hc Hr.
  destruct (ResizeRequest_roundtrip (mkResizeRequest (applied_seq st) (state_cols st) (state_rows st))
    "ResizeAck") as (bytes & He & Hd); [by split|].
  exists (mkMuxFrame ResizeAck id bytes). split; [|by split].
  unfold resize_ack, kbind, klift, kret. rewrite He, MuxFrame_new_Ok; [done|].
  unfold ResizeRequest_encode in He. cbn [resize_cols resize_rows resize_seq] in He.
  rewrite !check_dimension_Ok in He by done. simplify_eq. unfold write_sequence.
  autorewrite with lens. unfold KEEPER_MAX_MUX_FRAME_BYTES. lia.
Qed.

Lemma resize_reject_spec id seq :
  fits 64 seq -> exists f, resize_reject id seq 1 = Ok f /\ is_refusal f id seq.
Proof.
  intros Hs. unfold resize_reject. rewrite MuxFrame_new_Ok.
  - eexists. split; [done|]. split_and!; try done. cbn [frame_payload]. unfold write_sequence. cbn [app].
    by apply read_sequence_head.
  - unfold write_sequence. autorewrite with lens. unfold KEEPER_MAX_MUX_FRAME_BYTES. lia.
Qed.

(** Unfolds a dispatched resize up to the lookup of its channel. *)
Ltac resize_tac Hdisp Hd :=
  eapply dispatch_channel; [exact Hdisp|];
  unfold sequenced_resize, put_pty, kbind, klift, kget, kret, kchannels, kemit;
  cbn [frame_payload frame_channel]; rewrite Hd; cbn beta iota.

(** What a sequenced resize of a live channel must do. *)
Definition resize_outcome (w : World) (k k' : Keeper) (es : list effect) (id : Z) (f : MuxFrame)
    (req : ResizeRequestP) : Prop :=
  let st := state_of k id in
  if resize_seq req <=? applied_seq st
  then es = [] /\ channels k' !! id = channels k !! id /\ is_ack f id st
  else match resize_master_pty w id (resize_cols req) (resize_rows req) with
  | Ok _ =>
    let st' := mkTerminalState (resize_seq req) (resize_cols req) (resize_rows req) in
    es = [Resized id (resize_seq req) (resize_cols req) (resize_rows req)] /\
    state_of k' id = st' /\ is_ack f id st' /\
    history <$> channels k' !! id =
      (fun c => record_resize (history c) (resize_seq req) (resize_cols req) (resize_rows req))
        <$> channels k !! id
  | Err _ => es = [] /\ channels k' !! id = channels k !! id /\ is_refusal f id (resize_seq req)
  end.

Lemma sequenced_resize_cases c epoch tr k id req payload w :
  run c epoch tr k -> 0 < id -> resize_wire_ok req -> ResizeRequest_encode req = Ok payload ->
  exists k' es f, handle w k (mkMuxFrame ResizeRequest id payload) = Some (k', es, [f]) /\
    (forall i, i <> id -> channels k' !! i = channels k !! i) /\
    match channels k !! id with
    | None => k' = k /\ es = [] /\ is_refusal f id (resize_seq req)
    | Some _ => resize_outcome w k k' es id f req
    end.
Proof.
  intros Hrun Hid Hreq Henc. destruct Hreq as (Hs & Hdc & Hdr).
  destruct (ResizeRequest_roundtrip req "ResizeRequest") as (bytes & He & Hd); [by split|].
  rewrite Henc in He. simplify_eq. destruct (resize_reject_spec id _ Hs) as (rf & Hrf & Hrefusal).
  assert (Hdisp : dispatch w (mkMuxFrame ResizeRequest id bytes)
    = sequenced_resize w (mkMuxFrame ResizeRequest id bytes)).
  { unfold dispatch. cbn [frame_type frame_channel]. by rewrite per_channel. }
  unfold resize_outcome, state_of. destruct (channels k !! id) as [ch|] eqn:Hc.
  2: { exists k, [], rf. split; [|done]. resize_tac Hdisp Hd. by rewrite Hc, Hrf. }
  pose proof (live_chan _ _ _ _ _ _ Hrun Hc) as Hok. destruct (ok_dims _ _ _ Hok) as [Hd1 Hd2].
  pose proof (ok_applied _ _ _ Hok) as Happ. cbn [pty_terminal_state applied_seq].
  assert (Hother : forall c i, i <> id ->
    channels (set_channels k (<[id := c]> (channels k))) !! i = channels k !! i)
    by (intros; cbn; by rewrite lookup_insert_ne).
  destruct (resize_seq req <=? pty_applied_seq (pty ch)) eqn:Hle.
  - assert (Hlt : pty_applied_seq (pty ch) <? resize_seq req = false) by (bool_to_prop; apply Z.ltb_ge; lia).
    destruct (resize_ack_spec id (pty_terminal_state (pty ch))
      (set_channels k (<[id := mkChannel (pty ch) (history ch)]> (channels k)))) as (f & Hf & Hack); [done..|].
    eexists _, _, f. split; [|split; [by apply Hother|]].
    + resize_tac Hdisp Hd. rewrite Hc. unfold apply_resize. rewrite Hle, Hlt. cbn [andb]. by rewrite Hf.
    + split_and!; [done| |done]. cbn. rewrite lookup_insert_eq. by destruct ch.
  - assert (Hlt : pty_applied_seq (pty ch) <? resize_seq req = true) by (bool_to_prop; apply Z.ltb_lt; lia).
    assert (Hz : (resize_cols req =? 0) || (resize_rows req =? 0) = false).
    { unfold dimension_ok in Hdc, Hdr. apply orb_false_iff. split; apply Z.eqb_neq; lia. }
    destruct (resize_master_pty w id (resize_cols req) (resize_rows req)) as [u|e] eqn:Hos.
    + set (p' := with_applied (with_geometry (pty ch) (resize_cols req) (resize_rows req)) (resize_seq req)).
      destruct (resize_ack_spec id (pty_terminal_state p') (set_channels k (<[id := mkChannel p'
        (record_resize (history ch) (resize_seq req) (resize_cols req) (resize_rows req))]> (channels k))))
        as (f & Hf & Hack); [done..|].
      eexists _, _, f. split; [|split; [by apply Hother|]].
      * resize_tac Hdisp Hd. rewrite Hc. unfold apply_resize, resize_master.
        rewrite Hle, Hz, (ok_id _ _ _ Hok), Hos. cbn [map_pty]. fold p'.
        change (applied_seq (pty_terminal_state p')) with (resize_seq req).
        change (state_cols (pty_terminal_state p')) with (resize_cols req).
        change (state_rows (pty_terminal_state p')) with (resize_rows req).
        rewrite Hlt, Z.eqb_refl. cbn [andb]. by rewrite Hf.
      * cbn. by rewrite lookup_insert_eq.
    + eexists _, _, rf. split; [|split; [by apply Hother|]].
      * resize_tac Hdisp Hd. rewrite Hc. unfold apply_resize, resize_master.
        rewrite Hle, Hz, (ok_id _ _ _ Hok), Hos. cbn [map_pty]. by rewrite Hrf.
      * split_and!; [done| |done]. cbn. rewrite lookup_insert_eq. by destruct ch.
Qed.

(** A sequenced resize is applied once, in order, and always answered. Every
    [ResizeRequest] the wire carries gets exactly one frame, on its channel. On
    a channel the keeper does not hold, the refusal names the request's
    sequence. On a live channel of any run: a sequence at or below the applied
    one changes nothing and is acknowledged with the state in force, so a
    retry after a lost ack cannot move the terminal backwards; a newer one the
    PTY took becomes the state, the history's next marker and the ack; one
    the PTY refused changes nothing and the refusal names it. No other
    channel is touched. *)
Theorem sequenced_resize_spec c epoch tr k id req payload w :
  run c epoch tr k -> 0 < id -> resize_wire_ok req -> ResizeRequest_encode req = Ok payload ->
  exists k' es f, handle w k (mkMuxFrame ResizeRequest id payload) = Some (k', es, [f]) /\
    (forall i, i <> id -> channels k' !! i = channels k !! i) /\
    match channels k !! id with
    | None => k' = k /\ es = [] /\ is_refusal f id (resize_seq req)
    | Some _ => resize_outcome w k k' es id f req
    end.
Proof. apply sequenced_resize_cases. Qed.

(** ** Sequenced input *)

(** The input lane of a channel. *)
Definition lane_of (k : Keeper) (id : Z) : option Lane := (fun c => pty_input (pty c)) <$> channels k !! id.

(** The lane's budget for one more batch of so many bytes. *)
Definition has_room (l : Lane) (bytes : list byte) : Prop :=
  len (lane_queue l) + (if writing l then 1 else 0) < KEEPER_INPUT_QUEUE_MAX_COMMANDS /\
  held_bytes l + len bytes <= KEEPER_INPUT_QUEUE_MAX_BYTES.

Lemma enqueue_spec l bytes reply :
  (has_room l bytes /\ snd (enqueue l bytes reply) = true /\
   lane_queue (fst (enqueue l bytes reply)) = lane_queue l ++ [mkBatch bytes reply]) \/
  (~ has_room l bytes /\ enqueue l bytes reply = (l, false)).
Proof.
  unfold enqueue, has_room. destruct (_ || _) eqn:E; [right|left].
  - split; [|done]. apply orb_true_iff in E as [E|E]; bool_to_prop; lia.
  - bool_to_prop. split; [lia|done].
Qed.

(** [fs] is the one frame that refuses input [seq] for [reason]. *)
Definition input_refused (fs : list MuxFrame) (id seq : Z) (reason : PtyInRejectReason) : Prop :=
  exists f, fs = [f] /\ frame_type f = PtyInReject /\ frame_channel f = id /\
    PtyInResult_decode PtyInReject (frame_payload f) = Some (Reject seq reason).

Lemma reject_frame_spec id seq reason :
  fits 64 seq -> exists f, result_frame PtyInReject id (Reject seq reason) = Ok f /\
    input_refused [f] id seq reason.
Proof.
  intros Hs. unfold result_frame. rewrite result_frame_Ok. eexists. split; [done|].
  eexists. split_and!; [done..|]. by apply (PtyInResult_roundtrip (Reject seq reason)).
Qed.

Lemma input_dispatch w id p : 0 < id ->
  dispatch w (mkMuxFrame PtyInRequest id p) = sequenced_input w (mkMuxFrame PtyInRequest id p).
Proof. intros. unfold dispatch. cbn [frame_type frame_channel]. by rewrite per_channel. Qed.

(** Sequenced input is either queued, once, behind everything queued before
    it and owed to the connection attached now, with no answer yet; or refused,
    with nothing queued and exactly one frame that names its sequence and the
    true reason: no such channel, an exited child, or a spent budget of 200
    commands or 256 KiB. *)
Theorem sequenced_input_spec c epoch tr k id req w :
  run c epoch tr k -> 0 < id -> fits 64 (input_seq req) ->
  len (input_bytes req) <= KEEPER_MAX_INPUT_BYTES ->
  exists k' fs,
    handle w k (mkMuxFrame PtyInRequest id (PtyInRequest_encode req)) = Some (k', [], fs) /\
    match lane_of k id with
    | None => k' = k /\ input_refused fs id (input_seq req) NoSuchChannel
    | Some l => exists l', lane_of k' id = Some l' /\
      ((fs = [] /\ try_wait w id = None /\ has_room l (input_bytes req) /\
        lane_queue l' = lane_queue l ++
          [mkBatch (input_bytes req) (Acknowledged (input_seq req) (current (input_route k)))]) \/
       (lane_queue l' = lane_queue l /\
        ((is_Some (try_wait w id) /\ input_refused fs id (input_seq req) ChildExited) \/
         (try_wait w id = None /\ ~ has_room l (input_bytes req) /\
          input_refused fs id (input_seq req) QueueFull))))
    end.
Proof.
  intros Hrun Hid Hs Hlen. pose proof (input_dispatch w id (PtyInRequest_encode req) Hid) as Hdisp.
  assert (Hd : PtyInRequest_decode (PtyInRequest_encode req) "PtyInRequest" = Ok req)
    by (by apply PtyInRequest_roundtrip).
  unfold lane_of. destruct (channels k !! id) as [ch|] eqn:Hc; cbn [fmap option_fmap option_map].
  2: { destruct (reject_frame_spec id (input_seq req) NoSuchChannel Hs) as (f & Hf & Hr).
       exists k, [f]. split; [|done]. eapply dispatch_channel; [exact Hdisp|].
       unfold sequenced_input, kbind, klift, kget, kret. cbn [frame_payload frame_channel].
       rewrite Hd, Hc. cbn beta iota. by rewrite Hf. }
  pose proof (live_chan _ _ _ _ _ _ Hrun Hc) as Hok. pose proof (ok_id _ _ _ Hok) as Hpid.
  set (reply := Acknowledged (input_seq req) (current (input_route k))).
  destruct (enqueue_input w (pty ch) (input_bytes req) reply) as [p q] eqn:He.
  destruct (reject_frame_spec id (input_seq req) (match q with Err r => r | Ok _ => QueueFull end) Hs)
    as (f & Hf & Hr).
  exists (set_channels k (<[id := mkChannel p (history ch)]> (channels k))),
    (match q with Ok _ => [] | Err _ => [f] end). split.
  { eapply dispatch_channel; [exact Hdisp|].
    unfold sequenced_input, put_pty, kbind, klift, kget, kret, kchannels. cbn [frame_payload frame_channel].
    rewrite Hd, Hc. cbn beta iota. fold reply. rewrite He. by destruct q; rewrite ?Hf. }
  exists (pty_input p). split; [cbn; by rewrite lookup_insert_eq|].
  unfold enqueue_input, pty_exited in He. rewrite Hpid in He.
  destruct (try_wait w id) as [st|] eqn:Hw.
  { simplify_eq. right. split; [done|]. left. by split. }
  destruct (enqueue_spec (pty_input (pty ch)) (input_bytes req) reply) as [(Hroom & Hq & Hl)|[Hroom Hq]].
  - destruct (enqueue _ _ _) as [l ok]. cbn in *. simplify_eq. left. by split_and!.
  - rewrite Hq in He. simplify_eq. right. split; [done|]. right. by split_and!.
Qed.

(** ** The channels a worker is told of *)

Lemma sorted_le_strict (l : list ChannelBinding) :
  StronglySorted binding_le l -> NoDup (map binding_channel_id l) ->
  StronglySorted (fun a b => binding_channel_id a < binding_channel_id b) l.
Proof.
  induction 1 as [|b l Hs IH Hf]; cbn; [constructor|]. intros [Hb Hnd]%NoDup_cons.
  constructor; [by apply IH|]. rewrite Forall_forall in *. intros b' Hin.
  specialize (Hf b' Hin). unfold binding_le in Hf.
  assert (binding_channel_id b <> binding_channel_id b'); [|lia].
  intros Heq. apply Hb. rewrite Heq. by apply list_elem_of_fmap_2.
Qed.

(** The unsorted list [live_bindings] sorts. *)
Definition bindings_of (l : list (Z * Channel)) : list ChannelBinding :=
  omap (fun '(_, c) => mkBinding (pty_channel_id (pty c)) <$> pty_pid (pty c)) l.

Definition ids_match (l : list (Z * Channel)) : Prop := Forall (fun e => pty_channel_id (pty e.2) = e.1) l.

Lemma bindings_of_elem l b :
  ids_match l ->
  b ∈ bindings_of l <-> exists c, (binding_channel_id b, c) ∈ l /\ pty_pid (pty c) = Some (binding_pid b).
Proof.
  unfold ids_match, bindings_of. intros Hf. rewrite list_elem_of_omap. rewrite Forall_forall in Hf. split.
  - intros ([i c] & Hl & (pid & Hp & ->)%fmap_Some). cbn. exists c. specialize (Hf _ Hl). cbn in Hf.
    by rewrite Hf.
  - intros (c & Hl & Hp). exists (binding_channel_id b, c). split; [done|].
    specialize (Hf _ Hl). cbn in Hf. rewrite Hp, Hf. by destruct b.
Qed.

Lemma bindings_of_NoDup l :
  NoDup (map fst l) -> ids_match l -> NoDup (map binding_channel_id (bindings_of l)).
Proof.
  induction l as [|[i c] l IH]; intros Hnd Hf; [constructor|].
  apply NoDup_cons in Hnd as [Hi Hnd]. apply Forall_cons in Hf as [Hic Hf].
  specialize (IH Hnd Hf). unfold bindings_of. cbn. cbn in Hic.
  destruct (pty_pid (pty c)) as [pid|]; cbn; [|done]. constructor; [|done].
  rewrite Hic. intros (b & Hb & (c' & Hc' & _)%bindings_of_elem)%list_elem_of_fmap; [|done].
  apply Hi. rewrite Hb. by apply (list_elem_of_fmap_2 fst _ (binding_channel_id b, c')).
Qed.

(** [ListChannels] and [Hello] report the same list: strictly ascending by
    channel id, and exactly the live channels with a process, each once with
    its own pid; and [ShutdownIfEmpty] is accepted exactly when no channel is
    live. *)
Theorem live_bindings_exact c epoch tr k w :
  run c epoch tr k ->
  StronglySorted (fun a b => binding_channel_id a < binding_channel_id b) (live_bindings k) /\
  (forall b, b ∈ live_bindings k <-> exists ch, channels k !! binding_channel_id b = Some ch /\
     pty_pid (pty ch) = Some (binding_pid b)) /\
  (forall req, bindings (hello_response w k req) = live_bindings k) /\
  handle w k (mkMuxFrame ShutdownIfEmpty 0 []) =
    Some (k, [], [mkMuxFrame (if decide (channels k = ∅) then ShutdownIfEmptyAck
                              else ShutdownIfEmptyReject) 0 []]).
Proof.
  intros Hrun. pose proof (run_ok _ _ _ _ Hrun) as Hok.
  assert (Hids : ids_match (map_to_list (channels k))).
  { apply Forall_forall. intros [i ch] Hl%elem_of_map_to_list. pose proof (Hok i) as H.
    rewrite Hl in H. apply H. }
  pose proof (merge_sort_Permutation binding_le (bindings_of (map_to_list (channels k)))) as Hperm.
  split_and!.
  - apply sorted_le_strict.
    + apply Sorted_StronglySorted; [intros x y z; unfold binding_le; lia|].
      apply (Sorted_merge_sort binding_le).
    + unfold live_bindings. fold (bindings_of (map_to_list (channels k))). rewrite Hperm.
      apply bindings_of_NoDup; [|done]. apply NoDup_fst_map_to_list.
  - intros b. unfold live_bindings. fold (bindings_of (map_to_list (channels k))).
    rewrite Hperm, bindings_of_elem by done. by setoid_rewrite elem_of_map_to_list.
  - done.
  - unfold handle, dispatch, shutdown_if_empty, kbind, kget, klift, kret. cbn [frame_type frame_channel Z.eqb negb].
    rewrite MuxFrame_new_Ok by done. unfold is_empty, channel_count.
    destruct (decide (channels k = ∅)) as [->|Hne]; [by rewrite map_size_empty|].
    assert (Hz : Z.of_nat (size (channels k)) =? 0 = false); [|by rewrite Hz].
    apply Z.eqb_neq. intros Hz. apply Hne, map_size_empty_iff. lia.
Qed.

(** ** A resize sequence past the largest exact counter *)

Lemma ordered_loop_keeps retained tail head ms raw recs raw' recs' :
  ordered_loop retained tail head ms raw recs = Some (raw', recs') ->
  (forall r, r ∈ recs -> r ∈ recs') /\
  (forall m, m ∈ ms -> tail <= marker_head m <= head ->
     ResizeRecord (marker_seq m) (marker_cols m) (marker_rows m) ∈ recs').
Proof.
  revert raw recs. induction ms as [|m ms IH]; intros raw recs H; cbn in H.
  { simplify_eq. split; [done|]. intros m Hm. by apply not_elem_of_nil in Hm. }
  case_if.
  - apply IH in H as [H1 H2]. split; [done|]. intros m' [-> |Hm]%elem_of_cons Hb; [|by apply H2].
    apply orb_true_iff in Heqb as [E|E]; bool_to_prop; lia.
  - assert (Hstep : exists raw1 more, ordered_loop retained tail head ms raw1
        (recs ++ more) = Some (raw', recs') /\
        ResizeRecord (marker_seq m) (marker_cols m) (marker_rows m) ∈ more).
    { case_if; [destruct (slice_get _ _ _) as [bytes|]; [|done]|];
        (eexists _, _; split; [exact H|set_solver]). }
    destruct Hstep as (raw1 & more & H1 & Hmore). apply IH in H1 as [H1 H2].
    split; [set_solver|]. intros m' [-> |Hm]%elem_of_cons Hb; [set_solver|by apply H2].
Qed.

Lemma check_records_bound rs p raw out seq c w :
  check_records rs p raw = Ok out -> ResizeRecord seq c w ∈ rs -> seq <= MAX_SAFE_INTEGER.
Proof.
  revert p raw. induction rs as [|[bytes|seq' c' w'] rs IH]; intros p raw H Hin; cbn in H.
  - by apply not_elem_of_nil in Hin.
  - repeat case_if; try done. apply elem_of_cons in Hin as [|Hin]; [done|by eapply IH].
  - case_if; [done|]. bool_to_prop.
    destruct (check_dimension c'); [|done]. destruct (check_dimension w'); [|done].
    case_if; [done|]. apply elem_of_cons in Hin as [|Hin]; [by simplify_eq|by eapply IH].
Qed.

(** Once a history holds a marker past the largest exact counter, it does not
    encode. *)
Lemma oversized_marker_fails h m hr :
  hist_wf h -> m ∈ resizes h -> marker_head m = head_seq h -> MAX_SAFE_INTEGER < marker_seq m ->
  ordered h = Some hr -> exists e, history_encode hr = Err e.
Proof.
  intros Hwf Hm Hhd Hseq Ho.
  assert (Hin : ResizeRecord (marker_seq m) (marker_cols m) (marker_rows m) ∈ hr_records hr).
  { unfold ordered in Ho. destruct (ordered_loop _ _ _ _ _ _) as [[raw recs]|] eqn:E; [|done].
    apply ordered_loop_keeps in E as [_ E]. specialize (E m Hm).
    pose proof (wf_tail _ Hwf). pose proof (wf_head _ Hwf). pose proof (len_nonneg (ring h)).
    rewrite wrap_small in E by (unfold fits; lia).
    case_if; [destruct (slice_get _ _ _); [|done]|]; simplify_eq; cbn;
      [apply elem_of_app; left|]; apply E; lia. }
  unfold history_encode. case_if; [by eexists|].
  destruct (check_dimension _); [|by eexists]. destruct (check_dimension _); [|by eexists].
  case_if; [by eexists|]. destruct (check_records _ _ _) eqn:Hc; [|by eexists].
  exfalso. pose proof (check_records_bound _ _ _ _ _ _ _ Hc Hin). lia.
Qed.

(** The keeper applies and acknowledges a resize sequence its own history
    codec cannot carry, and from then on that channel's [GetHistoryRecords] is
    never answered. On any live channel, a [ResizeRequest] with a sequence past
    2^53-1 that the PTY takes is acknowledged; every later history request on
    that channel then returns no frame at all, leaving the keeper as it was. *)
Theorem oversized_resize_silences_history c epoch tr k id ch req payload w :
  run c epoch tr k -> channels k !! id = Some ch ->
  len (outputs (oplog (account_of id tr))) < 2 ^ 64 ->
  resize_wire_ok req -> ResizeRequest_encode req = Ok payload ->
  MAX_SAFE_INTEGER < resize_seq req -> applied_seq (state_of k id) < resize_seq req ->
  is_ok (resize_master_pty w id (resize_cols req) (resize_rows req)) = true ->
  exists k' es f, handle w k (mkMuxFrame ResizeRequest id payload) = Some (k', es, [f]) /\
    is_ack f id (mkTerminalState (resize_seq req) (resize_cols req) (resize_rows req)) /\
    forall w' p, handle w' k' (mkMuxFrame GetHistoryRecords id p) = Some (k', [], []).
Proof.
  intros Hrun Hc Hlen Hreq Henc Hbig Hnew Hos.
  pose proof (live_chan _ _ _ _ _ _ Hrun Hc) as Hok. destruct (ok_range _ _ _ Hok) as [Hid _].
  destruct (sequenced_resize_cases _ _ _ _ id _ _ w Hrun Hid Hreq Henc) as (k' & es & f & Hh & _ & Hout).
  rewrite Hc in Hout. unfold resize_outcome in Hout. rewrite (proj2 (Z.leb_gt _ _) Hnew), Hc in Hout.
  destruct (resize_master_pty w id _ _); [|done]. cbn [fmap option_fmap option_map] in Hout.
  destruct Hout as (_ & _ & Hack & (ch' & Hc' & Hhist)%fmap_Some).
  exists k', es, f. split_and!; [done..|]. intros w' p.
  destruct (live_window _ _ _ Hok Hlen) as (Hwin & _).
  apply (record_resize_window _ _ (resize_seq req) (resize_cols req) (resize_rows req)) in Hwin.
  rewrite Hhist in Hwin. destruct Hwin as (Hwf & _). destruct (ordered_spec _ Hwf) as (hr & Ho & _).
  destruct (oversized_marker_fails (history ch') (mkMarker (head_seq (history ch)) (resize_seq req)
    (resize_cols req) (resize_rows req)) hr) as [e He]; try done.
  { rewrite <- Hhist. unfold record_resize. case_if; cbn; [|apply elem_of_app; right]; by apply list_elem_of_singleton. }
  { rewrite <- Hhist. unfold record_resize. by case_if. }
  unfold handle, dispatch, history_records, ordered_history, kbind, kget, klift.
  cbn [frame_type frame_channel]. rewrite per_channel by done. cbn [negb]. rewrite Hc', Ho.
  cbn beta iota. by rewrite He.
Qed.

End Guarantees.

(** ** Witnesses, on the worked run *)

Lemma demo_live : channels demo_keeper !! 1 = Some demo_channel.
Proof. vm_compute. done. Qed.

Abbreviation demo_log := (fst demo_result).
Definition demo_account : account := account_of 1 demo_log.

Lemma demo_oplog :
  oplog (account_of 1 demo_log) = [OpOutput [Byte.x61; Byte.x62; Byte.x63]; OpResize 7 100 30].
Proof. vm_compute. done. Qed.

(** The run's history request is answered, and its records decode. *)
Lemma history_answer_exact_witness :
  outputs (oplog demo_account) = [Byte.x61; Byte.x62; Byte.x63] /\
  exists payload hr,
    handle demo_world demo_keeper (mkMuxFrame GetHistoryRecords 1 [])
      = Some (demo_keeper, [], [mkMuxFrame GetHistoryRecordsResp 1 payload]) /\
    history_decode payload = Ok hr /\
    hr_head_seq hr = len (outputs (oplog demo_account)) /\
    replay (hr_base_cols hr, hr_base_rows hr) (hr_records hr)
      = (drop (Z.to_nat (len (outputs (oplog demo_account)) - retained_bytes (history demo_channel)))
           (fst (account_stream demo_account)), snd (account_stream demo_account)) /\
    map fst (fst (account_stream demo_account)) = outputs (oplog demo_account) /\
    produced demo_account =
      outputs (oplog demo_account) ++ OutputRing.held (pty_output (pty demo_channel)).
Proof.
  split; [by vm_compute|].
  assert (He : exact_sequences (oplog (account_of 1 demo_log))).
  { rewrite demo_oplog. unfold exact_sequences. repeat constructor; discriminate. }
  destruct (history_answer_exact demo_contract None demo_log demo_keeper 1 demo_channel [] demo_world demo_run demo_live)
    as [H|[_ Hbad]]; [vm_compute; discriminate|exact H|].
  destruct (Hbad He).
Defined.

Lemma demo_channels : channels demo_keeper = <[1 := demo_channel]> ∅.
Proof. vm_compute. done. Qed.

Lemma demo_small : small_output demo_keeper demo_log.
Proof.
  intros id ch. rewrite demo_channels. intros [[<- _]|[_ H]]%lookup_insert_Some; [|by rewrite lookup_empty in H].
  rewrite demo_oplog. vm_compute. done.
Qed.

(** The worked run, then the child exits and its last output is drained. *)
Definition exit_events : list event := [EDrain [1]; EPump 1 OutputRing.ReadEof].
Definition exit_result : list entry * Keeper := default ([], demo_keeper) (exec demo_keeper exit_events).

Lemma exit_run : run demo_contract None (demo_log ++ fst exit_result) (snd exit_result).
Proof. apply (exec_run _ _ _ demo_keeper exit_events); [apply demo_run|by vm_compute..]. Qed.

Lemma exit_after_last_byte_witness :
  let k := snd exit_result in
  let tr := demo_log ++ fst exit_result in
  exists k' es fs, kstep k (EReap exited_world [1]) = Some (k', es, fs) /\
    NoDup (map frame_channel fs) /\
    (forall f, f ∈ fs -> frame_type f = Exit /\ exists status,
       try_wait exited_world (frame_channel f) = Some status /\
       json_exit (mkExitFrame (Some (as_i32 status))) = Ok (frame_payload f)) /\
    forall id,
      (id ∈ map frame_channel fs <-> exists ch, channels k !! id = Some ch /\
         is_Some (try_wait exited_world id) /\ OutputRing.sender_alive (pty_output (pty ch)) = false /\
         OutputRing.held (pty_output (pty ch)) = []) /\
      (id ∈ map frame_channel fs -> channels k' !! id = None /\
         produced (account_of id tr) = outputs (oplog (account_of id tr))) /\
      (id ∉ map frame_channel fs -> (is_Some (channels k' !! id) <-> is_Some (channels k !! id))).
Proof.
  apply (exit_after_last_byte demo_contract None _ _ exited_world [1] exit_run).
  vm_compute. done.
Defined.

Lemma handle_answers_witness :
  exists k' es fs, handle demo_world demo_keeper (mkMuxFrame PtyInRequest 1 []) = Some (k', es, fs) /\
    at_most_one (answers (mkMuxFrame PtyInRequest 1 [])) fs /\
    (frame_type (mkMuxFrame PtyInRequest 1 []) = PtyInRequest -> 0 < 1 ->
     is_ok (PtyInRequest_decode [] "PtyInRequest") = false ->
     exists f, fs = [f] /\ PtyInResult_decode PtyInReject (frame_payload f) = Some (Reject 0 NoSuchChannel)).
Proof.
  apply (handle_answers demo_contract None demo_log demo_keeper demo_world
    (mkMuxFrame PtyInRequest 1 []) demo_run demo_small).
Defined.

Lemma geometry_agreement_witness :
  let st := state_of demo_keeper 1 in
  st = mkTerminalState 7 100 30 /\
  dimension_ok (state_cols st) /\ dimension_ok (state_rows st) /\
  (state_cols st, state_rows st) = snd (account_stream demo_account) /\
  (state_cols st, state_rows st) = current_geom (history demo_channel) /\
  exists f, handle demo_world demo_keeper (mkMuxFrame GetTerminalState 1 []) = Some (demo_keeper, [], [f]) /\
    frame_type f = GetTerminalStateResp /\ frame_channel f = 1 /\
    TerminalState_decode (frame_payload f) = Ok st.
Proof.
  split; [by vm_compute|].
  apply (geometry_agreement demo_contract None demo_log demo_keeper 1 demo_channel [] demo_world demo_run demo_live).
Defined.

Definition demo_request : ResizeRequestP := mkResizeRequest 8 120 40.
Definition demo_payload : list byte := to_be_bytes 8 8 ++ to_be_bytes 4 120 ++ to_be_bytes 4 40.

Lemma sequenced_resize_spec_witness :
  exists k' es f, handle demo_world demo_keeper (mkMuxFrame ResizeRequest 1 demo_payload) = Some (k', es, [f]) /\
    (forall i, i <> 1 -> channels k' !! i = channels demo_keeper !! i) /\
    match channels demo_keeper !! 1 with
    | None => k' = demo_keeper /\ es = [] /\ is_refusal f 1 8
    | Some _ => resize_outcome demo_world demo_keeper k' es 1 f demo_request
    end.
Proof.
  apply (sequenced_resize_spec demo_contract None demo_log demo_keeper 1 demo_request demo_payload demo_world demo_run);
    [done| |by vm_compute].
  vm_compute. split_and!; discriminate || done.
Defined.

Lemma sequenced_input_spec_witness :
  exists k' fs,
    handle demo_world demo_keeper (mkMuxFrame PtyInRequest 1
      (PtyInRequest_encode (mkPtyInRequest 5 [Byte.x6c; Byte.x73]))) = Some (k', [], fs) /\
    match lane_of demo_keeper 1 with
    | None => k' = demo_keeper /\ input_refused fs 1 5 NoSuchChannel
    | Some l => exists l', lane_of k' 1 = Some l' /\
      ((fs = [] /\ try_wait demo_world 1 = None /\ has_room l [Byte.x6c; Byte.x73] /\
        lane_queue l' = lane_queue l ++
          [mkBatch [Byte.x6c; Byte.x73] (Acknowledged 5 (current (input_route demo_keeper)))]) \/
       (lane_queue l' = lane_queue l /\
        ((is_Some (try_wait demo_world 1) /\ input_refused fs 1 5 ChildExited) \/
         (try_wait demo_world 1 = None /\ ~ has_room l [Byte.x6c; Byte.x73] /\
          input_refused fs 1 5 QueueFull))))
    end.
Proof.
  apply (sequenced_input_spec demo_contract None demo_log demo_keeper 1
    (mkPtyInRequest 5 [Byte.x6c; Byte.x73]) demo_world demo_run); vm_compute; split_and? || idtac;
    discriminate || done.
Defined.

Lemma live_bindings_exact_witness :
  live_bindings demo_keeper = [mkBinding 1 4242] /\
  StronglySorted (fun a b => binding_channel_id a < binding_channel_id b) (live_bindings demo_keeper) /\
  (forall b, b ∈ live_bindings demo_keeper <-> exists ch,
     channels demo_keeper !! binding_channel_id b = Some ch /\ pty_pid (pty ch) = Some (binding_pid b)) /\
  (forall req, bindings (hello_response demo_world demo_keeper req) = live_bindings demo_keeper) /\
  handle demo_world demo_keeper (mkMuxFrame ShutdownIfEmpty 0 []) =
    Some (demo_keeper, [], [mkMuxFrame (if decide (channels demo_keeper = ∅) then ShutdownIfEmptyAck
                              else ShutdownIfEmptyReject) 0 []]).
Proof.
  split; [by vm_compute|]. apply (live_bindings_exact demo_contract None demo_log demo_keeper demo_world demo_run).
Defined.

Lemma oversized_resize_silences_history_witness :
  exists k' es f, handle demo_world demo_keeper (mkMuxFrame ResizeRequest 1
      (to_be_bytes 8 (2 ^ 53) ++ to_be_bytes 4 120 ++ to_be_bytes 4 40)) = Some (k', es, [f]) /\
    is_ack f 1 (mkTerminalState (2 ^ 53) 120 40) /\
    forall w' p, handle w' k' (mkMuxFrame GetHistoryRecords 1 p) = Some (k', [], []).
Proof.
  apply (oversized_resize_silences_history demo_contract None demo_log demo_keeper 1 demo_channel
    (mkResizeRequest (2 ^ 53) 120 40) _ demo_world demo_run demo_live); try by vm_compute.
Defined.
