(* ===== verification/KeeperServer.v ===== *)
(** * One worker connection, and the daemon's exit decision

    Models [crates/roost-keeper/src/server/connection.rs] (authentication, the
    loop that drains, reaps and answers), [server.rs] (why a connection ended),
    [server/exit_watch.rs] (the poll), [capability.rs] (the secret's check) and
    the exit decision of [bin/roost-keeper.rs]. What a turn observes of the
    outside - the clock, the stop flag, the socket file, the queue, the writes -
    is its argument; SHA-256 is a parameter. *)
From Stdlib Require Import Strings.Byte Strings.Ascii Strings.String.
From S2P Require Import Prelude KeeperCodec KeeperPayloads KeeperHistory KeeperOutput KeeperInput.
From S2P Require Import Keeper KeeperRun.

#[local] Open Scope string_scope.
#[local] Open Scope list_scope.
#[local] Open Scope Z_scope.

(** ** The capability (capability.rs) *)

Definition CAPABILITY_BYTES : Z := 32.

(** What the code relies on of SHA-256: 32 bytes, whatever it is given. *)
Class Sha256 := { sha256 : list byte -> list byte; sha256_len : forall m, length (sha256 m) = 32%nat }.

Definition byte_val (b : byte) : Z := from_be_bytes [b].

(** [str::as_bytes]. *)
Definition as_bytes (s : string) : list byte := list_byte_of_string s.

(** The fold of [KeeperCapability::verify]: the bits in which two digests differ. *)
Definition digest_difference (l r : list byte) : Z :=
  foldl (fun difference '(a, b) => Z.lor difference (Z.lxor (byte_val a) (byte_val b))) 0 (zip l r).

(** [KeeperCapability::verify]. *)
Definition verify `{Sha256} (capability presented : string) : bool :=
  digest_difference (sha256 (as_bytes capability)) (sha256 (as_bytes presented)) =? 0.

(** [is_lowercase_hex_secret]. *)
Definition is_lowercase_hex_secret (value : string) : bool :=
  (len (as_bytes value) =? CAPABILITY_BYTES * 2) &&
  forallb (fun b => ((48 <=? byte_val b) && (byte_val b <=? 57)) ||
                    ((97 <=? byte_val b) && (byte_val b <=? 102))) (as_bytes value).

(** ** Why a connection, and the daemon, stop *)

Inductive ExitCause := Signalled | SocketRemoved.

Inductive ConnectionEnd :=
| ShutdownRequested
| ShutdownIfEmptyAccepted
| ShutdownIfEmptyRefused
| ShutdownRequestedWithChannels
| ClientDisconnected
| ProtocolViolation
| UnframeablePayload
| WorkerUnreachable
| EndSignalled
| EndSocketRemoved
| NotAuthenticated.

(** [From<ExitCause> for ConnectionEnd]. *)
Definition end_of_cause (c : ExitCause) : ConnectionEnd :=
  match c with Signalled => EndSignalled | SocketRemoved => EndSocketRemoved end.

(** [Decision]. *)
Inductive Decision := KeepServing | Stop (reason : string).

(** [ExitCause::reason]. *)
Definition cause_reason (c : ExitCause) : string :=
  match c with Signalled => "signalled" | SocketRemoved => "socket removed" end.

(** [decide]. *)
Definition decide_end (e : ConnectionEnd) (live_channels : Z) : Decision :=
  match e with
  | ShutdownRequested => Stop "shutdown requested"
  | ShutdownRequestedWithChannels => Stop "shutdown requested with channels live"
  | ShutdownIfEmptyAccepted => Stop "shutdown if empty, and empty"
  | ShutdownIfEmptyRefused | ClientDisconnected | ProtocolViolation | NotAuthenticated
  | UnframeablePayload | WorkerUnreachable => KeepServing
  | EndSignalled => Stop (cause_reason Signalled)
  | EndSocketRemoved => Stop (cause_reason SocketRemoved)
  end.

(** [Shutdown] and [should_stop]. *)
Inductive ShutdownKind := StopPreserving | StopIfEmpty.

Definition should_stop (k : Keeper) (s : ShutdownKind) : bool :=
  match s with StopPreserving => true | StopIfEmpty => is_empty k end.

(** [ExitWatch]; times are ticks of the monotonic clock. *)
Record ExitWatch := mkWatch { interval : Z; next_socket_check : Z }.

(** What one turn observes of the outside. *)
Record observed := mkObserved {
  o_signalled : bool;
  o_now : Z;
  o_socket_present : bool;
}.

(** [ExitWatch::poll]. *)
Definition watch_poll (w : ExitWatch) (o : observed) : ExitWatch * option ExitCause :=
  if o_signalled o then (w, Some Signalled)
  else if o_now o <? next_socket_check w then (w, None)
  else (mkWatch (interval w) (o_now o + interval w),
        if o_socket_present o then None else Some SocketRemoved).

(** [Server::poll_exit]. *)
Definition poll_exit (w : option ExitWatch) (o : observed) : option ExitWatch * option ExitCause :=
  match w with
  | None => (None, None)
  | Some w => let '(w', c) := watch_poll w o in (Some w', c)
  end.

(** ** The connection *)

Definition UNAUTHENTICATED_MAX_BYTES : Z := 64 * 1024.
Definition UNAUTHENTICATED_TIMEOUT : Z := 2.

(** What [inbox.recv_timeout] answered. *)
Inductive received :=
| Event (ev : Signal.LoopEvent)
| TimedOut
| Disconnected.

Section Server.
Context `{J : Json} `{SH : Sha256}.

(** [refused]. *)
Definition refused (reason : string) : ConnectionEnd := NotAuthenticated.

(** [opening_hello]. *)
Definition opening_hello (first : StreamEvent) : result KeeperHelloRequest ConnectionEnd :=
  match first with
  | Frame (Some Hello) _ channel payload =>
    if channel =? 0 then ok_or (parse_hello payload) (refused "unreadable_hello")
    else Err (refused "not_hello")
  | _ => Err (refused "not_hello")
  end.

(** How [authenticate] left the connection: still waiting, or done, with the
    decoder, what to answer next or why it ended, and the frames written. *)
Inductive auth_outcome :=
| StillWaiting
| Authenticated (d : FrameDecoder) (behind : list StreamEvent) (written : list MuxFrame)
| Refused (e : ConnectionEnd).

(** One read's worth of [authenticate], once bytes were received. *)
Definition admit_read (w : World) (k : Keeper) (capability : string) (d : FrameDecoder)
    (events : list StreamEvent) (write_ok : bool) : option auth_outcome :=
  match events with
  | [] => None
  | first :: behind =>
    Some match opening_hello first with
    | Err e => Refused e
    | Ok request =>
      if verify capability (hello_capability request) then
        match frame_json HelloResp 0 (json_hello (hello_response w k request)) with
        | Err _ => Refused UnframeablePayload
        | Ok answer =>
          if write_ok then Authenticated d behind [answer] else Refused WorkerUnreachable
        end
      else Refused (refused "bad_capability")
    end
  end.

(** [Server::authenticate], over the turns it makes: each observes the outside,
    then what its wait for the queue answered, and whether a write would
    succeed. Outer [None] is a panic. *)
Fixpoint authenticate (w : World) (k : Keeper) (capability : string) (watch : option ExitWatch)
    (deadline : Z) (d : FrameDecoder) (received_bytes : Z)
    (turns : list (observed * received * bool)) : option (option ExitWatch * auth_outcome) :=
  match turns with
  | [] => Some (watch, StillWaiting)
  | (o, r, write_ok) :: turns =>
    let '(watch, cause) := poll_exit watch o in
    match cause with
    | Some cause => Some (watch, Refused (end_of_cause cause))
    | None =>
      if deadline <=? o_now o then Some (watch, Refused (refused "timeout")) else
      match r with
      | Event (Signal.Received bytes) =>
        let received_bytes := received_bytes + len bytes in
        if UNAUTHENTICATED_MAX_BYTES <? received_bytes
        then Some (watch, Refused (refused "too_many_bytes"))
        else match push d bytes with
        | None => None
        | Some (d, events) =>
          match admit_read w k capability d events write_ok with
          | None => authenticate w k capability watch deadline d received_bytes turns
          | Some outcome => Some (watch, outcome)
          end
        end
      | Event Signal.Output | TimedOut =>
        authenticate w k capability watch deadline d received_bytes turns
      | Event Signal.Closed | Disconnected => Some (watch, Refused ClientDisconnected)
      end
    end
  end.

(** [Server::answer_events]: the keeper, the frames written and, when the
    connection ends, why. [env] gives each frame's world and whether its
    replies' write succeeds. *)
Fixpoint answer_events (env : nat -> World * bool) (events : list StreamEvent) (i : nat)
    (stopping : bool) (k : Keeper) (written : list MuxFrame)
  : option (Keeper * list MuxFrame * option ConnectionEnd) :=
  match events with
  | [] => Some (k, written, if stopping then Some ShutdownRequestedWithChannels else None)
  | Failed _ :: _ => Some (k, written, Some ProtocolViolation)
  | Frame None _ _ _ :: events => answer_events env events (S i) stopping k written
  | Frame (Some t) _ channel payload :: events =>
    match handle (fst (env i)) k (mkMuxFrame t channel payload) with
    | None => None
    | Some (k, _, replies) =>
      if negb (snd (env i)) then Some (k, written, Some WorkerUnreachable) else
      let written := written ++ replies in
      match t with
      | Shutdown => answer_events env events (S i) true k written
      | ShutdownIfEmpty =>
        let refused := existsb (fun f => bool_decide (frame_type f = ShutdownIfEmptyReject)) replies in
        Some (k, written, Some (if refused then ShutdownIfEmptyRefused else ShutdownIfEmptyAccepted))
      | _ => answer_events env events (S i) stopping k written
      end
    end
  end.

(** What one turn of [forward_until_end] observes. *)
Record turn := mkTurn {
  t_observed : observed;
  t_order : list Z;           (* the channel map's iteration order *)
  t_reap_order : list Z;
  t_backlog_order : list Z;
  t_world : World;
  t_output_ok : bool;         (* the write of the drained output *)
  t_exit_ok : nat -> bool;    (* the write of each exit *)
  t_received : received;
  t_env : nat -> World * bool;
}.

(** The exits, each written on its own, until a write fails. *)
Fixpoint write_exits (ok : nat -> bool) (i : nat) (exits written : list MuxFrame)
  : list MuxFrame * bool :=
  match exits with
  | [] => (written, true)
  | exit :: exits =>
    if ok i then write_exits ok (S i) exits (written ++ [exit]) else (written, false)
  end.

Definition set_signal (k : Keeper) (s : Signal.OutputSignal) : Keeper :=
  mkKeeper (channels k) (contract k) (input_route k) (process_epoch k) s.

(** The drain, the reap and their writes: the part of a turn before it waits. *)
Definition turn_output (t : turn) (k : Keeper) (written : list MuxFrame)
  : option (Keeper * list MuxFrame * option ConnectionEnd) :=
  let k := set_signal k (fst (Signal.take_raised (output_signal k))) in
  match drain_output (t_order t) Signal.DRAIN_LIMIT_BYTES [] k with
  | None => None
  | Some (k, _, Err _) => Some (k, written, Some UnframeablePayload)
  | Some (k, _, Ok output) =>
    if negb (t_output_ok t) then Some (k, written, Some WorkerUnreachable) else
    let written := written ++ output in
    match reap_exited (t_world t) (t_reap_order t) k with
    | None => None
    | Some (k, _, Err _) => Some (k, written, Some UnframeablePayload)
    | Some (k, _, Ok exits) =>
      let '(written, ok) := write_exits (t_exit_ok t) 0 exits written in
      Some (k, written, if ok then None else Some WorkerUnreachable)
    end
  end.

(** One turn of [Server::forward_until_end]. *)
Definition forward_turn (t : turn) (watch : option ExitWatch) (d : FrameDecoder) (k : Keeper)
  : option (option ExitWatch * FrameDecoder * Keeper * list MuxFrame * option ConnectionEnd) :=
  let '(watch, cause) := poll_exit watch (t_observed t) in
  match cause with
  | Some cause => Some (watch, d, k, [], Some (end_of_cause cause))
  | None =>
    match turn_output t k [] with
    | None => None
    | Some (k, written, Some e) => Some (watch, d, k, written, Some e)
    | Some (k, written, None) =>
      match output_backlogged (t_backlog_order t) k with
      | None => None
      | Some (k, _, _) =>
        match t_received t with
        | Event (Signal.Received bytes) =>
          match push d bytes with
          | None => None
          | Some (d, events) =>
            match answer_events (t_env t) events 0 false k written with
            | None => None
            | Some (k, written, e) => Some (watch, d, k, written, e)
            end
          end
        | Event Signal.Output | TimedOut => Some (watch, d, k, written, None)
        | Event Signal.Closed | Disconnected => Some (watch, d, k, written, Some ClientDisconnected)
        end
      end
    end
  end.

(** [Server::forward_until_end] over the turns it makes. *)
Fixpoint forward_until_end (turns : list turn) (watch : option ExitWatch) (d : FrameDecoder)
    (k : Keeper) (written : list MuxFrame)
  : option (option ExitWatch * Keeper * list MuxFrame * option ConnectionEnd) :=
  match turns with
  | [] => Some (watch, k, written, None)
  | t :: turns =>
    match forward_turn t watch d k with
    | None => None
    | Some (watch, _, k, w, Some e) => Some (watch, k, written ++ w, Some e)
    | Some (watch, d, k, w, None) => forward_until_end turns watch d k (written ++ w)
    end
  end.

(** [Server::serve_authenticated]. *)
Definition serve_authenticated (w : World) (k : Keeper) (capability : string)
    (watch : option ExitWatch) (deadline : Z) (auth_turns : list (observed * received * bool))
    (env : nat -> World * bool) (turns : list turn)
  : option (option ExitWatch * Keeper * list MuxFrame * option ConnectionEnd) :=
  match authenticate w k capability watch deadline FrameDecoder_new 0 auth_turns with
  | None => None
  | Some (watch, StillWaiting) => Some (watch, k, [], None)
  | Some (watch, Refused e) => Some (watch, k, [], Some e)
  | Some (watch, Authenticated d behind written) =>
    let k := fst (attach_input_results k) in
    match answer_events env behind 0 false k written with
    | None => None
    | Some (k, written, Some e) => Some (watch, k, written, Some e)
    | Some (k, written, None) => forward_until_end turns watch d k written
    end
  end.

(** [Server::serve_frames] and [serve_one]: the waker is attached for the
    connection's life, and the input route detached once it ended. *)
Definition serve_one (w : World) (k : Keeper) (capability : string) (watch : option ExitWatch)
    (now : Z) (auth_turns : list (observed * received * bool)) (env : nat -> World * bool)
    (turns : list turn) : option (option ExitWatch * Keeper * list MuxFrame * option ConnectionEnd) :=
  let k := set_signal k (Signal.attach (output_signal k)) in
  match serve_authenticated w k capability watch (now + UNAUTHENTICATED_TIMEOUT) auth_turns env turns with
  | None => None
  | Some (watch, k, written, e) =>
    let k := set_signal k (Signal.detach (output_signal k)) in
    Some (watch, detach_input_results k, written, e)
  end.

End Server.

(** ** Lemmas: the capability *)

Lemma byte_val_inj a b : byte_val a = byte_val b -> a = b.
Proof.
  unfold byte_val. intros H. pose proof (to_from_be_bytes [a]) as Ha. pose proof (to_from_be_bytes [b]) as Hb.
  cbn [length] in *. rewrite H in Ha. congruence.
Qed.

Lemma difference_zero l r acc :
  length l = length r ->
  foldl (fun difference '(a, b) => Z.lor difference (Z.lxor (byte_val a) (byte_val b))) acc (zip l r) = 0
  <-> acc = 0 /\ l = r.
Proof.
  revert r acc. induction l as [|a l IH]; intros [|b r] acc Hl; try done; cbn [zip zip_with foldl].
  - naive_solver.
  - rewrite IH by (by injection Hl). rewrite Z.lor_eq_0_iff, Z.lxor_eq_0_iff. split.
    + intros ([-> Hab] & ->). split; [done|]. by apply byte_val_inj in Hab as ->.
    + intros [-> [= -> ->]]. done.
Qed.

Lemma verify_spec `{SH : Sha256} capability presented :
  verify capability presented = true <-> sha256 (as_bytes capability) = sha256 (as_bytes presented).
Proof.
  unfold verify, digest_difference. rewrite Z.eqb_eq, difference_zero by (by rewrite !sha256_len).
  naive_solver.
Qed.

(** ** Lemmas: the reads of a connection *)

Lemma feed_snoc d reads d1 es1 bytes d2 es2 :
  feed d reads = Some (d1, es1) -> push d1 bytes = Some (d2, es2) ->
  feed d (reads ++ [bytes]) = Some (d2, es1 ++ es2).
Proof.
  revert d es1. induction reads as [|b reads IH]; intros d es1 H Hp; cbn in *.
  - simplify_eq. rewrite Hp. by rewrite app_nil_r.
  - destruct (push d b) as [[d' es]|]; [|done].
    destruct (feed d' reads) as [[d'' es']|] eqn:E; simplify_eq.
    rewrite (IH _ _ E Hp). by rewrite app_assoc.
Qed.

(** The bytes a connection's turns received. *)
Definition reads_of (turns : list (observed * received * bool)) : list (list byte) :=
  omap (fun '(_, r, _) => match r with Event (Signal.Received bytes) => Some bytes | _ => None end) turns.

Section ServerFacts.
Context `{J : Json} {JL : JsonLaws J} `{SH : Sha256}.

(** What a peer must have sent to be served: within the bound, a stream whose
    first frame is a [Hello] on the control lane presenting a secret with the
    capability's digest. *)
Definition proved (capability : string) (reads : list (list byte)) (d : FrameDecoder)
    (behind : list StreamEvent) : Prop :=
  len (concat reads) <= UNAUTHENTICATED_MAX_BYTES /\
  exists raw payload request,
    feed FrameDecoder_new reads = Some (d, Frame (Some Hello) raw 0 payload :: behind) /\
    parse_hello payload = Some request /\
    sha256 (as_bytes capability) = sha256 (as_bytes (hello_capability request)).

Lemma opening_hello_Ok ev request :
  opening_hello ev = Ok request ->
  exists raw payload, ev = Frame (Some Hello) raw 0 payload /\ parse_hello payload = Some request.
Proof.
  unfold opening_hello. destruct ev as [[[]|] raw channel payload|]; try done.
  case_if; [|done]. bool_to_prop. subst. destruct (parse_hello payload) eqn:E; [|done].
  cbn. intros. simplify_eq. eauto.
Qed.

Lemma admit_read_Authenticated w k capability d events write_ok d' behind written :
  admit_read w k capability d events write_ok = Some (Authenticated d' behind written) ->
  d' = d /\ (exists answer, written = [answer] /\ frame_type answer = HelloResp) /\
  exists raw payload request, events = Frame (Some Hello) raw 0 payload :: behind /\
    parse_hello payload = Some request /\
    sha256 (as_bytes capability) = sha256 (as_bytes (hello_capability request)).
Proof.
  unfold admit_read. destruct events as [|first rest]; [done|]. intros [= H].
  destruct (opening_hello first) as [request|] eqn:Eo; [|done].
  apply opening_hello_Ok in Eo as (raw & payload & -> & Hp).
  destruct (verify _ _) eqn:Ev; [|done]. apply verify_spec in Ev.
  destruct (frame_json _ _ _) as [answer|] eqn:Ef; [|done]. destruct write_ok; [|done].
  simplify_eq. apply frame_json_inv in Ef as [Ht _].
  split_and!; [done|by exists answer|]. by exists raw, payload, request.
Qed.

Lemma authenticate_proved w k capability watch deadline d n turns watch' d' behind written pre :
  feed FrameDecoder_new pre = Some (d, []) -> n = len (concat pre) ->
  authenticate w k capability watch deadline d n turns = Some (watch', Authenticated d' behind written) ->
  exists reads, reads `prefix_of` reads_of turns /\ proved capability (pre ++ reads) d' behind /\
    exists answer, written = [answer] /\ frame_type answer = HelloResp.
Proof.
  revert watch d n pre. induction turns as [|[[o r] write_ok] turns IH]; intros watch d n pre Hpre Hn H.
  { by cbn in H. }
  cbn in H. destruct (poll_exit watch o) as [watch1 [cause|]]; [done|]. case_if; [done|].
  assert (Hskip : reads_of ((o, r, write_ok) :: turns) = reads_of turns ->
    authenticate w k capability watch1 deadline d n turns = Some (watch', Authenticated d' behind written) ->
    exists reads, reads `prefix_of` reads_of ((o, r, write_ok) :: turns) /\
      proved capability (pre ++ reads) d' behind /\
      exists answer, written = [answer] /\ frame_type answer = HelloResp).
  { intros -> H'. by eapply IH. }
  destruct r as [[bytes| |]| |]; try done; try (by apply Hskip).
  clear Hskip. case_if; [done|]. bool_to_prop.
  destruct (push d bytes) as [[d1 events]|] eqn:Hp; [|done].
  pose proof (feed_snoc _ _ _ _ _ _ _ Hpre Hp) as Hfeed. cbn [app] in Hfeed.
  assert (Hlen : n + len bytes = len (concat (pre ++ [bytes]))).
  { rewrite concat_app, len_app. cbn. rewrite app_nil_r. lia. }
  change (reads_of ((o, Event (Signal.Received bytes), write_ok) :: turns)) with (bytes :: reads_of turns).
  destruct (admit_read w k capability d1 events write_ok) as [outcome|] eqn:Ha.
  - simplify_eq. apply admit_read_Authenticated in Ha as (-> & Hw & raw & payload & request & -> & Hq & Hs).
    exists [bytes]. split; [by eexists|]. split; [|done]. split; [lia|]. by exists raw, payload, request.
  - unfold admit_read in Ha. destruct events; [|done].
    destruct (IH _ _ _ _ Hfeed Hlen H) as (reads & [rest Hr] & Hproved & Hw).
    exists (bytes :: reads). split; [exists rest; by rewrite Hr|]. split; [|done].
    by rewrite (app_assoc pre [bytes] reads : pre ++ bytes :: reads = _).
Qed.

Lemma answer_events_prefix env events i stopping k written k' written' e :
  answer_events env events i stopping k written = Some (k', written', e) -> written `prefix_of` written'.
Proof.
  revert i stopping k written. induction events as [|[[t|] raw channel payload|] events IH];
    intros i stopping k written H; cbn in H; [by simplify_eq| |by eapply IH|by simplify_eq].
  destruct (handle _ _ _) as [[[k1 es] replies]|]; [|done]. case_if; [by simplify_eq|].
  assert (Hgo : forall b, answer_events env events (S i) b k1 (written ++ replies) = Some (k', written', e) ->
    written `prefix_of` written') by (intros b Hb; etrans; [by eexists|by eapply IH]).
  destruct t; try (by eapply Hgo). simplify_eq. by eexists.
Qed.

Lemma forward_until_end_prefix turns watch d k written watch' k' written' e :
  forward_until_end turns watch d k written = Some (watch', k', written', e) ->
  written `prefix_of` written'.
Proof.
  revert watch d k written. induction turns as [|t turns IH]; intros watch d k written H; cbn in H.
  { by simplify_eq. }
  destruct (forward_turn t watch d k) as [[[[[watch1 d1] k1] w1] [e1|]]|]; simplify_eq; [by eexists|].
  etrans; [by eexists|by eapply IH].
Qed.

(** ** Properties *)

(** C5: Nothing is served before the capability is proved. Whatever a peer sends
    and whenever: either the connection ends (or still waits) with no frame
    written and no channel touched, or what it sent within the first 64 KiB
    decodes, however it was cut into reads, to a stream whose first frame is a
    [Hello] on the control lane presenting a secret with the same digest as the
    keeper's; the first frame written is the answer to it. *)
Theorem authentication_gate w k capability watch now auth_turns env turns watch' k' written e :
  serve_one w k capability watch now auth_turns env turns = Some (watch', k', written, e) ->
  (written = [] /\ channels k' = channels k) \/
  exists reads d behind, reads `prefix_of` reads_of auth_turns /\ proved capability reads d behind /\
    exists answer rest, written = answer :: rest /\ frame_type answer = HelloResp.
Proof.
  unfold serve_one, serve_authenticated. intros H.
  destruct (authenticate _ _ _ _ _ _ _ _) as [[watch1 [|d behind w1|e1]]|] eqn:Ha; [| | |done].
  - simplify_eq. by left.
  - right. destruct (authenticate_proved _ _ _ _ _ _ _ _ _ _ _ _ [] eq_refl eq_refl Ha)
      as (reads & Hpre & Hproved & answer & -> & Ht).
    exists reads, d, behind. split_and!; [done..|]. exists answer.
    assert (Hw : [answer] `prefix_of` written).
    { destruct (answer_events _ _ _ _ _ _) as [[[k2 w2] [e2|]]|] eqn:He; [| |done];
        apply answer_events_prefix in He; simplify_eq; [done|].
      destruct (forward_until_end _ _ _ _ _) as [[[[watch3 k3] w3] e3]|] eqn:Hf; [|done]. simplify_eq.
      etrans; [exact He|]. by eapply forward_until_end_prefix. }
    destruct Hw as [rest ->]. by exists rest.
  - simplify_eq. by left.
Qed.

(** A conditional shutdown on the control lane is decided by the registry: if
    no channel is live it is acknowledged and the daemon stops; if one is, it is
    refused and the daemon keeps serving; and nothing behind it in the read is
    handled, so no spawn can follow an accepted retirement. *)
Theorem conditional_shutdown_exact env k raw payload events i stopping written n :
  snd (env i) = true ->
  answer_events env (Frame (Some ShutdownIfEmpty) raw 0 payload :: events) i stopping k written
  = Some (if decide (channels k = ∅)
          then (k, written ++ [mkMuxFrame ShutdownIfEmptyAck 0 []], Some ShutdownIfEmptyAccepted)
          else (k, written ++ [mkMuxFrame ShutdownIfEmptyReject 0 []], Some ShutdownIfEmptyRefused)) /\
  (exists reason, decide_end ShutdownIfEmptyAccepted n = Stop reason) /\
  decide_end ShutdownIfEmptyRefused n = KeepServing.
Proof.
  intros Hw. split_and!; [|by eexists|done]. cbn [answer_events].
  assert (Hh : handle (fst (env i)) k (mkMuxFrame ShutdownIfEmpty 0 payload)
    = Some (k, [], [mkMuxFrame (if is_empty k then ShutdownIfEmptyAck else ShutdownIfEmptyReject) 0 []])) by done.
  rewrite Hh, Hw. cbn [negb]. unfold is_empty, channel_count.
  destruct (decide (channels k = ∅)) as [->|Hne]; [by rewrite map_size_empty|].
  assert (Hz : Z.of_nat (size (channels k)) =? 0 = false); [|by rewrite Hz].
  apply Z.eqb_neq. intros Hz. apply Hne, map_size_empty_iff. lia.
Qed.

(** A conditional shutdown on the wrong lane retires a keeper that holds live
    PTYs. [dispatch] ignores a [ShutdownIfEmpty] that names a channel, so it is
    neither acknowledged nor refused; but [answer_events] reads "no refusal" as
    acceptance, reports the keeper empty, and the daemon stops and reaps every
    channel. *)
Theorem wrong_lane_shutdown_stops env k raw id payload events i stopping written n :
  id <> 0 -> snd (env i) = true ->
  answer_events env (Frame (Some ShutdownIfEmpty) raw id payload :: events) i stopping k written
    = Some (k, written, Some ShutdownIfEmptyAccepted) /\
  exists reason, decide_end ShutdownIfEmptyAccepted n = Stop reason.
Proof.
  intros Hid Hw. split; [|by eexists]. cbn [answer_events].
  unfold handle, dispatch. cbn [frame_type frame_channel]. rewrite (proj2 (Z.eqb_neq _ _) Hid).
  cbn. rewrite Hw. cbn. by rewrite app_nil_r.
Qed.

(** A frame that asks the keeper to stop. *)
Definition asks_to_stop (ev : StreamEvent) : Prop :=
  match ev with Frame (Some Shutdown) _ _ _ | Frame (Some ShutdownIfEmpty) _ _ _ => True | _ => False end.

Lemma answer_events_stop env events i stopping k written k' written' e n reason :
  answer_events env events i stopping k written = Some (k', written', Some e) ->
  decide_end e n = Stop reason -> stopping = true \/ Exists asks_to_stop events.
Proof.
  revert i stopping k written. induction events as [|[[t|] raw channel payload|] events IH];
    intros i stopping k written H Hd; cbn in H.
  - destruct stopping; [by left|done].
  - destruct (handle _ _ _) as [[[k1 es] replies]|]; [|done]. case_if; [by simplify_eq|].
    destruct t; try (by right; constructor);
      (apply IH in H as [Hs|Hs]; [by left|right; by apply Exists_cons_tl|done]).
  - apply IH in H as [Hs|Hs]; [by left|right; by apply Exists_cons_tl|done].
  - by simplify_eq.
Qed.

(** The keeper outlives its worker. A turn of the connection loop leads the
    daemon to stop only when its exit watch fired, or when the bytes received
    in that turn hold a [Shutdown] or [ShutdownIfEmpty] frame; a disconnect, a
    protocol violation, a failed write or an unframeable payload never does. *)
Theorem keeper_outlives_worker t watch d k watch' d' k' written e n reason :
  forward_turn t watch d k = Some (watch', d', k', written, Some e) ->
  decide_end e n = Stop reason ->
  is_Some (snd (poll_exit watch (t_observed t))) \/
  exists bytes d1 events, t_received t = Event (Signal.Received bytes) /\
    push d bytes = Some (d1, events) /\ Exists asks_to_stop events.
Proof.
  unfold forward_turn. intros H Hd. destruct (poll_exit watch (t_observed t)) as [w1 [cause|]]; [by left|].
  right. destruct (turn_output t k []) as [[[k1 w2] [e1|]]|] eqn:Ho; [| |done].
  { simplify_eq. exfalso. unfold turn_output in Ho.
    repeat (case_match; simplify_eq; try done). }
  destruct (output_backlogged _ _) as [[[k2 e2] r2]|]; [|done].
  destruct (t_received t) as [[bytes| |]| |]; simplify_eq.
  destruct (push d bytes) as [[d1 events]|] eqn:Hp; [|done].
  destruct (answer_events _ _ _ _ _ _) as [[[k3 w3] e3]|] eqn:Ha; simplify_eq.
  exists bytes, d', events. split_and!; [done..|]. by eapply answer_events_stop in Ha as [|].
Qed.

End ServerFacts.

(** ** Witnesses *)

(** A digest for the worked examples: the message cut or padded to 32 bytes. *)
Definition pad_digest (m : list byte) : list byte := take 32 (m ++ replicate 32 Byte.x00).

Lemma length_pad_digest m : length (pad_digest m) = 32%nat.
Proof. unfold pad_digest. rewrite length_take, length_app, length_replicate. lia. Qed.

#[global] Instance demo_sha : Sha256 := { sha256 := pad_digest; sha256_len := length_pad_digest }.

Definition quiet : observed := mkObserved false 0 true.
Definition demo_env : nat -> World * bool := fun _ => (demo_world, true).
Definition hello_read : list byte :=
  encode (mkMuxFrame Hello 0 [Byte.x7b; Byte.x7d]) ++ encode (mkMuxFrame ListChannels 0 []).

Definition demo_connection :=
  serve_one demo_world demo_keeper "" None 0
    [(quiet, Event (Signal.Received (take 5 hello_read)), true);
     (quiet, Event Signal.Output, true);
     (quiet, Event (Signal.Received (drop 5 hello_read)), true)] demo_env [].

Lemma authentication_gate_witness :
  let '(_, k', written, _) := default (None, demo_keeper, [], None) demo_connection in
  map frame_type written = [HelloResp; ListChannelsResp] /\
  ((written = [] /\ channels k' = channels demo_keeper) \/
  exists reads d behind,
    reads `prefix_of` [take 5 hello_read; drop 5 hello_read] /\ proved "" reads d behind /\
    exists answer rest, written = answer :: rest /\ frame_type answer = HelloResp).
Proof.
  destruct (default (None, demo_keeper, [], None) demo_connection) as [[[w' k'] written] e] eqn:E.
  assert (Hsome : demo_connection = Some (w', k', written, e)).
  { rewrite <- E. by vm_compute. }
  split.
  - assert (Hm : map frame_type (snd (fst (default (None, demo_keeper, [], None) demo_connection)))
      = [HelloResp; ListChannelsResp]) by by vm_compute.
    by rewrite E in Hm.
  - exact (authentication_gate _ _ _ _ _ _ _ _ _ _ _ _ Hsome).
Defined.

Lemma conditional_shutdown_exact_witness :
  answer_events demo_env [Frame (Some ShutdownIfEmpty) Byte.xec 0 []] 0 false demo_keeper []
  = Some (if decide (channels demo_keeper = ∅)
          then (demo_keeper, [mkMuxFrame ShutdownIfEmptyAck 0 []], Some ShutdownIfEmptyAccepted)
          else (demo_keeper, [mkMuxFrame ShutdownIfEmptyReject 0 []], Some ShutdownIfEmptyRefused)) /\
  (exists reason, decide_end ShutdownIfEmptyAccepted 1 = Stop reason) /\
  decide_end ShutdownIfEmptyRefused 1 = KeepServing.
Proof. by apply (conditional_shutdown_exact demo_env demo_keeper Byte.xec [] [] 0 false []). Defined.

Lemma wrong_lane_shutdown_stops_witness :
  channel_count demo_keeper = 1 /\
  answer_events demo_env [Frame (Some ShutdownIfEmpty) Byte.xec 1 []] 0 false demo_keeper []
    = Some (demo_keeper, [], Some ShutdownIfEmptyAccepted) /\
  exists reason, decide_end ShutdownIfEmptyAccepted 1 = Stop reason.
Proof.
  split; [by vm_compute|]. by apply (wrong_lane_shutdown_stops demo_env demo_keeper Byte.xec 1 [] [] 0 false []).
Defined.

Definition demo_turn : turn := mkTurn quiet [1] [1] [1] demo_world true (fun _ => true)
  (Event (Signal.Received (encode (mkMuxFrame Shutdown 0 [])))) demo_env.

Lemma keeper_outlives_worker_witness :
  is_Some (snd (poll_exit None (t_observed demo_turn))) \/
  exists bytes d1 events, t_received demo_turn = Event (Signal.Received bytes) /\
    push FrameDecoder_new bytes = Some (d1, events) /\ Exists asks_to_stop events.
Proof.
  destruct (forward_turn demo_turn None FrameDecoder_new demo_keeper) as [[[[[w d] k] written] e]|] eqn:E;
    [|exfalso; revert E; by vm_compute].
  assert (He : e = Some ShutdownRequestedWithChannels).
  { assert (Hs : snd <$> forward_turn demo_turn None FrameDecoder_new demo_keeper
      = Some (Some ShutdownRequestedWithChannels)) by by vm_compute.
    rewrite E in Hs. by injection Hs. }
  subst e. by apply (keeper_outlives_worker demo_turn None FrameDecoder_new demo_keeper w d k written
    ShutdownRequestedWithChannels 1 "shutdown requested with channels live" E).
Defined.
