(* ===== verification/Viewport.v ===== *)
(** * Viewport: terminal geometry and the identifiers of terminal views

    Models [src/crates/roost-protocol/src/viewport.rs] and the checks of
    [validate.rs] and [wire/brand.rs] that the terminal view registry relies
    on: the limits of a grid, the per-axis minimum that decides a PTY's size,
    the UUID shapes, and [SessionId].  A Rust [String] is its sequence of
    bytes, a Rocq [string].  [clamp_terminal_geometry] works on [f64] and is
    not modelled. *)
From stdpp Require Export sorting pretty.
From Stdlib Require Import Ascii String.
From S2P Require Export Prelude.

(** ** Limits *)

Definition TERMINAL_MAX_COLS : Z := 256.
Definition TERMINAL_MAX_ROWS : Z := 256.
Definition TERMINAL_VIEW_LEASE_MS : Z := 15000.
Definition TERMINAL_VIEW_PARK_GRACE_MS : Z := 2000.
Definition TERMINAL_SOCKET_VIEW_CAP : nat := 64.
Definition UUID_LEN : nat := 36.

Record TerminalGeometry := mkTerminalGeometry { cols : Z; rows : Z }.

#[global] Instance TerminalGeometry_eq_dec : EqDecision TerminalGeometry.
Proof. solve_decision. Defined.

Record ProtocolError := mkProtocolError { field : string; reason : string }.

(** ** UUID shapes *)

Definition code (b : ascii) : Z := Z.of_N (N_of_ascii b).

Definition in_range (lo hi : ascii) (b : ascii) : bool :=
  (code lo <=? code b) && (code b <=? code hi).

(** [u8::is_ascii_hexdigit]. *)
Definition is_ascii_hexdigit (b : ascii) : bool :=
  in_range "0" "9" b || in_range "a" "f" b || in_range "A" "F" b.

Definition is_dash_position (position : nat) : bool :=
  existsb (Nat.eqb position) [8; 13; 18; 23]%nat.

(** The enumerated loop both UUID checks run over the bytes. *)
Fixpoint uuid_bytes (position : nat) (bytes : list ascii) : bool :=
  match bytes with
  | [] => true
  | byte :: rest =>
      (if is_dash_position position then Ascii.eqb byte "-" else is_ascii_hexdigit byte)
      && uuid_bytes (S position) rest
  end.

(** [validate::uuid], the check behind [SessionId::try_from]. *)
Definition uuid (value : string) : bool :=
  let bytes := list_ascii_of_string value in
  Nat.eqb (length bytes) UUID_LEN && uuid_bytes 0 bytes.

(** [viewport::is_terminal_uuid]: the version and variant nibbles too. *)
Definition is_terminal_uuid (value : string) : bool :=
  let bytes := list_ascii_of_string value in
  if negb (Nat.eqb (length bytes) UUID_LEN) then false
  else if negb (uuid_bytes 0 bytes) then false
  else
    match bytes !! 14%nat, bytes !! 19%nat with
    | Some version, Some variant =>
        in_range "1" "8" version
        && existsb (Ascii.eqb variant) ["8"; "9"; "a"; "A"; "b"; "B"]%char
    | _, _ => false
    end.

(** [SessionId]: a string that passed [uuid]; here the string itself, and
    [try_from] as the partial function the registry calls. *)
Abbreviation SessionId := string (only parsing).

Definition SessionId_try_from (value : string) : option SessionId :=
  if uuid value then Some value else None.

(** ** Geometry *)

Definition is_terminal_geometry (value : TerminalGeometry) : bool :=
  (1 <=? cols value) && (cols value <=? TERMINAL_MAX_COLS)
  && (1 <=? rows value) && (rows value <=? TERMINAL_MAX_ROWS).

Definition assert_terminal_geometry (value : TerminalGeometry) :
    result TerminalGeometry ProtocolError :=
  if negb (is_terminal_geometry value) then
    Err (mkProtocolError "terminal_geometry"
      ("terminal geometry " +:+ pretty (cols value) +:+ "x" +:+ pretty (rows value)
         +:+ " is outside 1..256x1..256"))
  else Ok value.

Fixpoint minimum_loop (geometries : list TerminalGeometry) (c r : Z) (seen : bool) :
    result (option TerminalGeometry) ProtocolError :=
  match geometries with
  | [] => Ok (if seen then Some (mkTerminalGeometry c r) else None)
  | geometry :: rest =>
      let? _ := assert_terminal_geometry geometry in
      minimum_loop rest (Z.min c (cols geometry)) (Z.min r (rows geometry)) true
  end.

Definition minimum_terminal_geometry (geometries : list TerminalGeometry) :
    result (option TerminalGeometry) ProtocolError :=
  minimum_loop geometries (TERMINAL_MAX_COLS + 1) (TERMINAL_MAX_ROWS + 1) false.

(** ** The order of a [BTreeSet<String>]'s iteration *)

Definition string_le (a b : string) : Prop := String.leb a b = true.

#[global] Instance string_le_dec a b : Decision (string_le a b).
Proof. unfold string_le. apply _. Defined.

Definition btree (s : gset string) : list string := merge_sort string_le (elements s).

Lemma btree_perm s : btree s ≡ₚ elements s.
Proof. apply merge_sort_Permutation. Qed.

Lemma elem_of_btree s k : k ∈ btree s <-> k ∈ s.
Proof. by rewrite btree_perm, elem_of_elements. Qed.

Lemma length_btree s : length (btree s) = size s.
Proof. unfold size, set_size. cbn. by rewrite btree_perm. Qed.

Lemma NoDup_btree s : NoDup (btree s).
Proof. rewrite btree_perm. apply NoDup_elements. Qed.

(** The entries of a [BTreeMap] keyed by strings, and its values, in the order
    of the keys. *)
Definition bindings {V} (m : gmap string V) : list (string * V) :=
  omap (fun key => (fun v => (key, v)) <$> m !! key) (btree (dom m)).

Definition values {V} (m : gmap string V) : list V := snd <$> bindings m.

Lemma elem_of_bindings {V} (m : gmap string V) key v : (key, v) ∈ bindings m <-> m !! key = Some v.
Proof.
  unfold bindings. rewrite list_elem_of_omap. setoid_rewrite elem_of_btree. split.
  - intros (k & _ & E). destruct (m !! k) as [w|] eqn:Ek; [|done]. cbn in E. congruence.
  - intros E. exists key. split; [by apply elem_of_dom_2 in E|]. by rewrite E.
Qed.

Lemma bindings_keys {V} (m : gmap string V) : fst <$> bindings m = btree (dom m).
Proof.
  unfold bindings. assert (Hall : Forall (fun key => is_Some (m !! key)) (btree (dom m))).
  { apply Forall_forall. intros key. rewrite elem_of_btree. apply elem_of_dom. }
  induction Hall as [|key keys [v E] _ IH]; [done|]. cbn. rewrite E. cbn. by f_equal.
Qed.

Lemma NoDup_bindings_keys {V} (m : gmap string V) : NoDup (fst <$> bindings m).
Proof. rewrite bindings_keys. apply NoDup_btree. Qed.

Lemma bindings_perm {V} (m : gmap string V) : bindings m ≡ₚ map_to_list m.
Proof.
  apply NoDup_Permutation; [eapply NoDup_fmap_1, NoDup_bindings_keys|apply NoDup_map_to_list|].
  intros [key v]. by rewrite elem_of_bindings, elem_of_map_to_list.
Qed.

Lemma values_spec {V} (m : gmap string V) : values m ≡ₚ snd <$> map_to_list m.
Proof. unfold values. by rewrite bindings_perm. Qed.

Lemma elem_of_values {V} (m : gmap string V) v : v ∈ values m <-> exists key, m !! key = Some v.
Proof.
  unfold values. rewrite list_elem_of_fmap. split.
  - intros ([key w] & -> & Hin). exists key. by apply elem_of_bindings.
  - intros [key E]. exists (key, v). split; [done|by apply elem_of_bindings].
Qed.

(** ** Facts *)

Lemma is_terminal_uuid_uuid v : is_terminal_uuid v = true -> uuid v = true.
Proof.
  unfold is_terminal_uuid, uuid.
  destruct (length _ =? UUID_LEN)%nat; cbn [negb andb]; [|done].
  by destruct (uuid_bytes 0 _).
Qed.

Lemma SessionId_try_from_terminal v :
  is_terminal_uuid v = true -> SessionId_try_from v = Some v.
Proof. intros H%is_terminal_uuid_uuid. unfold SessionId_try_from. by rewrite H. Qed.

Lemma SessionId_try_from_Some v s : SessionId_try_from v = Some s -> s = v.
Proof. unfold SessionId_try_from. case_if; congruence. Qed.

Lemma length_list_ascii s : length (list_ascii_of_string s) = String.length s.
Proof. induction s as [|a s IH]; cbn; [done|by rewrite IH]. Qed.

Lemma is_terminal_uuid_length v :
  is_terminal_uuid v = true -> String.length v = UUID_LEN.
Proof.
  unfold is_terminal_uuid. rewrite length_list_ascii.
  destruct (Nat.eqb_spec (String.length v) UUID_LEN); by cbn [negb].
Qed.

Lemma is_terminal_geometry_spec g :
  is_terminal_geometry g = true <-> 1 <= cols g <= 256 /\ 1 <= rows g <= 256.
Proof.
  unfold is_terminal_geometry, TERMINAL_MAX_COLS, TERMINAL_MAX_ROWS.
  rewrite !andb_true_iff, !Z.leb_le. lia.
Qed.

(** The least value of [f] over [l], below [top]. *)
Definition axis_minimum (f : TerminalGeometry -> Z) (top : Z) (l : list TerminalGeometry) : Z :=
  foldr (fun g m => Z.min (f g) m) top l.

Lemma axis_minimum_le f top l g : g ∈ l -> axis_minimum f top l <= f g.
Proof. induction 1; cbn [axis_minimum foldr]; fold (axis_minimum f top); [lia|]. unfold axis_minimum in *. lia. Qed.

Lemma axis_minimum_top f top l : axis_minimum f top l <= top.
Proof. induction l as [|x l IH]; cbn; [lia|]. unfold axis_minimum in *. lia. Qed.

Lemma axis_minimum_min f c top l :
  Z.min c (axis_minimum f top l) = axis_minimum f (Z.min c top) l.
Proof. induction l as [|g l IH]; cbn; [done|]. unfold axis_minimum in *. lia. Qed.

Lemma axis_minimum_attained f top l :
  l <> [] -> Forall (fun g => f g <= top) l ->
  exists g, g ∈ l /\ axis_minimum f top l = f g.
Proof.
  induction l as [|g l IH]; intros Hne Hall; [done|].
  apply Forall_cons in Hall as [Hg Hall]. cbn [axis_minimum foldr].
  fold (axis_minimum f top l). destruct l as [|g' l].
  - exists g. split; [left|]. cbn. lia.
  - destruct IH as (x & Hx & Heq); [done|done|]. rewrite Heq.
    destruct (Z.le_ge_cases (f g) (f x)).
    + exists g. split; [left|lia].
    + exists x. split; [by right|lia].
Qed.

Lemma minimum_loop_ok gs c r seen :
  Forall (fun g => is_terminal_geometry g = true) gs ->
  minimum_loop gs c r seen
  = Ok (if seen || negb (Nat.eqb (length gs) 0)
        then Some (mkTerminalGeometry (axis_minimum cols c gs) (axis_minimum rows r gs))
        else None).
Proof.
  intros Hall. revert c r seen.
  induction Hall as [|g gs Hg _ IH]; intros c r seen; cbn [minimum_loop length].
  - by rewrite orb_false_r.
  - unfold assert_terminal_geometry. rewrite Hg. cbn [negb].
    rewrite IH. cbn [orb negb Nat.eqb]. rewrite orb_true_r.
    unfold axis_minimum. cbn [foldr]. fold (axis_minimum cols c gs) (axis_minimum rows r gs).
    fold (axis_minimum cols (Z.min c (cols g)) gs) (axis_minimum rows (Z.min r (rows g)) gs).
    by rewrite !axis_minimum_min, (Z.min_comm c), (Z.min_comm r).
Qed.

Lemma minimum_terminal_geometry_ok gs :
  Forall (fun g => is_terminal_geometry g = true) gs ->
  minimum_terminal_geometry gs
  = Ok (match gs with
        | [] => None
        | _ => Some (mkTerminalGeometry (axis_minimum cols 257 gs) (axis_minimum rows 257 gs))
        end).
Proof.
  intros Hall. unfold minimum_terminal_geometry. rewrite minimum_loop_ok by done.
  by destruct gs.
Qed.

Lemma minimum_loop_err gs c r seen :
  ~ Forall (fun g => is_terminal_geometry g = true) gs ->
  is_ok (minimum_loop gs c r seen) = false.
Proof.
  revert c r seen. induction gs as [|g gs IH]; intros c r seen Hbad; [by destruct Hbad|].
  cbn [minimum_loop]. unfold assert_terminal_geometry.
  destruct (is_terminal_geometry g) eqn:Hg; cbn [negb]; [|done].
  apply IH. contradict Hbad. by constructor.
Qed.
