(* ===== verification/TerminalViewRecord.v ===== *)
(** * TerminalViewRecord: what a terminal view is, and what it leaves behind

    Models [terminal_view/record.rs] and [terminal_view/tombstone.rs] of
    [src/crates/roost-protocol/src]: a client's declaration, the record kept
    for it, the predicate that decides which records bind the PTY, the
    projections read from a set of records, and the store of retained claims
    (tombstones) with its recency order and its two caps. *)
From Stdlib Require Import Ascii String.
From S2P Require Export Viewport.

(** Distinct view records one session may hold. *)
Definition SESSION_VIEW_CAP : nat := 256.

(** ** Declarations *)

(** The fields of the wire message the registry reads. *)
Record TerminalViewCommand := mkTerminalViewCommand {
  cmd_view_id : string;
  cmd_session_id : string;
  cmd_cols : Z;
  cmd_rows : Z;
  cmd_revision : Z;
  cmd_active : bool;
}.

Record ViewIntent := mkViewIntent {
  intent_session_id : string;
  intent_cols : Z;
  intent_rows : Z;
  intent_active : bool;
}.

#[global] Instance ViewIntent_eq_dec : EqDecision ViewIntent.
Proof. solve_decision. Defined.

(** The separator [format!("{viewer_key}\0{view_id}")] writes. *)
Definition NUL : ascii := Ascii.zero.

Definition view_key (viewer_key view_id : string) : string :=
  viewer_key +:+ String NUL view_id.

Definition intent_of (command : TerminalViewCommand) : ViewIntent :=
  mkViewIntent (cmd_session_id command) (cmd_cols command) (cmd_rows command)
    (cmd_active command).

Definition intents_equal (left right : ViewIntent) : bool :=
  String.eqb (intent_session_id left) (intent_session_id right)
  && (intent_cols left =? intent_cols right)
  && (intent_rows left =? intent_rows right)
  && Bool.eqb (intent_active left) (intent_active right).

(** The trust boundary for one view command: the reason it is refused. *)
Definition validate_view_command (viewer_key : option string)
    (command : TerminalViewCommand) : option string :=
  match viewer_key with
  | None => Some "terminal views require a tab-bound Sync socket"%string
  | Some _ =>
      if negb (is_terminal_uuid (cmd_view_id command))
      then Some "invalid terminal view id"%string
      else if negb (is_terminal_uuid (cmd_session_id command))
      then Some "invalid terminal session id"%string
      else if cmd_revision command <? 1
      then Some "invalid terminal view revision"%string
      else
        let claimed := mkTerminalGeometry (cmd_cols command) (cmd_rows command) in
        if cmd_active command && negb (is_terminal_geometry claimed)
        then Some "terminal geometry is outside 1..256"%string
        else if negb (cmd_active command)
                && ((TERMINAL_MAX_COLS <? cmd_cols command)
                    || (TERMINAL_MAX_ROWS <? cmd_rows command))
        then Some "inactive terminal geometry is outside 0..256"%string
        else None
  end.

(** ** Records *)

Record ViewRecord := mkViewRecord {
  rec_key : string;
  rec_view_id : string;
  rec_viewer_key : string;
  rec_fingerprint : string;
  rec_socket_id : string;
  rec_intent : ViewIntent;
  rec_revision : Z;
  rec_deadline_ms : Z;
  rec_parked : bool;
  rec_parked_at_ms : Z;
  rec_constrains : bool;
}.

#[global] Instance ViewRecord_eq_dec : EqDecision ViewRecord.
Proof. solve_decision. Defined.

Definition rec_geometry (record : ViewRecord) : TerminalGeometry :=
  mkTerminalGeometry (intent_cols (rec_intent record)) (intent_rows (rec_intent record)).

(** [ViewRecord::lease_deadline]. *)
Definition lease_deadline (now_ms : Z) : Z :=
  saturating_add64 now_ms TERMINAL_VIEW_LEASE_MS.

(** THE membership rule for effective geometry. *)
Definition view_constrains (record : ViewRecord) (now_ms : Z) : bool :=
  if rec_deadline_ms record <=? now_ms then false
  else negb (rec_parked record)
       || (now_ms <? saturating_add64 (rec_parked_at_ms record) TERMINAL_VIEW_PARK_GRACE_MS).

(** [machine::session_of]. *)
Definition session_of (record : ViewRecord) : option SessionId :=
  SessionId_try_from (intent_session_id (rec_intent record)).

(** ** Projections of one session's membership *)

Record GeometrySet := mkGeometrySet { live : list TerminalGeometry; retained : nat }.

Record ViewStats := mkViewStats { stats_active : nat; stats_parked : nat }.

Record ViewInput := mkViewInput {
  input_fingerprint : string;
  input_view_id : string;
  input_cols : Z;
  input_rows : Z;
  input_parked : bool;
  input_constrains : bool;
}.

(** [impl From<&ViewRecord> for ViewInput]. *)
Definition ViewInput_from (record : ViewRecord) : ViewInput :=
  mkViewInput (rec_fingerprint record) (rec_view_id record)
    (intent_cols (rec_intent record)) (intent_rows (rec_intent record))
    (rec_parked record) (rec_constrains record).

(** The walk every projection makes: the set's keys in order, those without a
    record skipped. *)
Definition records_at (views : gmap string ViewRecord) (keys : option (gset string)) :
    list ViewRecord :=
  omap (fun key => views !! key) (btree (default ∅ keys)).

Definition geometry_set (views : gmap string ViewRecord) (keys : option (gset string))
    (now_ms : Z) : GeometrySet :=
  let records := records_at views keys in
  mkGeometrySet
    (rec_geometry <$> base.filter (fun record => view_constrains record now_ms = true) records)
    (length records).

Definition project_inputs (views : gmap string ViewRecord) (keys : option (gset string))
    (now_ms : Z) : list ViewInput :=
  (fun record =>
     let input := ViewInput_from record in
     mkViewInput (input_fingerprint input) (input_view_id input) (input_cols input)
       (input_rows input) (input_parked input) (view_constrains record now_ms))
  <$> records_at views keys.

Definition active_fingerprints (views : gmap string ViewRecord)
    (keys : option (gset string)) : gset string :=
  list_to_set (rec_fingerprint <$> records_at views keys).

(** [grouped.entry(fingerprint).or_default().push(geometry)]. *)
Definition group_step (grouped : gmap string (list TerminalGeometry)) (record : ViewRecord) :
    gmap string (list TerminalGeometry) :=
  <[rec_fingerprint record :=
      default [] (grouped !! rec_fingerprint record) ++ [rec_geometry record]]> grouped.

Definition project_session (views : gmap string ViewRecord) (keys : gset string) :
    option (gmap string TerminalGeometry) :=
  let grouped := foldl group_step ∅ (records_at views (Some keys)) in
  let viewers :=
    omap (fun geometries =>
            match minimum_terminal_geometry geometries with
            | Ok (Some geometry) => Some geometry
            | _ => None
            end) grouped in
  if decide (viewers = ∅) then None else Some viewers.

Definition project_viewers (session_views : gmap SessionId (gset string))
    (views : gmap string ViewRecord) : gmap SessionId (gmap string TerminalGeometry) :=
  omap (project_session views) session_views.

(** ** Retained claims *)

Definition VIEWER_TOMBSTONE_CAP : nat := 128.
Definition PROCESS_TOMBSTONE_CAP : Z := 131072.

Record Tombstone := mkTombstone {
  tomb_key : string;
  tomb_viewer_key : string;
  tomb_revision : Z;
  tomb_intent : ViewIntent;
  tomb_expires_ms : Z;
  tomb_sequence : Z;
}.

Record TombstoneStore := mkTombstoneStore {
  entries : gmap string Tombstone;
  order : list (string * Z);
  next_sequence : Z;
}.

Definition TombstoneStore_new : TombstoneStore := mkTombstoneStore ∅ [] 0.

Definition tombstones_get (store : TombstoneStore) (key : string) : option Tombstone :=
  entries store !! key.

Definition tombstones_remove (store : TombstoneStore) (key : string) : TombstoneStore :=
  mkTombstoneStore (delete key (entries store)) (order store) (next_sequence store).

(** Forget every claim [doomed] selects: the collect-then-remove loop of
    [remove_viewer], [remove_session] and [expire]. *)
Definition tombstones_remove_where (store : TombstoneStore) (doomed : Tombstone -> bool) :
    TombstoneStore :=
  mkTombstoneStore (base.filter (fun kt => doomed (snd kt) = false) (entries store))
    (order store) (next_sequence store).

Definition held_by (fingerprint viewer_key : string) : bool :=
  String.eqb viewer_key fingerprint || String.prefix (fingerprint +:+ ":") viewer_key.

Definition remove_viewer (store : TombstoneStore) (fingerprint : string) : TombstoneStore :=
  tombstones_remove_where store (fun t => held_by fingerprint (tomb_viewer_key t)).

Definition remove_session (store : TombstoneStore) (session_id : string) : TombstoneStore :=
  tombstones_remove_where store
    (fun t => String.eqb (intent_session_id (tomb_intent t)) session_id).

Definition expire (store : TombstoneStore) (now_ms : Z) : TombstoneStore :=
  tombstones_remove_where store (fun t => tomb_expires_ms t <=? now_ms).

(** [evict_oldest]: pops the order list until a live entry decides. *)
Fixpoint evict_walk (wanted : Tombstone -> bool) (claims : gmap string Tombstone)
    (queue : list (string * Z)) : bool * gmap string Tombstone * list (string * Z) :=
  match queue with
  | [] => (false, claims, [])
  | (key, sequence) :: rest =>
      match claims !! key with
      | None => evict_walk wanted claims rest
      | Some tombstone =>
          if negb (tomb_sequence tombstone =? sequence) then evict_walk wanted claims rest
          else if negb (wanted tombstone) then (false, claims, (key, sequence) :: rest)
          else (true, delete key claims, rest)
      end
  end.

Definition evict_oldest (wanted : Tombstone -> bool) (store : TombstoneStore) :
    bool * TombstoneStore :=
  let '(evicted, claims, queue) := evict_walk wanted (entries store) (order store) in
  (evicted, mkTombstoneStore claims queue (next_sequence store)).

(** The first loop of [evict]; every eviction removes one claim, so the number
    of claims bounds its passes. *)
Fixpoint evict_process (passes : nat) (store : TombstoneStore) : TombstoneStore :=
  match passes with
  | O => store
  | S passes' =>
      if PROCESS_TOMBSTONE_CAP <? Z.of_nat (size (entries store)) then
        let '(evicted, store') := evict_oldest (fun _ => true) store in
        if evicted then evict_process passes' store' else store'
      else store
  end.

(** The second loop of [evict], counting [own] down. *)
Fixpoint evict_viewer (viewer_key : string) (own : nat) (store : TombstoneStore) :
    TombstoneStore :=
  match own with
  | O => store
  | S own' =>
      if (VIEWER_TOMBSTONE_CAP <? own)%nat then
        let '(evicted, store') :=
          evict_oldest (fun t => String.eqb (tomb_viewer_key t) viewer_key) store in
        if evicted then evict_viewer viewer_key own' store' else store'
      else store
  end.

Definition claims_of (viewer_key : string) (store : TombstoneStore) : nat :=
  length (base.filter (fun kt => tomb_viewer_key (snd kt) = viewer_key)
            (map_to_list (entries store))).

Definition evict (store : TombstoneStore) (viewer_key : string) : TombstoneStore :=
  let store := evict_process (size (entries store)) store in
  evict_viewer viewer_key (claims_of viewer_key store) store.

Definition retain (store : TombstoneStore) (now_ms : Z) (key viewer_key : string)
    (revision : Z) (intent : ViewIntent) : TombstoneStore :=
  let sequence := next_sequence store + 1 in
  evict
    (mkTombstoneStore
       (<[key := mkTombstone key viewer_key revision intent
                   (saturating_add64 now_ms TERMINAL_VIEW_LEASE_MS) sequence]> (entries store))
       (order store ++ [(key, sequence)])
       sequence)
    viewer_key.
