(* ===== verification/TerminalViewRegistry.v ===== *)
(** * TerminalViewRegistry: membership of terminal views

    Models [terminal_view/{machine,commands,admit_view,registry,sink}.rs] and
    [terminal_view/registry/queries.rs] of [src/crates/roost-protocol/src]:
    the four indexes of the registry, the command machine that admits,
    updates, reclaims and releases views, the life of a socket, the lease
    sweep, revocation and session close, and the effects each returns.

    [Machine] borrows the registry's four maps, so its methods are functions
    from a registry to a registry.  A [HashMap]'s iteration order is
    unspecified: an operation that iterates one takes the order as an
    argument.  Sinks and log lines are not modelled: the registry only stores
    the former and never calls out. *)
From Stdlib Require Import Ascii String.
From S2P Require Export TerminalViewRecord.

(** ** Effects *)

(** The statuses of the wire's [TerminalViewStatus] the registry is given. *)
Inductive TerminalViewStatus := Accepted | Rejected | Unavailable.

Inductive PendingReply :=
| ReplyCommand (socket_id view_id session_id : string) (revision : Z) (active : bool)
    (status : TerminalViewStatus) (reason : string)
| ReplyView (socket_id view_id session_id : string) (revision : Z)
    (status : TerminalViewStatus) (reason : string).

Inductive SinkCall :=
| Watching (socket_id : string) (session_id : SessionId) (watching : bool)
| Resync (socket_id : string) (session_id : SessionId) (grid_epoch : string) (seq : Z)
| LiveViewExpired (socket_id view_id : string) (session_id : SessionId).

(** [PendingReply::socket_id], [PendingReply::session_id]. *)
Definition reply_socket_id (reply : PendingReply) : string :=
  match reply with
  | ReplyCommand socket_id _ _ _ _ _ _ | ReplyView socket_id _ _ _ _ _ => socket_id
  end.

Definition reply_session_id (reply : PendingReply) : string :=
  match reply with
  | ReplyCommand _ _ session_id _ _ _ _ | ReplyView _ _ session_id _ _ _ => session_id
  end.

Record MembershipOutcome := mkMembershipOutcome {
  changed : gset SessionId;
  replies : list PendingReply;
  calls : list SinkCall;
}.

Definition no_outcome : MembershipOutcome := mkMembershipOutcome ∅ [] [].

Definition note_changed (session_id : SessionId) (o : MembershipOutcome) : MembershipOutcome :=
  mkMembershipOutcome (changed o ∪ {[session_id]}) (replies o) (calls o).

Definition push_reply (reply : PendingReply) (o : MembershipOutcome) : MembershipOutcome :=
  mkMembershipOutcome (changed o) (replies o ++ [reply]) (calls o).

Definition push_call (call : SinkCall) (o : MembershipOutcome) : MembershipOutcome :=
  mkMembershipOutcome (changed o) (replies o) (calls o ++ [call]).

(** [MembershipOutcome::answer_view]. *)
Definition answer_view (record : ViewRecord) (status : TerminalViewStatus) (reason : string) :
    MembershipOutcome -> MembershipOutcome :=
  push_reply (ReplyView (rec_socket_id record) (rec_view_id record)
                (intent_session_id (rec_intent record)) (rec_revision record) status reason).

(** [MembershipOutcome::refuse]. *)
Definition refuse (socket_id : string) (command : TerminalViewCommand) (reason : string) :
    MembershipOutcome -> MembershipOutcome :=
  push_reply (ReplyCommand socket_id (cmd_view_id command) (cmd_session_id command)
                (cmd_revision command) (cmd_active command) Rejected reason).

(** [MembershipOutcome::accept_inactive]. *)
Definition accept_inactive (socket_id : string) (command : TerminalViewCommand) :
    MembershipOutcome -> MembershipOutcome :=
  push_reply (ReplyCommand socket_id (cmd_view_id command) (cmd_session_id command)
                (cmd_revision command) false Accepted "").

(** ** The registry *)

Record SocketRegistration := mkSocketRegistration {
  reg_socket_id : string;
  reg_viewer_key : option string;
  reg_caller_fingerprint : string;
  reg_session_ids : gset string;
}.

Record SocketRecord := mkSocketRecord {
  sock_id : string;
  sock_viewer_key : option string;
  sock_fingerprint : string;
  sock_allowed_sessions : gset string;
  sock_views : gset string;
}.

(** [SocketRecord::allows]. *)
Definition allows (socket : SocketRecord) (session_id : string) : bool :=
  bool_decide (session_id ∈ sock_allowed_sessions socket).

Record ViewRegistry := mkViewRegistry {
  sockets : gmap string SocketRecord;
  views : gmap string ViewRecord;
  session_views : gmap SessionId (gset string);
  tombstones : TombstoneStore;
}.

Definition ViewRegistry_new : ViewRegistry := mkViewRegistry ∅ ∅ ∅ TombstoneStore_new.

Definition with_sockets (r : ViewRegistry) m := mkViewRegistry m (views r) (session_views r) (tombstones r).
Definition with_views (r : ViewRegistry) m := mkViewRegistry (sockets r) m (session_views r) (tombstones r).
Definition with_tombstones (r : ViewRegistry) t := mkViewRegistry (sockets r) (views r) (session_views r) t.

Definition with_sock_views (socket : SocketRecord) (keys : gset string) : SocketRecord :=
  mkSocketRecord (sock_id socket) (sock_viewer_key socket) (sock_fingerprint socket)
    (sock_allowed_sessions socket) keys.

Definition with_allowed (socket : SocketRecord) (sessions : gset string) : SocketRecord :=
  mkSocketRecord (sock_id socket) (sock_viewer_key socket) (sock_fingerprint socket)
    sessions (sock_views socket).

(** ** The machine *)

Definition view_count (r : ViewRegistry) (socket_id : string) : nat :=
  match sockets r !! socket_id with Some socket => size (sock_views socket) | None => 0%nat end.

Definition session_count (r : ViewRegistry) (session_id : SessionId) : nat :=
  match session_views r !! session_id with Some keys => size keys | None => 0%nat end.

(** The session index once [key] is gone from [session_id]'s set. *)
Definition unindex (index : gmap SessionId (gset string)) (session_id : SessionId)
    (key : string) : gmap SessionId (gset string) :=
  match index !! session_id with
  | None => index
  | Some keys =>
      let keys := keys ∖ {[key]} in
      if decide (keys = ∅) then delete session_id index else <[session_id := keys]> index
  end.

Definition drop_record (r : ViewRegistry) (key : string) (save : bool) (now_ms : Z)
    (claim : option (Z * ViewIntent)) : ViewRegistry :=
  match views r !! key with
  | None => r
  | Some record =>
      mkViewRegistry
        (alter (fun socket => with_sock_views socket (sock_views socket ∖ {[key]}))
           (rec_socket_id record) (sockets r))
        (delete key (views r))
        (match session_of record with
         | Some session_id => unindex (session_views r) session_id key
         | None => session_views r
         end)
        (if save then
           let '(revision, intent) := default (rec_revision record, rec_intent record) claim in
           retain (tombstones r) now_ms key (rec_viewer_key record) revision intent
         else tombstones r)
  end.

Definition sync_watching (r : ViewRegistry) (socket_id : string) (session_id : SessionId) :
    SinkCall :=
  Watching socket_id session_id
    (existsb (fun record => String.eqb (rec_socket_id record) socket_id
                            && bool_decide (session_of record = Some session_id))
       (snd <$> map_to_list (views r))).

Record Caller := mkCaller {
  caller_socket_id : string;
  caller_viewer_key : string;
  caller_fingerprint : string;
}.

Definition SESSION_MOVED : string := "a terminal view cannot change sessions".

(** [socket.views.insert(key)] on the caller's socket. *)
Definition own_key (r : ViewRegistry) (socket_id key : string) : ViewRegistry :=
  with_sockets r
    (alter (fun socket => with_sock_views socket (sock_views socket ∪ {[key]})) socket_id (sockets r)).

(** The tail of a path that moved a session's membership: name it as changed
    and report whether the socket still watches it. *)
Definition note_moved (r : ViewRegistry) (socket_id : string) (session_id : option SessionId)
    (o : MembershipOutcome) : MembershipOutcome :=
  match session_id with
  | Some session_id => push_call (sync_watching r socket_id session_id) (note_changed session_id o)
  | None => o
  end.

Definition release (r : ViewRegistry) (socket_id : string) (command : TerminalViewCommand)
    (key : string) (now_ms : Z) (o : MembershipOutcome) : ViewRegistry * MembershipOutcome :=
  let session_id := views r !! key ≫= session_of in
  let r := drop_record r key true now_ms (Some (cmd_revision command, intent_of command)) in
  (r, accept_inactive socket_id command (note_moved r socket_id session_id o)).

Definition reclaim (r : ViewRegistry) (caller : Caller) (command : TerminalViewCommand)
    (current : ViewRecord) (key : string) (now_ms : Z) (o : MembershipOutcome) :
    ViewRegistry * MembershipOutcome :=
  let refused reason := (r, refuse (caller_socket_id caller) command reason o) in
  if negb (rec_parked current) then refused "view is owned by another live socket"%string
  else if cmd_revision command <? rec_revision current
  then refused "stale terminal view revision"%string
  else if negb (String.eqb (cmd_session_id command) (intent_session_id (rec_intent current)))
  then refused SESSION_MOVED
  else if negb (cmd_active command)
  then release r (caller_socket_id caller) command key now_ms o
  else if (TERMINAL_SOCKET_VIEW_CAP <=? view_count r (caller_socket_id caller))%nat
  then refused "terminal socket view capacity exceeded"%string
  else
    let session_id := session_of current in
    let current :=
      mkViewRecord (rec_key current) (rec_view_id current) (rec_viewer_key current)
        (rec_fingerprint current) (caller_socket_id caller) (intent_of command)
        (cmd_revision command) (lease_deadline now_ms) false 0 true in
    let r := with_views r (<[key := current]> (views r)) in
    let r := own_key r (caller_socket_id caller) key in
    (r, answer_view current Accepted "" (note_moved r (caller_socket_id caller) session_id o)).

Definition update (r : ViewRegistry) (caller : Caller) (command : TerminalViewCommand)
    (current : ViewRecord) (now_ms : Z) (o : MembershipOutcome) :
    ViewRegistry * MembershipOutcome :=
  if cmd_revision command <? rec_revision current
  then (r, refuse (caller_socket_id caller) command "stale terminal view revision" o)
  else
    let intent := intent_of command in
    if cmd_revision command =? rec_revision current then
      let conflicting := negb (intents_equal (rec_intent current) intent) in
      let current :=
        mkViewRecord (rec_key current) (rec_view_id current) (rec_viewer_key current)
          (rec_fingerprint current) (rec_socket_id current) (rec_intent current)
          (rec_revision current) (lease_deadline now_ms) (rec_parked current)
          (rec_parked_at_ms current) (rec_constrains current) in
      let r := with_views r (<[rec_key current := current]> (views r)) in
      if conflicting
      then (r, refuse (caller_socket_id caller) command "terminal view revision conflicts" o)
      else (r, answer_view current Accepted "" o)
    else if negb (String.eqb (cmd_session_id command) (intent_session_id (rec_intent current)))
    then (r, refuse (caller_socket_id caller) command SESSION_MOVED o)
    else if negb (cmd_active command)
    then release r (caller_socket_id caller) command (rec_key current) now_ms o
    else
      let session_id := session_of current in
      let current :=
        mkViewRecord (rec_key current) (rec_view_id current) (rec_viewer_key current)
          (rec_fingerprint current) (rec_socket_id current) intent
          (cmd_revision command) (lease_deadline now_ms) (rec_parked current)
          (rec_parked_at_ms current) (rec_constrains current) in
      let r := with_views r (<[rec_key current := current]> (views r)) in
      let o := match session_id with Some s => note_changed s o | None => o end in
      (r, answer_view current Accepted "" o).

(** The part of [admit] after the retained claim was consulted: a new record,
    a new claim, or a capacity refusal. *)
Definition admit_fresh (r : ViewRegistry) (caller : Caller) (command : TerminalViewCommand)
    (key : string) (now_ms : Z) (o : MembershipOutcome) : ViewRegistry * MembershipOutcome :=
  let intent := intent_of command in
  if negb (cmd_active command) then
    (with_tombstones r (retain (tombstones r) now_ms key (caller_viewer_key caller)
                          (cmd_revision command) intent),
     accept_inactive (caller_socket_id caller) command o)
  else if (TERMINAL_SOCKET_VIEW_CAP <=? view_count r (caller_socket_id caller))%nat
  then (r, refuse (caller_socket_id caller) command "terminal socket view capacity exceeded" o)
  else
    match SessionId_try_from (cmd_session_id command) with
    | None => (r, o)
    | Some session_id =>
        if (SESSION_VIEW_CAP <=? session_count r session_id)%nat
        then (r, refuse (caller_socket_id caller) command
                   "terminal session view capacity exceeded" o)
        else
          let record :=
            mkViewRecord key (cmd_view_id command) (caller_viewer_key caller)
              (caller_fingerprint caller) (caller_socket_id caller) intent
              (cmd_revision command) (lease_deadline now_ms) false 0 true in
          let r :=
            mkViewRegistry (sockets r) (<[key := record]> (views r))
              (<[session_id := default ∅ (session_views r !! session_id) ∪ {[key]}]>
                 (session_views r))
              (tombstones r) in
          let r := own_key r (caller_socket_id caller) key in
          (r, answer_view record Accepted ""
                (note_moved r (caller_socket_id caller) (Some session_id) o))
    end.

(** [Machine::admit]. *)
Definition admit_view (r : ViewRegistry) (caller : Caller) (command : TerminalViewCommand)
    (key : string) (now_ms : Z) (o : MembershipOutcome) : ViewRegistry * MembershipOutcome :=
  match tombstones_get (tombstones r) key with
  | None => admit_fresh r caller command key now_ms o
  | Some old =>
      if (cmd_revision command <? tomb_revision old)
         || ((cmd_revision command =? tomb_revision old)
             && negb (intents_equal (tomb_intent old) (intent_of command)))
      then (r, refuse (caller_socket_id caller) command
                 "stale or conflicting terminal view revision" o)
      else if negb (String.eqb (intent_session_id (tomb_intent old)) (cmd_session_id command))
      then (r, refuse (caller_socket_id caller) command SESSION_MOVED o)
      else if (cmd_revision command =? tomb_revision old) && negb (cmd_active command)
      then (r, accept_inactive (caller_socket_id caller) command o)
      else
        admit_fresh (with_tombstones r (tombstones_remove (tombstones r) key))
          caller command key now_ms o
  end.

Definition handle_view_command (r : ViewRegistry) (socket_id : string)
    (command : TerminalViewCommand) (now_ms : Z) : ViewRegistry * MembershipOutcome :=
  match sockets r !! socket_id with
  | None => (r, no_outcome)
  | Some socket =>
      match validate_view_command (sock_viewer_key socket) command with
      | Some reason => (r, refuse socket_id command reason no_outcome)
      | None =>
          if negb (allows socket (cmd_session_id command))
          then (r, refuse socket_id command "terminal session is unavailable" no_outcome)
          else
            match sock_viewer_key socket with
            | None => (r, no_outcome)
            | Some viewer_key =>
                let caller := mkCaller socket_id viewer_key (sock_fingerprint socket) in
                let key := view_key viewer_key (cmd_view_id command) in
                match views r !! key with
                | Some current =>
                    if negb (String.eqb (rec_socket_id current) socket_id)
                    then reclaim r caller command current key now_ms no_outcome
                    else update r caller command current now_ms no_outcome
                | None => admit_view r caller command key now_ms no_outcome
                end
            end
      end
  end.

(** The fields of [TerminalResyncCommand] the registry and its host read. *)
Record TerminalResyncCommand := mkTerminalResyncCommand {
  rsy_view_id : string;
  rsy_session_id : string;
  rsy_stream_id : string;
  rsy_grid_epoch : string;
  rsy_seq : Z;
}.

Definition handle_resync (r : ViewRegistry) (socket_id : string)
    (command : TerminalResyncCommand) : MembershipOutcome :=
  match sockets r !! socket_id with
  | None => no_outcome
  | Some socket =>
      match sock_viewer_key socket with
      | None => no_outcome
      | Some viewer_key =>
          if negb (allows socket (rsy_session_id command))
             || negb (is_terminal_uuid (rsy_view_id command)) then no_outcome
          else
            match views r !! view_key viewer_key (rsy_view_id command) with
            | None => no_outcome
            | Some record =>
                if negb (String.eqb (rec_socket_id record) socket_id)
                   || rec_parked record
                   || negb (String.eqb (intent_session_id (rec_intent record))
                              (rsy_session_id command))
                then no_outcome
                else
                  match session_of record with
                  | None => no_outcome
                  | Some session_id =>
                      push_call (Resync socket_id session_id (rsy_grid_epoch command)
                                   (rsy_seq command)) no_outcome
                  end
            end
      end
  end.

(** ** Sockets, revocation and session close *)

Definition park (now_ms : Z) (record : ViewRecord) : ViewRecord :=
  mkViewRecord (rec_key record) (rec_view_id record) (rec_viewer_key record)
    (rec_fingerprint record) (rec_socket_id record) (rec_intent record)
    (rec_revision record) (rec_deadline_ms record) true now_ms (rec_constrains record).

(** One pass of [close_socket]'s loop over the socket's keys. *)
Definition park_key (socket_id : string) (now_ms : Z) (records : gmap string ViewRecord)
    (key : string) : gmap string ViewRecord :=
  alter (fun record => if String.eqb (rec_socket_id record) socket_id
                       then park now_ms record else record) key records.

Definition close_socket (r : ViewRegistry) (socket_id : string) (now_ms : Z) : ViewRegistry :=
  match sockets r !! socket_id with
  | None => r
  | Some socket =>
      mkViewRegistry (delete socket_id (sockets r))
        (foldl (park_key socket_id now_ms) (views r) (btree (sock_views socket)))
        (session_views r) (tombstones r)
  end.

Definition register_socket (r : ViewRegistry) (registration : SocketRegistration)
    (now_ms : Z) : ViewRegistry :=
  let r := close_socket r (reg_socket_id registration) now_ms in
  with_sockets r
    (<[reg_socket_id registration :=
         mkSocketRecord (reg_socket_id registration) (reg_viewer_key registration)
           (reg_caller_fingerprint registration) (reg_session_ids registration) ∅]>
       (sockets r)).

Definition set_session_allowed (r : ViewRegistry) (socket_id session_id : string)
    (allowed : bool) : ViewRegistry :=
  with_sockets r
    (alter (fun socket =>
              with_allowed socket
                (if allowed then sock_allowed_sessions socket ∪ {[session_id]}
                 else sock_allowed_sessions socket ∖ {[session_id]}))
       socket_id (sockets r)).

Definition revoke_step (acc : ViewRegistry * MembershipOutcome)
    (doomed : string * option SessionId) : ViewRegistry * MembershipOutcome :=
  let '(r, o) := acc in
  (drop_record r (fst doomed) false 0 None,
   match snd doomed with Some session_id => note_changed session_id o | None => o end).

(** [iteration] is the order [self.views.iter()] yields the records in. *)
Definition remove_fingerprint (r : ViewRegistry) (iteration : list (string * ViewRecord))
    (fingerprint : string) : ViewRegistry * MembershipOutcome :=
  let doomed :=
    (fun kr => (fst kr, session_of (snd kr)))
    <$> base.filter (fun kr => rec_fingerprint (snd kr) = fingerprint) iteration in
  let '(r, o) := foldl revoke_step (r, no_outcome) doomed in
  (mkViewRegistry
     (base.filter (fun ks => sock_fingerprint (snd ks) <> fingerprint) (sockets r))
     (views r) (session_views r) (remove_viewer (tombstones r) fingerprint), o).

(** [Vec::dedup]. *)
Fixpoint dedup (l : list string) : list string :=
  match l with
  | x :: (y :: _) as rest => if String.eqb x y then dedup rest else x :: dedup rest
  | _ => l
  end.

Definition close_session (r : ViewRegistry) (session_id : SessionId) :
    ViewRegistry * MembershipOutcome :=
  let watchers :=
    dedup (merge_sort string_le
             (rec_socket_id <$> records_at (views r) (session_views r !! session_id))) in
  let r' := foldl (fun r key => drop_record r key false 0 None) r
              (btree (default ∅ (session_views r !! session_id))) in
  (mkViewRegistry (sockets r') (views r') (delete session_id (session_views r'))
     (remove_session (tombstones r') session_id),
   foldl (fun o socket_id => push_call (Watching socket_id session_id false) o)
     no_outcome watchers).

(** ** The sweep *)

Definition unbind (record : ViewRecord) : ViewRecord :=
  mkViewRecord (rec_key record) (rec_view_id record) (rec_viewer_key record)
    (rec_fingerprint record) (rec_socket_id record) (rec_intent record)
    (rec_revision record) (rec_deadline_ms record) (rec_parked record)
    (rec_parked_at_ms record) false.

Definition sweep_step (now_ms : Z) (acc : ViewRegistry * MembershipOutcome) (key : string) :
    ViewRegistry * MembershipOutcome :=
  let '(r, o) := acc in
  match views r !! key with
  | None => (r, o)
  | Some record =>
      if now_ms <? rec_deadline_ms record then
        if rec_constrains record && negb (view_constrains record now_ms) then
          (with_views r (alter unbind key (views r)),
           match session_of record with Some s => note_changed s o | None => o end)
        else (r, o)
      else
        let o :=
          if rec_parked record then o
          else match session_of record with
               | Some s => push_call (LiveViewExpired (rec_socket_id record)
                                        (rec_view_id record) s) o
               | None => o
               end in
        let r := drop_record r key true now_ms None in
        (r,
         match session_of record with
         | Some s =>
             note_changed s
               (match sockets r !! rec_socket_id record with
                | Some _ => push_call (sync_watching r (rec_socket_id record) s) o
                | None => o
                end)
         | None => o
         end)
  end.

(** [keys] is the order [self.views.keys()] yields. *)
Definition sweep (r : ViewRegistry) (keys : list string) (now_ms : Z) :
    ViewRegistry * MembershipOutcome :=
  let '(r, o) := foldl (sweep_step now_ms) (r, no_outcome) keys in
  (with_tombstones r (expire (tombstones r) now_ms), o).

(** ** Queries *)

Definition registry_geometry_set (r : ViewRegistry) (session_id : SessionId) (now_ms : Z) :
    GeometrySet :=
  geometry_set (views r) (session_views r !! session_id) now_ms.

Definition viewer_inputs (r : ViewRegistry) (session_id : SessionId) (now_ms : Z) :
    list ViewInput :=
  project_inputs (views r) (session_views r !! session_id) now_ms.

Definition view_stats (r : ViewRegistry) (session_id : SessionId) : ViewStats :=
  foldl (fun stats record =>
           if rec_parked record
           then mkViewStats (stats_active stats) (S (stats_parked stats))
           else mkViewStats (S (stats_active stats)) (stats_parked stats))
    (mkViewStats 0 0) (records_at (views r) (session_views r !! session_id)).

Definition registry_active_fingerprints (r : ViewRegistry) (session_id : SessionId) :
    gset string :=
  active_fingerprints (views r) (session_views r !! session_id).

Definition viewer_projection (r : ViewRegistry) :
    gmap SessionId (gmap string TerminalGeometry) :=
  project_viewers (session_views r) (views r).

(** [socket_ids_for_fingerprint]: sorted. *)
Definition socket_ids_for_fingerprint (r : ViewRegistry) (fingerprint : string) : list string :=
  merge_sort string_le
    (fst <$> base.filter (fun ks => sock_fingerprint (snd ks) = fingerprint)
               (map_to_list (sockets r))).

(** [queries::broadcast]. *)
Definition broadcast (r : ViewRegistry) (session_id : SessionId)
    (status : TerminalViewStatus) (reason : string) : list PendingReply :=
  (fun record =>
     ReplyView (rec_socket_id record) (rec_view_id record)
       (intent_session_id (rec_intent record)) (rec_revision record) status reason)
  <$> base.filter (fun record => rec_parked record = false)
        (records_at (views r) (session_views r !! session_id)).
