(* ===== verification/TerminalViewInvariant.v ===== *)
(** * TerminalViewInvariant: the store of claims and the registry over it

    Lemmas on [TerminalViewRecord]'s tombstone store: what its invariant is,
    that every operation keeps it, that the process cap is enforced, what a
    retention leaves, and how the two viewers of one process interfere in the
    per-viewer cap. *)
From Stdlib Require Import Ascii String.
From S2P Require Export TerminalViewRegistry.

(** Every claim is filed under its own key and its token is still queued. *)
Definition tokens_ok (claims : gmap string Tombstone) (queue : list (string * Z)) : Prop :=
  forall key t, claims !! key = Some t ->
    tomb_key t = key /\ (key, tomb_sequence t) ∈ queue.

(** The queue is in retention order: its sequences increase strictly, and the
    next one is larger. *)
Definition queue_ok (queue : list (string * Z)) (next : Z) : Prop :=
  StronglySorted Z.lt (snd <$> queue) /\ Forall (fun s => s <= next) (snd <$> queue).

Definition store_ok (store : TombstoneStore) : Prop :=
  tokens_ok (entries store) (order store)
  /\ queue_ok (order store) (next_sequence store)
  /\ Z.of_nat (size (entries store)) <= PROCESS_TOMBSTONE_CAP.

(** ** Eviction *)

Lemma evict_walk_subset wanted claims queue :
  snd (fst (evict_walk wanted claims queue)) ⊆ claims.
Proof.
  induction queue as [|[key sequence] rest IH]; cbn [evict_walk]; [done|].
  destruct (claims !! key) as [t|]; [|done].
  case_if; [done|]. case_if; cbn [fst snd]; [done|]. apply delete_subseteq.
Qed.

Lemma evict_walk_tokens wanted claims queue :
  tokens_ok claims queue ->
  tokens_ok (snd (fst (evict_walk wanted claims queue))) (snd (evict_walk wanted claims queue)).
Proof.
  induction queue as [|[key sequence] rest IH]; intros Hok; cbn [evict_walk]; [done|].
  assert (Hrest : claims !! key = None \/
            (exists t, claims !! key = Some t /\ tomb_sequence t <> sequence) ->
          tokens_ok claims rest).
  { intros Hstale k t Hk. destruct (Hok k t Hk) as [? Hin]. split; [done|].
    apply elem_of_cons in Hin as [Heq|]; [|done]. simplify_eq.
    destruct Hstale as [|(t' & ? & ?)]; congruence. }
  destruct (claims !! key) as [t|] eqn:Hkey; [|apply IH, Hrest; by left].
  destruct (tomb_sequence t =? sequence) eqn:Hs; cbn [negb];
    [|apply IH, Hrest; right; exists t; bool_to_prop; done].
  destruct (wanted t); cbn [negb fst snd]; [|done].
  intros k u [Hne Hk]%lookup_delete_Some. destruct (Hok k u Hk) as [? Hin]. split; [done|].
  apply elem_of_cons in Hin as [Heq|]; [|done]. simplify_eq.
Qed.

Lemma evict_walk_suffix wanted claims queue :
  exists popped, queue = popped ++ snd (evict_walk wanted claims queue).
Proof.
  induction queue as [|[key sequence] rest IH]; cbn [evict_walk]; [by exists []|].
  destruct IH as [popped IH].
  destruct (claims !! key) as [t|]; [|exists ((key, sequence) :: popped); by rewrite IH at 1].
  case_if; [exists ((key, sequence) :: popped); by rewrite IH at 1|].
  case_if; [by exists []|]. by exists [(key, sequence)].
Qed.

Lemma queue_ok_suffix popped queue next :
  queue_ok (popped ++ queue) next -> queue_ok queue next.
Proof.
  intros [Hs Hf]. rewrite fmap_app in Hs, Hf. apply Forall_app in Hf as [_ Hf].
  split; [|done]. clear Hf. induction popped as [|x popped IH]; [done|].
  apply IH. by apply StronglySorted_inv in Hs as [? _].
Qed.

(** A walk that wants everything evicts while any claim is left. *)
Lemma evict_walk_any claims queue :
  tokens_ok claims queue -> claims <> ∅ ->
  fst (fst (evict_walk (fun _ => true) claims queue)) = true
  /\ size claims = S (size (snd (fst (evict_walk (fun _ => true) claims queue)))).
Proof.
  intros Hok Hne. apply map_choose in Hne as (k & t & Hk).
  revert Hok. induction queue as [|[key sequence] rest IH]; intros Hok.
  { destruct (Hok k t Hk) as [_ Hin]. by apply not_elem_of_nil in Hin. }
  cbn [evict_walk]. destruct (claims !! key) as [u|] eqn:Hkey.
  - destruct (tomb_sequence u =? sequence) eqn:Hs; cbn [negb fst snd].
    + split; [done|]. rewrite map_size_delete_Some by done.
      assert (size claims <> 0%nat) by (intros ->%map_size_empty_inv; done). lia.
    + apply IH. intros k' t' Hk'. destruct (Hok k' t' Hk') as [? Hin]. split; [done|].
      apply elem_of_cons in Hin as [Heq|]; [|done]. simplify_eq. bool_to_prop. done.
  - apply IH. intros k' t' Hk'. destruct (Hok k' t' Hk') as [? Hin]. split; [done|].
    apply elem_of_cons in Hin as [Heq|]; [|done]. simplify_eq.
Qed.

(** What every eviction keeps, whichever claims it wants. *)
Definition keeps (before after : TombstoneStore) : Prop :=
  entries after ⊆ entries before
  /\ (tokens_ok (entries before) (order before) -> tokens_ok (entries after) (order after))
  /\ next_sequence after = next_sequence before
  /\ (queue_ok (order before) (next_sequence before) ->
      queue_ok (order after) (next_sequence after)).

#[global] Instance keeps_preorder : PreOrder keeps.
Proof.
  split.
  - intros s. split; [done|]. auto.
  - intros a b c (H1 & H2 & H3 & H4) (H5 & H6 & H7 & H8).
    split; [by trans (entries b)|]. split; [auto|]. split; [congruence|auto].
Qed.

Lemma evict_oldest_keeps wanted store : keeps store (snd (evict_oldest wanted store)).
Proof.
  unfold evict_oldest.
  pose proof (evict_walk_subset wanted (entries store) (order store)) as H1.
  pose proof (evict_walk_tokens wanted (entries store) (order store)) as H2.
  destruct (evict_walk_suffix wanted (entries store) (order store)) as [popped H3].
  destruct (evict_walk wanted (entries store) (order store)) as [[b claims] queue].
  cbn [fst snd] in *. split; [done|]. split; [done|]. split; [done|]. cbn.
  rewrite H3 at 1. apply queue_ok_suffix.
Qed.

Lemma evict_process_keeps passes store : keeps store (evict_process passes store).
Proof.
  revert store. induction passes as [|passes IH]; intros store; cbn [evict_process]; [done|].
  case_if; [|done].
  pose proof (evict_oldest_keeps (fun _ => true) store) as Hk.
  destruct (evict_oldest _ store) as [b store']. cbn [snd] in Hk.
  case_if; [etrans; [exact Hk|apply IH]|done].
Qed.

Lemma evict_viewer_keeps viewer_key own store : keeps store (evict_viewer viewer_key own store).
Proof.
  revert store. induction own as [|own IH]; intros store; cbn [evict_viewer]; [done|].
  case_if; [|done].
  pose proof (evict_oldest_keeps (fun t => String.eqb (tomb_viewer_key t) viewer_key) store) as Hk.
  destruct (evict_oldest _ store) as [b store']. cbn [snd] in Hk.
  case_if; [etrans; [exact Hk|apply IH]|done].
Qed.

Lemma evict_keeps store viewer_key : keeps store (evict store viewer_key).
Proof. unfold evict. etrans; [apply evict_process_keeps|apply evict_viewer_keeps]. Qed.

(** The process loop's passes suffice: the cap holds when it ends. *)
Lemma evict_process_bounded passes store :
  (size (entries store) <= passes)%nat ->
  tokens_ok (entries store) (order store) ->
  Z.of_nat (size (entries (evict_process passes store))) <= PROCESS_TOMBSTONE_CAP.
Proof.
  revert store. induction passes as [|passes IH]; intros store Hp Hok; cbn [evict_process].
  { unfold PROCESS_TOMBSTONE_CAP. lia. }
  case_if; bool_to_prop; [|done].
  assert (Hne : entries store <> ∅)
    by (intros Hemp; rewrite Hemp, map_size_empty in Heqb; unfold PROCESS_TOMBSTONE_CAP in Heqb; lia).
  destruct (evict_walk_any _ _ Hok Hne) as [Hev Hsize].
  pose proof (evict_oldest_keeps (fun _ => true) store) as (_ & Htok & _).
  unfold evict_oldest in *. destruct (evict_walk _ _ _) as [[b claims] queue].
  cbn [fst snd entries order next_sequence] in *. subst b. apply IH; cbn [entries order]; [lia|auto].
Qed.

Lemma evict_bounded store viewer_key :
  tokens_ok (entries store) (order store) ->
  Z.of_nat (size (entries (evict store viewer_key))) <= PROCESS_TOMBSTONE_CAP.
Proof.
  intros Hok. unfold evict. etrans; [|apply (evict_process_bounded _ store (le_n _) Hok)].
  apply inj_le, map_subseteq_size, evict_viewer_keeps.
Qed.

(** ** Retention *)

Lemma retain_subset store now key viewer_key revision intent :
  entries (retain store now key viewer_key revision intent)
  ⊆ <[key := mkTombstone key viewer_key revision intent
               (saturating_add64 now TERMINAL_VIEW_LEASE_MS) (next_sequence store + 1)]>
      (entries store).
Proof. unfold retain. apply evict_keeps. Qed.

Lemma retain_ok store now key viewer_key revision intent :
  store_ok store -> store_ok (retain store now key viewer_key revision intent).
Proof.
  intros (Htok & (Hs & Hf) & Hsize). unfold retain.
  set (store1 := mkTombstoneStore _ _ _).
  assert (H1 : tokens_ok (entries store1) (order store1)).
  { intros k t. unfold store1. cbn [entries order]. rewrite elem_of_app, lookup_insert_Some.
    intros [[<- <-]|[? Hk]]; cbn [tomb_key tomb_sequence].
    - split; [done|]. right. by left.
    - destruct (Htok k t Hk). auto. }
  assert (H2 : queue_ok (order store1) (next_sequence store1)).
  { unfold store1, queue_ok. cbn [order next_sequence]. rewrite fmap_app. cbn. split.
    - revert Hs Hf. generalize (snd <$> order store) as l.
      induction l as [|x l IH]; intros Hs Hf; cbn; [by repeat constructor|].
      apply StronglySorted_inv in Hs as [Hs Hx]. apply Forall_cons in Hf as [Hxn Hf].
      constructor; [by apply IH|]. apply Forall_app. split; [done|]. repeat constructor. lia.
    - apply Forall_app. split; [|by repeat constructor].
      eapply Forall_impl; [exact Hf|]. cbn. lia. }
  destruct (evict_keeps store1 viewer_key) as (_ & K2 & K3 & K4).
  split; [auto|]. split; [auto|]. by apply evict_bounded.
Qed.

Lemma remove_where_ok store doomed :
  store_ok store -> store_ok (tombstones_remove_where store doomed).
Proof.
  intros (Htok & Hq & Hsize). split; [|split]; [|done|]; cbn.
  - intros k t [Hk _]%map_lookup_filter_Some. by apply Htok.
  - etrans; [|exact Hsize]. apply inj_le, map_subseteq_size, map_filter_subseteq.
Qed.

Lemma tombstones_remove_ok store key : store_ok store -> store_ok (tombstones_remove store key).
Proof.
  intros (Htok & Hq & Hsize). split; [|split]; [|done|]; cbn.
  - intros k t [_ Hk]%lookup_delete_Some. by apply Htok.
  - etrans; [|exact Hsize]. apply inj_le, map_subseteq_size, delete_subseteq.
Qed.

Lemma store_new_ok : store_ok TombstoneStore_new.
Proof.
  split; [|split]; [by intros k t ?|by repeat constructor|].
  cbn. rewrite map_size_empty. unfold PROCESS_TOMBSTONE_CAP. lia.
Qed.

(** ** The newest claim survives its own retention *)

(** [queue] ends with the token of [key]'s claim, which nothing else repeats. *)
Definition newest (key : string) (t : Tombstone) (store : TombstoneStore) : Prop :=
  entries store !! key = Some t
  /\ tokens_ok (entries store) (order store)
  /\ exists queue, order store = queue ++ [(key, tomb_sequence t)]
       /\ (key, tomb_sequence t) ∉ queue.

Lemma tokens_ok_singleton claims key sequence :
  tokens_ok claims [(key, sequence)] -> (size claims <= 1)%nat.
Proof.
  intros Hok. rewrite <- size_dom. etrans; [apply (subseteq_size _ {[key]})|by rewrite size_singleton].
  intros k [t Hk]%elem_of_dom. destruct (Hok _ _ Hk) as [_ Hin].
  apply list_elem_of_singleton in Hin. set_solver.
Qed.

Lemma evict_walk_newest wanted key t claims queue :
  claims !! key = Some t -> (2 <= size claims)%nat ->
  tokens_ok claims (queue ++ [(key, tomb_sequence t)]) ->
  (key, tomb_sequence t) ∉ queue ->
  let '(_, claims', queue') := evict_walk wanted claims (queue ++ [(key, tomb_sequence t)]) in
  claims' !! key = Some t
  /\ exists queue'', queue' = queue'' ++ [(key, tomb_sequence t)]
       /\ (key, tomb_sequence t) ∉ queue''.
Proof.
  intros Hkey Hsize. induction queue as [|[k s] queue IH]; intros Hok Hnew.
  { cbn in Hok. apply tokens_ok_singleton in Hok. lia. }
  assert (Hrest : claims !! k = None \/
            (exists u, claims !! k = Some u /\ tomb_sequence u <> s) ->
          tokens_ok claims (queue ++ [(key, tomb_sequence t)])).
  { intros Hstale k' u Hk'. destruct (Hok k' u Hk') as [? Hin]. split; [done|].
    cbn in Hin. apply elem_of_cons in Hin as [Heq|]; [|done]. simplify_eq.
    destruct Hstale as [|(u' & ? & ?)]; congruence. }
  apply not_elem_of_cons in Hnew as [Hne Hnew].
  cbn [app evict_walk]. destruct (claims !! k) as [u|] eqn:Hk; [|apply IH; [apply Hrest; by left|done]].
  destruct (tomb_sequence u =? s) eqn:Hs; cbn [negb]; bool_to_prop;
    [|apply IH; [apply Hrest; right; eauto|done]].
  destruct (wanted u); cbn [negb].
  - split; [|by exists queue]. rewrite lookup_delete_ne; [done|]. intros ->. congruence.
  - split; [done|]. exists ((k, s) :: queue). split; [done|].
    apply not_elem_of_cons. by split.
Qed.

Lemma evict_oldest_newest wanted key t store :
  newest key t store -> (2 <= size (entries store))%nat ->
  newest key t (snd (evict_oldest wanted store)).
Proof.
  intros (Hkey & Hok & queue & Hq & Hnew) Hsize.
  destruct (evict_oldest_keeps wanted store) as (_ & Htok & _).
  specialize (Htok Hok). unfold newest. unfold evict_oldest in *. rewrite Hq in *.
  pose proof (evict_walk_newest wanted key t (entries store) queue Hkey Hsize Hok Hnew) as Hw.
  destruct (evict_walk _ _ _) as [[b claims] queue']. cbn [snd entries order] in *.
  destruct Hw as [? (q & -> & ?)]. eauto.
Qed.

Lemma evict_process_newest passes key t store :
  newest key t store -> newest key t (evict_process passes store).
Proof.
  revert store. induction passes as [|passes IH]; intros store Hn; cbn [evict_process]; [done|].
  case_if; [|done]. bool_to_prop.
  assert (Hn' : newest key t (snd (evict_oldest (fun _ => true) store)))
    by (apply evict_oldest_newest; [done|unfold PROCESS_TOMBSTONE_CAP in *; lia]).
  destruct (evict_oldest _ store) as [b store']. cbn [snd] in Hn'. case_if; [by apply IH|done].
Qed.

Lemma claims_of_le_size viewer_key store : (claims_of viewer_key store <= size (entries store))%nat.
Proof. unfold claims_of. etrans; [apply length_filter|]. by rewrite length_map_to_list. Qed.

(** A successful walk removes exactly one claim. *)
Lemma evict_walk_size wanted claims queue :
  let '(evicted, claims', _) := evict_walk wanted claims queue in
  (size claims <= (if evicted then 1 else 0) + size claims')%nat.
Proof.
  induction queue as [|[k s] queue IH]; cbn [evict_walk]; [lia|].
  destruct (claims !! k) as [u|] eqn:Hk; [|done].
  case_if; [done|]. case_if; [lia|]. rewrite map_size_delete_Some by done. lia.
Qed.

Lemma evict_viewer_newest viewer_key own key t store :
  newest key t store -> (own <= size (entries store))%nat ->
  newest key t (evict_viewer viewer_key own store).
Proof.
  revert store. induction own as [|own IH]; intros store Hn Hle; cbn [evict_viewer]; [done|].
  case_if; [|done]. apply Nat.ltb_lt in Heqb. unfold VIEWER_TOMBSTONE_CAP in Heqb.
  set (wanted := fun t => String.eqb (tomb_viewer_key t) viewer_key).
  assert (Hn' : newest key t (snd (evict_oldest wanted store)))
    by (apply evict_oldest_newest; [done|lia]).
  unfold evict_oldest in *. pose proof (evict_walk_size wanted (entries store) (order store)) as Hs.
  destruct (evict_walk _ _ _) as [[b claims] queue']. cbn [snd] in Hn'.
  case_if; [apply IH; [done|cbn [entries]; lia]|done].
Qed.

Lemma retain_newest store now key viewer_key revision intent :
  store_ok store ->
  entries (retain store now key viewer_key revision intent) !! key
  = Some (mkTombstone key viewer_key revision intent
            (saturating_add64 now TERMINAL_VIEW_LEASE_MS) (next_sequence store + 1)).
Proof.
  intros (Htok & (_ & Hf) & _). unfold retain, evict. set (t := mkTombstone _ _ _ _ _ _).
  assert (Hn : newest key t (mkTombstoneStore (<[key:=t]> (entries store))
                 (order store ++ [(key, next_sequence store + 1)]) (next_sequence store + 1))).
  { split; [apply lookup_insert_eq|]. split.
    - intros k u. cbn [entries order]. rewrite elem_of_app, lookup_insert_Some.
      intros [[<- <-]|[? Hk]]; cbn; [split; [done|right; by left]|].
      destruct (Htok k u Hk). auto.
    - exists (order store). split; [done|]. intros Hin.
      rewrite Forall_forall in Hf. apply (list_elem_of_fmap_2 snd) in Hin.
      apply Hf in Hin. cbn in Hin. lia. }
  apply evict_viewer_newest; [by apply evict_process_newest|apply claims_of_le_size].
Qed.

(** ** Two viewers and one cap *)

(** While another viewer's claim is the oldest of all, no claim of
    [viewer_key] is evicted for its cap. *)
Lemma evict_viewer_blocked viewer_key own store k s queue t :
  order store = (k, s) :: queue -> entries store !! k = Some t -> tomb_sequence t = s ->
  tomb_viewer_key t <> viewer_key ->
  entries (evict_viewer viewer_key own store) = entries store.
Proof.
  intros Hq Hk <- Hv. destruct own as [|own]; [done|]. cbn [evict_viewer]. case_if; [|done].
  unfold evict_oldest. rewrite Hq. cbn [evict_walk]. rewrite Hk, Z.eqb_refl. cbn [negb].
  apply String.eqb_neq in Hv. rewrite Hv. done.
Qed.

Lemma evict_process_idle passes store :
  Z.of_nat (size (entries store)) <= PROCESS_TOMBSTONE_CAP -> evict_process passes store = store.
Proof.
  intros Hs. destruct passes; [done|]. cbn [evict_process]. case_if; [|done]. bool_to_prop. lia.
Qed.

(** The per-viewer cap on retained claims holds only while the process's
    oldest claim is the viewer's own.  When another viewer's claim is the
    oldest, retaining one more claim evicts nothing, however many claims the
    viewer already holds beyond [VIEWER_TOMBSTONE_CAP]: its count grows by
    one. *)
Theorem viewer_cap_not_enforced store now key viewer_key revision intent other s queue t :
  order store = (other, s) :: queue ->
  entries store !! other = Some t -> tomb_sequence t = s ->
  tomb_viewer_key t <> viewer_key ->
  entries store !! key = None ->
  Z.of_nat (size (entries store)) < PROCESS_TOMBSTONE_CAP ->
  claims_of viewer_key (retain store now key viewer_key revision intent)
  = S (claims_of viewer_key store).
Proof.
  intros Hq Ho Hs Hv Hnew Hsize. unfold retain, evict.
  rewrite evict_process_idle by (cbn [entries]; rewrite map_size_insert_None by done; lia).
  unfold claims_of at 1. erewrite evict_viewer_blocked; [|cbn [order]; by rewrite Hq| |done|done].
  - cbn [entries]. rewrite map_to_list_insert by done.
    rewrite filter_cons_True by done. done.
  - cbn [entries]. rewrite lookup_insert_ne; [done|congruence].
Qed.

(** One claim of "b:1", then 200 of "a:1". *)
Definition demo_intent : ViewIntent := mkViewIntent "session" 80 24 false.

Definition demo_crowded : TombstoneStore :=
  foldl (fun store n => retain store 0 ("a:1/" +:+ pretty n) "a:1" 1 demo_intent)
    (retain TombstoneStore_new 0 "b:1/0" "b:1" 1 demo_intent) (seq 0 200).

Lemma viewer_cap_not_enforced_witness :
  claims_of "a:1" demo_crowded = 200%nat
  /\ claims_of "a:1" (retain demo_crowded 0 "a:1/new" "a:1" 1 demo_intent) = 201%nat.
Proof.
  assert (H200 : claims_of "a:1" demo_crowded = 200%nat) by (vm_compute; reflexivity).
  split; [exact H200|]. rewrite <- H200.
  eapply (viewer_cap_not_enforced demo_crowded 0 "a:1/new" "a:1" 1 demo_intent "b:1/0" 1
            (tail (order demo_crowded)) (mkTombstone "b:1/0" "b:1" 1 demo_intent 15000 1)).
  - vm_compute. reflexivity.
  - vm_compute. reflexivity.
  - reflexivity.
  - discriminate.
  - vm_compute. reflexivity.
  - vm_compute. reflexivity.
Defined.

Create HintDb views.

#[export] Hint Resolve retain_ok remove_where_ok tombstones_remove_ok store_new_ok : views.

(** ** The registry's indexes agree

    The well-formedness of [TerminalViewRegistry]'s state, in four parts (each
    record, the session index, the socket index, the retained claims), and the
    lemmas that every operation keeps it; [reachable_consistent] closes them
    over a registry's whole life. *)
(** ** The invariant *)

(** The device of a [fingerprint:tab] viewer key: what precedes its colon. *)
Fixpoint device_of (viewer_key : string) : string :=
  match viewer_key with
  | EmptyString => EmptyString
  | String c rest => if Ascii.eqb c ":" then EmptyString else String c (device_of rest)
  end.

Notation rec_session record := (intent_session_id (rec_intent record)).

Record record_ok (key : string) (record : ViewRecord) : Prop := {
  ok_key : rec_key record = key;
  ok_view_key : key = view_key (rec_viewer_key record) (rec_view_id record);
  ok_view_id : is_terminal_uuid (rec_view_id record) = true;
  ok_session : is_terminal_uuid (rec_session record) = true;
  ok_active : intent_active (rec_intent record) = true;
  ok_geometry : is_terminal_geometry (rec_geometry record) = true;
  ok_revision : 1 <= rec_revision record;
  ok_device : device_of (rec_viewer_key record) = rec_fingerprint record;
}.

Definition records_ok (records : gmap string ViewRecord) : Prop :=
  map_Forall record_ok records.

(** [index] files every record under its session, and nothing else. *)
Record index_ok (records : gmap string ViewRecord) (index : gmap SessionId (gset string)) :
    Prop := {
  ok_member : forall s key, key ∈ default ∅ (index !! s) <->
    exists record, records !! key = Some record /\ rec_session record = s;
  ok_nonempty : forall s, index !! s <> Some ∅;
  ok_session_cap : forall s, (size (default ∅ (index !! s)) <= SESSION_VIEW_CAP)%nat;
}.

Record socket_ok (socket_id : string) (socket : SocketRecord) : Prop := {
  ok_sock_id : sock_id socket = socket_id;
  ok_sock_cap : (size (sock_views socket) <= TERMINAL_SOCKET_VIEW_CAP)%nat;
  ok_sock_device : forall viewer_key, sock_viewer_key socket = Some viewer_key ->
    device_of viewer_key = sock_fingerprint socket;
}.

(** A socket owns exactly the live records that name it, all of its own tab. *)
Record owners_ok (all : gmap string SocketRecord) (records : gmap string ViewRecord) :
    Prop := {
  ok_sockets : map_Forall socket_ok all;
  ok_owned : forall socket_id socket key, all !! socket_id = Some socket ->
    key ∈ sock_views socket ->
    exists record, records !! key = Some record /\ rec_socket_id record = socket_id
      /\ rec_parked record = false /\ sock_viewer_key socket = Some (rec_viewer_key record);
  ok_owner : forall key record, records !! key = Some record -> rec_parked record = false ->
    exists socket, all !! rec_socket_id record = Some socket /\ key ∈ sock_views socket;
}.

(** No claim is retained for a handle that has a record. *)
Definition claims_apart (records : gmap string ViewRecord) (store : TombstoneStore) : Prop :=
  forall key, is_Some (records !! key) -> entries store !! key = None.

Record consistent (r : ViewRegistry) : Prop := {
  ok_records : records_ok (views r);
  ok_index : index_ok (views r) (session_views r);
  ok_owners : owners_ok (sockets r) (views r);
  ok_store : store_ok (tombstones r);
  ok_apart : claims_apart (views r) (tombstones r);
}.

(** ** Sessions of records *)

Lemma session_of_ok key record :
  record_ok key record -> session_of record = Some (rec_session record).
Proof. intros Hok. apply SessionId_try_from_terminal, Hok. Qed.

(** ** The session index *)

Lemma size_insert_le (keys : gset string) (key : string) :
  (size (keys ∪ {[key]}) <= S (size keys))%nat.
Proof.
  rewrite size_union_alt.
  assert (size ({[key]} ∖ keys) <= size ({[key]} : gset string))%nat
    by (apply subseteq_size; set_solver).
  rewrite size_singleton in *. lia.
Qed.

Lemma index_insert records index key record :
  records !! key = None ->
  index_ok records index ->
  (size (default ∅ (index !! rec_session record)) < SESSION_VIEW_CAP)%nat ->
  index_ok (<[key := record]> records)
    (<[rec_session record := default ∅ (index !! rec_session record) ∪ {[key]}]> index).
Proof.
  intros Hnew Hok Hcap. destruct Hok as [Hmem Hne Hsz]. split.
  - intros s k. destruct (decide (s = rec_session record)) as [->|Hs].
    + rewrite lookup_insert, decide_True by done. cbn [default id].
      rewrite elem_of_union, elem_of_singleton, Hmem. split.
      * intros [(rec & Hk & ?)| ->].
        -- exists rec. rewrite lookup_insert_ne; [done|congruence].
        -- exists record. by rewrite lookup_insert, decide_True.
      * intros (rec & [[<- <-]|[? Hk]]%lookup_insert_Some & Hrs); [by right|left; eauto].
    + rewrite lookup_insert_ne by done. rewrite Hmem. split.
      * intros (rec & Hk & ?). exists rec. rewrite lookup_insert_ne; [done|congruence].
      * intros (rec & [[<- <-]|[? Hk]]%lookup_insert_Some & Hrs); [congruence|eauto].
  - intros s. rewrite lookup_insert_Some. intros [[_ Hemp]|[_ ?]]; [set_solver|by eapply Hne].
  - intros s. destruct (decide (s = rec_session record)) as [->|Hs].
    + rewrite lookup_insert, decide_True by done. cbn [default id].
      pose proof (size_insert_le (default ∅ (index !! rec_session record)) key). lia.
    + by rewrite lookup_insert_ne.
Qed.

Lemma index_update records index key old record :
  records !! key = Some old -> rec_session record = rec_session old ->
  index_ok records index -> index_ok (<[key := record]> records) index.
Proof.
  intros Hold Hs [Hmem Hne Hsz]. split; [|done..].
  intros s k. rewrite Hmem. split.
  - intros (rec & Hk & Hrs). destruct (decide (k = key)) as [->|].
    + exists record. rewrite lookup_insert, decide_True by done. split; [done|congruence].
    + exists rec. by rewrite lookup_insert_ne.
  - intros (rec & [[<- <-]|[? Hk]]%lookup_insert_Some & Hrs); [|eauto].
    exists old. split; [done|congruence].
Qed.

Lemma unindex_lookup index session key s :
  default ∅ (unindex index session key !! s)
  = (if decide (s = session) then default ∅ (index !! s) ∖ {[key]} else default ∅ (index !! s)).
Proof.
  unfold unindex. destruct (index !! session) as [keys|] eqn:Hk.
  - destruct (decide (s = session)) as [->|Hs].
    + rewrite Hk. cbn [default id].
      destruct (decide (keys ∖ {[key]} = ∅)) as [He|He].
      * rewrite lookup_delete, decide_True by done. by rewrite He.
      * by rewrite lookup_insert, decide_True.
    + case_decide; [by rewrite lookup_delete_ne|by rewrite lookup_insert_ne].
  - destruct (decide (s = session)) as [->|]; [|done]. rewrite Hk. cbn. set_solver.
Qed.

Lemma index_delete records index key record :
  records !! key = Some record ->
  index_ok records index ->
  index_ok (delete key records) (unindex index (rec_session record) key).
Proof.
  intros Hrec [Hmem Hne Hsz]. split.
  - intros s k. rewrite unindex_lookup. split.
    + intros Hin.
      assert (Hk : k ∈ default ∅ (index !! s) /\ (s = rec_session record -> k <> key))
        by (case_decide; set_solver).
      destruct Hk as [(rec & Hk & Hs)%Hmem Hnk]. exists rec. split; [|done].
      rewrite lookup_delete_ne; [done|]. intros ->. simplify_eq. by apply Hnk.
    + intros (rec & [Hnk Hk]%lookup_delete_Some & Hs).
      assert (k ∈ default ∅ (index !! s)) by (apply Hmem; eauto).
      case_decide; set_solver.
  - intros s Habs. unfold unindex in Habs.
    destruct (index !! rec_session record) as [keys|] eqn:Hi; [|exact (Hne _ Habs)].
    case_decide as Hd.
    + apply lookup_delete_Some in Habs as [? Habs]. exact (Hne _ Habs).
    + apply lookup_insert_Some in Habs as [[? Habs]|[? Habs]]; [done|exact (Hne _ Habs)].
  - intros s. rewrite unindex_lookup. case_decide; [|done].
    etrans; [|apply (Hsz s)]. apply subseteq_size. set_solver.
Qed.

(** ** The socket index *)

Lemma owners_insert_live all records key record :
  rec_parked record = false ->
  (forall old, records !! key = Some old -> rec_parked old = true) ->
  (forall socket, all !! rec_socket_id record = Some socket ->
     sock_viewer_key socket = Some (rec_viewer_key record)
     /\ (size (sock_views socket) < TERMINAL_SOCKET_VIEW_CAP)%nat) ->
  is_Some (all !! rec_socket_id record) ->
  owners_ok all records ->
  owners_ok
    (alter (fun socket => with_sock_views socket (sock_views socket ∪ {[key]}))
       (rec_socket_id record) all)
    (<[key := record]> records).
Proof.
  intros Hlive Hold Hsock [socket Hs] [Hall Howned Howner].
  destruct (Hsock _ Hs) as [Hvk Hsz].
  assert (Hfree : forall id so, all !! id = Some so -> key ∉ sock_views so).
  { intros id so Hid Hin. destruct (Howned _ _ _ Hid Hin) as (rec & Hk & _ & Hp & _).
    rewrite (Hold _ Hk) in Hp. done. }
  split.
  - intros id so. rewrite lookup_alter_Some.
    intros [(<- & so' & Hso & ->)|[? Hso]]; [|by apply Hall].
    destruct (Hall _ _ Hso) as [? ? ?]. split; cbn; [done| |done].
    simplify_eq. pose proof (size_insert_le (sock_views socket) key). lia.
  - intros id so k. rewrite lookup_alter_Some.
    intros [(<- & so' & Hso & ->)|[Hne Hso]] Hin; cbn in Hin |- *.
    + assert (so' = socket) as -> by congruence. apply elem_of_union in Hin as [Hin| ->%elem_of_singleton].
      * destruct (Howned _ _ _ Hso Hin) as (rec & Hk & ? & ? & ?). exists rec.
        rewrite lookup_insert_ne; [done|]. intros ->. by eapply Hfree.
      * exists record. by rewrite lookup_insert, decide_True.
    + destruct (Howned _ _ _ Hso Hin) as (rec & Hk & ? & ? & ?). exists rec.
      rewrite lookup_insert_ne; [done|]. intros ->. by eapply Hfree.
  - intros k rec [[<- <-]|[Hne Hk]]%lookup_insert_Some Hp.
    + eexists. rewrite lookup_alter, decide_True, Hs by done. split; [done|]. cbn. set_solver.
    + destruct (Howner _ _ Hk Hp) as (so & Hso & Hin).
      destruct (decide (rec_socket_id rec = rec_socket_id record)) as [Heq|Hn].
      * rewrite Heq, lookup_alter, decide_True by done. rewrite Heq in Hso. rewrite Hso.
        eexists. split; [done|]. cbn. set_solver.
      * exists so. by rewrite lookup_alter_ne.
Qed.

(** A rewritten record that keeps its socket, its tab and its liveness. *)
Lemma owners_update all records key old record :
  records !! key = Some old ->
  rec_socket_id record = rec_socket_id old -> rec_parked record = rec_parked old ->
  rec_viewer_key record = rec_viewer_key old ->
  owners_ok all records -> owners_ok all (<[key := record]> records).
Proof.
  intros Hold H1 H2 H3 [Hall Howned Howner]. split; [done| |].
  - intros id so k Hso Hin. destruct (Howned _ _ _ Hso Hin) as (rec & Hk & ? & ? & ?).
    destruct (decide (k = key)) as [->|].
    + exists record. rewrite lookup_insert, decide_True by done. by simplify_eq; rewrite H1, H2, H3.
    + exists rec. by rewrite lookup_insert_ne.
  - intros k rec [[<- <-]|[Hne Hk]]%lookup_insert_Some Hp; [|eauto].
    rewrite H1. apply Howner; [done|congruence].
Qed.

Lemma owners_delete all records key record :
  records !! key = Some record ->
  owners_ok all records ->
  owners_ok
    (alter (fun socket => with_sock_views socket (sock_views socket ∖ {[key]}))
       (rec_socket_id record) all)
    (delete key records).
Proof.
  intros Hrec [Hall Howned Howner]. split.
  - intros id so. rewrite lookup_alter_Some.
    intros [(<- & so' & Hso & ->)|[? Hso]]; [|by apply Hall].
    destruct (Hall _ _ Hso) as [? ? ?]. split; cbn; [done| |done].
    etrans; [apply subseteq_size|eassumption]. set_solver.
  - intros id so k. rewrite lookup_alter_Some.
    intros [(<- & so' & Hso & ->)|[Hne Hso]] Hin; cbn in Hin |- *.
    + apply elem_of_difference in Hin as [Hin Hk].
      destruct (Howned _ _ _ Hso Hin) as (rec & ? & ? & ? & ?). exists rec.
      rewrite lookup_delete_ne; [done|set_solver].
    + destruct (Howned _ _ _ Hso Hin) as (rec & Hk & ? & ? & ?). exists rec.
      rewrite lookup_delete_ne; [done|]. intros <-. congruence.
  - intros k rec [Hne Hk]%lookup_delete_Some Hp.
    destruct (Howner _ _ Hk Hp) as (so & Hso & Hin).
    destruct (decide (rec_socket_id rec = rec_socket_id record)) as [Heq|Hn].
    + rewrite Heq, lookup_alter, decide_True by done. rewrite Heq in Hso. rewrite Hso.
      eexists. split; [done|]. cbn. set_solver.
    + exists so. by rewrite lookup_alter_ne.
Qed.

(** ** Commands *)

Lemma validate_None viewer_key command :
  validate_view_command viewer_key command = None ->
  is_Some viewer_key
  /\ is_terminal_uuid (cmd_view_id command) = true
  /\ is_terminal_uuid (cmd_session_id command) = true
  /\ 1 <= cmd_revision command
  /\ (cmd_active command = true ->
      is_terminal_geometry (mkTerminalGeometry (cmd_cols command) (cmd_rows command)) = true).
Proof.
  unfold validate_view_command. destruct viewer_key as [vk|]; [|done].
  destruct (is_terminal_uuid (cmd_view_id command)); cbn [negb]; [|done].
  destruct (is_terminal_uuid (cmd_session_id command)); cbn [negb]; [|done].
  destruct (Z.ltb_spec (cmd_revision command) 1); [done|].
  destruct (cmd_active command); cbn [andb negb].
  - destruct (is_terminal_geometry _); cbn [negb]; [|done]. repeat split; [eauto|lia].
  - intros _. repeat split; [eauto|lia|done].
Qed.

Lemma claims_apart_retain records store now key viewer_key revision intent :
  records !! key = None -> claims_apart records store ->
  claims_apart records (retain store now key viewer_key revision intent).
Proof.
  intros Hnone Hap k Hk. eapply lookup_weaken_None; [|apply retain_subset].
  rewrite lookup_insert_ne; [by apply Hap|]. intros ->. rewrite Hnone in Hk. by destruct Hk.
Qed.

Lemma claims_apart_mono records records' store store' :
  (forall key, is_Some (records' !! key) -> is_Some (records !! key)) ->
  entries store' ⊆ entries store ->
  claims_apart records store -> claims_apart records' store'.
Proof. intros Hr Hs Hap k Hk. eapply lookup_weaken_None; [|exact Hs]. by apply Hap, Hr. Qed.

Lemma drop_record_consistent r key save now claim :
  consistent r -> consistent (drop_record r key save now claim).
Proof.
  intros [Hr Hi Ho Hs Ha]. unfold drop_record.
  destruct (views r !! key) as [record|] eqn:Hk; [|by split].
  pose proof (Hr _ _ Hk) as Hok. rewrite (session_of_ok _ _ Hok).
  split; cbn [sockets views session_views tombstones].
  - by apply map_Forall_delete.
  - by apply index_delete.
  - by apply owners_delete.
  - case_if; [|done]. destruct (default _ claim) as [revision intent]. by apply retain_ok.
  - assert (Hap : claims_apart (delete key (views r)) (tombstones r)).
    { eapply claims_apart_mono; [|done|exact Ha]. intros k [x [_ Hx]%lookup_delete_Some]. eauto. }
    case_if; [|done]. destruct (default _ claim) as [revision intent].
    apply claims_apart_retain; [apply lookup_delete_eq|done].
Qed.

(** What a record rewritten in place must keep. *)
Definition same_identity (old record : ViewRecord) : Prop :=
  rec_key record = rec_key old /\ rec_view_id record = rec_view_id old
  /\ rec_viewer_key record = rec_viewer_key old /\ rec_fingerprint record = rec_fingerprint old
  /\ rec_session record = rec_session old.

Lemma record_ok_identity key old record :
  record_ok key old -> same_identity old record ->
  intent_active (rec_intent record) = true ->
  is_terminal_geometry (rec_geometry record) = true ->
  1 <= rec_revision record ->
  record_ok key record.
Proof.
  intros [? ? ? ? ? ? ? ?] (E1 & E2 & E3 & E4 & E5) ? ? ?.
  split; rewrite ?E1, ?E2, ?E3, ?E4, ?E5; done.
Qed.

Lemma claims_apart_insert records store key record :
  is_Some (records !! key) -> claims_apart records store ->
  claims_apart (<[key := record]> records) store.
Proof.
  intros Hold Hap k [x Hx]. apply Hap.
  apply lookup_insert_Some in Hx as [[<- _]|[_ Hx]]; eauto.
Qed.

(** Rewriting a record whose socket and liveness stay. *)
Lemma rewrite_consistent r key old record :
  consistent r -> views r !! key = Some old ->
  same_identity old record -> record_ok key record ->
  rec_socket_id record = rec_socket_id old -> rec_parked record = rec_parked old ->
  consistent (with_views r (<[key := record]> (views r))).
Proof.
  intros [Hr Hi Ho Hs Ha] Hk (E1 & E2 & E3 & E4 & E5) Hok Hsock Hp.
  split; cbn [with_views sockets views session_views tombstones].
  - by apply map_Forall_insert_2.
  - by eapply index_update.
  - by eapply owners_update.
  - done.
  - apply claims_apart_insert; [eauto|done].
Qed.

Lemma release_consistent r socket_id command key now o :
  consistent r -> consistent (fst (release r socket_id command key now o)).
Proof. intros. cbn [release fst]. by apply drop_record_consistent. Qed.

(** What [handle_view_command] has established when it hands over. *)
Record caller_ok (r : ViewRegistry) (caller : Caller) (command : TerminalViewCommand) :
    Prop := {
  co_socket : exists socket, sockets r !! caller_socket_id caller = Some socket
    /\ sock_viewer_key socket = Some (caller_viewer_key caller)
    /\ sock_fingerprint socket = caller_fingerprint caller;
  co_valid : validate_view_command (Some (caller_viewer_key caller)) command = None;
}.

Lemma view_count_lt r socket_id socket :
  sockets r !! socket_id = Some socket ->
  (TERMINAL_SOCKET_VIEW_CAP <=? view_count r socket_id)%nat = false ->
  (size (sock_views socket) < TERMINAL_SOCKET_VIEW_CAP)%nat.
Proof. unfold view_count. intros -> ?. by apply Nat.leb_gt. Qed.

Lemma update_consistent r caller command current key now o :
  consistent r -> caller_ok r caller command -> views r !! key = Some current ->
  consistent (fst (update r caller command current now o)).
Proof.
  intros Hc [_ (_ & _ & _ & Hrev & Hgeo)%validate_None] Hk.
  pose proof (ok_records _ Hc _ _ Hk) as Hok. pose proof Hok as [Hkey _ _ _ ? ? ? _].
  unfold update. destruct (cmd_revision command <? _); [done|].
  destruct (cmd_revision command =? _).
  - rewrite Hkey. destruct (negb _); cbn [fst].
    all: eapply rewrite_consistent; [done|exact Hk|done| |done|done].
    all: by eapply record_ok_identity.
  - destruct (String.eqb_spec (cmd_session_id command) (rec_session current)) as [Hs|];
      cbn [negb]; [|done].
    destruct (cmd_active command) eqn:Ha; cbn [negb];
      [|by apply release_consistent].
    cbn [fst]. rewrite Hkey. eapply rewrite_consistent; [done|exact Hk| | |done|done].
    + by repeat split.
    + eapply record_ok_identity; [exact Hok|by repeat split|done|by apply Hgeo|done].
Qed.

(** ** Keys *)

Lemma length_string_app a b : String.length (a +:+ b) = (String.length a + String.length b)%nat.
Proof.
  induction a as [|c a IH]; [done|]. change (S (String.length (a +:+ b)) = S (String.length a + String.length b)). by rewrite IH.
Qed.

Lemma string_app_inj_tail a b v w :
  String.length v = String.length w -> a +:+ v = b +:+ w -> a = b /\ v = w.
Proof.
  intros Hlen. revert b. induction a as [|c a IH]; intros b Heq.
  - destruct b as [|d b]; [done|]. exfalso. apply (f_equal String.length) in Heq.
    rewrite !length_string_app in Heq. cbn in Heq. lia.
  - destruct b as [|d b].
    + exfalso. apply (f_equal String.length) in Heq.
      rewrite !length_string_app in Heq. cbn in Heq. lia.
    + cbn in Heq. injection Heq as -> Heq. by destruct (IH b Heq) as [-> ->].
Qed.

(** A view id of UUID shape has a fixed length, so the composite key names
    exactly one tab and one of its handles. *)
Lemma view_key_inj viewer_a view_a viewer_b view_b :
  is_terminal_uuid view_a = true -> is_terminal_uuid view_b = true ->
  view_key viewer_a view_a = view_key viewer_b view_b ->
  viewer_a = viewer_b /\ view_a = view_b.
Proof.
  intros Ha%is_terminal_uuid_length Hb%is_terminal_uuid_length Heq.
  unfold view_key in Heq.
  destruct (string_app_inj_tail viewer_a viewer_b (String NUL view_a) (String NUL view_b)) as [-> Hv];
    [cbn; congruence|done|].
  by injection Hv as ->.
Qed.

(** A live record taking its key, whether the key was parked or new. *)
Lemma place_owners r socket_id socket key record :
  consistent r ->
  sockets r !! socket_id = Some socket ->
  sock_viewer_key socket = Some (rec_viewer_key record) ->
  (size (sock_views socket) < TERMINAL_SOCKET_VIEW_CAP)%nat ->
  rec_socket_id record = socket_id -> rec_parked record = false ->
  (forall old, views r !! key = Some old -> rec_parked old = true) ->
  owners_ok
    (alter (fun socket => with_sock_views socket (sock_views socket ∪ {[key]})) socket_id
       (sockets r))
    (<[key := record]> (views r)).
Proof.
  intros Hc Hso Hvk Hcap <- Hp Hold. apply owners_insert_live; eauto; [|apply Hc].
  intros so' Hso'. simplify_eq. done.
Qed.

Lemma reclaim_consistent r caller command current key now o :
  consistent r -> caller_ok r caller command -> views r !! key = Some current ->
  key = view_key (caller_viewer_key caller) (cmd_view_id command) ->
  consistent (fst (reclaim r caller command current key now o)).
Proof.
  intros Hc [(so & Hso & Hvk & Hfp) Hval] Hk Hkey.
  apply validate_None in Hval as (_ & Hvid & _ & Hrev & Hgeo).
  pose proof (ok_records _ Hc _ _ Hk) as Hok. pose proof Hok as [H1 H2 H3 _ _ _ _ H8].
  assert (rec_viewer_key current = caller_viewer_key caller) as Hviewer.
  { rewrite H2 in Hkey. by apply view_key_inj in Hkey as [? _]. }
  unfold reclaim. destruct (rec_parked current) eqn:Hp; cbn [negb]; [|done].
  destruct (cmd_revision command <? _); [done|].
  destruct (String.eqb_spec (cmd_session_id command) (rec_session current)) as [Hs|];
    cbn [negb]; [|done].
  destruct (cmd_active command) eqn:Ha; cbn [negb]; [|by apply release_consistent].
  destruct (_ <=? _)%nat eqn:Hcap; [done|]. cbn [fst].
  eapply view_count_lt in Hcap; [|done].
  split; cbn [own_key with_sockets with_views sockets views session_views tombstones].
  - apply map_Forall_insert_2; [|apply Hc].
    eapply record_ok_identity; [exact Hok|by repeat split|done|by apply Hgeo|done].
  - eapply index_update; [done|done|apply Hc].
  - eapply place_owners; eauto; cbn; [congruence|]. intros old Hold. congruence.
  - apply Hc.
  - apply claims_apart_insert; [eauto|apply Hc].
Qed.

Lemma with_tombstones_consistent r store :
  consistent r -> store_ok store -> claims_apart (views r) store ->
  consistent (with_tombstones r store).
Proof. intros [] ? ?. by split. Qed.

Lemma admit_fresh_consistent r caller command key now o :
  consistent r -> caller_ok r caller command -> views r !! key = None ->
  tombstones_get (tombstones r) key = None ->
  key = view_key (caller_viewer_key caller) (cmd_view_id command) ->
  consistent (fst (admit_fresh r caller command key now o)).
Proof.
  intros Hc [(so & Hso & Hvk & Hfp) Hval] Hk Ht Hkey.
  apply validate_None in Hval as (_ & Hvid & Hsid & Hrev & Hgeo).
  unfold admit_fresh. destruct (cmd_active command) eqn:Ha; cbn [negb].
  2: { cbn [fst]. apply with_tombstones_consistent; [done|apply retain_ok, Hc|].
       apply claims_apart_retain; [done|apply Hc]. }
  destruct (_ <=? view_count _ _)%nat eqn:Hcap; [done|].
  eapply view_count_lt in Hcap; [|done].
  rewrite SessionId_try_from_terminal by done.
  destruct (_ <=? session_count _ _)%nat eqn:Hscap; [done|]. cbn [fst].
  set (record := mkViewRecord _ _ _ _ _ _ _ _ _ _ _).
  split; cbn [own_key with_sockets with_views sockets views session_views tombstones].
  - apply map_Forall_insert_2; [|apply Hc]. unfold record.
    split; cbn; try done; [by apply Hgeo|].
    destruct (ok_sockets _ _ (ok_owners _ Hc) _ _ Hso) as [_ _ Hdev]. rewrite <- Hfp. by apply Hdev.
  - apply (index_insert (views r) (session_views r) key record); [done|apply Hc|].
    apply Nat.leb_gt in Hscap. unfold session_count in Hscap. cbn.
    by destruct (session_views r !! cmd_session_id command).
  - eapply place_owners; eauto. intros old Hold. congruence.
  - apply Hc.
  - intros k [x [[<- _]|[_ Hx]]%lookup_insert_Some]; [done|]. apply (ok_apart _ Hc). eauto.
Qed.

Lemma admit_consistent r caller command key now o :
  consistent r -> caller_ok r caller command -> views r !! key = None ->
  key = view_key (caller_viewer_key caller) (cmd_view_id command) ->
  consistent (fst (admit_view r caller command key now o)).
Proof.
  intros Hc Hcall Hk Hkey. unfold admit_view.
  destruct (tombstones_get (tombstones r) key) as [old|] eqn:Ht;
    [|by apply admit_fresh_consistent].
  case_if; [done|]. case_if; [done|]. case_if; [done|].
  apply admit_fresh_consistent; [|by destruct Hcall; split|done|apply lookup_delete_eq|done].
  apply with_tombstones_consistent; [done|apply tombstones_remove_ok, Hc|].
  eapply claims_apart_mono; [eauto|apply delete_subseteq|apply Hc].
Qed.

Lemma handle_view_command_consistent r socket_id command now :
  consistent r -> consistent (fst (handle_view_command r socket_id command now)).
Proof.
  intros Hc. unfold handle_view_command.
  destruct (sockets r !! socket_id) as [so|] eqn:Hso; [|done].
  destruct (validate_view_command _ _) as [?|] eqn:Hval; [done|].
  destruct (allows so _); cbn [negb]; [|done].
  destruct (sock_viewer_key so) as [vk|] eqn:Hvk; [|done].
  assert (Hcall : caller_ok r (mkCaller socket_id vk (sock_fingerprint so)) command)
    by (split; [exists so|]; done).
  destruct (views r !! view_key vk (cmd_view_id command)) as [current|] eqn:Hk.
  - destruct (negb _); [by eapply reclaim_consistent|by eapply update_consistent].
  - by eapply admit_consistent.
Qed.

(** ** Sockets *)

Lemma index_same records records' index :
  (forall key, (fun r => rec_session r) <$> records' !! key
               = (fun r => rec_session r) <$> records !! key) ->
  index_ok records index -> index_ok records' index.
Proof.
  intros Hsame [Hmem Hne Hsz]. split; [|done..].
  intros s k. rewrite Hmem. specialize (Hsame k).
  split; intros (rec & Hk & Hs); rewrite Hk in Hsame; cbn in Hsame.
  - apply fmap_Some in Hsame as (x & Hx & Heq). exists x. split; congruence.
  - symmetry in Hsame. apply fmap_Some in Hsame as (x & Hx & Heq). exists x. split; congruence.
Qed.

Lemma park_fold_lookup socket_id now records keys k :
  foldl (park_key socket_id now) records keys !! k
  = (fun record => if bool_decide (k ∈ keys) && String.eqb (rec_socket_id record) socket_id
                   then park now record else record) <$> records !! k.
Proof.
  revert records. induction keys as [|key keys IH]; intros records; cbn [foldl].
  { rewrite bool_decide_eq_false_2 by apply not_elem_of_nil. cbn. by destruct (records !! k). }
  rewrite IH. unfold park_key. destruct (decide (k = key)) as [->|Hne].
  - rewrite lookup_alter_eq, (bool_decide_eq_true_2 (key ∈ key :: keys)) by left.
    destruct (records !! key) as [rec|]; [|done]. cbn.
    destruct (String.eqb (rec_socket_id rec) socket_id) eqn:He.
    + cbn [park rec_socket_id]. rewrite He. by destruct (bool_decide _).
    + rewrite He. by destruct (bool_decide _).
  - rewrite lookup_alter_ne by congruence.
    replace (bool_decide (k ∈ key :: keys)) with (bool_decide (k ∈ keys)); [done|].
    apply bool_decide_ext. rewrite elem_of_cons. naive_solver.
Qed.

(** A closing socket parks exactly the records it owns. *)
Lemma close_socket_views r socket_id socket now key :
  consistent r -> sockets r !! socket_id = Some socket ->
  views (close_socket r socket_id now) !! key
  = (if decide (key ∈ sock_views socket) then park now <$> views r !! key else views r !! key).
Proof.
  intros Hc Hso. unfold close_socket. rewrite Hso. cbn [views].
  rewrite park_fold_lookup. destruct (decide _) as [Hin|Hout].
  - rewrite bool_decide_eq_true_2 by by apply elem_of_btree.
    destruct (ok_owned _ _ (ok_owners _ Hc) _ _ _ Hso Hin) as (rec & Hk & <- & _).
    rewrite Hk. cbn. by rewrite String.eqb_refl.
  - rewrite bool_decide_eq_false_2 by by rewrite elem_of_btree.
    cbn. by destruct (views r !! key).
Qed.

Lemma close_socket_consistent r socket_id now :
  consistent r -> consistent (close_socket r socket_id now).
Proof.
  intros Hc. destruct (sockets r !! socket_id) as [socket|] eqn:Hso.
  2: { unfold close_socket. by rewrite Hso. }
  pose proof (close_socket_views r socket_id socket now) as Hv.
  assert (Hrest : sockets (close_socket r socket_id now) = delete socket_id (sockets r)
                  /\ session_views (close_socket r socket_id now) = session_views r
                  /\ tombstones (close_socket r socket_id now) = tombstones r)
    by (unfold close_socket; rewrite Hso; done).
  destruct Hrest as (Es & Ei & Et).
  set (r' := close_socket r socket_id now) in *.
  assert (Hv' : forall k rec', views r' !! k = Some rec' ->
    exists rec, views r !! k = Some rec /\
      ((k ∈ sock_views socket /\ rec' = park now rec) \/ (k ∉ sock_views socket /\ rec' = rec))).
  { intros k rec'. rewrite Hv by done. case_decide; [|eauto].
    intros (rec & ? & ->)%fmap_Some. eauto. }
  destruct (ok_owners _ Hc) as [Hall Howned Howner].
  split; rewrite ?Ei, ?Et, ?Es; [| | |apply Hc|].
  - intros k rec' Hk. destruct (Hv' _ _ Hk) as (rec & Hrec & [[_ ->]|[_ ->]]);
      pose proof (ok_records _ Hc _ _ Hrec) as Hok; [|done]. by destruct Hok.
  - eapply index_same; [|apply Hc]. intros k. rewrite Hv by done.
    case_decide; [|done]. by destruct (views r !! k).
  - split.
    + by apply map_Forall_delete.
    + intros id so k [Hne Hid]%lookup_delete_Some Hin.
      destruct (Howned _ _ _ Hid Hin) as (rec & Hk & ? & ? & ?). exists rec.
      rewrite Hv by done. rewrite decide_False; [done|]. intros Hin'.
      destruct (Howned _ _ _ Hso Hin') as (rec' & ? & ? & _). congruence.
    + intros k rec' Hk Hp. destruct (Hv' _ _ Hk) as (rec & Hrec & [[_ ->]|[Hout ->]]); [done|].
      destruct (Howner _ _ Hrec Hp) as (so & Hid & Hin). exists so.
      rewrite lookup_delete_ne; [done|]. intros Heq. congruence.
  - intros k [rec' Hk]. apply (ok_apart _ Hc). destruct (Hv' _ _ Hk) as (rec & ? & _). eauto.
Qed.

(** The registration carries its tab's own device, as both hosts build it. *)
Definition registration_ok (registration : SocketRegistration) : Prop :=
  forall viewer_key, reg_viewer_key registration = Some viewer_key ->
    device_of viewer_key = reg_caller_fingerprint registration.

Lemma register_socket_consistent r registration now :
  consistent r -> registration_ok registration ->
  consistent (register_socket r registration now).
Proof.
  intros Hc Hreg. unfold register_socket.
  pose proof (close_socket_consistent r (reg_socket_id registration) now Hc) as Hc'.
  assert (Hgone : sockets (close_socket r (reg_socket_id registration) now)
                  !! reg_socket_id registration = None).
  { unfold close_socket. destruct (sockets r !! reg_socket_id registration) eqn:Hs; [|done].
    apply lookup_delete_eq. }
  set (r' := close_socket _ _ _) in *.
  destruct Hc' as [Hr Hi [Hall Howned Howner] Hs Ha].
  split; cbn [with_sockets sockets views session_views tombstones]; try done. split.
  - apply map_Forall_insert_2; [|done]. split; cbn; [done|rewrite size_empty; lia|by apply Hreg].
  - intros id so k [[<- <-]|[Hne Hid]]%lookup_insert_Some Hin; [|eauto].
    cbn in Hin. set_solver.
  - intros k rec Hk Hp. destruct (Howner _ _ Hk Hp) as (so & Hid & Hin). exists so.
    rewrite lookup_insert_ne; [done|]. intros Heq. congruence.
Qed.

Lemma set_session_allowed_consistent r socket_id session_id allowed :
  consistent r -> consistent (set_session_allowed r socket_id session_id allowed).
Proof.
  intros [Hr Hi [Hall Howned Howner] Hs Ha]. unfold set_session_allowed.
  split; cbn [with_sockets sockets views session_views tombstones]; try done. split.
  - intros id so [(<- & so' & Hso & ->)|[_ Hso]]%lookup_alter_Some; [|by apply Hall].
    by destruct (Hall _ _ Hso).
  - intros id so k [(<- & so' & Hso & ->)|[_ Hso]]%lookup_alter_Some Hin;
      exact (Howned _ _ _ Hso Hin).
  - intros k rec Hk Hp. destruct (Howner _ _ Hk Hp) as (so & Hid & Hin).
    destruct (decide (rec_socket_id rec = socket_id)) as [<-|].
    + eexists. rewrite lookup_alter_eq, Hid. by split.
    + exists so. by rewrite lookup_alter_ne.
Qed.
