(* ===== verification/TerminalViewRuns.v ===== *)
(** * TerminalViewRuns: what the bulk operations do, and a registry's life

    The loops of [TerminalViewRegistry] that walk many records (revocation,
    session close, the sweep) characterised record by record, their part of
    the invariant, and the registries a host can reach through the registry's
    public operations. *)
From Stdlib Require Import Ascii String.
From S2P Require Export TerminalViewInvariant.

(** ** Dropping many records *)

Definition drop_all (r : ViewRegistry) (keys : list string) : ViewRegistry :=
  foldl (fun r key => drop_record r key false 0 None) r keys.

Lemma drop_all_consistent r keys : consistent r -> consistent (drop_all r keys).
Proof.
  revert r. induction keys as [|key keys IH]; intros r Hc; [done|].
  apply IH. by apply drop_record_consistent.
Qed.

Lemma drop_record_views r key save now claim :
  views (drop_record r key save now claim) = delete key (views r).
Proof.
  unfold drop_record. destruct (views r !! key) eqn:Hk; [done|]. by rewrite delete_id.
Qed.

Lemma drop_record_sockets r key save now claim socket_id :
  sockets (drop_record r key save now claim) !! socket_id
  = (fun socket =>
       match views r !! key with
       | Some record => if String.eqb (rec_socket_id record) socket_id
                        then with_sock_views socket (sock_views socket ∖ {[key]}) else socket
       | None => socket
       end) <$> sockets r !! socket_id.
Proof.
  unfold drop_record. destruct (views r !! key) as [record|]; cbn [sockets].
  - destruct (String.eqb_spec (rec_socket_id record) socket_id) as [->|].
    + by rewrite lookup_alter_eq.
    + rewrite lookup_alter_ne by done. by destruct (sockets r !! socket_id).
  - by destruct (sockets r !! socket_id).
Qed.

Lemma drop_all_views r keys key :
  views (drop_all r keys) !! key = (if decide (key ∈ keys) then None else views r !! key).
Proof.
  revert r. induction keys as [|k keys IH]; intros r; cbn [drop_all foldl].
  { by rewrite decide_False by apply not_elem_of_nil. }
  fold (drop_all (drop_record r k false 0 None) keys).
  rewrite IH, drop_record_views. destruct (decide (key = k)) as [->|Hne].
  - rewrite lookup_delete_eq, (decide_True (P := k ∈ k :: keys)) by left. by case_decide.
  - rewrite lookup_delete_ne by done.
    destruct (decide (key ∈ keys)), (decide (key ∈ k :: keys)); try done; set_solver.
Qed.

Lemma drop_all_tombstones r keys : tombstones (drop_all r keys) = tombstones r.
Proof.
  revert r. induction keys as [|k keys IH]; intros r; cbn [drop_all foldl]; [done|].
  fold (drop_all (drop_record r k false 0 None) keys). rewrite IH.
  unfold drop_record. by destruct (views r !! k).
Qed.

(** Dropping records only shrinks the key sets of sockets. *)
Lemma drop_all_sockets r keys socket_id socket :
  sockets (drop_all r keys) !! socket_id = Some socket ->
  exists before, sockets r !! socket_id = Some before
    /\ sock_fingerprint socket = sock_fingerprint before
    /\ sock_viewer_key socket = sock_viewer_key before.
Proof.
  revert r. induction keys as [|k keys IH]; intros r; cbn [drop_all foldl]; [eauto|].
  fold (drop_all (drop_record r k false 0 None) keys).
  intros (mid & Hmid & H1 & H2)%IH. rewrite drop_record_sockets in Hmid.
  apply fmap_Some in Hmid as (before & Hb & ->). exists before. split; [done|].
  rewrite H1, H2. destruct (views r !! k); [|done]. by case_if.
Qed.

Lemma revoke_fold r o doomed :
  foldl revoke_step (r, o) doomed
  = (drop_all r (fst <$> doomed),
     foldl (fun o d => match snd d with Some s => note_changed s o | None => o end) o doomed).
Proof.
  revert r o. induction doomed as [|d doomed IH]; intros r o; [done|].
  cbn [foldl]. unfold revoke_step at 2. rewrite IH. done.
Qed.

(** ** Revocation *)

Section Revocation.
Context (r : ViewRegistry) (iteration : list (string * ViewRecord)) (fingerprint : string).
Context (Hc : consistent r) (Hiter : iteration ≡ₚ map_to_list (views r)).

Let after := fst (remove_fingerprint r iteration fingerprint).

Lemma remove_fingerprint_views key :
  views after !! key
  = (views r !! key ≫= fun record =>
       if String.eqb (rec_fingerprint record) fingerprint then None else Some record).
Proof using Hiter.
  unfold after, remove_fingerprint. rewrite revoke_fold. cbn [fst views].
  rewrite drop_all_views, <- list_fmap_compose.
  assert (Hin : key ∈ (fst ∘ (fun kr : string * ViewRecord => (kr.1, session_of kr.2)))
                      <$> base.filter (fun kr => rec_fingerprint (snd kr) = fingerprint) iteration
                <-> exists rec, views r !! key = Some rec /\ rec_fingerprint rec = fingerprint).
  { rewrite list_elem_of_fmap. split.
    - intros ([k rec] & -> & [Hf Hin]%list_elem_of_filter). cbn in *.
      rewrite Hiter in Hin. apply elem_of_map_to_list in Hin. eauto.
    - intros (rec & Hk & Hf). exists (key, rec). split; [done|].
      apply list_elem_of_filter. split; [done|]. by rewrite Hiter, elem_of_map_to_list. }
  case_decide as Hd.
  - apply Hin in Hd as (rec & -> & <-). cbn. by rewrite String.eqb_refl.
  - destruct (views r !! key) as [rec|] eqn:Hk; [|done]. cbn.
    destruct (String.eqb_spec (rec_fingerprint rec) fingerprint) as [He|]; [|done].
    destruct Hd. apply Hin. eauto.
Qed.

Lemma remove_fingerprint_consistent : consistent after.
Proof using Hc Hiter.
  pose proof remove_fingerprint_views as Hv. unfold after in *. clear after.
  unfold remove_fingerprint in *. rewrite revoke_fold in *. cbn [fst views] in *.
  set (keys := fst <$> _) in *.
  destruct (drop_all_consistent r keys Hc) as [Hr Hi [Hall Howned Howner] Hs Ha].
  split; cbn [sockets views session_views tombstones]; try done.
  - split.
    + intros id so [Hso _]%map_lookup_filter_Some. by apply Hall.
    + intros id so k [Hso _]%map_lookup_filter_Some. by apply Howned.
    + intros k rec Hk Hp. destruct (Howner _ _ Hk Hp) as (so & Hso & Hin).
      exists so. split; [|done]. apply map_lookup_filter_Some. split; [done|]. cbn.
      destruct (Howned _ _ _ Hso Hin) as (rec' & Hk' & _ & _ & Hvk).
      assert (rec' = rec) as -> by congruence.
      rewrite <- (ok_sock_device _ _ (Hall _ _ Hso) _ Hvk), (ok_device _ _ (Hr _ _ Hk)).
      specialize (Hv k). rewrite Hk in Hv. destruct (views r !! k) as [rec0|]; [|done].
      cbn in Hv. destruct (String.eqb_spec (rec_fingerprint rec0) fingerprint); congruence.
  - apply remove_where_ok. by rewrite drop_all_tombstones in *.
  - eapply claims_apart_mono; [eauto|apply map_filter_subseteq|done].
Qed.
End Revocation.

(** ** Session close *)

Lemma close_session_fst r session_id :
  let r' := drop_all r (btree (default ∅ (session_views r !! session_id))) in
  fst (close_session r session_id)
  = mkViewRegistry (sockets r') (views r') (delete session_id (session_views r'))
      (remove_session (tombstones r') session_id).
Proof. done. Qed.

Lemma close_session_views r session_id key :
  consistent r ->
  views (fst (close_session r session_id)) !! key
  = (views r !! key ≫= fun record =>
       if String.eqb (rec_session record) session_id then None else Some record).
Proof.
  intros Hc. rewrite close_session_fst. cbn [views]. rewrite drop_all_views.
  pose proof (ok_member _ _ (ok_index _ Hc) session_id key) as Hmem.
  rewrite <- elem_of_btree in Hmem. case_decide as Hd.
  - apply Hmem in Hd as (rec & -> & <-). cbn. by rewrite String.eqb_refl.
  - destruct (views r !! key) as [rec|] eqn:Hk; [|done]. cbn.
    destruct (String.eqb_spec (rec_session rec) session_id); [|done].
    destruct Hd. apply Hmem. eauto.
Qed.

Lemma close_session_consistent r session_id :
  consistent r -> consistent (fst (close_session r session_id)).
Proof.
  intros Hc. pose proof (close_session_views r session_id) as Hv.
  rewrite close_session_fst in *. cbn [views] in Hv.
  set (keys := btree _) in *.
  destruct (drop_all_consistent r keys Hc) as [Hr Hi Ho Hs Ha].
  assert (Hnone : session_views (drop_all r keys) !! session_id = None).
  { destruct (session_views (drop_all r keys) !! session_id) as [ks|] eqn:Hk; [|done].
    destruct (decide (ks = ∅)) as [->|Hne]; [by destruct (ok_nonempty _ _ Hi session_id)|].
    apply set_choose_L in Hne as [k Hin].
    destruct (proj1 (ok_member _ _ Hi session_id k)) as (rec & Hrec & Hsess).
    { by rewrite Hk. }
    rewrite Hv in Hrec by done. destruct (views r !! k) as [rec0|]; [|done]. cbn in Hrec.
    destruct (String.eqb_spec (rec_session rec0) session_id); congruence. }
  split; cbn [sockets views session_views tombstones]; try done.
  - by rewrite delete_id.
  - apply remove_where_ok. by rewrite drop_all_tombstones in *.
  - eapply claims_apart_mono; [eauto|apply map_filter_subseteq|done].
Qed.

(** ** The sweep *)

(** What one tick does to a record. *)
Definition sweep_record (now : Z) (record : ViewRecord) : option ViewRecord :=
  if rec_deadline_ms record <=? now then None
  else Some (if rec_constrains record && negb (view_constrains record now)
             then unbind record else record).

(** Whether a tick moves a record's session. *)
Definition moved (now : Z) (record : ViewRecord) : bool :=
  (rec_deadline_ms record <=? now)
  || (rec_constrains record && negb (view_constrains record now)).

Lemma sweep_record_idem now record record' :
  sweep_record now record = Some record' ->
  sweep_record now record' = Some record' /\ moved now record' = false
  /\ rec_session record' = rec_session record.
Proof.
  unfold sweep_record, moved. destruct (rec_deadline_ms record <=? now) eqn:Hd; [done|].
  intros [= <-].
  destruct (rec_constrains record && negb (view_constrains record now)) eqn:He.
  - cbn [unbind rec_deadline_ms rec_constrains rec_intent]. by rewrite Hd.
  - by rewrite Hd, He.
Qed.

Lemma alter_insert_Some {A} (f : A -> A) (m : gmap string A) k x :
  m !! k = Some x -> alter f k m = <[k := f x]> m.
Proof.
  intros Hk. apply map_eq. intros i. destruct (decide (i = k)) as [->|].
  - by rewrite lookup_alter_eq, lookup_insert_eq, Hk.
  - by rewrite lookup_alter_ne, lookup_insert_ne.
Qed.

Lemma sweep_step_views now r o key k :
  views (fst (sweep_step now (r, o) key)) !! k
  = (if decide (k = key) then views r !! k ≫= sweep_record now else views r !! k).
Proof.
  unfold sweep_step, sweep_record. destruct (views r !! key) as [record|] eqn:Hk.
  2: { case_decide; subst; cbn; by rewrite ?Hk. }
  rewrite Z.ltb_antisym. destruct (rec_deadline_ms record <=? now) eqn:Hd; cbn [negb fst].
  - rewrite drop_record_views. case_decide; subst.
    + rewrite lookup_delete_eq, Hk. cbn. by rewrite Hd.
    + by rewrite lookup_delete_ne.
  - destruct (rec_constrains record && _) eqn:He; cbn [fst with_views views].
    + case_decide; subst.
      * rewrite lookup_alter_eq, Hk. cbn. by rewrite Hd, He.
      * by rewrite lookup_alter_ne.
    + case_decide; subst; [|done]. rewrite Hk. cbn. by rewrite Hd, He.
Qed.

Lemma sweep_step_consistent now r o key :
  consistent r -> consistent (fst (sweep_step now (r, o) key)).
Proof.
  intros Hc. unfold sweep_step. destruct (views r !! key) as [record|] eqn:Hk; [|done].
  pose proof (ok_records _ Hc _ _ Hk) as Hok.
  case_if; [case_if|]; cbn [fst]; [|done|by apply drop_record_consistent].
  rewrite (alter_insert_Some _ _ _ _ Hk).
  eapply rewrite_consistent; [done|exact Hk|by repeat split| |done|done]. by destruct Hok.
Qed.

Lemma sweep_step_changed now r o key s :
  consistent r ->
  s ∈ changed (snd (sweep_step now (r, o) key))
  <-> s ∈ changed o
      \/ exists record, views r !! key = Some record /\ rec_session record = s
           /\ moved now record = true.
Proof.
  intros Hc. unfold sweep_step, moved. destruct (views r !! key) as [record|] eqn:Hk.
  2: { cbn. naive_solver. }
  rewrite (session_of_ok _ _ (ok_records _ Hc _ _ Hk)), Z.ltb_antisym.
  destruct (rec_deadline_ms record <=? now) eqn:Hd; cbn [negb snd].
  - destruct (sockets _ !! _); destruct (rec_parked record);
      cbn [note_changed push_call changed]; rewrite elem_of_union, elem_of_singleton;
      (split; [intros [?| ->]; [by left|right; exists record; by rewrite Hd]|]);
      intros [?|(rec & [= <-] & <- & _)]; auto.
  - destruct (rec_constrains record && _) eqn:He; cbn [snd note_changed changed].
    + rewrite elem_of_union, elem_of_singleton. split.
      * intros [?| ->]; [by left|right; exists record; by rewrite He, orb_true_r].
      * intros [?|(rec & [= <-] & <- & _)]; auto.
    + split; [by left|]. intros [?|(rec & [= <-] & _ & Hm)]; [done|]. by rewrite Hd, He in Hm.
Qed.

Lemma sweep_fold now keys r o :
  consistent r ->
  let acc := foldl (sweep_step now) (r, o) keys in
  consistent (fst acc)
  /\ (forall k, views (fst acc) !! k
        = if decide (k ∈ keys) then views r !! k ≫= sweep_record now else views r !! k)
  /\ (forall s, s ∈ changed (snd acc) <-> s ∈ changed o
        \/ exists k record, k ∈ keys /\ views r !! k = Some record
             /\ rec_session record = s /\ moved now record = true).
Proof.
  revert r o. induction keys as [|key keys IH]; intros r o Hc acc; subst acc; cbn [foldl].
  { split; [done|]. split; [|set_solver].
    intros k. by rewrite decide_False by apply not_elem_of_nil. }
  pose proof (sweep_step_consistent now r o key Hc) as Hc1.
  pose proof (sweep_step_views now r o key) as Hv1.
  pose proof (fun s => sweep_step_changed now r o key s Hc) as Hch1.
  destruct (sweep_step now (r, o) key) as [r1 o1]. cbn [fst snd] in *.
  destruct (IH r1 o1 Hc1) as (IHc & IHv & IHch). split; [done|]. split.
  - intros k. rewrite IHv, Hv1. destruct (decide (k = key)) as [->|Hne].
    + rewrite (decide_True (P := key ∈ key :: keys)) by left.
      case_decide; [|done]. destruct (views r !! key) as [rec|]; [|done]. cbn.
      destruct (sweep_record now rec) as [rec'|] eqn:Hs; [|done].
      by apply sweep_record_idem in Hs as [? _].
    + destruct (decide (k ∈ keys)), (decide (k ∈ key :: keys)); try done; set_solver.
  - intros s. rewrite IHch, Hch1. setoid_rewrite Hv1. split.
    + intros [[?|(rec & ? & ? & ?)]|(k & rec & Hin & Hk & Hs & Hm)]; [by left| |].
      * right. exists key, rec. split; [left|done].
      * right. exists k, rec. split; [by right|]. case_decide; subst; [|done].
        destruct (views r !! key) as [rec0|]; [|done]. cbn in Hk.
        apply sweep_record_idem in Hk as (_ & Hm' & _). congruence.
    + intros [?|(k & rec & Hin & Hk & Hs & Hm)]; [by left; left|].
      apply elem_of_cons in Hin as [->|Hin]; [left; right; eauto|].
      destruct (decide (k = key)) as [->|Hne]; [left; right; eauto|].
      right. exists k, rec. by rewrite decide_False.
Qed.

Lemma sweep_consistent r keys now : consistent r -> consistent (fst (sweep r keys now)).
Proof.
  intros Hc. destruct (sweep_fold now keys r no_outcome Hc) as ([Hr Hi Ho Hs Ha] & _ & _).
  unfold sweep. destruct (foldl _ _ keys) as [r' o]. cbn [fst] in *.
  split; cbn [with_tombstones sockets views session_views tombstones]; try done.
  - by apply remove_where_ok.
  - eapply claims_apart_mono; [eauto|apply map_filter_subseteq|done].
Qed.

(** ** A registry's life *)

Inductive operation :=
| RegisterSocket (registration : SocketRegistration) (now : Z)
| CloseSocket (socket_id : string) (now : Z)
| SetSessionAllowed (socket_id session_id : string) (allowed : bool)
| ViewCommand (socket_id : string) (command : TerminalViewCommand) (now : Z)
| RemoveFingerprint (iteration : list (string * ViewRecord)) (fingerprint : string)
| CloseSession (session_id : SessionId)
| Sweep (keys : list string) (now : Z).

Definition perform (r : ViewRegistry) (op : operation) : ViewRegistry * MembershipOutcome :=
  match op with
  | RegisterSocket registration now => (register_socket r registration now, no_outcome)
  | CloseSocket socket_id now => (close_socket r socket_id now, no_outcome)
  | SetSessionAllowed socket_id session_id allowed =>
      (set_session_allowed r socket_id session_id allowed, no_outcome)
  | ViewCommand socket_id command now => handle_view_command r socket_id command now
  | RemoveFingerprint iteration fingerprint => remove_fingerprint r iteration fingerprint
  | CloseSession session_id => close_session r session_id
  | Sweep keys now => sweep r keys now
  end.

(** An operation as a host performs it: registrations carry their own tab's
    device, and iteration orders are orders of the map iterated. *)
Definition operation_ok (r : ViewRegistry) (op : operation) : Prop :=
  match op with
  | RegisterSocket registration _ => registration_ok registration
  | RemoveFingerprint iteration _ => iteration ≡ₚ map_to_list (views r)
  | Sweep keys _ => keys ≡ₚ (map_to_list (views r)).*1
  | _ => True
  end.

Inductive reachable : ViewRegistry -> Prop :=
| reachable_new : reachable ViewRegistry_new
| reachable_step r op : reachable r -> operation_ok r op -> reachable (fst (perform r op)).

Lemma index_ok_empty : index_ok ∅ ∅.
Proof.
  split; [|by intros s; rewrite lookup_empty|].
  - intros s k. rewrite !lookup_empty. cbn. split; [set_solver|]. by intros (? & ? & _).
  - intros s. rewrite lookup_empty. cbn. rewrite size_empty. lia.
Qed.

Lemma owners_ok_empty : owners_ok ∅ ∅.
Proof. split; by intros ? ?; rewrite ?lookup_empty. Qed.

Lemma new_consistent : consistent ViewRegistry_new.
Proof.
  split; [by intros ? ?|exact index_ok_empty|exact owners_ok_empty|exact store_new_ok|].
  by intros k [? ?].
Qed.

Lemma perform_consistent r op :
  consistent r -> operation_ok r op -> consistent (fst (perform r op)).
Proof.
  intros Hc Hop. destruct op; cbn [perform fst operation_ok] in *.
  - by apply register_socket_consistent.
  - by apply close_socket_consistent.
  - by apply set_session_allowed_consistent.
  - by apply handle_view_command_consistent.
  - by apply remove_fingerprint_consistent.
  - by apply close_session_consistent.
  - by apply sweep_consistent.
Qed.

Lemma reachable_is_consistent r : reachable r -> consistent r.
Proof. induction 1; [apply new_consistent|by apply perform_consistent]. Qed.

#[export] Hint Resolve reachable_is_consistent : views.
