(* ===== verification/TerminalViewGuarantees.v ===== *)
(** * TerminalViewGuarantees: what the terminal view registry promises

    The properties of [TerminalViewRegistry]: its indexes agree in every
    reachable state, the effective geometry is the per-axis minimum of the
    records that bind the PTY, every command is answered and touches only its
    own handle, a released claim is not revived, the bulk operations do what
    they say, and a view whose socket id is registered again stays parked. *)
From Stdlib Require Import Ascii String.
From S2P Require Export TerminalViewRuns.

(** ** A concrete registry *)

(** The UUID whose last two digits are [digits]. *)
Definition uuid_of (digits : string) : string :=
  "00000000-0000-4000-8000-0000000000" +:+ digits.

Definition demo_session : string := uuid_of "aa".

Definition demo_registration (socket_id viewer_key fingerprint : string) : SocketRegistration :=
  mkSocketRegistration socket_id (Some viewer_key) fingerprint {[demo_session]}.

Definition demo_command (view : string) (cols rows revision : Z) (active : bool) :
    TerminalViewCommand :=
  mkTerminalViewCommand (uuid_of view) demo_session cols rows revision active.

Definition performs (ops : list operation) (r : ViewRegistry) : ViewRegistry :=
  foldl (fun r op => fst (perform r op)) r ops.

(** Two devices watch one session; the second one's socket then closes. *)
Definition demo_ops : list operation :=
  [ RegisterSocket (demo_registration "s1" "a:1" "a") 0;
    RegisterSocket (demo_registration "s2" "b:1" "b") 0;
    ViewCommand "s1" (demo_command "01" 100 10 1 true) 0;
    ViewCommand "s2" (demo_command "02" 80 20 1 true) 0 ].

Definition demo_registry : ViewRegistry := performs demo_ops ViewRegistry_new.

Definition demo_parked : ViewRegistry :=
  performs [CloseSocket "s2" 1000] demo_registry.

Lemma demo_reachable : reachable demo_registry.
Proof.
  unfold demo_registry, performs, demo_ops. cbn [foldl].
  repeat (apply reachable_step; [|try done; intros ? [= <-]; reflexivity]).
  apply reachable_new.
Qed.

Lemma demo_parked_reachable : reachable demo_parked.
Proof. apply (reachable_step _ (CloseSocket "s2" 1000)); [apply demo_reachable|done]. Qed.

(** ** Consistency *)

(** C13: in every registry a host can reach, the four indexes agree.  Every
    record is filed under its own tab's key, with UUIDs, an active intent, a
    geometry in 1..256 and the device of its tab; the session index lists
    exactly the records of each session, never an empty set and never more
    than 256; each socket owns exactly the live records that name it, all of
    its own tab and at most 64; and no claim is retained beside a record, nor more
    claims than the process may retain.  These three caps hold; the cap on the
    claims retained for one viewer is not among them, because the code lets a
    viewer pass it ([viewer_cap_not_enforced]). *)
Theorem registry_invariant r :
  reachable r ->
  (forall key record, views r !! key = Some record -> record_ok key record)
  /\ (forall s key, key ∈ default ∅ (session_views r !! s) <->
        exists record, views r !! key = Some record /\ rec_session record = s)
  /\ (forall s keys, session_views r !! s = Some keys ->
        keys <> ∅ /\ (size keys <= SESSION_VIEW_CAP)%nat)
  /\ (forall socket_id socket, sockets r !! socket_id = Some socket ->
        (size (sock_views socket) <= TERMINAL_SOCKET_VIEW_CAP)%nat
        /\ forall key, key ∈ sock_views socket <->
             exists record, views r !! key = Some record
               /\ rec_socket_id record = socket_id /\ rec_parked record = false)
  /\ (forall key record, views r !! key = Some record -> rec_parked record = false ->
        exists socket, sockets r !! rec_socket_id record = Some socket
          /\ sock_viewer_key socket = Some (rec_viewer_key record))
  /\ (forall key, is_Some (views r !! key) -> entries (tombstones r) !! key = None)
  /\ Z.of_nat (size (entries (tombstones r))) <= PROCESS_TOMBSTONE_CAP.
Proof.
  intros [Hr Hi [Hall Howned Howner] (_ & _ & Hsize) Ha]%reachable_is_consistent.
  split; [exact Hr|]. split; [apply Hi|]. split.
  { intros s keys Hs. pose proof (ok_session_cap _ _ Hi s) as Hcap. rewrite Hs in Hcap.
    split; [|done]. intros ->. by apply (ok_nonempty _ _ Hi s). }
  split.
  { intros id so Hso. split; [apply (Hall _ _ Hso)|]. intros key. split.
    - intros Hin. destruct (Howned _ _ _ Hso Hin) as (rec & ? & ? & ? & _). eauto.
    - intros (rec & Hk & <- & Hp). destruct (Howner _ _ Hk Hp) as (so' & ? & ?). by simplify_eq. }
  split; [|done].
  intros key rec Hk Hp. destruct (Howner _ _ Hk Hp) as (so & Hso & Hin). exists so.
  split; [done|]. destruct (Howned _ _ _ Hso Hin) as (rec' & ? & _ & _ & ?). by simplify_eq.
Qed.

Lemma registry_invariant_witness :
  size (views demo_registry) = 2%nat /\ reachable demo_registry
  /\ Z.of_nat (size (entries (tombstones demo_registry))) <= PROCESS_TOMBSTONE_CAP.
Proof.
  split; [vm_compute; reflexivity|]. split; [exact demo_reachable|].
  apply (registry_invariant demo_registry demo_reachable).
Defined.

(** ** Effective geometry *)

(** [record] binds [s]'s PTY at [now]. *)
Definition binds (r : ViewRegistry) (s : SessionId) (now : Z) (record : ViewRecord) : Prop :=
  exists key, views r !! key = Some record /\ rec_session record = s
    /\ view_constrains record now = true.

Lemma elem_of_records_at r s record :
  consistent r ->
  record ∈ records_at (views r) (session_views r !! s) <->
  exists key, views r !! key = Some record /\ rec_session record = s.
Proof.
  intros Hc. unfold records_at. rewrite list_elem_of_omap.
  pose proof (ok_member _ _ (ok_index _ Hc) s) as Hmem. split.
  - intros (key & Hin & Hk). rewrite elem_of_btree in Hin.
    apply Hmem in Hin as (rec & Hk' & Hs). simplify_eq. eauto.
  - intros (key & Hk & Hs). exists key. split; [|done]. apply elem_of_btree, Hmem. eauto.
Qed.

Lemma elem_of_live r s now g :
  consistent r ->
  g ∈ live (registry_geometry_set r s now) <->
  exists record, binds r s now record /\ g = rec_geometry record.
Proof.
  intros Hc. unfold registry_geometry_set, geometry_set, binds. cbn [live].
  rewrite list_elem_of_fmap. setoid_rewrite list_elem_of_filter.
  setoid_rewrite (elem_of_records_at r s _ Hc). naive_solver.
Qed.

Lemma live_geometries_ok r s now :
  consistent r ->
  Forall (fun g => is_terminal_geometry g = true) (live (registry_geometry_set r s now)).
Proof.
  intros Hc. apply Forall_forall. intros g Hg.
  apply elem_of_live in Hg as (rec & (key & Hk & _) & ->); [|done].
  apply (ok_records _ Hc _ _ Hk).
Qed.

(** C14: the geometry a session's PTY is sized to, the minimum the host takes
    over the registry's live set, never fails.  It is absent exactly when no
    record binds the PTY, and otherwise it is, on each axis independently, the
    least size among the records that do, and inside 1..256. *)
Theorem effective_geometry_exact r s now :
  reachable r ->
  match minimum_terminal_geometry (live (registry_geometry_set r s now)) with
  | Err _ => False
  | Ok None => forall record, ~ binds r s now record
  | Ok (Some g) =>
      (forall record, binds r s now record ->
         cols g <= intent_cols (rec_intent record) /\ rows g <= intent_rows (rec_intent record))
      /\ (exists record, binds r s now record /\ cols g = intent_cols (rec_intent record))
      /\ (exists record, binds r s now record /\ rows g = intent_rows (rec_intent record))
      /\ is_terminal_geometry g = true
  end.
Proof.
  intros Hc%reachable_is_consistent.
  pose proof (live_geometries_ok r s now Hc) as Hok.
  pose proof (elem_of_live r s now) as Hin.
  rewrite minimum_terminal_geometry_ok by done.
  set (gs := live _) in *. destruct gs as [|g0 gs'] eqn:Hgs.
  { intros rec Hb. specialize (Hin (rec_geometry rec) Hc).
    apply (not_elem_of_nil (rec_geometry rec)), Hin. eauto. }
  rewrite <- Hgs in *. assert (Hne : gs <> []) by by rewrite Hgs.
  setoid_rewrite is_terminal_geometry_spec in Hok.
  assert (Hc257 : Forall (fun g => cols g <= 257) gs)
    by (eapply Forall_impl; [exact Hok|cbn; lia]).
  assert (Hr257 : Forall (fun g => rows g <= 257) gs)
    by (eapply Forall_impl; [exact Hok|cbn; lia]).
  destruct (axis_minimum_attained cols 257 gs Hne Hc257) as (gc & Hgc & Hcmin).
  destruct (axis_minimum_attained rows 257 gs Hne Hr257) as (gr & Hgr & Hrmin).
  rewrite Forall_forall in Hok. pose proof (Hok _ Hgc). pose proof (Hok _ Hgr).
  apply Hin in Hgc as (rc & Hrc & ->); [|done]. apply Hin in Hgr as (rr & Hrr & ->); [|done].
  cbn [cols rows]. split; [|split; [eauto|split; [eauto|]]].
  - intros rec Hb. assert (Hg : rec_geometry rec ∈ gs) by (apply Hin; eauto).
    pose proof (axis_minimum_le cols 257 _ _ Hg). pose proof (axis_minimum_le rows 257 _ _ Hg). done.
  - apply is_terminal_geometry_spec. cbn [cols rows] in *. lia.
Qed.

(** The park grace: the closed socket's 80 columns bind until 3000 ms. *)
Lemma effective_geometry_exact_witness :
  reachable demo_parked
  /\ minimum_terminal_geometry (live (registry_geometry_set demo_parked demo_session 2999))
     = Ok (Some (mkTerminalGeometry 80 10))
  /\ minimum_terminal_geometry (live (registry_geometry_set demo_parked demo_session 3000))
     = Ok (Some (mkTerminalGeometry 100 10))
  /\ exists record, binds demo_parked demo_session 3000 record
       /\ 100 = intent_cols (rec_intent record).
Proof.
  pose proof (effective_geometry_exact demo_parked demo_session 3000 demo_parked_reachable) as He.
  assert (E : minimum_terminal_geometry (live (registry_geometry_set demo_parked demo_session 3000))
              = Ok (Some (mkTerminalGeometry 100 10))) by (vm_compute; reflexivity).
  rewrite E in He. destruct He as (_ & Hcols & _ & _).
  split; [exact demo_parked_reachable|]. split; [vm_compute; reflexivity|]. by split.
Defined.

(** ** Every command is answered *)

(** A record without its lease. *)
Definition unleased (record : ViewRecord) : ViewRecord :=
  mkViewRecord (rec_key record) (rec_view_id record) (rec_viewer_key record)
    (rec_fingerprint record) (rec_socket_id record) (rec_intent record)
    (rec_revision record) 0 (rec_parked record) (rec_parked_at_ms record)
    (rec_constrains record).

Section Answers.
Context (r : ViewRegistry) (socket_id : string) (command : TerminalViewCommand).
Context (key : string) (now : Z).

(** A refusal: membership is what it was, up to a renewed lease. *)
Definition refused (r' : ViewRegistry) (o : MembershipOutcome) : Prop :=
  (exists reason, replies o
     = [ReplyCommand socket_id (cmd_view_id command) (cmd_session_id command)
          (cmd_revision command) (cmd_active command) Rejected reason])
  /\ changed o = ∅ /\ calls o = []
  /\ sockets r' = sockets r /\ session_views r' = session_views r
  /\ forall k, unleased <$> views r' !! k = unleased <$> views r !! k.

(** An acknowledged release: the handle has no record. *)
Definition released (r' : ViewRegistry) (o : MembershipOutcome) : Prop :=
  cmd_active command = false
  /\ replies o
     = [ReplyCommand socket_id (cmd_view_id command) (cmd_session_id command)
          (cmd_revision command) false Accepted ""]
  /\ views r' !! key = None
  /\ (is_Some (views r !! key) -> cmd_session_id command ∈ changed o).

(** An acceptance: the record is the declaration, on this socket, renewed. *)
Definition accepted (r' : ViewRegistry) (o : MembershipOutcome) : Prop :=
  cmd_active command = true
  /\ replies o
     = [ReplyView socket_id (cmd_view_id command) (cmd_session_id command)
          (cmd_revision command) Accepted ""]
  /\ (exists record, views r' !! key = Some record
        /\ rec_intent record = intent_of command
        /\ rec_revision record = cmd_revision command
        /\ rec_socket_id record = socket_id
        /\ rec_deadline_ms record = lease_deadline now)
  /\ ((exists old, views r !! key = Some old /\ rec_intent old = intent_of command)
      \/ cmd_session_id command ∈ changed o).

Definition answered (ro : ViewRegistry * MembershipOutcome) : Prop :=
  refused (fst ro) (snd ro) \/ released (fst ro) (snd ro) \/ accepted (fst ro) (snd ro).

Lemma refuse_answered r' reason :
  sockets r' = sockets r -> session_views r' = session_views r ->
  (forall k, unleased <$> views r' !! k = unleased <$> views r !! k) ->
  answered (r', refuse socket_id command reason no_outcome).
Proof using Type. intros. left. cbn [fst snd]. split; [by eexists|]. done. Qed.

Lemma release_answered record :
  cmd_active command = false -> views r !! key = Some record -> record_ok key record ->
  cmd_session_id command = rec_session record ->
  answered (release r socket_id command key now no_outcome).
Proof using Type.
  intros Ha Hk Hok Hs. right. left. unfold release. rewrite Hk. cbn [mbind option_bind].
  rewrite (session_of_ok _ _ Hok). cbn [fst snd note_moved].
  split; [done|]. split; [done|]. split.
  - rewrite drop_record_views. apply lookup_delete_eq.
  - intros _. cbn. rewrite Hs. set_solver.
Qed.
End Answers.

Lemma intents_equal_eq a b : intents_equal a b = true <-> a = b.
Proof.
  unfold intents_equal. rewrite !andb_true_iff, String.eqb_eq, !Z.eqb_eq, Bool.eqb_true_iff.
  destruct a, b; cbn. split; [intros [[[-> ->] ->] ->]; done|by intros [= -> -> -> ->]].
Qed.

Lemma update_answered r caller command current key now :
  consistent r -> caller_ok r caller command -> views r !! key = Some current ->
  key = view_key (caller_viewer_key caller) (cmd_view_id command) ->
  rec_socket_id current = caller_socket_id caller ->
  answered r (caller_socket_id caller) command key now
    (update r caller command current now no_outcome).
Proof.
  intros Hc [_ (_ & Hvid & _ & _ & _)%validate_None] Hk Hkey Hsock.
  pose proof (ok_records _ Hc _ _ Hk) as Hok. pose proof Hok as [H1 H2 H3 _ Hact _ _ _].
  assert (rec_view_id current = cmd_view_id command) as Hview.
  { rewrite H2 in Hkey. by apply view_key_inj in Hkey as [_ ?]. }
  unfold update. destruct (cmd_revision command <? _); [by apply refuse_answered|].
  destruct (Z.eqb_spec (cmd_revision command) (rec_revision current)) as [Hrev|].
  - rewrite H1. destruct (intents_equal _ _) eqn:Heq; cbn [negb].
    + apply intents_equal_eq in Heq. right. right. cbn [fst snd].
      assert (Ha : cmd_active command = true) by (rewrite Heq in Hact; done).
      split; [done|]. split; [|split].
      * unfold answer_view. cbn. rewrite Heq, Hview, <- Hrev, Hsock. done.
      * eexists. cbn [with_views views]. rewrite lookup_insert_eq. by split.
      * left. eauto.
    + apply refuse_answered; [done|done|]. intros k. cbn [with_views views].
      destruct (decide (k = key)) as [->|]; [|by cbn [rec_key]; rewrite lookup_insert_ne].
      cbn [rec_key]. rewrite lookup_insert_eq, Hk. unfold unleased. cbn. by rewrite H1.
  - destruct (String.eqb_spec (cmd_session_id command) (rec_session current)) as [Hs|];
      cbn [negb]; [|by apply refuse_answered].
    destruct (cmd_active command) eqn:Ha; cbn [negb].
    + right. right. cbn [fst snd]. rewrite (session_of_ok _ _ Hok).
      split; [done|]. split; [|split].
      * unfold answer_view. cbn. by rewrite Hview, Hsock.
      * eexists. cbn [with_views views]. rewrite H1, lookup_insert_eq. by split.
      * right. cbn. rewrite Hs. set_solver.
    + rewrite H1. by eapply release_answered.
Qed.

Lemma reclaim_answered r caller command current key now :
  consistent r -> caller_ok r caller command -> views r !! key = Some current ->
  key = view_key (caller_viewer_key caller) (cmd_view_id command) ->
  answered r (caller_socket_id caller) command key now
    (reclaim r caller command current key now no_outcome).
Proof.
  intros Hc [_ (_ & Hvid & _ & _ & _)%validate_None] Hk Hkey.
  pose proof (ok_records _ Hc _ _ Hk) as Hok. pose proof Hok as [H1 H2 H3 _ Hact _ _ _].
  assert (rec_view_id current = cmd_view_id command) as Hview.
  { rewrite H2 in Hkey. by apply view_key_inj in Hkey as [_ ?]. }
  unfold reclaim. destruct (negb (rec_parked current)); [by apply refuse_answered|].
  destruct (cmd_revision command <? _); [by apply refuse_answered|].
  destruct (String.eqb_spec (cmd_session_id command) (rec_session current)) as [Hs|];
    cbn [negb]; [|by apply refuse_answered].
  destruct (cmd_active command) eqn:Ha; cbn [negb]; [|by eapply release_answered].
  case_if; [by apply refuse_answered|].
  right. right. cbn [fst snd]. rewrite (session_of_ok _ _ Hok).
  split; [done|]. split; [|split].
  - unfold answer_view. cbn. by rewrite Hview.
  - eexists. cbn [own_key with_sockets with_views views]. rewrite lookup_insert_eq. by split.
  - right. cbn. rewrite Hs. set_solver.
Qed.

Lemma admit_fresh_answered r r0 caller command key now :
  caller_ok r caller command -> views r !! key = None ->
  sockets r = sockets r0 -> session_views r = session_views r0 -> views r = views r0 ->
  answered r0 (caller_socket_id caller) command key now
    (admit_fresh r caller command key now no_outcome).
Proof.
  intros [_ (_ & _ & Hsid & _)%validate_None] Hk E1 E2 E3.
  unfold admit_fresh. destruct (cmd_active command) eqn:Ha; cbn [negb].
  - case_if; [apply refuse_answered; congruence|].
    rewrite SessionId_try_from_terminal by done.
    case_if; [apply refuse_answered; congruence|].
    right. right. cbn [fst snd]. split; [done|]. split; [done|]. split.
    + eexists. cbn [own_key with_sockets views]. rewrite lookup_insert_eq. by split.
    + right. cbn. set_solver.
  - right. left. cbn [fst snd]. split; [done|]. split; [done|]. split; [done|].
    rewrite <- E3, Hk. by intros [? ?].
Qed.

Lemma admit_answered r caller command key now :
  caller_ok r caller command -> views r !! key = None ->
  answered r (caller_socket_id caller) command key now
    (admit_view r caller command key now no_outcome).
Proof.
  intros Hcall Hk. unfold admit_view.
  destruct (tombstones_get _ _) as [old|]; [|by apply admit_fresh_answered].
  case_if; [by apply refuse_answered|]. case_if; [by apply refuse_answered|].
  case_if; [|by apply admit_fresh_answered; [destruct Hcall; split|..]].
  right. left. bool_to_prop. cbn [fst snd]. split; [done|]. split; [done|]. split; [done|].
  rewrite Hk. by intros [? ?].
Qed.

Lemma handle_answered r socket_id socket command now :
  consistent r -> sockets r !! socket_id = Some socket ->
  answered r socket_id command
    (view_key (default "" (sock_viewer_key socket)) (cmd_view_id command)) now
    (handle_view_command r socket_id command now).
Proof.
  intros Hc Hso. unfold handle_view_command. rewrite Hso.
  destruct (validate_view_command _ _) as [reason|] eqn:Hval; [by apply refuse_answered|].
  destruct (allows socket _); cbn [negb]; [|by apply refuse_answered].
  destruct (sock_viewer_key socket) as [vk|] eqn:Hvk; [|done]. cbn [default id].
  assert (Hcall : caller_ok r (mkCaller socket_id vk (sock_fingerprint socket)) command)
    by (split; [exists socket|]; done).
  destruct (views r !! view_key vk (cmd_view_id command)) as [current|] eqn:Hk;
    [|by apply (admit_answered r (mkCaller socket_id vk (sock_fingerprint socket)))].
  destruct (String.eqb_spec (rec_socket_id current) socket_id); cbn [negb].
  - by apply (update_answered r (mkCaller socket_id vk (sock_fingerprint socket))).
  - by apply (reclaim_answered r (mkCaller socket_id vk (sock_fingerprint socket))).
Qed.

(** Every view command from a registered socket gets exactly one answer,
    on the socket that sent it, for the handle, session and revision it named,
    and the answer is the truth.  A refusal leaves membership as it was, but
    for a renewed lease; an acknowledged release leaves no record for the
    handle and names the session as changed when one was dropped; an
    acceptance leaves the handle's record declaring exactly the command, on
    that socket, with a fresh lease, and names the session as changed unless
    the record already declared it. *)
Theorem view_command_answered r socket_id socket command now :
  reachable r -> sockets r !! socket_id = Some socket ->
  answered r socket_id command
    (view_key (default "" (sock_viewer_key socket)) (cmd_view_id command)) now
    (handle_view_command r socket_id command now).
Proof. intros Hr. by apply handle_answered, reachable_is_consistent. Qed.

(** The parked handle of "b:1" is reclaimed from a new socket. *)
Definition demo_returning : ViewRegistry :=
  performs [RegisterSocket (demo_registration "s3" "b:1" "b") 1500] demo_parked.

Lemma demo_returning_reachable : reachable demo_returning.
Proof.
  apply (reachable_step _ (RegisterSocket (demo_registration "s3" "b:1" "b") 1500));
    [apply demo_parked_reachable|by intros ? [= <-]].
Qed.

Lemma view_command_answered_witness :
  reachable demo_returning
  /\ answered demo_returning "s3" (demo_command "02" 60 30 2 true)
       (view_key "b:1" (uuid_of "02")) 1500
       (handle_view_command demo_returning "s3" (demo_command "02" 60 30 2 true) 1500)
  /\ changed (snd (handle_view_command demo_returning "s3" (demo_command "02" 60 30 2 true) 1500))
     = {[demo_session]}.
Proof.
  split; [exact demo_returning_reachable|]. split.
  - apply (view_command_answered demo_returning "s3"
             (mkSocketRecord "s3" (Some "b:1"%string) "b" {[demo_session]} ∅)
             (demo_command "02" 60 30 2 true) 1500 demo_returning_reachable).
    vm_compute. reflexivity.
  - vm_compute. reflexivity.
Defined.

(** ** Isolation between tabs *)

(** What a path working on [key] for [socket_id] leaves alone. *)
Definition framed (r r' : ViewRegistry) (socket_id key : string) : Prop :=
  (forall k, k <> key -> views r' !! k = views r !! k)
  /\ (forall id socket, id <> socket_id -> sockets r !! id = Some socket ->
        key ∉ sock_views socket -> sockets r' !! id = Some socket).

Lemma framed_same r r' socket_id key :
  views r' = views r -> sockets r' = sockets r -> framed r r' socket_id key.
Proof. intros E1 E2. split; by rewrite ?E1, ?E2. Qed.

Lemma framed_insert r r' socket_id key record :
  views r' = <[key := record]> (views r) -> sockets r' = sockets r ->
  framed r r' socket_id key.
Proof. intros E1 E2. split; rewrite ?E1, ?E2; [|done]. intros k ?. by rewrite lookup_insert_ne. Qed.

Lemma framed_drop r key save now claim socket_id :
  framed r (drop_record r key save now claim) socket_id key.
Proof.
  split.
  - intros k ?. rewrite drop_record_views. by rewrite lookup_delete_ne.
  - intros id so _ Hso Hk. rewrite drop_record_sockets, Hso. cbn.
    destruct (views r !! key); [|done]. case_if; [|done].
    f_equal. destruct so as [? ? ? ? keys]. unfold with_sock_views. cbn in *. f_equal. set_solver.
Qed.

Lemma framed_own r socket_id key record index :
  framed r (own_key (mkViewRegistry (sockets r) (<[key := record]> (views r)) index (tombstones r))
              socket_id key) socket_id key.
Proof.
  split; cbn [own_key with_sockets views sockets].
  - intros k ?. by rewrite lookup_insert_ne.
  - intros id so ? Hso _. by rewrite lookup_alter_ne.
Qed.

Lemma update_framed r caller command current key now o :
  rec_key current = key ->
  framed r (fst (update r caller command current now o)) (caller_socket_id caller) key.
Proof.
  intros <-. unfold update. case_if; [by apply framed_same|]. case_if.
  - destruct (negb _); by eapply framed_insert.
  - case_if; [by apply framed_same|]. case_if; [apply framed_drop|by eapply framed_insert].
Qed.

Lemma reclaim_framed r caller command current key now o :
  framed r (fst (reclaim r caller command current key now o)) (caller_socket_id caller) key.
Proof.
  unfold reclaim. case_if; [by apply framed_same|]. case_if; [by apply framed_same|].
  case_if; [by apply framed_same|]. case_if; [apply framed_drop|].
  case_if; [by apply framed_same|]. cbn [fst]. apply framed_own.
Qed.

Lemma admit_fresh_framed r caller command key now o :
  framed r (fst (admit_fresh r caller command key now o)) (caller_socket_id caller) key.
Proof.
  unfold admit_fresh. case_if; [by apply framed_same|]. case_if; [by apply framed_same|].
  destruct (SessionId_try_from _); [|by apply framed_same].
  case_if; [by apply framed_same|]. apply framed_own.
Qed.

Lemma admit_framed r caller command key now o :
  framed r (fst (admit_view r caller command key now o)) (caller_socket_id caller) key.
Proof.
  unfold admit_view. destruct (tombstones_get _ _); [|apply admit_fresh_framed].
  case_if; [by apply framed_same|]. case_if; [by apply framed_same|].
  case_if; [by apply framed_same|].
  exact (admit_fresh_framed (with_tombstones r _) caller command key now o).
Qed.

Lemma handle_framed r socket_id socket viewer_key command now :
  consistent r -> sockets r !! socket_id = Some socket ->
  sock_viewer_key socket = Some viewer_key ->
  is_terminal_uuid (cmd_view_id command) = true ->
  framed r (fst (handle_view_command r socket_id command now)) socket_id
    (view_key viewer_key (cmd_view_id command)).
Proof.
  intros Hc Hso Hvk Hvid. unfold handle_view_command. rewrite Hso, Hvk.
  destruct (validate_view_command _ _); [by apply framed_same|].
  case_if; [by apply framed_same|].
  destruct (views r !! _) as [current|] eqn:Hk.
  - case_if; [apply (reclaim_framed r (mkCaller socket_id viewer_key (sock_fingerprint socket)))|].
    apply (update_framed r (mkCaller socket_id viewer_key (sock_fingerprint socket))).
    apply (ok_records _ Hc _ _ Hk).
  - apply (admit_framed r (mkCaller socket_id viewer_key (sock_fingerprint socket))).
Qed.

Lemma handle_invalid r socket_id command now :
  is_terminal_uuid (cmd_view_id command) = false ->
  fst (handle_view_command r socket_id command now) = r.
Proof.
  intros Hvid. unfold handle_view_command.
  destruct (sockets r !! socket_id) as [socket|]; [|done].
  destruct (validate_view_command _ _) eqn:Hval; [done|].
  apply validate_None in Hval as (_ & Hv & _). congruence.
Qed.

(** A command reaches only the handle it names, of the tab its socket
    authenticated.  Every record of another tab, and every other handle of the
    same tab, is what it was, and so is every socket of another tab, whatever
    view id the command carries. *)
Theorem view_commands_isolated r socket_id socket command now :
  reachable r -> sockets r !! socket_id = Some socket ->
  let r' := fst (handle_view_command r socket_id command now) in
  (forall key record, views r !! key = Some record ->
     sock_viewer_key socket <> Some (rec_viewer_key record)
     \/ rec_view_id record <> cmd_view_id command ->
     views r' !! key = Some record)
  /\ (forall id other, sockets r !! id = Some other ->
        sock_viewer_key other <> sock_viewer_key socket -> sockets r' !! id = Some other).
Proof.
  intros Hc%reachable_is_consistent Hso r'.
  destruct (is_terminal_uuid (cmd_view_id command)) eqn:Hvid.
  2: { subst r'. rewrite handle_invalid by done. done. }
  destruct (sock_viewer_key socket) as [vk|] eqn:Hvk.
  2: { assert (r' = r) as ->; [|done]. subst r'. unfold handle_view_command.
       by rewrite Hso, Hvk. }
  destruct (handle_framed r socket_id socket vk command now Hc Hso Hvk Hvid) as [Hv Hs].
  fold r' in Hv, Hs. split.
  - intros key rec Hk Hother. rewrite Hv; [done|]. intros Heq.
    pose proof (ok_records _ Hc _ _ Hk) as [_ Hkey Hview _ _ _ _ _].
    rewrite Hkey in Heq. apply view_key_inj in Heq as [? ?]; [|done|done]. naive_solver.
  - intros id other Hid Hne. apply Hs; [congruence|done|]. intros Hin.
    destruct (ok_owned _ _ (ok_owners _ Hc) _ _ _ Hid Hin) as (rec & Hk & _ & _ & Hok).
    pose proof (ok_records _ Hc _ _ Hk) as [_ Hkey Hview _ _ _ _ _].
    apply view_key_inj in Hkey as [? ?]; [|done|done]. congruence.
Qed.

(** Tab "a:1" naming tab "b:1"'s view id gets a handle of its own. *)
Lemma view_commands_isolated_witness :
  views (fst (handle_view_command demo_registry "s1" (demo_command "02" 50 5 9 true) 10))
    !! view_key "b:1" (uuid_of "02")
  = Some (mkViewRecord (view_key "b:1" (uuid_of "02")) (uuid_of "02") "b:1" "b" "s2"
            (mkViewIntent demo_session 80 20 true) 1 15000 false 0 true).
Proof.
  apply (view_commands_isolated demo_registry "s1"
           (mkSocketRecord "s1" (Some "a:1"%string) "a" {[demo_session]}
              {[view_key "a:1" (uuid_of "01")]})
           (demo_command "02" 50 5 9 true) 10 demo_reachable).
  - vm_compute. reflexivity.
  - vm_compute. reflexivity.
  - left. discriminate.
Defined.

(** ** Released claims *)

(** A command that leaves a handle without its record is a release, and its
    claim is the command's own. *)
Lemma release_leaves_claim r socket_id socket viewer_key command now record :
  consistent r ->
  sockets r !! socket_id = Some socket -> sock_viewer_key socket = Some viewer_key ->
  let key := view_key viewer_key (cmd_view_id command) in
  views r !! key = Some record ->
  let r1 := fst (handle_view_command r socket_id command now) in
  views r1 !! key = None ->
  exists old, tombstones_get (tombstones r1) key = Some old
    /\ tomb_revision old = cmd_revision command
    /\ intent_active (tomb_intent old) = false.
Proof.
  intros Hc Hso Hvk key Hk r1 Hgone. subst r1. unfold handle_view_command in *.
  rewrite Hso, Hvk in *. destruct (validate_view_command _ _); [cbn in Hgone; congruence|].
  destruct (negb (allows _ _)); [cbn in Hgone; congruence|].
  fold key in Hgone |- *. rewrite Hk in *.
  assert (Hrel : forall sid o, cmd_active command = false ->
    exists old, tombstones_get (tombstones (fst (release r sid command key now o))) key = Some old
      /\ tomb_revision old = cmd_revision command /\ intent_active (tomb_intent old) = false).
  { intros sid o Ha. unfold release. cbn [fst]. unfold drop_record. rewrite Hk. cbn [default id].
    cbn [tombstones]. unfold tombstones_get. rewrite retain_newest by apply Hc. by eexists. }
  destruct (negb (String.eqb _ _)).
  - unfold reclaim in *. case_if; [cbn in Hgone; congruence|].
    case_if; [cbn in Hgone; congruence|]. case_if; [cbn in Hgone; congruence|].
    destruct (cmd_active command) eqn:Ha; cbn [negb] in *; [|by apply Hrel].
    case_if; [cbn in Hgone; congruence|].
    cbn [fst own_key with_sockets with_views views] in Hgone. by rewrite lookup_insert_eq in Hgone.
  - unfold update in *. rewrite (ok_key _ _ (ok_records _ Hc _ _ Hk)) in *.
    case_if; [cbn in Hgone; congruence|].
    case_if; [destruct (negb (intents_equal _ _)); cbn [fst with_views views rec_key] in Hgone;
              by rewrite lookup_insert_eq in Hgone|].
    case_if; [cbn in Hgone; congruence|].
    destruct (cmd_active command) eqn:Ha; cbn [negb] in *; [|by apply Hrel].
    cbn [fst with_views views rec_key] in Hgone. by rewrite lookup_insert_eq in Hgone.
Qed.

(** A released claim is not revived by a declaration as old as its
    release.  When an accepted command leaves a tab's handle without the
    record it had, an active declaration of that handle at the release's
    revision or an earlier one, from any socket of the tab, is refused and
    changes nothing. *)
Theorem released_claim_not_revived r socket_id socket viewer_key release_cmd now record
    socket_id' socket' command now' :
  reachable r ->
  sockets r !! socket_id = Some socket -> sock_viewer_key socket = Some viewer_key ->
  views r !! view_key viewer_key (cmd_view_id release_cmd) = Some record ->
  let r1 := fst (handle_view_command r socket_id release_cmd now) in
  views r1 !! view_key viewer_key (cmd_view_id release_cmd) = None ->
  sockets r1 !! socket_id' = Some socket' -> sock_viewer_key socket' = Some viewer_key ->
  cmd_view_id command = cmd_view_id release_cmd ->
  cmd_active command = true -> cmd_revision command <= cmd_revision release_cmd ->
  fst (handle_view_command r1 socket_id' command now') = r1
  /\ exists reason, replies (snd (handle_view_command r1 socket_id' command now'))
       = [ReplyCommand socket_id' (cmd_view_id command) (cmd_session_id command)
            (cmd_revision command) true Rejected reason].
Proof.
  intros Hreach Hso Hvk Hk r1 Hgone Hso' Hvk' Hsame Hact Hrev.
  pose proof (reachable_is_consistent _ Hreach) as Hc.
  set (key := view_key viewer_key (cmd_view_id release_cmd)) in *.
  destruct (release_leaves_claim r socket_id socket viewer_key release_cmd now record
              Hc Hso Hvk Hk Hgone) as (old & Hold & Horev & Hoact).
  fold r1 key in Hold. clearbody r1.
  unfold handle_view_command. rewrite Hso', Hvk', Hsame. fold key.
  destruct (validate_view_command _ command);
    [split; [done|]; exists s; cbn; by rewrite Hact, Hsame|].
  case_if; [split; [done|]; eexists; cbn; by rewrite Hact, Hsame|].
  rewrite Hgone. unfold admit_view. rewrite Hold.
  assert ((cmd_revision command <? tomb_revision old)
     || ((cmd_revision command =? tomb_revision old)
         && negb (intents_equal (tomb_intent old) (intent_of command))) = true) as ->.
  { destruct (Z.ltb_spec (cmd_revision command) (tomb_revision old)); [done|].
    assert (cmd_revision command = tomb_revision old) as -> by lia. rewrite Z.eqb_refl. cbn.
    destruct (intents_equal _ _) eqn:He; [|done]. apply intents_equal_eq in He.
    rewrite He in Hoact. cbn in Hoact. congruence. }
  split; [done|]. eexists. cbn. by rewrite Hact, Hsame.
Qed.

Lemma released_claim_not_revived_witness :
  let r1 := fst (handle_view_command demo_registry "s1" (demo_command "01" 0 0 2 false) 10) in
  views r1 !! view_key "a:1" (uuid_of "01") = None
  /\ fst (handle_view_command r1 "s1" (demo_command "01" 100 10 2 true) 11) = r1.
Proof.
  assert (Hg : views (fst (handle_view_command demo_registry "s1" (demo_command "01" 0 0 2 false) 10))
    !! view_key "a:1" (uuid_of "01") = None) by (vm_compute; reflexivity).
  split; [exact Hg|].
  apply (released_claim_not_revived demo_registry "s1"
           (mkSocketRecord "s1" (Some "a:1"%string) "a" {[demo_session]}
              {[view_key "a:1" (uuid_of "01")]})
           "a:1" (demo_command "01" 0 0 2 false) 10
           (mkViewRecord (view_key "a:1" (uuid_of "01")) (uuid_of "01") "a:1" "a" "s1"
              (mkViewIntent demo_session 100 10 true) 1 15000 false 0 true)
           "s1" (mkSocketRecord "s1" (Some "a:1"%string) "a" {[demo_session]} ∅)
           (demo_command "01" 100 10 2 true) 11 demo_reachable);
    try (vm_compute; reflexivity). cbn. lia.
Defined.

(** ** The sweep *)

(** [record] is a live view whose lease has lapsed at [now]. *)
Definition lapsed_live (now : Z) (record : ViewRecord) : Prop :=
  rec_parked record = false /\ rec_deadline_ms record <= now.

Definition expiry_call (record : ViewRecord) : SinkCall :=
  LiveViewExpired (rec_socket_id record) (rec_view_id record) (rec_session record).

Lemma sweep_step_expired now r o key socket_id view_id s :
  consistent r ->
  LiveViewExpired socket_id view_id s ∈ calls (snd (sweep_step now (r, o) key))
  <-> LiveViewExpired socket_id view_id s ∈ calls o
      \/ exists record, views r !! key = Some record /\ lapsed_live now record
           /\ LiveViewExpired socket_id view_id s = expiry_call record.
Proof.
  intros Hc. unfold sweep_step, lapsed_live, expiry_call.
  destruct (views r !! key) as [record|] eqn:Hk; [|cbn; naive_solver].
  rewrite (session_of_ok _ _ (ok_records _ Hc _ _ Hk)).
  destruct (Z.ltb_spec now (rec_deadline_ms record)) as [Hd|Hd].
  { case_if; cbn; (split; [by left|]);
      (intros [?|(rec & [= <-] & [_ ?] & _)]; [done|lia]). }
  cbn [snd]. destruct (sockets _ !! _); destruct (rec_parked record) eqn:Hp;
    cbn [note_changed push_call calls]; rewrite ?elem_of_app, ?list_elem_of_singleton;
    unfold sync_watching;
    (split; [intros Hx; destruct_or?; try done; [by left|right; by exists record..]
            |intros [?|(rec & [= <-] & [? _] & ?)]; [tauto|first [congruence|tauto]]]).
Qed.

Lemma sweep_fold_expired now keys r o socket_id view_id s :
  consistent r ->
  LiveViewExpired socket_id view_id s ∈ calls (snd (foldl (sweep_step now) (r, o) keys))
  <-> LiveViewExpired socket_id view_id s ∈ calls o
      \/ exists key record, key ∈ keys /\ views r !! key = Some record
           /\ lapsed_live now record /\ LiveViewExpired socket_id view_id s = expiry_call record.
Proof.
  revert r o. induction keys as [|key keys IH]; intros r o Hc; cbn [foldl]; [set_solver|].
  pose proof (sweep_step_expired now r o key socket_id view_id s Hc) as He.
  pose proof (sweep_step_views now r o key) as Hv.
  pose proof (sweep_step_consistent now r o key Hc) as Hc'.
  destruct (sweep_step now (r, o) key) as [r1 o1]. cbn [fst snd] in *.
  rewrite IH, He by done. setoid_rewrite Hv. split.
  - intros [[?|(rec & ? & ? & ?)]|(k & rec & Hin & Hk & Hl & ?)]; [by left| |].
    + right. exists key, rec. split; [left|done].
    + right. exists k, rec. split; [by right|]. case_decide; subst; [|done].
      destruct (views r !! key) as [rec0|]; [|done]. cbn in Hk.
      apply sweep_record_idem in Hk as (Hk & _ & _). unfold sweep_record in Hk.
      destruct Hl as [_ Hl]. apply Z.leb_le in Hl. by rewrite Hl in Hk.
  - intros [?|(k & rec & Hin & Hk & Hl & ?)]; [by left; left|].
    apply elem_of_cons in Hin as [->|Hin]; [left; right; eauto|].
    destruct (decide (k = key)) as [->|Hne]; [left; right; eauto|].
    right. exists k, rec. by rewrite decide_False.
Qed.

Lemma elem_of_map_keys (m : gmap string ViewRecord) key :
  key ∈ (map_to_list m).*1 <-> is_Some (m !! key).
Proof.
  rewrite list_elem_of_fmap. split.
  - intros ([k x] & -> & Hin%elem_of_map_to_list). by eexists.
  - intros [x Hx]. exists (key, x). by rewrite elem_of_map_to_list.
Qed.

(** One sweep tick, in whatever order the records are visited, reaps
    exactly the records whose lease has lapsed and leaves the others as they
    were, but for the mark of the records whose park grace ended; the sessions
    it reports as moved are exactly those of reaped and newly unbound records;
    it reports an expired view exactly for each reaped record that was still
    live; and every claim it keeps is unexpired.  In particular a session it
    does not report has the same binding records after the tick as before. *)
Theorem sweep_exact r keys now :
  reachable r -> keys ≡ₚ (map_to_list (views r)).*1 ->
  let r' := fst (sweep r keys now) in
  let o := snd (sweep r keys now) in
  (forall key, views r' !! key = (views r !! key ≫= sweep_record now))
  /\ (forall s, s ∈ changed o <->
        exists key record, views r !! key = Some record /\ rec_session record = s
          /\ (rec_deadline_ms record <= now
              \/ (rec_constrains record = true /\ view_constrains record now = false)))
  /\ (forall socket_id view_id s, LiveViewExpired socket_id view_id s ∈ calls o <->
        exists key record, views r !! key = Some record /\ lapsed_live now record
          /\ LiveViewExpired socket_id view_id s = expiry_call record)
  /\ (forall key t, entries (tombstones r') !! key = Some t -> now < tomb_expires_ms t)
  /\ (forall s key, s ∉ changed o ->
        (exists record, views r' !! key = Some record /\ rec_session record = s
           /\ rec_constrains record = true)
        <-> (exists record, views r !! key = Some record /\ rec_session record = s
           /\ rec_constrains record = true /\ view_constrains record now = true)).
Proof.
  intros Hc%reachable_is_consistent Hkeys r' o.
  destruct (sweep_fold now keys r no_outcome Hc) as (_ & Hv & Hch).
  pose proof (fun a b c => sweep_fold_expired now keys r no_outcome a b c Hc) as Hexp.
  assert (Hin : forall key record, views r !! key = Some record -> key ∈ keys)
    by (intros ? ? ?; rewrite Hkeys, elem_of_map_keys; eauto).
  subst r' o. unfold sweep. destruct (foldl _ _ keys) as [r1 o1]. cbn [fst snd] in *.
  cbn [with_tombstones views tombstones expire tombstones_remove_where entries].
  assert (Hviews : forall key, views r1 !! key = (views r !! key ≫= sweep_record now)).
  { intros key. rewrite Hv. case_decide as Hd; [done|].
    destruct (views r !! key) eqn:Hk; [|done]. destruct Hd. eauto. }
  assert (Hchanged : forall s, s ∈ changed o1 <-> exists key record,
    views r !! key = Some record /\ rec_session record = s
    /\ (rec_deadline_ms record <= now
        \/ (rec_constrains record = true /\ view_constrains record now = false))).
  { intros s. rewrite Hch. unfold moved. setoid_rewrite orb_true_iff.
    setoid_rewrite andb_true_iff. setoid_rewrite negb_true_iff. setoid_rewrite Z.leb_le.
    cbn. set_solver. }
  split; [done|]. split; [done|]. split; [intros; rewrite Hexp; cbn; set_solver|]. split.
  { intros key t [_ Ht]%map_lookup_filter_Some. cbn in Ht. by apply Z.leb_gt in Ht. }
  intros s key Hs. rewrite Hviews. unfold sweep_record. split.
  - intros (rec' & Hk & <- & Hcon). destruct (views r !! key) as [rec|] eqn:Hrec; [|done].
    cbn in Hk. case_if; [done|]. injection Hk as <-.
    destruct (rec_constrains rec && _) eqn:He; [done|]. exists rec.
    rewrite Hcon in He. cbn in He. apply negb_false_iff in He. done.
  - intros (rec & Hrec & <- & Hcon & Hbind). rewrite Hrec. cbn.
    assert (rec_deadline_ms rec <=? now = false) as ->.
    { unfold view_constrains in Hbind. by case_if. }
    exists rec. by rewrite Hcon, Hbind.
Qed.

(** The tick at 3000 ms ends the closed socket's grace; the one at 15000 ms
    reaps the live view. *)
Lemma sweep_exact_witness :
  let keys := (map_to_list (views demo_parked)).*1 in
  demo_session ∈ changed (snd (sweep demo_parked keys 3000))
  /\ LiveViewExpired "s1" (uuid_of "01") demo_session
     ∈ calls (snd (sweep demo_parked keys 15000)).
Proof.
  split.
  - apply (sweep_exact demo_parked _ 3000 demo_parked_reachable); [done|].
    exists (view_key "b:1" (uuid_of "02")),
      (mkViewRecord (view_key "b:1" (uuid_of "02")) (uuid_of "02") "b:1" "b" "s2"
         (mkViewIntent demo_session 80 20 true) 1 15000 true 1000 true).
    split; [vm_compute; reflexivity|]. split; [reflexivity|]. right. by split.
  - apply (sweep_exact demo_parked _ 15000 demo_parked_reachable); [done|].
    exists (view_key "a:1" (uuid_of "01")),
      (mkViewRecord (view_key "a:1" (uuid_of "01")) (uuid_of "01") "a:1" "a" "s1"
         (mkViewIntent demo_session 100 10 true) 1 15000 false 0 true).
    split; [vm_compute; reflexivity|]. split; [split; [reflexivity|cbn; lia]|reflexivity].
Defined.

(** ** Removal *)

Lemma revoke_changed o doomed s :
  s ∈ changed (foldl (fun o d => match snd d with Some s => note_changed s o | None => o end) o
                 (doomed : list (string * option SessionId)))
  <-> s ∈ changed o \/ Some s ∈ doomed.*2.
Proof.
  revert o. induction doomed as [|[k d] doomed IH]; intros o; cbn [foldl fmap list_fmap snd].
  { set_solver. }
  rewrite IH, elem_of_cons. destruct d as [s'|]; cbn; set_solver.
Qed.

(** Revoking a device leaves nothing of it and touches nothing else.
    Afterwards no record of the device is left, every other record is what it
    was, no socket of the device is registered, every retained claim of the
    device and of its tabs is forgotten, the other claims are kept, and the
    sessions reported as moved are exactly those the dropped records watched. *)
Theorem revocation_exact r iteration fingerprint :
  reachable r -> iteration ≡ₚ map_to_list (views r) ->
  let r' := fst (remove_fingerprint r iteration fingerprint) in
  (forall key record, views r' !! key = Some record <->
     views r !! key = Some record /\ rec_fingerprint record <> fingerprint)
  /\ (forall socket_id socket, sockets r' !! socket_id = Some socket ->
        sock_fingerprint socket <> fingerprint)
  /\ (forall key t, entries (tombstones r') !! key = Some t <->
        entries (tombstones r) !! key = Some t /\ held_by fingerprint (tomb_viewer_key t) = false)
  /\ (forall s, s ∈ changed (snd (remove_fingerprint r iteration fingerprint)) <->
        exists key record, views r !! key = Some record /\ rec_session record = s
          /\ rec_fingerprint record = fingerprint).
Proof.
  intros Hc%reachable_is_consistent Hiter r'. split; [|split; [|split]].
  - intros key rec. unfold r'. rewrite remove_fingerprint_views by done.
    destruct (views r !! key) as [rec0|]; cbn; [|naive_solver].
    destruct (String.eqb_spec (rec_fingerprint rec0) fingerprint); naive_solver.
  - intros id so. unfold r', remove_fingerprint. rewrite revoke_fold. cbn [fst sockets].
    by intros [_ ?]%map_lookup_filter_Some.
  - intros key t. unfold r', remove_fingerprint. rewrite revoke_fold. cbn [fst tombstones].
    rewrite drop_all_tombstones. apply map_lookup_filter_Some.
  - intros s. unfold remove_fingerprint. rewrite revoke_fold. cbn [snd].
    rewrite revoke_changed, <- list_fmap_compose, list_elem_of_fmap. split.
    + intros [Habs|([k rec] & Hs & [Hf Hin]%list_elem_of_filter)]; [by cbn in Habs; set_solver|].
      rewrite Hiter in Hin. apply elem_of_map_to_list in Hin. cbn in Hs, Hf.
      rewrite (session_of_ok _ _ (ok_records _ Hc _ _ Hin)) in Hs. naive_solver.
    + intros (k & rec & Hk & <- & Hf). right. exists (k, rec). cbn.
      rewrite (session_of_ok _ _ (ok_records _ Hc _ _ Hk)). split; [done|].
      apply list_elem_of_filter. split; [done|]. by rewrite Hiter, elem_of_map_to_list.
Qed.

Lemma revocation_exact_witness :
  let ro := remove_fingerprint demo_parked (map_to_list (views demo_parked)) "b" in
  (forall key t, entries (tombstones (fst ro)) !! key = Some t ->
     entries (tombstones demo_parked) !! key = Some t)
  /\ demo_session ∈ changed (snd ro) /\ size (views (fst ro)) = 1%nat.
Proof.
  destruct (revocation_exact demo_parked (map_to_list (views demo_parked)) "b"
              demo_parked_reachable) as (_ & _ & Ht & Hs); [done|].
  split; [by intros key t [? _]%Ht|]. split; [|vm_compute; reflexivity].
  apply Hs. exists (view_key "b:1" (uuid_of "02")),
    (mkViewRecord (view_key "b:1" (uuid_of "02")) (uuid_of "02") "b:1" "b" "s2"
       (mkViewIntent demo_session 80 20 true) 1 15000 true 1000 true).
  split; [vm_compute; reflexivity|]. by split.
Defined.

Lemma elem_of_dedup l x : x ∈ dedup l <-> x ∈ l.
Proof.
  induction l as [|y [|z l] IH]; [done|done|].
  cbn [dedup]. destruct (String.eqb_spec y z) as [->|].
  - rewrite IH, (elem_of_cons (z :: l)). split; [by right|]. intros [->|?]; [left|done].
  - rewrite !elem_of_cons in *. rewrite IH. done.
Qed.

Lemma push_watching_calls (session_id : SessionId) watchers o :
  calls (foldl (fun o socket_id => push_call (Watching socket_id session_id false) o) o watchers)
  = calls o ++ ((fun socket_id => Watching socket_id session_id false) <$> watchers).
Proof.
  revert o. induction watchers as [|w watchers IH]; intros o; cbn; [by rewrite app_nil_r|].
  rewrite IH. cbn. by rewrite <- app_assoc.
Qed.

(** Closing a session leaves nothing of it and touches nothing else.
    Afterwards no record watches the session and every other record is what it
    was, the session index has no entry for it, no retained claim names it and
    the others are kept, and the host is told to stop feeding exactly the
    sockets that held a view of it. *)
Theorem close_session_exact r session_id :
  reachable r ->
  let r' := fst (close_session r session_id) in
  (forall key record, views r' !! key = Some record <->
     views r !! key = Some record /\ rec_session record <> session_id)
  /\ session_views r' !! session_id = None
  /\ (forall key t, entries (tombstones r') !! key = Some t <->
        entries (tombstones r) !! key = Some t
        /\ intent_session_id (tomb_intent t) <> session_id)
  /\ (forall call, call ∈ calls (snd (close_session r session_id)) <->
        exists key record, views r !! key = Some record /\ rec_session record = session_id
          /\ call = Watching (rec_socket_id record) session_id false).
Proof.
  intros Hc%reachable_is_consistent r'. split; [|split; [|split]].
  - intros key rec. unfold r'. rewrite close_session_views by done.
    destruct (views r !! key) as [rec0|]; cbn; [|naive_solver].
    destruct (String.eqb_spec (rec_session rec0) session_id); naive_solver.
  - unfold r'. rewrite close_session_fst. apply lookup_delete_eq.
  - intros key t. unfold r'. rewrite close_session_fst. cbn [tombstones].
    rewrite drop_all_tombstones. unfold remove_session, tombstones_remove_where. cbn [entries].
    rewrite map_lookup_filter_Some. cbn. by rewrite String.eqb_neq.
  - intros call. unfold close_session. cbn [snd]. rewrite push_watching_calls. cbn [calls app no_outcome].
    rewrite list_elem_of_fmap. setoid_rewrite elem_of_dedup. setoid_rewrite merge_sort_Permutation.
    setoid_rewrite list_elem_of_fmap. setoid_rewrite (elem_of_records_at r session_id _ Hc).
    naive_solver.
Qed.

Lemma close_session_exact_witness :
  session_views (fst (close_session demo_registry demo_session)) !! demo_session = None
  /\ calls (snd (close_session demo_registry demo_session))
     = [Watching "s1" demo_session false; Watching "s2" demo_session false].
Proof.
  split; [apply (close_session_exact demo_registry demo_session demo_reachable)|].
  vm_compute. reflexivity.
Defined.

(** ** A socket id registered again *)

(** A view parked under a socket id that is then registered again stays
    parked: the command that finds the record's socket id equal to its own is
    an update, and no update unparks.  A newer active declaration of it is
    accepted, yet the record stays parked since the same moment, the socket
    does not own it, and it stops binding the PTY when the grace of the first
    close ends, lease renewals notwithstanding. *)
Theorem reregistered_view_stays_parked r socket_id socket viewer_key command now record :
  reachable r ->
  sockets r !! socket_id = Some socket -> sock_viewer_key socket = Some viewer_key ->
  views r !! view_key viewer_key (cmd_view_id command) = Some record ->
  rec_socket_id record = socket_id -> rec_parked record = true ->
  validate_view_command (Some viewer_key) command = None ->
  allows socket (cmd_session_id command) = true ->
  cmd_active command = true -> rec_revision record < cmd_revision command ->
  cmd_session_id command = rec_session record ->
  let r' := fst (handle_view_command r socket_id command now) in
  replies (snd (handle_view_command r socket_id command now))
  = [ReplyView socket_id (cmd_view_id command) (cmd_session_id command)
       (cmd_revision command) Accepted ""]
  /\ exists record',
       views r' !! view_key viewer_key (cmd_view_id command) = Some record'
       /\ rec_parked record' = true
       /\ rec_deadline_ms record' = lease_deadline now
       /\ (forall socket', sockets r' !! socket_id = Some socket' ->
             view_key viewer_key (cmd_view_id command) ∉ sock_views socket')
       /\ (forall later,
             saturating_add64 (rec_parked_at_ms record) TERMINAL_VIEW_PARK_GRACE_MS <= later ->
             view_constrains record' later = false).
Proof.
  intros Hreach Hso Hvk Hk Hsock Hp Hval Hallow Hact Hrev Hsess.
  pose proof (reachable_is_consistent _ Hreach) as Hc.
  pose proof (handle_view_command_consistent r socket_id command now Hc) as Hc'.
  pose proof (ok_records _ Hc _ _ Hk) as Hok.
  assert (rec_view_id record = cmd_view_id command) as Hview.
  { destruct Hok as [_ H2 H3 _ _ _ _ _]. apply view_key_inj in H2 as [_ ?]; [done| |done].
    by apply validate_None in Hval as (_ & ? & _). }
  unfold handle_view_command in *. rewrite Hso, Hvk in *. rewrite Hval, Hallow, Hk in *.
  cbn [negb] in *. rewrite Hsock, String.eqb_refl in *. cbn [negb] in *.
  unfold update in *. rewrite (proj2 (Z.ltb_ge _ _)), (proj2 (Z.eqb_neq _ _)) in * by lia.
  rewrite Hsess, String.eqb_refl, Hact in *. cbn [negb] in *.
  rewrite (ok_key _ _ Hok), (session_of_ok _ _ Hok) in *. cbn [fst snd] in *.
  split; [unfold answer_view; cbn; by rewrite Hview, Hsock, Hsess|].
  eexists. split; [cbn [with_views views]; apply lookup_insert_eq|]. cbn [rec_parked rec_deadline_ms].
  split; [done|]. split; [done|]. split.
  - intros so' Hso' Hin.
    destruct (ok_owned _ _ (ok_owners _ Hc') _ _ _ Hso' Hin) as (rec' & Hk' & _ & Hp' & _).
    cbn [with_views views] in Hk'. rewrite lookup_insert_eq in Hk'. simplify_eq. cbn in Hp'. congruence.
  - intros later Hlater. unfold view_constrains. cbn [rec_deadline_ms rec_parked rec_parked_at_ms].
    case_if; [done|]. rewrite Hp. cbn. by apply Z.ltb_ge.
Qed.

(** The host drops its sockets and the same socket id comes back. *)
Definition demo_reregistered : ViewRegistry :=
  performs [RegisterSocket (demo_registration "s2" "b:1" "b") 1100] demo_parked.

Lemma reregistered_view_stays_parked_witness :
  let ro := handle_view_command demo_reregistered "s2" (demo_command "02" 80 20 2 true) 1200 in
  replies (snd ro) = [ReplyView "s2" (uuid_of "02") demo_session 2 Accepted ""]
  /\ minimum_terminal_geometry (live (registry_geometry_set (fst ro) demo_session 3000))
     = Ok (Some (mkTerminalGeometry 100 10)).
Proof.
  split; [|vm_compute; reflexivity].
  apply (reregistered_view_stays_parked demo_reregistered "s2"
           (mkSocketRecord "s2" (Some "b:1"%string) "b" {[demo_session]} ∅) "b:1"
           (demo_command "02" 80 20 2 true) 1200
           (mkViewRecord (view_key "b:1" (uuid_of "02")) (uuid_of "02") "b:1" "b" "s2"
              (mkViewIntent demo_session 80 20 true) 1 15000 true 1000 true));
    try (vm_compute; reflexivity).
  apply (reachable_step _ (RegisterSocket (demo_registration "s2" "b:1" "b") 1100));
    [apply demo_parked_reachable|by intros ? [= <-]].
Defined.

(** ** A refused admission *)

(** A declaration newer than the handle's retained claim, refused because the
    socket is full, has already forgotten the claim: the revision guard is
    gone although nothing was admitted. *)
Lemma refused_admission_forgets_claim r caller command key now old :
  tombstones_get (tombstones r) key = Some old ->
  tomb_revision old < cmd_revision command ->
  intent_session_id (tomb_intent old) = cmd_session_id command ->
  cmd_active command = true ->
  (TERMINAL_SOCKET_VIEW_CAP <= view_count r (caller_socket_id caller))%nat ->
  let ro := admit_view r caller command key now no_outcome in
  replies (snd ro)
  = [ReplyCommand (caller_socket_id caller) (cmd_view_id command) (cmd_session_id command)
       (cmd_revision command) true Rejected "terminal socket view capacity exceeded"]
  /\ tombstones_get (tombstones (fst ro)) key = None.
Proof.
  intros Hold Hrev Hs Hact Hfull. unfold admit_view. rewrite Hold, Hs, String.eqb_refl, Hact.
  rewrite (proj2 (Z.ltb_ge _ _)), (proj2 (Z.eqb_neq _ _)) by lia. cbn [orb andb negb].
  unfold admit_fresh. rewrite Hact. cbn [negb].
  apply Nat.leb_le in Hfull. change (view_count (with_tombstones r _)) with (view_count r).
  rewrite Hfull. cbn [fst snd]. split; [unfold refuse; cbn; by rewrite Hact|].
  apply lookup_delete_eq.
Qed.
