(* ===== verification/TerminalViewOwner.v ===== *)
(** * TerminalViewOwner: the worker's owner of terminal views

    Models [src/crates/roost-worker/src/terminal_view] ([state.rs],
    [streams.rs], [replies.rs], [screen.rs], [deferred.rs], [mod.rs]) and the
    frame builder of [roost-protocol/src/terminal_view/sink.rs]: the state one
    lock guards, every decision taken under it, and the effects it defers until
    the lock is released.

    The session layer ([ViewSessionPort]) is outside: an apply handed to it is
    outstanding until it resolves to some result.  A minted stream id is the
    answer of [mint] to the next draw; a failed draw is an [Err].  Transports,
    the uplink's admission and log lines are not modelled: a sent frame is an
    entry of the log [o_sent]. *)
From Stdlib Require Import Ascii String.
From S2P Require Export TerminalViewRuns.

(** ** Frames *)

Definition VIEW_REASON_MAX_BYTES : nat := 200.

(** [str::is_char_boundary]: the end, or a byte that starts a character. *)
Definition is_char_boundary (value : string) (i : nat) : bool :=
  if Nat.eqb i (String.length value) then true
  else match String.get i value with
       | Some b => (code b <? 128) || (192 <=? code b)
       | None => false
       end.

(** The loop that walks [end] back to a boundary. *)
Fixpoint boundary_below (value : string) (e : nat) : nat :=
  match e with
  | O => O
  | S e' => if is_char_boundary value e then e else boundary_below value e'
  end.

Definition truncate_view_reason (value : string) : string :=
  if (String.length value <=? VIEW_REASON_MAX_BYTES)%nat then value
  else String.substring 0 (boundary_below value VIEW_REASON_MAX_BYTES) value.

Record TerminalViewStateFrame := mkTerminalViewStateFrame {
  vs_view_id : string;
  vs_session_id : string;
  vs_revision : Z;
  vs_active : bool;
  vs_stream_id : string;
  vs_status : TerminalViewStatus;
  vs_effective_cols : Z;
  vs_effective_rows : Z;
  vs_reason : string;
}.

Definition view_state_frame (view_id session_id : string) (revision : Z) (active : bool)
    (stream_id : string) (status : TerminalViewStatus) (effective_cols effective_rows : Z)
    (reason : string) : TerminalViewStateFrame :=
  mkTerminalViewStateFrame view_id session_id revision active stream_id status
    effective_cols effective_rows (truncate_view_reason reason).

(** ** State *)

Inductive UnavailablePolicy := Heartbeat | Never.

Record Desire := mkDesire { desire_geometry : option TerminalGeometry; desire_retry : Z }.

Record StreamSession := mkStreamSession {
  st_effective : option TerminalGeometry;
  st_stream_id : string;
  st_unavailable : bool;
  st_unavailable_reason : string;
  st_policy : UnavailablePolicy;
  st_in_flight : option string;
  st_latest : option Desire;
  st_incarnation : nat;
}.

Record StreamApply := mkStreamApply {
  ap_session_id : SessionId;
  ap_stream_id : string;
  ap_incarnation : nat;
  ap_geometry : option TerminalGeometry;
  ap_retry : Z;
}.

Inductive Deferred :=
| Apply (apply : StreamApply)
| Seed (socket_id : string) (session_id : SessionId)
| EnsureStream (socket_id : string) (session_id : SessionId)
| ResyncSocket (socket_id : string) (session_id : SessionId)
| RegisterSink (socket_id : string)
| UnregisterSink (socket_id : string)
| ViewExpired (socket_id : string)
| FlushProjections.

Inductive ViewTransport :=
| Local (scope : string -> bool)
| Coordinator.

Record OwnedSocket := mkOwnedSocket {
  os_transport : ViewTransport;
  os_watching : gset SessionId;
  os_streams : gmap SessionId string;
}.

Record WTerminalViewProjection := mkProjection {
  pj_session_id : string;
  pj_viewers : list ViewInput;
  pj_effective_cols : Z;
  pj_effective_rows : Z;
  pj_stream_id : string;
}.

(** [OwnerState], with the logs of what left it: frames, projections and
    snapshot requests; [o_mints] counts the ids drawn. *)
Record OwnerState := mkOwnerState {
  o_registry : ViewRegistry;
  o_streams : gmap SessionId StreamSession;
  o_screen : gmap string OwnedSocket;
  o_dirty : list SessionId;
  o_flush_scheduled : bool;
  o_disposed : bool;
  o_incarnations : nat;
  o_mints : nat;
  o_sent : list (string * TerminalViewStateFrame);
  o_projected : list WTerminalViewProjection;
  o_snapshots : list (SessionId * string);
  o_work : list Deferred;
}.

Definition OwnerState_new : OwnerState :=
  mkOwnerState ViewRegistry_new ∅ ∅ [] false false 0 0 [] [] [] [].

Definition with_registry (o : OwnerState) r :=
  mkOwnerState r (o_streams o) (o_screen o) (o_dirty o) (o_flush_scheduled o) (o_disposed o)
    (o_incarnations o) (o_mints o) (o_sent o) (o_projected o) (o_snapshots o) (o_work o).
Definition with_streams (o : OwnerState) m :=
  mkOwnerState (o_registry o) m (o_screen o) (o_dirty o) (o_flush_scheduled o) (o_disposed o)
    (o_incarnations o) (o_mints o) (o_sent o) (o_projected o) (o_snapshots o) (o_work o).
Definition with_screen (o : OwnerState) m :=
  mkOwnerState (o_registry o) (o_streams o) m (o_dirty o) (o_flush_scheduled o) (o_disposed o)
    (o_incarnations o) (o_mints o) (o_sent o) (o_projected o) (o_snapshots o) (o_work o).
Definition with_dirty (o : OwnerState) d scheduled :=
  mkOwnerState (o_registry o) (o_streams o) (o_screen o) d scheduled (o_disposed o)
    (o_incarnations o) (o_mints o) (o_sent o) (o_projected o) (o_snapshots o) (o_work o).
Definition with_incarnations (o : OwnerState) n :=
  mkOwnerState (o_registry o) (o_streams o) (o_screen o) (o_dirty o) (o_flush_scheduled o)
    (o_disposed o) n (o_mints o) (o_sent o) (o_projected o) (o_snapshots o) (o_work o).
Definition with_mints (o : OwnerState) n :=
  mkOwnerState (o_registry o) (o_streams o) (o_screen o) (o_dirty o) (o_flush_scheduled o)
    (o_disposed o) (o_incarnations o) n (o_sent o) (o_projected o) (o_snapshots o) (o_work o).
Definition with_sent (o : OwnerState) l :=
  mkOwnerState (o_registry o) (o_streams o) (o_screen o) (o_dirty o) (o_flush_scheduled o)
    (o_disposed o) (o_incarnations o) (o_mints o) l (o_projected o) (o_snapshots o) (o_work o).
Definition with_projected (o : OwnerState) l :=
  mkOwnerState (o_registry o) (o_streams o) (o_screen o) (o_dirty o) (o_flush_scheduled o)
    (o_disposed o) (o_incarnations o) (o_mints o) (o_sent o) l (o_snapshots o) (o_work o).
Definition with_snapshots (o : OwnerState) l :=
  mkOwnerState (o_registry o) (o_streams o) (o_screen o) (o_dirty o) (o_flush_scheduled o)
    (o_disposed o) (o_incarnations o) (o_mints o) (o_sent o) (o_projected o) l (o_work o).
Definition with_work (o : OwnerState) l :=
  mkOwnerState (o_registry o) (o_streams o) (o_screen o) (o_dirty o) (o_flush_scheduled o)
    (o_disposed o) (o_incarnations o) (o_mints o) (o_sent o) (o_projected o) (o_snapshots o) l.

(** [work.push(effect)]. *)
Definition push_work (effect : Deferred) (o : OwnerState) : OwnerState :=
  with_work o (o_work o ++ [effect]).

(** ** The screen *)

(** [ScreenSockets::attach]. *)
Definition screen_attach (o : OwnerState) (socket_id : string) (transport : ViewTransport) :
    OwnerState :=
  with_screen o (<[socket_id := mkOwnedSocket transport ∅ ∅]> (o_screen o)).

(** [ScreenSockets::allows]. *)
Definition screen_allows (o : OwnerState) (socket_id session_id : string) : bool :=
  match os_transport <$> o_screen o !! socket_id with
  | Some (Local scope) => scope session_id
  | Some Coordinator => true
  | None => false
  end.

(** [ScreenSockets::is_local]. *)
Definition is_local (o : OwnerState) (socket_id : string) : bool :=
  match os_transport <$> o_screen o !! socket_id with
  | Some (Local _) => true
  | _ => false
  end.

(** [ScreenSockets::set_watching]. *)
Definition set_watching (o : OwnerState) (socket_id : string) (session_id : SessionId)
    (watching : bool) : OwnerState :=
  with_screen o
    (alter (fun socket =>
              if watching then
                mkOwnedSocket (os_transport socket) (os_watching socket ∪ {[session_id]})
                  (os_streams socket)
              else
                mkOwnedSocket (os_transport socket) (os_watching socket ∖ {[session_id]})
                  (delete session_id (os_streams socket)))
       socket_id (o_screen o)).

(** [ScreenSockets::painting], [ScreenSockets::note_stream]. *)
Definition painting (o : OwnerState) (socket_id : string) (session_id : SessionId) :
    option string :=
  o_screen o !! socket_id ≫= fun socket => os_streams socket !! session_id.

Definition note_stream (o : OwnerState) (socket_id : string) (session_id : SessionId)
    (stream_id : string) : OwnerState :=
  with_screen o
    (alter (fun socket => mkOwnedSocket (os_transport socket) (os_watching socket)
                            (<[session_id := stream_id]> (os_streams socket)))
       socket_id (o_screen o)).

(** [ScreenSockets::send_view_state], reached through [OwnerState::send]. *)
Definition send (o : OwnerState) (socket_id : string) (frame : TerminalViewStateFrame) :
    OwnerState :=
  match o_screen o !! socket_id with
  | Some _ => with_sent o (o_sent o ++ [(socket_id, frame)])
  | None => o
  end.

(** ** Answers *)

(** [OwnerState::reply_view]. *)
Definition reply_view (o : OwnerState) (reply : PendingReply) : OwnerState :=
  match reply with
  | ReplyCommand _ _ _ _ _ _ _ => o
  | ReplyView socket_id view_id session_id revision status reason =>
      match sockets (o_registry o) !! socket_id with
      | None => o
      | Some _ =>
          match SessionId_try_from session_id ≫= fun id => o_streams o !! id with
          | None => o
          | Some stream =>
              match st_effective stream with
              | None => o
              | Some effective =>
                  send o socket_id
                    (view_state_frame view_id session_id revision true (st_stream_id stream)
                       status (cols effective) (rows effective) reason)
              end
          end
      end
  end.

(** [OwnerState::reply_command]. *)
Definition reply_command (o : OwnerState) (reply : PendingReply) : OwnerState :=
  match reply with
  | ReplyView _ _ _ _ _ _ => o
  | ReplyCommand socket_id view_id session_id revision active status reason =>
      send o socket_id
        (view_state_frame view_id session_id revision active "" status 0 0 reason)
  end.

(** [OwnerState::broadcast]. *)
Definition owner_broadcast (o : OwnerState) (session_id : SessionId)
    (status : TerminalViewStatus) (reason : string) : OwnerState :=
  foldl reply_view o (broadcast (o_registry o) session_id status reason).

(** [OwnerState::mark_projection]. *)
Definition mark_projection (o : OwnerState) (session_id : SessionId) : OwnerState :=
  if o_disposed o then o
  else
    let dirty := if decide (session_id ∈ o_dirty o) then o_dirty o
                 else o_dirty o ++ [session_id] in
    if o_flush_scheduled o then with_dirty o dirty true
    else push_work FlushProjections (with_dirty o dirty true).

(** ** Streams *)

Definition update_stream (o : OwnerState) (session_id : SessionId)
    (f : StreamSession -> StreamSession) : OwnerState :=
  with_streams o (alter f session_id (o_streams o)).

(** [OwnerState::unavailable]: the stream cannot be painted; every live view
    is told. *)
Definition unavailable (o : OwnerState) (session_id : SessionId) (message : string)
    (policy : UnavailablePolicy) : OwnerState :=
  match o_streams o !! session_id with
  | None => o
  | Some stream =>
      match st_effective stream with
      | None => o
      | Some _ =>
          let reason := truncate_view_reason message in
          let o :=
            update_stream o session_id (fun st =>
              mkStreamSession (st_effective st) (st_stream_id st) true reason policy
                (st_in_flight st) (st_latest st) (st_incarnation st)) in
          owner_broadcast o session_id Unavailable reason
      end
  end.

(** [OwnerState::drive]: hand the latest desire over, one at a time. *)
Definition drive (o : OwnerState) (session_id : SessionId) : OwnerState :=
  match o_streams o !! session_id with
  | None => o
  | Some stream =>
      match st_in_flight stream, st_latest stream with
      | Some _, _ | None, None => o
      | None, Some desire =>
          push_work
            (Apply (mkStreamApply session_id (st_stream_id stream) (st_incarnation stream)
                      (desire_geometry desire) (desire_retry desire)))
            (update_stream o session_id (fun st =>
               mkStreamSession (st_effective st) (st_stream_id st) (st_unavailable st)
                 (st_unavailable_reason st) (st_policy st) (Some (st_stream_id st)) None
                 (st_incarnation st)))
      end
  end.

(** [OwnerState::stream_entry]. *)
Definition stream_entry (o : OwnerState) (session_id : SessionId) : OwnerState :=
  match o_streams o !! session_id with
  | Some _ => o
  | None =>
      let o := with_incarnations o (S (o_incarnations o)) in
      with_streams o
        (<[session_id := mkStreamSession None "" false "" Heartbeat None None
                           (o_incarnations o)]> (o_streams o))
  end.

Section Owner.

(** The [n]th draw of [session::ids::mint_uuid]. *)
Context (mint : nat -> result string string).

(** [OwnerState::desire]: a fresh stream at this geometry; every live view
    learns it before the apply that installs it. *)
Definition desire (o : OwnerState) (session_id : SessionId)
    (geometry : option TerminalGeometry) (retry : Z) : OwnerState :=
  let minted := mint (o_mints o) in
  let o := with_mints o (S (o_mints o)) in
  match minted with
  | Err error => unavailable o session_id error Never
  | Ok stream_id =>
      match o_streams o !! session_id with
      | None => o
      | Some _ =>
          let o :=
            update_stream o session_id (fun st =>
              mkStreamSession (st_effective st) stream_id false "" Heartbeat
                (st_in_flight st) (Some (mkDesire geometry retry)) (st_incarnation st)) in
          let o := owner_broadcast o session_id Accepted "" in
          drive o session_id
      end
  end.

(** [OwnerState::redrive]. *)
Definition redrive (o : OwnerState) (session_id : SessionId) : OwnerState :=
  match o_streams o !! session_id with
  | None => o
  | Some stream =>
      match st_effective stream, st_policy stream with
      | Some effective, Heartbeat => desire o session_id (Some effective) 0
      | _, _ => o
      end
  end.

(** [OwnerState::recompute]: [true] when the stream changed, so the decision
    was already broadcast. *)
Definition recompute (o : OwnerState) (session_id : SessionId) (now_ms : Z) :
    OwnerState * bool :=
  let set := registry_geometry_set (o_registry o) session_id now_ms in
  let o := stream_entry o session_id in
  if (length (live set) =? 0)%nat && (0 <? retained set)%nat
  then (mark_projection o session_id, false)
  else
    match minimum_terminal_geometry (live set) with
    | Err _ => (o, false)
    | Ok effective =>
        if bool_decide (st_effective <$> o_streams o !! session_id = Some effective)
        then (mark_projection o session_id, false)
        else
          let o :=
            update_stream o session_id (fun st =>
              mkStreamSession effective (st_stream_id st) (st_unavailable st)
                (st_unavailable_reason st) (st_policy st) (st_in_flight st) (st_latest st)
                (st_incarnation st)) in
          let o := desire o session_id effective 0 in
          (mark_projection o session_id, true)
    end.

(** [OwnerState::close_stream]. *)
Definition close_stream (o : OwnerState) (session_id : SessionId) : OwnerState :=
  match o_streams o !! session_id with
  | None => o
  | Some _ =>
      mark_projection (with_streams o (delete session_id (o_streams o))) session_id
  end.

(** The failures an apply can name, and its outcome: of a commit only the fact
    is read, of the others the failure and the reason. *)
Inductive TerminalStreamFailureKind :=
| RetryablePreWrite | SessionNotLive | InvalidRequest | CoreFailed | AmbiguousBoundary.

Inductive WorkerStreamResult :=
| Committed
| RejectedApply (failure : TerminalStreamFailureKind) (reason : string)
| AmbiguousApply (failure : TerminalStreamFailureKind) (reason : string).

(** [OwnerState::classify]. *)
Definition classify (o : OwnerState) (apply : StreamApply) (result : WorkerStreamResult) :
    OwnerState :=
  let session_id := ap_session_id apply in
  match o_streams o !! session_id with
  | None => o
  | Some stream =>
      if negb (String.eqb (st_stream_id stream) (ap_stream_id apply)) then o
      else
        match result with
        | Committed => o
        | RejectedApply failure reason | AmbiguousApply failure reason =>
            let effective := st_effective stream in
            let message :=
              if String.eqb reason "" then "terminal stream is unavailable"%string else reason in
            match failure with
            | RetryablePreWrite =>
                if ap_retry apply =? 0 then desire o session_id effective 1
                else unavailable o session_id message Heartbeat
            | CoreFailed =>
                match effective with
                | Some _ =>
                    if ap_retry apply =? 0 then desire o session_id effective 1
                    else unavailable o session_id message Never
                | None => unavailable o session_id message Never
                end
            | _ => unavailable o session_id message Never
            end
        end
  end.

(** [current] of [OwnerState::finish_apply]. *)
Definition apply_is_current (o : OwnerState) (apply : StreamApply) : bool :=
  match o_streams o !! ap_session_id apply with
  | Some stream => (st_incarnation stream =? ap_incarnation apply)%nat
  | None => false
  end.

(** [OwnerState::finish_apply]. *)
Definition finish_apply (o : OwnerState) (apply : StreamApply) (result : WorkerStreamResult) :
    OwnerState :=
  if negb (apply_is_current o apply) then o
  else
    let o := classify o apply result in
    if negb (apply_is_current o apply) then o
    else
      let session_id := ap_session_id apply in
      let o :=
        update_stream o session_id (fun st =>
          if bool_decide (st_in_flight st = Some (ap_stream_id apply)) then
            mkStreamSession (st_effective st) (st_stream_id st) (st_unavailable st)
              (st_unavailable_reason st) (st_policy st) None (st_latest st) (st_incarnation st)
          else st) in
      match o_streams o !! session_id ≫= st_latest with
      | Some _ => drive o session_id
      | None => o
      end.

(** ** Commands *)

Inductive CommandPath := PathAdmit | PathReclaim | PathSameRevision | PathNewRevision.

Definition command_path (o : OwnerState) (socket_id : string) (command : TerminalViewCommand) :
    CommandPath :=
  match sockets (o_registry o) !! socket_id ≫= sock_viewer_key with
  | None => PathAdmit
  | Some viewer_key =>
      match views (o_registry o) !! view_key viewer_key (cmd_view_id command) with
      | None => PathAdmit
      | Some record =>
          if negb (String.eqb (rec_socket_id record) socket_id) then PathReclaim
          else if cmd_revision command =? rec_revision record then PathSameRevision
          else PathNewRevision
      end
  end.

(** [replies::with_status]. *)
Definition with_status (reply : PendingReply) (status : TerminalViewStatus) (reason : string) :
    PendingReply :=
  match reply with
  | ReplyView socket_id view_id session_id revision _ _ =>
      ReplyView socket_id view_id session_id revision status reason
  | _ => reply
  end.

(** [OwnerState::replay_unavailable]. *)
Definition replay_unavailable (o : OwnerState) (reply : PendingReply) (session_id : SessionId) :
    OwnerState :=
  match o_streams o !! session_id with
  | None => reply_view o reply
  | Some stream =>
      if negb (st_unavailable stream) then reply_view o reply
      else
        match st_policy stream with
        | Heartbeat => redrive o session_id
        | Never => reply_view o (with_status reply Unavailable (st_unavailable_reason stream))
        end
  end.

(** [OwnerState::finish_reply]. *)
Definition finish_reply (o : OwnerState) (reply : PendingReply) (path : CommandPath)
    (broadcast : bool) (session_id : option SessionId) : OwnerState :=
  match reply with
  | ReplyCommand _ _ _ _ _ _ _ => reply_command o reply
  | ReplyView socket_id _ _ _ _ _ =>
      match session_id with
      | None => o
      | Some session_id =>
          let unavailable :=
            match o_streams o !! session_id with
            | Some stream => st_unavailable stream
            | None => false
            end in
          match path with
          | PathAdmit =>
              if broadcast then o
              else push_work (Seed socket_id session_id) (reply_view o reply)
          | PathReclaim =>
              if broadcast then o
              else if unavailable then replay_unavailable o reply session_id
              else push_work (Seed socket_id session_id) (reply_view o reply)
          | PathSameRevision =>
              push_work (EnsureStream socket_id session_id)
                (if unavailable then replay_unavailable o reply session_id
                 else reply_view o reply)
          | PathNewRevision => if broadcast then o else reply_view o reply
          end
      end
  end.

(** One effect of [OwnerState::deliver_calls]. *)
Definition deliver_call (o : OwnerState) (call : SinkCall) : OwnerState :=
  match call with
  | Watching socket_id session_id watching => set_watching o socket_id session_id watching
  | Resync socket_id session_id _ _ => push_work (ResyncSocket socket_id session_id) o
  | LiveViewExpired socket_id _ _ =>
      if is_local o socket_id then push_work (ViewExpired socket_id) o else o
  end.

Definition deliver_calls (o : OwnerState) (l : list SinkCall) : OwnerState :=
  foldl deliver_call o l.

(** One pass of [view_command]'s loop over the changed sessions. *)
Definition recompute_step (now_ms : Z) (acc : OwnerState * gmap SessionId bool)
    (session_id : SessionId) : OwnerState * gmap SessionId bool :=
  let '(o, desired) := acc in
  let '(o, broadcast) := recompute o session_id now_ms in
  (o, <[session_id := broadcast]> desired).

Definition recompute_all (o : OwnerState) (sessions : gset SessionId) (now_ms : Z) :
    OwnerState * gmap SessionId bool :=
  foldl (recompute_step now_ms) (o, ∅) (btree sessions).

(** One pass of [view_command]'s loop over the replies. *)
Definition reply_step (path : CommandPath) (desired : gmap SessionId bool) (o : OwnerState)
    (reply : PendingReply) : OwnerState :=
  let session_id := SessionId_try_from (reply_session_id reply) in
  let broadcast := default false (session_id ≫= fun id => desired !! id) in
  finish_reply o reply path broadcast session_id.

(** [OwnerState::view_command], [scoped] included. *)
Definition view_command (o : OwnerState) (socket_id : string) (command : TerminalViewCommand)
    (now_ms : Z) : OwnerState :=
  let path := command_path o socket_id command in
  let allowed := screen_allows o socket_id (cmd_session_id command) in
  let r := set_session_allowed (o_registry o) socket_id (cmd_session_id command) allowed in
  let '(r, outcome) := handle_view_command r socket_id command now_ms in
  let r := set_session_allowed r socket_id (cmd_session_id command) false in
  let o := deliver_calls (with_registry o r) (calls outcome) in
  let '(o, desired) := recompute_all o (changed outcome) now_ms in
  foldl (reply_step path desired) o (replies outcome).

(** [OwnerState::resync]. *)
Definition resync (o : OwnerState) (socket_id : string) (command : TerminalResyncCommand) :
    OwnerState :=
  let allowed := screen_allows o socket_id (rsy_session_id command) in
  let r := set_session_allowed (o_registry o) socket_id (rsy_session_id command) allowed in
  let outcome := handle_resync r socket_id command in
  let o := with_registry o
             (set_session_allowed r socket_id (rsy_session_id command) false) in
  let current :=
    match SessionId_try_from (rsy_session_id command) ≫= fun id => o_streams o !! id with
    | Some stream => String.eqb (st_stream_id stream) (rsy_stream_id command)
    | None => false
    end in
  if current then deliver_calls o (calls outcome) else o.

(** ** Sockets, sessions and the sweep *)

(** [OwnerState::close_socket]. *)
Definition owner_close_socket (o : OwnerState) (socket_id : string) (now_ms : Z) : OwnerState :=
  match sockets (o_registry o) !! socket_id with
  | None => o
  | Some _ =>
      let local := is_local o socket_id in
      let o := with_registry o (close_socket (o_registry o) socket_id now_ms) in
      let o := with_screen o (delete socket_id (o_screen o)) in
      if local then push_work (UnregisterSink socket_id) o else o
  end.

(** The free function [register_socket] of [mod.rs]. *)
Definition owner_register_socket (o : OwnerState) (socket_id viewer_key fingerprint : string)
    (now_ms : Z) : OwnerState :=
  with_registry o
    (register_socket (o_registry o)
       (mkSocketRegistration socket_id (Some viewer_key) fingerprint ∅) now_ms).

(** [TerminalViewOwner::register_local]. *)
Definition register_local (o : OwnerState) (socket_id device_fingerprint tab_id : string)
    (scope : string -> bool) (now_ms : Z) : OwnerState :=
  let o := owner_close_socket o socket_id now_ms in
  let o := screen_attach o socket_id (Local scope) in
  let o := owner_register_socket o socket_id (device_fingerprint +:+ ":" +:+ tab_id)
             device_fingerprint now_ms in
  push_work (RegisterSink socket_id) o.

(** [ensure_coordinator_socket]. *)
Definition ensure_coordinator_socket (o : OwnerState) (socket_id viewer_key fingerprint : string)
    (now_ms : Z) : OwnerState :=
  match o_screen o !! socket_id with
  | Some _ => o
  | None =>
      owner_register_socket (screen_attach o socket_id Coordinator) socket_id viewer_key
        fingerprint now_ms
  end.

(** The command a relay carries, and [TerminalViewOwner::handle_relay]. *)
Inductive RelayCommand :=
| RelayView (command : TerminalViewCommand)
| RelayResync (command : TerminalResyncCommand).

Definition handle_relay (o : OwnerState) (socket_id viewer_key fingerprint : string)
    (command : RelayCommand) (now_ms : Z) : OwnerState :=
  if String.eqb socket_id "" || String.eqb viewer_key "" then o
  else
    let o := ensure_coordinator_socket o socket_id viewer_key fingerprint now_ms in
    match command with
    | RelayView command => view_command o socket_id command now_ms
    | RelayResync command => resync o socket_id command
    end.

(** [ScreenSockets::coordinator_socket_ids]: sorted. *)
Definition coordinator_socket_ids (o : OwnerState) : list string :=
  merge_sort string_le
    (omap (fun kv => match os_transport (snd kv) with Coordinator => Some (fst kv) | Local _ => None end)
       (map_to_list (o_screen o))).

(** [TerminalViewOwner::drop_coordinator_sockets]; [sessions] is the order
    [streams.keys()] yields. *)
Definition drop_coordinator_sockets (o : OwnerState) (sessions : list SessionId) (now_ms : Z) :
    OwnerState :=
  let o := foldl (fun o socket_id => owner_close_socket o socket_id now_ms) o
             (coordinator_socket_ids o) in
  foldl mark_projection o sessions.

(** [TerminalViewOwner::close_session]. *)
Definition owner_close_session (o : OwnerState) (session_id : SessionId) : OwnerState :=
  let '(r, outcome) := close_session (o_registry o) session_id in
  close_stream (deliver_calls (with_registry o r) (calls outcome)) session_id.

(** [TerminalViewOwner::sweep_now]; [keys] is the order of the registry's. *)
Definition sweep_now (o : OwnerState) (keys : list string) (now_ms : Z) : OwnerState :=
  let '(r, outcome) := sweep (o_registry o) keys now_ms in
  let o := deliver_calls (with_registry o r) (calls outcome) in
  fst (recompute_all o (changed outcome) now_ms).

(** [TerminalViewOwner::dispose]. *)
Definition dispose (o : OwnerState) : OwnerState :=
  let locals := base.filter (fun id => is_local o id = true) (fst <$> map_to_list (o_screen o)) in
  mkOwnerState ViewRegistry_new ∅ ∅ [] (o_flush_scheduled o) true (o_incarnations o)
    (o_mints o) (o_sent o) (o_projected o) (o_snapshots o)
    (o_work o ++ (UnregisterSink <$> locals)).

(** ** Deferred effects *)

(** [flush_projections]: one projection per dirty session. *)
Definition projection_of (o : OwnerState) (now_ms : Z) (session_id : SessionId) :
    WTerminalViewProjection :=
  let stream := o_streams o !! session_id in
  let effective := stream ≫= st_effective in
  mkProjection session_id (viewer_inputs (o_registry o) session_id now_ms)
    (default 0 (cols <$> effective)) (default 0 (rows <$> effective))
    (default ""%string (st_stream_id <$> stream)).

Definition flush_projections (o : OwnerState) (now_ms : Z) : OwnerState :=
  let sessions := o_dirty o in
  let o := with_dirty o [] false in
  if o_disposed o then o
  else with_projected o (o_projected o ++ (projection_of o now_ms <$> sessions)).

(** [seed_socket], [socket_behind_stream], [resync_socket] of [deferred.rs];
    [current] is the session layer's [current_stream_id]. *)
Definition request_full (o : OwnerState) (socket_id : string) (session_id : SessionId)
    (stream_id : string) : OwnerState :=
  note_stream (with_snapshots o (o_snapshots o ++ [(session_id, stream_id)]))
    socket_id session_id stream_id.

Definition seed_socket (current : SessionId -> option string) (o : OwnerState)
    (socket_id : string) (session_id : SessionId) : OwnerState :=
  if negb (is_local o socket_id) then o
  else match current session_id with
       | None => o
       | Some stream_id => request_full o socket_id session_id stream_id
       end.

Definition socket_behind_stream (current : SessionId -> option string) (o : OwnerState)
    (socket_id : string) (session_id : SessionId) : bool :=
  match current session_id with
  | None => false
  | Some stream_id =>
      is_local o socket_id
      && negb (bool_decide (painting o socket_id session_id = Some stream_id))
  end.

Definition resync_socket (current : SessionId -> option string) (o : OwnerState)
    (socket_id : string) (session_id : SessionId) : OwnerState :=
  match o_screen o !! socket_id, current session_id with
  | Some _, Some stream_id => request_full o socket_id session_id stream_id
  | _, _ => o
  end.

(** One effect of [TerminalViewOwner::run].  An apply leaves the owner as it
    is, and is outstanding from then on; a flush is run when its task is. *)
Definition run_effect (current : SessionId -> option string) (now_ms : Z) (o : OwnerState)
    (effect : Deferred) : OwnerState :=
  match effect with
  | Seed socket_id session_id => seed_socket current o socket_id session_id
  | EnsureStream socket_id session_id =>
      if socket_behind_stream current o socket_id session_id
      then seed_socket current o socket_id session_id else o
  | ResyncSocket socket_id session_id => resync_socket current o socket_id session_id
  | FlushProjections => flush_projections o now_ms
  | Apply _ | RegisterSink _ | UnregisterSink _ | ViewExpired _ => o
  end.

End Owner.
