(* ===== verification/TerminalViewOwnerStreams.v ===== *)
(** * TerminalViewOwnerStreams: the streams' invariant

    An apply is outstanding from the decision that owes it until it resolves.
    The invariant ties each session's stream to its outstanding applies and to
    the last of them that settled; every operation of the owner that touches
    the streams keeps it, and so does an apply's resolution, whatever its
    result. *)
From Stdlib Require Import Ascii String.
From S2P Require Export TerminalViewOwner TerminalViewGuarantees.

(** ** Outstanding applies *)

Definition applies (l : list Deferred) : list StreamApply :=
  omap (fun effect => match effect with Apply a => Some a | _ => None end) l.

Lemma applies_app l k : applies (l ++ k) = applies l ++ applies k.
Proof. apply omap_app. Qed.

Definition of_incarnation (n : nat) (l : list StreamApply) : list StreamApply :=
  base.filter (fun a => ap_incarnation a = n) l.

Section OwnerInvariant.
Context (mint : nat -> result string string).
(** The ids drawn are distinct, as [mint_uuid]'s randomness makes them. *)
Context (mint_inj : forall i j id, mint i = Ok id -> mint j = Ok id -> i = j).

Definition minted_before (n : nat) (id : string) : Prop := exists j, (j < n)%nat /\ mint j = Ok id.

(** One apply at a time: an idle stream has nothing outstanding and no desire
    waiting; a busy one has exactly one apply outstanding, its own, and a
    desire waits behind it exactly when the stream has moved on.  [idle] names
    a session about to be driven, whose desire may wait with nothing before it. *)
Definition single_flight (idle : option SessionId) (out : list StreamApply) (s : SessionId)
    (st : StreamSession) : Prop :=
  match st_in_flight st with
  | None => (idle <> Some s -> st_latest st = None) /\ of_incarnation (st_incarnation st) out = []
  | Some id => exists a, of_incarnation (st_incarnation st) out = [a]
      /\ ap_stream_id a = id /\ ap_session_id a = s
      /\ (st_latest st = None <-> id = st_stream_id st)
  end.

Definition ids_minted (n : nat) (st : StreamSession) : Prop :=
  (forall id, st_in_flight st = Some id -> minted_before n id)
  /\ (st_latest st <> None -> minted_before n (st_stream_id st)).

(** A paintable stream is at its effective geometry, or on its way there. *)
Definition on_course (out : list StreamApply) (last : gmap nat (StreamApply * bool))
    (st : StreamSession) : Prop :=
  forall g, st_effective st = Some g -> st_unavailable st = false ->
    match st_latest st, st_in_flight st with
    | Some d, _ => desire_geometry d = Some g
    | None, Some _ => forall a, a ∈ of_incarnation (st_incarnation st) out ->
        ap_geometry a = Some g
    | None, None => exists a, last !! st_incarnation st = Some (a, true)
        /\ ap_stream_id a = st_stream_id st /\ ap_geometry a = Some g
    end.

(** The streams' invariant; [skip] names a session whose effective geometry
    has changed without its desire yet. *)
Record streams_ok (idle skip : option SessionId) (rest : list StreamApply)
    (last : gmap nat (StreamApply * bool)) (o : OwnerState) : Prop := {
  ok_flight : forall s st, o_streams o !! s = Some st ->
    single_flight idle (rest ++ applies (o_work o)) s st;
  ok_minted : forall s st, o_streams o !! s = Some st -> ids_minted (o_mints o) st;
  ok_course : forall s st, o_streams o !! s = Some st -> skip <> Some s ->
    on_course (rest ++ applies (o_work o)) last st;
  ok_incarnation : forall s st, o_streams o !! s = Some st ->
    (st_incarnation st <= o_incarnations o)%nat;
  ok_distinct : forall s s' st st', o_streams o !! s = Some st -> o_streams o !! s' = Some st' ->
    st_incarnation st = st_incarnation st' -> s = s';
  ok_out : Forall (fun a => (ap_incarnation a <= o_incarnations o)%nat)
             (rest ++ applies (o_work o));
}.

(** What a step that leaves the streams alone keeps. *)
Record same_streams (o o' : OwnerState) : Prop := {
  ss_streams : o_streams o' = o_streams o;
  ss_mints : o_mints o' = o_mints o;
  ss_incarnations : o_incarnations o' = o_incarnations o;
  ss_applies : applies (o_work o') = applies (o_work o);
}.

#[global] Instance same_streams_preorder : PreOrder same_streams.
Proof.
  split; [done|]. intros a b c [? ? ? ?] [? ? ? ?]. split; congruence.
Qed.

Lemma same_streams_ok idle skip rest last o o' :
  same_streams o o' -> streams_ok idle skip rest last o -> streams_ok idle skip rest last o'.
Proof. intros [E1 E2 E3 E4] []. split; rewrite ?E1, ?E2, ?E3, ?E4; done. Qed.

Lemma send_same o socket_id frame : same_streams o (send o socket_id frame).
Proof. unfold send. by destruct (o_screen o !! socket_id). Qed.

Lemma reply_view_same o reply : same_streams o (reply_view o reply).
Proof.
  unfold reply_view. destruct reply; [done|]. destruct (sockets _ !! _); [|done].
  destruct (_ ≫= _) as [stream|]; [|done]. destruct (st_effective stream); [|done].
  apply send_same.
Qed.

Lemma fold_same {A} (f : OwnerState -> A -> OwnerState) l o :
  (forall o x, same_streams o (f o x)) -> same_streams o (foldl f o l).
Proof.
  intros Hf. revert o. induction l as [|x l IH]; intros o; [done|].
  cbn [foldl]. etrans; [apply Hf|apply IH].
Qed.

Lemma owner_broadcast_same o s status reason : same_streams o (owner_broadcast o s status reason).
Proof. apply fold_same, reply_view_same. Qed.

Lemma push_work_same effect o :
  (forall a, effect <> Apply a) -> same_streams o (push_work effect o).
Proof.
  intros He. split; try done. cbn [push_work with_work o_work]. rewrite applies_app.
  destruct effect; try (cbn; by rewrite app_nil_r). by destruct (He apply).
Qed.

Lemma mark_projection_same o s : same_streams o (mark_projection o s).
Proof.
  unfold mark_projection. destruct (o_disposed o); [done|].
  destruct (o_flush_scheduled o); [done|]. etrans; [|by apply push_work_same]. done.
Qed.

Lemma deliver_call_same o call : same_streams o (deliver_call o call).
Proof.
  destruct call; cbn [deliver_call]; [done|by apply push_work_same|].
  destruct (is_local o _); [by apply push_work_same|done].
Qed.

Lemma deliver_calls_same o l : same_streams o (deliver_calls o l).
Proof. apply fold_same, deliver_call_same. Qed.

Lemma same_streams_with o o' r :
  same_streams o o' -> same_streams o (with_registry o' r).
Proof. by intros []. Qed.

(** ** Changing one stream *)

(** A rewritten stream that keeps its incarnation. *)
Lemma update_stream_ok idle skip idle' skip' rest last o s f :
  streams_ok idle skip rest last o ->
  (forall st, o_streams o !! s = Some st ->
     st_incarnation (f st) = st_incarnation st
     /\ single_flight idle' (rest ++ applies (o_work o)) s (f st)
     /\ ids_minted (o_mints o) (f st)
     /\ (skip' <> Some s -> on_course (rest ++ applies (o_work o)) last (f st))) ->
  (forall s', s' <> s -> skip' <> Some s' -> skip <> Some s') ->
  (forall s', s' <> s -> idle' <> Some s' -> idle <> Some s') ->
  streams_ok idle' skip' rest last (update_stream o s f).
Proof.
  intros [H1 H2 H3 H4 H5 H6] Hf Hskip Hidle.
  assert (Hl : forall s' st', o_streams (update_stream o s f) !! s' = Some st' ->
    (s' = s /\ exists st, o_streams o !! s = Some st /\ st' = f st)
    \/ (s' <> s /\ o_streams o !! s' = Some st')).
  { intros s' st'. cbn [update_stream with_streams o_streams].
    rewrite lookup_alter_Some. intros [(<- & st & ? & ->)|[? ?]]; [left; eauto|right; auto]. }
  split; cbn [update_stream with_streams o_work o_mints o_incarnations]; try done.
  - intros s' st' [(-> & st & Hs & ->)|[? Hs]]%Hl; [by apply Hf|].
    specialize (H1 _ _ Hs). unfold single_flight in *. destruct (st_in_flight st'); [done|].
    destruct H1 as [Hlat ?]. split; [|done]. intros ?. apply Hlat. auto.
  - intros s' st' [(-> & st & Hs & ->)|[? ?]]%Hl; [by apply Hf|by eapply H2].
  - intros s' st' [(-> & st & Hs & ->)|[? ?]]%Hl ?; [by apply Hf|eapply H3; eauto].
  - intros s' st' [(-> & st & Hs & ->)|[? ?]]%Hl; [|by eapply H4].
    destruct (Hf _ Hs) as (-> & _). by eapply H4.
  - intros s1 s2 st1 st2 L1%Hl L2%Hl.
    destruct L1 as [(-> & x1 & X1 & ->)|[? X1]], L2 as [(-> & x2 & X2 & ->)|[? X2]]; [done|..];
      rewrite ?(proj1 (Hf _ X1)), ?(proj1 (Hf _ X2)); intros Heq; by eapply H5.
Qed.

Lemma unavailable_ok skip rest last o s message policy :
  streams_ok None skip rest last o ->
  skip = None \/ skip = Some s ->
  streams_ok None None rest last (unavailable o s message policy).
Proof.
  intros Hok Hskip. unfold unavailable.
  assert (Hnoeff : (forall st, o_streams o !! s = Some st -> st_effective st = None) ->
                   streams_ok None None rest last o).
  { intros Hnone. destruct Hok as [H1 H2 H3 H4 H5 H6]. split; try done.
    intros s' st Hs _. destruct (decide (s' = s)) as [->|Hne].
    - intros g Hg. rewrite (Hnone _ Hs) in Hg. done.
    - apply (H3 s'); [done|]. destruct Hskip as [->| ->]; congruence. }
  destruct (o_streams o !! s) as [stream|] eqn:Hs; [|by apply Hnoeff].
  destruct (st_effective stream) eqn:He; [|apply Hnoeff; intros st [= <-]; done].
  eapply same_streams_ok; [apply owner_broadcast_same|].
  eapply update_stream_ok; [exact Hok| |intros s' ? ? ->; destruct Hskip; congruence|done].
  intros st Hst. split; [done|]. split; [exact (ok_flight _ _ _ _ _ Hok _ _ Hst)|].
  split; [exact (ok_minted _ _ _ _ _ Hok _ _ Hst)|]. by intros _ g _ ?.
Qed.

(** Handing the waiting desire over, if nothing is in flight. *)
Lemma drive_ok rest last o s :
  streams_ok (Some s) None rest last o -> streams_ok None None rest last (drive o s).
Proof.
  intros Hok. unfold drive.
  destruct (o_streams o !! s) as [stream|] eqn:Hs.
  2: { destruct Hok as [H1 H2 H3 H4 H5 H6]. split; try done. intros s' st Hs'.
       specialize (H1 _ _ Hs'). unfold single_flight in *. destruct (st_in_flight st); [done|].
       destruct H1 as [Hl ?]. split; [|done]. intros _. apply Hl. congruence. }
  pose proof (ok_flight _ _ _ _ _ Hok _ _ Hs) as Hfl.
  assert (Hback : (is_Some (st_in_flight stream) \/ st_latest stream = None) ->
                  streams_ok None None rest last o).
  { intros Hor. destruct Hok as [H1 H2 H3 H4 H5 H6]. split; try done. intros s' st Hs'.
    destruct (decide (s' = s)) as [->|Hne].
    - assert (st = stream) as -> by congruence. unfold single_flight in *.
      destruct (st_in_flight stream); [done|]. destruct Hfl as [_ ?].
      split; [|done]. intros _. by destruct Hor as [[? ?]|?].
    - specialize (H1 _ _ Hs'). unfold single_flight in *. destruct (st_in_flight st); [done|].
      destruct H1 as [Hl ?]. split; [|done]. intros _. apply Hl. congruence. }
  unfold single_flight in Hfl.
  destruct (st_in_flight stream) as [id|] eqn:Hif; [apply Hback; eauto|].
  destruct (st_latest stream) as [d|] eqn:Hlat; [|apply Hback; auto].
  destruct Hfl as [_ Hnone].
  set (a := mkStreamApply s _ _ _ _). destruct Hok as [H1 H2 H3 H4 H5 H6].
  assert (Hout : forall n, of_incarnation n (rest ++ applies (o_work o ++ [Apply a]))
            = of_incarnation n (rest ++ applies (o_work o))
              ++ (if decide (n = st_incarnation stream) then [a] else [])).
  { intros n. rewrite applies_app, app_assoc. unfold of_incarnation at 1.
    rewrite filter_app. f_equal. unfold a. cbn. unfold base.filter. cbn.
    repeat case_decide; cbn in *; congruence. }
  assert (Hl : forall s' st', o_streams (update_stream o s (fun st =>
               mkStreamSession (st_effective st) (st_stream_id st) (st_unavailable st)
                 (st_unavailable_reason st) (st_policy st) (Some (st_stream_id st)) None
                 (st_incarnation st))) !! s' = Some st' ->
    (s' = s /\ st' = mkStreamSession (st_effective stream) (st_stream_id stream)
                      (st_unavailable stream) (st_unavailable_reason stream) (st_policy stream)
                      (Some (st_stream_id stream)) None (st_incarnation stream))
    \/ (s' <> s /\ o_streams o !! s' = Some st')).
  { intros s' st'. cbn [update_stream with_streams o_streams]. rewrite lookup_alter_Some.
    intros [(<- & st & Hst & ->)|[? ?]]; [left; split; congruence|right; auto]. }
  split; cbn [push_work with_work o_streams o_work o_mints o_incarnations
              update_stream with_streams] in *.
  - intros s' st' [[-> ->]|[Hne Hs']]%Hl; unfold single_flight; cbn.
    + exists a. rewrite Hout, Hnone, decide_True by done. by repeat split.
    + specialize (H1 _ _ Hs'). unfold single_flight in H1. rewrite Hout.
      rewrite decide_False by (intros Heq; apply Hne; by eapply H5).
      rewrite app_nil_r. destruct (st_in_flight st'); [done|].
      destruct H1 as [Hlt ?]. split; [|done]. intros _. apply Hlt. congruence.
  - intros s' st' [[-> ->]|[Hne Hs']]%Hl; [|by eapply H2].
    destruct (H2 _ _ Hs) as [_ Hm]. split; cbn; [|done].
    intros id [= <-]. apply Hm. congruence.
  - intros s' st' [[-> ->]|[Hne Hs']]%Hl _.
    + intros g Hg Hu. cbn in *. intros a'. rewrite Hout, Hnone, decide_True by done.
      intros ->%list_elem_of_singleton. unfold a. cbn.
      specialize (H3 _ _ Hs (ltac:(done)) g Hg Hu). by rewrite Hlat in H3.
    + intros g Hg Hu. specialize (H3 _ _ Hs' (ltac:(done)) g Hg Hu).
      destruct (st_latest st'); [done|]. destruct (st_in_flight st'); [|done].
      rewrite Hout, decide_False, app_nil_r; [done|]. intros Heq. apply Hne. by eapply H5.
  - intros s' st' [[-> ->]|[Hne Hs']]%Hl; [cbn; by eapply H4|by eapply H4].
  - intros s1 s2 st1 st2 [[-> ->]|[? X1]]%Hl [[-> ->]|[? X2]]%Hl; cbn; intros Heq; try done;
      by eapply H5.
  - rewrite applies_app, app_assoc. apply Forall_app. split; [done|].
    repeat constructor. unfold a. cbn. by eapply H4.
Qed.

Lemma with_mints_ok idle skip rest last o n :
  (o_mints o <= n)%nat -> streams_ok idle skip rest last o ->
  streams_ok idle skip rest last (with_mints o n).
Proof.
  intros Hn [H1 H2 H3 H4 H5 H6]. split; try done. intros s st Hs.
  destruct (H2 _ _ Hs) as [A B].
  split; [intros id (j & ? & ?)%A|intros (j & ? & ?)%B]; exists j; cbn; split; auto; lia.
Qed.

(** A desire at the effective geometry puts the stream on course. *)
Lemma desire_ok rest last o s geometry retry skip :
  streams_ok None skip rest last o ->
  skip = None \/ skip = Some s ->
  (forall st, o_streams o !! s = Some st -> geometry = st_effective st) ->
  streams_ok None None rest last (desire mint o s geometry retry).
Proof using mint_inj.
  intros Hok Hskip Hgeo. unfold desire.
  pose proof (with_mints_ok _ _ _ _ _ (S (o_mints o)) (le_S _ _ (le_n _)) Hok) as Hok'.
  destruct (mint (o_mints o)) as [id|error] eqn:Hid; [|by eapply unavailable_ok].
  change (o_streams (with_mints o (S (o_mints o)))) with (o_streams o).
  destruct (o_streams o !! s) as [stream|] eqn:Hs.
  2: { destruct Hok' as [H1 H2 H3 H4 H5 H6]. split; try done. intros s' st Hs' _.
       apply (H3 s'); [done|]. cbn in Hs'. destruct Hskip as [->| ->]; congruence. }
  apply drive_ok. eapply same_streams_ok; [apply owner_broadcast_same|].
  eapply update_stream_ok; [exact Hok'| |intros s' ? ? ->; destruct Hskip; congruence|done].
  intros st Hst. change (o_streams (with_mints o (S (o_mints o)))) with (o_streams o) in Hst.
  assert (st = stream) as -> by congruence.
  split; [done|]. split; [|split].
  - pose proof (ok_flight _ _ _ _ _ Hok _ _ Hs) as Hfl. unfold single_flight in *. cbn in *.
    destruct (st_in_flight stream) as [busy|] eqn:Hif; [|by destruct Hfl].
    destruct Hfl as (a & ? & ? & ? & _). exists a. repeat split; try done.
    intros ->. destruct (proj1 (ok_minted _ _ _ _ _ Hok _ _ Hs) _ Hif) as (j & Hj & Hm).
    pose proof (mint_inj _ _ _ Hm Hid). lia.
  - destruct (ok_minted _ _ _ _ _ Hok' _ _ Hs) as [A _]. split; cbn; [exact A|].
    intros _. exists (o_mints o). split; [lia|done].
  - intros _ g Hg _. cbn in *. by rewrite (Hgeo stream).
Qed.

(** ** The decisions, one stream operation at a time *)

Lemma of_incarnation_fresh n l :
  Forall (fun a => (ap_incarnation a <= n)%nat) l -> of_incarnation (S n) l = [].
Proof.
  induction 1 as [|a l Ha _ IH]; [done|]. unfold of_incarnation in *.
  rewrite filter_cons_False; [done|lia].
Qed.

Lemma stream_entry_ok rest last o s :
  streams_ok None None rest last o -> streams_ok None None rest last (stream_entry o s).
Proof.
  intros Hok. unfold stream_entry. destruct (o_streams o !! s) eqn:Hs; [done|].
  destruct Hok as [H1 H2 H3 H4 H5 H6].
  split; cbn [with_streams with_incarnations o_streams o_work o_mints o_incarnations].
  - intros s' st' [[<- <-]|[_ ?]]%lookup_insert_Some; [|by apply H1].
    split; [done|]. by apply of_incarnation_fresh.
  - intros s' st' [[<- <-]|[_ ?]]%lookup_insert_Some; [|by eapply H2]. by split.
  - intros s' st' [[<- <-]|[_ ?]]%lookup_insert_Some ?; [|by eapply H3]. by intros g ?.
  - intros s' st' [[<- <-]|[_ Hs']]%lookup_insert_Some; [done|].
    pose proof (H4 _ _ Hs'). lia.
  - intros s1 s2 st1 st2 [[<- <-]|[_ X1]]%lookup_insert_Some [[<- <-]|[_ X2]]%lookup_insert_Some;
      cbn; intros Heq; [done| | |by eapply H5].
    + pose proof (H4 _ _ X2). lia.
    + pose proof (H4 _ _ X1). lia.
  - eapply Forall_impl; [exact H6|]. cbn. lia.
Qed.

Lemma redrive_ok rest last o s :
  streams_ok None None rest last o -> streams_ok None None rest last (redrive mint o s).
Proof using mint_inj.
  intros Hok. unfold redrive. destruct (o_streams o !! s) as [stream|] eqn:Hs; [|done].
  destruct (st_effective stream) eqn:He; [|done]. destruct (st_policy stream); [|done].
  eapply desire_ok; [exact Hok|by left|]. intros st Hst. congruence.
Qed.

Lemma recompute_ok rest last o s now :
  streams_ok None None rest last o ->
  streams_ok None None rest last (fst (recompute mint o s now)).
Proof using mint_inj.
  intros Hok%(stream_entry_ok _ _ _ s). unfold recompute. revert Hok.
  generalize (stream_entry o s) as o1. intros o1 Hok.
  case_if; [by eapply same_streams_ok; [apply mark_projection_same|]|].
  destruct (minimum_terminal_geometry _) as [effective|]; [|done].
  case_if; [by eapply same_streams_ok; [apply mark_projection_same|]|].
  cbn [fst]. eapply same_streams_ok; [apply mark_projection_same|].
  eapply (desire_ok _ _ _ _ _ _ (Some s)); [|by right|].
  - eapply update_stream_ok; [exact Hok| |done|done]. intros st Hst. split; [done|].
    split; [exact (ok_flight _ _ _ _ _ Hok _ _ Hst)|].
    split; [exact (ok_minted _ _ _ _ _ Hok _ _ Hst)|]. done.
  - intros st. cbn [update_stream with_streams o_streams].
    rewrite lookup_alter_eq. intros (st0 & _ & ->)%fmap_Some. done.
Qed.

Lemma close_stream_ok rest last o s :
  streams_ok None None rest last o -> streams_ok None None rest last (close_stream o s).
Proof.
  intros Hok. unfold close_stream. destruct (o_streams o !! s); [|done].
  eapply same_streams_ok; [apply mark_projection_same|]. destruct Hok as [H1 H2 H3 H4 H5 H6].
  split; cbn [with_streams o_streams o_work o_mints o_incarnations]; try done.
  - intros s' st' [_ ?]%lookup_delete_Some. by apply H1.
  - intros s' st' [_ ?]%lookup_delete_Some. by eapply H2.
  - intros s' st' [_ ?]%lookup_delete_Some. by eapply H3.
  - intros s' st' [_ ?]%lookup_delete_Some. by eapply H4.
  - intros s1 s2 st1 st2 [_ ?]%lookup_delete_Some [_ ?]%lookup_delete_Some. by eapply H5.
Qed.

Lemma replay_unavailable_ok rest last o reply s :
  streams_ok None None rest last o ->
  streams_ok None None rest last (replay_unavailable mint o reply s).
Proof using mint_inj.
  intros Hok. unfold replay_unavailable.
  assert (Hr : forall reply, streams_ok None None rest last (reply_view o reply))
    by (intros; by eapply same_streams_ok; [apply reply_view_same|]).
  destruct (o_streams o !! s) as [stream|]; [|done]. case_if; [done|].
  destruct (st_policy stream); [by apply redrive_ok|done].
Qed.

Lemma finish_reply_ok rest last o reply path broadcast s :
  streams_ok None None rest last o ->
  streams_ok None None rest last (finish_reply mint o reply path broadcast s).
Proof using mint_inj.
  intros Hok. unfold finish_reply.
  assert (Hr : streams_ok None None rest last (reply_view o reply))
    by (by eapply same_streams_ok; [apply reply_view_same|]).
  assert (Hp : forall effect o', (forall a, effect <> Apply a) ->
    streams_ok None None rest last o' -> streams_ok None None rest last (push_work effect o')).
  { intros effect o' He ?. eapply same_streams_ok; [by apply push_work_same|done]. }
  destruct reply; [eapply same_streams_ok; [apply send_same|done]|].
  destruct s as [s|]; [|done].
  set (u := match o_streams o !! s with Some _ => _ | None => _ end).
  destruct path, broadcast; try done.
  - by apply Hp.
  - destruct u; [by apply replay_unavailable_ok|by apply Hp].
  - apply Hp; [done|]. destruct u; [by apply replay_unavailable_ok|done].
  - apply Hp; [done|]. destruct u; [by apply replay_unavailable_ok|done].
Qed.

Lemma recompute_all_ok rest last o sessions now :
  streams_ok None None rest last o ->
  streams_ok None None rest last (fst (recompute_all mint o sessions now)).
Proof using mint_inj.
  unfold recompute_all. generalize (btree sessions) as l. generalize (∅ : gmap SessionId bool) as m.
  intros m l. revert o m. induction l as [|s l IH]; intros o m Hok; [done|].
  cbn [foldl]. unfold recompute_step at 2. pose proof (recompute_ok _ _ o s now Hok) as H.
  destruct (recompute mint o s now) as [o1 b]. by apply IH.
Qed.

Lemma view_command_ok rest last o socket_id command now :
  streams_ok None None rest last o ->
  streams_ok None None rest last (view_command mint o socket_id command now).
Proof using mint_inj.
  intros Hok. unfold view_command.
  destruct (handle_view_command _ socket_id command now) as [r outcome].
  match goal with |- context [recompute_all mint ?o1 _ _] =>
    assert (H1 : streams_ok None None rest last o1) end.
  { eapply same_streams_ok; [apply deliver_calls_same|].
    eapply same_streams_ok; [|exact Hok]. done. }
  apply (recompute_all_ok _ _ _ (changed outcome) now) in H1.
  destruct (recompute_all mint _ _ _) as [o1 desired]. cbn [fst] in H1.
  revert o1 H1. induction (replies outcome) as [|reply l IH]; intros o1 H1; [done|].
  cbn [foldl]. apply IH. by apply finish_reply_ok.
Qed.

Lemma resync_same o socket_id command : same_streams o (resync o socket_id command).
Proof.
  unfold resync. destruct (match _ with Some _ => _ | None => _ end); [|done].
  etrans; [|apply deliver_calls_same]. done.
Qed.

Lemma owner_close_socket_same o socket_id now :
  same_streams o (owner_close_socket o socket_id now).
Proof.
  unfold owner_close_socket. destruct (sockets _ !! _); [|done].
  case_if; [|done]. etrans; [|by apply push_work_same]. done.
Qed.

Lemma register_local_same o socket_id fingerprint tab scope now :
  same_streams o (register_local o socket_id fingerprint tab scope now).
Proof.
  unfold register_local. etrans; [|by apply push_work_same].
  pose proof (owner_close_socket_same o socket_id now) as []. by split.
Qed.

Lemma ensure_same o socket_id viewer_key fingerprint now :
  same_streams o (ensure_coordinator_socket o socket_id viewer_key fingerprint now).
Proof. unfold ensure_coordinator_socket. by destruct (o_screen o !! socket_id). Qed.

Lemma drop_coordinator_same o sessions now :
  same_streams o (drop_coordinator_sockets o sessions now).
Proof.
  unfold drop_coordinator_sockets. etrans; [|apply fold_same, mark_projection_same].
  apply fold_same. intros. apply owner_close_socket_same.
Qed.

Lemma dispose_ok rest last o :
  streams_ok None None rest last o -> streams_ok None None rest last (dispose o).
Proof.
  intros [_ _ _ _ _ H6]. unfold dispose. split; cbn; try (by intros ? ?; rewrite lookup_empty).
  rewrite applies_app, app_assoc. apply Forall_app. split; [done|].
  generalize (base.filter (fun id => is_local o id = true) (fst <$> map_to_list (o_screen o))) as l.
  intros l. induction l as [|id l IH]; cbn; [constructor|done].
Qed.

(** ** An apply resolves *)

(** [o'] holds [s]'s busy stream, still busy with [id] in its incarnation. *)
Definition still_busy (o' : OwnerState) (s : SessionId) (st : StreamSession) (id : string) : Prop :=
  exists st', o_streams o' !! s = Some st' /\ st_in_flight st' = Some id
    /\ st_incarnation st' = st_incarnation st.

(** ... and will not be taken for a settled paintable stream. *)
Definition unsettled (o' : OwnerState) (s : SessionId) : Prop :=
  forall st', o_streams o' !! s = Some st' ->
    st_latest st' <> None \/ st_unavailable st' = true \/ st_effective st' = None.

Lemma unavailable_busy o s st id message policy :
  o_streams o !! s = Some st -> st_in_flight st = Some id ->
  still_busy (unavailable o s message policy) s st id
  /\ unsettled (unavailable o s message policy) s.
Proof.
  intros Hs Hif. unfold unavailable. rewrite Hs.
  destruct (st_effective st) eqn:He.
  - unfold still_busy, unsettled. rewrite (ss_streams _ _ (owner_broadcast_same _ _ _ _)).
    cbn [update_stream with_streams o_streams]. rewrite lookup_alter_eq, Hs. cbn. split.
    + eexists. by split.
    + intros st' [= <-]. cbn. auto.
  - split; [by exists st|]. intros st' Hst'. right. right. congruence.
Qed.

Lemma desire_busy o s st id geometry retry :
  o_streams o !! s = Some st -> st_in_flight st = Some id ->
  still_busy (desire mint o s geometry retry) s st id
  /\ unsettled (desire mint o s geometry retry) s.
Proof.
  intros Hs Hif. unfold desire.
  destruct (mint (o_mints o)) as [new|error]; [|by apply unavailable_busy].
  cbn [with_mints o_streams]. rewrite Hs. unfold drive, still_busy, unsettled.
  rewrite (ss_streams _ _ (owner_broadcast_same _ _ _ _)).
  cbn [update_stream with_streams with_mints o_streams]. rewrite lookup_alter_eq, Hs.
  cbn [fmap option_fmap option_map st_in_flight]. rewrite Hif.
  rewrite (ss_streams _ _ (owner_broadcast_same _ _ _ _)).
  cbn [update_stream with_streams with_mints o_streams]. rewrite lookup_alter_eq, Hs. split.
  - eexists. split; [done|]. by split.
  - intros st' [= <-]. left. by cbn.
Qed.

Lemma classify_ok rest last o apply result :
  streams_ok None None rest last o -> streams_ok None None rest last (classify mint o apply result).
Proof using mint_inj.
  intros Hok. unfold classify.
  destruct (o_streams o !! ap_session_id apply) as [st|] eqn:Hs; [|done].
  case_if; [done|].
  assert (Hd : streams_ok None None rest last (desire mint o (ap_session_id apply) (st_effective st) 1))
    by (eapply desire_ok; [exact Hok|by left|]; intros ? ?; congruence).
  assert (Hu : forall m p, streams_ok None None rest last (unavailable o (ap_session_id apply) m p))
    by (intros; eapply unavailable_ok; [exact Hok|by left]).
  destruct result as [|failure reason|failure reason]; [done| |];
    destruct failure; try apply Hu; destruct (st_effective st); case_if; auto.
Qed.

(** Of the busy stream an apply is classified against, only a commit on the
    current stream id can leave something settled. *)
Lemma classify_busy o apply result st id :
  o_streams o !! ap_session_id apply = Some st -> st_in_flight st = Some id ->
  still_busy (classify mint o apply result) (ap_session_id apply) st id
  /\ ((classify mint o apply result = o
       /\ (st_stream_id st <> ap_stream_id apply \/ result = Committed))
      \/ unsettled (classify mint o apply result) (ap_session_id apply)).
Proof.
  intros Hs Hif. unfold classify. rewrite Hs.
  assert (Hb : still_busy o (ap_session_id apply) st id) by (by exists st).
  destruct (String.eqb_spec (st_stream_id st) (ap_stream_id apply)) as [He|Hne]; cbn [negb];
    [|auto].
  pose proof (desire_busy o (ap_session_id apply) st id (st_effective st) 1 Hs Hif) as [D1 D2].
  assert (Hu : forall m p, still_busy (unavailable o (ap_session_id apply) m p)
                             (ap_session_id apply) st id
                           /\ unsettled (unavailable o (ap_session_id apply) m p) (ap_session_id apply))
    by (intros; by apply unavailable_busy).
  destruct result as [|failure reason|failure reason]; [auto| |];
    destruct failure; try (split; [apply Hu|right; apply Hu]);
    destruct (st_effective st); case_if; try (split; [apply Hu|right; apply Hu]); auto.
Qed.

Definition committed (result : WorkerStreamResult) : bool :=
  match result with Committed => true | _ => false end.

(** [finish_apply] clears the in-flight mark of the apply's own stream. *)
Definition cleared (apply : StreamApply) (st : StreamSession) : StreamSession :=
  if bool_decide (st_in_flight st = Some (ap_stream_id apply)) then
    mkStreamSession (st_effective st) (st_stream_id st) (st_unavailable st)
      (st_unavailable_reason st) (st_policy st) None (st_latest st) (st_incarnation st)
  else st.

Lemma of_incarnation_cons n a l :
  of_incarnation n (a :: l)
  = if decide (ap_incarnation a = n) then a :: of_incarnation n l else of_incarnation n l.
Proof. unfold of_incarnation, base.filter. done. Qed.

(** Taking a resolved apply off the outstanding ones, together with its mark. *)
Lemma settle_ok rest last o apply b st :
  streams_ok None None (apply :: rest) last o ->
  o_streams o !! ap_session_id apply = Some st ->
  st_incarnation st = ap_incarnation apply ->
  (forall g, st_latest st = None -> st_effective st = Some g -> st_unavailable st = false ->
     b = true /\ ap_geometry apply = Some g) ->
  streams_ok (Some (ap_session_id apply)) None rest
    (<[ap_incarnation apply := (apply, b)]> last)
    (update_stream o (ap_session_id apply) (cleared apply)).
Proof.
  intros Hok Hs Hinc Hset. pose proof Hok as [H1 H2 H3 H4 H5 H6].
  pose proof (H1 _ _ Hs) as Hfl. unfold single_flight in Hfl. cbn [app] in *.
  rewrite Hinc, of_incarnation_cons, decide_True in Hfl by done.
  destruct (st_in_flight st) as [id|] eqn:Hif; [|by destruct Hfl].
  destruct Hfl as (a & [= <- Hnone] & Hid & _ & Hlat).
  assert (Hother : forall s' st', s' <> ap_session_id apply -> o_streams o !! s' = Some st' ->
            ap_incarnation apply <> st_incarnation st').
  { intros s' st' Hne Hs' Heq. apply Hne. eapply H5; [done|done|congruence]. }
  assert (Hbase : streams_ok None None rest last o \/ True) by auto. clear Hbase.
  assert (Hl : forall s' st', o_streams (update_stream o (ap_session_id apply) (cleared apply)) !! s'
                 = Some st' ->
    (s' = ap_session_id apply /\ st' = cleared apply st)
    \/ (s' <> ap_session_id apply /\ o_streams o !! s' = Some st')).
  { intros s' st'. cbn [update_stream with_streams o_streams]. rewrite lookup_alter_Some.
    intros [(<- & x & Hx & ->)|[? ?]]; [left; split; congruence|right; auto]. }
  assert (Hcl : cleared apply st = mkStreamSession (st_effective st) (st_stream_id st)
            (st_unavailable st) (st_unavailable_reason st) (st_policy st) None (st_latest st)
            (st_incarnation st)).
  { unfold cleared. rewrite bool_decide_eq_true_2 by congruence. done. }
  split; cbn [update_stream with_streams o_work o_mints o_incarnations].
  - intros s' st' [[-> ->]|[Hne Hs']]%Hl.
    + rewrite Hcl. unfold single_flight. cbn. split; [congruence|]. by rewrite Hinc.
    + specialize (H1 _ _ Hs'). unfold single_flight in *.
      rewrite of_incarnation_cons, decide_False in H1 by eauto.
      destruct (st_in_flight st'); [done|]. destruct H1 as [Hl1 ?]. split; [|done].
      intros _. by apply Hl1.
  - intros s' st' [[-> ->]|[Hne Hs']]%Hl; [|by eapply H2].
    destruct (H2 _ _ Hs) as [_ Hm]. rewrite Hcl. split; cbn; [done|exact Hm].
  - intros s' st' [[-> ->]|[Hne Hs']]%Hl _ g Hg Hu.
    + rewrite Hcl in Hg, Hu |- *. cbn in *.
      destruct (st_latest st) as [d|] eqn:Hd.
      * specialize (H3 _ _ Hs (ltac:(done)) g Hg Hu). by rewrite Hd in H3.
      * destruct (Hset g eq_refl Hg Hu) as [-> Hgeo]. exists apply.
        rewrite Hinc, lookup_insert_eq. repeat split; try done.
        rewrite Hid. by apply Hlat.
    + specialize (H3 _ _ Hs' (ltac:(done)) g Hg Hu).
      rewrite of_incarnation_cons, decide_False in H3 by eauto.
      destruct (st_latest st'); [done|]. destruct (st_in_flight st'); [done|].
      rewrite lookup_insert_ne by eauto. done.
  - intros s' st' [[-> ->]|[Hne Hs']]%Hl; [rewrite Hcl; cbn; by eapply H4|by eapply H4].
  - assert (Hci : st_incarnation (cleared apply st) = st_incarnation st) by by rewrite Hcl.
    intros s1 s2 st1 st2 [[-> ->]|[? X1]]%Hl [[-> ->]|[? X2]]%Hl; rewrite ?Hci; intros Heq;
      try done; by eapply H5.
  - by apply Forall_cons in H6 as [_ ?].
Qed.

Lemma drive_idle o s : o_streams o !! s ≫= st_latest = None -> drive o s = o.
Proof.
  unfold drive. destruct (o_streams o !! s) as [st|]; [|done]. cbn.
  intros ->. by destruct (st_in_flight st).
Qed.

(** An apply of another incarnation resolves unnoticed. *)
Lemma forget_ok rest last o apply :
  streams_ok None None (apply :: rest) last o -> apply_is_current o apply = false ->
  streams_ok None None rest last o.
Proof.
  intros [H1 H2 H3 H4 H5 H6] Hcur. cbn [app] in *.
  assert (Hne : forall s st, o_streams o !! s = Some st -> ap_incarnation apply <> st_incarnation st).
  { intros s st Hs Heq. pose proof (H1 _ _ Hs) as Hfl. unfold single_flight in Hfl.
    rewrite of_incarnation_cons, decide_True in Hfl by done.
    destruct (st_in_flight st); [|by destruct Hfl].
    destruct Hfl as (a & [= <- _] & _ & <- & _). unfold apply_is_current in Hcur.
    rewrite Hs, <- Heq, Nat.eqb_refl in Hcur. done. }
  split; try done.
  - intros s st Hs. specialize (H1 _ _ Hs). unfold single_flight in *.
    by rewrite of_incarnation_cons, decide_False in H1 by eauto.
  - intros s st Hs Hsk g Hg Hu. specialize (H3 _ _ Hs Hsk g Hg Hu).
    by rewrite of_incarnation_cons, decide_False in H3 by eauto.
  - by apply Forall_cons in H6 as [_ ?].
Qed.

Lemma finish_apply_ok rest last o apply result :
  streams_ok None None (apply :: rest) last o ->
  streams_ok None None rest
    (if apply_is_current o apply
     then <[ap_incarnation apply := (apply, committed result)]> last else last)
    (finish_apply mint o apply result).
Proof using mint_inj.
  intros Hok. unfold finish_apply.
  destruct (apply_is_current o apply) eqn:Hcur; cbn [negb]; [|by eapply forget_ok].
  unfold apply_is_current in Hcur.
  destruct (o_streams o !! ap_session_id apply) as [st|] eqn:Hs; [|done].
  apply Nat.eqb_eq in Hcur. pose proof (ok_flight _ _ _ _ _ Hok _ _ Hs) as Hfl.
  unfold single_flight in Hfl. cbn [app] in Hfl.
  rewrite of_incarnation_cons, decide_True in Hfl by done.
  destruct (st_in_flight st) as [id|] eqn:Hif; [|by destruct Hfl].
  destruct Hfl as (a & Ha & Hid & _ & Hlat).
  assert (a = apply) as -> by congruence.
  destruct (classify_busy o apply result st id Hs Hif) as [(st1 & Hs1 & Hif1 & Hinc1) Hcase].
  pose proof (classify_ok _ _ _ apply result Hok) as Hok1.
  assert (Hsettled : forall g, st_latest st1 = None -> st_effective st1 = Some g ->
            st_unavailable st1 = false -> committed result = true /\ ap_geometry apply = Some g).
  { intros g Hl1 Hg Hu. destruct Hcase as [[Heq Hor]|Huns].
    - rewrite Heq in Hs1. assert (st1 = st) as -> by congruence.
      destruct Hor as [Hne| ->]; [by destruct Hne; rewrite Hid; symmetry; apply Hlat|].
      split; [done|].
      pose proof (ok_course _ _ _ _ _ Hok _ _ Hs (ltac:(done)) g Hg Hu) as Hc.
      rewrite Hl1, Hif in Hc. apply Hc. cbn [app].
      rewrite of_incarnation_cons, decide_True by done. by left.
    - destruct (Huns _ Hs1) as [?|[?|?]]; congruence. }
  destruct (apply_is_current (classify mint o apply result) apply) eqn:Hcur1; cbn [negb].
  2: { unfold apply_is_current in Hcur1. rewrite Hs1, Hinc1, Hcur, Nat.eqb_refl in Hcur1. done. }
  pose proof (settle_ok rest last _ apply (committed result) st1 Hok1 Hs1 ltac:(congruence) Hsettled)
    as Hok2.
  apply drive_ok in Hok2. fold (cleared apply).
  destruct (_ ≫= st_latest) eqn:Hlt; [done|]. by rewrite drive_idle in Hok2.
Qed.

End OwnerInvariant.
