(* ===== verification/TerminalViewOwnerRuns.v ===== *)
(** * TerminalViewOwnerRuns: what one decision of the owner keeps

    A projection that is due stays owed, frames are only added, and registry,
    screen and streams agree: each decision of [TerminalViewOwner] preserves
    the three. *)
From Stdlib Require Import Ascii String.
From S2P Require Export TerminalViewOwnerStreams.

(** ** Projections, frames, registry and screen *)

(** A dirty session has its flush scheduled, and a scheduled flush is owed. *)
Definition flush_ok (owed : list Deferred) (o : OwnerState) : Prop :=
  (o_dirty o <> [] -> o_flush_scheduled o = true)
  /\ (o_flush_scheduled o = true -> FlushProjections ∈ owed ++ o_work o).

Section OwnerSteps.
Context (mint : nat -> result string string).

(** What a decision keeps: projections stay owed, and frames are only added. *)
Record evolves (o o' : OwnerState) : Prop := {
  ev_flush : forall owed, flush_ok owed o -> flush_ok owed o';
  ev_sent : o_sent o `prefix_of` o_sent o';
}.

(** What a step within a decision keeps besides. *)
Record steady (o o' : OwnerState) : Prop := {
  sd_evolves : evolves o o';
  sd_registry : o_registry o' = o_registry o;
  sd_screen : dom (o_screen o') = dom (o_screen o);
}.

#[global] Instance evolves_preorder : PreOrder evolves.
Proof.
  split; [done|]. intros a b c [F1 S1] [F2 S2]. split; [auto|by trans (o_sent b)].
Qed.

#[global] Instance steady_preorder : PreOrder steady.
Proof.
  split; [done|]. intros a b c [E1 R1 S1] [E2 R2 S2].
  split; [by trans b|congruence|congruence].
Qed.

Lemma evolves_quiet o o' :
  o_dirty o' = o_dirty o -> o_flush_scheduled o' = o_flush_scheduled o ->
  o_work o `prefix_of` o_work o' -> o_sent o `prefix_of` o_sent o' -> evolves o o'.
Proof.
  intros E1 E2 [extra Hw] Hs. split; [|done]. intros owed [F1 F2]. unfold flush_ok.
  rewrite E1, E2, Hw, app_assoc. split; [done|]. intros Hf. apply elem_of_app. left. auto.
Qed.

Lemma steady_quiet o o' :
  o_registry o' = o_registry o -> dom (o_screen o') = dom (o_screen o) ->
  o_dirty o' = o_dirty o -> o_flush_scheduled o' = o_flush_scheduled o ->
  o_work o `prefix_of` o_work o' -> o_sent o `prefix_of` o_sent o' -> steady o o'.
Proof. intros. split; [by apply evolves_quiet|done|done]. Qed.

Lemma push_work_steady effect o : steady o (push_work effect o).
Proof. apply steady_quiet; try done. by eexists. Qed.

Lemma update_stream_steady o s f : steady o (update_stream o s f).
Proof. by apply steady_quiet. Qed.

Lemma send_steady o socket_id frame : steady o (send o socket_id frame).
Proof.
  unfold send. destruct (o_screen o !! socket_id); [|done].
  apply steady_quiet; try done. by eexists.
Qed.

Lemma reply_view_steady o reply : steady o (reply_view o reply).
Proof.
  unfold reply_view. destruct reply; [done|]. destruct (sockets _ !! _); [|done].
  destruct (_ ≫= _) as [stream|]; [|done]. destruct (st_effective stream); [|done].
  apply send_steady.
Qed.

Lemma fold_steady {A} (f : OwnerState -> A -> OwnerState) l o :
  (forall o x, steady o (f o x)) -> steady o (foldl f o l).
Proof.
  intros Hf. revert o. induction l as [|x l IH]; intros o; [done|].
  cbn [foldl]. etrans; [apply Hf|apply IH].
Qed.

Lemma owner_broadcast_steady o s status reason : steady o (owner_broadcast o s status reason).
Proof. apply fold_steady, reply_view_steady. Qed.

Lemma mark_projection_steady o s : steady o (mark_projection o s).
Proof.
  unfold mark_projection. destruct (o_disposed o); [done|].
  destruct (o_flush_scheduled o) eqn:Hf; (split; [split|done|done]); try done.
  - intros owed [F1 F2]. by split; cbn; [|intros _; auto].
  - intros owed [F1 F2]. split; cbn; [done|]. intros _. rewrite !elem_of_app. right. right. left.
Qed.

Lemma unavailable_steady o s message policy : steady o (unavailable o s message policy).
Proof.
  unfold unavailable. destruct (o_streams o !! s) as [st|]; [|done].
  destruct (st_effective st); [|done].
  etrans; [apply update_stream_steady|apply owner_broadcast_steady].
Qed.

Lemma drive_steady o s : steady o (drive o s).
Proof.
  unfold drive. destruct (o_streams o !! s) as [st|]; [|done].
  destruct (st_in_flight st); [done|]. destruct (st_latest st); [|done].
  etrans; [apply update_stream_steady|apply push_work_steady].
Qed.

Lemma desire_steady o s geometry retry : steady o (desire mint o s geometry retry).
Proof.
  unfold desire. destruct (mint (o_mints o)).
  - destruct (o_streams (with_mints o _) !! s); [|done].
    etrans; [|apply drive_steady]. etrans; [|apply owner_broadcast_steady].
    etrans; [|apply update_stream_steady]. done.
  - etrans; [|apply unavailable_steady]. done.
Qed.

Lemma redrive_steady o s : steady o (redrive mint o s).
Proof.
  unfold redrive. destruct (o_streams o !! s) as [st|]; [|done].
  destruct (st_effective st); [|done]. destruct (st_policy st); [apply desire_steady|done].
Qed.

Lemma stream_entry_steady o s : steady o (stream_entry o s).
Proof. unfold stream_entry. destruct (o_streams o !! s); [done|by apply steady_quiet]. Qed.

Lemma recompute_steady o s now : steady o (fst (recompute mint o s now)).
Proof.
  unfold recompute. etrans; [apply (stream_entry_steady _ s)|]. generalize (stream_entry o s).
  intros o1. case_if; [apply mark_projection_steady|].
  destruct (minimum_terminal_geometry _); [|done].
  case_if; [apply mark_projection_steady|]. cbn [fst].
  etrans; [|apply mark_projection_steady]. etrans; [|apply desire_steady].
  apply update_stream_steady.
Qed.

Lemma recompute_all_steady o sessions now : steady o (fst (recompute_all mint o sessions now)).
Proof.
  unfold recompute_all. generalize (btree sessions) as l. generalize (∅ : gmap SessionId bool) as m.
  intros m l. revert o m. induction l as [|s l IH]; intros o m; [done|].
  cbn [foldl]. unfold recompute_step at 2. pose proof (recompute_steady o s now) as H.
  destruct (recompute mint o s now) as [o1 b]. etrans; [exact H|apply IH].
Qed.

Lemma close_stream_steady o s : steady o (close_stream o s).
Proof.
  unfold close_stream. destruct (o_streams o !! s); [|done].
  etrans; [|apply mark_projection_steady]. by apply steady_quiet.
Qed.

Lemma classify_steady o apply result : steady o (classify mint o apply result).
Proof.
  unfold classify. destruct (o_streams o !! _) as [st|]; [|done]. case_if; [done|].
  destruct result as [|failure reason|failure reason]; [done| |];
    destruct failure; try apply unavailable_steady; destruct (st_effective st); case_if;
    try apply unavailable_steady; apply desire_steady.
Qed.

Lemma finish_apply_steady o apply result : steady o (finish_apply mint o apply result).
Proof.
  unfold finish_apply. case_if; [done|].
  etrans; [apply (classify_steady _ apply result)|]. case_if; [done|].
  etrans; [apply update_stream_steady|]. destruct (_ ≫= st_latest); [apply drive_steady|done].
Qed.

Lemma replay_unavailable_steady o reply s : steady o (replay_unavailable mint o reply s).
Proof.
  unfold replay_unavailable. destruct (o_streams o !! s) as [st|]; [|apply reply_view_steady].
  case_if; [apply reply_view_steady|].
  destruct (st_policy st); [apply redrive_steady|apply reply_view_steady].
Qed.

Lemma finish_reply_steady o reply path broadcast s :
  steady o (finish_reply mint o reply path broadcast s).
Proof.
  unfold finish_reply. destruct reply; [apply send_steady|]. destruct s as [s|]; [|done].
  set (u := match o_streams o !! s with Some _ => _ | None => _ end).
  assert (Hp : forall effect o', steady o o' -> steady o (push_work effect o'))
    by (intros; etrans; [done|apply push_work_steady]).
  pose proof (reply_view_steady o (ReplyView socket_id view_id session_id revision status reason)).
  destruct path, broadcast; try done.
  - by apply Hp.
  - destruct u; [by apply replay_unavailable_steady|by apply Hp].
  - apply Hp. destruct u; [by apply replay_unavailable_steady|done].
  - apply Hp. destruct u; [by apply replay_unavailable_steady|done].
Qed.

Lemma set_watching_steady o socket_id s watching : steady o (set_watching o socket_id s watching).
Proof. apply steady_quiet; try done. cbn. by rewrite dom_alter_L. Qed.

Lemma deliver_call_steady o call : steady o (deliver_call o call).
Proof.
  destruct call; cbn [deliver_call]; [apply set_watching_steady|apply push_work_steady|].
  case_if; [apply push_work_steady|done].
Qed.

Lemma deliver_calls_steady o l : steady o (deliver_calls o l).
Proof. apply fold_steady, deliver_call_steady. Qed.

(** ** Registry, screen and streams agree *)

Definition effective_of (o : OwnerState) (s : SessionId) : option TerminalGeometry :=
  o_streams o !! s ≫= st_effective.

(** Every registered socket has a transport, every transport a registration,
    and every session with a record has an effective geometry. *)
Record agree (o : OwnerState) : Prop := {
  ag_registry : consistent (o_registry o);
  ag_screen : dom (o_screen o) = dom (sockets (o_registry o));
  ag_painted : forall key record, views (o_registry o) !! key = Some record ->
    is_Some (effective_of o (rec_session record));
}.

Definition same_effective (o o' : OwnerState) : Prop :=
  forall s, effective_of o' s = effective_of o s.

#[global] Instance same_effective_preorder : PreOrder same_effective.
Proof. split; [done|]. intros a b c H1 H2 s. by rewrite H2. Qed.

Lemma same_streams_effective o o' : same_streams o o' -> same_effective o o'.
Proof. intros [E _ _ _] s. unfold effective_of. by rewrite E. Qed.

Lemma update_stream_effective o s f :
  (forall st, st_effective (f st) = st_effective st) -> same_effective o (update_stream o s f).
Proof.
  intros Hf s'. unfold effective_of. cbn [update_stream with_streams o_streams].
  destruct (decide (s' = s)) as [->|]; [|by rewrite lookup_alter_ne].
  rewrite lookup_alter_eq. destruct (o_streams o !! s); cbn; [apply Hf|done].
Qed.

Lemma unavailable_effective o s message policy :
  same_effective o (unavailable o s message policy).
Proof.
  unfold unavailable. destruct (o_streams o !! s) as [st|]; [|done].
  destruct (st_effective st); [|done].
  etrans; [|apply same_streams_effective, owner_broadcast_same]. by apply update_stream_effective.
Qed.

Lemma drive_effective o s : same_effective o (drive o s).
Proof.
  unfold drive. destruct (o_streams o !! s) as [st|]; [|done].
  destruct (st_in_flight st); [done|]. destruct (st_latest st); [|done].
  etrans; [apply (update_stream_effective _ s (fun st =>
    mkStreamSession (st_effective st) (st_stream_id st) (st_unavailable st)
      (st_unavailable_reason st) (st_policy st) (Some (st_stream_id st)) None
      (st_incarnation st))); done|]. done.
Qed.

Lemma desire_effective o s geometry retry : same_effective o (desire mint o s geometry retry).
Proof.
  unfold desire. destruct (mint (o_mints o)) as [id|].
  - destruct (o_streams (with_mints o _) !! s); [|done].
    etrans; [|apply drive_effective].
    etrans; [|apply same_streams_effective, owner_broadcast_same].
    etrans; [|by apply update_stream_effective]. done.
  - etrans; [|apply unavailable_effective]. done.
Qed.

Lemma redrive_effective o s : same_effective o (redrive mint o s).
Proof.
  unfold redrive. destruct (o_streams o !! s) as [st|]; [|done].
  destruct (st_effective st); [|done]. destruct (st_policy st); [apply desire_effective|done].
Qed.

Lemma stream_entry_effective o s : same_effective o (stream_entry o s).
Proof.
  unfold stream_entry. destruct (o_streams o !! s) eqn:Hs; [done|]. intros s'.
  unfold effective_of. cbn [with_streams with_incarnations o_streams].
  destruct (decide (s' = s)) as [->|]; [|by rewrite lookup_insert_ne].
  by rewrite lookup_insert_eq, Hs.
Qed.

Lemma classify_effective o apply result : same_effective o (classify mint o apply result).
Proof.
  unfold classify. destruct (o_streams o !! _) as [st|]; [|done]. case_if; [done|].
  destruct result as [|failure reason|failure reason]; [done| |];
    destruct failure; try apply unavailable_effective; destruct (st_effective st); case_if;
    try apply unavailable_effective; apply desire_effective.
Qed.

Lemma finish_apply_effective o apply result :
  same_effective o (finish_apply mint o apply result).
Proof.
  unfold finish_apply. case_if; [done|].
  etrans; [apply (classify_effective _ apply result)|]. case_if; [done|].
  etrans; [apply (update_stream_effective _ (ap_session_id apply) (cleared apply));
           intros st; unfold cleared; by case_if|].
  destruct (_ ≫= st_latest); [apply drive_effective|done].
Qed.

Lemma finish_reply_effective o reply path broadcast s :
  same_effective o (finish_reply mint o reply path broadcast s).
Proof.
  unfold finish_reply. destruct reply; [apply same_streams_effective, send_same|].
  destruct s as [s|]; [|done].
  set (u := match o_streams o !! s with Some _ => _ | None => _ end).
  assert (Hr : forall reply, same_effective o (reply_view o reply))
    by (intros; apply same_streams_effective, reply_view_same).
  assert (Hre : forall reply, same_effective o (replay_unavailable mint o reply s)).
  { intros. unfold replay_unavailable. destruct (o_streams o !! s); [|done]. case_if; [done|].
    destruct (st_policy _); [apply redrive_effective|done]. }
  assert (Hp : forall effect o', same_effective o o' -> same_effective o (push_work effect o'))
    by (intros effect o' H s'; apply H).
  destruct path, broadcast; try done; try destruct u; try apply Hp; done.
Qed.

(** The value [recompute] leaves for its session. *)
Lemma recompute_effective o s now s' :
  consistent (o_registry o) ->
  let set := registry_geometry_set (o_registry o) s now in
  effective_of (fst (recompute mint o s now)) s'
  = if decide (s' = s) then
      match live set with
      | [] => if (0 <? retained set)%nat then effective_of o s else None
      | gs => Some (mkTerminalGeometry (axis_minimum cols 257 gs) (axis_minimum rows 257 gs))
      end
    else effective_of o s'.
Proof.
  intros Hc set. unfold recompute. fold set.
  pose proof (live_geometries_ok (o_registry o) s now Hc) as Hlive. fold set in Hlive.
  pose proof (stream_entry_effective o s) as Hent.
  assert (Hin : is_Some (o_streams (stream_entry o s) !! s)).
  { unfold stream_entry. destruct (o_streams o !! s) eqn:Hs; [by rewrite Hs|].
    cbn. rewrite lookup_insert_eq. eauto. }
  rewrite <- (Hent s), <- (Hent s'). revert Hin. generalize (stream_entry o s) as o1.
  intros o1 [st Hst]. rewrite minimum_terminal_geometry_ok by done.
  assert (Hfinal : forall e, effective_of (fst (
      if bool_decide (st_effective <$> o_streams o1 !! s = Some e)
      then (mark_projection o1 s, false)
      else (mark_projection (desire mint (update_stream o1 s (fun st =>
              mkStreamSession e (st_stream_id st) (st_unavailable st)
                (st_unavailable_reason st) (st_policy st) (st_in_flight st) (st_latest st)
                (st_incarnation st))) s e 0) s, true))) s'
    = if decide (s' = s) then e else effective_of o1 s').
  { intros e. case_bool_decide as Heq; cbn [fst].
    - rewrite (same_streams_effective _ _ (mark_projection_same o1 s)).
      case_decide; subst; [|done]. unfold effective_of. rewrite Hst in *. cbn in *. congruence.
    - rewrite (same_streams_effective _ _ (mark_projection_same _ s)), desire_effective.
      unfold effective_of. cbn [update_stream with_streams o_streams].
      case_decide; subst; [by rewrite lookup_alter_eq, Hst|by rewrite lookup_alter_ne]. }
  destruct (live set) as [|g gs] eqn:Hl; cbn [length Nat.eqb andb]; [|apply Hfinal].
  destruct (0 <? retained set)%nat; [|apply Hfinal]. cbn [fst].
  rewrite (same_streams_effective _ _ (mark_projection_same o1 s)). by case_decide; subst.
Qed.

(** What a command leaves: each record was there before, for the same session
    and no less parked unless on the same socket, or is a fresh live one whose
    session is reported as changed. *)
Definition grown (r : ViewRegistry) (now : Z) (ro : ViewRegistry * MembershipOutcome) : Prop :=
  forall key record, views (fst ro) !! key = Some record ->
    (exists old, views r !! key = Some old /\ rec_session old = rec_session record
       /\ (rec_parked record = false
           \/ (rec_parked record = rec_parked old /\ rec_socket_id record = rec_socket_id old)))
    \/ (rec_session record ∈ changed (snd ro) /\ rec_parked record = false
        /\ rec_deadline_ms record = lease_deadline now).

Lemma grown_subset r now ro : views (fst ro) ⊆ views r -> grown r now ro.
Proof.
  intros Hsub key rec Hk. left. exists rec.
  split; [by eapply lookup_weaken|]. split; [done|]. by right.
Qed.

Lemma grown_insert r now r' o key old record :
  views r !! key = Some old -> views r' = <[key := record]> (views r) ->
  rec_session record = rec_session old ->
  (rec_parked record = false
   \/ (rec_parked record = rec_parked old /\ rec_socket_id record = rec_socket_id old)) ->
  grown r now (r', o).
Proof.
  intros Hold Hv Hs Hp k rec. cbn [fst]. rewrite Hv.
  intros [[<- <-]|[_ Hk]]%lookup_insert_Some; left.
  - exists old. split; [done|]. by rewrite Hs.
  - exists rec. split; [done|]. split; [done|]. by right.
Qed.

Lemma release_grown r socket_id command key now o :
  grown r now (release r socket_id command key now o).
Proof.
  apply grown_subset. cbn [release fst]. rewrite drop_record_views. apply delete_subseteq.
Qed.

Lemma handle_grown r socket_id command now :
  consistent r -> grown r now (handle_view_command r socket_id command now).
Proof.
  intros Hc. unfold handle_view_command.
  destruct (sockets r !! socket_id) as [so|]; [|by apply grown_subset].
  destruct (validate_view_command _ command) as [?|] eqn:Hval; [by apply grown_subset|].
  case_if; [by apply grown_subset|].
  destruct (sock_viewer_key so) as [vk|]; [|by apply grown_subset].
  set (key := view_key vk _). destruct (views r !! key) as [current|] eqn:Hk.
  - pose proof (ok_key _ _ (ok_records _ Hc _ _ Hk)) as Hkey. case_if.
    + unfold reclaim. repeat (case_if; [by apply grown_subset|]).
      destruct (String.eqb_spec (cmd_session_id command) (rec_session current)) as [Hs|];
        cbn [negb]; [|by apply grown_subset].
      case_if; [apply release_grown|]. case_if; [by apply grown_subset|].
      eapply grown_insert; [exact Hk|done|done|by left].
    + unfold update. rewrite Hkey. case_if; [by apply grown_subset|]. case_if.
      * match goal with |- context [if ?b then _ else _] => destruct b end.
        all: eapply grown_insert; [exact Hk|reflexivity|reflexivity|by right].
      * destruct (String.eqb_spec (cmd_session_id command) (rec_session current)) as [Hs|];
          cbn [negb]; [|by apply grown_subset].
        case_if; [apply release_grown|].
        eapply grown_insert; [exact Hk|reflexivity|exact Hs|by right].
  - assert (Hfresh : forall r' caller, views r' = views r ->
      grown r now (admit_fresh r' caller command key now no_outcome)).
    { intros r' caller Hv. unfold admit_fresh. case_if; [by apply grown_subset; cbn; rewrite Hv|].
      case_if; [by apply grown_subset; cbn; rewrite Hv|].
      destruct (SessionId_try_from _) as [s|] eqn:Hs; [|by apply grown_subset; cbn; rewrite Hv].
      apply SessionId_try_from_Some in Hs as ->.
      case_if; [by apply grown_subset; cbn; rewrite Hv|].
      intros k rec. cbn [fst own_key with_sockets views]. rewrite Hv.
      intros [[<- <-]|[_ Hk']]%lookup_insert_Some.
      - right. split; [|done]. cbn. set_solver.
      - left. exists rec. split; [done|]. split; [done|]. by right. }
    unfold admit_view. destruct (tombstones_get _ _); [|by apply Hfresh].
    repeat (case_if; [by apply grown_subset|]). by apply Hfresh.
Qed.

(** No command registers or forgets a socket. *)
Lemma handle_dom r socket_id command now :
  dom (sockets (fst (handle_view_command r socket_id command now))) = dom (sockets r).
Proof.
  assert (Hdrop : forall key save claim, dom (sockets (drop_record r key save now claim)) = dom (sockets r)).
  { intros. unfold drop_record. destruct (views r !! key); [|done]. cbn. by rewrite dom_alter_L. }
  unfold handle_view_command. destruct (sockets r !! socket_id) as [so|]; [|done].
  destruct (validate_view_command _ command); [done|]. case_if; [done|].
  destruct (sock_viewer_key so) as [vk|]; [|done]. destruct (views r !! _) as [current|].
  - case_if.
    + unfold reclaim. repeat (case_if; [done|]). case_if; [apply Hdrop|]. case_if; [done|].
      cbn. by rewrite dom_alter_L.
    + unfold update. case_if; [done|]. case_if; [by case_if|]. case_if; [done|].
      case_if; [apply Hdrop|done].
  - assert (Hfresh : forall r' caller key, sockets r' = sockets r ->
      dom (sockets (fst (admit_fresh r' caller command key now no_outcome))) = dom (sockets r)).
    { intros r' caller key E. unfold admit_fresh. case_if; [cbn; by rewrite E|].
      case_if; [cbn; by rewrite E|]. destruct (SessionId_try_from _); [|cbn; by rewrite E].
      case_if; [cbn; by rewrite E|]. cbn. by rewrite dom_alter_L, E. }
    unfold admit_view. destruct (tombstones_get _ _); [|by apply Hfresh].
    repeat (case_if; [done|]). by apply Hfresh.
Qed.

(** A record in membership that is live, or whose session is painted already,
    is painted once its session is recomputed. *)
Lemma recompute_paints o s now key record :
  consistent (o_registry o) ->
  views (o_registry o) !! key = Some record -> rec_session record = s ->
  view_constrains record now = true \/ is_Some (effective_of o s) ->
  is_Some (effective_of (fst (recompute mint o s now)) s).
Proof.
  intros Hc Hk Hs Hor. rewrite recompute_effective, decide_True by done.
  set (set := registry_geometry_set _ _ _).
  destruct (live set) as [|g gs] eqn:Hl; [|by eexists].
  assert (Hret : (0 <? retained set)%nat = true).
  { apply Nat.ltb_lt. unfold set, registry_geometry_set, geometry_set. cbn.
    assert (Hin : record ∈ records_at (views (o_registry o)) (session_views (o_registry o) !! s))
      by (apply elem_of_records_at; eauto).
    destruct (records_at _ _); [by apply not_elem_of_nil in Hin|cbn; lia]. }
  rewrite Hret. destruct Hor as [Hlive|]; [|done].
  exfalso. apply (not_elem_of_nil (rec_geometry record)). rewrite <- Hl. unfold set.
  apply elem_of_live; [done|]. exists record. split; [|done]. by exists key.
Qed.

Lemma recompute_other o s now s' :
  consistent (o_registry o) -> s' <> s ->
  effective_of (fst (recompute mint o s now)) s' = effective_of o s'.
Proof. intros Hc Hne. rewrite recompute_effective by done. by rewrite decide_False. Qed.

(** Once every changed session is recomputed, every record is painted. *)
Lemma recompute_all_paints o sessions now :
  consistent (o_registry o) ->
  (forall key record, views (o_registry o) !! key = Some record ->
     is_Some (effective_of o (rec_session record))
     \/ (rec_session record ∈ sessions /\ view_constrains record now = true)) ->
  forall key record, views (o_registry o) !! key = Some record ->
    is_Some (effective_of (fst (recompute_all mint o sessions now)) (rec_session record)).
Proof.
  intros Hc Hpre. setoid_rewrite <- elem_of_btree in Hpre. unfold recompute_all.
  revert Hpre. generalize (btree sessions) as l. generalize (∅ : gmap SessionId bool) as m.
  intros m l. revert o Hc m. induction l as [|s l IH]; intros o Hc m Hpre key rec Hk.
  { destruct (Hpre _ _ Hk) as [?|[Habs _]]; [done|by apply not_elem_of_nil in Habs]. }
  cbn [foldl]. unfold recompute_step at 2.
  pose proof (sd_registry _ _ (recompute_steady o s now)) as Hreg.
  pose proof (recompute_paints o s now) as Hp. pose proof (recompute_other o s now) as Hother.
  destruct (recompute mint o s now) as [o1 b]. cbn [fst] in *.
  apply (IH o1) with (key := key); rewrite ?Hreg; [done| |done].
  intros k rec' Hk'. destruct (decide (rec_session rec' = s)) as [Hs|Hne].
  - left. rewrite Hs. apply (Hp k rec'); [done|done|done|].
    destruct (Hpre _ _ Hk') as [?|[_ ?]]; [right; congruence|by left].
  - rewrite Hother by done. destruct (Hpre _ _ Hk') as [?|[Hin ?]]; [by left|].
    right. split; [|done]. by apply elem_of_cons in Hin as [?|?].
Qed.

Lemma agree_steady o o' : steady o o' -> same_effective o o' -> agree o -> agree o'.
Proof.
  intros [_ Er Es] He [A1 A2 A3]. split; rewrite ?Er, ?Es; [done|done|].
  intros key rec Hk. rewrite He. eauto.
Qed.

Lemma with_registry_evolves o r : evolves o (with_registry o r).
Proof. by apply evolves_quiet. Qed.

Lemma drop_record_dom r key save now claim :
  dom (sockets (drop_record r key save now claim)) = dom (sockets r).
Proof. unfold drop_record. destruct (views r !! key); [|done]. cbn. by rewrite dom_alter_L. Qed.

Lemma drop_all_dom r keys : dom (sockets (drop_all r keys)) = dom (sockets r).
Proof.
  revert r. induction keys as [|k keys IH]; intros r; [done|]. cbn [drop_all foldl].
  fold (drop_all (drop_record r k false 0 None) keys). by rewrite IH, drop_record_dom.
Qed.

Lemma sweep_dom r keys now : dom (sockets (fst (sweep r keys now))) = dom (sockets r).
Proof.
  assert (Hstep : forall acc key, dom (sockets (fst (sweep_step now acc key))) = dom (sockets (fst acc))).
  { intros [r0 o0] key. unfold sweep_step. destruct (views r0 !! key); [|done].
    case_if; [by case_if|]. cbn [fst]. apply drop_record_dom. }
  assert (Hfold : dom (sockets (fst (foldl (sweep_step now) (r, no_outcome) keys))) = dom (sockets r)).
  { change (dom (sockets r)) with (dom (sockets (fst (r, no_outcome)))).
    generalize (r, no_outcome). induction keys as [|k keys IH]; intros acc; [done|].
    cbn [foldl]. by rewrite IH, Hstep. }
  unfold sweep. destruct (foldl _ _ keys). done.
Qed.

(** *** One view command *)

Section ViewCommand.
Context (o : OwnerState) (socket_id : string) (command : TerminalViewCommand) (now : Z).

(** The registry the machine runs on, what it answers, and the owner once
    every changed session was recomputed. *)
Definition vc_before : ViewRegistry :=
  set_session_allowed (o_registry o) socket_id (cmd_session_id command)
    (screen_allows o socket_id (cmd_session_id command)).
Definition vc_ro := handle_view_command vc_before socket_id command now.
Definition vc_after : ViewRegistry :=
  set_session_allowed (fst vc_ro) socket_id (cmd_session_id command) false.
Definition vc_delivered : OwnerState :=
  deliver_calls (with_registry o vc_after) (calls (snd vc_ro)).
Definition vc_recomputed := recompute_all mint vc_delivered (changed (snd vc_ro)) now.

Lemma view_command_eq :
  view_command mint o socket_id command now
  = foldl (reply_step mint (command_path o socket_id command) (snd vc_recomputed))
      (fst vc_recomputed) (replies (snd vc_ro)).
Proof.
  unfold view_command, vc_recomputed, vc_delivered, vc_after, vc_ro, vc_before.
  destruct (handle_view_command _ socket_id command now) as [r outcome]. cbn [fst snd].
  by destruct (recompute_all mint _ _ _).
Qed.

Lemma vc_registry_delivered : o_registry vc_delivered = vc_after.
Proof. unfold vc_delivered. by rewrite (sd_registry _ _ (deliver_calls_steady _ _)). Qed.

Lemma vc_consistent : consistent (o_registry o) -> consistent vc_after.
Proof.
  intros Hc. apply set_session_allowed_consistent, handle_view_command_consistent.
  by apply set_session_allowed_consistent.
Qed.

Lemma vc_dom : dom (sockets vc_after) = dom (sockets (o_registry o)).
Proof.
  unfold vc_after, set_session_allowed. cbn. rewrite dom_alter_L. unfold vc_ro.
  rewrite handle_dom. unfold vc_before, set_session_allowed. cbn. by rewrite dom_alter_L.
Qed.

Lemma vc_agree_recomputed :
  now < 2 ^ 64 - 1 -> agree o -> agree (fst vc_recomputed).
Proof.
  intros Hnow [Hc Hs Hp].
  pose proof (recompute_all_steady vc_delivered (changed (snd vc_ro)) now) as Hst.
  pose proof (recompute_all_paints vc_delivered (changed (snd vc_ro)) now) as Hpaint.
  rewrite vc_registry_delivered in Hpaint. unfold vc_recomputed.
  destruct Hst as [_ Er Es]. rewrite vc_registry_delivered in Er.
  split; rewrite Er; [by apply vc_consistent| |].
  - rewrite Es. unfold vc_delivered. rewrite (sd_screen _ _ (deliver_calls_steady _ _)).
    change (dom (o_screen o) = dom (sockets vc_after)). by rewrite Hs, vc_dom.
  - apply Hpaint; [by apply vc_consistent|]. intros key rec Hk.
    pose proof (handle_grown vc_before socket_id command now
                  (set_session_allowed_consistent _ _ _ _ Hc) key rec Hk) as Hg.
    destruct Hg as [(old & Hold & <- & _)|(Hin & Hpk & Hd)].
    + left. unfold vc_delivered.
      rewrite (same_streams_effective _ _ (deliver_calls_same _ _)). by eapply Hp.
    + right. split; [exact Hin|]. unfold view_constrains. rewrite Hd, Hpk. cbn [negb orb].
      unfold lease_deadline, saturating_add64, TERMINAL_VIEW_LEASE_MS.
      rewrite (proj2 (Z.leb_gt _ _)); [done|lia].
Qed.

Lemma reply_fold_effective path desired l o1 :
  same_effective o1 (foldl (reply_step mint path desired) o1 l).
Proof.
  revert o1. induction l as [|x l IH]; intros o1; [done|]. cbn [foldl].
  etrans; [|apply IH]. apply finish_reply_effective.
Qed.

Lemma reply_fold_steady path desired l o1 :
  steady o1 (foldl (reply_step mint path desired) o1 l).
Proof. apply fold_steady. intros. apply finish_reply_steady. Qed.

Lemma view_command_agree :
  now < 2 ^ 64 - 1 -> agree o -> agree (view_command mint o socket_id command now).
Proof.
  intros Hnow Ha%vc_agree_recomputed; [|done]. rewrite view_command_eq.
  eapply agree_steady; [apply reply_fold_steady|apply reply_fold_effective|done].
Qed.

Lemma vc_delivered_evolves : evolves o vc_delivered.
Proof. etrans; [apply (with_registry_evolves o vc_after)|]. apply deliver_calls_steady. Qed.

Lemma vc_evolves : evolves o (fst vc_recomputed).
Proof. etrans; [apply vc_delivered_evolves|]. apply recompute_all_steady. Qed.

Lemma view_command_evolves : evolves o (view_command mint o socket_id command now).
Proof. rewrite view_command_eq. etrans; [apply vc_evolves|apply reply_fold_steady]. Qed.
End ViewCommand.

(** *** The other decisions *)

Lemma resync_agree o socket_id command : agree o -> agree (resync o socket_id command).
Proof.
  intros [Hc Hs Hp]. unfold resync.
  set (o1 := with_registry o _).
  assert (H1 : agree o1).
  { split; unfold o1; cbn [with_registry o_registry o_screen].
    - by do 2 apply set_session_allowed_consistent.
    - unfold set_session_allowed. cbn. by rewrite !dom_alter_L.
    - exact Hp. }
  destruct (match _ with Some _ => _ | None => _ end); [|done].
  eapply agree_steady; [apply deliver_calls_steady| |done].
  apply same_streams_effective, deliver_calls_same.
Qed.

Lemma resync_evolves o socket_id command : evolves o (resync o socket_id command).
Proof.
  unfold resync. destruct (match _ with Some _ => _ | None => _ end);
    [|apply with_registry_evolves].
  etrans; [apply with_registry_evolves|apply deliver_calls_steady].
Qed.

(** Parking keeps every record's session. *)
Lemma close_socket_sessions r socket_id now key record :
  views (close_socket r socket_id now) !! key = Some record ->
  exists old, views r !! key = Some old /\ rec_session old = rec_session record.
Proof.
  unfold close_socket. destruct (sockets r !! socket_id) as [so|]; [|eauto].
  cbn [views]. rewrite park_fold_lookup. intros (old & Hold & ->)%fmap_Some.
  exists old. split; [done|]. by case_if.
Qed.

Lemma owner_close_socket_agree o socket_id now :
  agree o -> agree (owner_close_socket o socket_id now).
Proof.
  intros [Hc Hs Hp]. unfold owner_close_socket.
  destruct (sockets (o_registry o) !! socket_id) as [so|] eqn:Hso; [|done].
  set (o1 := with_screen _ _).
  assert (H1 : agree o1).
  { split; unfold o1; cbn [with_screen with_registry o_registry o_screen].
    - by apply close_socket_consistent.
    - rewrite dom_delete_L, Hs. unfold close_socket. rewrite Hso. cbn. by rewrite dom_delete_L.
    - intros key rec (old & Hk & <-)%close_socket_sessions. by eapply Hp. }
  case_if; [|done]. eapply agree_steady; [apply push_work_steady| |done].
  by apply same_streams_effective, push_work_same.
Qed.

Lemma owner_close_socket_evolves o socket_id now :
  evolves o (owner_close_socket o socket_id now).
Proof.
  unfold owner_close_socket. destruct (sockets _ !! _); [|done].
  case_if; [|by apply evolves_quiet]. etrans; [|apply push_work_steady]. by apply evolves_quiet.
Qed.

Lemma owner_close_socket_gone o socket_id now :
  agree o -> o_screen (owner_close_socket o socket_id now) !! socket_id = None.
Proof.
  intros [Hc Hs Hp]. unfold owner_close_socket.
  destruct (sockets (o_registry o) !! socket_id) as [so|] eqn:Hso.
  - case_if; cbn; apply lookup_delete_eq.
  - apply not_elem_of_dom. rewrite Hs. by apply not_elem_of_dom.
Qed.

(** Registering a socket that has no transport yet. *)
Lemma attach_register_agree o socket_id transport viewer_key fingerprint now :
  agree o -> device_of viewer_key = fingerprint ->
  agree (owner_register_socket (screen_attach o socket_id transport) socket_id viewer_key
           fingerprint now).
Proof.
  intros [Hc Hs Hp] Hdev. split;
    cbn [owner_register_socket screen_attach with_registry with_screen o_registry o_screen].
  - apply register_socket_consistent; [done|]. by intros ? [= <-].
  - unfold register_socket. cbn. rewrite !dom_insert_L, Hs. unfold close_socket.
    destruct (sockets (o_registry o) !! socket_id); [|done]. cbn. rewrite dom_delete_L.
    apply set_eq. intros x. rewrite !elem_of_union, elem_of_difference, elem_of_singleton.
    destruct (decide (x = socket_id)); tauto.
  - intros key rec Hk. unfold register_socket in Hk. cbn in Hk.
    apply close_socket_sessions in Hk as (old & Hk & <-). by eapply Hp.
Qed.

Lemma device_of_app device tab :
  device_of (device +:+ ":" +:+ tab) = device_of (device +:+ ":").
Proof.
  induction device as [|c device IH]; [done|].
  change (device_of (String c (device +:+ ":" +:+ tab)) = device_of (String c (device +:+ ":"))).
  cbn [device_of]. case_if; [done|]. by rewrite IH.
Qed.

Lemma register_local_agree o socket_id device tab scope now :
  agree o -> device_of (device +:+ ":") = device ->
  agree (register_local o socket_id device tab scope now).
Proof.
  intros Ha Hdev. unfold register_local.
  eapply agree_steady; [apply push_work_steady|by apply same_streams_effective, push_work_same|].
  apply attach_register_agree; [by apply owner_close_socket_agree|].
  by rewrite device_of_app.
Qed.

Lemma register_local_evolves o socket_id device tab scope now :
  evolves o (register_local o socket_id device tab scope now).
Proof.
  unfold register_local. etrans; [|apply push_work_steady].
  etrans; [apply (owner_close_socket_evolves _ socket_id now)|]. by apply evolves_quiet.
Qed.

Lemma ensure_agree o socket_id viewer_key fingerprint now :
  agree o -> device_of viewer_key = fingerprint ->
  agree (ensure_coordinator_socket o socket_id viewer_key fingerprint now).
Proof.
  intros Ha Hdev. unfold ensure_coordinator_socket.
  destruct (o_screen o !! socket_id); [done|by apply attach_register_agree].
Qed.

Lemma ensure_evolves o socket_id viewer_key fingerprint now :
  evolves o (ensure_coordinator_socket o socket_id viewer_key fingerprint now).
Proof.
  unfold ensure_coordinator_socket. destruct (o_screen o !! socket_id); [done|].
  by apply evolves_quiet.
Qed.

Lemma drop_coordinator_agree o sessions now :
  agree o -> agree (drop_coordinator_sockets o sessions now).
Proof.
  intros Ha. unfold drop_coordinator_sockets.
  eapply agree_steady; [apply fold_steady, mark_projection_steady|
    apply same_streams_effective, fold_same, mark_projection_same|].
  generalize (coordinator_socket_ids o) as l. intros l. revert o Ha.
  induction l as [|id l IH]; intros o Ha; [done|]. cbn [foldl]. by apply IH, owner_close_socket_agree.
Qed.

Lemma drop_coordinator_evolves o sessions now :
  evolves o (drop_coordinator_sockets o sessions now).
Proof.
  unfold drop_coordinator_sockets. etrans; [|apply fold_steady, mark_projection_steady].
  generalize (coordinator_socket_ids o) as l. intros l. revert o.
  induction l as [|id l IH]; intros o; [done|]. cbn [foldl].
  etrans; [apply owner_close_socket_evolves|apply IH].
Qed.

Lemma owner_close_session_agree o s : agree o -> agree (owner_close_session o s).
Proof.
  intros [Hc Hs Hp]. unfold owner_close_session.
  pose proof (close_session_consistent (o_registry o) s Hc) as Hc'.
  pose proof (fun key => close_session_views (o_registry o) s key Hc) as Hv.
  assert (Hd : dom (sockets (fst (close_session (o_registry o) s))) = dom (sockets (o_registry o)))
    by (rewrite close_session_fst; apply drop_all_dom).
  destruct (close_session (o_registry o) s) as [r outcome]. cbn [fst] in *.
  set (o1 := deliver_calls _ _).
  assert (Er : o_registry o1 = r) by by unfold o1; rewrite (sd_registry _ _ (deliver_calls_steady _ _)).
  assert (Ee : same_effective o o1)
    by (intros s'; apply (same_streams_effective _ _ (deliver_calls_same (with_registry o r) _))).
  pose proof (close_stream_steady o1 s) as [_ Er' Es']. split; rewrite ?Er', ?Es', ?Er; [done| |].
  - unfold o1. rewrite (sd_screen _ _ (deliver_calls_steady _ _)). cbn. by rewrite Hs, Hd.
  - intros key rec Hk. rewrite Hv in Hk.
    destruct (views (o_registry o) !! key) as [rec0|] eqn:Hk0; [|done]. cbn in Hk.
    destruct (String.eqb_spec (rec_session rec0) s) as [|Hne]; [done|].
    injection Hk as <-. pose proof (Hp _ _ Hk0) as Hpaint. rewrite <- Ee in Hpaint.
    unfold close_stream. destruct (o_streams o1 !! s); [|done].
    rewrite (same_streams_effective _ _ (mark_projection_same _ s)). unfold effective_of in *.
    cbn [with_streams o_streams]. by rewrite lookup_delete_ne.
Qed.

Lemma owner_close_session_evolves o s : evolves o (owner_close_session o s).
Proof.
  unfold owner_close_session. destruct (close_session (o_registry o) s) as [r outcome].
  etrans; [apply with_registry_evolves|].
  etrans; [apply deliver_calls_steady|]. apply close_stream_steady.
Qed.

Lemma sweep_now_agree o keys now :
  agree o -> keys ≡ₚ (map_to_list (views (o_registry o))).*1 -> agree (sweep_now mint o keys now).
Proof.
  intros [Hc Hs Hp] Hkeys. unfold sweep_now.
  pose proof (sweep_consistent (o_registry o) keys now Hc) as Hc'.
  pose proof (sweep_dom (o_registry o) keys now) as Hd.
  assert (Hv : forall key rec, views (fst (sweep (o_registry o) keys now)) !! key = Some rec ->
            exists old, views (o_registry o) !! key = Some old /\ rec_session old = rec_session rec).
  { destruct (sweep_fold now keys (o_registry o) no_outcome Hc) as (_ & Hf & _).
    intros key rec. unfold sweep. destruct (foldl _ _ keys) as [r' o']. cbn in Hf |- *.
    rewrite Hf. case_decide; [|eauto].
    destruct (views (o_registry o) !! key) as [rec0|]; [|done]. cbn.
    intros Hr. exists rec0. split; [done|]. by apply sweep_record_idem in Hr as (_ & _ & ->). }
  destruct (sweep (o_registry o) keys now) as [r outcome]. cbn [fst] in *.
  set (o1 := deliver_calls _ _).
  assert (Er : o_registry o1 = r) by by unfold o1; rewrite (sd_registry _ _ (deliver_calls_steady _ _)).
  assert (Ee : same_effective o o1)
    by (intros s'; apply (same_streams_effective _ _ (deliver_calls_same (with_registry o r) _))).
  pose proof (recompute_all_steady o1 (changed outcome) now) as [_ Er' Es'].
  split; rewrite ?Er', ?Es', ?Er; [done| |].
  - unfold o1. rewrite (sd_screen _ _ (deliver_calls_steady _ _)). cbn. by rewrite Hs, Hd.
  - rewrite <- Er. apply recompute_all_paints; rewrite Er; [done|].
    intros key rec (old & Hk & <-)%Hv. left. rewrite Ee. by eapply Hp.
Qed.

Lemma sweep_now_evolves o keys now : evolves o (sweep_now mint o keys now).
Proof.
  unfold sweep_now. destruct (sweep (o_registry o) keys now) as [r outcome].
  etrans; [apply with_registry_evolves|].
  etrans; [apply deliver_calls_steady|]. apply recompute_all_steady.
Qed.

Lemma dispose_agree o : agree (dispose o).
Proof.
  split; cbn; [apply new_consistent|by rewrite !dom_empty_L|].
  intros key rec. by rewrite lookup_empty.
Qed.

Lemma dispose_evolves o : evolves o (dispose o).
Proof.
  split; [|done]. intros owed [F1 F2]. split; cbn; [done|]. intros Hf.
  rewrite app_assoc. apply elem_of_app. left. auto.
Qed.

End OwnerSteps.
