(* ===== verification/TerminalViewOwnerSystem.v ===== *)
(** * TerminalViewOwnerSystem: the owner as a transition system

    The threads that reach the worker's terminal view owner, as atomic steps:
    a decision is taken under the lock and its effects become owed; an owed
    effect is performed at any later moment, in any order, so every
    interleaving of the threads in [TerminalViewOwner::run] is covered; an
    apply handed to the session layer resolves at any moment, with any result.
    [sys_last] is ghost state: the last apply that settled in each incarnation
    of a stream, and whether it committed. *)
From Stdlib Require Import Ascii String.
From S2P Require Export TerminalViewOwnerRuns.

(** The entry points of [mod.rs]. *)
Inductive OwnerDecision :=
| RegisterLocal (socket_id device_fingerprint tab_id : string) (scope : string -> bool) (now_ms : Z)
| HandleRelay (socket_id viewer_key fingerprint : string) (command : RelayCommand) (now_ms : Z)
| HandleViewCommand (socket_id : string) (command : TerminalViewCommand) (now_ms : Z)
| HandleResync (socket_id : string) (command : TerminalResyncCommand)
| CloseSocket (socket_id : string) (now_ms : Z)
| DropCoordinatorSockets (sessions : list SessionId) (now_ms : Z)
| CloseSession (session_id : SessionId)
| SweepNow (keys : list string) (now_ms : Z)
| Dispose.

Record System := mkSystem {
  sys_owner : OwnerState;
  sys_owed : list Deferred;
  sys_pending : list StreamApply;
  sys_last : gmap nat (StreamApply * bool);
}.

Definition System_new : System := mkSystem OwnerState_new [] [] ∅.

(** The applies decided and not resolved. *)
Definition outstanding (sy : System) : list StreamApply :=
  sys_pending sy ++ applies (sys_owed sy).

(** The lock is released: what the decision recorded is owed. *)
Definition release_work (sy : System) : System :=
  mkSystem (with_work (sys_owner sy) []) (sys_owed sy ++ o_work (sys_owner sy))
    (sys_pending sy) (sys_last sy).

Section System.
Context (mint : nat -> result string string).

Definition take_decision (o : OwnerState) (d : OwnerDecision) : OwnerState :=
  match d with
  | RegisterLocal socket_id device tab scope now => register_local o socket_id device tab scope now
  | HandleRelay socket_id viewer_key fingerprint command now =>
      handle_relay mint o socket_id viewer_key fingerprint command now
  | HandleViewCommand socket_id command now => view_command mint o socket_id command now
  | HandleResync socket_id command => resync o socket_id command
  | CloseSocket socket_id now => owner_close_socket o socket_id now
  | DropCoordinatorSockets sessions now => drop_coordinator_sockets o sessions now
  | CloseSession session_id => owner_close_session o session_id
  | SweepNow keys now => sweep_now mint o keys now
  | Dispose => dispose o
  end.

(** What the callers guarantee: a viewer key starts with the fingerprint of
    the device it was authenticated for, the clock (nanoseconds over a million)
    is far from the end of its range, and a map's keys are enumerated once. *)
Definition decision_sound (o : OwnerState) (d : OwnerDecision) : Prop :=
  match d with
  | RegisterLocal _ device _ _ _ => device_of (device +:+ ":") = device
  | HandleRelay _ viewer_key fingerprint _ now =>
      device_of viewer_key = fingerprint /\ now < 2 ^ 64 - 1
  | HandleViewCommand _ _ now => now < 2 ^ 64 - 1
  | DropCoordinatorSockets sessions _ => sessions ≡ₚ (map_to_list (o_streams o)).*1
  | SweepNow keys _ => keys ≡ₚ (map_to_list (views (o_registry o))).*1
  | HandleResync _ _ | CloseSocket _ _ | CloseSession _ | Dispose => True
  end.

Definition decided (sy : System) (d : OwnerDecision) : System :=
  release_work (mkSystem (take_decision (sys_owner sy) d) (sys_owed sy) (sys_pending sy)
                  (sys_last sy)).

(** [effect] is performed, [rest] stays owed. *)
Definition performed (sy : System) (current : SessionId -> option string) (now_ms : Z)
    (effect : Deferred) (rest : list Deferred) : System :=
  mkSystem (run_effect current now_ms (sys_owner sy) effect) rest
    (match effect with Apply apply => sys_pending sy ++ [apply] | _ => sys_pending sy end)
    (sys_last sy).

(** [apply] resolves to [result], [rest] stays with the session layer. *)
Definition finished (sy : System) (apply : StreamApply) (result : WorkerStreamResult)
    (rest : list StreamApply) : System :=
  release_work
    (mkSystem (finish_apply mint (sys_owner sy) apply result) (sys_owed sy) rest
       (if apply_is_current (sys_owner sy) apply
        then <[ap_incarnation apply := (apply, committed result)]> (sys_last sy)
        else sys_last sy)).

Inductive sys_step : System -> System -> Prop :=
| StepDecide sy d :
    decision_sound (sys_owner sy) d -> sys_step sy (decided sy d)
| StepPerform sy current now effect rest :
    sys_owed sy ≡ₚ effect :: rest -> sys_step sy (performed sy current now effect rest)
| StepFinish sy apply result rest :
    sys_pending sy ≡ₚ apply :: rest -> sys_step sy (finished sy apply result rest).

Definition sys_reachable : System -> Prop := rtc sys_step System_new.

(** Nothing more is asked of the owner: owed effects are performed, and every
    apply commits. *)
Inductive settling_step : System -> System -> Prop :=
| SettlePerform sy current now effect rest :
    sys_owed sy ≡ₚ effect :: rest -> settling_step sy (performed sy current now effect rest)
| SettleFinish sy apply rest :
    sys_pending sy ≡ₚ apply :: rest -> settling_step sy (finished sy apply Committed rest).

(** ** The invariant *)

Record system_ok (sy : System) : Prop := {
  sy_work : o_work (sys_owner sy) = [];
  sy_streams : streams_ok mint None None (outstanding sy) (sys_last sy) (sys_owner sy);
  sy_flush : flush_ok (sys_owed sy) (sys_owner sy);
  sy_agree : agree (sys_owner sy);
}.

Lemma of_incarnation_perm n l k : l ≡ₚ k -> of_incarnation n l ≡ₚ of_incarnation n k.
Proof. intros H. unfold of_incarnation. by rewrite H. Qed.

Lemma single_flight_perm idle l k s st :
  l ≡ₚ k -> single_flight idle l s st -> single_flight idle k s st.
Proof.
  intros H%(of_incarnation_perm (st_incarnation st)). unfold single_flight.
  destruct (st_in_flight st).
  - intros (a & Ha & ?). exists a. split; [|done]. rewrite Ha in H.
    by apply Permutation_singleton_l in H.
  - intros [? Ha]. split; [done|]. rewrite Ha in H. by apply Permutation_nil in H.
Qed.

(** The outstanding applies count, not their order nor who holds them. *)
Lemma streams_ok_perm idle skip rest rest' last o o' :
  o_streams o' = o_streams o -> o_mints o' = o_mints o ->
  o_incarnations o' = o_incarnations o ->
  rest ++ applies (o_work o) ≡ₚ rest' ++ applies (o_work o') ->
  streams_ok mint idle skip rest last o -> streams_ok mint idle skip rest' last o'.
Proof.
  intros E1 E2 E3 Hp [H1 H2 H3 H4 H5 H6]. split; rewrite ?E1, ?E2, ?E3; try done.
  - intros s st Hs. eapply single_flight_perm; [exact Hp|eauto].
  - intros s st Hs Hsk g Hg Hu. specialize (H3 _ _ Hs Hsk g Hg Hu).
    destruct (st_latest st); [done|]. destruct (st_in_flight st); [|done].
    intros a Ha. apply H3. by rewrite (of_incarnation_perm _ _ _ Hp).
  - by rewrite <- Hp.
Qed.

Lemma release_work_ok sy :
  streams_ok mint None None (outstanding sy) (sys_last sy) (sys_owner sy) ->
  flush_ok (sys_owed sy) (sys_owner sy) -> agree (sys_owner sy) -> system_ok (release_work sy).
Proof.
  intros Hs Hf [A1 A2 A3]. split; [done| | |by split].
  - apply (streams_ok_perm _ _ (outstanding sy) _ _ (sys_owner sy)); [done|done|done| |done].
    unfold outstanding. cbn.
    by rewrite applies_app, app_nil_r, app_assoc.
  - destruct Hf as [F1 F2]. split; cbn; [exact F1|]. by rewrite app_nil_r.
Qed.

Lemma take_decision_ok rest last o d (mint_inj : forall i j id, mint i = Ok id -> mint j = Ok id -> i = j) :
  streams_ok mint None None rest last o ->
  streams_ok mint None None rest last (take_decision o d).
Proof.
  intros Hok. destruct d; cbn [take_decision].
  - eapply same_streams_ok; [apply register_local_same|done].
  - unfold handle_relay. case_if; [done|].
    assert (H1 : streams_ok mint None None rest last
                   (ensure_coordinator_socket o socket_id viewer_key fingerprint now_ms))
      by (eapply same_streams_ok; [apply ensure_same|done]).
    destruct command; [by apply view_command_ok|].
    eapply same_streams_ok; [apply resync_same|done].
  - by apply view_command_ok.
  - eapply same_streams_ok; [apply resync_same|done].
  - eapply same_streams_ok; [apply owner_close_socket_same|done].
  - eapply same_streams_ok; [apply drop_coordinator_same|done].
  - unfold owner_close_session. destruct (close_session (o_registry o) session_id) as [r outcome].
    apply close_stream_ok. eapply same_streams_ok; [apply deliver_calls_same|].
    eapply same_streams_ok; [|exact Hok]. done.
  - unfold sweep_now. destruct (sweep (o_registry o) keys now_ms) as [r outcome].
    apply recompute_all_ok; [done|]. eapply same_streams_ok; [apply deliver_calls_same|].
    eapply same_streams_ok; [|exact Hok]. done.
  - by apply dispose_ok.
Qed.

Lemma take_decision_agree o d :
  decision_sound o d -> agree o -> agree (take_decision o d).
Proof.
  intros Hd Ha. destruct d; cbn [take_decision decision_sound] in *.
  - by apply register_local_agree.
  - destruct Hd as [Hdev Hnow]. unfold handle_relay. case_if; [done|].
    assert (H1 : agree (ensure_coordinator_socket o socket_id viewer_key fingerprint now_ms))
      by by apply ensure_agree.
    destruct command; [by apply view_command_agree|by apply resync_agree].
  - by apply view_command_agree.
  - by apply resync_agree.
  - by apply owner_close_socket_agree.
  - by apply drop_coordinator_agree.
  - by apply owner_close_session_agree.
  - by apply sweep_now_agree.
  - apply dispose_agree.
Qed.

Lemma handle_relay_evolves o socket_id viewer_key fingerprint command now :
  evolves o (handle_relay mint o socket_id viewer_key fingerprint command now).
Proof.
  unfold handle_relay. case_if; [done|].
  etrans; [apply (ensure_evolves _ socket_id viewer_key fingerprint now)|].
  destruct command; [apply view_command_evolves|apply resync_evolves].
Qed.

Lemma take_decision_evolves o d : evolves o (take_decision o d).
Proof.
  destruct d; cbn [take_decision].
  - apply register_local_evolves.
  - apply handle_relay_evolves.
  - apply view_command_evolves.
  - apply resync_evolves.
  - apply owner_close_socket_evolves.
  - apply drop_coordinator_evolves.
  - apply owner_close_session_evolves.
  - apply sweep_now_evolves.
  - apply dispose_evolves.
Qed.

(** What performing an effect leaves alone. *)
Record effect_frame (o o' : OwnerState) : Prop := {
  ef_same : same_streams o o';
  ef_work : o_work o' = o_work o;
  ef_registry : o_registry o' = o_registry o;
  ef_screen : dom (o_screen o') = dom (o_screen o);
}.

Lemma request_full_frame o socket_id s stream_id :
  effect_frame o (request_full o socket_id s stream_id)
  /\ o_dirty (request_full o socket_id s stream_id) = o_dirty o
  /\ o_flush_scheduled (request_full o socket_id s stream_id) = o_flush_scheduled o.
Proof. split; [|done]. split; try done. cbn. by rewrite dom_alter_L. Qed.

Lemma run_effect_frame current now o effect : effect_frame o (run_effect current now o effect).
Proof.
  assert (Hrefl : effect_frame o o) by by split.
  assert (Hseed : forall id s, effect_frame o (seed_socket current o id s)).
  { intros id s. unfold seed_socket. case_if; [done|]. destruct (current s); [|done].
    apply request_full_frame. }
  destruct effect; cbn [run_effect]; try done; [by case_if| |].
  - unfold resync_socket. destruct (o_screen o !! socket_id); [|done].
    destruct (current session_id); [|done]. apply request_full_frame.
  - unfold flush_projections. cbn. by destruct (o_disposed o).
Qed.

Lemma run_effect_dirty current now o effect :
  effect <> FlushProjections ->
  o_dirty (run_effect current now o effect) = o_dirty o
  /\ o_flush_scheduled (run_effect current now o effect) = o_flush_scheduled o.
Proof.
  intros Hne.
  assert (Hseed : forall id s, o_dirty (seed_socket current o id s) = o_dirty o
            /\ o_flush_scheduled (seed_socket current o id s) = o_flush_scheduled o).
  { intros id s. unfold seed_socket. case_if; [done|]. destruct (current s); [|done].
    apply request_full_frame. }
  destruct effect; cbn [run_effect]; try done; [by case_if|].
  unfold resync_socket. destruct (o_screen o !! socket_id); [|done].
  destruct (current session_id); [|done]. apply request_full_frame.
Qed.

Lemma run_effect_flush current now o effect owed rest :
  owed ≡ₚ effect :: rest -> o_work o = [] -> flush_ok owed o ->
  flush_ok rest (run_effect current now o effect).
Proof.
  intros Hp Hw [F1 F2]. unfold flush_ok.
  rewrite (ef_work _ _ (run_effect_frame current now o effect)), Hw, app_nil_r.
  rewrite Hw, app_nil_r in F2.
  assert (effect = FlushProjections \/ effect <> FlushProjections) as [->|Hne]
    by (destruct effect; auto; by right).
  - cbn [run_effect]. unfold flush_projections. cbn. by destruct (o_disposed o).
  - destruct (run_effect_dirty current now o effect Hne) as [-> ->]. split; [done|].
    intros Hf%F2. rewrite Hp in Hf. apply elem_of_cons in Hf as [Hf|?]; [congruence|done].
Qed.

Lemma applies_perm l k : l ≡ₚ k -> applies l ≡ₚ applies k.
Proof. intros H. unfold applies. by rewrite H. Qed.

Lemma performed_outstanding sy current now effect rest :
  sys_owed sy ≡ₚ effect :: rest ->
  outstanding sy ≡ₚ outstanding (performed sy current now effect rest).
Proof.
  intros Hp%applies_perm. unfold outstanding. rewrite Hp. cbn [performed sys_pending sys_owed].
  destruct effect; try done. change (applies (Apply apply :: rest)) with (apply :: applies rest).
  by rewrite <- app_assoc.
Qed.

Lemma performed_ok sy current now effect rest :
  system_ok sy -> sys_owed sy ≡ₚ effect :: rest ->
  system_ok (performed sy current now effect rest).
Proof.
  intros [Hw Hs Hf Ha] Hp. pose proof (run_effect_frame current now (sys_owner sy) effect) as E.
  destruct E as [[S1 S2 S3 S4] E2 E3 E4]. split.
  - by rewrite <- Hw.
  - eapply (streams_ok_perm _ _ _ _ _ (sys_owner sy)); [done|done|done| |exact Hs].
    cbn [performed sys_owner]. by rewrite S4, (performed_outstanding _ current now _ _ Hp).
  - by eapply run_effect_flush.
  - destruct Ha as [A1 A2 A3]. split; cbn [performed sys_owner]; rewrite ?E3, ?E4; [done|done|].
    intros key record Hk. rewrite (same_streams_effective (sys_owner sy)); [by eapply A3|by split].
Qed.

Context (mint_inj : forall i j id, mint i = Ok id -> mint j = Ok id -> i = j).

Lemma decided_ok sy d : decision_sound (sys_owner sy) d -> system_ok sy -> system_ok (decided sy d).
Proof using mint_inj.
  intros Hd [Hw Hs Hf Ha]. apply release_work_ok; cbn [sys_owner sys_owed sys_last].
  - by apply take_decision_ok.
  - by apply (ev_flush _ _ (take_decision_evolves _ d)).
  - by apply take_decision_agree.
Qed.

Lemma finished_ok sy apply result rest :
  sys_pending sy ≡ₚ apply :: rest -> system_ok sy -> system_ok (finished sy apply result rest).
Proof using mint_inj.
  intros Hp [Hw Hs Hf Ha]. apply release_work_ok; cbn [sys_owner sys_owed sys_last].
  - apply finish_apply_ok; [done|].
    eapply (streams_ok_perm _ _ _ _ _ (sys_owner sy)); [done|done|done| |exact Hs].
    unfold outstanding. cbn. by rewrite Hp.
  - by apply (ev_flush _ _ (sd_evolves _ _ (finish_apply_steady mint _ apply result))).
  - eapply agree_steady; [apply finish_apply_steady|apply finish_apply_effective|done].
Qed.

Lemma system_new_ok : system_ok System_new.
Proof.
  split; [done| | |].
  - split; cbn; try (intros ? ?; by rewrite lookup_empty). constructor.
  - by split.
  - split; cbn; [apply new_consistent|by rewrite !dom_empty_L|].
    intros key rec. by rewrite lookup_empty.
Qed.

Lemma sys_step_ok sy sy' : sys_step sy sy' -> system_ok sy -> system_ok sy'.
Proof using mint_inj.
  intros [sy0 d ?|sy0 current now effect rest ?|sy0 apply result rest ?] Hok.
  - by apply decided_ok.
  - by apply performed_ok.
  - by apply finished_ok.
Qed.

Lemma reachable_ok sy : sys_reachable sy -> system_ok sy.
Proof using mint_inj.
  intros H. pose proof system_new_ok as Hok. unfold sys_reachable in H.
  induction H as [|? ? ? Hstep _ IH]; [done|]. by apply IH, (sys_step_ok _ _ Hstep).
Qed.

(** ** Settling terminates *)

(** The sessions whose desire waits behind an apply. *)
Definition waiting (o : OwnerState) : gset SessionId :=
  dom (filter (fun kv => st_latest (snd kv) <> None) (o_streams o)).

Definition effect_weight (effect : Deferred) : nat :=
  match effect with Apply _ => 2 | _ => 1 end.

(** A waiting desire is worth the apply it will become, an owed apply the
    performance and the resolution it needs. *)
Definition unsettled_work (sy : System) : nat :=
  3 * size (waiting (sys_owner sy)) + sum_list_with effect_weight (sys_owed sy)
  + length (sys_pending sy).

Lemma elem_of_waiting o s :
  s ∈ waiting o <-> exists st, o_streams o !! s = Some st /\ st_latest st <> None.
Proof.
  unfold waiting. rewrite elem_of_dom. split.
  - intros [st [??]%map_lookup_filter_Some]. by exists st.
  - intros (st & ? & ?). exists st. by apply map_lookup_filter_Some.
Qed.

Lemma waiting_cleared o apply :
  waiting (update_stream o (ap_session_id apply) (cleared apply)) = waiting o.
Proof.
  assert (Hl : forall st, st_latest (cleared apply st) = st_latest st)
    by (intros st; unfold cleared; by case_bool_decide).
  apply set_eq. intros s. rewrite !elem_of_waiting. cbn [update_stream with_streams o_streams].
  setoid_rewrite lookup_alter_Some. split.
  - intros (st & [(<- & x & ? & ->)|[? ?]] & ?); [exists x; by rewrite <- (Hl x)|by exists st].
  - intros (st & ? & ?). destruct (decide (ap_session_id apply = s)) as [->|];
      [|by exists st; auto].
    exists (cleared apply st). rewrite Hl. split; [|done]. left. eauto.
Qed.

(** Driving a stream either does nothing, or turns its waiting desire into one
    owed apply. *)
Lemma drive_waiting o s :
  drive o s = o
  \/ (s ∈ waiting o /\ waiting (drive o s) = waiting o ∖ {[s]}
      /\ exists apply, o_work (drive o s) = o_work o ++ [Apply apply]).
Proof.
  unfold drive. destruct (o_streams o !! s) as [st|] eqn:Hs; [|by left].
  destruct (st_in_flight st) eqn:Hif; [by left|].
  destruct (st_latest st) as [d|] eqn:Hl; [|by left]. right. split; [|split].
  - apply elem_of_waiting. exists st. by rewrite Hl.
  - apply set_eq. intros s'. rewrite elem_of_difference, elem_of_singleton, !elem_of_waiting.
    cbn [push_work with_work update_stream with_streams o_streams].
    setoid_rewrite lookup_alter_Some. split.
    + intros (st' & [(<- & x & ? & ->)|[? ?]] & Hne); [done|]. split; [by exists st'|done].
    + intros [(st' & ? & ?) ?]. exists st'. auto.
  - by eexists.
Qed.

Lemma finish_apply_weight o apply :
  o_work o = [] ->
  (3 * size (waiting (finish_apply mint o apply Committed))
   + sum_list_with effect_weight (o_work (finish_apply mint o apply Committed))
   <= 3 * size (waiting o))%nat.
Proof.
  intros Hw. unfold finish_apply. case_if; [by rewrite Hw; cbn; lia|].
  assert (Hc : classify mint o apply Committed = o).
  { unfold classify. destruct (o_streams o !! _); [|done]. by case_if. }
  rewrite Hc. case_if; [by rewrite Hw; cbn; lia|]. fold (cleared apply).
  set (o1 := update_stream o (ap_session_id apply) (cleared apply)).
  assert (Hw1 : o_work o1 = []) by done.
  assert (H1 : waiting o1 = waiting o) by apply waiting_cleared.
  destruct (_ ≫= st_latest); [|by rewrite H1, Hw1; cbn; lia].
  destruct (drive_waiting o1 (ap_session_id apply)) as [->|(Hin & -> & [a ->])].
  - rewrite H1, Hw1. cbn. lia.
  - rewrite Hw1. rewrite H1 in *. cbn [app sum_list_with effect_weight].
    pose proof (size_difference (waiting o) {[ap_session_id apply]} ltac:(set_solver)) as Hd.
    rewrite size_singleton in Hd.
    assert (1 <= size (waiting o))%nat.
    { rewrite <- (size_singleton (C := gset SessionId) (ap_session_id apply)). apply subseteq_size.
      set_solver. }
    lia.
Qed.

Lemma sum_weight_perm l k :
  l ≡ₚ k -> sum_list_with effect_weight l = sum_list_with effect_weight k.
Proof. induction 1; cbn; lia. Qed.

Lemma settling_decreases sy sy' :
  system_ok sy -> settling_step sy sy' -> (unsettled_work sy' < unsettled_work sy)%nat.
Proof.
  intros Hok Hstep. pose proof (sy_work _ Hok) as Hw. destruct Hstep as [sy current now effect rest Hp|sy apply rest Hp].
  - unfold unsettled_work. rewrite (sum_weight_perm _ _ Hp). cbn [performed sys_owner sys_owed sys_pending].
    assert (E : waiting (run_effect current now (sys_owner sy) effect) = waiting (sys_owner sy)).
    { unfold waiting.
      by rewrite (ss_streams _ _ (ef_same _ _ (run_effect_frame current now (sys_owner sy) effect))). }
    rewrite E. destruct effect; cbn; rewrite ?length_app; cbn; lia.
  - unfold unsettled_work. rewrite (Permutation_length Hp). cbn [length].
    pose proof (finish_apply_weight (sys_owner sy) apply Hw).
    unfold finished, release_work. cbn [sys_owner sys_owed sys_pending].
    rewrite sum_list_with_app.
    change (waiting (with_work ?o [])) with (waiting o). lia.
Qed.

Lemma settling_is_step sy sy' : settling_step sy sy' -> sys_step sy sy'.
Proof. intros []; by constructor. Qed.

Lemma settling_bounded n sy sy' :
  system_ok sy -> nsteps settling_step n sy sy' ->
  system_ok sy' /\ (n + unsettled_work sy' <= unsettled_work sy)%nat.
Proof using mint_inj.
  intros Hok H. induction H as [|n x y z Hxy _ IH]; [by split; [|lia]|].
  pose proof (settling_decreases _ _ Hok Hxy).
  destruct (IH (sys_step_ok _ _ (settling_is_step _ _ Hxy) Hok)). split; [done|lia].
Qed.
End System.
