(* ===== verification/TerminalViewOwnerGuarantees.v ===== *)
(** * TerminalViewOwnerGuarantees: what the terminal view owner promises

    Which frames reach the socket of a live view: the broadcast of a stream
    decision, the replay of an unavailable stream and the answer of a command
    each end with a frame that names the session's current stream and its
    effective geometry.  Then the properties of [TerminalViewOwnerSystem], over
    every interleaving of decisions, performed effects and resolved applies: one
    apply at a time per stream, nothing stranded, quiet once the session layer
    answers, and every command answered on the socket it came from. *)
From Stdlib Require Import Ascii String.
From S2P Require Export TerminalViewOwnerSystem.

(** What a frame about a session's stream can say. *)
Definition painted (o : OwnerState) (s : SessionId) : option (string * option TerminalGeometry) :=
  (fun st => (st_stream_id st, st_effective st)) <$> o_streams o !! s.

(** Since the [n]th frame, [socket_id] was sent one for [view_id] that names
    the session's stream and geometry as they are now. *)
Definition told (n : nat) (o : OwnerState) (socket_id view_id : string) (s : SessionId)
    (revision : Z) : Prop :=
  exists stream_id g frame, painted o s = Some (stream_id, Some g)
    /\ (socket_id, frame) ∈ drop n (o_sent o)
    /\ vs_view_id frame = view_id /\ vs_session_id frame = s
    /\ vs_revision frame = revision /\ vs_active frame = true
    /\ vs_stream_id frame = stream_id
    /\ vs_effective_cols frame = cols g /\ vs_effective_rows frame = rows g.

Lemma drop_prefix {A} n (l k : list A) x : l `prefix_of` k -> x ∈ drop n l -> x ∈ drop n k.
Proof. intros [extra ->] Hx. rewrite drop_app. apply elem_of_app. by left. Qed.

Lemma told_mono n o o' socket_id view_id s revision :
  o_sent o `prefix_of` o_sent o' -> painted o' s = painted o s ->
  told n o socket_id view_id s revision -> told n o' socket_id view_id s revision.
Proof.
  intros Hp Hs (stream_id & g & frame & ? & Hin & ?). exists stream_id, g, frame.
  rewrite Hs. split; [done|]. split; [by eapply drop_prefix|done].
Qed.

Lemma same_streams_painted o o' s : same_streams o o' -> painted o' s = painted o s.
Proof. intros [E _ _ _]. unfold painted. by rewrite E. Qed.

Lemma update_stream_painted o s f s' :
  (forall st, st_stream_id (f st) = st_stream_id st /\ st_effective (f st) = st_effective st) ->
  painted (update_stream o s f) s' = painted o s'.
Proof.
  intros Hf. unfold painted. cbn [update_stream with_streams o_streams].
  destruct (decide (s' = s)) as [->|]; [|by rewrite lookup_alter_ne].
  rewrite lookup_alter_eq. destruct (o_streams o !! s) as [st|]; [|done]. cbn.
  by destruct (Hf st) as [-> ->].
Qed.

(** The socket can be answered. *)
Definition reachable_socket (o : OwnerState) (socket_id : string) : Prop :=
  is_Some (sockets (o_registry o) !! socket_id) /\ socket_id ∈ dom (o_screen o).

Lemma steady_reachable o o' socket_id :
  steady o o' -> reachable_socket o socket_id -> reachable_socket o' socket_id.
Proof. intros [_ Er Es] [? ?]. unfold reachable_socket. by rewrite Er, Es. Qed.

Lemma reply_view_told n o socket_id view_id s revision status reason stream_id g :
  (n <= length (o_sent o))%nat -> reachable_socket o socket_id ->
  SessionId_try_from s = Some s -> painted o s = Some (stream_id, Some g) ->
  told n (reply_view o (ReplyView socket_id view_id s revision status reason))
    socket_id view_id s revision.
Proof.
  intros Hn [[so Hso] Hscr] Hs Hp. apply elem_of_dom in Hscr as [ow How].
  assert (Hp' := Hp). unfold painted in Hp'.
  destruct (o_streams o !! s) as [st|] eqn:Hst; [|done]. injection Hp' as Hid Hg.
  unfold reply_view. rewrite Hso, Hs. cbn [mbind option_bind]. rewrite Hst, Hg. unfold send.
  rewrite How. eexists stream_id, g, _. split; [exact Hp|]. split.
  - cbn [with_sent o_sent]. rewrite drop_app_le by done. apply elem_of_app. right. by left.
  - cbn. by rewrite Hid.
Qed.

Lemma sent_grows o o' : steady o o' -> (length (o_sent o) <= length (o_sent o'))%nat.
Proof. intros [[_ Hp] _ _]. by apply prefix_length. Qed.

(** A broadcast tells every live view. *)
Lemma broadcast_told n o s status reason key record stream_id g :
  (n <= length (o_sent o))%nat -> consistent (o_registry o) ->
  views (o_registry o) !! key = Some record -> rec_session record = s ->
  rec_parked record = false -> reachable_socket o (rec_socket_id record) ->
  painted o s = Some (stream_id, Some g) ->
  told n (owner_broadcast o s status reason) (rec_socket_id record) (rec_view_id record) s
    (rec_revision record).
Proof.
  intros Hn Hc Hk Hs Hlive Hsock Hp. pose proof (ok_records _ Hc _ _ Hk) as Hok.
  unfold owner_broadcast.
  assert (Hin : ReplyView (rec_socket_id record) (rec_view_id record) s (rec_revision record)
                  status reason ∈ broadcast (o_registry o) s status reason).
  { unfold broadcast. apply list_elem_of_fmap. exists record.
    split; [by rewrite <- Hs|]. apply list_elem_of_filter. split; [done|].
    apply elem_of_records_at; [done|]. by exists key. }
  apply list_elem_of_split in Hin as (l1 & l2 & ->). rewrite foldl_app. cbn [foldl].
  pose proof (fold_steady reply_view l1 o reply_view_steady) as S1.
  pose proof (fold_same reply_view l1 o reply_view_same) as E1. revert S1 E1.
  generalize (foldl reply_view o l1) as o1. intros o1 S1 E1.
  eapply told_mono.
  - apply (ev_sent _ _ (sd_evolves _ _ (fold_steady reply_view l2 _ reply_view_steady))).
  - apply same_streams_painted, fold_same, reply_view_same.
  - apply reply_view_told with (stream_id := stream_id) (g := g).
    + etrans; [exact Hn|by apply sent_grows].
    + by eapply steady_reachable.
    + rewrite <- Hs. apply SessionId_try_from_terminal, Hok.
    + by rewrite (same_streams_painted _ _ _ E1).
Qed.

Section Answers.
Context (mint : nat -> result string string).
(** One live view of a session, and the frames sent before. *)
Context (n : nat) (key : string) (record : ViewRecord).
Local Abbreviation s := (rec_session record).

Record live_view (o : OwnerState) : Prop := {
  lv_sent : (n <= length (o_sent o))%nat;
  lv_registry : consistent (o_registry o);
  lv_record : views (o_registry o) !! key = Some record;
  lv_live : rec_parked record = false;
  lv_socket : reachable_socket o (rec_socket_id record);
}.

Definition told_view (o : OwnerState) : Prop :=
  told n o (rec_socket_id record) (rec_view_id record) s (rec_revision record).

Lemma live_view_steady o o' : steady o o' -> live_view o -> live_view o'.
Proof using Type.
  intros Hs [H1 H2 H3 H4 H5]. pose proof (sent_grows _ _ Hs).
  pose proof (steady_reachable _ _ _ Hs H5). destruct Hs as [_ Er _].
  split; rewrite ?Er; try done. lia.
Qed.

Lemma live_broadcast o status reason g :
  live_view o -> effective_of o s = Some g -> told_view (owner_broadcast o s status reason).
Proof using Type.
  intros [] Hg. unfold effective_of in Hg.
  destruct (o_streams o !! s) as [st|] eqn:Hst; [|done]. cbn in Hg.
  apply (broadcast_told n o s status reason key record (st_stream_id st) g); try done.
  unfold painted. by rewrite Hst, <- Hg.
Qed.

Lemma unavailable_told o message policy g :
  live_view o -> effective_of o s = Some g -> told_view (unavailable o s message policy).
Proof using Type.
  intros Hl Hg. unfold unavailable. assert (Hg' := Hg). unfold effective_of in Hg'.
  destruct (o_streams o !! s) as [st|] eqn:Hst; [|done]. cbn in Hg'. rewrite Hg'.
  apply live_broadcast with (g := g).
  - eapply live_view_steady; [apply update_stream_steady|done].
  - by rewrite update_stream_effective.
Qed.

Lemma drive_painted o s1 s2 : painted (drive o s1) s2 = painted o s2.
Proof using Type.
  unfold drive. destruct (o_streams o !! s1) as [st|]; [|done].
  destruct (st_in_flight st); [done|]. destruct (st_latest st); [|done].
  change (painted (push_work ?e ?o1) s2) with (painted o1 s2).
  by apply update_stream_painted.
Qed.

Lemma desire_told o geometry retry g :
  live_view o -> effective_of o s = Some g -> told_view (desire mint o s geometry retry).
Proof using Type.
  intros Hl Hg. unfold desire.
  assert (Hl1 : live_view (with_mints o (S (o_mints o)))) by (destruct Hl; by split).
  assert (Hg1 : effective_of (with_mints o (S (o_mints o))) s = Some g) by done.
  revert Hl1 Hg1. generalize (with_mints o (S (o_mints o))) as o1. intros o1 Hl1 Hg1.
  destruct (mint (o_mints o)); [|by eapply unavailable_told].
  assert (Hg2 := Hg1). unfold effective_of in Hg2.
  destruct (o_streams o1 !! s) as [st|] eqn:Hst; [|done].
  eapply told_mono; [apply (ev_sent _ _ (sd_evolves _ _ (drive_steady _ s)))|apply drive_painted|].
  apply live_broadcast with (g := g).
  - eapply live_view_steady; [apply update_stream_steady|done].
  - by rewrite update_stream_effective.
Qed.

Lemma recompute_told o now :
  live_view o -> view_constrains record now = true ->
  snd (recompute mint o s now) = true -> told_view (fst (recompute mint o s now)).
Proof using Type.
  intros Hl Hv.
  pose proof (recompute_paints mint o s now key record (lv_registry _ Hl) (lv_record _ Hl) eq_refl
                (or_introl Hv)) as Hp.
  unfold recompute in *. pose proof (stream_entry_steady o s) as Hst.
  apply (live_view_steady _ _ Hst) in Hl. revert Hl Hp. generalize (stream_entry o s) as o1.
  intros o1 Hl Hp. set (set := registry_geometry_set _ _ _) in *.
  case_if; [done|]. destruct (minimum_terminal_geometry _) as [g|]; [|done].
  case_if; [done|]. cbn [fst snd] in *. intros _.
  eapply told_mono; [apply (ev_sent _ _ (sd_evolves _ _ (mark_projection_steady _ s)))|
    apply same_streams_painted, mark_projection_same|].
  rewrite (same_streams_effective _ _ (mark_projection_same _ s)), desire_effective in Hp.
  destruct Hp as [g' Hp]. apply desire_told with (g := g'); [|done].
  eapply live_view_steady; [apply update_stream_steady|done].
Qed.

(** Recomputing one session leaves every other's stream alone. *)
Lemma recompute_apart o s1 now s2 :
  s1 <> s2 -> painted (fst (recompute mint o s1 now)) s2 = painted o s2.
Proof using Type.
  intros Hne.
  assert (Hup : forall o f, painted (update_stream o s1 f) s2 = painted o s2)
    by (intros; unfold painted; cbn; by rewrite lookup_alter_ne).
  assert (Hmark : forall o, painted (mark_projection o s1) s2 = painted o s2)
    by (intros; apply same_streams_painted, mark_projection_same).
  assert (Hbr : forall o status reason, painted (owner_broadcast o s1 status reason) s2 = painted o s2)
    by (intros; apply same_streams_painted, owner_broadcast_same).
  assert (Hent : painted (stream_entry o s1) s2 = painted o s2).
  { unfold stream_entry. destruct (o_streams o !! s1); [done|]. unfold painted. cbn.
    by rewrite lookup_insert_ne. }
  unfold recompute. rewrite <- Hent. generalize (stream_entry o s1) as o1. intros o1.
  case_if; [apply Hmark|]. destruct (minimum_terminal_geometry _) as [g|]; [|done].
  case_if; [apply Hmark|]. cbn [fst]. rewrite Hmark. unfold desire.
  destruct (mint _).
  - destruct (o_streams (with_mints _ _) !! s1); [|apply Hup].
    rewrite drive_painted, Hbr, Hup. apply Hup.
  - unfold unavailable. destruct (o_streams (with_mints _ _) !! s1) as [st|]; [|apply Hup].
    destruct (st_effective st); [|apply Hup]. rewrite Hbr, Hup. apply Hup.
Qed.

(** Where a recomputation says the decision was broadcast, it was. *)
Lemma recompute_all_told o sessions now :
  live_view o -> view_constrains record now = true ->
  snd (recompute_all mint o sessions now) !! s = Some true ->
  told_view (fst (recompute_all mint o sessions now)).
Proof using Type.
  intros Hl Hv. unfold recompute_all. generalize (btree sessions) as l. intros l.
  assert (Hinit : (∅ : gmap SessionId bool) !! s = Some true -> told_view o)
    by by rewrite lookup_empty.
  revert Hinit. generalize (∅ : gmap SessionId bool) as m. revert o Hl.
  induction l as [|s1 l IH]; intros o Hl m Hm; [exact Hm|]. cbn [foldl].
  unfold recompute_step at 2 4. pose proof (recompute_told o now Hl Hv) as Ht.
  pose proof (recompute_steady mint o s1 now) as Hs1. pose proof (recompute_apart o s1 now s) as Ha.
  destruct (recompute mint o s1 now) as [o1 b] eqn:Hr. cbn [fst] in *.
  apply IH; [by eapply live_view_steady|]. intros [[-> ->]|[Hne Hb]]%lookup_insert_Some.
  - rewrite Hr in Ht. by apply Ht.
  - eapply told_mono; [apply (ev_sent _ _ (sd_evolves _ _ Hs1))|by apply Ha|by apply Hm].
Qed.

(** The answer to an accepted command reaches its view. *)
Lemma finish_reply_told o path broadcast status reason g :
  live_view o -> effective_of o s = Some g ->
  (broadcast = true -> told_view o) ->
  told_view (finish_reply mint o
    (ReplyView (rec_socket_id record) (rec_view_id record) s (rec_revision record) status reason)
    path broadcast (Some s)).
Proof using Type.
  intros Hl Hg Hb. assert (Hg' := Hg). unfold effective_of in Hg'.
  destruct (o_streams o !! s) as [st|] eqn:Hst; [|done]. cbn in Hg'.
  assert (Hp : painted o s = Some (st_stream_id st, Some g)) by (unfold painted; by rewrite Hst, <- Hg').
  assert (Hview : forall status reason, told_view (reply_view o
    (ReplyView (rec_socket_id record) (rec_view_id record) s (rec_revision record) status reason))).
  { intros. pose proof (ok_records _ (lv_registry _ Hl) _ _ (lv_record _ Hl)) as Hok.
    eapply reply_view_told; [apply Hl|apply Hl|apply SessionId_try_from_terminal, Hok|exact Hp]. }
  assert (Hreplay : told_view (replay_unavailable mint o
    (ReplyView (rec_socket_id record) (rec_view_id record) s (rec_revision record) status reason) s)).
  { unfold replay_unavailable. rewrite Hst. case_if; [done|]. destruct (st_policy st) eqn:Hpol.
    - unfold redrive. rewrite Hst, Hg', Hpol. by eapply desire_told.
    - apply Hview. }
  unfold finish_reply. rewrite Hst.
  destruct path, broadcast; auto; try apply Hview; destruct (st_unavailable st); try apply Hview;
    apply Hreplay.
Qed.

End Answers.

(** ** A concrete owner *)

(** The [n]th id drawn: distinct for distinct draws. *)
Fixpoint demo_id (n : nat) : string :=
  match n with O => EmptyString | S n => String "i" (demo_id n) end.
Definition demo_mint (n : nat) : result string string := Ok (demo_id n).

Lemma demo_mint_inj i j id : demo_mint i = Ok id -> demo_mint j = Ok id -> i = j.
Proof.
  intros [= <-] [= H]. assert (L : forall n, String.length (demo_id n) = n)
    by (induction n as [|n IH]; cbn; [done|by rewrite IH]).
  by rewrite <- (L i), <- H, L.
Qed.

(** A relayed browser opens a view, and its first resize is decided while the
    first apply is still outstanding. *)
Definition demo_decisions : list OwnerDecision :=
  [ HandleRelay "s1" "a:1" "a" (RelayView (demo_command "01" 100 10 1 true)) 0;
    HandleViewCommand "s1" (demo_command "01" 90 30 2 true) 5 ].

Definition demo_system : System := foldl (decided demo_mint) System_new demo_decisions.

Lemma demo_system_reachable : sys_reachable demo_mint demo_system.
Proof.
  unfold demo_system, demo_decisions. cbn [foldl].
  do 2 (eapply rtc_r; [|apply StepDecide; first [done|split; [reflexivity|done]]]).
  apply rtc_refl.
Qed.

(** ** One apply at a time, and nothing stranded *)

(** C15: in every state the owner reaches, whatever the interleaving, a stream
    has at most one apply with the session layer.  An idle stream has none
    outstanding and no desire waiting; a busy one has exactly its own, and a
    newer desire waits behind it exactly when the stream id has moved on.  A
    stream that can be painted is at its effective geometry or on the way: its
    waiting desire, or else its outstanding apply, or else the last apply that
    settled, which committed, names that geometry (and the current id).  A
    session whose projection is due has a flush owed.  And registry, screen
    and streams agree: the sockets are the same, and every record's session
    has an effective geometry to answer with. *)
Theorem streams_single_flight mint (sy : System)
    (mint_inj : forall i j id, mint i = Ok id -> mint j = Ok id -> i = j) :
  sys_reachable mint sy ->
  let o := sys_owner sy in
  let out st := of_incarnation (st_incarnation st) (outstanding sy) in
  (forall s st, o_streams o !! s = Some st ->
     match st_in_flight st with
     | None => st_latest st = None /\ out st = []
     | Some id => exists a, out st = [a] /\ ap_stream_id a = id /\ ap_session_id a = s
         /\ (st_latest st = None <-> id = st_stream_id st)
     end
     /\ forall g, st_effective st = Some g -> st_unavailable st = false ->
        match st_latest st, st_in_flight st with
        | Some d, _ => desire_geometry d = Some g
        | None, Some _ => forall a, a ∈ out st -> ap_geometry a = Some g
        | None, None => exists a, sys_last sy !! st_incarnation st = Some (a, true)
            /\ ap_stream_id a = st_stream_id st /\ ap_geometry a = Some g
        end)
  /\ (o_dirty o <> [] -> FlushProjections ∈ sys_owed sy)
  /\ dom (o_screen o) = dom (sockets (o_registry o))
  /\ (forall key record, views (o_registry o) !! key = Some record ->
        is_Some (o_streams o !! rec_session record ≫= st_effective)).
Proof.
  intros Hr%(reachable_ok _ mint_inj). destruct Hr as [Hw [H1 _ H3 _ _ _] [F1 F2] [_ A2 A3]].
  rewrite Hw in *. cbn [applies omap list_omap] in *. setoid_rewrite app_nil_r in H1.
  setoid_rewrite app_nil_r in H3. rewrite app_nil_r in F2. cbn zeta.
  split; [|split; [auto|by split]].
  intros s st Hs. split; [|exact (H3 _ _ Hs ltac:(done))].
  specialize (H1 _ _ Hs). unfold single_flight in H1.
  destruct (st_in_flight st); [done|]. destruct H1 as [Hl ?]. split; [by apply Hl|done].
Qed.

Lemma streams_single_flight_witness :
  sys_reachable demo_mint demo_system
  /\ (exists st d, o_streams (sys_owner demo_system) !! demo_session = Some st
        /\ st_in_flight st = Some (demo_id 0) /\ st_stream_id st = demo_id 1
        /\ st_latest st = Some d /\ desire_geometry d = Some (mkTerminalGeometry 90 30))
  /\ FlushProjections ∈ sys_owed demo_system.
Proof.
  split; [exact demo_system_reachable|].
  pose proof (streams_single_flight demo_mint demo_system demo_mint_inj demo_system_reachable)
    as (Hs & Hf & _).
  split.
  - destruct (o_streams (sys_owner demo_system) !! demo_session) as [st|] eqn:E.
    2: { vm_compute in E. discriminate. }
    exists st. destruct (Hs _ _ E) as [_ Hg]. clear Hs Hf. vm_compute in E. injection E as <-.
    eexists. do 3 (split; [reflexivity|]). split; [reflexivity|]. apply (Hg _ eq_refl eq_refl).
  - apply Hf. vm_compute. discriminate.
Defined.

(** ** The owner settles *)

(** Nothing is owed or outstanding; every stream is idle, and one that can be
    painted last committed its current id at its effective geometry. *)
Definition settled (sy : System) : Prop :=
  sys_owed sy = [] /\ sys_pending sy = [] /\ o_dirty (sys_owner sy) = []
  /\ forall s st, o_streams (sys_owner sy) !! s = Some st ->
     st_in_flight st = None /\ st_latest st = None
     /\ forall g, st_effective st = Some g -> st_unavailable st = false ->
        exists a, sys_last sy !! st_incarnation st = Some (a, true)
          /\ ap_stream_id a = st_stream_id st /\ ap_geometry a = Some g.

Lemma stuck_settled mint sy :
  system_ok mint sy -> (forall sy', ~ settling_step mint sy sy') -> settled sy.
Proof.
  intros [Hw [H1 _ H3 _ _ _] [F1 F2] _] Hstuck.
  destruct (sys_owed sy) as [|effect rest] eqn:Ho.
  2: { destruct (Hstuck (performed sy (fun _ => None) 0 effect rest)).
       apply SettlePerform. by rewrite Ho. }
  destruct (sys_pending sy) as [|apply rest] eqn:Hp.
  2: { destruct (Hstuck (finished mint sy apply Committed rest)).
       apply SettleFinish. by rewrite Hp. }
  unfold outstanding in *. rewrite Ho, Hp, Hw in *. cbn [applies omap list_omap app] in *.
  split; [done|]. split; [done|]. split.
  { destruct (o_dirty (sys_owner sy)) as [|x l]; [done|].
    destruct (not_elem_of_nil FlushProjections). apply F2, F1. done. }
  intros s st Hs. specialize (H1 _ _ Hs). specialize (H3 _ _ Hs ltac:(done)).
  unfold single_flight in H1. destruct (st_in_flight st) eqn:Hif.
  { by destruct H1 as (a & Ha & _). }
  destruct H1 as [Hl _]. specialize (Hl ltac:(done)). split; [done|]. split; [done|].
  intros g Hg Hu. specialize (H3 g Hg Hu). by rewrite Hl, Hif in H3.
Qed.

(** C24: whatever the owner was doing, once nothing new is decided and the
    session layer commits what it is handed, the owner settles.  From every
    reachable state each run of performed effects and committed applies, in
    whatever order, is bounded, and where it can no longer continue nothing is
    owed, every dirty projection was published, every stream is idle, and each
    one that can be painted last committed its current stream id at its
    effective geometry. *)
Theorem owner_settles mint (sy : System)
    (mint_inj : forall i j id, mint i = Ok id -> mint j = Ok id -> i = j) :
  sys_reachable mint sy ->
  forall n sy', nsteps (settling_step mint) n sy sy' ->
    (n <= unsettled_work sy)%nat
    /\ ((forall sy'', ~ settling_step mint sy' sy'') -> settled sy').
Proof.
  intros Hr%(reachable_ok _ mint_inj) n sy' Hn.
  destruct (settling_bounded _ mint_inj _ _ _ Hr Hn) as [Hok Hle].
  split; [lia|by apply stuck_settled].
Qed.

(** One scheduler: owed effects first, then the applies, oldest first. *)
Fixpoint settle_run (mint : nat -> result string string) (fuel : nat) (sy : System) : System :=
  match fuel with
  | O => sy
  | S fuel =>
      match sys_owed sy, sys_pending sy with
      | effect :: rest, _ => settle_run mint fuel (performed sy (fun _ => None) 0 effect rest)
      | [], apply :: rest => settle_run mint fuel (finished mint sy apply Committed rest)
      | [], [] => sy
      end
  end.

Lemma settle_run_steps mint fuel sy :
  exists n, nsteps (settling_step mint) n sy (settle_run mint fuel sy).
Proof.
  revert sy. induction fuel as [|fuel IH]; intros sy; [by exists 0%nat; constructor|].
  cbn [settle_run]. destruct (sys_owed sy) as [|effect rest] eqn:Ho.
  - destruct (sys_pending sy) as [|apply rest] eqn:Hp; [by exists 0%nat; constructor|].
    destruct (IH (finished mint sy apply Committed rest)) as [n Hn]. exists (S n).
    econstructor; [|exact Hn]. apply SettleFinish. by rewrite Hp.
  - destruct (IH (performed sy (fun _ => None) 0 effect rest)) as [n Hn]. exists (S n).
    econstructor; [|exact Hn]. apply SettlePerform. by rewrite Ho.
Qed.

Lemma idle_stuck mint sy :
  sys_owed sy = [] -> sys_pending sy = [] -> forall sy', ~ settling_step mint sy sy'.
Proof.
  intros Ho Hp sy' Hstep. destruct Hstep as [? ? ? ? ? H|? ? ? H]; rewrite ?Ho, ?Hp in H;
    by apply Permutation_nil in H.
Qed.

Lemma owner_settles_witness :
  settled (settle_run demo_mint 20 demo_system)
  /\ sys_last (settle_run demo_mint 20 demo_system) !! 1%nat
     = Some (mkStreamApply demo_session (demo_id 1) 1 (Some (mkTerminalGeometry 90 30)) 0, true).
Proof.
  split; [|vm_compute; reflexivity].
  destruct (settle_run_steps demo_mint 20 demo_system) as [n Hn].
  apply (owner_settles demo_mint demo_system demo_mint_inj demo_system_reachable n _ Hn).
  apply idle_stuck; vm_compute; reflexivity.
Defined.

(** ** Every command reaches its socket *)

(** An answer that accepts a view has found its command well-formed. *)
Lemma answer_valid r socket_id socket command now reply :
  sockets r !! socket_id = Some socket ->
  replies (snd (handle_view_command r socket_id command now)) = [reply] ->
  (forall id view s rev active status reason,
     reply <> ReplyCommand id view s rev active status reason) ->
  is_terminal_uuid (cmd_view_id command) = true.
Proof.
  intros Hso Hr Hne. unfold handle_view_command in Hr. rewrite Hso in Hr.
  destruct (validate_view_command _ _) as [reason|] eqn:Hval.
  - cbn in Hr. injection Hr as <-. by edestruct Hne.
  - by apply validate_None in Hval as (_ & ? & _).
Qed.

(** The frame that answers [command] on [socket_id], once it was decided. *)
Definition answers (o : OwnerState) (command : TerminalViewCommand)
    (frame : TerminalViewStateFrame) : Prop :=
  vs_view_id frame = cmd_view_id command /\ vs_session_id frame = cmd_session_id command
  /\ vs_revision frame = cmd_revision command /\ vs_active frame = cmd_active command
  /\ ((vs_status frame = Rejected /\ vs_stream_id frame = ""%string)
      \/ (cmd_active command = false /\ vs_status frame = Accepted /\ vs_stream_id frame = ""%string)
      \/ (cmd_active command = true /\ exists stream g,
             o_streams o !! cmd_session_id command = Some stream /\ st_effective stream = Some g
             /\ vs_stream_id frame = st_stream_id stream
             /\ vs_effective_cols frame = cols g /\ vs_effective_rows frame = rows g)).

Lemma reply_command_sent mint o path desired socket_id view_id s revision active status reason n :
  socket_id ∈ dom (o_screen o) -> (n <= length (o_sent o))%nat ->
  (socket_id, view_state_frame view_id s revision active "" status 0 0 reason)
  ∈ drop n (o_sent (foldl (reply_step mint path desired) o
                      [ReplyCommand socket_id view_id s revision active status reason])).
Proof.
  intros [ow How]%elem_of_dom Hn. cbn. unfold send. rewrite How. cbn.
  rewrite drop_app_le by done. apply elem_of_app. right. by left.
Qed.

Section Reaches.
Context (o : OwnerState).
Context (socket_id : string) (socket : SocketRecord) (command : TerminalViewCommand) (now : Z).
Context (Hagree : agree o) (Hso : sockets (o_registry o) !! socket_id = Some socket).
Context (Hnow : now < 2 ^ 64 - 1).
Local Abbreviation key :=
  (view_key (default ""%string (sock_viewer_key socket)) (cmd_view_id command)).
Context (Hparked : forall record, views (o_registry o) !! key = Some record ->
  rec_socket_id record = socket_id -> rec_parked record = false).
Local Abbreviation o1 := (vc_delivered o socket_id command now).
Local Abbreviation ro := (vc_ro o socket_id command now).

Lemma before_socket : exists socket',
  sockets (vc_before o socket_id command) !! socket_id = Some socket'
  /\ sock_viewer_key socket' = sock_viewer_key socket.
Proof using Hso.
  unfold vc_before, set_session_allowed. cbn. rewrite lookup_alter_eq, Hso. eexists. split; [done|].
  done.
Qed.

Lemma delivered_socket : reachable_socket o1 socket_id.
Proof using Hso Hagree.
  destruct Hagree as [_ Hd _]. assert (Hin : socket_id ∈ dom (sockets (o_registry o)))
    by (apply elem_of_dom; eauto).
  split.
  - rewrite vc_registry_delivered. apply elem_of_dom. by rewrite vc_dom.
  - unfold vc_delivered. rewrite (sd_screen _ _ (deliver_calls_steady _ _)). cbn. by rewrite Hd.
Qed.

(** What an acceptance leaves: a live view with a fresh lease. *)
Lemma accepted_live n :
  (n <= length (o_sent o1))%nat ->
  accepted (vc_before o socket_id command) socket_id command key now (fst ro) (snd ro) ->
  exists record, live_view n key record o1 /\ view_constrains record now = true
    /\ rec_socket_id record = socket_id /\ rec_view_id record = cmd_view_id command
    /\ rec_session record = cmd_session_id command
    /\ rec_revision record = cmd_revision command.
Proof using All.
  intros Hn (Hact & Hrep & (record & Hk & Hint & Hrev & Hsock & Hdl) & _).
  destruct before_socket as (socket' & Hso' & _). destruct Hagree as [Hc _ _].
  pose proof (vc_registry_delivered o socket_id command now) as Hreg.
  pose proof (vc_consistent o socket_id command now Hc) as Hc'.
  assert (Hlive : rec_parked record = false).
  { destruct (handle_grown (vc_before o socket_id command) socket_id command now
                (set_session_allowed_consistent _ _ _ _ Hc) key record Hk)
      as [(old & Hold & _ & [?|[-> Heq]])|(_ & ? & _)]; [done| |done].
    apply Hparked; [exact Hold|congruence]. }
  exists record. split; [split|]; rewrite ?Hreg, ?Hsock; try done.
  - apply delivered_socket.
  - split; [unfold view_constrains; rewrite Hlive, Hdl; cbn; unfold lease_deadline, saturating_add64,
      TERMINAL_VIEW_LEASE_MS; rewrite (proj2 (Z.leb_gt _ _)); [done|lia]|].
    split; [done|]. split; [|split; [by unfold rec_session; rewrite Hint|done]].
    pose proof (ok_view_key _ _ (ok_records _ Hc' _ _ Hk)) as Hkey.
    pose proof (ok_view_id _ _ (ok_records _ Hc' _ _ Hk)) as Hu.
    pose proof (answer_valid _ _ _ _ _ _ Hso' Hrep ltac:(done)) as Hu'.
    by apply view_key_inj in Hkey as [_ ?].
Qed.

Lemma accepted_told mint n path :
  (n <= length (o_sent o1))%nat ->
  accepted (vc_before o socket_id command) socket_id command key now (fst ro) (snd ro) ->
  told n (foldl (reply_step mint path (snd (vc_recomputed mint o socket_id command now)))
            (fst (vc_recomputed mint o socket_id command now))
            [ReplyView socket_id (cmd_view_id command) (cmd_session_id command)
               (cmd_revision command) Accepted ""])
    socket_id (cmd_view_id command) (cmd_session_id command) (cmd_revision command).
Proof using All.
  intros Hn Hacc. destruct (accepted_live n Hn Hacc) as (record & Hl & Hv & H1 & H2 & H3 & H4).
  pose proof (recompute_all_told mint n key record o1 (changed (snd ro)) now Hl Hv) as Hall.
  pose proof (live_view_steady n key record _ _
    (recompute_all_steady mint o1 (changed (snd ro)) now) Hl) as Hl2.
  fold (vc_recomputed mint o socket_id command now) in Hall, Hl2.
  destruct (vc_agree_recomputed mint o socket_id command now Hnow Hagree) as [Hc _ Hp].
  destruct (Hp _ _ (lv_record _ _ _ _ Hl2)) as [g Hg].
  pose proof (SessionId_try_from_terminal (rec_session record)
    (ok_session _ _ (ok_records _ Hc _ _ (lv_record _ _ _ _ Hl2)))) as Hs.
  assert (Hb : default false (snd (vc_recomputed mint o socket_id command now) !! rec_session record)
               = true -> told_view n record (fst (vc_recomputed mint o socket_id command now))).
  { destruct (_ !! rec_session record) as [[]|]; try done. intros _. by apply Hall. }
  pose proof (finish_reply_told mint n key record _ path _ Accepted "" g Hl2 Hg Hb) as Hfin.
  unfold told_view in Hfin. cbn [foldl]. unfold reply_step. cbn [reply_session_id].
  rewrite H1, H2, H3, H4 in Hfin. rewrite H3 in Hs. by rewrite Hs.
Qed.
End Reaches.

Lemma told_answers n o socket_id view_id command :
  told n o socket_id view_id (cmd_session_id command) (cmd_revision command) ->
  view_id = cmd_view_id command -> cmd_active command = true ->
  exists frame, (socket_id, frame) ∈ drop n (o_sent o) /\ answers o command frame.
Proof.
  intros (stream_id & g & frame & Hp & Hin & H1 & H2 & H3 & H4 & H5 & H6) -> Hact.
  unfold painted in Hp. apply fmap_Some in Hp as (stream & Hs & [= -> Hg]).
  exists frame. split; [done|]. unfold answers. rewrite Hact. do 4 (split; [done|]).
  right. right. split; [done|]. by exists stream, g.
Qed.

(** C16: every view command that a registered socket sends is answered on that
    socket, in the same decision: the frames sent begin with those sent before
    and hold one for this socket that names the command's view, session and
    revision.  A refusal and an acknowledged release name no stream; an
    acceptance names the session's stream and effective geometry as they are
    once the decision is over, whichever of the broadcast, the replay of an
    unavailable stream and the plain reply carried it, and whether or not a
    stream id could be drawn.  The one exception is a handle whose record is
    parked under the very socket that sends the command: a resize that comes
    back on its old socket id is not answered ([returning_socket_unanswered]). *)
Theorem command_reaches_socket mint (sy : System)
    (mint_inj : forall i j id, mint i = Ok id -> mint j = Ok id -> i = j)
    socket_id socket command now :
  sys_reachable mint sy ->
  sockets (o_registry (sys_owner sy)) !! socket_id = Some socket ->
  now < 2 ^ 64 - 1 ->
  (forall record,
     views (o_registry (sys_owner sy))
       !! view_key (default "" (sock_viewer_key socket)) (cmd_view_id command) = Some record ->
     rec_socket_id record = socket_id -> rec_parked record = false) ->
  let o := sys_owner sy in
  let o' := view_command mint o socket_id command now in
  exists frames frame, o_sent o' = o_sent o ++ frames
    /\ (socket_id, frame) ∈ frames /\ answers o' command frame.
Proof.
  intros Hr%(reachable_ok _ mint_inj) Hso Hnow Hparked o o'. pose proof (sy_agree _ _ Hr) as Ha.
  destruct (ev_sent _ _ (view_command_evolves mint o socket_id command now)) as [frames Hf].
  exists frames. cut (exists frame, (socket_id, frame) ∈ drop (length (o_sent o)) (o_sent o')
                        /\ answers o' command frame).
  { unfold o'. rewrite Hf, drop_app_length. intros (frame & ? & ?). by exists frame. }
  assert (Hn : (length (o_sent o) <= length (o_sent (vc_delivered o socket_id command now)))%nat)
    by apply prefix_length, (ev_sent _ _ (vc_delivered_evolves o socket_id command now)).
  pose proof (vc_agree_recomputed mint o socket_id command now Hnow Ha) as Ha1.
  pose proof (recompute_all_steady mint (vc_delivered o socket_id command now)
                (changed (snd (vc_ro o socket_id command now))) now) as Hst.
  fold (vc_recomputed mint o socket_id command now) in Hst.
  destruct (before_socket o socket_id socket command Hso) as (socket' & Hso' & Hvk).
  pose proof (handle_answered (vc_before o socket_id command) socket_id socket' command now
    (set_session_allowed_consistent _ _ _ _ (ag_registry _ Ha)) Hso') as Hans.
  rewrite Hvk in Hans. fold (vc_ro o socket_id command now) in Hans.
  unfold o'. rewrite view_command_eq.
  assert (Hsend : forall active status reason, exists frame,
    (socket_id, frame) ∈ drop (length (o_sent o)) (o_sent (foldl
       (reply_step mint (command_path o socket_id command)
          (snd (vc_recomputed mint o socket_id command now)))
       (fst (vc_recomputed mint o socket_id command now))
       [ReplyCommand socket_id (cmd_view_id command) (cmd_session_id command)
          (cmd_revision command) active status reason]))
    /\ frame = view_state_frame (cmd_view_id command) (cmd_session_id command)
                 (cmd_revision command) active "" status 0 0 reason).
  { intros. eexists. split; [|done]. apply reply_command_sent.
    - apply (steady_reachable _ _ _ Hst). by eapply delivered_socket.
    - etrans; [exact Hn|by apply sent_grows]. }
  destruct Hans as [((reason & Hrep) & _)|[(Hact & Hrep & _)|Hacc]].
  - rewrite Hrep. destruct (Hsend (cmd_active command) Rejected reason) as (frame & ? & ->).
    eexists. split; [done|]. unfold answers. cbn. do 4 (split; [done|]). by left.
  - rewrite Hrep. destruct (Hsend false Accepted ""%string) as (frame & ? & ->).
    eexists. split; [done|]. unfold answers. cbn. rewrite Hact. do 4 (split; [done|]). right. by left.
  - destruct Hacc as (Hact & Hrep & Hacc). rewrite Hrep.
    eapply told_answers; [|done|done].
    apply (accepted_told o socket_id socket command now Ha Hso Hnow Hparked); [done|by split].
Qed.

Lemma command_reaches_socket_witness :
  exists frames frame,
    o_sent (view_command demo_mint (sys_owner demo_system) "s1" (demo_command "01" 70 20 3 true) 9)
    = o_sent (sys_owner demo_system) ++ frames
    /\ ("s1"%string, frame) ∈ frames
    /\ answers (view_command demo_mint (sys_owner demo_system) "s1"
                  (demo_command "01" 70 20 3 true) 9) (demo_command "01" 70 20 3 true) frame.
Proof.
  apply (command_reaches_socket demo_mint demo_system demo_mint_inj "s1"
           (mkSocketRecord "s1" (Some "a:1"%string) "a" ∅ {[view_key "a:1" (uuid_of "01")]})
           (demo_command "01" 70 20 3 true) 9 demo_system_reachable).
  - vm_compute. reflexivity.
  - reflexivity.
  - intros record H _. vm_compute in H. injection H as <-. reflexivity.
Defined.

(** The hypothesis is needed.  A relayed browser whose socket was dropped with
    the coordinator's, and who comes back on the same socket id before the park
    grace ends, resizes its view: the stream moves, and no frame answers. *)
Definition demo_dropped : OwnerState :=
  ensure_coordinator_socket
    (drop_coordinator_sockets (sys_owner demo_system) [demo_session] 1000) "s1" "a:1" "a" 1100.

Lemma returning_socket_unanswered :
  o_sent (view_command demo_mint demo_dropped "s1" (demo_command "01" 70 20 3 true) 1200)
  = o_sent (sys_owner demo_system).
Proof. vm_compute. reflexivity. Qed.

(** ** The geometry that is decided *)

(** A session's effective geometry once it is recomputed: the per-axis minimum
    of the views that bind it, what it was while every view is parked past its
    grace, and none once it has no view. *)
Definition decided_geometry (r : ViewRegistry) (s : SessionId) (now : Z)
    (before : option TerminalGeometry) : option TerminalGeometry :=
  let set := registry_geometry_set r s now in
  match live set with
  | [] => if (0 <? retained set)%nat then before else None
  | gs => Some (mkTerminalGeometry (axis_minimum cols 257 gs) (axis_minimum rows 257 gs))
  end.

Lemma recompute_all_effective mint o sessions now s :
  consistent (o_registry o) ->
  effective_of (fst (recompute_all mint o sessions now)) s
  = if decide (s ∈ sessions) then decided_geometry (o_registry o) s now (effective_of o s)
    else effective_of o s.
Proof.
  intros Hc. assert (Hin : s ∈ sessions <-> s ∈ btree sessions) by (symmetry; apply elem_of_btree).
  unfold recompute_all. transitivity
    (if decide (s ∈ btree sessions) then decided_geometry (o_registry o) s now (effective_of o s)
     else effective_of o s); [|by destruct (decide (s ∈ sessions)), (decide (s ∈ btree sessions));
                                 try done; exfalso; tauto].
  clear Hin. generalize (btree sessions) as l. generalize (∅ : gmap SessionId bool) as m.
  intros m l. revert o Hc m. induction l as [|s1 l IH]; intros o Hc m; [done|]. cbn [foldl].
  unfold recompute_step at 2. pose proof (recompute_effective mint o s1 now s Hc) as He.
  pose proof (sd_registry _ _ (recompute_steady mint o s1 now)) as Hreg.
  destruct (recompute mint o s1 now) as [o1 b]. cbn [fst] in *. rewrite IH; rewrite Hreg; [|done].
  rewrite He. destruct (decide (s = s1)) as [->|Hne].
  - rewrite (decide_True (P := s1 ∈ s1 :: l)) by (left; done). unfold decided_geometry.
    destruct (live _); [|by case_decide]. case_decide; [|done]. by destruct (0 <? _)%nat.
  - destruct (decide (s ∈ l)), (decide (s ∈ s1 :: l)) as [|Hn]; try done.
    + destruct Hn. by right.
    + by rewrite elem_of_cons in *; tauto.
Qed.

(** A view command moves exactly the geometries it should.  In every
    reachable state, each session the registry reports as changed ends with
    the geometry decided from the registry the command leaves: the per-axis
    minimum over the views that bind the PTY, held where every view is parked
    past its grace, none where no view is left; every other session keeps its
    own.  The records left are those the membership machine decided. *)
Theorem command_decides_geometry mint (sy : System)
    (mint_inj : forall i j id, mint i = Ok id -> mint j = Ok id -> i = j)
    socket_id command now s :
  sys_reachable mint sy ->
  let o := sys_owner sy in
  let o' := view_command mint o socket_id command now in
  let ro := handle_view_command
              (set_session_allowed (o_registry o) socket_id (cmd_session_id command)
                 (screen_allows o socket_id (cmd_session_id command))) socket_id command now in
  views (o_registry o') = views (fst ro)
  /\ (o_streams o' !! s ≫= st_effective)
     = if decide (s ∈ changed (snd ro))
       then decided_geometry (o_registry o') s now (o_streams o !! s ≫= st_effective)
       else o_streams o !! s ≫= st_effective.
Proof.
  intros Hr%(reachable_ok _ mint_inj) o o' ro. destruct (sy_agree _ _ Hr) as [Hc _ _].
  pose proof (vc_registry_delivered o socket_id command now) as Hreg.
  pose proof (vc_consistent o socket_id command now Hc) as Hc'.
  assert (Er : o_registry o' = vc_after o socket_id command now).
  { unfold o'. rewrite view_command_eq, (sd_registry _ _ (reply_fold_steady mint _ _ _ _)).
    unfold vc_recomputed. by rewrite (sd_registry _ _ (recompute_all_steady mint _ _ _)). }
  split; [by rewrite Er|]. rewrite Er.
  change (o_streams o' !! s ≫= st_effective) with (effective_of o' s).
  unfold o'. rewrite view_command_eq, reply_fold_effective. unfold vc_recomputed.
  rewrite recompute_all_effective by by rewrite Hreg. rewrite Hreg.
  unfold vc_delivered at 1 2. by rewrite (same_streams_effective _ _ (deliver_calls_same _ _)).
Qed.

Lemma command_decides_geometry_witness :
  (o_streams (view_command demo_mint (sys_owner demo_system) "s1"
                (demo_command "01" 70 20 3 true) 9) !! demo_session ≫= st_effective)
  = Some (mkTerminalGeometry 70 20).
Proof.
  destruct (command_decides_geometry demo_mint demo_system demo_mint_inj "s1"
              (demo_command "01" 70 20 3 true) 9 demo_session demo_system_reachable) as [_ ->].
  vm_compute. reflexivity.
Defined.
