(* ===== verification/CellTypes.v ===== *)
(** * CellTypes: the cell grid's value model

    Models [src/crates/roost-protocol/src/cell/types.rs] with
    [types/mouse_tracking.rs], [types/image_placement.rs] and [row_mark.rs]:
    spans, rows, frames, and which grid column a text offset is at.

    The text, the link and the link key of a span are sequences of Unicode
    scalars ([text]), because every offset of this file counts scalars; the
    identifiers of a frame are Rocq strings as elsewhere.  A refused value is
    an error named by its site ([CellError]); the code formats the same fields
    into a message. *)
From Stdlib Require Import Ascii String.
From S2P Require Export Viewport.

(** ** Text *)

(** A [str]: its [char]s. *)
Abbreviation text := (list Z).

(** [char::len_utf8] and [str::len]. *)
Definition len_utf8 (c : Z) : Z :=
  if c <? 0x80 then 1 else if c <? 0x800 then 2 else if c <? 0x10000 then 3 else 4.

Definition str_len (s : text) : Z := foldr (fun c n => len_utf8 c + n) 0 s.

(** [char::from_u32]: the scalars, surrogates excluded. *)
Definition char_from_u32 (c : Z) : option Z :=
  if (0 <=? c) && (c <=? 0x10ffff) && negb ((0xd800 <=? c) && (c <=? 0xdfff)) then Some c else None.

(** ** Values *)

Definition DEFAULT_COLOR : Z := 256.
Definition MAX_LINK_URI_BYTES : Z := 2048.
Definition MAX_IMAGE_PLACEMENTS : nat := 256.

(** [row_mark.rs]. *)
Definition PROMPT : Z := 1.
Definition OUTPUT : Z := 2.
Definition EXIT_OK : Z := 4.
Definition EXIT_FAILED : Z := 8.
Definition KNOWN : Z := Z.lor (Z.lor (Z.lor PROMPT OUTPUT) EXIT_OK) EXIT_FAILED.

Inductive MouseTracking :=
| MouseNone
| PressRelease
| ButtonMotion
| MouseUnknown (raw : Z).

Definition mouse_to_u32 (mode : MouseTracking) : Z :=
  match mode with
  | MouseNone => 0
  | PressRelease => 1000
  | ButtonMotion => 1002
  | MouseUnknown raw => raw
  end.

Definition mouse_from_u32 (raw : Z) : MouseTracking :=
  if raw =? 0 then MouseNone
  else if raw =? 1000 then PressRelease
  else if raw =? 1002 then ButtonMotion
  else MouseUnknown raw.

Definition as_mouse_tracking (raw : Z) : MouseTracking :=
  match mouse_from_u32 raw with
  | MouseUnknown _ => MouseNone
  | mode => mode
  end.

Record CellSpan := mkCellSpan {
  sp_text : text;
  sp_fg : Z;
  sp_bg : Z;
  sp_flags : Z;
  sp_fg_rgb : option Z;
  sp_bg_rgb : option Z;
  sp_columns : Z;
  sp_link_uri : option text;
  sp_link_key : option text;
}.

Record CellRow := mkCellRow {
  row_index : Z;
  row_spans : list CellSpan;
  row_mark : Z;
}.

(** [CellRow::with_mark]. *)
Definition with_mark (index : Z) (spans : list CellSpan) (mark : Z) : CellRow :=
  mkCellRow index spans (Z.land mark KNOWN).

Record ImagePlacement := mkImagePlacement {
  im_key : Z;
  im_row : Z;
  im_col : Z;
  im_columns : Z;
  im_rows : Z;
  im_source_x : Z;
  im_source_y : Z;
  im_source_width : Z;
  im_source_height : Z;
  im_image_width : Z;
  im_image_height : Z;
  im_offset_x_px : Z;
  im_offset_y_px : Z;
  im_z_index : Z;
}.

Record CellGridFrame := mkCellGridFrame {
  f_stream_id : string;
  f_grid_epoch : string;
  f_cols : Z;
  f_rows : Z;
  f_cursor_row : Z;
  f_cursor_col : Z;
  f_cursor_visible : bool;
  f_alt_screen : bool;
  f_cursor_keys_app : bool;
  f_bracketed_paste : bool;
  f_mouse_tracking : MouseTracking;
  f_mouse_sgr : bool;
  f_focus_events : bool;
  f_kitty_keyboard_flags : Z;
  f_full : bool;
  f_viewport_rows : list CellRow;
  f_scrollback_rows : list CellRow;
  f_scrollback_append : list CellRow;
  f_scrollback_total : Z;
  f_sb_base : Z;
  f_base_seq : Z;
  f_seq : Z;
  f_image_placements : option (list ImagePlacement);
}.

#[global] Instance CellSpan_eq_dec : EqDecision CellSpan.
Proof. solve_decision. Defined.
#[global] Instance CellRow_eq_dec : EqDecision CellRow.
Proof. solve_decision. Defined.
#[global] Instance MouseTracking_eq_dec : EqDecision MouseTracking.
Proof. solve_decision. Defined.
#[global] Instance ImagePlacement_eq_dec : EqDecision ImagePlacement.
Proof. solve_decision. Defined.

(** Each refusal of the cell boundary, with what its message names. *)
Inductive CellError :=
| SpanColumns (row : Z) (position : nat) (columns : Z)
| SpanText (row : Z) (position : nat) (column : Z)
| LinkUriEmpty (row : Z) (position : nat) (column : Z)
| LinkUriOverCap (row : Z) (position : nat) (column : Z)
| LinkKeyMissing (row : Z) (position : nat) (column : Z)
| LinkKeyStray (row : Z) (position : nat) (column : Z)
| RowTooWide (row columns max_columns : Z)
| SpanFieldRange (position : nat) (name : string) (value : Z)
| FrameStreamId
| FrameGridEpoch
| FrameSequence (base_seq seq : Z)
| FullBaseSeq (base_seq : Z)
| DeltaSequence (base_seq seq : Z)
| FrameGeometry (error : ProtocolError)
| RowOutside (row rows : Z)
| RowRepeated (row : Z)
| DeltaScrollbackRows
| RowsMissing (seen rows : Z)
| FullScrollbackAppend
| HistoryCover (sb_base scrollback_total : Z)
| HistoryOrder (offset : nat) (expected : Z)
| PlacementsOverCap (count : Z)
| PlacementFieldRange (position : nat) (name : string) (value : Z)
| PlacementEmpty (position : nat).

(** ** Links and columns *)

(** The loop of [link_uri_within_cap]. *)
Fixpoint uri_bytes_within (uri : text) (bytes : Z) : bool :=
  match uri with
  | [] => true
  | character :: rest =>
      let bytes := bytes + len_utf8 character in
      if MAX_LINK_URI_BYTES <? bytes then false else uri_bytes_within rest bytes
  end.

Definition link_uri_within_cap (uri : text) : bool :=
  if MAX_LINK_URI_BYTES <? str_len uri then false
  else if str_len uri * 3 <=? MAX_LINK_URI_BYTES then true
  else uri_bytes_within uri 0.

Definition scalar_count (span : CellSpan) : Z := len (sp_text span).

Definition within (lo hi c : Z) : bool := (lo <=? c) && (c <=? hi).

(** The scalars that keep a span whole. *)
Definition joining_scalar (c : Z) : bool :=
  (0xffff <? c) || within 0x0300 0x036f c || within 0x1ab0 0x1aff c || within 0x1dc0 0x1dff c
  || within 0x20d0 0x20ff c || within 0xfe00 0xfe0f c || within 0xfe20 0xfe2f c
  || within 0xe0100 0xe01ef c || within 0x1f1e6 0x1f1ff c
  || within 0x200c 0x200d c || within 0x1f3fb 0x1f3ff c.

Definition span_is_atomic (span : CellSpan) : bool :=
  if negb (sp_columns span =? scalar_count span) then true
  else existsb joining_scalar (sp_text span).

Definition row_columns (spans : list CellSpan) : Z :=
  let columns := foldr (fun span n => sp_columns span + n) 0 spans in
  if columns <? 2 ^ 32 then columns else 2 ^ 32 - 1.

Definition spans_text (spans : list CellSpan) : text := spans ≫= sp_text.

(** The walk of [columns_at_offset], from the span that starts at offset [at_]
    and column [col]. *)
Fixpoint columns_from (spans : list CellSpan) (offset at_ col : Z) : Z * Z :=
  match spans with
  | [] => (col, col)
  | span :: rest =>
      if offset =? at_ then (col, col)
      else
        let next := at_ + scalar_count span in
        if offset <? next then
          if span_is_atomic span then (col, u32 (col + sp_columns span))
          else let inside := u32 (col + u32 (offset - at_)) in (inside, inside)
        else columns_from rest offset next (Z.min (2 ^ 32 - 1) (col + sp_columns span))
  end.

Definition columns_at_offset (spans : list CellSpan) (offset : Z) : Z * Z :=
  columns_from spans offset 0 0.

Definition text_offset_to_column (spans : list CellSpan) (offset : Z) : Z :=
  fst (columns_at_offset spans offset).

Definition text_offset_to_column_end (spans : list CellSpan) (offset : Z) : Z :=
  snd (columns_at_offset spans offset).

Record ColumnRange := mkColumnRange { cr_col : Z; cr_columns : Z }.

Definition text_range_to_columns (spans : list CellSpan) (offset length : Z) : ColumnRange :=
  let col := text_offset_to_column spans offset in
  if length =? 0 then mkColumnRange col 0
  else
    let end_ := text_offset_to_column_end spans (offset + length) in
    mkColumnRange col (Z.max (saturating_sub end_ col) 1).

Fixpoint column_span_from (spans : list CellSpan) (col at_ : Z) : option (CellSpan * Z) :=
  match spans with
  | [] => None
  | span :: rest =>
      let next := at_ + sp_columns span in
      if col <? next then Some (span, u32 (col - at_)) else column_span_from rest col next
  end.

Definition column_span (spans : list CellSpan) (col : Z) : option (CellSpan * Z) :=
  if col <? 0 then None else column_span_from spans col 0.

Definition column_text (spans : list CellSpan) (col : Z) : text :=
  match column_span spans col with
  | None => []
  | Some (span, offset) =>
      if span_is_atomic span then sp_text span
      else match sp_text span !! Z.to_nat offset with Some c => [c] | None => [] end
  end.

(** ** The decoder's contract on one row *)

(** The loop of [assert_cell_row_spans], at span [position], [columns] columns
    in. *)
Fixpoint assert_spans (index : Z) (position : nat) (columns : Z) (spans : list CellSpan) :
    result Z CellError :=
  match spans with
  | [] => Ok columns
  | span :: rest =>
      if sp_columns span <? 1 then Err (SpanColumns index position (sp_columns span))
      else if bool_decide (sp_text span = []) then Err (SpanText index position columns)
      else
        let? _ :=
          match sp_link_uri span with
          | Some uri =>
              if bool_decide (uri = []) then Err (LinkUriEmpty index position columns)
              else if negb (link_uri_within_cap uri) then Err (LinkUriOverCap index position columns)
              else
                match sp_link_key span with
                | Some (_ :: _) => Ok tt
                | _ => Err (LinkKeyMissing index position columns)
                end
          | None =>
              match sp_link_key span with
              | Some _ => Err (LinkKeyStray index position columns)
              | None => Ok tt
              end
          end in
        assert_spans index (S position) (columns + sp_columns span) rest
  end.

Definition assert_cell_row_spans (row : CellRow) (max_columns : Z) : result unit CellError :=
  let? columns := assert_spans (row_index row) 0 0 (row_spans row) in
  if (0 <? max_columns) && (max_columns <? columns)
  then Err (RowTooWide (row_index row) columns max_columns)
  else Ok tt.
