(* ===== verification/TermSpans.v ===== *)
(** * TermSpans: a row of terminal cells as spans

    Models [src/crates/roost-term/src/row_spans.rs] and [CellData] of
    [core.rs]: the right-trimmed, run-length encoding every frame's rows go
    through.  Its properties relate it to the reader of [CellTypes]: which
    columns the spans occupy and what is painted at each. *)
From S2P Require Export CellTypes.

Record CellData := mkCellData {
  cd_character : Z;
  cd_combining : option (list Z);
  cd_width : Z;
  cd_fg : Z;
  cd_bg : Z;
  cd_flags : Z;
  cd_fg_rgb : option Z;
  cd_bg_rgb : option Z;
  cd_link_uri : option text;
  cd_link_key : option text;
}.

(** [link_uri_within_cap] of [row_spans.rs]. *)
Definition uri_fits_wire (uri : text) : bool :=
  let len := str_len uri in
  if MAX_LINK_URI_BYTES <? len then false
  else if len * 3 <=? MAX_LINK_URI_BYTES then true
  else str_len uri <=? MAX_LINK_URI_BYTES.

Definition is_none {A} (o : option A) : bool := match o with None => true | Some _ => false end.

Definition is_blank_default (cell : CellData) : bool :=
  is_none (cd_link_uri cell) && is_none (cd_link_key cell)
  && ((cd_character cell =? 0x20) || (cd_character cell =? 0))
  && (cd_fg cell =? DEFAULT_COLOR) && (cd_bg cell =? DEFAULT_COLOR)
  && (cd_flags cell =? 0) && is_none (cd_combining cell).

(** The lead of a continuation: the nearest cell before it that has a width. *)
Fixpoint lead_of (before : list CellData) : option CellData :=
  match before with
  | [] => None
  | cell :: rest => if cd_width cell =? 0 then lead_of rest else Some cell
  end.

(** [trimmed_end] on the cells before [end], last first; what is left of them
    is the prefix that is kept. *)
Fixpoint trim_reversed (before : list CellData) : list CellData :=
  match before with
  | [] => []
  | cell :: rest =>
      if negb (is_blank_default cell) then before
      else if (cd_width cell =? 0)
              && match lead_of rest with Some lead => 2 <=? cd_width lead | None => false end
      then before
      else trim_reversed rest
  end.

Definition trimmed_end (cells : list CellData) (length : nat) : nat :=
  List.length (trim_reversed (rev (take length cells))).

Definition same_run (cell : CellData) (run : CellSpan) (link_key : option text) : bool :=
  (cd_fg cell =? sp_fg run) && (cd_bg cell =? sp_bg run) && (cd_flags cell =? sp_flags run)
  && bool_decide (cd_fg_rgb cell = sp_fg_rgb run) && bool_decide (cd_bg_rgb cell = sp_bg_rgb run)
  && bool_decide (sp_link_key run = link_key)
  && bool_decide (sp_link_uri run = if is_none link_key then None else cd_link_uri cell).

Definition link_of (cell : CellData) : option text * option text :=
  match cd_link_uri cell, cd_link_key cell with
  | Some uri, Some key => if uri_fits_wire uri then (Some uri, Some key) else (None, None)
  | _, _ => (None, None)
  end.

Definition scalar_text (cell : CellData) : text :=
  (match char_from_u32 (cd_character cell) with Some c => [c] | None => [] end)
  ++ match cd_combining cell with
     | Some combining => omap char_from_u32 combining
     | None => []
     end.

(** The character of a cell that coalesces: one column, one plain scalar. *)
Definition run_character (cell : CellData) : option Z :=
  let scalar :=
    match char_from_u32 (cd_character cell) with
    | Some c => if c <=? 0xffff then Some c else None
    | None => None
    end in
  let has_cluster := match cd_combining cell with Some (_ :: _) => true | _ => false end in
  if (cd_width cell =? 1) && negb has_cluster then scalar else None.

Definition new_span (cell : CellData) (t : text) (columns : Z) : CellSpan :=
  mkCellSpan t (cd_fg cell) (cd_bg cell) (cd_flags cell) (cd_fg_rgb cell) (cd_bg_rgb cell)
    columns (fst (link_of cell)) (snd (link_of cell)).

Definition extend_run (run : CellSpan) (c : Z) : CellSpan :=
  mkCellSpan (sp_text run ++ [c]) (sp_fg run) (sp_bg run) (sp_flags run) (sp_fg_rgb run)
    (sp_bg_rgb run) (sp_columns run + 1) (sp_link_uri run) (sp_link_key run).

(** The continuations that follow a lead. *)
Fixpoint continuations (cells : list CellData) : nat :=
  match cells with
  | cell :: rest => if cd_width cell =? 0 then S (continuations rest) else O
  | [] => O
  end.

(** The loop: the cells from [col] on, the spans so far with the last one
    first, and whether that one is the open run.  Each turn consumes a cell. *)
Fixpoint spans_loop (fuel : nat) (cells : list CellData) (spans : list CellSpan) (open : bool) :
    list CellSpan :=
  match fuel, cells with
  | O, _ | _, [] => spans
  | S fuel, cell :: rest =>
      match run_character cell with
      | Some character =>
          match spans with
          | run :: before =>
              if open && same_run cell run (snd (link_of cell))
              then spans_loop fuel rest (extend_run run character :: before) true
              else spans_loop fuel rest (new_span cell [character] 1 :: spans) true
          | [] => spans_loop fuel rest [new_span cell [character] 1] true
          end
      | None =>
          let more := if 2 <=? cd_width cell then continuations rest else O in
          let t := if cd_width cell =? 0 then [0x20] else scalar_text cell in
          spans_loop fuel (drop more rest) (new_span cell t (1 + Z.of_nat more) :: spans) false
      end
  end.

Definition row_to_spans (cells : list CellData) (length : nat) : list CellSpan :=
  let kept := take (trimmed_end cells length) cells in
  rev (spans_loop (List.length kept) kept [] false).

(** ** What is painted at each column *)

Definition style_of_cell (cell : CellData) :=
  (cd_fg cell, cd_bg cell, cd_flags cell, cd_fg_rgb cell, cd_bg_rgb cell, link_of cell).
Definition style_of_span (span : CellSpan) :=
  (sp_fg span, sp_bg span, sp_flags span, sp_fg_rgb span, sp_bg_rgb span,
   (sp_link_uri span, sp_link_key span)).

(** One column: the glyph that covers it, how far into the glyph it is, and
    the style. *)
Record column := mkColumn {
  co_text : text;
  co_offset : Z;
  co_style : Z * Z * Z * option Z * option Z * (option text * option text);
}.

(** The columns a reader paints for a span. *)
Definition span_paint (span : CellSpan) : list column :=
  if span_is_atomic span
  then (fun k => mkColumn (sp_text span) k (style_of_span span)) <$> seqZ 0 (sp_columns span)
  else (fun c => mkColumn [c] 0 (style_of_span span)) <$> sp_text span.

Definition paint (spans : list CellSpan) : list column := spans ≫= span_paint.

(** The columns of a grid's cells: a wide glyph covers its lead and the
    continuations after it, a continuation without a lead is a blank. *)
Fixpoint cells_paint (cells : list CellData) (lead : option (CellData * Z)) : list column :=
  match cells with
  | [] => []
  | cell :: rest =>
      if cd_width cell =? 0 then
        match lead with
        | Some (l, k) =>
            mkColumn (scalar_text l) k (style_of_cell l) :: cells_paint rest (Some (l, k + 1))
        | None => mkColumn [0x20] 0 (style_of_cell cell) :: cells_paint rest None
        end
      else
        mkColumn (scalar_text cell) 0 (style_of_cell cell)
          :: cells_paint rest (if 2 <=? cd_width cell then Some (cell, 1) else None)
  end.

(** What the reader relies on: no scalar of a run joins, and a wide cluster
    holds one that does. *)
Definition regular (cell : CellData) : bool :=
  match run_character cell with
  | Some c => negb (joining_scalar c)
  | None =>
      (cd_width cell <? 2) || (len (scalar_text cell) <=? 1)
      || existsb joining_scalar (scalar_text cell)
  end.

Lemma run_character_text cell c :
  run_character cell = Some c -> scalar_text cell = [c] /\ cd_width cell = 1.
Proof.
  unfold run_character, scalar_text. intros H.
  destruct (cd_width cell =? 1) eqn:Hw; [|done]. apply Z.eqb_eq in Hw. cbn [andb] in H.
  destruct (char_from_u32 (cd_character cell)) as [x|]; [|by destruct (cd_combining cell) as [[]|]].
  destruct (cd_combining cell) as [[|? ?]|]; cbn [negb] in H; try done;
    destruct (x <=? 0xffff); by simplify_eq.
Qed.

(** A span with as many scalars as columns, none of which joins, is read one
    scalar per column. *)
Definition is_run (span : CellSpan) : Prop :=
  sp_columns span = len (sp_text span) /\ existsb joining_scalar (sp_text span) = false.

Lemma is_run_atomic span : is_run span -> span_is_atomic span = false.
Proof.
  intros [H1 H2]. unfold span_is_atomic, scalar_count. by rewrite <- H1, Z.eqb_refl, H2.
Qed.

Lemma extend_run_run run c :
  is_run run -> joining_scalar c = false -> is_run (extend_run run c).
Proof.
  intros [H1 H2] Hc. unfold is_run, extend_run. cbn [sp_columns sp_text].
  rewrite len_app, len_cons, len_nil, existsb_app, H2. cbn. rewrite Hc. split; [lia|done].
Qed.

Lemma paint_extend run c cell :
  is_run run -> joining_scalar c = false -> same_run cell run (snd (link_of cell)) = true ->
  span_paint (extend_run run c) = span_paint run ++ [mkColumn [c] 0 (style_of_cell cell)].
Proof.
  intros Hr Hc Hs. pose proof (extend_run_run run c Hr Hc) as Hr'. unfold span_paint.
  rewrite !is_run_atomic by done. cbn [extend_run sp_text]. rewrite fmap_app. f_equal.
  cbn [fmap list_fmap]. do 2 f_equal. unfold same_run in Hs. bool_to_prop.
  repeat match goal with H : bool_decide _ = true |- _ => apply bool_decide_eq_true in H end.
  unfold style_of_span, style_of_cell. cbn [extend_run sp_fg sp_bg sp_flags sp_fg_rgb sp_bg_rgb
    sp_link_uri sp_link_key].
  repeat match goal with H : ?x = _ |- context [?x] => rewrite H end.
  unfold link_of. destruct (cd_link_uri cell) as [uri|], (cd_link_key cell); cbn [snd is_none] in *;
    try congruence. destruct (uri_fits_wire uri); cbn [snd is_none] in *; congruence.
Qed.

Lemma cells_paint_continuations cells lead k :
  cells_paint cells (Some (lead, k))
  = ((fun i => mkColumn (scalar_text lead) i (style_of_cell lead))
       <$> seqZ k (Z.of_nat (continuations cells)))
    ++ cells_paint (drop (continuations cells) cells) None.
Proof.
  revert k. induction cells as [|cell rest IH]; intros k; [done|].
  cbn [cells_paint continuations]. destruct (cd_width cell =? 0) eqn:Hw.
  - rewrite seqZ_cons by lia. cbn [drop fmap list_fmap app]. rewrite IH.
    by replace (Z.pred (Z.of_nat (S (continuations rest)))) with (Z.of_nat (continuations rest)) by lia.
  - cbn [drop seqZ Z.of_nat fmap list_fmap app]. cbn [cells_paint]. by rewrite Hw.
Qed.

Lemma span_paint_new cell t n :
  (t = [0x20] /\ n = 1 \/ t = scalar_text cell) -> 1 <= n ->
  (n = len t -> 2 <= len t -> existsb joining_scalar t = true) ->
  span_paint (new_span cell t n)
  = (fun i => mkColumn t i (style_of_cell cell)) <$> seqZ 0 n.
Proof.
  intros Ht Hn Hj. unfold span_paint, span_is_atomic, scalar_count. cbn [new_span sp_columns sp_text].
  assert (Hs : style_of_span (new_span cell t n) = style_of_cell cell)
    by (unfold style_of_span, style_of_cell; cbn; by destruct (link_of cell)).
  rewrite Hs. destruct (Z.eqb_spec n (len t)) as [E|E]; cbn [negb]; [|done].
  destruct (existsb joining_scalar t) eqn:Ex; [done|].
  destruct t as [|c [|c' t]]; rewrite ?len_cons, ?len_nil in *.
  - lia.
  - by replace n with 1 by lia.
  - exfalso. pose proof (len_nonneg t). specialize (Hj E ltac:(lia)). done.
Qed.

(** Whatever was painted before, the loop adds the paint of its cells. *)
Lemma spans_loop_paint fuel cells spans open :
  (length cells <= fuel)%nat ->
  Forall (fun cell => 0 <= cd_width cell /\ regular cell = true) cells ->
  (open = true -> exists run before, spans = run :: before /\ is_run run) ->
  paint (rev (spans_loop fuel cells spans open)) = paint (rev spans) ++ cells_paint cells None.
Proof.
  revert cells spans open. induction fuel as [|fuel IH]; intros cells spans open Hf Hreg Hopen.
  { destruct cells; [|cbn in Hf; lia]. cbn. by rewrite app_nil_r. }
  destruct cells as [|cell rest]; [cbn; by rewrite app_nil_r|]. cbn [length] in Hf.
  apply Forall_cons in Hreg as [[Hw Hr] Hreg]. cbn [spans_loop].
  unfold regular in Hr. destruct (run_character cell) as [c|] eqn:Hc.
  - destruct (run_character_text _ _ Hc) as [Ht Hw1].
    apply negb_true_iff in Hr.
    assert (Hcell : cells_paint (cell :: rest) None
                    = mkColumn [c] 0 (style_of_cell cell) :: cells_paint rest None)
      by (cbn [cells_paint]; by rewrite Hw1, Ht).
    assert (Hnew : forall before, is_run (new_span cell [c] 1)
              /\ paint (rev (new_span cell [c] 1 :: before))
                 = paint (rev before) ++ [mkColumn [c] 0 (style_of_cell cell)]).
    { intros before. split; [split; [done|by cbn; rewrite Hr]|]. cbn [rev]. unfold paint.
      rewrite bind_app. cbn [mbind list_bind]. rewrite app_nil_r. f_equal.
      rewrite span_paint_new; [done|by right|lia|by cbn]. }
    assert (Hfresh : forall before, paint (rev (spans_loop fuel rest (new_span cell [c] 1 :: before) true))
              = paint (rev before) ++ cells_paint (cell :: rest) None).
    { intros before. destruct (Hnew before) as [? Hp]. rewrite IH; [|lia|done|eauto].
      rewrite Hp, Hcell, <- app_assoc. done. }
    destruct spans as [|run before]; [apply Hfresh|].
    destruct (open && same_run cell run (snd (link_of cell))) eqn:Hext; [|apply Hfresh].
    apply andb_true_iff in Hext as [-> Hsame].
    destruct (Hopen eq_refl) as (? & ? & [= <- <-] & Hrun).
    rewrite IH; [|lia|done|intros _; do 2 eexists; split; [done|by apply extend_run_run]].
    cbn [rev]. unfold paint. rewrite !bind_app. cbn [mbind list_bind]. rewrite !app_nil_r.
    rewrite (paint_extend run c cell) by done. rewrite Hcell, <- !app_assoc. done.
  - set (more := if 2 <=? cd_width cell then continuations rest else O).
    set (t := if cd_width cell =? 0 then [0x20] else scalar_text cell).
    assert (Hpaint : cells_paint (cell :: rest) None
      = ((fun i => mkColumn t i (style_of_cell cell)) <$> seqZ 0 (1 + Z.of_nat more))
        ++ cells_paint (drop more rest) None).
    { cbn [cells_paint]. rewrite seqZ_cons by lia. cbn [fmap list_fmap app].
      replace (Z.pred (1 + Z.of_nat more)) with (Z.of_nat more) by lia.
      unfold t, more. destruct (Z.eqb_spec (cd_width cell) 0) as [E|E].
      - rewrite E. done.
      - f_equal. destruct (2 <=? cd_width cell); [apply cells_paint_continuations|done]. }
    rewrite IH.
    + cbn [rev]. unfold paint at 1. rewrite bind_app. cbn [mbind list_bind]. rewrite app_nil_r.
      rewrite Hpaint, <- app_assoc. do 2 f_equal. apply span_paint_new; [|lia|].
      * unfold t, more. destruct (Z.eqb_spec (cd_width cell) 0) as [E|E]; [left|by right].
        rewrite E. done.
      * intros Hn Hl. unfold t, more in *. destruct (Z.eqb_spec (cd_width cell) 0) as [E|E].
        { rewrite len_cons, len_nil in Hl. lia. }
        destruct (Z.leb_spec 2 (cd_width cell)).
        { rewrite (proj2 (Z.ltb_ge _ _)) in Hr by done.
          destruct (Z.leb_spec (len (scalar_text cell)) 1); [lia|done]. }
        cbn in Hn. lia.
    + rewrite length_drop. lia.
    + by apply Forall_drop.
    + done.
Qed.

(** ** Reading a painted row back *)

Lemma length_span_paint span :
  0 <= sp_columns span -> Z.of_nat (length (span_paint span)) = sp_columns span.
Proof.
  intros Hc. unfold span_paint. destruct (span_is_atomic span) eqn:Ha.
  - rewrite length_fmap, length_seqZ. lia.
  - rewrite length_fmap. unfold span_is_atomic, scalar_count in Ha.
    destruct (Z.eqb_spec (sp_columns span) (len (sp_text span))); cbn [negb] in Ha; [|done].
    unfold len in *. lia.
Qed.

Definition total_columns (spans : list CellSpan) : Z :=
  foldr (fun span n => sp_columns span + n) 0 spans.

Lemma total_columns_cons span spans :
  total_columns (span :: spans) = sp_columns span + total_columns spans.
Proof. done. Qed.

Definition occupied (span : CellSpan) : Prop := 1 <= sp_columns span < 2 ^ 32.

Lemma length_paint spans :
  Forall occupied spans -> Z.of_nat (length (paint spans)) = total_columns spans.
Proof.
  induction 1 as [|span spans Hs _ IH]; [done|]. unfold paint in *. cbn [mbind list_bind].
  rewrite length_app, Nat2Z.inj_add, length_span_paint by (unfold occupied in Hs; lia).
  by rewrite IH.
Qed.

Lemma span_paint_lookup span k :
  0 <= k < sp_columns span ->
  exists co, span_paint span !! Z.to_nat k = Some co
    /\ co_text co = if span_is_atomic span then sp_text span
                    else match sp_text span !! Z.to_nat k with Some c => [c] | None => [] end.
Proof.
  intros Hk. unfold span_paint. destruct (span_is_atomic span) eqn:Ha.
  - eexists. split; [rewrite list_lookup_fmap, lookup_seqZ_lt by lia; done|done].
  - unfold span_is_atomic, scalar_count in Ha.
    destruct (Z.eqb_spec (sp_columns span) (len (sp_text span))) as [E|]; cbn [negb] in Ha; [|done].
    destruct (lookup_lt_is_Some_2 (sp_text span) (Z.to_nat k)) as [c Hc].
    { unfold len in E. lia. }
    eexists. rewrite list_lookup_fmap, Hc. done.
Qed.

Lemma column_span_from_paint spans col at_ :
  Forall occupied spans -> at_ <= col ->
  match column_span_from spans col at_ with
  | None => []
  | Some (span, offset) =>
      if span_is_atomic span then sp_text span
      else match sp_text span !! Z.to_nat offset with Some c => [c] | None => [] end
  end
  = match paint spans !! Z.to_nat (col - at_) with Some co => co_text co | None => [] end.
Proof.
  intros Ho. revert at_. induction Ho as [|span spans Hs _ IH]; intros at_ Hat; [done|].
  unfold paint. cbn [mbind list_bind column_span_from]. unfold occupied in Hs.
  pose proof (length_span_paint span ltac:(lia)) as Hlen.
  destruct (Z.ltb_spec col (at_ + sp_columns span)).
  - rewrite (wrap_small 32) by (unfold fits; lia).
    destruct (span_paint_lookup span (col - at_) ltac:(lia)) as (co & Hco & Ht).
    by rewrite (lookup_app_l_Some _ _ _ _ Hco), Ht.
  - rewrite lookup_app_r by lia.
    replace (Z.to_nat (col - at_) - length (span_paint span))%nat
      with (Z.to_nat (col - (at_ + sp_columns span))) by lia.
    apply IH. lia.
Qed.

(** What [column_text] reads is what is painted. *)
Lemma column_text_paint spans col :
  Forall occupied spans -> 0 <= col ->
  column_text spans col
  = match paint spans !! Z.to_nat col with Some co => co_text co | None => [] end.
Proof.
  intros Ho Hc. unfold column_text, column_span. rewrite (proj2 (Z.ltb_ge _ _)) by done.
  pose proof (column_span_from_paint spans col 0 Ho Hc) as H. by rewrite Z.sub_0_r in H.
Qed.

(** ** Spans the decoder accepts *)

Definition span_sound (span : CellSpan) : Prop :=
  1 <= sp_columns span /\ sp_text span <> []
  /\ match sp_link_uri span, sp_link_key span with
     | Some uri, Some key => uri <> [] /\ key <> [] /\ link_uri_within_cap uri = true
     | None, None => True
     | _, _ => False
     end.

(** A cell of a core whose characters are scalars and whose links are named. *)
Definition cell_sound (cell : CellData) : Prop :=
  (cd_width cell = 0 \/ is_Some (char_from_u32 (cd_character cell)))
  /\ cd_link_uri cell <> Some [] /\ cd_link_key cell <> Some [].

Lemma str_len_nonneg s : 0 <= str_len s.
Proof.
  induction s as [|c s IH]; cbn [str_len foldr]; [done|]. fold (str_len s).
  unfold len_utf8. repeat case_match; lia.
Qed.

Lemma uri_bytes_within_spec uri bytes :
  uri_bytes_within uri bytes = true <-> uri = [] \/ bytes + str_len uri <= MAX_LINK_URI_BYTES.
Proof.
  revert bytes. induction uri as [|c uri IH]; intros bytes; [cbn; tauto|].
  cbn [uri_bytes_within str_len foldr]. fold (str_len uri). pose proof (str_len_nonneg uri).
  destruct (Z.ltb_spec MAX_LINK_URI_BYTES (bytes + len_utf8 c)).
  - split; [done|]. intros [?|?]; [done|lia].
  - rewrite IH. split; [intros [->|?]; right; cbn; lia|intros [?|?]; [done|right; lia]].
Qed.

(** The reader's check and the encoder's are the same bound on UTF-8 bytes. *)
Lemma uri_within_cap uri : link_uri_within_cap uri = (str_len uri <=? MAX_LINK_URI_BYTES).
Proof.
  unfold link_uri_within_cap. pose proof (str_len_nonneg uri).
  destruct (Z.ltb_spec MAX_LINK_URI_BYTES (str_len uri)); [by rewrite (proj2 (Z.leb_gt _ _))|].
  rewrite (proj2 (Z.leb_le (str_len uri) _)) by done.
  case_if; [done|]. apply uri_bytes_within_spec. right. lia.
Qed.

Lemma uri_fits_wire_cap uri : uri_fits_wire uri = (str_len uri <=? MAX_LINK_URI_BYTES).
Proof.
  unfold uri_fits_wire. pose proof (str_len_nonneg uri).
  destruct (Z.ltb_spec MAX_LINK_URI_BYTES (str_len uri)); [by rewrite (proj2 (Z.leb_gt _ _))|].
  rewrite (proj2 (Z.leb_le (str_len uri) _)) by done. by case_if.
Qed.

Lemma new_span_sound cell t n :
  cell_sound cell -> t <> [] -> 1 <= n -> span_sound (new_span cell t n).
Proof.
  intros (_ & Hu & Hk) Ht Hn. split; [done|]. split; [done|]. cbn [new_span sp_link_uri sp_link_key].
  unfold link_of. destruct (cd_link_uri cell) as [uri|], (cd_link_key cell) as [key|]; try done.
  destruct (uri_fits_wire uri) eqn:Hf; [|done]. rewrite uri_fits_wire_cap in Hf. cbn.
  rewrite uri_within_cap. split; [congruence|]. split; [congruence|done].
Qed.

Lemma spans_loop_sound fuel cells spans open :
  Forall cell_sound cells -> Forall span_sound spans ->
  Forall span_sound (spans_loop fuel cells spans open).
Proof.
  revert cells spans open. induction fuel as [|fuel IH]; intros cells spans open Hc Hs; [done|].
  destruct cells as [|cell rest]; [done|]. apply Forall_cons in Hc as [Hcell Hc].
  cbn [spans_loop]. destruct (run_character cell) as [c|] eqn:Hr.
  - assert (Hn : span_sound (new_span cell [c] 1)) by by apply new_span_sound.
    destruct spans as [|run before]; [by apply IH; auto|].
    apply Forall_cons in Hs as [Hrun Hs]. case_if; apply IH; auto.
    apply Forall_cons. split; [|done]. destruct Hrun as (? & ? & ?). split; [cbn; lia|].
    split; [cbn; by destruct (sp_text run)|done].
  - apply IH; [by apply Forall_drop|]. apply Forall_cons. split; [|done].
    apply new_span_sound; [done| |lia].
    destruct (Z.eqb_spec (cd_width cell) 0); [done|]. unfold scalar_text.
    destruct Hcell as [[?|[x Hx]] _]; [done|]. by rewrite Hx.
Qed.

Lemma assert_spans_sound index position columns spans :
  Forall span_sound spans ->
  assert_spans index position columns spans = Ok (columns + total_columns spans).
Proof.
  intros H. revert position columns. induction H as [|span spans (H1 & H2 & H3) _ IH];
    intros position columns; [cbn; by rewrite Z.add_0_r|].
  cbn [assert_spans total_columns foldr]. rewrite (proj2 (Z.ltb_ge _ _)) by lia.
  rewrite bool_decide_eq_false_2 by done.
  assert (E : (match sp_link_uri span with
          | Some uri => if bool_decide (uri = []) then Err (LinkUriEmpty index position columns)
              else if negb (link_uri_within_cap uri) then Err (LinkUriOverCap index position columns)
              else match sp_link_key span with
                   | Some (_ :: _) => Ok tt | _ => Err (LinkKeyMissing index position columns) end
          | None => match sp_link_key span with
                    | Some _ => Err (LinkKeyStray index position columns) | None => Ok tt end
          end) = Ok tt).
  { destruct (sp_link_uri span) as [uri|], (sp_link_key span) as [[|? ?]|]; try done;
      destruct H3 as (? & ? & Hw); try done. rewrite bool_decide_eq_false_2 by done. by rewrite Hw. }
  rewrite E, IH. f_equal. fold (total_columns spans). lia.
Qed.

(** ** What is trimmed *)

Definition trimmable (cell : CellData) (before : list CellData) : Prop :=
  is_blank_default cell = true
  /\ (cd_width cell = 0 -> forall lead, lead_of before = Some lead -> cd_width lead < 2).

Lemma trim_reversed_spec before :
  exists dropped, before = dropped ++ trim_reversed before
    /\ forall d1 cell d2, dropped = d1 ++ cell :: d2 ->
         trimmable cell (d2 ++ trim_reversed before).
Proof.
  induction before as [|cell rest (dropped & Hd & IH)]; [by exists []; split; [|intros [] ? ? [=]]|].
  cbn [trim_reversed]. destruct (is_blank_default cell) eqn:Hb; cbn [negb];
    [|by exists []; split; [|intros [] ? ? [=]]].
  case_if; [by exists []; split; [|intros [] ? ? [=]]|].
  exists (cell :: dropped). split; [cbn; by rewrite <- Hd|].
  intros d1 c d2 E. destruct d1 as [|x d1]; cbn in E; injection E as -> ->; [|by eapply IH].
  split; [done|]. intros Hw lead Hlead. rewrite <- Hd in Hlead.
  rewrite Hw, Hlead in *. cbn [Z.eqb andb] in *. bool_to_prop. done.
Qed.

(** ** The columns a row occupies *)

Lemma total_columns_app a b : total_columns (a ++ b) = total_columns a + total_columns b.
Proof.
  induction a as [|span a IH]; [done|]. cbn [app total_columns foldr].
  fold (total_columns (a ++ b)) (total_columns a). lia.
Qed.

Lemma total_columns_rev l : total_columns (rev l) = total_columns l.
Proof.
  induction l as [|span l IH]; [done|]. cbn [rev]. rewrite total_columns_app, IH. cbn.
  fold (total_columns l). lia.
Qed.

Lemma continuations_length cells : (continuations cells <= length cells)%nat.
Proof. induction cells as [|cell rest IH]; cbn; [done|]. case_if; lia. Qed.

Lemma spans_loop_columns fuel cells spans open :
  (length cells <= fuel)%nat -> Forall (fun span => 1 <= sp_columns span) spans ->
  Forall (fun span => 1 <= sp_columns span) (spans_loop fuel cells spans open)
  /\ total_columns (spans_loop fuel cells spans open)
     = total_columns spans + Z.of_nat (length cells).
Proof.
  revert cells spans open. induction fuel as [|fuel IH]; intros cells spans open Hf Hs.
  { destruct cells; [|cbn in Hf; lia]. split; [done|]. cbn [spans_loop length]. lia. }
  destruct cells as [|cell rest]; [split; [done|cbn [spans_loop length]; lia]|].
  cbn [length] in Hf |- *.
  cbn [spans_loop]. destruct (run_character cell) as [c|].
  - assert (Hnew : forall before, Forall (fun span => 1 <= sp_columns span) before ->
      Forall (fun span => 1 <= sp_columns span)
        (spans_loop fuel rest (new_span cell [c] 1 :: before) true)
      /\ total_columns (spans_loop fuel rest (new_span cell [c] 1 :: before) true)
         = total_columns before + Z.of_nat (S (length rest))).
    { intros before Hb.
      destruct (IH rest (new_span cell [c] 1 :: before) true ltac:(lia)) as [? ->];
        [by constructor|].
      split; [done|]. rewrite total_columns_cons. cbn [new_span sp_columns]. lia. }
    destruct spans as [|run before]; [by apply Hnew|]. case_if; [|by apply Hnew].
    apply Forall_cons in Hs as [Hr Hs].
    destruct (IH rest (extend_run run c :: before) true ltac:(lia)) as [? ->].
    { constructor; [cbn; lia|done]. }
    split; [done|]. rewrite !total_columns_cons. cbn [extend_run sp_columns]. lia.
  - set (more := if 2 <=? cd_width cell then continuations rest else O).
    assert (Hm : (more <= length rest)%nat).
    { unfold more. pose proof (continuations_length rest). case_if; lia. }
    match goal with |- context [spans_loop fuel _ (?x :: spans) false] =>
      destruct (IH (drop more rest) (x :: spans) false) as [? ->] end.
    + rewrite length_drop. lia.
    + constructor; [cbn; lia|done].
    + split; [done|]. rewrite length_drop, total_columns_cons. cbn [new_span sp_columns]. lia.
Qed.

Lemma kept_prefix cells length :
  take length cells
  = take (trimmed_end cells length) cells ++ drop (trimmed_end cells length) (take length cells).
Proof.
  unfold trimmed_end. destruct (trim_reversed_spec (rev (take length cells))) as (d & Hd & _).
  set (k := List.length (trim_reversed (rev (take length cells)))).
  rewrite <- (take_drop k (take length cells)) at 1. f_equal. rewrite take_take. f_equal.
  assert (List.length (rev (take length cells)) = (List.length d + k)%nat)
    by (rewrite Hd at 1; by rewrite length_app).
  rewrite length_rev, length_take in H. lia.
Qed.

Lemma trimmed_end_le cells length : (trimmed_end cells length <= List.length cells)%nat.
Proof.
  unfold trimmed_end. destruct (trim_reversed_spec (rev (take length cells))) as (d & Hd & _).
  assert (H : List.length (rev (take length cells))
              = List.length (d ++ trim_reversed (rev (take length cells)))) by by rewrite <- Hd.
  rewrite length_rev, length_app, length_take in H. lia.
Qed.

Lemma trimmed_blank cells i cell :
  (trimmed_end cells (length cells) <= i)%nat -> cells !! i = Some cell ->
  trimmable cell (rev (take i cells)).
Proof.
  intros Hi Hc. pose proof (lookup_lt_Some _ _ _ Hc) as Hlt.
  destruct (trim_reversed_spec (rev (take (length cells) cells))) as (d & Hd & Ht).
  unfold trimmed_end in Hi. rewrite take_ge in Hd, Ht, Hi by done.
  assert (Hr : rev cells = rev (drop (S i) cells) ++ cell :: rev (take i cells)).
  { rewrite <- (take_drop_middle cells i cell Hc) at 1. rewrite rev_app_distr. cbn [rev].
    by rewrite <- app_assoc. }
  set (k := trim_reversed (rev cells)) in *. rewrite Hr in Hd.
  assert (Hl : length (rev (drop (S i) cells)) = (length cells - S i)%nat)
    by by rewrite length_rev, length_drop.
  assert (Hlen : (length d + length k = length cells)%nat).
  { rewrite <- (length_rev cells), Hr, Hd, length_app. done. }
  assert (Hrest : length (cell :: rev (take i cells)) = S i)
    by (cbn [length]; rewrite length_rev, length_take; lia).
  apply app_eq_inv in Hd as [(x & _ & E)|(x & E1 & E2)].
  - rewrite E, length_app, Hrest in Hlen. rewrite E, length_app, Hrest in Hi. lia.
  - destruct x as [|y x]; cbn [app] in E2; [rewrite <- E2, Hrest in Hi; lia|].
    injection E2 as -> E2. rewrite E2. by eapply Ht.
Qed.


(** A default cell, and a row: a run, a wide glyph, a linked cell, padding. *)
Definition plain_cell (c width : Z) : CellData :=
  mkCellData c None width DEFAULT_COLOR DEFAULT_COLOR 0 None None None None.

Definition demo_cells : list CellData :=
  [ plain_cell 0x61 1; plain_cell 0x62 1; plain_cell 0x4e2d 2; plain_cell 0 0;
    mkCellData 0x78 None 1 DEFAULT_COLOR DEFAULT_COLOR 0 None None (Some [0x75]) (Some [0x6b]);
    plain_cell 0x20 1; plain_cell 0x20 1 ].


(** A wide glyph made of a base and one mark that is not among the joining
    scalars is cut in two.  Its span has two scalars and two columns, the
    reader takes it for a run of two narrow cells: the first column reads as
    the bare base, the second as the bare mark, and a match on the base alone
    highlights half of the glyph. *)
Theorem wide_cluster_sliced cell continuation c m :
  cd_width cell = 2 -> cd_width continuation = 0 ->
  cd_character cell = c -> cd_combining cell = Some [m] ->
  char_from_u32 c = Some c -> char_from_u32 m = Some m ->
  joining_scalar c = false -> joining_scalar m = false ->
  let spans := row_to_spans [cell; continuation] 2 in
  spans_text spans = [c; m] /\ row_columns spans = 2
  /\ column_text spans 0 = [c] /\ column_text spans 1 = [m]
  /\ text_range_to_columns spans 0 1 = mkColumnRange 0 1.
Proof.
  intros Hw Hw0 Hch Hcomb Hc Hm Hjc Hjm spans.
  assert (E : spans = [new_span cell [c; m] 2]).
  { assert (Hkeep : trimmed_end [cell; continuation] 2 = 2%nat).
    { unfold trimmed_end. cbn [take rev app trim_reversed].
      rewrite Hw0. cbn [lead_of]. rewrite Hw. cbn [Z.eqb andb]. rewrite Hw.
      by destruct (is_blank_default continuation). }
    unfold spans, row_to_spans. rewrite Hkeep. cbn [take List.length spans_loop].
    unfold run_character. rewrite Hcomb, Hw. cbn [Z.eqb Pos.eqb andb Z.leb Z.compare].
    cbn [continuations]. rewrite Hw0. cbn [Z.eqb drop spans_loop rev app].
    unfold scalar_text. by rewrite Hch, Hc, Hcomb; cbn; rewrite Hm. }
  assert (Ha : span_is_atomic (new_span cell [c; m] 2) = false)
    by (unfold span_is_atomic; cbn -[joining_scalar]; by rewrite Hjc, Hjm).
  rewrite E. assert (Ht : sp_text (new_span cell [c; m] 2) = [c; m]) by done.
  assert (Hn : sp_columns (new_span cell [c; m] 2) = 2) by done.
  revert Ha Ht Hn. generalize (new_span cell [c; m] 2) as sp. intros sp Ha Ht Hn.
  assert (Ho : Forall occupied [sp]) by (repeat constructor; rewrite Hn; lia).
  assert (Hp : paint [sp] = [mkColumn [c] 0 (style_of_span sp); mkColumn [m] 0 (style_of_span sp)])
    by (unfold paint, span_paint; cbn; by rewrite Ha, Ht).
  split; [cbn; by rewrite Ht|]. split; [unfold row_columns; cbn; by rewrite Hn|].
  split; [by rewrite column_text_paint, Hp|]. split; [by rewrite column_text_paint, Hp|].
  unfold text_range_to_columns, text_offset_to_column, text_offset_to_column_end, columns_at_offset.
  cbn [columns_from Z.eqb Z.add Pos.add]. unfold scalar_count. by rewrite Ht, Ha.
Qed.

(** The decomposed kana GA, as a Mac writes a file name. *)
Lemma wide_cluster_sliced_witness :
  let cell := mkCellData 0x304b (Some [0x3099]) 2 DEFAULT_COLOR DEFAULT_COLOR 0 None None None None in
  column_text (row_to_spans [cell; plain_cell 0 0] 2) 1 = [0x3099].
Proof.
  apply (wide_cluster_sliced (mkCellData 0x304b (Some [0x3099]) 2 DEFAULT_COLOR DEFAULT_COLOR 0
           None None None None) (plain_cell 0 0) 0x304b 0x3099); reflexivity.
Defined.
