(* ===== verification/CellDelta.v ===== *)
(** * CellDelta: replicas of a terminal grid

    Models [src/crates/roost-protocol/src/cell/diff_grid.rs] and
    [delta_batch.rs]: applying a frame to a held grid, keeping a viewport-only
    checkpoint, and folding a run of deltas into one patch for a renderer.  A
    refused frame is [None], and every refusal precedes the first mutation, so
    the held frame is then the one that was passed.  A row is shared, never
    mutated in place but for its index, so copies are values here. *)
From Stdlib Require Import Ascii String.
From S2P Require Export CellTypes.

(** ** Updates of a frame's fields *)

Definition with_rows (f : CellGridFrame) (rows : list CellRow) : CellGridFrame :=
  mkCellGridFrame (f_stream_id f) (f_grid_epoch f) (f_cols f) (f_rows f) (f_cursor_row f)
    (f_cursor_col f) (f_cursor_visible f) (f_alt_screen f) (f_cursor_keys_app f)
    (f_bracketed_paste f) (f_mouse_tracking f) (f_mouse_sgr f) (f_focus_events f)
    (f_kitty_keyboard_flags f) (f_full f) rows (f_scrollback_rows f) (f_scrollback_append f)
    (f_scrollback_total f) (f_sb_base f) (f_base_seq f) (f_seq f) (f_image_placements f).

Definition with_history (f : CellGridFrame) (history append : list CellRow) : CellGridFrame :=
  mkCellGridFrame (f_stream_id f) (f_grid_epoch f) (f_cols f) (f_rows f) (f_cursor_row f)
    (f_cursor_col f) (f_cursor_visible f) (f_alt_screen f) (f_cursor_keys_app f)
    (f_bracketed_paste f) (f_mouse_tracking f) (f_mouse_sgr f) (f_focus_events f)
    (f_kitty_keyboard_flags f) (f_full f) (f_viewport_rows f) history append
    (f_scrollback_total f) (f_sb_base f) (f_base_seq f) (f_seq f) (f_image_placements f).

(** [clone_frame_without_retained_history]. *)
Definition clone_without_retained_history (f : CellGridFrame) (retain_append : bool) :
    CellGridFrame :=
  with_history f [] (if retain_append then f_scrollback_append f else []).

Definition clone_cell_grid_frame_without_history (f : CellGridFrame) : CellGridFrame :=
  clone_without_retained_history f true.

Definition clone_cell_grid_frame (f : CellGridFrame) : CellGridFrame :=
  with_history (clone_cell_grid_frame_without_history f) (f_scrollback_rows f)
    (f_scrollback_append (clone_cell_grid_frame_without_history f)).

Definition normalize_cell_grid_frame (f : CellGridFrame) : CellGridFrame :=
  mkCellGridFrame (f_stream_id f) (f_grid_epoch f) (f_cols f) (f_rows f) (f_cursor_row f)
    (f_cursor_col f) (f_cursor_visible f) (f_alt_screen f) (f_cursor_keys_app f)
    (f_bracketed_paste f) (f_mouse_tracking f) (f_mouse_sgr f) (f_focus_events f)
    (f_kitty_keyboard_flags f) true (f_viewport_rows f) [] [] (f_scrollback_total f)
    (f_scrollback_total f) 0 (f_seq f) (Some (default [] (f_image_placements f))).

(** ** One delta *)

(** [u32::try_from(len).unwrap_or(u32::MAX)]. *)
Definition len_u32 {A} (l : list A) : Z := if len l <? 2 ^ 32 then len l else 2 ^ 32 - 1.

Definition delta_viewport_shift (base delta : CellGridFrame) : Z :=
  if negb (len (f_viewport_rows delta) =? f_rows base) then 0
  else
    let shift := Z.min (len_u32 (f_scrollback_append delta)) (f_rows base) in
    if shift =? 0 then 0
    else
      match f_viewport_rows base, f_scrollback_append delta with
      | held :: _, appended :: _ =>
          if bool_decide (row_spans held = row_spans appended) then shift else 0
      | _, _ => 0
      end.

(** The [changed] table: every row names a slot, and none twice. *)
Fixpoint mark_changed (changed : list bool) (rows : list CellRow) : option (list bool) :=
  match rows with
  | [] => Some changed
  | row :: rest =>
      let slot := Z.to_nat (row_index row) in
      match changed !! slot with
      | Some false => mark_changed (<[slot := true]> changed) rest
      | _ => None
      end
  end.

Definition with_index (row : CellRow) (index : Z) : CellRow :=
  mkCellRow index (row_spans row) (row_mark row).

(** [rotate_left(moved)], then the rows that moved are renumbered. *)
Definition shift_rows (rows : list CellRow) (height moved : nat) : list CellRow :=
  imap (fun i row => if (i <? height - moved)%nat then with_index row (Z.of_nat i) else row)
    (drop moved rows ++ take moved rows).

(** Overwrite the changed rows by index. *)
Definition overwrite (rows changed : list CellRow) : list CellRow :=
  foldl (fun rows row => <[Z.to_nat (row_index row) := row]> rows) rows changed.

(** The checks before the first mutation. *)
Definition delta_follows (base delta : CellGridFrame) : bool :=
  String.eqb (f_stream_id delta) (f_stream_id base)
  && (f_base_seq delta =? f_seq base)
  && ((f_base_seq delta + 1 <? 2 ^ 64) && (f_base_seq delta + 1 =? f_seq delta))
  && String.eqb (f_grid_epoch delta) (f_grid_epoch base)
  && (f_cols delta =? f_cols base) && (f_rows delta =? f_rows base)
  && Bool.eqb (f_alt_screen delta) (f_alt_screen base)
  && (len (f_viewport_rows base) =? f_rows base)
  && bool_decide (f_scrollback_rows delta = []).

Definition apply_delta_with_history (base delta : CellGridFrame) (retain_history : bool) :
    option CellGridFrame :=
  if f_full delta then
    Some (if retain_history then delta else clone_without_retained_history delta false)
  else if negb (delta_follows base delta) then None
  else
    match mark_changed (replicate (length (f_viewport_rows base)) false)
            (f_viewport_rows delta) with
    | None => None
    | Some _ =>
        let scrolled := delta_viewport_shift base delta in
        let rows :=
          if 0 <? scrolled
          then shift_rows (f_viewport_rows base) (Z.to_nat (f_rows base)) (Z.to_nat scrolled)
          else f_viewport_rows base in
        Some (mkCellGridFrame (f_stream_id delta) (f_grid_epoch delta) (f_cols delta)
                (f_rows delta) (f_cursor_row delta) (f_cursor_col delta)
                (f_cursor_visible delta) (f_alt_screen delta) (f_cursor_keys_app delta)
                (f_bracketed_paste delta) (f_mouse_tracking delta) (f_mouse_sgr delta)
                (f_focus_events delta) (f_kitty_keyboard_flags delta) true
                (overwrite rows (f_viewport_rows delta))
                (if retain_history then f_scrollback_rows base ++ f_scrollback_append delta
                 else f_scrollback_rows base)
                [] (f_scrollback_total delta) (f_sb_base base) 0 (f_seq delta)
                (match f_image_placements delta with
                 | Some placements => Some placements
                 | None => f_image_placements base
                 end))
    end.

Definition apply_delta (base delta : CellGridFrame) : option CellGridFrame :=
  apply_delta_with_history base delta true.

(** [apply_viewport_frame]: the checkpoint after the frame, [None] when the
    frame was refused and the checkpoint left as it was. *)
Definition apply_viewport_frame (checkpoint : option CellGridFrame) (frame : CellGridFrame) :
    option CellGridFrame :=
  match checkpoint with
  | Some current =>
      normalize_cell_grid_frame <$> apply_delta_with_history current frame false
  | None =>
      if f_full frame
      then Some (normalize_cell_grid_frame (clone_without_retained_history frame false))
      else None
  end.

(** ** A batch of deltas *)

Record CellDeltaBatch := mkCellDeltaBatch {
  batch_frame : CellGridFrame;
  dirty_rows : list CellRow;
  batch_append : list CellRow;
  viewport_shift : Z;
}.

Definition has_contiguous_scrollback_append (base delta : CellGridFrame) : bool :=
  let appended := f_scrollback_total base + len (f_scrollback_append delta) in
  (appended <? 2 ^ 64) && (f_scrollback_total delta =? appended)
  && forallb id
       (imap (fun offset row =>
                row_index row =? f_scrollback_total base + Z.of_nat offset)
          (f_scrollback_append delta)).

(** [copy_within(shift.., 0)], then the marks of the exposed rows cleared. *)
Definition shift_marks (marks : list bool) (height shift : nat) : list bool :=
  imap (fun i mark => if (height - shift <=? i)%nat then false else mark)
    (drop shift marks ++ drop (length marks - shift) marks).

Definition set_marks (marks : list bool) (changed : list Z) : list bool :=
  foldl (fun marks index => <[Z.to_nat index := true]> marks) marks changed.

(** The fold's state: the frame, the marks, the appended rows, the shift. *)
Record FoldState := mkFoldState {
  fold_frame : CellGridFrame;
  fold_marks : list bool;
  fold_append : list CellRow;
  fold_shift : Z;
}.

Definition fold_step (st : FoldState) (delta : CellGridFrame) : option FoldState :=
  let folded := fold_frame st in
  if f_full delta || negb (has_contiguous_scrollback_append folded delta) then None
  else
    let shift := delta_viewport_shift folded delta in
    match apply_delta folded delta with
    | None => None
    | Some folded =>
        let marks :=
          if 0 <? shift
          then shift_marks (fold_marks st) (Z.to_nat (f_rows folded)) (Z.to_nat shift)
          else fold_marks st in
        Some (mkFoldState folded (set_marks marks (row_index <$> f_viewport_rows delta))
                (fold_append st ++ f_scrollback_append delta)
                (Z.min (f_rows folded) (u32 (fold_shift st + shift))))
    end.

Fixpoint fold_deltas (st : FoldState) (deltas : list CellGridFrame) : option FoldState :=
  match deltas with
  | [] => Some st
  | delta :: rest => st ← fold_step st delta; fold_deltas st rest
  end.

Definition marked_rows (rows : list CellRow) (marks : list bool) : list CellRow :=
  omap (fun pair : CellRow * bool => if snd pair then Some (fst pair) else None) (zip rows marks).

Definition fold_cell_delta_batch (base : CellGridFrame) (deltas : list CellGridFrame) :
    option CellDeltaBatch :=
  if bool_decide (deltas = []) then None
  else
    let folded := clone_cell_grid_frame_without_history base in
    st ← fold_deltas (mkFoldState folded (replicate (Z.to_nat (f_rows folded)) false) [] 0) deltas;
    let rows := f_viewport_rows (fold_frame st) in
    Some (mkCellDeltaBatch (fold_frame st)
            (if fold_shift st =? f_rows (fold_frame st) then rows
             else marked_rows rows (fold_marks st))
            (fold_append st) (fold_shift st)).

(** ** Overwriting rows *)

Definition slot (row : CellRow) : nat := Z.to_nat (row_index row).

(** No two different rows of [changed] name one slot. *)
Definition functional (changed : list CellRow) : Prop :=
  forall r r', r ∈ changed -> r' ∈ changed -> slot r = slot r' -> r = r'.

Lemma functional_cons x changed : functional (x :: changed) -> functional changed.
Proof. intros H r r' Hr Hr'. apply H; by right. Qed.

Lemma overwrite_cons rows x changed :
  overwrite rows (x :: changed) = overwrite (<[slot x := x]> rows) changed.
Proof. done. Qed.

Lemma length_overwrite rows changed : length (overwrite rows changed) = length rows.
Proof.
  revert rows. induction changed as [|x changed IH]; intros rows; [done|].
  by rewrite overwrite_cons, IH, length_insert.
Qed.

Lemma overwrite_other rows changed i :
  (forall r, r ∈ changed -> slot r <> i) -> overwrite rows changed !! i = rows !! i.
Proof.
  revert rows. induction changed as [|x changed IH]; intros rows Hne; [done|].
  rewrite overwrite_cons, IH by (intros r Hr; apply Hne; by right).
  apply list_lookup_insert_ne. apply Hne. by left.
Qed.

Lemma overwrite_named rows changed r :
  functional changed -> r ∈ changed -> (slot r < length rows)%nat ->
  overwrite rows changed !! slot r = Some r.
Proof.
  revert rows. induction changed as [|x changed IH]; intros rows Hf Hr Hlt;
    [by apply not_elem_of_nil in Hr|].
  rewrite overwrite_cons.
  destruct (decide (slot r ∈ slot <$> changed)) as [(r' & Heq & Hin)%list_elem_of_fmap|Hno].
  - assert (r' = r) as -> by (apply Hf; [by right|done|done]).
    apply IH; [by eapply functional_cons|done|by rewrite length_insert].
  - apply elem_of_cons in Hr as [->|Hr]; [|by destruct Hno; apply list_elem_of_fmap_2].
    rewrite overwrite_other; [by apply list_lookup_insert_eq|].
    intros r' Hr' Heq. apply Hno. rewrite <- Heq. by apply list_elem_of_fmap_2.
Qed.

Lemma length_set_marks marks changed : length (set_marks marks changed) = length marks.
Proof.
  revert marks. induction changed as [|x changed IH]; intros marks; [done|].
  cbn [set_marks foldl]. fold (set_marks (<[Z.to_nat x := true]> marks) changed).
  by rewrite IH, length_insert.
Qed.

Lemma set_marks_lookup marks changed i :
  set_marks marks changed !! i
  = if decide (i ∈ Z.to_nat <$> changed) then (fun _ => true) <$> marks !! i else marks !! i.
Proof.
  revert marks. induction changed as [|x changed IH]; intros marks; [done|].
  cbn [set_marks foldl fmap list_fmap]. fold (set_marks (<[Z.to_nat x := true]> marks) changed).
  rewrite IH. destruct (decide (i = Z.to_nat x)) as [->|Hne].
  - rewrite (decide_True (P := Z.to_nat x ∈ Z.to_nat x :: _)) by (left; done).
    destruct (decide (Z.to_nat x < length marks)%nat).
    + rewrite list_lookup_insert_eq by done.
      destruct (lookup_lt_is_Some_2 marks (Z.to_nat x)) as [b ->]; [done|]. by case_decide.
    + rewrite list_insert_ge by lia. rewrite (lookup_ge_None_2 marks) by lia. by case_decide.
  - rewrite list_lookup_insert_ne by done.
    destruct (decide (i ∈ Z.to_nat <$> changed)), (decide (i ∈ Z.to_nat x :: (Z.to_nat <$> changed)))
      as [|Hn]; try done.
    + destruct Hn. by right.
    + exfalso. rewrite elem_of_cons in *. tauto.
Qed.

(** What the [changed] table proves of a delta's rows. *)
Lemma mark_changed_spec changed rows changed' :
  mark_changed changed rows = Some changed' ->
  NoDup (slot <$> rows) /\ (forall r, r ∈ rows -> changed !! slot r = Some false).
Proof.
  revert changed. induction rows as [|row rest IH]; intros changed H.
  { split; [constructor|]. intros r Hr. by apply not_elem_of_nil in Hr. }
  cbn [mark_changed] in H. fold (slot row) in H.
  destruct (changed !! slot row) as [[]|] eqn:Hrow; [done| |done].
  apply IH in H as [Hnd Hall].
  assert (Hne : forall r, r ∈ rest -> slot r <> slot row).
  { intros r Hr Heq. specialize (Hall r Hr). rewrite Heq, list_lookup_insert_eq in Hall; [done|].
    by apply lookup_lt_Some in Hrow. }
  split.
  - cbn [fmap list_fmap]. constructor; [|done]. intros (r & Heq & Hr)%list_elem_of_fmap.
    by apply (Hne r Hr).
  - intros r [->|Hr]%elem_of_cons; [done|]. specialize (Hall r Hr).
    rewrite list_lookup_insert_ne in Hall; [done|]. intros E. by apply (Hne r Hr).
Qed.

Lemma nodup_functional rows : NoDup (slot <$> rows) -> functional rows.
Proof.
  intros Hnd r r' (i & Hi)%list_elem_of_lookup (j & Hj)%list_elem_of_lookup Heq.
  assert (i = j) as ->; [|congruence].
  eapply (NoDup_lookup (slot <$> rows) i j (slot r)); [done| |];
    rewrite list_lookup_fmap, ?Hi, ?Hj; cbn; congruence.
Qed.

(** Distinct slots below [n], as many as [n]: every slot is named. *)
Lemma slots_cover rows n i :
  NoDup (slot <$> rows) -> (forall r, r ∈ rows -> (slot r < n)%nat) -> length rows = n ->
  (i < n)%nat -> exists r, r ∈ rows /\ slot r = i.
Proof.
  intros Hnd Hlt Hlen Hi.
  assert (Hin : i ∈ slot <$> rows).
  { apply (nat_cover _ n); [done| |by rewrite length_fmap|done].
    intros k (r & -> & Hr)%list_elem_of_fmap. by apply Hlt. }
  apply list_elem_of_fmap in Hin as (r & -> & ?). eauto.
Qed.

(** ** One applied delta *)

(** What a delta that is not full does, read off its definition. *)
Lemma apply_delta_shape base delta retain frame :
  f_full delta = false -> apply_delta_with_history base delta retain = Some frame ->
  delta_follows base delta = true
  /\ len (f_viewport_rows base) = f_rows base
  /\ (exists marks, mark_changed (replicate (length (f_viewport_rows base)) false)
                      (f_viewport_rows delta) = Some marks)
  /\ f_rows frame = f_rows base /\ f_seq frame = f_seq base + 1
  /\ f_scrollback_total frame = f_scrollback_total delta
  /\ f_viewport_rows frame
     = overwrite
         (if 0 <? delta_viewport_shift base delta
          then shift_rows (f_viewport_rows base) (Z.to_nat (f_rows base))
                 (Z.to_nat (delta_viewport_shift base delta))
          else f_viewport_rows base) (f_viewport_rows delta)
  /\ f_scrollback_rows frame
     = (if retain then f_scrollback_rows base ++ f_scrollback_append delta
        else f_scrollback_rows base)
  /\ f_scrollback_append frame = [].
Proof.
  intros Hfull. unfold apply_delta_with_history. rewrite Hfull.
  destruct (delta_follows base delta) eqn:Hf; [|done].
  cbn [negb]. destruct (mark_changed _ _) as [marks|] eqn:Hm; [|done].
  intros [= <-]. cbn. unfold delta_follows in Hf.
  rewrite !andb_true_iff, !Z.eqb_eq in Hf. split_and!; try done; try (by eauto); lia.
Qed.

(** The rows of a delta that was applied: distinct slots inside the grid. *)
Lemma applied_slots base delta marks :
  mark_changed (replicate (length (f_viewport_rows base)) false) (f_viewport_rows delta)
  = Some marks ->
  NoDup (slot <$> f_viewport_rows delta)
  /\ (forall r, r ∈ f_viewport_rows delta -> (slot r < length (f_viewport_rows base))%nat).
Proof.
  intros H%mark_changed_spec. destruct H as [Hnd Hall]. split; [done|].
  intros r Hr. specialize (Hall r Hr). apply lookup_replicate in Hall. lia.
Qed.

Lemma length_shift_rows rows height moved :
  length (shift_rows rows height moved) = length rows.
Proof. unfold shift_rows. rewrite length_imap, length_app, length_drop, length_take. lia. Qed.

Lemma viewport_shift_bounds base delta :
  0 <= f_rows base -> 0 <= delta_viewport_shift base delta <= f_rows base.
Proof.
  intros H. unfold delta_viewport_shift, len_u32. cbn zeta.
  pose proof (len_nonneg (f_scrollback_append delta)).
  repeat case_match; try lia.
Qed.

(** A shifting delta restates every row of the viewport. *)
Lemma viewport_shift_covers base delta :
  0 < delta_viewport_shift base delta -> len (f_viewport_rows delta) = f_rows base.
Proof.
  unfold delta_viewport_shift. destruct (Z.eqb_spec (len (f_viewport_rows delta)) (f_rows base));
    cbn [negb]; [done|lia].
Qed.

(** ** The fold's invariant *)

(** What a fold from the rows [held] of a grid [height] rows high has proved:
    a mark names a row of the successor that states its own index; while
    nothing moved an unmarked row is still the held one, and once anything
    moved every row is marked. *)
Record fold_inv (held : list CellRow) (height : nat) (st : FoldState) : Prop := {
  fold_height : f_rows (fold_frame st) = Z.of_nat height;
  fold_len : length (f_viewport_rows (fold_frame st)) = height;
  fold_marks_len : length (fold_marks st) = height;
  fold_shift_range : 0 <= fold_shift st <= Z.of_nat height;
  fold_marked : forall i, fold_marks st !! i = Some true ->
    exists r, f_viewport_rows (fold_frame st) !! i = Some r /\ slot r = i;
  fold_unmoved : fold_shift st = 0 -> forall i, fold_marks st !! i = Some false ->
    f_viewport_rows (fold_frame st) !! i = held !! i;
  fold_moved : 0 < fold_shift st ->
    forall i, (i < height)%nat -> fold_marks st !! i = Some true;
}.

Lemma fold_step_shape st delta st' :
  fold_step st delta = Some st' ->
  f_full delta = false
  /\ has_contiguous_scrollback_append (fold_frame st) delta = true
  /\ apply_delta (fold_frame st) delta = Some (fold_frame st')
  /\ fold_marks st'
     = set_marks
         (if 0 <? delta_viewport_shift (fold_frame st) delta
          then shift_marks (fold_marks st) (Z.to_nat (f_rows (fold_frame st')))
                 (Z.to_nat (delta_viewport_shift (fold_frame st) delta))
          else fold_marks st) (row_index <$> f_viewport_rows delta)
  /\ fold_append st' = fold_append st ++ f_scrollback_append delta
  /\ fold_shift st'
     = Z.min (f_rows (fold_frame st'))
         (u32 (fold_shift st + delta_viewport_shift (fold_frame st) delta)).
Proof.
  unfold fold_step. destruct (f_full delta); [done|].
  destruct (has_contiguous_scrollback_append (fold_frame st) delta); [|done].
  cbn [negb orb]. destruct (apply_delta (fold_frame st) delta); [|done].
  by intros [= <-].
Qed.

Lemma length_shift_marks marks height shift :
  (shift <= length marks)%nat -> length (shift_marks marks height shift) = length marks.
Proof. intros. unfold shift_marks. rewrite length_imap, length_app, !length_drop. lia. Qed.

Lemma fmap_slot (rows : list CellRow) : Z.to_nat <$> (row_index <$> rows) = slot <$> rows.
Proof. by rewrite <- list_fmap_compose. Qed.

Lemma named_row_marked marks rows r :
  r ∈ rows -> (slot r < length marks)%nat ->
  set_marks marks (row_index <$> rows) !! slot r = Some true.
Proof.
  intros Hr Hlt. rewrite set_marks_lookup, fmap_slot.
  rewrite decide_True by (by apply list_elem_of_fmap_2).
  by destruct (lookup_lt_is_Some_2 marks _ Hlt) as [b ->].
Qed.

Lemma fold_step_inv held height st delta st' :
  2 * Z.of_nat height < 2 ^ 32 -> fold_inv held height st ->
  fold_step st delta = Some st' -> fold_inv held height st'.
Proof.
  intros Hsmall [Hh Hl Hml Hs Hm Hun Hmv] (Hfull & _ & Happly & Hmarks & _ & Hshift)%fold_step_shape.
  destruct (apply_delta_shape _ _ _ _ Hfull Happly)
    as (_ & _ & (marks & Hmk) & Hrows & _ & _ & Hview & _).
  apply applied_slots in Hmk as [Hnd Hslots]. rewrite Hl in Hslots.
  pose proof (nodup_functional _ Hnd) as Hfun.
  pose proof (viewport_shift_bounds (fold_frame st) delta ltac:(lia)) as Hb.
  pose proof (viewport_shift_covers (fold_frame st) delta) as Hcov.
  set (d := delta_viewport_shift (fold_frame st) delta) in *.
  rewrite Hrows, Hh, Nat2Z.id in Hmarks. rewrite Hh, Nat2Z.id in Hview.
  rewrite wrap_small in Hshift by (unfold fits; lia).
  assert (Hlen : length (f_viewport_rows (fold_frame st')) = height).
  { rewrite Hview, length_overwrite. case_match; rewrite ?length_shift_rows; done. }
  assert (Hml' : length (fold_marks st') = height).
  { rewrite Hmarks, length_set_marks. case_match; rewrite ?length_shift_marks; lia. }
  assert (Hnamed : forall r, r ∈ f_viewport_rows delta ->
            f_viewport_rows (fold_frame st') !! slot r = Some r
            /\ fold_marks st' !! slot r = Some true).
  { intros r Hr. specialize (Hslots r Hr). rewrite Hview, Hmarks. split.
    - apply overwrite_named; [done|done|]. case_match; rewrite ?length_shift_rows; lia.
    - apply named_row_marked; [done|]. case_match; rewrite ?length_shift_marks; lia. }
  assert (Hother : forall i, ~ i ∈ slot <$> f_viewport_rows delta -> d = 0 ->
            f_viewport_rows (fold_frame st') !! i = f_viewport_rows (fold_frame st) !! i
            /\ fold_marks st' !! i = fold_marks st !! i).
  { intros i Hi Hd. rewrite Hview, Hmarks, Hd. cbn [Z.ltb Z.compare]. split.
    - apply overwrite_other. intros r Hr <-. by apply Hi, list_elem_of_fmap_2.
    - rewrite set_marks_lookup, fmap_slot. by rewrite decide_False. }
  assert (Hall : 0 < d -> forall i, (i < height)%nat ->
            exists r, r ∈ f_viewport_rows delta /\ slot r = i).
  { intros Hd i Hi. apply (slots_cover _ height); [done|done| |done].
    specialize (Hcov Hd). unfold len in Hcov. lia. }
  assert (Hcase : forall i, (i < height)%nat ->
            (exists r, r ∈ f_viewport_rows delta /\ slot r = i)
            \/ (d = 0 /\ ~ i ∈ slot <$> f_viewport_rows delta)).
  { intros i Hi. destruct (decide (i ∈ slot <$> f_viewport_rows delta))
      as [(r & -> & Hr)%list_elem_of_fmap|Hno]; [left; by exists r|].
    right. split; [|done]. destruct (decide (d = 0)); [done|]. exfalso. apply Hno.
    destruct (Hall ltac:(lia) i Hi) as (r & Hr & <-). by apply list_elem_of_fmap_2. }
  constructor; [lia|done|done|lia| | |].
  - intros i Hi. assert (Hlt : (i < height)%nat) by (apply lookup_lt_Some in Hi; lia).
    destruct (Hcase i Hlt) as [(r & Hr & <-)|[Hd Hno]].
    + exists r. split; [by apply Hnamed|done].
    + destruct (Hother i Hno Hd) as [-> Heq]. apply Hm. by rewrite <- Heq.
  - intros Hz i Hi. assert (Hlt : (i < height)%nat) by (apply lookup_lt_Some in Hi; lia).
    destruct (Hcase i Hlt) as [(r & Hr & <-)|[Hd Hno]].
    + destruct (Hnamed r Hr) as [_ Ht]. congruence.
    + destruct (Hother i Hno Hd) as [-> Heq]. apply Hun; [lia|]. by rewrite <- Heq.
  - intros Hz i Hi. destruct (Hcase i Hi) as [(r & Hr & <-)|[Hd Hno]]; [by apply Hnamed|].
    destruct (Hother i Hno Hd) as [_ ->]. apply Hmv; [lia|done].
Qed.

(** ** The fold against its reference *)

(** The reference: each delta applied on its own to the held frame, refused
    when it is full or its history is not the next rows. *)
Fixpoint apply_each (held : CellGridFrame) (deltas : list CellGridFrame) :
    option CellGridFrame :=
  match deltas with
  | [] => Some held
  | delta :: rest =>
      if f_full delta || negb (has_contiguous_scrollback_append held delta) then None
      else held ← apply_delta held delta; apply_each held rest
  end.

Lemma contiguous_with_history f history append delta :
  has_contiguous_scrollback_append (with_history f history append) delta
  = has_contiguous_scrollback_append f delta.
Proof. done. Qed.

(** A delta does not look at the held history. *)
Lemma apply_delta_with_held f history append delta :
  f_full delta = false ->
  apply_delta (with_history f history append) delta
  = (fun g => with_history g (history ++ f_scrollback_append delta) [])
      <$> apply_delta (with_history f [] append) delta.
Proof.
  intros Hfull. unfold apply_delta, apply_delta_with_history. rewrite Hfull.
  change (delta_follows (with_history f history append) delta)
    with (delta_follows (with_history f [] append) delta).
  destruct (delta_follows _ _); [|done]. cbn [negb f_viewport_rows with_history].
  by destruct (mark_changed _ _).
Qed.

Lemma apply_delta_append base append delta :
  f_full delta = false ->
  apply_delta (with_history base (f_scrollback_rows base) append) delta = apply_delta base delta.
Proof. intros Hfull. unfold apply_delta, apply_delta_with_history. by rewrite Hfull. Qed.

Lemma apply_delta_history base delta frame :
  f_full delta = false -> apply_delta base delta = Some frame ->
  f_scrollback_rows frame = f_scrollback_rows base ++ f_scrollback_append delta
  /\ f_scrollback_append frame = [].
Proof. intros Hfull H. by apply apply_delta_shape in H as (_&_&_&_&_&_&_&?&?). Qed.

Lemma with_history_self f : with_history f (f_scrollback_rows f) (f_scrollback_append f) = f.
Proof. by destruct f. Qed.

(** The fold is the reference run from the same frame. *)
Lemma fold_deltas_each st deltas :
  fold_frame <$> fold_deltas st deltas = apply_each (fold_frame st) deltas.
Proof.
  revert st. induction deltas as [|delta rest IH]; intros st; [done|].
  cbn [fold_deltas apply_each]. unfold fold_step.
  destruct (f_full delta); [done|].
  destruct (has_contiguous_scrollback_append (fold_frame st) delta); [|done].
  cbn [orb negb mbind option_bind].
  destruct (apply_delta (fold_frame st) delta) as [frame|]; [|done].
  cbn [mbind option_bind]. by rewrite IH.
Qed.

(** The reference commutes with a history carried apart. *)
Lemma apply_each_held f history append deltas :
  deltas <> [] ->
  apply_each (with_history f history append) deltas
  = (fun g => with_history g (history ++ f_scrollback_rows g) [])
      <$> apply_each (with_history f [] append) deltas.
Proof.
  revert f history append. induction deltas as [|delta rest IH]; [done|].
  intros f history append _. cbn [apply_each]. rewrite !contiguous_with_history.
  destruct (f_full delta) eqn:Hfull; [done|].
  destruct (has_contiguous_scrollback_append f delta); [|done].
  cbn [orb negb mbind option_bind]. rewrite (apply_delta_with_held _ history) by done.
  destruct (apply_delta (with_history f [] append) delta) as [g|] eqn:Hg; [|done].
  cbn [mbind option_bind fmap option_fmap option_map].
  apply apply_delta_history in Hg as [Hh Ha]; [|done]. cbn in Hh.
  destruct rest as [|delta' rest].
  { cbn. by rewrite Hh. }
  rewrite (IH g) by done.
  rewrite <- (with_history_self g) at 2. rewrite (IH g (f_scrollback_rows g)) by done.
  rewrite Ha. destruct (apply_each _ (delta' :: rest)); [|done]. cbn.
  by rewrite Hh, app_assoc.
Qed.

Lemma contiguous_spec base delta :
  has_contiguous_scrollback_append base delta = true ->
  f_scrollback_total delta = f_scrollback_total base + len (f_scrollback_append delta)
  /\ forall i r, f_scrollback_append delta !! i = Some r ->
       row_index r = f_scrollback_total base + Z.of_nat i.
Proof.
  unfold has_contiguous_scrollback_append. cbn zeta.
  rewrite !andb_true_iff, Z.eqb_eq. intros [[_ ->] Hall]. split; [done|].
  intros i r Hi. rewrite forallb_forall in Hall.
  apply Z.eqb_eq, (Hall _). apply list_elem_of_In, list_elem_of_lookup. exists i.
  by rewrite list_lookup_imap, Hi.
Qed.

(** What the accepted run says of the whole batch. *)
Lemma fold_deltas_run held height st deltas st' :
  2 * Z.of_nat height < 2 ^ 32 -> fold_inv held height st ->
  fold_deltas st deltas = Some st' ->
  fold_inv held height st'
  /\ fold_append st' = fold_append st ++ (deltas ≫= f_scrollback_append)
  /\ f_scrollback_rows (fold_frame st')
     = f_scrollback_rows (fold_frame st) ++ (deltas ≫= f_scrollback_append)
  /\ f_scrollback_total (fold_frame st')
     = f_scrollback_total (fold_frame st) + len (deltas ≫= f_scrollback_append)
  /\ f_seq (fold_frame st') = f_seq (fold_frame st) + len deltas
  /\ forall i r, (deltas ≫= f_scrollback_append) !! i = Some r ->
       row_index r = f_scrollback_total (fold_frame st) + Z.of_nat i.
Proof.
  intros Hsmall. revert st. induction deltas as [|delta rest IH]; intros st Hinv H.
  { injection H as <-. cbn. rewrite !app_nil_r. unfold len. cbn. split_and!; try done; lia. }
  cbn [fold_deltas] in H. destruct (fold_step st delta) as [st1|] eqn:Hstep; [|done].
  pose proof (fold_step_inv _ _ _ _ _ Hsmall Hinv Hstep) as Hinv1.
  destruct (IH _ Hinv1 H) as (Hi & Ha & Hr & Ht & Hs & Hc).
  apply fold_step_shape in Hstep as (Hfull & Hcont & Happly & _ & Happ & _).
  apply contiguous_spec in Hcont as [Htot Hidx].
  destruct (apply_delta_shape _ _ _ _ Hfull Happly) as (_&_&_&_&Hseq&Htot'&_&Hrows&_).
  rewrite bind_cons, len_app, len_cons. split_and!; try done.
  - by rewrite Ha, Happ, app_assoc.
  - by rewrite Hr, Hrows, app_assoc.
  - lia.
  - lia.
  - intros i r Hi'. apply lookup_app_Some in Hi' as [Hi'|[Hge Hi']]; [by apply Hidx|].
    rewrite (Hc _ _ Hi'). unfold len in *. lia.
Qed.

(** ** Patching a viewport *)

Lemma marked_rows_elem rows marks r :
  r ∈ marked_rows rows marks <-> exists i, rows !! i = Some r /\ marks !! i = Some true.
Proof.
  unfold marked_rows. rewrite list_elem_of_omap. split.
  - intros ([x b] & Hin & Hx). cbn in Hx. destruct b; [|done]. injection Hx as ->.
    apply list_elem_of_lookup in Hin as (i & Hi). exists i.
    by apply lookup_zip_Some in Hi.
  - intros (i & Hr & Hm). exists (r, true). split; [|done].
    apply list_elem_of_lookup. exists i. by apply lookup_zip_Some.
Qed.

(** Overwriting with rows that sit at their own slots. *)
Lemma overwrite_exact rows changed target :
  length rows = length target ->
  (forall r, r ∈ changed -> target !! slot r = Some r) ->
  (forall i, i ∉ slot <$> changed -> rows !! i = target !! i) ->
  overwrite rows changed = target.
Proof.
  intros Hlen Hin Hout. apply list_eq. intros i.
  destruct (decide (i ∈ slot <$> changed)) as [(r & -> & Hr)%list_elem_of_fmap|Hno].
  - rewrite overwrite_named; [by rewrite Hin| |done|].
    + intros r1 r2 H1 H2 Heq. apply Hin in H1, H2. congruence.
    + rewrite Hlen. eapply lookup_lt_Some, Hin, Hr.
  - rewrite overwrite_other by (intros r Hr <-; by apply Hno, list_elem_of_fmap_2).
    by apply Hout.
Qed.

Lemma fold_inv_initial base :
  0 <= f_rows base -> len (f_viewport_rows base) = f_rows base ->
  fold_inv (f_viewport_rows base) (Z.to_nat (f_rows base))
    (mkFoldState (clone_cell_grid_frame_without_history base)
       (replicate (Z.to_nat (f_rows base)) false) [] 0).
Proof.
  intros Hr Hlen. unfold len in Hlen. constructor; cbn; try lia.
  - by rewrite length_replicate.
  - intros i Hi. by apply lookup_replicate in Hi as [? _].
  - done.
Qed.

(** The patch turns the held rows into the successor's: move them up by the
    shift, fill the exposed rows with anything, overwrite the dirty rows. *)
Lemma fold_inv_patch held height st exposed :
  fold_inv held height st -> length held = height ->
  length exposed = Z.to_nat (fold_shift st) ->
  overwrite (drop (Z.to_nat (fold_shift st)) held ++ exposed)
    (if fold_shift st =? f_rows (fold_frame st) then f_viewport_rows (fold_frame st)
     else marked_rows (f_viewport_rows (fold_frame st)) (fold_marks st))
  = f_viewport_rows (fold_frame st).
Proof.
  intros [Hh Hl Hml Hs Hm Hun Hmv] Hheld Hexp.
  assert (Hmarked : forall r, r ∈ marked_rows (f_viewport_rows (fold_frame st)) (fold_marks st) ->
            f_viewport_rows (fold_frame st) !! slot r = Some r
            /\ fold_marks st !! slot r = Some true).
  { intros r (i & Hi & Ht)%marked_rows_elem. destruct (Hm i Ht) as (r' & Hi' & <-).
    rewrite Hi in Hi'. by injection Hi' as ->. }
  apply overwrite_exact.
  - rewrite length_app, length_drop. lia.
  - destruct (Z.eqb_spec (fold_shift st) (f_rows (fold_frame st))) as [He|He];
      [|intros r Hr; by apply Hmarked].
    intros r (i & Hi)%list_elem_of_lookup.
    assert (Hlt : (i < height)%nat) by (apply lookup_lt_Some in Hi; lia).
    destruct (Hm i (Hmv ltac:(lia) i Hlt)) as (r' & Hi' & Hs'). congruence.
  - intros i Hno. destruct (decide (i < height)%nat) as [Hlt|Hge].
    2: { rewrite !lookup_ge_None_2; [done| |]; rewrite ?length_app, ?length_drop; lia. }
    assert (Hmark : fold_marks st !! i <> Some true).
    { intros Ht. destruct (Hm i Ht) as (r & Hi & Hsl). apply Hno. rewrite <- Hsl.
      apply list_elem_of_fmap_2. case_match; [by eapply list_elem_of_lookup_2|].
      apply marked_rows_elem. by exists i. }
    assert (Hz : fold_shift st = 0).
    { destruct (decide (fold_shift st = 0)); [done|]. destruct Hmark. apply Hmv; [lia|done]. }
    destruct (fold_marks st !! i) as [[]|] eqn:Hb; [done| |].
    + rewrite (Hun Hz i Hb), lookup_app_l by (rewrite length_drop; lia).
      by rewrite Hz.
    + apply lookup_ge_None_1 in Hb. lia.
Qed.

(** An accepted batch started from a grid whose rows are all there. *)
Lemma fold_nonempty_height st delta st' :
  fold_step st delta = Some st' ->
  len (f_viewport_rows (fold_frame st)) = f_rows (fold_frame st).
Proof. intros (Hfull & _ & Happly & _)%fold_step_shape. by apply apply_delta_shape in Happly as (_&?&_). Qed.

(** C33: folding a run of deltas into one renderer patch is exactly applying
    them one by one.  The fold succeeds when and only when there is a delta
    and each applies in turn with the next history rows; its frame, its
    history re-attached, is the frame the deltas leave one by one; and the
    patch is enough for a renderer that only knows the starting rows: move
    them up by the proven shift, leave anything in the exposed rows, overwrite
    the dirty rows, and the viewport is the successor's.  The history list is
    every appended row, in order, numbered from the held total. *)
Theorem fold_batch_exact (base : CellGridFrame) (deltas : list CellGridFrame) :
  0 <= f_rows base < 2 ^ 31 ->
  match fold_cell_delta_batch base deltas with
  | None => deltas = [] \/ apply_each base deltas = None
  | Some batch =>
      deltas <> []
      /\ apply_each base deltas
         = Some (with_history (batch_frame batch)
                   (f_scrollback_rows base ++ batch_append batch) [])
      /\ (forall exposed, length exposed = Z.to_nat (viewport_shift batch) ->
            overwrite (drop (Z.to_nat (viewport_shift batch)) (f_viewport_rows base) ++ exposed)
              (dirty_rows batch)
            = f_viewport_rows (batch_frame batch))
      /\ 0 <= viewport_shift batch <= f_rows base
      /\ batch_append batch = deltas ≫= f_scrollback_append
      /\ f_scrollback_rows (batch_frame batch) = batch_append batch
      /\ f_scrollback_total (batch_frame batch)
         = f_scrollback_total base + len (batch_append batch)
      /\ f_seq (batch_frame batch) = f_seq base + len deltas
      /\ (forall i r, batch_append batch !! i = Some r ->
            row_index r = f_scrollback_total base + Z.of_nat i)
  end.
Proof.
  intros Hrows. unfold fold_cell_delta_batch. case_bool_decide as Hne; [by left|].
  set (st0 := mkFoldState (clone_cell_grid_frame_without_history base) _ [] 0).
  pose proof (fold_deltas_each st0 deltas) as Heach.
  assert (Hheld : apply_each base deltas
            = (fun g => with_history g (f_scrollback_rows base ++ f_scrollback_rows g) [])
                <$> apply_each (fold_frame st0) deltas).
  { rewrite <- (with_history_self base) at 1. by apply apply_each_held. }
  destruct (fold_deltas st0 deltas) as [st|] eqn:Hfold; cbn [mbind option_bind].
  2: { right. by rewrite Hheld, <- Heach. }
  rewrite <- Heach in Hheld. cbn in Hheld.
  assert (Hlen : len (f_viewport_rows base) = f_rows base).
  { destruct deltas as [|delta rest]; [done|]. cbn [fold_deltas] in Hfold.
    destruct (fold_step st0 delta) eqn:Hstep; [|done]. by apply fold_nonempty_height in Hstep. }
  pose proof (fold_inv_initial base ltac:(lia) Hlen) as Hinv0.
  destruct (fold_deltas_run (f_viewport_rows base) _ st0 deltas st
              (ltac:(lia) : 2 * Z.of_nat (Z.to_nat (f_rows base)) < 2 ^ 32) Hinv0 Hfold)
    as (Hinv & Ha & Hr & Ht & Hs & Hc).
  cbn in Ha, Hr. rewrite Ha in *.
  split; [done|]. cbn. split_and!; try done.
  - rewrite Hheld. by rewrite Hr.
  - intros exposed. apply fold_inv_patch with (height := Z.to_nat (f_rows base)); [done|].
    unfold len in Hlen. lia.
  - apply Hinv.
  - pose proof (fold_shift_range _ _ _ Hinv). lia.
Qed.

Section fold_batch_witness.
Local Definition w_row (index : Z) (c : Z) : CellRow :=
  mkCellRow index [mkCellSpan [c] 256 256 0 None None 1 None None] 0.
Local Definition w_frame (full : bool) (rows append : list CellRow) (total base_seq seq : Z) :
    CellGridFrame :=
  mkCellGridFrame "s" "e" 1 2 0 0 true false false false MouseNone false false 0 full rows []
    append total 0 base_seq seq None.
Local Definition w_base := w_frame true [w_row 0 97; w_row 1 98] [] 5 0 1.
Local Definition w_deltas :=
  [w_frame false [w_row 0 98; w_row 1 99] [w_row 5 97] 6 1 2;
   w_frame false [w_row 1 100] [] 6 2 3].

Lemma fold_batch_exact_witness :
  match fold_cell_delta_batch w_base w_deltas with
  | None => False
  | Some batch =>
      viewport_shift batch = 1 /\ batch_append batch = [w_row 5 97]
      /\ overwrite (drop (Z.to_nat (viewport_shift batch)) (f_viewport_rows w_base)
                      ++ [w_row 9 120]) (dirty_rows batch)
         = f_viewport_rows (batch_frame batch)
  end.
Proof.
  pose proof (fold_batch_exact w_base w_deltas ltac:(vm_compute; split; [discriminate|reflexivity]))
    as H.
  destruct (fold_cell_delta_batch w_base w_deltas) as [batch|] eqn:Hb.
  - destruct H as (_ & _ & Hpatch & _). vm_compute in Hb. injection Hb as <-.
    split; [reflexivity|]. split; [reflexivity|]. apply Hpatch. reflexivity.
  - vm_compute in Hb. discriminate Hb.
Defined.
End fold_batch_witness.

(** ** The viewport-only checkpoint *)

(** A mirror that keeps everything: the first frame must be full. *)
Definition replica_step (held : option CellGridFrame) (frame : CellGridFrame) :
    option CellGridFrame :=
  match held with
  | Some current => apply_delta current frame
  | None => if f_full frame then Some frame else None
  end.

(** Running either mirror over frames; a refused frame changes nothing. *)
Definition keep {A} (step : option A -> CellGridFrame -> option A) (held : option A)
    (frame : CellGridFrame) : option A :=
  match step held frame with Some next => Some next | None => held end.

Definition mirror {A} (step : option A -> CellGridFrame -> option A) :
    list CellGridFrame -> option A := foldl (keep step) None.

Lemma normalize_apply_delta base delta :
  normalize_cell_grid_frame
    <$> apply_delta_with_history (normalize_cell_grid_frame base) delta false
  = normalize_cell_grid_frame <$> apply_delta base delta.
Proof.
  unfold apply_delta, apply_delta_with_history. destruct (f_full delta); [done|].
  change (delta_follows (normalize_cell_grid_frame base) delta) with (delta_follows base delta).
  destruct (delta_follows base delta); [|done]. cbn [negb f_viewport_rows normalize_cell_grid_frame].
  destruct (mark_changed _ _); [|done]. cbn [fmap option_fmap option_map]. f_equal.
  unfold normalize_cell_grid_frame. cbn. f_equal.
  by destruct (f_image_placements delta).
Qed.

Lemma checkpoint_step_normal held frame :
  apply_viewport_frame (normalize_cell_grid_frame <$> held) frame
  = normalize_cell_grid_frame <$> replica_step held frame.
Proof.
  destruct held as [held|]; cbn [apply_viewport_frame fmap option_fmap option_map replica_step].
  - apply normalize_apply_delta.
  - by destruct (f_full frame).
Qed.

Lemma mirror_snoc {A} (step : option A -> CellGridFrame -> option A) frames frame :
  mirror step (frames ++ [frame]) = keep step (mirror step frames) frame.
Proof. unfold mirror. by rewrite foldl_app. Qed.

Lemma checkpoint_mirror frames :
  mirror apply_viewport_frame frames = normalize_cell_grid_frame <$> mirror replica_step frames.
Proof.
  induction frames as [|frame frames IH] using rev_ind; [done|].
  rewrite !mirror_snoc. unfold keep. rewrite IH, checkpoint_step_normal.
  by destruct (replica_step (mirror replica_step frames) frame).
Qed.

(** A checkpoint that keeps only the viewport is the full replica with its
    history forgotten.  Over every sequence of frames, refused ones included,
    the checkpoint accepts exactly the frames a mirror that keeps the whole
    history accepts, and is that mirror's frame normalized: full, based on
    nothing, without history rows, its window starting at the history's end,
    and with its image set stated. *)
Theorem checkpoint_is_replica (frames : list CellGridFrame) :
  mirror apply_viewport_frame frames = normalize_cell_grid_frame <$> mirror replica_step frames
  /\ (forall frame, is_Some (apply_viewport_frame (mirror apply_viewport_frame frames) frame)
                    <-> is_Some (replica_step (mirror replica_step frames) frame))
  /\ (forall held, mirror apply_viewport_frame frames = Some held ->
        f_full held = true /\ f_base_seq held = 0 /\ f_scrollback_rows held = []
        /\ f_scrollback_append held = [] /\ f_sb_base held = f_scrollback_total held
        /\ is_Some (f_image_placements held)).
Proof.
  pose proof (checkpoint_mirror frames) as Hm.
  split_and!; [done| |].
  - intros frame. rewrite Hm, checkpoint_step_normal. by rewrite fmap_is_Some.
  - intros held. rewrite Hm. intros (f & _ & ->)%fmap_Some. cbn. by split_and!.
Qed.
