(* ===== verification/CellWire.v ===== *)
(** * CellWire: a cell frame on the wire

    Models [src/crates/roost-protocol/src/cell/proto.rs], [proto_image.rs] and
    [frame_structure.rs]: the protobuf messages of
    [src/protocol/proto/roost/v1/cell.proto] as records, the encoder of a
    [CellGridFrame] and its two decoders.  A message's unknown fields are never
    read and are left out.  [widen] of an unsigned field is the identity on
    [Z]; the narrowing conversions are written out. *)
From Stdlib Require Import Ascii String.
From S2P Require Export CellDelta.

(** ** The messages *)

Record PbCellSpan := mkPbCellSpan {
  pbs_text : text;
  pbs_fg : Z;
  pbs_bg : Z;
  pbs_flags : Z;
  pbs_fg_rgb : option Z;
  pbs_bg_rgb : option Z;
  pbs_columns : Z;
  pbs_link_uri : option text;
  pbs_link_key : option text;
}.

Record PbCellRow := mkPbCellRow {
  pbr_index : Z;
  pbr_spans : list PbCellSpan;
  pbr_mark : Z;
}.

Record PbImagePlacement := mkPbImagePlacement {
  pbi_key : Z;
  pbi_row : Z;
  pbi_col : Z;
  pbi_columns : Z;
  pbi_rows : Z;
  pbi_source_x : Z;
  pbi_source_y : Z;
  pbi_source_width : Z;
  pbi_source_height : Z;
  pbi_image_width : Z;
  pbi_image_height : Z;
  pbi_offset_x_px : Z;
  pbi_offset_y_px : Z;
  pbi_z_index : Z;
}.

Record PbCellGridFrame := mkPbCellGridFrame {
  pb_session_id : string;
  pb_stream_id : string;
  pb_grid_epoch : string;
  pb_cols : Z;
  pb_rows : Z;
  pb_cursor_row : Z;
  pb_cursor_col : Z;
  pb_cursor_visible : bool;
  pb_alt_screen : bool;
  pb_full : bool;
  pb_viewport_rows : list PbCellRow;
  pb_scrollback_rows : list PbCellRow;
  pb_scrollback_append : list PbCellRow;
  pb_scrollback_total : Z;
  pb_seq : Z;
  pb_sb_base : Z;
  pb_cursor_keys_app : bool;
  pb_bracketed_paste : bool;
  pb_pty_out_ms : Z;
  pb_worker_emit_ms : Z;
  pb_coord_recv_ms : Z;
  pb_coord_fanout_ms : Z;
  pb_mouse_tracking : Z;
  pb_mouse_sgr : bool;
  pb_kitty_keyboard_flags : Z;
  pb_focus_events : bool;
  pb_base_seq : Z;
  pb_image_placements : list PbImagePlacement;
  pb_image_placements_present : bool;
}.

#[global] Instance PbCellSpan_eq_dec : EqDecision PbCellSpan.
Proof. solve_decision. Defined.
#[global] Instance PbCellRow_eq_dec : EqDecision PbCellRow.
Proof. solve_decision. Defined.
#[global] Instance PbImagePlacement_eq_dec : EqDecision PbImagePlacement.
Proof. solve_decision. Defined.

(** [collect::<Result<Vec<_>, _>>], with [enumerate]'s position. *)
Fixpoint collect_at {A B E} (f : nat -> A -> result B E) (position : nat) (l : list A) :
    result (list B) E :=
  match l with
  | [] => Ok []
  | x :: rest =>
      let? y := f position x in
      let? ys := collect_at f (S position) rest in
      Ok (y :: ys)
  end.

Definition collect {A B E} (f : A -> result B E) : list A -> result (list B) E :=
  collect_at (fun _ => f) 0.

(** ** Rows *)

Definition span_to_proto (span : CellSpan) : PbCellSpan :=
  mkPbCellSpan (sp_text span) (sp_fg span) (sp_bg span) (sp_flags span) (sp_fg_rgb span)
    (sp_bg_rgb span) (sp_columns span) (sp_link_uri span) (sp_link_key span).

Definition cell_row_to_proto (row : CellRow) : PbCellRow :=
  mkPbCellRow (row_index row) (span_to_proto <$> row_spans row) (Z.land (row_mark row) KNOWN).

(** [u16::try_from]. *)
Definition narrow_span_field (position : nat) (name : string) (value : Z) : result Z CellError :=
  if value <? 2 ^ 16 then Ok value else Err (SpanFieldRange position name value).

(** The strings are copied or moved by the caller: the same value. *)
Definition span_from_proto (position : nat) (span : PbCellSpan) : result CellSpan CellError :=
  let? fg := narrow_span_field position "fg" (pbs_fg span) in
  let? bg := narrow_span_field position "bg" (pbs_bg span) in
  let? flags := narrow_span_field position "flags" (pbs_flags span) in
  Ok (mkCellSpan (pbs_text span) fg bg flags (pbs_fg_rgb span) (pbs_bg_rgb span)
        (pbs_columns span) (pbs_link_uri span) (pbs_link_key span)).

Definition checked_row (index mark : Z) (spans : list CellSpan) (max_columns : Z) :
    result CellRow CellError :=
  let value := with_mark index spans (u8 mark) in
  let? _ := assert_cell_row_spans value max_columns in
  Ok value.

Definition cell_row_from_proto_bounded (max_columns : Z) (row : PbCellRow) :
    result CellRow CellError :=
  let? spans := collect_at span_from_proto 0 (pbr_spans row) in
  checked_row (pbr_index row) (pbr_mark row) spans max_columns.

Definition cell_row_from_proto (row : PbCellRow) : result CellRow CellError :=
  cell_row_from_proto_bounded 0 row.

(** ** Image placements *)

Definition placement_to_proto (placement : ImagePlacement) : PbImagePlacement :=
  mkPbImagePlacement (im_key placement) (im_row placement) (im_col placement)
    (im_columns placement) (im_rows placement) (im_source_x placement) (im_source_y placement)
    (im_source_width placement) (im_source_height placement) (im_image_width placement)
    (im_image_height placement) (im_offset_x_px placement) (im_offset_y_px placement)
    (im_z_index placement).

Definition placements_to_proto (placements : option (list ImagePlacement)) :
    list PbImagePlacement * bool :=
  match placements with
  | None => ([], false)
  | Some placements => (placement_to_proto <$> placements, true)
  end.

Definition narrow_placement_field (position : nat) (name : string) (value : Z) :
    result Z CellError :=
  if value <? 2 ^ 16 then Ok value else Err (PlacementFieldRange position name value).

Definition placement_from_proto (position : nat) (placement : PbImagePlacement) :
    result ImagePlacement CellError :=
  let? columns := narrow_placement_field position "columns" (pbi_columns placement) in
  let? rows := narrow_placement_field position "rows" (pbi_rows placement) in
  if (columns =? 0) || (rows =? 0) then Err (PlacementEmpty position)
  else
    let? col := narrow_placement_field position "col" (pbi_col placement) in
    let? offset_x_px := narrow_placement_field position "offset_x_px" (pbi_offset_x_px placement) in
    let? offset_y_px := narrow_placement_field position "offset_y_px" (pbi_offset_y_px placement) in
    Ok (mkImagePlacement (pbi_key placement) (pbi_row placement) col columns rows
          (pbi_source_x placement) (pbi_source_y placement) (pbi_source_width placement)
          (pbi_source_height placement) (pbi_image_width placement) (pbi_image_height placement)
          offset_x_px offset_y_px (pbi_z_index placement)).

Definition placements_from_proto (frame : PbCellGridFrame) :
    result (option (list ImagePlacement)) CellError :=
  if negb (pb_image_placements_present frame) then
    Ok (if pb_full frame then Some [] else None)
  else if (MAX_IMAGE_PLACEMENTS <? length (pb_image_placements frame))%nat then
    Err (PlacementsOverCap (len (pb_image_placements frame)))
  else
    let? decoded := collect_at placement_from_proto 0 (pb_image_placements frame) in
    Ok (Some decoded).

(** ** The structure of a frame ([frame_structure.rs]) *)

(** The viewport loop: [seen] has a flag per row of the grid. *)
Fixpoint structure_rows (rows : Z) (seen : list bool) (seen_count : nat)
    (viewport : list PbCellRow) : result nat CellError :=
  match viewport with
  | [] => Ok seen_count
  | row :: rest =>
      if rows <=? pbr_index row then Err (RowOutside (pbr_index row) rows)
      else if default false (seen !! Z.to_nat (pbr_index row)) then
        Err (RowRepeated (pbr_index row))
      else
        structure_rows rows (<[Z.to_nat (pbr_index row) := true]> seen) (S seen_count) rest
  end.

Fixpoint structure_history (sb_base : Z) (offset : nat) (history : list PbCellRow) :
    result unit CellError :=
  match history with
  | [] => Ok tt
  | row :: rest =>
      let expected := sb_base + Z.of_nat offset in
      if negb (pbr_index row =? expected) then Err (HistoryOrder offset expected)
      else structure_history sb_base (S offset) rest
  end.

Definition assert_frame_structure (frame : PbCellGridFrame) : result unit CellError :=
  match assert_terminal_geometry (mkTerminalGeometry (pb_cols frame) (pb_rows frame)) with
  | Err error => Err (FrameGeometry error)
  | Ok _ =>
      let? seen_count :=
        structure_rows (pb_rows frame) (replicate (Z.to_nat (pb_rows frame)) false) 0
          (pb_viewport_rows frame) in
      if negb (pb_full frame) then
        if bool_decide (pb_scrollback_rows frame <> []) then Err DeltaScrollbackRows else Ok tt
      else if negb (Z.of_nat seen_count =? pb_rows frame) then
        Err (RowsMissing (Z.of_nat seen_count) (pb_rows frame))
      else if bool_decide (pb_scrollback_append frame <> []) then Err FullScrollbackAppend
      else if (pb_scrollback_total frame <? pb_sb_base frame)
              || negb (len (pb_scrollback_rows frame)
                       =? pb_scrollback_total frame - pb_sb_base frame) then
        Err (HistoryCover (pb_sb_base frame) (pb_scrollback_total frame))
      else structure_history (pb_sb_base frame) 0 (pb_scrollback_rows frame)
  end.

(** ** Identity and sequence *)

Definition assert_frame_identity (stream_id grid_epoch : string) (full : bool)
    (base_seq seq : Z) : result unit CellError :=
  if negb (is_terminal_uuid stream_id) then Err FrameStreamId
  else if String.eqb grid_epoch EmptyString then Err FrameGridEpoch
  else if seq <? 1 then Err (FrameSequence base_seq seq)
  else if full then
    if negb (base_seq =? 0) then Err (FullBaseSeq base_seq) else Ok tt
  else if negb (seq =? u64 (base_seq + 1)) then Err (DeltaSequence base_seq seq)
  else Ok tt.

Definition assert_frame_sequence (frame : PbCellGridFrame) : result unit CellError :=
  assert_frame_identity (pb_stream_id frame) (pb_grid_epoch frame) (pb_full frame)
    (pb_base_seq frame) (pb_seq frame).

(** ** Frames *)

Definition proto_of_frame (frame : CellGridFrame) (session_id : string) : PbCellGridFrame :=
  let '(image_placements, image_placements_present) :=
    placements_to_proto (f_image_placements frame) in
  mkPbCellGridFrame session_id (f_stream_id frame) (f_grid_epoch frame) (f_cols frame)
    (f_rows frame) (f_cursor_row frame) (f_cursor_col frame) (f_cursor_visible frame)
    (f_alt_screen frame) (f_full frame) (cell_row_to_proto <$> f_viewport_rows frame)
    (cell_row_to_proto <$> f_scrollback_rows frame)
    (cell_row_to_proto <$> f_scrollback_append frame) (f_scrollback_total frame) (f_seq frame)
    (f_sb_base frame) (f_cursor_keys_app frame) (f_bracketed_paste frame) 0 0 0 0
    (mouse_to_u32 (f_mouse_tracking frame)) (f_mouse_sgr frame) (f_kitty_keyboard_flags frame)
    (f_focus_events frame) (f_base_seq frame) image_placements image_placements_present.

Definition cell_frame_to_proto (frame : CellGridFrame) (session_id : string) :
    result PbCellGridFrame CellError :=
  let? _ := assert_frame_identity (f_stream_id frame) (f_grid_epoch frame) (f_full frame)
              (f_base_seq frame) (f_seq frame) in
  let proto := proto_of_frame frame session_id in
  let? _ := assert_frame_structure proto in
  Ok proto.

Definition frame_scalars (frame : PbCellGridFrame) : CellGridFrame :=
  mkCellGridFrame EmptyString EmptyString (pb_cols frame) (pb_rows frame) (pb_cursor_row frame)
    (pb_cursor_col frame) (pb_cursor_visible frame) (pb_alt_screen frame)
    (pb_cursor_keys_app frame) (pb_bracketed_paste frame)
    (as_mouse_tracking (pb_mouse_tracking frame)) (pb_mouse_sgr frame) (pb_focus_events frame)
    (Z.land (if pb_kitty_keyboard_flags frame <? 2 ^ 8 then pb_kitty_keyboard_flags frame else 0)
       0x1f)
    (pb_full frame) [] [] [] (pb_scrollback_total frame) (pb_sb_base frame) (pb_base_seq frame)
    (pb_seq frame) None.

(** The struct update [CellGridFrame { .., ..scalars }] of both decoders. *)
Definition frame_with (scalars : CellGridFrame) (stream_id grid_epoch : string)
    (viewport_rows scrollback_rows scrollback_append : list CellRow)
    (image_placements : option (list ImagePlacement)) : CellGridFrame :=
  mkCellGridFrame stream_id grid_epoch (f_cols scalars) (f_rows scalars) (f_cursor_row scalars)
    (f_cursor_col scalars) (f_cursor_visible scalars) (f_alt_screen scalars)
    (f_cursor_keys_app scalars) (f_bracketed_paste scalars) (f_mouse_tracking scalars)
    (f_mouse_sgr scalars) (f_focus_events scalars) (f_kitty_keyboard_flags scalars)
    (f_full scalars) viewport_rows scrollback_rows scrollback_append
    (f_scrollback_total scalars) (f_sb_base scalars) (f_base_seq scalars) (f_seq scalars)
    image_placements.

Definition proto_to_cell_frame (frame : PbCellGridFrame) : result CellGridFrame CellError :=
  let? _ := assert_frame_sequence frame in
  let? _ := assert_frame_structure frame in
  let decode_rows rows max_columns := collect (cell_row_from_proto_bounded max_columns) rows in
  let? viewport_rows := decode_rows (pb_viewport_rows frame) (pb_cols frame) in
  let? scrollback_rows := decode_rows (pb_scrollback_rows frame) 0 in
  let? scrollback_append := decode_rows (pb_scrollback_append frame) 0 in
  let? image_placements := placements_from_proto frame in
  Ok (frame_with (frame_scalars frame) (pb_stream_id frame) (pb_grid_epoch frame)
        viewport_rows scrollback_rows scrollback_append image_placements).

(** The owning decoder reads the placements before the rows. *)
Definition proto_into_cell_frame (frame : PbCellGridFrame) : result CellGridFrame CellError :=
  let? _ := assert_frame_sequence frame in
  let? _ := assert_frame_structure frame in
  let decode_rows rows max_columns := collect (cell_row_from_proto_bounded max_columns) rows in
  let scalars := frame_scalars frame in
  let? image_placements := placements_from_proto frame in
  let? viewport_rows := decode_rows (pb_viewport_rows frame) (pb_cols frame) in
  let? scrollback_rows := decode_rows (pb_scrollback_rows frame) 0 in
  let? scrollback_append := decode_rows (pb_scrollback_append frame) 0 in
  Ok (frame_with scalars (pb_stream_id frame) (pb_grid_epoch frame)
        viewport_rows scrollback_rows scrollback_append image_placements).

(** ** Lemmas: collecting *)

Lemma collect_at_map {A B E} (f : nat -> A -> result B E) (g : B -> A) (P : B -> Prop) l position :
  (forall position x, P x -> f position (g x) = Ok x) -> Forall P l ->
  collect_at f position (g <$> l) = Ok l.
Proof.
  intros Hf Hall. revert position. induction Hall as [|x l Hx _ IH]; intros position; [done|].
  cbn [fmap list_fmap collect_at]. by rewrite Hf, IH.
Qed.

Lemma collect_at_inv {A B E} (f : nat -> A -> result B E) (R : A -> B -> Prop) l ys position :
  (forall position x y, f position x = Ok y -> R x y) ->
  collect_at f position l = Ok ys -> Forall2 R l ys.
Proof.
  intros Hf. revert ys position. induction l as [|x l IH]; intros ys position H; cbn in H.
  { injection H as <-. constructor. }
  destruct (f position x) as [y|] eqn:Hy; [|done].
  destruct (collect_at f (S position) l) as [rest|] eqn:Hl; [|done]. injection H as <-.
  constructor; [by eapply Hf|by eapply IH].
Qed.

(** Splits a chain of [let?] that succeeded. *)
Ltac ok_inv H :=
  repeat match type of H with
  | match ?e with Ok _ => _ | Err _ => _ end = Ok _ =>
      let Heq := fresh "Hok" in destruct e eqn:Heq; [|discriminate H]
  | (if ?b then Err _ else _) = Ok _ =>
      let Heq := fresh "Hif" in destruct b eqn:Heq; [discriminate H|]
  end.

(** ** What the wire carries unchanged *)

Definition span_typed (span : CellSpan) : Prop :=
  sp_fg span < 2 ^ 16 /\ sp_bg span < 2 ^ 16 /\ sp_flags span < 2 ^ 16.

Definition row_ready (max_columns : Z) (row : CellRow) : Prop :=
  Forall span_typed (row_spans row) /\ Z.land (row_mark row) KNOWN = row_mark row
  /\ assert_cell_row_spans row max_columns = Ok tt.

Definition placement_ready (placement : ImagePlacement) : Prop :=
  im_columns placement < 2 ^ 16 /\ im_rows placement < 2 ^ 16 /\ im_col placement < 2 ^ 16
  /\ im_offset_x_px placement < 2 ^ 16 /\ im_offset_y_px placement < 2 ^ 16
  /\ im_columns placement <> 0 /\ im_rows placement <> 0.

Definition placements_ready (full : bool) (placements : option (list ImagePlacement)) : Prop :=
  match placements with
  | None => full = false
  | Some placements =>
      (length placements <= MAX_IMAGE_PLACEMENTS)%nat /\ Forall placement_ready placements
  end.

(** A frame no decoder changes or refuses, its structure apart. *)
Record wire_ready (frame : CellGridFrame) : Prop := {
  ready_viewport : Forall (row_ready (f_cols frame)) (f_viewport_rows frame);
  ready_history : Forall (row_ready 0) (f_scrollback_rows frame);
  ready_append : Forall (row_ready 0) (f_scrollback_append frame);
  ready_mouse : as_mouse_tracking (mouse_to_u32 (f_mouse_tracking frame)) = f_mouse_tracking frame;
  ready_kitty : 0 <= f_kitty_keyboard_flags frame < 32;
  ready_images : placements_ready (f_full frame) (f_image_placements frame);
}.

Lemma narrow_small position name v : v < 2 ^ 16 -> narrow_span_field position name v = Ok v.
Proof. intros H. unfold narrow_span_field. by apply Z.ltb_lt in H as ->. Qed.

Lemma narrow_inv position name v w : narrow_span_field position name v = Ok w -> w = v /\ v < 2 ^ 16.
Proof. unfold narrow_span_field. intros H. case_if; [|done]. injection H as <-. by bool_to_prop. Qed.

Lemma narrow_placement_small position name v :
  v < 2 ^ 16 -> narrow_placement_field position name v = Ok v.
Proof. intros H. unfold narrow_placement_field. by apply Z.ltb_lt in H as ->. Qed.

Lemma narrow_placement_inv position name v w :
  narrow_placement_field position name v = Ok w -> w = v /\ v < 2 ^ 16.
Proof.
  unfold narrow_placement_field. intros H. case_if; [|done]. injection H as <-. by bool_to_prop.
Qed.

Lemma span_roundtrip position span :
  span_typed span -> span_from_proto position (span_to_proto span) = Ok span.
Proof.
  intros (Hf & Hb & Hl). unfold span_from_proto. cbn. rewrite !narrow_small by done.
  by destruct span.
Qed.

Lemma span_from_proto_inv position pb span :
  span_from_proto position pb = Ok span -> span_to_proto span = pb /\ span_typed span.
Proof.
  unfold span_from_proto. intros H. ok_inv H. injection H as <-.
  apply narrow_inv in Hok as [-> ?], Hok0 as [-> ?], Hok1 as [-> ?]. by destruct pb.
Qed.

Lemma known_bits m : 0 <= Z.land m KNOWN < 16.
Proof. change KNOWN with (Z.ones 4). rewrite Z.land_ones by lia. by apply Z.mod_pos_bound. Qed.

Lemma known_idem m : Z.land (Z.land m KNOWN) KNOWN = Z.land m KNOWN.
Proof. by rewrite <- Z.land_assoc, Z.land_diag. Qed.

Lemma row_roundtrip max_columns row :
  row_ready max_columns row ->
  cell_row_from_proto_bounded max_columns (cell_row_to_proto row) = Ok row.
Proof.
  intros (Hspans & Hmark & Hassert). unfold cell_row_from_proto_bounded. cbn.
  rewrite (collect_at_map span_from_proto span_to_proto span_typed);
    [|apply span_roundtrip|done].
  unfold checked_row, with_mark. pose proof (known_bits (row_mark row)).
  rewrite (wrap_small 8), known_idem, Hmark by (unfold fits; lia).
  destruct row as [index spans mark]. cbn in *. by rewrite Hassert.
Qed.

Lemma row_from_proto_inv max_columns pb row :
  cell_row_from_proto_bounded max_columns pb = Ok row ->
  row_ready max_columns row /\ pbr_index (cell_row_to_proto row) = pbr_index pb.
Proof.
  unfold cell_row_from_proto_bounded, checked_row. intros H. ok_inv H. injection H as <-.
  apply (collect_at_inv _ (fun p s => span_to_proto s = p /\ span_typed s)) in Hok.
  2: { intros pos x y. apply span_from_proto_inv. }
  split; [|done]. split_and!; cbn.
  - clear -Hok. by induction Hok as [|p s ps ss []]; constructor.
  - apply known_idem.
  - by destruct a0.
Qed.

Lemma placement_roundtrip position placement :
  placement_ready placement ->
  placement_from_proto position (placement_to_proto placement) = Ok placement.
Proof.
  intros (Hc & Hr & Hcol & Hx & Hy & Hc0 & Hr0). unfold placement_from_proto. cbn.
  rewrite !narrow_placement_small by done.
  apply Z.eqb_neq in Hc0 as ->. apply Z.eqb_neq in Hr0 as ->. by destruct placement.
Qed.

Lemma placement_from_proto_inv position pb placement :
  placement_from_proto position pb = Ok placement -> placement_ready placement.
Proof.
  unfold placement_from_proto. intros H. ok_inv H. injection H as <-.
  apply orb_false_iff in Hif as [Hc Hr]. bool_to_prop.
  apply narrow_placement_inv in Hok as [-> ?], Hok0 as [-> ?], Hok1 as [-> ?], Hok2 as [-> ?],
    Hok3 as [-> ?]. by split_and!.
Qed.

Lemma placements_roundtrip frame session_id :
  placements_ready (f_full frame) (f_image_placements frame) ->
  placements_from_proto (proto_of_frame frame session_id) = Ok (f_image_placements frame).
Proof.
  unfold placements_from_proto, proto_of_frame.
  destruct (f_image_placements frame) as [l|];
    cbn [placements_to_proto pb_image_placements_present pb_image_placements pb_full negb];
    [|by intros ->].
  intros [Hlen Hall]. rewrite length_fmap.
  destruct (Nat.ltb_spec MAX_IMAGE_PLACEMENTS (length l)); [lia|].
  rewrite (collect_at_map placement_from_proto placement_to_proto placement_ready);
    [done|apply placement_roundtrip|done].
Qed.

Lemma placements_from_proto_inv frame placements :
  placements_from_proto frame = Ok placements -> placements_ready (pb_full frame) placements.
Proof.
  unfold placements_from_proto. destruct (pb_image_placements_present frame); cbn [negb].
  - destruct (Nat.ltb_spec MAX_IMAGE_PLACEMENTS (length (pb_image_placements frame))); [done|].
    intros H'. ok_inv H'. injection H' as <-.
    pose proof (collect_at_inv _ (fun _ q => placement_ready q) _ _ _
                  placement_from_proto_inv Hok) as Hf.
    split; [|by eapply Forall2_Forall_r; [exact Hf|apply Forall_true]].
    apply Forall2_length in Hf. lia.
  - intros [= <-]. by destruct (pb_full frame); [split; [apply Nat.le_0_l|constructor]|].
Qed.

(** ** Lemmas: structure *)

Lemma structure_rows_index rows seen n l k :
  pbr_index <$> l = pbr_index <$> k -> structure_rows rows seen n l = structure_rows rows seen n k.
Proof.
  revert seen n k. induction l as [|x l IH]; intros seen n [|y k] H; try done.
  injection H as Hx H. cbn [structure_rows]. rewrite Hx. by rewrite (IH _ _ _ H).
Qed.

Lemma structure_history_index base offset l k :
  pbr_index <$> l = pbr_index <$> k ->
  structure_history base offset l = structure_history base offset k.
Proof.
  revert offset k. induction l as [|x l IH]; intros offset [|y k] H; try done.
  injection H as Hx H. cbn [structure_history]. rewrite Hx. by rewrite (IH _ _ H).
Qed.

Lemma fmap_index_nil (l k : list PbCellRow) :
  pbr_index <$> l = pbr_index <$> k -> l = [] <-> k = [].
Proof. destruct l, k; try done. Qed.

(** The structure is a matter of indexes and of the scalars it reads. *)
Lemma structure_congruence p q :
  pb_cols p = pb_cols q -> pb_rows p = pb_rows q -> pb_full p = pb_full q ->
  pb_scrollback_total p = pb_scrollback_total q -> pb_sb_base p = pb_sb_base q ->
  pbr_index <$> pb_viewport_rows p = pbr_index <$> pb_viewport_rows q ->
  pbr_index <$> pb_scrollback_rows p = pbr_index <$> pb_scrollback_rows q ->
  pbr_index <$> pb_scrollback_append p = pbr_index <$> pb_scrollback_append q ->
  assert_frame_structure p = assert_frame_structure q.
Proof.
  intros Hc Hr Hf Ht Hb Hv Hh Ha. unfold assert_frame_structure. rewrite Hc, Hr, Hf, Ht, Hb.
  destruct (assert_terminal_geometry _); [|done].
  rewrite (structure_rows_index _ _ _ _ _ Hv).
  destruct (structure_rows _ _ _ _) as [n|]; [|done].
  assert (Hlen : len (pb_scrollback_rows p) = len (pb_scrollback_rows q)).
  { unfold len. by rewrite <- (length_fmap pbr_index), Hh, length_fmap. }
  rewrite Hlen, (structure_history_index _ _ _ _ Hh).
  rewrite (bool_decide_ext (pb_scrollback_rows p <> []) (pb_scrollback_rows q <> []))
    by (by rewrite (fmap_index_nil _ _ Hh)).
  rewrite (bool_decide_ext (pb_scrollback_append p <> []) (pb_scrollback_append q <> []))
    by (by rewrite (fmap_index_nil _ _ Ha)).
  done.
Qed.

(** ** Decoding *)

Lemma rows_roundtrip max_columns rows :
  Forall (row_ready max_columns) rows ->
  collect (cell_row_from_proto_bounded max_columns) (cell_row_to_proto <$> rows) = Ok rows.
Proof.
  intros H. eapply collect_at_map; [|exact H]. intros _ row. apply row_roundtrip.
Qed.

Lemma rows_from_proto_inv max_columns pbs rows :
  collect (cell_row_from_proto_bounded max_columns) pbs = Ok rows ->
  Forall (row_ready max_columns) rows
  /\ pbr_index <$> (cell_row_to_proto <$> rows) = pbr_index <$> pbs.
Proof.
  intros H.
  apply (collect_at_inv _ (fun p r => row_ready max_columns r
                             /\ pbr_index (cell_row_to_proto r) = pbr_index p)) in H.
  2: { intros _ p r. apply row_from_proto_inv. }
  induction H as [|p r ps rs [Hr Hi] _ [IHr IHi]]; [by split|].
  split; [by constructor|]. cbn [fmap list_fmap]. by f_equal.
Qed.

(** Everything an accepted message says of the frame it decodes to. *)
Lemma proto_to_cell_frame_inv p frame :
  proto_to_cell_frame p = Ok frame ->
  assert_frame_sequence p = Ok tt /\ assert_frame_structure p = Ok tt
  /\ collect (cell_row_from_proto_bounded (pb_cols p)) (pb_viewport_rows p)
     = Ok (f_viewport_rows frame)
  /\ collect (cell_row_from_proto_bounded 0) (pb_scrollback_rows p) = Ok (f_scrollback_rows frame)
  /\ collect (cell_row_from_proto_bounded 0) (pb_scrollback_append p)
     = Ok (f_scrollback_append frame)
  /\ placements_from_proto p = Ok (f_image_placements frame)
  /\ frame = frame_with (frame_scalars p) (pb_stream_id p) (pb_grid_epoch p)
               (f_viewport_rows frame) (f_scrollback_rows frame) (f_scrollback_append frame)
               (f_image_placements frame).
Proof.
  unfold proto_to_cell_frame. intros H. ok_inv H. injection H as <-.
  destruct a, a0. cbn. by split_and!.
Qed.

Lemma kitty_range v : 0 <= Z.land (if v <? 2 ^ 8 then v else 0) 0x1f < 32.
Proof. change 0x1f with (Z.ones 5). rewrite Z.land_ones by lia. by apply Z.mod_pos_bound. Qed.

Lemma kitty_small v : 0 <= v < 32 -> Z.land (if v <? 2 ^ 8 then v else 0) 0x1f = v.
Proof.
  intros H. destruct (Z.ltb_spec v (2 ^ 8)); [|lia].
  change 0x1f with (Z.ones 5). rewrite Z.land_ones by lia. by apply Z.mod_small.
Qed.

Lemma mouse_known raw :
  as_mouse_tracking (mouse_to_u32 (as_mouse_tracking raw)) = as_mouse_tracking raw.
Proof. unfold as_mouse_tracking, mouse_from_u32. by repeat case_if. Qed.

Lemma decoded_is_ready p frame : proto_to_cell_frame p = Ok frame -> wire_ready frame.
Proof.
  intros (_ & _ & Hv & Hh & Ha & Hi & Hf)%proto_to_cell_frame_inv.
  apply rows_from_proto_inv in Hv as [Hv _], Hh as [Hh _], Ha as [Ha _].
  apply placements_from_proto_inv in Hi.
  rewrite Hf. by constructor; cbn; [| | |apply mouse_known|apply kitty_range|].
Qed.

Lemma ready_decodes frame session_id p :
  wire_ready frame -> cell_frame_to_proto frame session_id = Ok p -> proto_to_cell_frame p = Ok frame.
Proof.
  intros [Hv Hh Ha Hm Hk Hi] H. unfold cell_frame_to_proto in H. ok_inv H. injection H as <-.
  destruct a, a0. unfold proto_to_cell_frame.
  assert (Hseq : assert_frame_sequence (proto_of_frame frame session_id) = Ok tt).
  { unfold assert_frame_sequence, proto_of_frame. destruct (placements_to_proto _). exact Hok. }
  rewrite Hseq, Hok0, placements_roundtrip by done.
  unfold proto_of_frame. destruct (placements_to_proto _). cbn.
  rewrite !rows_roundtrip by done. f_equal.
  unfold frame_with, frame_scalars. cbn. rewrite Hm, kitty_small by done. by destruct frame.
Qed.

(** The decoders give the same frames; only their errors differ. *)
Lemma decoders_agree (frame : CellGridFrame) (p : PbCellGridFrame) :
  proto_into_cell_frame p = Ok frame <-> proto_to_cell_frame p = Ok frame.
Proof.
  unfold proto_into_cell_frame, proto_to_cell_frame.
  destruct (assert_frame_sequence p); [|done]. destruct (assert_frame_structure p); [|done].
  destruct (collect (cell_row_from_proto_bounded (pb_cols p)) (pb_viewport_rows p)),
    (collect (cell_row_from_proto_bounded 0) (pb_scrollback_rows p)),
    (collect (cell_row_from_proto_bounded 0) (pb_scrollback_append p)),
    (placements_from_proto p); by split.
Qed.

(** C29: a cell frame survives the wire exactly when the value model can hold
    it.  Of a frame the encoder accepts, both decoders give back the same frame
    if and only if every row passes the span contract with 16-bit fields and
    known marks, the mouse mode is one this build names, the keyboard flags
    are the five Kitty ones, and the image set is stated by a full frame and
    within its limits; and every frame either decoder accepts is such a frame,
    which the encoder then accepts for any session and both decoders give back. *)
Theorem cell_frame_roundtrip (frame : CellGridFrame) (session_id : string) (p : PbCellGridFrame) :
  (cell_frame_to_proto frame session_id = Ok p ->
     (proto_to_cell_frame p = Ok frame <-> wire_ready frame)
     /\ (proto_into_cell_frame p = Ok frame <-> wire_ready frame))
  /\ (proto_to_cell_frame p = Ok frame \/ proto_into_cell_frame p = Ok frame ->
        wire_ready frame /\ exists q, cell_frame_to_proto frame session_id = Ok q
                                      /\ proto_to_cell_frame q = Ok frame
                                      /\ proto_into_cell_frame q = Ok frame).
Proof.
  split.
  - intros He. rewrite decoders_agree. split; (split; [apply decoded_is_ready|]; intros Hr; by eapply ready_decodes).
  - rewrite decoders_agree. intros Hd'. assert (Hd : proto_to_cell_frame p = Ok frame) by tauto. clear Hd'.
    pose proof (decoded_is_ready _ _ Hd) as Hr. split; [done|].
    destruct (proto_to_cell_frame_inv _ _ Hd) as (Hseq & Hst & Hv & Hh & Ha & _ & Hf).
    apply rows_from_proto_inv in Hv as [_ Hv], Hh as [_ Hh], Ha as [_ Ha].
    assert (He : cell_frame_to_proto frame session_id = Ok (proto_of_frame frame session_id)).
    { unfold cell_frame_to_proto.
      replace (assert_frame_identity _ _ _ _ _) with (assert_frame_sequence p) by (by rewrite Hf).
      rewrite Hseq. rewrite (structure_congruence _ p); [by rewrite Hst|..];
        unfold proto_of_frame; destruct (placements_to_proto _); cbn; try done;
        by rewrite Hf. }
    exists (proto_of_frame frame session_id). rewrite decoders_agree.
    split_and!; [done|by eapply ready_decodes..].
Qed.

Section wire_witness.
Local Definition w_wire_row (index : Z) (c : Z) : CellRow :=
  mkCellRow index [mkCellSpan [c] 256 256 0 None None 1 None None] 1.

Local Definition w_wire_frame : CellGridFrame :=
  mkCellGridFrame "00000000-0000-4000-8000-000000000000" "epoch" 1 2 0 0 true false false false
    PressRelease false false 1 true [w_wire_row 0 97; w_wire_row 1 98] [w_wire_row 4 99] [] 5 4 0 7
    (Some []).

Lemma cell_frame_roundtrip_witness :
  exists p, cell_frame_to_proto w_wire_frame "s" = Ok p /\ proto_to_cell_frame p = Ok w_wire_frame
            /\ wire_ready w_wire_frame.
Proof.
  exists (proto_of_frame w_wire_frame "s").
  assert (He : cell_frame_to_proto w_wire_frame "s" = Ok (proto_of_frame w_wire_frame "s"))
    by (vm_compute; reflexivity).
  assert (Hd : proto_to_cell_frame (proto_of_frame w_wire_frame "s") = Ok w_wire_frame)
    by (vm_compute; reflexivity).
  split; [exact He|]. split; [exact Hd|].
  pose proof (cell_frame_roundtrip w_wire_frame "s" (proto_of_frame w_wire_frame "s")) as [H _].
  apply (proj1 (H He)). exact Hd.
Defined.
End wire_witness.

(** ** Where the boundary is weaker than its documentation *)

Definition zero_width_frame : CellGridFrame :=
  mkCellGridFrame "00000000-0000-4000-8000-000000000000" "epoch" 1 1 0 0 true false false false
    (MouseUnknown 1003) false false 0 true
    [mkCellRow 0 [mkCellSpan [97] 256 256 0 None None 0 None None] 0] [] [] 0 0 0 1 (Some []).

(** The encoder does not look at spans: a row without its occupancy is encoded,
    and every decoder refuses it. *)
Lemma encoder_ships_zero_width :
  is_ok (cell_frame_to_proto zero_width_frame "s") = true
  /\ proto_to_cell_frame (proto_of_frame zero_width_frame "s") = Err (SpanColumns 0 0 0).
Proof. vm_compute. by split. Qed.

(** A mouse mode this build does not name is not carried: it decodes to no
    tracking. *)
Lemma unknown_mouse_dropped raw :
  raw <> 0 -> raw <> 1000 -> raw <> 1002 -> as_mouse_tracking raw = MouseNone.
Proof. intros. unfold as_mouse_tracking, mouse_from_u32. by repeat case_if; bool_to_prop. Qed.

(** The two decoders report different faults of the same message: the owning
    one reads the placements before the rows. *)
Lemma decoders_report_differently :
  let p := proto_of_frame
             (frame_with zero_width_frame "00000000-0000-4000-8000-000000000000" "epoch"
                (f_viewport_rows zero_width_frame) [] []
                (Some [mkImagePlacement 0 0 0 0 1 0 0 0 0 0 0 0 0 0])) "s" in
  proto_to_cell_frame p = Err (SpanColumns 0 0 0)
  /\ proto_into_cell_frame p = Err (PlacementEmpty 0).
Proof. vm_compute. by split. Qed.

(** The decoder keeps a full frame's rows in the order they came, in any order,
    and a delta overwrites by position: after such a full the next delta
    replaces another row. *)
Lemma unordered_full_misplaces_delta :
  let full := mkCellGridFrame "00000000-0000-4000-8000-000000000000" "epoch" 1 2 0 0 true false
                false false MouseNone false false 0 true
                [w_wire_row 1 98; w_wire_row 0 97] [] [] 0 0 0 1 (Some []) in
  let delta := mkCellGridFrame "00000000-0000-4000-8000-000000000000" "epoch" 1 2 0 0 true false
                 false false MouseNone false false 0 false [w_wire_row 0 99] [] [] 0 0 1 2 None in
  proto_to_cell_frame (proto_of_frame full "s") = Ok full
  /\ f_viewport_rows <$> apply_delta full delta = Some [w_wire_row 0 99; w_wire_row 0 97].
Proof. vm_compute. by split. Qed.
