(* ===== verification/CellChunks.v ===== *)
(** * CellChunks: a snapshot in bounded parts

    Models [src/crates/roost-protocol/src/cell/frame_chunk_validation.rs] with
    [row_accounting.rs], [frame_chunks.rs] with [plan.rs], and
    [frame_chunk_assembler.rs]: the validation of a snapshot, its division
    into parts of whole rows, and the assembly of parts into a frame.

    The encoded lengths are the protobuf runtime's, which is not in the
    repository: class [WireSizes] names them, class [WireSizeLaws] states what
    the planner relies on (a message's length is the sum of its fields').  A
    refusal is its contract code; the code formats a reason beside it. *)
From Stdlib Require Import Ascii String.
From S2P Require Export CellWire.

Definition CELL_GRID_PART_MAX_BYTES : Z := 1048576.
Definition CELL_GRID_SNAPSHOT_MAX_BYTES : Z := 67108864.
Definition CELL_GRID_SNAPSHOT_MAX_CHUNKS : Z := 256.
Definition CELL_GRID_SNAPSHOT_MAX_ROWS : Z := TERMINAL_MAX_ROWS.
Definition CELL_GRID_SNAPSHOT_MAX_SPANS : Z := 65536.
Definition CELL_GRID_SNAPSHOT_MAX_LINK_MAPPINGS : nat := 1024.
Definition CELL_GRID_CHUNK_STALL_MS : Z := 10000.

Inductive CellGridChunkErrorCode :=
| InvalidSnapshotId | InvalidStreamId | MissingPart | InvalidFull | InvalidGeometry
| InvalidSequence | ChunkCount | ChunkIndex | ChunkOrder | ChunkSize | SnapshotSize
| SnapshotStalled | MetadataMismatch | RowIndex | DuplicateRow | MissingRow | SpanLimit
| LinkLimit | LinkConflict | SingleRowOversize.

Record PbCellGridChunk := mkPbCellGridChunk {
  ch_snapshot_id : string;
  ch_index : Z;
  ch_count : Z;
  ch_part : option PbCellGridFrame;
}.

(** ** Validation of one snapshot *)

Definition assert_snapshot_scalars (frame : PbCellGridFrame) : result unit CellGridChunkErrorCode :=
  if negb (pb_full frame) || negb (pb_base_seq frame =? 0) then Err InvalidFull
  else if negb (is_terminal_uuid (pb_stream_id frame)) then Err InvalidStreamId
  else if String.eqb (pb_grid_epoch frame) EmptyString then Err InvalidFull
  else if negb (is_terminal_geometry (mkTerminalGeometry (pb_cols frame) (pb_rows frame))) then
    Err InvalidGeometry
  else if pb_seq frame <? 1 then Err InvalidSequence
  else if bool_decide (pb_scrollback_append frame <> []) then Err InvalidFull
  else if pb_scrollback_total frame <? pb_sb_base frame then Err InvalidFull
  else Ok tt.

(** [links]: a run's key to its URI. *)
Abbreviation Links := (gmap text text).

Definition assert_part_row_spans (row : PbCellRow) (max_columns : Z) :
    result unit CellGridChunkErrorCode :=
  match cell_row_from_proto_bounded max_columns row with
  | Ok _ => Ok tt
  | Err _ => Err SpanLimit
  end.

Definition account_spans (spans : Z) (row : PbCellRow) : result Z CellGridChunkErrorCode :=
  let spans := Z.min (2 ^ 32 - 1) (spans + len_u32 (pbr_spans row)) in
  if CELL_GRID_SNAPSHOT_MAX_SPANS <? spans then Err SpanLimit else Ok spans.

Fixpoint record_links (spans : list PbCellSpan) (links : Links) :
    result Links CellGridChunkErrorCode :=
  match spans with
  | [] => Ok links
  | span :: rest =>
      match pbs_link_key span, pbs_link_uri span with
      | Some key, Some uri =>
          match links !! key with
          | Some prior =>
              if bool_decide (prior <> uri) then Err LinkConflict else record_links rest links
          | None =>
              if (CELL_GRID_SNAPSHOT_MAX_LINK_MAPPINGS <=? size links)%nat then Err LinkLimit
              else record_links rest (<[key := uri]> links)
          end
      | _, _ => record_links rest links
      end
  end.

Definition record_span_links (row : PbCellRow) (links : Links) :
    result Links CellGridChunkErrorCode :=
  record_links (pbr_spans row) links.

(** What a walk over rows accumulates. *)
Record RowWalk := mkRowWalk {
  w_seen : gset Z;
  w_links : Links;
  w_spans : Z;
  w_next : Z;
}.

(** One row's charge: its spans, then its links. *)
Definition charge_row (max_columns : Z) (row : PbCellRow) (links : Links) (spans : Z) :
    result (Links * Z) CellGridChunkErrorCode :=
  let? _ := assert_part_row_spans row max_columns in
  let? spans := account_spans spans row in
  let? links := record_span_links row links in
  Ok (links, spans).

Fixpoint add_snapshot_rows (frame : PbCellGridFrame) (rows : list PbCellRow) (walk : RowWalk) :
    result RowWalk CellGridChunkErrorCode :=
  match rows with
  | [] => Ok walk
  | row :: rest =>
      if pb_rows frame <=? pbr_index row then Err RowIndex
      else if bool_decide (pbr_index row ∈ w_seen walk) then Err DuplicateRow
      else
        let? charged := charge_row (pb_cols frame) row (w_links walk) (w_spans walk) in
        add_snapshot_rows frame rest
          (mkRowWalk ({[pbr_index row]} ∪ w_seen walk) (fst charged) (snd charged) (w_next walk))
  end.

Fixpoint add_snapshot_history_rows (frame : PbCellGridFrame) (rows : list PbCellRow)
    (walk : RowWalk) : result RowWalk CellGridChunkErrorCode :=
  match rows with
  | [] => Ok walk
  | row :: rest =>
      if negb (pbr_index row =? w_next walk) || (pb_scrollback_total frame <=? pbr_index row)
      then Err RowIndex
      else
        let? charged := charge_row 0 row (w_links walk) (w_spans walk) in
        add_snapshot_history_rows frame rest
          (mkRowWalk (w_seen walk) (fst charged) (snd charged) (w_next walk + 1))
  end.

Record CellGridSnapshotStats := mkCellGridSnapshotStats { st_spans : Z; st_link_mappings : nat }.

Definition assert_cell_grid_snapshot (frame : PbCellGridFrame) :
    result CellGridSnapshotStats CellGridChunkErrorCode :=
  let? _ := assert_snapshot_scalars frame in
  if CELL_GRID_SNAPSHOT_MAX_ROWS <? pb_rows frame then Err InvalidGeometry
  else
    let? walk := add_snapshot_rows frame (pb_viewport_rows frame) (mkRowWalk ∅ ∅ 0 (pb_sb_base frame)) in
    let? walk := add_snapshot_history_rows frame (pb_scrollback_rows frame) walk in
    if negb (w_next walk =? pb_scrollback_total frame) then Err MissingRow
    else if negb (Z.of_nat (size (w_seen walk)) =? pb_rows frame) then Err MissingRow
    else Ok (mkCellGridSnapshotStats (w_spans walk) (size (w_links walk))).

Definition has_same_snapshot_metadata (a b : PbCellGridFrame) : bool :=
  String.eqb (pb_session_id a) (pb_session_id b)
  && String.eqb (pb_stream_id a) (pb_stream_id b)
  && String.eqb (pb_grid_epoch a) (pb_grid_epoch b)
  && (pb_cols a =? pb_cols b) && (pb_rows a =? pb_rows b)
  && (pb_cursor_row a =? pb_cursor_row b) && (pb_cursor_col a =? pb_cursor_col b)
  && Bool.eqb (pb_cursor_visible a) (pb_cursor_visible b)
  && Bool.eqb (pb_alt_screen a) (pb_alt_screen b) && Bool.eqb (pb_full a) (pb_full b)
  && (pb_scrollback_total a =? pb_scrollback_total b) && (pb_seq a =? pb_seq b)
  && (pb_sb_base a =? pb_sb_base b) && (pb_base_seq a =? pb_base_seq b)
  && Bool.eqb (pb_cursor_keys_app a) (pb_cursor_keys_app b)
  && Bool.eqb (pb_bracketed_paste a) (pb_bracketed_paste b)
  && (pb_mouse_tracking a =? pb_mouse_tracking b) && Bool.eqb (pb_mouse_sgr a) (pb_mouse_sgr b)
  && Bool.eqb (pb_focus_events a) (pb_focus_events b)
  && (pb_pty_out_ms a =? pb_pty_out_ms b) && (pb_worker_emit_ms a =? pb_worker_emit_ms b)
  && (pb_coord_recv_ms a =? pb_coord_recv_ms b) && (pb_coord_fanout_ms a =? pb_coord_fanout_ms b)
  && Bool.eqb (pb_image_placements_present a) (pb_image_placements_present b)
  && bool_decide (pb_image_placements a = pb_image_placements b).

(** ** Encoded lengths *)

(** buffa's [encoded_len] of the three messages, and its [varint_len]. *)
Class WireSizes := {
  row_encoded_len : PbCellRow -> Z;
  encoded_cell_grid_frame_size : PbCellGridFrame -> Z;
  encoded_cell_grid_chunk_size : PbCellGridChunk -> Z;
  varint_len : Z -> Z;
}.

Definition create_cell_grid_frame_part (frame : PbCellGridFrame)
    (rows scrollback_rows : list PbCellRow) : PbCellGridFrame :=
  mkPbCellGridFrame (pb_session_id frame) (pb_stream_id frame) (pb_grid_epoch frame)
    (pb_cols frame) (pb_rows frame) (pb_cursor_row frame) (pb_cursor_col frame)
    (pb_cursor_visible frame) (pb_alt_screen frame) (pb_full frame) rows scrollback_rows []
    (pb_scrollback_total frame) (pb_seq frame) (pb_sb_base frame) (pb_cursor_keys_app frame)
    (pb_bracketed_paste frame) (pb_pty_out_ms frame) (pb_worker_emit_ms frame)
    (pb_coord_recv_ms frame) (pb_coord_fanout_ms frame) (pb_mouse_tracking frame)
    (pb_mouse_sgr frame) (pb_kitty_keyboard_flags frame) (pb_focus_events frame)
    (pb_base_seq frame) (pb_image_placements frame) (pb_image_placements_present frame).

(** ** The plan ([frame_chunks/plan.rs]) *)

Definition PLANNING_SNAPSHOT_ID : string := "00000000-0000-4000-8000-000000000000".
Definition ROW_FIELD_TAG_BYTES : Z := 1.

Record SnapshotEntry := mkSnapshotEntry { en_history : bool; en_index : Z }.

Record PlannedSnapshotPart := mkPlannedSnapshotPart {
  pl_entries : list SnapshotEntry;
  pl_encoded_part_bytes : Z;
}.

Definition find_row (rows : list PbCellRow) (index : Z) : option PbCellRow :=
  snd <$> list_find (fun row => pbr_index row = index) rows.

(** [SnapshotEntry::row]. *)
Definition entry_row (frame : PbCellGridFrame) (entry : SnapshotEntry) :
    result PbCellRow CellGridChunkErrorCode :=
  ok_or (find_row (if en_history entry then pb_scrollback_rows frame else pb_viewport_rows frame)
           (en_index entry)) MissingRow.

Definition snapshot_entries (frame : PbCellGridFrame) : list SnapshotEntry :=
  imap (fun offset _ =>
          let index := saturating_add64 (pb_sb_base frame) (Z.of_nat offset) in
          mkSnapshotEntry true (if index <? 2 ^ 32 then index else 2 ^ 32 - 1))
    (pb_scrollback_rows frame)
  ++ ((fun index => mkSnapshotEntry false (Z.of_nat index)) <$> seq 0 (Z.to_nat (pb_rows frame))).

Section plan.
Context `{WireSizes}.

Definition row_entry_bytes (row : PbCellRow) : Z :=
  let row_bytes := row_encoded_len row in
  u32 (ROW_FIELD_TAG_BYTES + u32 (varint_len row_bytes) + u32 row_bytes).

Definition chunk_header_bytes (snapshot_id : string) (chunk_index chunk_count : Z) : Z :=
  encoded_cell_grid_chunk_size (mkPbCellGridChunk snapshot_id chunk_index chunk_count None).

Definition part_field_tag_bytes (empty_part : PbCellGridFrame) (empty_bytes header : Z) : Z :=
  let probe := mkPbCellGridChunk PLANNING_SNAPSHOT_ID (CELL_GRID_SNAPSHOT_MAX_CHUNKS - 1)
                 CELL_GRID_SNAPSHOT_MAX_CHUNKS (Some empty_part) in
  let prefix := u32 (varint_len empty_bytes) in
  u32 (encoded_cell_grid_chunk_size probe - header - prefix - empty_bytes).

Definition encoded_chunk_bytes (header_bytes part_tag_bytes encoded_part_bytes : Z) : Z :=
  let prefix := u32 (varint_len encoded_part_bytes) in
  u32 (header_bytes + part_tag_bytes + prefix + encoded_part_bytes).

(** The loop over the entries: the parts closed so far, the open part's
    entries, its encoded length. *)
Fixpoint plan_loop (frame : PbCellGridFrame) (base_part_bytes largest_header_bytes tag_bytes : Z)
    (remaining : list SnapshotEntry) (parts : list PlannedSnapshotPart)
    (entries : list SnapshotEntry) (encoded_part_bytes : Z) :
    result (list PlannedSnapshotPart * list SnapshotEntry * Z) CellGridChunkErrorCode :=
  match remaining with
  | [] => Ok (parts, entries, encoded_part_bytes)
  | entry :: rest =>
      let? row := entry_row frame entry in
      let contribution := row_entry_bytes row in
      let next_part_bytes := u32 (encoded_part_bytes + contribution) in
      if encoded_chunk_bytes largest_header_bytes tag_bytes next_part_bytes
           <=? CELL_GRID_PART_MAX_BYTES
      then plan_loop frame base_part_bytes largest_header_bytes tag_bytes rest parts
             (entries ++ [entry]) next_part_bytes
      else if bool_decide (entries = []) then Err SingleRowOversize
      else
        let parts := parts ++ [mkPlannedSnapshotPart entries encoded_part_bytes] in
        let encoded_part_bytes := u32 (base_part_bytes + contribution) in
        if CELL_GRID_PART_MAX_BYTES
             <? encoded_chunk_bytes largest_header_bytes tag_bytes encoded_part_bytes
        then Err SingleRowOversize
        else plan_loop frame base_part_bytes largest_header_bytes tag_bytes rest parts
               [entry] encoded_part_bytes
  end.

Definition planned_total (parts : list PlannedSnapshotPart) (tag_bytes chunk_count : Z) : Z :=
  foldr Z.add 0
    (imap (fun index part =>
             encoded_chunk_bytes
               (chunk_header_bytes PLANNING_SNAPSHOT_ID (Z.of_nat index) chunk_count)
               tag_bytes (pl_encoded_part_bytes part)) parts).

Definition plan_snapshot_parts (frame : PbCellGridFrame) :
    result (list PlannedSnapshotPart) CellGridChunkErrorCode :=
  let empty_part := create_cell_grid_frame_part frame [] [] in
  let base_part_bytes := encoded_cell_grid_frame_size empty_part in
  let max_chunks := CELL_GRID_SNAPSHOT_MAX_CHUNKS in
  let largest_header_bytes := chunk_header_bytes PLANNING_SNAPSHOT_ID (max_chunks - 1) max_chunks in
  let tag_bytes := part_field_tag_bytes empty_part base_part_bytes largest_header_bytes in
  let? planned := plan_loop frame base_part_bytes largest_header_bytes tag_bytes
                    (snapshot_entries frame) [] [] base_part_bytes in
  let '(parts, entries, encoded_part_bytes) := planned in
  let parts :=
    if bool_decide (entries = []) then parts
    else parts ++ [mkPlannedSnapshotPart entries encoded_part_bytes] in
  if bool_decide (parts = []) || (CELL_GRID_SNAPSHOT_MAX_CHUNKS <? len parts) then Err ChunkCount
  else if CELL_GRID_SNAPSHOT_MAX_BYTES <? planned_total parts tag_bytes (len_u32 parts) then
    Err SnapshotSize
  else Ok parts.

(** ** Sources and cursors ([frame_chunks.rs]) *)

Inductive CellGridSnapshotPart :=
| PartFrame (frame : PbCellGridFrame)
| PartChunk (chunk : PbCellGridChunk).

Record CellGridSnapshotSource := mkCellGridSnapshotSource {
  src_frame : PbCellGridFrame;
  src_parts : option (list PlannedSnapshotPart);
}.

Definition part_count (source : CellGridSnapshotSource) : Z :=
  match src_parts source with
  | Some parts => len_u32 parts
  | None => 1
  end.

(** A cursor is its source and its snapshot identifier. *)
Definition create_cursor (source : CellGridSnapshotSource) (snapshot_id : string) :
    result (CellGridSnapshotSource * string) CellGridChunkErrorCode :=
  if bool_decide (is_Some (src_parts source)) && negb (is_terminal_uuid snapshot_id)
  then Err InvalidSnapshotId
  else Ok (source, snapshot_id).

(** The rows an entry list names, by family. *)
Fixpoint entry_rows (frame : PbCellGridFrame) (entries : list SnapshotEntry)
    (viewport_rows scrollback_rows : list PbCellRow) :
    result (list PbCellRow * list PbCellRow) CellGridChunkErrorCode :=
  match entries with
  | [] => Ok (viewport_rows, scrollback_rows)
  | entry :: rest =>
      let? row := entry_row frame entry in
      if en_history entry
      then entry_rows frame rest viewport_rows (scrollback_rows ++ [row])
      else entry_rows frame rest (viewport_rows ++ [row]) scrollback_rows
  end.

Definition materialize (source : CellGridSnapshotSource) (snapshot_id : string)
    (part_index : Z) : result CellGridSnapshotPart CellGridChunkErrorCode :=
  if part_count source <=? part_index then Err ChunkIndex
  else
    match src_parts source with
    | None => Ok (PartFrame (src_frame source))
    | Some parts =>
        let entries := default [] (pl_entries <$> parts !! Z.to_nat part_index) in
        let? rows := entry_rows (src_frame source) entries [] [] in
        let part := create_cell_grid_frame_part (src_frame source) (fst rows) (snd rows) in
        let chunk := mkPbCellGridChunk snapshot_id part_index (part_count source) (Some part) in
        if CELL_GRID_PART_MAX_BYTES <? encoded_cell_grid_chunk_size chunk then Err ChunkSize
        else Ok (PartChunk chunk)
    end.

Definition create_cell_grid_snapshot_source (frame : PbCellGridFrame) (force_chunking : bool) :
    result CellGridSnapshotSource CellGridChunkErrorCode :=
  let? _ := assert_cell_grid_snapshot frame in
  if negb force_chunking && (encoded_cell_grid_frame_size frame <=? CELL_GRID_PART_MAX_BYTES)
  then Ok (mkCellGridSnapshotSource frame None)
  else
    let? parts := plan_snapshot_parts frame in
    Ok (mkCellGridSnapshotSource frame (Some parts)).

Definition chunk_cell_grid_frame (frame : PbCellGridFrame) (snapshot_id : string) :
    result (list PbCellGridChunk) CellGridChunkErrorCode :=
  let? source := create_cell_grid_snapshot_source frame true in
  let? cursor := create_cursor source snapshot_id in
  collect
    (fun part_index =>
       let? part := materialize (fst cursor) (snd cursor) part_index in
       match part with
       | PartChunk chunk => Ok chunk
       | PartFrame _ => Err ChunkCount
       end)
    (Z.of_nat <$> seq 0 (Z.to_nat (part_count source))).
End plan.

(** ** The assembler ([frame_chunk_assembler.rs]) *)

Inductive CellGridChunkAssembly :=
| Pending (snapshot_id : string) (next_chunk_index : Z)
| Complete (snapshot_id : string) (frame : PbCellGridFrame).

Record PartialSnapshot := mkPartialSnapshot {
  pt_snapshot_id : string;
  pt_stream_id : string;
  pt_chunk_count : Z;
  pt_next_chunk_index : Z;
  pt_total_bytes : Z;
  pt_last_chunk_at_ms : Z;
  pt_metadata : PbCellGridFrame;
  pt_rows : list (option PbCellRow);
  pt_history_rows : list PbCellRow;
  pt_walk : RowWalk;  (* [next_history_index], [seen_rows], [links], [spans] *)
}.

(** [CellGridChunkAssembler]: at most one partial snapshot. *)
Abbreviation CellGridChunkAssembler := (option PartialSnapshot).

Definition partial_new (chunk : PbCellGridChunk) (part : PbCellGridFrame) (now_ms : Z) :
    PartialSnapshot :=
  mkPartialSnapshot (ch_snapshot_id chunk) (pb_stream_id part) (ch_count chunk) 0 0 now_ms
    (create_cell_grid_frame_part part [] []) (replicate (Z.to_nat (pb_rows part)) None) []
    (mkRowWalk ∅ ∅ 0 (pb_sb_base part)).

Record CellGridSnapshotProgress := mkCellGridSnapshotProgress {
  progress_snapshot_id : string;
  received_chunks : Z;
  total_chunks : Z;
}.

Definition active_snapshot_id (assembler : CellGridChunkAssembler) : option string :=
  pt_snapshot_id <$> assembler.

Definition snapshot_progress (assembler : CellGridChunkAssembler) :
    option CellGridSnapshotProgress :=
  (fun partial => mkCellGridSnapshotProgress (pt_snapshot_id partial)
                    (pt_next_chunk_index partial) (pt_chunk_count partial)) <$> assembler.

Definition stalled (partial : PartialSnapshot) (now_ms : Z) : bool :=
  CELL_GRID_CHUNK_STALL_MS <=? saturating_sub now_ms (pt_last_chunk_at_ms partial).

Definition expire (assembler : CellGridChunkAssembler) (now_ms : Z) :
    CellGridChunkAssembler * bool :=
  match assembler with
  | None => (None, false)
  | Some partial => if stalled partial now_ms then (None, true) else (assembler, false)
  end.

(** The slots' rows, in order; [None] at an empty slot. *)
Definition filled_rows (rows : list (option PbCellRow)) : option (list PbCellRow) := mapM id rows.

Definition completed_frame (partial : PartialSnapshot) :
    result PbCellGridFrame CellGridChunkErrorCode :=
  if negb (size (w_seen (pt_walk partial)) =? length (pt_rows partial))%nat then Err MissingRow
  else if negb (w_next (pt_walk partial) =? pb_scrollback_total (pt_metadata partial)) then
    Err MissingRow
  else
    let? rows := ok_or (filled_rows (pt_rows partial)) MissingRow in
    Ok (create_cell_grid_frame_part (pt_metadata partial) rows (pt_history_rows partial)).

(** [partial.rows[row.index] = Some(row)] for each row of the part. *)
Definition place_rows (rows : list (option PbCellRow)) (viewport : list PbCellRow) :
    list (option PbCellRow) :=
  foldl (fun rows row => <[Z.to_nat (pbr_index row) := Some row]> rows) rows viewport.

(** [admit]: the partial after the part, and what it did. *)
Definition take_part (partial : PartialSnapshot) (chunk : PbCellGridChunk) (part : PbCellGridFrame)
    (encoded_bytes now_ms : Z) :
    result (PartialSnapshot * CellGridChunkAssembly) CellGridChunkErrorCode :=
  if negb (ch_count chunk =? pt_chunk_count partial) then Err ChunkCount
  else if negb (has_same_snapshot_metadata (pt_metadata partial) part) then Err MetadataMismatch
  else if negb (ch_index chunk =? pt_next_chunk_index partial) then Err ChunkOrder
  else if CELL_GRID_SNAPSHOT_MAX_BYTES <? pt_total_bytes partial + encoded_bytes then
    Err SnapshotSize
  else
    let? walk := add_snapshot_history_rows part (pb_scrollback_rows part) (pt_walk partial) in
    let? walk := add_snapshot_rows part (pb_viewport_rows part) walk in
    let partial :=
      mkPartialSnapshot (pt_snapshot_id partial) (pt_stream_id partial) (pt_chunk_count partial)
        (pt_next_chunk_index partial + 1) (pt_total_bytes partial + encoded_bytes) now_ms
        (pt_metadata partial) (place_rows (pt_rows partial) (pb_viewport_rows part))
        (pt_history_rows partial ++ pb_scrollback_rows part) walk in
    if pt_next_chunk_index partial <? pt_chunk_count partial then
      Ok (partial, Pending (pt_snapshot_id partial) (pt_next_chunk_index partial))
    else
      let? frame := completed_frame partial in
      Ok (partial, Complete (pt_snapshot_id partial) frame).

Section assembler.
Context `{WireSizes}.

(** The checks of one part on its own. *)
Definition checked_part (chunk : PbCellGridChunk) :
    result (PbCellGridFrame * Z) CellGridChunkErrorCode :=
  if negb (is_terminal_uuid (ch_snapshot_id chunk)) then Err InvalidSnapshotId
  else if (ch_count chunk <? 1) || (CELL_GRID_SNAPSHOT_MAX_CHUNKS <? ch_count chunk) then
    Err ChunkCount
  else if ch_count chunk <=? ch_index chunk then Err ChunkIndex
  else
    let? part := ok_or (ch_part chunk) MissingPart in
    let? _ := assert_snapshot_scalars part in
    if bool_decide (pb_viewport_rows part = []) && bool_decide (pb_scrollback_rows part = [])
    then Err MissingRow
    else
      let encoded_bytes := encoded_cell_grid_chunk_size chunk in
      if CELL_GRID_PART_MAX_BYTES <? encoded_bytes then Err ChunkSize
      else Ok (part, encoded_bytes).

(** The partial the part is taken into: the one in flight, a replacement of
    it, or a new one. *)
Definition partial_for (assembler : CellGridChunkAssembler) (chunk : PbCellGridChunk)
    (part : PbCellGridFrame) (now_ms : Z) : result PartialSnapshot CellGridChunkErrorCode :=
  let? kept :=
    match assembler with
    | None => Ok None
    | Some partial =>
        if stalled partial now_ms then Err SnapshotStalled
        else if negb (String.eqb (pt_snapshot_id partial) (ch_snapshot_id chunk)) then
          if negb (ch_index chunk =? 0) then Err ChunkOrder
          else if negb (String.eqb (pt_stream_id partial) (pb_stream_id part)) then
            Err MetadataMismatch
          else Ok None
        else Ok (Some partial)
    end in
  match kept with
  | Some partial => Ok partial
  | None =>
      if negb (ch_index chunk =? 0) then Err ChunkOrder
      else Ok (partial_new chunk part now_ms)
  end.

Definition push_checked (assembler : CellGridChunkAssembler) (chunk : PbCellGridChunk)
    (now_ms : Z) :
    result (CellGridChunkAssembler * CellGridChunkAssembly) CellGridChunkErrorCode :=
  let? checked := checked_part chunk in
  let '(part, encoded_bytes) := checked in
  let? partial := partial_for assembler chunk part now_ms in
  let? taken := take_part partial chunk part encoded_bytes now_ms in
  match taken with
  | (partial, Complete snapshot_id frame) => Ok (None, Complete snapshot_id frame)
  | (partial, assembly) => Ok (Some partial, assembly)
  end.

(** Every rejection drops the partial. *)
Definition push (assembler : CellGridChunkAssembler) (chunk : PbCellGridChunk) (now_ms : Z) :
    CellGridChunkAssembler * result CellGridChunkAssembly CellGridChunkErrorCode :=
  match push_checked assembler chunk now_ms with
  | Ok (assembler, assembly) => (assembler, Ok assembly)
  | Err error => (None, Err error)
  end.
End assembler.
