(* ===== verification/CellChunkPlan.v ===== *)
(** * CellChunkPlan: what a walk over a snapshot's rows proves

    The walks of [CellChunks] charge spans and intern links row by row.  Each
    has two lemmas: what its success says of the rows, and that it succeeds
    wherever the rows agree with one link table and one budget.  The second is
    what makes the order of the rows, and their division into parts,
    immaterial. *)
From Stdlib Require Import Ascii String.
From S2P Require Export CellChunks.

(** ** Links *)

Definition span_pair (span : PbCellSpan) : option (text * text) :=
  match pbs_link_key span, pbs_link_uri span with
  | Some key, Some uri => Some (key, uri)
  | _, _ => None
  end.

Definition row_pairs (row : PbCellRow) : list (text * text) := omap span_pair (pbr_spans row).

Definition links_hold (links : Links) (pairs : list (text * text)) : Prop :=
  forall k u, (k, u) ∈ pairs -> links !! k = Some u.

Definition links_bounded (links : Links) : Prop :=
  (size links <= CELL_GRID_SNAPSHOT_MAX_LINK_MAPPINGS)%nat.

Lemma links_hold_cons links k u pairs :
  links_hold links ((k, u) :: pairs) <-> links !! k = Some u /\ links_hold links pairs.
Proof.
  unfold links_hold. split.
  - intros H. split; [apply H; by left|]. intros. apply H. by right.
  - intros [Hk H] k' u' [[= -> ->]|Hin]%elem_of_cons; [done|by apply H].
Qed.

Lemma links_hold_weaken links links' pairs :
  links ⊆ links' -> links_hold links pairs -> links_hold links' pairs.
Proof. intros Hsub H k u Hin. eapply lookup_weaken; [by apply H|done]. Qed.

Lemma record_links_ok spans links links' :
  record_links spans links = Ok links' ->
  links ⊆ links' /\ links_hold links' (omap span_pair spans)
  /\ (links_bounded links -> links_bounded links').
Proof.
  revert links. induction spans as [|span rest IH]; intros links H.
  { injection H as <-. split_and!; [done| |done]. intros k u Hin. by apply not_elem_of_nil in Hin. }
  cbn [record_links] in H. cbn [omap list_omap]. unfold span_pair at 1.
  destruct (pbs_link_key span) as [key|], (pbs_link_uri span) as [uri|]; try by apply IH.
  destruct (links !! key) as [prior|] eqn:Hk.
  - case_bool_decide as Hp; [done|]. assert (prior = uri) as -> by (by destruct (decide (prior = uri))).
    apply IH in H as (Hsub & Hh & Hb). split_and!; [done| |done].
    apply links_hold_cons. split; [by eapply lookup_weaken|done].
  - destruct (Nat.leb_spec CELL_GRID_SNAPSHOT_MAX_LINK_MAPPINGS (size links)); [done|].
    apply IH in H as (Hsub & Hh & Hb). split_and!.
    + etrans; [|done]. by apply insert_subseteq.
    + apply links_hold_cons. split; [|done]. eapply lookup_weaken; [|done]. apply lookup_insert_eq.
    + intros _. apply Hb. unfold links_bounded. rewrite map_size_insert_None by done. lia.
Qed.

Lemma record_links_total spans links table :
  links ⊆ table -> links_hold table (omap span_pair spans) -> links_bounded table ->
  exists links', record_links spans links = Ok links' /\ links' ⊆ table.
Proof.
  revert links. induction spans as [|span rest IH]; intros links Hsub Hh Hb; [by exists links|].
  cbn [record_links]. cbn [omap list_omap] in Hh. unfold span_pair at 1 in Hh.
  destruct (pbs_link_key span) as [key|], (pbs_link_uri span) as [uri|]; try by apply IH.
  apply links_hold_cons in Hh as [Hk Hh].
  destruct (links !! key) as [prior|] eqn:Hp.
  - assert (prior = uri) as -> by (pose proof (lookup_weaken _ _ _ _ Hp Hsub); congruence).
    rewrite bool_decide_false by (intros Hne; by apply Hne). by apply IH.
  - assert (Hins : <[key := uri]> links ⊆ table) by (by apply insert_subseteq_l).
    destruct (Nat.leb_spec CELL_GRID_SNAPSHOT_MAX_LINK_MAPPINGS (size links)) as [Hge|]; [|by apply IH].
    apply map_subseteq_size in Hins. rewrite map_size_insert_None in Hins by done.
    unfold links_bounded in Hb. lia.
Qed.

(** ** Rows *)

Definition spans_of (rows : list PbCellRow) : Z :=
  foldr (fun row n => len_u32 (pbr_spans row) + n) 0 rows.

Definition row_fine (max_columns : Z) (table : Links) (row : PbCellRow) : Prop :=
  assert_part_row_spans row max_columns = Ok tt /\ links_hold table (row_pairs row).

Lemma len_u32_nonneg {A} (l : list A) : 0 <= len_u32 l.
Proof. unfold len_u32. pose proof (len_nonneg l). case_if; lia. Qed.

Lemma spans_of_cons row rows : spans_of (row :: rows) = len_u32 (pbr_spans row) + spans_of rows.
Proof. done. Qed.

Lemma spans_of_nonneg rows : 0 <= spans_of rows.
Proof.
  induction rows as [|row rows IH]; [done|]. rewrite spans_of_cons.
  pose proof (len_u32_nonneg (pbr_spans row)). lia.
Qed.

Lemma spans_of_app l k : spans_of (l ++ k) = spans_of l + spans_of k.
Proof. induction l as [|x l IH]; [done|]. cbn [app]. rewrite !spans_of_cons. lia. Qed.

#[global] Instance spans_of_perm : Proper ((≡ₚ) ==> eq) spans_of.
Proof. intros l k H. induction H; rewrite ?spans_of_cons; lia. Qed.

Lemma row_fine_weaken max_columns links links' row :
  links ⊆ links' -> row_fine max_columns links row -> row_fine max_columns links' row.
Proof. intros Hsub [? Hh]. split; [done|by eapply links_hold_weaken]. Qed.

Lemma account_spans_ok spans row spans' :
  account_spans spans row = Ok spans' ->
  spans' = spans + len_u32 (pbr_spans row) /\ spans' <= CELL_GRID_SNAPSHOT_MAX_SPANS.
Proof.
  unfold account_spans, CELL_GRID_SNAPSHOT_MAX_SPANS. intros H. case_if; [done|].
  injection H as <-. bool_to_prop. lia.
Qed.

Lemma account_spans_total spans row :
  spans + len_u32 (pbr_spans row) <= CELL_GRID_SNAPSHOT_MAX_SPANS ->
  account_spans spans row = Ok (spans + len_u32 (pbr_spans row)).
Proof.
  unfold account_spans, CELL_GRID_SNAPSHOT_MAX_SPANS. intros H.
  rewrite Z.min_r by lia. destruct (Z.ltb_spec 65536 (spans + len_u32 (pbr_spans row))); [lia|done].
Qed.

Lemma charge_row_ok max_columns row links spans links' spans' :
  charge_row max_columns row links spans = Ok (links', spans') ->
  row_fine max_columns links' row /\ links ⊆ links'
  /\ (links_bounded links -> links_bounded links')
  /\ spans' = spans + len_u32 (pbr_spans row) /\ spans' <= CELL_GRID_SNAPSHOT_MAX_SPANS.
Proof.
  unfold charge_row. intros H. ok_inv H. injection H as <- <-. destruct a.
  apply account_spans_ok in Hok0 as [? ?]. apply record_links_ok in Hok1 as (? & ? & ?).
  by repeat split.
Qed.

Lemma charge_row_total max_columns row links spans table :
  row_fine max_columns table row -> links ⊆ table -> links_bounded table ->
  spans + len_u32 (pbr_spans row) <= CELL_GRID_SNAPSHOT_MAX_SPANS ->
  exists links', charge_row max_columns row links spans
                 = Ok (links', spans + len_u32 (pbr_spans row)) /\ links' ⊆ table.
Proof.
  intros [Ha Hh] Hsub Hb Hs. unfold charge_row. rewrite Ha, account_spans_total by done.
  destruct (record_links_total _ _ _ Hsub Hh Hb) as (links' & Hl & ?).
  unfold record_span_links. rewrite Hl. by exists links'.
Qed.

(** ** Walks *)

Definition within_grid (rows : Z) (row : PbCellRow) : Prop := pbr_index row < rows.

Lemma add_rows_ok frame rows walk walk' :
  add_snapshot_rows frame rows walk = Ok walk' ->
  NoDup (pbr_index <$> rows)
  /\ (forall i, i ∈ pbr_index <$> rows -> i ∉ w_seen walk)
  /\ Forall (within_grid (pb_rows frame)) rows
  /\ w_seen walk' = list_to_set (pbr_index <$> rows) ∪ w_seen walk
  /\ Forall (row_fine (pb_cols frame) (w_links walk')) rows
  /\ w_links walk ⊆ w_links walk'
  /\ (links_bounded (w_links walk) -> links_bounded (w_links walk'))
  /\ w_spans walk' = w_spans walk + spans_of rows
  /\ (w_spans walk <= CELL_GRID_SNAPSHOT_MAX_SPANS -> w_spans walk' <= CELL_GRID_SNAPSHOT_MAX_SPANS)
  /\ w_next walk' = w_next walk.
Proof.
  revert walk. induction rows as [|row rest IH]; intros walk H.
  { injection H as <-. cbn. split_and!; try done; [constructor| |set_solver|lia].
    intros i Hi. by apply not_elem_of_nil in Hi. }
  cbn [add_snapshot_rows] in H. ok_inv H. apply bool_decide_eq_false in Hif0 as Hseen. bool_to_prop.
  destruct a as [links spans]. apply charge_row_ok in Hok as (Hf & Hsub & Hb & Hsp & Hcap).
  apply IH in H as (Hnd & Hfresh & Hin & Hs & Hall & Hsub' & Hb' & Hsp' & Hcap' & Hn).
  cbn [fmap list_fmap list_to_set w_seen w_links w_spans w_next fst snd] in *.
  split_and!.
  - constructor; [|done]. intros Hi. apply (Hfresh _ Hi). set_solver.
  - intros i [->|Hi]%elem_of_cons; [done|]. specialize (Hfresh _ Hi). set_solver.
  - by constructor.
  - rewrite Hs. set_solver.
  - constructor; [exact (row_fine_weaken _ _ _ _ Hsub' Hf)|done].
  - by etrans.
  - intros. by apply Hb', Hb.
  - rewrite spans_of_cons. lia.
  - intros _. by apply Hcap'.
  - done.
Qed.

Lemma add_rows_total frame rows walk table :
  NoDup (pbr_index <$> rows) -> (forall i, i ∈ pbr_index <$> rows -> i ∉ w_seen walk) ->
  Forall (within_grid (pb_rows frame)) rows ->
  Forall (row_fine (pb_cols frame) table) rows -> w_links walk ⊆ table -> links_bounded table ->
  w_spans walk + spans_of rows <= CELL_GRID_SNAPSHOT_MAX_SPANS ->
  exists links, add_snapshot_rows frame rows walk
    = Ok (mkRowWalk (list_to_set (pbr_index <$> rows) ∪ w_seen walk) links
            (w_spans walk + spans_of rows) (w_next walk)) /\ links ⊆ table.
Proof.
  revert walk. induction rows as [|row rest IH]; intros walk Hnd Hfresh Hin Hall Hsub Hb Hsp.
  { exists (w_links walk). split; [|done]. cbn. destruct walk; cbn. do 2 f_equal; [set_solver|lia]. }
  cbn [fmap list_fmap] in Hnd. apply NoDup_cons in Hnd as [Hni Hnd].
  apply Forall_cons in Hin as [Hrow Hin], Hall as [Hf Hall]. rewrite spans_of_cons in Hsp.
  pose proof (spans_of_nonneg rest).
  cbn [add_snapshot_rows]. unfold within_grid in Hrow.
  destruct (Z.leb_spec (pb_rows frame) (pbr_index row)); [lia|].
  rewrite bool_decide_false by (apply Hfresh; by left).
  destruct (charge_row_total _ _ (w_links walk) (w_spans walk) table Hf Hsub Hb) as (links & -> & Hl);
    [lia|].
  cbn [fst snd].
  destruct (IH (mkRowWalk ({[pbr_index row]} ∪ w_seen walk) links
                  (w_spans walk + len_u32 (pbr_spans row)) (w_next walk)))
    as (links' & Hgo & ?);
    cbn [w_seen w_links w_spans w_next]; try done; [|lia|].
  - intros i Hi [->%elem_of_singleton|Hs]%elem_of_union; [done|].
    revert Hs. apply Hfresh. by right.
  - cbn [w_seen w_links w_spans w_next] in Hgo. exists links'. split; [|done].
    rewrite Hgo, spans_of_cons. do 2 f_equal; [set_solver|lia].
Qed.

Lemma history_rows_ok frame rows walk walk' :
  add_snapshot_history_rows frame rows walk = Ok walk' ->
  (forall i row, rows !! i = Some row -> pbr_index row = w_next walk + Z.of_nat i
                                         /\ pbr_index row < pb_scrollback_total frame)
  /\ Forall (row_fine 0 (w_links walk')) rows
  /\ w_links walk ⊆ w_links walk'
  /\ (links_bounded (w_links walk) -> links_bounded (w_links walk'))
  /\ w_spans walk' = w_spans walk + spans_of rows
  /\ (w_spans walk <= CELL_GRID_SNAPSHOT_MAX_SPANS -> w_spans walk' <= CELL_GRID_SNAPSHOT_MAX_SPANS)
  /\ w_next walk' = w_next walk + len rows /\ w_seen walk' = w_seen walk.
Proof.
  revert walk. induction rows as [|row rest IH]; intros walk H.
  { injection H as <-. unfold len; cbn [length spans_of foldr]. split_and!; try done; lia. }
  cbn [add_snapshot_history_rows] in H. ok_inv H. bool_to_prop.
  destruct a as [links spans]. apply charge_row_ok in Hok as (Hf & Hsub & Hb & Hsp & Hcap).
  apply IH in H as (Hidx & Hall & Hsub' & Hb' & Hsp' & Hcap' & Hn & Hs).
  cbn [w_seen w_links w_spans w_next fst snd] in *. rewrite len_cons, spans_of_cons. split_and!; try done; try lia.
  - intros [|i] r Hr; cbn in Hr; [injection Hr as <-; lia|]. apply Hidx in Hr. lia.
  - constructor; [exact (row_fine_weaken _ _ _ _ Hsub' Hf)|done].
  - by etrans.
  - intros. by apply Hb', Hb.
Qed.

Lemma history_rows_total frame rows walk table :
  (forall i row, rows !! i = Some row -> pbr_index row = w_next walk + Z.of_nat i
                                         /\ pbr_index row < pb_scrollback_total frame) ->
  Forall (row_fine 0 table) rows -> w_links walk ⊆ table -> links_bounded table ->
  w_spans walk + spans_of rows <= CELL_GRID_SNAPSHOT_MAX_SPANS ->
  exists links, add_snapshot_history_rows frame rows walk
    = Ok (mkRowWalk (w_seen walk) links (w_spans walk + spans_of rows) (w_next walk + len rows))
      /\ links ⊆ table.
Proof.
  revert walk. induction rows as [|row rest IH]; intros walk Hidx Hall Hsub Hb Hsp.
  { exists (w_links walk). split; [|done]. unfold len. cbn. destruct walk; cbn. do 2 f_equal; lia. }
  apply Forall_cons in Hall as [Hf Hall]. rewrite spans_of_cons in Hsp.
  pose proof (spans_of_nonneg rest).
  destruct (Hidx O row eq_refl) as [Hi Hlt]. cbn [add_snapshot_history_rows].
  destruct (Z.eqb_spec (pbr_index row) (w_next walk)); [|lia].
  destruct (Z.leb_spec (pb_scrollback_total frame) (pbr_index row)); [lia|]. cbn [negb orb].
  destruct (charge_row_total _ _ (w_links walk) (w_spans walk) table Hf Hsub Hb) as (links & -> & Hl);
    [lia|].
  cbn [fst snd].
  destruct (IH (mkRowWalk (w_seen walk) links (w_spans walk + len_u32 (pbr_spans row))
                  (w_next walk + 1))) as (links' & Hgo & ?);
    cbn [w_seen w_links w_spans w_next]; try done; [|lia|].
  - intros i r Hr. destruct (Hidx (S i) r Hr). lia.
  - cbn [w_seen w_links w_spans w_next] in Hgo. exists links'. split; [|done].
    rewrite Hgo, len_cons, spans_of_cons. do 2 f_equal; lia.
Qed.

(** ** The plan of a snapshot

    What a validated snapshot's rows are, and what [plan_snapshot_parts] and
    [materialize] of [CellChunks] do with them: the parts' entries are the
    snapshot's, in order, each once, and the planned lengths are the lengths
    of the messages built from them. *)

(** A row inside a frame: its tag, its length prefix, its bytes. *)
Definition row_cost `{WireSizes} (row : PbCellRow) : Z :=
  1 + varint_len (row_encoded_len row) + row_encoded_len row.

Definition rows_cost `{WireSizes} (rows : list PbCellRow) : Z :=
  foldr (fun row n => row_cost row + n) 0 rows.

(** What the planner relies on: a protobuf message is as long as its fields,
    a length-delimited field being its tag, its length prefix and its bytes.
    The fields numbered 4, 9 and 10 have one-byte tags; a UUID's length does
    not depend on which UUID it is. *)
Class WireSizeLaws `{WireSizes} : Prop := {
  row_len_range row : 0 <= row_encoded_len row < 2 ^ 32;
  varint_len_range v : 0 <= v < 2 ^ 64 -> 1 <= varint_len v <= 10;
  frame_size_nonneg frame : 0 <= encoded_cell_grid_frame_size frame;
  frame_size_rows frame rows history :
    encoded_cell_grid_frame_size (create_cell_grid_frame_part frame rows history)
    = encoded_cell_grid_frame_size (create_cell_grid_frame_part frame [] [])
      + rows_cost (rows ++ history);
  chunk_size_part id index count part :
    encoded_cell_grid_chunk_size (mkPbCellGridChunk id index count (Some part))
    = encoded_cell_grid_chunk_size (mkPbCellGridChunk id index count None)
      + 1 + varint_len (encoded_cell_grid_frame_size part) + encoded_cell_grid_frame_size part;
  header_uuid id id' index count :
    is_terminal_uuid id = true -> is_terminal_uuid id' = true ->
    encoded_cell_grid_chunk_size (mkPbCellGridChunk id index count None)
    = encoded_cell_grid_chunk_size (mkPbCellGridChunk id' index count None);
  header_widest id index count :
    is_terminal_uuid id = true -> 0 <= index < count -> count <= 256 ->
    0 <= encoded_cell_grid_chunk_size (mkPbCellGridChunk id index count None)
      <= encoded_cell_grid_chunk_size (mkPbCellGridChunk id 255 256 None);
  header_small id :
    is_terminal_uuid id = true ->
    encoded_cell_grid_chunk_size (mkPbCellGridChunk id 255 256 None) <= 1024;
}.

(** ** A validated snapshot *)

(** The fields' widths: indexes are [u32], the history base is [u64]. *)
Record snapshot_typed (frame : PbCellGridFrame) : Prop := {
  typed_viewport : Forall (fun row => 0 <= pbr_index row) (pb_viewport_rows frame);
  typed_history : Forall (fun row => pbr_index row < 2 ^ 32) (pb_scrollback_rows frame);
  typed_base : 0 <= pb_sb_base frame;
}.

Record snapshot_ok (frame : PbCellGridFrame) (table : Links) : Prop := {
  ok_scalars : assert_snapshot_scalars frame = Ok tt;
  ok_nodup : NoDup (pbr_index <$> pb_viewport_rows frame);
  ok_within : Forall (within_grid (pb_rows frame)) (pb_viewport_rows frame);
  ok_count : len (pb_viewport_rows frame) = pb_rows frame;
  ok_fine : Forall (row_fine (pb_cols frame) table) (pb_viewport_rows frame);
  ok_history : forall i row, pb_scrollback_rows frame !! i = Some row ->
    pbr_index row = pb_sb_base frame + Z.of_nat i /\ pbr_index row < pb_scrollback_total frame;
  ok_history_fine : Forall (row_fine 0 table) (pb_scrollback_rows frame);
  ok_reach : pb_sb_base frame + len (pb_scrollback_rows frame) = pb_scrollback_total frame;
  ok_links : links_bounded table;
  ok_spans : spans_of (pb_scrollback_rows frame) + spans_of (pb_viewport_rows frame)
             <= CELL_GRID_SNAPSHOT_MAX_SPANS;
}.

Lemma size_list_to_set (l : list Z) : NoDup l -> size (list_to_set (C := gset Z) l) = length l.
Proof. apply size_list_to_set. Qed.

Lemma assert_snapshot_ok frame stats :
  assert_cell_grid_snapshot frame = Ok stats -> exists table, snapshot_ok frame table.
Proof.
  unfold assert_cell_grid_snapshot. intros H. ok_inv H. destruct a.
  apply add_rows_ok in Hok0 as (Hnd & _ & Hin & Hseen & Hfine & _ & Hb & Hsp & Hcap & Hn).
  apply history_rows_ok in Hok1 as (Hidx & Hhf & Hsub & Hb' & Hsp' & Hcap' & Hn' & Hs').
  cbn [w_seen w_links w_spans w_next] in *. bool_to_prop. rewrite Hn in *.
  exists (w_links a1). constructor; try done.
  - rewrite Hs', Hseen, union_empty_r_L, size_list_to_set, length_fmap in Hif1 by done. done.
  - eapply Forall_impl; [exact Hfine|]. intros row. by apply row_fine_weaken.
  - lia.
  - apply Hb', Hb. unfold links_bounded. rewrite map_size_empty. apply Nat.le_0_l.
  - unfold CELL_GRID_SNAPSHOT_MAX_SPANS in *. lia.
Qed.

Lemma snapshot_rows_range frame table :
  snapshot_ok frame table -> 1 <= pb_rows frame <= 256.
Proof.
  intros [Hs _ _ _ _ _ _ _ _ _]. unfold assert_snapshot_scalars, is_terminal_geometry in Hs.
  cbn [cols rows] in Hs. unfold TERMINAL_MAX_ROWS in Hs. ok_inv Hs. bool_to_prop. lia.
Qed.

(** The validator accepts exactly such frames. *)
Lemma snapshot_ok_assert frame table :
  snapshot_ok frame table -> is_ok (assert_cell_grid_snapshot frame) = true.
Proof.
  intros Hok. pose proof (snapshot_rows_range _ _ Hok) as Hr.
  destruct Hok as [Hs Hnd Hin Hc Hf Hh Hhf Hreach Hb Hsp].
  unfold assert_cell_grid_snapshot. rewrite Hs.
  unfold CELL_GRID_SNAPSHOT_MAX_ROWS, TERMINAL_MAX_ROWS.
  destruct (Z.ltb_spec 256 (pb_rows frame)); [lia|].
  pose proof (spans_of_nonneg (pb_scrollback_rows frame)).
  destruct (add_rows_total frame (pb_viewport_rows frame) (mkRowWalk ∅ ∅ 0 (pb_sb_base frame)) table)
    as (links & -> & Hl); cbn [w_seen w_links w_spans w_next]; try done.
  1-2: first [apply map_empty_subseteq|lia].
  match goal with |- context [add_snapshot_history_rows _ _ ?w] => set (walk := w) end.
  destruct (history_rows_total frame (pb_scrollback_rows frame) walk table)
    as (links' & -> & _); subst walk; cbn [w_seen w_links w_spans w_next]; try done.
  { lia. }
  rewrite Hreach, Z.eqb_refl, union_empty_r_L, size_list_to_set, length_fmap by done.
  unfold len in Hc. cbn [negb]. by destruct (Z.eqb_spec (Z.of_nat (length (pb_viewport_rows frame)))
    (pb_rows frame)).
Qed.

(** ** The rows a plan names *)

(** The viewport's rows from the top. *)
Definition rows_by_index (frame : PbCellGridFrame) : list PbCellRow :=
  omap (fun index => find_row (pb_viewport_rows frame) (Z.of_nat index))
    (seq 0 (Z.to_nat (pb_rows frame))).

Lemma find_row_Some rows index row :
  find_row rows index = Some row -> row ∈ rows /\ pbr_index row = index.
Proof.
  unfold find_row. intros ([i r] & (Hi & Hr & _)%list_find_Some & ->)%fmap_Some.
  split; [by eapply list_elem_of_lookup_2|done].
Qed.

Lemma find_row_unique rows row :
  NoDup (pbr_index <$> rows) -> row ∈ rows -> find_row rows (pbr_index row) = Some row.
Proof.
  intros Hnd Hrow. unfold find_row.
  destruct (list_find_elem_of (fun r => pbr_index r = pbr_index row) rows row Hrow eq_refl)
    as [[i r] Hf]. rewrite Hf. cbn.
  apply list_find_Some in Hf as (Hi & Heq & _).
  apply list_elem_of_lookup in Hrow as (j & Hj). f_equal.
  assert (i = j) as ->; [|congruence].
  eapply (NoDup_lookup _ i j (pbr_index row)); [exact Hnd| |]; rewrite list_lookup_fmap.
  - by rewrite Hi; cbn; rewrite Heq.
  - by rewrite Hj.
Qed.

Section snapshot_rows.
Context (frame : PbCellGridFrame) (table : Links).
Context (Htyped : snapshot_typed frame) (Hok : snapshot_ok frame table).

Lemma viewport_row_at i :
  (i < Z.to_nat (pb_rows frame))%nat ->
  exists row, find_row (pb_viewport_rows frame) (Z.of_nat i) = Some row
              /\ pbr_index row = Z.of_nat i.
Proof.
  intros Hi. destruct Hok as [_ Hnd Hin Hc _ _ _ _ _ _]. destruct Htyped as [Hpos _ _].
  assert (Hmem : i ∈ Z.to_nat <$> (pbr_index <$> pb_viewport_rows frame)).
  { apply (nat_cover _ (Z.to_nat (pb_rows frame))); [| | |done].
    - apply NoDup_fmap_2_strong; [|done].
      intros x y (a & -> & Ha)%list_elem_of_fmap (b & -> & Hb)%list_elem_of_fmap.
      rewrite Forall_forall in Hpos. pose proof (Hpos _ Ha). pose proof (Hpos _ Hb). lia.
    - intros k (v & -> & (r & -> & Hr)%list_elem_of_fmap)%list_elem_of_fmap.
      rewrite Forall_forall in Hpos, Hin.
      pose proof (Hpos _ Hr). pose proof (Hin _ Hr). unfold within_grid in *. lia.
    - rewrite !length_fmap. unfold len in Hc. lia. }
  apply list_elem_of_fmap in Hmem as (v & Heq & (row & -> & Hrow)%list_elem_of_fmap). exists row.
  rewrite Forall_forall in Hpos. pose proof (Hpos _ Hrow).
  replace (Z.of_nat i) with (pbr_index row) by lia. split; [by apply find_row_unique|done].
Qed.

Lemma rows_by_index_lookup i :
  rows_by_index frame !! i
  = if decide (i < Z.to_nat (pb_rows frame))%nat
    then find_row (pb_viewport_rows frame) (Z.of_nat i) else None.
Proof.
  unfold rows_by_index.
  assert (Hgo : forall n start k, (start + n <= Z.to_nat (pb_rows frame))%nat ->
            omap (fun index => find_row (pb_viewport_rows frame) (Z.of_nat index)) (seq start n) !! k
            = if decide (k < n)%nat then find_row (pb_viewport_rows frame) (Z.of_nat (start + k))
              else None).
  { induction n as [|n IH]; intros start k Hn; cbn [seq omap list_omap].
    { rewrite lookup_nil. case_decide; [lia|done]. }
    destruct (viewport_row_at start) as (row & Hrow & _); [lia|]. rewrite Hrow.
    rewrite lookup_cons. destruct k as [|k].
    - rewrite decide_True by lia. by rewrite Nat.add_0_r.
    - rewrite (IH (S start) k) by lia.
      replace (S start + k)%nat with (start + S k)%nat by lia.
      repeat case_decide; try done; lia. }
  by rewrite Hgo by lia.
Qed.

Lemma rows_by_index_at i row :
  rows_by_index frame !! i = Some row -> pbr_index row = Z.of_nat i /\ row ∈ pb_viewport_rows frame.
Proof.
  rewrite rows_by_index_lookup. case_decide; [|done]. by intros [? ?]%find_row_Some.
Qed.

Lemma length_rows_by_index : length (rows_by_index frame) = Z.to_nat (pb_rows frame).
Proof.
  apply Nat.le_antisymm.
  - apply lookup_ge_None. rewrite rows_by_index_lookup. rewrite decide_False by lia. done.
  - destruct (decide (Z.to_nat (pb_rows frame) <= length (rows_by_index frame))%nat); [done|].
    destruct (viewport_row_at (length (rows_by_index frame))) as (row & Hrow & _); [lia|].
    pose proof (rows_by_index_lookup (length (rows_by_index frame))) as E.
    rewrite decide_True, Hrow, lookup_ge_None_2 in E by lia. done.
Qed.

Lemma rows_by_index_perm : rows_by_index frame ≡ₚ pb_viewport_rows frame.
Proof.
  destruct Hok as [_ Hnd _ Hc _ _ _ _ _ _]. apply submseteq_length_Permutation.
  - apply NoDup_submseteq.
    + apply NoDup_alt. intros i j x Hi Hj. apply rows_by_index_at in Hi as [Hi _], Hj as [Hj _]. lia.
    + intros x (i & Hi)%list_elem_of_lookup. by apply rows_by_index_at in Hi as [_ ?].
  - rewrite length_rows_by_index. unfold len in Hc. lia.
Qed.

(** The rows in part order: history, then the viewport from the top. *)
Definition rows_in_order : list PbCellRow := pb_scrollback_rows frame ++ rows_by_index frame.

Lemma history_nodup : NoDup (pbr_index <$> pb_scrollback_rows frame).
Proof.
  destruct Hok as [_ _ _ _ _ Hh _ _ _ _]. apply NoDup_alt. intros i j x.
  rewrite !list_lookup_fmap. intros (r & Hr & ->)%fmap_Some (r' & Hr' & Heq)%fmap_Some.
  destruct (Hh _ _ Hr), (Hh _ _ Hr'). lia.
Qed.

(** The entries name exactly those rows. *)
Lemma snapshot_entries_rows :
  Forall2 (fun entry row => entry_row frame entry = Ok row) (snapshot_entries frame) rows_in_order.
Proof.
  unfold snapshot_entries, rows_in_order. apply Forall2_app.
  - apply Forall2_same_length_lookup_2; [by rewrite length_imap|].
    intros i entry row. rewrite list_lookup_imap. intros (r & Hr & ->)%fmap_Some Hrow.
    rewrite Hr in Hrow. injection Hrow as ->.
    pose proof (ok_history _ _ Hok _ _ Hr) as [Hidx _].
    pose proof (Forall_lookup_1 _ _ _ _ (typed_history _ Htyped) Hr) as Hlt. cbn in Hlt.
    pose proof (typed_base _ Htyped) as Hb.
    unfold entry_row. cbn [en_history en_index]. unfold saturating_add64.
    rewrite Z.min_r by lia. rewrite <- Hidx. destruct (Z.ltb_spec (pbr_index row) (2 ^ 32)); [|lia].
    rewrite find_row_unique; [done|apply history_nodup|by eapply list_elem_of_lookup_2].
  - apply Forall2_same_length_lookup_2.
    { by rewrite length_fmap, length_seq, length_rows_by_index. }
    intros i entry row. rewrite list_lookup_fmap. intros (k & Hk & ->)%fmap_Some Hrow.
    apply lookup_seq in Hk as [-> Hi]. rewrite Nat.add_0_l.
    rewrite rows_by_index_lookup, decide_True in Hrow by done.
    unfold entry_row. cbn [en_history en_index]. by rewrite Hrow.
Qed.
End snapshot_rows.

(** ** The entries of a part *)

(** The rows of one family that a list of entries names. *)
Definition named (history : bool) (frame : PbCellGridFrame) (entries : list SnapshotEntry) :
    list PbCellRow :=
  omap (fun entry =>
          if Bool.eqb (en_history entry) history
          then find_row (if history then pb_scrollback_rows frame else pb_viewport_rows frame)
                 (en_index entry)
          else None) entries.

Definition resolves (frame : PbCellGridFrame) (entry : SnapshotEntry) : Prop :=
  is_ok (entry_row frame entry) = true.

Lemma named_app history frame l k :
  named history frame (l ++ k) = named history frame l ++ named history frame k.
Proof. unfold named. apply omap_app. Qed.

Lemma named_concat history frame ls :
  named history frame (concat ls) = concat (named history frame <$> ls).
Proof. induction ls as [|l ls IH]; [done|]. cbn [concat fmap list_fmap]. by rewrite named_app, IH. Qed.

Lemma named_cons frame entry rest row :
  entry_row frame entry = Ok row ->
  named true frame (entry :: rest)
  = (if en_history entry then [row] else []) ++ named true frame rest
  /\ named false frame (entry :: rest)
     = (if en_history entry then [] else [row]) ++ named false frame rest.
Proof.
  unfold entry_row. intros H. unfold named. cbn [omap list_omap].
  destruct entry as [[] index]; cbn [en_history en_index Bool.eqb app] in *;
    destruct (find_row _ index); cbn in H; try done; injection H as ->; by split.
Qed.

(** A part's entries are not empty once it has a row. *)
Lemma entry_rows_ok frame entries vs hs :
  Forall (resolves frame) entries ->
  entry_rows frame entries vs hs = Ok (vs ++ named false frame entries, hs ++ named true frame entries).
Proof.
  intros Hall. revert vs hs. induction Hall as [|entry rest Hr _ IH]; intros vs hs.
  { cbn. by rewrite !app_nil_r. }
  unfold resolves in Hr. destruct (entry_row frame entry) as [row|] eqn:He; [|done].
  destruct (named_cons frame entry rest row He) as [-> ->].
  cbn [entry_rows]. rewrite He. destruct (en_history entry); rewrite IH, <- !app_assoc; done.
Qed.

Section plan_laws.
Context `{Sizes : WireSizes} `{Laws : !WireSizeLaws}.
Context (frame : PbCellGridFrame).

Definition entry_cost (entry : SnapshotEntry) : Z :=
  match entry_row frame entry with Ok row => row_cost row | Err _ => 0 end.

Definition entries_cost (entries : list SnapshotEntry) : Z :=
  foldr (fun entry n => entry_cost entry + n) 0 entries.

Definition base_bytes : Z :=
  encoded_cell_grid_frame_size (create_cell_grid_frame_part frame [] []).

Lemma entries_cost_cons entry rest :
  entries_cost (entry :: rest) = entry_cost entry + entries_cost rest.
Proof. done. Qed.

Lemma entries_cost_app l k : entries_cost (l ++ k) = entries_cost l + entries_cost k.
Proof. induction l as [|x l IH]; [done|]. cbn [app]. rewrite !entries_cost_cons. lia. Qed.

Lemma rows_cost_cons row rows : rows_cost (row :: rows) = row_cost row + rows_cost rows.
Proof. done. Qed.

Lemma rows_cost_app l k : rows_cost (l ++ k) = rows_cost l + rows_cost k.
Proof. induction l as [|x l IH]; [done|]. cbn [app]. rewrite !rows_cost_cons. lia. Qed.

Lemma rows_cost_perm l k : l ≡ₚ k -> rows_cost l = rows_cost k.
Proof. intros Hp. induction Hp; rewrite ?rows_cost_cons; lia. Qed.

Lemma row_cost_nonneg row : 0 <= row_cost row.
Proof.
  unfold row_cost. pose proof (row_len_range row). pose proof (varint_len_range (row_encoded_len row)).
  lia.
Qed.

Lemma entries_cost_nonneg entries : 0 <= entries_cost entries.
Proof.
  induction entries as [|entry rest IH]; [done|]. rewrite entries_cost_cons. unfold entry_cost.
  destruct (entry_row frame entry) as [row|]; [pose proof (row_cost_nonneg row)|]; lia.
Qed.

Lemma named_cost entries :
  Forall (resolves frame) entries ->
  rows_cost (named false frame entries ++ named true frame entries) = entries_cost entries.
Proof.
  intros Hall. induction Hall as [|entry rest Hr _ IH]; [done|].
  unfold resolves in Hr. destruct (entry_row frame entry) as [row|] eqn:He; [|done].
  destruct (named_cons frame entry rest row He) as [-> ->].
  rewrite entries_cost_cons, <- IH. unfold entry_cost. rewrite He, !rows_cost_app.
  destruct (en_history entry); rewrite ?rows_cost_cons; cbn [rows_cost foldr]; lia.
Qed.

(** The length of the part built from entries. *)
Lemma part_size entries :
  Forall (resolves frame) entries ->
  encoded_cell_grid_frame_size
    (create_cell_grid_frame_part frame (named false frame entries) (named true frame entries))
  = base_bytes + entries_cost entries.
Proof. intros Hall. by rewrite frame_size_rows, named_cost. Qed.

Lemma row_entry_bytes_exact row : row_cost row < 2 ^ 32 -> row_entry_bytes row = row_cost row.
Proof.
  intros Hlt. unfold row_entry_bytes, row_cost, ROW_FIELD_TAG_BYTES in *.
  pose proof (row_len_range row). pose proof (varint_len_range (row_encoded_len row)).
  rewrite (wrap_small 32 (varint_len _)) by (unfold fits; lia).
  rewrite (wrap_small 32 (row_encoded_len row)) by (unfold fits; lia).
  by rewrite wrap_small by (unfold fits; lia).
Qed.

Lemma chunk_bytes_exact header bytes :
  0 <= header <= 1024 -> 0 <= bytes < 2 ^ 31 ->
  encoded_chunk_bytes header 1 bytes = header + 1 + varint_len bytes + bytes.
Proof.
  intros Hh Hb. unfold encoded_chunk_bytes. pose proof (varint_len_range bytes ltac:(lia)).
  rewrite (wrap_small 32 (varint_len bytes)) by (unfold fits; lia).
  rewrite wrap_small by (unfold fits; lia). lia.
Qed.

Definition largest_header : Z := chunk_header_bytes PLANNING_SNAPSHOT_ID 255 256.

Lemma planning_uuid : is_terminal_uuid PLANNING_SNAPSHOT_ID = true.
Proof. vm_compute. reflexivity. Qed.

Lemma header_range id index count :
  is_terminal_uuid id = true -> 0 <= index < count -> count <= 256 ->
  0 <= chunk_header_bytes id index count <= largest_header /\ largest_header <= 1024.
Proof.
  intros Hid Hi Hc. unfold largest_header, chunk_header_bytes.
  pose proof (header_small _ planning_uuid).
  rewrite (header_uuid id PLANNING_SNAPSHOT_ID) by (done || apply planning_uuid).
  pose proof (header_widest PLANNING_SNAPSHOT_ID index count planning_uuid Hi Hc). lia.
Qed.

Lemma part_field_tag_exact :
  base_bytes < 2 ^ 31 ->
  part_field_tag_bytes (create_cell_grid_frame_part frame [] []) base_bytes largest_header = 1.
Proof.
  intros Hb. unfold part_field_tag_bytes.
  change (CELL_GRID_SNAPSHOT_MAX_CHUNKS - 1) with 255.
  change CELL_GRID_SNAPSHOT_MAX_CHUNKS with 256.
  pose proof (frame_size_nonneg (create_cell_grid_frame_part frame [] [])) as H0.
  rewrite chunk_size_part. fold base_bytes in *.
  unfold largest_header, chunk_header_bytes.
  pose proof (varint_len_range base_bytes ltac:(lia)).
  rewrite (wrap_small 32 (varint_len base_bytes)) by (unfold fits; lia).
  apply eq_trans with (u32 1); [f_equal; lia|done].
Qed.

(** ** The plan *)

(** A part of the plan: rows there are, whose planned length is theirs and
    fits under the widest header. *)
Record part_fine (part : PlannedSnapshotPart) : Prop := {
  fine_resolves : Forall (resolves frame) (pl_entries part);
  fine_nonempty : pl_entries part <> [];
  fine_bytes : pl_encoded_part_bytes part = base_bytes + entries_cost (pl_entries part);
  fine_range : pl_encoded_part_bytes part < 2 ^ 31;
  fine_fits : encoded_chunk_bytes largest_header 1 (pl_encoded_part_bytes part)
              <= CELL_GRID_PART_MAX_BYTES;
}.

Definition planned_entries (parts : list PlannedSnapshotPart) : list SnapshotEntry :=
  concat (pl_entries <$> parts).

Lemma planned_entries_snoc parts part :
  planned_entries (parts ++ [part]) = planned_entries parts ++ pl_entries part.
Proof. unfold planned_entries. by rewrite fmap_app, concat_app; cbn; rewrite app_nil_r. Qed.

Lemma plan_loop_fine remaining parts entries bytes parts' entries' bytes' :
  Forall (resolves frame) remaining ->
  base_bytes + entries_cost entries + entries_cost remaining < 2 ^ 31 ->
  Forall part_fine parts ->
  (entries = [] /\ bytes = base_bytes \/ part_fine (mkPlannedSnapshotPart entries bytes)) ->
  plan_loop frame base_bytes largest_header 1 remaining parts entries bytes
  = Ok (parts', entries', bytes') ->
  Forall part_fine parts'
  /\ (entries' = [] \/ part_fine (mkPlannedSnapshotPart entries' bytes'))
  /\ planned_entries parts' ++ entries' = planned_entries parts ++ entries ++ remaining.
Proof.
  intros Hall. revert parts entries bytes.
  induction Hall as [|entry rest Hr Hall IH]; intros parts entries bytes Hbound Hparts Hopen H.
  { injection H as <- <- <-. rewrite app_nil_r. split_and!; try done. tauto. }
  assert (Hbytes : bytes = base_bytes + entries_cost entries
                   /\ Forall (resolves frame) entries).
  { destruct Hopen as [[-> ->]|[? _ ? _]]; [cbn; split; [lia|constructor]|by split]. }
  destruct Hbytes as [Hbytes Hent].
  cbn [plan_loop] in H. unfold resolves in Hr.
  destruct (entry_row frame entry) as [row|] eqn:He; [|done].
  assert (Hcost : entry_cost entry = row_cost row) by (unfold entry_cost; by rewrite He).
  rewrite entries_cost_cons in Hbound.
  pose proof (entries_cost_nonneg entries). pose proof (entries_cost_nonneg rest).
  pose proof (row_cost_nonneg row).
  pose proof (frame_size_nonneg (create_cell_grid_frame_part frame [] [])) as Hbase.
  fold base_bytes in Hbase.
  rewrite row_entry_bytes_exact in H by lia.
  rewrite !wrap_small in H by (unfold fits; lia).
  assert (Hresolve : resolves frame entry) by (unfold resolves; by rewrite He).
  destruct (Z.leb_spec (encoded_chunk_bytes largest_header 1 (bytes + row_cost row))
              CELL_GRID_PART_MAX_BYTES) as [Hfit|Hfit].
  - apply IH in H as (? & ? & Heq).
    + split_and!; try done. by rewrite Heq, <- !app_assoc.
    + rewrite entries_cost_app, entries_cost_cons. cbn [entries_cost foldr]. lia.
    + done.
    + right. constructor; cbn [pl_entries pl_encoded_part_bytes]; try done.
      * apply Forall_app. split; [done|]. by constructor.
      * by destruct entries.
      * rewrite entries_cost_app, entries_cost_cons. cbn [entries_cost foldr]. lia.
      * lia.
  - case_bool_decide as Hne; [done|].
    destruct (Z.ltb_spec CELL_GRID_PART_MAX_BYTES
                (encoded_chunk_bytes largest_header 1 (base_bytes + row_cost row))); [done|].
    destruct Hopen as [[-> _]|Hopen]; [done|].
    apply IH in H as (? & ? & Heq).
    + split_and!; try done. rewrite Heq, planned_entries_snoc. cbn [pl_entries].
      by rewrite <- !app_assoc.
    + rewrite entries_cost_cons. cbn [entries_cost foldr]. lia.
    + apply Forall_app. split; [done|]. by constructor.
    + right. constructor; cbn [pl_entries pl_encoded_part_bytes]; try done.
      * by constructor.
      * rewrite entries_cost_cons. cbn [entries_cost foldr]. lia.
      * lia.
Qed.

Lemma plan_fine parts :
  Forall (resolves frame) (snapshot_entries frame) ->
  base_bytes + entries_cost (snapshot_entries frame) < 2 ^ 31 ->
  plan_snapshot_parts frame = Ok parts ->
  Forall part_fine parts /\ planned_entries parts = snapshot_entries frame
  /\ 1 <= len parts <= 256
  /\ planned_total parts 1 (len parts) <= CELL_GRID_SNAPSHOT_MAX_BYTES.
Proof.
  intros Hall Hbound. unfold plan_snapshot_parts. cbn zeta.
  change (CELL_GRID_SNAPSHOT_MAX_CHUNKS - 1) with 255. unfold CELL_GRID_SNAPSHOT_MAX_CHUNKS.
  fold base_bytes. fold largest_header.
  pose proof (entries_cost_nonneg (snapshot_entries frame)).
  rewrite part_field_tag_exact by lia.
  destruct (plan_loop _ _ _ _ _ _ _ _) as [[[parts' entries] bytes]|] eqn:Hloop; [|done].
  assert (Hb0 : base_bytes + entries_cost [] + entries_cost (snapshot_entries frame) < 2 ^ 31)
    by (cbn [entries_cost foldr]; lia).
  destruct (plan_loop_fine _ _ _ _ _ _ _ Hall Hb0
              (Forall_nil_2 _) (or_introl (conj eq_refl eq_refl)) Hloop)
    as (Hfine & Hlast & Heq).
  set (ps := if bool_decide (entries = []) then parts' else _).
  assert (Hps : Forall part_fine ps /\ planned_entries ps = snapshot_entries frame).
  { subst ps. change (planned_entries [] ++ [] ++ snapshot_entries frame)
      with (snapshot_entries frame) in Heq. rewrite <- Heq. case_bool_decide as Hn.
    - subst. by rewrite app_nil_r.
    - destruct Hlast as [|Hlast]; [done|]. rewrite planned_entries_snoc. split; [|done].
      apply Forall_app. split; [done|]. by constructor. }
  case_bool_decide as Hnil; [done|]. cbn [orb].
  destruct (Z.ltb_spec 256 (len ps)); [done|].
  assert (Hlen : len_u32 ps = len ps).
  { unfold len_u32. by destruct (Z.ltb_spec (len ps) (2 ^ 32)); [|lia]. }
  rewrite Hlen.
  destruct (Z.ltb_spec CELL_GRID_SNAPSHOT_MAX_BYTES (planned_total ps 1 (len ps))); [done|].
  intros [= <-]. destruct Hps. split_and!; try done.
  destruct ps; [done|]. rewrite len_cons. pose proof (len_nonneg ps). lia.
Qed.

(** ** Materialised chunks *)

(** The chunk a part becomes. *)
Definition chunk_of (snapshot_id : string) (count : Z) (index : nat)
    (part : PlannedSnapshotPart) : PbCellGridChunk :=
  mkPbCellGridChunk snapshot_id (Z.of_nat index) count
    (Some (create_cell_grid_frame_part frame (named false frame (pl_entries part))
             (named true frame (pl_entries part)))).

Lemma chunk_of_size snapshot_id count index part :
  is_terminal_uuid snapshot_id = true -> part_fine part ->
  Z.of_nat index < count -> count <= 256 ->
  encoded_cell_grid_chunk_size (chunk_of snapshot_id count index part)
  = encoded_chunk_bytes (chunk_header_bytes PLANNING_SNAPSHOT_ID (Z.of_nat index) count) 1
      (pl_encoded_part_bytes part)
  /\ 0 <= encoded_cell_grid_chunk_size (chunk_of snapshot_id count index part)
       <= CELL_GRID_PART_MAX_BYTES.
Proof.
  intros Hid [Hall _ Hb Hr Hfit] Hi Hc.
  pose proof (entries_cost_nonneg (pl_entries part)).
  pose proof (frame_size_nonneg (create_cell_grid_frame_part frame [] [])) as Hbase.
  fold base_bytes in Hbase.
  destruct (header_range PLANNING_SNAPSHOT_ID (Z.of_nat index) count planning_uuid
              ltac:(lia) Hc) as [Hh Hl].
  rewrite chunk_bytes_exact in Hfit by lia.
  rewrite chunk_bytes_exact by lia. unfold chunk_of.
  pose proof (varint_len_range (pl_encoded_part_bytes part)).
  rewrite chunk_size_part, part_size, <- Hb by done.
  rewrite (header_uuid snapshot_id PLANNING_SNAPSHOT_ID) by (done || apply planning_uuid).
  fold (chunk_header_bytes PLANNING_SNAPSHOT_ID (Z.of_nat index) count). lia.
Qed.

Lemma materialize_chunk parts snapshot_id index part :
  is_terminal_uuid snapshot_id = true -> len parts <= 256 -> part_fine part ->
  parts !! index = Some part ->
  materialize (mkCellGridSnapshotSource frame (Some parts)) snapshot_id (Z.of_nat index)
  = Ok (PartChunk (chunk_of snapshot_id (len parts) index part)).
Proof.
  intros Hid Hlen Hfine Hpart. pose proof (lookup_lt_Some _ _ _ Hpart) as Hlt.
  unfold materialize, part_count. cbn [src_parts src_frame].
  assert (Hlen' : len_u32 parts = len parts).
  { unfold len_u32. by destruct (Z.ltb_spec (len parts) (2 ^ 32)); [|lia]. }
  rewrite Hlen'. destruct (Z.leb_spec (len parts) (Z.of_nat index)); [unfold len in *; lia|].
  rewrite Nat2Z.id, Hpart. cbn [fmap option_fmap option_map default].
  rewrite entry_rows_ok by apply Hfine. cbn [app fst snd].
  destruct (chunk_of_size snapshot_id (len parts) index part Hid Hfine ltac:(unfold len; lia) Hlen)
    as [_ Hsize]. unfold chunk_of in *.
  unfold id in *. case_if; [bool_to_prop; lia|done].
Qed.
End plan_laws.
