(* ===== verification/CellChunkGuarantees.v ===== *)
(** * CellChunkGuarantees: a snapshot survives its division into parts

    The assembler of [CellChunks] fed with the planner's parts, and fed with
    anything. *)
From Stdlib Require Import Ascii String.
From S2P Require Export CellChunkPlan.

(** ** Running the assembler *)

Fixpoint push_all `{WireSizes} (assembler : CellGridChunkAssembler)
    (arrivals : list (PbCellGridChunk * Z)) :
    CellGridChunkAssembler * list (result CellGridChunkAssembly CellGridChunkErrorCode) :=
  match arrivals with
  | [] => (assembler, [])
  | (chunk, now_ms) :: rest =>
      let '(assembler, answer) := push assembler chunk now_ms in
      let '(assembler, answers) := push_all assembler rest in
      (assembler, answer :: answers)
  end.

(** No gap of the arrival times reaches the stall boundary. *)
Fixpoint steady (last : Z) (times : list Z) : Prop :=
  match times with
  | [] => True
  | now :: rest => now - last < CELL_GRID_CHUNK_STALL_MS /\ steady now rest
  end.

(** ** Placing rows *)

Definition in_place (rows : list PbCellRow) : Prop :=
  forall i row, rows !! i = Some row -> pbr_index row = Z.of_nat i.

Lemma place_rows_app slots l k : place_rows slots (l ++ k) = place_rows (place_rows slots l) k.
Proof. unfold place_rows. apply foldl_app. Qed.

Lemma length_place_rows slots rows : length (place_rows slots rows) = length slots.
Proof.
  revert slots. induction rows as [|row rest IH]; intros slots; [done|].
  change (place_rows slots (row :: rest))
    with (place_rows (<[Z.to_nat (pbr_index row) := Some row]> slots) rest).
  by rewrite IH, length_insert.
Qed.

Lemma place_rows_in_place rows n :
  in_place rows -> (length rows <= n)%nat ->
  place_rows (replicate n None) rows = (Some <$> rows) ++ replicate (n - length rows) None.
Proof.
  induction rows as [|row rows IH] using rev_ind; intros Hin Hlen.
  { cbn. by rewrite Nat.sub_0_r. }
  rewrite length_app in *. cbn [length] in *.
  rewrite place_rows_app, IH; [| |lia].
  2: { intros i r Hi. apply Hin. by apply lookup_app_l_Some. }
  assert (Hidx : pbr_index row = Z.of_nat (length rows)).
  { apply Hin. by rewrite lookup_app_r, Nat.sub_diag by lia. }
  change (place_rows ?s [row]) with (<[Z.to_nat (pbr_index row) := Some row]> s).
  rewrite Hidx, Nat2Z.id.
  replace (length rows) with (length (Some <$> rows) + 0)%nat at 1
    by (rewrite length_fmap; lia).
  rewrite insert_app_r, fmap_app, <- app_assoc. f_equal.
  by replace (n - length rows)%nat with (S (n - (length rows + 1))) by lia.
Qed.

Lemma filled_rows_all rows : filled_rows (Some <$> rows) = Some rows.
Proof.
  unfold filled_rows. apply mapM_Some_2.
  apply Forall2_fmap_l, Forall_Forall2_diag, Forall_true. done.
Qed.

Lemma same_metadata_part frame rows history :
  has_same_snapshot_metadata (create_cell_grid_frame_part frame [] [])
    (create_cell_grid_frame_part frame rows history) = true.
Proof.
  unfold has_same_snapshot_metadata, create_cell_grid_frame_part. cbn.
  rewrite !String.eqb_refl, !Z.eqb_refl, !eqb_reflx. cbn. by apply bool_decide_eq_true.
Qed.

(** ** One snapshot, part by part *)

Section assembly.
Context `{Sizes : WireSizes}.
Context (frame : PbCellGridFrame) (table : Links).
Context (Htyped : snapshot_typed frame) (Hok : snapshot_ok frame table).
Context (snapshot_id : string) (Hid : is_terminal_uuid snapshot_id = true) (count : Z).

(** The partial that has taken the rows [hs] and [vs] in [index] parts of
    [bytes] bytes, the last one at [now_ms]. *)
Record taken (index : nat) (bytes now_ms : Z) (vs hs : list PbCellRow)
    (partial : PartialSnapshot) : Prop := {
  tk_id : pt_snapshot_id partial = snapshot_id;
  tk_stream : pt_stream_id partial = pb_stream_id frame;
  tk_count : pt_chunk_count partial = count;
  tk_next : pt_next_chunk_index partial = Z.of_nat index;
  tk_bytes : pt_total_bytes partial = bytes;
  tk_time : pt_last_chunk_at_ms partial = now_ms;
  tk_meta : pt_metadata partial = create_cell_grid_frame_part frame [] [];
  tk_rows : pt_rows partial = place_rows (replicate (Z.to_nat (pb_rows frame)) None) vs;
  tk_history : pt_history_rows partial = hs;
  tk_seen : w_seen (pt_walk partial) = list_to_set (pbr_index <$> vs);
  tk_links : w_links (pt_walk partial) ⊆ table;
  tk_spans : w_spans (pt_walk partial) = spans_of hs + spans_of vs;
  tk_walk_next : w_next (pt_walk partial) = pb_sb_base frame + len hs;
}.

Definition part_frame (vs hs : list PbCellRow) : PbCellGridFrame :=
  create_cell_grid_frame_part frame vs hs.

(** The assembled frame: the source with its rows from the top. *)
Definition whole_frame : PbCellGridFrame :=
  create_cell_grid_frame_part frame (rows_by_index frame) (pb_scrollback_rows frame).

Lemma taken_nothing chunk vs hs now_ms :
  ch_snapshot_id chunk = snapshot_id -> ch_count chunk = count ->
  taken 0 0 now_ms [] [] (partial_new chunk (part_frame vs hs) now_ms).
Proof.
  intros Hc Hn. constructor; cbn [partial_new part_frame create_cell_grid_frame_part
    pt_snapshot_id pt_stream_id pt_chunk_count pt_next_chunk_index pt_total_bytes
    pt_last_chunk_at_ms pt_metadata pt_rows pt_history_rows pt_walk w_seen w_links w_spans w_next
    pb_rows pb_sb_base pb_stream_id]; try done.
  - apply map_empty_subseteq.
  - unfold len. cbn [length]. lia.
Qed.

(** Facts of a piece of the rows. *)
Lemma piece_facts vs0 vs vs1 hs0 hs hs1 :
  vs0 ++ vs ++ vs1 = rows_by_index frame -> hs0 ++ hs ++ hs1 = pb_scrollback_rows frame ->
  NoDup (pbr_index <$> vs)
  /\ (forall i, i ∈ pbr_index <$> vs -> i ∉ list_to_set (C := gset Z) (pbr_index <$> vs0))
  /\ Forall (within_grid (pb_rows frame)) vs
  /\ Forall (row_fine (pb_cols frame) table) vs
  /\ Forall (row_fine 0 table) hs
  /\ (forall i row, hs !! i = Some row ->
        pbr_index row = pb_sb_base frame + len hs0 + Z.of_nat i
        /\ pbr_index row < pb_scrollback_total frame)
  /\ spans_of hs0 + spans_of vs0 + spans_of hs + spans_of vs <= CELL_GRID_SNAPSHOT_MAX_SPANS.
Proof.
  intros Hv Hh. destruct Hok as [_ Hnd Hin _ Hf Hidx Hhf _ _ Hsp].
  pose proof (rows_by_index_perm frame table Htyped Hok) as Hp.
  rewrite <- Hp in Hnd, Hin, Hf, Hsp. rewrite <- Hv in Hnd, Hin, Hf, Hsp.
  rewrite <- Hh in Hhf, Hsp. rewrite !spans_of_app in Hsp.
  pose proof (spans_of_nonneg vs1). pose proof (spans_of_nonneg hs1).
  rewrite !fmap_app in Hnd. apply NoDup_app in Hnd as (_ & Hdisj & Hnd).
  apply NoDup_app in Hnd as (Hnd & _ & _).
  rewrite !Forall_app in Hin, Hf, Hhf. destruct Hin as (_ & Hin & _), Hf as (_ & Hf & _),
    Hhf as (_ & Hhf & _).
  split_and!; try done.
  - intros i Hi Hs%elem_of_list_to_set. apply (Hdisj i Hs), elem_of_app. by left.
  - intros i row Hrow. unfold len.
    destruct (Hidx (length hs0 + i)%nat row) as [E ?]; [|split; [lia|done]].
    rewrite <- Hh, lookup_app_r by lia.
    replace (length hs0 + i - length hs0)%nat with i by lia.
    rewrite lookup_app_l; [done|]. by apply lookup_lt_Some in Hrow.
  - lia.
Qed.

(** The last piece completes the frame. *)
Lemma partial_taken_all index bytes now_ms partial :
  taken index bytes now_ms (rows_by_index frame) (pb_scrollback_rows frame) partial ->
  completed_frame partial = Ok whole_frame.
Proof.
  intros [_ _ _ _ _ _ Hmeta Hrows Hhist Hseen _ _ Hnext]. unfold completed_frame.
  rewrite Hrows, length_place_rows, length_replicate, Hseen, Hmeta, Hhist, Hnext.
  pose proof (length_rows_by_index frame table Htyped Hok) as Hlen.
  rewrite size_list_to_set.
  2: { rewrite (rows_by_index_perm frame table Htyped Hok). by destruct Hok. }
  rewrite length_fmap, Hlen, Nat.eqb_refl. cbn [negb].
  replace (pb_scrollback_total (create_cell_grid_frame_part frame [] []))
    with (pb_scrollback_total frame) by done.
  rewrite (ok_reach _ _ Hok), Z.eqb_refl. cbn [negb].
  rewrite place_rows_in_place; [| |lia].
  2: { intros i row Hi. by apply (rows_by_index_at frame table Htyped Hok) in Hi as [? _]. }
  rewrite Hlen, Nat.sub_diag. cbn [replicate]. rewrite app_nil_r, filled_rows_all. done.
Qed.

(** Taking the next piece. *)
Lemma take_next partial index bytes last now_ms vs0 vs vs1 hs0 hs hs1 size :
  taken index bytes last vs0 hs0 partial ->
  vs0 ++ vs ++ vs1 = rows_by_index frame -> hs0 ++ hs ++ hs1 = pb_scrollback_rows frame ->
  bytes + size <= CELL_GRID_SNAPSHOT_MAX_BYTES -> Z.of_nat index < count ->
  (Z.of_nat index + 1 = count -> vs1 = [] /\ hs1 = []) ->
  exists partial',
    take_part partial
      (mkPbCellGridChunk snapshot_id (Z.of_nat index) count (Some (part_frame vs hs)))
      (part_frame vs hs) size now_ms
    = Ok (partial', if Z.of_nat index + 1 <? count
                    then Pending snapshot_id (Z.of_nat index + 1)
                    else Complete snapshot_id whole_frame)
    /\ taken (S index) (bytes + size) now_ms (vs0 ++ vs) (hs0 ++ hs) partial'.
Proof.
  intros Htk Hv Hh Hsize Hcount Hlast.
  destruct (piece_facts _ _ _ _ _ _ Hv Hh) as (Hnd & Hfresh & Hin & Hf & Hhf & Hidx & Hsp).
  pose proof Htk as [Hpid Hstr Hcnt Hnext Hbytes _ Hmeta Hrows Hhist Hseen Hlinks Hspans Hwn].
  pose proof (spans_of_nonneg vs).
  unfold take_part. cbn [ch_count ch_index]. rewrite Hcnt, Z.eqb_refl. cbn [negb].
  rewrite Hmeta. unfold part_frame at 1. rewrite same_metadata_part. cbn [negb].
  rewrite Hnext, Z.eqb_refl, Hbytes. cbn [negb].
  destruct (Z.ltb_spec CELL_GRID_SNAPSHOT_MAX_BYTES (bytes + size)); [lia|].
  destruct (history_rows_total (part_frame vs hs) hs (pt_walk partial) table) as (links & Hw & Hl);
    [|done|done|apply Hok|lia|].
  { intros i row Hrow. rewrite Hwn. by apply Hidx. }
  change (pb_scrollback_rows (part_frame vs hs)) with hs.
  change (pb_viewport_rows (part_frame vs hs)) with vs. rewrite Hw.
  destruct (add_rows_total (part_frame vs hs) vs
              (mkRowWalk (w_seen (pt_walk partial)) links (w_spans (pt_walk partial) + spans_of hs)
                 (w_next (pt_walk partial) + len hs)) table) as (links' & Hw' & Hl');
    cbn [w_seen w_links w_spans w_next]; [done|by rewrite Hseen|done|done|done|apply Hok|lia|].
  rewrite Hw'. cbn [w_seen w_links w_spans w_next].
  match goal with |- context [mkPartialSnapshot ?a ?b ?c ?d ?e ?f ?g ?h ?i ?j] =>
    set (partial' := mkPartialSnapshot a b c d e f g h i j) end.
  assert (Htk' : taken (S index) (bytes + size) now_ms (vs0 ++ vs) (hs0 ++ hs) partial').
  { constructor; subst partial'; cbn [pt_snapshot_id pt_stream_id pt_chunk_count
      pt_next_chunk_index pt_total_bytes pt_last_chunk_at_ms pt_metadata pt_rows pt_history_rows
      pt_walk w_seen w_links w_spans w_next]; try done; try lia.
    - by rewrite Hrows, place_rows_app.
    - by rewrite Hhist.
    - rewrite Hseen, fmap_app, list_to_set_app_L. apply (comm_L (∪)).
    - rewrite !spans_of_app. lia.
    - rewrite len_app. lia. }
  exists partial'. split; [|done].
  replace (pt_next_chunk_index partial') with (Z.of_nat index + 1) by (subst partial'; done).
  replace (pt_chunk_count partial') with count by (subst partial'; done).
  replace (pt_snapshot_id partial') with snapshot_id by (subst partial'; done).
  destruct (Z.ltb_spec (Z.of_nat index + 1) count); [done|].
  destruct (Hlast ltac:(lia)) as [-> ->]. rewrite app_nil_r in Hv, Hh. rewrite Hv, Hh in Htk'.
  by rewrite (partial_taken_all _ _ _ _ Htk').
Qed.

(** ** The run *)

Definition piece_chunk (index : nat) (piece : list PbCellRow * list PbCellRow) : PbCellGridChunk :=
  mkPbCellGridChunk snapshot_id (Z.of_nat index) count (Some (part_frame (fst piece) (snd piece))).

Definition piece_ok (index : nat) (piece : list PbCellRow * list PbCellRow) : Prop :=
  (fst piece <> [] \/ snd piece <> [])
  /\ 0 <= encoded_cell_grid_chunk_size (piece_chunk index piece) <= CELL_GRID_PART_MAX_BYTES.

Fixpoint pieces_ok (index : nat) (pieces : list (list PbCellRow * list PbCellRow)) : Prop :=
  match pieces with
  | [] => True
  | piece :: rest => piece_ok index piece /\ pieces_ok (S index) rest
  end.

Fixpoint piece_chunks (index : nat) (pieces : list (list PbCellRow * list PbCellRow)) :
    list PbCellGridChunk :=
  match pieces with
  | [] => []
  | piece :: rest => piece_chunk index piece :: piece_chunks (S index) rest
  end.

Definition chunk_bytes (chunks : list PbCellGridChunk) : Z :=
  foldr (fun chunk n => encoded_cell_grid_chunk_size chunk + n) 0 chunks.

(** What the assembler answers to the part of index [index]. *)
Definition expected_answer (index : nat) :
    result CellGridChunkAssembly CellGridChunkErrorCode :=
  Ok (if Z.of_nat index + 1 <? count then Pending snapshot_id (Z.of_nat index + 1)
      else Complete snapshot_id whole_frame).

Lemma scalars_part vs hs : assert_snapshot_scalars (part_frame vs hs) = Ok tt.
Proof.
  pose proof (ok_scalars _ _ Hok) as Hs. unfold assert_snapshot_scalars in *.
  ok_inv Hs. cbn [part_frame create_cell_grid_frame_part pb_full pb_base_seq pb_stream_id
    pb_grid_epoch pb_cols pb_rows pb_seq pb_scrollback_append pb_scrollback_total pb_sb_base].
  by rewrite Hif, Hif0, Hif1, Hif2, Hif3, Hif5.
Qed.

Lemma checked_piece index piece :
  piece_ok index piece -> Z.of_nat index < count -> count <= 256 ->
  checked_part (piece_chunk index piece)
  = Ok (part_frame (fst piece) (snd piece),
        encoded_cell_grid_chunk_size (piece_chunk index piece)).
Proof.
  intros [Hne Hsize] Hi Hc. unfold checked_part. cbn [piece_chunk ch_snapshot_id ch_count ch_index
    ch_part]. rewrite Hid. cbn [negb]. unfold CELL_GRID_SNAPSHOT_MAX_CHUNKS.
  destruct (Z.ltb_spec count 1); [lia|]. destruct (Z.ltb_spec 256 count); [lia|]. cbn [orb].
  destruct (Z.leb_spec count (Z.of_nat index)); [lia|]. cbn [ok_or].
  rewrite scalars_part. change (pb_viewport_rows (part_frame _ _)) with (fst piece).
  change (pb_scrollback_rows (part_frame _ _)) with (snd piece).
  replace (bool_decide (fst piece = []) && bool_decide (snd piece = [])) with false.
  2: { symmetry. apply andb_false_iff. rewrite !bool_decide_eq_false. tauto. }
  fold (piece_chunk index piece).
  destruct (Z.ltb_spec CELL_GRID_PART_MAX_BYTES
              (encoded_cell_grid_chunk_size (piece_chunk index piece))); [lia|done].
Qed.

(** An assembler that waits for part [index]. *)
Definition awaiting (index : nat) (bytes last : Z) (vs hs : list PbCellRow)
    (assembler : CellGridChunkAssembler) : Prop :=
  match assembler with
  | None => index = 0%nat /\ bytes = 0 /\ vs = [] /\ hs = []
  | Some partial => taken index bytes last vs hs partial
  end.

Lemma push_next assembler index bytes last now_ms vs0 vs1 hs0 hs1 piece :
  awaiting index bytes last vs0 hs0 assembler -> now_ms - last < CELL_GRID_CHUNK_STALL_MS ->
  vs0 ++ fst piece ++ vs1 = rows_by_index frame ->
  hs0 ++ snd piece ++ hs1 = pb_scrollback_rows frame ->
  bytes + encoded_cell_grid_chunk_size (piece_chunk index piece) <= CELL_GRID_SNAPSHOT_MAX_BYTES ->
  piece_ok index piece -> Z.of_nat index < count -> count <= 256 ->
  (Z.of_nat index + 1 = count -> vs1 = [] /\ hs1 = []) ->
  exists assembler',
    push assembler (piece_chunk index piece) now_ms = (assembler', expected_answer index)
    /\ (if Z.of_nat index + 1 <? count
        then awaiting (S index)
               (bytes + encoded_cell_grid_chunk_size (piece_chunk index piece)) now_ms
               (vs0 ++ fst piece) (hs0 ++ snd piece) assembler'
        else assembler' = None).
Proof.
  intros Hwait Htime Hv Hh Hbytes Hp Hi Hc Hlast. unfold push, push_checked.
  rewrite checked_piece by done.
  assert (Hfor : exists partial last',
            partial_for assembler (piece_chunk index piece) (part_frame (fst piece) (snd piece)) now_ms
            = Ok partial /\ taken index bytes last' vs0 hs0 partial).
  { destruct assembler as [partial|]; cbn [awaiting] in Hwait.
    - exists partial, last. split; [|done]. unfold partial_for.
      replace (stalled partial now_ms) with false.
      2: { symmetry. unfold stalled, saturating_sub. rewrite (tk_time _ _ _ _ _ _ Hwait).
           unfold CELL_GRID_CHUNK_STALL_MS in *. apply Z.leb_gt. lia. }
      cbn [piece_chunk ch_snapshot_id]. rewrite (tk_id _ _ _ _ _ _ Hwait), String.eqb_refl. done.
    - destruct Hwait as (-> & -> & -> & ->). eexists _, now_ms. split; [done|].
      by apply taken_nothing. }
  destruct Hfor as (partial & last' & -> & Htk).
  destruct (take_next _ _ _ _ now_ms _ _ _ _ _ _ _ Htk Hv Hh Hbytes Hi Hlast)
    as (partial' & Htake & Htk').
  unfold piece_chunk at 1. rewrite Htake. unfold expected_answer.
  destruct (Z.of_nat index + 1 <? count); [by exists (Some partial')|by exists None].
Qed.

Lemma run_pieces pieces assembler index bytes last vs0 hs0 times :
  awaiting index bytes last vs0 hs0 assembler -> steady last times ->
  length times = length pieces -> pieces <> [] ->
  vs0 ++ concat (fst <$> pieces) = rows_by_index frame ->
  hs0 ++ concat (snd <$> pieces) = pb_scrollback_rows frame ->
  pieces_ok index pieces -> count = Z.of_nat (index + length pieces) -> count <= 256 ->
  bytes + chunk_bytes (piece_chunks index pieces) <= CELL_GRID_SNAPSHOT_MAX_BYTES ->
  push_all assembler (zip (piece_chunks index pieces) times)
  = (None, expected_answer <$> seq index (length pieces)).
Proof.
  revert assembler index bytes last vs0 hs0 times.
  induction pieces as [|piece rest IH]; [done|].
  intros assembler index bytes last vs0 hs0 [|now times] Hwait Hst Hlen _ Hv Hh Hp Hcnt Hc Hb;
    [done|].
  cbn [fmap list_fmap concat] in Hv, Hh. destruct Hst as [Htime Hst]. destruct Hp as [Hp Hps].
  cbn [piece_chunks chunk_bytes foldr length] in *. fold (chunk_bytes (piece_chunks (S index) rest)) in Hb.
  assert (Hpos : 0 <= chunk_bytes (piece_chunks (S index) rest)).
  { clear -Hps. revert index Hps. induction rest as [|x rest IH]; intros index; [done|].
    intros [[_ Hx] Hr]. cbn [piece_chunks chunk_bytes foldr].
    specialize (IH (S index) Hr). unfold chunk_bytes in IH. lia. }
  destruct (push_next assembler index bytes last now vs0 (concat (fst <$> rest)) hs0
              (concat (snd <$> rest)) piece) as (assembler' & Hpush & Hnext); try done; try lia.
  { intros E. assert (rest = []) as -> by (destruct rest; [done|cbn [length] in *; lia]). done. }
  cbn [zip zip_with push_all seq fmap list_fmap]. rewrite Hpush.
  destruct (Z.ltb_spec (Z.of_nat index + 1) count) as [Hlt|Hge].
  - rewrite (IH assembler' (S index) _ now _ _ times Hnext Hst); try done; try lia.
    + by destruct rest; [cbn [length] in *; lia|].
    + by rewrite <- app_assoc.
    + by rewrite <- app_assoc.
  - assert (rest = []) as -> by (destruct rest; [done|cbn [length] in *; lia]).
    destruct times; [|done]. cbn. by rewrite Hnext.
Qed.
End assembly.

(** ** The planner's parts as pieces *)

Lemma named_family frame history entries rows :
  Forall2 (fun entry row => entry_row frame entry = Ok row) entries rows ->
  Forall (fun entry => en_history entry = history) entries ->
  named history frame entries = rows /\ named (negb history) frame entries = [].
Proof.
  intros H. induction H as [|entry row es rs He _ IH]; intros Hall; [by destruct history|].
  apply Forall_cons in Hall as [Hh Hall]. destruct (IH Hall) as [E1 E2].
  destruct (named_cons frame entry es row He) as [Ht Hf]. rewrite Hh in Ht, Hf.
  destruct history; cbn [negb app] in *; rewrite Ht, Hf; by rewrite E1, E2.
Qed.

Lemma part_of_itself frame :
  pb_scrollback_append frame = [] ->
  create_cell_grid_frame_part frame (pb_viewport_rows frame) (pb_scrollback_rows frame) = frame.
Proof. unfold create_cell_grid_frame_part. intros <-. by destruct frame. Qed.

Section planned.
Context `{Sizes : WireSizes} `{Laws : !WireSizeLaws}.
Context (frame : PbCellGridFrame) (table : Links).
Context (Htyped : snapshot_typed frame) (Hok : snapshot_ok frame table).
Context (snapshot_id : string) (Hid : is_terminal_uuid snapshot_id = true).
Context (Hmax : encoded_cell_grid_frame_size frame < 2 ^ 31).

Lemma named_snapshot :
  named true frame (snapshot_entries frame) = pb_scrollback_rows frame
  /\ named false frame (snapshot_entries frame) = rows_by_index frame.
Proof.
  pose proof (snapshot_entries_rows frame table Htyped Hok) as H.
  unfold snapshot_entries, rows_in_order in *.
  assert (Hlen : length (imap (fun offset (_ : PbCellRow) =>
             let index := saturating_add64 (pb_sb_base frame) (Z.of_nat offset) in
             mkSnapshotEntry true (if index <? 2 ^ 32 then index else 2 ^ 32 - 1))
             (pb_scrollback_rows frame)) = length (pb_scrollback_rows frame))
    by (by rewrite length_imap).
  apply Forall2_app_inv in H as [H1 H2]; [|exact Hlen].
  rewrite !named_app.
  destruct (named_family _ true _ _ H1) as [E1 E1'].
  { apply Forall_lookup_2. intros i e. rewrite list_lookup_imap. by intros (? & _ & ->)%fmap_Some. }
  destruct (named_family _ false _ _ H2) as [E2 E2'].
  { apply Forall_lookup_2. intros i e. rewrite list_lookup_fmap. by intros (? & _ & ->)%fmap_Some. }
  cbn [negb] in *. by rewrite E1, E1', E2, E2', app_nil_r.
Qed.

Lemma entries_resolve : Forall (resolves frame) (snapshot_entries frame).
Proof.
  eapply Forall2_Forall_l; [apply (snapshot_entries_rows frame table Htyped Hok)|].
  apply Forall_true. intros row entry He. unfold resolves. by rewrite He.
Qed.

Lemma append_empty : pb_scrollback_append frame = [].
Proof.
  pose proof (ok_scalars _ _ Hok) as Hs. unfold assert_snapshot_scalars in Hs. ok_inv Hs.
  apply bool_decide_eq_false in Hif4. by destruct (decide (pb_scrollback_append frame = [])).
Qed.

Lemma frame_is_its_part :
  create_cell_grid_frame_part frame (pb_viewport_rows frame) (pb_scrollback_rows frame) = frame.
Proof. apply part_of_itself, append_empty. Qed.

Lemma entries_total :
  base_bytes frame + entries_cost frame (snapshot_entries frame)
  = encoded_cell_grid_frame_size frame.
Proof.
  rewrite <- (named_cost frame) by apply entries_resolve.
  destruct named_snapshot as [-> ->].
  rewrite <- frame_is_its_part at 4. rewrite frame_size_rows. f_equal.
  apply rows_cost_perm. by rewrite (rows_by_index_perm frame table Htyped Hok).
Qed.

Definition pieces_of (parts : list PlannedSnapshotPart) : list (list PbCellRow * list PbCellRow) :=
  (fun part => (named false frame (pl_entries part), named true frame (pl_entries part))) <$> parts.

Lemma collect_parts before parts position :
  len (before ++ parts) <= 256 -> Forall (part_fine frame) (before ++ parts) ->
  collect_at
    (fun _ part_index =>
       let? part := materialize (mkCellGridSnapshotSource frame (Some (before ++ parts)))
                      snapshot_id part_index in
       match part with PartChunk chunk => Ok chunk | PartFrame _ => Err ChunkCount end)
    position (Z.of_nat <$> seq (length before) (length parts))
  = Ok (piece_chunks frame snapshot_id (len (before ++ parts)) (length before) (pieces_of parts)).
Proof.
  revert before position. induction parts as [|part rest IH]; intros before position Hlen Hall; [done|].
  cbn [length seq fmap list_fmap collect_at].
  rewrite (materialize_chunk frame (before ++ part :: rest) snapshot_id (length before) part);
    [|done|done| |by rewrite lookup_app_r, Nat.sub_diag by lia].
  2: { rewrite Forall_app, Forall_cons in Hall. tauto. }
  specialize (IH (before ++ [part]) (S position)).
  rewrite <- app_assoc in IH. cbn [app] in IH.
  rewrite length_app, Nat.add_1_r in IH. by rewrite (IH Hlen Hall).
Qed.

Lemma planned_total_exact before parts count :
  is_terminal_uuid snapshot_id = true -> count = Z.of_nat (before + length parts) -> count <= 256 ->
  Forall (part_fine frame) parts ->
  foldr Z.add 0
    (imap (fun index part =>
             encoded_chunk_bytes
               (chunk_header_bytes PLANNING_SNAPSHOT_ID (Z.of_nat (before + index)) count) 1
               (pl_encoded_part_bytes part)) parts)
  = chunk_bytes (piece_chunks frame snapshot_id count before (pieces_of parts))
  /\ pieces_ok frame snapshot_id count before (pieces_of parts).
Proof.
  intros _ Hcount Hc Hall. revert before Hcount.
  induction Hall as [|part rest Hp _ IH]; intros before Hcount; [done|].
  cbn [length] in Hcount. rewrite imap_cons. cbn [foldr pieces_of fmap list_fmap piece_chunks
    chunk_bytes pieces_ok]. fold (pieces_of rest).
  destruct (chunk_of_size frame snapshot_id count before part Hid Hp ltac:(lia) Hc) as [Hs Hr].
  destruct (IH (S before) ltac:(lia)) as [Heq Hps]. split.
  - rewrite Nat.add_0_r, <- Hs.
    assert (Hext : forall l, foldr Z.add 0
        (imap ((fun index part =>
             encoded_chunk_bytes
               (chunk_header_bytes PLANNING_SNAPSHOT_ID (Z.of_nat (before + index)) count) 1
               (pl_encoded_part_bytes part)) ∘ S) l)
      = foldr Z.add 0
        (imap (fun index part =>
             encoded_chunk_bytes
               (chunk_header_bytes PLANNING_SNAPSHOT_ID (Z.of_nat (S before + index)) count) 1
               (pl_encoded_part_bytes part)) l)).
    { intros l. f_equal. apply imap_ext. intros i x _. cbn. by rewrite Nat.add_succ_r. }
    rewrite Hext, Heq. done.
  - split; [|done]. split; [|exact Hr]. cbn [fst snd].
    pose proof (fine_nonempty _ _ Hp) as Hne. pose proof (fine_resolves _ _ Hp) as Hres.
    destruct (pl_entries part) as [|entry es]; [done|].
    apply Forall_cons in Hres as [He _]. unfold resolves in He.
    destruct (entry_row frame entry) as [row|] eqn:E; [|done].
    destruct (named_cons frame entry es row E) as [-> ->].
    destruct (en_history entry); [right|left]; done.
Qed.
End planned.

(** C28: a snapshot survives its division into parts.  When a validated full
    frame can be planned at all, every recipient's snapshot UUID gives at most
    256 chunks, none over the part limit and together within the snapshot
    limit (the plan was measured under another identifier); and an assembler
    fed with the chunks in order, without a stall, answers each but the last
    with what it awaits, and the last with the whole frame: the source's
    scalars, its history, and its viewport rows from the top, each once.  It
    is then idle.  A source whose rows were in order is given back itself. *)
Theorem snapshot_roundtrip `{Laws : WireSizeLaws} (frame : PbCellGridFrame)
    (snapshot_id : string) (source : CellGridSnapshotSource) :
  snapshot_typed frame -> is_terminal_uuid snapshot_id = true ->
  encoded_cell_grid_frame_size frame < 2 ^ 31 ->
  create_cell_grid_snapshot_source frame true = Ok source ->
  exists chunks,
    chunk_cell_grid_frame frame snapshot_id = Ok chunks
    /\ 1 <= len chunks <= CELL_GRID_SNAPSHOT_MAX_CHUNKS
    /\ Forall (fun chunk => encoded_cell_grid_chunk_size chunk <= CELL_GRID_PART_MAX_BYTES) chunks
    /\ chunk_bytes chunks <= CELL_GRID_SNAPSHOT_MAX_BYTES
    /\ (forall start times, length times = length chunks -> steady start times ->
          push_all None (zip chunks times)
          = (None, expected_answer frame snapshot_id (len chunks) <$> seq 0 (length chunks)))
    /\ pb_viewport_rows (whole_frame frame) ≡ₚ pb_viewport_rows frame
    /\ in_place (pb_viewport_rows (whole_frame frame))
    /\ (in_place (pb_viewport_rows frame) -> whole_frame frame = frame).
Proof.
  intros Htyped Hid Hmax Hsource.
  unfold chunk_cell_grid_frame. rewrite Hsource. unfold create_cell_grid_snapshot_source in Hsource.
  ok_inv Hsource. cbn [negb andb] in Hsource. ok_inv Hsource. injection Hsource as <-.
  apply assert_snapshot_ok in Hok as [table Hok].
  destruct (plan_fine frame a0 (entries_resolve frame table Htyped Hok)
              ltac:(by rewrite (entries_total frame table Htyped Hok)) Hok0)
    as (Hfine & Hentries & Hlen & Htotal).
  destruct (planned_total_exact frame snapshot_id Hid 0 a0 (len a0) Hid eq_refl ltac:(lia) Hfine)
    as [Hbytes Hpieces].
  destruct (named_snapshot frame table Htyped Hok) as [Hh Hv].
  rewrite <- Hentries in Hh, Hv. unfold planned_entries in Hh, Hv. rewrite named_concat in Hh, Hv.
  set (pieces := pieces_of frame a0) in *.
  set (chunks := piece_chunks frame snapshot_id (len a0) 0 pieces) in *.
  assert (Hplen : length pieces = length a0) by (subst pieces; unfold pieces_of; by rewrite length_fmap).
  assert (Hclen : forall ps k, length (piece_chunks frame snapshot_id (len a0) k ps) = length ps).
  { induction ps as [|p ps IH]; intros k; cbn; [done|]. by rewrite IH. }
  assert (Hchunks : length chunks = length a0) by (subst chunks; by rewrite Hclen).
  assert (Hlen' : len chunks = len a0) by (unfold len; by rewrite Hchunks).
  exists chunks. split_and!.
  - unfold create_cursor. cbn [src_parts]. rewrite Hid. cbn [negb andb fst snd].
    rewrite andb_false_r. cbn [fst snd]. unfold collect, part_count. cbn [src_parts].
    assert (Hlen32 : len_u32 a0 = len a0).
    { unfold len_u32. by destruct (Z.ltb_spec (len a0) (2 ^ 32)); [|lia]. }
    rewrite Hlen32. unfold len at 1. rewrite Nat2Z.id.
    exact (collect_parts frame snapshot_id Hid [] a0 0 (proj2 Hlen) Hfine).
  - lia.
  - rewrite Hlen'. unfold CELL_GRID_SNAPSHOT_MAX_CHUNKS. lia.
  - clear -Hpieces. subst chunks. revert Hpieces. generalize 0%nat.
    induction pieces as [|p ps IH]; intros k; [constructor|]. intros [[_ Hp] Hps].
    constructor; [by destruct Hp|by apply IH].
  - by rewrite <- Hbytes.
  - intros start times Htimes Hst. rewrite Hlen', Hchunks, <- Hplen. subst chunks.
    apply (run_pieces frame table Htyped Hok snapshot_id Hid (len a0) pieces None 0 0 start [] []);
      try done.
    + congruence.
    + intros E. rewrite E in Hplen. cbn in Hplen. unfold len in Hlen. lia.
    + cbn [app]. rewrite <- Hv. subst pieces. unfold pieces_of. by rewrite <- !list_fmap_compose.
    + cbn [app]. rewrite <- Hh. subst pieces. unfold pieces_of. by rewrite <- !list_fmap_compose.
    + unfold len. by rewrite Hplen.
    + lia.
    + by rewrite <- Hbytes.
  - apply (rows_by_index_perm frame table Htyped Hok).
  - intros i row Hi. by apply (rows_by_index_at frame table Htyped Hok) in Hi as [? _].
  - intros Hplace. transitivity
      (create_cell_grid_frame_part frame (pb_viewport_rows frame) (pb_scrollback_rows frame));
      [|exact (frame_is_its_part frame table Hok)].
    unfold whole_frame. f_equal. apply list_eq. intros i.
    destruct (rows_by_index frame !! i) as [row|] eqn:Hi.
    + apply (rows_by_index_at frame table Htyped Hok) in Hi as [Hidx Hrow].
      apply list_elem_of_lookup in Hrow as (j & Hj). pose proof (Hplace _ _ Hj).
      by replace i with j by lia.
    + apply lookup_ge_None_1 in Hi. rewrite (length_rows_by_index frame table Htyped Hok) in Hi.
      symmetry. apply lookup_ge_None_2. pose proof (ok_count _ _ Hok). unfold len in *. lia.
Qed.

(** ** A concrete wire *)

Section concrete_wire.
Local Definition demo_varint (v : Z) : Z := Z.log2 v / 7 + 1.

(** Rows heavy enough that a part holds one. *)
Local Definition demo_row_len (row : PbCellRow) : Z :=
  600000 + Z.min 1000000 (len (pbr_spans row)).

Local Definition demo_rows (rows : list PbCellRow) : Z :=
  foldr (fun row n => 1 + demo_varint (demo_row_len row) + demo_row_len row + n) 0 rows.

Local Definition demo_frame_len (frame : PbCellGridFrame) : Z :=
  64 + demo_rows (pb_viewport_rows frame ++ pb_scrollback_rows frame).

Local Definition demo_chunk_len (chunk : PbCellGridChunk) : Z :=
  2 + Z.of_nat (String.length (ch_snapshot_id chunk))
  + (1 + demo_varint (ch_index chunk)) + (1 + demo_varint (ch_count chunk))
  + match ch_part chunk with
    | None => 0
    | Some part => 1 + demo_varint (demo_frame_len part) + demo_frame_len part
    end.

Local Instance demo_sizes : WireSizes :=
  Build_WireSizes demo_row_len demo_frame_len demo_chunk_len demo_varint.

Lemma uuid_length id : is_terminal_uuid id = true -> String.length id = 36%nat.
Proof.
  unfold is_terminal_uuid.
  destruct (Nat.eqb_spec (length (list_ascii_of_string id)) UUID_LEN) as [E|]; [|done].
  intros _. change 36%nat with UUID_LEN. rewrite <- E. clear E.
  induction id as [|c id IH]; [done|]. cbn. by rewrite IH.
Qed.

Lemma demo_varint_mono v w : v <= w -> 1 <= demo_varint v <= demo_varint w.
Proof.
  intros H. unfold demo_varint.
  pose proof (Z.div_le_mono _ _ 7 ltac:(lia) (Z.log2_le_mono v w H)).
  pose proof (Z.div_pos (Z.log2 v) 7 (Z.log2_nonneg v) ltac:(lia)). lia.
Qed.

Local Instance demo_laws : WireSizeLaws.
Proof.
  assert (Hrow : forall row, 600000 <= demo_row_len row <= 1600000).
  { intros row. unfold demo_row_len. pose proof (len_nonneg (pbr_spans row)). lia. }
  constructor; cbn [row_encoded_len encoded_cell_grid_frame_size encoded_cell_grid_chunk_size
    varint_len demo_sizes].
  - intros row. specialize (Hrow row). lia.
  - intros v Hv. pose proof (demo_varint_mono v (2 ^ 64 - 1) ltac:(lia)).
    change (demo_varint (2 ^ 64 - 1)) with 10 in *. lia.
  - intros frame. unfold demo_frame_len. generalize (pb_viewport_rows frame ++ pb_scrollback_rows frame).
    intros l. enough (0 <= demo_rows l) by lia. induction l as [|row l IH]; [done|].
    change (demo_rows (row :: l))
      with (1 + demo_varint (demo_row_len row) + demo_row_len row + demo_rows l).
    pose proof (demo_varint_mono _ _ (Z.le_refl (demo_row_len row))). specialize (Hrow row). lia.
  - intros frame rows history. done.
  - intros id index count part. unfold demo_chunk_len. cbn [ch_snapshot_id ch_index ch_count ch_part].
    lia.
  - intros id id' index count H1 H2. unfold demo_chunk_len. cbn [ch_snapshot_id ch_index ch_count].
    by rewrite (uuid_length _ H1), (uuid_length _ H2).
  - intros id index count H1 Hi Hc. unfold demo_chunk_len. cbn [ch_snapshot_id ch_index ch_count ch_part].
    rewrite (uuid_length _ H1).
    pose proof (demo_varint_mono index 255 ltac:(lia)).
    pose proof (demo_varint_mono count 256 ltac:(lia)). lia.
  - intros id H1. unfold demo_chunk_len. cbn [ch_snapshot_id ch_index ch_count ch_part].
    rewrite (uuid_length _ H1). vm_compute. discriminate.
Qed.

Local Definition demo_row (index : Z) (c : Z) : PbCellRow :=
  mkPbCellRow index [mkPbCellSpan [c] 256 256 0 None None 1 None None] 0.

Local Definition demo_frame : PbCellGridFrame :=
  mkPbCellGridFrame "s" "00000000-0000-4000-8000-000000000000" "epoch" 1 2 0 0 true false true
    [demo_row 1 98; demo_row 0 97] [demo_row 4 99] [] 5 7 4 false false 0 0 0 0 0 false 0 false 0
    [] true.

Local Definition demo_id : string := "11111111-1111-4111-8111-111111111111".

Local Definition demo_source : CellGridSnapshotSource :=
  match create_cell_grid_snapshot_source demo_frame true with
  | Ok source => source
  | Err _ => mkCellGridSnapshotSource demo_frame None
  end.

Lemma snapshot_roundtrip_witness :
  exists chunks,
    chunk_cell_grid_frame demo_frame demo_id = Ok chunks /\ length chunks = 3%nat
    /\ push_all None (zip chunks [0; 1; 2])
       = (None, [Ok (Pending demo_id 1); Ok (Pending demo_id 2);
                 Ok (Complete demo_id (create_cell_grid_frame_part demo_frame
                       [demo_row 0 97; demo_row 1 98] [demo_row 4 99]))]).
Proof.
  destruct (snapshot_roundtrip demo_frame demo_id demo_source) as (chunks & Hc & _ & _ & _ & Hrun & _).
  - constructor; [repeat constructor; vm_compute; discriminate|repeat constructor|vm_compute; discriminate].
  - vm_compute. reflexivity.
  - vm_compute. reflexivity.
  - vm_compute. reflexivity.
  - exists chunks. assert (Hlen : length chunks = 3%nat).
    { assert (E : option_map (@length _)
                    (match chunk_cell_grid_frame demo_frame demo_id with Ok l => Some l | Err _ => None end)
                  = Some 3%nat) by (vm_compute; reflexivity).
      rewrite Hc in E. by injection E. }
    split; [exact Hc|]. split; [exact Hlen|].
    rewrite (Hrun 0 [0; 1; 2]); [|by rewrite Hlen|repeat split].
    unfold len. rewrite Hlen. vm_compute. reflexivity.
Defined.
End concrete_wire.
