(* ===== verification/CellAssembler.v ===== *)
(** * CellAssembler: the assembler under any arrivals

    What holds of the assembler of [CellChunks] whatever is pushed into it: a
    partial snapshot stays within the contract's limits, and a completed one is
    a snapshot the validator accepts. *)
From Stdlib Require Import Ascii String.
From S2P Require Export CellChunkGuarantees.

(** ** Slots *)

Definition filled (slots : list (option PbCellRow)) : list PbCellRow := omap id slots.

(** Row indexes are unsigned on the wire. *)
Definition chunk_typed (chunk : PbCellGridChunk) : Prop :=
  match ch_part chunk with
  | Some part => Forall (fun row => 0 <= pbr_index row) (pb_viewport_rows part) /\ 0 <= ch_index chunk
  | None => True
  end.

Lemma filled_insert slots i row :
  slots !! i = Some None -> filled (<[i := Some row]> slots) ≡ₚ row :: filled slots.
Proof.
  revert i. induction slots as [|slot slots IH]; intros i Hi; [done|].
  destruct i as [|i]; cbn in Hi.
  - injection Hi as ->. done.
  - unfold filled. cbn [insert list_insert omap list_omap]. fold (filled slots).
    destruct slot as [r|]; cbn [id].
    + change (omap id (<[i:=Some row]> slots)) with (filled (<[i:=Some row]> slots)).
      rewrite (IH i Hi). apply Permutation_swap.
    + by apply IH.
Qed.

(** Filled slots hold rows of their own index. *)
Definition slots_placed (slots : list (option PbCellRow)) : Prop :=
  forall i row, slots !! i = Some (Some row) -> pbr_index row = Z.of_nat i.

Lemma filled_elem slots row : row ∈ filled slots <-> exists i, slots !! i = Some (Some row).
Proof.
  unfold filled. rewrite list_elem_of_omap. split.
  - intros (slot & Hin & Hs). cbn in Hs. subst slot. by apply list_elem_of_lookup in Hin.
  - intros (i & Hi). exists (Some row). split; [by eapply list_elem_of_lookup_2|done].
Qed.

Lemma place_rows_filled slots rows :
  slots_placed slots -> Forall (fun row => 0 <= pbr_index row < Z.of_nat (length slots)) rows ->
  NoDup (pbr_index <$> rows) ->
  (forall i, i ∈ pbr_index <$> rows -> i ∉ pbr_index <$> filled slots) ->
  slots_placed (place_rows slots rows) /\ filled (place_rows slots rows) ≡ₚ rows ++ filled slots.
Proof.
  revert slots. induction rows as [|row rest IH]; intros slots Hp Hr Hnd Hfresh; [done|].
  apply Forall_cons in Hr as [Hrow Hr]. cbn [fmap list_fmap] in Hnd.
  apply NoDup_cons in Hnd as [Hni Hnd].
  set (i := Z.to_nat (pbr_index row)).
  assert (Hempty : slots !! i = Some None).
  { destruct (lookup_lt_is_Some_2 slots i) as [[r|] Hi]; [subst i; lia| |done].
    exfalso. apply (Hfresh (pbr_index row)); [by left|].
    pose proof (Hp _ _ Hi). replace (pbr_index row) with (pbr_index r) by (subst i; lia).
    apply list_elem_of_fmap_2. apply filled_elem. by exists i. }
  pose proof (filled_insert slots i row Hempty) as Hperm.
  change (place_rows slots (row :: rest)) with (place_rows (<[i := Some row]> slots) rest).
  destruct (IH (<[i := Some row]> slots)) as [Hp' Hf'].
  - intros k r. destruct (decide (k = i)) as [->|Hne].
    + rewrite list_lookup_insert_eq by (by eapply lookup_lt_Some). intros [= <-]. subst i. lia.
    + rewrite list_lookup_insert_ne by done. apply Hp.
  - by rewrite length_insert.
  - done.
  - intros k Hk Hin. rewrite Hperm in Hin. cbn [fmap list_fmap] in Hin.
    apply elem_of_cons in Hin as [->|Hin]; [done|]. revert Hin. apply Hfresh. by right.
  - split; [done|]. rewrite Hf', Hperm. cbn [app]. by rewrite Permutation_middle.
Qed.

(** ** The invariant of a partial snapshot *)

Record partial_core (partial : PartialSnapshot) : Prop := {
  pi_scalars : assert_snapshot_scalars (pt_metadata partial) = Ok tt;
  pi_id : is_terminal_uuid (pt_snapshot_id partial) = true;
  pi_rows : length (pt_rows partial) = Z.to_nat (pb_rows (pt_metadata partial));
  pi_placed : slots_placed (pt_rows partial);
  pi_seen : w_seen (pt_walk partial) = list_to_set (pbr_index <$> filled (pt_rows partial));
  pi_fine : Forall (row_fine (pb_cols (pt_metadata partial)) (w_links (pt_walk partial)))
              (filled (pt_rows partial));
  pi_history_fine : Forall (row_fine 0 (w_links (pt_walk partial))) (pt_history_rows partial);
  pi_history : forall i row, pt_history_rows partial !! i = Some row ->
    pbr_index row = pb_sb_base (pt_metadata partial) + Z.of_nat i
    /\ pbr_index row < pb_scrollback_total (pt_metadata partial);
  pi_next : w_next (pt_walk partial)
            = pb_sb_base (pt_metadata partial) + len (pt_history_rows partial);
  pi_spans : w_spans (pt_walk partial)
             = spans_of (pt_history_rows partial) + spans_of (filled (pt_rows partial));
  pi_spans_cap : w_spans (pt_walk partial) <= CELL_GRID_SNAPSHOT_MAX_SPANS;
  pi_links : links_bounded (w_links (pt_walk partial));
  pi_bytes : pt_total_bytes partial <= CELL_GRID_SNAPSHOT_MAX_BYTES;
}.

(** One in flight still awaits a part. *)
Definition partial_inv (partial : PartialSnapshot) : Prop :=
  partial_core partial
  /\ 0 <= pt_next_chunk_index partial < pt_chunk_count partial
  /\ pt_chunk_count partial <= CELL_GRID_SNAPSHOT_MAX_CHUNKS.

Lemma filled_replicate n : filled (replicate n None) = [].
Proof. induction n; [done|]. cbn. done. Qed.

Lemma scalars_of_part frame vs hs :
  assert_snapshot_scalars frame = Ok tt ->
  assert_snapshot_scalars (create_cell_grid_frame_part frame vs hs) = Ok tt.
Proof.
  unfold assert_snapshot_scalars. intros Hs. ok_inv Hs.
  cbn [create_cell_grid_frame_part pb_full pb_base_seq pb_stream_id
    pb_grid_epoch pb_cols pb_rows pb_seq pb_scrollback_append pb_scrollback_total pb_sb_base].
  by rewrite Hif, Hif0, Hif1, Hif2, Hif3, Hif5.
Qed.

Lemma partial_new_inv chunk part now_ms :
  assert_snapshot_scalars part = Ok tt -> is_terminal_uuid (ch_snapshot_id chunk) = true ->
  1 <= ch_count chunk <= CELL_GRID_SNAPSHOT_MAX_CHUNKS ->
  partial_inv (partial_new chunk part now_ms).
Proof.
  intros Hs Hid Hc. split; [|cbn; lia]. constructor; cbn [partial_new pt_snapshot_id pt_stream_id pt_chunk_count
    pt_next_chunk_index pt_total_bytes pt_last_chunk_at_ms pt_metadata pt_rows pt_history_rows
    pt_walk w_seen w_links w_spans w_next]; rewrite ?filled_replicate; try done.
  - by apply scalars_of_part.
  - by rewrite length_replicate.
  - intros i row Hi. by apply lookup_replicate in Hi as [? _].
  - unfold len. cbn [length create_cell_grid_frame_part pb_sb_base]. lia.
  - unfold links_bounded. rewrite map_size_empty. apply Nat.le_0_l.
Qed.

(** What parts that agree with the first one have of it. *)
Lemma same_metadata_spec a b :
  has_same_snapshot_metadata a b = true ->
  pb_cols a = pb_cols b /\ pb_rows a = pb_rows b
  /\ pb_scrollback_total a = pb_scrollback_total b /\ pb_sb_base a = pb_sb_base b.
Proof.
  unfold has_same_snapshot_metadata. intros H. repeat (apply andb_true_iff in H as [H ?]).
  rewrite !Z.eqb_eq in *. by split_and!.
Qed.

Lemma core_nodup partial : partial_core partial -> NoDup (pbr_index <$> filled (pt_rows partial)).
Proof.
  intros Hc. pose proof (pi_placed _ Hc) as Hp. revert Hp. generalize (pt_rows partial). clear.
  assert (Hgo : forall slots k,
            (forall i row, slots !! i = Some (Some row) -> pbr_index row = Z.of_nat (k + i)) ->
            NoDup (pbr_index <$> filled slots)
            /\ forall x, x ∈ pbr_index <$> filled slots -> Z.of_nat k <= x).
  { induction slots as [|slot slots IH]; intros k Hp.
    { split; [constructor|]. intros x Hx. by apply not_elem_of_nil in Hx. }
    destruct (IH (S k)) as [Hnd Hge].
    { intros i row Hi. rewrite (Hp (S i) row Hi). lia. }
    destruct slot as [row|]; unfold filled; cbn [omap list_omap id]; fold (filled slots).
    - pose proof (Hp O row eq_refl) as Hrow. cbn [fmap list_fmap]. split.
      + constructor; [|done]. intros Hin. specialize (Hge _ Hin). lia.
      + intros x [->|Hx]%elem_of_cons; [lia|]. specialize (Hge _ Hx). lia.
    - split; [done|]. intros x Hx. specialize (Hge _ Hx). lia. }
  intros slots Hp. by destruct (Hgo slots O Hp).
Qed.

(** A part taken in keeps the partial within its contract. *)
Lemma take_part_core partial chunk part bytes now_ms walk1 walk2 index :
  partial_core partial -> Forall (fun row => 0 <= pbr_index row) (pb_viewport_rows part) ->
  has_same_snapshot_metadata (pt_metadata partial) part = true ->
  pt_total_bytes partial + bytes <= CELL_GRID_SNAPSHOT_MAX_BYTES ->
  add_snapshot_history_rows part (pb_scrollback_rows part) (pt_walk partial) = Ok walk1 ->
  add_snapshot_rows part (pb_viewport_rows part) walk1 = Ok walk2 ->
  partial_core
    (mkPartialSnapshot (pt_snapshot_id partial) (pt_stream_id partial) (ch_count chunk) index
       (pt_total_bytes partial + bytes) now_ms (pt_metadata partial)
       (place_rows (pt_rows partial) (pb_viewport_rows part))
       (pt_history_rows partial ++ pb_scrollback_rows part) walk2).
Proof.
  intros Hcore Htyped Hmeta Hbytes Hh Hv.
  apply same_metadata_spec in Hmeta as (Hcols & Hrows & Htot & Hbase).
  apply history_rows_ok in Hh as (Hidx & Hhf & Hsub1 & Hb1 & Hsp1 & Hcap1 & Hn1 & Hs1).
  apply add_rows_ok in Hv as (Hnd & Hfresh & Hin & Hseen & Hf & Hsub2 & Hb2 & Hsp2 & Hcap2 & Hn2).
  pose proof Hcore as [Hsc Hid Hlen Hp Hs Hfine Hhfine Hhist Hnext Hspans Hcap Hlinks Hby].
  rewrite Hs1, Hs in Hfresh. rewrite <- Hrows in Hin. rewrite <- Hcols in Hf.
  destruct (place_rows_filled (pt_rows partial) (pb_viewport_rows part) Hp) as [Hp' Hperm].
  { rewrite Forall_forall in Htyped, Hin |- *. intros row Hrow. pose proof (Htyped _ Hrow).
    pose proof (Hin _ Hrow). unfold within_grid in *. lia. }
  { done. }
  { intros i Hi Hx. apply (Hfresh i Hi). by apply elem_of_list_to_set. }
  assert (Hsub : w_links (pt_walk partial) ⊆ w_links walk2) by (by etrans).
  constructor; cbn [pt_snapshot_id pt_metadata pt_rows pt_history_rows pt_walk pt_total_bytes];
    try done.
  - by rewrite length_place_rows.
  - rewrite Hseen, Hs1, Hs, Hperm, fmap_app, list_to_set_app_L. done.
  - rewrite Hperm. apply Forall_app. split; [done|].
    eapply Forall_impl; [exact Hfine|]. intros row. by apply row_fine_weaken.
  - apply Forall_app. split.
    + eapply Forall_impl; [exact Hhfine|]. intros row. by apply row_fine_weaken.
    + eapply Forall_impl; [exact Hhf|]. intros row. by apply row_fine_weaken.
  - intros i row Hi. apply lookup_app_Some in Hi as [Hi|[Hge Hi]]; [by apply Hhist|].
    destruct (Hidx _ _ Hi) as [E Hlt]. rewrite Hnext in E. unfold len in E. lia.
  - rewrite Hn2, Hn1, Hnext, len_app. lia.
  - rewrite Hsp2, Hsp1, Hspans, Hperm, !spans_of_app. lia.
  - by apply Hcap2, Hcap1.
  - by apply Hb2, Hb1.
Qed.

(** A complete partial is a snapshot. *)
Lemma filled_rows_Some slots rows : filled_rows slots = Some rows -> slots = Some <$> rows.
Proof.
  unfold filled_rows. intros H%mapM_Some. induction H as [|slot row slots rows Hx _ IH]; [done|].
  cbn in *. by rewrite Hx, IH.
Qed.

Lemma filled_all rows : filled (Some <$> rows) = rows.
Proof. induction rows as [|row rows IH]; [done|]. unfold filled in *. cbn. by rewrite IH. Qed.

Lemma completed_whole partial frame :
  partial_core partial -> completed_frame partial = Ok frame ->
  snapshot_ok frame (w_links (pt_walk partial)) /\ in_place (pb_viewport_rows frame).
Proof.
  intros Hcore H. pose proof (core_nodup _ Hcore) as Hnd.
  pose proof Hcore as [Hsc Hid Hlen Hp Hs Hfine Hhfine Hhist Hnext Hspans Hcap Hlinks Hby].
  unfold completed_frame in H. ok_inv H. injection H as <-. bool_to_prop.
  destruct (filled_rows (pt_rows partial)) as [rows|] eqn:Hrows; [|done].
  cbn [ok_or] in Hok. injection Hok as <-. apply filled_rows_Some in Hrows.
  rewrite Hrows in *. rewrite filled_all in *. rewrite length_fmap in Hlen.
  assert (Hplace : in_place rows).
  { intros i row Hi. apply Hp. rewrite list_lookup_fmap. by rewrite Hi. }
  split; [|exact Hplace].
  constructor; cbn [create_cell_grid_frame_part pb_viewport_rows pb_scrollback_rows pb_rows pb_cols
    pb_sb_base pb_scrollback_total]; try done.
  - by apply scalars_of_part.
  - apply Forall_forall. intros row (i & Hi)%list_elem_of_lookup.
    pose proof (lookup_lt_Some _ _ _ Hi). unfold within_grid. cbn. rewrite (Hplace _ _ Hi). lia.
  - unfold assert_snapshot_scalars, is_terminal_geometry in Hsc. cbn [cols Viewport.rows] in Hsc.
    ok_inv Hsc. bool_to_prop. unfold len. lia.
  - lia.
  - lia.
Qed.

(** ** One push *)

(** What one answer promises. *)
Definition answer_sound `{WireSizes} (assembler : CellGridChunkAssembler)
    (answer : result CellGridChunkAssembly CellGridChunkErrorCode) : Prop :=
  match answer with
  | Err _ => assembler = None
  | Ok (Pending snapshot_id next) =>
      active_snapshot_id assembler = Some snapshot_id
      /\ received_chunks <$> snapshot_progress assembler = Some next
  | Ok (Complete snapshot_id frame) =>
      assembler = None /\ is_terminal_uuid snapshot_id = true
      /\ is_ok (assert_cell_grid_snapshot frame) = true
      /\ in_place (pb_viewport_rows frame)
  end.

Definition assembler_inv (assembler : CellGridChunkAssembler) : Prop :=
  match assembler with Some partial => partial_inv partial | None => True end.

Section push.
Context `{Sizes : WireSizes}.

Lemma checked_part_spec chunk part bytes :
  checked_part chunk = Ok (part, bytes) ->
  is_terminal_uuid (ch_snapshot_id chunk) = true /\ 1 <= ch_count chunk <= 256
  /\ ch_part chunk = Some part /\ assert_snapshot_scalars part = Ok tt.
Proof.
  unfold checked_part, CELL_GRID_SNAPSHOT_MAX_CHUNKS. intros H. ok_inv H.
  injection H as -> _. destruct a0. bool_to_prop.
  destruct (ch_part chunk); [|done]. cbn in Hok. injection Hok as ->.
  split_and!; done || lia.
Qed.

Lemma partial_for_spec assembler chunk part now_ms partial :
  assembler_inv assembler -> assert_snapshot_scalars part = Ok tt ->
  is_terminal_uuid (ch_snapshot_id chunk) = true -> 1 <= ch_count chunk <= 256 ->
  partial_for assembler chunk part now_ms = Ok partial -> partial_inv partial.
Proof.
  intros Hinv Hs Hid Hc H. unfold partial_for in H.
  assert (Hnew : partial_inv (partial_new chunk part now_ms)).
  { by apply partial_new_inv. }
  destruct assembler as [held|]; cbn in H.
  - destruct (stalled held now_ms); [done|].
    destruct (String.eqb (pt_snapshot_id held) (ch_snapshot_id chunk)); cbn [negb] in H.
    + by injection H as <-.
    + destruct (ch_index chunk =? 0); [|done]. cbn [negb] in H.
      destruct (String.eqb (pt_stream_id held) (pb_stream_id part)); [|done]. cbn in H.
      by injection H as <-.
  - destruct (ch_index chunk =? 0); [|done]. by injection H as <-.
Qed.

Lemma push_sound assembler chunk now_ms assembler' answer :
  assembler_inv assembler -> chunk_typed chunk ->
  push assembler chunk now_ms = (assembler', answer) ->
  assembler_inv assembler' /\ answer_sound assembler' answer.
Proof.
  intros Hinv Htyped H. unfold push in H.
  destruct (push_checked assembler chunk now_ms) as [[a assembly]|] eqn:Hpush;
    injection H as <- <-; [|done].
  unfold push_checked in Hpush.
  destruct (checked_part chunk) as [[part bytes]|] eqn:Hcheck; [|done].
  apply checked_part_spec in Hcheck as (Hid & Hc & Hpart & Hs).
  destruct (partial_for assembler chunk part now_ms) as [partial|] eqn:Hfor; [|done].
  apply partial_for_spec in Hfor as [Hcore Hcount]; [|done..].
  destruct (take_part partial chunk part bytes now_ms) as [[partial' assembly']|] eqn:Htake; [|done].
  unfold take_part in Htake. unfold chunk_typed in Htyped. rewrite Hpart in Htyped.
  destruct Htyped as [Htyped _].
  ok_inv Htake. bool_to_prop.
  pose proof (take_part_core partial chunk part bytes now_ms a0 a1
                (pt_next_chunk_index partial + 1) Hcore Htyped Hif0 Hif2 Hok Hok0) as Hcore'.
  rewrite Hif in Hcore'.
  match type of Htake with context [completed_frame ?p] => set (next := p) in * end.
  assert (Hnext : pt_next_chunk_index next = pt_next_chunk_index partial + 1
                  /\ pt_chunk_count next = pt_chunk_count partial) by done.
  destruct Hnext as [Hn1 Hn2]. rewrite Hn1, Hn2 in Htake.
  destruct (Z.ltb_spec (pt_next_chunk_index partial + 1) (pt_chunk_count partial)).
  - injection Htake as <- <-. injection Hpush as <- <-. cbn [assembler_inv answer_sound].
    split; [|by split]. split; [exact Hcore'|]. rewrite Hn1, Hn2. lia.
  - ok_inv Htake. injection Htake as <- <-. injection Hpush as <- <-. cbn [assembler_inv answer_sound].
    split; [done|]. destruct (completed_whole next a2 Hcore' Hok1) as [Hw Hplace].
    split_and!; [done|apply Hcore'|by eapply snapshot_ok_assert|done].
Qed.
End push.

(** Whatever parts arrive, in any order, at any time, from any sender, the
    assembler holds at most one partial snapshot within the contract's limits
    (64 MiB, 65,536 spans, 1,024 links, a part still owed of at most 256); a
    refusal leaves it idle; a pending answer names the snapshot and part it now
    awaits; and a frame it completes passes the whole-snapshot validation with
    its viewport rows in order, so no half-baseline is ever handed out. *)
Theorem assembler_only_completes_snapshots `{WireSizes} (arrivals : list (PbCellGridChunk * Z))
    (before : nat) :
  Forall (fun arrival => chunk_typed (fst arrival)) arrivals ->
  let '(assembler, answers) := push_all None (take before arrivals) in
  (forall partial, assembler = Some partial ->
     pt_total_bytes partial <= CELL_GRID_SNAPSHOT_MAX_BYTES
     /\ w_spans (pt_walk partial) <= CELL_GRID_SNAPSHOT_MAX_SPANS
     /\ (size (w_links (pt_walk partial)) <= CELL_GRID_SNAPSHOT_MAX_LINK_MAPPINGS)%nat
     /\ 0 <= pt_next_chunk_index partial < pt_chunk_count partial
     /\ pt_chunk_count partial <= CELL_GRID_SNAPSHOT_MAX_CHUNKS)
  /\ (forall answer, last answers = Some answer -> answer_sound assembler answer)
  /\ (forall snapshot_id frame, Ok (Complete snapshot_id frame) ∈ answers ->
        is_ok (assert_cell_grid_snapshot frame) = true /\ in_place (pb_viewport_rows frame)).
Proof.
  intros Htyped.
  assert (Hgo : forall l assembler, assembler_inv assembler ->
            Forall (fun arrival => chunk_typed (fst arrival)) l ->
            let '(assembler', answers) := push_all assembler l in
            assembler_inv assembler'
            /\ (forall answer, last answers = Some answer -> answer_sound assembler' answer)
            /\ (forall snapshot_id frame, Ok (Complete snapshot_id frame) ∈ answers ->
                  is_ok (assert_cell_grid_snapshot frame) = true
                  /\ in_place (pb_viewport_rows frame))).
  { induction l as [|[chunk now] l IH]; intros assembler Hinv Hall.
    { cbn. split_and!; try done. intros ? ? Hin. by apply not_elem_of_nil in Hin. }
    apply Forall_cons in Hall as [Hc Hall]. cbn [push_all fst] in *.
    destruct (push assembler chunk now) as [a1 answer] eqn:Hpush.
    destruct (push_sound _ _ _ _ _ Hinv Hc Hpush) as [Hinv1 Hsound].
    specialize (IH a1 Hinv1 Hall). destruct (push_all a1 l) as [a2 answers] eqn:Hrest.
    destruct IH as (Hi2 & Hl2 & Hc2). split_and!; [done| |].
    - intros x Hx. destruct answers as [|y answers].
      + cbn in Hx. injection Hx as <-. destruct l as [|[c t] l].
        * cbn in Hrest. by injection Hrest as <-.
        * cbn in Hrest. destruct (push a1 c t), (push_all _ l). done.
      + apply Hl2. done.
    - intros id frame [<-|Hin]%elem_of_cons; [|by eapply Hc2].
      cbn in Hsound. tauto. }
  specialize (Hgo (take before arrivals) None I (Forall_take _ _ _ Htyped)).
  destruct (push_all None (take before arrivals)) as [assembler answers].
  destruct Hgo as (Hinv & Hl & Hc). split_and!; [|done|done].
  intros partial ->. destruct Hinv as (Hcore & Hnext & Hcount).
  pose proof (pi_bytes _ Hcore). pose proof (pi_spans_cap _ Hcore).
  pose proof (pi_links _ Hcore). unfold links_bounded in *. split_and!; try done; lia.
Qed.

(** The parts' agreement leaves one scalar out: parts of different keyboard
    flags assemble, and the first part's flags are the frame's. *)
Lemma kitty_flags_not_compared :
  exists a b, has_same_snapshot_metadata a b = true
              /\ pb_kitty_keyboard_flags a <> pb_kitty_keyboard_flags b.
Proof.
  set (f := fun flags => mkPbCellGridFrame "s" "u" "e" 1 1 0 0 true false true [] [] [] 0 1 0 false
                           false 0 0 0 0 0 false flags false 0 [] true).
  exists (f 0), (f 1). split; [reflexivity|]. cbn. lia.
Qed.

Section assembler_witness.
(** Every message of length one: the law-free part needs no more. *)
Local Instance unit_sizes : WireSizes :=
  Build_WireSizes (fun _ => 1) (fun _ => 1) (fun _ => 1) (fun _ => 1).

Local Definition w_part (viewport history : list PbCellRow) : PbCellGridFrame :=
  mkPbCellGridFrame "s" "00000000-0000-4000-8000-000000000000" "epoch" 1 2 0 0 true false true
    viewport history [] 5 7 4 false false 0 0 0 0 0 false 0 false 0 [] true.

Local Definition w_pb_row (index c : Z) : PbCellRow :=
  mkPbCellRow index [mkPbCellSpan [c] 256 256 0 None None 1 None None] 0.

Local Definition w_arrival (index : Z) (viewport history : list PbCellRow) (now : Z) :=
  (mkPbCellGridChunk "11111111-1111-4111-8111-111111111111" index 2
     (Some (w_part viewport history)), now).

(** A part, a stalled one, then both parts. *)
Local Definition w_arrivals :=
  [w_arrival 0 [w_pb_row 1 97] [w_pb_row 4 98] 0; w_arrival 1 [w_pb_row 0 99] [] 10000;
   w_arrival 0 [w_pb_row 1 97] [w_pb_row 4 98] 10001; w_arrival 1 [w_pb_row 0 99] [] 10002].

Lemma assembler_only_completes_snapshots_witness :
  Forall (fun arrival => chunk_typed (fst arrival)) w_arrivals
  /\ exists frame,
      push_all None w_arrivals
      = (None, [Ok (Pending "11111111-1111-4111-8111-111111111111" 1); Err SnapshotStalled;
                Ok (Pending "11111111-1111-4111-8111-111111111111" 1);
                Ok (Complete "11111111-1111-4111-8111-111111111111" frame)])
      /\ is_ok (assert_cell_grid_snapshot frame) = true /\ in_place (pb_viewport_rows frame).
Proof.
  assert (Ht : Forall (fun arrival => chunk_typed (fst arrival)) w_arrivals).
  { repeat constructor; vm_compute; discriminate. }
  split; [exact Ht|].
  pose proof (assembler_only_completes_snapshots w_arrivals 4 Ht) as H.
  change (take 4 w_arrivals) with w_arrivals in H.
  exists (w_part [w_pb_row 0 99; w_pb_row 1 97] [w_pb_row 4 98]).
  assert (E : push_all None w_arrivals
      = (None, [Ok (Pending "11111111-1111-4111-8111-111111111111" 1); Err SnapshotStalled;
                Ok (Pending "11111111-1111-4111-8111-111111111111" 1);
                Ok (Complete "11111111-1111-4111-8111-111111111111"
                      (w_part [w_pb_row 0 99; w_pb_row 1 97] [w_pb_row 4 98]))]))
    by (vm_compute; reflexivity).
  split; [exact E|]. rewrite E in H. destruct H as (_ & _ & H).
  apply (H "11111111-1111-4111-8111-111111111111"). do 3 right. left.
Defined.
End assembler_witness.
