(* ===== verification/FrameFold.v ===== *)
(** * FrameFold: folding a frame onto a client's replica

    Models [src/crates/roost-client-core/src/terminal/frame_fold.rs]: which
    full may replace a replica, which delta may extend it, and what either does
    to it.  The canonical frame is shared by reference counting and copied
    before it is written, so it is a value here. *)
From Stdlib Require Import Ascii String.
From S2P Require Export CellAssembler.

Record FoldTarget := mkFoldTarget {
  expected_stream_id : option string;
  effective_cols : Z;
  effective_rows : Z;
  canonical : option CellGridFrame;
  baseline_ready : bool;
  canonical_chunk_in_flight : bool;
}.

Definition FoldTarget_default : FoldTarget := mkFoldTarget None 0 0 None false false.

Definition with_canonical (target : FoldTarget) (frame : CellGridFrame) (ready : bool) : FoldTarget :=
  mkFoldTarget (expected_stream_id target) (effective_cols target) (effective_rows target)
    (Some frame) ready (canonical_chunk_in_flight target).

Definition with_chunk_in_flight (target : FoldTarget) (in_flight : bool) : FoldTarget :=
  mkFoldTarget (expected_stream_id target) (effective_cols target) (effective_rows target)
    (canonical target) (baseline_ready target) in_flight.

Inductive FrameFoldFailure := InvalidFullFrame | FullConflict | DeltaUnfollowed | DeltaFoldRejected.

Inductive FrameFoldOutcome :=
| FoldedFull
| FoldedDelta (delta : CellGridFrame)
| FoldInvalid (reason : FrameFoldFailure).

(** The enumerated check of [valid_full]: each row states its own position. *)
Definition rows_in_position (rows : list CellRow) : bool :=
  forallb id (imap (fun index row => row_index row =? Z.of_nat index) rows).

(** The history loop of [valid_full], from the index the window starts at. *)
Fixpoint history_reaches (history_index total : Z) (rows : list CellRow) : bool :=
  match rows with
  | [] => history_index =? total
  | row :: rest =>
      if negb (row_index row =? history_index) || (total <=? row_index row) then false
      else history_reaches (history_index + 1) total rest
  end.

Definition valid_full (target : FoldTarget) (frame : CellGridFrame) : bool :=
  if negb (f_full frame) || negb (f_base_seq frame =? 0)
     || negb (len (f_viewport_rows frame) =? f_rows frame)
     || bool_decide (f_scrollback_append frame <> [])
  then false
  else
    match expected_stream_id target with
    | None => false
    | Some expected =>
        if negb (String.eqb (f_stream_id frame) expected)
           || negb (f_cols frame =? effective_cols target)
           || negb (f_rows frame =? effective_rows target)
        then false
        else if negb (rows_in_position (f_viewport_rows frame)) then false
        else history_reaches (f_sb_base frame) (f_scrollback_total frame) (f_scrollback_rows frame)
    end.

Definition full_follows_canonical (canonical : option CellGridFrame) (frame : CellGridFrame) : bool :=
  match canonical with
  | None => true
  | Some canonical =>
      negb (String.eqb (f_stream_id canonical) (f_stream_id frame))
      || (f_seq canonical <? f_seq frame)
      || ((f_seq frame =? f_seq canonical)
          && String.eqb (f_grid_epoch frame) (f_grid_epoch canonical)
          && (f_cols frame =? f_cols canonical) && (f_rows frame =? f_rows canonical)
          && Bool.eqb (f_alt_screen frame) (f_alt_screen canonical))
  end.

Definition fold_full (target : FoldTarget) (frame : CellGridFrame) : FoldTarget * FrameFoldOutcome :=
  if negb (valid_full target frame) then (target, FoldInvalid InvalidFullFrame)
  else if negb (full_follows_canonical (canonical target) frame) then
    (target, FoldInvalid FullConflict)
  else (with_canonical target (normalize_cell_grid_frame frame) true, FoldedFull).

(** The delta-fence table: the entries that refuse. *)
Definition delta_refusals (target : FoldTarget) (base delta : CellGridFrame) : list bool :=
  [ negb (baseline_ready target);
    canonical_chunk_in_flight target;
    negb (bool_decide (Some (f_stream_id delta) = expected_stream_id target));
    negb (bool_decide (Some (f_stream_id base) = expected_stream_id target));
    negb (String.eqb (f_grid_epoch delta) (f_grid_epoch base));
    negb (f_cols delta =? effective_cols target) || negb (f_rows delta =? effective_rows target);
    negb (f_base_seq delta =? f_seq base);
    negb ((f_base_seq delta + 1 <? 2 ^ 64) && (f_base_seq delta + 1 =? f_seq delta)) ].

Definition fold_delta (target : FoldTarget) (delta : CellGridFrame) :
    FoldTarget * FrameFoldOutcome :=
  match canonical target with
  | None => (target, FoldInvalid DeltaUnfollowed)
  | Some base =>
      if existsb id (delta_refusals target base delta) then (target, FoldInvalid DeltaUnfollowed)
      else
        match apply_delta base delta with
        | None => (target, FoldInvalid DeltaFoldRejected)
        | Some grid =>
            (with_canonical target (normalize_cell_grid_frame grid) (baseline_ready target),
             FoldedDelta delta)
        end
  end.

Definition fold (target : FoldTarget) (frame : CellGridFrame) : FoldTarget * FrameFoldOutcome :=
  if f_full frame then fold_full target frame else fold_delta target frame.

(** ** Decoding for the fold *)

Inductive WireRefusal :=
| PartCeiling
| NotDecoded (error : CellError).

Definition decode_wire_frame `{WireSizes} (frame : PbCellGridFrame) (assembled : bool) :
    result CellGridFrame WireRefusal :=
  if negb assembled && (CELL_GRID_PART_MAX_BYTES <? encoded_cell_grid_frame_size frame)
  then Err PartCeiling
  else
    match proto_to_cell_frame frame with
    | Ok decoded => Ok decoded
    | Err error => Err (NotDecoded error)
    end.

Definition decode_assembled_frame (frame : PbCellGridFrame) : result CellGridFrame WireRefusal :=
  match proto_into_cell_frame frame with
  | Ok decoded => Ok decoded
  | Err error => Err (NotDecoded error)
  end.

(** ** Facts *)

Lemma rows_in_position_spec rows :
  rows_in_position rows = true
  <-> forall i row, rows !! i = Some row -> row_index row = Z.of_nat i.
Proof.
  unfold rows_in_position. rewrite forallb_forall. split.
  - intros H i row Hi. apply Z.eqb_eq, H, list_elem_of_In, list_elem_of_lookup.
    exists i. by rewrite list_lookup_imap, Hi.
  - intros H b Hb. apply list_elem_of_In, list_elem_of_lookup in Hb as (i & Hi).
    rewrite list_lookup_imap in Hi. apply fmap_Some in Hi as (row & Hrow & ->).
    by apply Z.eqb_eq, H.
Qed.

(** A replica's frame: full, whole, with its rows in order. *)
Record replica_frame (frame : CellGridFrame) : Prop := {
  rf_len : len (f_viewport_rows frame) = f_rows frame;
  rf_position : rows_in_position (f_viewport_rows frame) = true;
  rf_normal : normalize_cell_grid_frame frame = frame;
}.

Lemma normalize_idem frame :
  normalize_cell_grid_frame (normalize_cell_grid_frame frame) = normalize_cell_grid_frame frame.
Proof. done. Qed.

(** Row indexes are unsigned. *)
Definition rows_typed (frame : CellGridFrame) : Prop :=
  Forall (fun row => 0 <= row_index row) (f_viewport_rows frame).

(** A delta keeps a whole viewport whole and in order. *)
Lemma apply_delta_in_position base delta frame :
  f_full delta = false -> rows_typed delta ->
  rows_in_position (f_viewport_rows base) = true ->
  apply_delta base delta = Some frame ->
  rows_in_position (f_viewport_rows frame) = true.
Proof.
  intros Hfull Htyped Hbase Happly.
  destruct (apply_delta_shape _ _ _ _ Hfull Happly)
    as (_ & Hlen & (marks & Hmk) & _ & _ & _ & Hview & _).
  apply applied_slots in Hmk as [Hnd Hslots].
  rewrite rows_in_position_spec in Hbase |- *.
  pose proof (viewport_shift_covers base delta) as Hcov.
  assert (Hlenf : length (f_viewport_rows frame) = length (f_viewport_rows base)).
  { rewrite Hview, length_overwrite. case_match; rewrite ?length_shift_rows; done. }
  intros i row Hi. pose proof (lookup_lt_Some _ _ _ Hi) as Hlt. rewrite Hlenf in Hlt.
  assert (Hnamed : forall r, r ∈ f_viewport_rows delta -> slot r = i -> row_index row = Z.of_nat i).
  { intros r Hr <-. rewrite Hview, overwrite_named in Hi; [|by apply nodup_functional|done|].
    - injection Hi as <-. unfold rows_typed in Htyped. rewrite Forall_forall in Htyped.
      specialize (Htyped _ Hr). cbn in Htyped. unfold slot. lia.
    - case_match; rewrite ?length_shift_rows; by apply Hslots. }
  destruct (decide (i ∈ slot <$> f_viewport_rows delta)) as [(r & -> & Hr)%list_elem_of_fmap|Hno];
    [by eapply Hnamed|].
  destruct (Z.ltb_spec 0 (delta_viewport_shift base delta)) as [Hs|Hs].
  - exfalso. apply Hno. destruct (slots_cover _ (length (f_viewport_rows base)) i Hnd Hslots) as (r & Hr & <-);
      [|done|by apply list_elem_of_fmap_2].
    specialize (Hcov Hs). unfold len in *. lia.
  - rewrite Hview, overwrite_other in Hi; [by apply Hbase|].
    intros r Hr <-. by apply Hno, list_elem_of_fmap_2.
Qed.

Lemma apply_delta_len base delta frame :
  f_full delta = false -> apply_delta base delta = Some frame ->
  len (f_viewport_rows frame) = f_rows frame.
Proof.
  intros Hfull Happly.
  destruct (apply_delta_shape _ _ _ _ Hfull Happly) as (_ & Hlen & _ & Hrows & _ & _ & Hview & _).
  unfold len in *. rewrite Hview, length_overwrite, Hrows. case_match; rewrite ?length_shift_rows; done.
Qed.

(** What the fold does, in every case. *)
Lemma fold_cases target frame target' outcome :
  fold target frame = (target', outcome) ->
  match outcome with
  | FoldInvalid _ => target' = target
  | FoldedFull =>
      f_full frame = true /\ valid_full target frame = true
      /\ full_follows_canonical (canonical target) frame = true
      /\ target' = with_canonical target (normalize_cell_grid_frame frame) true
  | FoldedDelta delta =>
      delta = frame /\ f_full frame = false /\ baseline_ready target = true
      /\ canonical_chunk_in_flight target = false
      /\ exists base grid,
          canonical target = Some base /\ apply_delta base frame = Some grid
          /\ Some (f_stream_id base) = expected_stream_id target
          /\ Some (f_stream_id frame) = expected_stream_id target
          /\ f_cols frame = effective_cols target /\ f_rows frame = effective_rows target
          /\ target' = with_canonical target (normalize_cell_grid_frame grid) true
  end.
Proof.
  unfold fold. destruct (f_full frame) eqn:Hfull.
  - unfold fold_full. destruct (valid_full target frame) eqn:Hv; cbn [negb]; [|by intros [= <- <-]].
    destruct (full_follows_canonical (canonical target) frame) eqn:Hf; cbn [negb];
      by intros [= <- <-].
  - unfold fold_delta. destruct (canonical target) as [base|] eqn:Hc; [|by intros [= <- <-]].
    destruct (existsb id (delta_refusals target base frame)) eqn:Hr; [by intros [= <- <-]|].
    destruct (apply_delta base frame) as [grid|] eqn:Ha; intros [= <- <-]; [|done].
    unfold delta_refusals in Hr. cbn [existsb] in Hr. unfold id in Hr.
    rewrite !orb_false_iff, !negb_false_iff, !bool_decide_eq_true, !Z.eqb_eq in Hr.
    destruct Hr as (Hb & Hch & Hs & Hs' & _ & (Hcols & Hrows) & _).
    split_and!; try done. exists base, grid. split_and!; try done. by rewrite Hb.
Qed.

Lemma valid_full_spec target frame :
  valid_full target frame = true ->
  f_full frame = true /\ len (f_viewport_rows frame) = f_rows frame
  /\ Some (f_stream_id frame) = expected_stream_id target
  /\ f_cols frame = effective_cols target /\ f_rows frame = effective_rows target
  /\ rows_in_position (f_viewport_rows frame) = true.
Proof.
  unfold valid_full. intros H.
  destruct (negb (f_full frame) || _ || _ || _) eqn:H1; [done|].
  destruct (expected_stream_id target) as [expected|]; [|done].
  destruct (negb (String.eqb _ _) || _ || _) eqn:H2; [done|].
  destruct (rows_in_position (f_viewport_rows frame)); [|done].
  bool_to_prop. match goal with E : String.eqb _ _ = true |- _ => apply String.eqb_eq in E as -> end.
  by split_and!.
Qed.
