(* ===== verification/TerminalToken.v ===== *)
(** * TerminalToken: one carrier generation of a terminal

    Models [src/crates/roost-client-core/src/terminal/token.rs]: the identity of
    the carrier a frame arrived on or a keystroke went out on, by value. *)
From S2P Require Export Viewport.

(** ** Carrier generations ([token.rs]) *)

Inductive TerminalTransport := Sync | Loopback | Peer.

#[global] Instance TerminalTransport_eq_dec : EqDecision TerminalTransport.
Proof. solve_decision. Defined.

Definition transport_as_str (transport : TerminalTransport) : string :=
  match transport with Sync => "sync" | Loopback => "loopback" | Peer => "peer" end.

Record TerminalToken := mkTerminalToken {
  socket_generation : Z;
  process_epoch : string;
  domain_generation : Z;
  transport : TerminalTransport;
  token_worker_fp : option string;
}.

#[global] Instance TerminalToken_eq_dec : EqDecision TerminalToken.
Proof. solve_decision. Defined.

Definition token_key (token : TerminalToken) : string :=
  pretty (socket_generation token) +:+ "|" +:+ process_epoch token +:+ "|"
  +:+ pretty (domain_generation token) +:+ "|" +:+ transport_as_str (transport token) +:+ "|"
  +:+ default EmptyString (token_worker_fp token).

Definition view_answer_generation (token : TerminalToken) : Z :=
  match transport token with
  | Sync => domain_generation token
  | Loopback | Peer => socket_generation token
  end.

(** [TerminalToken::sync]; the socket id it takes is not kept. *)
Definition sync_token (socket_generation : Z) (process_epoch : string) (domain_generation : Z) : TerminalToken :=
  mkTerminalToken socket_generation process_epoch domain_generation Sync None.

(** [TerminalToken::direct]. *)
Definition direct_token (socket_generation : Z) (transport : TerminalTransport) (worker_fp process_epoch : string)
    (domain_generation : Z) : TerminalToken :=
  mkTerminalToken socket_generation process_epoch domain_generation transport (Some worker_fp).

(** [TerminalToken::matches] and [token_matches]: no token matches none. *)
Definition token_matches (a b : option TerminalToken) : bool :=
  match a, b with Some a, Some b => bool_decide (a = b) | _, _ => false end.

Definition same_connection (a b : TerminalToken) : bool :=
  (socket_generation a =? socket_generation b) && bool_decide (process_epoch a = process_epoch b)
  && bool_decide (transport a = transport b) && bool_decide (token_worker_fp a = token_worker_fp b).

Lemma same_connection_refl token : same_connection token token = true.
Proof. unfold same_connection. by rewrite Z.eqb_refl, !bool_decide_eq_true_2. Qed.
