(* ===== verification/TerminalReplica.v ===== *)
(** * TerminalReplica: one session's replica in a client

    Models [src/crates/roost-client-core/src/terminal]: [repair.rs],
    [renderer_deliveries.rs], [idle_probe.rs], [liveness.rs],
    [session_liveness.rs], [view.rs], [session_views.rs], [session.rs],
    [session_wire.rs], [frame_counts.rs] and [resync_position.rs].  A replica is
    a value; the log lines are left out.  A reason the code formats for a log is
    the fact it formats. *)
From Stdlib Require Import Ascii String.
From S2P Require Export TerminalToken FrameFold.

(** ** The repair latch ([repair.rs]) *)

Definition TERMINAL_VIEW_HEARTBEAT_MS : Z := 5000.

(** Why a frame was not admitted. *)
Inductive RefuseReason :=
| FenceGeneration
| FenceStream
| SessionMismatch
| WireFault (refusal : WireRefusal)
| FoldFault (failure : FrameFoldFailure)
| MissingPartFault
| ChunkFault (code : CellGridChunkErrorCode)
| SnapshotStalledFault.

Record RepairLatch := mkRepairLatch {
  latched : bool;
  latched_at_ms : Z;
  latch_token : option TerminalToken;
  sent_key : option string;
  sent_at_ms : Z;
  latch_reason : option RefuseReason;
}.

Definition RepairLatch_new : RepairLatch := mkRepairLatch false 0 None None 0 None.

Definition latch (l : RepairLatch) (reason : RefuseReason) (token : TerminalToken) (now_ms : Z) :
    RepairLatch * bool :=
  if latched l then (l, false)
  else (mkRepairLatch true now_ms (Some token) (sent_key l) (sent_at_ms l) (Some reason), true).

Definition should_send (l : RepairLatch) (current : option TerminalToken) (now_ms : Z) : bool :=
  if negb (latched l) then false
  else
    match latch_token l, current with
    | Some held, Some current =>
        if bool_decide (held <> current) then false
        else
          match sent_key l with
          | Some key =>
              if String.eqb key (token_key current)
              then TERMINAL_VIEW_HEARTBEAT_MS <=? saturating_sub now_ms (sent_at_ms l)
              else true
          | None => true
          end
    | _, _ => false
    end.

Definition record_sent (l : RepairLatch) (token : TerminalToken) (now_ms : Z) : RepairLatch :=
  mkRepairLatch (latched l) (latched_at_ms l) (latch_token l) (Some (token_key token)) now_ms
    (latch_reason l).

(** ** What renderers are owed ([renderer_deliveries.rs]) *)

Definition MAX_PENDING_DELTA_FRAMES : Z := 64.
Definition MAX_PENDING_SCROLLBACK_ROWS : Z := 250.
Definition MAX_PENDING_DELTA_SPANS : Z := 65536.

Record RendererDeliveries := mkRendererDeliveries {
  revision : Z;
  base_revision : Z;
  deltas : list CellGridFrame;
  appended_rows : Z;
  delivery_spans : Z;
}.

Definition RendererDeliveries_default : RendererDeliveries := mkRendererDeliveries 0 0 [] 0 0.

Definition delta_spans (delta : CellGridFrame) : Z :=
  foldr (fun row n => len (row_spans row) + n) 0
    (f_viewport_rows delta ++ f_scrollback_append delta).

Definition deliveries_clear (d : RendererDeliveries) : RendererDeliveries :=
  mkRendererDeliveries (revision d) (revision d) [] 0 0.

Definition note_full (d : RendererDeliveries) : RendererDeliveries :=
  deliveries_clear
    (mkRendererDeliveries (revision d + 1) (base_revision d) (deltas d) (appended_rows d)
       (delivery_spans d)).

Definition deliveries_begin_promotion_after (d : RendererDeliveries) (previous_revision : Z) :
    RendererDeliveries :=
  deliveries_clear
    (mkRendererDeliveries (Z.max (revision d) previous_revision + 1) (base_revision d) (deltas d)
       (appended_rows d) (delivery_spans d)).

(** The eviction loop: the deltas left, their rows and spans, how many left. *)
Fixpoint evict_deltas (held : list CellGridFrame) (rows spans evicted : Z) :
    list CellGridFrame * Z * Z * Z :=
  match held with
  | [] => ([], rows, spans, evicted)
  | oldest :: rest =>
      if (MAX_PENDING_DELTA_FRAMES <? len held) || (MAX_PENDING_SCROLLBACK_ROWS <? rows)
         || (MAX_PENDING_DELTA_SPANS <? spans)
      then evict_deltas rest (rows - len (f_scrollback_append oldest)) (spans - delta_spans oldest)
             (evicted + 1)
      else (held, rows, spans, evicted)
  end.

Definition note_delta (d : RendererDeliveries) (delta : CellGridFrame) : RendererDeliveries :=
  let d := mkRendererDeliveries (revision d + 1) (base_revision d) (deltas d) (appended_rows d)
             (delivery_spans d) in
  let rows := len (f_scrollback_append delta) in
  let spans := delta_spans delta in
  if (MAX_PENDING_SCROLLBACK_ROWS <? rows) || (MAX_PENDING_DELTA_SPANS <? spans)
  then deliveries_clear d
  else
    let '(held, rows, spans, evicted) :=
      evict_deltas (deltas d ++ [delta]) (appended_rows d + rows) (delivery_spans d + spans) 0 in
    mkRendererDeliveries (revision d) (base_revision d + evicted) held rows spans.

Definition deltas_since (d : RendererDeliveries) (painted_revision : Z) :
    option (list CellGridFrame) :=
  if painted_revision <? base_revision d then None
  else
    let offset := painted_revision - base_revision d in
    if len (deltas d) <? offset then None else Some (drop (Z.to_nat offset) (deltas d)).

(** ** The idle probe and the watchdog's state ([idle_probe.rs], [liveness.rs]) *)

Definition TERMINAL_FOREGROUND_IDLE_PROBE_MS : Z := 5000.
Definition TERMINAL_FOREGROUND_IDLE_PROBE_MAX_MS : Z := 30000.
Definition TERMINAL_FOREGROUND_PROBE_DEADLINE_MS : Z := 3000.
Definition MAX_DOUBLINGS : Z := 8.

Record IdleProbe := mkIdleProbe { proved_idle_streak : Z; anchor_ms : option Z }.

Definition backed_off_interval_ms (probe : IdleProbe) : Z :=
  Z.min
    (Z.min (2 ^ 64 - 1)
       (TERMINAL_FOREGROUND_IDLE_PROBE_MS
        * Z.shiftl 1 (Z.min (proved_idle_streak probe) MAX_DOUBLINGS)))
    TERMINAL_FOREGROUND_IDLE_PROBE_MAX_MS.

Definition probe_anchor (probe : IdleProbe) (anchor interval_ms : Z) : IdleProbe * Z :=
  (mkIdleProbe (proved_idle_streak probe) (Some anchor), saturating_add64 anchor interval_ms).

Inductive RepairOutcome :=
| OutcomeNone | Requested | Proved | Escalated | Inactive | GenerationReset | StreamReplaced
| Disposed.

Record ForegroundLiveness := mkForegroundLiveness {
  quiet_due_ms : option Z;
  owner : option TerminalToken;
  proof_due_ms : option Z;
  challenged_at_ms : option Z;
  challenge_generation : option TerminalToken;
  challenge_stream_id : option string;
  challenge_seq : option Z;
  repair_attempts : Z;
  outcome : RepairOutcome;
  rearm_reported : bool;
  last_accepted_at_ms : option Z;
  idle_probe : IdleProbe;
}.

Definition ForegroundLiveness_new : ForegroundLiveness :=
  mkForegroundLiveness None None None None None None None 0 OutcomeNone false None
    (mkIdleProbe 0 None).

Definition quiet_expiry_due (l : ForegroundLiveness) (now_ms : Z) : bool :=
  match quiet_due_ms l with Some due => due <=? now_ms | None => false end.

Definition proof_expiry_due (l : ForegroundLiveness) (now_ms : Z) : bool :=
  match proof_due_ms l with Some due => due <=? now_ms | None => false end.

(** The quiet probe's fields. *)
Definition with_quiet (l : ForegroundLiveness) (due : option Z) (who : option TerminalToken)
    (last : option Z) (probe : IdleProbe) : ForegroundLiveness :=
  mkForegroundLiveness due who (proof_due_ms l) (challenged_at_ms l) (challenge_generation l)
    (challenge_stream_id l) (challenge_seq l) (repair_attempts l) (outcome l) (rearm_reported l)
    last probe.

(** The challenge's fields. *)
Definition with_challenge (l : ForegroundLiveness) (proof_due at_ms : option Z)
    (generation : option TerminalToken) (stream_id : option string) (seq : option Z) :
    ForegroundLiveness :=
  mkForegroundLiveness (quiet_due_ms l) (owner l) proof_due at_ms generation stream_id seq
    (repair_attempts l) (outcome l) (rearm_reported l) (last_accepted_at_ms l) (idle_probe l).

(** The diagnostic fields. *)
Definition with_outcome (l : ForegroundLiveness) (attempts : Z) (why : RepairOutcome)
    (reported : bool) (probe : IdleProbe) : ForegroundLiveness :=
  mkForegroundLiveness (quiet_due_ms l) (owner l) (proof_due_ms l) (challenged_at_ms l)
    (challenge_generation l) (challenge_stream_id l) (challenge_seq l) attempts why reported
    (last_accepted_at_ms l) probe.

Definition arm_quiet (l : ForegroundLiveness) (who : TerminalToken) (anchor : Z) :
    ForegroundLiveness :=
  let '(probe, due) := probe_anchor (idle_probe l) anchor (backed_off_interval_ms (idle_probe l)) in
  with_quiet l (Some due) (Some who) (Some anchor) probe.

Definition rearm_quiet (l : ForegroundLiveness) (who : TerminalToken) (now_ms : Z) :
    ForegroundLiveness :=
  let '(probe, due) := probe_anchor (idle_probe l) now_ms TERMINAL_FOREGROUND_IDLE_PROBE_MS in
  with_quiet l (Some due) (Some who) (last_accepted_at_ms l) probe.

Definition arm_quiet_if_unarmed (l : ForegroundLiveness) (who : TerminalToken) (now_ms : Z) :
    ForegroundLiveness :=
  match quiet_due_ms l with Some _ => l | None => rearm_quiet l who now_ms end.

Definition take_quiet (l : ForegroundLiveness) : ForegroundLiveness * option Z :=
  (with_quiet l None (owner l) (last_accepted_at_ms l)
     (mkIdleProbe (proved_idle_streak (idle_probe l)) None),
   anchor_ms (idle_probe l)).

Definition has_pending_challenge (l : ForegroundLiveness) (who : TerminalToken) : bool :=
  bool_decide (is_Some (challenged_at_ms l)) && bool_decide (challenge_generation l = Some who).

Definition proof_deadline (challenged_at : Z) : option Z :=
  Some (saturating_add64 challenged_at TERMINAL_FOREGROUND_PROBE_DEADLINE_MS).

Definition saturating_add32 (a b : Z) : Z := Z.min (2 ^ 32 - 1) (a + b).

Definition begin_challenge (l : ForegroundLiveness) (who : TerminalToken) (stream_id : string)
    (seq now_ms : Z) : ForegroundLiveness :=
  with_outcome
    (with_challenge l (proof_deadline now_ms) (Some now_ms) (Some who) (Some stream_id) (Some seq))
    (saturating_add32 (repair_attempts l) 1) Requested false (idle_probe l).

Definition rearm_proof (l : ForegroundLiveness) (now_ms : Z) : ForegroundLiveness :=
  match challenged_at_ms l with
  | None => l
  | Some _ =>
      with_outcome
        (with_challenge l (proof_deadline now_ms) (Some now_ms) (challenge_generation l)
           (challenge_stream_id l) (challenge_seq l))
        (saturating_add32 (repair_attempts l) 1) Requested (rearm_reported l) (idle_probe l)
  end.

Definition proves (l : ForegroundLiveness) (who : TerminalToken) (stream_id : string) (seq : Z) :
    bool :=
  has_pending_challenge l who && bool_decide (challenge_stream_id l = Some stream_id)
  && (default 0 (challenge_seq l) <? seq).

Definition clear_challenge (l : ForegroundLiveness) : ForegroundLiveness :=
  with_challenge l None None None None None.

Definition note_proved (l : ForegroundLiveness) : ForegroundLiveness :=
  with_outcome (clear_challenge l) (repair_attempts l) Proved (rearm_reported l)
    (mkIdleProbe (saturating_add32 (proved_idle_streak (idle_probe l)) 1) (anchor_ms (idle_probe l))).

Definition note_output (l : ForegroundLiveness) : ForegroundLiveness :=
  with_outcome l (repair_attempts l) (outcome l) (rearm_reported l)
    (mkIdleProbe 0 (anchor_ms (idle_probe l))).

Definition chunk_arrives (l : ForegroundLiveness) (who : TerminalToken) (stream_id : string)
    (seq : Z) : bool :=
  has_pending_challenge l who && bool_decide (challenge_stream_id l = Some stream_id)
  && (default 0 (challenge_seq l) <=? seq).

Definition clear_proof (l : ForegroundLiveness) : ForegroundLiveness :=
  with_challenge l None (challenged_at_ms l) (challenge_generation l) (challenge_stream_id l)
    (challenge_seq l).

Definition mark_escalated (l : ForegroundLiveness) : ForegroundLiveness :=
  with_outcome (clear_challenge l) (repair_attempts l) Escalated (rearm_reported l) (idle_probe l).

Definition claim_rearm_episode (l : ForegroundLiveness) : ForegroundLiveness * bool :=
  if rearm_reported l then (l, false)
  else (with_outcome l (repair_attempts l) (outcome l) true (idle_probe l), true).

Definition retire (l : ForegroundLiveness) (why : RepairOutcome) : ForegroundLiveness :=
  with_outcome (clear_challenge (with_quiet l None None None (idle_probe l))) 0 why false
    (mkIdleProbe 0 None).

(** ** Views ([view.rs]) *)

Inductive ViewIntent :=
| Publish (pub_cols pub_rows : Z)
| Park
| Unpublish.

#[global] Instance ViewIntent_eq_dec : EqDecision ViewIntent.
Proof. solve_decision. Defined.

Record ViewStateResult := mkViewStateResult {
  vr_session_id : string;
  vr_view_id : string;
  vr_generation : Z;
  vr_revision : Z;
  vr_accepted : bool;
  vr_stream_id : option string;
  vr_effective_cols : Z;
  vr_effective_rows : Z;
}.

Record ViewAnswer := mkViewAnswer { va_revision : Z; va_accepted : bool }.

Record TerminalView := mkTerminalView {
  tv_view_id : string;
  tv_wire_view_id : string;
  tv_cols : Z;
  tv_rows : Z;
  tv_intent : ViewIntent;
  tv_revision : Z;
  tv_unacknowledged : option Z;
  tv_published_at_ms : Z;
  tv_acknowledged_at_ms : Z;
  tv_counted : bool;
  tv_answer : option ViewAnswer;
}.

Definition published_as (view_id wire_view_id : string) (intent : ViewIntent)
    (revision now_ms : Z) : TerminalView :=
  let '(c, r) := match intent with Publish c r => (c, r) | Park | Unpublish => (0, 0) end in
  mkTerminalView view_id wire_view_id c r intent revision None now_ms 0 false None.

Definition opened (view_id : string) (c r : Z) : TerminalView :=
  published_as view_id view_id (Publish c r) 1 0.

Definition adopt_wire_view_id (view : TerminalView) (wire_view_id : string) : TerminalView :=
  if String.eqb (tv_wire_view_id view) wire_view_id then view
  else mkTerminalView (tv_view_id view) wire_view_id (tv_cols view) (tv_rows view) (tv_intent view)
         (tv_revision view) None 0 0 false None.

Definition view_resize (view : TerminalView) (c r : Z) : TerminalView * bool :=
  if (tv_cols view =? c) && (tv_rows view =? r) then (view, false)
  else
    (mkTerminalView (tv_view_id view) (tv_wire_view_id view) c r (Publish c r)
       (tv_revision view + 1) (tv_unacknowledged view) (tv_published_at_ms view)
       (tv_acknowledged_at_ms view) (tv_counted view) (tv_answer view), true).

Definition park (view : TerminalView) : TerminalView :=
  let changed := bool_decide (tv_intent view <> Park) in
  mkTerminalView (tv_view_id view) (tv_wire_view_id view) (tv_cols view) (tv_rows view)
    (if changed then Park else tv_intent view)
    (if changed then tv_revision view + 1 else tv_revision view) (tv_unacknowledged view)
    (tv_published_at_ms view) (tv_acknowledged_at_ms view) false (tv_answer view).

(** [retire]: the view is being removed; the revision its removal goes out under. *)
Definition view_retire (view : TerminalView) : Z := tv_revision view + 1.

Definition heartbeat_due (view : TerminalView) (now_ms : Z) : bool :=
  TERMINAL_VIEW_HEARTBEAT_MS <=? saturating_sub now_ms (tv_published_at_ms view).

Definition lease_expired (view : TerminalView) (now_ms : Z) : bool :=
  TERMINAL_VIEW_LEASE_MS <=? saturating_sub now_ms (tv_acknowledged_at_ms view).

Definition mark_published (view : TerminalView) (generation now_ms : Z) : TerminalView :=
  mkTerminalView (tv_view_id view) (tv_wire_view_id view) (tv_cols view) (tv_rows view)
    (tv_intent view) (tv_revision view) (Some generation) now_ms (tv_acknowledged_at_ms view)
    (tv_counted view) (tv_answer view).

Definition acknowledge (view : TerminalView) (generation now_ms : Z) : TerminalView * bool :=
  if bool_decide (tv_unacknowledged view <> Some generation) then (view, false)
  else
    (mkTerminalView (tv_view_id view) (tv_wire_view_id view) (tv_cols view) (tv_rows view)
       (tv_intent view) (tv_revision view) None (tv_published_at_ms view) now_ms true
       (tv_answer view), true).

Definition with_answer (view : TerminalView) (answer : ViewAnswer) : TerminalView :=
  mkTerminalView (tv_view_id view) (tv_wire_view_id view) (tv_cols view) (tv_rows view)
    (tv_intent view) (tv_revision view) (tv_unacknowledged view) (tv_published_at_ms view)
    (tv_acknowledged_at_ms view) (tv_counted view) (Some answer).

(** ** The session ([session.rs]) *)

Record FrameCounts := mkFrameCounts {
  frames : Z;
  full_frames : Z;
  last_full_scrollback_rows : option Z;
  counts_grid_epoch : string;
}.

Definition note_decoded (counts : FrameCounts) (frame : CellGridFrame) : FrameCounts :=
  mkFrameCounts (frames counts + 1)
    (if f_full frame then full_frames counts + 1 else full_frames counts)
    (if f_full frame then Some (len (f_scrollback_rows frame)) else last_full_scrollback_rows counts)
    (f_grid_epoch frame).

(** The wire record: stream, epoch and sequence last seen. *)
Record WireRecord := mkWireRecord {
  wire_stream_id : option string;
  wire_grid_epoch : option string;
  wire_seq : option Z;
}.

Record TerminalSession := mkTerminalSession {
  ts_session_id : string;
  ts_worker_fp : string;
  target : FoldTarget;
  assembler : CellGridChunkAssembler;
  repair : RepairLatch;
  generation : option TerminalToken;
  views : gmap string TerminalView;
  wire : WireRecord;
  frame_counts : FrameCounts;
  deliveries : RendererDeliveries;
  liveness : ForegroundLiveness;
}.

Definition TerminalSession_new (session_id worker_fp : string) : TerminalSession :=
  mkTerminalSession session_id worker_fp FoldTarget_default None RepairLatch_new None ∅
    (mkWireRecord None None None) (mkFrameCounts 0 0 None EmptyString) RendererDeliveries_default
    ForegroundLiveness_new.

Definition with_target (s : TerminalSession) (t : FoldTarget) : TerminalSession :=
  mkTerminalSession (ts_session_id s) (ts_worker_fp s) t (assembler s) (repair s) (generation s)
    (views s) (wire s) (frame_counts s) (deliveries s) (liveness s).
Definition with_assembler (s : TerminalSession) (a : CellGridChunkAssembler) : TerminalSession :=
  mkTerminalSession (ts_session_id s) (ts_worker_fp s) (target s) a (repair s) (generation s)
    (views s) (wire s) (frame_counts s) (deliveries s) (liveness s).
Definition with_repair (s : TerminalSession) (l : RepairLatch) : TerminalSession :=
  mkTerminalSession (ts_session_id s) (ts_worker_fp s) (target s) (assembler s) l (generation s)
    (views s) (wire s) (frame_counts s) (deliveries s) (liveness s).
Definition with_generation (s : TerminalSession) (g : option TerminalToken) : TerminalSession :=
  mkTerminalSession (ts_session_id s) (ts_worker_fp s) (target s) (assembler s) (repair s) g
    (views s) (wire s) (frame_counts s) (deliveries s) (liveness s).
Definition with_views (s : TerminalSession) (v : gmap string TerminalView) : TerminalSession :=
  mkTerminalSession (ts_session_id s) (ts_worker_fp s) (target s) (assembler s) (repair s)
    (generation s) v (wire s) (frame_counts s) (deliveries s) (liveness s).
Definition with_wire (s : TerminalSession) (w : WireRecord) : TerminalSession :=
  mkTerminalSession (ts_session_id s) (ts_worker_fp s) (target s) (assembler s) (repair s)
    (generation s) (views s) w (frame_counts s) (deliveries s) (liveness s).
Definition with_frame_counts (s : TerminalSession) (c : FrameCounts) : TerminalSession :=
  mkTerminalSession (ts_session_id s) (ts_worker_fp s) (target s) (assembler s) (repair s)
    (generation s) (views s) (wire s) c (deliveries s) (liveness s).
Definition with_deliveries (s : TerminalSession) (d : RendererDeliveries) : TerminalSession :=
  mkTerminalSession (ts_session_id s) (ts_worker_fp s) (target s) (assembler s) (repair s)
    (generation s) (views s) (wire s) (frame_counts s) d (liveness s).
Definition with_liveness (s : TerminalSession) (l : ForegroundLiveness) : TerminalSession :=
  mkTerminalSession (ts_session_id s) (ts_worker_fp s) (target s) (assembler s) (repair s)
    (generation s) (views s) (wire s) (frame_counts s) (deliveries s) l.

Definition session_deltas_since (s : TerminalSession) (painted_revision : Z) :
    option (list CellGridFrame) := deltas_since (deliveries s) painted_revision.

Definition begin_promotion_after (s : TerminalSession) (previous_revision : Z) : TerminalSession :=
  with_deliveries s (deliveries_begin_promotion_after (deliveries s) previous_revision).

Definition bind_generation (s : TerminalSession) (token : TerminalToken) : TerminalSession * bool :=
  if bool_decide (generation s = Some token) then (s, false)
  else (with_generation s (Some token), true).

Definition release_generation (s : TerminalSession) : TerminalSession * option TerminalToken :=
  (with_generation s None, generation s).

Definition install_expected_stream (s : TerminalSession) (stream_id : string) (c r : Z) :
    TerminalSession * bool :=
  let t := target s in
  let prior := baseline_ready t in
  let stream_changed := bool_decide (expected_stream_id t <> Some stream_id) in
  if negb stream_changed && (effective_cols t =? c) && (effective_rows t =? r) then (s, false)
  else
    let ready :=
      if stream_changed then false
      else
        match canonical t with
        | Some frame =>
            String.eqb (f_stream_id frame) stream_id && (f_cols frame =? c) && (f_rows frame =? r)
        | None => false
        end in
    let t' := mkFoldTarget (Some stream_id) c r (canonical t) ready (canonical_chunk_in_flight t) in
    let s' := with_target s t' in
    (if stream_changed then with_repair (with_assembler s' None) RepairLatch_new else s',
     negb (Bool.eqb prior ready)).

(** ** The watchdog's hooks ([session_liveness.rs]) *)

(** A [BTreeMap]'s values, in the order of its keys. *)
Definition view_values (s : TerminalSession) : list TerminalView :=
  omap (fun key => views s !! key) (btree (dom (views s))).

Definition is_publish (view : TerminalView) : bool :=
  match tv_intent view with Publish _ _ => true | Park | Unpublish => false end.

Definition foreground_view (s : TerminalSession) : option TerminalView :=
  List.find is_publish (view_values s).

Definition arm_quiet_probe (s : TerminalSession) (token : TerminalToken) (now_ms : Z) :
    TerminalSession :=
  if bool_decide (generation s <> Some token) || negb (baseline_ready (target s))
     || bool_decide (foreground_view s = None)
  then s
  else with_liveness s (arm_quiet (liveness s) token now_ms).

Definition note_accepted_frame (s : TerminalSession) (token : TerminalToken) (now_ms : Z) :
    TerminalSession :=
  if bool_decide (generation s <> Some token) || negb (baseline_ready (target s)) then s
  else
    match canonical (target s) with
    | None => s
    | Some frame =>
        let l := liveness s in
        let l :=
          if proves l token (f_stream_id frame) (f_seq frame) then note_proved l
          else if negb (has_pending_challenge l token) then note_output l
          else l in
        arm_quiet_probe (with_liveness s l) token now_ms
    end.

Definition note_chunk_progress (s : TerminalSession) (token : TerminalToken) (stream_id : string)
    (seq : Z) : TerminalSession :=
  if bool_decide (generation s <> Some token) then s
  else if chunk_arrives (liveness s) token stream_id seq
       then with_liveness s (clear_proof (liveness s)) else s.

Definition begin_scoped_repair (s : TerminalSession) (who : TerminalToken) (now_ms : Z) :
    TerminalSession :=
  if bool_decide (generation s <> Some who) then s
  else
    match expected_stream_id (target s) with
    | None => s
    | Some stream_id =>
        let seq :=
          match canonical (target s) with
          | Some frame => if String.eqb (f_stream_id frame) stream_id then f_seq frame else 0
          | None => 0
          end in
        if has_pending_challenge (liveness s) who
        then with_liveness s (rearm_proof (liveness s) now_ms)
        else with_liveness s (begin_challenge (liveness s) who stream_id seq now_ms)
    end.

(** ** Admission *)

Inductive Admission :=
| Refused (reason : RefuseReason) (latched_now : bool)
| BaselineReplaced
| DeltaApplied
| ChunkPending.

Definition refuse_frame (s : TerminalSession) (reason : RefuseReason) (token : TerminalToken)
    (now_ms : Z) : TerminalSession * Admission :=
  let '(l, latched_now) := latch (repair s) reason token now_ms in
  let s := with_repair s l in
  let s :=
    if latched_now
    then with_target (with_assembler s None) (with_chunk_in_flight (target s) false) else s in
  (s, Refused reason latched_now).

Definition note_wire (s : TerminalSession) (stream_id grid_epoch : string) (seq : Z) :
    TerminalSession :=
  with_wire s (mkWireRecord (Some stream_id) (Some grid_epoch) (Some seq)).

Definition admit_decoded (s : TerminalSession) (decoded : CellGridFrame) (token : TerminalToken)
    (now_ms : Z) : TerminalSession * Admission :=
  let s := with_frame_counts s (note_decoded (frame_counts s) decoded) in
  let in_flight := bool_decide (is_Some (active_snapshot_id (assembler s))) in
  let '(t, outcome) := fold (with_chunk_in_flight (target s) in_flight) decoded in
  let s := with_target s t in
  match outcome with
  | FoldInvalid reason => refuse_frame s (FoldFault reason) token now_ms
  | FoldedFull =>
      let s := with_assembler (with_repair s RepairLatch_new) None in
      let s := with_target s (with_chunk_in_flight (target s) false) in
      let s := with_deliveries s (note_full (deliveries s)) in
      (note_accepted_frame s token now_ms, BaselineReplaced)
  | FoldedDelta delta =>
      let s := with_deliveries s (note_delta (deliveries s) delta) in
      (note_accepted_frame s token now_ms, DeltaApplied)
  end.

Section admission.
Context `{WireSizes}.

Definition admit_frame (s : TerminalSession) (frame : PbCellGridFrame) (assembled : bool)
    (token : TerminalToken) (now_ms : Z) : TerminalSession * Admission :=
  if bool_decide (generation s <> Some token) then (s, Refused FenceGeneration false)
  else if negb (String.eqb (pb_session_id frame) (ts_session_id s)) then
    refuse_frame s SessionMismatch token now_ms
  else if bool_decide (Some (pb_stream_id frame) <> expected_stream_id (target s)) then
    (s, Refused FenceStream false)
  else
    let s := note_wire s (pb_stream_id frame) (pb_grid_epoch frame) (pb_seq frame) in
    match decode_wire_frame frame assembled with
    | Ok decoded => admit_decoded s decoded token now_ms
    | Err reason => refuse_frame s (WireFault reason) token now_ms
    end.

Definition admit_chunk (s : TerminalSession) (chunk : PbCellGridChunk) (token : TerminalToken)
    (now_ms : Z) : TerminalSession * Admission :=
  if bool_decide (generation s <> Some token) then (s, Refused FenceGeneration false)
  else
    match ch_part chunk with
    | None => refuse_frame s MissingPartFault token now_ms
    | Some part =>
        if negb (String.eqb (pb_session_id part) (ts_session_id s)) then
          refuse_frame s SessionMismatch token now_ms
        else if bool_decide (Some (pb_stream_id part) <> expected_stream_id (target s)) then
          (s, Refused FenceStream false)
        else
          let s := note_chunk_progress s token (pb_stream_id part) (pb_seq part) in
          let s := note_wire s (pb_stream_id part) (pb_grid_epoch part) (pb_seq part) in
          let '(a, answer) := push (assembler s) chunk now_ms in
          let s := with_assembler s a in
          match answer with
          | Ok (Pending _ _) =>
              (with_target s (with_chunk_in_flight (target s) true), ChunkPending)
          | Ok (Complete _ frame) =>
              let s := with_target s (with_chunk_in_flight (target s) false) in
              match decode_assembled_frame frame with
              | Ok decoded => admit_decoded s decoded token now_ms
              | Err reason => refuse_frame s (WireFault reason) token now_ms
              end
          | Err code =>
              let s := with_target s (with_chunk_in_flight (target s) false) in
              refuse_frame s (ChunkFault code) token now_ms
          end
    end.
End admission.

(** [sweep]: drop a stalled partial. *)
Definition session_sweep (s : TerminalSession) (now_ms : Z) : TerminalSession * bool :=
  let '(a, expired) := expire (assembler s) now_ms in
  let s := with_assembler s a in
  if negb expired then (s, false)
  else
    let s := with_target s (with_chunk_in_flight (target s) false) in
    match latch_token (repair s) with
    | Some token => (fst (refuse_frame s SnapshotStalledFault token now_ms), true)
    | None => (with_assembler s None, true)
    end.

Definition repair_due (s : TerminalSession) (token : TerminalToken) (now_ms : Z) : bool :=
  should_send (repair s) (Some token) now_ms.

Definition mark_repair_sent (s : TerminalSession) (token : TerminalToken) (now_ms : Z) :
    TerminalSession := with_repair s (record_sent (repair s) token now_ms).

Record ResyncPosition := mkResyncPosition {
  rp_stream_id : string;
  rp_grid_epoch : string;
  rp_seq : Z;
}.

Definition resync_position (s : TerminalSession) : option ResyncPosition :=
  (fun stream_id =>
     mkResyncPosition stream_id (default EmptyString (f_grid_epoch <$> canonical (target s)))
       (default 0 (f_seq <$> canonical (target s)))) <$> expected_stream_id (target s).

(** ** Its views ([session_views.rs]) *)

Definition open_view (s : TerminalSession) (view_id : string) (c r : Z) : TerminalSession :=
  let view := opened view_id c r in
  match views s !! view_id with
  | Some previous =>
      if bool_decide (tv_intent previous = tv_intent view) then s
      else
        with_views s
          (<[view_id :=
               mkTerminalView view_id view_id c r (tv_intent view) (tv_revision previous + 1) None 0
                 0 false None]> (views s))
  | None => with_views s (<[view_id := view]> (views s))
  end.

Definition resize_view (s : TerminalSession) (view_id : string) (c r : Z) : TerminalSession * bool :=
  match views s !! view_id with
  | Some view =>
      let '(view, changed) := view_resize view c r in
      (with_views s (<[view_id := view]> (views s)), changed)
  | None => (s, false)
  end.

Definition hide_view (s : TerminalSession) (view_id : string) : TerminalSession :=
  match views s !! view_id with
  | Some view => with_views s (<[view_id := park view]> (views s))
  | None => s
  end.

Definition close_view (s : TerminalSession) (view_id : string) : TerminalSession * option Z :=
  (with_views s (delete view_id (views s)), view_retire <$> views s !! view_id).

Definition repair_view (s : TerminalSession) : option TerminalView :=
  match List.find tv_counted (view_values s) with
  | Some view => Some view
  | None => head (view_values s)
  end.

Definition open_prospective_view (s : TerminalSession) (logical_view_id wire_view_id : string)
    (intent : ViewIntent) (revision now_ms : Z) : TerminalSession :=
  with_views s
    (<[logical_view_id := published_as logical_view_id wire_view_id intent revision now_ms]> (views s)).

Definition mark_view_published (s : TerminalSession) (view_id : string) (generation now_ms : Z) :
    TerminalSession :=
  match views s !! view_id with
  | Some view => with_views s (<[view_id := mark_published view generation now_ms]> (views s))
  | None => s
  end.

Inductive ViewStateAdmission :=
| ViewStale
| ViewRefused
| ViewAccepted (stream_id : option string).

Definition apply_view_state (s : TerminalSession) (answer : ViewStateResult) (now_ms : Z) :
    TerminalSession * ViewStateAdmission :=
  if negb (String.eqb (vr_session_id answer) (ts_session_id s)) then (s, ViewStale)
  else
    let own_generation := view_answer_generation <$> generation s in
    match views s !! vr_view_id answer with
    | None => (s, ViewStale)
    | Some view =>
        let '(view, awaited) := acknowledge view (vr_generation answer) now_ms in
        let broadcast :=
          negb awaited && (vr_revision answer =? tv_revision view)
          && bool_decide (own_generation = Some (vr_generation answer)) in
        let s := with_views s (<[vr_view_id answer := view]> (views s)) in
        if negb awaited && negb broadcast then (s, ViewStale)
        else
          let view := with_answer view (mkViewAnswer (tv_revision view) (vr_accepted answer)) in
          let s := with_views s (<[vr_view_id answer := view]> (views s)) in
          (s, if vr_accepted answer then ViewAccepted (vr_stream_id answer) else ViewRefused)
    end.
