(* ===== verification/ReplicaRuns.v ===== *)
(** * ReplicaRuns: the sweep of one replica, and its whole life

    First the sweep, which models [src/crates/roost-client-core/src/handle_sweep/liveness.rs] and
    [repair.rs] for the session's replica: the foreground watchdog and the
    repair request.  What the sweep reads of the rest of the store is
    [SweepView]: whether the document is visible, the session's publication
    target, whether the Sync link can be replaced, and whether the view's id is
    mid-rotation; replacing the link is an effect.  Then the replica's life as a
    list of operations: the carrier's frames and parts, the authority's
    expectations and answers, the pane's intents, and the sweep, with what each
    preserves.  Arrival times are the caller's clock. *)
From Stdlib Require Import Ascii String.
From S2P Require Export TerminalReplica.

Record SweepView := mkSweepView {
  visible : bool;
  publication_target : option TerminalToken;
  replaceable : bool;
  rotation_pending : bool;
}.

Inductive SweepEffect :=
| SendSyncResync (wire_view_id : string) (position : ResyncPosition) (token : TerminalToken)
| SendDirectResync (wire_view_id : string) (position : ResyncPosition) (token : TerminalToken)
| ReplaceLink.

Inductive Watch :=
| Watched (token : TerminalToken)
| Retire (why : RepairOutcome).

Definition scoped_resync (s : TerminalSession) (token : TerminalToken) : option SweepEffect :=
  view ← repair_view s;
  position ← resync_position s;
  Some (match transport token with
        | Sync => SendSyncResync (tv_wire_view_id view) position token
        | Loopback | Peer => SendDirectResync (tv_wire_view_id view) position token
        end).

Definition elected_owner (env : SweepView) (s : TerminalSession) : option TerminalToken :=
  owner ← generation s;
  if bool_decide (publication_target env = Some owner) then Some owner else None.

Definition unwatchable_reason (s : TerminalSession) : RepairOutcome :=
  if bool_decide (is_Some (generation s)) then GenerationReset else Inactive.

Definition watch (env : SweepView) (s : TerminalSession) : Watch :=
  if bool_decide (foreground_view s = None) then Retire Inactive
  else if bool_decide (is_Some (challenge_stream_id (liveness s)))
          && bool_decide (expected_stream_id (target s) <> challenge_stream_id (liveness s))
  then Retire StreamReplaced
  else
    match elected_owner env s with
    | Some owner => Watched owner
    | None => Retire (unwatchable_reason s)
    end.

Definition retire_replica (s : TerminalSession) (why : RepairOutcome) : TerminalSession :=
  if bool_decide (quiet_due_ms (liveness s) = None)
     && bool_decide (challenged_at_ms (liveness s) = None)
  then s else with_liveness s (retire (liveness s) why).

Definition rearm_replica (s : TerminalSession) (owner : TerminalToken) (now_ms : Z) :
    TerminalSession :=
  with_liveness s (rearm_quiet (liveness s) owner now_ms).

Definition publish_challenge (s : TerminalSession) (owner : TerminalToken) (now_ms : Z) :
    TerminalSession * option SweepEffect :=
  if has_pending_challenge (liveness s) owner then (s, None)
  else
    match scoped_resync s owner with
    | None => (s, None)
    | Some request => (begin_scoped_repair s owner now_ms, Some request)
    end.

Definition probe (env : SweepView) (s : TerminalSession) (now_ms : Z) :
    TerminalSession * list SweepEffect :=
  match watch env s with
  | Retire why => (retire_replica s why, [])
  | Watched owner =>
      let s := with_liveness s (fst (take_quiet (liveness s))) in
      match publish_challenge s owner now_ms with
      | (s, Some request) => (s, [request])
      | (s, None) =>
          let s := with_liveness s (fst (claim_rearm_episode (liveness s))) in
          (rearm_replica s owner now_ms, [])
      end
  end.

Definition escalate (env : SweepView) (s : TerminalSession) (now_ms : Z) :
    TerminalSession * list SweepEffect :=
  match watch env s with
  | Retire why => (retire_replica s why, [])
  | Watched owner =>
      if negb (has_pending_challenge (liveness s) owner) then
        (with_liveness s (clear_proof (liveness s)), [])
      else
        let s := with_liveness s (mark_escalated (liveness s)) in
        if bool_decide (transport owner <> Sync) then (rearm_replica s owner now_ms, [])
        else if negb (replaceable env) then (rearm_replica s owner now_ms, [])
        else (s, [ReplaceLink])
  end.

Definition arm_when_watchable (env : SweepView) (s : TerminalSession) (now_ms : Z) :
    TerminalSession :=
  match elected_owner env s with
  | None => s
  | Some owner =>
      if bool_decide (expected_stream_id (target s) = None)
         || bool_decide (foreground_view s = None)
      then s
      else if has_pending_challenge (liveness s) owner then s
      else with_liveness s (arm_quiet_if_unarmed (liveness s) owner now_ms)
  end.

Definition sweep_foreground_liveness (env : SweepView) (s : TerminalSession) (now_ms : Z) :
    TerminalSession * list SweepEffect :=
  if negb (visible env) then (retire_replica s Inactive, [])
  else
    let proof_due := proof_expiry_due (liveness s) now_ms in
    let quiet_due := quiet_expiry_due (liveness s) now_ms in
    let '(s, out) := if proof_due then escalate env s now_ms else (s, []) in
    let '(s, out') := if quiet_due then probe env s now_ms else (s, []) in
    (arm_when_watchable env s now_ms, out ++ out').

Definition repair_request (s : TerminalSession) (token : TerminalToken) (now_ms : Z) :
    option SweepEffect :=
  if negb (latched (repair s)) || negb (repair_due s token now_ms) then None
  else scoped_resync s token.

Definition request_repair_if_due (env : SweepView) (s : TerminalSession) (now_ms : Z) :
    TerminalSession * list SweepEffect :=
  if rotation_pending env then (s, [])
  else
    match generation s with
    | None => (s, [])
    | Some token =>
        match repair_request s token now_ms with
        | None => (s, [])
        | Some request => (begin_scoped_repair (mark_repair_sent s token now_ms) token now_ms, [request])
        end
    end.

(** ** Every operation on a replica *)

Inductive ReplicaOp :=
| OpBind (token : TerminalToken)
| OpRelease
| OpInstall (stream_id : string) (c r : Z)
| OpFrame (frame : PbCellGridFrame) (assembled : bool) (token : TerminalToken)
| OpChunk (chunk : PbCellGridChunk) (token : TerminalToken)
| OpSweep (env : SweepView)
| OpRepair (env : SweepView)
| OpRetire (why : RepairOutcome)
| OpPromotion (previous_revision : Z)
| OpOpenView (view_id : string) (c r : Z)
| OpProspective (view_id wire_view_id : string) (intent : ViewIntent) (revision : Z)
| OpResizeView (view_id : string) (c r : Z)
| OpHideView (view_id : string)
| OpCloseView (view_id : string)
| OpPublished (view_id : string) (generation : Z)
| OpViewState (answer : ViewStateResult).

(** The store's sweep of one replica: the stalled partial, the due repair, the
    watchdog ([handle_sweep/mod.rs]). *)
Definition sweep_replica (env : SweepView) (s : TerminalSession) (now_ms : Z) :
    TerminalSession * list SweepEffect :=
  let s := fst (session_sweep s now_ms) in
  let '(s, out) := request_repair_if_due env s now_ms in
  let '(s, out') := sweep_foreground_liveness env s now_ms in
  (s, out ++ out').

Definition replica_step `{WireSizes} (s : TerminalSession) (now_ms : Z) (op : ReplicaOp) :
    TerminalSession * list SweepEffect :=
  match op with
  | OpBind token => (fst (bind_generation s token), [])
  | OpRelease => (fst (release_generation s), [])
  | OpInstall stream_id c r => (fst (install_expected_stream s stream_id c r), [])
  | OpFrame frame assembled token => (fst (admit_frame s frame assembled token now_ms), [])
  | OpChunk chunk token => (fst (admit_chunk s chunk token now_ms), [])
  | OpSweep env => sweep_replica env s now_ms
  | OpRepair env => request_repair_if_due env s now_ms
  | OpRetire why => (with_liveness s (retire (liveness s) why), [])
  | OpPromotion previous => (begin_promotion_after s previous, [])
  | OpOpenView view_id c r => (open_view s view_id c r, [])
  | OpProspective view_id wire intent revision =>
      (open_prospective_view s view_id wire intent revision now_ms, [])
  | OpResizeView view_id c r => (fst (resize_view s view_id c r), [])
  | OpHideView view_id => (hide_view s view_id, [])
  | OpCloseView view_id => (fst (close_view s view_id), [])
  | OpPublished view_id generation => (mark_view_published s view_id generation now_ms, [])
  | OpViewState answer => (fst (apply_view_state s answer now_ms), [])
  end.

Fixpoint replica_run `{WireSizes} (s : TerminalSession) (ops : list (Z * ReplicaOp)) :
    TerminalSession * list SweepEffect :=
  match ops with
  | [] => (s, [])
  | (now_ms, op) :: rest =>
      let '(s, out) := replica_step s now_ms op in
      let '(s, out') := replica_run s rest in
      (s, out ++ out')
  end.

Lemma replica_run_app `{WireSizes} s ops ops' :
  fst (replica_run s (ops ++ ops')) = fst (replica_run (fst (replica_run s ops)) ops').
Proof.
  revert s. induction ops as [|[now op] ops IH]; intros s; [done|]. cbn [app replica_run].
  destruct (replica_step s now op) as [s1 out]. specialize (IH s1).
  destruct (replica_run s1 (ops ++ ops')), (replica_run s1 ops). exact IH.
Qed.

(** A message's indexes are unsigned. *)
Definition pb_typed (frame : PbCellGridFrame) : Prop :=
  Forall (fun row => 0 <= pbr_index row) (pb_viewport_rows frame).

Definition op_typed (op : ReplicaOp) : Prop :=
  match op with
  | OpFrame frame _ _ => pb_typed frame
  | OpChunk chunk _ => chunk_typed chunk
  | _ => True
  end.

(** ** What the parts of a replica depend on *)

(** The grid's half of a replica: everything a frame can change that a
    renderer sees. *)
Definition same_grid (s s' : TerminalSession) : Prop :=
  expected_stream_id (target s') = expected_stream_id (target s)
  /\ effective_cols (target s') = effective_cols (target s)
  /\ effective_rows (target s') = effective_rows (target s)
  /\ canonical (target s') = canonical (target s)
  /\ baseline_ready (target s') = baseline_ready (target s)
  /\ deliveries s' = deliveries s.

#[global] Instance same_grid_refl : Reflexive same_grid.
Proof. intros s. by repeat split. Qed.

#[global] Instance same_grid_trans : Transitive same_grid.
Proof.
  intros a b c (?&?&?&?&?&?) (?&?&?&?&?&?). repeat split; etrans; eassumption.
Qed.

(** Splits a goal about a definition's branches, closing the trivial ones. *)
Ltac branches := repeat case_match; simplify_eq; try done; try (by repeat split).

Lemma refuse_frame_grid s reason token now_ms : same_grid s (fst (refuse_frame s reason token now_ms)).
Proof. unfold refuse_frame. destruct (latch _ _ _ _) as [l []]; by repeat split. Qed.

Lemma arm_quiet_probe_grid s token now_ms : same_grid s (arm_quiet_probe s token now_ms).
Proof. unfold arm_quiet_probe. branches. Qed.

Lemma note_accepted_frame_grid s token now_ms : same_grid s (note_accepted_frame s token now_ms).
Proof.
  unfold note_accepted_frame. case_match; [done|].
  destruct (canonical (target s)) eqn:?; [|done].
  etrans; [|apply arm_quiet_probe_grid]. by repeat split.
Qed.

Lemma note_chunk_progress_grid s token stream_id seq :
  same_grid s (note_chunk_progress s token stream_id seq).
Proof. unfold note_chunk_progress. branches. Qed.

Lemma session_sweep_grid s now_ms : same_grid s (fst (session_sweep s now_ms)).
Proof.
  unfold session_sweep. destruct (expire (assembler s) now_ms) as [a []]; [|by repeat split].
  cbn [negb]. case_match; cbn [fst]; [|by repeat split].
  etrans; [|apply refuse_frame_grid]. by repeat split.
Qed.

Lemma begin_scoped_repair_grid s who now_ms : same_grid s (begin_scoped_repair s who now_ms).
Proof. unfold begin_scoped_repair. branches. Qed.

Lemma request_repair_grid env s now_ms : same_grid s (fst (request_repair_if_due env s now_ms)).
Proof.
  unfold request_repair_if_due. case_match; [done|]. destruct (generation s); [|done].
  destruct (repair_request s t now_ms); [|done]. cbn [fst].
  etrans; [|apply begin_scoped_repair_grid]. by repeat split.
Qed.

Lemma retire_replica_grid s why : same_grid s (retire_replica s why).
Proof. unfold retire_replica. branches. Qed.

Lemma probe_grid env s now_ms : same_grid s (fst (probe env s now_ms)).
Proof.
  unfold probe. destruct (watch env s); [|apply retire_replica_grid].
  unfold publish_challenge. branches; cbn [fst]; try (by repeat split).
  etrans; [|apply begin_scoped_repair_grid]. by repeat split.
Qed.

Lemma escalate_grid env s now_ms : same_grid s (fst (escalate env s now_ms)).
Proof.
  unfold escalate. destruct (watch env s); [|apply retire_replica_grid]. branches.
Qed.

Lemma arm_when_watchable_grid env s now_ms : same_grid s (arm_when_watchable env s now_ms).
Proof. unfold arm_when_watchable. branches. Qed.

Lemma sweep_liveness_grid env s now_ms :
  same_grid s (fst (sweep_foreground_liveness env s now_ms)).
Proof.
  unfold sweep_foreground_liveness. case_match; [apply retire_replica_grid|].
  pose proof (escalate_grid env s now_ms) as He.
  destruct (if proof_expiry_due (liveness s) now_ms then escalate env s now_ms else (s, []))
    as [s1 out1] eqn:H1.
  assert (Hg1 : same_grid s s1) by (case_match; [by rewrite H1 in He|by injection H1 as <- _]).
  pose proof (probe_grid env s1 now_ms) as Hp.
  destruct (if quiet_expiry_due (liveness s) now_ms then probe env s1 now_ms else (s1, []))
    as [s2 out2] eqn:H2.
  assert (Hg2 : same_grid s1 s2) by (case_match; [by rewrite H2 in Hp|by injection H2 as <- _]).
  cbn [fst]. etrans; [exact Hg1|]. etrans; [exact Hg2|]. apply arm_when_watchable_grid.
Qed.

Lemma sweep_replica_grid env s now_ms : same_grid s (fst (sweep_replica env s now_ms)).
Proof.
  unfold sweep_replica. pose proof (session_sweep_grid s now_ms) as H0.
  set (s0 := fst (session_sweep s now_ms)) in *.
  pose proof (request_repair_grid env s0 now_ms) as H1.
  destruct (request_repair_if_due env s0 now_ms) as [s1 out]. cbn [fst] in H1.
  pose proof (sweep_liveness_grid env s1 now_ms) as H2.
  destruct (sweep_foreground_liveness env s1 now_ms) as [s2 out']. cbn [fst] in *.
  by etrans; [exact H0|]; etrans; [exact H1|].
Qed.

(** The operations that are not an admission, an expectation or a promotion
    leave the grid alone. *)
Definition grid_op (op : ReplicaOp) : bool :=
  match op with OpInstall _ _ _ | OpFrame _ _ _ | OpChunk _ _ | OpPromotion _ => true | _ => false end.

Lemma replica_step_grid `{WireSizes} s now_ms op :
  grid_op op = false -> same_grid s (fst (replica_step s now_ms op)).
Proof.
  destruct op; cbn [grid_op replica_step fst]; try done; intros _.
  - unfold bind_generation. branches.
  - apply sweep_replica_grid.
  - apply request_repair_grid.
  - unfold open_view. branches.
  - unfold resize_view. branches.
  - unfold hide_view. branches.
  - unfold mark_view_published. branches.
  - unfold apply_view_state. branches.
Qed.

(** ** Admissions *)

(** A frame's effect on the grid: none, a whole baseline, or one delta. *)
Inductive grid_effect (s s' : TerminalSession) : Admission -> Prop :=
| EffectNone a :
    same_grid s s' -> match a with BaselineReplaced | DeltaApplied => False | _ => True end ->
    grid_effect s s' a
| EffectFull frame :
    rows_typed frame -> valid_full (target s) frame = true ->
    full_follows_canonical (canonical (target s)) frame = true ->
    canonical (target s') = Some (normalize_cell_grid_frame frame) ->
    baseline_ready (target s') = true ->
    expected_stream_id (target s') = expected_stream_id (target s) ->
    effective_cols (target s') = effective_cols (target s) ->
    effective_rows (target s') = effective_rows (target s) ->
    deliveries s' = note_full (deliveries s) ->
    grid_effect s s' BaselineReplaced
| EffectDelta delta base grid :
    rows_typed delta -> f_full delta = false ->
    canonical (target s) = Some base -> apply_delta base delta = Some grid ->
    Some (f_stream_id delta) = expected_stream_id (target s) ->
    f_cols delta = effective_cols (target s) -> f_rows delta = effective_rows (target s) ->
    canonical (target s') = Some (normalize_cell_grid_frame grid) ->
    baseline_ready (target s) = true -> baseline_ready (target s') = true ->
    expected_stream_id (target s') = expected_stream_id (target s) ->
    effective_cols (target s') = effective_cols (target s) ->
    effective_rows (target s') = effective_rows (target s) ->
    deliveries s' = note_delta (deliveries s) delta ->
    grid_effect s s' DeltaApplied.

Lemma grid_effect_before s0 s s' a : same_grid s0 s -> grid_effect s s' a -> grid_effect s0 s' a.
Proof.
  intros (E1&E2&E3&E4&E5&E6) [a' Hg Ha|frame|delta base grid].
  - constructor; [|done]. etrans; [|exact Hg]. by repeat split.
  - apply (EffectFull _ _ frame); try congruence.
    + unfold valid_full in *. by rewrite <- E1, <- E2, <- E3.
  - apply (EffectDelta _ _ delta base grid); congruence.
Qed.

Lemma grid_effect_after s s' s'' a : same_grid s' s'' -> grid_effect s s' a -> grid_effect s s'' a.
Proof.
  intros (E1&E2&E3&E4&E5&E6) [a' Hg Ha|frame|delta base grid].
  - constructor; [|done]. etrans; [exact Hg|]. by repeat split.
  - apply (EffectFull _ _ frame); congruence.
  - apply (EffectDelta _ _ delta base grid); congruence.
Qed.

Lemma refuse_frame_effect s0 s reason token now_ms :
  same_grid s0 s ->
  grid_effect s0 (fst (refuse_frame s reason token now_ms)) (snd (refuse_frame s reason token now_ms)).
Proof.
  intros Hg. pose proof (refuse_frame_grid s reason token now_ms) as Hr.
  unfold refuse_frame in *. destruct (latch _ _ _ _) as [l latched_now]. cbn [fst snd] in *.
  apply EffectNone; [|done]. by etrans.
Qed.

Lemma admit_decoded_effect s decoded token now_ms :
  rows_typed decoded ->
  grid_effect s (fst (admit_decoded s decoded token now_ms))
    (snd (admit_decoded s decoded token now_ms)).
Proof.
  intros Htyped. unfold admit_decoded. cbn zeta.
  set (s1 := with_frame_counts s _).
  destruct (fold _ decoded) as [t outcome] eqn:Hfold.
  apply fold_cases in Hfold. destruct outcome as [|delta|failure].
  - destruct Hfold as (_ & Hv & Hf & ->). cbn [fst snd].
    eapply grid_effect_after; [apply note_accepted_frame_grid|].
    by apply (EffectFull _ _ decoded).
  - destruct Hfold as (-> & Hnf & Hb & _ & base & grid & Hc & Ha & _ & Hs & Hcols & Hrows & ->).
    cbn [fst snd]. eapply grid_effect_after; [apply note_accepted_frame_grid|].
    by apply (EffectDelta _ _ decoded base grid).
  - subst t. apply refuse_frame_effect. by repeat split.
Qed.

Lemma decoded_typed p frame :
  pb_typed p -> proto_to_cell_frame p = Ok frame -> rows_typed frame.
Proof.
  intros Htyped (_ & _ & Hv & _)%proto_to_cell_frame_inv.
  apply rows_from_proto_inv in Hv as [_ Hidx].
  apply Forall_forall. intros row Hrow. unfold pb_typed in Htyped.
  rewrite Forall_forall in Htyped.
  assert (Hin : row_index row ∈ pbr_index <$> (cell_row_to_proto <$> f_viewport_rows frame)).
  { rewrite <- list_fmap_compose.
    by apply (list_elem_of_fmap_2 (pbr_index ∘ cell_row_to_proto)). }
  rewrite Hidx in Hin. apply list_elem_of_fmap in Hin as (r & -> & Hr). by apply Htyped.
Qed.

Lemma decoded_owned_typed p frame :
  pb_typed p -> proto_into_cell_frame p = Ok frame -> rows_typed frame.
Proof.
  intros Htyped H. apply (decoded_typed p); [done|].
  revert H. unfold proto_into_cell_frame, proto_to_cell_frame.
  destruct (assert_frame_sequence p); [|done]. destruct (assert_frame_structure p); [|done].
  destruct (placements_from_proto p); [|done].
  destruct (collect (cell_row_from_proto_bounded (pb_cols p)) (pb_viewport_rows p)); [|done].
  destruct (collect (cell_row_from_proto_bounded 0) (pb_scrollback_rows p)); [|done].
  by destruct (collect (cell_row_from_proto_bounded 0) (pb_scrollback_append p)).
Qed.

Section admissions.
Context `{Sizes : WireSizes}.

Lemma admit_frame_effect s frame assembled token now_ms :
  pb_typed frame ->
  grid_effect s (fst (admit_frame s frame assembled token now_ms))
    (snd (admit_frame s frame assembled token now_ms)).
Proof.
  intros Htyped. unfold admit_frame.
  case_bool_decide; [by apply EffectNone|].
  destruct (negb _); [by apply refuse_frame_effect|].
  case_bool_decide; [by apply EffectNone|].
  set (s1 := note_wire s _ _ _). assert (Hg : same_grid s s1) by (by repeat split).
  unfold decode_wire_frame. destruct (negb assembled && _); [by apply refuse_frame_effect|].
  destruct (proto_to_cell_frame frame) as [decoded|] eqn:Hd; [|by apply refuse_frame_effect].
  eapply grid_effect_before; [exact Hg|]. apply admit_decoded_effect. by eapply decoded_typed.
Qed.

Lemma admit_chunk_effect s chunk token now_ms :
  assembler_inv (assembler s) -> chunk_typed chunk ->
  grid_effect s (fst (admit_chunk s chunk token now_ms))
    (snd (admit_chunk s chunk token now_ms)).
Proof.
  intros Hinv Htyped. unfold admit_chunk.
  case_bool_decide; [by apply EffectNone|].
  destruct (ch_part chunk) as [part|]; [|by apply refuse_frame_effect].
  destruct (negb _); [by apply refuse_frame_effect|].
  case_bool_decide; [by apply EffectNone|].
  set (s1 := note_chunk_progress s _ _ _). set (s2 := note_wire s1 _ _ _).
  assert (Hg : same_grid s s2).
  { etrans; [apply (note_chunk_progress_grid s token (pb_stream_id part) (pb_seq part))|].
    by repeat split. }
  assert (Ha : assembler s2 = assembler s).
  { subst s2 s1. unfold note_chunk_progress. by repeat case_match. }
  rewrite Ha. destruct (push (assembler s) chunk now_ms) as [a answer] eqn:Hpush.
  destruct (push_sound _ _ _ _ _ Hinv Htyped Hpush) as [_ Hsound].
  destruct answer as [[id next|id frame]|code].
  - cbn [fst snd]. apply EffectNone; [|done]. etrans; [exact Hg|]. by repeat split.
  - destruct (decode_assembled_frame frame) as [decoded|] eqn:Hd.
    2: { apply refuse_frame_effect. etrans; [exact Hg|]. by repeat split. }
    eapply grid_effect_before; [|apply admit_decoded_effect].
    { etrans; [exact Hg|]. by repeat split. }
    unfold decode_assembled_frame in Hd.
    destruct (proto_into_cell_frame frame) as [d|] eqn:Hp; [|done]. injection Hd as ->.
    eapply decoded_owned_typed; [|exact Hp]. destruct Hsound as (_ & _ & _ & Hplace).
    apply Forall_forall. intros row (i & Hi)%list_elem_of_lookup. cbn. rewrite (Hplace _ _ Hi). lia.
  - apply refuse_frame_effect. etrans; [exact Hg|]. by repeat split.
Qed.

(** ** The assembler's invariant rides along *)

Lemma refuse_frame_assembler s reason token now_ms :
  assembler_inv (assembler s) -> assembler_inv (assembler (fst (refuse_frame s reason token now_ms))).
Proof. unfold refuse_frame. by destruct (latch _ _ _ _) as [l []]. Qed.

Lemma note_accepted_assembler s token now_ms :
  assembler (note_accepted_frame s token now_ms) = assembler s.
Proof. unfold note_accepted_frame, arm_quiet_probe. by repeat case_match. Qed.

Lemma admit_decoded_assembler s decoded token now_ms :
  assembler_inv (assembler s) ->
  assembler_inv (assembler (fst (admit_decoded s decoded token now_ms))).
Proof.
  intros Hinv. unfold admit_decoded. destruct (fold _ decoded) as [t []]; cbn [fst];
    rewrite ?note_accepted_assembler; [done|done|by apply refuse_frame_assembler].
Qed.

Lemma admit_frame_assembler s frame assembled token now_ms :
  assembler_inv (assembler s) ->
  assembler_inv (assembler (fst (admit_frame s frame assembled token now_ms))).
Proof.
  intros Hinv. unfold admit_frame. repeat case_match; cbn [fst]; try done;
    try (by apply refuse_frame_assembler); by apply admit_decoded_assembler.
Qed.

Lemma admit_chunk_assembler s chunk token now_ms :
  assembler_inv (assembler s) -> chunk_typed chunk ->
  assembler_inv (assembler (fst (admit_chunk s chunk token now_ms))).
Proof.
  intros Hinv Htyped. unfold admit_chunk. case_bool_decide; [done|].
  destruct (ch_part chunk) as [part|]; [|by apply refuse_frame_assembler].
  destruct (negb _); [by apply refuse_frame_assembler|]. case_bool_decide; [done|].
  set (s2 := note_wire _ _ _ _).
  assert (Ha : assembler s2 = assembler s).
  { subst s2. unfold note_chunk_progress. by repeat case_match. }
  rewrite Ha. destruct (push (assembler s) chunk now_ms) as [a answer] eqn:Hpush.
  destruct (push_sound _ _ _ _ _ Hinv Htyped Hpush) as [Hinv' _].
  destruct answer as [[id next|id frame]|code]; cbn [fst]; [done| |by apply refuse_frame_assembler].
  destruct (decode_assembled_frame frame); [by apply admit_decoded_assembler|].
  by apply refuse_frame_assembler.
Qed.
End admissions.

Lemma other_ops_assembler `{WireSizes} s now_ms op :
  match op with OpFrame _ _ _ | OpChunk _ _ => False | _ => True end ->
  assembler_inv (assembler s) -> assembler_inv (assembler (fst (replica_step s now_ms op))).
Proof.
  intros Hop Hinv.
  assert (Hscoped : forall s token now, assembler (begin_scoped_repair s token now) = assembler s).
  { intros. unfold begin_scoped_repair. branches. }
  assert (Hretire : forall s why, assembler (retire_replica s why) = assembler s).
  { intros. unfold retire_replica. branches. }
  assert (Hrepair : forall env s now, assembler (fst (request_repair_if_due env s now)) = assembler s).
  { intros. unfold request_repair_if_due. repeat case_match; cbn [fst]; rewrite ?Hscoped; done. }
  assert (Hprobe : forall env s now, assembler (fst (probe env s now)) = assembler s).
  { intros. unfold probe, publish_challenge. destruct (watch env s0); [|apply Hretire].
    branches; cbn [fst]; by rewrite ?Hscoped. }
  assert (Hescalate : forall env s now, assembler (fst (escalate env s now)) = assembler s).
  { intros. unfold escalate. destruct (watch env s0); [|apply Hretire]. branches. }
  assert (Hsweep : forall env s now,
            assembler (fst (sweep_foreground_liveness env s now)) = assembler s).
  { intros env s0 now. unfold sweep_foreground_liveness.
    destruct (visible env); cbn [negb]; [|apply Hretire].
    pose proof (Hescalate env s0 now) as He.
    destruct (escalate env s0 now) as [s1 o1]. cbn [fst] in He.
    destruct (proof_expiry_due (liveness s0) now), (quiet_expiry_due (liveness s0) now).
    1: pose proof (Hprobe env s1 now) as Hp; destruct (probe env s1 now); cbn [fst] in *.
    3: pose proof (Hprobe env s0 now) as Hp; destruct (probe env s0 now); cbn [fst] in *.
    all: unfold arm_when_watchable; repeat case_match; cbn; congruence. }
  destruct op; cbn [replica_step fst]; try done.
  - unfold bind_generation. branches.
  - unfold install_expected_stream. branches.
  - unfold sweep_replica, session_sweep, expire.
    assert (Hs0 : assembler_inv (assembler (fst
              (let '(a, expired) :=
                 match assembler s with
                 | None => (None, false)
                 | Some partial => if stalled partial now_ms then (None, true) else (assembler s, false)
                 end in
               let s0 := with_assembler s a in
               if negb expired then (s0, false)
               else
                 let s0 := with_target s0 (with_chunk_in_flight (target s0) false) in
                 match latch_token (repair s0) with
                 | Some token => (fst (refuse_frame s0 SnapshotStalledFault token now_ms), true)
                 | None => (with_assembler s0 None, true)
                 end)))).
    { destruct (assembler s) as [partial|] eqn:Ha; [|done].
      destruct (stalled partial now_ms); cbn [negb]; [|done].
      case_match; cbn [fst]; [by apply refuse_frame_assembler|done]. }
    match goal with |- context [request_repair_if_due env ?x now_ms] => set (s0 := x) in * end.
    pose proof (Hrepair env s0 now_ms) as H1.
    destruct (request_repair_if_due env s0 now_ms) as [s1 o1]. cbn [fst] in H1.
    pose proof (Hsweep env s1 now_ms) as H2.
    destruct (sweep_foreground_liveness env s1 now_ms) as [s2 o2]. cbn [fst] in *.
    by rewrite H2, H1.
  - by rewrite Hrepair.
  - unfold open_view. branches.
  - unfold resize_view. branches.
  - unfold hide_view. branches.
  - unfold mark_view_published. branches.
  - unfold apply_view_state. branches.
Qed.

(** ** The invariant of a replica *)

Record replica_inv (s : TerminalSession) : Prop := {
  ri_frame : forall frame, canonical (target s) = Some frame -> replica_frame frame;
  ri_ready : baseline_ready (target s) = true ->
    exists frame, canonical (target s) = Some frame
      /\ Some (f_stream_id frame) = expected_stream_id (target s)
      /\ f_cols frame = effective_cols (target s) /\ f_rows frame = effective_rows (target s);
  ri_assembler : assembler_inv (assembler s);
}.

Lemma replica_new_inv session_id worker_fp : replica_inv (TerminalSession_new session_id worker_fp).
Proof. by constructor. Qed.

Lemma same_grid_inv s s' :
  same_grid s s' -> replica_inv s -> assembler_inv (assembler s') -> replica_inv s'.
Proof.
  intros (E1&E2&E3&E4&E5&_) [Hf Hr _] Ha. constructor; [|rewrite E1, E2, E3, E4, E5; done|done].
  by rewrite E4.
Qed.

Lemma apply_delta_identity base delta frame :
  f_full delta = false -> apply_delta base delta = Some frame ->
  f_stream_id frame = f_stream_id delta /\ f_cols frame = f_cols delta /\ f_rows frame = f_rows delta
  /\ f_grid_epoch frame = f_grid_epoch delta /\ f_seq frame = f_seq delta.
Proof.
  intros Hfull. unfold apply_delta, apply_delta_with_history. rewrite Hfull.
  destruct (delta_follows base delta); [|done]. cbn [negb].
  destruct (mark_changed _ _); [|done]. by intros [= <-].
Qed.

Lemma grid_effect_inv s s' a :
  grid_effect s s' a -> replica_inv s -> assembler_inv (assembler s') -> replica_inv s'.
Proof.
  intros He Hinv Ha.
  destruct He as [a' Hg _|frame Ht Hv _ Hc Hb E1 E2 E3 _|delta base grid Ht Hf Hc Happ Hs Hcols Hrows Hc' Hb Hb' E1 E2 E3 _].
  - by eapply same_grid_inv.
  - apply valid_full_spec in Hv as (Hfull & Hlen & Hs & Hcols & Hrows & Hpos).
    constructor; [|intros _|done].
    + intros f. rewrite Hc. intros [= <-]. by constructor.
    + exists (normalize_cell_grid_frame frame). rewrite E1, E2, E3. by split_and!.
  - destruct (apply_delta_identity _ _ _ Hf Happ) as (I1 & I2 & I3 & _).
    constructor; [|intros _|done].
    + intros f. rewrite Hc'. intros [= <-]. constructor; [|cbn|done].
      * cbn. by eapply apply_delta_len.
      * eapply apply_delta_in_position; [exact Hf|exact Ht| |exact Happ].
        destruct (ri_frame _ Hinv _ Hc). done.
    + exists (normalize_cell_grid_frame grid). rewrite E1, E2, E3. cbn. rewrite I1, I2, I3.
      by split_and!.
Qed.

Lemma replica_step_inv `{WireSizes} s now_ms op :
  op_typed op -> replica_inv s -> replica_inv (fst (replica_step s now_ms op)).
Proof.
  intros Htyped Hinv. pose proof (ri_assembler _ Hinv) as Ha.
  destruct op.
  all: try (eapply same_grid_inv; [by apply replica_step_grid|done|by apply other_ops_assembler]).
  - (* an expectation *)
    cbn [replica_step fst]. unfold install_expected_stream.
    destruct (negb _ && _ && _); [done|]. cbn [fst].
    case_bool_decide as Hch.
    + constructor; cbn; [apply Hinv|done|done].
    + constructor; cbn; [apply Hinv| |done].
      destruct (canonical (target s)) as [frame|] eqn:Hc; [|done].
      intros H'. bool_to_prop. exists frame. apply String.eqb_eq in H0 as ->. by split_and!.
  - cbn [replica_step fst]. eapply grid_effect_inv; [by apply admit_frame_effect|done|].
    by apply admit_frame_assembler.
  - cbn [replica_step fst]. eapply grid_effect_inv; [by apply admit_chunk_effect|done|].
    by apply admit_chunk_assembler.
  - cbn [replica_step fst]. constructor; apply Hinv.
Qed.

Lemma replica_run_inv `{WireSizes} s ops :
  Forall (fun step => op_typed (snd step)) ops -> replica_inv s ->
  replica_inv (fst (replica_run s ops)).
Proof.
  revert s. induction ops as [|[now op] ops IH]; intros s Hall Hinv; [done|].
  apply Forall_cons in Hall as [Hop Hall]. cbn [replica_run snd] in *.
  pose proof (replica_step_inv s now op Hop Hinv) as H1.
  destruct (replica_step s now op) as [s1 o1]. cbn [fst] in H1.
  specialize (IH s1 Hall H1). by destruct (replica_run s1 ops).
Qed.
