(* ===== verification/ReplicaGuarantees.v ===== *)
(** * ReplicaGuarantees: what a client's replica promises

    The properties of [TerminalReplica] over every sequence of the operations
    and sweeps of [ReplicaRuns]. *)
From Stdlib Require Import Ascii String.
From S2P Require Export ReplicaRuns.

(** C26: whatever frames, parts, answers and sweeps a replica receives, it never
    holds a grid it could paint wrong.  Its canonical frame is always a whole
    normalized viewport whose rows state their own positions; and while it
    calls its baseline ready that frame is of the expected stream at the
    effective geometry. *)
Theorem replica_always_paintable `{WireSizes} (session_id worker_fp : string)
    (ops : list (Z * ReplicaOp)) :
  Forall (fun step => op_typed (snd step)) ops ->
  let s := fst (replica_run (TerminalSession_new session_id worker_fp) ops) in
  (forall frame, canonical (target s) = Some frame ->
     len (f_viewport_rows frame) = f_rows frame
     /\ (forall i row, f_viewport_rows frame !! i = Some row -> row_index row = Z.of_nat i)
     /\ normalize_cell_grid_frame frame = frame)
  /\ (baseline_ready (target s) = true ->
        exists frame, canonical (target s) = Some frame
          /\ Some (f_stream_id frame) = expected_stream_id (target s)
          /\ f_cols frame = effective_cols (target s)
          /\ f_rows frame = effective_rows (target s)).
Proof.
  intros Htyped s.
  pose proof (replica_run_inv _ _ Htyped (replica_new_inv session_id worker_fp)) as [Hf Hr _].
  fold s in Hf, Hr. split; [|exact Hr].
  intros frame Hc. destruct (Hf frame Hc) as [Hl Hp Hn].
  split_and!; [done|by apply rows_in_position_spec|done].
Qed.

(** ** What one admission does *)

Lemma refuse_frame_latch s reason token now_ms :
  snd (refuse_frame s reason token now_ms) = Refused reason (negb (latched (repair s)))
  /\ latched (repair (fst (refuse_frame s reason token now_ms))) = true
  /\ (latched (repair s) = true -> repair (fst (refuse_frame s reason token now_ms)) = repair s)
  /\ (latched (repair s) = false ->
        assembler (fst (refuse_frame s reason token now_ms)) = None
        /\ latch_token (repair (fst (refuse_frame s reason token now_ms))) = Some token
        /\ latch_reason (repair (fst (refuse_frame s reason token now_ms))) = Some reason).
Proof.
  unfold refuse_frame, latch. destruct (latched (repair s)) eqn:Hl; cbn [fst snd negb].
  - by split_and!.
  - cbn. by split_and!.
Qed.

(** What a replica's gap and carrier are after an admission. *)
Definition latch_effect (s s' : TerminalSession) (a : Admission) : Prop :=
  match a with
  | Refused (FenceGeneration | FenceStream) latched_now => latched_now = false /\ repair s' = repair s
  | Refused reason latched_now =>
      latched (repair s') = true /\ latched_now = negb (latched (repair s))
      /\ (latched (repair s) = true -> repair s' = repair s)
      /\ (latched_now = true -> assembler s' = None)
  | BaselineReplaced => repair s' = RepairLatch_new /\ assembler s' = None
  | DeltaApplied | ChunkPending => repair s' = repair s
  end.

Lemma refuse_frame_latch_effect s0 s reason token now_ms :
  repair s = repair s0 -> match reason with FenceGeneration | FenceStream => False | _ => True end ->
  latch_effect s0 (fst (refuse_frame s reason token now_ms)) (snd (refuse_frame s reason token now_ms)).
Proof.
  intros E Hr. destruct (refuse_frame_latch s reason token now_ms) as (-> & H1 & H2 & H3).
  rewrite E in *.
  destruct reason; try done; cbn [latch_effect]; split_and!; try done;
    intros Hn; by apply H3, negb_true_iff.
Qed.

Lemma note_accepted_repair s token now_ms :
  repair (note_accepted_frame s token now_ms) = repair s
  /\ assembler (note_accepted_frame s token now_ms) = assembler s.
Proof. unfold note_accepted_frame, arm_quiet_probe. by repeat case_match. Qed.

Lemma admit_decoded_latch s0 s decoded token now_ms :
  repair s = repair s0 ->
  latch_effect s0 (fst (admit_decoded s decoded token now_ms)) (snd (admit_decoded s decoded token now_ms)).
Proof.
  intros E. unfold admit_decoded. cbn zeta. destruct (fold _ decoded) as [t [|delta|failure]].
  - cbn [fst snd latch_effect].
    match goal with |- context [note_accepted_frame ?x ?t ?n] =>
      destruct (note_accepted_repair x t n) as [-> ->] end. done.
  - cbn [fst snd latch_effect].
    match goal with |- context [note_accepted_frame ?x ?t ?n] =>
      destruct (note_accepted_repair x t n) as [-> _] end. done.
  - by apply refuse_frame_latch_effect.
Qed.

Section admission_effects.
Context `{Sizes : WireSizes}.

Lemma admit_frame_latch s frame assembled token now_ms :
  latch_effect s (fst (admit_frame s frame assembled token now_ms))
    (snd (admit_frame s frame assembled token now_ms)).
Proof.
  unfold admit_frame. case_bool_decide; [done|].
  destruct (negb _); [by apply refuse_frame_latch_effect|]. case_bool_decide; [done|].
  destruct (decode_wire_frame frame assembled); [by apply admit_decoded_latch|].
  by apply refuse_frame_latch_effect.
Qed.

Lemma admit_chunk_latch s chunk token now_ms :
  latch_effect s (fst (admit_chunk s chunk token now_ms)) (snd (admit_chunk s chunk token now_ms)).
Proof.
  unfold admit_chunk. case_bool_decide; [done|].
  destruct (ch_part chunk) as [part|]; [|by apply refuse_frame_latch_effect].
  destruct (negb _); [by apply refuse_frame_latch_effect|]. case_bool_decide; [done|].
  set (s2 := note_wire _ _ _ _).
  assert (E : repair s2 = repair s) by (subst s2; unfold note_chunk_progress; by repeat case_match).
  destruct (push (assembler s2) chunk now_ms) as [a [[id next|id frame]|code]].
  - exact E.
  - destruct (decode_assembled_frame frame); [by apply admit_decoded_latch|].
    by apply refuse_frame_latch_effect.
  - by apply refuse_frame_latch_effect.
Qed.
End admission_effects.

(** An admission is honest.  A refused frame leaves the canonical frame,
    the expectation and the renderers' revision exactly as they were, and
    latches one repair: the first refusal of a gap keeps its reason and drops
    the partial, later ones change nothing, and a frame of another generation
    or stream latches none.  A part still assembling changes no grid.  Only a
    whole full replaces the grid and clears the gap; an accepted delta is the
    delta applied to the grid that was installed, and leaves the gap latched.
    The revision moves by one exactly when the grid was replaced or extended. *)
Theorem admission_exact `{WireSizes} (s : TerminalSession) (now_ms : Z)
    (arrival : PbCellGridFrame * bool + PbCellGridChunk) (token : TerminalToken) :
  assembler_inv (assembler s) ->
  match arrival with inl (frame, _) => pb_typed frame | inr chunk => chunk_typed chunk end ->
  let '(s', admission) :=
    match arrival with
    | inl (frame, assembled) => admit_frame s frame assembled token now_ms
    | inr chunk => admit_chunk s chunk token now_ms
    end in
  latch_effect s s' admission
  /\ match admission with
     | Refused _ _ | ChunkPending => same_grid s s'
     | BaselineReplaced =>
         exists frame,
           valid_full (target s) frame = true
           /\ full_follows_canonical (canonical (target s)) frame = true
           /\ canonical (target s') = Some (normalize_cell_grid_frame frame)
           /\ baseline_ready (target s') = true
           /\ revision (deliveries s') = revision (deliveries s) + 1
     | DeltaApplied =>
         exists delta base grid,
           canonical (target s) = Some base /\ apply_delta base delta = Some grid
           /\ f_seq delta = f_seq base + 1
           /\ Some (f_stream_id delta) = expected_stream_id (target s)
           /\ canonical (target s') = Some (normalize_cell_grid_frame grid)
           /\ revision (deliveries s') = revision (deliveries s) + 1
     end.
Proof.
  intros Hinv Htyped.
  assert (Hgo : forall p, latch_effect s (fst p) (snd p) -> grid_effect s (fst p) (snd p) ->
            let '(s', admission) := p in
            latch_effect s s' admission
            /\ match admission with
               | Refused _ _ | ChunkPending => same_grid s s'
               | BaselineReplaced => exists frame,
                   valid_full (target s) frame = true
                   /\ full_follows_canonical (canonical (target s)) frame = true
                   /\ canonical (target s') = Some (normalize_cell_grid_frame frame)
                   /\ baseline_ready (target s') = true
                   /\ revision (deliveries s') = revision (deliveries s) + 1
               | DeltaApplied => exists delta base grid,
                   canonical (target s) = Some base /\ apply_delta base delta = Some grid
                   /\ f_seq delta = f_seq base + 1
                   /\ Some (f_stream_id delta) = expected_stream_id (target s)
                   /\ canonical (target s') = Some (normalize_cell_grid_frame grid)
                   /\ revision (deliveries s') = revision (deliveries s) + 1
               end).
  { intros [s' a] Hl Hg. cbn [fst snd] in *. split; [done|].
    destruct Hg as [a' Hg Hn|frame|delta base grid].
    - by destruct a'.
    - exists frame. split_and!; try done. by rewrite H8.
    - exists delta, base, grid. destruct (apply_delta_identity _ _ _ H1 H3) as (_ & _ & _ & _ & Hseq).
      split_and!; try done.
      + destruct (apply_delta_shape _ _ _ _ H1 H3) as (_ & _ & _ & _ & Hs & _). congruence.
      + rewrite H13. unfold note_delta.
        destruct (_ || _); [done|]. by destruct (evict_deltas _ _ _ _) as [[[? ?] ?] ?]. }
  destruct arrival as [[frame assembled]|chunk].
  - apply Hgo; [apply admit_frame_latch|by apply admit_frame_effect].
  - apply Hgo; [apply admit_chunk_latch|by apply admit_chunk_effect].
Qed.

(** ** What renderers are delivered *)

(** A renderer that folds deltas onto the grid it painted. *)
Definition replay (painted : option CellGridFrame) (ds : list CellGridFrame) :
    option CellGridFrame :=
  foldl (fun held delta => held ← held; normalize_cell_grid_frame <$> apply_delta held delta)
    painted ds.

Lemma replay_snoc painted ds delta :
  replay painted (ds ++ [delta])
  = (held ← replay painted ds; normalize_cell_grid_frame <$> apply_delta held delta).
Proof. unfold replay. by rewrite foldl_app. Qed.

Definition rows_appended (ds : list CellGridFrame) : Z :=
  foldr (fun d n => len (f_scrollback_append d) + n) 0 ds.
Definition spans_delivered (ds : list CellGridFrame) : Z :=
  foldr (fun d n => delta_spans d + n) 0 ds.

Record deliveries_inv (d : RendererDeliveries) : Prop := {
  di_revision : revision d = base_revision d + len (deltas d);
  di_rows : appended_rows d = rows_appended (deltas d);
  di_spans : delivery_spans d = spans_delivered (deltas d);
  di_frames : len (deltas d) <= MAX_PENDING_DELTA_FRAMES;
  di_rows_cap : appended_rows d <= MAX_PENDING_SCROLLBACK_ROWS;
  di_spans_cap : delivery_spans d <= MAX_PENDING_DELTA_SPANS;
}.

Lemma evict_deltas_spec held rows spans evicted held' rows' spans' evicted' :
  evict_deltas held rows spans evicted = (held', rows', spans', evicted') ->
  rows = rows_appended held -> spans = spans_delivered held ->
  exists k, (k <= length held)%nat /\ held' = drop k held /\ evicted' = evicted + Z.of_nat k
    /\ rows' = rows_appended held' /\ spans' = spans_delivered held'
    /\ len held' <= MAX_PENDING_DELTA_FRAMES /\ rows' <= MAX_PENDING_SCROLLBACK_ROWS
    /\ spans' <= MAX_PENDING_DELTA_SPANS.
Proof.
  revert rows spans evicted. induction held as [|oldest rest IH]; intros rows spans evicted H Hr Hs.
  { injection H as <- <- <- <-. exists 0%nat. cbn in *. subst.
    unfold MAX_PENDING_DELTA_FRAMES, MAX_PENDING_SCROLLBACK_ROWS, MAX_PENDING_DELTA_SPANS, len.
    split_and!; try done; cbn; lia. }
  cbn [evict_deltas] in H.
  assert (Er : rows_appended (oldest :: rest) = len (f_scrollback_append oldest) + rows_appended rest)
    by done.
  assert (Es : spans_delivered (oldest :: rest) = delta_spans oldest + spans_delivered rest) by done.
  destruct (_ || _ || _) eqn:Hover.
  - apply IH in H as (k & Hk & -> & -> & ?); [|lia|lia].
    exists (S k). split_and!; try tauto; cbn; lia || tauto.
  - injection H as <- <- <- <-. bool_to_prop. exists 0%nat. cbn [drop]. split_and!; try done; lia.
Qed.

Lemma deliveries_default_inv : deliveries_inv RendererDeliveries_default.
Proof.
  constructor; unfold MAX_PENDING_DELTA_FRAMES, MAX_PENDING_SCROLLBACK_ROWS, MAX_PENDING_DELTA_SPANS, len;
    cbn; lia.
Qed.

Lemma deliveries_clear_inv d : deliveries_inv (deliveries_clear d).
Proof.
  constructor; unfold MAX_PENDING_DELTA_FRAMES, MAX_PENDING_SCROLLBACK_ROWS, MAX_PENDING_DELTA_SPANS, len;
    cbn; lia.
Qed.

(** What noting a delta keeps: a suffix of the log with the delta, or nothing. *)
Lemma note_delta_spec d delta :
  deliveries_inv d ->
  deliveries_inv (note_delta d delta)
  /\ revision (note_delta d delta) = revision d + 1
  /\ ((deltas (note_delta d delta) = [] /\ base_revision (note_delta d delta) = revision d + 1)
      \/ exists k, deltas (note_delta d delta) = drop k (deltas d ++ [delta])
                   /\ base_revision (note_delta d delta) = base_revision d + Z.of_nat k).
Proof.
  intros [Hrev Hr Hs _ _ _]. unfold note_delta. cbn zeta.
  destruct (_ || _) eqn:Hbig.
  { split; [apply deliveries_clear_inv|]. split; [done|]. by left. }
  cbn [revision base_revision deltas appended_rows delivery_spans].
  destruct (evict_deltas _ _ _ _) as [[[held rows] spans] evicted] eqn:He.
  apply evict_deltas_spec in He as (k & Hk & -> & -> & -> & -> & H1 & H2 & H3).
  - split; [|split; [done|]].
    + constructor; cbn [revision base_revision deltas appended_rows delivery_spans]; try done.
      unfold len in *. rewrite length_drop, length_app in *. cbn [length] in *. lia.
    + right. exists k. cbn. split; [done|lia].
  - rewrite Hr. unfold rows_appended. rewrite foldr_app. cbn.
    generalize (deltas d). intros l. induction l as [|x l IHl]; cbn; lia.
  - rewrite Hs. unfold spans_delivered. rewrite foldr_app. cbn.
    generalize (deltas d). intros l. induction l as [|x l IHl]; cbn; lia.
Qed.

(** The renderer that painted [painted] at revision [at_revision], and the
    replica now. *)
Record delivered (painted : option CellGridFrame) (at_revision : Z) (s : TerminalSession) : Prop := {
  dv_inv : deliveries_inv (deliveries s);
  dv_past : at_revision <= revision (deliveries s);
  dv_replay : base_revision (deliveries s) <= at_revision ->
    replay painted (drop (Z.to_nat (at_revision - base_revision (deliveries s))) (deltas (deliveries s)))
    = canonical (target s);
}.

Lemma delivered_effect painted at_revision s s' a :
  delivered painted at_revision s -> grid_effect s s' a -> delivered painted at_revision s'.
Proof.
  intros [Hinv Hpast Hreplay] He.
  destruct He as [a' (_&_&_&Ec&_&Ed) _|frame _ _ _ _ _ _ _ _ Ed|delta base grid _ _ Hc Happ _ _ _ Hc' _ _ _ _ _ Ed].
  - constructor; rewrite ?Ed, ?Ec; done.
  - constructor; rewrite Ed.
    + apply deliveries_clear_inv.
    + cbn. lia.
    + cbn. intros Hle. lia.
  - destruct (note_delta_spec (deliveries s) delta Hinv) as (Hinv' & Hrev & Hlog).
    constructor; rewrite Ed; [done|lia|]. intros Hle.
    destruct Hlog as [[_ Hb]|(k & Hds & Hb)]; [lia|].
    rewrite Hds, Hb, drop_drop in *.
    replace (k + Z.to_nat (at_revision - (base_revision (deliveries s) + Z.of_nat k)))%nat
      with (Z.to_nat (at_revision - base_revision (deliveries s))) by lia.
    rewrite drop_app_le.
    + rewrite replay_snoc, Hreplay, Hc, Hc' by lia. cbn. by rewrite Happ.
    + pose proof (di_revision _ Hinv). unfold len in *. lia.
Qed.

Lemma delivered_grid painted at_revision s s' :
  delivered painted at_revision s -> same_grid s s' -> delivered painted at_revision s'.
Proof. intros Hd Hg. eapply (delivered_effect _ _ _ _ ChunkPending); [exact Hd|by apply EffectNone]. Qed.

Lemma delivered_step `{WireSizes} painted at_revision s now_ms op :
  op_typed op -> assembler_inv (assembler s) ->
  delivered painted at_revision s -> delivered painted at_revision (fst (replica_step s now_ms op)).
Proof.
  intros Htyped Ha Hd. destruct op.
  all: try (eapply delivered_grid; [exact Hd|by apply replica_step_grid]).
  - cbn [replica_step fst].
    assert (E : deliveries (fst (install_expected_stream s stream_id c r)) = deliveries s
                /\ canonical (target (fst (install_expected_stream s stream_id c r)))
                   = canonical (target s)).
    { unfold install_expected_stream. destruct (negb _ && _ && _); [done|]. cbn [fst].
      by case_bool_decide. }
    destruct E as [E1 E2], Hd as [H1 H2 H3]. constructor; rewrite ?E1, ?E2; done.
  - eapply delivered_effect; [exact Hd|by apply admit_frame_effect].
  - eapply delivered_effect; [exact Hd|by apply admit_chunk_effect].
  - destruct Hd as [H1 H2 H3]. constructor; cbn; [apply deliveries_clear_inv|lia|lia].
Qed.

Lemma delivered_run `{WireSizes} painted at_revision s ops :
  Forall (fun step => op_typed (snd step)) ops -> replica_inv s ->
  delivered painted at_revision s -> delivered painted at_revision (fst (replica_run s ops)).
Proof.
  revert s. induction ops as [|[now op] ops IH]; intros s Hall Hinv Hd; [done|].
  apply Forall_cons in Hall as [Hop Hall]. cbn [replica_run snd] in *.
  pose proof (replica_step_inv s now op Hop Hinv) as Hinv1.
  pose proof (delivered_step painted at_revision s now op Hop (ri_assembler _ Hinv) Hd) as Hd1.
  destruct (replica_step s now op) as [s1 o1]. cbn [fst] in *.
  specialize (IH s1 Hall Hinv1 Hd1). by destruct (replica_run s1 ops).
Qed.

Lemma deliveries_run_inv `{WireSizes} session_id worker_fp ops :
  Forall (fun step => op_typed (snd step)) ops ->
  deliveries_inv (deliveries (fst (replica_run (TerminalSession_new session_id worker_fp) ops))).
Proof.
  intros Hall.
  apply (delivered_run None 0 _ _ Hall (replica_new_inv session_id worker_fp)).
  constructor; cbn; [apply deliveries_default_inv|lia|done].
Qed.

(** C27: a renderer that lags never paints a grid the replica did not hold.
    Take any reachable replica, paint its canonical frame, and let any
    operations follow: if the log still answers for that revision, folding the
    deltas it hands out onto the painted frame gives the replica's canonical
    frame exactly; otherwise it answers that the canonical must be painted.
    The log never holds more than 64 deltas, 250 appended rows or 65,536
    spans. *)
Theorem renderer_deltas_exact `{WireSizes} (session_id worker_fp : string)
    (before after : list (Z * ReplicaOp)) :
  Forall (fun step => op_typed (snd step)) (before ++ after) ->
  let painted := fst (replica_run (TerminalSession_new session_id worker_fp) before) in
  let s := fst (replica_run painted after) in
  match session_deltas_since s (revision (deliveries painted)) with
  | Some ds => replay (canonical (target painted)) ds = canonical (target s)
  | None => revision (deliveries painted) < base_revision (deliveries s)
  end
  /\ len (deltas (deliveries s)) <= MAX_PENDING_DELTA_FRAMES
  /\ rows_appended (deltas (deliveries s)) <= MAX_PENDING_SCROLLBACK_ROWS
  /\ spans_delivered (deltas (deliveries s)) <= MAX_PENDING_DELTA_SPANS.
Proof.
  intros [Hb Ha]%Forall_app painted s.
  pose proof (replica_run_inv _ _ Hb (replica_new_inv session_id worker_fp)) as Hinv.
  pose proof (deliveries_run_inv session_id worker_fp before Hb) as Hd0.
  fold painted in Hinv, Hd0.
  destruct (delivered_run (canonical (target painted)) (revision (deliveries painted)) painted after
              Ha Hinv) as [Hd Hpast Hreplay].
  { constructor; [done|lia|]. intros _.
    pose proof (di_revision _ Hd0) as E. rewrite E.
    replace (Z.to_nat _) with (length (deltas (deliveries painted))) by (unfold len; lia).
    by rewrite drop_all. }
  fold s in Hd, Hpast, Hreplay. split.
  - unfold session_deltas_since, deltas_since.
    destruct (Z.ltb_spec (revision (deliveries painted)) (base_revision (deliveries s))); [done|].
    pose proof (di_revision _ Hd).
    destruct (Z.ltb_spec (len (deltas (deliveries s)))
                (revision (deliveries painted) - base_revision (deliveries s))); [lia|].
    by apply Hreplay.
  - destruct Hd as [_ Hr Hs Hf Hrc Hsc]. rewrite Hr in Hrc. rewrite Hs in Hsc. done.
Qed.

(** ** A concrete replica *)

Section demo.
(** Every message of length one. *)
Local Instance demo_unit_sizes : WireSizes :=
  Build_WireSizes (fun _ => 1) (fun _ => 1) (fun _ => 1) (fun _ => 1).

Definition demo_stream : string := "00000000-0000-4000-8000-000000000000".
Definition demo_token : TerminalToken := mkTerminalToken 1 "epoch-1" 1 Sync None.
Definition demo_pb_row (index c : Z) : PbCellRow :=
  mkPbCellRow index [mkPbCellSpan [c] 256 256 0 None None 1 None None] 0.

(** A one-by-two frame: a full at sequence [seq], or a delta on [base_seq]. *)
Definition demo_pb_frame (full : bool) (rows : list PbCellRow) (seq base_seq : Z) : PbCellGridFrame :=
  mkPbCellGridFrame "s" demo_stream "epoch" 1 2 0 0 true false full rows [] [] 0 seq 0 false false
    0 0 0 0 0 false 0 false base_seq [] true.

Definition demo_full := demo_pb_frame true [demo_pb_row 0 97; demo_pb_row 1 98] 4 0.
Definition demo_delta := demo_pb_frame false [demo_pb_row 1 99] 5 4.

(** A bound replica with a pane, its baseline, and one delta. *)
Definition demo_ops : list (Z * ReplicaOp) :=
  [(0, OpBind demo_token); (0, OpInstall demo_stream 1 2); (0, OpOpenView "pane" 1 2);
   (10, OpFrame demo_full false demo_token)].
Definition demo_more : list (Z * ReplicaOp) := [(20, OpFrame demo_delta false demo_token)].

Definition demo_replica (ops : list (Z * ReplicaOp)) : TerminalSession :=
  fst (replica_run (TerminalSession_new "s" "w") ops).

Lemma demo_typed : Forall (fun step => op_typed (snd step)) (demo_ops ++ demo_more).
Proof. repeat constructor; vm_compute; discriminate. Qed.

Lemma replica_always_paintable_witness :
  baseline_ready (target (demo_replica (demo_ops ++ demo_more))) = true
  /\ exists frame, canonical (target (demo_replica (demo_ops ++ demo_more))) = Some frame
       /\ f_seq frame = 5 /\ len (f_viewport_rows frame) = f_rows frame.
Proof.
  pose proof (replica_always_paintable "s" "w" (demo_ops ++ demo_more) demo_typed) as [Hf _].
  split; [vm_compute; reflexivity|]. eexists. split; [vm_compute; reflexivity|].
  split; [reflexivity|]. apply Hf. vm_compute. reflexivity.
Defined.

Lemma admission_exact_witness :
  let s := demo_replica demo_ops in
  snd (admit_frame s demo_delta false demo_token 20) = DeltaApplied
  /\ repair (fst (admit_frame s demo_delta false demo_token 20)) = repair s
  /\ snd (admit_frame s demo_full true (mkTerminalToken 2 "epoch-1" 1 Sync None) 20)
     = Refused FenceGeneration false.
Proof.
  intros s. assert (Ha : assembler_inv (assembler s)) by (vm_compute; exact I).
  assert (Ht : pb_typed demo_delta) by (repeat constructor; vm_compute; discriminate).
  pose proof (admission_exact s 20 (inl (demo_delta, false)) demo_token Ha Ht) as H.
  assert (E : snd (admit_frame s demo_delta false demo_token 20) = DeltaApplied)
    by (vm_compute; reflexivity).
  assert (F : snd (admit_frame s demo_full true (mkTerminalToken 2 "epoch-1" 1 Sync None) 20)
              = Refused FenceGeneration false) by (vm_compute; reflexivity).
  clearbody s. cbn beta iota in H. destruct (admit_frame s demo_delta false demo_token 20) as [s' a].
  cbn [fst snd] in *. subst a. destruct H as [H _]. split; [reflexivity|]. split; [exact H|exact F].
Defined.

Lemma renderer_deltas_exact_witness :
  let painted := fst (replica_run (TerminalSession_new "s" "w") demo_ops) in
  let s := fst (replica_run painted demo_more) in
  exists delta,
    session_deltas_since s (revision (deliveries painted)) = Some [delta]
    /\ replay (canonical (target painted)) [delta] = canonical (target s)
    /\ canonical (target s) <> canonical (target painted).
Proof.
  pose proof (renderer_deltas_exact "s" "w" demo_ops demo_more demo_typed) as H. revert H.
  intros H painted s. change (let painted := painted in let s := s in
    match session_deltas_since s (revision (deliveries painted)) with
    | Some ds => replay (canonical (target painted)) ds = canonical (target s)
    | None => revision (deliveries painted) < base_revision (deliveries s)
    end
    /\ len (deltas (deliveries s)) <= MAX_PENDING_DELTA_FRAMES
    /\ rows_appended (deltas (deliveries s)) <= MAX_PENDING_SCROLLBACK_ROWS
    /\ spans_delivered (deltas (deliveries s)) <= MAX_PENDING_DELTA_SPANS) in H.
  cbn zeta in H. destruct H as [H _].
  assert (E : exists delta, session_deltas_since s (revision (deliveries painted)) = Some [delta])
    by (eexists; vm_compute; reflexivity).
  assert (F : canonical (target s) <> canonical (target painted)) by (vm_compute; discriminate).
  clearbody s. clearbody painted. destruct E as [delta E]. rewrite E in H.
  exists delta. split; [exact E|]. split; [exact H|exact F].
Defined.
End demo.
