(* ===== verification/ReplicaLiveness.v ===== *)
(** * ReplicaLiveness: the foreground watchdog

    [handle_sweep/liveness.rs] states its rule: no path may leave a watched
    pane holding neither a probe nor a proof deadline.  Here it is proved of
    every run in which no chunk part arrives, and refuted by one that does. *)
From Stdlib Require Import Ascii String.
From S2P Require Export ReplicaGuarantees.

(** ** Deadlines *)

Definition due_by (bound : Z) (due : option Z) : Prop :=
  match due with Some due => due <= bound | None => True end.

(** A deadline is armed. *)
Definition armed (l : ForegroundLiveness) : Prop :=
  is_Some (quiet_due_ms l) \/ is_Some (proof_due_ms l).

(** An outstanding challenge has something that ends it. *)
Definition challenge_covered (l : ForegroundLiveness) : Prop :=
  is_Some (challenged_at_ms l) -> armed l.

Record watchdog_core (last : Z) (s : TerminalSession) : Prop := {
  wc_quiet : due_by (last + TERMINAL_FOREGROUND_IDLE_PROBE_MAX_MS) (quiet_due_ms (liveness s));
  wc_proof : due_by (last + TERMINAL_FOREGROUND_PROBE_DEADLINE_MS) (proof_due_ms (liveness s));
  wc_expected : is_Some (challenged_at_ms (liveness s)) -> is_Some (expected_stream_id (target s));
  wc_whole : challenged_at_ms (liveness s) = None -> challenge_stream_id (liveness s) = None;
}.

Lemma saturating_le a b : saturating_add64 a b <= a + b.
Proof. unfold saturating_add64. lia. Qed.

Lemma interval_le probe : backed_off_interval_ms probe <= TERMINAL_FOREGROUND_IDLE_PROBE_MAX_MS.
Proof. unfold backed_off_interval_ms. lia. Qed.

Lemma watchdog_core_later last last' s :
  last <= last' -> watchdog_core last s -> watchdog_core last' s.
Proof.
  intros Hle [Hq Hp He Hst]. constructor; [| |done|done]; unfold due_by in *.
  - destruct (quiet_due_ms (liveness s)); [lia|done].
  - destruct (proof_due_ms (liveness s)); [lia|done].
Qed.

Lemma watchdog_core_same last s s' :
  liveness s' = liveness s ->
  (is_Some (expected_stream_id (target s)) -> is_Some (expected_stream_id (target s'))) ->
  watchdog_core last s -> watchdog_core last s'.
Proof. intros El Ee [Hq Hp He Hst]. constructor; rewrite ?El; try done. intros Hc. by apply Ee, He. Qed.

(** ** Each transition *)

Lemma arm_quiet_core s token now :
  watchdog_core now s ->
  watchdog_core now (with_liveness s (arm_quiet (liveness s) token now))
  /\ is_Some (quiet_due_ms (arm_quiet (liveness s) token now)).
Proof.
  intros [Hq Hp He Hst]. split; [|by eexists]. constructor; cbn; try done.
  pose proof (saturating_le now (backed_off_interval_ms (idle_probe (liveness s)))).
  pose proof (interval_le (idle_probe (liveness s))). lia.
Qed.

Lemma rearm_quiet_core s token now :
  watchdog_core now s ->
  watchdog_core now (rearm_replica s token now)
  /\ is_Some (quiet_due_ms (liveness (rearm_replica s token now))).
Proof.
  intros [Hq Hp He Hst]. split; [|by eexists]. constructor; cbn; try done.
  pose proof (saturating_le now TERMINAL_FOREGROUND_IDLE_PROBE_MS).
  unfold TERMINAL_FOREGROUND_IDLE_PROBE_MS, TERMINAL_FOREGROUND_IDLE_PROBE_MAX_MS in *. lia.
Qed.

Lemma begin_scoped_repair_core s who now :
  watchdog_core now s -> challenge_covered (liveness s) ->
  watchdog_core now (begin_scoped_repair s who now)
  /\ challenge_covered (liveness (begin_scoped_repair s who now)).
Proof.
  intros Hcore Hcov. unfold begin_scoped_repair. case_bool_decide; [done|].
  destruct (expected_stream_id (target s)) as [stream_id|] eqn:Hs; [|done].
  pose proof (saturating_le now TERMINAL_FOREGROUND_PROBE_DEADLINE_MS) as Hle.
  destruct (has_pending_challenge (liveness s) who).
  - unfold rearm_proof. case_match eqn:Hc.
    2: { split; [|exact Hcov]. by destruct s. }
    destruct Hcore as [Hq Hp He Hst].
    split; [constructor; cbn; try done; by rewrite Hs|]. intros _. right. by eexists.
  - destruct Hcore as [Hq Hp He Hst].
    split; [constructor; cbn; try done; by rewrite Hs|]. intros _. right. by eexists.
Qed.

Lemma note_accepted_core s token now :
  watchdog_core now s -> challenge_covered (liveness s) ->
  watchdog_core now (note_accepted_frame s token now)
  /\ challenge_covered (liveness (note_accepted_frame s token now)).
Proof.
  intros Hcore Hcov. unfold note_accepted_frame. case_match; [done|].
  destruct (canonical (target s)) as [frame|]; [|done].
  match goal with |- context [with_liveness s ?x] => set (l := x) end.
  assert (H1 : watchdog_core now (with_liveness s l) /\ challenge_covered l).
  { destruct Hcore as [Hq Hp He Hst]. subst l.
    destruct (proves _ _ _ _); [|destruct (has_pending_challenge _ _); cbn [negb]].
    - split; [constructor; cbn; try done; by intros [? ?]|]. intros [? [=]].
    - split; [by constructor|done].
    - split; [by constructor|done]. }
  destruct H1 as [H1 H2]. unfold arm_quiet_probe. case_match; [by split|].
  destruct (arm_quiet_core _ token now H1) as [H3 H4]. split; [exact H3|]. intros _. by left.
Qed.

Lemma retire_replica_core s why now :
  watchdog_core now s ->
  watchdog_core now (retire_replica s why) /\ challenge_covered (liveness (retire_replica s why)).
Proof.
  intros Hcore. unfold retire_replica. case_match eqn:Hb.
  - apply andb_true_iff in Hb as [_ Hc%bool_decide_eq_true]. split; [done|].
    intros Hs. rewrite Hc in Hs. by destruct Hs.
  - split; [constructor; cbn; try done; by intros [? ?]|]. intros Hs. cbn in Hs. by destruct Hs.
Qed.

(** The only state in which an outstanding challenge may be uncovered inside a
    sweep: it belongs to a generation that is not the elected one. *)
Definition foreign_challenge (env : SweepView) (s : TerminalSession) : Prop :=
  exists owner, elected_owner env s = Some owner /\ is_Some (foreground_view s)
                /\ has_pending_challenge (liveness s) owner = false.

Lemma watch_Watched env s owner :
  watch env s = Watched owner -> elected_owner env s = Some owner /\ is_Some (foreground_view s).
Proof.
  unfold watch. case_bool_decide as Hf; [done|]. case_match; [done|].
  destruct (elected_owner env s); [|done]. intros [= ->]. split; [done|].
  by destruct (foreground_view s); [eexists|].
Qed.

Lemma escalate_core env s now :
  watchdog_core now s -> challenge_covered (liveness s) ->
  watchdog_core now (fst (escalate env s now))
  /\ (challenge_covered (liveness (fst (escalate env s now)))
      \/ foreign_challenge env (fst (escalate env s now))).
Proof.
  intros Hcore Hcov. unfold escalate. destruct (watch env s) as [owner|why] eqn:Hw.
  2: { destruct (retire_replica_core s why now Hcore). by split; [|left]. }
  apply watch_Watched in Hw as [He Hf].
  destruct (has_pending_challenge (liveness s) owner) eqn:Hp; cbn [negb].
  - set (s1 := with_liveness s (mark_escalated (liveness s))).
    assert (H1 : watchdog_core now s1).
    { destruct Hcore as [Hq Hpr Hx Hst]. constructor; cbn; try done; by intros [? ?]. }
    destruct (rearm_quiet_core s1 owner now H1) as [H2 H3].
    case_bool_decide; [split; [done|]; left; intros _; by left|].
    destruct (replaceable env); cbn [negb fst]; [|split; [done|]; left; intros _; by left].
    split; [done|]. left. intros [? [=]].
  - cbn [fst]. split.
    + destruct Hcore as [Hq Hpr Hx Hst]. by constructor.
    + right. by exists owner.
Qed.

Lemma scoped_resync_some s owner view :
  is_Some (expected_stream_id (target s)) -> foreground_view s = Some view ->
  is_Some (scoped_resync s owner).
Proof.
  intros [stream_id Hs] Hf. unfold scoped_resync, resync_position. rewrite Hs. cbn.
  assert (Hr : is_Some (repair_view s)).
  { unfold repair_view. destruct (List.find tv_counted (view_values s)); [by eexists|].
    unfold foreground_view in Hf. destruct (view_values s); [done|by eexists]. }
  destruct Hr as [v ->]. cbn. by eexists.
Qed.

Lemma probe_core env s now :
  watchdog_core now s ->
  watchdog_core now (fst (probe env s now)) /\ challenge_covered (liveness (fst (probe env s now))).
Proof.
  intros Hcore. unfold probe. destruct (watch env s) as [owner|why] eqn:Hw.
  2: by apply retire_replica_core.
  apply watch_Watched in Hw as [He Hf].
  set (s1 := with_liveness s _).
  assert (H1 : watchdog_core now s1).
  { destruct Hcore as [Hq Hpr Hx Hst]. by constructor. }
  assert (Hgen : generation s1 = Some owner).
  { subst s1. unfold elected_owner in He. cbn.
    destruct (generation s) as [g|]; [|done]. cbn in He. case_bool_decide; [|done]. done. }
  unfold publish_challenge.
  destruct (has_pending_challenge (liveness s1) owner) eqn:Hp.
  - cbn [fst]. set (s2 := with_liveness s1 _).
    assert (H2 : watchdog_core now s2).
    { subst s2. unfold claim_rearm_episode. destruct H1 as [Hq Hpr Hx Hst].
      case_match; by constructor. }
    destruct (rearm_quiet_core s2 owner now H2) as [H3 H4]. split; [done|]. intros _. by left.
  - destruct (scoped_resync s1 owner) as [request|] eqn:Hreq.
    + cbn [fst]. unfold begin_scoped_repair. rewrite Hgen, bool_decide_false by (intros Hn; by apply Hn).
      destruct (expected_stream_id (target s1)) as [stream_id|] eqn:Hs.
      * rewrite Hp. pose proof (saturating_le now TERMINAL_FOREGROUND_PROBE_DEADLINE_MS).
        destruct H1 as [Hq Hpr Hx Hst].
        split; [constructor; cbn; try done; cbn in Hs; by rewrite Hs|]. intros _. right. by eexists.
      * unfold scoped_resync, resync_position in Hreq. rewrite Hs in Hreq. cbn in Hreq.
        by destruct (repair_view s1).
    + cbn [fst]. set (s2 := with_liveness s1 _).
      assert (H2 : watchdog_core now s2).
      { subst s2. unfold claim_rearm_episode. destruct H1 as [Hq Hpr Hx Hst]. case_match; by constructor. }
      destruct (rearm_quiet_core s2 owner now H2) as [H3 H4]. split; [done|]. intros _. by left.
Qed.

(** The replica is one the watchdog watches. *)
Definition watchable (env : SweepView) (s : TerminalSession) : Prop :=
  is_Some (elected_owner env s) /\ is_Some (expected_stream_id (target s))
  /\ is_Some (foreground_view s).

Lemma arm_when_watchable_core env s now :
  watchdog_core now s -> challenge_covered (liveness s) \/ foreign_challenge env s ->
  watchdog_core now (arm_when_watchable env s now)
  /\ challenge_covered (liveness (arm_when_watchable env s now))
  /\ (watchable env s -> armed (liveness (arm_when_watchable env s now))).
Proof.
  intros Hcore Hcov.
  assert (Harm : forall owner, watchdog_core now (with_liveness s (arm_quiet_if_unarmed (liveness s) owner now))
            /\ is_Some (quiet_due_ms (arm_quiet_if_unarmed (liveness s) owner now))).
  { intros owner. unfold arm_quiet_if_unarmed. destruct (quiet_due_ms (liveness s)) eqn:Hq.
    - split; [destruct Hcore; by constructor|]. rewrite Hq. by eexists.
    - apply (rearm_quiet_core s owner now Hcore). }
  unfold arm_when_watchable, watchable.
  destruct (elected_owner env s) as [owner|] eqn:He.
  2: { destruct Hcov as [Hcov|(o & E & _)]; [|congruence]. split_and!; [done|done|]. by intros [[? [=]] _]. }
  destruct (expected_stream_id (target s)) as [stream_id|] eqn:Hs; cbn [bool_decide].
  2: { rewrite bool_decide_true by done. cbn [orb].
       assert (Hno : ~ is_Some (challenged_at_ms (liveness s))).
       { intros Hc. apply (wc_expected _ _ Hcore) in Hc. rewrite Hs in Hc. by destruct Hc. }
       split_and!; [done|by intros Hc|]. intros (_ & [? [=]] & _). }
  rewrite bool_decide_false by done. cbn [orb].
  case_bool_decide as Hf.
  { destruct Hcov as [Hcov|(o & _ & [v E] & _)]; [|congruence].
    split_and!; [done|done|]. intros (_ & _ & [? E]). congruence. }
  destruct (has_pending_challenge (liveness s) owner) eqn:Hp.
  { destruct Hcov as [Hcov|(o & E & _ & E')]; [|congruence].
    assert (Ha : armed (liveness s)).
    { apply Hcov. unfold has_pending_challenge in Hp. apply andb_true_iff in Hp as [Hc _].
      by apply bool_decide_eq_true in Hc. }
    by split_and!. }
  destruct (Harm owner) as [H1 H2]. split_and!; [done|intros _; by left|intros _; by left].
Qed.

Lemma elected_owner_same env s s' :
  generation s' = generation s -> elected_owner env s' = elected_owner env s.
Proof. intros E. unfold elected_owner. by rewrite E. Qed.

Lemma arm_when_watchable_quiet env s now :
  watchable env s -> challenged_at_ms (liveness (arm_when_watchable env s now)) = None ->
  is_Some (quiet_due_ms (liveness (arm_when_watchable env s now))).
Proof.
  intros ([owner He] & Hs & Hf). unfold arm_when_watchable. rewrite He.
  rewrite !bool_decide_false; [|intros E; rewrite E in Hf; by destruct Hf
                               |intros E; rewrite E in Hs; by destruct Hs].
  cbn [orb]. destruct (has_pending_challenge (liveness s) owner) eqn:Hp.
  - intros Hc. unfold has_pending_challenge in Hp. rewrite Hc in Hp. done.
  - intros _. cbn. unfold arm_quiet_if_unarmed. destruct (quiet_due_ms (liveness s)) eqn:Hq.
    + rewrite Hq. by eexists.
    + by eexists.
Qed.

(** ** What a sweep leaves alone *)

(** The replica's carrier, views, expectation and grid. *)
Definition same_pane (s s' : TerminalSession) : Prop :=
  generation s' = generation s /\ views s' = views s
  /\ expected_stream_id (target s') = expected_stream_id (target s)
  /\ canonical (target s') = canonical (target s).

#[global] Instance same_pane_refl : Reflexive same_pane.
Proof. intros s. by repeat split. Qed.

#[global] Instance same_pane_trans : Transitive same_pane.
Proof. intros a b c (?&?&?&?) (?&?&?&?). repeat split; etrans; eassumption. Qed.

Lemma same_pane_watchable env s s' : same_pane s s' -> watchable env s' -> watchable env s.
Proof.
  intros (Eg & Ev & Ee & _) (Ho & Hs & Hf). unfold watchable.
  rewrite (elected_owner_same env s s' Eg) in Ho. rewrite Ee in Hs.
  unfold foreground_view, view_values in *. by rewrite Ev in Hf.
Qed.

Lemma same_pane_resync s s' token : same_pane s s' -> scoped_resync s' token = scoped_resync s token.
Proof.
  intros (_ & Ev & Ee & Ec). unfold scoped_resync, repair_view, view_values, resync_position.
  by rewrite Ev, Ee, Ec.
Qed.

Lemma refuse_frame_pane s reason token now : same_pane s (fst (refuse_frame s reason token now)).
Proof. unfold refuse_frame. destruct (latch _ _ _ _) as [l []]; by repeat split. Qed.

Lemma session_sweep_pane s now :
  same_pane s (fst (session_sweep s now)) /\ liveness (fst (session_sweep s now)) = liveness s.
Proof.
  unfold session_sweep. destruct (expire (assembler s) now) as [a []]; cbn [negb fst]; [|by repeat split].
  destruct (latch_token (repair _)) as [token|]; cbn [fst]; [|by repeat split].
  unfold refuse_frame. destruct (latch _ _ _ _) as [l []]; by repeat split.
Qed.

Lemma begin_scoped_repair_pane s who now : same_pane s (begin_scoped_repair s who now).
Proof. unfold begin_scoped_repair. branches. Qed.

Lemma request_repair_pane env s now : same_pane s (fst (request_repair_if_due env s now)).
Proof.
  unfold request_repair_if_due. case_match; [done|]. destruct (generation s) as [token|]; [|done].
  destruct (repair_request s token now); [|done]. cbn [fst].
  etrans; [|apply begin_scoped_repair_pane]. by repeat split.
Qed.

Lemma retire_replica_pane s why : same_pane s (retire_replica s why).
Proof. unfold retire_replica. branches. Qed.

Lemma probe_pane env s now : same_pane s (fst (probe env s now)).
Proof.
  unfold probe. destruct (watch env s); [|apply retire_replica_pane].
  unfold publish_challenge. branches; cbn [fst]; try (by repeat split).
  etrans; [|apply begin_scoped_repair_pane]. by repeat split.
Qed.

Lemma escalate_pane env s now : same_pane s (fst (escalate env s now)).
Proof. unfold escalate. destruct (watch env s); [|apply retire_replica_pane]. branches. Qed.

Lemma arm_when_watchable_pane env s now : same_pane s (arm_when_watchable env s now).
Proof. unfold arm_when_watchable. branches. Qed.

Lemma sweep_foreground_core env s now :
  watchdog_core now s -> challenge_covered (liveness s) ->
  let s' := fst (sweep_foreground_liveness env s now) in
  watchdog_core now s' /\ challenge_covered (liveness s') /\ same_pane s s'
  /\ (visible env = true -> watchable env s' ->
        armed (liveness s')
        /\ (challenged_at_ms (liveness s') = None -> is_Some (quiet_due_ms (liveness s')))).
Proof.
  intros Hcore Hcov. cbn zeta. unfold sweep_foreground_liveness.
  destruct (visible env) eqn:Hv; cbn [negb].
  2: { cbn [fst]. destruct (retire_replica_core s Inactive now Hcore) as [H1 H2].
       split_and!; [done|done|apply retire_replica_pane|done]. }
  destruct (if proof_expiry_due (liveness s) now then escalate env s now else (s, []))
    as [s1 out1] eqn:E1.
  assert (H1 : watchdog_core now s1 /\ (challenge_covered (liveness s1) \/ foreign_challenge env s1)
               /\ same_pane s s1).
  { case_match.
    - destruct (escalate_core env s now Hcore Hcov) as [Ha Hb].
      pose proof (escalate_pane env s now) as Hc. by rewrite E1 in Ha, Hb, Hc.
    - injection E1 as <- <-. by split_and!; [|left|]. }
  destruct H1 as (C1 & Cov1 & P1).
  destruct (if quiet_expiry_due (liveness s) now then probe env s1 now else (s1, []))
    as [s2 out2] eqn:E2.
  assert (H2 : watchdog_core now s2 /\ (challenge_covered (liveness s2) \/ foreign_challenge env s2)
               /\ same_pane s1 s2).
  { case_match.
    - destruct (probe_core env s1 now C1) as [Ha Hb].
      pose proof (probe_pane env s1 now) as Hc. rewrite E2 in Ha, Hb, Hc. cbn [fst] in *.
      by split_and!; [|left|].
    - by injection E2 as <- <-. }
  destruct H2 as (C2 & Cov2 & P2). cbn [fst].
  destruct (arm_when_watchable_core env s2 now C2 Cov2) as (C3 & Cov3 & Harm).
  pose proof (arm_when_watchable_pane env s2 now) as P3.
  split_and!; [done|done|etrans; [exact P1|etrans; [exact P2|exact P3]]|].
  intros _ Hw. apply (same_pane_watchable _ _ _ P3) in Hw. split; [by apply Harm|].
  by apply arm_when_watchable_quiet.
Qed.

Lemma request_repair_core env s now :
  watchdog_core now s -> challenge_covered (liveness s) ->
  watchdog_core now (fst (request_repair_if_due env s now))
  /\ challenge_covered (liveness (fst (request_repair_if_due env s now))).
Proof.
  intros Hcore Hcov. unfold request_repair_if_due. case_match; [done|].
  destruct (generation s) as [token|]; [|done].
  destruct (repair_request s token now); [|done]. cbn [fst].
  apply begin_scoped_repair_core; [|done]. by eapply watchdog_core_same; [| |exact Hcore].
Qed.

Lemma sweep_replica_core env s now :
  watchdog_core now s -> challenge_covered (liveness s) ->
  let s' := fst (sweep_replica env s now) in
  watchdog_core now s' /\ challenge_covered (liveness s') /\ same_pane s s'
  /\ (visible env = true -> watchable env s' ->
        armed (liveness s')
        /\ (challenged_at_ms (liveness s') = None -> is_Some (quiet_due_ms (liveness s')))).
Proof.
  intros Hcore Hcov. cbn zeta. unfold sweep_replica.
  destruct (session_sweep_pane s now) as [P0 L0]. set (s0 := fst (session_sweep s now)) in *.
  assert (C0 : watchdog_core now s0).
  { eapply watchdog_core_same; [exact L0| |exact Hcore]. destruct P0 as (_&_&E&_). by rewrite E. }
  assert (Cov0 : challenge_covered (liveness s0)) by by rewrite L0.
  destruct (request_repair_core env s0 now C0 Cov0) as [C1 Cov1].
  pose proof (request_repair_pane env s0 now) as P1.
  destruct (request_repair_if_due env s0 now) as [s1 out1]. cbn [fst] in *.
  pose proof (sweep_foreground_core env s1 now C1 Cov1) as H.
  destruct (sweep_foreground_liveness env s1 now) as [s2 out2]. cbn [fst] in *.
  destruct H as (C2 & Cov2 & P2 & Harm). split_and!; [done|done| |done].
  etrans; [exact P0|]. by etrans.
Qed.

(** ** Every operation but a part *)

Definition no_parts (op : ReplicaOp) : bool := match op with OpChunk _ _ => false | _ => true end.

Section steps.
Context `{Sizes : WireSizes}.

Lemma refuse_frame_core last s reason token now :
  watchdog_core last s -> challenge_covered (liveness s) ->
  watchdog_core last (fst (refuse_frame s reason token now))
  /\ challenge_covered (liveness (fst (refuse_frame s reason token now))).
Proof.
  intros Hcore Hcov. unfold refuse_frame. destruct (latch _ _ _ _) as [l []]; cbn [fst].
  all: split; [by eapply watchdog_core_same; [| |exact Hcore]|done].
Qed.

Lemma fold_expected t frame : expected_stream_id (fst (fold t frame)) = expected_stream_id t.
Proof. unfold fold, fold_full, fold_delta. by repeat case_match. Qed.

Lemma admit_decoded_core s decoded token now :
  watchdog_core now s -> challenge_covered (liveness s) ->
  watchdog_core now (fst (admit_decoded s decoded token now))
  /\ challenge_covered (liveness (fst (admit_decoded s decoded token now))).
Proof.
  intros Hcore Hcov. unfold admit_decoded. cbn zeta.
  match goal with |- context [fold ?x decoded] => pose proof (fold_expected x decoded) as Hx end.
  destruct (fold _ decoded) as [t outcome]. cbn in Hx.
  destruct outcome; cbn [fst]; [apply note_accepted_core|apply note_accepted_core|apply refuse_frame_core];
    try done; (eapply watchdog_core_same; [| |exact Hcore]; [done|cbn; by rewrite Hx]).
Qed.

Lemma admit_frame_core s frame assembled token now :
  watchdog_core now s -> challenge_covered (liveness s) ->
  watchdog_core now (fst (admit_frame s frame assembled token now))
  /\ challenge_covered (liveness (fst (admit_frame s frame assembled token now))).
Proof.
  intros Hcore Hcov. unfold admit_frame. case_bool_decide; [done|].
  destruct (negb _); [by apply refuse_frame_core|]. case_bool_decide; [done|].
  assert (H1 : watchdog_core now (note_wire s (pb_stream_id frame) (pb_grid_epoch frame) (pb_seq frame)))
    by (by eapply watchdog_core_same; [| |exact Hcore]).
  destruct (decode_wire_frame frame assembled); [by apply admit_decoded_core|].
  by apply refuse_frame_core.
Qed.

Lemma replica_step_core s now op :
  no_parts op = true -> watchdog_core now s -> challenge_covered (liveness s) ->
  watchdog_core now (fst (replica_step s now op))
  /\ challenge_covered (liveness (fst (replica_step s now op))).
Proof.
  intros Hop Hcore Hcov.
  assert (Hsame : forall s', liveness s' = liveness s ->
            (is_Some (expected_stream_id (target s)) -> is_Some (expected_stream_id (target s'))) ->
            watchdog_core now s' /\ challenge_covered (liveness s')).
  { intros s' El Ee. split; [by eapply watchdog_core_same|by rewrite El]. }
  destruct op; cbn [replica_step fst]; try done; try (by apply Hsame).
  - unfold bind_generation. case_bool_decide; by apply Hsame.
  - unfold install_expected_stream. destruct (negb _ && _ && _); [done|]. cbn [fst].
    case_bool_decide; apply Hsame; try done; intros _; by eexists.
  - by apply admit_frame_core.
  - destruct (sweep_replica_core env s now Hcore Hcov) as (H1 & H2 & _). done.
  - by apply request_repair_core.
  - destruct Hcore as [Hq Hp He Hst]. split; [constructor; cbn; try done; by intros [? ?]|].
    intros Hs. cbn in Hs. by destruct Hs.
  - unfold open_view. repeat case_match; by apply Hsame.
  - unfold resize_view. repeat case_match; by apply Hsame.
  - unfold hide_view. repeat case_match; by apply Hsame.
  - unfold mark_view_published. repeat case_match; by apply Hsame.
  - unfold apply_view_state. repeat case_match; by apply Hsame.
Qed.
End steps.

(** The caller's clock never goes back. *)
Fixpoint clocked (last : Z) (ops : list (Z * ReplicaOp)) : Prop :=
  match ops with
  | [] => True
  | (now, _) :: rest => last <= now /\ clocked now rest
  end.

Lemma replica_run_core `{WireSizes} last s ops now :
  clocked last (ops ++ [now]) -> Forall (fun step => no_parts (snd step) = true) ops ->
  watchdog_core last s -> challenge_covered (liveness s) ->
  watchdog_core (fst now) (fst (replica_run s ops))
  /\ challenge_covered (liveness (fst (replica_run s ops))).
Proof.
  revert last s. induction ops as [|[at_ms op] ops IH]; intros last s Hclock Hall Hcore Hcov.
  - destruct now. cbn in *. split; [|done]. by eapply watchdog_core_later; [apply Hclock|].
  - apply Forall_cons in Hall as [Hop Hall]. destruct Hclock as [Hle Hclock]. cbn [replica_run snd] in *.
    destruct (replica_step_core s at_ms op Hop (watchdog_core_later _ _ _ Hle Hcore) Hcov) as [H1 H2].
    destruct (replica_step s at_ms op) as [s1 o1]. cbn [fst] in *.
    specialize (IH at_ms s1 Hclock Hall H1 H2). by destruct (replica_run s1 ops).
Qed.

(** A watched pane with no challenge out whose probe is due asks for its
    frames. *)
Lemma quiet_probe_requests env s now owner request :
  visible env = true -> elected_owner env s = Some owner -> is_Some (foreground_view s) ->
  challenged_at_ms (liveness s) = None -> challenge_stream_id (liveness s) = None ->
  quiet_expiry_due (liveness s) now = true -> scoped_resync s owner = Some request ->
  In request (snd (sweep_foreground_liveness env s now)).
Proof.
  intros Hv Ho [view Hf] Hc Hs Hq Hreq. unfold sweep_foreground_liveness. rewrite Hv. cbn [negb].
  rewrite Hq.
  assert (Hwatch : forall l, challenge_stream_id l = None -> watch env (with_liveness s l) = Watched owner).
  { intros l El. unfold watch. rewrite bool_decide_false.
    2: { intros E. unfold foreground_view, view_values in Hf, E. cbn in E. rewrite E in Hf. done. }
    cbn [liveness with_liveness]. rewrite El. cbn [bool_decide is_Some_dec andb].
    by rewrite (elected_owner_same env s) by done; rewrite Ho. }
  assert (Hwatch0 : watch env s = Watched owner).
  { specialize (Hwatch (liveness s) Hs). by destruct s. }
  assert (Hpend : forall l, challenged_at_ms l = None -> has_pending_challenge l owner = false).
  { intros l El. unfold has_pending_challenge. by rewrite El. }
  assert (Hprobe : forall l, challenged_at_ms l = None -> challenge_stream_id l = None ->
            snd (probe env (with_liveness s l) now) = [request]).
  { intros l E1 E2. unfold probe. rewrite Hwatch by done. unfold publish_challenge. cbn [liveness with_liveness].
    rewrite Hpend by done.
    replace (scoped_resync _ owner) with (Some request) by (rewrite <- Hreq; reflexivity). done. }
  assert (Hprobe0 : snd (probe env s now) = [request]).
  { specialize (Hprobe (liveness s) Hc Hs). by destruct s. }
  destruct (proof_expiry_due (liveness s) now).
  - unfold escalate. rewrite Hwatch0, Hpend by done. cbn [negb].
    specialize (Hprobe (clear_proof (liveness s)) Hc Hs).
    destruct (probe env _ now) as [s2 out]. cbn [snd] in *. subst out. by left.
  - destruct (probe env s now) as [s2 out]. cbn [snd] in *. subst out. by left.
Qed.

Lemma quiet_sweep_requests env s now owner request :
  visible env = true -> elected_owner env s = Some owner -> is_Some (foreground_view s) ->
  challenged_at_ms (liveness s) = None -> challenge_stream_id (liveness s) = None ->
  quiet_expiry_due (liveness s) now = true -> scoped_resync s owner = Some request ->
  In request (snd (sweep_replica env s now)).
Proof.
  intros Hv Ho Hf Hc Hs Hq Hreq. unfold sweep_replica.
  destruct (session_sweep_pane s now) as [P0 L0]. set (s0 := fst (session_sweep s now)) in *.
  assert (Ho0 : elected_owner env s0 = Some owner)
    by (rewrite (elected_owner_same env s s0) by apply P0; done).
  assert (Hreq0 : scoped_resync s0 owner = Some request) by (by rewrite (same_pane_resync s s0)).
  assert (Hf0 : is_Some (foreground_view s0)).
  { destruct P0 as (_&E&_). unfold foreground_view, view_values in *. by rewrite E. }
  rewrite <- L0 in Hc, Hs, Hq.
  assert (Hgen : generation s0 = Some owner).
  { unfold elected_owner in Ho0. destruct (generation s0); [|done]. cbn in Ho0.
    by case_bool_decide; [|done]. }
  unfold request_repair_if_due. rewrite Hgen.
  destruct (rotation_pending env).
  - pose proof (quiet_probe_requests env s0 now owner request Hv Ho0 Hf0 Hc Hs Hq Hreq0) as Hin.
    destruct (sweep_foreground_liveness env s0 now). by apply in_or_app; right.
  - unfold repair_request. destruct (_ || _).
    + pose proof (quiet_probe_requests env s0 now owner request Hv Ho0 Hf0 Hc Hs Hq Hreq0) as Hin.
      destruct (sweep_foreground_liveness env s0 now). by apply in_or_app; right.
    + rewrite Hreq0. destruct (sweep_foreground_liveness env _ now). by left.
Qed.

(** C36: while no chunk part arrives, no watched pane is left unwatched.  After
    any run on a clock that does not go back, a sweep of a visible document
    over a pane that is mounted, expects a stream and owns the elected carrier
    leaves it holding a deadline: an idle probe due within 30 seconds or the
    proof of its challenge due within 3.  If no challenge is out, the first
    sweep 30 seconds later asks for the pane's frames, whatever the back-off
    had reached. *)
Theorem watched_pane_has_deadline `{WireSizes} (session_id worker_fp : string)
    (ops : list (Z * ReplicaOp)) (env : SweepView) (now : Z) :
  clocked 0 (ops ++ [(now, OpSweep env)]) ->
  Forall (fun step => no_parts (snd step) = true) ops ->
  let s := fst (replica_run (TerminalSession_new session_id worker_fp) (ops ++ [(now, OpSweep env)])) in
  visible env = true -> watchable env s ->
  armed (liveness s)
  /\ due_by (now + TERMINAL_FOREGROUND_IDLE_PROBE_MAX_MS) (quiet_due_ms (liveness s))
  /\ due_by (now + TERMINAL_FOREGROUND_PROBE_DEADLINE_MS) (proof_due_ms (liveness s))
  /\ (challenged_at_ms (liveness s) = None ->
      forall later, now + TERMINAL_FOREGROUND_IDLE_PROBE_MAX_MS <= later ->
        exists owner request,
          generation s = Some owner /\ scoped_resync s owner = Some request
          /\ In request (snd (sweep_replica env s later))).
Proof.
  intros Hclock Hall s Hv Hw.
  destruct (replica_run_core 0 (TerminalSession_new session_id worker_fp) ops (now, OpSweep env)
              Hclock Hall) as [C0 Cov0]; [constructor; cbn; try done; by intros [? ?]| |].
  { intros Hs. cbn in Hs. by destruct Hs. }
  set (s0 := fst (replica_run (TerminalSession_new session_id worker_fp) ops)) in *.
  assert (E : s = fst (sweep_replica env s0 now)).
  { subst s s0. rewrite replica_run_app. cbn. by destruct (sweep_replica env _ now). }
  destruct (sweep_replica_core env s0 now C0 Cov0) as (C1 & _ & _ & Harm). rewrite <- E in C1, Harm.
  destruct (Harm Hv Hw) as [Ha Hquiet]. split_and!; [done|apply C1|apply C1|].
  intros Hc later Hlater. destruct (Hquiet Hc) as [due Hdue].
  destruct Hw as ([owner Ho] & Hs & Hf). pose proof Hf as [view Hview].
  destruct (scoped_resync_some s owner view Hs Hview) as [request Hreq].
  exists owner, request. split_and!; [|done|].
  - unfold elected_owner in Ho. destruct (generation s); [|done]. cbn in Ho.
    by case_bool_decide; [|done].
  - apply (quiet_sweep_requests env s later owner request); try done.
    + by apply C1.
    + pose proof (wc_quiet _ _ C1) as Hby. unfold quiet_expiry_due. rewrite Hdue in *. cbn in Hby.
      apply Z.leb_le. lia.
Qed.

(** ** The pane a part leaves unwatched *)

(** A visible document's sweeps. *)
Definition visible_sweeps (sweeps : list (Z * SweepView)) : list (Z * ReplicaOp) :=
  map (fun '(now, env) => (now, OpSweep env)) sweeps.

(** A pane nothing will wake: a challenge out with no deadline, and no gap. *)
Record unwatched (token : TerminalToken) (l : ForegroundLiveness) (s : TerminalSession) : Prop := {
  un_generation : generation s = Some token;
  un_pending : has_pending_challenge l token = true;
  un_disarmed : ~ armed l;
  un_liveness : liveness s = l;
  un_repair : repair s = RepairLatch_new;
}.

Lemma unwatched_sweep token l s env now :
  visible env = true -> unwatched token l s ->
  unwatched token l (fst (sweep_replica env s now)) /\ snd (sweep_replica env s now) = [].
Proof.
  intros Hv [Hg Hp Hd Hl Hr]. unfold sweep_replica.
  set (s0 := fst (session_sweep s now)).
  assert (H0 : unwatched token l s0).
  { subst s0. unfold session_sweep. destruct (expire (assembler s) now) as [a []]; cbn [negb fst].
    2: by constructor.
    cbn. rewrite Hr. by constructor. }
  clearbody s0. clear Hg Hl Hr. destruct H0 as [Hg _ _ Hl Hr].
  assert (E : request_repair_if_due env s0 now = (s0, [])).
  { unfold request_repair_if_due, repair_request. rewrite Hg, Hr. by destruct (rotation_pending env). }
  rewrite E. unfold sweep_foreground_liveness. rewrite Hv. cbn [negb].
  assert (Hnone : proof_due_ms l = None /\ quiet_due_ms l = None).
  { unfold armed in Hd. split; apply eq_None_not_Some; tauto. }
  destruct Hnone as [Hpn Hqn]. unfold proof_expiry_due, quiet_expiry_due. rewrite Hl, Hpn, Hqn.
  assert (Ea : arm_when_watchable env s0 now = s0).
  { unfold arm_when_watchable, elected_owner. rewrite Hg. cbn. case_bool_decide; [|done].
    destruct (_ || _); [done|]. by rewrite Hl, Hp. }
  rewrite Ea. cbn. split; [by constructor|done].
Qed.

Lemma unwatched_sweeps `{WireSizes} token l s sweeps :
  Forall (fun sweep => visible (snd sweep) = true) sweeps -> unwatched token l s ->
  unwatched token l (fst (replica_run s (visible_sweeps sweeps)))
  /\ snd (replica_run s (visible_sweeps sweeps)) = [].
Proof.
  revert s. induction sweeps as [|[now env] sweeps IH]; intros s Hall Hs; [done|].
  apply Forall_cons in Hall as [Hv Hall]. cbn [visible_sweeps map replica_run replica_step] in *.
  destruct (unwatched_sweep token l s env now Hv Hs) as [H1 H2].
  destruct (sweep_replica env s now) as [s1 out]. cbn [fst snd] in *. subst out.
  destruct (IH s1 Hall H1) as [H3 H4]. fold (visible_sweeps sweeps).
  by destruct (replica_run s1 (visible_sweeps sweeps)).
Qed.

(** The rule that every branch leaves the pane watched does not hold.  A
    replica whose idle probe has been taken and whose challenge is out, with no
    gap latched, receives one part of the answer: the part clears the proof
    deadline and arms nothing in its place.  From then on every sweep of the
    visible document, at whatever times and whatever carrier is elected, asks
    for nothing and arms nothing, although the transfer stalled and was
    dropped: the challenge stays out, and it keeps the probe from being
    armed. *)
Theorem chunk_part_disarms_watchdog `{WireSizes} (s : TerminalSession) (chunk : PbCellGridChunk)
    (part : PbCellGridFrame) (token : TerminalToken) (now : Z) (sweeps : list (Z * SweepView)) :
  quiet_due_ms (liveness s) = None ->
  has_pending_challenge (liveness s) token = true ->
  challenge_stream_id (liveness s) = Some (pb_stream_id part) ->
  default 0 (challenge_seq (liveness s)) <= pb_seq part ->
  repair s = RepairLatch_new ->
  ch_part chunk = Some part ->
  snd (admit_chunk s chunk token now) = ChunkPending ->
  Forall (fun sweep => visible (snd sweep) = true) sweeps ->
  let s' := fst (admit_chunk s chunk token now) in
  let '(later, effects) := replica_run s' (visible_sweeps sweeps) in
  effects = [] /\ ~ armed (liveness later)
  /\ has_pending_challenge (liveness later) token = true.
Proof.
  intros Hq Hp Hstream Hseq Hr Hpart Hpending Hall s'.
  assert (Hs : unwatched token (clear_proof (liveness s)) s').
  { subst s'. revert Hpending. unfold admit_chunk. case_bool_decide as Hg; [done|].
    rewrite Hpart.
    assert (Hno : forall s0 reason, snd (refuse_frame s0 reason token now) <> ChunkPending).
    { intros s0 reason. unfold refuse_frame. by destruct (latch _ _ _ _) as [? []]. }
    destruct (negb _); [by intros E%Hno|]. case_bool_decide; [done|].
    unfold note_chunk_progress. rewrite bool_decide_false by (intros Hn; by apply Hn).
    unfold chunk_arrives. rewrite Hp, Hstream, bool_decide_true by done.
    rewrite (proj2 (Z.leb_le _ _) Hseq). cbn [andb].
    destruct (push _ chunk now) as [a [[id next|id frame]|code]].
    - intros _. constructor; try done. intros [[? E]|[? E]]; [|done]. cbn in E. congruence.
    - destruct (decode_assembled_frame frame) as [decoded|]; [|by intros E%Hno].
      unfold admit_decoded. cbn zeta. destruct (fold _ decoded) as [t []]; [done|done|by intros E%Hno].
    - by intros E%Hno. }
  destruct (unwatched_sweeps token _ s' sweeps Hall Hs) as [[_ Hp' Hd Hl _] Hout].
  destruct (replica_run s' (visible_sweeps sweeps)) as [later effects]. cbn [fst snd] in *.
  by rewrite Hl.
Qed.

(** ** Witnesses *)

Section liveness_witnesses.
Local Existing Instance demo_unit_sizes.

Definition demo_view : SweepView := mkSweepView true (Some demo_token) true false.
Definition demo_part : PbCellGridFrame := demo_pb_frame true [demo_pb_row 0 97] 5 0.
Definition demo_chunk : PbCellGridChunk :=
  mkPbCellGridChunk "11111111-1111-4111-8111-111111111111" 0 2 (Some demo_part).

(** Quiet since its baseline at 10 ms, the pane is challenged at 5010 ms. *)
Definition demo_challenged : TerminalSession :=
  demo_replica (demo_ops ++ [(5010, OpSweep demo_view)]).

Lemma watched_pane_has_deadline_witness :
  let s := fst (replica_run (TerminalSession_new "s" "w") (demo_ops ++ [(5010, OpSweep demo_view)])) in
  watchable demo_view s /\ armed (liveness s) /\ proof_due_ms (liveness s) = Some 8010.
Proof.
  assert (Hc : clocked 0 (demo_ops ++ [(5010, OpSweep demo_view)]))
    by (repeat split; vm_compute; discriminate).
  assert (Hn : Forall (fun step => no_parts (snd step) = true) demo_ops) by (repeat constructor).
  pose proof (watched_pane_has_deadline "s" "w" demo_ops demo_view 5010 Hc Hn) as H.
  revert H. cbn zeta.
  assert (Hw : watchable demo_view
                 (fst (replica_run (TerminalSession_new "s" "w") (demo_ops ++ [(5010, OpSweep demo_view)]))))
    by (split; [eexists; vm_compute; reflexivity|split; eexists; vm_compute; reflexivity]).
  assert (Hp : proof_due_ms (liveness
                 (fst (replica_run (TerminalSession_new "s" "w") (demo_ops ++ [(5010, OpSweep demo_view)]))))
               = Some 8010) by (vm_compute; reflexivity).
  generalize dependent (fst (replica_run (TerminalSession_new "s" "w") (demo_ops ++ [(5010, OpSweep demo_view)]))).
  intros s Hw Hp H. destruct (H eq_refl Hw) as [Ha _]. by split.
Defined.

Lemma chunk_part_disarms_watchdog_witness :
  let s := fst (admit_chunk demo_challenged demo_chunk demo_token 5500) in
  snd (admit_chunk demo_challenged demo_chunk demo_token 5500) = ChunkPending
  /\ snd (replica_run s (visible_sweeps [(20000, demo_view); (3600000, demo_view)])) = [].
Proof.
  assert (E : snd (admit_chunk demo_challenged demo_chunk demo_token 5500) = ChunkPending)
    by (vm_compute; reflexivity).
  split; [exact E|].
  pose proof (chunk_part_disarms_watchdog demo_challenged demo_chunk demo_part demo_token 5500
                [(20000, demo_view); (3600000, demo_view)] ltac:(vm_compute; reflexivity)
                ltac:(vm_compute; reflexivity) ltac:(vm_compute; reflexivity)
                ltac:(vm_compute; discriminate) ltac:(vm_compute; reflexivity) eq_refl E
                ltac:(repeat constructor)) as H.
  cbn zeta in H. destruct (replica_run _ _) as [later effects] eqn:Hr. cbn [fst snd] in *.
  destruct H as [-> _]. reflexivity.
Defined.
End liveness_witnesses.
