(* ===== verification/TermEmitter.v ===== *)
(** * TermEmitter: a terminal's screen as frames

    Models [src/crates/roost-term/src/frame.rs], [emitter.rs] and the reading
    side of the trait [TerminalCore] of [core.rs]: a full snapshot, a delta,
    and the choice between them.  A core is the record of what its methods
    answer; the emulator behind it is third-party code, so a changed core is
    another record, and what links the two is the trait's documented contract
    ([dirty_contract], [history_contract]).  [sb_dropped + retained] is a sum of
    [u64]s the code does not check; it is a plain sum here. *)
From Stdlib Require Import Ascii String.
From S2P Require Export TermSpans CellDelta.

(** ** What a core answers ([core.rs]) *)

Record CursorState := mkCursorState { cur_row : Z; cur_col : Z; cur_visible : bool }.

Record CoreImagePlacement := mkCoreImagePlacement {
  cp_key : Z;
  cp_viewport_row : Z;
  cp_col : Z;
  cp_columns : Z;
  cp_rows : Z;
  cp_source_x : Z;
  cp_source_y : Z;
  cp_source_width : Z;
  cp_source_height : Z;
  cp_image_width : Z;
  cp_image_height : Z;
  cp_offset_x_px : Z;
  cp_offset_y_px : Z;
  cp_z_index : Z;
}.

Record TerminalCore := mkTerminalCore {
  core_cols : Z;
  core_rows : Z;
  core_scrollback_count : Z;
  core_discarded_line_count : option Z;
  core_viewport_cell : Z -> Z -> CellData;
  core_viewport_row_mark : Z -> Z;
  core_scrollback_line_len : Z -> Z;
  core_scrollback_cell : Z -> Z -> CellData;
  core_scrollback_row_mark : Z -> Z;
  core_is_dirty_row : Z -> bool;
  core_cursor : CursorState;
  core_using_alt_screen : bool;
  core_cursor_keys_app : bool;
  core_bracketed_paste : bool;
  core_mouse_tracking : MouseTracking;
  core_mouse_sgr : bool;
  core_focus_events : bool;
  core_kitty_keyboard_flags : Z;
  core_image_placements : list CoreImagePlacement;
}.

Inductive TerminalCoreError := NoDiscardedLineCount.

(** [TerminalCore::scrollback_origin]'s default, and [frame.rs]'s. *)
Definition scrollback_origin (core : TerminalCore) (base : Z) : result Z TerminalCoreError :=
  match core_discarded_line_count core with
  | Some discarded => Ok (saturating_add64 base discarded)
  | None => Err NoDiscardedLineCount
  end.

(** ** Rows ([frame.rs]) *)

Definition viewport_row (core : TerminalCore) (row cols : Z) : list CellSpan * Z :=
  let cells := core_viewport_cell core row <$> seqZ 0 cols in
  (row_to_spans cells (length cells), core_viewport_row_mark core row).

Definition scrollback_offset_row (core : TerminalCore) (offset : Z) : list CellSpan * Z :=
  let cells :=
    (fun col => core_scrollback_cell core offset (wrap 16 col))
      <$> seqZ 0 (core_scrollback_line_len core offset) in
  (row_to_spans cells (length cells), core_scrollback_row_mark core offset).

Definition scrollback_row (core : TerminalCore) (absolute retained sb_dropped : Z) : CellRow :=
  let offset := saturating_sub (saturating_sub retained 1) (absolute - sb_dropped) in
  let '(spans, mark) := scrollback_offset_row core offset in
  with_mark (Z.min absolute (2 ^ 32 - 1)) spans mark.

Definition viewport_cell_row (core : TerminalCore) (row : Z) : CellRow :=
  let '(spans, mark) := viewport_row core row (core_cols core) in with_mark row spans mark.

(** The rows of a viewport: [(0..rows).filter(..).map(..)]. *)
Definition viewport_rows_where (core : TerminalCore) (keep : Z -> bool) : list CellRow :=
  viewport_cell_row core <$> base.filter (fun row => keep row = true) (seqZ 0 (core_rows core)).

Definition scrollback_rows_between (core : TerminalCore) (start stop sb_dropped : Z) :
    list CellRow :=
  (fun absolute => scrollback_row core absolute (core_scrollback_count core) sb_dropped)
    <$> seqZ start (stop - start).

Definition clamp (v low high : Z) : Z := Z.max low (Z.min v high).

Definition read_scrollback_range (core : TerminalCore) (start stop sb_dropped : Z) : list CellRow :=
  let low := sb_dropped in
  let high := sb_dropped + core_scrollback_count core in
  let start := clamp start low high in
  let stop := clamp stop low high in
  if stop <=? start then [] else scrollback_rows_between core start stop sb_dropped.

(** ** Images *)

(** One placement in the frame's absolute rows, when its window shows it. *)
Definition frame_image_placement (total start stop : Z) (placement : CoreImagePlacement) :
    option ImagePlacement :=
  let row := total + cp_viewport_row placement in
  if (2 ^ 63 <=? total) || (2 ^ 63 <=? row) || (row <? 0) then None
  else if (saturating_add64 row (cp_rows placement) <=? start) || (stop <=? row)
          || (cp_columns placement =? 0) || (cp_rows placement =? 0)
  then None
  else
    Some (mkImagePlacement (cp_key placement) row (cp_col placement) (cp_columns placement)
            (cp_rows placement) (cp_source_x placement) (cp_source_y placement)
            (cp_source_width placement) (cp_source_height placement) (cp_image_width placement)
            (cp_image_height placement) (cp_offset_x_px placement) (cp_offset_y_px placement)
            (cp_z_index placement)).

(** [sort_by_key] is stable. *)
Fixpoint insert_placement (placement : ImagePlacement) (sorted : list ImagePlacement) :
    list ImagePlacement :=
  match sorted with
  | [] => [placement]
  | head :: rest =>
      if im_row placement <=? im_row head then placement :: sorted
      else head :: insert_placement placement rest
  end.

Definition frame_image_placements (core : TerminalCore) (frame : CellGridFrame) :
    list ImagePlacement :=
  let stop := saturating_add64 (f_scrollback_total frame) (f_rows frame) in
  foldr insert_placement []
    (omap (frame_image_placement (f_scrollback_total frame) (f_sb_base frame) stop)
       (core_image_placements core)).

(** ** Frames *)

Definition scalar_state (core : TerminalCore) (seq : Z) (grid_epoch stream_id : string)
    (sb_dropped base_seq : Z) (full : bool) (viewport_rows history append : list CellRow)
    (sb_base : Z) (images : option (list ImagePlacement)) : CellGridFrame :=
  mkCellGridFrame stream_id grid_epoch (core_cols core) (core_rows core)
    (cur_row (core_cursor core)) (cur_col (core_cursor core)) (cur_visible (core_cursor core))
    (core_using_alt_screen core) (core_cursor_keys_app core) (core_bracketed_paste core)
    (core_mouse_tracking core) (core_mouse_sgr core) (core_focus_events core)
    (core_kitty_keyboard_flags core) full viewport_rows history append
    (sb_dropped + core_scrollback_count core) sb_base base_seq seq images.

Definition with_images (f : CellGridFrame) (images : option (list ImagePlacement)) : CellGridFrame :=
  mkCellGridFrame (f_stream_id f) (f_grid_epoch f) (f_cols f) (f_rows f) (f_cursor_row f)
    (f_cursor_col f) (f_cursor_visible f) (f_alt_screen f) (f_cursor_keys_app f)
    (f_bracketed_paste f) (f_mouse_tracking f) (f_mouse_sgr f) (f_focus_events f)
    (f_kitty_keyboard_flags f) (f_full f) (f_viewport_rows f) (f_scrollback_rows f)
    (f_scrollback_append f) (f_scrollback_total f) (f_sb_base f) (f_base_seq f) (f_seq f) images.

Definition grid_to_cell_frame (core : TerminalCore) (seq : Z) (grid_epoch stream_id : string)
    (tail_rows : option Z) (sb_dropped : Z) : CellGridFrame :=
  let mono_total := sb_dropped + core_scrollback_count core in
  let sb_base :=
    match tail_rows with
    | None => sb_dropped
    | Some tail => Z.max sb_dropped (saturating_sub mono_total tail)
    end in
  let frame :=
    scalar_state core seq grid_epoch stream_id sb_dropped 0 true
      (viewport_rows_where core (fun _ => true))
      (scrollback_rows_between core sb_base mono_total sb_dropped) [] sb_base (Some []) in
  with_images frame (Some (frame_image_placements core frame)).

Definition grid_delta_frame (core : TerminalCore) (previous_mono_total seq base_seq : Z)
    (grid_epoch stream_id : string) (sb_dropped : Z) : CellGridFrame :=
  let frame :=
    scalar_state core seq grid_epoch stream_id sb_dropped base_seq false
      (viewport_rows_where core (core_is_dirty_row core)) []
      (read_scrollback_range core previous_mono_total (sb_dropped + core_scrollback_count core)
         sb_dropped) 0 None in
  with_images frame (Some (frame_image_placements core frame)).

(** ** The emitter ([emitter.rs]) *)

Definition LIVE_DELTA_SCROLLBACK_ROWS_CAP : Z := 250.

Record CellEmitState := mkCellEmitState {
  es_stream_id : string;
  es_grid_epoch_base : string;
  es_grid_epoch_revision : Z;
  es_seq : Z;
  es_last_scrollback_total : Z;
  es_sent_full : bool;
  es_cols : Z;
  es_rows : Z;
  es_alt : bool;
  es_scrollback_origin : Z;
  es_sb_dropped : Z;
  es_last_image_placements : option (list ImagePlacement);
}.

Definition CellEmitState_new (grid_epoch_base stream_id : string) : CellEmitState :=
  mkCellEmitState stream_id grid_epoch_base 0 0 0 false 0 0 false 0 0 None.

Definition epoch_name (base : string) (revision : Z) : string := base +:+ ":" +:+ pretty revision.

Definition grid_epoch (state : CellEmitState) : string :=
  epoch_name (es_grid_epoch_base state) (es_grid_epoch_revision state).

Definition semantic_reframe (core : TerminalCore) (state : CellEmitState) (force : bool)
    (sb_dropped mono_total : Z) : bool :=
  negb force && es_sent_full state
  && (negb (core_cols core =? es_cols state) || negb (core_rows core =? es_rows state)
      || negb (Bool.eqb (core_using_alt_screen core) (es_alt state))
      || (mono_total <? es_last_scrollback_total state)
      || (es_last_scrollback_total state <? sb_dropped)
      || (saturating_sub mono_total (es_last_scrollback_total state)
            <? saturating_sub sb_dropped (es_sb_dropped state))).

Definition live_delta_exceeds_cap (state : CellEmitState) (force reframe : bool) (mono_total : Z) :
    bool :=
  negb force && es_sent_full state && negb reframe
  && (LIVE_DELTA_SCROLLBACK_ROWS_CAP
        <? saturating_sub mono_total (es_last_scrollback_total state)).

Definition next_cell_frame (core : TerminalCore) (state : CellEmitState) (force : bool)
    (tail_rows : option Z) : result (CellGridFrame * CellEmitState) TerminalCoreError :=
  let? sb_dropped := scrollback_origin core (es_scrollback_origin state) in
  let mono_total := sb_dropped + core_scrollback_count core in
  let semantic := semantic_reframe core state force sb_dropped mono_total in
  let exceeds := live_delta_exceeds_cap state force semantic mono_total in
  let reframe := force || negb (es_sent_full state) || semantic || exceeds in
  let revision := es_grid_epoch_revision state + (if semantic then 1 else 0) in
  let epoch := epoch_name (es_grid_epoch_base state) revision in
  let seq := es_seq state + 1 in
  let frame :=
    if reframe
    then grid_to_cell_frame core seq epoch (es_stream_id state)
           (if exceeds then Some 0 else tail_rows) sb_dropped
    else grid_delta_frame core (es_last_scrollback_total state) seq (es_seq state) epoch
           (es_stream_id state) sb_dropped in
  let frame :=
    if negb (f_full frame) && bool_decide (f_image_placements frame = es_last_image_placements state)
    then with_images frame None else frame in
  Ok (frame,
      mkCellEmitState (es_stream_id state) (es_grid_epoch_base state) revision seq mono_total true
        (core_cols core) (core_rows core) (core_using_alt_screen core) (es_scrollback_origin state)
        sb_dropped
        (match f_image_placements frame with
         | Some placements => Some placements
         | None => es_last_image_placements state
         end)).

(** ** The contract of a core *)

(** The widths of the trait's answers. *)
Record core_typed (core : TerminalCore) : Prop := {
  ct_cols : fits 16 (core_cols core);
  ct_rows : fits 16 (core_rows core);
  ct_retained : 0 <= core_scrollback_count core;
}.

(** [is_dirty_row]: a row that did not change since [clear_dirty], which the
    caller ran on [before], holds the cells and the mark it held. *)
Definition dirty_contract (before after : TerminalCore) : Prop :=
  core_cols after = core_cols before -> core_rows after = core_rows before ->
  core_using_alt_screen after = core_using_alt_screen before ->
  forall row, 0 <= row < core_rows after -> core_is_dirty_row after row = false ->
    core_viewport_row_mark after row = core_viewport_row_mark before row
    /\ forall col, 0 <= col < core_cols after ->
         core_viewport_cell after row col = core_viewport_cell before row col.

(** ** Screens *)

(** The core's images that reach a row from [base] to the end of the viewport,
    in the order of their rows. *)
Definition images_from (core : TerminalCore) (total base : Z) : list ImagePlacement :=
  foldr insert_placement []
    (omap (frame_image_placement total base (saturating_add64 total (core_rows core)))
       (core_image_placements core)).

(** What a receiver must hold to paint [core] under the numbers and names that
    [state] gave its last frame, whose image set begins at row [base]. *)
Definition screen (core : TerminalCore) (state : CellEmitState) (base : Z) : CellGridFrame :=
  normalize_cell_grid_frame
    (with_images
       (grid_to_cell_frame core (es_seq state) (grid_epoch state) (es_stream_id state) (Some 0)
          (es_sb_dropped state))
       (Some (images_from core (es_sb_dropped state + core_scrollback_count core) base))).

Definition shows (core : TerminalCore) (state : CellEmitState) (base : Z) (held : CellGridFrame) : Prop :=
  normalize_cell_grid_frame held = screen core state base.

(** The row the image set of the last of some frames begins at: a full states
    the images of its own window, a delta those of all the history. *)
Definition image_base (frames : list CellGridFrame) : Z :=
  match last frames with Some frame => f_sb_base frame | None => 0 end.

Lemma insert_placement_perm placement sorted :
  insert_placement placement sorted ≡ₚ placement :: sorted.
Proof.
  induction sorted as [|head rest IH]; [done|]. cbn [insert_placement]. case_match; [done|].
  rewrite IH. apply Permutation_swap.
Qed.

Lemma insert_placement_sorted placement sorted :
  StronglySorted (fun a b => im_row a <= im_row b) sorted ->
  StronglySorted (fun a b => im_row a <= im_row b) (insert_placement placement sorted).
Proof.
  induction 1 as [|head rest Hs IH Hh]; cbn [insert_placement]; [by repeat constructor|].
  destruct (Z.leb_spec (im_row placement) (im_row head)) as [Hle|Hlt].
  - constructor; [by constructor|]. constructor; [done|].
    eapply Forall_impl; [exact Hh|]. cbn. lia.
  - constructor; [done|]. rewrite insert_placement_perm. constructor; [lia|done].
Qed.

(** The set in declarative terms. *)
Lemma images_from_spec core total base :
  StronglySorted (fun a b => im_row a <= im_row b) (images_from core total base)
  /\ images_from core total base
     ≡ₚ omap (frame_image_placement total base (saturating_add64 total (core_rows core)))
          (core_image_placements core).
Proof.
  unfold images_from. induction (omap _ _) as [|p l [IH1 IH2]]; cbn [foldr]; [by repeat constructor|].
  split; [by apply insert_placement_sorted|]. by rewrite insert_placement_perm, IH2.
Qed.

(** The emit state is the one the last emission from [core] left. *)
Record tracks (core : TerminalCore) (state : CellEmitState) : Prop := {
  tk_sent : es_sent_full state = true;
  tk_cols : es_cols state = core_cols core;
  tk_rows : es_rows state = core_rows core;
  tk_alt : es_alt state = core_using_alt_screen core;
  tk_total : es_last_scrollback_total state = es_sb_dropped state + core_scrollback_count core;
  tk_images : is_Some (es_last_image_placements state);
}.

(** ** Viewports *)

Lemma viewport_rows_all core :
  viewport_rows_where core (fun _ => true) = viewport_cell_row core <$> seqZ 0 (core_rows core).
Proof.
  unfold viewport_rows_where. f_equal. induction (seqZ 0 (core_rows core)) as [|x l IH]; [done|].
  rewrite filter_cons_True by done. by rewrite IH.
Qed.

Lemma length_viewport_rows_all core :
  0 <= core_rows core -> len (viewport_rows_where core (fun _ => true)) = core_rows core.
Proof. intros H. rewrite viewport_rows_all. unfold len. rewrite length_fmap, length_seqZ. lia. Qed.

Lemma viewport_rows_all_lookup core i :
  (Z.of_nat i < core_rows core) ->
  viewport_rows_where core (fun _ => true) !! i = Some (viewport_cell_row core (Z.of_nat i)).
Proof. intros H. rewrite viewport_rows_all, list_lookup_fmap, lookup_seqZ_lt by done. done. Qed.

Lemma viewport_rows_where_elem core keep r :
  r ∈ viewport_rows_where core keep
  <-> exists row, 0 <= row < core_rows core /\ keep row = true /\ r = viewport_cell_row core row.
Proof.
  unfold viewport_rows_where. rewrite list_elem_of_fmap. split.
  - intros (row & -> & [Hk Hin]%list_elem_of_filter). apply elem_of_seqZ in Hin.
    exists row. split_and!; [lia|lia|done|done].
  - intros (row & Hrow & Hk & ->). exists row. split; [done|].
    apply list_elem_of_filter. split; [done|]. apply elem_of_seqZ. lia.
Qed.

Lemma viewport_cell_row_index core row : row_index (viewport_cell_row core row) = row.
Proof. unfold viewport_cell_row. by destruct (viewport_row core row (core_cols core)). Qed.

Lemma viewport_slot core row : slot (viewport_cell_row core row) = Z.to_nat row.
Proof. unfold slot. by rewrite viewport_cell_row_index. Qed.

Lemma viewport_rows_where_nodup core keep : NoDup (slot <$> viewport_rows_where core keep).
Proof.
  unfold viewport_rows_where. rewrite <- list_fmap_compose.
  apply NoDup_fmap_2_strong; [|apply NoDup_filter, NoDup_seqZ].
  intros x y [_ Hx]%list_elem_of_filter [_ Hy]%list_elem_of_filter.
  apply elem_of_seqZ in Hx, Hy. unfold compose. rewrite !viewport_slot. lia.
Qed.

Lemma mark_changed_some changed rows :
  NoDup (slot <$> rows) -> (forall r, r ∈ rows -> changed !! slot r = Some false) ->
  is_Some (mark_changed changed rows).
Proof.
  revert changed. induction rows as [|row rest IH]; intros changed Hnd Hall; [by eexists|].
  cbn [mark_changed]. fold (slot row). rewrite (Hall row) by left. apply NoDup_cons in Hnd as [Hno Hnd].
  apply IH; [done|]. intros r Hr. rewrite list_lookup_insert_ne; [by apply Hall; right|].
  intros E. apply Hno. rewrite E. by apply list_elem_of_fmap_2.
Qed.

(** Rows that are not dirty are the rows that were. *)
Lemma clean_row_kept before after row :
  dirty_contract before after -> core_cols after = core_cols before ->
  core_rows after = core_rows before -> core_using_alt_screen after = core_using_alt_screen before ->
  0 <= row < core_rows after -> core_is_dirty_row after row = false ->
  viewport_cell_row after row = viewport_cell_row before row.
Proof.
  intros Hd Hc Hr Ha Hrow Hclean. destruct (Hd Hc Hr Ha row Hrow Hclean) as [Hmark Hcells].
  unfold viewport_cell_row, viewport_row. rewrite Hmark, Hc.
  assert (E : core_viewport_cell after row <$> seqZ 0 (core_cols before)
              = core_viewport_cell before row <$> seqZ 0 (core_cols before)).
  { apply list_fmap_ext. intros i col Hi. apply lookup_seqZ in Hi as [-> Hi]. apply Hcells. lia. }
  by rewrite E.
Qed.

(** The rows of a delta turn the viewport it was built on into the current
    one, whether or not the receiver shifts what it holds. *)
Lemma delta_rows_repaint before after held :
  dirty_contract before after -> core_cols after = core_cols before ->
  core_rows after = core_rows before -> core_using_alt_screen after = core_using_alt_screen before ->
  0 <= core_rows after ->
  length held = Z.to_nat (core_rows after) ->
  (held = viewport_rows_where before (fun _ => true)
   \/ len (viewport_rows_where after (core_is_dirty_row after)) = core_rows after) ->
  overwrite held (viewport_rows_where after (core_is_dirty_row after))
  = viewport_rows_where after (fun _ => true).
Proof.
  intros Hd Hc Hr Ha Hpos Hlen Hheld.
  assert (Hall : len (viewport_rows_where after (fun _ => true)) = core_rows after)
    by by apply length_viewport_rows_all.
  apply overwrite_exact.
  - unfold len in Hall. lia.
  - intros r (row & Hrow & _ & ->)%viewport_rows_where_elem. rewrite viewport_slot.
    rewrite viewport_rows_all_lookup by lia. by rewrite Z2Nat.id by lia.
  - intros i Hno. destruct (decide (Z.of_nat i < core_rows after)) as [Hi|Hi].
    2: { rewrite !lookup_ge_None_2; [done|unfold len in Hall; lia|lia]. }
    assert (Hclean : core_is_dirty_row after (Z.of_nat i) = false).
    { destruct (core_is_dirty_row after (Z.of_nat i)) eqn:E; [|done]. exfalso. apply Hno.
      apply list_elem_of_fmap. exists (viewport_cell_row after (Z.of_nat i)).
      split; [rewrite viewport_slot; lia|]. apply viewport_rows_where_elem.
      exists (Z.of_nat i). split_and!; [lia|lia|done|done]. }
    destruct Hheld as [->|Hfull].
    + rewrite !viewport_rows_all_lookup by lia. f_equal. symmetry.
      apply clean_row_kept; try done. lia.
    + exfalso. destruct (slots_cover (viewport_rows_where after (core_is_dirty_row after))
                           (Z.to_nat (core_rows after)) i) as (r & Hin & Hs).
      * apply viewport_rows_where_nodup.
      * intros r (row & Hrow & _ & ->)%viewport_rows_where_elem. rewrite viewport_slot. lia.
      * unfold len in Hfull. lia.
      * lia.
      * apply Hno. rewrite <- Hs. by apply list_elem_of_fmap_2.
Qed.

(** ** One emission *)

(** What [next_cell_frame] returns, read off its definition. *)
Lemma next_cell_frame_inv core state force tail frame state' :
  next_cell_frame core state force tail = Ok (frame, state') ->
  exists dropped semantic exceeds epoch,
    scrollback_origin core (es_scrollback_origin state) = Ok dropped
    /\ semantic = semantic_reframe core state force dropped (dropped + core_scrollback_count core)
    /\ exceeds = live_delta_exceeds_cap state force semantic (dropped + core_scrollback_count core)
    /\ epoch = epoch_name (es_grid_epoch_base state)
                 (es_grid_epoch_revision state + (if semantic then 1 else 0))
    /\ f_full frame = (force || negb (es_sent_full state) || semantic || exceeds)
    /\ (f_full frame = true ->
          frame = grid_to_cell_frame core (es_seq state + 1) epoch (es_stream_id state)
                    (if exceeds then Some 0 else tail) dropped)
    /\ (f_full frame = false ->
          exists images,
            let delta := grid_delta_frame core (es_last_scrollback_total state) (es_seq state + 1)
                           (es_seq state) epoch (es_stream_id state) dropped in
            frame = with_images delta images
            /\ images = (if bool_decide (f_image_placements delta = es_last_image_placements state)
                         then None else f_image_placements delta))
    /\ state' = mkCellEmitState (es_stream_id state) (es_grid_epoch_base state)
                  (es_grid_epoch_revision state + (if semantic then 1 else 0)) (es_seq state + 1)
                  (dropped + core_scrollback_count core) true (core_cols core) (core_rows core)
                  (core_using_alt_screen core) (es_scrollback_origin state) dropped
                  (match f_image_placements frame with
                   | Some placements => Some placements
                   | None => es_last_image_placements state
                   end).
Proof.
  unfold next_cell_frame. destruct (scrollback_origin _ _) as [dropped|] eqn:Ho; [|done].
  set (semantic := semantic_reframe _ _ _ _ _). set (exceeds := live_delta_exceeds_cap _ _ _ _).
  set (epoch := epoch_name _ _).
  destruct (force || negb (es_sent_full state) || semantic || exceeds) eqn:Hre.
  - cbn [grid_to_cell_frame]. intros H.
    change (f_full (grid_to_cell_frame core (es_seq state + 1) epoch (es_stream_id state)
                      (if exceeds then Some 0 else tail) dropped)) with true in H.
    cbn [negb andb] in H. injection H as <- <-.
    exists dropped, semantic, exceeds, epoch. by split_and!.
  - set (delta := grid_delta_frame _ _ _ _ _ _ _).
    change (f_full delta) with false. cbn [negb andb].
    intros H. exists dropped, semantic, exceeds, epoch.
    destruct (bool_decide (f_image_placements delta = es_last_image_placements state)) eqn:Hb;
      injection H as <- <-; split_and!; try done; intros _.
    + exists None. cbn zeta. fold delta. by rewrite Hb.
    + exists (f_image_placements delta). cbn zeta. fold delta. rewrite Hb. split; [|done]. by destruct delta.
Qed.

(** After any emission the state describes its core. *)
Lemma next_cell_frame_tracks core state force tail frame state' :
  next_cell_frame core state force tail = Ok (frame, state') ->
  (es_sent_full state = true -> is_Some (es_last_image_placements state)) ->
  tracks core state'
  /\ es_seq state' = es_seq state + 1 /\ es_stream_id state' = es_stream_id state
  /\ f_seq frame = es_seq state' /\ f_stream_id frame = es_stream_id state'
  /\ f_grid_epoch frame = grid_epoch state'
  /\ f_scrollback_total frame = es_last_scrollback_total state'.
Proof.
  intros (dropped & sem & exc & epoch & Ho & Hsem & Hexc & Hep & Hfull & Hf & Hd & ->)%next_cell_frame_inv Himg.
  assert (Hep' : epoch = grid_epoch (mkCellEmitState (es_stream_id state) (es_grid_epoch_base state)
                  (es_grid_epoch_revision state + (if sem then 1 else 0)) (es_seq state + 1)
                  (dropped + core_scrollback_count core) true (core_cols core) (core_rows core)
                  (core_using_alt_screen core) (es_scrollback_origin state) dropped None)) by done.
  destruct (f_full frame) eqn:E.
  - rewrite (Hf eq_refl). split_and!; try done; constructor; try done; by eexists.
  - destruct (Hd eq_refl) as (images & -> & Him). split_and!; try done. constructor; try done. cbn.
    destruct images as [images|]; [by eexists|]. apply Himg. clear -Hfull.
    destruct (es_sent_full state); [done|]. destruct force; done.
Qed.

(** A full frame is the screen. *)
Lemma full_shows core state force tail frame state' :
  next_cell_frame core state force tail = Ok (frame, state') -> f_full frame = true ->
  shows core state' (f_sb_base frame) frame
  /\ f_image_placements frame = es_last_image_placements state'.
Proof.
  intros (dropped & sem & exc & epoch & Ho & Hsem & Hexc & Hep & Hfull & Hf & Hd & ->)%next_cell_frame_inv E.
  rewrite (Hf E). subst epoch. unfold shows, screen, normalize_cell_grid_frame. done.
Qed.

(** When a delta may follow what the state describes. *)
Lemma delta_compatible core state force tail frame state' :
  next_cell_frame core state force tail = Ok (frame, state') -> f_full frame = false ->
  force = false /\ es_sent_full state = true
  /\ core_cols core = es_cols state /\ core_rows core = es_rows state
  /\ core_using_alt_screen core = es_alt state
  /\ es_grid_epoch_revision state' = es_grid_epoch_revision state
  /\ es_sb_dropped state' <= es_last_scrollback_total state <= es_last_scrollback_total state'
  /\ es_last_scrollback_total state' - es_last_scrollback_total state <= LIVE_DELTA_SCROLLBACK_ROWS_CAP.
Proof.
  intros (dropped & sem & exc & epoch & Ho & Hsem & Hexc & Hep & Hfull & Hf & Hd & ->)%next_cell_frame_inv E.
  rewrite E in Hfull. cbn. symmetry in Hfull.
  apply orb_false_iff in Hfull as [[[-> Hs%negb_false_iff]%orb_false_iff ->]%orb_false_iff ->].
  symmetry in Hsem, Hexc. unfold semantic_reframe in Hsem. unfold live_delta_exceeds_cap in Hexc.
  rewrite Hs in Hsem, Hexc. cbn [negb andb] in Hsem, Hexc.
  repeat (rewrite orb_false_iff in Hsem).
  destruct Hsem as [[[[[H1 H2] H3] H4] H5] H6].
  apply negb_false_iff, Z.eqb_eq in H1, H2. apply negb_false_iff, eqb_prop in H3.
  apply Z.ltb_ge in H4, H5, Hexc. unfold saturating_sub in *. split_and!; try done; lia.
Qed.

Lemma shows_fields core state base held :
  shows core state base held ->
  f_stream_id held = es_stream_id state /\ f_grid_epoch held = grid_epoch state
  /\ f_cols held = core_cols core /\ f_rows held = core_rows core
  /\ f_alt_screen held = core_using_alt_screen core /\ f_seq held = es_seq state
  /\ f_viewport_rows held = viewport_rows_where core (fun _ => true)
  /\ f_scrollback_total held = es_sb_dropped state + core_scrollback_count core.
Proof.
  intros H. split_and!;
    [exact (f_equal f_stream_id H)|exact (f_equal f_grid_epoch H)|exact (f_equal f_cols H)
    |exact (f_equal f_rows H)|exact (f_equal f_alt_screen H)|exact (f_equal f_seq H)
    |exact (f_equal f_viewport_rows H)
    |exact (f_equal f_scrollback_total H)].
Qed.

(** A delta applies to whatever shows the previous screen, and shows the next. *)
Lemma delta_shows before core state base held tail force frame state' retain :
  core_typed core -> tracks before state -> shows before state base held ->
  f_image_placements held = es_last_image_placements state ->
  dirty_contract before core -> 0 <= es_seq state < 2 ^ 64 - 1 ->
  next_cell_frame core state force tail = Ok (frame, state') -> f_full frame = false ->
  exists held',
    apply_delta_with_history held frame retain = Some held'
    /\ shows core state' (f_sb_base frame) held'
    /\ f_image_placements held' = es_last_image_placements state'
    /\ f_scrollback_rows held'
       = (if retain then f_scrollback_rows held ++ f_scrollback_append frame
          else f_scrollback_rows held)
    /\ f_sb_base held' = f_sb_base held.
Proof.
  intros [Hcols Hrows Hret] [Ts Tc Tr Ta Tt Ti] Hshow Himgs Hdirty Hseq Hnext E.
  destruct (delta_compatible _ _ _ _ _ _ Hnext E) as (-> & _ & Hc & Hr & Ha & Hrev & Hdrop & Hcap).
  apply next_cell_frame_inv in Hnext as (dropped & sem & exc & epoch & Ho & Hsem & Hexc & Hep & Hfull & _ & Hd & ->).
  destruct (Hd E) as (images & -> & Him). cbn in Hrev, Hdrop, Hcap.
  destruct (shows_fields _ _ _ _ Hshow) as (F1 & F2 & F3 & F4 & F5 & F6 & F7 & F9).
  assert (Hlen : len (f_viewport_rows held) = f_rows held).
  { rewrite F7, F4, length_viewport_rows_all; [done|]. rewrite <- Tr, <- Hr. apply Hrows. }
  assert (Hep2 : epoch = f_grid_epoch held).
  { rewrite F2, Hep. unfold grid_epoch. by rewrite Hrev. }
  set (delta := with_images _ images) in *.
  assert (Hfollows : delta_follows held delta = true).
  { assert (G : f_stream_id delta = f_stream_id held /\ f_grid_epoch delta = f_grid_epoch held
              /\ f_cols delta = f_cols held /\ f_rows delta = f_rows held
              /\ f_alt_screen delta = f_alt_screen held /\ f_base_seq delta = f_seq held
              /\ f_seq delta = f_seq held + 1 /\ f_scrollback_rows delta = []).
    { cbn. rewrite F1, F3, F4, F5, F6, Hc, Hr, Ha, Tc, Tr, Ta. by split_and!. }
    destruct G as (G1 & G2 & G3 & G4 & G5 & G6 & G7 & G8).
    unfold delta_follows. rewrite G1, G2, G3, G4, G5, G6, G7, G8, Hlen, F6, !Z.eqb_refl.
    rewrite !String.eqb_refl, Bool.eqb_reflx. by rewrite (proj2 (Z.ltb_lt _ _)) by lia. }
  assert (Hmark : is_Some (mark_changed (replicate (length (f_viewport_rows held)) false)
                             (f_viewport_rows delta))).
  { apply mark_changed_some; [apply viewport_rows_where_nodup|].
    intros r (row & Hrow & _ & ->)%viewport_rows_where_elem. rewrite viewport_slot.
    apply lookup_replicate. split; [done|]. unfold len in Hlen. rewrite F4 in Hlen. lia. }
  destruct Hmark as [marks Hmark].
  assert (Hrepaint : overwrite
      (if 0 <? delta_viewport_shift held delta
       then shift_rows (f_viewport_rows held) (Z.to_nat (f_rows held))
              (Z.to_nat (delta_viewport_shift held delta))
       else f_viewport_rows held) (f_viewport_rows delta)
      = viewport_rows_where core (fun _ => true)).
  { apply (delta_rows_repaint before core); [done|congruence|congruence|congruence|apply Hrows| |].
    - unfold len in Hlen. rewrite F4 in Hlen.
      assert (core_rows core = core_rows before) by congruence.
      destruct (0 <? delta_viewport_shift held delta); rewrite ?length_shift_rows; lia.
    - destruct (Z.ltb_spec 0 (delta_viewport_shift held delta)) as [Hs|Hs]; [|left; exact F7].
      right. apply viewport_shift_covers in Hs. cbn in Hs. rewrite Hs, F4. congruence. }
  unfold apply_delta_with_history. change (f_full delta) with false. rewrite Hfollows, Hmark. cbn [negb].
  eexists. split; [reflexivity|]. split_and!; [|cbn; by destruct images|done|done].
  unfold shows, screen, normalize_cell_grid_frame. rewrite Hrepaint. cbn.
  subst epoch. f_equal. subst images. cbn. case_bool_decide as Heq; [|done].
  by rewrite Himgs, <- Heq.
Qed.

(** ** History *)

(** [discarded_line_count] counts evictions, so it only grows, and a line that
    is retained across two observations keeps its cells and its mark, unless a
    resize reflowed it or another screen replaced it. *)
Definition history_contract (before after : TerminalCore) : Prop :=
  core_cols after = core_cols before -> core_rows after = core_rows before ->
  core_using_alt_screen after = core_using_alt_screen before ->
  forall d0 d1, core_discarded_line_count before = Some d0 ->
    core_discarded_line_count after = Some d1 ->
    d0 <= d1
    /\ forall line, d1 <= line < d1 + core_scrollback_count after ->
         line < d0 + core_scrollback_count before ->
         scrollback_offset_row after (d1 + core_scrollback_count after - 1 - line)
         = scrollback_offset_row before (d0 + core_scrollback_count before - 1 - line).

(** The held window is the lines from its base to the total, in order, and each
    that the core still retains is the core's. *)
Record window_shows (core : TerminalCore) (state : CellEmitState) (held : CellGridFrame) : Prop := {
  ws_append : f_scrollback_append held = [];
  ws_base : 0 <= f_sb_base held <= es_last_scrollback_total state;
  ws_len : len (f_scrollback_rows held) = es_last_scrollback_total state - f_sb_base held;
  ws_rows : forall i row, f_scrollback_rows held !! i = Some row ->
    row_index row = f_sb_base held + Z.of_nat i
    /\ (es_sb_dropped state <= f_sb_base held + Z.of_nat i ->
        row = scrollback_row core (f_sb_base held + Z.of_nat i) (core_scrollback_count core)
                (es_sb_dropped state));
}.

Lemma rows_between_lookup core start stop dropped i row :
  scrollback_rows_between core start stop dropped !! i = Some row ->
  row = scrollback_row core (start + Z.of_nat i) (core_scrollback_count core) dropped
  /\ start + Z.of_nat i < stop.
Proof.
  unfold scrollback_rows_between. rewrite list_lookup_fmap.
  destruct (seqZ start (stop - start) !! i) as [a|] eqn:E; [|done].
  apply lookup_seqZ in E as [-> Hi]. intros [= <-]. split; [done|lia].
Qed.

Lemma length_rows_between core start stop dropped :
  start <= stop -> len (scrollback_rows_between core start stop dropped) = stop - start.
Proof. intros H. unfold scrollback_rows_between, len. rewrite length_fmap, length_seqZ. lia. Qed.

Lemma scrollback_row_index core absolute retained dropped :
  absolute < 2 ^ 32 -> row_index (scrollback_row core absolute retained dropped) = absolute.
Proof.
  intros H. unfold scrollback_row. destruct (scrollback_offset_row _ _). cbn. lia.
Qed.

(** A retained line's row, by its newest-first offset. *)
Lemma scrollback_row_line core absolute dropped :
  dropped <= absolute < dropped + core_scrollback_count core ->
  scrollback_row core absolute (core_scrollback_count core) dropped
  = (let '(spans, mark) :=
       scrollback_offset_row core (dropped + core_scrollback_count core - 1 - absolute) in
     with_mark (Z.min absolute (2 ^ 32 - 1)) spans mark).
Proof.
  intros H. unfold scrollback_row, saturating_sub.
  by replace (Z.max 0 (Z.max 0 (core_scrollback_count core - 1) - (absolute - dropped)))
    with (dropped + core_scrollback_count core - 1 - absolute) by lia.
Qed.

(** The eviction origin, with no saturation. *)
Lemma origin_exact core base dropped :
  scrollback_origin core base = Ok dropped -> 0 <= base -> dropped < 2 ^ 64 - 1 ->
  exists d, core_discarded_line_count core = Some d /\ dropped = base + d.
Proof.
  unfold scrollback_origin. destruct (core_discarded_line_count core) as [d|]; [|done].
  intros [= <-] Hb Hlt. exists d. split; [done|]. unfold saturating_add64 in *. lia.
Qed.

Lemma full_window core state force tail frame state' :
  core_typed core -> next_cell_frame core state force tail = Ok (frame, state') ->
  f_full frame = true -> match tail with Some t => 0 <= t | None => True end ->
  0 <= es_sb_dropped state' -> es_last_scrollback_total state' < 2 ^ 32 ->
  window_shows core state' frame.
Proof.
  intros [_ _ Hret] (dropped & sem & exc & epoch & Ho & Hsem & Hexc & Hep & Hfull & Hf & _ & ->)%next_cell_frame_inv E Htail.
  cbn [es_sb_dropped es_last_scrollback_total]. intros Hd Htot.
  rewrite (Hf E). clear Hf. set (budget := if exc then Some 0 else tail).
  assert (Hb : match budget with Some t => 0 <= t | None => True end)
    by (subst budget; destruct exc; [lia|done]).
  clearbody budget. unfold grid_to_cell_frame.
  set (sb := match budget with Some t => _ | None => dropped end).
  assert (Hsb : dropped <= sb <= dropped + core_scrollback_count core).
  { subst sb. unfold saturating_sub. destruct budget; lia. }
  constructor; cbn.
  - done.
  - lia.
  - apply length_rows_between. lia.
  - intros i row [-> Hi]%rows_between_lookup. rewrite scrollback_row_index by lia. done.
Qed.

Lemma delta_window before core state held tail force frame state' held' :
  core_typed core -> core_typed before -> tracks before state -> window_shows before state held ->
  history_contract before core ->
  scrollback_origin before (es_scrollback_origin state) = Ok (es_sb_dropped state) ->
  0 <= es_scrollback_origin state ->
  next_cell_frame core state force tail = Ok (frame, state') -> f_full frame = false ->
  es_last_scrollback_total state' < 2 ^ 32 ->
  f_scrollback_rows held' = f_scrollback_rows held ++ f_scrollback_append frame ->
  f_sb_base held' = f_sb_base held -> f_scrollback_append held' = [] ->
  window_shows core state' held'.
Proof.
  intros [_ _ Hret] [_ _ Hret0] Htrack [Wa Wb Wl Wr] Hhist Ho0 Hbase Hnext E Htot Hrows Hsb Happ.
  destruct (delta_compatible _ _ _ _ _ _ Hnext E) as (_ & _ & Hcols & Hrws & Halt & _ & Hdrop & _).
  apply next_cell_frame_inv in Hnext as (dropped & sem & exc & epoch & Ho & _ & _ & _ & _ & _ & Hd & ->).
  destruct (Hd E) as (images & -> & _). cbn in Hdrop, Htot.
  assert (Hread : f_scrollback_append (with_images (grid_delta_frame core
             (es_last_scrollback_total state) (es_seq state + 1) (es_seq state) epoch
             (es_stream_id state) dropped) images)
           = scrollback_rows_between core (es_last_scrollback_total state)
               (dropped + core_scrollback_count core) dropped).
  { cbn. unfold read_scrollback_range, clamp.
    replace (Z.max dropped (Z.min (es_last_scrollback_total state) (dropped + core_scrollback_count core)))
      with (es_last_scrollback_total state) by lia.
    replace (Z.max dropped (Z.min (dropped + core_scrollback_count core) (dropped + core_scrollback_count core)))
      with (dropped + core_scrollback_count core) by lia.
    destruct (Z.leb_spec (dropped + core_scrollback_count core) (es_last_scrollback_total state)); [|done].
    unfold scrollback_rows_between.
    replace (dropped + core_scrollback_count core - es_last_scrollback_total state) with 0 by lia. done. }
  rewrite Hread in Hrows.
  pose proof (tk_total _ _ Htrack) as Ht.
  destruct (origin_exact core _ dropped Ho Hbase) as (d1 & Hd1 & ->); [lia|].
  destruct (origin_exact before _ (es_sb_dropped state) Ho0 Hbase) as (d0 & Hd0 & Ed0); [lia|].
  destruct Htrack as [_ Tc Tr Ta _ _].
  destruct (Hhist ltac:(congruence) ltac:(congruence) ltac:(congruence) d0 d1 Hd0 Hd1) as [Hmono Hlines].
  constructor; cbn [es_last_scrollback_total es_sb_dropped]; rewrite ?Hsb.
  - done.
  - lia.
  - rewrite Hrows, len_app, Wl, length_rows_between by lia. lia.
  - intros i row. rewrite Hrows. intros [Hi|[Hge Hi]]%lookup_app_Some.
    + destruct (Wr i row Hi) as [Hidx Heq]. split; [done|]. intros Hin.
      apply lookup_lt_Some in Hi. unfold len in Wl.
      rewrite Heq by lia. rewrite !scrollback_row_line by lia.
      replace (es_scrollback_origin state + d1 + core_scrollback_count core - 1 - (f_sb_base held + Z.of_nat i))
        with (d1 + core_scrollback_count core - 1 - (f_sb_base held + Z.of_nat i - es_scrollback_origin state)) by lia.
      rewrite Hlines by lia.
      by replace (es_sb_dropped state + core_scrollback_count before - 1 - (f_sb_base held + Z.of_nat i))
        with (d0 + core_scrollback_count before - 1 - (f_sb_base held + Z.of_nat i - es_scrollback_origin state))
        by lia.
    + apply rows_between_lookup in Hi as [-> Hi]. unfold len in Wl.
      replace (es_last_scrollback_total state + Z.of_nat (i - length (f_scrollback_rows held)))
        with (f_sb_base held + Z.of_nat i) in * by lia.
      rewrite scrollback_row_index by lia. done.
Qed.

(** A terminal of two rows and one column, over the lines that scrolled off. *)
Definition demo_core (history rows : list Z) (dirty : list Z) : TerminalCore :=
  let cell codepoint := plain_cell codepoint 1 in
  mkTerminalCore 1 2 (len history) (Some 0)
    (fun row _ => cell (rows !!! Z.to_nat row)) (fun _ => 0)
    (fun _ => 1) (fun offset _ => cell (reverse history !!! Z.to_nat offset)) (fun _ => 0)
    (fun row => bool_decide (row ∈ dirty)) (mkCursorState 1 0 true)
    false false false MouseNone false false 0 [].
