(* ===== verification/TermEmitterGuarantees.v ===== *)
(** * TermEmitterGuarantees: what a run of emissions shows

    The emitter of [TermEmitter] over a changing core, against the receivers of
    [CellDelta]: a replica that keeps history and a viewport-only checkpoint. *)
From Stdlib Require Import Ascii String.
From S2P Require Export TermEmitter.

(** One call of [next_cell_frame]: the core it reads, and its arguments. *)
Notation Emission := (TerminalCore * bool * option Z)%type.

(** Emissions in turn, the core's dirty rows cleared after each. *)
Fixpoint emit_all (state : CellEmitState) (emissions : list Emission) :
    result (list CellGridFrame * CellEmitState) TerminalCoreError :=
  match emissions with
  | [] => Ok ([], state)
  | (core, force, tail) :: rest =>
      let? emitted := next_cell_frame core state force tail in
      let? later := emit_all (snd emitted) rest in
      Ok (fst emitted :: fst later, snd later)
  end.

(** One observed core: its answers' widths, a count it reports, and a total
    that a row's index can hold. *)
Definition core_counted (origin : Z) (core : TerminalCore) : Prop :=
  core_typed core
  /\ exists discarded, core_discarded_line_count core = Some discarded /\ 0 <= discarded
       /\ origin + discarded + core_scrollback_count core < 2 ^ 32.

(** The cores of a run, each linked to the one before it. *)
Fixpoint observed (origin : Z) (before : option TerminalCore) (emissions : list Emission) : Prop :=
  match emissions with
  | [] => True
  | (core, _, tail) :: rest =>
      core_counted origin core
      /\ match tail with Some rows => 0 <= rows | None => True end
      /\ match before with
         | Some before => dirty_contract before core /\ history_contract before core
         | None => True
         end
      /\ observed origin (Some core) rest
  end.

(** The receivers start from nothing, so the first frame must be a full. *)
Definition starts_full (state : CellEmitState) (emissions : list Emission) : Prop :=
  match emissions with
  | [] => True
  | (_, force, _) :: _ =>
      es_sent_full state = false
      \/ (force = true /\ is_Some (es_last_image_placements state))
  end.

(** ** One step of a run *)

Record run_inv (origin : Z) (core : TerminalCore) (state : CellEmitState) (base : Z)
    (held : CellGridFrame) : Prop := {
  rv_tracks : tracks core state;
  rv_shows : shows core state base held;
  rv_window : window_shows core state held;
  rv_images : f_image_placements held = es_last_image_placements state;
  rv_origin : es_scrollback_origin state = origin;
  rv_dropped : scrollback_origin core origin = Ok (es_sb_dropped state);
}.

Lemma counted_origin origin core :
  0 <= origin -> core_counted origin core ->
  exists dropped, scrollback_origin core origin = Ok dropped /\ 0 <= dropped
    /\ dropped + core_scrollback_count core < 2 ^ 32.
Proof.
  intros Ho (Ht & d & Hd & Hpos & Htot). pose proof (ct_retained _ Ht). unfold scrollback_origin.
  rewrite Hd. eexists. split; [done|]. unfold saturating_add64. lia.
Qed.

(** An emission from a counted core always gives a frame. *)
Lemma emission_total origin core state force tail :
  0 <= origin -> core_counted origin core -> es_scrollback_origin state = origin ->
  exists frame state', next_cell_frame core state force tail = Ok (frame, state')
    /\ es_scrollback_origin state' = origin
    /\ scrollback_origin core origin = Ok (es_sb_dropped state')
    /\ 0 <= es_sb_dropped state' /\ es_last_scrollback_total state' < 2 ^ 32.
Proof.
  intros Hpos Hc Ho. destruct (counted_origin origin core Hpos Hc) as (dropped & Hd & H1 & H2).
  destruct (next_cell_frame core state force tail) as [[frame state']|] eqn:E.
  - exists frame, state'. split; [done|].
    apply next_cell_frame_inv in E as (d & sem & exc & ep & Hd' & Hsem & Hexc & Hep & Hfull & Hf & Hdl & ->). cbn.
    rewrite Ho, Hd in Hd'. injection Hd' as <-. by split_and!.
  - unfold next_cell_frame in E. by rewrite Ho, Hd in E.
Qed.

Lemma full_step origin core state force tail frame state' :
  0 <= origin -> core_counted origin core -> es_scrollback_origin state = origin ->
  match tail with Some rows => 0 <= rows | None => True end ->
  (es_sent_full state = true -> is_Some (es_last_image_placements state)) ->
  next_cell_frame core state force tail = Ok (frame, state') -> f_full frame = true ->
  run_inv origin core state' (f_sb_base frame) frame.
Proof.
  intros Hpos Hc Ho Htail Himg Hnext E.
  destruct (emission_total origin core state force tail Hpos Hc Ho)
    as (f & s & Hnext' & E1 & E2 & E3 & E4).
  rewrite Hnext in Hnext'. injection Hnext' as <- <-.
  constructor; try done.
  - by eapply next_cell_frame_tracks.
  - by eapply full_shows.
  - eapply full_window; [apply Hc|done|done|done|done|done].
  - by eapply full_shows.
Qed.

Lemma delta_step origin before core state base held force tail frame state' :
  0 <= origin -> core_counted origin core -> core_typed before ->
  run_inv origin before state base held ->
  dirty_contract before core -> history_contract before core -> 0 <= es_seq state < 2 ^ 64 - 1 ->
  next_cell_frame core state force tail = Ok (frame, state') -> f_full frame = false ->
  exists held', apply_delta held frame = Some held' /\ run_inv origin core state' (f_sb_base frame) held'.
Proof.
  intros Hpos Hc Hb [Tk Sh Wi Im Or Dr] Hd Hh Hseq Hnext E.
  destruct (emission_total origin core state force tail Hpos Hc Or)
    as (f & s & Hnext' & E1 & E2 & E3 & E4).
  rewrite Hnext in Hnext'. injection Hnext' as <- <-.
  destruct (delta_shows before core state base held tail force frame state' true) as
    (held' & Happ & Hshow & Himg & Hrows & Hsb); try done; [apply Hc|].
  exists held'. split; [exact Happ|]. constructor; try done.
  - eapply next_cell_frame_tracks; [exact Hnext|]. intros _. apply Tk.
  - eapply (delta_window before core state held); try done; [apply Hc|by rewrite Or|by rewrite Or|].
    apply apply_delta_shape in Happ; [|done]. apply Happ.
Qed.

(** ** Runs *)

Lemma emit_all_snoc state emissions core force tail :
  emit_all state (emissions ++ [(core, force, tail)])
  = (let? earlier := emit_all state emissions in
     let? emitted := next_cell_frame core (snd earlier) force tail in
     Ok (fst earlier ++ [fst emitted], snd emitted)).
Proof.
  revert state. induction emissions as [|[[c f] t] emissions IH]; intros state; cbn [app emit_all].
  - cbn [fst snd app]. by destruct (next_cell_frame core state force tail).
  - destruct (next_cell_frame c state f t) as [[frame s]|]; [|done]. cbn [snd fst]. rewrite IH.
    destruct (emit_all s emissions) as [[frames s']|]; [|done]. cbn [snd fst].
    by destruct (next_cell_frame core s' force tail).
Qed.

Lemma observed_snoc origin before emissions core force tail :
  observed origin before (emissions ++ [(core, force, tail)]) ->
  observed origin before emissions
  /\ core_counted origin core /\ match tail with Some rows => 0 <= rows | None => True end
  /\ match last emissions with
     | Some (previous, _, _) => dirty_contract previous core /\ history_contract previous core
     | None => match before with
               | Some previous => dirty_contract previous core /\ history_contract previous core
               | None => True
               end
     end.
Proof.
  revert before. induction emissions as [|[[c f] t] emissions IH]; intros before; cbn [app observed].
  - intros (H1 & H2 & H3 & _). by split_and!.
  - intros (H1 & H2 & H3 & H4). apply IH in H4 as (H5 & H6 & H7 & H8). split_and!; try done.
    destruct emissions as [|e emissions]; [exact H8|]. rewrite last_cons_cons.
    destruct (last (e :: emissions)) as [[[]]|] eqn:El; [exact H8|]. by apply last_None in El.
Qed.

(** What a nonempty run has done. *)
Record run_done (origin : Z) (start : CellEmitState) (emissions : list Emission)
    (frames : list CellGridFrame) (state : CellEmitState) (core : TerminalCore)
    (held : CellGridFrame) : Prop := {
  rd_last : exists force tail, last emissions = Some (core, force, tail);
  rd_counted : core_counted origin core;
  rd_mirror : mirror replica_step frames = Some held;
  rd_inv : run_inv origin core state (image_base frames) held;
  rd_seq : es_seq state = es_seq start + len emissions;
  rd_frames : f_seq <$> frames = seqZ (es_seq start + 1) (len emissions);
}.

Lemma run_first origin state core force tail :
  0 <= origin -> es_scrollback_origin state = origin -> core_counted origin core ->
  match tail with Some rows => 0 <= rows | None => True end ->
  starts_full state [(core, force, tail)] ->
  exists frame state', next_cell_frame core state force tail = Ok (frame, state')
    /\ run_done origin state [(core, force, tail)] [frame] state' core frame.
Proof.
  intros Hpos Ho Hc Ht Hs.
  destruct (emission_total origin core state force tail Hpos Hc Ho) as (frame & state' & Hn & _).
  assert (Himg : es_sent_full state = true -> is_Some (es_last_image_placements state)).
  { destruct Hs as [Hs|[_ Hs]]; [by rewrite Hs|done]. }
  assert (E : f_full frame = true).
  { pose proof Hn as Hn'.
    apply next_cell_frame_inv in Hn' as (d & sem & exc & ep & Hd' & Hsem & Hexc & Hep & Hf & Hfr & Hdl & Hst).
    rewrite Hf. destruct Hs as [->|[-> _]]; [|done]. by destruct force. }
  destruct (next_cell_frame_tracks _ _ _ _ _ _ Hn Himg) as (_ & Hq & _ & Hfq & _).
  exists frame, state'. split; [done|]. constructor.
  - by exists force, tail.
  - done.
  - unfold mirror, keep, replica_step. cbn. by rewrite E.
  - by eapply full_step.
  - by rewrite Hq, len_cons, len_nil.
  - change (len [(core, force, tail)]) with 1. rewrite (seqZ_cons _ 1) by lia. cbn. by rewrite Hfq, Hq.
Qed.

Lemma run_next origin start emissions frames state before held core force tail :
  0 <= origin -> 0 <= es_seq start -> es_seq start + len emissions < 2 ^ 64 - 1 ->
  run_done origin start emissions frames state before held ->
  core_counted origin core -> match tail with Some rows => 0 <= rows | None => True end ->
  dirty_contract before core -> history_contract before core ->
  exists frame state' held', next_cell_frame core state force tail = Ok (frame, state')
    /\ run_done origin start (emissions ++ [(core, force, tail)]) (frames ++ [frame]) state' core held'.
Proof.
  intros Hpos Hq Hbound [_ Hb Hm Hi Hseq Hfr] Hc Ht Hd Hh.
  pose proof (rv_origin _ _ _ _ _ Hi) as Ho.
  destruct (emission_total origin core state force tail Hpos Hc Ho) as (frame & state' & Hn & _).
  pose proof (rv_tracks _ _ _ _ _ Hi) as Htk.
  destruct (next_cell_frame_tracks _ _ _ _ _ _ Hn (fun _ => tk_images _ _ Htk)) as (_ & Eq & _ & Efq & _).
  pose proof (len_nonneg emissions) as Hlen.
  assert (Hstep : exists held', keep replica_step (Some held) frame = Some held'
                               /\ run_inv origin core state' (f_sb_base frame) held').
  { destruct (f_full frame) eqn:E.
    - exists frame. split; [|eapply full_step; try done; intros _; apply Htk].
      unfold keep, replica_step, apply_delta, apply_delta_with_history. by rewrite E.
    - destruct (delta_step origin before core state (image_base frames) held force tail frame state')
        as (held' & Happ & Hi'); try done; [apply Hb|lia|].
      exists held'. split; [|done]. unfold keep, replica_step. by rewrite Happ. }
  destruct Hstep as (held' & Hkeep & Hi').
  exists frame, state', held'. split; [done|]. constructor; try done.
  - exists force, tail. by rewrite last_snoc.
  - by rewrite mirror_snoc, Hm.
  - unfold image_base. by rewrite last_snoc.
  - rewrite Eq, Hseq, len_app, len_cons, len_nil. lia.
  - rewrite fmap_app, Hfr, len_app. change (len [(core, force, tail)]) with 1.
    rewrite seqZ_app by lia. cbn [fmap list_fmap]. f_equal. rewrite (seqZ_cons _ 1) by lia.
    rewrite Efq, Eq, Hseq. f_equal. lia.
Qed.

Lemma run_all origin state emissions :
  0 <= origin -> es_scrollback_origin state = origin -> 0 <= es_seq state ->
  es_seq state + len emissions < 2 ^ 64 -> emissions <> [] ->
  observed origin None emissions -> starts_full state emissions ->
  exists frames state' core held, emit_all state emissions = Ok (frames, state')
    /\ run_done origin state emissions frames state' core held.
Proof.
  intros Hpos Ho Hq. induction emissions as [|[[core force] tail] emissions IH] using rev_ind; [done|].
  intros Hbound _ Hobs Hstart. rewrite len_app, len_cons, len_nil in Hbound.
  apply observed_snoc in Hobs as (Hobs & Hc & Ht & Hlink).
  destruct (decide (emissions = [])) as [->|Hne].
  - destruct (run_first origin state core force tail Hpos Ho Hc Ht Hstart) as (frame & state' & Hn & Hd).
    exists [frame], state', core, frame. split; [|exact Hd]. cbn. by rewrite Hn.
  - destruct IH as (frames & state' & before & held & Hall & Hd); [lia|done|done| |].
    { destruct emissions as [|[[c f] t] l]; [done|]. exact Hstart. }
    destruct (rd_last _ _ _ _ _ _ _ Hd) as (f0 & t0 & Hlast). rewrite Hlast in Hlink.
    destruct (run_next origin state emissions frames state' before held core force tail)
      as (frame & state'' & held' & Hn & Hd'); try done; try lia; try apply Hlink.
    exists (frames ++ [frame]), state'', core, held'. split; [|done].
    rewrite emit_all_snoc, Hall. cbn [snd fst]. by rewrite Hn.
Qed.

(** ** A small run *)

Definition with_pictures (core : TerminalCore) (images : list CoreImagePlacement) : TerminalCore :=
  mkTerminalCore (core_cols core) (core_rows core) (core_scrollback_count core)
    (core_discarded_line_count core) (core_viewport_cell core) (core_viewport_row_mark core)
    (core_scrollback_line_len core) (core_scrollback_cell core)
    (core_scrollback_row_mark core) (core_is_dirty_row core) (core_cursor core)
    (core_using_alt_screen core) (core_cursor_keys_app core) (core_bracketed_paste core)
    (core_mouse_tracking core) (core_mouse_sgr core) (core_focus_events core)
    (core_kitty_keyboard_flags core) images.

(** A picture of one cell at a row of the viewport, or above it. *)
Definition demo_picture (row : Z) : CoreImagePlacement :=
  mkCoreImagePlacement 5 row 0 1 1 0 0 8 8 8 8 0 0 0.

(** Two letters and a picture; a third letter scrolls the first and the picture
    off; the last row is overwritten and the picture deleted. *)
Definition demo_run : list Emission :=
  [(with_pictures (demo_core [] [97; 98] [0; 1]) [demo_picture 0], false, None);
   (with_pictures (demo_core [97] [98; 99] [0; 1]) [demo_picture (-1)], false, None)].

Definition demo_last : TerminalCore := with_pictures (demo_core [97] [98; 100] [1]) [].

Lemma demo_counted history rows dirty images :
  len history < 2 ^ 32 -> core_counted 0 (with_pictures (demo_core history rows dirty) images).
Proof.
  intros H. split; [by constructor; cbn; try apply len_nonneg|].
  exists 0. by split_and!.
Qed.

Lemma demo_dirty before before' rows rows' dirty dirty' images images' :
  Forall (fun row => row ∈ dirty' \/ rows' !!! Z.to_nat row = rows !!! Z.to_nat row) [0; 1] ->
  dirty_contract (with_pictures (demo_core before rows dirty) images)
    (with_pictures (demo_core before' rows' dirty') images').
Proof.
  intros Hkept _ _ _ row Hrow Hclean. apply bool_decide_eq_false in Hclean. split; [done|].
  intros col _. rewrite Forall_forall in Hkept. destruct (Hkept row) as [?|E]; [|done|].
  - cbn in Hrow. assert (row = 0 \/ row = 1) as [-> | ->] by lia; set_solver.
  - cbn. by rewrite E.
Qed.

Lemma demo_history history more rows rows' dirty dirty' images images' :
  history_contract (with_pictures (demo_core history rows dirty) images)
    (with_pictures (demo_core (history ++ more) rows' dirty') images').
Proof.
  intros _ _ _ d0 d1 [= <-] [= <-]. split; [done|]. cbn. intros line H1 H2.
  assert (E : forall (l : list Z), line < len l ->
                reverse l !! Z.to_nat (len l - 1 - line) = l !! Z.to_nat line).
  { intros l Hl. unfold len in *. rewrite reverse_lookup by lia. f_equal. lia. }
  unfold scrollback_offset_row. cbn. rewrite !list_lookup_total_alt.
  replace (0 + len (history ++ more) - 1 - line) with (len (history ++ more) - 1 - line) by lia.
  replace (0 + len history - 1 - line) with (len history - 1 - line) by lia.
  rewrite !E by lia. rewrite lookup_app_l by (unfold len in *; lia). done.
Qed.

(** C34: what the emitter sends is the screen.  Let a fresh or forced emitter be
    called once per observation of a changing core, the core keeping its
    documented promises about dirty rows and discarded lines.  Every call gives
    a frame, the frames are numbered one after the other, and a client that
    folds them, keeping history, holds the last core's screen and, for every
    line the core still retains, the core's row under its absolute index; a
    checkpoint that folds the same frames is exactly a fresh full snapshot of
    that screen without history.  The screen is the core's own: its rows, its
    cursor and modes, and its images, all those that reach a row from the last
    full's window on, or, after a delta, from the first row there ever was.  So a
    delta, whichever rows it left out, whatever the client shifted and whether or
    not it restated the images, is worth a full frame. *)
Theorem emitter_refines_screen (origin : Z) (state : CellEmitState) (emissions : list Emission)
    (core : TerminalCore) (force : bool) (tail : option Z)
    (Horigin : 0 <= origin) (Hstate : es_scrollback_origin state = origin)
    (Hseq : 0 <= es_seq state) (Hbound : es_seq state + len emissions + 1 < 2 ^ 64)
    (Hobserved : observed origin None (emissions ++ [(core, force, tail)]))
    (Hfirst : starts_full state (emissions ++ [(core, force, tail)])) :
  exists frames state' held,
    emit_all state (emissions ++ [(core, force, tail)]) = Ok (frames, state')
    /\ f_seq <$> frames = seqZ (es_seq state + 1) (len emissions + 1)
    /\ mirror replica_step frames = Some held
    /\ shows core state' (image_base frames) held /\ window_shows core state' held
    /\ mirror apply_viewport_frame frames = Some (screen core state' (image_base frames)).
Proof.
  destruct (run_all origin state (emissions ++ [(core, force, tail)]))
    as (frames & state' & core' & held & Hall & [Hlast _ Hm Hi _ Hfr]); try done.
  { rewrite len_app, len_cons, len_nil. lia. }
  { by destruct emissions. }
  destruct Hlast as (f & t & Hlast). rewrite last_snoc in Hlast. injection Hlast as <- _ _.
  destruct Hi as [_ Hs Hw _ _ _]. rewrite len_app, len_cons, len_nil in Hfr.
  exists frames, state', held. split_and!; try done.
  by rewrite checkpoint_mirror, Hm, <- Hs.
Qed.

Lemma emitter_refines_screen_witness :
  exists frames state' held,
    emit_all (CellEmitState_new "g" "s") (demo_run ++ [(demo_last, false, None)])
      = Ok (frames, state')
    /\ f_full <$> frames = [true; false; false]
    /\ (length ∘ f_viewport_rows) <$> frames = [2; 2; 1]%nat
    /\ fmap length <$> (f_image_placements <$> frames) = [Some 1%nat; None; Some 0%nat]
    /\ shows demo_last state' 0 held /\ window_shows demo_last state' held
    /\ mirror apply_viewport_frame frames = Some (screen demo_last state' 0).
Proof.
  destruct (emitter_refines_screen 0 (CellEmitState_new "g" "s") demo_run demo_last false None)
    as (frames & state' & held & Hall & _ & _ & H1 & H2 & H3).
  - lia.
  - reflexivity.
  - cbn. lia.
  - by vm_compute.
  - cbn [app demo_run observed]. split_and!; try done; try (by apply demo_counted).
    + apply demo_dirty, (bool_decide_unpack _). by vm_compute.
    + apply (demo_history [] [97]).
    + apply demo_dirty, (bool_decide_unpack _). by vm_compute.
    + apply (demo_history [97] []).
  - left. reflexivity.
  - exists frames, state', held. split; [exact Hall|].
    assert (E : f_full <$> frames = [true; false; false]
                /\ (length ∘ f_viewport_rows) <$> frames = [2; 2; 1]%nat
                /\ fmap length <$> (f_image_placements <$> frames) = [Some 1%nat; None; Some 0%nat]
                /\ image_base frames = 0).
    { clear -Hall. vm_compute in Hall. injection Hall as <- _. by vm_compute. }
    destruct E as (E1 & E2 & E3 & E4). rewrite E4 in H1, H3. by split_and!.
Defined.
