(* ===== verification/SyncOutput.v ===== *)
(** * SyncOutput: the synchronized-output mode of a byte stream

    Models the scan of [src/crates/roost-worker/src/session/sync_output.rs]
    ([SyncOutputScan], [parse_private_mode]) and the hold's two ceilings of
    [stream_fence.rs] ([SyncOutputHold]).  An [Instant] is a count of
    nanoseconds.  The emitter's use of both is [CellEmitter]'s. *)
From S2P Require Export Prelude.
From coqutil Require Import Byte.
Import Corelib.Init.Byte.

(** ** The scan *)

Definition SYNC_SCAN_CARRY_MAX : Z := 32.

Inductive PrivateMode :=
| Incomplete
| Other
| SetMode (names_sync : bool) (length : nat)
| ResetMode (names_sync : bool) (length : nat).

Definition ESC : byte := x1b.

Definition byte_value (b : byte) : Z := byte.unsigned b.

Definition is_digit (b : byte) : bool := (48 <=? byte_value b) && (byte_value b <=? 57).

(** [param.saturating_mul(10).saturating_add(digit)] on [u32]. *)
Definition next_param (param digit : Z) : Z :=
  Z.min (2 ^ 32 - 1) (Z.min (2 ^ 32 - 1) (param * 10) + digit).

(** The parameter bytes, from [index] on. *)
Fixpoint parse_parameters (names_sync : bool) (param : Z) (index : nat) (bytes : list byte) :
    PrivateMode :=
  match bytes with
  | [] => Incomplete
  | b :: rest =>
      if is_digit b then parse_parameters names_sync (next_param param (byte_value b - 48)) (S index) rest
      else if decide (b = x3b) then
        parse_parameters (names_sync || (param =? 2026)) 0 (S index) rest
      else if decide (b = x68) then SetMode (names_sync || (param =? 2026)) (S index)
      else if decide (b = x6c) then ResetMode (names_sync || (param =? 2026)) (S index)
      else Other
  end.

(** The bytes the prefix loop compares; [None] once all three are there. *)
Fixpoint check_prefix (expected bytes : list byte) : option PrivateMode :=
  match expected, bytes with
  | [], _ => None
  | _ :: _, [] => Some Incomplete
  | want :: expected, b :: bytes =>
      if decide (b = want) then check_prefix expected bytes else Some Other
  end.

Definition MODE_PREFIX : list byte := [ESC; x5b; x3f].

Definition parse_private_mode (bytes : list byte) : PrivateMode :=
  match check_prefix MODE_PREFIX bytes with
  | Some answer => answer
  | None => parse_parameters false 0 3 (drop 3 bytes)
  end.

Record SyncOutputScan := mkSyncOutputScan { open : bool; generation : Z; carry : list byte }.

Definition SyncOutputScan_default : SyncOutputScan := mkSyncOutputScan false 0 [].

(** [input[cursor..]] from its first escape on. *)
Fixpoint from_escape (input : list byte) : option (list byte) :=
  match input with
  | [] => None
  | b :: rest => if decide (b = ESC) then Some input else from_escape rest
  end.

Definition set_mode (scan : SyncOutputScan) : SyncOutputScan :=
  if open scan then scan else mkSyncOutputScan true (generation scan + 1) (carry scan).

Definition reset_mode (scan : SyncOutputScan) : SyncOutputScan :=
  mkSyncOutputScan false (generation scan) (carry scan).

(** The loop of [observe], over what is left of the input. *)
Fixpoint observe_loop (fuel : nat) (scan : SyncOutputScan) (input : list byte) : SyncOutputScan :=
  match fuel with
  | O => scan
  | S fuel =>
      match from_escape input with
      | None => scan
      | Some tail =>
          match parse_private_mode tail with
          | Incomplete =>
              if len tail <=? SYNC_SCAN_CARRY_MAX
              then mkSyncOutputScan (open scan) (generation scan) tail else scan
          | Other => observe_loop fuel scan (drop 1 tail)
          | SetMode names_sync length =>
              observe_loop fuel (if names_sync then set_mode scan else scan) (drop length tail)
          | ResetMode names_sync length =>
              observe_loop fuel (if names_sync then reset_mode scan else scan) (drop length tail)
          end
      end
  end.

Definition observe (scan : SyncOutputScan) (chunk : list byte) : SyncOutputScan :=
  let input := carry scan ++ chunk in
  observe_loop (S (length input)) (mkSyncOutputScan (open scan) (generation scan) []) input.

(** ** The hold ([stream_fence.rs]) *)

Definition SYNC_OUTPUT_MAX_SILENT : Z := 1000000000.
Definition SYNC_OUTPUT_MAX_PENDING_ROWS : Z := 2000.

Inductive HoldAction := Withhold | Release.

Record SyncOutputHold := mkSyncOutputHold { open_since : option Z; pending_rows : Z }.

Definition SyncOutputHold_new : SyncOutputHold := mkSyncOutputHold None 0.

Definition is_open (hold : SyncOutputHold) : bool := bool_decide (is_Some (open_since hold)).

Definition hold_open (hold : SyncOutputHold) (now : Z) : SyncOutputHold :=
  if is_open hold then hold else mkSyncOutputHold (Some now) 0.

Definition hold_close (hold : SyncOutputHold) : SyncOutputHold := mkSyncOutputHold None 0.

Definition measure_pending (hold : SyncOutputHold) (rows : Z) : SyncOutputHold :=
  if is_open hold then mkSyncOutputHold (open_since hold) rows else hold.

Definition hold_deadline (hold : SyncOutputHold) : option Z :=
  (fun since => since + SYNC_OUTPUT_MAX_SILENT) <$> open_since hold.

Definition rows_exceeded (hold : SyncOutputHold) : bool :=
  is_open hold && (SYNC_OUTPUT_MAX_PENDING_ROWS <=? pending_rows hold).

Definition hold_action (hold : SyncOutputHold) (now : Z) : HoldAction :=
  match open_since hold with
  | None => Release
  | Some since =>
      if SYNC_OUTPUT_MAX_PENDING_ROWS <=? pending_rows hold then Release
      else if SYNC_OUTPUT_MAX_SILENT <=? saturating_sub now since then Release
      else Withhold
  end.

(** ** A reference: one byte at a time

    An automaton that never forgets: how far into [ESC [ ? params] it is, how
    many bytes that took, and the mode. *)

Inductive Position :=
| InPrefix (expected : list byte)
| InParameters (names_sync : bool) (param : Z).

Inductive Verdict := Keep (position : Position) | Fail | Final (set names_sync : bool).

Definition consume (position : Position) (b : byte) : Verdict :=
  match position with
  | InPrefix [] => Fail
  | InPrefix [want] => if decide (b = want) then Keep (InParameters false 0) else Fail
  | InPrefix (want :: expected) => if decide (b = want) then Keep (InPrefix expected) else Fail
  | InParameters names_sync param =>
      if is_digit b then Keep (InParameters names_sync (next_param param (byte_value b - 48)))
      else if decide (b = x3b) then Keep (InParameters (names_sync || (param =? 2026)) 0)
      else if decide (b = x68) then Final true (names_sync || (param =? 2026))
      else if decide (b = x6c) then Final false (names_sync || (param =? 2026))
      else Fail
  end.

Record Automaton := mkAutomaton {
  au_open : bool;
  au_generation : Z;
  au_inside : option (Position * list byte);
}.

Definition Automaton_new : Automaton := mkAutomaton false 0 None.

Definition begin (b : byte) : option (Position * list byte) :=
  if decide (b = ESC) then Some (InPrefix [x5b; x3f], [b]) else None.

Definition automaton_byte (a : Automaton) (b : byte) : Automaton :=
  match au_inside a with
  | None => mkAutomaton (au_open a) (au_generation a) (begin b)
  | Some (position, seen) =>
      match consume position b with
      | Keep position => mkAutomaton (au_open a) (au_generation a) (Some (position, seen ++ [b]))
      | Fail => mkAutomaton (au_open a) (au_generation a) (begin b)
      | Final _ false => mkAutomaton (au_open a) (au_generation a) None
      | Final true true =>
          mkAutomaton true (if au_open a then au_generation a else au_generation a + 1) None
      | Final false true => mkAutomaton false (au_generation a) None
      end
  end.

Definition automaton (a : Automaton) (bytes : list byte) : Automaton := foldl automaton_byte a bytes.

(** No cut falls more than [SYNC_SCAN_CARRY_MAX] bytes into a sequence. *)
Fixpoint cuts_short (a : Automaton) (chunks : list (list byte)) : Prop :=
  match chunks with
  | [] => True
  | chunk :: rest =>
      let a := automaton a chunk in
      match au_inside a with Some (_, seen) => len seen <= SYNC_SCAN_CARRY_MAX | None => True end
      /\ cuts_short a rest
  end.

(** ** The scan is the automaton *)

(** The parser, told in the automaton's steps. *)
Fixpoint track (position : Position) (index : nat) (bytes : list byte) : PrivateMode :=
  match bytes with
  | [] => Incomplete
  | b :: rest =>
      match consume position b with
      | Keep position => track position (S index) rest
      | Fail => Other
      | Final true names_sync => SetMode names_sync (S index)
      | Final false names_sync => ResetMode names_sync (S index)
      end
  end.

Lemma parse_parameters_track names_sync param index bytes :
  parse_parameters names_sync param index bytes = track (InParameters names_sync param) index bytes.
Proof.
  revert names_sync param index. induction bytes as [|b rest IH]; intros names_sync param index; [done|].
  cbn [parse_parameters track consume]. repeat case_match; try done; by rewrite IH.
Qed.

Lemma parse_track rest :
  parse_private_mode (ESC :: rest) = track (InPrefix [x5b; x3f]) 1 rest.
Proof.
  unfold parse_private_mode, MODE_PREFIX. cbn [check_prefix]. rewrite decide_True by done.
  destruct rest as [|b rest]; [done|]. cbn [check_prefix track consume].
  destruct (decide (b = x5b)); [|done].
  destruct rest as [|c rest]; [done|]. cbn [check_prefix track consume].
  destruct (decide (c = x3f)); [|done]. cbn [drop]. apply parse_parameters_track.
Qed.

(** Positions the automaton can be at, none of which takes an escape. *)
Definition position_ok (position : Position) : Prop :=
  match position with InPrefix expected => ESC ∉ expected | InParameters _ _ => True end.

Lemma consume_keep position b position' :
  position_ok position -> consume position b = Keep position' -> position_ok position' /\ b <> ESC.
Proof.
  intros Hok E. destruct position as [[|want [|next expected]]|names param].
  - done.
  - cbn in E, Hok. destruct (decide (b = want)) as [->|]; [|done]. simplify_eq. set_solver.
  - cbn in E, Hok. destruct (decide (b = want)) as [->|]; [|done]. simplify_eq. set_solver.
  - split; [|intros ->; by vm_compute in E]. cbn [consume] in E. repeat case_match; by simplify_eq.
Qed.

(** Outside any sequence, only an escape matters. *)
Lemma automaton_outside o g bytes :
  automaton (mkAutomaton o g None) bytes
  = match from_escape bytes with
    | None => mkAutomaton o g None
    | Some tail => automaton (mkAutomaton o g None) tail
    end.
Proof.
  induction bytes as [|b rest IH]; [done|]. cbn [from_escape].
  destruct (decide (b = ESC)) as [->|Hb]; [done|]. rewrite <- IH. cbn. unfold begin.
  by rewrite decide_False.
Qed.

Lemma from_escape_cons bytes tail :
  from_escape bytes = Some tail -> exists rest, tail = ESC :: rest /\ (length tail <= length bytes)%nat.
Proof.
  induction bytes as [|b rest IH]; [done|]. cbn [from_escape].
  destruct (decide (b = ESC)) as [->|Hb].
  - intros [= <-]. by exists rest.
  - intros H. destruct (IH H) as (r & -> & Hlen). exists r. split; [done|]. cbn in *. lia.
Qed.

(** What the automaton does with a sequence it is inside, by the parser's verdict. *)
Lemma automaton_inside o g position seen index bytes :
  position_ok position ->
  match track position index bytes with
  | Incomplete => exists position',
      automaton (mkAutomaton o g (Some (position, seen))) bytes
      = mkAutomaton o g (Some (position', seen ++ bytes))
  | Other =>
      automaton (mkAutomaton o g (Some (position, seen))) bytes = automaton (mkAutomaton o g None) bytes
  | SetMode names_sync length =>
      (index < length)%nat
      /\ automaton (mkAutomaton o g (Some (position, seen))) bytes
         = automaton (if names_sync then mkAutomaton true (if o then g else g + 1) None
                      else mkAutomaton o g None) (drop (length - index) bytes)
  | ResetMode names_sync length =>
      (index < length)%nat
      /\ automaton (mkAutomaton o g (Some (position, seen))) bytes
         = automaton (if names_sync then mkAutomaton false g None else mkAutomaton o g None)
             (drop (length - index) bytes)
  end.
Proof.
  revert position seen index. induction bytes as [|b rest IH]; intros position seen index Hok.
  { exists position. by rewrite app_nil_r. }
  cbn [track].
  assert (Hcons : forall a, automaton a (b :: rest) = automaton (automaton_byte a b) rest) by done.
  destruct (consume position b) as [position'| |set names] eqn:E.
  - destruct (consume_keep _ _ _ Hok E) as [Hok' Hb].
    assert (Hinside : forall s, automaton_byte (mkAutomaton o g (Some (position, s))) b
                                = mkAutomaton o g (Some (position', s ++ [b]))).
    { intros s. unfold automaton_byte. cbn [au_inside]. by rewrite E. }
    assert (Hout : automaton_byte (mkAutomaton o g None) b = mkAutomaton o g None).
    { unfold automaton_byte, begin. cbn [au_inside]. by rewrite decide_False. }
    specialize (IH position' (seen ++ [b]) (S index) Hok').
    destruct (track position' (S index) rest) as [| |names length|names length].
    + destruct IH as [p' IH]. exists p'. by rewrite Hcons, Hinside, IH, <- app_assoc.
    + by rewrite !Hcons, Hinside, Hout, IH.
    + destruct IH as [Hlt IH]. split; [lia|]. rewrite Hcons, Hinside, IH.
      by replace (length - index)%nat with (S (length - S index)) by lia.
    + destruct IH as [Hlt IH]. split; [lia|]. rewrite Hcons, Hinside, IH.
      by replace (length - index)%nat with (S (length - S index)) by lia.
  - rewrite !Hcons. unfold automaton_byte. cbn [au_inside]. by rewrite E.
  - assert (Hmode : automaton_byte (mkAutomaton o g (Some (position, seen))) b
                    = match set, names with
                      | true, true => mkAutomaton true (if o then g else g + 1) None
                      | false, true => mkAutomaton false g None
                      | _, false => mkAutomaton o g None
                      end).
    { unfold automaton_byte. cbn [au_inside]. rewrite E. by destruct set, names. }
    destruct set, names; (split; [lia|]); rewrite Hcons, Hmode;
      by replace (S index - index)%nat with 1%nat by lia.
Qed.

(** What the scan holds of an automaton: a sequence longer than the carry is
    forgotten. *)
Definition scan_of (a : Automaton) : SyncOutputScan :=
  mkSyncOutputScan (au_open a) (au_generation a)
    (match au_inside a with
     | Some (_, seen) => if len seen <=? SYNC_SCAN_CARRY_MAX then seen else []
     | None => []
     end).

Lemma observe_loop_exact fuel o g input :
  (length input < fuel)%nat ->
  observe_loop fuel (mkSyncOutputScan o g []) input = scan_of (automaton (mkAutomaton o g None) input).
Proof.
  revert o g input. induction fuel as [|fuel IH]; intros o g input Hlen; [lia|].
  cbn [observe_loop]. rewrite automaton_outside.
  destruct (from_escape input) as [tail|] eqn:E; [|done].
  destruct (from_escape_cons _ _ E) as (rest & -> & Htail). rewrite parse_track.
  change (automaton (mkAutomaton o g None) (ESC :: rest))
    with (automaton (mkAutomaton o g (Some (InPrefix [x5b; x3f], [ESC]))) rest).
  assert (Hok : position_ok (InPrefix [x5b; x3f])) by (cbn; set_solver).
  pose proof (automaton_inside o g _ [ESC] 1 rest Hok) as H.
  cbn [length] in Htail.
  destruct (track (InPrefix [x5b; x3f]) 1 rest) as [| |names length|names length].
  - destruct H as [p' ->]. unfold scan_of. cbn [au_open au_generation au_inside open generation app].
    by case_match.
  - rewrite H. cbn [drop]. apply IH. lia.
  - destruct H as [Hlt ->]. destruct length as [|length]; [lia|]. cbn [drop].
    replace (S length - 1)%nat with length by lia.
    assert (Datatypes.length (drop length rest) < fuel)%nat by (rewrite length_drop; lia).
    unfold set_mode. cbn [open generation carry]. destruct names; [destruct o|]; by apply IH.
  - destruct H as [Hlt ->]. destruct length as [|length]; [lia|]. cbn [drop].
    replace (S length - 1)%nat with length by lia.
    assert (Datatypes.length (drop length rest) < fuel)%nat by (rewrite length_drop; lia).
    unfold reset_mode. cbn [open generation carry]. destruct names; by apply IH.
Qed.

(** Replaying what an automaton has seen of a sequence brings it back. *)
Definition replays (a : Automaton) : Prop :=
  match au_inside a with
  | Some (position, seen) => forall o g,
      automaton (mkAutomaton o g None) seen = mkAutomaton o g (Some (position, seen))
  | None => True
  end.

Lemma automaton_byte_replays a b : replays a -> replays (automaton_byte a b).
Proof.
  destruct a as [o0 g0 [[position seen]|]]; unfold replays, automaton_byte; cbn [au_inside].
  - intros H.
    assert (Hbegin : match begin b with
            | Some (p, s) => forall o g, automaton (mkAutomaton o g None) s = mkAutomaton o g (Some (p, s))
            | None => True end).
    { unfold begin. destruct (decide (b = ESC)) as [->|]; [|done]. intros o g. done. }
    destruct (consume position b) as [p'| |[] []] eqn:E; cbn [au_inside]; try done.
    intros o g. unfold automaton in *. rewrite foldl_app, H. cbn. unfold automaton_byte. cbn [au_inside].
    by rewrite E.
  - intros _. unfold begin. destruct (decide (b = ESC)) as [->|]; [|done]. intros o g. done.
Qed.

Lemma automaton_replays a bytes : replays a -> replays (automaton a bytes).
Proof.
  revert a. induction bytes as [|b rest IH]; intros a H; [done|].
  apply IH. by apply automaton_byte_replays.
Qed.

Lemma observe_step a chunk :
  replays a ->
  match au_inside a with Some (_, seen) => len seen <= SYNC_SCAN_CARRY_MAX | None => True end ->
  observe (scan_of a) chunk = scan_of (automaton a chunk).
Proof.
  intros Hr Hshort. unfold observe. rewrite observe_loop_exact by lia. f_equal.
  destruct a as [o g [[position seen]|]]; [|done]. cbn in Hshort.
  assert (Hcarry : carry (scan_of (mkAutomaton o g (Some (position, seen)))) = seen).
  { unfold scan_of. cbn [carry au_inside]. by rewrite (proj2 (Z.leb_le _ _) Hshort). }
  rewrite Hcarry. cbn [open generation scan_of au_open au_generation].
  unfold replays in Hr. cbn [au_inside] in Hr. unfold automaton in *. by rewrite foldl_app, Hr.
Qed.

Lemma observe_all_exact a chunks :
  replays a ->
  match au_inside a with Some (_, seen) => len seen <= SYNC_SCAN_CARRY_MAX | None => True end ->
  cuts_short a chunks -> foldl observe (scan_of a) chunks = scan_of (automaton a (concat chunks)).
Proof.
  revert a. induction chunks as [|chunk rest IH]; intros a Hr Hshort Hcuts; [done|].
  destruct Hcuts as [Hcut Hcuts]. cbn [foldl concat]. rewrite observe_step by done.
  unfold automaton in *. rewrite foldl_app. apply IH; [|done|done].
  by apply automaton_replays.
Qed.

(** C31: how a stream is cut into chunks does not change what the scan makes of
    it.  The chunked scan, which looks for escapes, reparses and carries a tail
    over, knows after every chunk exactly what an automaton fed one byte at a
    time knows: whether synchronized output is on, how often it was turned on,
    and which unfinished sequence is pending, as long as no cut falls more than
    [SYNC_SCAN_CARRY_MAX] bytes into a sequence.  Two ways of cutting the same
    bytes therefore leave the same scan. *)
Theorem sync_scan_exact (chunks : list (list byte)) (Hcuts : cuts_short Automaton_new chunks) :
  foldl observe SyncOutputScan_default chunks = scan_of (automaton Automaton_new (concat chunks))
  /\ forall cut, concat cut = concat chunks -> cuts_short Automaton_new cut ->
       foldl observe SyncOutputScan_default cut = foldl observe SyncOutputScan_default chunks.
Proof.
  assert (H : forall chunks, cuts_short Automaton_new chunks ->
            foldl observe SyncOutputScan_default chunks = scan_of (automaton Automaton_new (concat chunks))).
  { intros l Hl. by apply (observe_all_exact Automaton_new). }
  split; [by apply H|]. intros cut Heq Hcut. by rewrite !H, Heq.
Qed.

Definition bytes_of (s : string) : list byte :=
  String.list_byte_of_string s.

(** Opening a synchronized frame, cut inside the mode's number. *)
Definition demo_chunks : list (list byte) :=
  [bytes_of "a" ++ [ESC] ++ bytes_of "[?25;20"; bytes_of "26hb"; [ESC]; bytes_of "[?2026l" ++ [ESC]].

Lemma sync_scan_exact_witness :
  foldl observe SyncOutputScan_default demo_chunks = mkSyncOutputScan false 1 [ESC].
Proof.
  destruct (sync_scan_exact demo_chunks) as [H _]; [by vm_compute|]. by rewrite H.
Defined.

(** A cut deeper than the carry loses the sequence: the mode is never set. *)
Lemma long_cut_forgotten :
  let chunks := [[ESC] ++ bytes_of "[?1;2;3;4;5;6;7;8;9;10;11;12;1000;1002;";
                 bytes_of "2026h"] in
  open (foldl observe SyncOutputScan_default chunks) = false
  /\ open (observe SyncOutputScan_default (concat chunks)) = true.
Proof. by vm_compute. Qed.
