(* ===== verification/CellEmitter.v ===== *)
(** * CellEmitter: who receives a terminal's frames, and what each still owes

    Models the worker's cell emitter, [src/crates/roost-worker/src/session]:
    the sinks ([cell_sink.rs]), the per-channel streams ([emit.rs],
    [emit_streams.rs]), the parked full and its cursors ([snapshot_cursor.rs],
    [snapshot_cursor_drain.rs]), the gates ([cell_gates.rs]), the
    synchronized-output hold ([sync_output.rs]) and the emission of one frame
    ([emit_frame.rs]).  One lock covers the emitter, so an operation is a
    function; a sink is a transport outside, whose answers may depend on
    everything it was handed ([SinkTransport]).  The metadata lanes, the query
    replies and the incident recorder are left out. *)
From Stdlib Require Import Ascii String.
From S2P Require Export TermEmitter CellChunks SyncOutput.

(** ** Data *)

Inductive CellSinkResult := Sent | Dropped | Overflow.

Record FrameTimings := mkFrameTimings { pty_out_ms : Z; worker_emit_ms : Z }.

Record WholeFull := mkWholeFull { wf_frame : CellGridFrame; wf_wire : PbCellGridFrame }.

Inductive ParkedPart := Whole (whole : WholeFull) | Chunk (part : CellGridSnapshotPart).

Record SnapshotCursor := mkSnapshotCursor {
  cur_stream_id : string;
  cur_snapshot_id : string;
  cur_seq : Z;
  cur_parts : list ParkedPart;
  cur_next_part : nat;
  cur_timings : FrameTimings;
}.

Record StreamDelivery := mkStreamDelivery {
  cursor : option SnapshotCursor;
  baseline_ready : bool;
  baseline_dirty : bool;
}.

Definition StreamDelivery_default : StreamDelivery := mkStreamDelivery None false false.

Record StreamDeliveryAggregate := mkStreamDeliveryAggregate {
  ag_active_sinks : nat;
  ag_baseline_ready : bool;
  ag_snapshot_pending : bool;
  ag_baseline_dirty : bool;
  ag_remaining_snapshot_parts : nat;
  ag_snapshot_part_count : nat;
}.

Record StreamOutput := mkStreamOutput {
  so_stream_id : string;
  so_enabled : bool;
  so_core_valid : bool;
  so_deliveries : gmap string StreamDelivery;
  so_pending_repair : bool;
  so_pending_sync_snapshot : bool;
}.

Definition StreamOutput_default : StreamOutput :=
  mkStreamOutput EmptyString false false ∅ false false.

Inductive CellGate := ResizeCapture | BaselineGate | SyncOutputGate.

#[global] Instance CellGate_eq_dec : EqDecision CellGate.
Proof. solve_decision. Defined.

Record GateSuppression := mkGateSuppression {
  gs_gate : CellGate;
  gs_since_ms : Z;
  gs_suppressed : Z;
  gs_over_budget : bool;
}.

Record CellEmissionSchedule := mkCellEmissionSchedule {
  sch_stream_id : string;
  sch_cooldown_until : option Z;
}.

Record ChannelSyncHold := mkChannelSyncHold {
  sh_generation : Z;
  sh_sb_total_at_open : Z;
  sh_ceilings : SyncOutputHold;
  sh_tripped : bool;
}.

(** What one call of a sink hands it. *)
Inductive SinkPart :=
| HandFrame (frame : CellGridFrame) (wire : PbCellGridFrame)
| HandPart (part : CellGridSnapshotPart) (timings : FrameTimings).

(** What a sink has seen of the emitter; [Registered] is a new receiver. *)
Inductive SinkEvent :=
| Registered (sink_id : string)
| Handed (sink_id : string) (channel_id : Z) (part : SinkPart) (answer : CellSinkResult)
| Overflowed (sink_id : string).

(** The emitter; [em_log] is what happened at its sinks, newest last, and
    [em_woken] the permit the cadence's [Notify] holds. *)
Record CellEmitter := mkCellEmitter {
  em_sinks : gmap string bool;
  em_streams : gmap Z StreamOutput;
  em_dirty : gset Z;
  em_input_echo : gmap Z Z;
  em_gates : gmap Z GateSuppression;
  em_emission_gates : gset Z;
  em_schedules : gmap Z CellEmissionSchedule;
  em_baselines_owed : gset Z;
  em_scans : gmap Z SyncOutputScan;
  em_holds : gmap Z ChannelSyncHold;
  em_woken : bool;
  em_log : list SinkEvent;
}.

Definition CellEmitter_new : CellEmitter := mkCellEmitter ∅ ∅ ∅ ∅ ∅ ∅ ∅ ∅ ∅ ∅ false [].

(** The fields of the session record the emitter reads and writes. *)
Record SessionRecord := mkSessionRecord {
  sr_channel_id : Z;
  sr_session_id : string;
  sr_terminal_core : TerminalCore;
  sr_cell_emit : CellEmitState;
  sr_last_pty_out_ms : Z;
}.

(** What lies outside: a sink's answer to what it is handed, the order a hash
    map of sinks is walked in, and the identity mint. *)
Class SinkTransport := {
  sink_answer : list SinkEvent -> string -> Z -> SinkPart -> CellSinkResult;
  iteration_order : list SinkEvent -> list string -> list string;
  mint_uuid : list SinkEvent -> option string;
}.

(** A walk visits each key once. *)
Class SinkTransportLaws `{SinkTransport} : Prop := {
  iteration_order_perm log l : iteration_order log l ≡ₚ l;
}.

(** ** Field updates *)

Definition with_sinks (e : CellEmitter) v :=
  mkCellEmitter v (em_streams e) (em_dirty e) (em_input_echo e) (em_gates e) (em_emission_gates e)
    (em_schedules e) (em_baselines_owed e) (em_scans e) (em_holds e) (em_woken e) (em_log e).
Definition with_streams (e : CellEmitter) v :=
  mkCellEmitter (em_sinks e) v (em_dirty e) (em_input_echo e) (em_gates e) (em_emission_gates e)
    (em_schedules e) (em_baselines_owed e) (em_scans e) (em_holds e) (em_woken e) (em_log e).
Definition with_dirty (e : CellEmitter) v :=
  mkCellEmitter (em_sinks e) (em_streams e) v (em_input_echo e) (em_gates e) (em_emission_gates e)
    (em_schedules e) (em_baselines_owed e) (em_scans e) (em_holds e) (em_woken e) (em_log e).
Definition with_input_echo (e : CellEmitter) v :=
  mkCellEmitter (em_sinks e) (em_streams e) (em_dirty e) v (em_gates e) (em_emission_gates e)
    (em_schedules e) (em_baselines_owed e) (em_scans e) (em_holds e) (em_woken e) (em_log e).
Definition with_gates (e : CellEmitter) v :=
  mkCellEmitter (em_sinks e) (em_streams e) (em_dirty e) (em_input_echo e) v (em_emission_gates e)
    (em_schedules e) (em_baselines_owed e) (em_scans e) (em_holds e) (em_woken e) (em_log e).
Definition with_emission_gates (e : CellEmitter) v :=
  mkCellEmitter (em_sinks e) (em_streams e) (em_dirty e) (em_input_echo e) (em_gates e) v
    (em_schedules e) (em_baselines_owed e) (em_scans e) (em_holds e) (em_woken e) (em_log e).
Definition with_schedules (e : CellEmitter) v :=
  mkCellEmitter (em_sinks e) (em_streams e) (em_dirty e) (em_input_echo e) (em_gates e)
    (em_emission_gates e) v (em_baselines_owed e) (em_scans e) (em_holds e) (em_woken e) (em_log e).
Definition with_baselines_owed (e : CellEmitter) v :=
  mkCellEmitter (em_sinks e) (em_streams e) (em_dirty e) (em_input_echo e) (em_gates e)
    (em_emission_gates e) (em_schedules e) v (em_scans e) (em_holds e) (em_woken e) (em_log e).
Definition with_scans (e : CellEmitter) v :=
  mkCellEmitter (em_sinks e) (em_streams e) (em_dirty e) (em_input_echo e) (em_gates e)
    (em_emission_gates e) (em_schedules e) (em_baselines_owed e) v (em_holds e) (em_woken e) (em_log e).
Definition with_holds (e : CellEmitter) v :=
  mkCellEmitter (em_sinks e) (em_streams e) (em_dirty e) (em_input_echo e) (em_gates e)
    (em_emission_gates e) (em_schedules e) (em_baselines_owed e) (em_scans e) v (em_woken e) (em_log e).
Definition with_woken (e : CellEmitter) v :=
  mkCellEmitter (em_sinks e) (em_streams e) (em_dirty e) (em_input_echo e) (em_gates e)
    (em_emission_gates e) (em_schedules e) (em_baselines_owed e) (em_scans e) (em_holds e) v (em_log e).
Definition with_event (e : CellEmitter) (event : SinkEvent) :=
  mkCellEmitter (em_sinks e) (em_streams e) (em_dirty e) (em_input_echo e) (em_gates e)
    (em_emission_gates e) (em_schedules e) (em_baselines_owed e) (em_scans e) (em_holds e)
    (em_woken e) (em_log e ++ [event]).

Definition with_stream_id (s : StreamOutput) v :=
  mkStreamOutput v (so_enabled s) (so_core_valid s) (so_deliveries s) (so_pending_repair s)
    (so_pending_sync_snapshot s).
Definition with_enabled (s : StreamOutput) v :=
  mkStreamOutput (so_stream_id s) v (so_core_valid s) (so_deliveries s) (so_pending_repair s)
    (so_pending_sync_snapshot s).
Definition with_core_valid (s : StreamOutput) v :=
  mkStreamOutput (so_stream_id s) (so_enabled s) v (so_deliveries s) (so_pending_repair s)
    (so_pending_sync_snapshot s).
Definition with_sink_deliveries (s : StreamOutput) v :=
  mkStreamOutput (so_stream_id s) (so_enabled s) (so_core_valid s) v (so_pending_repair s)
    (so_pending_sync_snapshot s).
Definition with_pending_repair (s : StreamOutput) v :=
  mkStreamOutput (so_stream_id s) (so_enabled s) (so_core_valid s) (so_deliveries s) v
    (so_pending_sync_snapshot s).
Definition with_pending_sync_snapshot (s : StreamOutput) v :=
  mkStreamOutput (so_stream_id s) (so_enabled s) (so_core_valid s) (so_deliveries s)
    (so_pending_repair s) v.

Definition with_core (r : SessionRecord) v :=
  mkSessionRecord (sr_channel_id r) (sr_session_id r) v (sr_cell_emit r) (sr_last_pty_out_ms r).
Definition with_cell_emit (r : SessionRecord) v :=
  mkSessionRecord (sr_channel_id r) (sr_session_id r) (sr_terminal_core r) v (sr_last_pty_out_ms r).
Definition with_last_pty_out_ms (r : SessionRecord) v :=
  mkSessionRecord (sr_channel_id r) (sr_session_id r) (sr_terminal_core r) (sr_cell_emit r) v.

(** [streams.get_mut(&channel_id)]. *)
Definition alter_stream (f : StreamOutput -> StreamOutput) (channel_id : Z) (e : CellEmitter) :
    CellEmitter :=
  with_streams e (alter f channel_id (em_streams e)).

Definition each_delivery (f : StreamDelivery -> StreamDelivery) (s : StreamOutput) : StreamOutput :=
  with_sink_deliveries s (f <$> so_deliveries s).

(** ** Cadence marks ([cell_scheduler.rs], first half) *)

Definition CELL_EMIT_COALESCE_MS : Z := 16.

Definition note_dirty (e : CellEmitter) (channel_id : Z) : CellEmitter :=
  with_dirty e ({[channel_id]} ∪ em_dirty e).

Definition is_dirty (e : CellEmitter) (channel_id : Z) : bool :=
  bool_decide (channel_id ∈ em_dirty e).

Definition clear_dirty (e : CellEmitter) (channel_id : Z) : CellEmitter :=
  with_dirty e (em_dirty e ∖ {[channel_id]}).

Definition cancel_cell_emission (e : CellEmitter) (channel_id : Z) : CellEmitter :=
  with_schedules e (delete channel_id (em_schedules e)).

Definition wake_cadence (e : CellEmitter) : CellEmitter := with_woken e true.

(** ** Gates ([cell_gates.rs]) *)

Definition CELL_GATE_BUDGET_MS : Z := 2500.

(** [saturating_sub] on [i64], and [saturating_add] on [u64]. *)
Definition saturating_sub_i64 (a b : Z) : Z := Z.max (- 2 ^ 63) (Z.min (2 ^ 63 - 1) (a - b)).

Definition attribute_gate (e : CellEmitter) (channel_id : Z) (gate : CellGate) (now_ms : Z) :
    CellEmitter :=
  let fresh := mkGateSuppression gate now_ms 0 false in
  let held := default fresh (em_gates e !! channel_id) in
  let held := if decide (gs_gate held = gate) then held else fresh in
  with_gates e (<[channel_id := held]> (em_gates e)).

Definition note_gate_suppression (e : CellEmitter) (channel_id : Z) (gate : CellGate) (now_ms : Z) :
    CellEmitter :=
  let e := attribute_gate e channel_id gate now_ms in
  match em_gates e !! channel_id with
  | None => e
  | Some held =>
      let age_ms := saturating_sub_i64 now_ms (gs_since_ms held) in
      let over :=
        if bool_decide (gate = SyncOutputGate) || gs_over_budget held
             || (age_ms <=? CELL_GATE_BUDGET_MS)
        then gs_over_budget held else true in
      with_gates e
        (<[channel_id := mkGateSuppression (gs_gate held) (gs_since_ms held)
                           (saturating_add64 (gs_suppressed held) 1) over]> (em_gates e))
  end.

Definition hold_frames (e : CellEmitter) (channel_id : Z) (gate : CellGate) (now_ms : Z) :
    CellEmitter :=
  attribute_gate (with_emission_gates e ({[channel_id]} ∪ em_emission_gates e)) channel_id gate now_ms.

Definition gate_held (e : CellEmitter) (channel_id : Z) : bool :=
  bool_decide (channel_id ∈ em_emission_gates e).

Definition release_frames (e : CellEmitter) (channel_id : Z) : CellEmitter :=
  if gate_held e channel_id
  then
    let e := with_emission_gates e (em_emission_gates e ∖ {[channel_id]}) in
    with_gates e (delete channel_id (em_gates e))
  else e.

(** ** Sinks ([cell_sink.rs]) *)

Definition contains (e : CellEmitter) (sink_id : string) : bool :=
  bool_decide (is_Some (em_sinks e !! sink_id)).

Definition is_active (e : CellEmitter) (sink_id : string) : bool :=
  default false (em_sinks e !! sink_id).

(** The active sinks' ids. *)
Definition active_ids (sinks : gmap string bool) : list string :=
  fst <$> base.filter (fun entry => entry.2 = true) (map_to_list sinks).

Definition active_sinks `{SinkTransport} (e : CellEmitter) : list string :=
  iteration_order (em_log e) (active_ids (em_sinks e)).

(** [CellSinkRegistry::register], [unregister], [suspend], [resume]. *)
Definition sinks_register (e : CellEmitter) (sink_id : string) : CellEmitter :=
  with_event (with_sinks e (<[sink_id := true]> (em_sinks e))) (Registered sink_id).

Definition sinks_unregister (e : CellEmitter) (sink_id : string) : CellEmitter :=
  with_sinks e (delete sink_id (em_sinks e)).

Definition sinks_suspend (e : CellEmitter) (sink_id : string) : CellEmitter * bool :=
  if is_active e sink_id then (with_sinks e (<[sink_id := false]> (em_sinks e)), true) else (e, false).

Definition sinks_resume (e : CellEmitter) (sink_id : string) : CellEmitter * bool :=
  match em_sinks e !! sink_id with
  | Some false => (with_sinks e (<[sink_id := true]> (em_sinks e)), true)
  | _ => (e, false)
  end.

Definition drop_for_overflow (e : CellEmitter) (sink_id : string) : CellEmitter :=
  if contains e sink_id then with_event (sinks_unregister e sink_id) (Overflowed sink_id) else e.

Record CellDeltaFanout := mkCellDeltaFanout {
  fo_accepted : nat;
  fo_dropped : nat;
  fo_overflowed : list string;
}.

(** One sink's turn of [send_frame_to_active]. *)
Definition send_frame_to `{SinkTransport} (channel_id : Z) (frame : CellGridFrame)
    (wire : PbCellGridFrame) (state : CellEmitter * CellDeltaFanout) (sink_id : string) :
    CellEmitter * CellDeltaFanout :=
  let '(e, fanout) := state in
  if is_active e sink_id then
    let part := HandFrame frame wire in
    let answer := sink_answer (em_log e) sink_id channel_id part in
    let e := with_event e (Handed sink_id channel_id part answer) in
    match answer with
    | Sent => (e, mkCellDeltaFanout (S (fo_accepted fanout)) (fo_dropped fanout) (fo_overflowed fanout))
    | Dropped => (e, mkCellDeltaFanout (fo_accepted fanout) (S (fo_dropped fanout)) (fo_overflowed fanout))
    | Overflow =>
        (drop_for_overflow e sink_id,
         mkCellDeltaFanout (fo_accepted fanout) (fo_dropped fanout) (fo_overflowed fanout ++ [sink_id]))
    end
  else (e, fanout).

Definition send_frame_to_active `{SinkTransport} (e : CellEmitter) (channel_id : Z)
    (frame : CellGridFrame) (wire : PbCellGridFrame) : CellEmitter * CellDeltaFanout :=
  foldl (send_frame_to channel_id frame wire) (e, mkCellDeltaFanout 0 0 []) (active_sinks e).

(** How [send_part_to_sink] hands a parked part over. *)
Definition hand (timings : FrameTimings) (part : ParkedPart) : SinkPart :=
  match part with
  | Whole whole => HandFrame (wf_frame whole) (wf_wire whole)
  | Chunk chunk => HandPart chunk timings
  end.

Definition send_part_to_sink `{SinkTransport} (e : CellEmitter) (channel_id : Z) (sink_id : string)
    (part : ParkedPart) (timings : FrameTimings) : CellEmitter * CellSinkResult :=
  if contains e sink_id then
    let handed := hand timings part in
    let answer := sink_answer (em_log e) sink_id channel_id handed in
    let e := with_event e (Handed sink_id channel_id handed answer) in
    match answer with
    | Overflow => (drop_for_overflow e sink_id, Dropped)
    | _ => (e, answer)
    end
  else (e, Dropped).

(** One active sink's contribution to [aggregate_stream_delivery]. *)
Definition aggregate_sink (deliveries : option (gmap string StreamDelivery))
    (aggregate : StreamDeliveryAggregate) (sink_id : string) : StreamDeliveryAggregate :=
  let active := S (ag_active_sinks aggregate) in
  match (all ← deliveries; all !! sink_id) with
  | None =>
      mkStreamDeliveryAggregate active false (ag_snapshot_pending aggregate)
        (ag_baseline_dirty aggregate) (ag_remaining_snapshot_parts aggregate)
        (ag_snapshot_part_count aggregate)
  | Some delivery =>
      let ready := ag_baseline_ready aggregate && baseline_ready delivery in
      let dirty := ag_baseline_dirty aggregate || baseline_dirty delivery in
      match cursor delivery with
      | None =>
          mkStreamDeliveryAggregate active ready (ag_snapshot_pending aggregate) dirty
            (ag_remaining_snapshot_parts aggregate) (ag_snapshot_part_count aggregate)
      | Some parked =>
          mkStreamDeliveryAggregate active ready true dirty
            (ag_remaining_snapshot_parts aggregate + (length (cur_parts parked) - cur_next_part parked))
            (ag_snapshot_part_count aggregate + length (cur_parts parked))
      end
  end.

Definition aggregate_stream_delivery `{SinkTransport} (e : CellEmitter)
    (deliveries : option (gmap string StreamDelivery)) : StreamDeliveryAggregate :=
  foldl (aggregate_sink deliveries) (mkStreamDeliveryAggregate 0 true false false 0 0) (active_sinks e).

Definition delivery_aggregate `{SinkTransport} (e : CellEmitter) (channel_id : Z) :
    StreamDeliveryAggregate :=
  aggregate_stream_delivery e (so_deliveries <$> em_streams e !! channel_id).

(** ** Delivery records ([snapshot_cursor.rs]) *)

Definition retire (delivery : StreamDelivery) : StreamDelivery :=
  mkStreamDelivery None false (baseline_dirty delivery).

Definition retire_stream_delivery (e : CellEmitter) (channel_id : Z) : CellEmitter :=
  alter_stream (each_delivery retire) channel_id e.

Definition mark_dirty (delivery : StreamDelivery) : StreamDelivery :=
  if bool_decide (is_Some (cursor delivery)) || negb (baseline_ready delivery)
  then mkStreamDelivery (cursor delivery) (baseline_ready delivery) true else delivery.

Definition mark_stream_delivery_dirty (e : CellEmitter) (channel_id : Z) : CellEmitter :=
  alter_stream (each_delivery mark_dirty) channel_id e.

Definition clear_baseline_dirty (delivery : StreamDelivery) : StreamDelivery :=
  mkStreamDelivery (cursor delivery) (baseline_ready delivery) false.

Definition clear_stream_delivery_dirty (e : CellEmitter) (channel_id : Z) : CellEmitter :=
  alter_stream (each_delivery clear_baseline_dirty) channel_id e.

Definition forget_sink_records (e : CellEmitter) (sink_id : string) : CellEmitter :=
  with_streams e
    ((fun s => with_sink_deliveries s (delete sink_id (so_deliveries s))) <$> em_streams e).

Definition note_repair (e : CellEmitter) (channel_id : Z) : CellEmitter :=
  alter_stream (fun s => with_pending_repair s true) channel_id e.

Definition take_pending_repair (e : CellEmitter) (channel_id : Z) : CellEmitter * bool :=
  match em_streams e !! channel_id with
  | None => (e, false)
  | Some stream =>
      (alter_stream (fun s => with_pending_sync_snapshot (with_pending_repair s false) false)
         channel_id e,
       so_pending_repair stream || so_pending_sync_snapshot stream)
  end.

Definition set_pending_sync_snapshot (e : CellEmitter) (channel_id : Z) (owed : bool) : CellEmitter :=
  alter_stream (fun s => with_pending_sync_snapshot s owed) channel_id e.

Definition sync_snapshot_owed (e : CellEmitter) (channel_id : Z) : bool :=
  match em_streams e !! channel_id with Some s => so_pending_sync_snapshot s | None => false end.

(** [enabled && core_valid], the filter every emission applies. *)
Definition live_stream (stream : StreamOutput) : bool := so_enabled stream && so_core_valid stream.

Definition has_enabled_stream (e : CellEmitter) (channel_id : Z) : bool :=
  match em_streams e !! channel_id with Some s => live_stream s | None => false end.

(** The channels a filter of the streams selects. *)
Definition watched_channels (e : CellEmitter) : list Z :=
  fst <$> base.filter (fun entry => live_stream entry.2 = true) (map_to_list (em_streams e)).

Definition unready (delivery : StreamDelivery) : StreamDelivery :=
  mkStreamDelivery (cursor delivery) false (baseline_dirty delivery).

Definition abandon_cursor (delivery : StreamDelivery) : StreamDelivery :=
  mkStreamDelivery None (baseline_ready delivery) (baseline_dirty delivery).

(** [deliveries.entry(sink_id).or_default()], then an update of it. *)
Definition on_delivery (f : StreamDelivery -> StreamDelivery) (sink_id : string)
    (deliveries : gmap string StreamDelivery) : gmap string StreamDelivery :=
  <[sink_id := f (default StreamDelivery_default (deliveries !! sink_id))]> deliveries.

(** The body of [force_baseline_for_sink] for one watched channel. *)
Definition force_baseline_on (sink_id : string) (e : CellEmitter) (channel_id : Z) : CellEmitter :=
  let e := alter_stream
             (fun s => with_sink_deliveries s
                         (on_delivery unready sink_id (abandon_cursor <$> so_deliveries s)))
             channel_id e in
  note_dirty (mark_stream_delivery_dirty e channel_id) channel_id.

Definition force_baseline_for_sink (e : CellEmitter) (sink_id : string) : CellEmitter :=
  foldl (force_baseline_on sink_id) e (watched_channels e).

Definition register_sink (e : CellEmitter) (sink_id : string) : CellEmitter :=
  force_baseline_for_sink (sinks_register e sink_id) sink_id.

Definition unregister_sink (e : CellEmitter) (sink_id : string) : CellEmitter :=
  if contains e sink_id then forget_sink_records (sinks_unregister e sink_id) sink_id else e.

Definition suspend_delivery (sink_id : string) (s : StreamOutput) : StreamOutput :=
  with_sink_deliveries s (alter (fun _ => StreamDelivery_default) sink_id (so_deliveries s)).

Definition suspend_sink (e : CellEmitter) (sink_id : string) : CellEmitter :=
  let '(e, suspended) := sinks_suspend e sink_id in
  if suspended then with_streams e (suspend_delivery sink_id <$> em_streams e) else e.

Definition resume_sink (e : CellEmitter) (sink_id : string) : CellEmitter :=
  let '(e, resumed) := sinks_resume e sink_id in
  if resumed then force_baseline_for_sink e sink_id else e.

(** ** Draining a parked full ([snapshot_cursor_drain.rs]) *)

Inductive SnapshotDrain := NoCursor | BaselineComplete (work_owed : bool) | Blocked.

Definition parked_cursor (e : CellEmitter) (channel_id : Z) (sink_id : string) :
    option SnapshotCursor :=
  stream ← em_streams e !! channel_id; delivery ← so_deliveries stream !! sink_id; cursor delivery.

(** What [advance_cursor] leaves of a delivery whose part was sent. *)
Definition advance (parked : SnapshotCursor) (delivery : StreamDelivery) : StreamDelivery :=
  let next := S (cur_next_part parked) in
  if (next <? length (cur_parts parked))%nat
  then
    mkStreamDelivery
      (Some (mkSnapshotCursor (cur_stream_id parked) (cur_snapshot_id parked) (cur_seq parked)
               (cur_parts parked) next (cur_timings parked)))
      (baseline_ready delivery) (baseline_dirty delivery)
  else mkStreamDelivery None true (baseline_dirty delivery).

Definition advance_cursor (e : CellEmitter) (channel_id : Z) (sink_id snapshot_id : string) :
    CellEmitter * bool :=
  match parked_cursor e channel_id sink_id with
  | None => (e, false)
  | Some parked =>
      if negb (String.eqb (cur_snapshot_id parked) snapshot_id) then (e, false)
      else
        (alter_stream (fun s => with_sink_deliveries s (alter (advance parked) sink_id (so_deliveries s)))
           channel_id e, true)
  end.

(** One sink's parked parts, until its last or its first refusal; each turn
    sends a part, or is the last. *)
Fixpoint drain_sink_cursor `{SinkTransport} (fuel : nat) (e : CellEmitter) (channel_id : Z)
    (sink_id : string) : CellEmitter :=
  match fuel with
  | O => e
  | S fuel =>
      if negb (contains e sink_id) then forget_sink_records e sink_id
      else if negb (is_active e sink_id) then e
      else
        match parked_cursor e channel_id sink_id with
        | None => e
        | Some parked =>
            match cur_parts parked !! cur_next_part parked with
            | None => e
            | Some part =>
                let '(e, answer) := send_part_to_sink e channel_id sink_id part (cur_timings parked) in
                match answer with
                | Sent =>
                    let '(e, advanced) := advance_cursor e channel_id sink_id (cur_snapshot_id parked) in
                    if advanced then drain_sink_cursor fuel e channel_id sink_id else e
                | _ => if contains e sink_id then e else drain_sink_cursor fuel e channel_id sink_id
                end
            end
        end
  end.

(** Enough turns for what the cursor still owes. *)
Definition drain_fuel (e : CellEmitter) (channel_id : Z) (sink_id : string) : nat :=
  match parked_cursor e channel_id sink_id with
  | None => 2
  | Some parked => 2 + (length (cur_parts parked) - cur_next_part parked)
  end.

Definition parked_sinks (e : CellEmitter) (channel_id : Z) : list string :=
  match em_streams e !! channel_id with
  | None => []
  | Some stream =>
      fst <$> base.filter (fun entry => is_Some (cursor entry.2)) (map_to_list (so_deliveries stream))
  end.

Definition complete_stream_baseline `{SinkTransport} (e : CellEmitter) (channel_id : Z) :
    CellEmitter * SnapshotDrain :=
  let aggregate := delivery_aggregate e channel_id in
  if ag_snapshot_pending aggregate || negb (ag_baseline_ready aggregate) then (e, Blocked)
  else
    let work_owed := ag_baseline_dirty aggregate || is_dirty e channel_id in
    (alter_stream
       (fun s => each_delivery clear_baseline_dirty
                   (with_pending_sync_snapshot (with_pending_repair s false) false)) channel_id e,
     BaselineComplete work_owed).

Definition drain_snapshot `{SinkTransport} (e : CellEmitter) (channel_id : Z) :
    CellEmitter * SnapshotDrain :=
  match parked_sinks e channel_id with
  | [] => (e, NoCursor)
  | parked =>
      let drain e sink_id := drain_sink_cursor (drain_fuel e channel_id sink_id) e channel_id sink_id in
      complete_stream_baseline (foldl drain e (iteration_order (em_log e) parked)) channel_id
  end.

(** ** Installing a full *)

Inductive SnapshotError := Contract (code : CellGridChunkErrorCode) | Mint.

Definition session_part_bytes (r : SessionRecord) : Z :=
  Z.min (2 ^ 32 - 1) (Z.of_nat (String.length (sr_session_id r)) + 2).

(** The parts a built full is parked as. *)
Definition park_parts `{WireSizes} (frame : CellGridFrame) (wire : PbCellGridFrame)
    (snapshot_id : string) : result (list ParkedPart) CellGridChunkErrorCode :=
  let? _ := assert_cell_grid_snapshot wire in
  if encoded_cell_grid_frame_size wire <=? CELL_GRID_PART_MAX_BYTES
  then Ok [Whole (mkWholeFull frame wire)]
  else
    let? chunks := chunk_cell_grid_frame wire snapshot_id in
    Ok ((fun chunk => Chunk (PartChunk chunk)) <$> chunks).

Definition park_cursor (stream_id snapshot_id : string) (seq : Z) (parts : list ParkedPart)
    (timings : FrameTimings) (delivery : StreamDelivery) : StreamDelivery :=
  mkStreamDelivery (Some (mkSnapshotCursor stream_id snapshot_id seq parts 0 timings)) false
    (baseline_dirty delivery).

Definition install_baseline `{SinkTransport, WireSizes} (e : CellEmitter) (channel_id : Z)
    (frame : CellGridFrame) (wire : PbCellGridFrame) (timings : FrameTimings) :
    CellEmitter * result unit SnapshotError :=
  match mint_uuid (em_log e) with
  | None => (e, Err Mint)
  | Some snapshot_id =>
      match park_parts frame wire snapshot_id with
      | Err code => (e, Err (Contract code))
      | Ok parts =>
          match em_streams e !! channel_id with
          | None => (e, Ok tt)
          | Some stream =>
              let deliveries :=
                foldl (fun all sink_id =>
                         on_delivery (park_cursor (so_stream_id stream) snapshot_id (f_seq frame) parts
                                        timings) sink_id all)
                  (so_deliveries stream) (active_sinks e) in
              let e := alter_stream (fun s => with_sink_deliveries s deliveries) channel_id e in
              (fst (drain_snapshot e channel_id), Ok tt)
          end
      end
  end.

(** ** Synchronized output ([sync_output.rs]) *)

Inductive SyncOutputAction := Pass | Hold | Flush.

#[global] Instance SyncOutputAction_eq_dec : EqDecision SyncOutputAction.
Proof. solve_decision. Defined.

Definition observe_sync_output (e : CellEmitter) (channel_id : Z) (chunk : list byte) : CellEmitter :=
  let scan := default SyncOutputScan_default (em_scans e !! channel_id) in
  with_scans e (<[channel_id := observe scan chunk]> (em_scans e)).

Definition synchronized_output (e : CellEmitter) (channel_id : Z) : bool :=
  match em_scans e !! channel_id with Some scan => open scan | None => false end.

Definition sync_output_held (e : CellEmitter) (channel_id : Z) : bool :=
  bool_decide (is_Some (em_holds e !! channel_id)).

Definition sync_output_tripped (e : CellEmitter) (channel_id : Z) : option bool :=
  sh_tripped <$> em_holds e !! channel_id.

Definition mono_scrollback_total (r : SessionRecord) : Z :=
  let core := sr_terminal_core r in
  let origin :=
    match scrollback_origin core (es_scrollback_origin (sr_cell_emit r)) with
    | Ok origin => origin
    | Err _ => 0
    end in
  origin + core_scrollback_count core.

Definition sync_pending_rows (r : SessionRecord) (sb_total_at_open : Z) : Z :=
  let core := sr_terminal_core r in
  let dirty := len (base.filter (fun row => core_is_dirty_row core row = true)
                      (seqZ 0 (core_rows core))) in
  saturating_sub (mono_scrollback_total r) sb_total_at_open + dirty.

Definition release_sync_output_hold (e : CellEmitter) (channel_id : Z) : CellEmitter :=
  match em_holds e !! channel_id with
  | None => e
  | Some _ =>
      let e := with_holds e (delete channel_id (em_holds e)) in
      match em_gates e !! channel_id with
      | Some held =>
          if decide (gs_gate held = SyncOutputGate)
          then with_gates e (delete channel_id (em_gates e)) else e
      | None => e
      end
  end.

Definition forget_sync_output (e : CellEmitter) (channel_id : Z) : CellEmitter :=
  let e := release_sync_output_hold e channel_id in
  with_scans e (delete channel_id (em_scans e)).

Definition trip_sync_output_hold (e : CellEmitter) (channel_id : Z) : CellEmitter :=
  match em_holds e !! channel_id with
  | None => e
  | Some hold =>
      let e := with_holds e
                 (<[channel_id := mkChannelSyncHold (sh_generation hold) (sh_sb_total_at_open hold)
                                    (sh_ceilings hold) true]> (em_holds e)) in
      match em_gates e !! channel_id with
      | Some held =>
          if decide (gs_gate held = SyncOutputGate)
          then with_gates e
                 (<[channel_id := mkGateSuppression (gs_gate held) (gs_since_ms held)
                                    (gs_suppressed held) true]> (em_gates e))
          else e
      | None => e
      end
  end.

Definition open_sync_hold (e : CellEmitter) (r : SessionRecord) (generation now : Z) : CellEmitter :=
  with_holds e
    (<[sr_channel_id r := mkChannelSyncHold generation (mono_scrollback_total r)
                            (hold_open SyncOutputHold_new now) false]> (em_holds e)).

Definition sync_output_action (e : CellEmitter) (r : SessionRecord) (now : Z) :
    CellEmitter * SyncOutputAction :=
  let channel_id := sr_channel_id r in
  let '(is_open, generation) :=
    match em_scans e !! channel_id with
    | Some scan => (open scan, generation scan)
    | None => (false, 0)
    end in
  if negb is_open then
    match em_holds e !! channel_id with
    | None => (e, Pass)
    | Some hold =>
        let owed := negb (sh_tripped hold) || sync_snapshot_owed e channel_id in
        (release_sync_output_hold e channel_id, if owed then Flush else Pass)
    end
  else
    match em_holds e !! channel_id with
    | None => (open_sync_hold e r generation now, Hold)
    | Some hold =>
        if sh_generation hold =? generation then
          if sh_tripped hold then (e, Pass)
          else
            let ceilings :=
              measure_pending (sh_ceilings hold) (sync_pending_rows r (sh_sb_total_at_open hold)) in
            let e := with_holds e
                       (<[channel_id := mkChannelSyncHold generation (sh_sb_total_at_open hold)
                                          ceilings (sh_tripped hold)]> (em_holds e)) in
            if negb (rows_exceeded ceilings) then (e, Hold)
            else (trip_sync_output_hold e channel_id, Flush)
        else if negb (sh_tripped hold) then
          (with_holds e
             (<[channel_id := mkChannelSyncHold generation (sh_sb_total_at_open hold)
                                (sh_ceilings hold) (sh_tripped hold)]> (em_holds e)), Hold)
        else (open_sync_hold (release_sync_output_hold e channel_id) r generation now, Hold)
    end.

Definition sync_output_deadline (e : CellEmitter) (channel_id : Z) : option Z :=
  match em_holds e !! channel_id with
  | Some hold => if sh_tripped hold then None else hold_deadline (sh_ceilings hold)
  | None => None
  end.

Definition sync_output_permits_rearm (e : CellEmitter) (channel_id : Z) : bool :=
  match em_holds e !! channel_id with Some hold => sh_tripped hold | None => true end.

(** ** One frame ([emit_frame.rs]) *)

Inductive BuildError := CoreError (error : TerminalCoreError) | WireError (error : CellError).

Inductive Withheld :=
| NoStream
| NoSink
| Gate
| Baseline
| SyncHeld
| SnapshotPending
| Unbuildable (reason : BuildError).

Inductive FrameOutcome :=
| FullFrame (seq : Z) (installed : bool)
| DeltaFrame (seq : Z) (fanout : CellDeltaFanout)
| WithheldFrame (reason : Withheld).

Definition NO_SESSION_ID : string := EmptyString.

Definition measured_at (clock_ms : Z) : Z := if clock_ms <? 0 then 0 else clock_ms.

Definition with_clocks (w : PbCellGridFrame) (timings : FrameTimings) : PbCellGridFrame :=
  mkPbCellGridFrame (pb_session_id w) (pb_stream_id w) (pb_grid_epoch w) (pb_cols w) (pb_rows w)
    (pb_cursor_row w) (pb_cursor_col w) (pb_cursor_visible w) (pb_alt_screen w) (pb_full w)
    (pb_viewport_rows w) (pb_scrollback_rows w) (pb_scrollback_append w) (pb_scrollback_total w)
    (pb_seq w) (pb_sb_base w) (pb_cursor_keys_app w) (pb_bracketed_paste w)
    (measured_at (pty_out_ms timings)) (measured_at (worker_emit_ms timings))
    (pb_coord_recv_ms w) (pb_coord_fanout_ms w) (pb_mouse_tracking w) (pb_mouse_sgr w)
    (pb_kitty_keyboard_flags w) (pb_focus_events w) (pb_base_seq w) (pb_image_placements w)
    (pb_image_placements_present w).

Definition frame_wire (frame : CellGridFrame) (timings : FrameTimings) :
    result PbCellGridFrame CellError :=
  let? wire := cell_frame_to_proto frame NO_SESSION_ID in Ok (with_clocks wire timings).

Definition frame_timings (last_pty_out_ms worker_emit_ms : Z) : FrameTimings :=
  mkFrameTimings (if 0 <? last_pty_out_ms then last_pty_out_ms else worker_emit_ms) worker_emit_ms.

Record Built := mkBuilt {
  bt_frame : CellGridFrame;
  bt_wire : PbCellGridFrame;
  bt_next_state : CellEmitState;
  bt_timings : FrameTimings;
  bt_escalated : bool;
}.

(** One [next_cell_frame] and its wire conversion. *)
Definition build_once (r : SessionRecord) (full : bool) (timings : FrameTimings) :
    result (CellGridFrame * CellEmitState * PbCellGridFrame) BuildError :=
  match next_cell_frame (sr_terminal_core r) (sr_cell_emit r) full (Some 0) with
  | Err error => Err (CoreError error)
  | Ok (frame, state) =>
      match frame_wire frame timings with
      | Err error => Err (WireError error)
      | Ok wire => Ok (frame, state, wire)
      end
  end.

(** A delta that does not fit one part is rebuilt as a full. *)
Definition build_frame `{WireSizes} (r : SessionRecord) (full : bool) (now_ms : Z) :
    result Built BuildError :=
  let timings := frame_timings (sr_last_pty_out_ms r) now_ms in
  let? built := build_once r full timings in
  let '(frame, state, wire) := built in
  let named_size := Z.min (2 ^ 32 - 1) (encoded_cell_grid_frame_size wire + session_part_bytes r) in
  if negb (pb_full wire) && (CELL_GRID_PART_MAX_BYTES <? named_size)
  then
    let? rebuilt := build_once r true timings in
    let '(frame, state, wire) := rebuilt in
    Ok (mkBuilt frame wire state timings true)
  else Ok (mkBuilt frame wire state timings false).

Definition prepare_cell_renewal_epoch (core : TerminalCore) (emit : CellEmitState) :
    CellEmitState * bool :=
  match scrollback_origin core (es_scrollback_origin emit) with
  | Err _ => (emit, false)
  | Ok sb_dropped =>
      let scrollback_total := sb_dropped + core_scrollback_count core in
      let compatible :=
        (core_cols core =? es_cols emit) && (core_rows core =? es_rows emit)
        && Bool.eqb (core_using_alt_screen core) (es_alt emit)
        && (sb_dropped <=? es_last_scrollback_total emit)
        && (es_last_scrollback_total emit <=? scrollback_total) in
      if compatible then (emit, true)
      else
        (mkCellEmitState (es_stream_id emit) (es_grid_epoch_base emit) (es_grid_epoch_revision emit + 1)
           (es_seq emit) (es_last_scrollback_total emit) (es_sent_full emit) (es_cols emit) (es_rows emit)
           (es_alt emit) (es_scrollback_origin emit) (es_sb_dropped emit)
           (es_last_image_placements emit), false)
  end.

(** [TerminalCore::clear_dirty]. *)
Definition clear_core_dirty (core : TerminalCore) : TerminalCore :=
  mkTerminalCore (core_cols core) (core_rows core) (core_scrollback_count core)
    (core_discarded_line_count core) (core_viewport_cell core) (core_viewport_row_mark core)
    (core_scrollback_line_len core) (core_scrollback_cell core) (core_scrollback_row_mark core)
    (fun _ => false) (core_cursor core) (core_using_alt_screen core) (core_cursor_keys_app core)
    (core_bracketed_paste core) (core_mouse_tracking core) (core_mouse_sgr core)
    (core_focus_events core) (core_kitty_keyboard_flags core) (core_image_placements core).

(** [record.cell_emit = next_state; record.terminal_core.clear_dirty()]. *)
Definition committed_record (r : SessionRecord) (state : CellEmitState) : SessionRecord :=
  with_core (with_cell_emit r state) (clear_core_dirty (sr_terminal_core r)).

(** The latch and the invalidation of [repair_stream]. *)
Definition latch_repair `{SinkTransport} (e : CellEmitter) (channel_id : Z) : CellEmitter :=
  let active := active_sinks e in
  alter_stream
    (fun s => with_sink_deliveries (with_pending_repair s true)
                (foldl (fun all sink_id => on_delivery unready sink_id all) (so_deliveries s) active))
    channel_id e.

Definition take_repair_latch (e : CellEmitter) (channel_id : Z) : CellEmitter * bool :=
  match em_streams e !! channel_id with
  | None => (e, false)
  | Some stream =>
      (alter_stream (fun s => with_pending_repair s false) channel_id e, so_pending_repair stream)
  end.

Definition repair_latched (e : CellEmitter) (channel_id : Z) : bool :=
  match em_streams e !! channel_id with Some s => so_pending_repair s | None => false end.

(** What [commit_frame] does with a full. *)
Definition commit_full `{SinkTransport, WireSizes} (e : CellEmitter) (r : SessionRecord) (built : Built) :
    CellEmitter * SessionRecord * FrameOutcome :=
  let channel_id := sr_channel_id r in
  let seq := f_seq (bt_frame built) in
  let r := committed_record r (bt_next_state built) in
  let e := clear_stream_delivery_dirty (clear_dirty e channel_id) channel_id in
  match install_baseline e channel_id (bt_frame built) (bt_wire built) (bt_timings built) with
  | (e, Err _) =>
      let e := retire_stream_delivery e channel_id in
      (alter_stream (fun s => with_core_valid s false) channel_id e, r, FullFrame seq false)
  | (e, Ok _) => (e, with_last_pty_out_ms r 0, FullFrame seq true)
  end.

(** What it does with a delta; [repair] is [repair_stream]. *)
Definition commit_delta `{SinkTransport} (repair : CellEmitter -> SessionRecord -> CellEmitter * SessionRecord)
    (e : CellEmitter) (r : SessionRecord) (built : Built) :
    CellEmitter * SessionRecord * FrameOutcome :=
  let channel_id := sr_channel_id r in
  let seq := f_seq (bt_frame built) in
  let '(e, fanout) := send_frame_to_active e channel_id (bt_frame built) (bt_wire built) in
  let e := foldl forget_sink_records e (fo_overflowed fanout) in
  if (fo_accepted fanout =? 0)%nat then
    let '(e, r) := repair e r in (e, r, DeltaFrame seq fanout)
  else
    let r := with_last_pty_out_ms (committed_record r (bt_next_state built)) 0 in
    let e := clear_dirty e channel_id in
    if (0 <? fo_dropped fanout)%nat then
      let '(e, r) := repair e r in (e, r, DeltaFrame seq fanout)
    else (e, r, DeltaFrame seq fanout).

Definition commit_frame `{SinkTransport, WireSizes}
    (repair : CellEmitter -> SessionRecord -> CellEmitter * SessionRecord) (e : CellEmitter)
    (r : SessionRecord) (built : Built) : CellEmitter * SessionRecord * FrameOutcome :=
  if f_full (bt_frame built) then commit_full e r built else commit_delta repair e r built.

(** The withholding a gate is charged for. *)
Definition withhold (e : CellEmitter) (channel_id : Z) (gate : CellGate) (now_ms : Z) : CellEmitter :=
  note_gate_suppression (note_dirty (mark_stream_delivery_dirty e channel_id) channel_id)
    channel_id gate now_ms.

(** A frame may be built: the record's renewal, the build and the commit. *)
Definition emit_built `{SinkTransport, WireSizes}
    (repair : CellEmitter -> SessionRecord -> CellEmitter * SessionRecord) (e : CellEmitter)
    (r : SessionRecord) (full_owed : bool) (now_ms : Z) : CellEmitter * SessionRecord * FrameOutcome :=
  let e := cancel_cell_emission e (sr_channel_id r) in
  let r :=
    if full_owed && es_sent_full (sr_cell_emit r) && (es_seq (sr_cell_emit r) =? 0)
    then with_cell_emit r (fst (prepare_cell_renewal_epoch (sr_terminal_core r) (sr_cell_emit r)))
    else r in
  match build_frame r full_owed now_ms with
  | Err reason => (e, r, WithheldFrame (Unbuildable reason))
  | Ok built => commit_frame repair e r built
  end.

(** The gates of [emit_cell_frame_at], in their order. *)
Definition emit_gated `{SinkTransport, WireSizes}
    (repair : CellEmitter -> SessionRecord -> CellEmitter * SessionRecord) (e : CellEmitter)
    (r : SessionRecord) (force : bool) (now_ms now : Z) : CellEmitter * SessionRecord * FrameOutcome :=
  let channel_id := sr_channel_id r in
  match em_streams e !! channel_id with
  | None => (e, r, WithheldFrame NoStream)
  | Some stream =>
      if negb (live_stream stream) then (e, r, WithheldFrame NoStream)
      else
        let delivery := delivery_aggregate e channel_id in
        if (ag_active_sinks delivery =? 0)%nat then (e, r, WithheldFrame NoSink)
        else if gate_held e channel_id then
          (withhold e channel_id ResizeCapture now_ms, r, WithheldFrame Gate)
        else if ag_snapshot_pending delivery then
          ((if force then e else mark_stream_delivery_dirty e channel_id), r,
           WithheldFrame SnapshotPending)
        else if negb force && negb (ag_baseline_ready delivery) then
          (withhold e channel_id BaselineGate now_ms, r, WithheldFrame Baseline)
        else
          let full_owed :=
            force || negb (es_sent_full (sr_cell_emit r)) || so_pending_sync_snapshot stream in
          match sync_output_action e r now with
          | (e, Hold) =>
              let e := if full_owed then set_pending_sync_snapshot e channel_id true else e in
              (withhold e channel_id SyncOutputGate now_ms, r, WithheldFrame SyncHeld)
          | (e, _) => emit_built repair e r full_owed now_ms
          end
  end.

(** [emit_cell_frame_at]: a delta that a sink lost is repaired by a forced full,
    which needs no repair of its own; [fuel] counts that nesting. *)
Fixpoint emit_cell_frame_at `{SinkTransport, WireSizes} (fuel : nat) (e : CellEmitter)
    (r : SessionRecord) (force : bool) (now_ms now : Z) : CellEmitter * SessionRecord * FrameOutcome :=
  match fuel with
  | O => (e, r, WithheldFrame NoStream)
  | S fuel =>
      let install e r :=
        let e := with_baselines_owed e (em_baselines_owed e ∖ {[sr_channel_id r]}) in
        fst (emit_cell_frame_at fuel e r true now_ms now) in
      let repair e r := install (latch_repair e (sr_channel_id r)) r in
      emit_gated repair e r force now_ms now
  end.

Definition EMIT_NESTING : nat := 2.

Definition emit_cell_frame `{SinkTransport, WireSizes} (e : CellEmitter) (r : SessionRecord)
    (force : bool) (now_ms now : Z) : CellEmitter * SessionRecord * FrameOutcome :=
  emit_cell_frame_at EMIT_NESTING e r force now_ms now.

Definition install_terminal_baseline `{SinkTransport, WireSizes} (e : CellEmitter)
    (r : SessionRecord) (now_ms now : Z) : CellEmitter * SessionRecord * FrameOutcome :=
  let e := with_baselines_owed e (em_baselines_owed e ∖ {[sr_channel_id r]}) in
  emit_cell_frame e r true now_ms now.
