(* ===== verification/CellCadence.v ===== *)
(** * CellCadence: when a channel's frames are emitted

    Models what drives [CellEmitter]: the rate governor and the cadence's pass
    ([src/crates/roost-worker/src/session/cell_scheduler.rs], the pass of
    [runtime/cell_cadence.rs]), the routing of a chunk of output
    ([emit_ingest.rs]), the stream registry ([emit_streams.rs]), the life of a
    sink ([cell_sink_lifecycle.rs]) and the disposal of a channel ([emit.rs]).
    An [Instant] is a count of nanoseconds. *)
From Stdlib Require Import Ascii String.
From S2P Require Export CellEmitter.

(** ** Input echo *)

Definition INPUT_ECHO_WINDOW_MS : Z := 2 * CELL_EMIT_COALESCE_MS.
Definition CELL_EMIT_COALESCE : Z := CELL_EMIT_COALESCE_MS * 1000000.

Definition saturating_add_i64 (a b : Z) : Z := Z.max (- 2 ^ 63) (Z.min (2 ^ 63 - 1) (a + b)).

Definition note_input_echo (e : CellEmitter) (channel_id now_ms : Z) : CellEmitter :=
  with_input_echo e (<[channel_id := saturating_add_i64 now_ms INPUT_ECHO_WINDOW_MS]> (em_input_echo e)).

Definition input_echo_armed (e : CellEmitter) (channel_id now_ms : Z) : CellEmitter * bool :=
  match em_input_echo e !! channel_id with
  | Some armed_until =>
      if now_ms <? armed_until then (e, true)
      else (with_input_echo e (delete channel_id (em_input_echo e)), false)
  | None => (e, false)
  end.

(** ** The rate governor ([cell_scheduler.rs]) *)

Definition scheduled_emission (e : CellEmitter) (channel_id : Z) : option bool :=
  (fun schedule => bool_decide (is_Some (sch_cooldown_until schedule))) <$> em_schedules e !! channel_id.

Definition request_terminal_baseline (e : CellEmitter) (channel_id : Z) : CellEmitter :=
  wake_cadence (with_baselines_owed e ({[channel_id]} ∪ em_baselines_owed e)).

Definition enabled_stream_id (e : CellEmitter) (channel_id : Z) : option string :=
  match em_streams e !! channel_id with
  | Some stream => if live_stream stream then Some (so_stream_id stream) else None
  | None => None
  end.

Definition has_live_current_stream (e : CellEmitter) (channel_id : Z) (stream_id : string) : bool :=
  bool_decide (enabled_stream_id e channel_id = Some stream_id).

(** A leading emission, queued at once. *)
Definition queue_leading (e : CellEmitter) (channel_id : Z) (stream_id : string) : CellEmitter :=
  wake_cadence
    (with_schedules e (<[channel_id := mkCellEmissionSchedule stream_id None]> (em_schedules e))).

(** What an already queued emission leaves to do. *)
Definition fold_or_queue (e : CellEmitter) (channel_id : Z) (stream_id : string)
    (promote_input_echo : bool) : CellEmitter :=
  match em_schedules e !! channel_id with
  | None => queue_leading e channel_id stream_id
  | Some pending =>
      if negb (String.eqb (sch_stream_id pending) stream_id)
      then queue_leading (cancel_cell_emission e channel_id) channel_id stream_id
      else
        let e := note_dirty e channel_id in
        if negb promote_input_echo || bool_decide (sch_cooldown_until pending = None) then e
        else queue_leading (cancel_cell_emission e channel_id) channel_id stream_id
  end.

Section cadence.
Context `{SinkTransport, WireSizes}.

(** The latch is taken before it is known whether it is set. *)
Definition schedule_cell_emission (e : CellEmitter) (r : SessionRecord) (promote_input_echo : bool)
    (now_ms now : Z) : CellEmitter * SessionRecord :=
  let channel_id := sr_channel_id r in
  match enabled_stream_id e channel_id with
  | None => (e, r)
  | Some stream_id =>
      let delivery := delivery_aggregate e channel_id in
      if (ag_active_sinks delivery =? 0)%nat then (e, r)
      else if negb (ag_baseline_ready delivery) || ag_snapshot_pending delivery then
        (withhold e channel_id BaselineGate now_ms, r)
      else if gate_held e channel_id then
        (note_gate_suppression (note_dirty e channel_id) channel_id ResizeCapture now_ms, r)
      else
        let '(e, latched) := take_repair_latch e channel_id in
        if latched then fst (install_terminal_baseline e r now_ms now)
        else
          match sync_output_action e r now with
          | (e, Hold) =>
              let e := note_gate_suppression (note_dirty e channel_id) channel_id SyncOutputGate now_ms in
              (cancel_cell_emission e channel_id, r)
          | (e, Flush) => fst (emit_cell_frame e r false now_ms now)
          | (e, Pass) => (fold_or_queue e channel_id stream_id promote_input_echo, r)
          end
  end.

Definition may_rearm (e : CellEmitter) (channel_id : Z) (stream_id : string) : bool :=
  let delivery := delivery_aggregate e channel_id in
  has_live_current_stream e channel_id stream_id
  && negb ((ag_active_sinks delivery =? 0)%nat || negb (ag_baseline_ready delivery)
           || ag_snapshot_pending delivery)
  && negb (gate_held e channel_id || repair_latched e channel_id)
  && sync_output_permits_rearm e channel_id.

Definition arm_trailing_cooldown (e : CellEmitter) (channel_id : Z) (stream_id : string) (now : Z)
    (fired : option Z) : CellEmitter :=
  if bool_decide (is_Some (em_schedules e !! channel_id)) || negb (may_rearm e channel_id stream_id)
  then e
  else
    with_schedules e
      (<[channel_id := mkCellEmissionSchedule stream_id (Some (default now fired + CELL_EMIT_COALESCE))]>
         (em_schedules e)).

Definition fire_sync_output_ceiling (e : CellEmitter) (r : SessionRecord) (now_ms now : Z) :
    CellEmitter * SessionRecord :=
  let channel_id := sr_channel_id r in
  match sync_output_deadline e channel_id with
  | Some due =>
      if due <=? now then
        let e := trip_sync_output_hold e channel_id in
        fst (emit_cell_frame e r (sync_snapshot_owed e channel_id) now_ms now)
      else (e, r)
  | None => (e, r)
  end.

(** The due leading or trailing emission of one pass. *)
Definition run_schedule (e : CellEmitter) (r : SessionRecord) (now_ms now : Z) :
    CellEmitter * SessionRecord :=
  let channel_id := sr_channel_id r in
  match em_schedules e !! channel_id with
  | None => (e, r)
  | Some schedule =>
      match sch_cooldown_until schedule with
      | Some due =>
          if now <? due then (e, r)
          else
            let e := cancel_cell_emission e channel_id in
            if negb (has_live_current_stream e channel_id (sch_stream_id schedule))
               || negb (is_dirty e channel_id)
               || negb (may_rearm e channel_id (sch_stream_id schedule))
            then (e, r)
            else
              let '(e, r, _) := emit_cell_frame e r false now_ms now in
              (arm_trailing_cooldown e channel_id (sch_stream_id schedule) now (Some due), r)
      | None =>
          let e := cancel_cell_emission e channel_id in
          if negb (has_live_current_stream e channel_id (sch_stream_id schedule))
             || negb (may_rearm e channel_id (sch_stream_id schedule))
          then (e, r)
          else
            let '(e, r, _) := emit_cell_frame e r false now_ms now in
            (arm_trailing_cooldown e channel_id (sch_stream_id schedule) now None, r)
      end
  end.

Definition run_cadence_work (e : CellEmitter) (r : SessionRecord) (now_ms now : Z) :
    CellEmitter * SessionRecord :=
  let '(e, r) :=
    if bool_decide (sr_channel_id r ∈ em_baselines_owed e)
    then fst (install_terminal_baseline e r now_ms now) else (e, r) in
  let '(e, r) := fire_sync_output_ceiling e r now_ms now in
  run_schedule e r now_ms now.

Definition drop_cadence_work (e : CellEmitter) (channel_id now : Z) : CellEmitter :=
  let e := cancel_cell_emission e channel_id in
  let e := with_baselines_owed e (em_baselines_owed e ∖ {[channel_id]}) in
  match sync_output_deadline e channel_id with
  | Some due => if due <=? now then release_sync_output_hold e channel_id else e
  | None => e
  end.

(** ** The cadence's view *)

(** Every deadline the cadence waits for, by channel. *)
Definition deadlines (e : CellEmitter) (now : Z) : list (Z * Z) :=
  ((fun entry => (entry.1, default now (sch_cooldown_until entry.2))) <$> map_to_list (em_schedules e))
  ++ omap (fun entry => (fun due => (entry.1, due)) <$> sync_output_deadline e entry.1)
       (map_to_list (em_holds e)).

Definition due_channels (e : CellEmitter) (now : Z) : gset Z :=
  em_baselines_owed e
  ∪ list_to_set (fst <$> base.filter (fun entry => entry.2 <= now) (deadlines e now)).

Definition earliest (l : list Z) : option Z :=
  foldl (fun next due => Some (match next with Some held => Z.min held due | None => due end)) None l.

Definition next_deadline (e : CellEmitter) (now : Z) : option Z :=
  earliest (snd <$> base.filter (fun entry => now < entry.2) (deadlines e now)).

(** ** Output ([emit_ingest.rs]) *)

Definition route_chunk_to_cells (e : CellEmitter) (r : SessionRecord) (promote_input_echo captured : bool)
    (now_ms now : Z) : CellEmitter * SessionRecord * bool :=
  let channel_id := sr_channel_id r in
  match em_streams e !! channel_id with
  | None => (e, r, false)
  | Some stream =>
      if negb (so_enabled stream) then (e, r, false)
      else
        let delivery := delivery_aggregate e channel_id in
        let boundary_ready :=
          negb (ag_baseline_ready delivery) && negb (ag_snapshot_pending delivery)
          && so_pending_sync_snapshot stream && negb (synchronized_output e channel_id) in
        if boundary_ready then
          let '(e, r, _) := install_terminal_baseline e r now_ms now in (e, r, true)
        else if negb (ag_baseline_ready delivery) || ag_snapshot_pending delivery || captured
                || negb (so_core_valid stream) then
          (note_dirty (mark_stream_delivery_dirty e channel_id) channel_id, r, true)
        else
          let '(e, r) := schedule_cell_emission e r promote_input_echo now_ms now in (e, r, true)
  end.

(** The first unshipped byte's time. *)
Definition note_output_time (r : SessionRecord) (now_ms : Z) : SessionRecord :=
  if sr_last_pty_out_ms r =? 0 then with_last_pty_out_ms r now_ms else r.

(** The live lane's cell half; [core] is what parsing the chunk left. *)
Definition ingest_pty_chunk (e : CellEmitter) (r : SessionRecord) (chunk : list byte)
    (core : TerminalCore) (image_changed : bool) (now_ms now : Z) : CellEmitter * SessionRecord * bool :=
  let r := with_core (note_output_time r now_ms) core in
  let e := observe_sync_output e (sr_channel_id r) chunk in
  let '(e, input_echo) := input_echo_armed e (sr_channel_id r) now_ms in
  let '(e, r, accepted) := route_chunk_to_cells e r input_echo false now_ms now in
  if image_changed && accepted
  then (schedule_cell_emission e r input_echo now_ms now, accepted) else (e, r, accepted).

Definition retain_without_parsing (e : CellEmitter) (r : SessionRecord) (chunk : list byte)
    (now_ms now : Z) : CellEmitter * SessionRecord :=
  let r := note_output_time r now_ms in
  let e := observe_sync_output e (sr_channel_id r) chunk in
  let '(e, input_echo) := input_echo_armed e (sr_channel_id r) now_ms in
  fst (route_chunk_to_cells e r input_echo true now_ms now).

(** ** The life of a sink ([cell_sink_lifecycle.rs]) *)

Definition request_baselines_for_watched_streams (e : CellEmitter) : CellEmitter :=
  foldl request_terminal_baseline e (watched_channels e).

Definition register_cell_sink (e : CellEmitter) (sink_id : string) : CellEmitter :=
  let e := if contains e sink_id then unregister_sink e sink_id else e in
  request_baselines_for_watched_streams (register_sink e sink_id).

Definition unregister_cell_sink (e : CellEmitter) (sink_id : string) : CellEmitter :=
  if contains e sink_id then unregister_sink e sink_id else e.

Definition note_stream_baseline_complete (e : CellEmitter) (channel_id : Z) : CellEmitter :=
  if sync_output_held e channel_id then e else with_gates e (delete channel_id (em_gates e)).

Definition schedule_leading_emission (e : CellEmitter) (channel_id : Z) : CellEmitter :=
  match enabled_stream_id e channel_id with
  | None => e
  | Some stream_id =>
      wake_cadence
        (if decide (is_Some (em_schedules e !! channel_id)) then e
         else with_schedules e
                (<[channel_id := mkCellEmissionSchedule stream_id None]> (em_schedules e)))
  end.

(** One channel's turn of [resume_terminal_snapshots]. *)
Definition resume_channel (e : CellEmitter) (channel_id : Z) : CellEmitter :=
  match drain_snapshot e channel_id with
  | (e, NoCursor) =>
      let '(e, latched) := take_repair_latch e channel_id in
      if latched then request_terminal_baseline e channel_id else e
  | (e, BaselineComplete work_owed) =>
      let e := note_stream_baseline_complete e channel_id in
      if work_owed then schedule_leading_emission e channel_id else e
  | (e, Blocked) => e
  end.

Definition resume_terminal_snapshots (e : CellEmitter) : CellEmitter :=
  foldl resume_channel e (merge_sort Z.le (watched_channels e)).

Definition resume_cell_sink (e : CellEmitter) (sink_id : string) : CellEmitter :=
  if negb (contains e sink_id) then e
  else if is_active e sink_id then resume_terminal_snapshots e
  else request_baselines_for_watched_streams (resume_sink e sink_id).

End cadence.

(** ** Streams ([emit_streams.rs], [emit.rs]) *)

(** [record.cell_emit.stream_id = stream_id]. *)
Definition readdress (emit : CellEmitState) (stream_id : string) (revision seq : Z) : CellEmitState :=
  mkCellEmitState stream_id (es_grid_epoch_base emit) revision seq (es_last_scrollback_total emit)
    (es_sent_full emit) (es_cols emit) (es_rows emit) (es_alt emit) (es_scrollback_origin emit)
    (es_sb_dropped emit) (es_last_image_placements emit).

Definition install_stream (e : CellEmitter) (r : SessionRecord) (stream_id : string) :
    CellEmitter * SessionRecord :=
  let channel_id := sr_channel_id r in
  let emit := sr_cell_emit r in
  let stream := default StreamOutput_default (em_streams e !! channel_id) in
  let stream := with_core_valid (with_enabled (with_stream_id stream stream_id) true) true in
  (note_dirty (with_streams e (<[channel_id := stream]> (em_streams e))) channel_id,
   with_cell_emit r (readdress emit stream_id (es_grid_epoch_revision emit) (es_seq emit))).

Definition set_stream_enabled (e : CellEmitter) (channel_id : Z) (enabled : bool) : CellEmitter :=
  alter_stream (fun s => with_enabled s enabled) channel_id e.

Definition set_core_valid (e : CellEmitter) (channel_id : Z) (valid : bool) : CellEmitter :=
  alter_stream (fun s => with_core_valid s valid) channel_id e.

Definition cancel (e : CellEmitter) (channel_id : Z) : CellEmitter :=
  let e := with_input_echo e (delete channel_id (em_input_echo e)) in
  let e := clear_dirty e channel_id in
  let e := with_gates e (delete channel_id (em_gates e)) in
  let e := with_emission_gates e (em_emission_gates e ∖ {[channel_id]}) in
  let e := cancel_cell_emission e channel_id in
  let e := with_baselines_owed e (em_baselines_owed e ∖ {[channel_id]}) in
  let e := forget_sync_output e channel_id in
  alter_stream (fun s => with_pending_sync_snapshot (with_pending_repair s false) false) channel_id e.

Definition forget_channel (e : CellEmitter) (channel_id : Z) : CellEmitter :=
  cancel (with_streams e (delete channel_id (em_streams e))) channel_id.

Definition mint_stream (e : CellEmitter) (r : SessionRecord) (stream_id : string)
    (enabled geometry_changed : bool) : CellEmitter * SessionRecord :=
  let channel_id := sr_channel_id r in
  let emit := sr_cell_emit r in
  let e := cancel_cell_emission e channel_id in
  let e := clear_stream_delivery_dirty (clear_dirty e channel_id) channel_id in
  let e := retire_stream_delivery e channel_id in
  let stream :=
    default (with_core_valid StreamOutput_default true) (em_streams e !! channel_id) in
  let stream := with_sink_deliveries (with_enabled (with_stream_id stream stream_id) enabled) ∅ in
  (with_streams e (<[channel_id := stream]> (em_streams e)),
   with_cell_emit r
     (readdress emit stream_id (es_grid_epoch_revision emit + (if geometry_changed then 1 else 0)) 0)).

Definition stream_core_valid (e : CellEmitter) (channel_id : Z) : bool :=
  match em_streams e !! channel_id with Some s => so_core_valid s | None => false end.

Definition stream_core_trapped (e : CellEmitter) (channel_id : Z) : bool :=
  match em_streams e !! channel_id with Some s => negb (so_core_valid s) | None => false end.

Definition trap_stream_core (e : CellEmitter) (channel_id : Z) : CellEmitter :=
  cancel_cell_emission (set_core_valid (retire_stream_delivery e channel_id) channel_id false) channel_id.

Definition reset_stream_delivery (e : CellEmitter) (channel_id : Z) : CellEmitter :=
  mark_stream_delivery_dirty (retire_stream_delivery e channel_id) channel_id.
