(* ===== verification/CellDeliveries.v ===== *)
(** * CellDeliveries: what a sink has been handed

    The invariant of [CellEmitter]: what each delivery record says of its sink,
    read off what the sink was handed since it registered, and the operations
    that keep it. *)
From Stdlib Require Import Ascii String.
From S2P Require Export CellCadence.

(** ** What a sink received *)

Definition received_step (sink_id : string) (channel_id : Z) (received : list SinkPart)
    (event : SinkEvent) : list SinkPart :=
  match event with
  | Registered id => if decide (id = sink_id) then [] else received
  | Handed id channel part Sent =>
      if decide (id = sink_id /\ channel = channel_id) then received ++ [part] else received
  | _ => received
  end.

(** The parts a sink took on a channel since it last registered. *)
Definition received (log : list SinkEvent) (sink_id : string) (channel_id : Z) : list SinkPart :=
  foldl (received_step sink_id channel_id) [] log.

Lemma received_snoc log event sink_id channel_id :
  received (log ++ [event]) sink_id channel_id
  = received_step sink_id channel_id (received log sink_id channel_id) event.
Proof. unfold received. by rewrite foldl_app. Qed.

(** [parts] is a full frame, parked. *)
Definition parts_of `{WireSizes} (full : CellGridFrame) (timings : FrameTimings)
    (parts : list ParkedPart) : Prop :=
  f_full full = true
  /\ exists wire snapshot_id, frame_wire full timings = Ok wire
       /\ park_parts full wire snapshot_id = Ok parts.

(** A frame handed over whole. *)
Definition handed_frames (frames : list CellGridFrame) (parts : list SinkPart) : Prop :=
  Forall2 (fun frame part => exists wire, part = HandFrame frame wire) frames parts.

(** The last things received are a full, whole, then the deltas since; folding
    them paints [core]'s screen. *)
Definition paints `{WireSizes} (received : list SinkPart) (core : TerminalCore)
    (state : CellEmitState) : Prop :=
  exists earlier full timings parts deltas handed held,
    received = earlier ++ (hand timings <$> parts) ++ handed
    /\ parts_of full timings parts /\ handed_frames deltas handed
    /\ mirror replica_step (full :: deltas) = Some held
    /\ shows core state (image_base (full :: deltas)) held
    /\ f_image_placements held = es_last_image_placements state.

(** ** The invariant *)

(** A record and [committed], the core as its emit state last described it. *)
Record record_inv (committed : TerminalCore) (bound : Z) (r : SessionRecord) : Prop := {
  ri_typed : core_typed (sr_terminal_core r);
  ri_dirty : dirty_contract committed (sr_terminal_core r);
  ri_tracks : es_sent_full (sr_cell_emit r) = true -> tracks committed (sr_cell_emit r);
  ri_seq : 0 <= es_seq (sr_cell_emit r) <= bound;
}.

(** What a delivery record promises of its sink. *)
Record delivery_inv `{WireSizes} (e : CellEmitter) (channel_id : Z) (committed : TerminalCore)
    (state : CellEmitState) (sink_id : string) (delivery : StreamDelivery) : Prop := {
  di_live : baseline_ready delivery = true \/ is_Some (cursor delivery) ->
    em_sinks e !! sink_id <> Some false /\ es_sent_full state = true /\ 1 <= es_seq state;
  di_ready : baseline_ready delivery = true ->
    cursor delivery = None /\ paints (received (em_log e) sink_id channel_id) committed state;
  di_cursor : forall parked, cursor delivery = Some parked ->
    exists earlier full,
      received (em_log e) sink_id channel_id
      = earlier ++ (hand (cur_timings parked) <$> take (cur_next_part parked) (cur_parts parked))
      /\ parts_of full (cur_timings parked) (cur_parts parked)
      /\ shows committed state (f_sb_base full) full
      /\ f_image_placements full = es_last_image_placements state;
}.

Definition channel_inv `{WireSizes} (e : CellEmitter) (committed : TerminalCore) (r : SessionRecord) :
    Prop :=
  forall stream sink_id delivery,
    em_streams e !! sr_channel_id r = Some stream -> so_deliveries stream !! sink_id = Some delivery ->
    delivery_inv e (sr_channel_id r) committed (sr_cell_emit r) sink_id delivery.

(** A sink with a delivery record is registered, or being dropped. *)
Definition records_inv (e : CellEmitter) (gone : list string) : Prop :=
  forall channel_id stream sink_id delivery,
    em_streams e !! channel_id = Some stream -> so_deliveries stream !! sink_id = Some delivery ->
    contains e sink_id = true \/ sink_id ∈ gone.

(** ** Operations that leave sinks, streams and log alone *)

Definition same_view (e e' : CellEmitter) : Prop :=
  em_sinks e' = em_sinks e /\ em_streams e' = em_streams e /\ em_log e' = em_log e.

Lemma channel_inv_view `{WireSizes} e e' committed r :
  same_view e e' -> channel_inv e committed r -> channel_inv e' committed r.
Proof.
  intros (E1 & E2 & E3) Hc stream sink_id delivery Hs Hd. rewrite E2 in Hs.
  destruct (Hc stream sink_id delivery Hs Hd) as [Hl Hr Hp].
  constructor; rewrite ?E1, ?E3; done.
Qed.

Lemma records_inv_view e e' gone : same_view e e' -> records_inv e gone -> records_inv e' gone.
Proof. intros (E1 & E2 & _) Hr. unfold records_inv, contains. rewrite E1, E2. exact Hr. Qed.

Lemma same_view_trans e1 e2 e3 : same_view e1 e2 -> same_view e2 e3 -> same_view e1 e3.
Proof. unfold same_view. intuition congruence. Qed.

Lemma note_gate_suppression_view e ch gate now_ms : same_view e (note_gate_suppression e ch gate now_ms).
Proof.
  unfold note_gate_suppression. destruct (em_gates (attribute_gate e ch gate now_ms) !! ch); by split_and!.
Qed.

Lemma release_hold_view e ch : same_view e (release_sync_output_hold e ch).
Proof.
  unfold release_sync_output_hold. destruct (em_holds e !! ch); [|by split_and!].
  cbn [em_gates with_holds]. destruct (em_gates e !! ch); [|by split_and!].
  destruct (decide _); by split_and!.
Qed.

Lemma trip_hold_view e ch : same_view e (trip_sync_output_hold e ch).
Proof.
  unfold trip_sync_output_hold. destruct (em_holds e !! ch); [|by split_and!].
  cbn [em_gates with_holds]. destruct (em_gates e !! ch); [|by split_and!].
  destruct (decide _); by split_and!.
Qed.

Lemma sync_output_action_view e r now : same_view e (fst (sync_output_action e r now)).
Proof.
  unfold sync_output_action. destruct (em_scans e !! _) as [[o g c]|]; cbn [open generation];
    [destruct o|]; cbn [negb].
  - destruct (em_holds e !! _) as [hold|]; [|by split_and!].
    destruct (sh_generation hold =? g).
    + destruct (sh_tripped hold); [by split_and!|]. cbn zeta.
      destruct (negb (rows_exceeded _)); [by split_and!|].
      eapply same_view_trans; [|apply trip_hold_view]. by split_and!.
    + destruct (negb (sh_tripped hold)); [by split_and!|]. cbn [fst].
      eapply same_view_trans; [apply release_hold_view|]. by split_and!.
  - destruct (em_holds e !! _); [|by split_and!]. apply release_hold_view.
  - destruct (em_holds e !! _); [|by split_and!]. apply release_hold_view.
Qed.

(** ** Operations that only take from the deliveries *)

Definition idle (delivery : StreamDelivery) : Prop :=
  baseline_ready delivery = false /\ cursor delivery = None.

Definition weaker (delivery delivery' : StreamDelivery) : Prop :=
  (baseline_ready delivery' = true -> baseline_ready delivery = true)
  /\ (cursor delivery' = None \/ cursor delivery' = cursor delivery).

(** The delivery record of a sink on a channel. *)
Definition delivery_at (e : CellEmitter) (channel_id : Z) (sink_id : string)
    (delivery : StreamDelivery) : Prop :=
  exists stream, em_streams e !! channel_id = Some stream
                 /\ so_deliveries stream !! sink_id = Some delivery.

(** [e'] claims no more of any sink than [e] does. *)
Record lesser (e e' : CellEmitter) : Prop := {
  ls_sinks : em_sinks e' = em_sinks e;
  ls_log : em_log e' = em_log e;
  ls_deliveries : forall channel_id sink_id delivery', delivery_at e' channel_id sink_id delivery' ->
    (exists delivery, delivery_at e channel_id sink_id delivery /\ weaker delivery delivery')
    \/ (idle delivery' /\ contains e sink_id = true);
}.

Lemma weaker_refl d : weaker d d.
Proof. split; [done|by right]. Qed.

Lemma weaker_trans d1 d2 d3 : weaker d1 d2 -> weaker d2 d3 -> weaker d1 d3.
Proof. intros [H1 H2] [H3 H4]. split; [naive_solver|]. destruct H4 as [|H4]; [by left|]. rewrite H4. naive_solver. Qed.

Lemma weaker_idle d d' : idle d' -> weaker d d'.
Proof. intros [H1 H2]. split; [by rewrite H1|by left]. Qed.

Lemma idle_weaker d d' : idle d -> weaker d d' -> idle d'.
Proof.
  intros [H1 H2] [H3 H4]. split.
  - destruct (baseline_ready d'); [|done]. rewrite H3 in H1; done.
  - destruct H4 as [|H4]; [done|]. by rewrite H4.
Qed.

#[global] Instance lesser_preorder : PreOrder lesser.
Proof.
  split.
  - intros e. constructor; [done|done|]. intros ch sid d Hd. left. exists d. split; [done|apply weaker_refl].
  - intros e1 e2 e3 [S1 L1 D1] [S2 L2 D2]. constructor; [congruence|congruence|].
    intros ch sid d3 H3. destruct (D2 ch sid d3 H3) as [(d2 & H2 & W2)|[Hi Hc]].
    + destruct (D1 ch sid d2 H2) as [(d1 & H1 & W1)|[Hi Hc]].
      * left. exists d1. split; [done|]. by eapply weaker_trans.
      * right. split; [|done]. by eapply idle_weaker.
    + right. split; [done|]. unfold contains in *. by rewrite <- S1.
Qed.

Lemma same_view_lesser e e' : same_view e e' -> lesser e e'.
Proof.
  intros (E1 & E2 & E3). constructor; [done|done|].
  intros ch sid d (s & Hs & Hd). rewrite E2 in Hs. left. exists d. split; [by exists s|apply weaker_refl].
Qed.

Lemma delivery_inv_weaker `{WireSizes} e ch c st sid d d' :
  weaker d d' -> delivery_inv e ch c st sid d -> delivery_inv e ch c st sid d'.
Proof.
  intros [Hw Hc] [Hl Hr Hp]. constructor.
  - intros [Hready|[p Hcur]]; apply Hl; [left; by apply Hw|right].
    destruct Hc as [Hc|Hc]; [congruence|]. rewrite <- Hc. by eexists.
  - intros Hready. destruct (Hr (Hw Hready)) as [Hnone Hp']. split; [|done].
    destruct Hc as [|Hc]; congruence.
  - intros p Hcur. apply Hp. destruct Hc as [Hc|Hc]; congruence.
Qed.

Lemma delivery_inv_idle `{WireSizes} e ch c st sid d : idle d -> delivery_inv e ch c st sid d.
Proof.
  intros [H1 H2]. constructor.
  - intros [Hready|[p Hcur]]; congruence.
  - congruence.
  - intros p Hcur. congruence.
Qed.

Lemma delivery_inv_ext `{WireSizes} e e' ch c st sid d :
  em_sinks e' = em_sinks e -> em_log e' = em_log e ->
  delivery_inv e ch c st sid d -> delivery_inv e' ch c st sid d.
Proof. intros E1 E2 [Hl Hr Hp]. constructor; by rewrite ?E1, ?E2. Qed.

Lemma channel_inv_lesser `{WireSizes} e e' committed r :
  lesser e e' -> channel_inv e committed r -> channel_inv e' committed r.
Proof.
  intros [E1 E2 Hd] Hc stream sid d Hs Hdel.
  destruct (Hd (sr_channel_id r) sid d) as [(d0 & (s0 & Hs0 & Hd0) & Hw)|[Hi _]]; [by exists stream| |].
  - eapply delivery_inv_ext; [done|done|]. eapply delivery_inv_weaker; [done|]. by eapply Hc.
  - by apply delivery_inv_idle.
Qed.

Lemma records_inv_lesser e e' gone : lesser e e' -> records_inv e gone -> records_inv e' gone.
Proof.
  intros [E1 E2 Hd] Hr ch stream sid d Hs Hdel. unfold contains. rewrite E1.
  destruct (Hd ch sid d) as [(d0 & (s0 & Hs0 & Hd0) & Hw)|[_ Hc]]; [by exists stream| |by left].
  by eapply Hr.
Qed.

(** An update of one stream, told by what it does to each delivery. *)
Lemma alter_stream_lesser (f : StreamOutput -> StreamOutput) ch e :
  (forall stream sid d', em_streams e !! ch = Some stream -> so_deliveries (f stream) !! sid = Some d' ->
     (exists d, so_deliveries stream !! sid = Some d /\ weaker d d')
     \/ (idle d' /\ contains e sid = true)) ->
  lesser e (alter_stream f ch e).
Proof.
  intros Hf. constructor; [done|done|]. intros ch' sid d' (s' & Hs' & Hd'). cbn in Hs'.
  destruct (decide (ch = ch')) as [<-|Hne].
  - rewrite lookup_alter_eq in Hs'. destruct (em_streams e !! ch) as [s|] eqn:Hs; [|done].
    injection Hs' as <-. destruct (Hf s sid d' eq_refl Hd') as [(d & Hd & Hw)|Hi]; [left|by right].
    exists d. split; [by exists s|done].
  - rewrite lookup_alter_ne in Hs' by done. left. exists d'. split; [by exists s'|apply weaker_refl].
Qed.

Lemma each_delivery_lesser f ch e :
  (forall d, weaker d (f d)) -> lesser e (alter_stream (each_delivery f) ch e).
Proof.
  intros Hf. apply alter_stream_lesser. intros s sid d' _ Hd. cbn in Hd.
  rewrite lookup_fmap in Hd. destruct (so_deliveries s !! sid) as [d|] eqn:E; [|done].
  injection Hd as <-. left. by exists d.
Qed.

(** An update of a stream's flags. *)
Lemma flags_lesser f ch e :
  (forall s, so_deliveries (f s) = so_deliveries s) -> lesser e (alter_stream f ch e).
Proof.
  intros Hf. apply alter_stream_lesser. intros s sid d' _ Hd. rewrite Hf in Hd. left. exists d'.
  split; [done|apply weaker_refl].
Qed.

Lemma retire_weaker d : weaker d (retire d).
Proof. by apply weaker_idle. Qed.
Lemma unready_weaker d : weaker d (unready d).
Proof. split; [done|by right]. Qed.
Lemma abandon_weaker d : weaker d (abandon_cursor d).
Proof. split; [done|by left]. Qed.
Lemma clear_dirty_weaker d : weaker d (clear_baseline_dirty d).
Proof. split; [done|by right]. Qed.
Lemma mark_dirty_weaker d : weaker d (mark_dirty d).
Proof. unfold mark_dirty. destruct (_ || _); [|apply weaker_refl]. split; [done|by right]. Qed.

Create HintDb deliveries.
#[export] Hint Resolve retire_weaker unready_weaker abandon_weaker clear_dirty_weaker mark_dirty_weaker
  weaker_refl each_delivery_lesser flags_lesser same_view_lesser note_gate_suppression_view
  release_hold_view trip_hold_view : deliveries.

Lemma mark_stream_dirty_lesser e ch : lesser e (mark_stream_delivery_dirty e ch).
Proof. apply each_delivery_lesser, mark_dirty_weaker. Qed.
Lemma clear_stream_dirty_lesser e ch : lesser e (clear_stream_delivery_dirty e ch).
Proof. apply each_delivery_lesser, clear_dirty_weaker. Qed.
Lemma retire_stream_lesser e ch : lesser e (retire_stream_delivery e ch).
Proof. apply each_delivery_lesser, retire_weaker. Qed.

Lemma withhold_lesser e ch gate now_ms : lesser e (withhold e ch gate now_ms).
Proof.
  unfold withhold. etransitivity; [apply (mark_stream_dirty_lesser e ch)|].
  apply same_view_lesser. eapply same_view_trans; [|apply note_gate_suppression_view]. by split_and!.
Qed.

Lemma forget_records_lesser e sid : lesser e (forget_sink_records e sid).
Proof.
  constructor; [done|done|]. intros ch sid' d' (s' & Hs' & Hd'). cbn in Hs'.
  rewrite lookup_fmap in Hs'. destruct (em_streams e !! ch) as [s|] eqn:Hs; [|done].
  injection Hs' as <-. cbn in Hd'. apply lookup_delete_Some in Hd' as [_ Hd']. left. exists d'.
  split; [by exists s|apply weaker_refl].
Qed.

Lemma forget_records_inv e sid gone :
  records_inv e (sid :: gone) -> records_inv (forget_sink_records e sid) gone.
Proof.
  intros Hr ch s' sid' d' Hs' Hd'. cbn in Hs'. rewrite lookup_fmap in Hs'.
  destruct (em_streams e !! ch) as [s|] eqn:Hs; [|done]. injection Hs' as <-.
  cbn in Hd'. apply lookup_delete_Some in Hd' as [Hne Hd'].
  destruct (Hr ch s sid' d' Hs Hd') as [|Hin]; [by left|right]. set_solver.
Qed.

Lemma on_delivery_lookup f sid deliveries sid' :
  on_delivery f sid deliveries !! sid'
  = if decide (sid = sid') then Some (f (default StreamDelivery_default (deliveries !! sid)))
    else deliveries !! sid'.
Proof.
  unfold on_delivery. destruct (decide (sid = sid')) as [<-|Hne]; [by rewrite lookup_insert_eq|].
  by rewrite lookup_insert_ne.
Qed.

(** ** Active sinks *)

Lemma active_ids_spec sinks sid : sid ∈ active_ids sinks <-> sinks !! sid = Some true.
Proof.
  unfold active_ids. rewrite list_elem_of_fmap. split.
  - intros ([id active] & -> & [Ha Hin]%list_elem_of_filter). cbn in *.
    apply elem_of_map_to_list in Hin. by subst.
  - intros Hs. exists (sid, true). split; [done|]. apply list_elem_of_filter.
    split; [done|]. by apply elem_of_map_to_list.
Qed.

Lemma active_ids_nodup sinks : NoDup (active_ids sinks).
Proof.
  unfold active_ids. apply NoDup_fmap_fst.
  - intros x y1 y2 [E1 _]%list_elem_of_filter [E2 _]%list_elem_of_filter. cbn in *. congruence.
  - apply NoDup_filter, NoDup_map_to_list.
Qed.

Section sinks.
Context `{Laws : SinkTransportLaws}.

Lemma active_sinks_spec e sid : sid ∈ active_sinks e <-> em_sinks e !! sid = Some true.
Proof. unfold active_sinks. by rewrite iteration_order_perm, active_ids_spec. Qed.

Lemma active_sinks_nodup e : NoDup (active_sinks e).
Proof. unfold active_sinks. rewrite iteration_order_perm. apply active_ids_nodup. Qed.

Lemma active_contains e sid : sid ∈ active_sinks e -> contains e sid = true.
Proof. intros Hs%active_sinks_spec. unfold contains. rewrite Hs. apply bool_decide_eq_true. by eexists. Qed.

Definition delivery_of (deliveries : option (gmap string StreamDelivery)) (sid : string) :
    option StreamDelivery :=
  all ← deliveries; all !! sid.

Lemma aggregate_fold deliveries l agg :
  let result := foldl (aggregate_sink deliveries) agg l in
  ag_active_sinks result = (ag_active_sinks agg + length l)%nat
  /\ (ag_baseline_ready result = true <->
        ag_baseline_ready agg = true
        /\ forall sid, sid ∈ l -> exists d, delivery_of deliveries sid = Some d /\ baseline_ready d = true)
  /\ (ag_snapshot_pending result = false <->
        ag_snapshot_pending agg = false
        /\ forall sid d, sid ∈ l -> delivery_of deliveries sid = Some d -> cursor d = None).
Proof.
  revert agg. induction l as [|sid l IH]; intros agg; cbn zeta.
  { cbn. split_and!; [lia| |]; set_solver. }
  cbn [foldl]. destruct (IH (aggregate_sink deliveries agg sid)) as (H1 & H2 & H3).
  rewrite H1, H2, H3. clear H1 H2 H3 IH.
  setoid_rewrite elem_of_cons. unfold aggregate_sink. fold (delivery_of deliveries sid).
  destruct (delivery_of deliveries sid) as [d|] eqn:E.
  - destruct (cursor d) as [p|] eqn:Ec; cbn [ag_active_sinks ag_baseline_ready ag_snapshot_pending length];
      rewrite ?andb_true_iff; (split_and!; [lia| |]); naive_solver.
  - cbn [ag_active_sinks ag_baseline_ready ag_snapshot_pending length]. (split_and!; [lia| |]); naive_solver.
Qed.

(** What the aggregate's answers mean. *)
Lemma delivery_aggregate_spec e ch :
  (ag_active_sinks (delivery_aggregate e ch) = 0%nat <-> active_sinks e = [])
  /\ (ag_baseline_ready (delivery_aggregate e ch) = true <->
        forall sid, em_sinks e !! sid = Some true ->
          exists d, delivery_at e ch sid d /\ baseline_ready d = true)
  /\ (ag_snapshot_pending (delivery_aggregate e ch) = false <->
        forall sid d, em_sinks e !! sid = Some true -> delivery_at e ch sid d -> cursor d = None).
Proof.
  unfold delivery_aggregate, aggregate_stream_delivery.
  destruct (aggregate_fold (so_deliveries <$> em_streams e !! ch) (active_sinks e)
              (mkStreamDeliveryAggregate 0 true false false 0 0)) as (H1 & H2 & H3).
  assert (Hat : forall sid d, delivery_of (so_deliveries <$> em_streams e !! ch) sid = Some d
                              <-> delivery_at e ch sid d).
  { intros sid d. unfold delivery_of, delivery_at. destruct (em_streams e !! ch) as [s|]; cbn.
    - split; [intros Hd; by exists s|]. intros (s' & [= <-] & Hd). done.
    - split; [done|]. by intros (s' & [=] & _). }
  rewrite H1, H2, H3. cbn [ag_active_sinks ag_baseline_ready ag_snapshot_pending].
  setoid_rewrite active_sinks_spec. setoid_rewrite Hat. split_and!.
  - rewrite Nat.add_0_l. apply length_zero_iff_nil.
  - naive_solver.
  - naive_solver.
Qed.

(** ** Repairs and forced baselines *)

Lemma unready_fold_lookup sids deliveries sid d' :
  foldl (fun all sink_id => on_delivery unready sink_id all) deliveries sids !! sid = Some d' ->
  (sid ∉ sids /\ deliveries !! sid = Some d')
  \/ (sid ∈ sids /\ baseline_ready d' = false
      /\ (idle d' \/ exists d, deliveries !! sid = Some d /\ cursor d' = cursor d)).
Proof.
  revert deliveries. induction sids as [|x sids IH]; intros deliveries; cbn [foldl].
  { intros Hd. left. split; [set_solver|done]. }
  intros Hd. destruct (IH _ Hd) as [[Hno Hl]|(Hin & Hr & Hd')].
  - rewrite on_delivery_lookup in Hl. destruct (decide (x = sid)) as [->|Hne].
    + right. split; [set_solver|]. injection Hl as <-. split; [done|].
      destruct (deliveries !! sid) as [d|]; [right; by exists d|by left].
    + left. split; [set_solver|done].
  - right. split; [set_solver|]. split; [done|]. destruct Hd' as [Hi|(d & Hl & Hc)]; [by left|].
    rewrite on_delivery_lookup in Hl. destruct (decide (x = sid)) as [->|Hne]; [|right; by exists d].
    injection Hl as <-. destruct (deliveries !! sid) as [d|]; [right; by exists d|].
    left. split; [done|]. by rewrite Hc.
Qed.

Lemma latch_repair_lesser e ch : lesser e (latch_repair e ch).
Proof.
  apply alter_stream_lesser. intros s sid d' Hs Hd. cbn in Hd.
  destruct (unready_fold_lookup _ _ _ _ Hd) as [[_ Hl]|(Hin & Hr & [Hi|(d & Hl & Hc)])].
  - left. exists d'. split; [done|apply weaker_refl].
  - right. split; [done|]. by apply active_contains.
  - left. exists d. split; [done|]. split; [congruence|by right].
Qed.

(** After the latch no active sink is ready. *)
Lemma latch_repair_unready e ch sid d :
  em_sinks e !! sid = Some true -> delivery_at (latch_repair e ch) ch sid d -> baseline_ready d = false.
Proof.
  intros Ha (s' & Hs' & Hd). cbn in Hs'. rewrite lookup_alter_eq in Hs'.
  destruct (em_streams e !! ch) as [s|]; [|done]. injection Hs' as <-. cbn in Hd.
  destruct (unready_fold_lookup _ _ _ _ Hd) as [[Hno _]|(_ & Hr & _)]; [|done].
  exfalso. apply Hno. by apply active_sinks_spec.
Qed.

Lemma force_baseline_on_lesser sid e ch :
  contains e sid = true -> lesser e (force_baseline_on sid e ch).
Proof.
  intros Hc. unfold force_baseline_on.
  etransitivity; [|etransitivity; [apply mark_stream_dirty_lesser|apply same_view_lesser; by split_and!]].
  apply alter_stream_lesser. intros s sid' d' _ Hd. cbn in Hd. rewrite on_delivery_lookup, !lookup_fmap in Hd.
  destruct (decide (sid = sid')) as [<-|Hne].
  - injection Hd as <-. destruct (so_deliveries s !! sid) as [d|]; cbn.
    + left. exists d. split; [done|]. split; [done|by left].
    + right. by split.
  - destruct (so_deliveries s !! sid') as [d|]; [|done]. injection Hd as <-.
    left. exists d. split; [done|]. split; [done|by left].
Qed.

Lemma force_baseline_lesser e sid : contains e sid = true -> lesser e (force_baseline_for_sink e sid).
Proof.
  unfold force_baseline_for_sink. generalize (watched_channels e). intros l. revert e.
  induction l as [|ch l IH]; intros e Hc; [reflexivity|]. cbn [foldl].
  pose proof (force_baseline_on_lesser sid e ch Hc) as Hl. etransitivity; [exact Hl|].
  apply IH. unfold contains in *. by rewrite (ls_sinks _ _ Hl).
Qed.
End sinks.
