(* ===== verification/CellEmissions.v ===== *)
(** * CellEmissions: every operation and emission keeps the delivery records true

    The operations of [CellEmitter] and [CellCadence] keep the invariant of
    [CellDeliveries] for the channel they serve and for every other. *)
From Stdlib Require Import Ascii String.
From S2P Require Export CellDeliveries.

(** ** What an operation on one channel may do to the others *)

Record evolves (ch : Z) (e e' : CellEmitter) : Prop := {
  ev_sinks : forall sid, em_sinks e' !! sid = Some false -> em_sinks e !! sid = Some false;
  ev_received : forall sid ch', ch' <> ch -> received (em_log e') sid ch' = received (em_log e) sid ch';
  ev_deliveries : forall ch' sid d', ch' <> ch -> delivery_at e' ch' sid d' ->
    (exists d, delivery_at e ch' sid d /\ weaker d d') \/ idle d';
}.

#[global] Instance evolves_preorder ch : PreOrder (evolves ch).
Proof.
  split.
  - intros e. constructor; [done|done|]. intros ch' sid d' _ Hd. left. exists d'.
    split; [done|apply weaker_refl].
  - intros e1 e2 e3 [S1 R1 D1] [S2 R2 D2]. constructor; [by auto| |].
    + intros sid ch' Hne. by rewrite R2, R1.
    + intros ch' sid d3 Hne H3. destruct (D2 ch' sid d3 Hne H3) as [(d2 & H2 & W2)|]; [|by right].
      destruct (D1 ch' sid d2 Hne H2) as [(d1 & H1 & W1)|Hi].
      * left. exists d1. split; [done|]. by eapply weaker_trans.
      * right. by eapply idle_weaker.
Qed.

Lemma lesser_evolves ch e e' : lesser e e' -> evolves ch e e'.
Proof.
  intros [E1 E2 Hd]. constructor; [by rewrite E1|by rewrite E2|].
  intros ch' sid d' _ Hat. destruct (Hd ch' sid d' Hat) as [|[Hi _]]; [by left|by right].
Qed.

Lemma channel_inv_evolves `{WireSizes} ch e e' committed r :
  sr_channel_id r <> ch -> evolves ch e e' -> channel_inv e committed r -> channel_inv e' committed r.
Proof.
  intros Hne [Es Er Ed] Hc stream sid d Hs Hdel.
  destruct (Ed (sr_channel_id r) sid d Hne) as [(d0 & (s0 & Hs0 & Hd0) & Hw)|Hi];
    [by exists stream| |by apply delivery_inv_idle].
  apply (delivery_inv_weaker _ _ _ _ _ _ _ Hw).
  destruct (Hc s0 sid d0 Hs0 Hd0) as [Hl Hr Hp]. constructor.
  - intros Hlive. destruct (Hl Hlive) as (Hf & Hrest). split; [|done]. intros Hfalse. by apply Hf, Es.
  - intros Hready. rewrite Er by done. by apply Hr.
  - intros p Hcur. rewrite Er by done. by apply Hp.
Qed.

Lemma records_inv_weaken e gone gone' : gone ⊆ gone' -> records_inv e gone -> records_inv e gone'.
Proof.
  intros Hsub Hr ch s sid d Hs Hd. destruct (Hr ch s sid d Hs Hd) as [|Hin]; [by left|right; by apply Hsub].
Qed.

(** ** One event at a sink *)

Lemma received_other log sid ch part answer sid' ch' :
  answer <> Sent \/ (sid, ch) <> (sid', ch') ->
  received (log ++ [Handed sid ch part answer]) sid' ch' = received log sid' ch'.
Proof.
  intros Hor. rewrite received_snoc. cbn. destruct answer; [|done|done].
  destruct (decide _) as [[-> ->]|]; [|done]. naive_solver.
Qed.

Lemma received_sent log sid ch part :
  received (log ++ [Handed sid ch part Sent]) sid ch = received log sid ch ++ [part].
Proof. rewrite received_snoc. cbn. by rewrite decide_True. Qed.

Lemma received_overflowed log sid sid' ch :
  received (log ++ [Overflowed sid]) sid' ch = received log sid' ch.
Proof. by rewrite received_snoc. Qed.

(** An emitter that differs in its log and in sinks it dropped. *)
Lemma channel_inv_log `{WireSizes} e e' committed r :
  (forall sid, em_sinks e' !! sid = Some false -> em_sinks e !! sid = Some false) ->
  em_streams e' = em_streams e ->
  (forall sid, received (em_log e') sid (sr_channel_id r) = received (em_log e) sid (sr_channel_id r)) ->
  channel_inv e committed r -> channel_inv e' committed r.
Proof.
  intros Es Est Er Hc stream sid d Hs Hd. rewrite Est in Hs. destruct (Hc stream sid d Hs Hd) as [Hl Hr Hp].
  constructor.
  - intros Hlive. destruct (Hl Hlive) as (Hf & Hrest). split; [|done]. intros Hfalse. by apply Hf, Es.
  - intros Hready. rewrite Er. by apply Hr.
  - intros p Hcur. rewrite Er. by apply Hp.
Qed.

Lemma evolves_streams ch e e' :
  (forall sid, em_sinks e' !! sid = Some false -> em_sinks e !! sid = Some false) ->
  em_streams e' = em_streams e ->
  (forall sid ch', ch' <> ch -> received (em_log e') sid ch' = received (em_log e) sid ch') ->
  evolves ch e e'.
Proof.
  intros Es Est Er. constructor; [done|done|]. intros ch' sid d' _ (s & Hs & Hd).
  rewrite Est in Hs. left. exists d'. split; [by exists s|apply weaker_refl].
Qed.

(** The emitter after an event at a sink that took nothing. *)
Lemma refused_event `{WireSizes} (known : Prop) e committed r sid ch part :
  (known -> channel_inv e committed r) ->
  (known -> channel_inv (with_event e (Handed sid ch part Dropped)) committed r)
  /\ evolves ch e (with_event e (Handed sid ch part Dropped)).
Proof.
  intros Hc. split.
  - intros Hk. apply (channel_inv_log e); [done|done| |by apply Hc]. intros sid'.
    cbn [em_log with_event]. rewrite received_other; auto.
  - apply evolves_streams; [done|done|]. intros sid' ch' _. cbn [em_log with_event]. rewrite received_other; auto.
Qed.

(** The emitter after a sink overflowed. *)
Lemma overflow_event `{WireSizes} (known : Prop) e committed r sid ch part gone :
  (known -> channel_inv e committed r) -> records_inv e gone ->
  let e' := drop_for_overflow (with_event e (Handed sid ch part Overflow)) sid in
  (known -> channel_inv e' committed r) /\ evolves ch e e' /\ records_inv e' (sid :: gone)
  /\ contains e' sid = false.
Proof.
  intros Hc Hr. unfold drop_for_overflow. cbn zeta.
  change (contains (with_event e (Handed sid ch part Overflow)) sid) with (contains e sid).
  destruct (contains e sid) eqn:Ec.
  - assert (Hs : forall sid', em_sinks (sinks_unregister (with_event e (Handed sid ch part Overflow)) sid) !! sid'
                   = Some false -> em_sinks e !! sid' = Some false).
    { intros sid' Hf. cbn in Hf. by apply lookup_delete_Some in Hf as [_ Hf]. }
    assert (Hlog : forall sid' ch', received (em_log (with_event (sinks_unregister
              (with_event e (Handed sid ch part Overflow)) sid) (Overflowed sid))) sid' ch'
              = received (em_log e) sid' ch').
    { intros sid' ch'. cbn [em_log with_event sinks_unregister with_sinks]. rewrite received_overflowed, received_other; auto. }
    split_and!.
    + intros Hk. apply (channel_inv_log e); [done|done|done|by apply Hc].
    + apply evolves_streams; [done|done|]. intros sid' ch' _. apply Hlog.
    + intros ch' s sid' d Hst Hd. destruct (Hr ch' s sid' d Hst Hd) as [Hcon|Hin]; [|right; set_solver].
      destruct (decide (sid' = sid)) as [->|Hne]; [right; set_solver|left].
      unfold contains in *. cbn. rewrite lookup_delete_ne by done. done.
    + unfold contains. cbn. rewrite lookup_delete_eq. by apply bool_decide_eq_false, is_Some_None.
  - split_and!.
    + intros Hk. apply (channel_inv_log e); [done|done| |by apply Hc]. intros sid'.
      cbn [em_log with_event]. rewrite received_other; auto.
    + apply evolves_streams; [done|done|]. intros sid' ch' _. cbn [em_log with_event]. rewrite received_other; auto.
    + apply (records_inv_weaken _ gone); [set_solver|]. exact Hr.
    + exact Ec.
Qed.

(** ** Draining a cursor *)

Lemma parked_cursor_at e ch sid p :
  parked_cursor e ch sid = Some p <-> exists d, delivery_at e ch sid d /\ cursor d = Some p.
Proof.
  unfold parked_cursor, delivery_at. destruct (em_streams e !! ch) as [s|]; cbn.
  - destruct (so_deliveries s !! sid) as [d|] eqn:E; cbn; split.
    + intros Hc. exists d. split; [by exists s|done].
    + intros (d' & (s' & [= <-] & Hd) & Hc). congruence.
    + done.
    + intros (d' & (s' & [= <-] & Hd) & Hc). congruence.
  - split; [done|]. by intros (d & (s & [=] & _) & _).
Qed.

Lemma delivery_at_unique e ch sid d d' : delivery_at e ch sid d -> delivery_at e ch sid d' -> d = d'.
Proof. intros (s & Hs & Hd) (s' & Hs' & Hd'). congruence. Qed.

Definition remaining (e : CellEmitter) (ch : Z) (sid : string) : nat :=
  match parked_cursor e ch sid with
  | Some p => length (cur_parts p) - cur_next_part p
  | None => 0
  end.

(** The emitter after a part was taken and the cursor moved on. *)
Definition after_part (e : CellEmitter) (ch : Z) (sid : string) (part : SinkPart) (p : SnapshotCursor) :
    CellEmitter :=
  alter_stream (fun s => with_sink_deliveries s (alter (advance p) sid (so_deliveries s))) ch
    (with_event e (Handed sid ch part Sent)).

Lemma after_part_at e ch sid part p ch' sid' d' :
  delivery_at (after_part e ch sid part p) ch' sid' d' ->
  exists d, delivery_at e ch' sid' d
    /\ d' = (if decide (ch = ch' /\ sid = sid') then advance p d else d).
Proof.
  intros (s' & Hs' & Hd'). cbn in Hs'. destruct (decide (ch = ch')) as [<-|Hne].
  - rewrite lookup_alter_eq in Hs'. destruct (em_streams e !! ch) as [s|] eqn:Hs; [|done].
    injection Hs' as <-. cbn in Hd'. destruct (decide (sid = sid')) as [<-|Hns].
    + rewrite lookup_alter_eq in Hd'. destruct (so_deliveries s !! sid) as [d|] eqn:Hd; [|done].
      injection Hd' as <-. exists d. split; [by exists s|]. by rewrite decide_True.
    + rewrite lookup_alter_ne in Hd' by done. exists d'. split; [by exists s|].
      rewrite decide_False by naive_solver. done.
  - rewrite lookup_alter_ne in Hs' by done. exists d'. split; [by exists s'|].
    rewrite decide_False by naive_solver. done.
Qed.

Lemma after_part_inv `{WireSizes} (known : Prop) e c r sid part p d :
  (known -> channel_inv e c r) -> records_inv e [] -> delivery_at e (sr_channel_id r) sid d ->
  cursor d = Some p -> cur_parts p !! cur_next_part p = Some part ->
  let e' := after_part e (sr_channel_id r) sid (hand (cur_timings p) part) p in
  (known -> channel_inv e' c r) /\ evolves (sr_channel_id r) e e' /\ records_inv e' []
  /\ (S (remaining e' (sr_channel_id r) sid) <= remaining e (sr_channel_id r) sid)%nat.
Proof.
  intros Hc Hr Hat Hcur Hpart e'. set (ch := sr_channel_id r) in *.
  assert (Hlt : (cur_next_part p < length (cur_parts p))%nat) by (by eapply lookup_lt_Some).
  assert (Hlog : forall sid' ch', (sid, ch) <> (sid', ch') ->
            received (em_log e') sid' ch' = received (em_log e) sid' ch').
  { intros sid' ch' Hne. unfold e', after_part. cbn [em_log alter_stream with_streams with_event].
    apply received_other. by right. }
  split_and!.
  - intros Hk s' sid' d' Hs' Hd'. specialize (Hc Hk).
    assert (Hdi : delivery_inv e ch c (sr_cell_emit r) sid d)
      by (destruct Hat as (s & Hs & Hd); by eapply Hc).
    destruct (after_part_at e ch sid (hand (cur_timings p) part) p ch sid' d')
      as (d0 & Hat0 & ->); [by exists s'|].
    destruct (decide (ch = ch /\ sid = sid')) as [[_ <-]|Hne].
    + rewrite (delivery_at_unique _ _ _ _ _ Hat0 Hat).
      destruct Hdi as [Hl Hrd Hp]. destruct (Hp p Hcur) as (earlier & full & Hrec & Hparts & Hshow & Himg).
      assert (Hrec' : received (em_log e') sid ch
                = earlier ++ (hand (cur_timings p) <$> take (S (cur_next_part p)) (cur_parts p))).
      { unfold e', after_part. cbn [em_log alter_stream with_streams with_event].
        by rewrite received_sent, Hrec, (take_S_r _ _ _ Hpart), fmap_app, <- app_assoc. }
      unfold advance. destruct (Nat.ltb_spec (S (cur_next_part p)) (length (cur_parts p))) as [Hmore|Hlast].
      * constructor; cbn [cursor baseline_ready].
        -- intros _. apply Hl. right. by eexists.
        -- intros Hready. destruct (Hrd Hready) as [Hnone _]. congruence.
        -- intros p' [= <-]. exists earlier, full. cbn. by split_and!.
      * constructor; cbn [cursor baseline_ready].
        -- intros _. apply Hl. right. by eexists.
        -- intros _. split; [done|]. rewrite take_ge in Hrec' by lia.
           exists earlier, full, (cur_timings p), (cur_parts p), [], [], full. split_and!; try done.
           ++ by rewrite app_nil_r.
           ++ by constructor.
           ++ unfold mirror, keep, replica_step. cbn. destruct Hparts as [Hfull _]. by rewrite Hfull.
        -- done.
    + assert (sid <> sid') by naive_solver. destruct Hat0 as (s0 & Hs0 & Hd0).
      destruct (Hc s0 sid' d0 Hs0 Hd0) as [Hl Hrd Hp]. constructor; [exact Hl| |].
      * intros Hready. fold ch. rewrite Hlog by naive_solver. by apply Hrd.
      * intros p' Hcur'. fold ch. rewrite Hlog by naive_solver. by apply Hp.
  - constructor; [done| |].
    + intros sid' ch' Hne. apply Hlog. naive_solver.
    + intros ch' sid' d' Hne Hat'. destruct (after_part_at _ _ _ _ _ _ _ _ Hat') as (d0 & Hat0 & ->).
      rewrite decide_False by naive_solver. left. exists d0. split; [done|apply weaker_refl].
  - intros ch' s' sid' d' Hs' Hd'. destruct (after_part_at e ch sid (hand (cur_timings p) part) p ch' sid' d')
      as (d0 & (s0 & Hs0 & Hd0) & _); [by exists s'|]. by eapply Hr.
  - assert (Hp : parked_cursor e ch sid = Some p) by (apply parked_cursor_at; by exists d).
    unfold remaining at 2. rewrite Hp. unfold remaining.
    destruct (parked_cursor e' ch sid) as [p'|] eqn:Hp'; [|lia].
    apply parked_cursor_at in Hp' as (d' & Hat' & Hcur').
    destruct (after_part_at _ _ _ _ _ _ _ _ Hat') as (d0 & Hat0 & ->).
    rewrite decide_True in Hcur' by done. unfold advance in Hcur'.
    destruct (Nat.ltb_spec (S (cur_next_part p)) (length (cur_parts p))) as [Hmore|Hlast]; [|done].
    cbn in Hcur'. injection Hcur' as <-. cbn. lia.
Qed.

Lemma advance_after_part e ch sid part p :
  parked_cursor e ch sid = Some p ->
  advance_cursor (with_event e (Handed sid ch part Sent)) ch sid (cur_snapshot_id p)
  = (after_part e ch sid part p, true).
Proof.
  intros Hp. unfold advance_cursor. change (parked_cursor (with_event e _) ch sid) with (parked_cursor e ch sid).
  rewrite Hp, String.eqb_refl. done.
Qed.

Section drain.
Context `{Laws : SinkTransportLaws} `{WireSizes}.

Lemma drain_sink_cursor_inv (known : Prop) fuel e c r sid :
  (known -> channel_inv e c r) -> records_inv e (if contains e sid then [] else [sid]) ->
  (if contains e sid then 2 + remaining e (sr_channel_id r) sid <= fuel else 1 <= fuel)%nat ->
  let e' := drain_sink_cursor fuel e (sr_channel_id r) sid in
  (known -> channel_inv e' c r) /\ evolves (sr_channel_id r) e e' /\ records_inv e' [].
Proof.
  revert e. induction fuel as [|fuel IH]; intros e Hc Hr Hfuel; cbn zeta.
  { destruct (contains e sid); lia. }
  set (ch := sr_channel_id r) in *. cbn [drain_sink_cursor].
  destruct (contains e sid) eqn:Ec; cbn [negb].
  2: { pose proof (forget_records_lesser e sid) as Hl. split_and!.
       - intros Hk. apply (channel_inv_lesser e); [done|by apply Hc].
       - by apply lesser_evolves.
       - by apply forget_records_inv. }
  destruct (is_active e sid) eqn:Ea; cbn [negb]; [|by split_and!].
  destruct (parked_cursor e ch sid) as [p|] eqn:Hp; [|by split_and!].
  destruct (cur_parts p !! cur_next_part p) as [part|] eqn:Hpart; [|by split_and!].
  unfold send_part_to_sink. rewrite Ec.
  destruct (sink_answer (em_log e) sid ch (hand (cur_timings p) part)) eqn:Ea'.
  - rewrite advance_after_part by done.
    pose proof Hp as (d & Hat & Hcur)%parked_cursor_at.
    destruct (after_part_inv known e c r sid part p d Hc Hr Hat Hcur Hpart) as (Hc1 & He1 & Hr1 & Hrem).
    fold ch in Hc1, He1, Hr1, Hrem.
    set (e1 := after_part e ch sid (hand (cur_timings p) part) p) in *.
    assert (Ec1 : contains e1 sid = true) by exact Ec.
    destruct (IH e1) as (H1 & H2 & H3); [done|by rewrite Ec1|rewrite Ec1; fold ch in Hfuel; lia|].
    split_and!; [done| |done]. by etransitivity.
  - change (contains (with_event e ?event) sid) with (contains e sid). rewrite Ec.
    destruct (refused_event known e c r sid ch (hand (cur_timings p) part) Hc) as [H1 H2]. by split_and!.
  - destruct (overflow_event known e c r sid ch (hand (cur_timings p) part) [] Hc Hr) as (H1 & H2 & H3 & H4).
    rewrite H4. set (e1 := drop_for_overflow _ sid) in *.
    destruct (IH e1) as (G1 & G2 & G3); [done|by rewrite H4|rewrite H4; lia|].
    split_and!; [done| |done]. by etransitivity.
Qed.

Lemma complete_baseline_lesser e ch : lesser e (fst (complete_stream_baseline e ch)).
Proof.
  unfold complete_stream_baseline. destruct (_ || _); [reflexivity|]. cbn [fst].
  apply alter_stream_lesser. intros s sid d' _ Hd. cbn in Hd. rewrite lookup_fmap in Hd.
  destruct (so_deliveries s !! sid) as [d|]; [|done]. injection Hd as <-. left. exists d.
  split; [done|apply clear_dirty_weaker].
Qed.

Lemma drain_snapshot_inv (known : Prop) e c r :
  (known -> channel_inv e c r) -> records_inv e [] ->
  let e' := fst (drain_snapshot e (sr_channel_id r)) in
  (known -> channel_inv e' c r) /\ evolves (sr_channel_id r) e e' /\ records_inv e' [].
Proof.
  intros Hc Hr. cbn zeta. unfold drain_snapshot.
  destruct (parked_sinks e (sr_channel_id r)) as [|x l]; [by split_and!|].
  generalize (iteration_order (em_log e) (x :: l)). clear x l. intros l.
  set (ch := sr_channel_id r).
  assert (Hfold : forall l e, (known -> channel_inv e c r) -> records_inv e [] ->
     let e' := foldl (fun e sink_id => drain_sink_cursor (drain_fuel e ch sink_id) e ch sink_id) e l in
     (known -> channel_inv e' c r) /\ evolves ch e e' /\ records_inv e' []).
  { clear. intros l. induction l as [|sid l IH]; intros e Hc Hr; cbn zeta; [by split_and!|].
    cbn [foldl].
    destruct (drain_sink_cursor_inv known (drain_fuel e ch sid) e c r sid) as (H1 & H2 & H3); [done| | |].
    - apply (records_inv_weaken _ []); [set_solver|done].
    - unfold drain_fuel, remaining. fold ch. destruct (parked_cursor e ch sid), (contains e sid); lia.
    - destruct (IH _ H1 H3) as (G1 & G2 & G3). split_and!; [done| |done]. by etransitivity. }
  destruct (Hfold l e Hc Hr) as (H1 & H2 & H3).
  set (e1 := foldl _ e l) in *. pose proof (complete_baseline_lesser e1 ch) as Hl. split_and!.
  - intros Hk. apply (channel_inv_lesser e1); [done|by apply H1].
  - etransitivity; [exact H2|]. by apply lesser_evolves.
  - by apply (records_inv_lesser e1).
Qed.

(** ** Installing a full *)

Lemma cursors_fold_lookup f sids deliveries sid d' :
  foldl (fun all sink_id => on_delivery f sink_id all) deliveries sids !! sid = Some d' ->
  (sid ∉ sids /\ deliveries !! sid = Some d') \/ (sid ∈ sids /\ exists d, d' = f d).
Proof.
  revert deliveries. induction sids as [|x sids IH]; intros deliveries; cbn [foldl].
  { intros Hd. left. split; [set_solver|done]. }
  intros Hd. destruct (IH _ Hd) as [[Hno Hl]|(Hin & Hf)]; [|right; split; [set_solver|done]].
  rewrite on_delivery_lookup in Hl. destruct (decide (x = sid)) as [->|Hne].
  - right. split; [set_solver|]. injection Hl as <-. by eexists.
  - left. split; [set_solver|done].
Qed.

(** A built full that the record already describes. *)
Record full_ready (c : TerminalCore) (r : SessionRecord) (frame : CellGridFrame) (wire : PbCellGridFrame)
    (timings : FrameTimings) : Prop := {
  fr_full : f_full frame = true;
  fr_wire : frame_wire frame timings = Ok wire;
  fr_shows : shows c (sr_cell_emit r) (f_sb_base frame) frame;
  fr_images : f_image_placements frame = es_last_image_placements (sr_cell_emit r);
  fr_sent : es_sent_full (sr_cell_emit r) = true;
  fr_seq : 1 <= es_seq (sr_cell_emit r);
}.

Lemma install_baseline_inv e c r frame wire timings :
  records_inv e [] -> full_ready c r frame wire timings ->
  (forall sid d, delivery_at e (sr_channel_id r) sid d -> em_sinks e !! sid <> Some true -> idle d) ->
  match install_baseline e (sr_channel_id r) frame wire timings with
  | (e', Ok _) => channel_inv e' c r /\ evolves (sr_channel_id r) e e' /\ records_inv e' []
  | (e', Err _) => e' = e
  end.
Proof.
  intros Hr [Hfull Hwire Hshow Himg Hsent Hseq] Hidle. unfold install_baseline. set (ch := sr_channel_id r) in *.
  destruct (mint_uuid (em_log e)) as [snapshot_id|]; [|done].
  destruct (park_parts frame wire snapshot_id) as [parts|] eqn:Hpark; [|done].
  destruct (em_streams e !! ch) as [stream|] eqn:Hs.
  2: { split_and!; [|done|done]. intros s sid d Hs' Hd. fold ch in Hs'. congruence. }
  set (parked := park_cursor _ _ _ _ _). set (deliveries := foldl _ _ _).
  set (e1 := alter_stream _ ch e).
  assert (Hat : forall ch' sid d', delivery_at e1 ch' sid d' ->
            (delivery_at e ch' sid d' /\ (ch' = ch -> sid ∉ active_sinks e))
            \/ (ch' = ch /\ sid ∈ active_sinks e /\ exists d, d' = parked d)).
  { intros ch' sid d' (s' & Hs' & Hd'). cbn in Hs'. destruct (decide (ch = ch')) as [<-|Hne].
    - rewrite lookup_alter_eq, Hs in Hs'. injection Hs' as <-. cbn in Hd'.
      destruct (cursors_fold_lookup _ _ _ _ _ Hd') as [[Hno Hl]|(Hin & Hd)]; [left|by right].
      split; [by exists stream|done].
    - rewrite lookup_alter_ne in Hs' by done. left. split; [by exists s'|congruence]. }
  assert (Hc1 : channel_inv e1 c r).
  { intros s sid d Hs1 Hd. destruct (Hat ch sid d) as [[Hat' Hno]|(_ & Hin & d0 & ->)]; [by exists s| |].
    - apply delivery_inv_idle, (Hidle sid d Hat'). rewrite <- active_sinks_spec. by apply Hno.
    - apply active_sinks_spec in Hin. constructor; cbn [parked park_cursor cursor baseline_ready].
      + intros _. split; [|done]. cbn. by rewrite Hin.
      + done.
      + intros p [= <-]. exists (received (em_log e) sid ch), frame. split_and!; try done.
        * cbn. by rewrite app_nil_r.
        * split; [done|]. by exists wire, snapshot_id. }
  assert (Hr1 : records_inv e1 []).
  { intros ch' s sid d Hs1 Hd. destruct (Hat ch' sid d) as [[(s0 & Hs0 & Hd0) _]|(_ & Hin & _)]; [by exists s| |].
    - by eapply Hr.
    - left. by apply active_contains in Hin. }
  assert (He1 : evolves ch e e1).
  { constructor; [done|done|]. intros ch' sid d' Hne Hat'.
    destruct (Hat ch' sid d' Hat') as [[Hat0 _]|(-> & _)]; [|done].
    left. exists d'. split; [done|apply weaker_refl]. }
  destruct (drain_snapshot_inv True e1 c r (fun _ => Hc1) Hr1) as (H1 & H2 & H3). fold ch in H1, H2, H3.
  split_and!; [by apply H1| |done]. by etransitivity.
Qed.
End drain.

(** ** One emission keeps every sink's screen true

    [emit_cell_frame] and the fan-out of one delta, against the invariant of
    [CellDeliveries]. *)
Section fanout.
Context `{Laws : SinkTransportLaws}.

(** What handing one frame to a list of active sinks does. *)
Record fanned (ch : Z) (part : SinkPart) (sids : list string) (e e' : CellEmitter)
    (fo fo' : CellDeltaFanout) (over : list string) : Prop := {
  fn_streams : em_streams e' = em_streams e;
  fn_over : fo_overflowed fo' = fo_overflowed fo ++ over;
  fn_over_in : over ⊆ sids;
  fn_sinks : forall sid, em_sinks e' !! sid = if decide (sid ∈ over) then None else em_sinks e !! sid;
  fn_others : forall sid ch', (sid ∉ sids \/ ch' <> ch) ->
    received (em_log e') sid ch' = received (em_log e) sid ch';
  fn_each : forall sid, sid ∈ sids ->
    received (em_log e') sid ch = received (em_log e) sid ch ++ [part]
    \/ (received (em_log e') sid ch = received (em_log e) sid ch
        /\ (sid ∈ over \/ (fo_dropped fo < fo_dropped fo')%nat));
  fn_mono : (fo_dropped fo <= fo_dropped fo' /\ fo_accepted fo <= fo_accepted fo')%nat;
  fn_none : fo_accepted fo' = fo_accepted fo ->
    forall sid, received (em_log e') sid ch = received (em_log e) sid ch;
}.

Lemma fan_out ch frame wire sids e fo :
  NoDup sids -> (forall sid, sid ∈ sids -> em_sinks e !! sid = Some true) ->
  exists over, let result := foldl (send_frame_to ch frame wire) (e, fo) sids in
    fanned ch (HandFrame frame wire) sids e (fst result) fo (snd result) over.
Proof.
  revert e fo. induction sids as [|sid sids IH]; intros e fo Hnd Hact; cbn zeta.
  { exists []. constructor; cbn; try done; rewrite ?app_nil_r; try done; set_solver. }
  apply NoDup_cons in Hnd as [Hno Hnd].
  assert (Ha : em_sinks e !! sid = Some true) by (apply Hact; left).
  cbn [foldl]. unfold send_frame_to at 2 4. unfold is_active. rewrite Ha. cbn [default from_option id].
  set (part := HandFrame frame wire).
  destruct (sink_answer (em_log e) sid ch part) eqn:Eans.
  - set (e1 := with_event e _). set (fo1 := mkCellDeltaFanout _ _ _).
    destruct (IH e1 fo1 Hnd) as [over [F1 F2 F3 F4 F5 F6 F7 F8]]; [intros x Hx; apply Hact; by right|].
    set (result := foldl _ (e1, fo1) sids) in *.
    assert (Hrec : received (em_log e1) sid ch = received (em_log e) sid ch ++ [part])
      by apply received_sent.
    assert (Hoth : forall sid' ch', (sid', ch') <> (sid, ch) -> received (em_log e1) sid' ch' = received (em_log e) sid' ch')
      by (intros; apply received_other; right; congruence).
    exists over. constructor; try done.
    + set_solver.
    + intros sid' ch' Hor. rewrite F5, Hoth; [done|set_solver|set_solver].
    + intros sid' [->|Hin]%elem_of_cons.
      * left. rewrite F5 by (by left). done.
      * rewrite <- Hoth by set_solver. by apply F6.
    + cbn in F7. lia.
    + cbn in F7. intros Hacc. lia.
  - set (e1 := with_event e _). set (fo1 := mkCellDeltaFanout _ _ _).
    destruct (IH e1 fo1 Hnd) as [over [F1 F2 F3 F4 F5 F6 F7 F8]]; [intros x Hx; apply Hact; by right|].
    set (result := foldl _ (e1, fo1) sids) in *.
    assert (Hoth : forall sid' ch', received (em_log e1) sid' ch' = received (em_log e) sid' ch')
      by (intros; apply received_other; by left).
    exists over. constructor; try done.
    + set_solver.
    + intros sid' ch' Hor. rewrite F5, Hoth; [done|set_solver].
    + intros sid' [->|Hin]%elem_of_cons.
      * right. rewrite F5 by (by left). split; [apply Hoth|]. right. cbn in F7. lia.
      * rewrite <- Hoth. destruct (F6 sid' Hin) as [|[? [|]]]; [by left|right; split; [done|by left]|].
        right. split; [done|right]. cbn in *. lia.
    + cbn in F7. lia.
    + intros Hacc sid'. rewrite F8 by done. apply Hoth.
  - set (e0 := with_event e _). set (fo1 := mkCellDeltaFanout _ _ _).
    assert (Hdrop : drop_for_overflow e0 sid = with_event (sinks_unregister e0 sid) (Overflowed sid)).
    { unfold drop_for_overflow. assert (contains e0 sid = true) as ->; [|done].
      unfold contains. cbn. rewrite Ha. by apply bool_decide_eq_true. }
    rewrite Hdrop. clear Hdrop. set (e1 := with_event (sinks_unregister e0 sid) _).
    destruct (IH e1 fo1 Hnd) as [over [F1 F2 F3 F4 F5 F6 F7 F8]].
    { intros x Hx. cbn. rewrite lookup_delete_ne by set_solver. apply Hact. by right. }
    set (result := foldl _ (e1, fo1) sids) in *.
    assert (Hoth : forall sid' ch', received (em_log e1) sid' ch' = received (em_log e) sid' ch').
    { intros. cbn [e1 em_log with_event sinks_unregister with_sinks]. rewrite received_overflowed.
      apply received_other. by left. }
    exists (sid :: over). constructor; try done.
    + rewrite F2. cbn. by rewrite <- app_assoc.
    + set_solver.
    + intros sid'. rewrite F4. cbn. destruct (decide (sid' = sid)) as [->|Hne].
      * rewrite (decide_True (P := sid ∈ sid :: over)) by left.
        destruct (decide (sid ∈ over)); [done|]. apply lookup_delete_eq.
      * rewrite lookup_delete_ne by done.
        destruct (decide (sid' ∈ over)); [by rewrite decide_True by (by right)|].
        rewrite decide_False by set_solver. done.
    + intros sid' ch' Hor. rewrite F5, Hoth; [done|set_solver].
    + intros sid' [->|Hin]%elem_of_cons.
      * right. rewrite F5 by (by left). split; [apply Hoth|]. left. by left.
      * rewrite <- Hoth. destruct (F6 sid' Hin) as [|[? [|]]]; [by left|right; split; [done|left; by right]|].
        right. split; [done|by right].
    + intros Hacc sid'. rewrite F8 by done. apply Hoth.
Qed.

Lemma send_frame_to_active_fanned e ch frame wire :
  exists over, fanned ch (HandFrame frame wire) (active_sinks e) e
    (fst (send_frame_to_active e ch frame wire)) (mkCellDeltaFanout 0 0 [])
    (snd (send_frame_to_active e ch frame wire)) over.
Proof.
  apply (fan_out ch frame wire (active_sinks e)); [apply active_sinks_nodup|].
  intros sid. apply active_sinks_spec.
Qed.
End fanout.

Lemma forget_all_lesser sids e : lesser e (foldl forget_sink_records e sids).
Proof.
  revert e. induction sids as [|sid sids IH]; intros e; [reflexivity|]. cbn [foldl].
  etransitivity; [apply forget_records_lesser|apply IH].
Qed.

Lemma forget_all_inv sids e gone :
  records_inv e (sids ++ gone) -> records_inv (foldl forget_sink_records e sids) gone.
Proof.
  revert e. induction sids as [|sid sids IH]; intros e Hr; [done|]. cbn [foldl].
  apply IH. by apply forget_records_inv.
Qed.

(** No record of a forgotten sink is left. *)
Lemma forget_all_at sids e ch sid d :
  delivery_at (foldl forget_sink_records e sids) ch sid d -> delivery_at e ch sid d /\ sid ∉ sids.
Proof.
  revert e. induction sids as [|x sids IH]; intros e; [split; [done|set_solver]|]. cbn [foldl].
  intros [(s & Hs & Hd) Hno]%IH. cbn in Hs. rewrite lookup_fmap in Hs.
  destruct (em_streams e !! ch) as [s0|] eqn:Hs0; [|done]. injection Hs as <-. cbn in Hd.
  apply lookup_delete_Some in Hd as [Hne Hd]. split; [by exists s0|]. set_solver.
Qed.

(** ** Committing *)

Lemma record_inv_bound c b b' r : b <= b' -> record_inv c b r -> record_inv c b' r.
Proof. intros Hb [H1 H2 H3 H4]. constructor; try done. lia. Qed.

(** A committed record describes the core it was built from. *)
Lemma committed_record_inv c b r force frame state :
  record_inv c b r ->
  next_cell_frame (sr_terminal_core r) (sr_cell_emit r) force (Some 0) = Ok (frame, state) ->
  record_inv (sr_terminal_core r) (b + 1) (committed_record r state)
  /\ es_sent_full state = true /\ 1 <= es_seq state.
Proof.
  intros [Ht Hd Htr Hs] Hnext.
  destruct (next_cell_frame_tracks _ _ _ _ _ _ Hnext) as (Htracks & Hseq & _).
  { intros Hsent. apply (Htr Hsent). }
  split_and!; [|apply Htracks|lia]. constructor; cbn.
  - destruct Ht. by constructor.
  - intros _ _ _ row _ _. done.
  - done.
  - lia.
Qed.

(** A delta handed to a sink that painted the last screen. *)
Lemma paints_delta `{WireSizes} c r b rec frame wire state :
  record_inv c b r -> b < 2 ^ 64 - 1 -> es_sent_full (sr_cell_emit r) = true ->
  paints rec c (sr_cell_emit r) ->
  next_cell_frame (sr_terminal_core r) (sr_cell_emit r) false (Some 0) = Ok (frame, state) ->
  f_full frame = false ->
  paints (rec ++ [HandFrame frame wire]) (sr_terminal_core r) state.
Proof.
  intros [Ht Hd Htr Hs] Hb Hsent (earlier & full & timings & parts & deltas & handed & held & Hrec & Hparts & Hhanded & Hm & Hshow & Himg) Hnext Hfull.
  destruct (delta_shows c (sr_terminal_core r) (sr_cell_emit r) (image_base (full :: deltas)) held (Some 0) false frame state true)
    as (held' & Happ & Hshow' & Himg' & _); try done; [by apply Htr|lia|].
  exists earlier, full, timings, parts, (deltas ++ [frame]), (handed ++ [HandFrame frame wire]), held'.
  split_and!; try done.
  - by rewrite Hrec, <- !app_assoc.
  - apply Forall2_app; [done|]. constructor; [by exists wire|constructor].
  - rewrite app_comm_cons, mirror_snoc, Hm. unfold keep, replica_step, apply_delta. by rewrite Happ.
  - unfold image_base. by rewrite app_comm_cons, last_snoc.
Qed.

(** What an emission must leave: the record still described, the invariant of
    its channel, and the rest as it was. *)
Definition sound `{WireSizes} (e : CellEmitter) (r : SessionRecord) (b : Z) : Prop :=
  (exists c, record_inv c b r /\ channel_inv e c r) /\ records_inv e [].

Definition sound_step `{WireSizes} (b : Z) (e : CellEmitter) (r : SessionRecord)
    (result : CellEmitter * SessionRecord) : Prop :=
  sr_channel_id (snd result) = sr_channel_id r
  /\ sound (fst result) (snd result) b /\ evolves (sr_channel_id r) e (fst result).

Lemma sound_lesser `{WireSizes} e e' r b : lesser e e' -> sound e r b -> sound e' r b.
Proof.
  intros Hl [(c & Hr & Hc) Hrec]. split; [exists c; split; [done|by eapply channel_inv_lesser]|].
  by eapply records_inv_lesser.
Qed.

Lemma sound_step_lesser `{WireSizes} b e e' r :
  lesser e e' -> sound e r b -> sound_step b e r (e', r).
Proof.
  intros Hl Hs. split; [done|]. split; [by eapply sound_lesser|by apply lesser_evolves].
Qed.

Lemma sound_step_trans `{WireSizes} b b' e r e1 r1 result :
  sound_step b e r (e1, r1) -> sound_step b' e1 r1 result -> sound_step b' e r result.
Proof.
  intros (H1 & H2 & H3) (G1 & G2 & G3). cbn in *. split; [congruence|]. split; [done|].
  etransitivity; [done|]. by rewrite <- H1.
Qed.

Lemma sound_step_bound `{WireSizes} b b' e r result :
  b <= b' -> sound_step b e r result -> sound_step b' e r result.
Proof.
  intros Hb (H1 & [(c & Hr & Hc) Hrec] & H3). split; [done|]. split; [|done]. split; [|done].
  exists c. split; [|done]. by eapply record_inv_bound.
Qed.

(** The record's output clock is not the invariant's concern. *)
Lemma sound_step_clock `{WireSizes} b e r e' r' v :
  sound_step b e r (e', r') -> sound_step b e r (e', with_last_pty_out_ms r' v).
Proof.
  intros (H1 & [(c & Hr & Hc) Hrec] & H3). split; [done|]. split; [|done]. split; [|done].
  exists c. split; [|exact Hc]. by destruct Hr.
Qed.

Section commit.
Context `{Laws : SinkTransportLaws} `{WireSizes}.

(** A sink that is registered but not active holds nothing. *)
Lemma inactive_idle e c r sid d :
  channel_inv e c r -> records_inv e [] -> delivery_at e (sr_channel_id r) sid d ->
  em_sinks e !! sid <> Some true -> idle d.
Proof.
  intros Hc Hr (s & Hs & Hd) Hno. destruct (Hc s sid d Hs Hd) as [Hl _ _].
  destruct (Hr _ s sid d Hs Hd) as [Hcon|Hin]; [|set_solver].
  apply bool_decide_eq_true in Hcon as [active Hactive].
  assert (Hfalse : em_sinks e !! sid = Some false) by (destruct active; congruence).
  split.
  - destruct (baseline_ready d) eqn:E; [|done]. destruct Hl as [Hl _]; [by left|done].
  - destruct (cursor d) eqn:E; [|done]. destruct Hl as [Hl _]; [right; by eexists|done].
Qed.

Lemma commit_full_sound e c b r built force :
  record_inv c b r -> channel_inv e c r -> records_inv e [] ->
  next_cell_frame (sr_terminal_core r) (sr_cell_emit r) force (Some 0)
    = Ok (bt_frame built, bt_next_state built) ->
  f_full (bt_frame built) = true ->
  frame_wire (bt_frame built) (bt_timings built) = Ok (bt_wire built) ->
  sound_step (b + 1) e r (fst (commit_full e r built)).
Proof.
  intros Hr Hc Hrec Hnext Hfull Hwire. unfold commit_full.
  set (ch := sr_channel_id r). set (r1 := committed_record r (bt_next_state built)).
  destruct (committed_record_inv c b r force _ _ Hr Hnext) as (Hr1 & Hsent & Hseq).
  set (e1 := clear_stream_delivery_dirty (clear_dirty e ch) ch).
  assert (Hl1 : lesser e e1).
  { etransitivity; [apply same_view_lesser|apply clear_stream_dirty_lesser]. by split_and!. }
  assert (Hready : full_ready (sr_terminal_core r) r1 (bt_frame built) (bt_wire built) (bt_timings built)).
  { constructor; try done.
    - by eapply full_shows.
    - by eapply full_shows. }
  pose proof (install_baseline_inv e1 (sr_terminal_core r) r1 (bt_frame built) (bt_wire built)
                (bt_timings built)) as Hinst.
  change (sr_channel_id r1) with ch in Hinst.
  destruct (install_baseline e1 ch (bt_frame built) (bt_wire built) (bt_timings built)) as [e2 [u|err]].
  - destruct Hinst as (H1 & H2 & H3).
    + by eapply records_inv_lesser.
    + done.
    + intros sid d Hat Hno. eapply (inactive_idle e1 c r); try done.
      * by eapply channel_inv_lesser.
      * by eapply records_inv_lesser.
    + cbn [fst]. apply sound_step_clock. split; [done|]. split.
      * split; [|done]. exists (sr_terminal_core r). by split.
      * etransitivity; [by apply lesser_evolves|done].
  - rewrite Hinst; [|by eapply records_inv_lesser|done|].
    2: { intros sid d Hat Hno. eapply (inactive_idle e1 c r); try done;
         [by eapply channel_inv_lesser|by eapply records_inv_lesser]. }
    cbn [fst].
    assert (Hl2 : lesser e1 (alter_stream (fun s => with_core_valid s false) ch (retire_stream_delivery e1 ch))).
    { etransitivity; [apply retire_stream_lesser|]. by apply flags_lesser. }
    split; [done|]. split; [|apply lesser_evolves; by etransitivity].
    split; [|eapply records_inv_lesser; [done|by eapply records_inv_lesser]].
    exists (sr_terminal_core r). split; [done|]. intros s sid d Hs Hd.
    apply delivery_inv_idle. cbn in Hs. rewrite !lookup_alter_eq in Hs.
    destruct (em_streams e !! ch) as [s0|]; [|done]. injection Hs as <-. cbn in Hd.
    rewrite !lookup_fmap in Hd. destruct (so_deliveries s0 !! sid); [|done]. by injection Hd as <-.
Qed.

(** The state a delta's fan-out leaves, sinks that overflowed forgotten. *)
Record delta_sent (e e2 : CellEmitter) (ch : Z) (part : SinkPart) (fo : CellDeltaFanout) : Prop := {
  dse_records : records_inv e2 [];
  dse_evolves : evolves ch e e2;
  dse_at : forall sid d, delivery_at e2 ch sid d ->
    delivery_at e ch sid d /\ em_sinks e2 !! sid = em_sinks e !! sid;
  dse_inactive : forall sid, em_sinks e !! sid <> Some true ->
    received (em_log e2) sid ch = received (em_log e) sid ch;
  dse_taken : forall sid d, delivery_at e2 ch sid d -> em_sinks e !! sid = Some true ->
    received (em_log e2) sid ch = received (em_log e) sid ch ++ [part]
    \/ (fo_dropped fo <> 0)%nat;
  dse_none : fo_accepted fo = 0%nat -> forall sid,
    received (em_log e2) sid ch = received (em_log e) sid ch;
}.

Lemma delta_sent_ok e ch frame wire :
  records_inv e [] ->
  let '(e1, fo) := send_frame_to_active e ch frame wire in
  delta_sent e (foldl forget_sink_records e1 (fo_overflowed fo)) ch (HandFrame frame wire) fo.
Proof.
  intros Hr. destruct (send_frame_to_active_fanned e ch frame wire) as [over [F1 F2 F3 F4 F5 F6 F7 F8]].
  destruct (send_frame_to_active e ch frame wire) as [e1 fo]. cbn [fst snd] in *.
  cbn in F2. rewrite F2. clear F2.
  assert (Hlog : forall sids e, em_log (foldl forget_sink_records e sids) = em_log e).
  { intros sids e0. apply (ls_log _ _ (forget_all_lesser sids e0)). }
  assert (Hsinks : em_sinks (foldl forget_sink_records e1 over) = em_sinks e1)
    by apply (ls_sinks _ _ (forget_all_lesser over e1)).
  assert (Hat : forall sid d, delivery_at (foldl forget_sink_records e1 over) ch sid d ->
            delivery_at e ch sid d /\ sid ∉ over).
  { intros sid d [(s & Hs & Hd) Hno]%forget_all_at. split; [|done]. rewrite F1 in Hs. by exists s. }
  constructor.
  - apply forget_all_inv. rewrite app_nil_r. intros ch' s sid d Hs Hd. rewrite F1 in Hs.
    destruct (decide (sid ∈ over)) as [|Hno]; [by right|left].
    destruct (Hr ch' s sid d Hs Hd) as [Hcon|Hin]; [|set_solver].
    unfold contains in *. rewrite F4. by rewrite decide_False.
  - etransitivity; [|apply lesser_evolves, forget_all_lesser]. apply evolves_streams; [|done|].
    + intros sid. rewrite F4. destruct (decide _); [done|auto].
    + intros sid ch' Hne. apply F5. by right.
  - intros sid d Hd. destruct (Hat sid d Hd) as [Hd0 Hno]. split; [done|].
    rewrite Hsinks, F4. by rewrite decide_False.
  - intros sid Hno. rewrite Hlog. apply F5. left. by rewrite active_sinks_spec.
  - intros sid d Hd Ha. rewrite Hlog. destruct (Hat sid d Hd) as [_ Hno].
    destruct (F6 sid) as [|[_ [|Hdrop]]]; [by apply active_sinks_spec|by left|done|]. right. cbn in Hdrop. lia.
  - intros Hacc sid. rewrite Hlog. by apply F8.
Qed.

Section repair.
Variable install : CellEmitter -> SessionRecord -> CellEmitter * SessionRecord.
Variable k : Z.
Hypothesis install_sound : forall e r b,
  sound e r b -> b + k < 2 ^ 64 -> sound_step (b + k) e r (install e r).
Hypothesis k_nonneg : 0 <= k.

Let repair e r := install (latch_repair e (sr_channel_id r)) r.

Lemma commit_delta_sound e c b r built :
  record_inv c b r -> channel_inv e c r -> records_inv e [] -> b + 1 + k < 2 ^ 64 ->
  (forall sid, em_sinks e !! sid = Some true ->
     exists d, delivery_at e (sr_channel_id r) sid d /\ baseline_ready d = true) ->
  next_cell_frame (sr_terminal_core r) (sr_cell_emit r) false (Some 0)
    = Ok (bt_frame built, bt_next_state built) ->
  f_full (bt_frame built) = false ->
  sound_step (b + 1 + k) e r (fst (commit_delta repair e r built)).
Proof.
  intros Hr Hc Hrec Hb Hready Hnext Hfull. unfold commit_delta.
  pose proof (delta_sent_ok e (sr_channel_id r) (bt_frame built) (bt_wire built) Hrec) as Hsent.
  destruct (send_frame_to_active e (sr_channel_id r) (bt_frame built) (bt_wire built)) as [e1 fo].
  set (e2 := foldl forget_sink_records e1 (fo_overflowed fo)) in *.
  destruct Hsent as [D1 D2 D3 D4 D5 D6]. set (ch := sr_channel_id r) in *.
  assert (Hdi : forall sid d, delivery_at e2 ch sid d ->
            delivery_inv e ch c (sr_cell_emit r) sid d
            /\ (idle d \/ (em_sinks e !! sid = Some true /\ baseline_ready d = true /\ cursor d = None))).
  { intros sid d Hat. destruct (D3 sid d Hat) as [Hat0 _].
    assert (Hd : delivery_inv e ch c (sr_cell_emit r) sid d)
      by (destruct Hat0 as (s & Hs & Hd); by eapply Hc).
    split; [done|]. destruct (decide (em_sinks e !! sid = Some true)) as [Ha|Hna].
    - right. destruct (Hready sid Ha) as (d0 & Hd0 & Hrd). rewrite <- (delivery_at_unique _ _ _ _ _ Hat0 Hd0) in Hrd.
      split_and!; [done|done|]. by apply (di_ready _ _ _ _ _ _ Hd).
    - left. by eapply inactive_idle. }
  destruct (fo_accepted fo =? 0)%nat eqn:Eacc.
  - apply Nat.eqb_eq in Eacc.
    assert (Hs2 : sound e2 r b).
    { split; [|done]. exists c. split; [done|]. intros s sid d Hs Hd.
      destruct (Hdi sid d) as [[Hl Hrd Hp] _]; [by exists s|].
      destruct (D3 sid d) as [_ Hsk]; [by exists s|]. fold ch.
      constructor.
      - by rewrite Hsk.
      - intros Hready'. rewrite (D6 Eacc sid). by apply Hrd.
      - intros p Hcur. rewrite (D6 Eacc sid). by apply Hp. }
    assert (Hs3 : sound_step b e r (latch_repair e2 ch, r)).
    { split; [done|]. split; [eapply sound_lesser; [apply latch_repair_lesser|done]|].
      etransitivity; [exact D2|]. apply lesser_evolves, latch_repair_lesser. }
    pose proof (install_sound (latch_repair e2 ch) r b (proj1 (proj2 Hs3)) ltac:(lia)) as Hi.
    unfold repair. fold ch. destruct (install (latch_repair e2 ch) r) as [e3 r3]. cbn [fst].
    apply (sound_step_bound (b + k)); [lia|]. by eapply sound_step_trans.
  - destruct (committed_record_inv c b r false _ _ Hr Hnext) as (Hr1 & Hse & Hsq).
    set (r1 := with_last_pty_out_ms (committed_record r (bt_next_state built)) 0).
    assert (Hr1' : record_inv (sr_terminal_core r) (b + 1) r1) by (by destruct Hr1).
    assert (Hat3 : forall sid d, delivery_at (clear_dirty e2 ch) ch sid d -> delivery_at e2 ch sid d) by done.
    destruct (0 <? fo_dropped fo)%nat eqn:Edrop.
    + set (e4 := latch_repair (clear_dirty e2 ch) ch).
      assert (Hl4 : lesser e2 e4).
      { etransitivity; [|apply latch_repair_lesser]. apply same_view_lesser. by split_and!. }
      assert (Hs4 : sound_step (b + 1) e r (e4, r1)).
      { split; [done|]. split; [|etransitivity; [exact D2|by apply lesser_evolves]].
        split; [|by eapply records_inv_lesser]. exists (sr_terminal_core r). split; [done|].
        intros s sid d Hs Hd. apply delivery_inv_idle.
        assert (Hat4 : delivery_at e4 ch sid d) by (by exists s).
        destruct (ls_deliveries _ _ Hl4 ch sid d Hat4) as [(d0 & Hat0 & Hw)|[Hi _]]; [|done].
        destruct (D3 sid d0 Hat0) as [_ Hsk].
        destruct (Hdi sid d0 Hat0) as [_ [Hi|(Ha & _ & Hcur)]]; [by eapply idle_weaker|].
        split.
        - apply (latch_repair_unready (clear_dirty e2 ch) ch sid d); [|done]. cbn. by rewrite Hsk.
        - destruct Hw as [_ [|Hw]]; [done|]. by rewrite Hw. }
      pose proof (install_sound e4 r1 (b + 1) (proj1 (proj2 Hs4)) ltac:(lia)) as Hi.
      unfold repair. change (sr_channel_id r1) with ch. fold e4.
      destruct (install e4 r1) as [e5 r5]. cbn [fst]. by eapply sound_step_trans.
    + apply Nat.ltb_ge in Edrop. cbn [fst]. apply (sound_step_bound (b + 1)); [lia|].
      split; [done|]. split; [|etransitivity; [exact D2|apply lesser_evolves, same_view_lesser; by split_and!]].
      split; [|eapply records_inv_view; [|exact D1]; by split_and!].
      exists (sr_terminal_core r). split; [done|]. intros s sid d Hs Hd.
      assert (Hat2 : delivery_at e2 ch sid d) by (by exists s).
      destruct (D3 sid d Hat2) as [_ Hsk].
      destruct (Hdi sid d Hat2) as [[Hl Hrd Hp] [Hi|(Ha & Hready' & Hcur)]]; [by apply delivery_inv_idle|].
      destruct (D5 sid d Hat2 Ha) as [Htaken|]; [|lia]. destruct (Hl ltac:(by left)) as (_ & Hsent & _).
      constructor.
      * intros _. cbn. rewrite Hsk, Ha. split_and!; done.
      * intros _. split; [done|].
        change (received _ sid _) with (received (em_log e2) sid ch). rewrite Htaken.
        eapply paints_delta; try done; [lia|]. by apply Hrd.
      * intros p Hp'. congruence.
Qed.

(** What a build is: one frame of the record's core, forced or not. *)
Lemma build_frame_inv r full now_ms built :
  build_frame r full now_ms = Ok built ->
  exists force, (full = true -> force = true)
    /\ next_cell_frame (sr_terminal_core r) (sr_cell_emit r) force (Some 0)
       = Ok (bt_frame built, bt_next_state built)
    /\ frame_wire (bt_frame built) (bt_timings built) = Ok (bt_wire built).
Proof.
  unfold build_frame, build_once.
  destruct (next_cell_frame (sr_terminal_core r) (sr_cell_emit r) full (Some 0)) as [[frame state]|] eqn:E1; [|done].
  destruct (frame_wire frame _) as [wire|] eqn:E2; [|done].
  destruct (negb (pb_full wire) && _).
  - destruct (next_cell_frame _ _ true _) as [[frame' state']|] eqn:E3; [|done].
    destruct (frame_wire frame' _) as [wire'|] eqn:E4; [|done]. intros [= <-].
    exists true. by split_and!.
  - intros [= <-]. exists full. by split_and!.
Qed.

Lemma forced_is_full core state frame state' :
  next_cell_frame core state true (Some 0) = Ok (frame, state') -> f_full frame = true.
Proof.
  intros (? & ? & ? & ? & ? & ? & ? & ? & Hf & _)%next_cell_frame_inv. by rewrite Hf.
Qed.

(** Before the first frame of a generation nothing is held, so the record's
    grid may be renumbered. *)
Lemma renewal_sound e c b r :
  record_inv c b r -> channel_inv e c r -> es_seq (sr_cell_emit r) = 0 ->
  let r' := with_cell_emit r (fst (prepare_cell_renewal_epoch (sr_terminal_core r) (sr_cell_emit r))) in
  record_inv c b r' /\ channel_inv e c r'.
Proof.
  intros [Ht Hd Htr Hs] Hc Hzero. cbn zeta. split.
  - unfold prepare_cell_renewal_epoch. constructor; cbn; try done.
    + destruct (scrollback_origin _ _); [|done]. destruct (_ && _); cbn; [done|].
      intros Hsent. destruct (Htr Hsent). by constructor.
    + destruct (scrollback_origin _ _); [|done]. by destruct (_ && _).
  - intros s sid d Hs' Hd'. destruct (Hc s sid d Hs' Hd') as [Hl _ _].
    apply delivery_inv_idle. split.
    + destruct (baseline_ready d); [|done]. destruct Hl as (_ & _ & Hge); [by left|lia].
    + destruct (cursor d); [|done]. destruct Hl as (_ & _ & Hge); [right; by eexists|lia].
Qed.

Lemma emit_built_sound e b r full_owed now_ms :
  sound e r b -> b + 1 + k < 2 ^ 64 ->
  (full_owed = true \/ forall sid, em_sinks e !! sid = Some true ->
     exists d, delivery_at e (sr_channel_id r) sid d /\ baseline_ready d = true) ->
  sound_step (b + 1 + k) e r (fst (emit_built repair e r full_owed now_ms)).
Proof.
  intros [(c & Hr & Hc) Hrec] Hb Hready. unfold emit_built.
  set (e1 := cancel_cell_emission e (sr_channel_id r)). set (r1 := if full_owed && _ && _ then _ else r).
  assert (Hl1 : lesser e e1) by (apply same_view_lesser; by split_and!).
  assert (H1 : record_inv c b r1 /\ channel_inv e c r1 /\ sr_channel_id r1 = sr_channel_id r
               /\ sr_terminal_core r1 = sr_terminal_core r).
  { subst r1. destruct (full_owed && _ && _) eqn:E; [|by split_and!].
    apply andb_true_iff in E as [_ E%Z.eqb_eq]. by destruct (renewal_sound e c b r Hr Hc E). }
  destruct H1 as (Hr1 & Hc1 & Hch & _).
  assert (Hc1' : channel_inv e1 c r1) by by eapply channel_inv_lesser.
  assert (Hrec1 : records_inv e1 []) by by eapply records_inv_lesser.
  assert (Hs1 : sound_step b e r (e1, r1)).
  { split; [done|]. split; [|by apply lesser_evolves]. split; [by exists c|done]. }
  destruct (build_frame r1 full_owed now_ms) as [built|reason] eqn:Hbuild.
  2: { cbn [fst]. apply (sound_step_bound b); [lia|done]. }
  destruct (build_frame_inv _ _ _ _ Hbuild) as (force & Hforce & Hnext & Hwire).
  eapply sound_step_trans; [exact Hs1|]. unfold commit_frame.
  destruct (f_full (bt_frame built)) eqn:Hfull.
  - apply (sound_step_bound (b + 1)); [lia|]. by eapply commit_full_sound.
  - assert (Hnf : force = false).
    { destruct force; [|done]. apply forced_is_full in Hnext. congruence. }
    subst force. eapply commit_delta_sound; try done.
    destruct Hready as [->|Hready]; [by specialize (Hforce eq_refl)|].
    rewrite Hch. exact Hready.
Qed.

Lemma emit_gated_sound e b r force now_ms now :
  sound e r b -> b + 1 + k < 2 ^ 64 ->
  sound_step (b + 1 + k) e r (fst (emit_gated repair e r force now_ms now)).
Proof.
  intros Hs Hb. unfold emit_gated. set (ch := sr_channel_id r).
  assert (Hstay : forall e', lesser e e' -> sound_step (b + 1 + k) e r (e', r)).
  { intros e' Hl. apply (sound_step_bound b); [lia|]. by apply sound_step_lesser. }
  destruct (em_streams e !! ch) as [stream|] eqn:Hst; [|by apply Hstay].
  destruct (live_stream stream); cbn [negb]; [|by apply Hstay].
  destruct (ag_active_sinks _ =? 0)%nat; [by apply Hstay|].
  destruct (gate_held e ch); [apply Hstay, withhold_lesser|].
  destruct (ag_snapshot_pending _).
  { destruct force; apply Hstay; [done|apply mark_stream_dirty_lesser]. }
  destruct (negb force && negb (ag_baseline_ready (delivery_aggregate e ch))) eqn:Eb;
    [apply Hstay, withhold_lesser|].
  set (full_owed := _ || _ || _). pose proof (sync_output_action_view e r now) as Hv.
  destruct (sync_output_action e r now) as [e1 action]. cbn [fst] in Hv.
  assert (Hl1 : lesser e e1) by by apply same_view_lesser.
  assert (Hemit : sound_step (b + 1 + k) e r (fst (emit_built repair e1 r full_owed now_ms))).
  { eapply sound_step_trans; [by apply (sound_step_lesser b e e1)|].
    apply emit_built_sound; [by eapply sound_lesser|done|].
    destruct full_owed eqn:Ef; [by left|right]. intros sid Ha.
    destruct force; [done|]. cbn [negb andb] in Eb. apply negb_false_iff in Eb.
    destruct (delivery_aggregate_spec e ch) as (_ & Hready & _).
    destruct Hv as (V1 & V2 & _). rewrite V1 in Ha.
    destruct (proj1 Hready Eb sid Ha) as (d & (s & Hs0 & Hd) & Hrd). exists d. split; [|done].
    exists s. by rewrite V2. }
  destruct action; [exact Hemit| |exact Hemit].
  apply Hstay. etransitivity; [exact Hl1|]. etransitivity; [|apply withhold_lesser].
  destruct full_owed; [by apply flags_lesser|done].
Qed.
End repair.

(** An emission, and every repair it runs, is sound. *)
Lemma emit_cell_frame_sound fuel e r b force now_ms now :
  sound e r b -> b + Z.of_nat fuel < 2 ^ 64 ->
  sound_step (b + Z.of_nat fuel) e r (fst (emit_cell_frame_at fuel e r force now_ms now)).
Proof.
  revert e r b force. induction fuel as [|fuel IH]; intros e r b force Hs Hb.
  { cbn. rewrite Z.add_0_r. by apply sound_step_lesser. }
  cbn [emit_cell_frame_at]. rewrite Nat2Z.inj_succ in *.
  apply (sound_step_bound (b + 1 + Z.of_nat fuel)); [lia|].
  apply (emit_gated_sound (fun e r =>
           fst (emit_cell_frame_at fuel (with_baselines_owed e (em_baselines_owed e ∖ {[sr_channel_id r]}))
                  r true now_ms now)) (Z.of_nat fuel)); [|lia|done|lia].
  intros e0 r0 b0 Hs0 Hb0.
  assert (Hl : lesser e0 (with_baselines_owed e0 (em_baselines_owed e0 ∖ {[sr_channel_id r0]})))
    by (apply same_view_lesser; by split_and!).
  eapply sound_step_trans; [by apply (sound_step_lesser b0)|]. apply IH; [by eapply sound_lesser|done].
Qed.

(** A repair is a full, and a full needs no repair: two levels are all. *)
Lemma forced_nesting repair repair' e r now_ms now :
  emit_gated repair e r true now_ms now = emit_gated repair' e r true now_ms now.
Proof.
  unfold emit_gated. destruct (em_streams e !! _) as [stream|]; [|done].
  destruct (negb (live_stream stream)); [done|]. destruct (_ =? 0)%nat; [done|].
  destruct (gate_held _ _); [done|]. destruct (ag_snapshot_pending _); [done|].
  destruct (_ && _); [done|]. cbn [orb]. destruct (sync_output_action e r now) as [e1 action].
  assert (Hb : emit_built repair e1 r true now_ms = emit_built repair' e1 r true now_ms).
  { unfold emit_built. set (r1 := if true && _ && _ then _ else _).
    destruct (build_frame r1 true now_ms) as [built|] eqn:E; [|done].
    destruct (build_frame_inv _ _ _ _ E) as (force & Hforce & Hnext & _).
    rewrite (Hforce eq_refl) in Hnext. unfold commit_frame. by rewrite (forced_is_full _ _ _ _ Hnext). }
  by destruct action.
Qed.

Lemma emit_nesting_enough fuel e r force now_ms now :
  (EMIT_NESTING <= fuel)%nat ->
  emit_cell_frame_at fuel e r force now_ms now = emit_cell_frame e r force now_ms now.
Proof.
  intros Hfuel. unfold emit_cell_frame, EMIT_NESTING in *.
  assert (Hone : forall fuel e r, (1 <= fuel)%nat ->
            emit_cell_frame_at fuel e r true now_ms now = emit_cell_frame_at 1 e r true now_ms now).
  { intros [|fuel'] e0 r0 Hf; [lia|]. cbn [emit_cell_frame_at]. apply forced_nesting. }
  destruct fuel as [|fuel]; [lia|]. change (emit_cell_frame_at 2) with (emit_cell_frame_at (S 1)).
  cbn [emit_cell_frame_at]. unfold emit_gated.
  assert (Hrep : forall e r,
            fst (emit_cell_frame_at fuel (with_baselines_owed (latch_repair e (sr_channel_id r))
                   (em_baselines_owed (latch_repair e (sr_channel_id r)) ∖ {[sr_channel_id r]})) r true now_ms now)
            = fst (emit_cell_frame_at 1 (with_baselines_owed (latch_repair e (sr_channel_id r))
                   (em_baselines_owed (latch_repair e (sr_channel_id r)) ∖ {[sr_channel_id r]})) r true now_ms now)).
  { intros e0 r0. by rewrite Hone by lia. }
  destruct (em_streams e !! _) as [stream|]; [|done].
  destruct (negb (live_stream stream)); [done|]. destruct (_ =? 0)%nat; [done|].
  destruct (gate_held _ _); [done|]. destruct (ag_snapshot_pending _); [done|].
  destruct (_ && _); [done|]. destruct (sync_output_action e r now) as [e1 action].
  assert (Hb : forall repair repair' full, (forall e r, repair e r = repair' e r) ->
             emit_built repair e1 r full now_ms = emit_built repair' e1 r full now_ms).
  { intros repair repair' full Heq. unfold emit_built. destruct (build_frame _ _ _); [|done].
    unfold commit_frame. destruct (f_full _); [done|]. unfold commit_delta.
    destruct (send_frame_to_active _ _ _ _). rewrite !Heq. done. }
  destruct action; [by apply Hb|done|by apply Hb].
Qed.
End commit.
