(* ===== verification/CellEmitterGuarantees.v ===== *)
(** * CellEmitterGuarantees: every receiver paints the terminal

    Runs of the worker's emitter over many channels and many sinks: the
    operations interleaved at will, the sinks answering at will, the cores
    changing as their contract allows. *)
From Stdlib Require Import Ascii String.
From S2P Require Export CellEmissions.

(** ** Runs *)

Record World := mkWorld { wd_emitter : CellEmitter; wd_records : gmap Z SessionRecord }.

Inductive EmitterOp :=
| OpIngest (channel_id : Z) (chunk : list byte) (core : TerminalCore) (image_changed : bool) (now_ms now : Z)
| OpRetain (channel_id : Z) (chunk : list byte) (now_ms now : Z)
| OpCore (channel_id : Z) (core : TerminalCore)
| OpEmit (channel_id : Z) (force : bool) (now_ms now : Z)
| OpInstall (channel_id : Z) (now_ms now : Z)
| OpCadence (channel_id : Z) (now_ms now : Z)
| OpRegister (sink_id : string)
| OpUnregister (sink_id : string)
| OpSuspend (sink_id : string)
| OpResume (sink_id : string)
| OpMint (channel_id : Z) (stream_id : string) (enabled geometry_changed : bool)
| OpAdopt (channel_id : Z) (stream_id : string)
| OpForget (channel_id : Z)
| OpEnable (channel_id : Z) (enabled : bool)
| OpProve (channel_id : Z) (valid : bool)
| OpTrap (channel_id : Z)
| OpReset (channel_id : Z)
| OpRetire (channel_id : Z)
| OpHold (channel_id : Z) (gate : CellGate) (now_ms : Z)
| OpRelease (channel_id : Z)
| OpReleaseSync (channel_id : Z)
| OpRequest (channel_id : Z)
| OpRepair (channel_id : Z)
| OpEcho (channel_id now_ms : Z)
| OpDropWork (channel_id now : Z).

Definition on_record (w : World) (channel_id : Z)
    (f : CellEmitter -> SessionRecord -> CellEmitter * SessionRecord) : World :=
  match wd_records w !! channel_id with
  | None => w
  | Some r =>
      let '(e, r) := f (wd_emitter w) r in mkWorld e (<[channel_id := r]> (wd_records w))
  end.

Definition on_emitter (w : World) (f : CellEmitter -> CellEmitter) : World :=
  mkWorld (f (wd_emitter w)) (wd_records w).

Definition world_step `{SinkTransport, WireSizes} (w : World) (op : EmitterOp) : World :=
  match op with
  | OpIngest ch chunk core image_changed now_ms now =>
      on_record w ch (fun e r => fst (ingest_pty_chunk e r chunk core image_changed now_ms now))
  | OpRetain ch chunk now_ms now => on_record w ch (fun e r => retain_without_parsing e r chunk now_ms now)
  | OpCore ch core => on_record w ch (fun e r => (e, with_core r core))
  | OpEmit ch force now_ms now => on_record w ch (fun e r => fst (emit_cell_frame e r force now_ms now))
  | OpInstall ch now_ms now => on_record w ch (fun e r => fst (install_terminal_baseline e r now_ms now))
  | OpCadence ch now_ms now => on_record w ch (fun e r => run_cadence_work e r now_ms now)
  | OpRegister sid => on_emitter w (fun e => register_cell_sink e sid)
  | OpUnregister sid => on_emitter w (fun e => unregister_cell_sink e sid)
  | OpSuspend sid => on_emitter w (fun e => suspend_sink e sid)
  | OpResume sid => on_emitter w (fun e => resume_cell_sink e sid)
  | OpMint ch stream_id enabled geometry =>
      on_record w ch (fun e r => mint_stream e r stream_id enabled geometry)
  | OpAdopt ch stream_id => on_record w ch (fun e r => install_stream e r stream_id)
  | OpForget ch => on_emitter w (fun e => forget_channel e ch)
  | OpEnable ch enabled => on_emitter w (fun e => set_stream_enabled e ch enabled)
  | OpProve ch valid => on_emitter w (fun e => set_core_valid e ch valid)
  | OpTrap ch => on_emitter w (fun e => trap_stream_core e ch)
  | OpReset ch => on_emitter w (fun e => reset_stream_delivery e ch)
  | OpRetire ch =>
      on_emitter w (fun e => clear_stream_delivery_dirty (retire_stream_delivery e ch) ch)
  | OpHold ch gate now_ms => on_emitter w (fun e => hold_frames e ch gate now_ms)
  | OpRelease ch => on_emitter w (fun e => release_frames e ch)
  | OpReleaseSync ch => on_emitter w (fun e => release_sync_output_hold e ch)
  | OpRequest ch => on_emitter w (fun e => request_terminal_baseline e ch)
  | OpRepair ch => on_emitter w (fun e => note_repair e ch)
  | OpEcho ch now_ms => on_emitter w (fun e => note_input_echo e ch now_ms)
  | OpDropWork ch now => on_emitter w (fun e => drop_cadence_work e ch now)
  end.

(** What writing to a core, or resizing it, may do: a row that is clean was
    clean and is unchanged, unless the grid itself changed, which dirties
    every row. *)
Definition core_writes (before after : TerminalCore) : Prop :=
  core_typed after
  /\ ((core_cols after = core_cols before /\ core_rows after = core_rows before
       /\ core_using_alt_screen after = core_using_alt_screen before
       /\ forall row, 0 <= row < core_rows after -> core_is_dirty_row after row = false ->
            core_is_dirty_row before row = false
            /\ core_viewport_row_mark after row = core_viewport_row_mark before row
            /\ forall col, 0 <= col < core_cols after ->
                 core_viewport_cell after row col = core_viewport_cell before row col)
      \/ forall row, 0 <= row < core_rows after -> core_is_dirty_row after row = true).

(** What the emulator and the callers owe an operation. *)
Definition op_ok (w : World) (op : EmitterOp) : Prop :=
  match op with
  | OpIngest ch _ core _ _ _ | OpCore ch core =>
      forall r, wd_records w !! ch = Some r -> core_writes (sr_terminal_core r) core
  | OpAdopt ch _ => em_streams (wd_emitter w) !! ch = None
  | _ => True
  end.

Fixpoint world_run `{SinkTransport, WireSizes} (w : World) (ops : list EmitterOp) : World :=
  match ops with
  | [] => w
  | op :: rest => world_run (world_step w op) rest
  end.

Fixpoint run_ok `{SinkTransport, WireSizes} (w : World) (ops : list EmitterOp) : Prop :=
  match ops with
  | [] => True
  | op :: rest => op_ok w op /\ run_ok (world_step w op) rest
  end.

(** A record no frame has been built from yet. *)
Definition fresh_record (channel_id : Z) (r : SessionRecord) : Prop :=
  sr_channel_id r = channel_id /\ core_typed (sr_terminal_core r)
  /\ es_sent_full (sr_cell_emit r) = false /\ es_seq (sr_cell_emit r) = 0.

(** ** The invariant of a run *)

Definition world_inv `{WireSizes} (b : Z) (w : World) : Prop :=
  records_inv (wd_emitter w) []
  /\ forall ch r, wd_records w !! ch = Some r ->
       sr_channel_id r = ch /\ exists c, record_inv c b r /\ channel_inv (wd_emitter w) c r.

Section runs.
Context `{Laws : SinkTransportLaws} `{WireSizes}.

Lemma world_inv_record b b' w ch f :
  b <= b' -> world_inv b w ->
  (forall r, wd_records w !! ch = Some r -> sound (wd_emitter w) r b ->
     sound_step b' (wd_emitter w) r (f (wd_emitter w) r)) ->
  world_inv b' (on_record w ch f).
Proof.
  intros Hb [Hrec Hall] Hf. unfold on_record. destruct (wd_records w !! ch) as [r|] eqn:Hr.
  2: { split; [done|]. intros ch' r' Hr'. destruct (Hall ch' r' Hr') as (H1 & c & H2 & H3).
       split; [done|]. exists c. split; [by eapply record_inv_bound|done]. }
  destruct (Hall ch r Hr) as (Hch & c & Hrinv & Hcinv).
  destruct (Hf r eq_refl) as (H1 & [(c' & H2 & H3) H4] & H5).
  { split; [by exists c|done]. }
  destruct (f (wd_emitter w) r) as [e' r']. cbn [fst snd] in *. split; [done|]. cbn [wd_records wd_emitter].
  intros ch' r0 Hr0. destruct (decide (ch = ch')) as [<-|Hne].
  - rewrite lookup_insert_eq in Hr0. injection Hr0 as <-. split; [congruence|]. by exists c'.
  - rewrite lookup_insert_ne in Hr0 by done. destruct (Hall ch' r0 Hr0) as (G1 & c0 & G2 & G3).
    split; [done|]. exists c0. split; [by eapply record_inv_bound|].
    apply (channel_inv_evolves (sr_channel_id r) (wd_emitter w)); [congruence|done|done].
Qed.

Lemma world_inv_lesser b w f :
  lesser (wd_emitter w) (f (wd_emitter w)) -> world_inv b w -> world_inv b (on_emitter w f).
Proof.
  intros Hl [Hrec Hall]. split; [by eapply records_inv_lesser|]. intros ch r Hr.
  destruct (Hall ch r Hr) as (H1 & c & H2 & H3). split; [done|]. exists c. split; [done|].
  by eapply channel_inv_lesser.
Qed.

(** ** The record's operations *)

Lemma emit_sound e r b force now_ms now :
  sound e r b -> b + 2 < 2 ^ 64 ->
  sound_step (b + 2) e r (fst (emit_cell_frame e r force now_ms now)).
Proof. intros Hs Hb. by apply (emit_cell_frame_sound 2). Qed.

Lemma install_sound e r b now_ms now :
  sound e r b -> b + 2 < 2 ^ 64 ->
  sound_step (b + 2) e r (fst (install_terminal_baseline e r now_ms now)).
Proof.
  intros Hs Hb. unfold install_terminal_baseline. set (e1 := with_baselines_owed _ _).
  assert (Hl : lesser e e1) by (apply same_view_lesser; by split_and!).
  eapply sound_step_trans; [by apply (sound_step_lesser b e e1)|]. apply emit_sound; [|done].
  by eapply sound_lesser.
Qed.

Lemma fold_or_queue_view e ch stream_id promote : same_view e (fold_or_queue e ch stream_id promote).
Proof.
  unfold fold_or_queue. destruct (em_schedules e !! ch); [|by split_and!].
  destruct (negb _); [by split_and!|]. destruct (_ || _); by split_and!.
Qed.

Lemma take_latch_lesser e ch : lesser e (fst (take_repair_latch e ch)).
Proof. unfold take_repair_latch. destruct (em_streams e !! ch); [by apply flags_lesser|reflexivity]. Qed.

Lemma schedule_sound e r b promote now_ms now :
  sound e r b -> b + 2 < 2 ^ 64 ->
  sound_step (b + 2) e r (schedule_cell_emission e r promote now_ms now).
Proof.
  intros Hs Hb. unfold schedule_cell_emission. set (ch := sr_channel_id r).
  assert (Hstay : forall e', lesser e e' -> sound_step (b + 2) e r (e', r)).
  { intros e' Hl. apply (sound_step_bound b); [lia|]. by apply sound_step_lesser. }
  destruct (enabled_stream_id e ch) as [stream_id|]; [|by apply Hstay].
  destruct (_ =? 0)%nat; [by apply Hstay|]. destruct (_ || _); [apply Hstay, withhold_lesser|].
  destruct (gate_held e ch).
  { apply Hstay, same_view_lesser. eapply same_view_trans; [|apply note_gate_suppression_view].
    by split_and!. }
  pose proof (take_latch_lesser e ch) as Hl1. destruct (take_repair_latch e ch) as [e1 latched].
  cbn [fst] in Hl1. assert (Hs1 : sound e1 r b) by by eapply sound_lesser.
  destruct latched.
  { eapply sound_step_trans; [by apply (sound_step_lesser b e e1)|]. by apply install_sound. }
  pose proof (sync_output_action_view e1 r now) as Hv. destruct (sync_output_action e1 r now) as [e2 action].
  cbn [fst] in Hv. assert (Hl2 : lesser e e2) by (etransitivity; [done|by apply same_view_lesser]).
  destruct action.
  - apply Hstay. etransitivity; [done|]. apply same_view_lesser, fold_or_queue_view.
  - apply Hstay. etransitivity; [done|]. apply same_view_lesser.
    destruct (note_gate_suppression_view (note_dirty e2 ch) ch SyncOutputGate now_ms) as (V1 & V2 & V3).
    by split_and!.
  - eapply sound_step_trans; [by apply (sound_step_lesser b e e2)|]. apply emit_sound; [|done].
    by eapply sound_lesser.
Qed.

Lemma route_sound e r b promote captured now_ms now :
  sound e r b -> b + 2 < 2 ^ 64 ->
  sound_step (b + 2) e r (fst (route_chunk_to_cells e r promote captured now_ms now)).
Proof.
  intros Hs Hb. unfold route_chunk_to_cells.
  assert (Hstay : forall e', lesser e e' -> sound_step (b + 2) e r (e', r)).
  { intros e' Hl. apply (sound_step_bound b); [lia|]. by apply sound_step_lesser. }
  destruct (em_streams e !! _) as [stream|]; [|by apply Hstay].
  destruct (negb (so_enabled stream)); [by apply Hstay|]. destruct (_ && _ && _ && _).
  { pose proof (install_sound e r b now_ms now Hs Hb) as Hi.
    by destruct (install_terminal_baseline e r now_ms now) as [[e' r'] outcome]. }
  destruct (_ || _ || _ || _).
  - apply Hstay. etransitivity; [apply mark_stream_dirty_lesser|]. apply same_view_lesser. by split_and!.
  - pose proof (schedule_sound e r b promote now_ms now Hs Hb) as Hi.
    by destruct (schedule_cell_emission e r promote now_ms now).
Qed.

Lemma echo_view e ch now_ms : same_view e (fst (input_echo_armed e ch now_ms)).
Proof.
  unfold input_echo_armed. destruct (em_input_echo e !! ch); [|by split_and!].
  destruct (_ <? _); by split_and!.
Qed.

(** Writing to the core keeps the record true. *)
Lemma core_writes_sound e r b core :
  core_writes (sr_terminal_core r) core -> sound e r b -> sound e (with_core r core) b.
Proof.
  intros [Ht Hw] [(c & [H1 H2 H3 H4] & Hc) Hrec]. split; [|done]. exists c. split; [|exact Hc].
  constructor; [exact Ht| |done|done]. intros Hcols Hrows Halt row Hrow Hclean. cbn in *.
  destruct Hw as [(E1 & E2 & E3 & Hkeep)|Hall]; [|by rewrite Hall in Hclean].
  destruct (Hkeep row Hrow Hclean) as (Hclean' & Hmark & Hcells).
  destruct (H2 ltac:(congruence) ltac:(congruence) ltac:(congruence) row ltac:(congruence) Hclean')
    as [Hmark' Hcells'].
  split; [congruence|]. intros col Hcol. rewrite Hcells by done. apply Hcells'. congruence.
Qed.

Lemma clock_sound e r b now_ms : sound e r b -> sound e (note_output_time r now_ms) b.
Proof.
  intros [(c & Hr & Hc) Hrec]. split; [|done]. exists c. unfold note_output_time.
  destruct (_ =? 0); [|done]. split; [by destruct Hr|exact Hc].
Qed.

Lemma note_output_time_core r now_ms : sr_terminal_core (note_output_time r now_ms) = sr_terminal_core r.
Proof. unfold note_output_time. by destruct (_ =? 0). Qed.

Lemma note_output_time_channel r now_ms : sr_channel_id (note_output_time r now_ms) = sr_channel_id r.
Proof. unfold note_output_time. by destruct (_ =? 0). Qed.

(** A step whose record was changed beforehand, without touching the emitter. *)
Lemma sound_step_from b e r r0 result :
  sr_channel_id r0 = sr_channel_id r -> sound_step b e r0 result -> sound_step b e r result.
Proof. intros Hch (H1 & H2 & H3). rewrite Hch in *. by split_and!. Qed.

Lemma ingest_sound e r b chunk core image_changed now_ms now :
  core_writes (sr_terminal_core r) core -> sound e r b -> b + 4 < 2 ^ 64 ->
  sound_step (b + 4) e r (fst (ingest_pty_chunk e r chunk core image_changed now_ms now)).
Proof.
  intros Hw Hs Hb. unfold ingest_pty_chunk. set (r1 := with_core (note_output_time r now_ms) core).
  assert (Hs1 : sound e r1 b).
  { apply core_writes_sound; [by rewrite note_output_time_core|by apply clock_sound]. }
  apply (sound_step_from _ _ r r1); [apply note_output_time_channel|].
  set (e1 := observe_sync_output e (sr_channel_id r1) chunk).
  pose proof (echo_view e1 (sr_channel_id r1) now_ms) as Hv.
  destruct (input_echo_armed e1 (sr_channel_id r1) now_ms) as [e2 echo]. cbn [fst] in Hv.
  assert (Hl2 : lesser e e2).
  { apply same_view_lesser. eapply same_view_trans; [|exact Hv]. by split_and!. }
  assert (Hs2 : sound e2 r1 b) by by eapply sound_lesser.
  pose proof (route_sound e2 r1 b echo false now_ms now Hs2 ltac:(lia)) as Hroute.
  destruct (route_chunk_to_cells e2 r1 echo false now_ms now) as [[e3 r3] accepted]. cbn [fst] in Hroute.
  assert (H3 : sound_step (b + 2) e r1 (e3, r3)).
  { eapply sound_step_trans; [by apply (sound_step_lesser b e e2)|done]. }
  destruct (image_changed && accepted); cbn [fst].
  - eapply sound_step_trans; [exact H3|]. replace (b + 4) with (b + 2 + 2) by lia.
    apply schedule_sound; [apply H3|lia].
  - apply (sound_step_bound (b + 2)); [lia|done].
Qed.

Lemma retain_sound e r b chunk now_ms now :
  sound e r b -> b + 2 < 2 ^ 64 ->
  sound_step (b + 2) e r (retain_without_parsing e r chunk now_ms now).
Proof.
  intros Hs Hb. unfold retain_without_parsing. set (r1 := note_output_time r now_ms).
  assert (Hs1 : sound e r1 b) by by apply clock_sound.
  apply (sound_step_from _ _ r r1); [apply note_output_time_channel|].
  set (e1 := observe_sync_output e (sr_channel_id r1) chunk).
  pose proof (echo_view e1 (sr_channel_id r1) now_ms) as Hv.
  destruct (input_echo_armed e1 (sr_channel_id r1) now_ms) as [e2 echo]. cbn [fst] in Hv.
  assert (Hl2 : lesser e e2).
  { apply same_view_lesser. eapply same_view_trans; [|exact Hv]. by split_and!. }
  eapply sound_step_trans; [by apply (sound_step_lesser b e e2)|].
  apply route_sound; [by eapply sound_lesser|done].
Qed.

Lemma ceiling_sound e r b now_ms now :
  sound e r b -> b + 2 < 2 ^ 64 ->
  sound_step (b + 2) e r (fire_sync_output_ceiling e r now_ms now).
Proof.
  intros Hs Hb. unfold fire_sync_output_ceiling.
  assert (Hstay : sound_step (b + 2) e r (e, r)).
  { apply (sound_step_bound b); [lia|]. by apply sound_step_lesser. }
  destruct (sync_output_deadline e _) as [due|]; [|done]. destruct (due <=? now); [|done].
  assert (Hl : lesser e (trip_sync_output_hold e (sr_channel_id r)))
    by apply same_view_lesser, trip_hold_view.
  eapply sound_step_trans; [by apply (sound_step_lesser b _ _ r Hl)|].
  apply emit_sound; [by eapply sound_lesser|done].
Qed.

Lemma arm_cooldown_view e ch stream_id now fired :
  same_view e (arm_trailing_cooldown e ch stream_id now fired).
Proof. unfold arm_trailing_cooldown. destruct (_ || _); by split_and!. Qed.

Lemma run_schedule_sound e r b now_ms now :
  sound e r b -> b + 2 < 2 ^ 64 -> sound_step (b + 2) e r (run_schedule e r now_ms now).
Proof.
  intros Hs Hb. unfold run_schedule. set (ch := sr_channel_id r).
  set (e1 := cancel_cell_emission e ch).
  assert (Hl1 : lesser e e1) by (apply same_view_lesser; by split_and!).
  assert (Hstay : forall e', lesser e e' -> sound_step (b + 2) e r (e', r)).
  { intros e' Hl. apply (sound_step_bound b); [lia|]. by apply sound_step_lesser. }
  assert (Hemit : forall stream_id fired,
            sound_step (b + 2) e r
              (let '(e', r', _) := emit_cell_frame e1 r false now_ms now in
               (arm_trailing_cooldown e' ch stream_id now fired, r'))).
  { intros stream_id fired. pose proof (emit_sound e1 r b false now_ms now) as Hem.
    destruct (emit_cell_frame e1 r false now_ms now) as [[e' r'] outcome]. cbn [fst] in Hem.
    eapply sound_step_trans; [by apply (sound_step_lesser b e e1)|].
    eapply sound_step_trans; [apply Hem; [by eapply sound_lesser|done]|].
    apply sound_step_lesser; [apply same_view_lesser, arm_cooldown_view|].
    apply Hem; [by eapply sound_lesser|done]. }
  destruct (em_schedules e !! ch) as [schedule|]; [|by apply Hstay].
  destruct (sch_cooldown_until schedule) as [due|].
  - destruct (now <? due); [by apply Hstay|]. destruct (_ || _ || _); [by apply Hstay|]. apply Hemit.
  - destruct (_ || _); [by apply Hstay|]. apply Hemit.
Qed.

Lemma cadence_sound e r b now_ms now :
  sound e r b -> b + 6 < 2 ^ 64 -> sound_step (b + 6) e r (run_cadence_work e r now_ms now).
Proof.
  intros Hs Hb. unfold run_cadence_work.
  assert (H1 : sound_step (b + 2) e r
                 (if bool_decide (sr_channel_id r ∈ em_baselines_owed e)
                  then fst (install_terminal_baseline e r now_ms now) else (e, r))).
  { destruct (bool_decide _); [apply install_sound; [done|lia]|].
    apply (sound_step_bound b); [lia|]. by apply sound_step_lesser. }
  destruct (if bool_decide _ then _ else _) as [e1 r1].
  pose proof (ceiling_sound e1 r1 (b + 2) now_ms now (proj1 (proj2 H1)) ltac:(lia)) as H2.
  destruct (fire_sync_output_ceiling e1 r1 now_ms now) as [e2 r2].
  pose proof (run_schedule_sound e2 r2 (b + 2 + 2) now_ms now (proj1 (proj2 H2)) ltac:(lia)) as H3.
  replace (b + 6) with (b + 2 + 2 + 2) by lia.
  eapply sound_step_trans; [exact H1|]. by eapply sound_step_trans.
Qed.

(** A stream put in place with no delivery records. *)
Lemma insert_stream_sound e r b stream emit :
  so_deliveries stream = ∅ -> sound e r b -> 0 <= es_seq emit <= b ->
  (forall c, (es_sent_full (sr_cell_emit r) = true -> tracks c (sr_cell_emit r)) ->
             es_sent_full emit = true -> tracks c emit) ->
  sound_step b e r
    (with_streams e (<[sr_channel_id r := stream]> (em_streams e)), with_cell_emit r emit).
Proof.
  intros Hempty [(c & [H1 H2 H3 H4] & Hc) Hrec] Hseq Htracks. split; [done|]. split; [split|].
  - exists c. split; [constructor; cbn; try done; by apply Htracks|].
    intros s sid d Hs Hd. cbn in Hs. rewrite lookup_insert_eq in Hs. injection Hs as <-.
    by rewrite Hempty, lookup_empty in Hd.
  - intros ch s sid d Hs Hd. cbn in Hs. destruct (decide (sr_channel_id r = ch)) as [<-|Hne].
    + rewrite lookup_insert_eq in Hs. injection Hs as <-. by rewrite Hempty, lookup_empty in Hd.
    + rewrite lookup_insert_ne in Hs by done. by eapply Hrec.
  - constructor; [done|done|]. intros ch sid d Hne (s & Hs & Hd). cbn in Hs.
    rewrite lookup_insert_ne in Hs by done. left. exists d. split; [by exists s|apply weaker_refl].
Qed.

Lemma mint_sound e r b stream_id enabled geometry :
  sound e r b -> sound_step b e r (mint_stream e r stream_id enabled geometry).
Proof.
  intros Hs. unfold mint_stream. set (e1 := retire_stream_delivery _ _).
  assert (Hl : lesser e e1).
  { etransitivity; [|apply retire_stream_lesser]. etransitivity; [|apply clear_stream_dirty_lesser].
    apply same_view_lesser. by split_and!. }
  eapply sound_step_trans; [by apply (sound_step_lesser b e e1)|]. apply insert_stream_sound.
  - done.
  - by eapply sound_lesser.
  - cbn. destruct Hs as [(c & Hr & _) _]. pose proof (ri_seq _ _ _ Hr). lia.
  - intros c Htr Hsent. destruct (Htr Hsent). by constructor.
Qed.

Lemma adopt_sound e r b stream_id :
  em_streams e !! sr_channel_id r = None -> sound e r b -> sound_step b e r (install_stream e r stream_id).
Proof.
  intros Hno Hs. unfold install_stream. rewrite Hno. cbn [default from_option].
  set (stream := with_core_valid _ _). set (emit := readdress _ _ _ _).
  assert (Hstep : sound_step b e r
     (with_streams e (<[sr_channel_id r := stream]> (em_streams e)), with_cell_emit r emit)).
  { apply insert_stream_sound; [done|done| |].
    - destruct Hs as [(c & Hr & _) _]. apply (ri_seq _ _ _ Hr).
    - intros c Htr Hsent. destruct (Htr Hsent). by constructor. }
  eapply sound_step_trans; [exact Hstep|].
  apply sound_step_lesser; [apply same_view_lesser; by split_and!|apply Hstep].
Qed.

(** A record for a channel that has none. *)
Definition blank_core : TerminalCore :=
  mkTerminalCore 0 0 0 None
    (fun _ _ => mkCellData 0 None 0 0 0 0 None None None None) (fun _ => 0) (fun _ => 0)
    (fun _ _ => mkCellData 0 None 0 0 0 0 None None None None) (fun _ => 0) (fun _ => false)
    (mkCursorState 0 0 false) false false false MouseNone false false 0 [].

Definition blank_record (ch : Z) : SessionRecord :=
  mkSessionRecord ch EmptyString blank_core (CellEmitState_new EmptyString EmptyString) 0.

(** ** The emitter's operations *)

(** An operation that serves no record in particular. *)
Definition keeps (e e' : CellEmitter) : Prop :=
  records_inv e [] ->
  records_inv e' [] /\ forall c r, channel_inv e c r -> channel_inv e' c r.

Lemma world_inv_keeps b w f :
  keeps (wd_emitter w) (f (wd_emitter w)) -> world_inv b w -> world_inv b (on_emitter w f).
Proof.
  intros Hk [Hrec Hall]. destruct (Hk Hrec) as [H1 H2]. split; [done|]. intros ch r Hr.
  destruct (Hall ch r Hr) as (G1 & c & G2 & G3). split; [done|]. exists c. split; [done|]. by apply H2.
Qed.

Lemma keeps_lesser e e' : lesser e e' -> keeps e e'.
Proof.
  intros Hl Hrec. split; [by eapply records_inv_lesser|]. intros c r Hc. by eapply channel_inv_lesser.
Qed.

Lemma keeps_trans e1 e2 e3 : keeps e1 e2 -> keeps e2 e3 -> keeps e1 e3.
Proof. intros H12 H23 Hrec. destruct (H12 Hrec) as [Hr Hc]. destruct (H23 Hr). split; [done|auto]. Qed.

(** Sinks that change sides without gaining anything. *)
Lemma keeps_sinks e sinks :
  (forall sid, sinks !! sid = Some false -> em_sinks e !! sid = Some false) ->
  (forall sid, is_Some (em_sinks e !! sid) -> is_Some (sinks !! sid)) ->
  keeps e (with_sinks e sinks).
Proof.
  intros Hfalse Hdom Hrec. split.
  - intros ch s sid d Hs Hd. destruct (Hrec ch s sid d Hs Hd) as [Hcon|Hin]; [left|set_solver].
    apply bool_decide_eq_true in Hcon. apply bool_decide_eq_true. by apply Hdom.
  - intros c r Hc. by apply (channel_inv_log e).
Qed.

Lemma unregister_keeps e sid : keeps e (unregister_sink e sid).
Proof.
  intros Hrec. unfold unregister_sink. destruct (contains e sid); [|done].
  set (e1 := sinks_unregister e sid). split.
  - apply forget_records_inv. intros ch s sid' d Hs Hd.
    destruct (Hrec ch s sid' d Hs Hd) as [Hcon|Hin]; [|set_solver].
    destruct (decide (sid' = sid)) as [->|Hne]; [right; by left|left].
    unfold contains in *. cbn. by rewrite lookup_delete_ne.
  - intros c r Hc. apply (channel_inv_lesser e1); [apply forget_records_lesser|].
    apply (channel_inv_log e); [|done|done|done]. intros sid' Hf. cbn in Hf.
    by apply lookup_delete_Some in Hf as [_ Hf].
Qed.

(** A sink that holds no record registers. *)
Lemma sinks_register_keeps e sid :
  (forall ch d, ~ delivery_at e ch sid d) -> keeps e (sinks_register e sid).
Proof.
  intros Hno Hrec. split.
  - intros ch s sid' d Hs Hd. destruct (Hrec ch s sid' d Hs Hd) as [Hcon|Hin]; [left|set_solver].
    unfold contains in *. cbn. destruct (decide (sid = sid')) as [<-|Hne].
    + rewrite lookup_insert_eq. apply bool_decide_eq_true. by eexists.
    + by rewrite lookup_insert_ne.
  - intros c r Hc s sid' d Hs Hd. destruct (decide (sid = sid')) as [<-|Hne].
    { exfalso. eapply Hno. by exists s. }
    destruct (Hc s sid' d Hs Hd) as [Hl Hr Hp].
    assert (Hrc : forall ch, received (em_log (sinks_register e sid)) sid' ch = received (em_log e) sid' ch).
    { intros ch. unfold sinks_register. cbn [em_log with_event with_sinks]. rewrite received_snoc. cbn.
      by rewrite decide_False. }
    constructor.
    + intros Hlive. cbn. rewrite lookup_insert_ne by done. by apply Hl.
    + intros Hready. rewrite Hrc. by apply Hr.
    + intros p Hcur. rewrite Hrc. by apply Hp.
Qed.

Lemma requests_view e l : same_view e (foldl request_terminal_baseline e l).
Proof.
  revert e. induction l as [|ch l IH]; intros e; [by split_and!|]. cbn [foldl].
  eapply same_view_trans; [|apply IH]. by split_and!.
Qed.

Lemma no_record_unless_contained e ch sid d :
  records_inv e [] -> contains e sid = false -> ~ delivery_at e ch sid d.
Proof. intros Hrec Hno (s & Hs & Hd). destruct (Hrec ch s sid d Hs Hd) as [|Hin]; [congruence|set_solver]. Qed.

Lemma unregistered_gone e sid : contains (unregister_sink e sid) sid = false.
Proof.
  unfold unregister_sink. destruct (contains e sid) eqn:E; [|done].
  unfold contains. cbn. rewrite lookup_delete_eq. by apply bool_decide_eq_false, is_Some_None.
Qed.

Lemma register_keeps e sid : keeps e (register_cell_sink e sid).
Proof.
  intros Hrec. unfold register_cell_sink.
  set (e1 := if contains e sid then _ else e).
  assert (H1 : keeps e e1 /\ contains e1 sid = false).
  { subst e1. destruct (contains e sid) eqn:E; [|done].
    split; [apply unregister_keeps|apply unregistered_gone]. }
  destruct H1 as [Hk1 Hno]. destruct (Hk1 Hrec) as [Hrec1 _].
  assert (Hk2 : keeps e1 (sinks_register e1 sid)).
  { apply sinks_register_keeps. intros ch d. by apply no_record_unless_contained. }
  assert (Hk3 : keeps (sinks_register e1 sid) (register_sink e1 sid)).
  { apply keeps_lesser, force_baseline_lesser. unfold contains. cbn. rewrite lookup_insert_eq.
    apply bool_decide_eq_true. by eexists. }
  revert Hrec. apply (keeps_trans _ _ _ Hk1), (keeps_trans _ _ _ Hk2), (keeps_trans _ _ _ Hk3).
  apply keeps_lesser, same_view_lesser, requests_view.
Qed.

Lemma unregister_cell_sink_keeps e sid : keeps e (unregister_cell_sink e sid).
Proof. unfold unregister_cell_sink. destruct (contains e sid); [apply unregister_keeps|done]. Qed.

Lemma suspend_keeps e sid : keeps e (suspend_sink e sid).
Proof.
  intros Hrec. unfold suspend_sink, sinks_suspend. destruct (is_active e sid) eqn:Ea; [|done].
  set (e1 := with_sinks e _). set (e2 := with_streams e1 _).
  assert (Hat : forall ch sid' d', delivery_at e2 ch sid' d' ->
            exists d, delivery_at e ch sid' d /\ (sid' = sid -> idle d') /\ (sid' <> sid -> d' = d)).
  { intros ch sid' d' (s' & Hs' & Hd'). cbn in Hs'. rewrite lookup_fmap in Hs'.
    destruct (em_streams e !! ch) as [s|] eqn:Hs; [|done]. injection Hs' as <-. cbn in Hd'.
    destruct (decide (sid = sid')) as [<-|Hne].
    - rewrite lookup_alter_eq in Hd'. destruct (so_deliveries s !! sid) as [d|] eqn:Hd; [|done].
      injection Hd' as <-. exists d. split; [by exists s|]. by split.
    - rewrite lookup_alter_ne in Hd' by done. exists d'. split; [by exists s|]. by split. }
  split.
  - intros ch s sid' d' Hs Hd. destruct (Hat ch sid' d') as (d & (s0 & Hs0 & Hd0) & _); [by exists s|].
    destruct (Hrec ch s0 sid' d Hs0 Hd0) as [Hcon|Hin]; [left|set_solver].
    unfold contains in *. cbn. destruct (decide (sid = sid')) as [<-|Hne].
    + rewrite lookup_insert_eq. apply bool_decide_eq_true. by eexists.
    + by rewrite lookup_insert_ne.
  - intros c r Hc s sid' d' Hs Hd. destruct (Hat (sr_channel_id r) sid' d') as (d & (s0 & Hs0 & Hd0) & Hi & Hsame);
      [by exists s|].
    destruct (decide (sid' = sid)) as [->|Hne]; [by apply delivery_inv_idle, Hi|].
    rewrite (Hsame Hne). destruct (Hc s0 sid' d Hs0 Hd0) as [Hl Hr Hp]. constructor; [|done|done].
    intros Hlive. cbn. rewrite lookup_insert_ne by done. by apply Hl.
Qed.

Lemma resume_sink_keeps e sid : keeps e (resume_sink e sid).
Proof.
  unfold resume_sink, sinks_resume. destruct (em_sinks e !! sid) as [[]|] eqn:E; try done.
  eapply keeps_trans; [apply (keeps_sinks e (<[sid := true]> (em_sinks e)))|].
  - intros sid' Hf. destruct (decide (sid = sid')) as [<-|Hne]; [by rewrite lookup_insert_eq in Hf|].
    by rewrite lookup_insert_ne in Hf.
  - intros sid' Hin. destruct (decide (sid = sid')) as [<-|Hne]; [rewrite lookup_insert_eq; by eexists|].
    by rewrite lookup_insert_ne.
  - apply keeps_lesser, force_baseline_lesser. unfold contains. cbn. rewrite lookup_insert_eq.
    apply bool_decide_eq_true. by eexists.
Qed.

(** Draining a channel's cursors, whether or not its record is known. *)
Lemma drain_keeps e ch : keeps e (fst (drain_snapshot e ch)).
Proof.
  intros Hrec.
  assert (Hdrain : forall (known : Prop) c r, sr_channel_id r = ch -> (known -> channel_inv e c r) ->
            let e' := fst (drain_snapshot e ch) in
            (known -> channel_inv e' c r) /\ evolves ch e e' /\ records_inv e' []).
  { intros known c r <- Hc. by apply drain_snapshot_inv. }
  split.
  - destruct (Hdrain False blank_core) with (r := blank_record ch) as (_ & _ & H1); done.
  - intros c r Hc. destruct (decide (sr_channel_id r = ch)) as [Heq|Hne].
    + by apply (Hdrain True c r Heq (fun _ => Hc)).
    + destruct (Hdrain False blank_core) with (r := blank_record ch) as (_ & He & _); [done|done|].
      by apply (channel_inv_evolves ch e).
Qed.

Lemma baseline_complete_view e ch : same_view e (note_stream_baseline_complete e ch).
Proof. unfold note_stream_baseline_complete. destruct (sync_output_held e ch); by split_and!. Qed.

Lemma schedule_leading_view e ch : same_view e (schedule_leading_emission e ch).
Proof.
  unfold schedule_leading_emission. destruct (enabled_stream_id e ch); [|by split_and!].
  destruct (decide _); by split_and!.
Qed.

Lemma resume_channel_keeps e ch : keeps e (resume_channel e ch).
Proof.
  unfold resume_channel. pose proof (drain_keeps e ch) as Hd.
  destruct (drain_snapshot e ch) as [e1 [|owed|]]; cbn [fst] in Hd.
  - pose proof (take_latch_lesser e1 ch) as Hl. destruct (take_repair_latch e1 ch) as [e2 latched].
    cbn [fst] in Hl. eapply keeps_trans; [exact Hd|]. apply keeps_lesser. etransitivity; [exact Hl|].
    destruct latched; [|reflexivity]. apply same_view_lesser. by split_and!.
  - eapply keeps_trans; [exact Hd|]. apply keeps_lesser, same_view_lesser.
    eapply same_view_trans; [apply baseline_complete_view|].
    destruct owed; [apply schedule_leading_view|by split_and!].
  - exact Hd.
Qed.

Lemma resume_keeps e sid : keeps e (resume_cell_sink e sid).
Proof.
  unfold resume_cell_sink. destruct (negb (contains e sid)); [done|]. destruct (is_active e sid).
  - unfold resume_terminal_snapshots. generalize (merge_sort Z.le (watched_channels e)). intros l. revert e.
    induction l as [|ch l IH]; intros e; [done|]. cbn [foldl].
    eapply keeps_trans; [apply resume_channel_keeps|apply IH].
  - eapply keeps_trans; [apply resume_sink_keeps|].
    apply keeps_lesser, same_view_lesser, requests_view.
Qed.

Lemma release_frames_view e ch : same_view e (release_frames e ch).
Proof. unfold release_frames. destruct (gate_held e ch); by split_and!. Qed.

Lemma drop_work_view e ch now : same_view e (drop_cadence_work e ch now).
Proof.
  unfold drop_cadence_work. set (e1 := with_baselines_owed _ _).
  assert (Hv : same_view e e1) by by split_and!.
  destruct (sync_output_deadline e1 ch) as [due|]; [|done]. destruct (due <=? now); [|done].
  eapply same_view_trans; [exact Hv|apply release_hold_view].
Qed.

Lemma cancel_lesser e ch : lesser e (cancel e ch).
Proof.
  unfold cancel. etransitivity; [|by apply flags_lesser]. apply same_view_lesser.
  unfold forget_sync_output. set (e1 := with_baselines_owed _ _).
  assert (Hv : same_view e e1) by by split_and!.
  destruct (release_hold_view e1 ch) as (V1 & V2 & V3), Hv as (W1 & W2 & W3).
  split_and!; cbn; congruence.
Qed.

Lemma forget_channel_lesser e ch : lesser e (forget_channel e ch).
Proof.
  unfold forget_channel. etransitivity; [|apply cancel_lesser]. constructor; [done|done|].
  intros ch' sid d' (s & Hs & Hd). cbn in Hs. apply lookup_delete_Some in Hs as [_ Hs].
  left. exists d'. split; [by exists s|apply weaker_refl].
Qed.

Lemma trap_lesser e ch : lesser e (trap_stream_core e ch).
Proof.
  unfold trap_stream_core. etransitivity; [apply retire_stream_lesser|].
  transitivity (set_core_valid (retire_stream_delivery e ch) ch false); [by apply flags_lesser|].
  apply same_view_lesser. by split_and!.
Qed.

(** ** Every step keeps the invariant *)

Lemma world_step_inv b w op :
  op_ok w op -> world_inv b w -> b + 6 < 2 ^ 64 -> world_inv (b + 6) (world_step w op).
Proof.
  intros Hok Hinv Hb.
  assert (Hmono : forall w', world_inv b w' -> world_inv (b + 6) w').
  { intros w' [H1 H2]. split; [done|]. intros ch r Hr. destruct (H2 ch r Hr) as (G1 & c & G2 & G3).
    split; [done|]. exists c. split; [|done]. eapply record_inv_bound; [|done]. lia. }
  assert (Hrecord : forall ch f,
            (forall r, wd_records w !! ch = Some r -> sound (wd_emitter w) r b ->
               exists k, 0 <= k <= 6 /\ sound_step (b + k) (wd_emitter w) r (f (wd_emitter w) r)) ->
            world_inv (b + 6) (on_record w ch f)).
  { intros ch f Hf. apply (world_inv_record b); [lia|done|]. intros r Hr Hs.
    destruct (Hf r Hr Hs) as (k & Hk & Hstep). apply (sound_step_bound (b + k)); [lia|done]. }
  assert (Hkeep : forall f, keeps (wd_emitter w) (f (wd_emitter w)) -> world_inv (b + 6) (on_emitter w f)).
  { intros f Hk. apply Hmono. by apply world_inv_keeps. }
  assert (Hview : forall f, same_view (wd_emitter w) (f (wd_emitter w)) -> world_inv (b + 6) (on_emitter w f)).
  { intros f Hv. by apply Hkeep, keeps_lesser, same_view_lesser. }
  destruct op; cbn [world_step op_ok] in *.
  - apply Hrecord. intros r Hr Hs. exists 4. split; [lia|]. apply ingest_sound; [by apply Hok|done|lia].
  - apply Hrecord. intros r Hr Hs. exists 2. split; [lia|]. apply retain_sound; [done|lia].
  - apply Hrecord. intros r Hr Hs. exists 0. split; [lia|]. rewrite Z.add_0_r. split; [done|].
    split; [|reflexivity]. apply core_writes_sound; [by apply Hok|done].
  - apply Hrecord. intros r Hr Hs. exists 2. split; [lia|]. apply emit_sound; [done|lia].
  - apply Hrecord. intros r Hr Hs. exists 2. split; [lia|]. apply install_sound; [done|lia].
  - apply Hrecord. intros r Hr Hs. exists 6. split; [lia|]. by apply cadence_sound.
  - apply Hkeep, register_keeps.
  - apply Hkeep, unregister_cell_sink_keeps.
  - apply Hkeep, suspend_keeps.
  - apply Hkeep, resume_keeps.
  - apply Hrecord. intros r Hr Hs. exists 0. split; [lia|]. rewrite Z.add_0_r. by apply mint_sound.
  - apply Hrecord. intros r Hr Hs. exists 0. split; [lia|]. rewrite Z.add_0_r. apply adopt_sound; [|done].
    destruct Hinv as [_ Hall]. by destruct (Hall _ _ Hr) as [-> _].
  - apply Hkeep, keeps_lesser, forget_channel_lesser.
  - apply Hkeep, keeps_lesser. by apply flags_lesser.
  - apply Hkeep, keeps_lesser. by apply flags_lesser.
  - apply Hkeep, keeps_lesser, trap_lesser.
  - apply Hkeep, keeps_lesser. etransitivity; [apply retire_stream_lesser|apply mark_stream_dirty_lesser].
  - apply Hkeep, keeps_lesser. etransitivity; [apply retire_stream_lesser|apply clear_stream_dirty_lesser].
  - apply Hview. by split_and!.
  - apply Hview, release_frames_view.
  - apply Hview, release_hold_view.
  - apply Hview. by split_and!.
  - apply Hkeep, keeps_lesser. by apply flags_lesser.
  - apply Hview. by split_and!.
  - apply Hview, drop_work_view.
Qed.

Lemma world_run_inv b w ops :
  run_ok w ops -> world_inv b w -> b + 6 * len ops < 2 ^ 64 ->
  world_inv (b + 6 * len ops) (world_run w ops).
Proof.
  revert b w. induction ops as [|op ops IH]; intros b w Hok Hinv Hb.
  { cbn [world_run]. by replace (b + 6 * len (@nil EmitterOp)) with b by (unfold len; cbn; lia). }
  rewrite len_cons in *. destruct Hok as [Hop Hok]. cbn [world_run]. pose proof (len_nonneg ops).
  replace (b + 6 * (1 + len ops)) with (b + 6 + 6 * len ops) by lia.
  apply IH; [done| |lia]. apply world_step_inv; [done|done|lia].
Qed.

(** A fresh emitter over records no frame was built from. *)
Lemma fresh_world_inv records :
  map_Forall fresh_record records -> world_inv 0 (mkWorld CellEmitter_new records).
Proof.
  intros Hfresh. split.
  - intros ch s sid d Hs. cbn in Hs. by rewrite lookup_empty in Hs.
  - intros ch r Hr. destruct (Hfresh ch r Hr) as (H1 & H2 & H3 & H4). split; [done|].
    exists (sr_terminal_core r). split.
    + constructor; [done| | |lia].
      * by intros _ _ _ row _ _.
      * by rewrite H3.
    + intros s sid d Hs. cbn in Hs. by rewrite lookup_empty in Hs.
Qed.

(** What a sink that paints a committed core shows of the current one. *)
Lemma paints_clean_rows rec c state core :
  paints rec c state -> dirty_contract c core ->
  core_cols core = core_cols c -> core_rows core = core_rows c ->
  core_using_alt_screen core = core_using_alt_screen c ->
  exists earlier full timings parts deltas handed held,
    rec = earlier ++ (hand timings <$> parts) ++ handed
    /\ parts_of full timings parts /\ handed_frames deltas handed
    /\ mirror replica_step (full :: deltas) = Some held
    /\ normalize_cell_grid_frame held = screen c state (image_base (full :: deltas))
    /\ forall row, 0 <= row < core_rows core -> core_is_dirty_row core row = false ->
         f_viewport_rows held !! Z.to_nat row = Some (viewport_cell_row core row).
Proof.
  intros (earlier & full & timings & parts & deltas & handed & held & H1 & H2 & H3 & H4 & H5 & H6) Hd Hc Hr Ha.
  exists earlier, full, timings, parts, deltas, handed, held. split_and!; try done.
  intros row Hrow Hclean. destruct (shows_fields _ _ _ _ H5) as (_ & _ & _ & _ & _ & _ & F7 & _).
  rewrite F7, viewport_rows_all_lookup by lia. rewrite Z2Nat.id by lia.
  by rewrite (clean_row_kept c core row).
Qed.

(** C30: every receiver that is told it holds a baseline paints the terminal.
    Sinks register, drop, overflow, suspend and resume at will, channels are
    minted, trapped, resized and forgotten, frames are emitted by the cadence,
    by output and by force, a delta too large becomes a full, a full too large
    becomes parts: whenever a delivery record says its sink holds a baseline,
    the sink is active, its last full arrived complete and was followed by
    exactly the deltas since, and folding them gives the screen as the record's
    emit state last described it.  Of the terminal as it is now, the receiver
    shows every row that is not marked dirty.  A sink still being sent a full
    has been handed exactly the parts its cursor has passed. *)
Theorem baselined_sinks_paint (records : gmap Z SessionRecord) (ops : list EmitterOp)
    (Hfresh : map_Forall fresh_record records)
    (Hok : run_ok (mkWorld CellEmitter_new records) ops) (Hlen : 6 * len ops < 2 ^ 64)
    (ch : Z) (r : SessionRecord) (sid : string) (d : StreamDelivery) :
  let w := world_run (mkWorld CellEmitter_new records) ops in
  wd_records w !! ch = Some r -> delivery_at (wd_emitter w) ch sid d ->
  let rec := received (em_log (wd_emitter w)) sid ch in
  (baseline_ready d = true ->
     em_sinks (wd_emitter w) !! sid = Some true /\ cursor d = None
     /\ exists committed,
          tracks committed (sr_cell_emit r) /\ paints rec committed (sr_cell_emit r)
          /\ dirty_contract committed (sr_terminal_core r)
          /\ (core_cols (sr_terminal_core r) = es_cols (sr_cell_emit r) ->
              core_rows (sr_terminal_core r) = es_rows (sr_cell_emit r) ->
              core_using_alt_screen (sr_terminal_core r) = es_alt (sr_cell_emit r) ->
              exists earlier full timings parts deltas handed held,
                rec = earlier ++ (hand timings <$> parts) ++ handed
                /\ parts_of full timings parts /\ handed_frames deltas handed
                /\ mirror replica_step (full :: deltas) = Some held
                /\ normalize_cell_grid_frame held
                   = screen committed (sr_cell_emit r) (image_base (full :: deltas))
                /\ forall row, 0 <= row < core_rows (sr_terminal_core r) ->
                     core_is_dirty_row (sr_terminal_core r) row = false ->
                     f_viewport_rows held !! Z.to_nat row
                     = Some (viewport_cell_row (sr_terminal_core r) row)))
  /\ (forall parked, cursor d = Some parked ->
        em_sinks (wd_emitter w) !! sid = Some true
        /\ exists earlier full,
             rec = earlier ++ (hand (cur_timings parked) <$> take (cur_next_part parked) (cur_parts parked))
             /\ parts_of full (cur_timings parked) (cur_parts parked)).
Proof.
  intros w Hr Hat rec.
  destruct (world_run_inv 0 (mkWorld CellEmitter_new records) ops Hok (fresh_world_inv records Hfresh))
    as [Hrec Hall]; [lia|]. fold w in Hrec, Hall.
  destruct (Hall ch r Hr) as (<- & c & [Ht Hd Htr Hs] & Hc).
  pose proof Hat as (s & Hst & Hdel). destruct (Hc s sid d Hst Hdel) as [Hl Hready Hcur].
  assert (Hactive : baseline_ready d = true \/ is_Some (cursor d) ->
            em_sinks (wd_emitter w) !! sid = Some true /\ es_sent_full (sr_cell_emit r) = true).
  { intros Hlive. destruct (Hl Hlive) as (Hf & Hsent & _). split; [|done].
    destruct (Hrec _ s sid d Hst Hdel) as [[active Ha]%bool_decide_eq_true|Hin]; [|set_solver].
    destruct active; congruence. }
  split.
  - intros Hb. destruct (Hactive (or_introl Hb)) as [Ha Hsent]. destruct (Hready Hb) as [Hnone Hp].
    split_and!; [done|done|]. exists c. specialize (Htr Hsent). split_and!; try done.
    destruct Htr as [_ Tc Tr Ta _ _]. intros Hcols Hrows Halt.
    apply paints_clean_rows; try done; congruence.
  - intros p Hp. destruct (Hactive (or_intror (mk_is_Some _ _ Hp))) as [Ha _]. split; [done|].
    destruct (Hcur p Hp) as (earlier & full & H1 & H2 & _). by exists earlier, full.
Qed.
End runs.

(** ** A small run *)

(** Every message is small; [b] loses the fourth thing a sink is handed. *)
#[local] Instance demo_wire : WireSizes :=
  {| row_encoded_len := fun _ => 8; encoded_cell_grid_frame_size := fun _ => 100;
     encoded_cell_grid_chunk_size := fun _ => 100; varint_len := fun _ => 1 |}.

Definition handed_count (log : list SinkEvent) : nat :=
  length (omap (fun event => match event with Handed _ _ part _ => Some part | _ => None end) log).

#[local] Instance demo_transport : SinkTransport :=
  {| sink_answer := fun log sink_id _ _ =>
       if (handed_count log =? 3)%nat && String.eqb sink_id "b" then Dropped else Sent;
     iteration_order := fun _ l => l;
     mint_uuid := fun _ => Some "0a0a0a0a-0a0a-4a0a-8a0a-0a0a0a0a0a0a" |}.

#[local] Instance demo_transport_laws : SinkTransportLaws.
Proof. split. done. Qed.

Definition demo_stream_id : string := "1b1b1b1b-1b1b-4b1b-8b1b-1b1b1b1b1b1b".

Definition demo_records : gmap Z SessionRecord :=
  {[ 7 := mkSessionRecord 7 "session" (demo_core [] [97; 98] [0; 1])
            (CellEmitState_new "grid" EmptyString) 0 ]}.

(** Two sinks take a full; output scrolls; the delta reaches [a] only, so both
    are sent a full again. *)
Definition demo_ops : list EmitterOp :=
  [OpMint 7 demo_stream_id true false; OpRegister "a"; OpRegister "b"; OpCadence 7 100 100;
   OpIngest 7 [Byte.x63] (demo_core [97] [98; 99] [0; 1]) false 200 200000000;
   OpCadence 7 200 200000000].

(** Which frames a sink took: full or delta, and the number. *)
Definition taken_frames (e : CellEmitter) (sid : string) : list (bool * Z) :=
  omap (fun part => match part with HandFrame f _ => Some (f_full f, f_seq f) | _ => None end)
    (received (em_log e) sid 7).

Lemma demo_fresh : map_Forall fresh_record demo_records.
Proof.
  apply map_Forall_singleton. by split_and!.
Qed.

Lemma demo_run_ok w : run_ok w demo_ops.
Proof.
  cbn [run_ok demo_ops op_ok]. repeat (split; [exact I|]). split; [|split; exact I].
  intros r _. split; [by constructor|]. right.
  intros row Hrow. cbn in Hrow. apply bool_decide_eq_true.
  assert (row = 0 \/ row = 1) as [-> | ->] by lia; set_solver.
Qed.

Lemma baselined_sinks_paint_witness :
  let w := world_run (mkWorld CellEmitter_new demo_records) demo_ops in
  taken_frames (wd_emitter w) "a" = [(true, 1); (false, 2); (true, 3)]
  /\ taken_frames (wd_emitter w) "b" = [(true, 1); (true, 3)]
  /\ exists r d committed, wd_records w !! 7 = Some r /\ delivery_at (wd_emitter w) 7 "b" d
       /\ baseline_ready d = true
       /\ paints (received (em_log (wd_emitter w)) "b" 7) committed (sr_cell_emit r).
Proof.
  pose proof (baselined_sinks_paint demo_records demo_ops demo_fresh (demo_run_ok _) ltac:(by vm_compute) 7)
    as Hpaint.
  cbn zeta in *.
  assert (Hcheck : match wd_records (world_run (mkWorld CellEmitter_new demo_records) demo_ops) !! 7,
                    em_streams (wd_emitter (world_run (mkWorld CellEmitter_new demo_records) demo_ops)) !! 7 with
                   | Some _, Some s =>
                       match so_deliveries s !! "b" with Some d => baseline_ready d | None => false end
                   | _, _ => false
                   end = true) by by vm_compute.
  assert (Ha : taken_frames (wd_emitter (world_run (mkWorld CellEmitter_new demo_records) demo_ops)) "a"
               = [(true, 1); (false, 2); (true, 3)]) by by vm_compute.
  assert (Hb : taken_frames (wd_emitter (world_run (mkWorld CellEmitter_new demo_records) demo_ops)) "b"
               = [(true, 1); (true, 3)]) by by vm_compute.
  revert Hpaint Hcheck Ha Hb. generalize (world_run (mkWorld CellEmitter_new demo_records) demo_ops).
  intros w Hpaint Hcheck Ha Hb. split_and!; [done|done|].
  destruct (wd_records w !! 7) as [r|] eqn:Er; [|done].
  destruct (em_streams (wd_emitter w) !! 7) as [s|] eqn:Es; [|done].
  destruct (so_deliveries s !! "b") as [d|] eqn:Ed; [|done].
  destruct (Hpaint r "b" d eq_refl (ex_intro _ s (conj Es Ed))) as [Hready _].
  destruct (Hready Hcheck) as (_ & _ & c & _ & Hp & _).
  exists r, d, c. split_and!; [done|by exists s|done|done].
Defined.
