(* ===== verification/CadenceGuarantees.v ===== *)
(** * CadenceGuarantees: what a chunk of output sets in motion

    A chunk on a stream that may deliver, through [ingest_pty_chunk] and the
    cadence's pass of [CellCadence]. *)
From Stdlib Require Import Ascii String.
From S2P Require Export CellEmitterGuarantees.

(** A stream whose every active sink holds a baseline, with nothing held back. *)
Record deliverable `{SinkTransport} (e : CellEmitter) (ch : Z) (stream : StreamOutput) : Prop := {
  dv_stream : em_streams e !! ch = Some stream;
  dv_live : live_stream stream = true;
  dv_active : ag_active_sinks (delivery_aggregate e ch) <> 0%nat;
  dv_ready : ag_baseline_ready (delivery_aggregate e ch) = true;
  dv_pending : ag_snapshot_pending (delivery_aggregate e ch) = false;
  dv_gate : gate_held e ch = false;
  dv_repair : so_pending_repair stream = false;
}.

(** The scan after a chunk. *)
Definition scan_after (e : CellEmitter) (ch : Z) (chunk : list byte) : SyncOutputScan :=
  observe (default SyncOutputScan_default (em_scans e !! ch)) chunk.

Section cadence.
Context `{SinkTransport, WireSizes}.

Lemma aggregate_view e e' ch : same_view e e' -> delivery_aggregate e' ch = delivery_aggregate e ch.
Proof.
  intros (E1 & E2 & E3). unfold delivery_aggregate, aggregate_stream_delivery, active_sinks.
  by rewrite E1, E2, E3.
Qed.

Lemma deliverable_view e e' ch stream :
  same_view e e' -> em_emission_gates e' = em_emission_gates e ->
  deliverable e ch stream -> deliverable e' ch stream.
Proof.
  intros Hv Hg [D1 D2 D3 D4 D5 D6 D7]. constructor; rewrite ?(aggregate_view _ _ _ Hv); try done.
  - by destruct Hv as (_ & -> & _).
  - unfold gate_held in *. by rewrite Hg.
Qed.

(** An update of the deliverable stream that keeps its deliveries. *)
Lemma aggregate_flags e ch f :
  (forall s, so_deliveries (f s) = so_deliveries s) ->
  delivery_aggregate (alter_stream f ch e) ch = delivery_aggregate e ch.
Proof.
  intros Hf. unfold delivery_aggregate, aggregate_stream_delivery, active_sinks. cbn.
  rewrite lookup_alter_eq. destruct (em_streams e !! ch) as [s|]; [|done]. cbn. by rewrite Hf.
Qed.

Lemma unlatched_same e ch stream :
  deliverable e ch stream ->
  snd (take_repair_latch e ch) = false /\ em_log (fst (take_repair_latch e ch)) = em_log e
  /\ em_scans (fst (take_repair_latch e ch)) = em_scans e
  /\ em_holds (fst (take_repair_latch e ch)) = em_holds e
  /\ em_schedules (fst (take_repair_latch e ch)) = em_schedules e
  /\ em_woken (fst (take_repair_latch e ch)) = em_woken e
  /\ deliverable (fst (take_repair_latch e ch)) ch (with_pending_repair stream false).
Proof.
  intros [D1 D2 D3 D4 D5 D6 D7]. unfold take_repair_latch. rewrite D1. cbn [fst snd].
  split_and!; try done. constructor; rewrite ?aggregate_flags by done; try done.
  cbn. rewrite lookup_alter_eq, D1. done.
Qed.

(** The chunk reaches the rate governor. *)
Lemma ingest_scheduled e r chunk core now_ms now stream :
  deliverable e (sr_channel_id r) stream ->
  let r1 := with_core (note_output_time r now_ms) core in
  let e2 := fst (input_echo_armed (observe_sync_output e (sr_channel_id r) chunk) (sr_channel_id r) now_ms) in
  let echo := snd (input_echo_armed (observe_sync_output e (sr_channel_id r) chunk) (sr_channel_id r) now_ms) in
  let e3 := fst (take_repair_latch e2 (sr_channel_id r)) in
  ingest_pty_chunk e r chunk core false now_ms now
  = (match sync_output_action e3 r1 now with
     | (e4, Hold) =>
         (cancel_cell_emission
            (note_gate_suppression (note_dirty e4 (sr_channel_id r)) (sr_channel_id r) SyncOutputGate now_ms)
            (sr_channel_id r), r1)
     | (e4, Flush) => fst (emit_cell_frame e4 r1 false now_ms now)
     | (e4, Pass) => (fold_or_queue e4 (sr_channel_id r) (so_stream_id stream) echo, r1)
     end, true).
Proof.
  intros Hd. cbn zeta. unfold ingest_pty_chunk.
  set (r1 := with_core _ core). assert (Hch : sr_channel_id r1 = sr_channel_id r).
  { subst r1. unfold note_output_time. cbn. by destruct (_ =? 0). }
  rewrite Hch. set (ch := sr_channel_id r) in *. set (e1 := observe_sync_output e ch chunk).
  assert (Hv : same_view e (fst (input_echo_armed e1 ch now_ms))
               /\ em_emission_gates (fst (input_echo_armed e1 ch now_ms)) = em_emission_gates e).
  { unfold input_echo_armed. destruct (em_input_echo e1 !! ch); [|by split_and!].
    destruct (_ <? _); by split_and!. }
  destruct (input_echo_armed e1 ch now_ms) as [e2 echo]. cbn [fst snd] in *. destruct Hv as [Hv Hg].
  pose proof (deliverable_view _ _ _ _ Hv Hg Hd) as [D1 D2 D3 D4 D5 D6 D7].
  unfold route_chunk_to_cells. rewrite Hch, D1, D4, D5. pose proof D2 as [He Hcv]%andb_true_iff.
  rewrite He, Hcv. cbn [negb andb orb].
  assert (Hsched : schedule_cell_emission e2 r1 echo now_ms now
     = match sync_output_action (fst (take_repair_latch e2 ch)) r1 now with
       | (e4, Hold) =>
           (cancel_cell_emission (note_gate_suppression (note_dirty e4 ch) ch SyncOutputGate now_ms) ch, r1)
       | (e4, Flush) => fst (emit_cell_frame e4 r1 false now_ms now)
       | (e4, Pass) => (fold_or_queue e4 ch (so_stream_id stream) echo, r1)
       end).
  { unfold schedule_cell_emission, enabled_stream_id. rewrite Hch, D1, D2.
    rewrite (proj2 (Nat.eqb_neq _ _) D3), D4, D5, D6. cbn [negb orb].
    destruct (unlatched_same e2 ch stream) as (Hlatch & _); [by constructor|].
    destruct (take_repair_latch e2 ch) as [e3 latched]. cbn [fst snd] in *. subst latched.
    destruct (sync_output_action e3 r1 now) as [e4 []]; done. }
  rewrite Hsched. destruct (sync_output_action _ r1 now) as [e4 []]; [done|done|].
  by destruct (emit_cell_frame e4 r1 false now_ms now) as [[e5 r5] o].
Qed.

(** What the steps before the rate governor leave of the emitter. *)
Lemma before_governor e r chunk stream now_ms :
  deliverable e (sr_channel_id r) stream ->
  let ch := sr_channel_id r in
  let e3 := fst (take_repair_latch
                   (fst (input_echo_armed (observe_sync_output e ch chunk) ch now_ms)) ch) in
  em_log e3 = em_log e /\ em_scans e3 !! ch = Some (scan_after e ch chunk)
  /\ em_holds e3 = em_holds e /\ em_schedules e3 = em_schedules e /\ em_woken e3 = em_woken e
  /\ deliverable e3 ch (with_pending_repair stream false).
Proof.
  intros Hd. cbn zeta. set (ch := sr_channel_id r) in *. set (e1 := observe_sync_output e ch chunk).
  assert (He2 : forall e2, e2 = fst (input_echo_armed e1 ch now_ms) ->
            same_view e e2 /\ em_emission_gates e2 = em_emission_gates e /\ em_scans e2 = em_scans e1
            /\ em_holds e2 = em_holds e /\ em_schedules e2 = em_schedules e /\ em_woken e2 = em_woken e).
  { intros e2 ->. unfold input_echo_armed. destruct (em_input_echo e1 !! ch); [|by split_and!].
    destruct (_ <? _); by split_and!. }
  destruct (He2 _ eq_refl) as (Hv & Hg & Hs & Hh & Hsch & Hw).
  destruct (unlatched_same _ ch stream (deliverable_view _ _ _ _ Hv Hg Hd)) as (_ & -> & -> & -> & -> & -> & Hd').
  split_and!; try done; [by destruct Hv as (_ & _ & ->)|].
  rewrite Hs. subst e1. unfold observe_sync_output. cbn. by rewrite lookup_insert_eq.
Qed.

Lemma governed_record r now_ms core :
  sr_channel_id (with_core (note_output_time r now_ms) core) = sr_channel_id r
  /\ sr_terminal_core (with_core (note_output_time r now_ms) core) = core
  /\ sr_cell_emit (with_core (note_output_time r now_ms) core) = sr_cell_emit r.
Proof. unfold note_output_time. by destruct (_ =? 0). Qed.

(** A synchronized frame that opens is withheld, and its one second ceiling
    is told to nobody.  The chunk is parsed into the record and nothing reaches a
    sink; the channel is dirty, any queued emission is cancelled, and the only
    thing left that can release the output is the new hold's deadline, one
    [SYNC_OUTPUT_MAX_SILENT] from now.  But the permit the cadence waits on is
    what it was before the chunk: a driver that went to sleep without a deadline
    is not woken to learn this one. *)
Theorem sync_hold_opens_unwatched (e : CellEmitter) (r : SessionRecord) (chunk : list byte)
    (core : TerminalCore) (now_ms now : Z) (stream : StreamOutput)
    (Hd : deliverable e (sr_channel_id r) stream)
    (Hnone : em_holds e !! sr_channel_id r = None)
    (Hopen : open (scan_after e (sr_channel_id r) chunk) = true) :
  let ch := sr_channel_id r in
  let '(e', r', accepted) := ingest_pty_chunk e r chunk core false now_ms now in
  accepted = true /\ em_log e' = em_log e
  /\ sr_terminal_core r' = core /\ sr_cell_emit r' = sr_cell_emit r
  /\ is_dirty e' ch = true /\ em_schedules e' !! ch = None
  /\ sync_output_deadline e' ch = Some (now + SYNC_OUTPUT_MAX_SILENT)
  /\ em_woken e' = em_woken e.
Proof.
  cbn zeta. rewrite (ingest_scheduled _ _ _ _ _ _ _ Hd).
  destruct (before_governor e r chunk stream now_ms Hd) as (Hl & Hs & Hh & Hsch & Hw & _).
  destruct (governed_record r now_ms core) as (Hch & Hcore & Hemit).
  set (e3 := fst (take_repair_latch _ _)) in *. set (r1 := with_core _ _) in *.
  unfold sync_output_action. cbv zeta. rewrite Hch, Hs, Hh, Hopen, Hnone. cbn [negb].
  set (e5 := note_dirty _ _).
  assert (Hn : forall g, let e6 := note_gate_suppression e5 (sr_channel_id r) g now_ms in
            em_log e6 = em_log e5 /\ em_dirty e6 = em_dirty e5 /\ em_holds e6 = em_holds e5
            /\ em_woken e6 = em_woken e5).
  { intros g. cbn zeta. unfold note_gate_suppression.
    destruct (em_gates (attribute_gate e5 (sr_channel_id r) g now_ms) !! _); by split_and!. }
  destruct (Hn SyncOutputGate) as (N1 & N2 & N3 & N4).
  set (e6 := note_gate_suppression _ _ _ _) in *. unfold is_dirty, sync_output_deadline, cancel_cell_emission.
  cbn [em_log em_dirty em_holds em_woken em_schedules with_schedules].
  rewrite N1, N2, N3, N4. split_and!; try done.
  - subst e5. cbn. apply bool_decide_eq_true. set_solver.
  - apply lookup_delete_eq.
  - subst e5. unfold open_sync_hold. cbn [em_holds note_dirty with_dirty with_holds].
    by rewrite Hch, lookup_insert_eq.
Qed.

(** Why a core has no frame: it cannot count the lines it dropped, or a frame of
    it has no wire form. *)
Definition unbuildable_for (core : TerminalCore) (reason : BuildError) : Prop :=
  match reason with
  | CoreError _ => core_discarded_line_count core = None
  | WireError error =>
      exists state full frame state',
        next_cell_frame core state full (Some 0) = Ok (frame, state')
        /\ cell_frame_to_proto frame NO_SESSION_ID = Err error
  end.

(** An emission that reached the builder: a frame was built and committed, and
    one is refused only where [core] has none. *)
Definition built_outcome (core : TerminalCore) (outcome : FrameOutcome) : Prop :=
  match outcome with
  | FullFrame _ _ | DeltaFrame _ _ => True
  | WithheldFrame (Unbuildable reason) => unbuildable_for core reason
  | WithheldFrame _ => False
  end.

Lemma build_once_refused r full timings reason :
  build_once r full timings = Err reason -> unbuildable_for (sr_terminal_core r) reason.
Proof.
  unfold build_once. destruct (next_cell_frame _ _ _ _) as [[frame state]|error] eqn:E.
  - unfold frame_wire. destruct (cell_frame_to_proto frame NO_SESSION_ID) as [wire|error] eqn:Ew; [done|].
    intros [= <-]. by exists (sr_cell_emit r), full, frame, state.
  - intros [= <-]. cbn. unfold next_cell_frame, scrollback_origin in E.
    by destruct (core_discarded_line_count (sr_terminal_core r)).
Qed.

Lemma build_frame_refused r full now_ms reason :
  build_frame r full now_ms = Err reason -> unbuildable_for (sr_terminal_core r) reason.
Proof.
  unfold build_frame. destruct (build_once r full _) as [[[frame state] wire]|error] eqn:E.
  - destruct (_ && _); [|done]. destruct (build_once r true _) as [[[frame' state'] wire']|error] eqn:E'; [done|].
    intros [= <-]. by eapply build_once_refused.
  - intros [= <-]. by eapply build_once_refused.
Qed.

Lemma emit_built_outcome repair e r full_owed now_ms :
  built_outcome (sr_terminal_core r) (snd (emit_built repair e r full_owed now_ms)).
Proof.
  unfold emit_built. set (r0 := if _ && _ && _ then _ else _).
  assert (Hcore : sr_terminal_core r0 = sr_terminal_core r) by (subst r0; by destruct (_ && _ && _)).
  destruct (build_frame r0 full_owed now_ms) as [built|reason] eqn:E.
  - unfold commit_frame. destruct (f_full (bt_frame built)).
    + unfold commit_full. by destruct (install_baseline _ _ _ _ _) as [e' []].
    + unfold commit_delta. destruct (send_frame_to_active _ _ _ _) as [e' fanout].
      destruct (_ =? 0)%nat; [by destruct (repair _ _)|].
      destruct (0 <? _)%nat; [by destruct (repair _ _)|done].
  - cbn. rewrite <- Hcore. by eapply build_frame_refused.
Qed.

(** No synchronized frame holds the channel back: none is open and none was
    held, or the one that is open has outlived its ceiling. *)
Definition passing (e : CellEmitter) (ch : Z) : Prop :=
  match em_holds e !! ch with
  | None => synchronized_output e ch = false
  | Some hold =>
      sh_tripped hold = true
      /\ exists scan, em_scans e !! ch = Some scan /\ open scan = true
           /\ generation scan = sh_generation hold
  end.

Lemma passing_action e r now :
  passing e (sr_channel_id r) -> sync_output_action e r now = (e, Pass).
Proof.
  unfold passing, sync_output_action, synchronized_output.
  destruct (em_holds e !! sr_channel_id r) as [hold|].
  - intros (Ht & scan & -> & -> & ->). by rewrite Z.eqb_refl, Ht.
  - destruct (em_scans e !! sr_channel_id r) as [scan|]; [by intros ->|done].
Qed.

(** A stream that may deliver and is not held back is not withheld. *)
Lemma deliverable_emits e r stream force now_ms now :
  deliverable e (sr_channel_id r) stream -> passing e (sr_channel_id r) ->
  built_outcome (sr_terminal_core r) (snd (emit_cell_frame e r force now_ms now)).
Proof.
  intros [D1 D2 D3 D4 D5 D6 D7] Hp. unfold emit_cell_frame, EMIT_NESTING. cbn [emit_cell_frame_at].
  unfold emit_gated. rewrite D1, D2, (proj2 (Nat.eqb_neq _ _) D3), D4, D5, D6, andb_false_r. cbn [negb].
  rewrite (passing_action _ _ _ Hp). apply emit_built_outcome.
Qed.

(** The emission a chunk leaves queued: new and announced, or already there. *)
Lemma fold_or_queue_queued e ch stream_id echo :
  exists schedule, em_schedules (fold_or_queue e ch stream_id echo) !! ch = Some schedule
    /\ sch_stream_id schedule = stream_id
    /\ (sch_cooldown_until schedule = None /\ em_woken (fold_or_queue e ch stream_id echo) = true
        \/ em_schedules e !! ch = Some schedule /\ is_dirty (fold_or_queue e ch stream_id echo) ch = true).
Proof.
  assert (Hq : forall e', exists schedule,
            em_schedules (queue_leading e' ch stream_id) !! ch = Some schedule
            /\ sch_stream_id schedule = stream_id
            /\ sch_cooldown_until schedule = None /\ em_woken (queue_leading e' ch stream_id) = true).
  { intros e'. exists (mkCellEmissionSchedule stream_id None). unfold queue_leading. cbn.
    by rewrite lookup_insert_eq. }
  unfold fold_or_queue. destruct (em_schedules e !! ch) as [pending|] eqn:E.
  - destruct (String.eqb_spec (sch_stream_id pending) stream_id) as [Heq|]; cbn [negb].
    + destruct (_ || _).
      * exists pending. split_and!; [done|done|right; split; [done|]].
        unfold is_dirty. cbn. apply bool_decide_eq_true. set_solver.
      * destruct (Hq (cancel_cell_emission (note_dirty e ch) ch)) as (s & Q1 & Q2 & Q3).
        exists s. by split_and!; [..|left].
    + destruct (Hq (cancel_cell_emission e ch)) as (s & Q1 & Q2 & Q3).
      exists s. by split_and!; [..|left].
  - destruct (Hq e) as (s & Q1 & Q2 & Q3). exists s. by split_and!; [..|left].
Qed.

(** The permit is never taken back. *)
Lemma fold_or_queue_woken e ch stream_id echo :
  em_woken (fold_or_queue e ch stream_id echo)
  = match em_schedules e !! ch with
    | None => true
    | Some pending => negb (String.eqb (sch_stream_id pending) stream_id)
                      || (echo && bool_decide (is_Some (sch_cooldown_until pending))) || em_woken e
    end.
Proof.
  unfold fold_or_queue. destruct (em_schedules e !! ch) as [pending|]; [|done].
  destruct (negb _); [done|]. destruct echo, (sch_cooldown_until pending); done.
Qed.

Lemma fold_or_queue_same e ch stream_id echo :
  let e' := fold_or_queue e ch stream_id echo in
  same_view e e' /\ em_emission_gates e' = em_emission_gates e /\ em_holds e' = em_holds e
  /\ em_scans e' = em_scans e.
Proof.
  cbn zeta. unfold fold_or_queue. destruct (em_schedules e !! ch); [|by split_and!].
  destruct (negb _); [by split_and!|]. destruct (_ || _); by split_and!.
Qed.

(** A due emission of a stream that may deliver is performed. *)
Lemma due_emission_runs e r stream schedule now_ms now :
  deliverable e (sr_channel_id r) stream -> passing e (sr_channel_id r) ->
  em_schedules e !! sr_channel_id r = Some schedule -> sch_stream_id schedule = so_stream_id stream ->
  (sch_cooldown_until schedule = None \/ is_dirty e (sr_channel_id r) = true) ->
  default now (sch_cooldown_until schedule) <= now ->
  let e0 := cancel_cell_emission e (sr_channel_id r) in
  run_schedule e r now_ms now
  = (let '(e1, r1, _) := emit_cell_frame e0 r false now_ms now in
     (arm_trailing_cooldown e1 (sr_channel_id r) (so_stream_id stream) now (sch_cooldown_until schedule), r1))
  /\ built_outcome (sr_terminal_core r) (snd (emit_cell_frame e0 r false now_ms now)).
Proof.
  intros Hd Hp Hsch Hid Hdue Hnow. cbv zeta. set (ch := sr_channel_id r) in *.
  assert (Hd0 : deliverable (cancel_cell_emission e ch) ch stream)
    by (apply (deliverable_view e); [by split_and!|done|done]).
  split; [|by apply (deliverable_emits _ _ stream)]. pose proof Hd0 as [D1 D2 D3 D4 D5 D6 D7].
  assert (Hlive : has_live_current_stream (cancel_cell_emission e ch) ch (sch_stream_id schedule) = true).
  { unfold has_live_current_stream, enabled_stream_id. rewrite D1, D2, Hid. by apply bool_decide_eq_true. }
  assert (Hrearm : may_rearm (cancel_cell_emission e ch) ch (sch_stream_id schedule) = true).
  { unfold may_rearm. rewrite Hlive, (proj2 (Nat.eqb_neq _ _) D3), D4, D5, D6. unfold repair_latched.
    rewrite D1, D7. unfold sync_output_permits_rearm, cancel_cell_emission. cbn [em_holds with_schedules].
    unfold passing in Hp. fold ch in Hp. destruct (em_holds e !! ch); [by destruct Hp as [-> _]|done]. }
  unfold run_schedule. fold ch. cbv zeta. rewrite Hsch, Hrearm, Hlive, Hid.
  destruct (sch_cooldown_until schedule) as [due|]; cbn [default] in Hnow.
  - destruct Hdue as [|Hdirty]; [done|]. rewrite (proj2 (Z.ltb_ge now due) Hnow).
    change (is_dirty (cancel_cell_emission e ch) ch) with (is_dirty e ch). rewrite Hdirty. cbn [negb orb].
    by destruct (emit_cell_frame _ r false now_ms now) as [[e1 r1] o].
  - cbn [negb orb]. by destruct (emit_cell_frame _ r false now_ms now) as [[e1 r1] o].
Qed.

(** ** The verdicts *)

(** What a pass at or after a due emission does. *)
Definition builds_when_due (core : TerminalCore) (e : CellEmitter) (r : SessionRecord)
    (schedule : CellEmissionSchedule) : Prop :=
  let ch := sr_channel_id r in
  forall now_ms now, default now (sch_cooldown_until schedule) <= now ->
    built_outcome core (snd (emit_cell_frame (cancel_cell_emission e ch) r false now_ms now))
    /\ run_schedule e r now_ms now
       = (let '(e', r', _) := emit_cell_frame (cancel_cell_emission e ch) r false now_ms now in
          (arm_trailing_cooldown e' ch (sch_stream_id schedule) now (sch_cooldown_until schedule), r')).

(** The output waits for a queued emission: a new leading one, which the cadence
    is told of, or the one that was queued already, with the channel dirty. *)
Definition output_queued (core : TerminalCore) (stream_id : string) (before e : CellEmitter)
    (r : SessionRecord) : Prop :=
  let ch := sr_channel_id r in
  exists schedule, em_schedules e !! ch = Some schedule
    /\ sch_stream_id schedule = stream_id
    /\ (sch_cooldown_until schedule = None /\ em_woken e = true
        \/ em_schedules before !! ch = Some schedule /\ is_dirty e ch = true
           /\ (em_woken before = true -> em_woken e = true))
    /\ builds_when_due core e r schedule.

(** The output waits for a synchronized frame to end, at the latest [by_then]. *)
Definition output_held (core : TerminalCore) (by_then : Z) (e : CellEmitter) (r : SessionRecord) : Prop :=
  let ch := sr_channel_id r in
  is_dirty e ch = true /\ em_schedules e !! ch = None
  /\ exists due, sync_output_deadline e ch = Some due /\ due <= by_then
    /\ forall now_ms now, due <= now ->
         let tripped := trip_sync_output_hold e ch in
         fire_sync_output_ceiling e r now_ms now
         = fst (emit_cell_frame tripped r (sync_snapshot_owed tripped ch) now_ms now)
         /\ built_outcome core
              (snd (emit_cell_frame tripped r (sync_snapshot_owed tripped ch) now_ms now)).

(** Holds that opened by [now] and have not outlived their ceiling. *)
Definition hold_timed (e : CellEmitter) (ch now : Z) : Prop :=
  forall hold, em_holds e !! ch = Some hold -> sh_tripped hold = false ->
    exists since, open_since (sh_ceilings hold) = Some since /\ since <= now.

(** Only the holds and their gates change. *)
Definition holds_only (e e' : CellEmitter) : Prop :=
  same_view e e' /\ em_emission_gates e' = em_emission_gates e /\ em_schedules e' = em_schedules e
  /\ em_woken e' = em_woken e /\ em_scans e' = em_scans e /\ em_dirty e' = em_dirty e.

Lemma release_holds_only e ch : holds_only e (release_sync_output_hold e ch).
Proof.
  unfold release_sync_output_hold. destruct (em_holds e !! ch); [|by split_and!]. cbv zeta.
  case_match; [case_decide|]; by split_and!.
Qed.

Lemma released e ch : em_holds (release_sync_output_hold e ch) !! ch = None.
Proof.
  unfold release_sync_output_hold. destruct (em_holds e !! ch) eqn:E; [|done]. cbv zeta.
  case_match; [case_decide|]; cbn; apply lookup_delete_eq.
Qed.

Lemma trip_holds_only e ch : holds_only e (trip_sync_output_hold e ch).
Proof.
  unfold trip_sync_output_hold. destruct (em_holds e !! ch); [|by split_and!]. cbv zeta.
  case_match; [case_decide|]; by split_and!.
Qed.

Lemma tripped_hold e ch hold :
  em_holds e !! ch = Some hold ->
  em_holds (trip_sync_output_hold e ch) !! ch
  = Some (mkChannelSyncHold (sh_generation hold) (sh_sb_total_at_open hold) (sh_ceilings hold) true).
Proof.
  intros E. unfold trip_sync_output_hold. rewrite E. cbv zeta.
  case_match; [case_decide|]; cbn; apply lookup_insert_eq.
Qed.

Lemma released_passing e ch :
  synchronized_output e ch = false -> passing (release_sync_output_hold e ch) ch.
Proof.
  intros Hs. unfold passing. rewrite released. unfold synchronized_output in *.
  by destruct (release_holds_only e ch) as (_ & _ & _ & _ & -> & _).
Qed.

(** A hold whose generation the open scan still carries lets a pass through
    once it is tripped. *)
Lemma tripped_passing e ch hold scan :
  em_holds e !! ch = Some hold -> em_scans e !! ch = Some scan -> open scan = true ->
  sh_generation hold = generation scan -> passing (trip_sync_output_hold e ch) ch.
Proof.
  intros Eh Es Eo Eg. unfold passing. rewrite (tripped_hold _ _ _ Eh). split; [done|]. exists scan.
  destruct (trip_holds_only e ch) as (_ & _ & _ & _ & -> & _). by split_and!.
Qed.

Lemma deliverable_holds e e' ch stream : holds_only e e' -> deliverable e ch stream -> deliverable e' ch stream.
Proof. intros (Hv & Hg & _). by apply deliverable_view. Qed.

(** An untripped hold of the open generation, whose ceiling is not later than
    one full wait from now. *)
Definition waiting (e : CellEmitter) (ch now : Z) : Prop :=
  exists hold scan, em_holds e !! ch = Some hold /\ sh_tripped hold = false
    /\ em_scans e !! ch = Some scan /\ open scan = true /\ sh_generation hold = generation scan
    /\ exists since, open_since (sh_ceilings hold) = Some since /\ since <= now.

(** What the scan decides of the hold. *)
Lemma action_cases e r now :
  hold_timed e (sr_channel_id r) now ->
  holds_only e (fst (sync_output_action e r now))
  /\ match snd (sync_output_action e r now) with
     | Hold => waiting (fst (sync_output_action e r now)) (sr_channel_id r) now
     | Flush => passing (fst (sync_output_action e r now)) (sr_channel_id r)
                /\ is_Some (em_holds e !! sr_channel_id r)
     | Pass => passing (fst (sync_output_action e r now)) (sr_channel_id r)
     end.
Proof.
  intros Htimed. unfold sync_output_action. set (ch := sr_channel_id r) in *.
  assert (Hopens : forall e0 generation, holds_only e e0 -> holds_only e (open_sync_hold e0 r generation now))
    by (intros ? ? (? & ? & ? & ? & ? & ?); by split_and!).
  assert (Hown : holds_only e e) by by split_and!.
  assert (Hnew : forall e0 scan, em_scans e0 !! ch = Some scan -> open scan = true ->
            waiting (open_sync_hold e0 r (generation scan) now) ch now).
  { intros e0 scan Es Eo. unfold waiting, open_sync_hold. cbn. fold ch. rewrite lookup_insert_eq.
    eexists _, scan. split_and!; [done..|]. exists now. split; [done|lia]. }
  destruct (em_scans e !! ch) as [scan|] eqn:Es; [destruct (open scan) eqn:Eo|]; cbn [negb];
    destruct (em_holds e !! ch) as [hold|] eqn:Eh; cbn [fst snd].
  - destruct (Z.eqb_spec (sh_generation hold) (generation scan)) as [Eg|Eg].
    + destruct (sh_tripped hold) eqn:Et; cbn [fst snd].
      * split; [done|]. unfold passing. rewrite Eh. split; [done|]. by exists scan.
      * destruct (Htimed hold Eh Et) as (since & Hsince & Hle). cbv zeta.
        set (ceilings := measure_pending _ _). set (e1 := with_holds e _).
        assert (Hc : open_since ceilings = Some since)
          by (unfold ceilings, measure_pending, is_open; rewrite Hsince; done).
        assert (He1 : holds_only e e1) by by split_and!.
        assert (Eh1 : em_holds e1 !! ch
                      = Some (mkChannelSyncHold (generation scan) (sh_sb_total_at_open hold) ceilings false))
          by (subst e1; cbn; apply lookup_insert_eq).
        destruct (rows_exceeded ceilings); cbn [negb fst snd].
        -- split; [|split; [by eapply tripped_passing|done]].
           by destruct (trip_holds_only e1 ch) as (H1 & H2 & H3 & H4 & H5 & H6).
        -- split; [done|]. eexists _, scan. split_and!; [done..|]. by exists since.
    + destruct (sh_tripped hold) eqn:Et; cbn [negb fst snd].
      * destruct (release_holds_only e ch) as (H1 & H2 & H3 & H4 & H5 & H6).
        split; [apply Hopens; by split_and!|]. apply Hnew; [by rewrite H5|done].
      * destruct (Htimed hold Eh Et) as (since & Hsince & Hle). split; [by split_and!|].
        eexists _, scan. cbn. rewrite lookup_insert_eq. split_and!; [done..|]. by exists since.
  - split; [by apply Hopens|]. by apply Hnew.
  - cbv zeta. split; [apply release_holds_only|].
    pose proof (released_passing e ch) as Hp. unfold synchronized_output in Hp. rewrite Es in Hp.
    destruct (_ || _); [split; [by apply Hp|done]|by apply Hp].
  - split; [done|]. unfold passing, synchronized_output. by rewrite Eh, Es.
  - cbv zeta. split; [apply release_holds_only|].
    pose proof (released_passing e ch) as Hp. unfold synchronized_output in Hp. rewrite Es in Hp.
    destruct (_ || _); [split; [by apply Hp|done]|by apply Hp].
  - split; [done|]. unfold passing, synchronized_output. by rewrite Eh, Es.
Qed.

(** Output the hold lets pass is queued. *)
Lemma passing_queued e r stream echo :
  deliverable e (sr_channel_id r) stream -> passing e (sr_channel_id r) ->
  output_queued (sr_terminal_core r) (so_stream_id stream) e
    (fold_or_queue e (sr_channel_id r) (so_stream_id stream) echo) r.
Proof.
  intros Hd Hp. set (ch := sr_channel_id r) in *. set (id := so_stream_id stream).
  destruct (fold_or_queue_queued e ch id echo) as (schedule & F1 & F2 & F3).
  destruct (fold_or_queue_same e ch id echo) as (Hv & Hg & Hh & Hs).
  exists schedule. fold ch. split_and!; [done|done| |].
  - destruct F3 as [?|[Hold ?]]; [by left|right]. split_and!; [done..|]. intros Hw.
    rewrite fold_or_queue_woken, Hold, Hw. apply orb_true_r.
  - intros now_ms now Hdue. fold ch. rewrite F2.
    destruct (due_emission_runs (fold_or_queue e ch id echo) r stream schedule now_ms now) as [Hrun Hb]; try done.
    + by eapply deliverable_view.
    + fold ch. unfold passing, synchronized_output in *. by rewrite Hh, Hs.
    + fold ch. destruct F3 as [[? _]|[_ ?]]; [by left|by right].
Qed.

(** Output behind an open frame is held. *)
Lemma waiting_held e r stream now_ms now :
  deliverable e (sr_channel_id r) stream -> waiting e (sr_channel_id r) now ->
  let ch := sr_channel_id r in
  let e' := cancel_cell_emission
              (note_gate_suppression (note_dirty e ch) ch SyncOutputGate now_ms) ch in
  output_held (sr_terminal_core r) (now + SYNC_OUTPUT_MAX_SILENT) e' r /\ em_log e' = em_log e.
Proof.
  intros Hd (hold & scan & Eh & Et & Es & Eo & Eg & since & Hsince & Hle) ch e'. fold ch in Hd, Eh, Es.
  assert (Hsame : same_view e e' /\ em_emission_gates e' = em_emission_gates e /\ em_holds e' = em_holds e
            /\ em_scans e' = em_scans e /\ em_dirty e' = em_dirty (note_dirty e ch)
            /\ em_schedules e' !! ch = None).
  { subst e'. unfold note_gate_suppression, cancel_cell_emission.
    case_match; cbn; split_and!; by rewrite ?lookup_delete_eq. }
  destruct Hsame as (Hv & Hg & Hh & Hs & Hdirty & Hsch).
  split; [|by destruct Hv as (_ & _ & ->)]. unfold output_held. fold ch. split_and!; [|done|].
  - unfold is_dirty. rewrite Hdirty. cbn. apply bool_decide_eq_true. set_solver.
  - exists (since + SYNC_OUTPUT_MAX_SILENT).
    assert (Hdl : sync_output_deadline e' ch = Some (since + SYNC_OUTPUT_MAX_SILENT))
      by (unfold sync_output_deadline, hold_deadline; by rewrite Hh, Eh, Et, Hsince).
    split_and!; [done|lia|]. intros now_ms' now' Hdue. cbv zeta. split.
    + unfold fire_sync_output_ceiling. fold ch. rewrite Hdl. cbv zeta.
      by rewrite (proj2 (Z.leb_le _ _) Hdue).
    + apply (deliverable_emits _ _ stream); fold ch.
      * apply (deliverable_holds e'); [apply trip_holds_only|]. by apply (deliverable_view e).
      * apply (tripped_passing e' ch hold scan); by rewrite ?Hh, ?Hs.
Qed.

End cadence.

(** ** Small runs *)

#[local] Existing Instances demo_wire demo_transport demo_transport_laws.

Definition deliverable_check `{SinkTransport} (e : CellEmitter) (ch : Z) : bool :=
  match em_streams e !! ch with
  | Some stream =>
      live_stream stream && negb (ag_active_sinks (delivery_aggregate e ch) =? 0)%nat
      && ag_baseline_ready (delivery_aggregate e ch)
      && negb (ag_snapshot_pending (delivery_aggregate e ch))
      && negb (gate_held e ch) && negb (so_pending_repair stream)
  | None => false
  end.

Lemma deliverable_checked `{SinkTransport} e ch :
  deliverable_check e ch = true -> exists stream, deliverable e ch stream.
Proof.
  unfold deliverable_check. destruct (em_streams e !! ch) as [stream|] eqn:E; [|done].
  rewrite !andb_true_iff, !negb_true_iff, Nat.eqb_neq. intros [[[[[? ?] ?] ?] ?] ?]. by exists stream.
Qed.

(** Two sinks hold a baseline; the trailing window is open. *)
Definition demo_settled : World := world_run (mkWorld CellEmitter_new demo_records) (take 4 demo_ops).

Definition demo_record : SessionRecord :=
  default (blank_record 7) (wd_records demo_settled !! 7).

(** The application opens a synchronized frame and says no more. *)
Lemma sync_hold_opens_unwatched_witness :
  let '(e', r', _) :=
    ingest_pty_chunk (with_woken (wd_emitter demo_settled) false) demo_record
      (ESC :: bytes_of "[?2026h") (demo_core [] [99; 98] [0]) false 200 200000000 in
  sync_output_deadline e' 7 = Some 1200000000 /\ em_woken e' = false /\ is_dirty e' 7 = true.
Proof.
  destruct (deliverable_checked (with_woken (wd_emitter demo_settled) false) (sr_channel_id demo_record))
    as [stream Hd]; [by vm_compute|].
  pose proof (sync_hold_opens_unwatched _ _ (ESC :: bytes_of "[?2026h") (demo_core [] [99; 98] [0])
                200 200000000 stream Hd) as Hheld.
  cbn zeta in Hheld. specialize (Hheld ltac:(by vm_compute) ltac:(by vm_compute)).
  assert (Hch : sr_channel_id demo_record = 7) by by vm_compute. rewrite Hch in Hheld.
  destruct (ingest_pty_chunk _ _ _ _ _ _ _) as [[e' r'] accepted].
  destruct Hheld as (_ & _ & _ & _ & H1 & _ & H2 & H3). by split_and!.
Defined.

