(* ===== verification/LayoutEdit.v ===== *)
(** * LayoutEdit: the arrangement of panes in a folder, and its edits

    Models [src/crates/roost-client-core/src/store/layout]: the tree of panes
    with its walkers and the repairs of ratios and focus ([tree.rs], and the
    [PaneIdSource] of [mod.rs]); every edit of it ([tree_edit.rs]: each returns
    a tree, unchanged when the gesture does not apply); the presets
    ([presets.rs]); and the command mapper
    [src/crates/roost-client-core/src/client/ui_command/layout_map.rs].  A [f64]
    is the Standard Library's specification of a binary64 number. *)
From Stdlib Require Import SpecFloat.
From stdpp Require Export strings.
From S2P Require Export Prelude.

(** ** Binary64 numbers *)

Definition f64 : Type := spec_float.

Definition f64_lt (x y : f64) : bool := SFltb x y.
Definition f64_le (x y : f64) : bool := SFleb x y.
Definition f64_add (x y : f64) : f64 := SFadd 53 1024 x y.
Definition f64_sub (x y : f64) : f64 := SFsub 53 1024 x y.
Definition f64_mul (x y : f64) : f64 := SFmul 53 1024 x y.
Definition f64_div (x y : f64) : f64 := SFdiv 53 1024 x y.

(** [n as f64]. *)
Definition f64_of_usize (n : nat) : f64 := binary_normalize 53 1024 (Z.of_nat n) 0 false.

Definition f64_zero : f64 := S754_zero false.

Definition is_nan (x : f64) : bool := match x with S754_nan => true | _ => false end.

Definition is_finite (x : f64) : bool :=
  match x with S754_zero _ | S754_finite _ _ _ => true | _ => false end.

(** [f64::max] and [f64::clamp]. *)
Definition f64_max (x y : f64) : f64 := if is_nan x then y else if f64_lt x y then y else x.

Definition f64_clamp (x low high : f64) : f64 :=
  if f64_lt x low then low else if f64_lt high x then high else x.

(** [0.1], [0.9] and [2.0]. *)
Definition LAYOUT_RATIO_MIN : f64 := S754_finite false 7205759403792794 (-56).
Definition LAYOUT_RATIO_MAX : f64 := S754_finite false 8106479329266893 (-53).
Definition f64_two : f64 := S754_finite false 4503599627370496 (-51).

(** ** Data *)

Inductive LayoutDirection := Row | Col | OtherDirection (value : string).

#[global] Instance LayoutDirection_eq_dec : EqDecision LayoutDirection.
Proof. solve_decision. Defined.

Record PaneLeaf := mkPaneLeaf { pane_id : string; tabs : list string; selected_tab : string }.

Inductive PaneNode :=
| Leaf (leaf : PaneLeaf)
| Split (id : string) (direction : LayoutDirection) (ratio : f64) (a b : PaneNode).

Record PaneLayout := mkPaneLayout { root : PaneNode; focused_pane_id : string }.

Record FlatTab := mkFlatTab { ft_tab_id : string; ft_pane_id : string }.

(** A host's source of runtime ids. *)
Class PaneIdSource (Ids : Type) := mint_pane_id : Ids -> string * Ids.

(** ** Walkers *)

Fixpoint all_leaves (node : PaneNode) : list PaneLeaf :=
  match node with
  | Leaf leaf => [leaf]
  | Split _ _ _ a b => all_leaves a ++ all_leaves b
  end.

Fixpoint find_leaf (node : PaneNode) (id : string) : option PaneLeaf :=
  match node with
  | Leaf leaf => if decide (pane_id leaf = id) then Some leaf else None
  | Split _ _ _ a b =>
      match find_leaf a id with Some leaf => Some leaf | None => find_leaf b id end
  end.

Fixpoint find_leaf_of_tab (node : PaneNode) (tab : string) : option PaneLeaf :=
  match node with
  | Leaf leaf => if decide (tab ∈ tabs leaf) then Some leaf else None
  | Split _ _ _ a b =>
      match find_leaf_of_tab a tab with Some leaf => Some leaf | None => find_leaf_of_tab b tab end
  end.

Definition flat_tabs (node : PaneNode) : list FlatTab :=
  all_leaves node ≫= fun leaf => (fun tab => mkFlatTab tab (pane_id leaf)) <$> tabs leaf.

Definition first_occupied (leaves : list PaneLeaf) : option PaneLeaf :=
  head (base.filter (fun leaf => tabs leaf <> []) leaves).

Definition compact_leaf_for_layout (layout : PaneLayout) (active_session_id : option string) :
    option PaneLeaf :=
  let active_leaf := active_session_id ≫= find_leaf_of_tab (root layout) in
  match active_leaf, first_occupied (all_leaves (root layout)),
        find_leaf (root layout) (focused_pane_id layout) with
  | Some leaf, _, _ => Some leaf
  | None, Some leaf, _ => Some leaf
  | None, None, Some leaf => Some leaf
  | None, None, None => head (all_leaves (root layout))
  end.

Fixpoint first_leaf (node : PaneNode) : PaneLeaf :=
  match node with Leaf leaf => leaf | Split _ _ _ a _ => first_leaf a end.

(** ** Construction and repair *)

Definition default_layout `{PaneIdSource Ids} (session_ids : list string) (ids : Ids) : PaneLayout * Ids :=
  let '(id, ids) := mint_pane_id ids in
  (mkPaneLayout (Leaf (mkPaneLeaf id session_ids (default EmptyString (head session_ids)))) id, ids).

Fixpoint update_leaf (node : PaneNode) (id : string) (edit : PaneLeaf -> PaneNode) : PaneNode :=
  match node with
  | Leaf leaf => if decide (pane_id leaf = id) then edit leaf else node
  | Split split_id direction ratio a b =>
      Split split_id direction ratio (update_leaf a id edit) (update_leaf b id edit)
  end.

Definition normalize_pane_ratio (ratio : f64) : f64 :=
  match ratio with
  | S754_nan => f64_div (f64_add LAYOUT_RATIO_MIN LAYOUT_RATIO_MAX) f64_two
  | S754_infinity false => LAYOUT_RATIO_MAX
  | S754_infinity true => LAYOUT_RATIO_MIN
  | _ => f64_clamp ratio LAYOUT_RATIO_MIN LAYOUT_RATIO_MAX
  end.

Fixpoint set_ratio (node : PaneNode) (split_id : string) (ratio : f64) : PaneNode :=
  match node with
  | Leaf _ => node
  | Split id direction held a b =>
      Split id direction (if decide (id = split_id) then normalize_pane_ratio ratio else held)
        (set_ratio a split_id ratio) (set_ratio b split_id ratio)
  end.

(** [leaf.tabs.iter().position(|held| held == tab)]. *)
Fixpoint position (tab : string) (l : list string) : option nat :=
  match l with
  | [] => None
  | held :: rest => if decide (held = tab) then Some 0%nat else S <$> position tab rest
  end.

Definition without (tab : string) (l : list string) : list string :=
  base.filter (fun held => held <> tab) l.

Definition remove_tab_from_leaf (leaf : PaneLeaf) (tab : string) : PaneLeaf :=
  match position tab (tabs leaf) with
  | None => leaf
  | Some index =>
      let kept := without tab (tabs leaf) in
      let selected :=
        if decide (selected_tab leaf = tab) then
          match kept !! index, kept !! (index - 1)%nat, head kept with
          | Some next, _, _ => next
          | None, Some before, _ => before
          | None, None, Some first => first
          | None, None, None => EmptyString
          end
        else selected_tab leaf in
      mkPaneLeaf (pane_id leaf) kept selected
  end.

Fixpoint remove_tab_everywhere (node : PaneNode) (tab : string) : PaneNode :=
  match node with
  | Leaf leaf => Leaf (remove_tab_from_leaf leaf tab)
  | Split id direction ratio a b =>
      Split id direction ratio (remove_tab_everywhere a tab) (remove_tab_everywhere b tab)
  end.

Definition is_collapsible_empty (node : PaneNode) (collapsible : gset string) : bool :=
  match node with
  | Leaf leaf => bool_decide (tabs leaf = []) && bool_decide (pane_id leaf ∈ collapsible)
  | Split _ _ _ _ _ => false
  end.

Fixpoint collapse_empties (node : PaneNode) (collapsible : gset string) : PaneNode :=
  match node with
  | Leaf _ => node
  | Split id direction ratio a b =>
      let first := collapse_empties a collapsible in
      let second := collapse_empties b collapsible in
      if is_collapsible_empty first collapsible then second
      else if is_collapsible_empty second collapsible then first
      else Split id direction ratio first second
  end.

Fixpoint normalize_split_ratios (node : PaneNode) : PaneNode :=
  match node with
  | Leaf _ => node
  | Split id direction ratio a b =>
      Split id direction (normalize_pane_ratio ratio) (normalize_split_ratios a) (normalize_split_ratios b)
  end.

Definition fix_focus (node : PaneNode) (preferred : string) : string :=
  match find_leaf node preferred with
  | Some _ => preferred
  | None => pane_id (first_leaf node)
  end.

(** ** [tree_edit.rs] *)

(** [map_leaves], its closure's captured state passed along. *)
Fixpoint map_leaves {S} (edit : S -> PaneLeaf -> S * PaneLeaf) (state : S) (node : PaneNode) :
    S * PaneNode :=
  match node with
  | Leaf leaf => let '(state, leaf) := edit state leaf in (state, Leaf leaf)
  | Split id direction ratio a b =>
      let '(state, a) := map_leaves edit state a in
      let '(state, b) := map_leaves edit state b in
      (state, Split id direction ratio a b)
  end.

(** The closure of [reconcile]; the state is [emptied_by_prune]. *)
Definition prune_leaf (live : list string) (emptied : gset string) (leaf : PaneLeaf) :
    gset string * PaneLeaf :=
  let kept := base.filter (fun tab => tab ∈ live) (tabs leaf) in
  if (length kept =? length (tabs leaf))%nat then (emptied, leaf)
  else
    let emptied :=
      if bool_decide (tabs leaf <> []) && bool_decide (kept = [])
      then {[pane_id leaf]} ∪ emptied else emptied in
    let selected :=
      if decide (selected_tab leaf ∈ live) then selected_tab leaf
      else default EmptyString (head kept) in
    (emptied, mkPaneLeaf (pane_id leaf) kept selected).

Definition append_orphans (orphans : list string) (leaf : PaneLeaf) : PaneNode :=
  Leaf (mkPaneLeaf (pane_id leaf) (tabs leaf ++ orphans)
          (if decide (selected_tab leaf = EmptyString)
           then default EmptyString (head orphans) else selected_tab leaf)).

Definition reconcile (layout : PaneLayout) (live_ids : list string) : PaneLayout :=
  let '(emptied, pruned) :=
    map_leaves (prune_leaf live_ids) ∅ (normalize_split_ratios (root layout)) in
  let tree := collapse_empties pruned emptied in
  let placed := all_leaves tree ≫= tabs in
  let orphans := base.filter (fun session => session ∉ placed) live_ids in
  let focused := fix_focus tree (focused_pane_id layout) in
  let tree :=
    match orphans with
    | [] => tree
    | _ => update_leaf tree focused (append_orphans orphans)
    end in
  mkPaneLayout tree focused.

Definition is_portable (direction : LayoutDirection) : bool :=
  match direction with Row | Col => true | OtherDirection _ => false end.

(** [source_pane_id.into_iter().collect()]. *)
Definition pane_of_tab (node : PaneNode) (tab : string) : gset string :=
  match find_leaf_of_tab node tab with Some leaf => {[pane_id leaf]} | None => ∅ end.

(** [0.5]. *)
Definition f64_half : f64 := SpecFloat.S754_finite false 4503599627370496 (-53).

Definition split_with (split_id new_pane_id moving_tab : string) (direction : LayoutDirection)
    (insert_first : bool) (leaf : PaneLeaf) : PaneNode :=
  let kept := Leaf leaf in
  let moved := Leaf (mkPaneLeaf new_pane_id [moving_tab] moving_tab) in
  let '(first, second) := if insert_first then (moved, kept) else (kept, moved) in
  Split split_id direction f64_half first second.

Definition split_leaf `{PaneIdSource Ids} (layout : PaneLayout) (target_pane_id : string)
    (direction : LayoutDirection) (moving_tab : string) (insert_first : bool) (ids : Ids) :
    PaneLayout * Ids :=
  if negb (is_portable direction) then (layout, ids)
  else
    match find_leaf (root layout) target_pane_id with
    | None => (layout, ids)
    | Some target =>
        let source_pane_id := pane_id <$> find_leaf_of_tab (root layout) moving_tab in
        if bool_decide (source_pane_id = Some target_pane_id) && (length (tabs target) <=? 1)%nat
        then (layout, ids)
        else
          let '(new_pane_id, ids) := mint_pane_id ids in
          let '(split_id, ids) := mint_pane_id ids in
          let tree :=
            collapse_empties
              (update_leaf (remove_tab_everywhere (root layout) moving_tab) target_pane_id
                 (split_with split_id new_pane_id moving_tab direction insert_first))
              (pane_of_tab (root layout) moving_tab) in
          (mkPaneLayout tree new_pane_id, ids)
    end.

(** [Vec::insert] at an index within bounds. *)
Definition insert_at (index : nat) (tab : string) (l : list string) : list string :=
  take index l ++ tab :: drop index l.

Definition insertion_point (index : option nat) (l : list string) : nat :=
  match index with Some wanted => Nat.min wanted (length l) | None => length l end.

Definition move_within (l : list string) (tab : string) (index : option nat) : list string :=
  let rest := without tab l in
  insert_at (insertion_point index rest) tab rest.

Definition reorder_tab (layout : PaneLayout) (id : string) (ordered_tabs : list string) : PaneLayout :=
  mkPaneLayout
    (update_leaf (root layout) id
       (fun leaf => Leaf (mkPaneLeaf (pane_id leaf) ordered_tabs (selected_tab leaf))))
    (focused_pane_id layout).

Definition move_tab (layout : PaneLayout) (tab to_pane_id : string) (index : option nat) : PaneLayout :=
  match find_leaf (root layout) to_pane_id with
  | None => layout
  | Some target =>
      if decide (pane_id <$> find_leaf_of_tab (root layout) tab = Some to_pane_id)
      then reorder_tab layout to_pane_id (move_within (tabs target) tab index)
      else
        let destination := insert_at (insertion_point index (tabs target)) tab (tabs target) in
        let tree :=
          collapse_empties
            (update_leaf (remove_tab_everywhere (root layout) tab) to_pane_id
               (fun leaf => Leaf (mkPaneLeaf (pane_id leaf) destination tab)))
            (pane_of_tab (root layout) tab) in
        mkPaneLayout tree to_pane_id
  end.

Definition select_tab (layout : PaneLayout) (tab : string) : PaneLayout :=
  match find_leaf_of_tab (root layout) tab with
  | None => layout
  | Some leaf =>
      mkPaneLayout
        (update_leaf (root layout) (pane_id leaf)
           (fun leaf => Leaf (mkPaneLeaf (pane_id leaf) (tabs leaf) tab)))
        (pane_id leaf)
  end.

Definition focus_pane (layout : PaneLayout) (id : string) : PaneLayout :=
  match find_leaf (root layout) id with
  | None => layout
  | Some _ => mkPaneLayout (root layout) id
  end.

Definition close_tab (layout : PaneLayout) (tab : string) : PaneLayout :=
  let tree :=
    collapse_empties (remove_tab_everywhere (root layout) tab) (pane_of_tab (root layout) tab) in
  mkPaneLayout tree (fix_focus tree (focused_pane_id layout)).

(** ** [presets.rs] *)

Inductive PresetKind := Even | Rows | Tiled | MainVertical.

Definition PresetKind_as_wire (kind : PresetKind) : string :=
  match kind with
  | Even => "even" | Rows => "rows" | Tiled => "tiled" | MainVertical => "main-vertical"
  end.

Definition PresetKind_parse (preset : string) : option PresetKind :=
  if decide (preset = "even") then Some Even
  else if decide (preset = "rows") then Some Rows
  else if decide (preset = "tiled") then Some Tiled
  else if decide (preset = "main-vertical") then Some MainVertical
  else None.

Inductive ArrangeKind := Preset (kind : PresetKind) | Balance.

Definition ArrangeKind_parse (preset : string) : option ArrangeKind :=
  if decide (preset = "balance") then Some Balance else Preset <$> PresetKind_parse preset.

Definition ArrangeKind_as_wire (kind : ArrangeKind) : string :=
  match kind with Preset kind => PresetKind_as_wire kind | Balance => "balance" end.

Definition other_direction (direction : LayoutDirection) : LayoutDirection :=
  match direction with Col => Row | Row | OtherDirection _ => Col end.

Definition leaf_of `{PaneIdSource Ids} (session_id : string) (ids : Ids) : PaneNode * Ids :=
  let '(id, ids) := mint_pane_id ids in (Leaf (mkPaneLeaf id [session_id] session_id), ids).

(** [sessions.len().div_ceil(2)]. *)
Definition middle_of (sessions : list string) : nat := Nat.div2 (S (length sessions)).

(** [build_balanced]; each half is shorter, so [length sessions] is fuel enough. *)
Fixpoint build_balanced `{PaneIdSource Ids} (fuel : nat) (sessions : list string)
    (direction : LayoutDirection) (alternate : bool) (ids : Ids) : PaneNode * Ids :=
  match fuel, sessions with
  | _, [] =>
      let '(id, ids) := mint_pane_id ids in (Leaf (mkPaneLeaf id [] EmptyString), ids)
  | _, [first] => leaf_of first ids
  | O, first :: _ => leaf_of first ids
  | S fuel, _ =>
      let middle := middle_of sessions in
      let child_direction := if alternate then other_direction direction else direction in
      let ratio := f64_div (f64_of_usize middle) (f64_of_usize (length sessions)) in
      let '(split_id, ids) := mint_pane_id ids in
      let '(a, ids) := build_balanced fuel (take middle sessions) child_direction alternate ids in
      let '(b, ids) := build_balanced fuel (drop middle sessions) child_direction alternate ids in
      (Split split_id direction (normalize_pane_ratio ratio) a b, ids)
  end.

(** [0.6]. *)
Definition f64_main : f64 := SpecFloat.S754_finite false 5404319552844595 (-53).

Definition preset_layout `{PaneIdSource Ids} (kind : PresetKind) (session_ids : list string) (ids : Ids) :
    PaneLayout * Ids :=
  let sessions := base.filter (fun session => session <> EmptyString) session_ids in
  let fuel := length sessions in
  match sessions with
  | [] | [_] => default_layout sessions ids
  | main :: rest =>
      let '(tree, ids) :=
        match kind with
        | MainVertical =>
            let '(split_id, ids) := mint_pane_id ids in
            let '(a, ids) := leaf_of main ids in
            let '(b, ids) := build_balanced fuel rest Col false ids in
            (Split split_id Row (normalize_pane_ratio f64_main) a b, ids)
        | Rows => build_balanced fuel sessions Col false ids
        | Even => build_balanced fuel sessions Row false ids
        | Tiled => build_balanced fuel sessions Row true ids
        end in
      (mkPaneLayout tree (default EmptyString (pane_id <$> head (all_leaves tree))), ids)
  end.

Fixpoint balance_node (node : PaneNode) : PaneNode :=
  match node with
  | Leaf _ => node
  | Split id direction ratio a b =>
      let first := balance_node a in
      let second := balance_node b in
      let first_leaves := length (all_leaves first) in
      let total := (first_leaves + length (all_leaves second))%nat in
      let ratio :=
        if (total =? 0)%nat then ratio
        else normalize_pane_ratio (f64_div (f64_of_usize first_leaves) (f64_of_usize total)) in
      Split id direction ratio first second
  end.

Definition balance_layout (layout : PaneLayout) : PaneLayout :=
  mkPaneLayout (balance_node (root layout)) (focused_pane_id layout).

Definition arrange_layout `{PaneIdSource Ids} (kind : ArrangeKind) (layout : PaneLayout)
    (session_ids : list string) (ids : Ids) : PaneLayout * Ids :=
  match kind with
  | Preset preset => preset_layout preset session_ids ids
  | Balance => (balance_layout layout, ids)
  end.

(** ** [layout_map.rs] *)

Inductive LegacyUiCommand :=
| Navigate (path : string)
| PlaceSplit (session_id anchor_session_id dir : string) (insert_first : bool)
| SelectTab (session_id : string)
| FocusPane (session_id : string)
| MoveTab (session_id dest_session_id : string)
| Arrange (preset : string)
| CloseTab (session_id : string)
| Spotlight (session_id : string) (off : bool).

(** [LayoutDirection::parse]. *)
Definition LayoutDirection_parse (value : string) : option LayoutDirection :=
  if decide (value = "row") then Some Row else if decide (value = "col") then Some Col else None.

Definition apply_ui_command_to_layout `{PaneIdSource Ids} (layout : PaneLayout)
    (command : LegacyUiCommand) (live_session_ids : list string) (ids : Ids) : option PaneLayout * Ids :=
  match command with
  | PlaceSplit session_id anchor_session_id dir insert_first =>
      match find_leaf_of_tab (root layout) anchor_session_id with
      | None => (None, ids)
      | Some anchor =>
          if decide (session_id = EmptyString) then (None, ids)
          else
            match LayoutDirection_parse dir with
            | None => (None, ids)
            | Some direction =>
                let '(next, ids) := split_leaf layout (pane_id anchor) direction session_id insert_first ids in
                (Some next, ids)
            end
      end
  | SelectTab session_id =>
      match find_leaf_of_tab (root layout) session_id with
      | None => (None, ids)
      | Some _ => (Some (select_tab layout session_id), ids)
      end
  | FocusPane session_id =>
      match find_leaf_of_tab (root layout) session_id with
      | None => (None, ids)
      | Some leaf => (Some (focus_pane layout (pane_id leaf)), ids)
      end
  | MoveTab session_id dest_session_id =>
      match find_leaf_of_tab (root layout) dest_session_id, find_leaf_of_tab (root layout) session_id with
      | Some destination, Some _ => (Some (move_tab layout session_id (pane_id destination) None), ids)
      | _, _ => (None, ids)
      end
  | Arrange preset =>
      match ArrangeKind_parse preset with
      | None => (None, ids)
      | Some kind =>
          let '(next, ids) := arrange_layout kind layout live_session_ids ids in (Some next, ids)
      end
  | Navigate _ | CloseTab _ | Spotlight _ _ => (None, ids)
  end.
