(* ===== verification/LayoutLemmas.v ===== *)
(** * LayoutLemmas: what the walkers and repairs of a pane tree do

    The tree's leaves, split ids and ratios as lists, and each operation of
    [LayoutEdit]'s first part described on those. *)
From Stdlib Require Import SpecFloat.
From S2P Require Export LayoutEdit.

Fixpoint split_ids (node : PaneNode) : list string :=
  match node with Leaf _ => [] | Split id _ _ a b => id :: split_ids a ++ split_ids b end.

Fixpoint ratios (node : PaneNode) : list f64 :=
  match node with Leaf _ => [] | Split _ _ ratio a b => ratio :: ratios a ++ ratios b end.

Definition pane_ids (node : PaneNode) : list string := pane_id <$> all_leaves node.

Definition node_ids (node : PaneNode) : list string := split_ids node ++ pane_ids node.

Definition tabs_of (node : PaneNode) : list string := all_leaves node ≫= tabs.

(** ** Ratios *)

Lemma SFcompare_swap x y : SFcompare y x = CompOpp <$> SFcompare x y.
Proof.
  destruct x as [sx|sx| |sx mx ex], y as [sy|sy| |sy my ey]; cbn; try done;
    try (by destruct sx, sy); try (by destruct sx); try (by destruct sy).
  rewrite (Z.compare_antisym ex ey). change (Pos.compare_cont Eq my mx) with (my ?= mx)%positive.
  change (Pos.compare_cont Eq mx my) with (mx ?= my)%positive. rewrite (Pos.compare_antisym mx my).
  by destruct sx, sy, (ex ?= ey); cbn; try done; destruct (mx ?= my)%positive.
Qed.

Lemma not_lt_le x y : is_nan x = false -> is_nan y = false -> f64_lt x y = false -> f64_le y x = true.
Proof.
  unfold f64_lt, f64_le, SFltb, SFleb. intros Hx Hy. rewrite (SFcompare_swap x y).
  assert (is_Some (SFcompare x y)) as [c ->].
  { destruct x, y; cbn; try done; by eexists. }
  by destruct c.
Qed.

Definition ratio_ok (ratio : f64) : Prop :=
  f64_le LAYOUT_RATIO_MIN ratio = true /\ f64_le ratio LAYOUT_RATIO_MAX = true.

(** Whatever number it is given, the repair answers within the bounds. *)
Lemma normalize_ratio_ok ratio : ratio_ok (normalize_pane_ratio ratio).
Proof.
  assert (Hclamp : is_nan ratio = false -> ratio_ok (f64_clamp ratio LAYOUT_RATIO_MIN LAYOUT_RATIO_MAX)).
  { intros Hn. unfold f64_clamp, ratio_ok.
    destruct (f64_lt ratio LAYOUT_RATIO_MIN) eqn:E1; [by vm_compute|].
    destruct (f64_lt LAYOUT_RATIO_MAX ratio) eqn:E2; [by vm_compute|].
    split; by apply not_lt_le. }
  destruct ratio as [s|[]| |s m e]; cbn [normalize_pane_ratio]; try (by apply Hclamp); by vm_compute.
Qed.

(** A ratio within the bounds is kept. *)
Lemma normalize_ratio_id ratio : ratio_ok ratio -> normalize_pane_ratio ratio = ratio.
Proof.
  intros [H1 H2]. assert (Hn : forall a b, f64_le a b = true -> f64_lt b a = false).
  { intros a b. unfold f64_lt, f64_le, SFltb, SFleb. rewrite (SFcompare_swap a b).
    destruct (SFcompare a b) as [[]|]; done. }
  destruct ratio as [s|[]| |s m e]; try done; cbn [normalize_pane_ratio]; unfold f64_clamp;
    by rewrite (Hn _ _ H1), (Hn _ _ H2).
Qed.

(** ** Walkers *)

Lemma find_leaf_head node id :
  find_leaf node id = head (base.filter (fun leaf => pane_id leaf = id) (all_leaves node)).
Proof.
  induction node as [leaf|sid d q a IHa b IHb]; cbn [find_leaf all_leaves].
  - rewrite filter_cons, filter_nil. by destruct (decide _).
  - rewrite IHa, IHb, filter_app. by destruct (base.filter _ (all_leaves a)).
Qed.

Lemma find_leaf_of_tab_head node tab :
  find_leaf_of_tab node tab = head (base.filter (fun leaf => tab ∈ tabs leaf) (all_leaves node)).
Proof.
  induction node as [leaf|sid d q a IHa b IHb]; cbn [find_leaf_of_tab all_leaves].
  - rewrite filter_cons, filter_nil. by destruct (decide _).
  - rewrite IHa, IHb, filter_app. by destruct (base.filter _ (all_leaves a)).
Qed.

Lemma head_filter_Some {A} (P : A -> Prop) `{!forall x, Decision (P x)} (l : list A) x :
  head (base.filter P l) = Some x ->
  exists l1 l2, l = l1 ++ x :: l2 /\ P x /\ Forall (fun y => ~ P y) l1.
Proof.
  induction l as [|y l IH]; [done|]. rewrite filter_cons. destruct (decide (P y)) as [Hy|Hy].
  - intros [= <-]. by exists [], l.
  - intros Hh. destruct (IH Hh) as (l1 & l2 & -> & Hx & Hl). exists (y :: l1), l2. by split_and!; [|..|constructor].
Qed.

Lemma head_filter_None {A} (P : A -> Prop) `{!forall x, Decision (P x)} (l : list A) :
  head (base.filter P l) = None <-> Forall (fun y => ~ P y) l.
Proof.
  induction l as [|y l IH]; [done|]. rewrite filter_cons, Forall_cons. destruct (decide (P y)); naive_solver.
Qed.

Lemma find_leaf_Some node id leaf :
  find_leaf node id = Some leaf -> leaf ∈ all_leaves node /\ pane_id leaf = id.
Proof.
  rewrite find_leaf_head. intros (l1 & l2 & -> & ? & _)%head_filter_Some. split; [set_solver|done].
Qed.

Lemma find_leaf_is_Some node id : is_Some (find_leaf node id) <-> id ∈ pane_ids node.
Proof.
  unfold pane_ids. split.
  - intros [leaf [Hin <-]%find_leaf_Some]. by apply list_elem_of_fmap_2.
  - rewrite find_leaf_head. intros (leaf & -> & Hin)%list_elem_of_fmap.
    destruct (head _) eqn:E; [by eexists|]. apply head_filter_None in E.
    rewrite Forall_forall in E. by destruct (E leaf Hin).
Qed.

Lemma find_leaf_of_tab_Some node tab leaf :
  find_leaf_of_tab node tab = Some leaf -> leaf ∈ all_leaves node /\ tab ∈ tabs leaf.
Proof.
  rewrite find_leaf_of_tab_head. intros (l1 & l2 & -> & ? & _)%head_filter_Some. split; [set_solver|done].
Qed.

Lemma find_leaf_of_tab_None node tab : find_leaf_of_tab node tab = None <-> tab ∉ tabs_of node.
Proof.
  rewrite find_leaf_of_tab_head, head_filter_None. unfold tabs_of. rewrite list_elem_of_bind, Forall_forall.
  naive_solver.
Qed.

Lemma all_leaves_nonempty node : all_leaves node <> [].
Proof. induction node as [|sid d q a IHa b IHb]; [done|]. cbn. by destruct (all_leaves a). Qed.

Lemma first_leaf_in node : first_leaf node ∈ all_leaves node.
Proof. induction node; cbn; set_solver. Qed.

Lemma head_all_leaves node : head (all_leaves node) = Some (first_leaf node).
Proof.
  induction node as [|sid d q a IHa b IHb]; [done|]. cbn [all_leaves first_leaf].
  destruct (all_leaves a) eqn:E; [by destruct (all_leaves_nonempty a)|]. done.
Qed.

Lemma fix_focus_in node preferred : fix_focus node preferred ∈ pane_ids node.
Proof.
  unfold fix_focus. destruct (find_leaf node preferred) as [leaf|] eqn:E.
  - apply find_leaf_is_Some. by eexists.
  - apply list_elem_of_fmap_2, first_leaf_in.
Qed.

Lemma fix_focus_kept node preferred : preferred ∈ pane_ids node -> fix_focus node preferred = preferred.
Proof. intros [leaf H]%find_leaf_is_Some. unfold fix_focus. by rewrite H. Qed.

(** ** Grafting: replacing every leaf by a tree *)

Fixpoint graft (f : PaneLeaf -> PaneNode) (node : PaneNode) : PaneNode :=
  match node with
  | Leaf leaf => f leaf
  | Split id direction ratio a b => Split id direction ratio (graft f a) (graft f b)
  end.

Lemma update_leaf_graft node id edit :
  update_leaf node id edit = graft (fun leaf => if decide (pane_id leaf = id) then edit leaf else Leaf leaf) node.
Proof. induction node; cbn; congruence. Qed.

Lemma remove_tab_graft node tab :
  remove_tab_everywhere node tab = graft (fun leaf => Leaf (remove_tab_from_leaf leaf tab)) node.
Proof. induction node; cbn; congruence. Qed.

Lemma all_leaves_graft f node : all_leaves (graft f node) = all_leaves node ≫= fun leaf => all_leaves (f leaf).
Proof.
  induction node as [leaf|sid d q a IHa b IHb]; cbn; [by rewrite app_nil_r|].
  by rewrite IHa, IHb, bind_app.
Qed.

Lemma split_ids_graft f node :
  split_ids (graft f node) ≡ₚ split_ids node ++ (all_leaves node ≫= fun leaf => split_ids (f leaf)).
Proof.
  induction node as [leaf|sid d q a IHa b IHb]; cbn; [by rewrite app_nil_r|].
  rewrite IHa, IHb, bind_app. solve_Permutation.
Qed.

Lemma ratios_graft f node :
  ratios (graft f node) ≡ₚ ratios node ++ (all_leaves node ≫= fun leaf => ratios (f leaf)).
Proof.
  induction node as [leaf|sid d q a IHa b IHb]; cbn; [by rewrite app_nil_r|].
  rewrite IHa, IHb, bind_app. solve_Permutation.
Qed.

(** Replacing leaves by leaves. *)
Lemma graft_leaves g node :
  all_leaves (graft (fun leaf => Leaf (g leaf)) node) = g <$> all_leaves node
  /\ split_ids (graft (fun leaf => Leaf (g leaf)) node) = split_ids node
  /\ ratios (graft (fun leaf => Leaf (g leaf)) node) = ratios node.
Proof.
  induction node as [leaf|sid d q a (A1 & A2 & A3) b (B1 & B2 & B3)]; [done|]. cbn.
  by rewrite A1, A2, A3, B1, B2, B3, fmap_app.
Qed.

Lemma bind_id {A} (l : list A) (f : A -> list A) : Forall (fun x => f x = [x]) l -> l ≫= f = l.
Proof. induction 1 as [|x l Hx _ IH]; [done|]. cbn. by rewrite Hx, IH. Qed.

Lemma bind_none {A B} (l : list A) (f : A -> list B) : Forall (fun x => f x = []) l -> l ≫= f = [].
Proof. induction 1 as [|x l Hx _ IH]; [done|]. cbn. by rewrite Hx, IH. Qed.

(** Updating the one leaf of an id. *)
Lemma update_leaf_split node id leaf :
  NoDup (pane_ids node) -> find_leaf node id = Some leaf ->
  exists l1 l2, all_leaves node = l1 ++ leaf :: l2
    /\ (forall other, other ∈ l1 ++ l2 -> pane_id other <> id)
    /\ forall edit,
        all_leaves (update_leaf node id edit) = l1 ++ all_leaves (edit leaf) ++ l2
        /\ split_ids (update_leaf node id edit) ≡ₚ split_ids node ++ split_ids (edit leaf)
        /\ ratios (update_leaf node id edit) ≡ₚ ratios node ++ ratios (edit leaf).
Proof.
  rewrite find_leaf_head. unfold pane_ids. intros Hnd (l1 & l2 & E & Hid & H1)%head_filter_Some.
  exists l1, l2. rewrite E in Hnd. rewrite fmap_app, fmap_cons in Hnd.
  apply NoDup_app in Hnd as (_ & Hdis & [Hnin _]%NoDup_cons).
  assert (H2 : Forall (fun other => pane_id other <> id) l2).
  { apply Forall_forall. intros x Hx Heq. apply Hnin. rewrite <- Hid in Heq. rewrite <- Heq.
    by apply list_elem_of_fmap_2. }
  split_and!; [done| |].
  { intros other [Ho|Ho]%elem_of_app; rewrite Forall_forall in H1, H2; auto. }
  intros edit. rewrite update_leaf_graft, all_leaves_graft, split_ids_graft, ratios_graft, E, !bind_app, !bind_cons.
  assert (Hsame : forall l : list PaneLeaf, Forall (fun other => pane_id other <> id) l ->
            (l ≫= (fun other => all_leaves (if decide (pane_id other = id) then edit other else Leaf other))) = l
            /\ (l ≫= (fun other => split_ids (if decide (pane_id other = id) then edit other else Leaf other))) = []
            /\ (l ≫= (fun other => ratios (if decide (pane_id other = id) then edit other else Leaf other))) = []).
  { intros l Hl. split_and!; [apply bind_id|apply bind_none|apply bind_none];
      (eapply Forall_impl; [exact Hl|]; intros x Hx; by rewrite decide_False). }
  destruct (Hsame l1 H1) as (-> & -> & ->), (Hsame l2 H2) as (-> & -> & ->).
  rewrite decide_True by done. by rewrite !app_nil_r.
Qed.

(** ** Removing a tab *)

Lemma position_None tab l : position tab l = None <-> tab ∉ l.
Proof.
  induction l as [|held l IH]; cbn; [set_solver|]. 
  destruct (decide (held = tab)) as [->|Hne]; [set_solver|].
  rewrite fmap_None, IH. set_solver.
Qed.

Lemma without_not_in tab l : tab ∉ l -> without tab l = l.
Proof.
  unfold without. intros Hn. induction l as [|x l IH]; [done|].
  rewrite filter_cons, decide_True by set_solver. f_equal. apply IH. set_solver.
Qed.

Lemma remove_tab_pane leaf tab : pane_id (remove_tab_from_leaf leaf tab) = pane_id leaf.
Proof. unfold remove_tab_from_leaf. by destruct (position _ _). Qed.

Lemma remove_tab_tabs leaf tab : tabs (remove_tab_from_leaf leaf tab) = without tab (tabs leaf).
Proof.
  unfold remove_tab_from_leaf. destruct (position tab (tabs leaf)) eqn:E; [done|].
  apply position_None in E. by rewrite without_not_in.
Qed.

Definition leaf_ok (leaf : PaneLeaf) : Prop :=
  (tabs leaf = [] /\ selected_tab leaf = EmptyString) \/ selected_tab leaf ∈ tabs leaf.

Lemma remove_tab_ok leaf tab : leaf_ok leaf -> leaf_ok (remove_tab_from_leaf leaf tab).
Proof.
  intros Hok. unfold remove_tab_from_leaf. destruct (position tab (tabs leaf)) as [index|] eqn:E; [|done].
  unfold leaf_ok. cbn [tabs selected_tab]. destruct (decide (selected_tab leaf = tab)) as [Hsel|Hsel].
  - destruct (without tab (tabs leaf) !! index) eqn:E1; [right; by eapply list_elem_of_lookup_2|].
    destruct (without tab (tabs leaf) !! (index - 1)%nat) eqn:E2; [right; by eapply list_elem_of_lookup_2|].
    destruct (without tab (tabs leaf)) eqn:E3; [by left|right; set_solver].
  - right. unfold without. apply list_elem_of_filter. split; [done|]. destruct Hok as [[Hnil _]|]; [|done].
    by rewrite Hnil in E.
Qed.

(** ** Collapsing *)

Definition kept_leaf (collapsible : gset string) (leaf : PaneLeaf) : Prop :=
  ~ (tabs leaf = [] /\ pane_id leaf ∈ collapsible).

#[global] Instance kept_leaf_dec collapsible leaf : Decision (kept_leaf collapsible leaf).
Proof. unfold kept_leaf. apply _. Defined.

Lemma is_collapsible_kept leaf c : is_collapsible_empty (Leaf leaf) c = negb (bool_decide (kept_leaf c leaf)).
Proof.
  cbn. unfold kept_leaf. repeat case_bool_decide; cbn; tauto.
Qed.

Lemma collapsible_kept_shape node c :
  Forall (kept_leaf c) (all_leaves node) -> is_collapsible_empty node c = false.
Proof.
  destruct node as [leaf|]; [|done]. intros [Hk _]%Forall_cons.
  rewrite is_collapsible_kept. by rewrite bool_decide_eq_true_2.
Qed.

Lemma filter_Forall {A} (P : A -> Prop) `{!forall x, Decision (P x)} (l : list A) :
  Forall P (base.filter P l).
Proof. apply Forall_forall. by intros x [? _]%list_elem_of_filter. Qed.

(** The collapsible empty leaves go, or all but the last. *)
Lemma collapse_leaves node c :
  (base.filter (kept_leaf c) (all_leaves node) <> [] /\
   all_leaves (collapse_empties node c) = base.filter (kept_leaf c) (all_leaves node))
  \/ (base.filter (kept_leaf c) (all_leaves node) = [] /\
      exists leaf, collapse_empties node c = Leaf leaf /\ last (all_leaves node) = Some leaf
        /\ ~ kept_leaf c leaf).
Proof.
  induction node as [leaf|sid d q a IHa b IHb]; cbn [collapse_empties all_leaves].
  { rewrite filter_cons, filter_nil. destruct (decide (kept_leaf c leaf)); [by left|right].
    split; [done|]. by exists leaf. }
  rewrite filter_app. destruct IHa as [[Ka Ea]|(Ka & la & Ea & La & Na)].
  - rewrite (collapsible_kept_shape (collapse_empties a c)) by (rewrite Ea; apply filter_Forall).
    left. split; [by destruct (base.filter _ (all_leaves a))|].
    destruct IHb as [[Kb Eb]|(Kb & lb & Eb & Lb & Nb)].
    + rewrite (collapsible_kept_shape (collapse_empties b c)) by (rewrite Eb; apply filter_Forall).
      cbn [all_leaves]. by rewrite Ea, Eb.
    + rewrite Eb, is_collapsible_kept, bool_decide_eq_false_2 by done. cbn [negb]. by rewrite Ea, Kb, app_nil_r.
  - rewrite Ea, is_collapsible_kept, bool_decide_eq_false_2 by done. cbn [negb]. rewrite Ka. cbn [app].
    destruct IHb as [[Kb Eb]|(Kb & lb & Eb & Lb & Nb)]; [by left|right].
    split; [done|]. exists lb. split_and!; [done| |done].
    by rewrite last_app, Lb.
Qed.

(** It only takes nodes away, and no tab. *)
Lemma collapse_sublists node c :
  split_ids (collapse_empties node c) `sublist_of` split_ids node
  /\ ratios (collapse_empties node c) `sublist_of` ratios node
  /\ all_leaves (collapse_empties node c) `sublist_of` all_leaves node.
Proof.
  induction node as [leaf|sid d q a (A1 & A2 & A3) b (B1 & B2 & B3)]; [done|].
  cbn [collapse_empties all_leaves split_ids ratios].
  destruct (is_collapsible_empty (collapse_empties a c) c).
  { split_and!; [apply sublist_cons|apply sublist_cons|]; by apply sublist_inserts_l. }
  destruct (is_collapsible_empty (collapse_empties b c) c).
  { split_and!; [apply sublist_cons|apply sublist_cons|]; by apply sublist_inserts_r. }
  cbn. split_and!; [apply sublist_skip| apply sublist_skip|]; by apply sublist_app.
Qed.

Lemma tabs_filter_kept c l : base.filter (kept_leaf c) l ≫= tabs = l ≫= tabs.
Proof.
  induction l as [|leaf l IH]; [done|]. rewrite filter_cons. destruct (decide _) as [|Hn].
  - cbn. by rewrite IH.
  - cbn. rewrite IH. destruct (tabs leaf) eqn:E; [done|]. destruct Hn. intros [H _]. congruence.
Qed.

Lemma collapse_tabs node c : tabs_of (collapse_empties node c) = tabs_of node.
Proof.
  unfold tabs_of. rewrite <- (tabs_filter_kept c (all_leaves node)).
  destruct (collapse_leaves node c) as [[_ ->]|(-> & leaf & -> & _ & Hn)]; [done|].
  cbn. destruct (tabs leaf) eqn:E; [done|]. destruct Hn. intros [H _]. congruence.
Qed.

Lemma collapse_keeps node c leaf :
  leaf ∈ all_leaves node -> kept_leaf c leaf -> leaf ∈ all_leaves (collapse_empties node c).
Proof.
  intros Hin Hk.
  destruct (collapse_leaves node c) as [[_ ->]|(Hnil & _)]; [by apply list_elem_of_filter|].
  assert (leaf ∈ base.filter (kept_leaf c) (all_leaves node)) by by apply list_elem_of_filter.
  rewrite Hnil in *. set_solver.
Qed.

Lemma collapse_none node : collapse_empties node ∅ = node.
Proof.
  induction node as [|sid d q a IHa b IHb]; [done|]. cbn. rewrite IHa, IHb.
  assert (Hno : forall n, is_collapsible_empty n ∅ = false).
  { intros [leaf|]; [|done]. cbn. rewrite (bool_decide_eq_false_2 (pane_id leaf ∈ ∅)) by set_solver.
    apply andb_false_r. }
  by rewrite !Hno.
Qed.

(** ** Well-formed trees *)

Record tree_shape (node : PaneNode) : Prop := {
  ts_ids : NoDup (node_ids node);
  ts_tabs : NoDup (tabs_of node);
  ts_named : EmptyString ∉ tabs_of node;
  ts_leaves : Forall leaf_ok (all_leaves node);
}.

Definition ratios_ok (node : PaneNode) : Prop := Forall ratio_ok (ratios node).

Lemma shape_panes node : tree_shape node -> NoDup (pane_ids node).
Proof. intros [Hids _ _ _]. by apply NoDup_app in Hids as (_ & _ & ?). Qed.

Lemma collapse_shape node c : tree_shape node -> tree_shape (collapse_empties node c).
Proof.
  intros [H1 H2 H3 H4]. destruct (collapse_sublists node c) as (S1 & _ & S3).
  constructor; rewrite ?collapse_tabs; [|done|done|].
  - eapply sublist_NoDup; [exact H1|]. apply sublist_app; [done|]. by apply fmap_sublist.
  - rewrite Forall_forall in *. intros leaf Hin. apply H4. by eapply elem_of_sublist.
Qed.

Lemma collapse_ratios node c : ratios_ok node -> ratios_ok (collapse_empties node c).
Proof.
  unfold ratios_ok. destruct (collapse_sublists node c) as (_ & S2 & _).
  rewrite !Forall_forall. intros Hall x Hx. apply Hall. by eapply elem_of_sublist.
Qed.

Lemma bind_without tab (l : list PaneLeaf) :
  (l ≫= fun leaf => without tab (tabs leaf)) = without tab (l ≫= tabs).
Proof.
  unfold without. induction l as [|leaf l IH]; [done|]. cbn. by rewrite filter_app, IH.
Qed.

Lemma remove_tab_leaves node tab :
  all_leaves (remove_tab_everywhere node tab) = (fun leaf => remove_tab_from_leaf leaf tab) <$> all_leaves node
  /\ split_ids (remove_tab_everywhere node tab) = split_ids node
  /\ ratios (remove_tab_everywhere node tab) = ratios node
  /\ node_ids (remove_tab_everywhere node tab) = node_ids node
  /\ tabs_of (remove_tab_everywhere node tab) = without tab (tabs_of node).
Proof.
  rewrite remove_tab_graft.
  destruct (graft_leaves (fun leaf => remove_tab_from_leaf leaf tab) node) as (E1 & E2 & E3).
  split_and!; try done.
  - unfold node_ids, pane_ids. rewrite E1, E2. f_equal. rewrite <- list_fmap_compose.
    apply list_fmap_ext. intros i leaf _. apply remove_tab_pane.
  - unfold tabs_of. rewrite E1, <- bind_without. clear E1. induction (all_leaves node) as [|leaf l IH]; [done|].
    cbn. by rewrite remove_tab_tabs, IH.
Qed.

Lemma remove_tab_shape node tab : tree_shape node -> tree_shape (remove_tab_everywhere node tab).
Proof.
  intros [H1 H2 H3 H4]. destruct (remove_tab_leaves node tab) as (E1 & _ & _ & E4 & E5).
  constructor; rewrite ?E4, ?E5; [done| | |].
  - by apply NoDup_filter.
  - unfold without. rewrite list_elem_of_filter. naive_solver.
  - rewrite E1, Forall_fmap. eapply Forall_impl; [exact H4|]. intros leaf. apply remove_tab_ok.
Qed.

Lemma remove_tab_find node tab id :
  find_leaf (remove_tab_everywhere node tab) id
  = (fun leaf => remove_tab_from_leaf leaf tab) <$> find_leaf node id.
Proof.
  induction node as [leaf|sid d q a IHa b IHb]; cbn.
  - rewrite remove_tab_pane. by destruct (decide _).
  - rewrite IHa, IHb. by destruct (find_leaf a id).
Qed.

(** Replacing the one leaf of an id by a small tree that keeps its pane. *)
Lemma regrow_shape node id leaf edit new_panes new_splits new_tabs :
  tree_shape node -> find_leaf node id = Some leaf ->
  pane_ids (edit leaf) ≡ₚ id :: new_panes -> split_ids (edit leaf) ≡ₚ new_splits ->
  NoDup (new_splits ++ new_panes) -> (forall x, x ∈ new_splits ++ new_panes -> x ∉ node_ids node) ->
  tabs_of (edit leaf) ≡ₚ tabs leaf ++ new_tabs -> NoDup new_tabs ->
  (forall tab, tab ∈ new_tabs -> tab ∉ tabs_of node /\ tab <> EmptyString) ->
  Forall leaf_ok (all_leaves (edit leaf)) ->
  tree_shape (update_leaf node id edit)
  /\ node_ids (update_leaf node id edit) ≡ₚ node_ids node ++ new_splits ++ new_panes
  /\ tabs_of (update_leaf node id edit) ≡ₚ tabs_of node ++ new_tabs
  /\ (forall other, other ∈ all_leaves node -> pane_id other <> id ->
        other ∈ all_leaves (update_leaf node id edit))
  /\ (forall other, other ∈ all_leaves (update_leaf node id edit) ->
        (other ∈ all_leaves node /\ pane_id other <> id) \/ other ∈ all_leaves (edit leaf))
  /\ (forall other, other ∈ all_leaves (edit leaf) -> other ∈ all_leaves (update_leaf node id edit)).
Proof.
  intros Hshape Hfind Hpanes Hsplits Hnd Hfresh Htabs Hndt Hnew Hok.
  pose proof Hshape as [H1 H2 H3 H4].
  pose proof (find_leaf_Some _ _ _ Hfind) as [Hin Hid].
  destruct (update_leaf_split node id leaf (shape_panes _ Hshape) Hfind) as (l1 & l2 & El & Hne & Hedit).
  destruct (Hedit edit) as (E1 & E2 & _).
  assert (Hids : node_ids (update_leaf node id edit) ≡ₚ node_ids node ++ new_splits ++ new_panes).
  { unfold node_ids, pane_ids in *. rewrite E1, E2, El, !fmap_app, fmap_cons, Hpanes, Hsplits, Hid.
    solve_Permutation. }
  assert (Htab : tabs_of (update_leaf node id edit) ≡ₚ tabs_of node ++ new_tabs).
  { unfold tabs_of in *. rewrite E1, El, !bind_app, bind_cons, Htabs. solve_Permutation. }
  split_and!; [constructor| | | | |]; try done.
  - rewrite Hids. apply NoDup_app. split_and!; [done| |done]. intros x Hx Hx'. by apply (Hfresh x).
  - rewrite Htab. apply NoDup_app. split_and!; [done| |done]. intros x Hx Hx'. by destruct (Hnew x).
  - rewrite Htab. intros [?|?]%elem_of_app; [done|]. by destruct (Hnew EmptyString).
  - rewrite E1. rewrite El in H4. rewrite !Forall_app, Forall_cons in H4. rewrite !Forall_app. tauto.
  - intros other Ho Hne'. rewrite E1, El in *. set_solver.
  - intros other. rewrite E1, El. intros [Ho|[Ho|Ho]%elem_of_app]%elem_of_app.
    + left. split; [set_solver|]. apply Hne. set_solver.
    + by right.
    + left. split; [set_solver|]. apply Hne. set_solver.
  - intros other Ho. rewrite E1. set_solver.
Qed.

Lemma regrow_ratios node id leaf edit :
  NoDup (pane_ids node) -> find_leaf node id = Some leaf -> ratios_ok node ->
  ratios_ok (edit leaf) -> ratios_ok (update_leaf node id edit).
Proof.
  intros Hnd Hfind Hr He. destruct (update_leaf_split node id leaf Hnd Hfind) as (l1 & l2 & _ & _ & Hedit).
  destruct (Hedit edit) as (_ & _ & E3). unfold ratios_ok in *. rewrite E3. by apply Forall_app.
Qed.

(** The leaf of an id is unique. *)
Lemma find_leaf_unique node leaf :
  NoDup (pane_ids node) -> leaf ∈ all_leaves node -> find_leaf node (pane_id leaf) = Some leaf.
Proof.
  intros Hnd Hin. assert (is_Some (find_leaf node (pane_id leaf))) as [found Hf].
  { apply find_leaf_is_Some. by apply list_elem_of_fmap_2. }
  destruct (update_leaf_split node _ found Hnd Hf) as (l1 & l2 & El & Hne & _).
  rewrite El in Hin. assert (leaf = found \/ leaf ∈ l1 ++ l2) as [->|Ho] by set_solver; [done|].
  by destruct (Hne leaf Ho).
Qed.

(** The leaf of a tab is unique. *)
Lemma tab_leaf_unique node l1 l2 tab :
  NoDup (tabs_of node) -> l1 ∈ all_leaves node -> l2 ∈ all_leaves node ->
  tab ∈ tabs l1 -> tab ∈ tabs l2 -> l1 = l2.
Proof.
  unfold tabs_of. induction (all_leaves node) as [|leaf l IH]; [set_solver|]. cbn.
  intros (Hnd1 & Hdis & Hnd2)%NoDup_app Hl1 Hl2 Ht1 Ht2.
  assert (Hout : forall other, other ∈ l -> tab ∈ tabs other -> tab ∉ tabs leaf).
  { intros other Ho Ht Ht'. apply (Hdis tab Ht'). apply list_elem_of_bind. by exists other. }
  apply elem_of_cons in Hl1 as [->|Hl1], Hl2 as [->|Hl2]; [done| | |by apply IH].
  - by destruct (Hout l2).
  - by destruct (Hout l1).
Qed.
