(* ===== verification/LayoutGuarantees.v ===== *)
(** * LayoutGuarantees: edits keep an arrangement sound

    The invariant of an arrangement, every edit against it, and what the edits
    do to the tabs. *)
From S2P Require Export LayoutLemmas.

Record layout_ok (layout : PaneLayout) : Prop := {
  lo_shape : tree_shape (root layout);
  lo_ratios : ratios_ok (root layout);
  lo_focus : focused_pane_id layout ∈ pane_ids (root layout);
}.

(** ** Fresh ids *)

Section mint.
Context `{PaneIdSource Ids}.

Fixpoint mint_list (k : nat) (ids : Ids) : list string :=
  match k with O => [] | S k => fst (mint_pane_id ids) :: mint_list k (snd (mint_pane_id ids)) end.

Fixpoint mint_after (k : nat) (ids : Ids) : Ids :=
  match k with O => ids | S k => mint_after k (snd (mint_pane_id ids)) end.

(** The next [k] ids are distinct, and none of those [used]. *)
Definition fresh_ids (k : nat) (used : list string) (ids : Ids) : Prop :=
  NoDup (mint_list k ids) /\ forall id, id ∈ mint_list k ids -> id ∉ used.

Lemma mint_list_app j k ids : mint_list (j + k) ids = mint_list j ids ++ mint_list k (mint_after j ids).
Proof. revert ids. induction j as [|j IH]; intros ids; [done|]. cbn. by rewrite IH. Qed.

Lemma mint_after_add j k ids : mint_after (j + k) ids = mint_after k (mint_after j ids).
Proof. revert ids. induction j as [|j IH]; intros ids; [done|]. cbn. by rewrite IH. Qed.

Lemma fresh_ids_le j k used ids : (j <= k)%nat -> fresh_ids k used ids -> fresh_ids j used ids.
Proof.
  intros Hle [H1 H2]. replace k with (j + (k - j))%nat in * by lia.
  rewrite mint_list_app in H1, H2. apply NoDup_app in H1 as (H1 & _ & _). split; [done|].
  intros id Hid. apply H2. set_solver.
Qed.

Lemma fresh_ids_after j k used used' ids :
  fresh_ids (j + k) used ids -> (forall id, id ∈ used' -> id ∈ used \/ id ∈ mint_list j ids) ->
  fresh_ids k used' (mint_after j ids).
Proof.
  intros [H1 H2] Hused. rewrite mint_list_app in H1, H2. apply NoDup_app in H1 as (_ & Hdis & H1).
  split; [done|]. intros id Hid Hu. destruct (Hused id Hu) as [Hu'|Hu'].
  - apply (H2 id); [set_solver|done].
  - by apply (Hdis id).
Qed.
End mint.

(** ** Reconciliation *)

Definition pruned_leaf (live : list string) (leaf : PaneLeaf) : PaneLeaf := snd (prune_leaf live ∅ leaf).

Lemma prune_leaf_snd live emptied leaf : snd (prune_leaf live emptied leaf) = pruned_leaf live leaf.
Proof. unfold pruned_leaf, prune_leaf. cbv zeta. by destruct (_ =? _)%nat. Qed.

Lemma pruned_pane live leaf : pane_id (pruned_leaf live leaf) = pane_id leaf.
Proof. unfold pruned_leaf, prune_leaf. cbv zeta. by destruct (_ =? _)%nat. Qed.

Lemma filter_same (P : string -> Prop) `{!forall x, Decision (P x)} (l : list string) :
  length (base.filter P l) = length l -> base.filter P l = l.
Proof.
  induction l as [|x l IH]; [done|]. rewrite filter_cons. destruct (decide (P x)); cbn.
  - intros [= E]. by rewrite IH.
  - intros E. pose proof (length_filter P l). lia.
Qed.

Lemma pruned_tabs live leaf :
  tabs (pruned_leaf live leaf) = base.filter (fun tab => tab ∈ live) (tabs leaf).
Proof.
  unfold pruned_leaf, prune_leaf. cbv zeta. destruct (_ =? _)%nat eqn:E; [|done].
  bool_to_prop. cbn. by rewrite filter_same.
Qed.

Lemma pruned_ok live leaf : leaf_ok leaf -> leaf_ok (pruned_leaf live leaf).
Proof.
  intros Hok. unfold pruned_leaf, prune_leaf. cbv zeta. destruct (_ =? _)%nat eqn:E; [done|].
  unfold leaf_ok. cbn [tabs selected_tab snd]. destruct (decide (selected_tab leaf ∈ live)) as [Hin|Hout].
  - right. apply list_elem_of_filter. split; [done|]. destruct Hok as [[Hnil _]|]; [|done].
    by rewrite Hnil in E.
  - destruct (base.filter _ (tabs leaf)); [by left|right]. cbn. set_solver.
Qed.

(** The selection of a pane whose selected session lives on is kept. *)
Lemma pruned_selection live leaf :
  selected_tab leaf ∈ live -> selected_tab (pruned_leaf live leaf) = selected_tab leaf.
Proof.
  intros Hin. unfold pruned_leaf, prune_leaf. cbv zeta. destruct (_ =? _)%nat; [done|]. cbn.
  by rewrite decide_True.
Qed.

Lemma prune_tree live emptied node :
  snd (map_leaves (prune_leaf live) emptied node) = graft (fun leaf => Leaf (pruned_leaf live leaf)) node
  /\ forall id, id ∈ fst (map_leaves (prune_leaf live) emptied node) <->
       id ∈ emptied \/ exists leaf, leaf ∈ all_leaves node /\ pane_id leaf = id
                      /\ tabs leaf <> [] /\ tabs (pruned_leaf live leaf) = [].
Proof.
  revert emptied. induction node as [leaf|sid d q a IHa b IHb]; intros emptied; cbn [map_leaves graft all_leaves].
  - pose proof (prune_leaf_snd live emptied leaf) as Hsnd.
    assert (Hfst : forall id, id ∈ fst (prune_leaf live emptied leaf) <->
              id ∈ emptied \/ (pane_id leaf = id /\ tabs leaf <> [] /\ tabs (pruned_leaf live leaf) = [])).
    { intros id. rewrite pruned_tabs. unfold prune_leaf. cbv zeta. destruct (_ =? _)%nat eqn:E; cbn [fst].
      - bool_to_prop. split; [by left|]. intros [?|(_ & Hne & Hnil)]; [done|]. rewrite Hnil in E.
        by destruct (tabs leaf).
      - repeat case_bool_decide; cbn [andb]; set_solver. }
    destruct (prune_leaf live emptied leaf) as [e' leaf']. cbn [fst snd] in *. subst leaf'.
    split; [done|]. intros id. rewrite Hfst. setoid_rewrite list_elem_of_singleton.
    split; [intros [?|?]; [by left|right; by exists leaf]|intros [?|(l & -> & ?)]; [by left|by right]].
  - destruct (IHa emptied) as [A1 A2]. destruct (map_leaves _ emptied a) as [e1 a'].
    destruct (IHb e1) as [B1 B2]. destruct (map_leaves _ e1 b) as [e2 b']. cbn [fst snd] in *.
    split; [by subst|]. intros id. rewrite B2, A2. setoid_rewrite elem_of_app.
    split; [intros [[?|(l & ? & ?)]|(l & ? & ?)]|intros [?|(l & [?|?] & ?)]]; eauto 6.
Qed.

Lemma normalize_leaves node :
  all_leaves (normalize_split_ratios node) = all_leaves node
  /\ split_ids (normalize_split_ratios node) = split_ids node
  /\ ratios_ok (normalize_split_ratios node).
Proof.
  induction node as [leaf|sid d q a (A1 & A2 & A3) b (B1 & B2 & B3)]; [by split_and!; [..|constructor]|].
  cbn. rewrite A1, A2, B1, B2. split_and!; [done|done|]. constructor; [apply normalize_ratio_ok|].
  by apply Forall_app.
Qed.

Lemma normalize_settled node : ratios_ok node -> normalize_split_ratios node = node.
Proof.
  induction node as [leaf|sid d q a IHa b IHb]; [done|]. unfold ratios_ok in *. cbn.
  rewrite Forall_cons, Forall_app. intros (Hq & Ha & Hb). rewrite normalize_ratio_id by done.
  by rewrite IHa, IHb.
Qed.

(** The tree after the prune and its collapse. *)
Definition pruned_tree (live : list string) (node : PaneNode) : PaneNode :=
  let '(emptied, pruned) := map_leaves (prune_leaf live) ∅ (normalize_split_ratios node) in
  collapse_empties pruned emptied.

Lemma bind_prune live (l : list PaneLeaf) :
  (pruned_leaf live <$> l) ≫= tabs = base.filter (fun tab => tab ∈ live) (l ≫= tabs).
Proof. induction l as [|leaf l IH]; [done|]. cbn. by rewrite pruned_tabs, IH, filter_app. Qed.

Lemma pruned_tree_spec live node :
  tree_shape node ->
  tree_shape (pruned_tree live node) /\ ratios_ok (pruned_tree live node)
  /\ tabs_of (pruned_tree live node) = base.filter (fun tab => tab ∈ live) (tabs_of node)
  /\ node_ids (pruned_tree live node) `sublist_of` node_ids node
  /\ (forall leaf, leaf ∈ all_leaves (pruned_tree live node) ->
        exists old, old ∈ all_leaves node /\ leaf = pruned_leaf live old)
  /\ (forall old, old ∈ all_leaves node -> tabs old = [] \/ tabs (pruned_leaf live old) <> [] ->
        pruned_leaf live old ∈ all_leaves (pruned_tree live node)).
Proof.
  intros Hshape. unfold pruned_tree. pose proof Hshape as [H1 H2 H3 H4].
  destruct (normalize_leaves node) as (N1 & N2 & N3).
  destruct (prune_tree live ∅ (normalize_split_ratios node)) as [P1 P2].
  destruct (map_leaves _ ∅ _) as [emptied pruned]. cbn [fst snd] in *. subst pruned.
  destruct (graft_leaves (pruned_leaf live) (normalize_split_ratios node)) as (G1 & G2 & G3).
  set (tree := graft _ _) in *. rewrite N1 in *.
  assert (Hids : node_ids tree = node_ids node).
  { unfold node_ids, pane_ids. rewrite G1, G2, N2. f_equal. rewrite <- list_fmap_compose.
    apply list_fmap_ext. intros i leaf _. apply pruned_pane. }
  assert (Htabs : tabs_of tree = base.filter (fun tab => tab ∈ live) (tabs_of node)).
  { unfold tabs_of. by rewrite G1, bind_prune. }
  assert (Hok : tree_shape tree).
  { constructor; rewrite ?Hids, ?Htabs; [done|by apply NoDup_filter| |].
    - rewrite list_elem_of_filter. naive_solver.
    - rewrite G1, Forall_fmap. eapply Forall_impl; [exact H4|]. intros leaf. apply pruned_ok. }
  split_and!.
  - by apply collapse_shape.
  - apply collapse_ratios. unfold ratios_ok in *. by rewrite G3.
  - by rewrite collapse_tabs.
  - rewrite <- Hids. destruct (collapse_sublists tree emptied) as (S1 & _ & S3).
    apply sublist_app; [done|]. by apply fmap_sublist.
  - intros leaf Hl. destruct (collapse_sublists tree emptied) as (_ & _ & S3).
    assert (Hin : leaf ∈ all_leaves tree) by by eapply elem_of_sublist.
    rewrite G1 in Hin. apply list_elem_of_fmap in Hin as (old & -> & Hold). by exists old.
  - intros old Hold Hlive. apply collapse_keeps.
    + rewrite G1. by apply list_elem_of_fmap_2.
    + intros [Hnil Hin]. rewrite pruned_pane in Hin. apply P2 in Hin as [Hin|Hin]; [set_solver|].
      destruct Hin as (other & Ho & Heq & Hne & _).
      assert (other = old) as ->.
      { pose proof (find_leaf_unique node other (shape_panes _ Hshape) Ho) as F1.
        rewrite Heq, (find_leaf_unique node old (shape_panes _ Hshape) Hold) in F1. congruence. }
      by destruct Hlive.
Qed.

Lemma reconcile_unfold layout live :
  reconcile layout live
  = let tree := pruned_tree live (root layout) in
    let orphans := base.filter (fun session => session ∉ tabs_of tree) live in
    let focused := fix_focus tree (focused_pane_id layout) in
    mkPaneLayout
      (match orphans with [] => tree | _ => update_leaf tree focused (append_orphans orphans) end) focused.
Proof. unfold reconcile, pruned_tree. by destruct (map_leaves _ ∅ _). Qed.

Lemma append_orphans_ok orphans leaf :
  orphans <> [] -> EmptyString ∉ tabs leaf -> leaf_ok leaf -> Forall leaf_ok (all_leaves (append_orphans orphans leaf)).
Proof.
  intros Hne Hnamed Hok. constructor; [|constructor]. unfold leaf_ok. cbn [tabs selected_tab]. right.
  destruct (decide (selected_tab leaf = EmptyString)) as [Hs|Hs].
  - destruct orphans; [done|]. cbn. set_solver.
  - destruct Hok as [[_ ?]|]; [done|]. set_solver.
Qed.

Lemma named_leaf node leaf : tree_shape node -> leaf ∈ all_leaves node -> EmptyString ∉ tabs leaf.
Proof. intros [_ _ H3 _] Hin Ht. apply H3. unfold tabs_of. apply list_elem_of_bind. by exists leaf. Qed.

(** What a reconciliation leaves of each pane. *)
Lemma reconcile_spec layout live :
  tree_shape (root layout) -> NoDup live -> EmptyString ∉ live ->
  layout_ok (reconcile layout live)
  /\ tabs_of (root (reconcile layout live)) ≡ₚ live
  /\ (forall id, id ∈ node_ids (root (reconcile layout live)) -> id ∈ node_ids (root layout))
  /\ (focused_pane_id layout ∈ pane_ids (root (reconcile layout live)) ->
        focused_pane_id (reconcile layout live) = focused_pane_id layout)
  /\ (forall old, old ∈ all_leaves (root layout) -> tabs old = [] \/ tabs (pruned_leaf live old) <> [] ->
        exists leaf orphans, leaf ∈ all_leaves (root (reconcile layout live)) /\ pane_id leaf = pane_id old
          /\ tabs leaf = base.filter (fun tab => tab ∈ live) (tabs old) ++ orphans
          /\ (orphans <> [] -> pane_id old = focused_pane_id (reconcile layout live))
          /\ (selected_tab old ∈ live -> selected_tab leaf = selected_tab old)).
Proof.
  intros Hshape Hnd Hnamed.
  destruct (pruned_tree_spec live (root layout) Hshape) as (P1 & P2 & P3 & P4 & P5 & P6).
  rewrite reconcile_unfold. cbv zeta. set (tree := pruned_tree live (root layout)) in *.
  set (orphans := base.filter (fun session => session ∉ tabs_of tree) live).
  assert (Hperm : tabs_of tree ++ orphans ≡ₚ live).
  { assert (Hin : tabs_of tree ≡ₚ base.filter (fun session => session ∈ tabs_of tree) live).
    { apply NoDup_Permutation; [apply P1|by apply NoDup_filter|]. intros x. rewrite list_elem_of_filter.
      split; [|tauto]. intros Hx. split; [done|]. rewrite P3 in Hx. apply list_elem_of_filter in Hx. tauto. }
    unfold orphans. rewrite Hin at 1. apply filter_app_complement. }
  pose proof (fix_focus_in tree (focused_pane_id layout)) as Hfocus.
  set (focused := fix_focus tree _) in *.
  assert (Hpane : forall old, old ∈ all_leaves (root layout) -> tabs old = [] \/ tabs (pruned_leaf live old) <> [] ->
            exists leaf more, leaf ∈ all_leaves tree /\ pane_id leaf = pane_id old
              /\ tabs leaf = base.filter (fun tab => tab ∈ live) (tabs old) ++ more
              /\ (more <> [] -> pane_id old = focused) /\ (selected_tab old ∈ live -> selected_tab leaf = selected_tab old)).
  { intros old Hold Hlive. exists (pruned_leaf live old), []. rewrite app_nil_r.
    split_and!; [by apply P6|apply pruned_pane|apply pruned_tabs|done|apply pruned_selection]. }
  assert (Hsub : forall id, id ∈ node_ids tree -> id ∈ node_ids (root layout)).
  { intros id Hin. by eapply elem_of_sublist. }
  destruct (decide (orphans = [])) as [Hnil|Hne].
  { rewrite Hnil in *. rewrite app_nil_r in Hperm. cbn [root focused_pane_id]. split_and!; try done.
    unfold focused. apply fix_focus_kept. }
  assert (Htree : match orphans with [] => tree | _ => update_leaf tree focused (append_orphans orphans) end
                  = update_leaf tree focused (append_orphans orphans)) by by destruct orphans.
  rewrite Htree. cbn [root focused_pane_id]. clear Htree.
  destruct (proj2 (find_leaf_is_Some tree focused) Hfocus) as [leaf Hleaf].
  pose proof (find_leaf_Some _ _ _ Hleaf) as [Hin Hid].
  assert (Hso : forall session, session ∈ orphans -> session ∉ tabs_of tree /\ session <> EmptyString).
  { unfold orphans. intros session [? ?]%list_elem_of_filter. split; [done|]. by intros ->. }
  destruct (regrow_shape tree focused leaf (append_orphans orphans) [] [] orphans) as (R1 & R2 & R3 & R4 & R5 & R6);
    try done; try (by cbn; rewrite ?Hid); [constructor|by intros ? ?%elem_of_nil|by cbn; rewrite app_nil_r|by apply NoDup_filter|..].
  { apply append_orphans_ok; [done|by eapply named_leaf|]. pose proof (ts_leaves _ P1) as Hall.
    rewrite Forall_forall in Hall. by apply Hall. }
  split_and!.
  - constructor; [done| |].
    + eapply regrow_ratios; [by apply shape_panes|done|done|constructor].
    + cbn [root focused_pane_id]. unfold pane_ids. rewrite <- Hid.
      assert (He : mkPaneLeaf (pane_id leaf) (tabs leaf ++ orphans)
                (if decide (selected_tab leaf = EmptyString) then default EmptyString (head orphans) else selected_tab leaf)
              ∈ all_leaves (update_leaf tree focused (append_orphans orphans))) by (apply R6; set_solver).
      rewrite Hid in He |- *. apply list_elem_of_fmap. eexists. split; [|exact He]. done.
  - by rewrite R3.
  - intros id. rewrite R2. rewrite app_nil_r. apply Hsub.
  - intros Hold. unfold focused. apply fix_focus_kept. unfold pane_ids in Hold.
    apply list_elem_of_fmap in Hold as (other & Heq & Ho). apply R5 in Ho as [[Ho _]|Ho].
    + rewrite Heq. by apply list_elem_of_fmap_2.
    + cbn in Ho. apply list_elem_of_singleton in Ho as ->. cbn in Heq. rewrite Heq.
      by apply list_elem_of_fmap_2.
  - intros old Hold Hlive. destruct (Hpane old Hold Hlive) as (other & more & O1 & O2 & O3 & O4 & O5).
    destruct (decide (pane_id other = focused)) as [Hf|Hf].
    + rewrite Hf in O2. assert (other = leaf) as ->.
      { pose proof (find_leaf_unique tree other (shape_panes _ P1) O1) as F. rewrite Hf, Hleaf in F. congruence. }
      eexists _, (more ++ orphans). split_and!; [apply R6; by left|by cbn; congruence| | |].
      * cbn. by rewrite O3, app_assoc.
      * done.
      * cbn. intros Hsel. rewrite <- O5 by done. rewrite decide_False; [done|]. rewrite O5 by done.
        intros Heq. by rewrite Heq in Hsel.
    + exists other, more. split_and!; [by apply R4|done|done|done|done].
Qed.

(** Reconciling twice with the same sessions changes nothing. *)
Lemma reconcile_settled layout live :
  layout_ok layout -> (forall tab, tab ∈ tabs_of (root layout) <-> tab ∈ live) -> reconcile layout live = layout.
Proof.
  intros [Hshape Hr Hf] Hlive. rewrite reconcile_unfold. cbv zeta.
  assert (Htree : pruned_tree live (root layout) = root layout).
  { unfold pruned_tree. rewrite normalize_settled by done.
    destruct (prune_tree live ∅ (root layout)) as [P1 P2].
    destruct (map_leaves _ ∅ (root layout)) as [emptied pruned]. cbn [fst snd] in *. subst pruned.
    assert (Hsame : forall leaf, leaf ∈ all_leaves (root layout) -> pruned_leaf live leaf = leaf).
    { intros leaf Hin. unfold pruned_leaf, prune_leaf. cbv zeta.
      rewrite (proj2 (Nat.eqb_eq _ _)); [done|]. f_equal. 
      assert (Hall : Forall (fun tab => tab ∈ live) (tabs leaf)).
      { apply Forall_forall. intros tab Ht. apply Hlive, list_elem_of_bind. by exists leaf. }
      induction Hall as [|tab l Ht _ IH]; [done|]. by rewrite filter_cons, decide_True, IH. }
    assert (emptied = ∅) as ->.
    { apply leibniz_equiv. intros id. rewrite P2. split; [|set_solver].
      intros [?|(leaf & Hin & _ & Hne & Hnil)]; [done|]. rewrite Hsame in Hnil; done. }
    rewrite collapse_none. clear -Hsame. induction (root layout) as [leaf|sid d q a IHa b IHb]; cbn in *.
    - rewrite Hsame; [done|set_solver].
    - rewrite IHa, IHb; [done|..]; intros leaf Hin; apply Hsame; set_solver. }
  rewrite Htree. assert (Hno : base.filter (fun session => session ∉ tabs_of (root layout)) live = []).
  { assert (Hall : Forall (fun s => ~ (s ∉ tabs_of (root layout))) live).
    { apply Forall_forall. intros s Hs Hn. by apply Hn, Hlive. }
    clear -Hall. induction Hall as [|s l Hs _ IH]; [done|]. by rewrite filter_cons, decide_False. }
  rewrite Hno, fix_focus_kept by done. by destruct layout.
Qed.
