(* ===== verification/LayoutRuns.v ===== *)
(** * LayoutRuns: gestures, and runs of edits

    Splitting, moving, closing, and the presets, each described on panes and
    tabs; then runs of edits, and the deck's source of pane ids. *)
From stdpp Require Import pretty.
From S2P Require Export LayoutGuarantees.

(** ** One tab moves *)

(** [tab] leaves every pane, the one it empties goes, and it takes a place of
    its own. *)
Lemma pane_of_tab_spec node tab id :
  id ∈ pane_of_tab node tab <-> exists leaf, find_leaf_of_tab node tab = Some leaf /\ pane_id leaf = id.
Proof. unfold pane_of_tab. destruct (find_leaf_of_tab node tab); set_solver. Qed.

Lemma without_nodup_perm tab l : NoDup l -> tab ∈ l -> l ≡ₚ tab :: without tab l.
Proof.
  intros Hnd Hin. unfold without. rewrite <- (filter_app_complement (fun held => held = tab) l) at 1.
  assert (Hone : base.filter (fun held => held = tab) l ≡ₚ [tab]).
  { apply NoDup_Permutation; [by apply NoDup_filter|apply NoDup_singleton|]. intros x.
    rewrite list_elem_of_filter, list_elem_of_singleton. naive_solver. }
  by rewrite Hone.
Qed.

(** A pane the removal leaves alone is one that does not hold the tab. *)
Lemma remove_tab_same leaf tab : tab ∉ tabs leaf -> remove_tab_from_leaf leaf tab = leaf.
Proof. intros Hn. unfold remove_tab_from_leaf. by rewrite (proj2 (position_None tab (tabs leaf))). Qed.

(** What is left of a pane when [tab] goes: itself, unless it was emptied. *)
Definition survives (node : PaneNode) (tab : string) (leaf : PaneLeaf) : Prop :=
  leaf ∈ all_leaves node /\ (tabs leaf = [tab] -> False).

Lemma survivor_kept node tab leaf :
  tree_shape node -> survives node tab leaf ->
  kept_leaf (pane_of_tab node tab) (remove_tab_from_leaf leaf tab).
Proof.
  intros Hshape [Hin Hne] [Hnil Hpane]. rewrite remove_tab_tabs in Hnil. rewrite remove_tab_pane in Hpane.
  apply pane_of_tab_spec in Hpane as (source & Hs & Heq).
  pose proof (find_leaf_of_tab_Some _ _ _ Hs) as [Hsin Ht].
  assert (source = leaf) as ->.
  { pose proof (find_leaf_unique node source (shape_panes _ Hshape) Hsin) as F.
    rewrite Heq, (find_leaf_unique node leaf (shape_panes _ Hshape) Hin) in F. congruence. }
  apply Hne, Permutation_singleton_r. rewrite (without_nodup_perm tab (tabs leaf)); [by rewrite Hnil| |done].
  pose proof (ts_tabs _ Hshape) as Hnd. unfold tabs_of in Hnd.
  destruct (list_elem_of_split _ _ Hin) as (l1 & l2 & El). rewrite El, bind_app, bind_cons in Hnd.
  by apply NoDup_app in Hnd as (_ & _ & (? & _ & _)%NoDup_app).
Qed.

(** The tree a split gesture grows. *)
Definition split_tree (node : PaneNode) (target split_id new_pane tab : string)
    (direction : LayoutDirection) (insert_first : bool) : PaneNode :=
  collapse_empties
    (update_leaf (remove_tab_everywhere node tab) target
       (split_with split_id new_pane tab direction insert_first))
    (pane_of_tab node tab).

Lemma split_tree_spec node target leaf split_id new_pane tab direction insert_first :
  tree_shape node -> ratios_ok node -> find_leaf node target = Some leaf -> tab <> EmptyString ->
  NoDup [split_id; new_pane] -> split_id ∉ node_ids node -> new_pane ∉ node_ids node ->
  let tree := split_tree node target split_id new_pane tab direction insert_first in
  tree_shape tree /\ ratios_ok tree
  /\ tabs_of tree ≡ₚ tab :: without tab (tabs_of node)
  /\ (forall id, id ∈ node_ids tree -> id ∈ node_ids node ++ [split_id; new_pane])
  /\ find_leaf tree new_pane = Some (mkPaneLeaf new_pane [tab] tab)
  /\ (forall other, survives node tab other -> remove_tab_from_leaf other tab ∈ all_leaves tree).
Proof.
  intros Hshape Hr Hfind Hname Hnd Hf1 Hf2. cbv zeta. unfold split_tree.
  destruct (remove_tab_leaves node tab) as (E1 & E2 & E3 & E4 & E5).
  pose proof (remove_tab_shape node tab Hshape) as Hshape'.
  pose proof (remove_tab_find node tab target) as Hfind'. rewrite Hfind in Hfind'. cbn in Hfind'.
  set (removed := remove_tab_everywhere node tab) in *.
  pose proof (find_leaf_Some _ _ _ Hfind) as [Hin Hid].
  set (leaf' := remove_tab_from_leaf leaf tab) in *.
  assert (Hid' : pane_id leaf' = target) by (unfold leaf'; by rewrite remove_tab_pane).
  set (moved := mkPaneLeaf new_pane [tab] tab).
  set (edit := split_with split_id new_pane tab direction insert_first).
  assert (Hedit : all_leaves (edit leaf') ≡ₚ [leaf'; moved] /\ split_ids (edit leaf') = [split_id]
                  /\ ratios (edit leaf') = [f64_half]).
  { unfold edit, split_with. destruct insert_first; cbn; split_and!; try done. apply Permutation_swap. }
  destruct Hedit as (L1 & L2 & L3).
  destruct (regrow_shape removed target leaf' edit [new_pane] [split_id] [tab]) as (R1 & R2 & R3 & R4 & R5 & R6);
    try done.
  - unfold pane_ids. rewrite L1. cbn. by rewrite Hid'.
  - by rewrite L2.
  - intros x. rewrite E4. set_solver.
  - unfold tabs_of. rewrite L1. cbn. done.
  - apply NoDup_singleton.
  - intros x ->%list_elem_of_singleton. split; [|done]. rewrite E5. unfold without.
    rewrite list_elem_of_filter. naive_solver.
  - rewrite L1, !Forall_cons. split_and!; [| |constructor].
    + pose proof (ts_leaves _ Hshape') as Hall. rewrite Forall_forall in Hall. apply Hall.
      by apply find_leaf_Some in Hfind' as [? _].
    + right. cbn. set_solver.
  - assert (Hr' : ratios_ok (update_leaf removed target edit)).
    { eapply regrow_ratios; [by apply shape_panes|done| |].
      - unfold ratios_ok. by rewrite E3.
      - unfold ratios_ok. rewrite L3. repeat constructor; by vm_compute. }
    assert (Hmoved : moved ∈ all_leaves (update_leaf removed target edit)).
    { apply R6. rewrite L1. set_solver. }
    assert (Hkept : moved ∈ all_leaves (collapse_empties (update_leaf removed target edit) (pane_of_tab node tab))).
    { apply collapse_keeps; [done|]. intros [Hnil _]. done. }
    pose proof (collapse_shape _ (pane_of_tab node tab) R1) as Hfinal.
    split_and!.
    + done.
    + by apply collapse_ratios.
    + rewrite collapse_tabs, R3, E5. by rewrite Permutation_app_comm.
    + intros id Hin'. destruct (collapse_sublists (update_leaf removed target edit) (pane_of_tab node tab)) as (S1 & _ & S3).
      assert (Hs : node_ids (collapse_empties (update_leaf removed target edit) (pane_of_tab node tab))
                   `sublist_of` node_ids (update_leaf removed target edit)).
      { apply sublist_app; [done|]. by apply fmap_sublist. }
      assert (Hi : id ∈ node_ids (update_leaf removed target edit)) by by eapply elem_of_sublist.
      rewrite R2, E4 in Hi. set_solver.
    + exact (find_leaf_unique _ moved (shape_panes _ Hfinal) Hkept).
    + intros other Hsurv. pose proof (survivor_kept node tab other Hshape Hsurv) as Hk.
      apply collapse_keeps; [|done]. destruct Hsurv as [Ho _].
      assert (Hr2 : remove_tab_from_leaf other tab ∈ all_leaves removed).
      { rewrite E1. by apply (list_elem_of_fmap_2 (fun l => remove_tab_from_leaf l tab)). }
      destruct (decide (pane_id other = target)) as [Heq|Hne].
      * assert (other = leaf) as ->.
        { pose proof (find_leaf_unique node other (shape_panes _ Hshape) Ho) as F.
          rewrite Heq, Hfind in F. congruence. }
        apply R6. rewrite L1. set_solver.
      * apply R4; [done|]. by rewrite remove_tab_pane.
Qed.

Lemma insert_at_perm index tab l : insert_at index tab l ≡ₚ tab :: l.
Proof.
  unfold insert_at. rewrite <- (take_drop index l) at 3. by rewrite Permutation_middle.
Qed.

Lemma move_within_perm l tab index : move_within l tab index ≡ₚ tab :: without tab l.
Proof. unfold move_within. apply insert_at_perm. Qed.

Lemma leaf_tabs_nodup node leaf : tree_shape node -> leaf ∈ all_leaves node -> NoDup (tabs leaf).
Proof.
  intros [_ Hnd _ _] Hin. unfold tabs_of in Hnd.
  destruct (list_elem_of_split _ _ Hin) as (l1 & l2 & El). rewrite El, bind_app, bind_cons in Hnd.
  by apply NoDup_app in Hnd as (_ & _ & (? & _ & _)%NoDup_app).
Qed.

(** Replacing one leaf's tabs by as many of the same. *)
Lemma retab_spec layout id leaf new focus :
  layout_ok layout -> find_leaf (root layout) id = Some leaf ->
  pane_id new = id -> tabs new ≡ₚ tabs leaf -> leaf_ok new -> focus ∈ pane_ids (root layout) ->
  layout_ok (mkPaneLayout (update_leaf (root layout) id (fun _ => Leaf new)) focus)
  /\ node_ids (update_leaf (root layout) id (fun _ => Leaf new)) ≡ₚ node_ids (root layout)
  /\ tabs_of (update_leaf (root layout) id (fun _ => Leaf new)) ≡ₚ tabs_of (root layout)
  /\ find_leaf (update_leaf (root layout) id (fun _ => Leaf new)) id = Some new
  /\ (forall other, other ∈ all_leaves (root layout) -> pane_id other <> id ->
        other ∈ all_leaves (update_leaf (root layout) id (fun _ => Leaf new))).
Proof.
  intros [Hshape Hr Hf] Hfind Hid Htabs Hok Hfocus.
  destruct (regrow_shape (root layout) id leaf (fun _ => Leaf new) [] [] []) as (R1 & R2 & R3 & R4 & R5 & R6);
    try done; try (by cbn; rewrite ?Hid, ?app_nil_r, ?Htabs).
  { constructor. } { by intros x ?%elem_of_nil. } { constructor. } { by intros x ?%elem_of_nil. }
  { by constructor. }
  rewrite app_nil_r in R2, R3.
  assert (Hnew : find_leaf (update_leaf (root layout) id (fun _ => Leaf new)) id = Some new).
  { assert (Hin : new ∈ all_leaves (update_leaf (root layout) id (fun _ => Leaf new))) by (apply R6; set_solver).
    pose proof (find_leaf_unique _ new (shape_panes _ R1) Hin) as F. by rewrite Hid in F. }
  split_and!; try done. constructor; [done| |].
  - eapply regrow_ratios; [by apply shape_panes|done|done|constructor].
  - cbn [root focused_pane_id]. unfold pane_ids. apply list_elem_of_fmap in Hfocus as (other & -> & Ho).
    destruct (decide (pane_id other = id)) as [Heq|Hne].
    + rewrite Heq. apply find_leaf_is_Some. by eexists.
    + apply list_elem_of_fmap_2. by apply R4.
Qed.

(** A tab that moves to another pane. *)
Lemma move_tree_spec node target leaf tab destination :
  tree_shape node -> ratios_ok node -> find_leaf node target = Some leaf -> tab <> EmptyString ->
  tab ∉ tabs leaf -> destination ≡ₚ tab :: tabs leaf ->
  let tree :=
    collapse_empties
      (update_leaf (remove_tab_everywhere node tab) target
         (fun held => Leaf (mkPaneLeaf (pane_id held) destination tab)))
      (pane_of_tab node tab) in
  tree_shape tree /\ ratios_ok tree /\ tabs_of tree ≡ₚ tab :: without tab (tabs_of node)
  /\ (forall id, id ∈ node_ids tree -> id ∈ node_ids node)
  /\ find_leaf tree target = Some (mkPaneLeaf target destination tab)
  /\ (forall other, survives node tab other -> pane_id other <> target ->
        remove_tab_from_leaf other tab ∈ all_leaves tree).
Proof.
  intros Hshape Hr Hfind Hname Hout Hdest. cbv zeta.
  destruct (remove_tab_leaves node tab) as (E1 & E2 & E3 & E4 & E5).
  pose proof (remove_tab_shape node tab Hshape) as Hshape'.
  pose proof (remove_tab_find node tab target) as Hfind'. rewrite Hfind in Hfind'. cbn in Hfind'.
  rewrite remove_tab_same in Hfind' by done.
  set (removed := remove_tab_everywhere node tab) in *.
  pose proof (find_leaf_Some _ _ _ Hfind) as [Hin Hid].
  set (edit := fun held => Leaf (mkPaneLeaf (pane_id held) destination tab)).
  destruct (regrow_shape removed target leaf edit [] [] [tab]) as (R1 & R2 & R3 & R4 & R5 & R6); try done.
  - unfold edit, pane_ids. cbn. by rewrite Hid.
  - by constructor.
  - by intros x ?%elem_of_nil.
  - unfold edit, tabs_of. cbn. rewrite app_nil_r, Hdest. by rewrite Permutation_cons_append.
  - apply NoDup_singleton.
  - intros x ->%list_elem_of_singleton. split; [|done]. rewrite E5. unfold without.
    rewrite list_elem_of_filter. naive_solver.
  - constructor; [|constructor]. right. cbn. rewrite Hdest. set_solver.
  - pose proof (collapse_shape _ (pane_of_tab node tab) R1) as Hfinal.
    assert (Hmoved : mkPaneLeaf target destination tab ∈ all_leaves (update_leaf removed target edit)).
    { apply R6. unfold edit. cbn. rewrite Hid. set_solver. }
    split_and!.
    + done.
    + apply collapse_ratios. eapply regrow_ratios; [by apply shape_panes|done| |constructor].
      unfold ratios_ok. by rewrite E3.
    + rewrite collapse_tabs, R3, E5. by rewrite Permutation_app_comm.
    + intros id Hin'. destruct (collapse_sublists (update_leaf removed target edit) (pane_of_tab node tab)) as (S1 & _ & S3).
      assert (Hs : node_ids (collapse_empties (update_leaf removed target edit) (pane_of_tab node tab))
                   `sublist_of` node_ids (update_leaf removed target edit)).
      { apply sublist_app; [done|]. by apply fmap_sublist. }
      assert (Hi : id ∈ node_ids (update_leaf removed target edit)) by by eapply elem_of_sublist.
      rewrite R2, E4, app_nil_r in Hi. done.
    + apply (find_leaf_unique _ (mkPaneLeaf target destination tab) (shape_panes _ Hfinal)).
      apply collapse_keeps; [done|]. intros [Hnil _]. cbn in Hnil. rewrite Hnil in Hdest.
      by apply Permutation_nil_cons in Hdest.
    + intros other Hsurv Hne. apply collapse_keeps; [|by apply survivor_kept].
      apply R4; [|by rewrite remove_tab_pane]. destruct Hsurv as [Ho _]. rewrite E1.
      by apply (list_elem_of_fmap_2 (fun l => remove_tab_from_leaf l tab)).
Qed.

Lemma close_spec layout tab :
  layout_ok layout ->
  layout_ok (close_tab layout tab)
  /\ tabs_of (root (close_tab layout tab)) = without tab (tabs_of (root layout))
  /\ (forall id, id ∈ node_ids (root (close_tab layout tab)) -> id ∈ node_ids (root layout))
  /\ (focused_pane_id layout ∈ pane_ids (root (close_tab layout tab)) ->
        focused_pane_id (close_tab layout tab) = focused_pane_id layout)
  /\ (forall other, survives (root layout) tab other ->
        remove_tab_from_leaf other tab ∈ all_leaves (root (close_tab layout tab))).
Proof.
  intros [Hshape Hr Hf]. unfold close_tab. cbn [root focused_pane_id].
  destruct (remove_tab_leaves (root layout) tab) as (E1 & E2 & E3 & E4 & E5).
  pose proof (remove_tab_shape (root layout) tab Hshape) as Hshape'.
  set (removed := remove_tab_everywhere (root layout) tab) in *.
  split_and!.
  - constructor; cbn [root focused_pane_id].
    + by apply collapse_shape.
    + apply collapse_ratios. unfold ratios_ok. by rewrite E3.
    + apply fix_focus_in.
  - by rewrite collapse_tabs, E5.
  - intros id Hin. destruct (collapse_sublists removed (pane_of_tab (root layout) tab)) as (S1 & _ & S3).
    assert (Hs : node_ids (collapse_empties removed (pane_of_tab (root layout) tab)) `sublist_of` node_ids removed).
    { apply sublist_app; [done|]. by apply fmap_sublist. }
    rewrite <- E4. by eapply elem_of_sublist.
  - apply fix_focus_kept.
  - intros other Hsurv. apply collapse_keeps; [|by apply survivor_kept]. rewrite E1.
    destruct Hsurv as [Ho _]. by apply (list_elem_of_fmap_2 (fun l => remove_tab_from_leaf l tab)).
Qed.

(** ** What the presets build

    [build_balanced] and the presets, described on ids, tabs, ratios and depth. *)

Fixpoint depth (node : PaneNode) : nat :=
  match node with Leaf _ => 1 | Split _ _ _ a b => S (Nat.max (depth a) (depth b)) end.

Definition one_tab (leaf : PaneLeaf) : Prop := tabs leaf = [selected_tab leaf].

(** A tree built from the next [k] ids, one pane per session. *)
Record built `{PaneIdSource Ids} (k : nat) (ids : Ids) (sessions : list string) (node : PaneNode)
    (ids' : Ids) : Prop := {
  bu_after : ids' = mint_after k ids;
  bu_ids : node_ids node ≡ₚ mint_list k ids;
  bu_tabs : tabs_of node = sessions;
  bu_panes : Forall one_tab (all_leaves node);
  bu_ratios : ratios_ok node;
}.

Section presets.
Context `{PaneIdSource Ids}.

Lemma leaf_of_built session ids :
  let '(node, ids') := leaf_of session ids in built 1 ids [session] node ids'.
Proof.
  unfold leaf_of. destruct (mint_pane_id ids) as [id ids'] eqn:E. constructor; cbn; rewrite ?E; try done.
  - by constructor.
  - constructor.
Qed.

(** A split over two trees built one after the other. *)
Lemma split_built ka kb ids sa sb a b ids_a ids_b direction ratio :
  ratio_ok ratio ->
  built ka (snd (mint_pane_id ids)) sa a ids_a -> built kb ids_a sb b ids_b ->
  built (S (ka + kb)) ids (sa ++ sb) (Split (fst (mint_pane_id ids)) direction ratio a b) ids_b.
Proof.
  intros Hq [A1 A2 A3 A4 A5] [B1 B2 B3 B4 B5]. subst ids_a ids_b. constructor.
  - cbn. by rewrite mint_after_add.
  - unfold node_ids, pane_ids in *. cbn. rewrite fmap_app, mint_list_app, <- A2, <- B2. solve_Permutation.
  - unfold tabs_of in *. cbn. by rewrite bind_app, A3, B3.
  - cbn. by apply Forall_app.
  - unfold ratios_ok in *. cbn. constructor; [done|]. by apply Forall_app.
Qed.

Lemma middle_bounds n : (2 <= n)%nat -> (1 <= Nat.div2 (S n) <= n - 1 /\ 2 * Nat.div2 (S n) <= S n /\ n - Nat.div2 (S n) <= Nat.div2 (S n))%nat.
Proof. intros Hn. rewrite Nat.div2_div. pose proof (Nat.div_mod (S n) 2). pose proof (Nat.mod_upper_bound (S n) 2). lia. Qed.

Lemma build_balanced_spec fuel sessions direction alternate ids :
  (length sessions <= fuel)%nat -> sessions <> [] ->
  let '(node, ids') := build_balanced fuel sessions direction alternate ids in
  built (2 * length sessions - 1) ids sessions node ids'
  /\ forall k, (length sessions <= 2 ^ k)%nat -> (depth node <= S k)%nat.
Proof.
  revert sessions direction ids. induction fuel as [|fuel IH]; intros sessions direction ids Hlen Hne.
  { destruct sessions; [done|cbn in Hlen; lia]. }
  destruct sessions as [|first [|second rest]]; [done| |].
  { pose proof (leaf_of_built first ids) as Hleaf. cbn [build_balanced].
    destruct (leaf_of first ids) as [node ids'] eqn:E. split; [done|]. unfold leaf_of in E.
    destruct (mint_pane_id ids). simplify_eq. intros k _. cbn. lia. }
  set (sessions := first :: second :: rest) in *.
  assert (Hn : (2 <= length sessions)%nat) by (cbn; lia).
  assert (Hstep : build_balanced (S fuel) sessions direction alternate ids
    = (let middle := middle_of sessions in
       let child := if alternate then other_direction direction else direction in
       let ratio := f64_div (f64_of_usize middle) (f64_of_usize (length sessions)) in
       let '(split_id, ids) := mint_pane_id ids in
       let '(a, ids) := build_balanced fuel (take middle sessions) child alternate ids in
       let '(b, ids) := build_balanced fuel (drop middle sessions) child alternate ids in
       (Split split_id direction (normalize_pane_ratio ratio) a b, ids))) by done.
  rewrite Hstep. clear Hstep. cbv zeta. destruct (middle_bounds _ Hn) as (Hm & Hm1 & Hm2).
  unfold middle_of. set (middle := Nat.div2 (S (length sessions))) in *.
  set (child := if alternate then _ else direction). set (ratio := f64_div _ _).
  assert (La : length (take middle sessions) = middle) by (rewrite length_take; lia).
  assert (Lb : length (drop middle sessions) = (length sessions - middle)%nat) by by rewrite length_drop.
  pose proof (surjective_pairing (mint_pane_id ids)) as Hmint.
  destruct (mint_pane_id ids) as [split_id ids1] eqn:E1. cbn [fst snd] in Hmint.
  pose proof (IH (take middle sessions) child ids1 ltac:(lia)) as IHa.
  destruct (build_balanced fuel (take middle sessions) child alternate ids1) as [a ids2].
  destruct IHa as [Ha Da]; [intros Hnil; rewrite Hnil in La; change (length []) with 0%nat in La; lia|].
  pose proof (IH (drop middle sessions) child ids2 ltac:(lia)) as IHb.
  destruct (build_balanced fuel (drop middle sessions) child alternate ids2) as [b ids3].
  destruct IHb as [Hb Db]; [intros Hnil; rewrite Hnil in Lb; change (length []) with 0%nat in Lb; lia|].
  split.
  - rewrite La in Ha. rewrite Lb in Hb.
    replace (2 * length sessions - 1)%nat with (S ((2 * middle - 1) + (2 * (length sessions - middle) - 1))) by lia.
    rewrite <- (take_drop middle sessions) at 2. replace split_id with (fst (mint_pane_id ids)) by by rewrite E1.
    apply (split_built _ _ _ _ _ _ _ ids2); [apply normalize_ratio_ok|by rewrite E1|done].
  - intros k Hk. destruct k as [|k]; [cbn in Hk; lia|]. cbn [Nat.pow] in Hk.
    rewrite La in Da. rewrite Lb in Db.
    specialize (Da k ltac:(lia)). specialize (Db k ltac:(lia)). cbn [depth]. lia.
Qed.

Lemma built_shape k ids sessions node ids' :
  built k ids sessions node ids' -> NoDup (mint_list k ids) -> NoDup sessions -> EmptyString ∉ sessions ->
  tree_shape node.
Proof.
  intros [B1 B2 B3 B4 B5] Hnd Hs Hnamed. constructor; rewrite ?B3; try done.
  - by rewrite B2.
  - eapply Forall_impl; [exact B4|]. intros leaf Hone. right. rewrite Hone. set_solver.
Qed.

Lemma built_layout k ids sessions node ids' :
  built k ids sessions node ids' -> NoDup (mint_list k ids) -> NoDup sessions -> EmptyString ∉ sessions ->
  layout_ok (mkPaneLayout node (default EmptyString (pane_id <$> head (all_leaves node)))).
Proof.
  intros Hb Hnd Hs Hnamed. constructor; cbn [root focused_pane_id].
  - by eapply built_shape.
  - apply Hb.
  - rewrite head_all_leaves. cbn. apply list_elem_of_fmap_2, first_leaf_in.
Qed.

Lemma default_layout_minted sessions ids :
  default_layout sessions ids
  = (mkPaneLayout (Leaf (mkPaneLeaf (fst (mint_pane_id ids)) sessions (default EmptyString (head sessions))))
       (fst (mint_pane_id ids)), mint_after 1 ids).
Proof. unfold default_layout. cbn [mint_after]. by destruct (mint_pane_id ids). Qed.

(** An arrangement of one pane. *)
Lemma single_layout leaf :
  NoDup (tabs leaf) -> EmptyString ∉ tabs leaf -> leaf_ok leaf -> layout_ok (mkPaneLayout (Leaf leaf) (pane_id leaf)).
Proof.
  intros Hnd Hnamed Hok.
  assert (Htabs : tabs_of (Leaf leaf) = tabs leaf) by (unfold tabs_of; cbn; apply app_nil_r).
  constructor; cbn [root focused_pane_id]; [constructor|constructor|set_solver].
  - apply NoDup_singleton.
  - by rewrite Htabs.
  - by rewrite Htabs.
  - constructor; [done|constructor].

Qed.

Definition named (session_ids : list string) : list string :=
  base.filter (fun session => session <> EmptyString) session_ids.

(** An arrangement with one pane per session, in order, over the next [k] ids. *)
Record tiles (k : nat) (ids : Ids) (sessions : list string) (layout : PaneLayout) : Prop := {
  tl_budget : (k <= Nat.max 1 (2 * length sessions))%nat;
  tl_ok : layout_ok layout;
  tl_tabs : tabs_of (root layout) = sessions;
  tl_panes : sessions <> [] -> Forall one_tab (all_leaves (root layout));
  tl_ids : forall id, id ∈ node_ids (root layout) -> id ∈ mint_list k ids;
  tl_depth : forall j, (length sessions <= 2 ^ j)%nat -> (depth (root layout) <= S (S j))%nat;
}.

Lemma built_tiles k ids sessions node ids' :
  built k ids sessions node ids' -> (k <= 2 * length sessions)%nat ->
  NoDup sessions -> EmptyString ∉ sessions -> NoDup (mint_list (2 * length sessions) ids) ->
  (forall j, (length sessions <= 2 ^ j)%nat -> (depth node <= S (S j))%nat) ->
  tiles k ids sessions (mkPaneLayout node (default EmptyString (pane_id <$> head (all_leaves node)))).
Proof.
  intros Hb Hk Hs Hnamed Hmint Hdepth. constructor; cbn [root]; [lia| |apply (bu_tabs _ _ _ _ _ Hb)| | |done].
  - eapply built_layout; [done| |done|done].
    replace (2 * length sessions)%nat with (k + (2 * length sessions - k))%nat in Hmint by lia.
    rewrite mint_list_app in Hmint. by apply NoDup_app in Hmint as (? & _ & _).
  - intros _. apply (bu_panes _ _ _ _ _ Hb).
  - intros id. by rewrite (bu_ids _ _ _ _ _ Hb).
Qed.

Lemma default_tiles sessions ids :
  (length sessions <= 1)%nat -> EmptyString ∉ sessions ->
  exists layout, default_layout sessions ids = (layout, mint_after 1 ids) /\ tiles 1 ids sessions layout.
Proof.
  intros Hlen Hnamed. rewrite default_layout_minted. eexists. split; [done|].
  destruct sessions as [|main [|]]; [| |cbn in Hlen; lia].
  - constructor; [cbn; lia| |done|done|cbn; set_solver|intros; cbn; lia].
    apply single_layout; [constructor|set_solver|by left].
  - constructor; [cbn; lia| |done|intros _; constructor; [done|constructor]|cbn; set_solver|intros; cbn; lia].
    apply single_layout; [apply NoDup_singleton|done|right; cbn; set_solver].
Qed.

(** Every preset: one pane per session, in order, over fresh ids. *)
Lemma preset_spec kind session_ids ids :
  NoDup session_ids -> NoDup (mint_list (2 * length (named session_ids)) ids) ->
  exists k layout, preset_layout kind session_ids ids = (layout, mint_after k ids)
    /\ tiles k ids (named session_ids) layout.
Proof.
  intros Hnd Hmint. unfold preset_layout. fold (named session_ids). cbv zeta.
  assert (Hs : NoDup (named session_ids)) by by apply NoDup_filter.
  assert (Hnamed : EmptyString ∉ named session_ids) by (unfold named; rewrite list_elem_of_filter; naive_solver).
  destruct (named session_ids) as [|main [|second rest]] eqn:Es.
  - destruct (default_tiles [] ids) as (layout & -> & Ht); [cbn; lia|done|]. by exists 1%nat, layout.
  - destruct (default_tiles [main] ids) as (layout & -> & Ht); [cbn; lia|done|]. by exists 1%nat, layout.
  - set (sessions := main :: second :: rest) in *.
    assert (Hbal : forall direction alternate,
              let '(node, ids') := build_balanced (length sessions) sessions direction alternate ids in
              exists k layout, (mkPaneLayout node (default EmptyString (pane_id <$> head (all_leaves node))), ids')
                = (layout, mint_after k ids) /\ tiles k ids sessions layout).
    { intros direction alternate.
      pose proof (build_balanced_spec (length sessions) sessions direction alternate ids) as Hspec.
      destruct (build_balanced _ sessions direction alternate ids) as [node ids'].
      destruct Hspec as [Hb Hd]; [lia|done|]. eexists _, _. split; [by rewrite (bu_after _ _ _ _ _ Hb)|].
      eapply built_tiles; [done|lia|done|done|done|]. intros j Hj. specialize (Hd j Hj). lia. }
    destruct kind.
    + specialize (Hbal Row false). destruct (build_balanced _ sessions Row false ids). exact Hbal.
    + specialize (Hbal Col false). destruct (build_balanced _ sessions Col false ids). exact Hbal.
    + specialize (Hbal Row true). destruct (build_balanced _ sessions Row true ids). exact Hbal.
    + destruct (mint_pane_id ids) as [split_id ids1] eqn:E1.
      pose proof (leaf_of_built main ids1) as Ha. destruct (leaf_of main ids1) as [a ids2] eqn:Ea.
      pose proof (build_balanced_spec (length sessions) (second :: rest) Col false ids2) as Hspec.
      destruct (build_balanced _ (second :: rest) Col false ids2) as [b ids3].
      destruct Hspec as [Hb Hd]; [cbn; lia|done|].
      pose proof (split_built 1 (2 * length (second :: rest) - 1) ids [main] (second :: rest) a b ids2 ids3 Row (normalize_pane_ratio f64_main)
                    (normalize_ratio_ok _)) as Hsplit.
      rewrite E1 in Hsplit. cbn [fst snd] in Hsplit. specialize (Hsplit Ha Hb).
      eexists _, _. split; [by rewrite (bu_after _ _ _ _ _ Hsplit)|].
      eapply built_tiles; [exact Hsplit|cbn; lia|done|done|done|]. intros j Hj. cbn [depth].
      specialize (Hd j ltac:(cbn in Hj |- *; lia)).
      unfold leaf_of in Ea. destruct (mint_pane_id ids1). simplify_eq. cbn. lia.
Qed.

End presets.

Lemma balance_same node :
  all_leaves (balance_node node) = all_leaves node /\ split_ids (balance_node node) = split_ids node
  /\ ratios_ok (balance_node node) /\ depth (balance_node node) = depth node.
Proof.
  induction node as [leaf|sid d q a (A1 & A2 & A3 & A4) b (B1 & B2 & B3 & B4)]; [by split_and!; [..|constructor|]|].
  cbn [balance_node all_leaves split_ids depth]. rewrite A1, A2, A4, B1, B2, B4. split_and!; try done.
  unfold ratios_ok in *. cbn [ratios]. constructor; [|by apply Forall_app].
  rewrite (proj2 (Nat.eqb_neq _ _)); [apply normalize_ratio_ok|].
  pose proof (all_leaves_nonempty a). destruct (all_leaves a); cbn; [done|lia].
Qed.

Lemma set_ratio_same node split_id ratio :
  all_leaves (set_ratio node split_id ratio) = all_leaves node
  /\ split_ids (set_ratio node split_id ratio) = split_ids node
  /\ (ratios_ok node -> ratios_ok (set_ratio node split_id ratio)).
Proof.
  induction node as [leaf|sid d q a (A1 & A2 & A3) b (B1 & B2 & B3)]; [done|].
  cbn. rewrite A1, A2, B1, B2. split_and!; try done. unfold ratios_ok in *. cbn.
  rewrite !Forall_cons, !Forall_app. intros (Hq & Ha & Hb). split; [|tauto].
  destruct (decide (sid = split_id)); [apply normalize_ratio_ok|done].
Qed.

(** ** Every edit of an arrangement, one after another

    The edits a deck and a command can ask for, each shown to keep an
    arrangement sound as long as the id source answers fresh ids. *)
(** ** Single edits *)

Lemma update_leaf_const node id leaf edit :
  NoDup (pane_ids node) -> find_leaf node id = Some leaf ->
  update_leaf node id edit = update_leaf node id (fun _ => edit leaf).
Proof.
  intros Hnd Hfind. destruct (update_leaf_split node id leaf Hnd Hfind) as (l1 & l2 & E & Hne & _).
  assert (Hall : forall other, other ∈ all_leaves node -> pane_id other = id -> other = leaf).
  { intros other. rewrite E, elem_of_app, elem_of_cons. intros [Ho|[->|Ho]] Hid; [|done|];
      destruct (Hne other); [|done| |done]; apply elem_of_app; auto. }
  clear -Hall. induction node as [held|sid d q a IHa b IHb]; cbn in *.
  - destruct (decide (pane_id held = id)); [|done]. rewrite (Hall held); [done|by left|done].
  - rewrite IHa, IHb; [done|..]; intros other Ho; apply Hall, elem_of_app; auto.
Qed.

Lemma leaf_ok_in node leaf : tree_shape node -> leaf ∈ all_leaves node -> leaf_ok leaf.
Proof. intros Hshape. pose proof (ts_leaves _ Hshape) as Hall. rewrite Forall_forall in Hall. apply Hall. Qed.

Lemma leaf_tabs_in node leaf tab : leaf ∈ all_leaves node -> tab ∈ tabs leaf -> tab ∈ tabs_of node.
Proof. intros Hin Ht. unfold tabs_of. apply list_elem_of_bind. by exists leaf. Qed.

Lemma tab_named node tab : tree_shape node -> tab ∈ tabs_of node -> tab <> EmptyString.
Proof. intros [_ _ Hn _] Ht ->. done. Qed.

(** The pane found for a tab is the one that holds it. *)
Lemma tab_pane_iff node pane target tab :
  tree_shape node -> find_leaf node pane = Some target ->
  (pane_id <$> find_leaf_of_tab node tab = Some pane <-> tab ∈ tabs target).
Proof.
  intros Hshape [Hin Hid]%find_leaf_Some. split.
  - destruct (find_leaf_of_tab node tab) as [leaf|] eqn:E; [|done]. intros [= Heq].
    apply find_leaf_of_tab_Some in E as [Hl Ht].
    pose proof (find_leaf_unique node leaf (shape_panes _ Hshape) Hl) as F.
    rewrite Heq, <- Hid, (find_leaf_unique node target (shape_panes _ Hshape) Hin) in F. congruence.
  - intros Ht. destruct (find_leaf_of_tab node tab) as [leaf|] eqn:E.
    + apply find_leaf_of_tab_Some in E as [Hl Ht']. cbn. rewrite <- Hid. do 2 f_equal.
      by eapply tab_leaf_unique; [apply Hshape|..].
    + apply find_leaf_of_tab_None in E. destruct E. by eapply leaf_tabs_in.
Qed.

Lemma reorder_spec layout id leaf ordered :
  layout_ok layout -> find_leaf (root layout) id = Some leaf -> ordered ≡ₚ tabs leaf ->
  layout_ok (reorder_tab layout id ordered)
  /\ node_ids (root (reorder_tab layout id ordered)) ≡ₚ node_ids (root layout)
  /\ tabs_of (root (reorder_tab layout id ordered)) ≡ₚ tabs_of (root layout)
  /\ find_leaf (root (reorder_tab layout id ordered)) id = Some (mkPaneLeaf id ordered (selected_tab leaf))
  /\ (forall other, other ∈ all_leaves (root layout) -> pane_id other <> id ->
        other ∈ all_leaves (root (reorder_tab layout id ordered))).
Proof.
  intros Hok Hfind Hperm. pose proof Hok as [Hshape _ Hfocus]. pose proof (find_leaf_Some _ _ _ Hfind) as [Hin Hid].
  unfold reorder_tab. rewrite (update_leaf_const _ _ leaf) by (by apply shape_panes || done).
  rewrite Hid. cbn [root].
  apply (retab_spec layout id leaf (mkPaneLeaf id ordered (selected_tab leaf)) (focused_pane_id layout)); try done.
  destruct (leaf_ok_in _ _ Hshape Hin) as [[Hnil Hsel]|Hsel]; [left|right]; cbn [tabs selected_tab].
  - rewrite Hnil in Hperm. by apply Permutation_nil_r in Hperm as ->.
  - by rewrite Hperm.
Qed.

Lemma select_spec layout tab leaf :
  layout_ok layout -> find_leaf_of_tab (root layout) tab = Some leaf ->
  layout_ok (select_tab layout tab)
  /\ node_ids (root (select_tab layout tab)) ≡ₚ node_ids (root layout)
  /\ tabs_of (root (select_tab layout tab)) ≡ₚ tabs_of (root layout)
  /\ find_leaf (root (select_tab layout tab)) (pane_id leaf) = Some (mkPaneLeaf (pane_id leaf) (tabs leaf) tab)
  /\ (forall other, other ∈ all_leaves (root layout) -> pane_id other <> pane_id leaf ->
        other ∈ all_leaves (root (select_tab layout tab))).
Proof.
  intros Hok Htab. pose proof Hok as [Hshape _ Hfocus].
  pose proof (find_leaf_of_tab_Some _ _ _ Htab) as [Hin Ht].
  pose proof (find_leaf_unique _ leaf (shape_panes _ Hshape) Hin) as Hfind.
  unfold select_tab. rewrite Htab. rewrite (update_leaf_const _ _ leaf) by (by apply shape_panes || done).
  cbn [root].
  apply (retab_spec layout (pane_id leaf) leaf (mkPaneLeaf (pane_id leaf) (tabs leaf) tab) (pane_id leaf)); try done.
  - by right.
  - by apply list_elem_of_fmap_2.
Qed.

(** ** Edits and their runs *)

Inductive LayoutEdit :=
| EReconcile (live : list string)
| ESplit (target : string) (direction : LayoutDirection) (tab : string) (insert_first : bool)
| EMove (tab to_pane_id : string) (index : option nat)
| EReorder (id : string) (ordered : list string)
| ESelect (tab : string)
| EFocus (id : string)
| EClose (tab : string)
| ERatio (split_id : string) (ratio : f64)
| EArrange (kind : ArrangeKind) (session_ids : list string)
| ECommand (command : LegacyUiCommand) (live : list string).

(** What the callers owe: sessions named once, and a strip reordered by its own tabs. *)
Definition edit_ok (layout : PaneLayout) (edit : LayoutEdit) : Prop :=
  match edit with
  | EReconcile live => NoDup live /\ EmptyString ∉ live
  | ESplit _ _ tab _ | EMove tab _ _ => tab <> EmptyString
  | EReorder id ordered => forall leaf, find_leaf (root layout) id = Some leaf -> ordered ≡ₚ tabs leaf
  | EArrange _ session_ids => NoDup session_ids
  | ECommand _ live => NoDup live
  | ESelect _ | EFocus _ | EClose _ | ERatio _ _ => True
  end.

(** How many ids an edit may draw. *)
Definition edit_cost (edit : LayoutEdit) : nat :=
  match edit with
  | ESplit _ _ _ _ | ECommand (PlaceSplit _ _ _ _) _ => 2
  | EArrange _ sessions | ECommand (Arrange _) sessions => Nat.max 1 (2 * length sessions)
  | _ => 0
  end.

Section runs.
Context `{PaneIdSource Ids}.

Definition apply_edit (edit : LayoutEdit) (layout : PaneLayout) (ids : Ids) : PaneLayout * Ids :=
  match edit with
  | EReconcile live => (reconcile layout live, ids)
  | ESplit target direction tab insert_first => split_leaf layout target direction tab insert_first ids
  | EMove tab to_pane_id index => (move_tab layout tab to_pane_id index, ids)
  | EReorder id ordered => (reorder_tab layout id ordered, ids)
  | ESelect tab => (select_tab layout tab, ids)
  | EFocus id => (focus_pane layout id, ids)
  | EClose tab => (close_tab layout tab, ids)
  | ERatio split_id ratio =>
      (mkPaneLayout (set_ratio (root layout) split_id ratio) (focused_pane_id layout), ids)
  | EArrange kind session_ids => arrange_layout kind layout session_ids ids
  | ECommand command live =>
      let '(next, ids) := apply_ui_command_to_layout layout command live ids in (default layout next, ids)
  end.

Fixpoint run_edits (edits : list LayoutEdit) (layout : PaneLayout) (ids : Ids) : PaneLayout * Ids :=
  match edits with
  | [] => (layout, ids)
  | edit :: rest => let '(layout, ids) := apply_edit edit layout ids in run_edits rest layout ids
  end.

Fixpoint edits_ok (edits : list LayoutEdit) (layout : PaneLayout) (ids : Ids) : Prop :=
  match edits with
  | [] => True
  | edit :: rest =>
      edit_ok layout edit
      /\ let '(layout, ids) := apply_edit edit layout ids in edits_ok rest layout ids
  end.

Definition edits_cost (edits : list LayoutEdit) : nat := sum_list (edit_cost <$> edits).

(** A sound answer that drew at most [cost] ids. *)
Definition sound (cost : nat) (layout : PaneLayout) (ids : Ids) (answer : PaneLayout * Ids) : Prop :=
  exists k, (k <= cost)%nat /\ snd answer = mint_after k ids /\ layout_ok (fst answer)
    /\ forall id, id ∈ node_ids (root (fst answer)) -> id ∈ node_ids (root layout) \/ id ∈ mint_list k ids.

Lemma sound_same cost layout ids next :
  layout_ok next -> (forall id, id ∈ node_ids (root next) -> id ∈ node_ids (root layout)) ->
  sound cost layout ids (next, ids).
Proof. intros Hok Hin. exists 0%nat. split_and!; [lia|done|done|]. intros id Hid. left. by apply Hin. Qed.

Lemma sound_le j k layout ids answer : (j <= k)%nat -> sound j layout ids answer -> sound k layout ids answer.
Proof. intros Hle (n & Hn & Hrest). exists n. split; [lia|done]. Qed.

Lemma sound_perm cost layout ids next :
  layout_ok next -> node_ids (root next) ≡ₚ node_ids (root layout) -> sound cost layout ids (next, ids).
Proof. intros Hok Hp. apply sound_same; [done|]. intros id. by rewrite Hp. Qed.

Lemma reorder_sound cost layout ids id ordered :
  layout_ok layout -> edit_ok layout (EReorder id ordered) -> sound cost layout ids (reorder_tab layout id ordered, ids).
Proof.
  intros Hok Hperm. cbn in Hperm. destruct (find_leaf (root layout) id) as [leaf|] eqn:E.
  - destruct (reorder_spec layout id leaf ordered) as (S1 & S2 & _); [done|done|by apply Hperm|].
    by apply sound_perm.
  - assert (Hno : reorder_tab layout id ordered = layout).
    { unfold reorder_tab. destruct layout as [node focus]. cbn in *. f_equal.
      clear -E. induction node as [leaf|sid d q a IHa b IHb]; cbn in *.
      - by destruct (decide (pane_id leaf = id)).
      - destruct (find_leaf a id); [done|]. by rewrite IHa, IHb. }
    rewrite Hno. by apply sound_perm.
Qed.

Lemma move_sound cost layout ids tab pane index :
  layout_ok layout -> tab <> EmptyString -> sound cost layout ids (move_tab layout tab pane index, ids).
Proof.
  intros Hok Hname. unfold move_tab. destruct (find_leaf (root layout) pane) as [target|] eqn:E; [|by apply sound_perm].
  pose proof (tab_pane_iff _ _ _ tab (lo_shape _ Hok) E) as Hiff.
  destruct (decide (_ = Some pane)) as [Hsame|Hother].
  - apply reorder_sound; [done|]. intros leaf. rewrite E. intros [= <-]. rewrite move_within_perm.
    symmetry. apply without_nodup_perm; [|by apply Hiff].
    apply (leaf_tabs_nodup (root layout)); [apply Hok|by apply find_leaf_Some in E as [? _]].
  - destruct (move_tree_spec (root layout) pane target tab (insert_at (insertion_point index (tabs target)) tab (tabs target)))
      as (M1 & M2 & M3 & M4 & M5 & M6); [apply Hok|apply Hok|done|done|by rewrite <- Hiff|apply insert_at_perm|].
    apply sound_same; [|done]. constructor; [done|done|]. cbn. apply find_leaf_is_Some. by eexists.
Qed.

Lemma split_sound layout ids target direction tab insert_first :
  layout_ok layout -> tab <> EmptyString -> fresh_ids 2 (node_ids (root layout)) ids ->
  sound 2 layout ids (split_leaf layout target direction tab insert_first ids).
Proof.
  intros Hok Hname [Hnd Hfresh]. unfold split_leaf.
  destruct (negb (is_portable direction)); [by apply sound_perm|].
  destruct (find_leaf (root layout) target) as [leaf|] eqn:E; [|by apply sound_perm].
  destruct (_ && _); [by apply sound_perm|]. cbn [mint_list] in Hnd, Hfresh.
  destruct (mint_pane_id ids) as [new_pane ids1] eqn:E1. cbn [fst snd] in *.
  destruct (mint_pane_id ids1) as [split_id ids2] eqn:E2. cbn [fst snd] in *.
  fold (split_tree (root layout) target split_id new_pane tab direction insert_first).
  destruct (split_tree_spec (root layout) target leaf split_id new_pane tab direction insert_first)
    as (T1 & T2 & T3 & T4 & T5 & T6); try done; try apply Hok.
  - eapply NoDup_Permutation_proper; [apply Permutation_swap|done].
  - apply Hfresh. set_solver.
  - apply Hfresh. set_solver.
  - exists 2%nat. cbn [fst snd root mint_after mint_list]. rewrite E1. cbn [fst snd]. rewrite E2. cbn [fst snd].
    split_and!; [lia|done| |].
    + constructor; cbn [root focused_pane_id]; [done|done|]. apply find_leaf_is_Some. by eexists.
    + intros id Hid. apply T4 in Hid. set_solver.
Qed.

Lemma arrange_sound kind layout ids sessions :
  layout_ok layout -> NoDup sessions -> NoDup (mint_list (Nat.max 1 (2 * length sessions)) ids) ->
  sound (Nat.max 1 (2 * length sessions)) layout ids (arrange_layout kind layout sessions ids).
Proof.
  intros Hok Hnd Hmint. destruct kind as [kind|]; cbn [arrange_layout].
  - assert (Hlen : (length (named sessions) <= length sessions)%nat) by apply length_filter.
    destruct (preset_spec kind sessions ids) as (k & next & -> & Ht); [done| |].
    + replace (Nat.max 1 (2 * length sessions))%nat
        with (2 * length (named sessions) + (Nat.max 1 (2 * length sessions) - 2 * length (named sessions)))%nat in Hmint by lia.
      rewrite mint_list_app in Hmint. by apply NoDup_app in Hmint as (? & _ & _).
    + exists k. split_and!; [|done|apply Ht|].
      * pose proof (tl_budget _ _ _ _ Ht). lia.
      * intros id Hid. right. by apply (tl_ids _ _ _ _ Ht).
  - destruct (balance_same (root layout)) as (B1 & B2 & B3 & B4).
    assert (Hids : node_ids (balance_node (root layout)) = node_ids (root layout)).
    { unfold node_ids, pane_ids. by rewrite B1, B2. }
    apply sound_perm; [|unfold balance_layout; cbn [root]; by rewrite Hids].
    destruct Hok as [[S1 S2 S3 S4] Hr Hf]. unfold balance_layout. constructor; cbn [root focused_pane_id]; [|done|].
    + constructor; rewrite ?Hids; unfold tabs_of; by rewrite ?B1.
    + unfold pane_ids. by rewrite B1.
Qed.

Lemma select_sound cost layout ids tab : layout_ok layout -> sound cost layout ids (select_tab layout tab, ids).
Proof.
  intros Hok. destruct (find_leaf_of_tab (root layout) tab) as [leaf|] eqn:E.
  - destruct (select_spec layout tab leaf) as (S1 & S2 & _); [done|done|]. by apply sound_perm.
  - unfold select_tab. rewrite E. by apply sound_perm.
Qed.

Lemma focus_sound cost layout ids id : layout_ok layout -> sound cost layout ids (focus_pane layout id, ids).
Proof.
  intros Hok. unfold focus_pane. destruct (find_leaf (root layout) id) eqn:E; [|by apply sound_perm].
  apply sound_perm; [|done]. destruct Hok as [? ? ?]. constructor; [done|done|]. cbn.
  apply find_leaf_is_Some. by eexists.
Qed.

Lemma ratio_sound cost layout ids split_id ratio :
  layout_ok layout ->
  sound cost layout ids (mkPaneLayout (set_ratio (root layout) split_id ratio) (focused_pane_id layout), ids).
Proof.
  intros [[S1 S2 S3 S4] Hr Hf]. destruct (set_ratio_same (root layout) split_id ratio) as (R1 & R2 & R3).
  assert (Hids : node_ids (set_ratio (root layout) split_id ratio) = node_ids (root layout)).
  { unfold node_ids, pane_ids. by rewrite R1, R2. }
  apply sound_perm; [|cbn [root]; by rewrite Hids]. constructor; cbn [root focused_pane_id]; [|by apply R3|].
  - constructor; rewrite ?Hids; unfold tabs_of; by rewrite ?R1.
  - unfold pane_ids. by rewrite R1.
Qed.
Lemma command_sound command live layout ids :
  layout_ok layout -> NoDup live -> fresh_ids (edit_cost (ECommand command live)) (node_ids (root layout)) ids ->
  sound (edit_cost (ECommand command live)) layout ids (apply_edit (ECommand command live) layout ids).
Proof.
  intros Hok Hnd Hfresh. pose proof (lo_shape _ Hok) as Hshape.
  destruct command as [path|session anchor dir first|session|session|session dest|preset|session|session off]; cbn [apply_edit apply_ui_command_to_layout];
    try by apply sound_perm.
  - destruct (find_leaf_of_tab (root layout) anchor) as [leaf|]; [|by apply sound_perm].
    destruct (decide (session = EmptyString)); [by apply sound_perm|].
    destruct (LayoutDirection_parse dir) as [direction|]; [|by apply sound_perm].
    pose proof (split_sound layout ids (pane_id leaf) direction session first Hok) as Hsplit.
    destruct (split_leaf _ _ _ _ _ ids). by apply Hsplit.
  - destruct (find_leaf_of_tab (root layout) session); [by apply select_sound|by apply sound_perm].
  - destruct (find_leaf_of_tab (root layout) session); [by apply focus_sound|by apply sound_perm].
  - destruct (find_leaf_of_tab (root layout) dest); [|by apply sound_perm].
    destruct (find_leaf_of_tab (root layout) session) as [leaf|] eqn:E; [|by apply sound_perm].
    apply move_sound; [done|]. apply find_leaf_of_tab_Some in E as [Hin Ht].
    eapply tab_named; [done|]. by eapply leaf_tabs_in.
  - destruct (ArrangeKind_parse preset) as [kind|]; [|by apply sound_perm].
    pose proof (arrange_sound kind layout ids live Hok Hnd) as Harr. destruct Hfresh as [Hmint _].
    destruct (arrange_layout _ _ _ ids). by apply Harr.
Qed.

Lemma edit_sound edit layout ids :
  layout_ok layout -> edit_ok layout edit -> fresh_ids (edit_cost edit) (node_ids (root layout)) ids ->
  sound (edit_cost edit) layout ids (apply_edit edit layout ids).
Proof.
  intros Hok He Hfresh. destruct edit as [live|target dir tab first|tab pane index|id ordered|tab|id|tab|split_id ratio|kind sessions|command live];
    cbn [apply_edit edit_ok edit_cost] in *.
  - destruct He as [Hnd Hn]. destruct (reconcile_spec layout live) as (R1 & _ & R3 & _); [apply Hok|done|done|].
    by apply sound_same.
  - by apply split_sound.
  - by apply move_sound.
  - by apply reorder_sound.
  - by apply select_sound.
  - by apply focus_sound.
  - destruct (close_spec layout tab Hok) as (C1 & _ & C3 & _). by apply sound_same.
  - by apply ratio_sound.
  - apply arrange_sound; [done|done|apply Hfresh].
  - by apply command_sound.
Qed.

Lemma edits_sound edits layout ids :
  layout_ok layout -> edits_ok edits layout ids -> fresh_ids (edits_cost edits) (node_ids (root layout)) ids ->
  layout_ok (fst (run_edits edits layout ids)).
Proof.
  revert layout ids. induction edits as [|edit rest IH]; intros layout ids Hok Hedits Hfresh; [done|].
  destruct Hedits as [He Hrest]. change (edits_cost (edit :: rest)) with (edit_cost edit + edits_cost rest)%nat in Hfresh.
  destruct (edit_sound edit layout ids Hok He) as (k & Hk & Hids & Hok' & Hin).
  { eapply fresh_ids_le; [|exact Hfresh]. lia. }
  cbn [run_edits]. destruct (apply_edit edit layout ids) as [next ids']. cbn [fst snd] in *. subst ids'.
  apply IH; [done|done|]. eapply fresh_ids_after; [|exact Hin].
  eapply fresh_ids_le; [|exact Hfresh]. lia.
Qed.
(** But for a reorder, what is owed does not depend on the arrangement. *)
Lemma edits_ok_static edits layout ids :
  Forall (fun edit => (forall at_layout, edit_ok at_layout edit)) edits -> edits_ok edits layout ids.
Proof.
  intros Hall. revert layout ids. induction Hall as [|edit rest He _ IH]; intros layout ids; [done|].
  cbn [edits_ok]. split; [apply He|]. destruct (apply_edit edit layout ids). apply IH.
Qed.
End runs.

(** ** The deck's source of pane ids

    [DeckPaneIds] and [UnseededIds] of [deck/state.rs]: one page load never
    answers the same id twice. *)

Record DeckPaneIds := mkDeckPaneIds { epoch_ms : Z; minted : Z }.

Definition DeckPaneIds_new (epoch_ms : Z) : DeckPaneIds := mkDeckPaneIds epoch_ms 0.

Definition hex_digit (digit : Z) : Ascii.ascii :=
  Ascii.ascii_of_N (Z.to_N (if digit <? 10 then 48 + digit else 87 + digit)).

(** [{:x}] of a [u64]: its digits, least first in the accumulator. *)
Fixpoint hex_loop (fuel : nat) (value : Z) (digits : string) : string :=
  match fuel with
  | O => digits
  | S fuel =>
      let digits := String (hex_digit (value mod 16)) digits in
      if value <? 16 then digits else hex_loop fuel (value / 16) digits
  end.

Definition hex_u64 (value : Z) : string := hex_loop 16 value EmptyString.

(** [format!("pane-{:x}-{}", epoch_ms, minted)]. *)
Definition deck_pane_id (epoch_ms minted : Z) : string :=
  ("pane-" +:+ (hex_u64 epoch_ms +:+ ("-" +:+ pretty (Z.to_N minted))))%string.

(** The addition wraps as a release build's does. *)
#[global] Instance DeckPaneIds_source : PaneIdSource DeckPaneIds :=
  fun ids =>
    let minted := u64 (minted ids + 1) in
    (deck_pane_id (epoch_ms ids) minted, mkDeckPaneIds (epoch_ms ids) minted).

(** The source of a render-time resolve. *)
Record UnseededIds := mkUnseededIds {}.

#[global] Instance UnseededIds_source : PaneIdSource UnseededIds := fun ids => ("unseeded"%string, ids).

(** ** Freshness *)

Lemma deck_pane_id_inj epoch m n :
  0 <= m -> 0 <= n -> deck_pane_id epoch m = deck_pane_id epoch n -> m = n.
Proof.
  unfold deck_pane_id. intros Hm Hn E. do 3 apply (inj _) in E. apply (inj pretty) in E. lia.
Qed.

Lemma deck_mint_list k ids :
  0 <= minted ids -> minted ids + Z.of_nat k < 2 ^ 64 ->
  mint_list k ids = (fun j => deck_pane_id (epoch_ms ids) (minted ids + 1 + Z.of_nat j)) <$> seq 0 k
  /\ mint_after k ids = mkDeckPaneIds (epoch_ms ids) (minted ids + Z.of_nat k).
Proof.
  revert ids. induction k as [|k IH]; intros ids H0 H1.
  { split; [done|]. destruct ids. cbn in *. f_equal. lia. }
  cbn [mint_list mint_after seq fmap]. 
  unfold mint_pane_id, DeckPaneIds_source. cbn [fst snd]. fold DeckPaneIds_source.
  assert (Hw : u64 (minted ids + 1) = minted ids + 1) by (apply Z.mod_small; lia).
  rewrite Hw. destruct (IH (mkDeckPaneIds (epoch_ms ids) (minted ids + 1))) as [E1 E2]; cbn [epoch_ms minted] in *; [lia..|].
  split.
  - rewrite E1, <- seq_shift. cbn [list_fmap fmap]. rewrite <- list_fmap_compose. f_equal.
    + f_equal. lia.
    + apply list_fmap_ext. intros i j _. cbn. f_equal. lia.
  - rewrite E2. f_equal. lia.
Qed.

(** A page load's next ids are none of those it answered before, and none of
    another load's. *)
Lemma deck_ids_fresh k used ids :
  0 <= minted ids -> minted ids + Z.of_nat k < 2 ^ 64 ->
  (forall id, id ∈ used -> (exists m, 0 <= m <= minted ids /\ id = deck_pane_id (epoch_ms ids) m)
                        \/ forall m, id <> deck_pane_id (epoch_ms ids) m) ->
  fresh_ids k used ids.
Proof.
  intros H0 H1 Hused. destruct (deck_mint_list k ids H0 H1) as [E _]. split; rewrite E.
  - apply NoDup_fmap_2_strong; [|apply NoDup_seq]. intros i j _ _ Heq.
    apply deck_pane_id_inj in Heq; lia.
  - intros id (j & -> & _)%list_elem_of_fmap Hu. destruct (Hused _ Hu) as [(m & Hm & Heq)|Hno].
    + apply deck_pane_id_inj in Heq; lia.
    + by apply (Hno (minted ids + 1 + Z.of_nat j)).
Qed.
