(* ===== verification/LayoutClaims.v ===== *)
(** * LayoutClaims: what an arrangement promises

    Reconciliation, moving and splitting stated exactly, the presets, and every
    run of edits against the invariant. *)
From S2P Require Export LayoutRuns.

(** ** Where a split stands in the tree *)

Fixpoint within (sub node : PaneNode) : Prop :=
  sub = node \/ match node with Leaf _ => False | Split _ _ _ a b => within sub a \/ within sub b end.

Lemma within_refl node : within node node.
Proof. by destruct node; left. Qed.

Lemma within_update node id leaf edit :
  find_leaf node id = Some leaf -> within (edit leaf) (update_leaf node id edit).
Proof.
  induction node as [held|sid d q a IHa b IHb]; cbn [find_leaf update_leaf within].
  - destruct (decide (pane_id held = id)); [|done]. intros [= ->]. apply within_refl.
  - destruct (find_leaf a id); intros E; right; [left|right]; auto.
Qed.

Lemma within_collapse node c sid d q a b :
  collapse_empties (Split sid d q a b) c = Split sid d q a b ->
  within (Split sid d q a b) node -> within (Split sid d q a b) (collapse_empties node c).
Proof.
  intros Hself. set (sub := Split sid d q a b) in *.
  assert (Hsplit : forall other, within sub other -> is_collapsible_empty other c = false).
  { intros [leaf|]; [|done]. by intros [E|[]]. }
  induction node as [leaf|sid' d' q' x IHx y IHy]; intros Hw; [done|]. destruct Hw as [Heq|[Hw|Hw]].
  - rewrite <- Heq, Hself. apply within_refl.
  - cbn [collapse_empties]. rewrite (Hsplit _ (IHx Hw)). destruct (is_collapsible_empty (collapse_empties y c) c); [by apply IHx|].
    right. left. by apply IHx.
  - cbn [collapse_empties]. destruct (is_collapsible_empty (collapse_empties x c) c); [by apply IHy|].
    rewrite (Hsplit _ (IHy Hw)). right. right. by apply IHy.
Qed.

(** The pane and the new one stand side by side, unless the split emptied the
    pane it split. *)
Lemma split_within node target leaf split_id new_pane tab direction insert_first :
  tree_shape node -> find_leaf node target = Some leaf -> tabs leaf <> [tab] -> new_pane ∉ node_ids node ->
  within (split_with split_id new_pane tab direction insert_first (remove_tab_from_leaf leaf tab))
    (split_tree node target split_id new_pane tab direction insert_first).
Proof.
  intros Hshape Hfind Hkeeps Hnew. unfold split_tree.
  pose proof (remove_tab_find node tab target) as Hfind'. rewrite Hfind in Hfind'. cbn in Hfind'.
  pose proof (within_update _ _ _ (split_with split_id new_pane tab direction insert_first) Hfind') as Hw.
  pose proof (find_leaf_Some _ _ _ Hfind) as [Hin _].
  assert (Hkept : is_collapsible_empty (Leaf (remove_tab_from_leaf leaf tab)) (pane_of_tab node tab) = false).
  { rewrite is_collapsible_kept, bool_decide_eq_true_2; [done|]. by apply survivor_kept. }
  assert (Hmoved : is_collapsible_empty (Leaf (mkPaneLeaf new_pane [tab] tab)) (pane_of_tab node tab) = false) by done.
  unfold split_with in *. destruct insert_first; apply within_collapse; try done;
    cbn [collapse_empties]; by rewrite Hkept, Hmoved.
Qed.

(** ** Claims *)

(** C38: folding an arrangement - a well-formed tree, whose pane and split ids are
    distinct and whose tabs are in one pane each - against the sessions that live,
    named and each once, keeps it sound and shows every one of them in exactly
    one pane.  It invents no pane, keeps the
    focus where its pane stays, and of every pane that was empty or still holds
    a live tab keeps the pane, its tabs in their order (sessions that had no
    pane are appended to the focused one) and its selection if it lives.
    Folding again changes nothing. *)
Theorem reconcile_exact layout live :
  tree_shape (root layout) -> NoDup live -> EmptyString ∉ live ->
  let next := reconcile layout live in
  layout_ok next
  /\ tabs_of (root next) ≡ₚ live
  /\ (forall id, id ∈ node_ids (root next) -> id ∈ node_ids (root layout))
  /\ (focused_pane_id layout ∈ pane_ids (root next) -> focused_pane_id next = focused_pane_id layout)
  /\ (forall old, old ∈ all_leaves (root layout) ->
        tabs old = [] \/ base.filter (fun tab => tab ∈ live) (tabs old) <> [] ->
        exists leaf orphans, leaf ∈ all_leaves (root next) /\ pane_id leaf = pane_id old
          /\ tabs leaf = base.filter (fun tab => tab ∈ live) (tabs old) ++ orphans
          /\ (orphans <> [] -> pane_id old = focused_pane_id next)
          /\ (selected_tab old ∈ live -> selected_tab leaf = selected_tab old))
  /\ reconcile next live = next.
Proof.
  intros Hshape Hnd Hn. cbv zeta. destruct (reconcile_spec layout live Hshape Hnd Hn) as (R1 & R2 & R3 & R4 & R5).
  split_and!; try done.
  - intros old Hin Hlive. apply R5; [done|]. by rewrite pruned_tabs.
  - apply reconcile_settled; [done|]. intros tab. by rewrite R2.
Qed.

(** Moving a tab to a pane the arrangement does not hold changes nothing.
    Otherwise the tab stands in that pane at the wanted place among its other
    tabs (at its end, without one), it is in no other pane, every tab stays in
    the arrangement, and the panes it does not empty keep their other tabs.  From another pane it
    arrives selected and focused; within its own pane selection and focus stay. *)
Theorem move_tab_exact layout tab to_pane_id index :
  layout_ok layout -> tab <> EmptyString ->
  let next := move_tab layout tab to_pane_id index in
  match find_leaf (root layout) to_pane_id with
  | None => next = layout
  | Some target =>
      let rest := without tab (tabs target) in
      layout_ok next
      /\ find_leaf (root next) to_pane_id
         = Some (mkPaneLeaf to_pane_id (insert_at (insertion_point index rest) tab rest)
                   (if decide (tab ∈ tabs target) then selected_tab target else tab))
      /\ focused_pane_id next = (if decide (tab ∈ tabs target) then focused_pane_id layout else to_pane_id)
      /\ tabs_of (root next) ≡ₚ tab :: without tab (tabs_of (root layout))
      /\ (forall other, survives (root layout) tab other -> pane_id other <> to_pane_id ->
            remove_tab_from_leaf other tab ∈ all_leaves (root next))
  end.
Proof.
  intros Hok Hname. cbv zeta. unfold move_tab. destruct (find_leaf (root layout) to_pane_id) as [target|] eqn:E; [|done].
  pose proof Hok as [Hshape Hr Hf]. pose proof (find_leaf_Some _ _ _ E) as [Hin Hid].
  pose proof (tab_pane_iff _ _ _ tab Hshape E) as Hiff.
  pose proof (leaf_tabs_nodup _ _ Hshape Hin) as Hndt.
  destruct (decide (_ = Some to_pane_id)) as [Hsame|Hother].
  - apply Hiff in Hsame. rewrite !(decide_True (P := tab ∈ tabs target)) by done.
    destruct (reorder_spec layout to_pane_id target (move_within (tabs target) tab index)) as (R1 & R2 & R3 & R4 & R5);
      [done|done|rewrite move_within_perm; symmetry; by apply without_nodup_perm|].
    split_and!; try done.
    + rewrite R3. apply without_nodup_perm; [apply Hshape|]. by eapply leaf_tabs_in.
    + intros other [Ho _] Hne. rewrite remove_tab_same; [by apply R5|]. intros Ht. apply Hne.
      rewrite <- Hid. f_equal. by eapply tab_leaf_unique; [apply Hshape|..].
  - rewrite Hiff in Hother. rewrite !(decide_False (P := tab ∈ tabs target)), without_not_in by done.
    destruct (move_tree_spec (root layout) to_pane_id target tab (insert_at (insertion_point index (tabs target)) tab (tabs target)))
      as (M1 & M2 & M3 & M4 & M5 & M6); try done; [apply insert_at_perm|].
    split_and!; try done. constructor; [done|done|]. cbn. apply find_leaf_is_Some. by eexists.
Qed.

(** A split asked of an axis that is not a row or a column, of a pane that
    is not there, or of the pane that holds only the moving tab changes nothing.
    Otherwise the pane and a new one stand side by side, in the order asked for,
    under a new split at one half; the new pane shows the tab alone and has the
    focus; no other tab moves, and only the pane the tab left empty goes. *)
Theorem split_leaf_exact `{PaneIdSource Ids} layout target_pane_id direction tab insert_first (ids : Ids) :
  layout_ok layout -> tab <> EmptyString -> fresh_ids 2 (node_ids (root layout)) ids ->
  let '(next, ids') := split_leaf layout target_pane_id direction tab insert_first ids in
  match find_leaf (root layout) target_pane_id with
  | Some target =>
      if is_portable direction && negb (bool_decide (tabs target = [tab])) then
        ids' = mint_after 2 ids
        /\ exists new_pane split_id, mint_list 2 ids = [new_pane; split_id]
        /\ layout_ok next
        /\ find_leaf (root next) new_pane = Some (mkPaneLeaf new_pane [tab] tab)
        /\ focused_pane_id next = new_pane
        /\ (let kept := Leaf (remove_tab_from_leaf target tab) in
            let moved := Leaf (mkPaneLeaf new_pane [tab] tab) in
            within (Split split_id direction f64_half (if insert_first then moved else kept)
                      (if insert_first then kept else moved)) (root next))
        /\ tabs_of (root next) ≡ₚ tab :: without tab (tabs_of (root layout))
        /\ forall other, survives (root layout) tab other -> remove_tab_from_leaf other tab ∈ all_leaves (root next)
      else next = layout /\ ids' = ids
  | None => next = layout /\ ids' = ids
  end.
Proof.
  intros Hok Hname [Hnd Hfresh]. pose proof Hok as [Hshape Hr Hf]. unfold split_leaf.
  destruct (find_leaf (root layout) target_pane_id) as [target|] eqn:E; [|by destruct (negb _)].
  destruct (is_portable direction); [cbn [negb andb]|done].
  pose proof (tab_pane_iff _ _ _ tab Hshape E) as Hiff.
  assert (Hguard : bool_decide (pane_id <$> find_leaf_of_tab (root layout) tab = Some target_pane_id)
                     && (length (tabs target) <=? 1)%nat = bool_decide (tabs target = [tab])).
  { rewrite (bool_decide_ext _ _ Hiff). apply eq_true_iff_eq.
    rewrite andb_true_iff, !bool_decide_eq_true, Nat.leb_le.
    destruct (tabs target) as [|x [|y rest]]; cbn; [set_solver| |].
    - rewrite list_elem_of_singleton. split; [by intros [-> _]|intros [= ->]; split; [done|lia]].
    - split; [lia|done]. }
  rewrite Hguard. destruct (bool_decide_reflect (tabs target = [tab])) as [Hone|Hmore]; [done|]. cbn [negb].
  cbn [mint_list mint_after] in *. destruct (mint_pane_id ids) as [new_pane ids1] eqn:E1. cbn [fst snd] in *.
  destruct (mint_pane_id ids1) as [split_id ids2] eqn:E2. cbn [fst snd] in *.
  fold (split_tree (root layout) target_pane_id split_id new_pane tab direction insert_first).
  assert (Hout : new_pane ∉ node_ids (root layout) /\ split_id ∉ node_ids (root layout)) by (split; apply Hfresh; set_solver).
  destruct Hout as [Hout1 Hout2].
  destruct (split_tree_spec (root layout) target_pane_id target split_id new_pane tab direction insert_first)
    as (T1 & T2 & T3 & T4 & T5 & T6); try done.
  { eapply NoDup_Permutation_proper; [apply Permutation_swap|done]. }
  split; [done|]. exists new_pane, split_id. split_and!; try done.
  - constructor; [done|done|]. cbn. apply find_leaf_is_Some. by eexists.
  - cbn [root]. pose proof (split_within (root layout) target_pane_id target split_id new_pane tab direction insert_first) as Hwithin.
    unfold split_with in Hwithin. destruct insert_first; by apply Hwithin.
Qed.

(** Every preset gives a sound arrangement of one pane per named session, in
    the order given, that shows it; without a session, one empty pane.  It draws
    at most two ids a session, and the tree is at most two levels deeper than
    the logarithm of the number of sessions. *)
Theorem presets_tile `{PaneIdSource Ids} kind session_ids (ids : Ids) :
  NoDup session_ids -> NoDup (mint_list (2 * length session_ids) ids) ->
  let sessions := base.filter (fun session => session <> EmptyString) session_ids in
  exists k layout, preset_layout kind session_ids ids = (layout, mint_after k ids)
    /\ (k <= Nat.max 1 (2 * length sessions))%nat
    /\ layout_ok layout
    /\ tabs_of (root layout) = sessions
    /\ (sessions <> [] -> Forall (fun leaf => tabs leaf = [selected_tab leaf]) (all_leaves (root layout)))
    /\ forall levels, (length sessions <= 2 ^ levels)%nat -> (depth (root layout) <= levels + 2)%nat.
Proof.
  intros Hnd Hmint. cbv zeta. fold (named session_ids).
  assert (Hlen : (length (named session_ids) <= length session_ids)%nat) by apply length_filter.
  destruct (preset_spec kind session_ids ids) as (k & layout & E & Ht); [done| |].
  - replace (2 * length session_ids)%nat
      with (2 * length (named session_ids) + (2 * length session_ids - 2 * length (named session_ids)))%nat in Hmint by lia.
    rewrite mint_list_app in Hmint. by apply NoDup_app in Hmint as (? & _ & _).
  - exists k, layout. destruct Ht as [T1 T2 T3 T4 T5 T6]. split_and!; try done.
    intros levels Hl. specialize (T6 levels Hl). lia.
Qed.

(** C37: over every run of edits whose callers keep their duties - the deck's
    gestures, reconciliations, presets and commands, with distinct and named
    sessions, a strip reordered by exactly the tabs it holds at that moment
    ([edits_ok]), and pane and split ids not used before ([fresh_ids]) - an
    arrangement stays sound: pane and split ids are distinct, a session is in one
    pane, every pane shows a tab it holds or is empty, every ratio is within its
    bounds whatever number was asked for, and the focus is a pane of the tree.
    [reorder_tab] itself tests nothing: an order captured before a tab left the
    strip puts that tab in two panes ([stale_reorder_duplicates]). *)
Theorem layout_edits_sound `{PaneIdSource Ids} edits layout (ids : Ids) :
  layout_ok layout -> edits_ok edits layout ids -> fresh_ids (edits_cost edits) (node_ids (root layout)) ids ->
  layout_ok (fst (run_edits edits layout ids)).
Proof. apply edits_sound. Qed.

(** ** Witnesses *)

Definition demo_ids : DeckPaneIds := mkDeckPaneIds 1700000000000 1.

Definition demo_layout : PaneLayout :=
  mkPaneLayout (Leaf (mkPaneLeaf "pane-18bcfe56800-1" ["a"; "b"; "c"] "b")) "pane-18bcfe56800-1".

Lemma demo_layout_ok : layout_ok demo_layout.
Proof.
  apply (single_layout (mkPaneLeaf "pane-18bcfe56800-1" ["a"; "b"; "c"] "b")); cbn [tabs selected_tab].
  - by apply (bool_decide_unpack _); vm_compute.
  - by apply (bool_decide_unpack _); vm_compute.
  - right. cbn. set_solver.
Qed.

Lemma demo_fresh_ids k : (k <= 100)%nat -> fresh_ids k (node_ids (root demo_layout)) demo_ids.
Proof.
  intros Hk. apply deck_ids_fresh; cbn [minted demo_ids]; [lia|lia|].
  intros id ->%list_elem_of_singleton. left. exists 1%Z. split; [lia|]. by vm_compute.
Qed.

Lemma reconcile_exact_witness :
  NoDup ["c"; "d"] /\ layout_ok (reconcile demo_layout ["c"; "d"])
  /\ tabs_of (root (reconcile demo_layout ["c"; "d"])) = ["c"; "d"].
Proof.
  assert (Hnd : NoDup ["c"; "d"]) by by apply (bool_decide_unpack _); vm_compute.
  split; [done|]. destruct (reconcile_exact demo_layout ["c"; "d"]) as (Hok & _).
  - apply demo_layout_ok.
  - done.
  - by apply (bool_decide_unpack _); vm_compute.
  - split; [done|]. by vm_compute.
Defined.

Lemma move_tab_exact_witness :
  find_leaf (root (move_tab demo_layout "c" "pane-18bcfe56800-1" (Some 0%nat))) "pane-18bcfe56800-1"
  = Some (mkPaneLeaf "pane-18bcfe56800-1" ["c"; "a"; "b"] "b")
  /\ layout_ok (move_tab demo_layout "c" "pane-18bcfe56800-1" (Some 0%nat)).
Proof.
  pose proof (move_tab_exact demo_layout "c" "pane-18bcfe56800-1" (Some 0%nat) demo_layout_ok ltac:(done)) as Hmove.
  cbv zeta in Hmove. destruct Hmove as (Hok & _). split; [by vm_compute|exact Hok].
Defined.

Lemma split_leaf_exact_witness :
  let '(next, ids) := split_leaf demo_layout "pane-18bcfe56800-1" Row "c" true demo_ids in
  ids = mkDeckPaneIds 1700000000000 3 /\ focused_pane_id next = "pane-18bcfe56800-2" /\ layout_ok next.
Proof.
  pose proof (split_leaf_exact demo_layout "pane-18bcfe56800-1" Row "c" true demo_ids demo_layout_ok
                ltac:(done) (demo_fresh_ids 2 ltac:(lia))) as Hsplit.
  destruct (split_leaf demo_layout "pane-18bcfe56800-1" Row "c" true demo_ids) as [next ids] eqn:E.
  vm_compute in E. destruct Hsplit as (_ & new_pane & split_id & _ & Hok & _). simplify_eq.
  split; [done|]. split; [done|]. exact Hok.
Defined.

Lemma presets_tile_witness :
  exists k layout, preset_layout Tiled ["a"; "b"; "c"; "d"; "e"] demo_ids = (layout, mint_after k demo_ids)
    /\ layout_ok layout /\ (depth (root layout) <= 5)%nat.
Proof.
  destruct (presets_tile Tiled ["a"; "b"; "c"; "d"; "e"] demo_ids) as (k & layout & E & _ & Hok & _ & _ & Hdepth).
  - by apply (bool_decide_unpack _); vm_compute.
  - apply (demo_fresh_ids 10 ltac:(lia)).
  - exists k, layout. split_and!; [done|done|]. apply (Hdepth 3%nat). vm_compute. lia.
Defined.

(** A preset, a split, a move, a command, a close, a divider dragged to no
    number and a session that ended. *)
Definition demo_edits : list LayoutEdit :=
  [EArrange (Preset MainVertical) ["a"; "b"; "c"]; ESplit "pane-18bcfe56800-5" Col "d" false;
   EMove "a" "pane-18bcfe56800-5" (Some 0%nat); ECommand (PlaceSplit "e" "d" "row" true) ["a"; "b"; "c"; "d"];
   ERatio "pane-18bcfe56800-8" SpecFloat.S754_nan; EClose "d"; EReconcile ["a"; "c"; "e"]].

Lemma layout_edits_sound_witness :
  layout_ok (fst (run_edits demo_edits demo_layout demo_ids))
  /\ tabs_of (root (fst (run_edits demo_edits demo_layout demo_ids))) = ["a"; "e"; "c"].
Proof.
  split; [|by vm_compute]. apply (layout_edits_sound demo_edits demo_layout demo_ids).
  - apply demo_layout_ok.
  - apply edits_ok_static. unfold demo_edits.
    repeat (apply Forall_cons; split; [intros at_layout; cbn [edit_ok]|]); [..|by apply Forall_nil].
    all: first [done | by apply (bool_decide_unpack _); vm_compute | split; by apply (bool_decide_unpack _); vm_compute].
  - apply demo_fresh_ids. vm_compute. lia.
Defined.

(** A strip's order captured at the press, a tab dragged to another pane by a
    command meanwhile, and the order committed: the tab is in both panes. *)
Theorem stale_reorder_duplicates :
  tabs_of (root (fst (run_edits
    [ESplit "pane-18bcfe56800-1" Row "c" false; EMove "b" "pane-18bcfe56800-2" None;
     EReorder "pane-18bcfe56800-1" ["b"; "a"]] demo_layout demo_ids)))
  = ["b"; "a"; "c"; "b"].
Proof. by vm_compute. Qed.
