(* ===== verification/Toasts.v ===== *)
(** * Toasts: the notification cards of the client

    Models [src/crates/roost-client-core/src/store/toasts.rs] and
    [toasts/identity.rs]: the identity of a card, its window and the stack.
    The mutations of the whole store are in [ClientStore]; an instant and a
    counter are [u64], a [BTreeMap] keyed by a card's id is a [gmap]. *)
From S2P Require Export Viewport.
#[local] Open Scope Z_scope.

(** ** [identity.rs] *)

Inductive ToastKind := ToastKind_Ok | ToastKind_Warn | ToastKind_Err.

Definition ToastKind_as_str (kind : ToastKind) : string :=
  match kind with ToastKind_Ok => "ok" | ToastKind_Warn => "warn" | ToastKind_Err => "err" end.

Definition default_ttl_ms (kind : ToastKind) : option Z :=
  match kind with ToastKind_Ok => Some 3000 | ToastKind_Warn => Some 5000 | ToastKind_Err => Some 8000 end.

Inductive ToastSource :=
| ToastSource_Sync (domain kind : string) (delivery_seq : Z)
| ToastSource_Rpc (call_id : Z)
| ToastSource_Spawn (attempt : Z)
| ToastSource_Host (name : string).

#[global] Instance ToastSource_eq_dec : EqDecision ToastSource.
Proof. solve_decision. Defined.

#[global] Instance ToastSource_countable : Countable ToastSource.
Proof.
  refine (inj_countable'
    (fun source => match source with
       | ToastSource_Sync domain kind seq => inl (domain, kind, seq)
       | ToastSource_Rpc call_id => inr (inl (inl call_id))
       | ToastSource_Spawn attempt => inr (inl (inr attempt))
       | ToastSource_Host name => inr (inr name)
       end)
    (fun code => match code with
       | inl (domain, kind, seq) => ToastSource_Sync domain kind seq
       | inr (inl (inl call_id)) => ToastSource_Rpc call_id
       | inr (inl (inr attempt)) => ToastSource_Spawn attempt
       | inr (inr name) => ToastSource_Host name
       end) _).
  by intros [].
Defined.

Record ToastId := mkToastId { source : ToastSource; subject : string }.

#[global] Instance ToastId_eq_dec : EqDecision ToastId.
Proof. solve_decision. Defined.

#[global] Instance ToastId_countable : Countable ToastId.
Proof.
  refine (inj_countable' (fun id => (source id, subject id)) (fun '(source, subject) => mkToastId source subject) _).
  by intros [].
Defined.

Definition names_session (id : ToastId) (session_id : string) : bool := bool_decide (subject id = session_id).

Inductive ToastIntent :=
| RevealSession (session_id : string)
| CopyText (text : string)
| OpenPairApprovals.

Record ToastAction := mkToastAction { label : string; toast_intent : ToastIntent }.

Record Toast := mkToast {
  toast_id : ToastId;
  msg : string;
  toast_kind : ToastKind;
  toast_details : option string;
  toast_action : option ToastAction;
  toast_target : option string;
  expires_at_ms : option Z;
  remaining_ms : Z;
  held : bool;
  raised_order : Z;
}.

Definition is_due (toast : Toast) (now_ms : Z) : bool :=
  negb (held toast) && match expires_at_ms toast with Some deadline => deadline <=? now_ms | None => false end.

Definition armed_deadline (toast : Toast) : option Z := if held toast then None else expires_at_ms toast.

Record ToastOptions := mkToastOptions {
  details : option string;
  ttl_ms : option (option Z);
  action : option ToastAction;
  target_session_id : option string;
}.

Definition plain : ToastOptions := mkToastOptions None None None None.

Definition with_ttl (ttl : option Z) : ToastOptions := mkToastOptions None (Some ttl) None None.

Definition with_details (o : ToastOptions) (text : string) : ToastOptions :=
  mkToastOptions (Some text) (ttl_ms o) (action o) (target_session_id o).

Definition with_action (o : ToastOptions) (label session_id : string) : ToastOptions :=
  mkToastOptions (details o) (ttl_ms o) (Some (mkToastAction label (RevealSession session_id))) (Some session_id).

Definition with_copy_action (o : ToastOptions) (text : string) : ToastOptions :=
  mkToastOptions (details o) (ttl_ms o) (Some (mkToastAction "Copy" (CopyText text))) (target_session_id o).

Definition with_pair_review_action (o : ToastOptions) : ToastOptions :=
  mkToastOptions (details o) (ttl_ms o) (Some (mkToastAction "Review" OpenPairApprovals)) (target_session_id o).

(** ** The stack *)

Record ToastStack := mkToastStack { stack : gmap ToastId Toast; next_raised_order : Z }.

Definition ToastStack_new : ToastStack := mkToastStack ∅ 0.

Definition raised_le (a b : Toast) : Prop := raised_order a <= raised_order b.

#[global] Instance raised_le_dec a b : Decision (raised_le a b).
Proof. unfold raised_le. apply _. Defined.

(** [toasts()]: oldest raise first. *)
Definition toasts (s : ToastStack) : list Toast := merge_sort raised_le (snd <$> map_to_list (stack s)).

Definition raise_toast (s : ToastStack) (id : ToastId) (msg : string) (kind : ToastKind)
    (options : ToastOptions) (now_ms : Z) : ToastStack :=
  let ttl := match ttl_ms options with Some named => named | None => default_ttl_ms kind end in
  let previous := stack s !! id in
  let remaining :=
    match ttl_ms options, previous with
    | Some (Some named), _ => named
    | Some None, _ => 0
    | None, Some prior => remaining_ms prior
    | None, None => default 0 ttl
    end in
  let is_held := match previous with Some prior => held prior | None => false end in
  let expires :=
    match previous with
    | Some prior => if held prior then expires_at_ms prior else saturating_add64 now_ms <$> ttl
    | None => saturating_add64 now_ms <$> ttl
    end in
  let order := match previous with Some prior => raised_order prior | None => next_raised_order s end in
  let toast :=
    mkToast id msg kind (details options) (action options) (target_session_id options)
      expires remaining is_held order in
  mkToastStack (<[id := toast]> (stack s))
    (match previous with Some _ => next_raised_order s | None => u64 (next_raised_order s + 1) end).

(** [hold_toast_dismiss] on the card itself. *)
Definition hold_card (toast : Toast) (deadline now_ms : Z) : Toast :=
  mkToast (toast_id toast) (msg toast) (toast_kind toast) (toast_details toast) (toast_action toast)
    (toast_target toast) None (saturating_sub deadline now_ms) true (raised_order toast).

(** [release_toast_dismiss] on the card itself. *)
Definition release_card (toast : Toast) (now_ms : Z) : Toast :=
  mkToast (toast_id toast) (msg toast) (toast_kind toast) (toast_details toast) (toast_action toast)
    (toast_target toast) (Some (saturating_add64 now_ms (remaining_ms toast))) (remaining_ms toast) false
    (raised_order toast).

Definition about_session (session_id : string) (card : ToastId * Toast) : Prop :=
  names_session (fst card) session_id = true \/ toast_target (snd card) = Some session_id.

#[global] Instance about_session_dec session_id card : Decision (about_session session_id card).
Proof. unfold about_session. apply _. Defined.

Definition PAIR_REQUEST_TOAST_SOURCE : string := "pair_request".

Definition pair_request_toast_id (ephemeral_id : string) : ToastId :=
  mkToastId (ToastSource_Host PAIR_REQUEST_TOAST_SOURCE) ephemeral_id.

Definition remove_card (s : ToastStack) (id : ToastId) : ToastStack :=
  mkToastStack (base.delete id (stack s)) (next_raised_order s).

Definition remove_pair_request_toast (s : ToastStack) (ephemeral_id : string) : ToastStack * bool :=
  (remove_card s (pair_request_toast_id ephemeral_id),
   bool_decide (is_Some (stack s !! pair_request_toast_id ephemeral_id))).

Definition clear_all (s : ToastStack) : ToastStack * bool :=
  (mkToastStack ∅ (next_raised_order s), negb (bool_decide (stack s = ∅))).

Definition remove_cards (s : ToastStack) (ids : list ToastId) : ToastStack := foldl remove_card s ids.

(** The ids [expire_due_toasts] collects. *)
Definition due_cards (s : ToastStack) (now_ms : Z) : list ToastId :=
  toast_id <$> base.filter (fun toast => is_due toast now_ms = true) (snd <$> map_to_list (stack s)).

Definition remove_toasts_for_session (s : ToastStack) (session_id : string) : ToastStack * bool :=
  let doomed := fst <$> base.filter (about_session session_id) (map_to_list (stack s)) in
  (remove_cards s doomed, negb (bool_decide (doomed = []))).
