(* ===== verification/SpawnLedger.v ===== *)
(** * SpawnLedger: optimistic spawns and the attempts that own them

    Models [src/crates/roost-client-core/src/store/optimistic_spawn.rs]: the
    placeholders, the tombstones, and the rule for which answer may act.  The
    mutations of [optimistic_spawn/settle.rs] are in [ClientStore].  A
    [VecDeque] is a list, oldest first. *)
From S2P Require Export Viewport.
#[local] Open Scope Z_scope.

Definition MAX_RETAINED_SPAWN_TOMBSTONES : nat := 256.

Record SpawnTicket := mkSpawnTicket { session_id : string; attempt : Z }.

#[global] Instance SpawnTicket_eq_dec : EqDecision SpawnTicket.
Proof. solve_decision. Defined.

Record ClientOnlySession := mkClientOnlySession {
  client_id : string;
  worker_fp : string;
  cwd : string;
  spawn_cwd : string;
  workspace_id : option string;
  created_at_ms : Z;
}.

Inductive EntryState := Pending | EntryAdmitted.

#[global] Instance EntryState_eq_dec : EqDecision EntryState.
Proof. solve_decision. Defined.

Record SpawnEntry := mkSpawnEntry { ticket : SpawnTicket; placeholder : ClientOnlySession; state : EntryState }.

Inductive TombstoneReason := TombRetracted | TombAdmitted | TombRejected.

Inductive SupersededReason := Retracted | ReplacedByNewerAttempt | AlreadySettled | NeverExisted.

#[global] Instance SupersededReason_eq_dec : EqDecision SupersededReason.
Proof. solve_decision. Defined.

Definition superseded (reason : TombstoneReason) : SupersededReason :=
  match reason with TombRetracted => Retracted | TombAdmitted | TombRejected => AlreadySettled end.

Record Tombstone := mkTombstone { stone_session : string; stone_attempt : Z; stone_reason : TombstoneReason }.

Inductive SpawnSettlement := Applied | Superseded (reason : SupersededReason).

Definition is_applied (settlement : SpawnSettlement) : bool :=
  match settlement with Applied => true | Superseded _ => false end.

Inductive SpawnRefusal := NotAUuid (session_id : string) | NoPendingSpawn (session_id : string).

Record SpawnLedger := mkSpawnLedger {
  entries : gmap string SpawnEntry;
  tombstones : list Tombstone;
  next_attempt : Z;
}.

Definition SpawnLedger_new : SpawnLedger := mkSpawnLedger ∅ [] 1.

Definition client_le (left right : ClientOnlySession) : Prop :=
  created_at_ms left < created_at_ms right
  \/ (created_at_ms left = created_at_ms right /\ string_le (client_id left) (client_id right)).

#[global] Instance client_le_dec left right : Decision (client_le left right).
Proof. unfold client_le. apply _. Defined.

Definition client_only_sessions (ledger : SpawnLedger) : list ClientOnlySession :=
  merge_sort client_le (placeholder ∘ snd <$> map_to_list (entries ledger)).

Definition is_client_only (ledger : SpawnLedger) (id : string) : bool := bool_decide (is_Some (entries ledger !! id)).

Definition is_pending (ledger : SpawnLedger) (id : string) : bool :=
  match entries ledger !! id with Some entry => bool_decide (state entry = Pending) | None => false end.

Definition ticket_for (ledger : SpawnLedger) (id : string) : option SpawnTicket :=
  ticket <$> entries ledger !! id.

Definition SpawnLedger_reset (ledger : SpawnLedger) : SpawnLedger := mkSpawnLedger ∅ [] 1.

Fixpoint find_stone (stones : list Tombstone) (id : string) (attempt : Z) : option TombstoneReason :=
  match stones with
  | [] => None
  | stone :: rest =>
      if bool_decide (stone_session stone = id) && (stone_attempt stone =? attempt)
      then Some (stone_reason stone) else find_stone rest id attempt
  end.

Definition tombstone_reason (ledger : SpawnLedger) (id : string) (attempt : Z) : option TombstoneReason :=
  find_stone (tombstones ledger) id attempt.

(** [None] when [ticket] is the attempt that decides. *)
Definition relevance (ledger : SpawnLedger) (t : SpawnTicket) : option SupersededReason :=
  match entries ledger !! session_id t with
  | Some entry =>
      if negb (attempt (ticket entry) =? attempt t)
      then Some (if attempt t <? attempt (ticket entry) then ReplacedByNewerAttempt else NeverExisted)
      else if negb (bool_decide (state entry = Pending)) then Some AlreadySettled
      else None
  | None =>
      Some (match tombstone_reason ledger (session_id t) (attempt t) with
            | Some reason => superseded reason
            | None => NeverExisted
            end)
  end.

Definition mint_attempt (ledger : SpawnLedger) : Z * SpawnLedger :=
  (next_attempt ledger,
   mkSpawnLedger (entries ledger) (tombstones ledger) (saturating_add64 (next_attempt ledger) 1)).

Definition remember (ledger : SpawnLedger) (id : string) (attempt : Z) (reason : TombstoneReason) : SpawnLedger :=
  let stones := tombstones ledger ++ [mkTombstone id attempt reason] in
  mkSpawnLedger (entries ledger) (drop (length stones - MAX_RETAINED_SPAWN_TOMBSTONES) stones) (next_attempt ledger).

Definition with_entries (ledger : SpawnLedger) (e : gmap string SpawnEntry) : SpawnLedger :=
  mkSpawnLedger e (tombstones ledger) (next_attempt ledger).

(** [i64::try_from(now_ms).unwrap_or(i64::MAX)]. *)
Definition instant_i64 (now_ms : Z) : Z := Z.min now_ms (2 ^ 63 - 1).
