(* ===== verification/PendingCloses.v ===== *)
(** * PendingCloses: the undo window of a close

    Models the state of
    [src/crates/roost-client-core/src/store/pending_close.rs]; the mutations of
    the whole store are in [ClientStore].  A [BTreeMap] keyed by a session id is
    a [gmap], walked in the order of its keys. *)
From S2P Require Export Viewport.
#[local] Open Scope Z_scope.

Definition UNDO_WINDOW_MS : Z := 5000.

Record CloseLabels := mkCloseLabels { terminal_name : string; folder : string; server : string }.

#[global] Instance CloseLabels_eq_dec : EqDecision CloseLabels.
Proof. solve_decision. Defined.

Record PendingClose := mkPendingClose { close_session_id : string; labels : CloseLabels; expires_at_ms : Z }.

#[global] Instance PendingClose_eq_dec : EqDecision PendingClose.
Proof. solve_decision. Defined.

Record PendingCloses := mkPendingCloses {
  entries : gmap string PendingClose;
  kills_in_flight : gmap Z string;
  closing : gset string;
}.

Definition PendingCloses_new : PendingCloses := mkPendingCloses ∅ ∅ ∅.

Definition begin_kill (p : PendingCloses) (call_id : Z) (session_id : string) : PendingCloses :=
  mkPendingCloses (entries p) (<[call_id := session_id]> (kills_in_flight p)) (closing p).

Definition take_kill (p : PendingCloses) (call_id : Z) : option string * PendingCloses :=
  (kills_in_flight p !! call_id, mkPendingCloses (entries p) (base.delete call_id (kills_in_flight p)) (closing p)).

(** [PendingCloses::contains]: hidden from the live lists. *)
Definition contains (p : PendingCloses) (session_id : string) : bool :=
  bool_decide (is_Some (entries p !! session_id)) || bool_decide (session_id ∈ closing p).

Definition release_closing (p : PendingCloses) (session_id : string) : PendingCloses * bool :=
  (mkPendingCloses (entries p) (kills_in_flight p) (closing p ∖ {[session_id]}),
   bool_decide (session_id ∈ closing p)).

Definition PendingCloses_clear (p : PendingCloses) : PendingCloses := mkPendingCloses ∅ (kills_in_flight p) ∅.

Definition with_close (p : PendingCloses) (session_id : string) (entry : PendingClose) : PendingCloses :=
  mkPendingCloses (<[session_id := entry]> (entries p)) (kills_in_flight p) (closing p).

Definition without_close (p : PendingCloses) (session_id : string) : PendingCloses :=
  mkPendingCloses (base.delete session_id (entries p)) (kills_in_flight p) (closing p).

(** The sessions whose window has run out, in the map's order. *)
Definition due_closes (p : PendingCloses) (now_ms : Z) : list string :=
  close_session_id <$> base.filter (fun entry => expires_at_ms entry <= now_ms) (values (entries p)).

(** One expired close: its entry goes and the session is hidden until it goes. *)
Definition expire_close (p : PendingCloses) (session_id : string) : PendingCloses :=
  mkPendingCloses (base.delete session_id (entries p)) (kills_in_flight p) ({[session_id]} ∪ closing p).
