(* ===== verification/LayoutRecords.v ===== *)
(** * LayoutRecords: one stored arrangement per folder

    Models [src/crates/roost-client-core/src/store/layout/record.rs] and
    [reshape_folder_layout] of [client/ui_command/layout_map.rs]: the record,
    its seeding and resolution, and the checks a stored one is read back under.
    The JSON text is [serde_json]'s, an interface here; a [BTreeMap] keyed by
    a folder is a [gmap], walked in the order of its keys. *)
From S2P Require Export LayoutRuns PendingCloses.
#[local] Open Scope nat_scope.

Definition LAYOUT_STORAGE_KEY : string := "roost.paneLayout.v1".

(** [LAYOUT_DOCUMENT_MAX_DEPTH] and [LAYOUT_DOCUMENT_MAX_NODES]. *)
Definition LAYOUT_TREE_MAX_DEPTH : nat := 32.
Definition LAYOUT_TREE_MAX_PANES : nat := 255.

(** What the reason of [Malformed] says. *)
Inductive MalformedReason :=
| ExceedsDepth
| ExceedsPanes
| SelectsMissingTab (pane_id : string)
| RatioOutOfBounds (split_id : string) (ratio : f64)
| FocusMissing (pane_id : string).

Inductive LayoutRecordsError :=
| NotARecord (reason : string)
| Malformed (folder_key : string) (reason : MalformedReason)
| Serialization (reason : string).

Abbreviation LayoutRecords := (gmap string PaneLayout).

(** [serde_json] on a record of arrangements. *)
Class RecordsCodec := {
  records_to_string : LayoutRecords -> result string string;
  records_from_str : string -> result LayoutRecords string;
}.

(** Reading back what was written gives the record. *)
Class RecordsCodecLaws `{RecordsCodec} : Prop := {
  records_from_to : forall records text,
    records_to_string records = Ok text -> records_from_str text = Ok records;
}.

(** A host's key/value store. *)
Abbreviation KeyValueStore := (gmap string string).

(** ** Operations *)

Definition stored (records : LayoutRecords) (folder_key : string) : option PaneLayout := records !! folder_key.

Definition commit_layout (records : LayoutRecords) (folder_key : string) (layout : PaneLayout) : LayoutRecords :=
  <[folder_key := layout]> records.

Definition seed_if_absent `{PaneIdSource Ids} (records : LayoutRecords) (folder_key : string)
    (live_session_ids : list string) (ids : Ids) : LayoutRecords * Ids :=
  if bool_decide (folder_key = EmptyString) || bool_decide (is_Some (records !! folder_key)) then (records, ids)
  else
    let '(layout, ids) := default_layout live_session_ids ids in
    (commit_layout records folder_key layout, ids).

Definition resolve `{PaneIdSource Ids} (records : LayoutRecords) (folder_key : string)
    (live_session_ids : list string) (ids : Ids) : PaneLayout * Ids :=
  let '(held, ids) :=
    match records !! folder_key with Some layout => (layout, ids) | None => default_layout [] ids end in
  (reconcile held live_session_ids, ids).

Definition remove_folder (records : LayoutRecords) (folder_key : string) : LayoutRecords := base.delete folder_key records.

Definition clear_records (records : LayoutRecords) : LayoutRecords := ∅.

Section persistence.
Context `{RecordsCodec}.

Definition snapshot (records : LayoutRecords) : result string LayoutRecordsError :=
  match records_to_string records with Ok text => Ok text | Err reason => Err (Serialization reason) end.

Definition persist (records : LayoutRecords) (store : KeyValueStore) : result KeyValueStore LayoutRecordsError :=
  match snapshot records with
  | Ok payload => Ok (<[LAYOUT_STORAGE_KEY := payload]> store)
  | Err error => Err error
  end.

(** The check of one node, and how many panes are counted after it. *)
Definition check_node (node : PaneNode) (panes : nat) : result nat MalformedReason :=
  match node with
  | Leaf leaf =>
      if (LAYOUT_TREE_MAX_PANES <? S panes) then Err ExceedsPanes
      else if negb (bool_decide (tabs leaf = [])) && negb (bool_decide (selected_tab leaf ∈ tabs leaf))
      then Err (SelectsMissingTab (pane_id leaf))
      else Ok (S panes)
  | Split id _ ratio _ _ =>
      if negb (is_finite ratio) || negb (f64_le LAYOUT_RATIO_MIN ratio && f64_le ratio LAYOUT_RATIO_MAX)
      then Err (RatioOutOfBounds id ratio)
      else Ok panes
  end.

(** The two subtrees a split pushes; the walk pops the last pushed. *)
Definition children (node : PaneNode) (depth : nat) : list (PaneNode * nat) :=
  match node with Leaf _ => [] | Split _ _ _ a b => [(b, S depth); (a, S depth)] end.

(** [while let Some((node, depth)) = pending.pop()]; the top of the stack first. *)
Fixpoint walk (fuel : nat) (pending : list (PaneNode * nat)) (panes : nat) : result unit MalformedReason :=
  match fuel, pending with
  | _, [] => Ok tt
  | O, _ => Ok tt
  | S fuel, (node, depth) :: rest =>
      if (LAYOUT_TREE_MAX_DEPTH <? depth) then Err ExceedsDepth
      else
        match check_node node panes with
        | Ok panes => walk fuel (children node depth ++ rest) panes
        | Err reason => Err reason
        end
  end.

Fixpoint node_count (node : PaneNode) : nat :=
  match node with Leaf _ => 1 | Split _ _ _ a b => S (node_count a + node_count b) end.

Definition validate_stored (folder_key : string) (layout : PaneLayout) : result unit LayoutRecordsError :=
  match walk (node_count (root layout)) [(root layout, 1)] 0 with
  | Err reason => Err (Malformed folder_key reason)
  | Ok _ =>
      match find_leaf (root layout) (focused_pane_id layout) with
      | None => Err (Malformed folder_key (FocusMissing (focused_pane_id layout)))
      | Some _ => Ok tt
      end
  end.

Fixpoint validate_folders (folders : list (string * PaneLayout)) : result unit LayoutRecordsError :=
  match folders with
  | [] => Ok tt
  | (folder_key, layout) :: rest =>
      match validate_stored folder_key layout with Ok _ => validate_folders rest | Err error => Err error end
  end.

(** The folders of a record in the order of their keys. *)
Definition folders_of (records : LayoutRecords) : list (string * PaneLayout) := bindings records.

Definition restore (records : LayoutRecords) (payload : string) : result nat LayoutRecordsError * LayoutRecords :=
  match records_from_str payload with
  | Err error => (Err (NotARecord error), records)
  | Ok folders =>
      match validate_folders (folders_of folders) with
      | Err error => (Err error, records)
      | Ok _ => (Ok (size folders), folders)
      end
  end.

Definition restore_from (records : LayoutRecords) (store : KeyValueStore) :
    result nat LayoutRecordsError * LayoutRecords :=
  match store !! LAYOUT_STORAGE_KEY with
  | Some payload => restore records payload
  | None => (Ok 0, records)
  end.
End persistence.

(** ** [reshape_folder_layout] *)

Inductive LayoutReshape := Committed (navigate_to_session : option string) | Refused.

Definition reshape_folder_layout `{PaneIdSource Ids} (records : LayoutRecords) (ids : Ids) (folder_key : string)
    (live_session_ids : list string) (command : LegacyUiCommand) : LayoutReshape * LayoutRecords * Ids :=
  let '(resolved, ids) := resolve records folder_key live_session_ids ids in
  match apply_ui_command_to_layout resolved command live_session_ids ids with
  | (None, ids) => (Refused, records, ids)
  | (Some next, ids) =>
      let navigate_to_session :=
        match command with PlaceSplit session_id _ _ _ => Some session_id | _ => None end in
      (Committed navigate_to_session, commit_layout records folder_key next, ids)
  end.
