(* ===== verification/LayoutRecordsGuarantees.v ===== *)
(** * LayoutRecordsGuarantees: what is stored can be read back, or not

    The iterative check against its recursive reading, and restoring against
    persisting. *)
From S2P Require Export LayoutClaims LayoutRecords.
#[local] Open Scope nat_scope.

(** ** The walk and the tree *)

(** The check read recursively, the second child first as the stack has it. *)
Fixpoint check_tree (node : PaneNode) (depth panes : nat) : result nat MalformedReason :=
  if (LAYOUT_TREE_MAX_DEPTH <? depth) then Err ExceedsDepth
  else
    match check_node node panes, node with
    | Err reason, _ => Err reason
    | Ok panes, Leaf _ => Ok panes
    | Ok panes, Split _ _ _ a b =>
        match check_tree b (S depth) panes with
        | Err reason => Err reason
        | Ok panes => check_tree a (S depth) panes
        end
    end.

Fixpoint check_all (pending : list (PaneNode * nat)) (panes : nat) : result unit MalformedReason :=
  match pending with
  | [] => Ok tt
  | (node, depth) :: rest =>
      match check_tree node depth panes with Err reason => Err reason | Ok panes => check_all rest panes end
  end.

Definition pending_count (pending : list (PaneNode * nat)) : nat := sum_list (node_count ∘ fst <$> pending).

Lemma walk_check fuel pending panes :
  pending_count pending <= fuel -> walk fuel pending panes = check_all pending panes.
Proof.
  revert pending panes. induction fuel as [|fuel IH]; intros [|[node depth] rest] panes Hfuel; cbn [walk check_all]; try done.
  - unfold pending_count in Hfuel. cbn in Hfuel. destruct node; cbn in Hfuel; lia.
  - unfold pending_count in Hfuel. cbn in Hfuel. 
    destruct node as [leaf|sid d q a b]; cbn [check_tree]; destruct (LAYOUT_TREE_MAX_DEPTH <? depth); try done;
      destruct (check_node _ panes) as [panes'|]; try done.
    + apply IH. cbn in Hfuel |- *. unfold pending_count. lia.
    + rewrite IH; [|unfold pending_count; cbn in Hfuel |- *; lia]. cbn [children app check_all].
      destruct (check_tree b (S depth) panes') as [panes''|]; [|done]. by destruct (check_tree a (S depth) panes'').
Qed.

(** What a stored pane and a stored ratio must satisfy. *)
Definition stored_leaf (leaf : PaneLeaf) : Prop := tabs leaf = [] \/ selected_tab leaf ∈ tabs leaf.

Definition stored_ratio (ratio : f64) : Prop := is_finite ratio = true /\ ratio_ok ratio.

Definition fits_record (node : PaneNode) (depth_from panes : nat) : Prop :=
  depth_from + depth node <= S LAYOUT_TREE_MAX_DEPTH
  /\ panes + length (all_leaves node) <= LAYOUT_TREE_MAX_PANES
  /\ Forall stored_ratio (ratios node) /\ Forall stored_leaf (all_leaves node).

Lemma check_leaf leaf panes :
  check_node (Leaf leaf) panes = Ok (S panes) /\ S panes <= LAYOUT_TREE_MAX_PANES /\ stored_leaf leaf
  \/ (exists reason, check_node (Leaf leaf) panes = Err reason) /\ ~ (S panes <= LAYOUT_TREE_MAX_PANES /\ stored_leaf leaf).
Proof.
  cbn [check_node]. unfold stored_leaf. destruct (Nat.ltb_spec LAYOUT_TREE_MAX_PANES (S panes)).
  { right. split; [by eexists|lia]. }
  destruct (bool_decide_reflect (tabs leaf = [])); [by left; eauto|].
  destruct (bool_decide_reflect (selected_tab leaf ∈ tabs leaf)); [by left; eauto|].
  right. split; [by eexists|]. intros [_ [?|?]]; done.
Qed.

Lemma check_split sid d ratio a b panes :
  check_node (Split sid d ratio a b) panes = Ok panes /\ stored_ratio ratio
  \/ (exists reason, check_node (Split sid d ratio a b) panes = Err reason) /\ ~ stored_ratio ratio.
Proof.
  cbn [check_node]. unfold stored_ratio, ratio_ok.
  destruct (is_finite ratio), (f64_le LAYOUT_RATIO_MIN ratio), (f64_le ratio LAYOUT_RATIO_MAX); cbn;
    first [by left | right; split; [by eexists|]; intros (? & ? & ?); done].
Qed.

Lemma check_tree_exact node d panes :
  (check_tree node d panes = Ok (panes + length (all_leaves node)) /\ fits_record node d panes)
  \/ ((exists reason, check_tree node d panes = Err reason) /\ ~ fits_record node d panes).
Proof.
  revert d panes. induction node as [leaf|sid dir q a IHa b IHb]; intros d panes; unfold fits_record; cbn [check_tree].
  - destruct (Nat.ltb_spec LAYOUT_TREE_MAX_DEPTH d).
    { right. split; [by eexists|]. cbn [depth]. lia. }
    destruct (check_leaf leaf panes) as [(-> & Hp & Hl)|[[reason ->] Hno]].
    + left. cbn. rewrite Forall_singleton. split; [f_equal; lia|]. split_and!; [lia|lia|constructor|done].
    + right. split; [by eexists|]. cbn. rewrite Forall_singleton. intros (_ & ? & _ & ?). apply Hno. split; [lia|done].
  - destruct (Nat.ltb_spec LAYOUT_TREE_MAX_DEPTH d).
    { right. split; [by eexists|]. cbn [depth]. lia. }
    cbn [ratios all_leaves depth]. rewrite Forall_cons, !Forall_app, length_app.
    destruct (check_split sid dir q a b panes) as [[-> Hq]|[[reason ->] Hno]]; [|right; split; [by eexists|tauto]].
    destruct (IHb (S d) panes) as [[-> Hb]|[[reason ->] Hb]]; unfold fits_record in Hb.
    + destruct (IHa (S d) (panes + length (all_leaves b))) as [[-> Ha]|[[reason ->] Ha]]; unfold fits_record in Ha.
      * left. destruct Hb as (B1 & B2 & B3 & B4), Ha as (A1 & A2 & A3 & A4).
        split; [f_equal; lia|]. split_and!; try done; lia.
      * right. split; [by eexists|]. intros (D & P & (_ & R1 & R2) & L1 & L2). apply Ha. split_and!; try done; lia.
    + right. split; [by eexists|]. intros (D & P & (_ & R1 & R2) & L1 & L2). apply Hb. split_and!; try done; lia.
Qed.

(** A tree within the bounds of a record. *)
Definition restorable (layout : PaneLayout) : Prop :=
  fits_record (root layout) 1 0 /\ focused_pane_id layout ∈ pane_ids (root layout).

Lemma validate_stored_ok folder_key layout :
  validate_stored folder_key layout = Ok tt <-> restorable layout.
Proof.
  unfold validate_stored, restorable. rewrite walk_check by (unfold pending_count; cbn; lia). cbn [check_all].
  destruct (check_tree_exact (root layout) 1 0) as [[-> Hfit]|[[reason ->] Hno]]; [|split; [done|tauto]].
  rewrite <- find_leaf_is_Some. destruct (find_leaf _ _) as [leaf|].
  - split; [|done]. intros _. split; [done|by eexists].
  - split; [done|]. intros [_ [leaf E]]. discriminate E.
Qed.

(** A sound arrangement is refused for its size alone. *)
Lemma sound_restorable layout :
  layout_ok layout ->
  restorable layout <->
  depth (root layout) <= LAYOUT_TREE_MAX_DEPTH /\ length (all_leaves (root layout)) <= LAYOUT_TREE_MAX_PANES.
Proof.
  intros [Hshape Hr Hf]. unfold restorable, fits_record. split.
  - intros ((D & P & _) & _). lia.
  - intros [D P]. split_and!; [lia|lia| | |done].
    + eapply Forall_impl; [exact Hr|]. intros ratio [H1 H2]. split; [|by split].
      destruct ratio as [s|[]| |s m e]; done.
    + eapply Forall_impl; [apply Hshape|]. intros leaf [[? _]|?]; [by left|by right].
Qed.

Lemma validate_folders_ok folders :
  validate_folders folders = Ok tt <-> Forall (fun entry => restorable (snd entry)) folders.
Proof.
  induction folders as [|[key layout] rest IH]; cbn [validate_folders]; [split; [constructor|done]|].
  rewrite Forall_cons, <- (validate_stored_ok key layout), <- IH.
  destruct (validate_stored key layout) as [[]|]; [tauto|]. split; [done|]. by intros [[=] _].
Qed.

Lemma folders_of_spec records key layout : (key, layout) ∈ folders_of records <-> records !! key = Some layout.
Proof.
  apply elem_of_bindings.
Qed.

Lemma validate_folders_err folders error :
  validate_folders folders = Err error ->
  exists key layout reason, (key, layout) ∈ folders /\ error = Malformed key reason
    /\ validate_stored key layout = Err error.
Proof.
  induction folders as [|[key layout] rest IH]; cbn [validate_folders]; [done|].
  destruct (validate_stored key layout) as [[]|e] eqn:E.
  - intros H. destruct (IH H) as (k & l & r & ? & ? & ?). exists k, l, r. split_and!; [by right|done|done].
  - intros [= ->]. assert (exists reason, error = Malformed key reason) as [reason ->].
    { unfold validate_stored in E. repeat case_match; simplify_eq; by eexists. }
    exists key, layout, reason. split_and!; [by left|done|done].
Qed.

(** ** Claims *)

(** Reading a stored record back is all or nothing.  Text that is no record,
    or a record with a tree that is more than 32 levels deep or more than 255
    panes wide, that has a ratio out of bounds, a pane that selects a tab it
    does not hold, or a focus that is no pane of the tree, leaves the record as
    it was and names a folder at fault; otherwise the record becomes exactly
    what was read.  The iterative walk decides this as the recursive reading
    of the tree does. *)
Theorem restore_exact `{RecordsCodec} records payload :
  match records_from_str payload with
  | Err error => restore records payload = (Err (NotARecord error), records)
  | Ok folders =>
      ((forall folder_key layout, folders !! folder_key = Some layout -> restorable layout)
       /\ restore records payload = (Ok (size folders), folders))
      \/ (exists folder_key layout reason, folders !! folder_key = Some layout /\ ~ restorable layout
          /\ restore records payload = (Err (Malformed folder_key reason), records))
  end.
Proof.
  unfold restore. destruct (records_from_str payload) as [folders|error]; [|done].
  destruct (validate_folders (folders_of folders)) as [[]|error] eqn:E.
  - left. split; [|done]. apply validate_folders_ok in E. rewrite Forall_forall in E.
    intros key layout Hin. by apply (E (key, layout)), folders_of_spec.
  - right. destruct (validate_folders_err _ _ E) as (key & layout & reason & Hin & -> & Hbad).
    exists key, layout, reason. split_and!; [by apply folders_of_spec| |done].
    rewrite <- (validate_stored_ok key), Hbad. done.
Qed.

(** A pane that is split once for each of its tabs but the first. *)
Definition wide_pane : PaneLayout :=
  let sessions := (fun i => ("s" +:+ pretty i)%string) <$> seq 0 33 in
  mkPaneLayout (Leaf (mkPaneLeaf "pane-18bcfe56800-1" sessions "s0")) "pane-18bcfe56800-1".

Definition split_each : list LayoutEdit :=
  (fun i => ESplit "pane-18bcfe56800-1" Row ("s" +:+ pretty i)%string false) <$> seq 1 32.

Definition deep_layout : PaneLayout := fst (run_edits split_each wide_pane demo_ids).

Lemma deep_layout_sound : layout_ok deep_layout /\ depth (root deep_layout) = 33.
Proof.
  split; [|by vm_compute]. apply edits_sound.
  - apply (single_layout (mkPaneLeaf "pane-18bcfe56800-1" _ "s0")); cbn [tabs selected_tab].
    + by apply (bool_decide_unpack _); vm_compute.
    + by apply (bool_decide_unpack _); vm_compute.
    + right. cbn [tabs selected_tab]. apply list_elem_of_fmap. exists 0. split; [done|]. apply elem_of_seq. lia.
  - apply edits_ok_static, Forall_fmap, Forall_forall. done.
  - apply (demo_fresh_ids 64 ltac:(lia)).
Qed.

(** The gestures do not keep an arrangement within what a record is read back
    under.  After thirty-two splits of one pane, each accepted and the
    arrangement sound, the record is persisted without a word and refused as a
    whole at the next start: no folder's arrangement is restored. *)
Theorem deep_split_forgets_layouts `{RecordsCodec} {laws : RecordsCodecLaws} records folder_key storage stored held :
  records !! folder_key = Some deep_layout -> persist records storage = Ok stored ->
  layout_ok deep_layout /\ exists at_fault reason, restore_from held stored = (Err (Malformed at_fault reason), held).
Proof.
  intros Hdeep Hp. split; [apply deep_layout_sound|]. unfold persist, snapshot in Hp.
  destruct (records_to_string records) as [text|] eqn:E; [|done]. injection Hp as <-.
  unfold restore_from. rewrite lookup_insert_eq. unfold restore. rewrite (records_from_to _ _ E).
  destruct (validate_folders (folders_of records)) as [[]|error] eqn:Ev.
  - apply validate_folders_ok in Ev. rewrite Forall_forall in Ev.
    specialize (Ev (folder_key, deep_layout) (proj2 (folders_of_spec _ _ _) Hdeep)). cbn [snd] in Ev.
    apply (sound_restorable _ (proj1 deep_layout_sound)) in Ev as [Hd _].
    rewrite (proj2 deep_layout_sound) in Hd. unfold LAYOUT_TREE_MAX_DEPTH in Hd. lia.
  - destruct (validate_folders_err _ _ Ev) as (key & layout & reason & _ & -> & _). by exists key, reason.
Qed.

#[local] Instance spec_float_eq_dec : EqDecision SpecFloat.spec_float.
Proof. solve_decision. Defined.

#[local] Instance PaneLeaf_eq_dec : EqDecision PaneLeaf.
Proof. solve_decision. Defined.

#[local] Instance PaneNode_eq_dec : EqDecision PaneNode.
Proof. solve_decision. Defined.

#[local] Instance PaneLayout_eq_dec : EqDecision PaneLayout.
Proof. solve_decision. Defined.

(** A codec for one record. *)
Definition one_record (only : LayoutRecords) : RecordsCodec :=
  {| records_to_string := fun records => if decide (records = only) then Ok "{}"%string else Err EmptyString;
     records_from_str := fun text => Ok only |}.

Lemma one_record_laws only : @RecordsCodecLaws (one_record only).
Proof. constructor. intros records text. cbn. by destruct (decide (records = only)) as [->|]. Qed.

Lemma deep_split_forgets_layouts_witness :
  exists stored at_fault reason,
    @persist (one_record {[ "/home" := deep_layout; "/tmp" := demo_layout ]})
      {[ "/home" := deep_layout; "/tmp" := demo_layout ]} ∅ = Ok stored
    /\ @restore_from (one_record {[ "/home" := deep_layout; "/tmp" := demo_layout ]}) ∅ stored
       = (Err (Malformed at_fault reason), ∅).
Proof.
  set (only := {[ "/home" := deep_layout; "/tmp" := demo_layout ]} : LayoutRecords).
  assert (Hp : @persist (one_record only) only ∅ = Ok {[ LAYOUT_STORAGE_KEY := "{}"%string ]}).
  { unfold persist, snapshot. cbn [records_to_string one_record]. by rewrite decide_True. }
  destruct (@deep_split_forgets_layouts (one_record only) (one_record_laws only) only "/home" ∅ _ ∅
              (lookup_insert_eq _ _ _) Hp) as (_ & at_fault & reason & E).
  eexists _, at_fault, reason. split; [exact Hp|exact E].
Defined.
