(* ===== verification/DeckState.v ===== *)
(** * DeckState: the deck's slice of the client's store

    Models [src/crates/roost-client-core/src/deck/state.rs],
    [route_selection.rs], [tab.rs] and [warm_set.rs]. *)
From S2P Require Export LayoutRecords.
#[local] Open Scope Z_scope.

(** ** Tabs *)

Inductive DeckTab := Terminal (session_id : string) | Agent (conversation_id : string).

(** [str::strip_prefix]. *)
Fixpoint strip_prefix (prefix value : string) : option string :=
  match prefix, value with
  | EmptyString, _ => Some value
  | String a prefix, String b value => if Ascii.eqb a b then strip_prefix prefix value else None
  | String _ _, EmptyString => None
  end.

Definition agent_tab_id (conversation_id : string) : string := ("agent:" +:+ conversation_id)%string.

Definition DeckTab_parse (tab_id : string) : option DeckTab :=
  match strip_prefix "agent:" tab_id with
  | Some conversation_id =>
      if decide (conversation_id = EmptyString) then None else Some (Agent conversation_id)
  | None => if uuid tab_id then Some (Terminal tab_id) else None
  end.

Definition DeckTab_path (tab : DeckTab) : string :=
  match tab with
  | Terminal session_id => ("/s/" +:+ session_id)%string
  | Agent conversation_id => ("/a/" +:+ conversation_id)%string
  end.

Definition deck_tab_path (tab_id : string) : string :=
  match DeckTab_parse tab_id with Some tab => DeckTab_path tab | None => ("/s/" +:+ tab_id)%string end.

(** ** [route_selection.rs] *)

Inductive SessionSelection := Persist | NavigateOnly.

#[global] Instance SessionSelection_eq_dec : EqDecision SessionSelection.
Proof. solve_decision. Defined.

Definition projects_compact_from_empty_focus (current : option PaneLayout) (compact : bool) : bool :=
  match current with
  | None => false
  | Some current =>
      compact
      && match find_leaf (root current) (focused_pane_id current) with
         | Some leaf => bool_decide (tabs leaf = [])
         | None => false
         end
  end.

Definition route_selection_commit (current : PaneLayout) (active_session_id : string) (compact : bool) :
    option PaneLayout :=
  if projects_compact_from_empty_focus (Some current) compact then None
  else
    match find_leaf_of_tab (root current) active_session_id with
    | None => None
    | Some leaf =>
        if bool_decide (focused_pane_id current = pane_id leaf) && bool_decide (selected_tab leaf = active_session_id)
        then None
        else Some (select_tab current active_session_id)
    end.

Definition pane_focus_persists (current : option PaneLayout) (rendered_pane_id : string) (compact : bool) : bool :=
  match current with
  | None => false
  | Some layout =>
      if projects_compact_from_empty_focus current compact then false
      else negb (compact && negb (bool_decide (focused_pane_id layout = rendered_pane_id)))
  end.

Definition session_selection (current : option PaneLayout) (compact : bool) : SessionSelection :=
  if projects_compact_from_empty_focus current compact then NavigateOnly else Persist.

(** ** [state.rs] *)

Record DeckFolder := mkDeckFolder { folder_key : string; live_session_ids : list string }.

Record DeckNavigation := mkDeckNavigation { sequence : Z; path : string }.

Record CloseUndo := mkCloseUndo { undo_folder_key : string; before : PaneLayout; was_viewed : bool }.

Record DeckState := mkDeckState {
  records : LayoutRecords;
  pane_ids : DeckPaneIds;
  close_undo : gmap string CloseUndo;
  observed_folder : option (option string);
  navigation : option DeckNavigation;
}.

Definition DeckState_new (epoch_ms : Z) : DeckState := mkDeckState ∅ (DeckPaneIds_new epoch_ms) ∅ None None.

Definition with_records (d : DeckState) (r : LayoutRecords) (ids : DeckPaneIds) : DeckState :=
  mkDeckState r ids (close_undo d) (observed_folder d) (navigation d).

Definition with_close_undo (d : DeckState) (undo : gmap string CloseUndo) : DeckState :=
  mkDeckState (records d) (pane_ids d) undo (observed_folder d) (navigation d).

Definition with_observed (d : DeckState) (observed : option (option string)) : DeckState :=
  mkDeckState (records d) (pane_ids d) (close_undo d) observed (navigation d).

Definition resolve_layout (d : DeckState) (folder : DeckFolder) : PaneLayout :=
  fst (resolve (records d) (folder_key folder) (live_session_ids folder) mkUnseededIds).

Definition resolve_for_edit (d : DeckState) (folder : DeckFolder) : PaneLayout * DeckState :=
  let '(r, ids) := seed_if_absent (records d) (folder_key folder) (live_session_ids folder) (pane_ids d) in
  let '(layout, ids) := resolve r (folder_key folder) (live_session_ids folder) ids in
  (layout, with_records d r ids).

(** [DeckState::commit]; a record that cannot be persisted is logged. *)
Definition deck_commit `{RecordsCodec} (d : DeckState) (folder_key : string) (layout : PaneLayout)
    (storage : KeyValueStore) : DeckState * KeyValueStore :=
  let r := commit_layout (records d) folder_key layout in
  (with_records d r (pane_ids d), match persist r storage with Ok storage => storage | Err _ => storage end).

Definition request_navigation (d : DeckState) (path : string) : DeckState :=
  let sequence := match navigation d with Some last => u64 (sequence last + 1) | None => 1 end in
  mkDeckState (records d) (pane_ids d) (close_undo d) (observed_folder d) (Some (mkDeckNavigation sequence path)).

(** ** [warm_set.rs] *)

Definition DECK_WARM_LIMIT : nat := 8.

(** The loop that collects the slotted sessions that are open, once each. *)
Fixpoint slotted_open (open_ids : gset string) (slotted_ids slotted : list string) : list string :=
  match slotted_ids with
  | [] => slotted
  | id :: rest =>
      slotted_open open_ids rest
        (if bool_decide (id ∈ open_ids) && negb (bool_decide (id ∈ slotted)) then slotted ++ [id] else slotted)
  end.

(** [WarmSet::advance] on the held ids. *)
Definition advance (ids : list string) (open_ids : gset string) (slotted_ids : list string) (limit : nat) :
    list string * bool :=
  let slotted := slotted_open open_ids slotted_ids [] in
  let next := base.filter (fun id => id ∈ open_ids /\ id ∉ slotted) ids in
  let evictable := (length next - limit)%nat in
  let next := drop evictable next ++ slotted in
  if decide (next = ids) then (ids, false) else (next, true).
