(* ===== verification/ClientStore.v ===== *)
(** * ClientStore: the slices a deck works on, and their mutations

    The part of the client's [Store] that the deck's intents read and write,
    and the mutations over it: [store/toasts.rs], [optimistic_spawn/settle.rs],
    [store/pending_close.rs], [store/spotlight.rs], [handle_close_kill.rs] of
    [src/crates/roost-client-core/src].  Each counts one change, as
    [Store::note_change] does.  The session plane and the agent conversations
    are read only. *)
From S2P Require Export Toasts SpawnLedger DeckState.
#[local] Open Scope Z_scope.

Inductive SessionStatus := Open | Closed.

#[global] Instance SessionStatus_eq_dec : EqDecision SessionStatus.
Proof. solve_decision. Defined.

Record Store := mkStore {
  cards : ToastStack;
  spawns : SpawnLedger;
  pending_closes : PendingCloses;
  spotlight : option string;
  visible_pane_count : Z;
  deck : DeckState;
  sessions : gmap string SessionStatus;
  conversations : gset string;
  call_id_next : Z;
  revision : Z;
}.

(** [Store::note_change]. *)
Definition note_change (s : Store) : Store :=
  mkStore (cards s) (spawns s) (pending_closes s) (spotlight s) (visible_pane_count s) (deck s)
    (sessions s) (conversations s) (call_id_next s) (u64 (revision s + 1)).

Definition with_cards (s : Store) (c : ToastStack) : Store :=
  mkStore c (spawns s) (pending_closes s) (spotlight s) (visible_pane_count s) (deck s)
    (sessions s) (conversations s) (call_id_next s) (revision s).

Definition with_spawns (s : Store) (l : SpawnLedger) : Store :=
  mkStore (cards s) l (pending_closes s) (spotlight s) (visible_pane_count s) (deck s)
    (sessions s) (conversations s) (call_id_next s) (revision s).

Definition with_closes (s : Store) (p : PendingCloses) : Store :=
  mkStore (cards s) (spawns s) p (spotlight s) (visible_pane_count s) (deck s)
    (sessions s) (conversations s) (call_id_next s) (revision s).

Definition with_spotlight (s : Store) (session : option string) : Store :=
  mkStore (cards s) (spawns s) (pending_closes s) session (visible_pane_count s) (deck s)
    (sessions s) (conversations s) (call_id_next s) (revision s).

Definition with_pane_count (s : Store) (count : Z) : Store :=
  mkStore (cards s) (spawns s) (pending_closes s) (spotlight s) count (deck s)
    (sessions s) (conversations s) (call_id_next s) (revision s).

Definition with_deck (s : Store) (d : DeckState) : Store :=
  mkStore (cards s) (spawns s) (pending_closes s) (spotlight s) (visible_pane_count s) d
    (sessions s) (conversations s) (call_id_next s) (revision s).

(** [Store::next_call_id]. *)
Definition take_call_id (s : Store) : Z * Store :=
  (call_id_next s,
   mkStore (cards s) (spawns s) (pending_closes s) (spotlight s) (visible_pane_count s) (deck s)
     (sessions s) (conversations s) (u64 (call_id_next s + 1)) (revision s)).

(** [selectors::session_by_id]. *)
Definition session_by_id (s : Store) (session_id : string) : option SessionStatus :=
  if uuid session_id then sessions s !! session_id else None.

(** ** Toasts *)

Definition add_toast (s : Store) (id : ToastId) (msg : string) (kind : ToastKind) (options : ToastOptions)
    (now_ms : Z) : Store :=
  note_change (with_cards s (raise_toast (cards s) id msg kind options now_ms)).

Definition dismiss_toast (s : Store) (id : ToastId) : Store * bool :=
  match stack (cards s) !! id with
  | None => (s, false)
  | Some _ => (note_change (with_cards s (remove_card (cards s) id)), true)
  end.

Definition dismiss_all_toasts (s : Store) : Store * bool :=
  let '(cleared, had_any) := clear_all (cards s) in
  if had_any then (note_change (with_cards s cleared), true) else (with_cards s cleared, false).

Definition take_toast_action (s : Store) (id : ToastId) : Store * option ToastAction :=
  match stack (cards s) !! id with
  | None => (s, None)
  | Some toast => (note_change (with_cards s (remove_card (cards s) id)), toast_action toast)
  end.

Definition expire_due_toasts (s : Store) (now_ms : Z) : Store * bool :=
  match due_cards (cards s) now_ms with
  | [] => (s, false)
  | due => (note_change (with_cards s (remove_cards (cards s) due)), true)
  end.

Definition set_card (c : ToastStack) (id : ToastId) (toast : Toast) : ToastStack :=
  mkToastStack (<[id := toast]> (stack c)) (next_raised_order c).

Definition hold_toast_dismiss (s : Store) (id : ToastId) (now_ms : Z) : Store * bool :=
  match stack (cards s) !! id with
  | None => (s, false)
  | Some toast =>
      match held toast, Toasts.expires_at_ms toast with
      | true, _ | _, None => (s, false)
      | false, Some deadline => (note_change (with_cards s (set_card (cards s) id (hold_card toast deadline now_ms))), true)
      end
  end.

Definition release_toast_dismiss (s : Store) (id : ToastId) (now_ms : Z) : Store * bool :=
  match stack (cards s) !! id with
  | None => (s, false)
  | Some toast =>
      if negb (held toast) then (s, false)
      else if remaining_ms toast =? 0 then dismiss_toast s id
      else (note_change (with_cards s (set_card (cards s) id (release_card toast now_ms))), true)
  end.

Definition drop_toasts_for_session (s : Store) (session_id : string) : Store * bool :=
  let '(kept, dropped) := remove_toasts_for_session (cards s) session_id in
  if dropped then (note_change (with_cards s kept), true) else (with_cards s kept, false).

Definition clear_toasts_for_account_boundary (s : Store) : Store := fst (dismiss_all_toasts s).

(** ** Optimistic spawns *)

Definition begin_optimistic_spawn (s : Store) (id anchor_worker_fp anchor_cwd : string)
    (anchor_workspace_id : option string) (now_ms : Z) : Store * result SpawnTicket SpawnRefusal :=
  if negb (is_terminal_uuid id) then (s, Err (NotAUuid id))
  else
    let '(attempt, ledger) := mint_attempt (spawns s) in
    let t := mkSpawnTicket id attempt in
    let entry :=
      mkSpawnEntry t
        (mkClientOnlySession id anchor_worker_fp anchor_cwd anchor_cwd anchor_workspace_id (instant_i64 now_ms))
        Pending in
    (note_change (with_spawns s (with_entries ledger (<[id := entry]> (SpawnLedger.entries ledger)))), Ok t).

Definition respawn_optimistic_spawn (s : Store) (t : SpawnTicket) (now_ms : Z) :
    Store * result SpawnTicket SpawnRefusal :=
  let '(attempt, ledger) := mint_attempt (spawns s) in
  let next := mkSpawnTicket (session_id t) attempt in
  match SpawnLedger.entries ledger !! session_id t with
  | None => (with_spawns s ledger, Err (NoPendingSpawn (session_id t)))
  | Some entry =>
      let p := placeholder entry in
      let entry :=
        mkSpawnEntry next
          (mkClientOnlySession (client_id p) (worker_fp p) (cwd p) (spawn_cwd p) (workspace_id p) (instant_i64 now_ms))
          Pending in
      (note_change (with_spawns s (with_entries ledger (<[session_id t := entry]> (SpawnLedger.entries ledger)))), Ok next)
  end.

Definition settle_spawn_admitted (s : Store) (t : SpawnTicket) : Store * SpawnSettlement :=
  match relevance (spawns s) t with
  | Some reason => (s, Superseded reason)
  | None =>
      let ledger :=
        match SpawnLedger.entries (spawns s) !! session_id t with
        | Some entry =>
            with_entries (spawns s)
              (<[session_id t := mkSpawnEntry (ticket entry) (placeholder entry) EntryAdmitted]> (SpawnLedger.entries (spawns s)))
        | None => spawns s
        end in
      (note_change (with_spawns s (remember ledger (session_id t) (attempt t) TombAdmitted)), Applied)
  end.

(** The entry goes and a tombstone stays. *)
Definition retire_spawn (ledger : SpawnLedger) (t : SpawnTicket) (reason : TombstoneReason) : SpawnLedger :=
  remember (with_entries ledger (base.delete (session_id t) (SpawnLedger.entries ledger)))
    (session_id t) (attempt t) reason.

Definition settle_spawn_rejected (s : Store) (t : SpawnTicket) (message : string) (now_ms : Z) :
    Store * SpawnSettlement :=
  match relevance (spawns s) t with
  | Some reason => (s, Superseded reason)
  | None =>
      let s := with_spawns s (retire_spawn (spawns s) t TombRejected) in
      let card :=
        raise_toast (cards s) (mkToastId (ToastSource_Spawn (attempt t)) (session_id t))
          ("New terminal failed: " +:+ message)%string ToastKind_Err plain now_ms in
      (note_change (with_cards s card), Applied)
  end.

Definition abort_optimistic_spawn (s : Store) (t : SpawnTicket) : Store * bool :=
  match relevance (spawns s) t with
  | Some _ => (s, false)
  | None => (note_change (with_spawns s (retire_spawn (spawns s) t TombRetracted)), true)
  end.

Definition reconcile_spawn (s : Store) (id : string) : Store * bool :=
  match SpawnLedger.entries (spawns s) !! id with
  | None => (s, false)
  | Some _ =>
      (note_change (with_spawns s (with_entries (spawns s) (base.delete id (SpawnLedger.entries (spawns s))))), true)
  end.

(** ** Spotlight *)

Definition set_spotlight_session_id (s : Store) (session_id : option string) : Store * bool :=
  if decide (spotlight s = session_id) then (s, false)
  else (note_change (with_spotlight s session_id), true).

Definition clear_spotlight (s : Store) : Store * bool := set_spotlight_session_id s None.

Definition is_spotlit (s : Store) (session_id : string) : bool := bool_decide (spotlight s = Some session_id).

Definition set_visible_pane_count (s : Store) (count : Z) : Store * bool :=
  if visible_pane_count s =? count then (s, false) else (note_change (with_pane_count s count), true).

(** ** Pending closes *)

Definition schedule_close (s : Store) (session_id : string) (labels : CloseLabels) (now_ms : Z) : Store * bool :=
  let entry := mkPendingClose session_id labels (saturating_add64 now_ms UNDO_WINDOW_MS) in
  if decide (PendingCloses.entries (pending_closes s) !! session_id = Some entry) then (s, false)
  else (note_change (with_closes s (with_close (pending_closes s) session_id entry)), true).

Definition undo_one (s : Store) (session_id : string) : Store * option CloseLabels :=
  match PendingCloses.entries (pending_closes s) !! session_id with
  | None => (s, None)
  | Some entry =>
      (note_change (with_closes s (without_close (pending_closes s) session_id)), Some (PendingCloses.labels entry))
  end.

Definition undo_all (s : Store) : Store * list CloseLabels :=
  let p := pending_closes s in
  if decide (PendingCloses.entries p = ∅) then (s, [])
  else
    (note_change (with_closes s (mkPendingCloses ∅ (kills_in_flight p) (closing p))),
     PendingCloses.labels <$> values (PendingCloses.entries p)).

(** Whether the session or the conversation of a tab is still there. *)
Definition session_is_open (s : Store) (tab_id : string) : bool :=
  match strip_prefix "agent:" tab_id with
  | Some conversation_id => bool_decide (conversation_id ∈ conversations s)
  | None => bool_decide (session_by_id s tab_id = Some Open)
  end.

Definition sweep_pending_closes (s : Store) (now_ms : Z) : Store * list string :=
  let p := pending_closes s in
  let kept := base.filter (fun id => session_is_open s id = true) (closing p) in
  let p := mkPendingCloses (PendingCloses.entries p) (kills_in_flight p) kept in
  match due_closes p now_ms with
  | [] => (with_closes s p, [])
  | due => (note_change (with_closes s (foldl expire_close p due)), due)
  end.

Definition clear_pending_closes (s : Store) : Store :=
  let p := pending_closes s in
  if bool_decide (PendingCloses.entries p = ∅) && bool_decide (closing p = ∅) then s
  else note_change (with_closes s (PendingCloses_clear p)).

(** ** [handle_close_kill.rs] *)

Inductive RpcCall :=
| AgentChatDelete (call_id : Z) (conversation_id : string)
| SessionsKill (call_id : Z) (session_id : string) (force : bool).

(** The answers a close looks at; [AnsweredOtherwise] is every other one. *)
Inductive RpcResult :=
| SessionKillAnswered (call_id : Z) (session_id : string) (force accepted : bool)
| Failed (call_id : Z) (error : string)
| AnsweredOtherwise (call_id : Z).

Definition rpc_call_id (answer : RpcResult) : Z :=
  match answer with SessionKillAnswered id _ _ _ | Failed id _ | AnsweredOtherwise id => id end.

Definition issue_kill (s : Store) (tab_id : string) (force : bool) : Store * RpcCall :=
  let '(call_id, s) := take_call_id s in
  let s := with_closes s (begin_kill (pending_closes s) call_id tab_id) in
  (s, match strip_prefix "agent:" tab_id with
      | Some conversation_id => AgentChatDelete call_id conversation_id
      | None => SessionsKill call_id tab_id force
      end).

Fixpoint issue_kills (s : Store) (tab_ids : list string) : Store * list RpcCall :=
  match tab_ids with
  | [] => (s, [])
  | tab_id :: rest =>
      let '(s, call) := issue_kill s tab_id false in
      let '(s, calls) := issue_kills s rest in
      (s, call :: calls)
  end.

Definition issue_due_kills (s : Store) (now_ms : Z) : Store * list RpcCall :=
  let '(s, due) := sweep_pending_closes s now_ms in issue_kills s due.

(** [if release_closing(..) { note_change() }]. *)
Definition release_tab (s : Store) (tab_id : string) : Store :=
  let '(p, released) := release_closing (pending_closes s) tab_id in
  if released then note_change (with_closes s p) else with_closes s p.

Definition is_agent_tab (tab_id : string) : bool :=
  match strip_prefix "agent:" tab_id with Some _ => true | None => false end.

Definition settle_kill (s : Store) (answer : RpcResult) (now_ms : Z) : Store * list RpcCall * bool :=
  let '(taken, p) := take_kill (pending_closes s) (rpc_call_id answer) in
  match taken with
  | None => (with_closes s p, [], false)
  | Some tab_id =>
      let s := with_closes s p in
      match answer with
      | SessionKillAnswered _ _ force accepted =>
          if accepted then (s, [], true)
          else if negb force && negb (is_agent_tab tab_id) then
            let '(s, call) := issue_kill s tab_id true in (s, [call], true)
          else if force then (release_tab s tab_id, [], true)
          else (s, [], true)
      | Failed call_id error =>
          (add_toast (release_tab s tab_id) (mkToastId (ToastSource_Rpc call_id) tab_id)
             ("Close failed: " +:+ error)%string ToastKind_Err plain now_ms, [], true)
      | AnsweredOtherwise _ => (s, [], true)
      end
  end.
