(* ===== verification/DeckIntent.v ===== *)
(** * DeckIntent: what a deck asks of the core

    Models [src/crates/roost-client-core/src/deck/intent.rs], its
    [intent/follow.rs] and [intent/close.rs], and [deck/spawn.rs].  An intent
    takes the store and the host's key/value store and gives both back. *)
From S2P Require Export ClientStore.
#[local] Open Scope Z_scope.

Inductive DeckIntent :=
| Observed (folder : option DeckFolder) (followed_session_id : option string) (compact : bool)
    (visible_pane_count : Z)
| IntentSelectTab (folder : DeckFolder) (session_id : string) (compact : bool)
| IntentFocusPane (folder : DeckFolder) (pane_id : string) (compact : bool)
| OpenSpawned (folder : DeckFolder) (pane_id session_id : string) (compact : bool)
| ReorderTabs (folder : DeckFolder) (pane_id : string) (ordered_ids : list string)
| IntentMoveTab (folder : DeckFolder) (tab_id to_pane_id : string)
| SplitPane (folder : DeckFolder) (pane_id : string) (direction : LayoutDirection) (tab_id : string)
    (insert_first : bool)
| SetRatio (folder : DeckFolder) (split_id : string) (ratio : f64)
| IntentArrange (folder : DeckFolder) (kind : ArrangeKind) (active_session_id : option string)
| ToggleSpotlight (folder : DeckFolder)
| ClearSpotlight
| IntentCloseTab (folder : option DeckFolder) (session_id : string) (active_session_id : option string)
    (labels : CloseLabels)
| UndoClose (session_id : string).

Definition kind_name (intent : DeckIntent) : string :=
  match intent with
  | Observed _ _ _ _ => "observed" | IntentSelectTab _ _ _ => "select_tab"
  | IntentFocusPane _ _ _ => "focus_pane" | OpenSpawned _ _ _ _ => "open_spawned"
  | ReorderTabs _ _ _ => "reorder_tabs" | IntentMoveTab _ _ _ => "move_tab"
  | SplitPane _ _ _ _ _ => "split_pane" | SetRatio _ _ _ => "set_ratio"
  | IntentArrange _ _ _ => "arrange" | ToggleSpotlight _ => "toggle_spotlight"
  | ClearSpotlight => "clear_spotlight" | IntentCloseTab _ _ _ _ => "close_tab"
  | UndoClose _ => "undo_close"
  end.

(** The store and the host's key/value store. *)
Abbreviation Host := (Store * KeyValueStore)%type.

(** [store.deck.resolve_for_edit(folder)]. *)
Definition resolve_in (s : Store) (folder : DeckFolder) : PaneLayout * Store :=
  let '(layout, d) := resolve_for_edit (deck s) folder in (layout, with_deck s d).

Definition navigate (s : Store) (path : string) : Store := with_deck s (request_navigation (deck s) path).

Section intents.
Context `{RecordsCodec}.

(** [intent::commit]. *)
Definition commit (s : Store) (folder : DeckFolder) (next : PaneLayout) (storage : KeyValueStore) : Host :=
  let '(d, storage) := deck_commit (deck s) (folder_key folder) next storage in
  (note_change (with_deck s d), storage).

(** ** [follow.rs] *)

Definition stale_spotlight (s : Store) : bool :=
  match spotlight s with
  | None => false
  | Some tab_id =>
      match strip_prefix "agent:" tab_id with
      | Some conversation_id =>
          negb (bool_decide (conversation_id ∈ conversations s)) || contains (pending_closes s) tab_id
      | None => negb (bool_decide (session_by_id s tab_id = Some Open))
      end
  end.

(** The undo arrangements whose close still waits. *)
Definition retain_close_undo (s : Store) : Store :=
  with_deck s
    (with_close_undo (deck s)
       (base.filter (fun entry => contains (pending_closes s) (fst entry) = true) (close_undo (deck s)))).

Definition observe (s : Store) (folder : option DeckFolder) (followed_session_id : option string) (compact : bool)
    (storage : KeyValueStore) : Host :=
  let key := folder_key <$> folder in
  let previous := observed_folder (deck s) in
  let s := with_deck s (with_observed (deck s) (Some key)) in
  let s :=
    match previous with
    | Some previous => if decide (previous = key) then s else fst (clear_spotlight s)
    | None => s
    end in
  let s := if stale_spotlight s then fst (clear_spotlight s) else s in
  let s := retain_close_undo s in
  match folder with
  | None => (s, storage)
  | Some folder =>
      let seeded := bool_decide (is_Some (stored (records (deck s)) (folder_key folder))) in
      let '(current, s) := resolve_in s folder in
      let s := if seeded then s else note_change s in
      match followed_session_id with
      | None => (s, storage)
      | Some followed =>
          match route_selection_commit current followed compact with
          | None => (s, storage)
          | Some next => commit s folder next storage
          end
      end
  end.

Definition select_session (s : Store) (folder : DeckFolder) (session_id : string) (compact : bool)
    (storage : KeyValueStore) : Host :=
  let '(current, s) := resolve_in s folder in
  if decide (session_selection (Some current) compact = NavigateOnly)
  then (note_change (navigate s (deck_tab_path session_id)), storage)
  else
    let spotlit_pane_id :=
      match spotlight s with
      | Some spotlit =>
          if compact then None
          else
            match find_leaf_of_tab (root current) spotlit with
            | Some leaf => if decide (selected_tab leaf = spotlit) then Some (pane_id leaf) else None
            | None => None
            end
      | None => None
      end in
    let next := select_tab current session_id in
    let lands_in_spotlit :=
      match spotlit_pane_id with
      | Some id => bool_decide (pane_id <$> find_leaf_of_tab (root next) session_id = Some id)
      | None => false
      end in
    let '(s, storage) := commit s folder next storage in
    let s := navigate s (deck_tab_path session_id) in
    (if lands_in_spotlit then fst (set_spotlight_session_id s (Some session_id)) else s, storage).

(** ** [close.rs] *)

Definition close_destination (after : option PaneLayout) (folder : option DeckFolder) (closing_session_id : string) :
    string :=
  let shown :=
    match after ≫= (fun layout => find_leaf (root layout) (focused_pane_id layout)) with
    | Some leaf => if decide (selected_tab leaf = EmptyString) then None else Some (selected_tab leaf)
    | None => None
    end in
  match shown with
  | Some tab => deck_tab_path tab
  | None =>
      match folder ≫= (fun folder => head (base.filter (fun id => id <> closing_session_id) (rev (live_session_ids folder)))) with
      | Some sibling => deck_tab_path sibling
      | None => "/"%string
      end
  end.

Definition close_session (s : Store) (folder : option DeckFolder) (session_id : string)
    (active_session_id : option string) (labels : CloseLabels) (storage : KeyValueStore) (now_ms : Z) : Host :=
  if is_pending (spawns s) session_id then
    let s :=
      match ticket_for (spawns s) session_id with
      | Some t => fst (abort_optimistic_spawn s t)
      | None => s
      end in
    match folder with
    | Some folder =>
        let '(current, s) := resolve_in s folder in
        commit s folder (close_tab current session_id) storage
    | None => (s, storage)
    end
  else
    let viewed := bool_decide (active_session_id = Some session_id) in
    let '(before, s) :=
      match folder with
      | Some folder => let '(layout, s) := resolve_in s folder in (Some layout, s)
      | None => (None, s)
      end in
    let after := (fun layout => close_tab layout session_id) <$> before in
    let destination := close_destination after folder session_id in
    let s := fst (schedule_close s session_id labels now_ms) in
    let '(s, storage) :=
      match folder, before, after with
      | Some folder, Some before, Some after =>
          let undo := mkCloseUndo (folder_key folder) before viewed in
          let s := with_deck s (with_close_undo (deck s) (<[session_id := undo]> (close_undo (deck s)))) in
          commit s folder after storage
      | _, _, _ => (s, storage)
      end in
    (if viewed then navigate s destination else s, storage).

Definition undo_close (s : Store) (session_id : string) (storage : KeyValueStore) : Host :=
  let '(s, labels) := undo_one s session_id in
  match labels with
  | None => (s, storage)
  | Some _ =>
      match close_undo (deck s) !! session_id with
      | None => (s, storage)
      | Some undo =>
          let s := with_deck s (with_close_undo (deck s) (base.delete session_id (close_undo (deck s)))) in
          let '(d, storage) := deck_commit (deck s) (undo_folder_key undo) (before undo) storage in
          let s := note_change (with_deck s d) in
          (if was_viewed undo then navigate s (deck_tab_path session_id) else s, storage)
      end
  end.

(** ** [apply_deck_intent] *)

(** The arms that reshape a folder's arrangement: [edit] answers the next one. *)
Definition reshape (s : Store) (folder : DeckFolder) (edit : PaneLayout -> PaneLayout) (storage : KeyValueStore) : Host :=
  let '(current, s) := resolve_in s folder in commit s folder (edit current) storage.

Definition split_pane (s : Store) (folder : DeckFolder) (pane_id : string) (direction : LayoutDirection)
    (tab_id : string) (insert_first : bool) (storage : KeyValueStore) : Host :=
  let '(current, s) := resolve_in s folder in
  let '(next, ids) := split_leaf current pane_id direction tab_id insert_first (pane_ids (deck s)) in
  commit (with_deck s (DeckState.with_records (deck s) (records (deck s)) ids)) folder next storage.

Definition arrange (s : Store) (folder : DeckFolder) (kind : ArrangeKind) (active_session_id : option string)
    (storage : KeyValueStore) : Host :=
  let s := fst (clear_spotlight s) in
  let '(current, s) := resolve_in s folder in
  let '(next, ids) := arrange_layout kind current (live_session_ids folder) (pane_ids (deck s)) in
  let s := with_deck s (DeckState.with_records (deck s) (records (deck s)) ids) in
  let next :=
    match active_session_id, kind with
    | Some active, Preset _ =>
        match find_leaf_of_tab (root next) active with Some _ => select_tab next active | None => next end
    | _, _ => next
    end in
  commit s folder next storage.

Definition focus_rendered_pane (s : Store) (folder : DeckFolder) (rendered : string) (compact : bool)
    (storage : KeyValueStore) : Host :=
  let '(current, s) := resolve_in s folder in
  if negb (pane_focus_persists (Some current) rendered compact) || bool_decide (focused_pane_id current = rendered)
  then (s, storage)
  else
    match find_leaf (root current) rendered with
    | None => (s, storage)
    | Some leaf =>
        let '(s, storage) := commit s folder (focus_pane current rendered) storage in
        (if decide (selected_tab leaf = EmptyString) then s else navigate s (deck_tab_path (selected_tab leaf)), storage)
    end.

Definition open_spawned (s : Store) (folder : DeckFolder) (opened_from session_id : string) (compact : bool)
    (storage : KeyValueStore) : Host :=
  let before := mkDeckFolder (folder_key folder) (base.filter (fun id => id <> session_id) (live_session_ids folder)) in
  let '(current, s) := resolve_in s before in
  let '(s, storage) :=
    if pane_focus_persists (Some current) opened_from compact && negb (bool_decide (focused_pane_id current = opened_from))
    then commit s before (focus_pane current opened_from) storage
    else (s, storage) in
  (note_change (navigate s (deck_tab_path session_id)), storage).

Definition toggle_spotlight (s : Store) (folder : DeckFolder) : Store :=
  match spotlight s with
  | Some _ => fst (clear_spotlight s)
  | None =>
      let '(current, s) := resolve_in s folder in
      match find_leaf (root current) (focused_pane_id current) with
      | Some leaf =>
          if decide (selected_tab leaf = EmptyString) then s
          else fst (set_spotlight_session_id s (Some (selected_tab leaf)))
      | None => s
      end
  end.

Definition apply_deck_intent (s : Store) (intent : DeckIntent) (storage : KeyValueStore) (now_ms : Z) : Host :=
  match intent with
  | Observed folder followed compact count =>
      let '(s, storage) := observe s folder followed compact storage in
      (fst (set_visible_pane_count s count), storage)
  | IntentSelectTab folder session_id compact => select_session s folder session_id compact storage
  | IntentFocusPane folder pane_id compact => focus_rendered_pane s folder pane_id compact storage
  | OpenSpawned folder pane_id session_id compact => open_spawned s folder pane_id session_id compact storage
  | ReorderTabs folder pane_id ordered_ids =>
      reshape s folder (fun current => reorder_tab current pane_id ordered_ids) storage
  | IntentMoveTab folder tab_id to_pane_id =>
      let '(s, storage) := reshape s folder (fun current => move_tab current tab_id to_pane_id None) storage in
      (navigate s (deck_tab_path tab_id), storage)
  | SplitPane folder pane_id direction tab_id insert_first =>
      let '(s, storage) := split_pane s folder pane_id direction tab_id insert_first storage in
      (navigate s (deck_tab_path tab_id), storage)
  | SetRatio folder split_id ratio =>
      reshape s folder
        (fun current => mkPaneLayout (set_ratio (root current) split_id ratio) (focused_pane_id current)) storage
  | IntentArrange folder kind active_session_id => arrange s folder kind active_session_id storage
  | ToggleSpotlight folder => (toggle_spotlight s folder, storage)
  | ClearSpotlight => (fst (clear_spotlight s), storage)
  | IntentCloseTab folder session_id active_session_id labels =>
      close_session s folder session_id active_session_id labels storage now_ms
  | UndoClose session_id => undo_close s session_id storage
  end.
End intents.

(** ** [spawn.rs] *)

Inductive DeckSpawn := NewTab (pane_id : string) | SpawnSplit (pane_id : string) (direction : LayoutDirection).

Definition DeckSpawn_pane_id (spawn : DeckSpawn) : string :=
  match spawn with NewTab pane_id | SpawnSplit pane_id _ => pane_id end.

Definition DeckSpawn_landed (spawn : DeckSpawn) (folder : DeckFolder) (session_id : string) (compact : bool) :
    DeckIntent :=
  match spawn with
  | NewTab pane_id => OpenSpawned folder pane_id session_id compact
  | SpawnSplit pane_id direction => SplitPane folder pane_id direction session_id false
  end.
