(* ===== verification/DeckGuarantees.v ===== *)
(** * DeckGuarantees: the deck keeps every arrangement sound

    The stored arrangements and the ones a close would restore, over every run
    of intents. *)
From S2P Require Export LayoutRecordsGuarantees DeckIntent.
#[local] Open Scope Z_scope.

(** ** Ids of this page load and of others *)

(** [id] was answered by this source already, or is not of its load. *)
Definition id_known (ids : DeckPaneIds) (id : string) : Prop :=
  (exists m, 0 <= m <= minted ids /\ id = deck_pane_id (epoch_ms ids) m)
  \/ forall m, id <> deck_pane_id (epoch_ms ids) m.

Definition arrangement_ok (ids : DeckPaneIds) (layout : PaneLayout) : Prop :=
  layout_ok layout /\ forall id, id ∈ node_ids (root layout) -> id_known ids id.

(** [ids'] is [ids] after at most [k] more answers. *)
Definition later (k : Z) (ids ids' : DeckPaneIds) : Prop :=
  epoch_ms ids' = epoch_ms ids /\ minted ids <= minted ids' <= minted ids + k.

Lemma later_refl k ids : 0 <= k -> later k ids ids.
Proof. intros Hk. split; [done|lia]. Qed.

Lemma later_trans j k ids1 ids2 ids3 : later j ids1 ids2 -> later k ids2 ids3 -> later (j + k) ids1 ids3.
Proof. intros [E1 H1] [E2 H2]. split; [congruence|lia]. Qed.

Lemma later_le j k ids1 ids2 : j <= k -> later j ids1 ids2 -> later k ids1 ids2.
Proof. intros Hle [E H]. split; [done|lia]. Qed.

Lemma id_known_later k ids ids' id : later k ids ids' -> id_known ids id -> id_known ids' id.
Proof.
  intros [E H] [(m & Hm & ->)|Hno]; rewrite <- E || idtac.
  - left. exists m. split; [lia|by rewrite E].
  - right. by rewrite E.
Qed.

Lemma arrangement_later k ids ids' layout : later k ids ids' -> arrangement_ok ids layout -> arrangement_ok ids' layout.
Proof. intros Hl [Hok Hk]. split; [done|]. intros id Hid. by eapply id_known_later, Hk. Qed.

(** A sound answer drawn from the deck's ids. *)
Lemma deck_sound cost layout ids answer :
  0 <= minted ids -> minted ids + Z.of_nat cost < 2 ^ 64 ->
  (forall id, id ∈ node_ids (root layout) -> id_known ids id) -> sound cost layout ids answer ->
  arrangement_ok (snd answer) (fst answer) /\ later (Z.of_nat cost) ids (snd answer).
Proof.
  intros H0 H1 Hknown (k & Hk & E & Hok & Hin). destruct (deck_mint_list k ids) as [El Ea]; [done|lia|].
  assert (Hl : later (Z.of_nat cost) ids (snd answer)) by (rewrite E, Ea; split; cbn; [done|lia]).
  split; [|done]. split; [done|]. intros id Hid. destruct (Hin id Hid) as [Hold|Hnew].
  - eapply id_known_later; [exact Hl|by apply Hknown].
  - rewrite El in Hnew. apply list_elem_of_fmap in Hnew as (j & -> & Hj). apply elem_of_seq in Hj.
    left. rewrite E, Ea. cbn [minted epoch_ms]. eexists. split; [|done]. lia.
Qed.

Lemma deck_fresh cost ids layout :
  0 <= minted ids -> minted ids + Z.of_nat cost < 2 ^ 64 ->
  (forall id, id ∈ node_ids (root layout) -> id_known ids id) -> fresh_ids cost (node_ids (root layout)) ids.
Proof. intros H0 H1 Hk. apply deck_ids_fresh; [done|done|exact Hk]. Qed.

(** ** The state *)

Record deck_ok (d : DeckState) : Prop := {
  dk_minted : 0 <= minted (pane_ids d);
  dk_records : forall key layout, records d !! key = Some layout -> arrangement_ok (pane_ids d) layout;
  dk_undo : forall session undo, close_undo d !! session = Some undo -> arrangement_ok (pane_ids d) (before undo);
}.

Definition live_ok (live : list string) : Prop := NoDup live /\ EmptyString ∉ live.

Lemma DeckState_new_ok epoch : deck_ok (DeckState_new epoch).
Proof. constructor; [done|..]; intros ? ? [=]. Qed.

Lemma records_ok_later k ids ids' (r : LayoutRecords) :
  later k ids ids' -> (forall key layout, r !! key = Some layout -> arrangement_ok ids layout) ->
  forall key layout, r !! key = Some layout -> arrangement_ok ids' layout.
Proof. intros Hl Hr key layout E. by eapply arrangement_later, Hr. Qed.

(** The ids drawn since, and one folder's arrangement replaced. *)
Lemma deck_ok_with k d r ids :
  deck_ok d -> later k (pane_ids d) ids ->
  (forall key layout, r !! key = Some layout -> arrangement_ok ids layout) -> deck_ok (DeckState.with_records d r ids).
Proof.
  intros [H0 _ Hu] Hl Hr. pose proof Hl as [_ Hm]. constructor; cbn [pane_ids records close_undo DeckState.with_records]; [lia|done|].
  intros session undo E. by eapply arrangement_later, Hu.
Qed.

Lemma commit_ok d key layout :
  deck_ok d -> arrangement_ok (pane_ids d) layout -> deck_ok (DeckState.with_records d (commit_layout (records d) key layout) (pane_ids d)).
Proof.
  intros Hd Hok. eapply (deck_ok_with 0); [done|by apply later_refl|].
  intros k l. unfold commit_layout. rewrite lookup_insert_Some. intros [[_ <-]|[_ E]]; [done|]. by eapply dk_records.
Qed.

Lemma default_arrangement sessions ids :
  live_ok sessions -> 0 <= minted ids -> minted ids + 1 < 2 ^ 64 ->
  arrangement_ok (snd (default_layout sessions ids)) (fst (default_layout sessions ids))
  /\ later 1 ids (snd (default_layout sessions ids)).
Proof.
  intros [Hnd Hn] H0 H1. rewrite default_layout_minted. cbn [fst snd].
  destruct (deck_mint_list 1 ids) as [_ Ea]; [done|done|]. rewrite Ea.
  assert (Hid : fst (mint_pane_id ids) = deck_pane_id (epoch_ms ids) (minted ids + 1)).
  { unfold mint_pane_id, DeckPaneIds_source. cbn [fst]. f_equal. apply Z.mod_small. lia. }
  rewrite !Hid. split; [split|split; cbn; [done|lia]].
  - apply (single_layout (mkPaneLeaf _ sessions _)); cbn [tabs]; [done|done|].
    destruct sessions; [by left|right]. cbn. set_solver.
  - intros id Hin. cbn in Hin. apply list_elem_of_singleton in Hin as ->. left.
    exists (minted ids + 1). cbn [minted epoch_ms]. split; [lia|done].
Qed.

Lemma reconcile_arrangement ids layout live :
  arrangement_ok ids layout -> live_ok live -> arrangement_ok ids (reconcile layout live).
Proof.
  intros [Hok Hk] [Hnd Hn]. destruct (reconcile_spec layout live) as (R1 & _ & R3 & _); [apply Hok|done|done|].
  split; [done|]. intros id Hid. by apply Hk, R3.
Qed.

(** What an intent works on: a sound arrangement that shows the live sessions. *)
Lemma resolve_for_edit_spec d folder :
  deck_ok d -> live_ok (live_session_ids folder) -> minted (pane_ids d) + 2 < 2 ^ 64 ->
  let '(layout, d') := resolve_for_edit d folder in
  deck_ok d' /\ arrangement_ok (pane_ids d') layout /\ later 2 (pane_ids d) (pane_ids d')
  /\ tabs_of (root layout) ≡ₚ live_session_ids folder /\ close_undo d' = close_undo d.
Proof.
  intros Hd Hlive Hroom. unfold resolve_for_edit. pose proof (dk_minted _ Hd) as H0.
  assert (Hseed : let '(r, ids) := seed_if_absent (records d) (folder_key folder) (live_session_ids folder) (pane_ids d) in
            (forall key layout, r !! key = Some layout -> arrangement_ok ids layout) /\ later 1 (pane_ids d) ids).
  { unfold seed_if_absent. destruct (_ || _).
    - split; [apply (dk_records _ Hd)|by apply later_refl].
    - destruct (default_arrangement (live_session_ids folder) (pane_ids d)) as [Ha Hl]; [done|done|lia|].
      destruct (default_layout _ (pane_ids d)) as [layout ids]. cbn [fst snd] in *. split; [|done].
      intros key l. unfold commit_layout. rewrite lookup_insert_Some. intros [[_ <-]|[_ E]]; [done|].
      eapply arrangement_later; [exact Hl|by eapply dk_records]. }
  destruct (seed_if_absent _ _ _ (pane_ids d)) as [r ids]. destruct Hseed as [Hr Hl].
  unfold resolve.
  assert (Hheld : let '(held, ids') := match r !! folder_key folder with Some layout => (layout, ids) | None => default_layout [] ids end in
            arrangement_ok ids' held /\ later 1 ids ids').
  { destruct (r !! folder_key folder) as [layout|] eqn:E; [split; [by eapply Hr|by apply later_refl]|].
    pose proof Hl as [_ Hm].
    destruct (default_arrangement [] ids) as [Ha Hl']; [split; [constructor|set_solver]|lia|lia|].
    destruct (default_layout [] ids). cbn [fst snd] in *. by split. }
  destruct (match r !! folder_key folder with Some layout => _ | None => _ end) as [held ids'].
  destruct Hheld as [Hok Hl']. pose proof (later_trans _ _ _ _ _ Hl Hl') as Hl2. split_and!; try done.
  - eapply deck_ok_with; [done|exact Hl2|]. exact (records_ok_later _ _ _ _ Hl' Hr).
  - by apply reconcile_arrangement.
  - cbn [DeckState.with_records]. destruct Hlive as [Hnd Hn].
    by destruct (reconcile_spec held (live_session_ids folder)) as (_ & R2 & _); [apply Hok| | |].
Qed.

(** ** Intents *)

Lemma deck_note_change s : deck (note_change s) = deck s.
Proof. done. Qed.

Lemma deck_set_spotlight s session : deck (fst (set_spotlight_session_id s session)) = deck s.
Proof. unfold set_spotlight_session_id. by destruct (decide _). Qed.

Lemma deck_clear_spotlight s : deck (fst (clear_spotlight s)) = deck s.
Proof. apply deck_set_spotlight. Qed.

Lemma deck_pane_count s count : deck (fst (set_visible_pane_count s count)) = deck s.
Proof. unfold set_visible_pane_count. by destruct (_ =? _). Qed.

Lemma deck_schedule s session labels now_ms : deck (fst (schedule_close s session labels now_ms)) = deck s.
Proof. unfold schedule_close. cbv zeta. by destruct (decide _). Qed.

Lemma deck_abort s t : deck (fst (abort_optimistic_spawn s t)) = deck s.
Proof. unfold abort_optimistic_spawn. by destruct (relevance _ _). Qed.

Lemma deck_undo_one s session : deck (fst (undo_one s session)) = deck s.
Proof. unfold undo_one. by destruct (_ !! session). Qed.

(** What the callers of an intent owe. *)
Definition intent_ok (s : Store) (intent : DeckIntent) : Prop :=
  match intent with
  | Observed folder _ _ _ | IntentCloseTab folder _ _ _ =>
      match folder with Some folder => live_ok (live_session_ids folder) | None => True end
  | IntentSelectTab folder _ _ | IntentFocusPane folder _ _ | OpenSpawned folder _ _ _ | SetRatio folder _ _
  | IntentArrange folder _ _ | ToggleSpotlight folder => live_ok (live_session_ids folder)
  | ReorderTabs folder pane_id ordered_ids =>
      live_ok (live_session_ids folder)
      /\ edit_ok (fst (resolve_for_edit (deck s) folder)) (EReorder pane_id ordered_ids)
  | IntentMoveTab folder tab_id _ => live_ok (live_session_ids folder) /\ tab_id <> EmptyString
  | SplitPane folder _ _ tab_id _ => live_ok (live_session_ids folder) /\ tab_id <> EmptyString
  | ClearSpotlight | UndoClose _ => True
  end.

(** How many ids an intent may draw: two to seed and resolve, and its edit's. *)
Definition intent_cost (intent : DeckIntent) : Z :=
  match intent with
  | SplitPane _ _ _ _ _ => 4
  | IntentArrange folder _ _ => 2 + Z.max 1 (2 * len (live_session_ids folder))
  | _ => 2
  end.

Section intents.
Context `{RecordsCodec}.

(** The deck stays sound and drew at most [k] ids. *)
Definition deck_kept (k : Z) (s : Store) (d : DeckState) : Prop :=
  deck_ok d /\ later k (pane_ids (deck s)) (pane_ids d).

Lemma deck_kept_same k s d : 0 <= k -> deck_ok (deck s) -> d = deck s -> deck_kept k s d.
Proof. intros Hk Hd ->. split; [done|by apply later_refl]. Qed.

Lemma deck_kept_trans j k s1 s2 d : deck_kept j s1 (deck s2) -> deck_kept k s2 d -> deck_kept (j + k) s1 d.
Proof. intros [_ L1] [Hd L2]. split; [done|by eapply later_trans]. Qed.

Lemma deck_kept_le j k s d : j <= k -> deck_kept j s d -> deck_kept k s d.
Proof. intros Hle [Hd Hl]. split; [done|by eapply later_le]. Qed.

Lemma navigate_kept k s s' path : deck_kept k s (deck s') -> deck_kept k s (deck (navigate s' path)).
Proof. intros [[H0 Hr Hu] Hl]. split; [by constructor|done]. Qed.

Lemma commit_kept s folder next storage :
  deck_ok (deck s) -> arrangement_ok (pane_ids (deck s)) next ->
  deck_kept 0 s (deck (fst (commit s folder next storage))).
Proof.
  intros Hd Hok. unfold commit, deck_commit. cbv zeta. cbn [fst]. rewrite deck_note_change.
  split; [by apply commit_ok|by apply later_refl].
Qed.

Lemma resolve_in_spec s folder :
  deck_ok (deck s) -> live_ok (live_session_ids folder) -> minted (pane_ids (deck s)) + 2 < 2 ^ 64 ->
  let '(layout, s') := resolve_in s folder in
  deck_kept 2 s (deck s') /\ arrangement_ok (pane_ids (deck s')) layout
  /\ layout = fst (resolve_for_edit (deck s) folder) /\ tabs_of (root layout) ≡ₚ live_session_ids folder
  /\ close_undo (deck s') = close_undo (deck s).
Proof.
  intros Hd Hlive Hroom. pose proof (resolve_for_edit_spec (deck s) folder Hd Hlive Hroom) as Hspec.
  unfold resolve_in. destruct (resolve_for_edit (deck s) folder) as [layout d].
  destruct Hspec as (R1 & R2 & R3 & R4 & R5). by split_and!.
Qed.

(** An edit that draws no id, committed. *)
Lemma edit_commit_kept s folder edit layout storage :
  deck_ok (deck s) -> arrangement_ok (pane_ids (deck s)) layout ->
  (layout_ok layout -> sound 0 layout (pane_ids (deck s)) (edit layout, pane_ids (deck s))) ->
  minted (pane_ids (deck s)) < 2 ^ 64 ->
  deck_kept 0 s (deck (fst (commit s folder (edit layout) storage))).
Proof.
  intros Hd [Hok Hk] Hedit Hroom. apply commit_kept; [done|].
  destruct (deck_sound 0 layout (pane_ids (deck s)) (edit layout, pane_ids (deck s))) as [Ha _]; [apply Hd|lia|done|by apply Hedit|].
  exact Ha.
Qed.

Lemma reshape_kept s folder edit storage :
  deck_ok (deck s) -> live_ok (live_session_ids folder) -> minted (pane_ids (deck s)) + 2 < 2 ^ 64 ->
  (forall ids : DeckPaneIds, layout_ok (fst (resolve_for_edit (deck s) folder)) ->
     sound 0 (fst (resolve_for_edit (deck s) folder)) ids (edit (fst (resolve_for_edit (deck s) folder)), ids)) ->
  deck_kept 2 s (deck (fst (reshape s folder edit storage))).
Proof.
  intros Hd Hlive Hroom Hedit. pose proof (resolve_in_spec s folder Hd Hlive Hroom) as Hspec. unfold reshape.
  destruct (resolve_in s folder) as [current s']. destruct Hspec as (Hk & Ha & -> & _ & _).
  eapply (deck_kept_trans 2 0); [exact Hk|]. destruct Hk as [Hd' [_ Hm]].
  apply edit_commit_kept; [done|done|apply Hedit|lia].
Qed.

Lemma split_pane_kept s folder pane direction tab insert_first storage :
  deck_ok (deck s) -> live_ok (live_session_ids folder) -> tab <> EmptyString ->
  minted (pane_ids (deck s)) + 4 < 2 ^ 64 ->
  deck_kept 4 s (deck (fst (split_pane s folder pane direction tab insert_first storage))).
Proof.
  intros Hd Hlive Hname Hroom. pose proof (resolve_in_spec s folder Hd Hlive ltac:(lia)) as Hspec. unfold split_pane.
  destruct (resolve_in s folder) as [current s']. destruct Hspec as (Hk & [Hok Hknown] & _ & _ & _).
  pose proof Hk as [Hd' [_ Hm]]. pose proof (dk_minted _ Hd') as H0.
  pose proof (split_sound current (pane_ids (deck s')) pane direction tab insert_first Hok Hname
                (deck_fresh 2 _ _ H0 ltac:(lia) Hknown)) as Hsound.
  destruct (deck_sound 2 _ _ _ H0 ltac:(lia) Hknown Hsound) as [Ha Hl].
  destruct (split_leaf current _ _ _ _ _) as [next ids]. cbn [fst snd] in *.
  eapply (deck_kept_trans 2 2); [exact Hk|].
  set (s2 := with_deck s' _).
  assert (Hs2 : deck_kept 2 s' (deck s2)).
  { split; [|done]. eapply deck_ok_with; [done|exact Hl|]. eapply records_ok_later; [exact Hl|apply Hd']. }
  eapply (deck_kept_trans 2 0); [exact Hs2|]. apply commit_kept; [apply Hs2|done].
Qed.

Lemma arrange_kept s folder kind active storage :
  deck_ok (deck s) -> live_ok (live_session_ids folder) ->
  minted (pane_ids (deck s)) + intent_cost (IntentArrange folder kind active) < 2 ^ 64 ->
  deck_kept (intent_cost (IntentArrange folder kind active)) s (deck (fst (arrange s folder kind active storage))).
Proof.
  intros Hd Hlive Hroom. cbn [intent_cost] in *. set (live := live_session_ids folder) in *.
  set (cost := Nat.max 1 (2 * length live)). assert (Hcost : Z.of_nat cost = Z.max 1 (2 * len live)) by (unfold cost, len; lia).
  unfold arrange. set (s1 := fst (clear_spotlight s)). assert (Hs1 : deck s1 = deck s) by apply deck_clear_spotlight.
  pose proof (resolve_in_spec s1 folder) as Hspec. rewrite Hs1 in Hspec. specialize (Hspec Hd Hlive ltac:(lia)).
  destruct (resolve_in s1 folder) as [current s']. destruct Hspec as (Hk & [Hok Hknown] & _ & _ & _).
  pose proof Hk as [Hd' [_ Hm]]. rewrite Hs1 in Hm. pose proof (dk_minted _ Hd') as H0. destruct Hlive as [Hnd Hn].
  pose proof (arrange_sound kind current (pane_ids (deck s')) live Hok Hnd
                (proj1 (deck_fresh cost _ current H0 ltac:(lia) Hknown))) as Hsound.
  destruct (deck_sound cost _ _ _ H0 ltac:(lia) Hknown Hsound) as [Ha Hl].
  fold live. destruct (arrange_layout kind current live _) as [next ids]. cbn [fst snd] in *.
  rewrite <- Hcost. eapply (deck_kept_trans 2 (Z.of_nat cost) _ s').
  { destruct Hk as [? Hlk]. split; [done|]. by rewrite <- Hs1. }
  set (s2 := with_deck s' _).
  assert (Hs2 : deck_kept (Z.of_nat cost) s' (deck s2)).
  { split; [|done]. eapply deck_ok_with; [done|exact Hl|]. eapply records_ok_later; [exact Hl|apply Hd']. }
  replace (Z.of_nat cost) with (Z.of_nat cost + 0) by lia. eapply deck_kept_trans; [exact Hs2|].
  apply commit_kept; [apply Hs2|]. cbn [s2 deck with_deck pane_ids DeckState.with_records].
  destruct active as [active|]; [|done]. destruct kind; [|done].
  destruct (find_leaf_of_tab (root next) active); [|done].
  destruct (deck_sound 0 next ids (select_tab next active, ids)) as [Hsel _];
    [destruct Hl; lia|destruct Hl; lia|apply Ha|apply select_sound, Ha|exact Hsel].
Qed.
(** Undo arrangements dropped, or one that is sound added. *)
Lemma undo_kept s undo :
  deck_ok (deck s) -> (forall session u, undo !! session = Some u -> arrangement_ok (pane_ids (deck s)) (before u)) ->
  deck_kept 0 s (deck (with_deck s (with_close_undo (deck s) undo))).
Proof. intros [H0 Hr _] Hu. split; [by constructor|by apply later_refl]. Qed.

Lemma observe_kept s folder followed compact storage :
  deck_ok (deck s) -> intent_ok s (Observed folder followed compact 0) -> minted (pane_ids (deck s)) + 2 < 2 ^ 64 ->
  deck_kept 2 s (deck (fst (observe s folder followed compact storage))).
Proof.
  intros Hd Hlive Hroom. unfold observe. cbv zeta.
  set (s1 := with_deck s (with_observed _ _)).
  set (s2 := match observed_folder (deck s) with Some _ => _ | None => _ end).
  set (s3 := if stale_spotlight s2 then _ else _).
  assert (H1 : deck_kept 0 s (deck s1)) by (destruct Hd; split; [by constructor|by apply later_refl]).
  assert (H3 : deck s3 = deck s1).
  { unfold s3, s2. repeat case_match; rewrite ?deck_clear_spotlight; done. }
  set (s4 := retain_close_undo s3).
  assert (H4 : deck_kept 0 s (deck s4)).
  { apply (deck_kept_trans 0 0 _ s1); [done|]. pose proof (undo_kept s3) as Hu. unfold s4, retain_close_undo.
    unfold deck_kept in *. rewrite <- H3. rewrite <- H3 in H1. apply Hu; [apply H1|].
    intros session u [Hu' _]%map_lookup_filter_Some. by eapply dk_undo; [apply H1|]. }
  destruct folder as [folder|]; [|by eapply deck_kept_le; [|exact H4]].
  pose proof H4 as [Hd4 [_ Hm4]]. pose proof (resolve_in_spec s4 folder Hd4 Hlive ltac:(lia)) as Hspec.
  destruct (resolve_in s4 folder) as [current s5]. destruct Hspec as (Hk & Ha & _).
  pose proof (deck_kept_trans 0 2 _ _ _ H4 Hk) as Hk5.
  set (s6 := if bool_decide _ then s5 else note_change s5). assert (H6 : deck s6 = deck s5) by (unfold s6; by destruct (bool_decide _)).
  destruct followed as [followed|]; [|by cbn [fst]; rewrite H6].
  unfold route_selection_commit. destruct (projects_compact_from_empty_focus _ _); [by cbn [fst]; rewrite H6|].
  destruct (find_leaf_of_tab (root current) followed); [|by cbn [fst]; rewrite H6].
  destruct (_ && _); [by cbn [fst]; rewrite H6|]. rewrite <- H6 in Hk5, Ha.
  apply (deck_kept_trans 2 0 _ s6); [done|]. destruct Hk5 as [Hd6 [_ Hm6]].
  apply (edit_commit_kept s6 folder (fun l => select_tab l followed)); [done|done|by apply select_sound|lia].
Qed.

Lemma select_session_kept s folder session compact storage :
  deck_ok (deck s) -> live_ok (live_session_ids folder) -> minted (pane_ids (deck s)) + 2 < 2 ^ 64 ->
  deck_kept 2 s (deck (fst (select_session s folder session compact storage))).
Proof.
  intros Hd Hlive Hroom. pose proof (resolve_in_spec s folder Hd Hlive Hroom) as Hspec. unfold select_session.
  destruct (resolve_in s folder) as [current s1]. destruct Hspec as (Hk & Ha & _).
  destruct (decide _); [cbn [fst]; rewrite deck_note_change; by apply navigate_kept|]. cbv zeta.
  pose proof (edit_commit_kept s1 folder (fun l => select_tab l session) current storage) as Hc. cbv beta in Hc.
  destruct (commit s1 folder _ storage) as [s2 storage2]. cbn [fst] in *.
  assert (H2 : deck_kept 2 s (deck s2)).
  { apply (deck_kept_trans 2 0 _ s1); [done|]. destruct Hk as [Hd1 [_ Hm]].
    apply Hc; [done|done|by apply select_sound|lia]. }
  destruct (match _ with Some id => _ | None => false end);
    rewrite ?deck_set_spotlight; by apply navigate_kept.
Qed.

Lemma focus_kept s folder rendered compact storage :
  deck_ok (deck s) -> live_ok (live_session_ids folder) -> minted (pane_ids (deck s)) + 2 < 2 ^ 64 ->
  deck_kept 2 s (deck (fst (focus_rendered_pane s folder rendered compact storage))).
Proof.
  intros Hd Hlive Hroom. pose proof (resolve_in_spec s folder Hd Hlive Hroom) as Hspec. unfold focus_rendered_pane.
  destruct (resolve_in s folder) as [current s1]. destruct Hspec as (Hk & Ha & _).
  destruct (_ || _); [done|]. destruct (find_leaf (root current) rendered) as [leaf|]; [|done].
  pose proof (edit_commit_kept s1 folder (fun l => focus_pane l rendered) current storage) as Hc. cbv beta in Hc.
  destruct (commit s1 folder _ storage) as [s2 storage2]. cbn [fst] in *.
  assert (H2 : deck_kept 2 s (deck s2)).
  { apply (deck_kept_trans 2 0 _ s1); [done|]. destruct Hk as [Hd1 [_ Hm]].
    apply Hc; [done|done|by apply focus_sound|lia]. }
  destruct (decide _); [done|by apply navigate_kept].
Qed.

Lemma open_spawned_kept s folder pane session compact storage :
  deck_ok (deck s) -> live_ok (live_session_ids folder) -> minted (pane_ids (deck s)) + 2 < 2 ^ 64 ->
  deck_kept 2 s (deck (fst (open_spawned s folder pane session compact storage))).
Proof.
  intros Hd [Hnd Hn] Hroom. unfold open_spawned. set (without := mkDeckFolder _ _).
  assert (Hlive : live_ok (live_session_ids without)).
  { split; [by apply NoDup_filter|]. cbn. rewrite list_elem_of_filter. tauto. }
  pose proof (resolve_in_spec s without Hd Hlive Hroom) as Hspec.
  destruct (resolve_in s without) as [current s1]. destruct Hspec as (Hk & Ha & _).
  destruct (_ && _).
  - pose proof (edit_commit_kept s1 without (fun l => focus_pane l pane) current storage) as Hc. cbv beta in Hc.
    destruct (commit s1 without _ storage) as [s2 storage2]. cbn [fst] in *. rewrite deck_note_change. apply navigate_kept.
    apply (deck_kept_trans 2 0 _ s1); [done|]. destruct Hk as [Hd1 [_ Hm]].
    apply Hc; [done|done|by apply focus_sound|lia].
  - cbn [fst]. rewrite deck_note_change. by apply navigate_kept.
Qed.

Lemma toggle_kept s folder :
  deck_ok (deck s) -> live_ok (live_session_ids folder) -> minted (pane_ids (deck s)) + 2 < 2 ^ 64 ->
  deck_kept 2 s (deck (toggle_spotlight s folder)).
Proof.
  intros Hd Hlive Hroom. unfold toggle_spotlight.
  destruct (spotlight s); [rewrite deck_clear_spotlight; by apply deck_kept_same|].
  pose proof (resolve_in_spec s folder Hd Hlive Hroom) as Hspec.
  destruct (resolve_in s folder) as [current s1]. destruct Hspec as (Hk & _).
  destruct (find_leaf _ _); [|done]. destruct (decide _); [done|]. by rewrite deck_set_spotlight.
Qed.

Lemma close_sound cost layout ids tab : layout_ok layout -> sound (Ids := DeckPaneIds) cost layout ids (close_tab layout tab, ids).
Proof. intros Hok. destruct (close_spec layout tab Hok) as (C1 & _ & C3 & _). by apply sound_same. Qed.

Lemma close_session_kept s folder session active labels storage now_ms :
  deck_ok (deck s) -> intent_ok s (IntentCloseTab folder session active labels) -> minted (pane_ids (deck s)) + 2 < 2 ^ 64 ->
  deck_kept 2 s (deck (fst (close_session s folder session active labels storage now_ms))).
Proof.
  intros Hd Hlive Hroom. unfold close_session. destruct (is_pending (spawns s) session).
  - set (s1 := match ticket_for _ _ with Some _ => _ | None => _ end).
    assert (H1 : deck s1 = deck s) by (unfold s1; destruct (ticket_for _ _); [apply deck_abort|done]).
    destruct folder as [folder|]; [|by apply deck_kept_same].
    pose proof (reshape_kept s1 folder (fun l => close_tab l session) storage) as Hre. unfold deck_kept in *.
    rewrite H1 in Hre. apply Hre; [done|done|done|]. intros ids. apply close_sound.
  - cbv zeta. destruct folder as [folder|].
    2: { cbn [fmap option_fmap option_map]. cbn [fst]. destruct (bool_decide _); [apply navigate_kept|];
         apply deck_kept_same; try done; apply deck_schedule. }
    pose proof (resolve_in_spec s folder Hd Hlive Hroom) as Hspec.
    destruct (resolve_in s folder) as [current s1]. destruct Hspec as (Hk & Ha & _ & _ & Hcu). cbn [fmap option_fmap option_map].
    set (destination := close_destination _ _ _). set (s2 := fst (schedule_close s1 _ _ _)).
    assert (H2 : deck s2 = deck s1) by apply deck_schedule.
    set (s3 := with_deck s2 _).
    assert (H3 : deck_kept 2 s (deck s3)).
    { apply (deck_kept_trans 2 0 _ s1); [done|]. unfold deck_kept, s3. rewrite H2. destruct Hk as [Hd1 _].
      apply (undo_kept s1); [done|]. intros k u. rewrite lookup_insert_Some. intros [[_ <-]|[_ E]]; [done|by eapply dk_undo]. }
    pose proof (edit_commit_kept s3 folder (fun l => close_tab l session) current storage) as Hc. cbv beta in Hc.
    destruct (commit s3 folder _ storage) as [s4 storage4]. cbn [fst] in *.
    assert (H4 : deck_kept 2 s (deck s4)).
    { apply (deck_kept_trans 2 0 _ s3); [done|]. pose proof H3 as [Hd3 [_ Hm]].
      assert (Hids : pane_ids (deck s3) = pane_ids (deck s1)) by (unfold s3; by rewrite H2).
      apply Hc; [done|by rewrite Hids|apply close_sound|lia]. }
    destruct (bool_decide _); [by apply navigate_kept|done].
Qed.

Lemma undo_close_kept s session storage :
  deck_ok (deck s) -> deck_kept 2 s (deck (fst (undo_close s session storage))).
Proof.
  intros Hd. unfold undo_close. pose proof (deck_undo_one s session) as Hu.
  destruct (undo_one s session) as [s1 labels]. cbn [fst] in Hu.
  destruct labels as [labels|]; [|by apply deck_kept_same].
  rewrite Hu. destruct (close_undo (deck s) !! session) as [undo|] eqn:E; [|cbn [fst]; by apply deck_kept_same].
  set (s2 := with_deck s1 _). cbv zeta.
  assert (H2 : deck_kept 0 s (deck s2)).
  { unfold deck_kept, s2. rewrite <- Hu. rewrite <- Hu in Hd. apply (undo_kept s1); [done|].
    intros k u [_ Hin]%lookup_delete_Some. by eapply dk_undo. }
  assert (H3 : deck_ok (DeckState.with_records (deck s2) (commit_layout (records (deck s2)) (undo_folder_key undo) (before undo)) (pane_ids (deck s2)))).
  { apply commit_ok; [apply H2|]. cbn. eapply dk_undo; [exact Hd|exact E]. }
  unfold deck_commit. cbv zeta. cbn [fst].
  assert (Hfin : deck_kept 2 s (deck (note_change (with_deck s2 (DeckState.with_records (deck s2) (commit_layout (records (deck s2)) (undo_folder_key undo) (before undo)) (pane_ids (deck s2))))))).
  { split; [done|]. destruct H2 as [_ Hl]. eapply later_le; [|exact Hl]. lia. }
  destruct (was_viewed undo); [by apply navigate_kept|done].
Qed.

(** Every intent. *)
Lemma intent_kept s intent storage now_ms :
  deck_ok (deck s) -> intent_ok s intent -> minted (pane_ids (deck s)) + intent_cost intent < 2 ^ 64 ->
  deck_kept (intent_cost intent) s (deck (fst (apply_deck_intent s intent storage now_ms))).
Proof.
  intros Hd Hok Hroom. destruct intent; cbn [apply_deck_intent intent_cost intent_ok] in *.
  - pose proof (observe_kept s folder followed_session_id compact storage Hd Hok Hroom) as Hk.
    destruct (observe s folder _ compact storage) as [s1 storage1]. cbn [fst] in *. by rewrite deck_pane_count.
  - by apply select_session_kept.
  - by apply focus_kept.
  - by apply open_spawned_kept.
  - destruct Hok as [Hlive Hperm]. apply reshape_kept; [done|done|done|]. intros ids Hl. by apply reorder_sound.
  - destruct Hok as [Hlive Hname]. pose proof (reshape_kept s folder (fun l => move_tab l tab_id to_pane_id None) storage) as Hk.
    destruct (reshape s folder _ storage) as [s1 storage1]. cbn [fst] in *. apply navigate_kept, Hk; [done|done|done|].
    intros ids Hl. by apply move_sound.
  - destruct Hok as [Hlive Hname]. pose proof (split_pane_kept s folder pane_id direction tab_id insert_first storage Hd Hlive Hname Hroom) as Hk.
    destruct (split_pane s folder _ _ _ _ storage) as [s1 storage1]. cbn [fst] in *. by apply navigate_kept.
  - apply (reshape_kept s folder (fun l => mkPaneLayout (set_ratio (root l) split_id ratio) (focused_pane_id l))); [done|done|done|].
    intros ids Hl. by apply ratio_sound.
  - by apply arrange_kept.
  - by apply toggle_kept.
  - apply deck_kept_same; [done|done|]. apply deck_clear_spotlight.
  - by apply close_session_kept.
  - by apply undo_close_kept.
Qed.

(** ** Runs *)

Fixpoint run_intents (intents : list (DeckIntent * Z)) (s : Store) (storage : KeyValueStore) : Host :=
  match intents with
  | [] => (s, storage)
  | (intent, now_ms) :: rest =>
      let '(s, storage) := apply_deck_intent s intent storage now_ms in run_intents rest s storage
  end.

Fixpoint intents_ok (intents : list (DeckIntent * Z)) (s : Store) (storage : KeyValueStore) : Prop :=
  match intents with
  | [] => True
  | (intent, now_ms) :: rest =>
      intent_ok s intent
      /\ let '(s, storage) := apply_deck_intent s intent storage now_ms in intents_ok rest s storage
  end.

Fixpoint intents_cost (intents : list (DeckIntent * Z)) : Z :=
  match intents with [] => 0 | (intent, _) :: rest => intent_cost intent + intents_cost rest end.

Lemma intents_cost_nonneg intents : 0 <= intents_cost intents.
Proof.
  induction intents as [|[intent now] rest IH]; cbn [intents_cost]; [done|].
  assert (0 <= intent_cost intent) by (destruct intent; cbn; lia). lia.
Qed.

Lemma intents_kept intents s storage :
  deck_ok (deck s) -> intents_ok intents s storage -> minted (pane_ids (deck s)) + intents_cost intents < 2 ^ 64 ->
  deck_ok (deck (fst (run_intents intents s storage))).
Proof.
  revert s storage. induction intents as [|[intent now] rest IH]; intros s storage Hd Hok Hroom; [done|].
  cbn [intents_ok run_intents intents_cost] in *. destruct Hok as [Hi Hrest]. pose proof (intents_cost_nonneg rest).
  pose proof (intent_kept s intent storage now Hd Hi ltac:(lia)) as [Hd' [_ Hm]].
  destruct (apply_deck_intent s intent storage now) as [s' storage']. cbn [fst] in *. apply IH; [done|done|lia].
Qed.
(** But for a reorder, what is owed does not depend on the store. *)
Lemma intents_ok_static intents s storage :
  Forall (fun step => forall at_store, intent_ok at_store (fst step)) intents -> intents_ok intents s storage.
Proof.
  intros Hall. revert s storage. induction Hall as [|[intent now] rest He _ IH]; intros s storage; [done|].
  cbn [intents_ok]. split; [apply He|]. destruct (apply_deck_intent s intent storage now). apply IH.
Qed.
End intents.
