(* ===== verification/DeckClaims.v ===== *)
(** * DeckClaims: what a deck promises *)
From S2P Require Export DeckGuarantees.
#[local] Open Scope Z_scope.

(** ** Closes that wait *)

Definition same_closes (s s' : Store) : Prop :=
  pending_closes s' = pending_closes s /\ close_undo (deck s') = close_undo (deck s).

#[local] Instance same_closes_preorder : PreOrder same_closes.
Proof. split; [done|]. intros s1 s2 s3 [? ?] [? ?]. split; congruence. Qed.

Lemma resolve_same s folder : same_closes s (snd (resolve_in s folder)).
Proof.
  unfold resolve_in, resolve_for_edit. destruct (seed_if_absent _ _ _ _). by destruct (resolve _ _ _ _).
Qed.

Lemma navigate_same s path : same_closes s (navigate s path).
Proof. done. Qed.

Lemma note_same s : same_closes s (note_change s).
Proof. done. Qed.

Lemma set_spotlight_same s session : same_closes s (fst (set_spotlight_session_id s session)).
Proof. unfold set_spotlight_session_id. by destruct (decide _). Qed.

Lemma clear_spotlight_same s : same_closes s (fst (clear_spotlight s)).
Proof. apply set_spotlight_same. Qed.

Lemma pane_count_same s count : same_closes s (fst (set_visible_pane_count s count)).
Proof. unfold set_visible_pane_count. by destruct (_ =? _). Qed.

Section closes.
Context `{RecordsCodec}.

Lemma commit_same s folder next storage : same_closes s (fst (commit s folder next storage)).
Proof. done. Qed.

Lemma reshape_same s folder edit storage : same_closes s (fst (reshape s folder edit storage)).
Proof.
  unfold reshape. pose proof (resolve_same s folder) as Hr. destruct (resolve_in s folder) as [current s1]. exact Hr.
Qed.

(** The close of [session] still waits, and so does its undo. *)
Definition waits (session : string) (undo : CloseUndo) (s : Store) : Prop :=
  is_Some (PendingCloses.entries (pending_closes s) !! session) /\ close_undo (deck s) !! session = Some undo.

Lemma waits_same session undo s s' : same_closes s s' -> waits session undo s -> waits session undo s'.
Proof. intros [E1 E2] [W1 W2]. split; congruence. Qed.

Lemma observe_waits session undo s folder followed compact storage :
  waits session undo s -> waits session undo (fst (observe s folder followed compact storage)).
Proof.
  intros Hw. unfold observe. cbv zeta. set (s1 := with_deck s _).
  set (s2 := match observed_folder (deck s) with Some _ => _ | None => _ end).
  set (s3 := if stale_spotlight s2 then _ else _).
  assert (H3 : waits session undo s3).
  { apply (waits_same _ _ s2); [unfold s3; destruct (stale_spotlight s2); [apply clear_spotlight_same|done]|].
    apply (waits_same _ _ s1); [|exact Hw]. unfold s2. destruct (observed_folder (deck s)); [|done].
    destruct (decide _); [done|apply clear_spotlight_same]. }
  set (s4 := retain_close_undo s3).
  assert (H4 : waits session undo s4).
  { destruct H3 as [[entry E] W]. split; [by exists entry|]. apply map_lookup_filter_Some. split; [done|].
    cbn [fst]. unfold contains. by rewrite E. }
  destruct folder as [folder|]; [|exact H4].
  pose proof (resolve_same s4 folder) as Hr. destruct (resolve_in s4 folder) as [current s5]. cbn [snd] in Hr.
  set (s6 := if bool_decide _ then s5 else note_change s5).
  assert (H6 : waits session undo s6).
  { apply (waits_same _ _ s5); [unfold s6; by destruct (bool_decide _)|by eapply waits_same]. }
  destruct followed; [|exact H6]. destruct (route_selection_commit _ _ _); [|exact H6].
  by eapply waits_same; [apply commit_same|].
Qed.

(** The intents that neither close nor undo [session]. *)
Definition leaves_close (session : string) (intent : DeckIntent) : Prop :=
  match intent with IntentCloseTab _ other _ _ | UndoClose other => other <> session | _ => True end.

Lemma schedule_waits session undo s other labels now_ms :
  other <> session -> waits session undo s -> waits session undo (fst (schedule_close s other labels now_ms)).
Proof.
  intros Hne [W1 W2]. unfold schedule_close. cbv zeta. destruct (decide _); [by split|].
  split; [|done]. cbn [fst with_closes note_change pending_closes with_close PendingCloses.entries].
  by rewrite lookup_insert_ne.
Qed.

Lemma close_waits session undo s folder other active labels storage now_ms :
  other <> session -> waits session undo s ->
  waits session undo (fst (close_session s folder other active labels storage now_ms)).
Proof.
  intros Hne Hw. unfold close_session. destruct (is_pending (spawns s) other).
  - set (s1 := match ticket_for _ _ with Some _ => _ | None => _ end).
    assert (H1 : waits session undo s1).
    { apply (waits_same _ _ s); [|done]. unfold s1. destruct (ticket_for _ _); [|done].
      unfold abort_optimistic_spawn. by destruct (relevance _ _). }
    destruct folder as [folder|]; [|done]. by apply (waits_same _ _ s1); [apply (reshape_same s1 folder)|].
  - cbv zeta. destruct folder as [folder|].
    + pose proof (waits_same _ _ _ _ (resolve_same s folder) Hw) as H1.
      destruct (resolve_in s folder) as [current s1]. cbn [snd] in H1. cbn [fmap option_fmap option_map].
      destruct (schedule_waits session undo s1 other labels now_ms Hne H1) as [W1 W2].
      set (s2 := fst (schedule_close _ _ _ _)) in *. unfold commit, deck_commit. cbv zeta.
      destruct (bool_decide _); (split; [exact W1|]);
        cbn [fst deck navigate note_change with_deck DeckState.with_records with_close_undo close_undo request_navigation];
        by rewrite lookup_insert_ne.
    + cbn [fmap option_fmap option_map]. pose proof (schedule_waits session undo s other labels now_ms Hne Hw) as H2.
      by destruct (bool_decide _).
Qed.

Lemma undo_waits session undo s other storage :
  other <> session -> waits session undo s -> waits session undo (fst (undo_close s other storage)).
Proof.
  intros Hne Hw. unfold undo_close.
  assert (H1 : waits session undo (fst (undo_one s other))).
  { unfold undo_one. destruct (_ !! other); [|done]. destruct Hw as [W1 W2]. split; [|done].
    cbn [fst with_closes note_change pending_closes without_close PendingCloses.entries]. by rewrite lookup_delete_ne. }
  destruct (undo_one s other) as [s1 labels]. cbn [fst] in H1. destruct labels; [|done].
  destruct (close_undo (deck s1) !! other) as [held|]; [|done]. cbv zeta.
  unfold deck_commit. cbv zeta. set (s2 := note_change _).
  assert (H2 : waits session undo s2).
  { destruct H1 as [W1 W2]. split; [done|]. unfold s2.
    cbn [deck note_change with_deck DeckState.with_records with_close_undo close_undo]. by rewrite lookup_delete_ne. }
  by destruct (was_viewed held).
Qed.

Lemma intent_waits session undo s intent storage now_ms :
  leaves_close session intent -> waits session undo s ->
  waits session undo (fst (apply_deck_intent s intent storage now_ms)).
Proof.
  intros Hl Hw. destruct intent; cbn [apply_deck_intent leaves_close] in *.
  - pose proof (observe_waits session undo s folder followed_session_id compact storage Hw) as Ho.
    destruct (observe _ _ _ _ _). eapply waits_same; [apply pane_count_same|exact Ho].
  - apply (waits_same _ _ s); [|done]. unfold select_session. pose proof (resolve_same s folder) as Hr.
    destruct (resolve_in s folder) as [current s1]. destruct (decide _); [exact Hr|]. cbv zeta.
    unfold commit, deck_commit. cbv zeta. cbn [fst].
    destruct (match _ with Some id => _ | None => false end); [|exact Hr].
    etransitivity; [exact Hr|]. by etransitivity; [|apply set_spotlight_same].
  - apply (waits_same _ _ s); [|done]. unfold focus_rendered_pane. pose proof (resolve_same s folder) as Hr.
    destruct (resolve_in s folder) as [current s1]. destruct (_ || _); [exact Hr|].
    destruct (find_leaf _ _); [|exact Hr]. unfold commit, deck_commit. cbv zeta. by destruct (decide _).
  - apply (waits_same _ _ s); [|done]. unfold open_spawned. set (without := mkDeckFolder _ _).
    pose proof (resolve_same s without) as Hr. destruct (resolve_in s without) as [current s1].
    by destruct (_ && _).
  - by apply (waits_same _ _ s); [apply reshape_same|].
  - pose proof (reshape_same s folder (fun current => move_tab current tab_id to_pane_id None) storage) as Hr.
    destruct (reshape s folder _ storage). by apply (waits_same _ _ s).
  - apply (waits_same _ _ s); [|done]. unfold split_pane. pose proof (resolve_same s folder) as Hr.
    destruct (resolve_in s folder) as [current s1]. by destruct (split_leaf _ _ _ _ _ _).
  - by apply (waits_same _ _ s); [apply reshape_same|].
  - apply (waits_same _ _ s); [|done]. unfold arrange. pose proof (clear_spotlight_same s) as Hc.
    pose proof (resolve_same (fst (clear_spotlight s)) folder) as Hr.
    destruct (resolve_in _ folder) as [current s1]. destruct (arrange_layout _ _ _ _).
    etransitivity; [exact Hc|exact Hr].
  - apply (waits_same _ _ s); [|done]. unfold toggle_spotlight. destruct (spotlight s); [apply clear_spotlight_same|].
    pose proof (resolve_same s folder) as Hr. destruct (resolve_in s folder) as [current s1].
    destruct (find_leaf _ _); [|exact Hr]. destruct (decide _); [exact Hr|].
    etransitivity; [exact Hr|apply set_spotlight_same].
  - by apply (waits_same _ _ s); [apply clear_spotlight_same|].
  - by apply close_waits.
  - by apply undo_waits.
Qed.

Lemma intents_wait session undo intents s storage :
  Forall (fun step => leaves_close session (fst step)) intents -> waits session undo s ->
  waits session undo (fst (run_intents intents s storage)).
Proof.
  intros Hall. revert s storage. induction Hall as [|[intent now] rest Hl _ IH]; intros s storage Hw; [done|].
  cbn [run_intents]. pose proof (intent_waits session undo s intent storage now Hl Hw) as Hw'.
  destruct (apply_deck_intent s intent storage now) as [s' storage']. by apply IH.
Qed.

(** A close of a tab that is not spawning leaves its undo waiting. *)
Lemma close_leaves_undo s folder session active labels storage now_ms :
  is_pending (spawns s) session = false ->
  waits session (mkCloseUndo (folder_key folder) (fst (resolve_for_edit (deck s) folder)) (bool_decide (active = Some session)))
    (fst (close_session s (Some folder) session active labels storage now_ms)).
Proof.
  intros Hspawn. unfold close_session. rewrite Hspawn. cbv zeta.
  assert (Hr : fst (resolve_in s folder) = fst (resolve_for_edit (deck s) folder)).
  { unfold resolve_in. by destruct (resolve_for_edit _ _). }
  destruct (resolve_in s folder) as [current s1]. cbn [fst] in Hr. subst current. cbn [fmap option_fmap option_map].
  unfold commit, deck_commit. cbv zeta. set (s2 := fst (schedule_close _ _ _ _)).
  assert (Hs : is_Some (PendingCloses.entries (pending_closes s2) !! session)).
  { unfold s2, schedule_close. cbv zeta. destruct (decide _) as [E|_]; cbn [fst]; [by rewrite E|].
    cbn [with_closes note_change pending_closes with_close PendingCloses.entries]. rewrite lookup_insert_eq. by eexists. }
  destruct (bool_decide (active = Some session)); (split; [exact Hs|]);
    cbn [fst deck navigate note_change with_deck DeckState.with_records with_close_undo close_undo request_navigation];
    by rewrite lookup_insert_eq.
Qed.
End closes.

(** ** Claims *)

(** A folder's painted arrangement shows each of its live sessions once. *)
Lemma resolve_layout_spec d folder :
  deck_ok d -> live_ok (live_session_ids folder) ->
  layout_ok (resolve_layout d folder) /\ tabs_of (root (resolve_layout d folder)) ≡ₚ live_session_ids folder.
Proof.
  intros Hd [Hnd Hn]. unfold resolve_layout, resolve.
  assert (Hheld : tree_shape (root (fst (match records d !! folder_key folder with
            Some layout => (layout, mkUnseededIds) | None => default_layout [] mkUnseededIds end)))).
  { destruct (records d !! folder_key folder) as [layout|] eqn:E; [apply (dk_records _ Hd _ _ E)|].
    rewrite default_layout_minted. cbn [fst].
    apply (single_layout (mkPaneLeaf _ [] EmptyString)); cbn [tabs]; [constructor|set_solver|by left]. }
  destruct (match records d !! folder_key folder with Some layout => _ | None => _ end) as [held ids].
  cbn [fst] in *. destruct (reconcile_spec held (live_session_ids folder) Hheld Hnd Hn) as (R1 & R2 & _). done.
Qed.

(** Whatever a deck is asked, in whatever order - observations, selections,
    drags, splits, presets, the spotlight, closes and their undo - every stored
    arrangement and every one a close would restore stays sound, over pane ids
    this page load never answers twice, and a folder's painted arrangement
    shows each of its live sessions in exactly one pane.  The hosts owe
    distinct live sessions and a strip reordered by its own tabs. *)
Theorem deck_intents_sound `{RecordsCodec} intents s storage :
  deck_ok (deck s) -> intents_ok intents s storage -> minted (pane_ids (deck s)) + intents_cost intents < 2 ^ 64 ->
  let d := deck (fst (run_intents intents s storage)) in
  (forall folder_key layout, records d !! folder_key = Some layout ->
     layout_ok layout /\ forall id, id ∈ node_ids (root layout) -> id_known (pane_ids d) id)
  /\ (forall session undo, close_undo d !! session = Some undo -> layout_ok (before undo))
  /\ (forall folder, live_ok (live_session_ids folder) ->
        layout_ok (resolve_layout d folder) /\ tabs_of (root (resolve_layout d folder)) ≡ₚ live_session_ids folder).
Proof.
  intros Hd Hok Hroom. cbv zeta. pose proof (intents_kept intents s storage Hd Hok Hroom) as [H0 Hr Hu].
  split_and!; [exact Hr|intros session undo E; by apply (Hu session)|].
  intros folder Hlive. apply resolve_layout_spec; [by constructor|done].
Qed.

(** C39: undoing a close puts the folder's arrangement back as it was resolved
    before the close, whatever the deck was asked between, as long as nothing
    else closed or undid that tab: the record holds it and is handed to the
    host's store, the close no longer waits, and the view returns to the tab if
    it was viewed. *)
Theorem close_undo_roundtrip `{RecordsCodec} s folder session active labels storage now_ms between :
  is_pending (spawns s) session = false -> Forall (fun step => leaves_close session (fst step)) between ->
  let arrangement := fst (resolve_for_edit (deck s) folder) in
  let '(s1, storage1) :=
    run_intents ((IntentCloseTab (Some folder) session active labels, now_ms) :: between) s storage in
  let '(s2, storage2) := apply_deck_intent s1 (UndoClose session) storage1 now_ms in
  records (deck s2) = <[folder_key folder := arrangement]> (records (deck s1))
  /\ storage2 = match persist (records (deck s2)) storage1 with Ok stored => stored | Err _ => storage1 end
  /\ PendingCloses.entries (pending_closes s2) !! session = None
  /\ close_undo (deck s2) !! session = None
  /\ (if decide (active = Some session)
      then path <$> navigation (deck s2) = Some (deck_tab_path session)
      else navigation (deck s2) = navigation (deck s1)).
Proof.
  intros Hspawn Hbetween. cbv zeta. cbn [run_intents apply_deck_intent].
  pose proof (close_leaves_undo s folder session active labels storage now_ms Hspawn) as Hw.
  destruct (close_session s (Some folder) session active labels storage now_ms) as [s0 storage0]. cbn [fst] in Hw.
  pose proof (intents_wait session _ between s0 storage0 Hbetween Hw) as Hw1.
  destruct (run_intents between s0 storage0) as [s1 storage1]. cbn [fst] in Hw1. destruct Hw1 as [[entry E] Hu].
  unfold undo_close, undo_one. rewrite E. cbn [deck note_change with_closes]. rewrite Hu.
  unfold deck_commit. cbv zeta. cbn [undo_folder_key before was_viewed].
  set (storage2 := match persist _ storage1 with Ok _ => _ | Err _ => _ end).
  destruct (bool_decide_reflect (active = Some session)) as [Ha|Ha];
    [rewrite (decide_True (P := active = Some session)) by done|rewrite (decide_False (P := active = Some session)) by done];
    (split; [done|]; split; [done|]; split; [apply lookup_delete_eq|]; split; [apply lookup_delete_eq|done]).
Qed.

(** ** Witnesses *)

Definition demo_store : Store :=
  mkStore ToastStack_new SpawnLedger_new PendingCloses_new None 0 (DeckState_new 1700000000000) ∅ ∅ 1 0.

Definition demo_folder (live : list string) : DeckFolder := mkDeckFolder "/home" live.

Definition demo_intents : list (DeckIntent * Z) :=
  [(Observed (Some (demo_folder ["a"; "b"; "c"])) (Some "b"%string) false 1, 10);
   (SplitPane (demo_folder ["a"; "b"; "c"]) "pane-18bcfe56800-1" Row "c" false, 20);
   (IntentArrange (demo_folder ["a"; "b"; "c"]) (Preset Tiled) (Some "c"%string), 30);
   (IntentCloseTab (Some (demo_folder ["a"; "b"; "c"])) "a" (Some "a"%string) (mkCloseLabels "vim" "/home" "host"), 40);
   (SetRatio (demo_folder ["b"; "c"]) "pane-18bcfe56800-4" SpecFloat.S754_nan, 50);
   (UndoClose "a", 60)].

Lemma deck_intents_sound_witness :
  let codec := one_record ∅ in
  let d := deck (fst (@run_intents codec demo_intents demo_store ∅)) in
  (forall folder_key layout, records d !! folder_key = Some layout -> layout_ok layout)
  /\ path <$> navigation d = Some "/s/a"%string.
Proof.
  split; [|by vm_compute].
  refine (fun folder_key layout E => proj1 (proj1 (@deck_intents_sound (one_record ∅) demo_intents demo_store ∅ _ _ _) folder_key layout E)).
  - apply DeckState_new_ok.
  - assert (Hl : live_ok ["a"; "b"; "c"] /\ live_ok ["b"; "c"]).
    { split; split; by apply (bool_decide_unpack _); vm_compute. }
    destruct Hl as [Hl Hl']. apply (@intents_ok_static (one_record ∅)). unfold demo_intents.
    repeat (apply Forall_cons; split;
            [intros at_store; cbn [fst intent_ok demo_folder live_session_ids];
             first [exact I | exact Hl | exact Hl' | split; [exact Hl|done]]|]).
    by apply Forall_nil.
  - by vm_compute.
Defined.

Lemma close_undo_roundtrip_witness :
  let codec := one_record ∅ in
  let closing := [(IntentCloseTab (Some (demo_folder ["a"; "b"])) "a" None (mkCloseLabels "vim" "/home" "host"), 40);
                  (SetRatio (demo_folder ["b"]) "none" SpecFloat.S754_nan, 50)] in
  let '(s1, storage1) := @run_intents codec closing demo_store ∅ in
  let '(s2, storage2) := @apply_deck_intent codec s1 (UndoClose "a") storage1 40 in
  records (deck s2) = <["/home" := fst (resolve_for_edit (deck demo_store) (demo_folder ["a"; "b"]))]> (records (deck s1)).
Proof.
  pose proof (@close_undo_roundtrip (one_record ∅) demo_store (demo_folder ["a"; "b"]) "a" None
                (mkCloseLabels "vim" "/home" "host") ∅ 40 [(SetRatio (demo_folder ["b"]) "none" SpecFloat.S754_nan, 50)]) as Hround.
  cbv zeta in Hround |- *. specialize (Hround eq_refl ltac:(repeat constructor)).
  destruct (run_intents _ demo_store ∅) as [s1 storage1]. destruct (apply_deck_intent s1 _ storage1 40) as [s2 storage2].
  exact (proj1 Hround).
Defined.
