(* ===== verification/SpawnClaims.v ===== *)
(** * SpawnClaims: an attempt settles once, and only while it owns its session *)
From S2P Require Export ClientStore.
#[local] Open Scope Z_scope.

(** ** Runs *)

Inductive SpawnEvent :=
| SpawnBegin (id worker_fp cwd : string) (workspace_id : option string) (now_ms : Z)
| SpawnRespawn (t : SpawnTicket) (now_ms : Z)
| SpawnAdmitted (t : SpawnTicket)
| SpawnRejected (t : SpawnTicket) (message : string) (now_ms : Z)
| SpawnAborted (t : SpawnTicket)
| SpawnReconciled (id : string).

Inductive SpawnOutcome :=
| Ticketed (ticket : result SpawnTicket SpawnRefusal)
| Settled (settlement : SpawnSettlement)
| Answered (acted : bool).

Definition spawn_step (s : Store) (event : SpawnEvent) : Store * SpawnOutcome :=
  match event with
  | SpawnBegin id fp cwd ws now => let '(s, t) := begin_optimistic_spawn s id fp cwd ws now in (s, Ticketed t)
  | SpawnRespawn t now => let '(s, t) := respawn_optimistic_spawn s t now in (s, Ticketed t)
  | SpawnAdmitted t => let '(s, r) := settle_spawn_admitted s t in (s, Settled r)
  | SpawnRejected t message now => let '(s, r) := settle_spawn_rejected s t message now in (s, Settled r)
  | SpawnAborted t => let '(s, acted) := abort_optimistic_spawn s t in (s, Answered acted)
  | SpawnReconciled id => let '(s, acted) := reconcile_spawn s id in (s, Answered acted)
  end.

Abbreviation SpawnTrace := (list (SpawnEvent * SpawnOutcome)).

Fixpoint spawn_run (events : list SpawnEvent) (s : Store) : Store * SpawnTrace :=
  match events with
  | [] => (s, [])
  | event :: rest =>
      let '(s, outcome) := spawn_step s event in
      let '(s, trace) := spawn_run rest s in
      (s, (event, outcome) :: trace)
  end.

(** The ticket a step acted for: admitted, refused or retracted. *)
Definition settles (step : SpawnEvent * SpawnOutcome) : option SpawnTicket :=
  match step with
  | (SpawnAdmitted t, Settled Applied) | (SpawnRejected t _ _, Settled Applied) | (SpawnAborted t, Answered true) => Some t
  | _ => None
  end.

(** The newest attempt begun for a session. *)
Fixpoint owner (trace : SpawnTrace) (id : string) : option Z :=
  match trace with
  | [] => None
  | (_, outcome) :: rest =>
      match owner rest id with
      | Some newer => Some newer
      | None =>
          match outcome with
          | Ticketed (Ok t) => if decide (session_id t = id) then Some (attempt t) else None
          | _ => None
          end
      end
  end.

Lemma owner_app past step id :
  owner (past ++ [step]) id =
  match snd step with
  | Ticketed (Ok t) => if decide (session_id t = id) then Some (attempt t) else owner past id
  | _ => owner past id
  end.
Proof.
  induction past as [|[event outcome] past IH]; destruct step as [event' outcome']; cbn [app owner snd] in *.
  - by destruct outcome' as [[t|]| |].
  - rewrite IH. destruct outcome' as [[t|]| |]; try done. by destruct (decide (session_id t = id)).
Qed.

(** ** The invariant *)

Record ledger_ok (l : SpawnLedger) (trace : SpawnTrace) : Prop := {
  lg_start : 1 <= next_attempt l;
  lg_minted : forall id e, SpawnLedger.entries l !! id = Some e -> attempt (ticket e) < next_attempt l;
  lg_keyed : forall id e, SpawnLedger.entries l !! id = Some e -> session_id (ticket e) = id;
  lg_distinct : forall id1 id2 e1 e2, SpawnLedger.entries l !! id1 = Some e1 -> SpawnLedger.entries l !! id2 = Some e2 ->
    attempt (ticket e1) = attempt (ticket e2) -> id1 = id2;
  lg_owner : forall id e, SpawnLedger.entries l !! id = Some e -> owner trace id = Some (attempt (ticket e));
  lg_settled : forall t, t ∈ omap settles trace -> attempt t < next_attempt l
    /\ forall id e, SpawnLedger.entries l !! id = Some e -> attempt (ticket e) = attempt t -> state e = EntryAdmitted;
  lg_once : NoDup (attempt <$> omap settles trace);
}.

Lemma relevance_None l t :
  relevance l t = None ->
  exists e, SpawnLedger.entries l !! session_id t = Some e /\ attempt (ticket e) = attempt t /\ state e = Pending.
Proof.
  unfold relevance. destruct (SpawnLedger.entries l !! session_id t) as [e|]; [|done].
  destruct (attempt (ticket e) =? attempt t) eqn:E; [|done]. bool_to_prop. cbn [negb].
  destruct (bool_decide_reflect (state e = Pending)); [|done]. by exists e.
Qed.

Lemma remember_fields l id a reason :
  SpawnLedger.entries (remember l id a reason) = SpawnLedger.entries l
  /\ next_attempt (remember l id a reason) = next_attempt l.
Proof. done. Qed.

(** A step that acts for no ticket, gives none out, and at most drops an entry. *)
Lemma quiet_ok l l' trace step :
  ledger_ok l trace -> settles step = None -> (forall t, snd step <> Ticketed (Ok t)) ->
  next_attempt l <= next_attempt l' -> SpawnLedger.entries l' ⊆ SpawnLedger.entries l ->
  ledger_ok l' (trace ++ [step]).
Proof.
  intros [L0 L1 L2 L3 L4 L5 L6] Hquiet Hno Hnext Hsub.
  assert (Hin : forall id e, SpawnLedger.entries l' !! id = Some e -> SpawnLedger.entries l !! id = Some e).
  { intros id e E. by eapply lookup_weaken. }
  assert (Htr : omap settles (trace ++ [step]) = omap settles trace).
  { rewrite omap_app. cbn. rewrite Hquiet. apply app_nil_r. }
  constructor; rewrite ?Htr; try done; try lia.
  - intros id e E. pose proof (L1 _ _ (Hin _ _ E)). lia.
  - intros id e E. eauto.
  - intros id1 id2 e1 e2 E1 E2. eauto.
  - intros id e E. rewrite owner_app. destruct (snd step) as [[t|]| |] eqn:Es; eauto. by destruct (Hno t).
  - intros t Ht. destruct (L5 t Ht) as [Hlt Hst]. split; [lia|]. intros id e E. apply (Hst id e), Hin, E.
Qed.

(** A new attempt takes its session. *)
Lemma mint_ok l trace event e t :
  ledger_ok l trace -> next_attempt l + 1 < 2 ^ 64 -> ticket e = t -> attempt t = next_attempt l ->
  settles (event, Ticketed (Ok t)) = None ->
  ledger_ok (with_entries (snd (mint_attempt l)) (<[session_id t := e]> (SpawnLedger.entries l)))
    (trace ++ [(event, Ticketed (Ok t))]).
Proof.
  intros [L0 L1 L2 L3 L4 L5 L6] Hroom He Ht Hquiet.
  assert (Hnext : next_attempt (with_entries (snd (mint_attempt l)) (<[session_id t := e]> (SpawnLedger.entries l))) = next_attempt l + 1).
  { cbn. unfold saturating_add64. lia. }
  assert (Htr : omap settles (trace ++ [(event, Ticketed (Ok t))]) = omap settles trace).
  { rewrite omap_app. cbn [omap list_omap]. rewrite Hquiet. apply app_nil_r. }
  constructor; rewrite ?Hnext, ?Htr; cbn [SpawnLedger.entries with_entries]; try done; try lia.
  - intros id e0. rewrite lookup_insert_Some. intros [[_ <-]|[_ E]]; [rewrite He; lia|]. pose proof (L1 _ _ E). lia.
  - intros id e0. rewrite lookup_insert_Some. intros [[<- <-]|[_ E]]; [by rewrite He|by apply L2].
  - intros id1 id2 e1 e2. rewrite !lookup_insert_Some.
    intros [[<- <-]|[_ E1]] [[<- <-]|[_ E2]]; [done|..|by apply L3].
    + rewrite He, Ht. intros Heq. pose proof (L1 _ _ E2). lia.
    + rewrite He, Ht. intros Heq. pose proof (L1 _ _ E1). lia.
  - intros id e0. rewrite lookup_insert_Some, owner_app. cbn [snd].
    intros [[<- <-]|[Hne E]]; [by rewrite decide_True, He|]. rewrite decide_False by done. by apply L4.
  - intros t0 Ht0. destruct (L5 t0 Ht0) as [Hlt Hst]. split; [lia|]. intros id e0. rewrite lookup_insert_Some.
    intros [[_ <-]|[_ E]]; [rewrite He; lia|by eapply Hst].
Qed.

(** A ticket settles: its entry goes, or stays admitted. *)
Lemma spawn_settle_ok l l' trace step t :
  ledger_ok l trace -> relevance l t = None -> settles step = Some t -> (forall t, snd step <> Ticketed (Ok t)) ->
  next_attempt l' = next_attempt l ->
  (forall id e', SpawnLedger.entries l' !! id = Some e' ->
     exists e, SpawnLedger.entries l !! id = Some e /\ ticket e' = ticket e
       /\ ((id = session_id t /\ state e' = EntryAdmitted) \/ (id <> session_id t /\ e' = e))) ->
  ledger_ok l' (trace ++ [step]) /\ owner trace (session_id t) = Some (attempt t).
Proof.
  intros [L0 L1 L2 L3 L4 L5 L6] Hrel Hset Hno Hnext Hin.
  destruct (relevance_None _ _ Hrel) as (held & Eh & Ha & Hp).
  assert (Htr : omap settles (trace ++ [step]) = omap settles trace ++ [t]).
  { rewrite omap_app. cbn [omap list_omap]. by rewrite Hset. }
  split; [|by rewrite (L4 _ _ Eh), Ha].
  constructor; rewrite ?Hnext, ?Htr; try lia.
  - intros id e' E. destruct (Hin _ _ E) as (e & E0 & -> & _). by apply (L1 id).
  - intros id e' E. destruct (Hin _ _ E) as (e & E0 & -> & _). by apply (L2 id).
  - intros id1 id2 e1 e2 E1 E2. destruct (Hin _ _ E1) as (f1 & F1 & -> & _), (Hin _ _ E2) as (f2 & F2 & -> & _). by apply L3.
  - intros id e' E. destruct (Hin _ _ E) as (e & E0 & -> & _). rewrite owner_app.
    destruct (snd step) as [[t'|]| |] eqn:Es; [by destruct (Hno t')|..]; by apply L4.
  - intros t0 [Ht0| ->%list_elem_of_singleton]%elem_of_app.
    + destruct (L5 t0 Ht0) as [Hlt Hst]. split; [done|]. intros id e' E Heq.
      destruct (Hin _ _ E) as (e & E0 & Et & [[_ Had]|[_ ->]]); [done|]. by eapply Hst.
    + split; [pose proof (L1 _ _ Eh); lia|]. intros id e' E Heq.
      destruct (Hin _ _ E) as (e & E0 & Et & [[_ Had]|[Hne ->]]); [done|].
      destruct Hne. eapply L3; [exact E0|exact Eh|]. congruence.
  - rewrite fmap_app. apply NoDup_app. split_and!; [done| |apply NoDup_singleton].
    intros a (t0 & -> & Ht0)%list_elem_of_fmap Hin'. cbn in Hin'. apply list_elem_of_singleton in Hin'.
    destruct (L5 t0 Ht0) as [_ Hst]. rewrite (Hst _ _ Eh) in Hp; [done|]. congruence.
Qed.

Lemma retire_ok l trace t reason step :
  ledger_ok l trace -> relevance l t = None -> settles step = Some t -> (forall t, snd step <> Ticketed (Ok t)) ->
  ledger_ok (retire_spawn l t reason) (trace ++ [step]) /\ owner trace (session_id t) = Some (attempt t).
Proof.
  intros Hl Hrel Hset Hno. apply (spawn_settle_ok l); try done.
  cbn [retire_spawn remember with_entries SpawnLedger.entries]. intros id e'. rewrite lookup_delete_Some.
  intros [Hne E]. exists e'. split_and!; [done|done|right]. split; [by apply not_eq_sym|done].
Qed.

Lemma spawn_step_ok s event trace :
  ledger_ok (spawns s) trace -> next_attempt (spawns s) + 1 < 2 ^ 64 ->
  let '(s', outcome) := spawn_step s event in
  ledger_ok (spawns s') (trace ++ [(event, outcome)])
  /\ next_attempt (spawns s') <= next_attempt (spawns s) + 1
  /\ (forall t, settles (event, outcome) = Some t -> owner trace (session_id t) = Some (attempt t)).
Proof.
  intros Hl Hroom. pose proof (lg_start _ _ Hl) as H0.
  assert (Hmint : next_attempt (snd (mint_attempt (spawns s))) = next_attempt (spawns s) + 1).
  { cbn. unfold saturating_add64. lia. }
  destruct event as [id fp dir ws now|t now|t|t message now|t|id]; cbn [spawn_step].
  - unfold begin_optimistic_spawn. destruct (is_terminal_uuid id); cbn [negb].
    + cbn [mint_attempt]. split_and!; [|cbn; unfold saturating_add64; lia|done].
      by apply (mint_ok (spawns s) trace (SpawnBegin id fp dir ws now) _ (mkSpawnTicket id (next_attempt (spawns s)))).
    + split_and!; [|lia|done]. by apply (quiet_ok (spawns s)).
  - unfold respawn_optimistic_spawn. cbn [mint_attempt SpawnLedger.entries].
    destruct (SpawnLedger.entries (spawns s) !! session_id t) as [entry|] eqn:E.
    + split_and!; [|cbn; unfold saturating_add64; lia|done].
      by apply (mint_ok (spawns s) trace (SpawnRespawn t now) _ (mkSpawnTicket (session_id t) (next_attempt (spawns s)))).
    + split_and!; [|cbn; unfold saturating_add64; lia|done]. apply (quiet_ok (spawns s)); try done.
      cbn. unfold saturating_add64. lia.
  - unfold settle_spawn_admitted. destruct (relevance (spawns s) t) eqn:Hrel.
    + split_and!; [|lia|done]. by apply (quiet_ok (spawns s)).
    + destruct (relevance_None _ _ Hrel) as (e & Ee & _). rewrite Ee.
      destruct (spawn_settle_ok (spawns s) (remember (with_entries (spawns s)
                  (<[session_id t := mkSpawnEntry (ticket e) (placeholder e) EntryAdmitted]> (SpawnLedger.entries (spawns s))))
                  (session_id t) (attempt t) TombAdmitted) trace (SpawnAdmitted t, Settled Applied) t)
        as [Hok Howner]; try done.
      * cbn [remember with_entries SpawnLedger.entries]. intros id e'. rewrite lookup_insert_Some.
        intros [[<- <-]|[Hne E]]; [exists e; split_and!; [done|done|by left]|].
        exists e'. split_and!; [done|done|right]. split; [by apply not_eq_sym|done].
      * split_and!; [exact Hok|cbn; lia|by intros t' [= <-]].
  - unfold settle_spawn_rejected. destruct (relevance (spawns s) t) eqn:Hrel.
    + split_and!; [|lia|done]. by apply (quiet_ok (spawns s)).
    + destruct (retire_ok (spawns s) trace t TombRejected (SpawnRejected t message now, Settled Applied)) as [Hok Howner];
        try done.
      split_and!; [exact Hok|cbn; lia|by intros t' [= <-]].
  - unfold abort_optimistic_spawn. destruct (relevance (spawns s) t) eqn:Hrel.
    + split_and!; [|lia|done]. by apply (quiet_ok (spawns s)).
    + destruct (retire_ok (spawns s) trace t TombRetracted (SpawnAborted t, Answered true)) as [Hok Howner]; try done.
      split_and!; [exact Hok|cbn; lia|by intros t' [= <-]].
  - unfold reconcile_spawn. destruct (SpawnLedger.entries (spawns s) !! id) as [e|] eqn:E.
    + split_and!; [|cbn; lia|done]. apply (quiet_ok (spawns s)); try done. cbn [SpawnLedger.entries with_entries spawns note_change with_spawns].
      apply delete_subseteq.
    + split_and!; [|lia|done]. by apply (quiet_ok (spawns s)).
Qed.

Lemma spawn_run_ok events s past :
  ledger_ok (spawns s) past -> next_attempt (spawns s) + len events < 2 ^ 64 ->
  let '(s', trace) := spawn_run events s in
  ledger_ok (spawns s') (past ++ trace)
  /\ forall before step after t, trace = before ++ step :: after -> settles step = Some t ->
       owner (past ++ before) (session_id t) = Some (attempt t).
Proof.
  revert s past. induction events as [|event rest IH]; intros s past Hl Hroom; cbn [spawn_run].
  { rewrite app_nil_r. split; [done|]. by intros [] ? ? ? ?. }
  rewrite len_cons in Hroom. pose proof (len_nonneg rest).
  pose proof (spawn_step_ok s event past Hl ltac:(lia)) as Hstep.
  destruct (spawn_step s event) as [s1 outcome]. destruct Hstep as (Hl1 & Hn & Howner).
  pose proof (IH s1 (past ++ [(event, outcome)]) Hl1 ltac:(lia)) as Hrest.
  destruct (spawn_run rest s1) as [s2 trace]. rewrite <- app_assoc in Hrest. destruct Hrest as [Hl2 Hin]. split; [done|].
  intros [|step0 before] step after t [= <- E] Hset.
  - rewrite app_nil_r. by apply Howner.
  - rewrite cons_middle, app_assoc. eapply Hin; [exact E|done].
Qed.

(** ** Claim *)

(** In every run of spawns, answers and retractions from a fresh ledger, an
    attempt is settled - admitted, refused or retracted - at most once, and
    only while it is the newest attempt begun for its session; so a late answer
    never acts on a newer attempt.  An answer that does not settle changes
    nothing: no placeholder, no card, no revision. *)
Theorem spawn_settles_once events s :
  spawns s = SpawnLedger_new -> len events < 2 ^ 64 - 1 ->
  let '(s', trace) := spawn_run events s in
  NoDup (attempt <$> omap settles trace)
  /\ (forall before step after t, trace = before ++ step :: after -> settles step = Some t ->
        owner before (session_id t) = Some (attempt t))
  /\ (forall at_store event, match event with SpawnAdmitted _ | SpawnRejected _ _ _ | SpawnAborted _ => True | _ => False end ->
        settles (event, snd (spawn_step at_store event)) = None -> fst (spawn_step at_store event) = at_store).
Proof.
  intros Hs Hlen. pose proof (spawn_run_ok events s []) as Hrun. rewrite Hs in Hrun.
  assert (H0 : ledger_ok SpawnLedger_new []).
  { constructor; cbn; try done; [by intros ? ?%elem_of_nil|constructor]. }
  specialize (Hrun H0 ltac:(cbn; lia)). destruct (spawn_run events s) as [s' trace]. destruct Hrun as [Hl Howner].
  split_and!; [apply Hl|exact Howner|].
  intros at_store event Hkind Hset. destruct event; try done; cbn [spawn_step] in *.
  - unfold settle_spawn_admitted in *. by destruct (relevance _ _).
  - unfold settle_spawn_rejected in *. by destruct (relevance _ _).
  - unfold abort_optimistic_spawn in *. by destruct (relevance _ _).
Qed.

Definition demo_session : string := "0b8f3c1e-5a0e-4b0a-9d4e-3a1f2b3c4d5e".

Definition fresh_store : Store :=
  mkStore ToastStack_new SpawnLedger_new PendingCloses_new None 0 (DeckState_new 1700000000000) ∅ ∅ 1 0.

(** A spawn, its respawn, the first one's refusal, the second's admission and a
    late refusal. *)
Definition demo_spawns : list SpawnEvent :=
  [SpawnBegin demo_session "fp" "/home" None 10; SpawnRespawn (mkSpawnTicket demo_session 1) 20;
   SpawnRejected (mkSpawnTicket demo_session 1) "no" 30; SpawnAdmitted (mkSpawnTicket demo_session 2);
   SpawnRejected (mkSpawnTicket demo_session 2) "late" 40].

Lemma spawn_settles_once_witness :
  snd <$> snd (spawn_run demo_spawns fresh_store)
  = [Ticketed (Ok (mkSpawnTicket demo_session 1)); Ticketed (Ok (mkSpawnTicket demo_session 2));
     Settled (Superseded ReplacedByNewerAttempt); Settled Applied; Settled (Superseded AlreadySettled)]
  /\ NoDup (attempt <$> omap settles (snd (spawn_run demo_spawns fresh_store))).
Proof.
  pose proof (spawn_settles_once demo_spawns fresh_store eq_refl eq_refl) as Honce.
  split; [by vm_compute|]. destruct (spawn_run demo_spawns fresh_store) as [s' trace]. exact (proj1 Honce).
Defined.
