(* ===== verification/CloseClaims.v ===== *)
(** * CloseClaims: every close runs on its own clock

    The queue of pending closes against one timer per tab. *)
From S2P Require Export ClientStore.
#[local] Open Scope Z_scope.

(** ** Runs *)

Inductive CloseEvent :=
| CloseScheduled (tab_id : string) (labels : CloseLabels) (now_ms : Z)
| CloseUndone (tab_id : string)
| ClosesUndone
| CloseSwept (now_ms : Z)
| CloseAnswered (answer : RpcResult) (now_ms : Z)
| SessionsMoved (sessions : gmap string SessionStatus) (conversations : gset string)
| ClosesCleared.

Definition with_sessions (s : Store) (sessions : gmap string SessionStatus) (conversations : gset string) : Store :=
  mkStore (cards s) (spawns s) (pending_closes s) (spotlight s) (visible_pane_count s) (deck s)
    sessions conversations (call_id_next s) (revision s).

(** The store after an event, and the calls it issues. *)
Definition close_step (s : Store) (event : CloseEvent) : Store * list RpcCall :=
  match event with
  | CloseScheduled tab_id labels now_ms => (fst (schedule_close s tab_id labels now_ms), [])
  | CloseUndone tab_id => (fst (undo_one s tab_id), [])
  | ClosesUndone => (fst (undo_all s), [])
  | CloseSwept now_ms => issue_due_kills s now_ms
  | CloseAnswered answer now_ms => fst (settle_kill s answer now_ms)
  | SessionsMoved sessions conversations => (with_sessions s sessions conversations, [])
  | ClosesCleared => (clear_pending_closes s, [])
  end.

Fixpoint close_run (events : list CloseEvent) (s : Store) : Store * list (CloseEvent * list RpcCall) :=
  match events with
  | [] => (s, [])
  | event :: rest =>
      let '(s, calls) := close_step s event in
      let '(s, trace) := close_run rest s in
      (s, (event, calls) :: trace)
  end.

(** ** One tab's timer *)

Definition timer_step (tab : string) (timer : option Z) (event : CloseEvent) : option Z :=
  match event with
  | CloseScheduled other _ now_ms =>
      if decide (other = tab) then Some (saturating_add64 now_ms UNDO_WINDOW_MS) else timer
  | CloseUndone other => if decide (other = tab) then None else timer
  | ClosesUndone | ClosesCleared => None
  | CloseSwept now_ms =>
      match timer with Some deadline => if deadline <=? now_ms then None else timer | None => None end
  | CloseAnswered _ _ | SessionsMoved _ _ => timer
  end.

Definition timer (events : list CloseEvent) (tab : string) : option Z := foldl (timer_step tab) None events.

(** The tab a call closes. *)
Definition closed_tab (call : RpcCall) : string :=
  match call with AgentChatDelete _ conversation_id => agent_tab_id conversation_id | SessionsKill _ tab _ => tab end.

Definition is_forced (call : RpcCall) : bool :=
  match call with SessionsKill _ _ force => force | AgentChatDelete _ _ => false end.

Definition call_id_of (call : RpcCall) : Z :=
  match call with AgentChatDelete id _ | SessionsKill id _ _ => id end.

(** The calls a run has issued and not seen answered, with the tab of each: an
    answer settles its own call, and an issued call waits under its id. *)
Definition awaited_step (waiting : gmap Z string) (step : CloseEvent * list RpcCall) : gmap Z string :=
  let waiting := match fst step with
                 | CloseAnswered answer _ => base.delete (rpc_call_id answer) waiting | _ => waiting end in
  foldl (fun waiting call => <[call_id_of call := closed_tab call]> waiting) waiting (snd step).

Definition awaited (trace : list (CloseEvent * list RpcCall)) : gmap Z string := foldl awaited_step ∅ trace.

(** A sweep has issued a call for the tab. *)
Definition swept (trace : list (CloseEvent * list RpcCall)) (tab : string) : Prop :=
  exists now_ms calls, (CloseSwept now_ms, calls) ∈ trace /\ tab ∈ closed_tab <$> calls.

(** What an answer makes of the calls that wait: the refusal of a graceful kill
    is followed by a forced one of the same session, and nothing else is. *)
Definition answer_calls (waiting : gmap Z string) (answer : RpcResult) (calls : list RpcCall) : Prop :=
  match answer with
  | SessionKillAnswered id _ false false =>
      match waiting !! id with
      | Some tab => if is_agent_tab tab then calls = [] else exists call_id, calls = [SessionsKill call_id tab true]
      | None => calls = []
      end
  | _ => calls = []
  end.

(** ** The invariant *)

Definition keyed (p : PendingCloses) : Prop :=
  forall tab entry, PendingCloses.entries p !! tab = Some entry -> close_session_id entry = tab.

Definition deadline_of (p : PendingCloses) (tab : string) : option Z :=
  PendingCloses.expires_at_ms <$> PendingCloses.entries p !! tab.

Lemma strip_prefix_app prefix value rest : strip_prefix prefix value = Some rest -> value = (prefix +:+ rest)%string.
Proof.
  revert value. induction prefix as [|a prefix IH]; intros value; [by destruct value; intros [= <-]|].
  destruct value as [|b value]; cbn [strip_prefix]; [done|].
  destruct (Ascii.eqb_spec a b) as [->|]; [|done]. intros H. by rewrite (IH _ H).
Qed.

Lemma issue_kill_spec s tab force :
  let '(s', call) := issue_kill s tab force in
  closed_tab call = tab /\ (is_forced call = true -> force = true)
  /\ PendingCloses.entries (pending_closes s') = PendingCloses.entries (pending_closes s)
  /\ closing (pending_closes s') = closing (pending_closes s)
  /\ kills_in_flight (pending_closes s') = <[call_id_of call := closed_tab call]> (kills_in_flight (pending_closes s)).
Proof.
  unfold issue_kill. cbn [take_call_id]. destruct (strip_prefix "agent:" tab) as [conversation|] eqn:E; [|done].
  apply strip_prefix_app in E. split_and!; try done; cbn; by rewrite E.
Qed.

Lemma issue_kills_spec s tabs :
  let '(s', calls) := issue_kills s tabs in
  closed_tab <$> calls = tabs /\ Forall (fun call => is_forced call = false) calls
  /\ PendingCloses.entries (pending_closes s') = PendingCloses.entries (pending_closes s)
  /\ forall now_ms, kills_in_flight (pending_closes s')
       = awaited_step (kills_in_flight (pending_closes s)) (CloseSwept now_ms, calls).
Proof.
  revert s. induction tabs as [|tab tabs IH]; intros s; cbn [issue_kills]; [by split_and!|].
  pose proof (issue_kill_spec s tab false) as Hk. destruct (issue_kill s tab false) as [s1 call].
  destruct Hk as (K1 & K2 & K3 & _ & K4). pose proof (IH s1) as Hr. destruct (issue_kills s1 tabs) as [s2 calls].
  destruct Hr as (R1 & R2 & R3 & R4). cbn. rewrite K1, R1, R3. split_and!; [done| |done|].
  - constructor; [|done]. destruct (is_forced call); [by discriminate K2|done].
  - intros now_ms. by rewrite (R4 now_ms), K4, K1.
Qed.

Lemma due_closes_spec p now_ms :
  keyed p ->
  NoDup (due_closes p now_ms)
  /\ forall tab, tab ∈ due_closes p now_ms <-> exists deadline, deadline_of p tab = Some deadline /\ deadline <= now_ms.
Proof.
  intros Hk. unfold due_closes.
  assert (Hkeys : Forall (fun kv => close_session_id (snd kv) = fst kv) (map_to_list (PendingCloses.entries p))).
  { apply Forall_forall. intros [k v] Hin%elem_of_map_to_list. by apply Hk. }
  assert (Hids : close_session_id <$> values (PendingCloses.entries p) ≡ₚ fst <$> map_to_list (PendingCloses.entries p)).
  { rewrite values_spec, <- list_fmap_compose. apply Permutation_refl', list_fmap_ext. intros i kv Hi.
    rewrite Forall_forall in Hkeys. apply Hkeys. by eapply list_elem_of_lookup_2. }
  split.
  - eapply sublist_NoDup; [|apply fmap_sublist, sublist_filter]. rewrite Hids. apply NoDup_fst_map_to_list.
  - intros tab. rewrite list_elem_of_fmap. unfold deadline_of. setoid_rewrite list_elem_of_filter.
    setoid_rewrite values_spec. setoid_rewrite list_elem_of_fmap. split.
    + intros (entry & -> & Hdue & ([k v] & -> & Hin%elem_of_map_to_list)). cbn in *.
      exists (PendingCloses.expires_at_ms v). split; [|done]. by rewrite (Hk _ _ Hin), Hin.
    + intros (deadline & Hd & Hdue). destruct (PendingCloses.entries p !! tab) as [entry|] eqn:E; [|done].
      cbn in Hd. injection Hd as <-. exists entry. split; [symmetry; by apply Hk|]. split; [done|].
      exists (tab, entry). split; [done|by apply elem_of_map_to_list].
Qed.

Lemma expire_all_entries p tabs :
  PendingCloses.entries (foldl expire_close p tabs) = foldl (fun m tab => base.delete tab m) (PendingCloses.entries p) tabs.
Proof. revert p. induction tabs as [|tab tabs IH]; intros p; [done|]. cbn. by rewrite IH. Qed.

Lemma delete_all_lookup {V} (m : gmap string V) tabs tab :
  foldl (fun m tab => base.delete tab m) m tabs !! tab = if decide (tab ∈ tabs) then None else m !! tab.
Proof.
  revert m. induction tabs as [|other tabs IH]; intros m; [done|]. cbn [foldl]. rewrite IH.
  destruct (decide (tab ∈ tabs)) as [Hin|Hout]; [by rewrite decide_True by set_solver|].
  destruct (decide (tab = other)) as [->|Hne].
  - rewrite decide_True by set_solver. apply lookup_delete_eq.
  - rewrite decide_False by set_solver. by apply lookup_delete_ne.
Qed.

Lemma sweep_spec s now_ms :
  keyed (pending_closes s) ->
  let '(s', due) := sweep_pending_closes s now_ms in
  due = due_closes (pending_closes s) now_ms /\ keyed (pending_closes s')
  /\ forall tab, deadline_of (pending_closes s') tab
       = match deadline_of (pending_closes s) tab with
         | Some deadline => if deadline <=? now_ms then None else Some deadline
         | None => None
         end.
Proof.
  intros Hk. unfold sweep_pending_closes.
  set (p := mkPendingCloses (PendingCloses.entries (pending_closes s)) _ _).
  assert (Hdue : due_closes p now_ms = due_closes (pending_closes s) now_ms) by done.
  destruct (due_closes_spec (pending_closes s) now_ms Hk) as [_ Hin].
  assert (Hlook : forall due, due = due_closes (pending_closes s) now_ms -> forall tab,
            deadline_of (foldl expire_close p due) tab
            = match deadline_of (pending_closes s) tab with
              | Some deadline => if deadline <=? now_ms then None else Some deadline | None => None end).
  { intros due -> tab. unfold deadline_of at 1. rewrite expire_all_entries, delete_all_lookup.
    destruct (decide (tab ∈ _)) as [Ht|Ht].
    - apply Hin in Ht as (deadline & -> & Hle). cbn. by rewrite (proj2 (Z.leb_le _ _) Hle).
    - fold (deadline_of p tab). change (deadline_of p tab) with (deadline_of (pending_closes s) tab).
      destruct (deadline_of (pending_closes s) tab) as [deadline|] eqn:E; [|done].
      destruct (Z.leb_spec deadline now_ms); [|done]. destruct Ht. apply Hin. by exists deadline. }
  rewrite Hdue. destruct (due_closes (pending_closes s) now_ms) as [|first rest] eqn:E.
  - split_and!; [done|exact Hk|]. intros tab. by apply (Hlook []).
  - split_and!; [done| |].
    + intros tab entry. cbn [pending_closes note_change with_closes]. rewrite expire_all_entries, delete_all_lookup.
      destruct (decide _); [done|]. apply Hk.
    + intros tab. by apply (Hlook (first :: rest)).
Qed.

Lemma release_tab_entries s tab :
  PendingCloses.entries (pending_closes (release_tab s tab)) = PendingCloses.entries (pending_closes s).
Proof. unfold release_tab, release_closing. by destruct (bool_decide _). Qed.

Lemma release_tab_kills s tab :
  kills_in_flight (pending_closes (release_tab s tab)) = kills_in_flight (pending_closes s).
Proof. unfold release_tab, release_closing. by destruct (bool_decide _). Qed.

Lemma expire_all_kills p tabs : kills_in_flight (foldl expire_close p tabs) = kills_in_flight p.
Proof. revert p. induction tabs as [|tab tabs IH]; intros p; [done|]. cbn. by rewrite IH. Qed.

Lemma sweep_kills s now_ms :
  kills_in_flight (pending_closes (fst (sweep_pending_closes s now_ms))) = kills_in_flight (pending_closes s).
Proof.
  unfold sweep_pending_closes. set (p := mkPendingCloses _ _ _). destruct (due_closes p now_ms); [done|].
  cbn [fst pending_closes note_change with_closes]. by rewrite expire_all_kills.
Qed.

Lemma settle_kill_spec s answer now_ms :
  let '(s', calls, _) := settle_kill s answer now_ms in
  PendingCloses.entries (pending_closes s') = PendingCloses.entries (pending_closes s)
  /\ kills_in_flight (pending_closes s')
     = awaited_step (kills_in_flight (pending_closes s)) (CloseAnswered answer now_ms, calls)
  /\ answer_calls (kills_in_flight (pending_closes s)) answer calls.
Proof.
  unfold settle_kill, take_kill, answer_calls.
  destruct (kills_in_flight (pending_closes s) !! rpc_call_id answer) as [tab|] eqn:E.
  2:{ split_and!; [done|done|]. destruct answer as [? ? [] []|?|?]; try done. cbn in E. by rewrite E. }
  set (s1 := with_closes s _). destruct answer as [call_id session force accepted|call_id error|call_id]; cbn in E.
  2:{ split_and!; [exact (release_tab_entries s1 tab)|apply (release_tab_kills s1)|done]. }
  2:{ by split_and!. }
  destruct accepted; [split_and!; [done|done|by destruct force]|].
  destruct force; cbn [negb andb].
  - split_and!; [apply (release_tab_entries s1)|apply (release_tab_kills s1)|done].
  - rewrite E. destruct (is_agent_tab tab) eqn:Ea; cbn [negb]; [by split_and!|].
    pose proof (issue_kill_spec s1 tab true) as Hk. unfold issue_kill, is_agent_tab in *.
    destruct (strip_prefix "agent:" tab); [done|]. cbn [take_call_id] in *.
    destruct Hk as (_ & _ & K1 & _ & K2). split_and!; [apply K1|apply K2|by eexists].
Qed.

(** One event moves every tab's deadline as its own timer does. *)
Lemma close_step_spec s event :
  keyed (pending_closes s) ->
  let '(s', calls) := close_step s event in
  keyed (pending_closes s')
  /\ (forall tab, deadline_of (pending_closes s') tab = timer_step tab (deadline_of (pending_closes s) tab) event)
  /\ match event with
     | CloseSwept now_ms => closed_tab <$> calls = due_closes (pending_closes s) now_ms
                            /\ Forall (fun call => is_forced call = false) calls
     | CloseAnswered answer _ => answer_calls (kills_in_flight (pending_closes s)) answer calls
     | _ => calls = []
     end
  /\ kills_in_flight (pending_closes s') = awaited_step (kills_in_flight (pending_closes s)) (event, calls).
Proof.
  intros Hk. destruct event as [tab labels now_ms|tab| |now_ms|answer now_ms|sessions conversations|]; cbn [close_step].
  - unfold schedule_close. cbv zeta. set (entry := mkPendingClose _ _ _).
    assert (Hnew : keyed (with_close (pending_closes s) tab entry)
                   /\ forall other, deadline_of (with_close (pending_closes s) tab entry) other
                      = timer_step other (deadline_of (pending_closes s) other) (CloseScheduled tab labels now_ms)).
    { split; [|intros other]; unfold keyed, deadline_of; cbn [PendingCloses.entries with_close timer_step].
      - intros other e. rewrite lookup_insert_Some. intros [[<- <-]|[_ E]]; [done|by apply Hk].
      - destruct (decide (tab = other)) as [->|Hne]; [by rewrite lookup_insert_eq|by rewrite lookup_insert_ne]. }
    destruct (decide _) as [Heq|_]; cbn [fst]; [|split_and!; [apply Hnew|apply Hnew|done|done]].
    split_and!; [done| |done|done]. intros other. destruct Hnew as [_ Hnew]. rewrite <- Hnew. unfold deadline_of.
    cbn [PendingCloses.entries with_close]. destruct (decide (tab = other)) as [->|Hne].
    + by rewrite lookup_insert_eq, Heq.
    + by rewrite lookup_insert_ne.
  - unfold undo_one. destruct (PendingCloses.entries (pending_closes s) !! tab) as [entry|] eqn:E; cbn [fst].
    + split_and!; [..|done|done].
      * intros other e. cbn. rewrite lookup_delete_Some. intros [_ Eo]. by apply Hk.
      * intros other. unfold deadline_of. cbn. destruct (decide (tab = other)) as [->|Hne];
          [by rewrite lookup_delete_eq|by rewrite lookup_delete_ne].
    + split_and!; [done| |done|done]. intros other. cbn [timer_step]. destruct (decide (tab = other)) as [->|]; [|done].
      unfold deadline_of. by rewrite E.
  - unfold undo_all. destruct (decide _) as [E|_]; cbn [fst]; split_and!; try done.
    intros tab. unfold deadline_of. by rewrite E.
  - unfold issue_due_kills. pose proof (sweep_spec s now_ms Hk) as Hs. pose proof (sweep_kills s now_ms) as Hf.
    destruct (sweep_pending_closes s now_ms) as [s1 due]. destruct Hs as (-> & Hk1 & Hd1).
    pose proof (issue_kills_spec s1 (due_closes (pending_closes s) now_ms)) as Hi.
    destruct (issue_kills s1 _) as [s2 calls]. destruct Hi as (I1 & I2 & I3 & I4).
    split_and!; [|intros tab|done|done|].
    + intros tab entry. rewrite I3. apply Hk1.
    + unfold deadline_of at 1. rewrite I3. etransitivity; [apply Hd1|]. cbn [timer_step]. by destruct (deadline_of (pending_closes s) tab).
    + rewrite (I4 now_ms). cbn [fst] in Hf. by rewrite Hf.
  - pose proof (settle_kill_spec s answer now_ms) as He.
    destruct (settle_kill s answer now_ms) as [[s1 calls] acted]. cbn [fst]. destruct He as (He & Hf & Hc).
    split_and!; [|intros tab|done|done]; unfold keyed, deadline_of; by rewrite He.
  - by split_and!.
  - unfold clear_pending_closes. destruct (bool_decide _ && _) eqn:E; cbn [fst]; split_and!; try done.
    apply andb_true_iff in E as [E%bool_decide_eq_true _]. intros tab. unfold deadline_of. by rewrite E.
Qed.

Lemma timer_app past event tab : timer (past ++ [event]) tab = timer_step tab (timer past tab) event.
Proof. unfold timer. by rewrite foldl_app. Qed.

(** A call that waits was issued for a tab a sweep closed. *)
Lemma awaited_swept past event calls :
  (forall id tab, awaited past !! id = Some tab -> swept past tab) ->
  match event with
  | CloseSwept _ => True
  | CloseAnswered answer _ => answer_calls (awaited past) answer calls
  | _ => calls = []
  end ->
  forall id tab, awaited (past ++ [(event, calls)]) !! id = Some tab -> swept (past ++ [(event, calls)]) tab.
Proof.
  intros Hw Hc. unfold awaited. rewrite foldl_app. cbn [foldl]. fold (awaited past).
  assert (Hold : forall tab, swept past tab -> swept (past ++ [(event, calls)]) tab).
  { intros tab (now_ms & cs & Hin & Ht). exists now_ms, cs. split; [set_solver|done]. }
  assert (Hcall : forall tab, tab ∈ closed_tab <$> calls -> swept (past ++ [(event, calls)]) tab).
  { intros tab Ht. destruct event as [| | |now_ms|answer ?| |]; try (subst; by apply not_elem_of_nil in Ht).
    - exists now_ms, calls. split; [set_solver|done].
    - unfold answer_calls in Hc. destruct answer as [id ? [] []|?|?]; try (subst; by apply not_elem_of_nil in Ht).
      destruct (awaited past !! id) as [other|] eqn:E; [|subst; by apply not_elem_of_nil in Ht].
      destruct (is_agent_tab other); [subst; by apply not_elem_of_nil in Ht|].
      destruct Hc as [n ->]. apply list_elem_of_singleton in Ht as ->. apply Hold. by eapply Hw. }
  assert (Hstart : forall m : gmap Z string, (forall id tab, m !! id = Some tab -> swept (past ++ [(event, calls)]) tab) ->
    forall cs, (forall call, call ∈ cs -> call ∈ calls) -> forall id tab,
    foldl (fun waiting call => <[call_id_of call := closed_tab call]> waiting) m cs !! id = Some tab ->
    swept (past ++ [(event, calls)]) tab).
  { intros m Hm cs. revert m Hm. induction cs as [|call cs IH]; intros m Hm Hin; cbn [foldl]; [done|].
    apply IH; [|set_solver]. intros id tab. rewrite lookup_insert_Some. intros [[_ <-]|[_ E]]; [|by eapply Hm].
    apply Hcall, list_elem_of_fmap. exists call. split; [done|set_solver]. }
  unfold awaited_step. apply Hstart; [|done]. cbn [fst]. intros id tab E. apply Hold.
  destruct event; try (by eapply Hw). apply lookup_delete_Some in E as [_ E]. by eapply Hw.
Qed.

Lemma close_run_spec events s past :
  keyed (pending_closes s) -> (forall tab, deadline_of (pending_closes s) tab = timer (fst <$> past) tab) ->
  kills_in_flight (pending_closes s) = awaited past ->
  (forall id tab, awaited past !! id = Some tab -> swept past tab) ->
  let '(s', trace) := close_run events s in
  fst <$> trace = events
  /\ (forall tab, deadline_of (pending_closes s') tab = timer ((fst <$> past) ++ events) tab)
  /\ forall before event calls after, trace = before ++ (event, calls) :: after ->
       match event with
       | CloseSwept now_ms =>
           NoDup (closed_tab <$> calls) /\ Forall (fun call => is_forced call = false) calls
           /\ forall tab, tab ∈ closed_tab <$> calls <->
                exists deadline, timer (fst <$> (past ++ before)) tab = Some deadline /\ deadline <= now_ms
       | CloseAnswered answer _ =>
           answer_calls (awaited (past ++ before)) answer calls
           /\ forall call, call ∈ calls -> swept (past ++ before) (closed_tab call)
       | _ => calls = []
       end.
Proof.
  revert s past. induction events as [|event rest IH]; intros s past Hk Ht Hf Hw; cbn [close_run].
  { rewrite app_nil_r. split_and!; [done|done|]. by intros []. }
  pose proof (close_step_spec s event Hk) as Hs. destruct (close_step s event) as [s1 calls].
  destruct Hs as (Hk1 & Hd1 & Hc1 & Hf1). rewrite Hf in Hc1, Hf1.
  pose proof (awaited_swept past event calls Hw) as Hw1.
  pose proof (IH s1 (past ++ [(event, calls)]) Hk1) as Hr. destruct (close_run rest s1) as [s2 trace].
  destruct Hr as (R1 & R2 & R3).
  { intros tab. rewrite Hd1, Ht, fmap_app. symmetry. apply timer_app. }
  { rewrite Hf1. unfold awaited. by rewrite foldl_app. }
  { apply Hw1. by destruct event. }
  rewrite fmap_app, <- app_assoc in R2. split_and!; [by cbn; rewrite R1|exact R2|].
  intros [|[first_event first_calls] before] other other_calls after [= <- <- E].
  - rewrite app_nil_r. destruct event as [| | |now_ms|answer ?| |]; try done.
    + destruct Hc1 as [-> Hfc]. destruct (due_closes_spec _ now_ms Hk) as [Hnd Hin].
      split_and!; [done|done|]. intros tab. rewrite Hin. by setoid_rewrite Ht.
    + split; [done|]. intros call Hin. unfold answer_calls in Hc1.
      destruct answer as [id ? [] []|?|?]; try (subst; by apply not_elem_of_nil in Hin).
      destruct (awaited past !! id) as [tab|] eqn:Ea; [|subst; by apply not_elem_of_nil in Hin].
      destruct (is_agent_tab tab); [subst; by apply not_elem_of_nil in Hin|].
      destruct Hc1 as [n ->]. apply list_elem_of_singleton in Hin as ->. by eapply Hw.
  - subst trace. specialize (R3 before other other_calls after eq_refl). by rewrite <- app_assoc in R3.
Qed.

(** ** Claims *)

(** C40: the queue of pending closes is one independent timer per tab.  Over every
    run of closes, undos, sweeps, answers, session changes and credential
    boundaries, a tab waits exactly while its own timer runs, for five seconds
    from its last close.  A sweep issues one graceful kill or delete for each tab
    whose timer ended and for no other.  An answer issues nothing, unless it
    refuses a graceful kill that is still waiting for its answer, which is
    followed by one forced kill of the same session; and that session's timer
    has ended in an earlier sweep.  No other event issues a call: a close undone
    in time never kills. *)
Theorem closes_independent events s :
  pending_closes s = PendingCloses_new ->
  let '(s', trace) := close_run events s in
  fst <$> trace = events
  /\ (forall tab, PendingCloses.expires_at_ms <$> PendingCloses.entries (pending_closes s') !! tab = timer events tab)
  /\ forall before event calls after, trace = before ++ (event, calls) :: after ->
       match event with
       | CloseSwept now_ms =>
           NoDup (closed_tab <$> calls) /\ Forall (fun call => is_forced call = false) calls
           /\ forall tab, tab ∈ closed_tab <$> calls <->
                exists deadline, timer (fst <$> before) tab = Some deadline /\ deadline <= now_ms
       | CloseAnswered answer _ =>
           answer_calls (awaited before) answer calls
           /\ forall call, call ∈ calls -> swept before (closed_tab call)
       | _ => calls = []
       end.
Proof.
  intros Hs. apply (close_run_spec events s []); rewrite ?Hs; [by intros tab entry|done|done|].
  intros ? ?. unfold awaited. cbn [foldl]. by rewrite lookup_empty.
Qed.

(** A credential boundary drops the closes that wait and forgets no kill that
    is in flight: when the old credential's graceful kill is then refused, a
    forced kill of that session is issued under the new one. *)
Theorem forced_kill_after_boundary s call_id tab now_ms :
  kills_in_flight (pending_closes s) !! call_id = Some tab -> is_agent_tab tab = false ->
  let '(_, calls, acted) := settle_kill (clear_pending_closes s) (SessionKillAnswered call_id tab false false) now_ms in
  calls = [SessionsKill (call_id_next s) tab true] /\ acted = true.
Proof.
  intros Hcall Hagent. unfold settle_kill. cbn [take_kill rpc_call_id].
  assert (Hkeep : kills_in_flight (pending_closes (clear_pending_closes s)) !! call_id = Some tab
                  /\ call_id_next (clear_pending_closes s) = call_id_next s).
  { unfold clear_pending_closes. by destruct (_ && _). }
  destruct Hkeep as [-> Hnext]. rewrite Hagent. cbn [negb andb].
  unfold issue_kill, is_agent_tab in *. cbn [take_call_id with_closes call_id_next].
  destruct (strip_prefix "agent:" tab); [done|]. by rewrite Hnext.
Qed.

(** ** Witnesses *)

Definition close_store : Store :=
  mkStore ToastStack_new SpawnLedger_new PendingCloses_new None 0 (DeckState_new 1700000000000) ∅ ∅ 1 0.

Definition demo_labels : CloseLabels := mkCloseLabels "vim" "/home" "host".

(** Three closes, one undone, one renewed; sweeps before, at and after; a
    graceful kill refused, and the forced one that follows refused too. *)
Definition demo_closes : list CloseEvent :=
  [CloseScheduled "a" demo_labels 0; CloseScheduled "b" demo_labels 1000; CloseScheduled "agent:c" demo_labels 1000;
   CloseUndone "b"; CloseSwept 4999; CloseScheduled "a" demo_labels 4999; CloseSwept 6000;
   CloseAnswered (AnsweredOtherwise 1) 6500; CloseSwept 9999;
   CloseAnswered (SessionKillAnswered 2 "a" false false) 10000; CloseAnswered (SessionKillAnswered 3 "a" true false) 10500].

Lemma closes_independent_witness :
  snd <$> snd (close_run demo_closes close_store)
  = [[]; []; []; []; []; []; [AgentChatDelete 1 "c"]; []; [SessionsKill 2 "a" false];
     [SessionsKill 3 "a" true]; []]
  /\ fst <$> snd (close_run demo_closes close_store) = demo_closes.
Proof.
  pose proof (closes_independent demo_closes close_store eq_refl) as Hrun. split; [by vm_compute|].
  destruct (close_run demo_closes close_store) as [s' trace]. exact (proj1 Hrun).
Defined.

Lemma forced_kill_after_boundary_witness :
  let s := fst (close_run [CloseScheduled "a" demo_labels 0; CloseSwept 5000] close_store) in
  snd (fst (settle_kill (clear_pending_closes s) (SessionKillAnswered 1 "a" false false) 6000)) = [SessionsKill 2 "a" true].
Proof.
  pose proof (forced_kill_after_boundary (fst (close_run [CloseScheduled "a" demo_labels 0; CloseSwept 5000] close_store))
                1 "a" 6000 ltac:(by vm_compute) ltac:(by vm_compute)) as Hforced.
  cbv zeta. destruct (settle_kill _ _ 6000) as [[s' calls] acted]. exact (proj1 Hforced).
Defined.
