(* ===== verification/ToastClaims.v ===== *)
(** * ToastClaims: the stack of cards and their windows *)
From S2P Require Export ClientStore.
#[local] Open Scope Z_scope.

(** ** Runs *)

Inductive ToastEvent :=
| ToastRaised (id : ToastId) (msg : string) (kind : ToastKind) (options : ToastOptions) (now_ms : Z)
| ToastDismissed (id : ToastId)
| ToastsDismissed
| ToastActed (id : ToastId)
| ToastsSwept (now_ms : Z)
| ToastHeld (id : ToastId) (now_ms : Z)
| ToastReleased (id : ToastId) (now_ms : Z)
| SessionDropped (session_id : string).

Definition toast_step (s : Store) (event : ToastEvent) : Store :=
  match event with
  | ToastRaised id msg kind options now_ms => add_toast s id msg kind options now_ms
  | ToastDismissed id => fst (dismiss_toast s id)
  | ToastsDismissed => fst (dismiss_all_toasts s)
  | ToastActed id => fst (take_toast_action s id)
  | ToastsSwept now_ms => fst (expire_due_toasts s now_ms)
  | ToastHeld id now_ms => fst (hold_toast_dismiss s id now_ms)
  | ToastReleased id now_ms => fst (release_toast_dismiss s id now_ms)
  | SessionDropped session_id => fst (drop_toasts_for_session s session_id)
  end.

Record stack_ok (c : ToastStack) : Prop := {
  tk_keyed : forall id toast, stack c !! id = Some toast -> toast_id toast = id;
  tk_order : forall id toast, stack c !! id = Some toast -> 0 <= raised_order toast < next_raised_order c;
  tk_distinct : forall id1 id2 t1 t2, stack c !! id1 = Some t1 -> stack c !! id2 = Some t2 ->
    raised_order t1 = raised_order t2 -> id1 = id2;
  tk_next : 0 <= next_raised_order c;
}.

(** Cards that stay keep their place. *)
Lemma stack_ok_sub c c' :
  stack_ok c -> next_raised_order c' = next_raised_order c ->
  (forall id toast', stack c' !! id = Some toast' ->
     exists toast, stack c !! id = Some toast /\ toast_id toast' = toast_id toast /\ raised_order toast' = raised_order toast) ->
  stack_ok c'.
Proof.
  intros [K O D N] Hn Hin. constructor; rewrite ?Hn; [..|done].
  - intros id t E. destruct (Hin _ _ E) as (t0 & E0 & -> & _). by apply K.
  - intros id t E. destruct (Hin _ _ E) as (t0 & E0 & _ & ->). by eapply O.
  - intros id1 id2 t1 t2 E1 E2. destruct (Hin _ _ E1) as (u1 & F1 & _ & ->), (Hin _ _ E2) as (u2 & F2 & _ & ->). by apply D.
Qed.

Lemma stack_ok_subseteq c c' :
  stack_ok c -> next_raised_order c' = next_raised_order c -> stack c' ⊆ stack c -> stack_ok c'.
Proof. intros Hok Hn Hsub. apply (stack_ok_sub c); [done|done|]. intros id t E. exists t. by split_and!; [eapply lookup_weaken|..]. Qed.

Lemma remove_cards_sub c ids :
  next_raised_order (remove_cards c ids) = next_raised_order c /\ stack (remove_cards c ids) ⊆ stack c.
Proof.
  unfold remove_cards. revert c. induction ids as [|id ids IH]; intros c; [done|]. cbn [foldl].
  destruct (IH (remove_card c id)) as [-> Hsub]. split; [done|]. etransitivity; [exact Hsub|]. apply delete_subseteq.
Qed.

Lemma remove_cards_lookup c ids id :
  stack (remove_cards c ids) !! id = if decide (id ∈ ids) then None else stack c !! id.
Proof.
  unfold remove_cards. revert c. induction ids as [|other ids IH]; intros c; [done|]. cbn [foldl]. rewrite IH. cbn [remove_card stack].
  destruct (decide (id ∈ ids)) as [Hin|Hout]; [by rewrite decide_True by set_solver|].
  destruct (decide (id = other)) as [->|Hne].
  - rewrite decide_True by set_solver. apply lookup_delete_eq.
  - rewrite decide_False by set_solver. by apply lookup_delete_ne.
Qed.

Lemma replace_ok c id prior msg kind options now_ms :
  stack_ok c -> stack c !! id = Some prior -> stack_ok (raise_toast c id msg kind options now_ms).
Proof.
  intros [K O D N] E. unfold raise_toast. rewrite E. constructor; cbn [stack next_raised_order]; [..|done].
  - intros id' t. rewrite lookup_insert_Some. intros [[<- <-]|[_ Et]]; [done|by apply K].
  - intros id' t. rewrite lookup_insert_Some. intros [[<- <-]|[_ Et]]; [exact (O id _ E)|exact (O _ _ Et)].
  - intros id1 id2 t1 t2. rewrite !lookup_insert_Some.
    intros [[<- <-]|[_ E1]] [[<- <-]|[_ E2]]; cbn [raised_order];
      [done|by eapply D; [exact E|exact E2]|by eapply D; [exact E1|exact E]|by eapply D].
Qed.

Lemma raise_ok c id msg kind options now_ms :
  stack_ok c -> next_raised_order c + 1 < 2 ^ 64 -> stack_ok (raise_toast c id msg kind options now_ms).
Proof.
  intros Hok Hroom. destruct (stack c !! id) as [prior|] eqn:E; [by apply (replace_ok _ _ prior)|].
  destruct Hok as [K O D N]. unfold raise_toast. rewrite E.
  assert (Hn : u64 (next_raised_order c + 1) = next_raised_order c + 1) by (apply Z.mod_small; lia).
  rewrite Hn. constructor; cbn [stack next_raised_order]; [..|lia].
  - intros id' t. rewrite lookup_insert_Some. intros [[<- <-]|[_ Et]]; [done|by apply K].
  - intros id' t. rewrite lookup_insert_Some. intros [[<- <-]|[_ Et]]; [cbn; lia|]. pose proof (O _ _ Et). lia.
  - intros id1 id2 t1 t2. rewrite !lookup_insert_Some.
    intros [[<- <-]|[_ E1]] [[<- <-]|[_ E2]]; cbn [raised_order]; [done|..|by eapply D].
    + intros Heq. pose proof (O _ _ E2). lia.
    + intros Heq. pose proof (O _ _ E1). lia.
Qed.

Lemma set_card_ok c id prior toast :
  stack_ok c -> stack c !! id = Some prior -> toast_id toast = toast_id prior -> raised_order toast = raised_order prior ->
  stack_ok (set_card c id toast).
Proof.
  intros Hok E Hid Ho. apply (stack_ok_sub c); [done|done|]. intros id' t. cbn [set_card stack]. rewrite lookup_insert_Some.
  intros [[<- <-]|[_ Et]]; [by exists prior|by exists t].
Qed.

Lemma remove_card_ok c id : stack_ok c -> stack_ok (remove_card c id).
Proof. intros Hok. apply (stack_ok_subseteq c); [done|done|apply delete_subseteq]. Qed.

Lemma toast_step_ok s event :
  stack_ok (cards s) -> next_raised_order (cards s) + 1 < 2 ^ 64 ->
  stack_ok (cards (toast_step s event)) /\ next_raised_order (cards (toast_step s event)) <= next_raised_order (cards s) + 1.
Proof.
  intros Hok Hroom. pose proof (tk_next _ Hok) as H0.
  assert (Hcards : forall ids, stack_ok (remove_cards (cards s) ids) /\ next_raised_order (remove_cards (cards s) ids) <= next_raised_order (cards s) + 1).
  { intros ids. destruct (remove_cards_sub (cards s) ids) as [Hn Hsub]. split; [by apply (stack_ok_subseteq (cards s))|lia]. }
  destruct event as [id msg kind options now|id| |id|now|id now|id now|session]; cbn [toast_step].
  - split; [by apply raise_ok|]. cbn. unfold raise_toast. destruct (stack (cards s) !! id); cbn; [lia|].
    unfold wrap. rewrite Z.mod_small; lia.
  - unfold dismiss_toast. destruct (stack (cards s) !! id); cbn [fst]; [|split; [done|lia]].
    split; [by apply remove_card_ok|cbn; lia].
  - unfold dismiss_all_toasts, clear_all. destruct (negb _); cbn [fst];
      (split; [apply (stack_ok_subseteq (cards s)); [done|done|apply map_empty_subseteq]|cbn; lia]).
  - unfold take_toast_action. destruct (stack (cards s) !! id); cbn [fst]; [|split; [done|lia]].
    split; [by apply remove_card_ok|cbn; lia].
  - unfold expire_due_toasts. destruct (due_cards (cards s) now) as [|first rest]; cbn [fst]; [split; [done|lia]|].
    apply (Hcards (first :: rest)).
  - unfold hold_toast_dismiss. destruct (stack (cards s) !! id) as [toast|] eqn:E; [|cbn; split; [done|lia]].
    destruct (held toast), (Toasts.expires_at_ms toast); cbn [fst]; try (split; [done|lia]).
    split; [by apply (set_card_ok _ _ toast)|cbn; lia].
  - unfold release_toast_dismiss. destruct (stack (cards s) !! id) as [toast|] eqn:E; [|cbn; split; [done|lia]].
    destruct (negb (held toast)); [cbn; split; [done|lia]|]. destruct (remaining_ms toast =? 0).
    + unfold dismiss_toast. rewrite E. cbn [fst]. split; [by apply remove_card_ok|cbn; lia].
    + cbn [fst]. split; [by apply (set_card_ok _ _ toast)|cbn; lia].
  - unfold drop_toasts_for_session, remove_toasts_for_session. cbv zeta. destruct (negb _); cbn [fst]; apply Hcards.
Qed.

Lemma toast_run_ok events s :
  stack_ok (cards s) -> next_raised_order (cards s) + len events < 2 ^ 64 -> stack_ok (cards (foldl toast_step s events)).
Proof.
  revert s. induction events as [|event rest IH]; intros s Hok Hroom; [done|]. rewrite len_cons in Hroom.
  pose proof (len_nonneg rest). destruct (toast_step_ok s event Hok ltac:(lia)) as [Hok' Hn]. cbn [foldl]. apply IH; [done|lia].
Qed.

(** The cards shown: each live card once, oldest raise first. *)
Lemma toasts_shown c :
  stack_ok c ->
  StronglySorted (fun a b => raised_order a < raised_order b) (toasts c)
  /\ forall toast, toast ∈ toasts c <-> stack c !! toast_id toast = Some toast.
Proof.
  intros Hok. assert (Hperm : toasts c ≡ₚ snd <$> map_to_list (stack c)) by apply merge_sort_Permutation.
  assert (Hin : forall toast, toast ∈ toasts c <-> stack c !! toast_id toast = Some toast).
  { intros toast. rewrite Hperm, list_elem_of_fmap. split.
    - intros ([id t] & -> & E%elem_of_map_to_list). cbn. by rewrite (tk_keyed _ Hok _ _ E).
    - intros E. exists (toast_id toast, toast). split; [done|by apply elem_of_map_to_list]. }
  split; [|exact Hin].
  assert (Hnd : NoDup (toasts c)).
  { rewrite Hperm. apply (NoDup_fmap_1 toast_id). rewrite <- list_fmap_compose.
    assert (Heq : toast_id ∘ snd <$> map_to_list (stack c) = fst <$> map_to_list (stack c)).
    { apply list_fmap_ext. intros i [id t] Hi. cbn. apply (tk_keyed _ Hok).
      apply elem_of_map_to_list. by eapply list_elem_of_lookup_2. }
    rewrite Heq. apply NoDup_fst_map_to_list. }
  assert (Hsort : StronglySorted raised_le (toasts c)).
  { apply StronglySorted_merge_sort; [intros a b d ? ?; unfold raised_le in *; lia|intros a b; unfold raised_le; lia]. }
  assert (Hall : forall a b, a ∈ toasts c -> b ∈ toasts c -> raised_order a = raised_order b -> a = b).
  { intros a b Ha%Hin Hb%Hin Heq. pose proof (tk_distinct _ Hok _ _ _ _ Ha Hb Heq) as Hid. rewrite Hid in Ha. congruence. }
  clear Hperm Hin. induction Hsort as [|a l Hl IH Hle]; [constructor|]. apply NoDup_cons in Hnd as [Hna Hnd].
  constructor; [apply IH; [done|]; intros x y Hx Hy; apply Hall; set_solver|].
  rewrite Forall_forall in *. intros b Hb. specialize (Hle b Hb). unfold raised_le in Hle.
  destruct (decide (raised_order a = raised_order b)) as [Heq|]; [|lia].
  destruct Hna. rewrite (Hall a b); [done|set_solver|set_solver|done].
Qed.

(** ** Windows *)

Lemma due_cards_spec c now_ms id :
  stack_ok c -> id ∈ due_cards c now_ms <-> exists toast, stack c !! id = Some toast /\ is_due toast now_ms = true.
Proof.
  intros Hok. unfold due_cards. rewrite list_elem_of_fmap. setoid_rewrite list_elem_of_filter. setoid_rewrite list_elem_of_fmap. split.
  - intros (toast & -> & Hdue & ([key t] & -> & E%elem_of_map_to_list)). cbn in *.
    exists t. by rewrite (tk_keyed _ Hok _ _ E).
  - intros (toast & E & Hdue). exists toast. split; [symmetry; by apply (tk_keyed _ Hok)|]. split; [done|].
    exists (id, toast). split; [done|by apply elem_of_map_to_list].
Qed.

Lemma expire_lookup s now_ms id :
  stack_ok (cards s) ->
  stack (cards (fst (expire_due_toasts s now_ms))) !! id
  = match stack (cards s) !! id with
    | Some toast => if is_due toast now_ms then None else Some toast
    | None => None
    end.
Proof.
  intros Hok. unfold expire_due_toasts. pose proof (due_cards_spec (cards s) now_ms id Hok) as Hdue.
  assert (Hlook : stack (remove_cards (cards s) (due_cards (cards s) now_ms)) !! id
                  = match stack (cards s) !! id with Some toast => if is_due toast now_ms then None else Some toast | None => None end).
  { rewrite remove_cards_lookup. destruct (decide (id ∈ _)) as [Hin|Hout].
    - apply Hdue in Hin as (toast & -> & ->). done.
    - destruct (stack (cards s) !! id) as [toast|] eqn:E; [|done]. destruct (is_due toast now_ms) eqn:Ed; [|done].
      destruct Hout. apply Hdue. by exists toast. }
  destruct (due_cards (cards s) now_ms) as [|first rest] eqn:E; cbn [fst]; exact Hlook.
Qed.

(** A held card is never due. *)
Lemma sweeps_keep_held s id toast sweeps :
  stack_ok (cards s) -> stack (cards s) !! id = Some toast -> held toast = true ->
  let s' := foldl (fun s now_ms => fst (expire_due_toasts s now_ms)) s sweeps in
  stack_ok (cards s') /\ stack (cards s') !! id = Some toast.
Proof.
  revert s. induction sweeps as [|now sweeps IH]; intros s Hok E Hh; [done|]. cbn [foldl]. apply IH; [| |done].
  - unfold expire_due_toasts. destruct (due_cards (cards s) now) as [|first rest]; [done|]. cbn [fst].
    destruct (remove_cards_sub (cards s) (first :: rest)) as [Hn Hsub]. by apply (stack_ok_subseteq (cards s)).
  - rewrite expire_lookup, E by done. unfold is_due. by rewrite Hh.
Qed.

(** ** The places of the cards *)

Definition place (toast : Toast) : Z * ToastId := (raised_order toast, toast_id toast).

Definition places (c : ToastStack) : list (Z * ToastId) := place <$> toasts c.

Definition earlier (a b : Z * ToastId) : Prop := fst a < fst b.

#[local] Instance earlier_antisymm : AntiSymm (=) earlier.
Proof. intros a b. unfold earlier. lia. Qed.

Lemma places_sorted c : stack_ok c -> StronglySorted earlier (places c).
Proof.
  intros Hok. destruct (toasts_shown c Hok) as [Hsort _]. unfold places.
  induction Hsort as [|a l _ IH Hle]; [constructor|]. cbn. constructor; [done|]. by apply Forall_fmap.
Qed.

Lemma places_nodup c : stack_ok c -> NoDup (places c).
Proof.
  intros Hok. pose proof (places_sorted c Hok) as Hs. induction Hs as [|a l _ IH Hle]; [constructor|].
  constructor; [|done]. intros Hin. rewrite Forall_forall in Hle. specialize (Hle a Hin). unfold earlier in Hle. lia.
Qed.

Lemma places_spec c order id :
  stack_ok c -> (order, id) ∈ places c <-> exists toast, stack c !! id = Some toast /\ raised_order toast = order.
Proof.
  intros Hok. destruct (toasts_shown c Hok) as [_ Hin]. unfold places. rewrite list_elem_of_fmap. setoid_rewrite Hin. split.
  - intros (toast & [= -> ->] & E). by exists toast.
  - intros (toast & E & <-). exists toast. pose proof (tk_keyed _ Hok _ _ E) as Hid. unfold place. rewrite Hid. by split.
Qed.

Lemma places_ids c c' : places c' = places c -> toast_id <$> toasts c' = toast_id <$> toasts c.
Proof.
  intros E. assert (Hids : forall c, toast_id <$> toasts c = snd <$> places c).
  { intros d. unfold places. by rewrite <- list_fmap_compose. }
  by rewrite !Hids, E.
Qed.

(** ** Claims *)

(** Over every run the stack shows each live card exactly once, in the order
    the cards were first raised, one card to an event: raising an event's card
    again replaces it where it stands. *)
Theorem toast_stack_sound events s :
  cards s = ToastStack_new -> len events < 2 ^ 64 ->
  let c := cards (foldl toast_step s events) in
  StronglySorted (fun a b => raised_order a < raised_order b) (toasts c)
  /\ (forall toast, toast ∈ toasts c <-> stack c !! toast_id toast = Some toast)
  /\ forall id toast msg kind options now_ms, stack c !! id = Some toast ->
       toast_id <$> toasts (raise_toast c id msg kind options now_ms) = toast_id <$> toasts c.
Proof.
  intros Hs Hlen. cbv zeta. set (c := cards (foldl toast_step s events)).
  assert (Hok : stack_ok c).
  { apply toast_run_ok; rewrite Hs; [|cbn; lia]. constructor; cbn; done. }
  destruct (toasts_shown c Hok) as [Hsort Hin]. split_and!; [done|done|].
  intros id toast msg kind options now_ms E.
  pose proof (replace_ok c id toast msg kind options now_ms Hok E) as Hok'.
  apply places_ids, (StronglySorted_unique earlier); [by apply places_sorted|by apply places_sorted|].
  apply NoDup_Permutation; [by apply places_nodup|by apply places_nodup|].
  intros [order other]. rewrite !places_spec by done. unfold raise_toast. rewrite E. cbn [stack].
  destruct (decide (id = other)) as [->|Hne]; [|by rewrite lookup_insert_ne].
  rewrite lookup_insert_eq, E. split; intros (t & [= <-] & <-); by eexists.
Qed.

(** A card that is held does not burn its window.  Held at some instant, it
    outlives every sweep until it is released, and then has exactly the time
    that was left when it was held; a card held with nothing left goes at its
    release. *)
Theorem held_card_keeps_window s id toast deadline held_at sweeps released_at :
  stack_ok (cards s) -> stack (cards s) !! id = Some toast -> held toast = false ->
  Toasts.expires_at_ms toast = Some deadline -> released_at + (deadline - held_at) < 2 ^ 64 ->
  let s1 := fst (hold_toast_dismiss s id held_at) in
  let s2 := foldl (fun s now_ms => fst (expire_due_toasts s now_ms)) s1 sweeps in
  let s3 := fst (release_toast_dismiss s2 id released_at) in
  is_Some (stack (cards s2) !! id)
  /\ (if deadline <=? held_at then stack (cards s3) !! id = None
      else armed_deadline <$> stack (cards s3) !! id = Some (Some (released_at + (deadline - held_at))))
  /\ forall now_ms, is_Some (stack (cards (fst (expire_due_toasts s3 now_ms))) !! id)
       <-> held_at < deadline /\ now_ms < released_at + (deadline - held_at).
Proof.
  intros Hok E Hh Hd Hroom. cbv zeta.
  assert (H1 : hold_toast_dismiss s id held_at
               = (note_change (with_cards s (set_card (cards s) id (hold_card toast deadline held_at))), true)).
  { unfold hold_toast_dismiss. by rewrite E, Hh, Hd. }
  rewrite H1. cbn [fst]. set (s1 := note_change _).
  assert (Hok1 : stack_ok (cards s1)) by by apply (set_card_ok _ _ toast).
  assert (E1 : stack (cards s1) !! id = Some (hold_card toast deadline held_at)) by apply lookup_insert_eq.
  destruct (sweeps_keep_held s1 id _ sweeps Hok1 E1 eq_refl) as [Hok2 E2].
  set (s2 := foldl _ s1 sweeps) in *. split; [by eexists|].
  unfold release_toast_dismiss. rewrite E2. cbn [held hold_card negb remaining_ms]. unfold saturating_sub.
  destruct (Z.leb_spec deadline held_at) as [Hle|Hlt].
  - rewrite (proj2 (Z.eqb_eq (Z.max 0 (deadline - held_at)) 0)) by lia. unfold dismiss_toast. rewrite E2. cbn [fst].
    split; [apply lookup_delete_eq|]. intros now_ms. rewrite expire_lookup by by apply remove_card_ok.
    cbn [cards note_change with_cards remove_card stack]. rewrite lookup_delete_eq. split; [by intros []|lia].
  - rewrite (proj2 (Z.eqb_neq (Z.max 0 (deadline - held_at)) 0)) by lia. cbn [fst cards note_change with_cards].
    set (card := release_card _ _).
    assert (Hcard : Toasts.expires_at_ms card = Some (released_at + (deadline - held_at)) /\ held card = false).
    { unfold card, release_card, hold_card. cbn [Toasts.expires_at_ms remaining_ms held]. unfold saturating_add64, saturating_sub.
      split; [|done]. f_equal. lia. }
    destruct Hcard as [Hx Hh3]. split.
    + cbn [set_card stack]. rewrite lookup_insert_eq. cbn [fmap option_fmap option_map]. unfold armed_deadline. by rewrite Hh3, Hx.
    + intros now_ms. rewrite expire_lookup by (by apply (set_card_ok _ _ (hold_card toast deadline held_at))).
      cbn [cards note_change with_cards set_card stack]. rewrite lookup_insert_eq. unfold is_due. rewrite Hh3, Hx. cbn [negb andb].
      destruct (Z.leb_spec (released_at + (deadline - held_at)) now_ms); split; [by intros []|lia|lia|by eexists].
Qed.

(** Raising a card again does not keep its window.  A card that is not held
    and is raised again by its event, without a window asked for, gets its
    kind's whole window again; one that is held and is raised again to stay
    until dismissed goes at its release. *)
Theorem raising_again_moves_window s id prior msg kind now_ms :
  stack (cards s) !! id = Some prior ->
  (held prior = false ->
     Toasts.expires_at_ms <$> stack (cards (add_toast s id msg kind plain now_ms)) !! id
     = Some (saturating_add64 now_ms <$> default_ttl_ms kind))
  /\ (held prior = true ->
     stack (cards (fst (release_toast_dismiss (add_toast s id msg kind (with_ttl None) now_ms) id now_ms))) !! id = None).
Proof.
  intros E. split; intros Hh.
  - unfold add_toast, raise_toast. rewrite E, Hh. cbn [cards note_change with_cards stack]. by rewrite lookup_insert_eq.
  - unfold release_toast_dismiss, add_toast, raise_toast. rewrite E. cbn [cards note_change with_cards stack ttl_ms with_ttl].
    rewrite lookup_insert_eq. cbn [held remaining_ms]. rewrite Hh. cbn [negb]. rewrite Z.eqb_refl.
    unfold dismiss_toast. cbn [cards note_change with_cards stack]. rewrite lookup_insert_eq. apply lookup_delete_eq.
Qed.

(** ** Witnesses *)

Definition toast_store : Store :=
  mkStore ToastStack_new SpawnLedger_new PendingCloses_new None 0 (DeckState_new 1700000000000) ∅ ∅ 1 0.

Definition card_of (call_id : Z) : ToastId := mkToastId (ToastSource_Rpc call_id) "host".

Definition demo_toasts : list ToastEvent :=
  [ToastRaised (card_of 9) "first" ToastKind_Err plain 0; ToastRaised (card_of 2) "second" ToastKind_Ok plain 100;
   ToastRaised (card_of 5) "third" ToastKind_Warn plain 200; ToastRaised (card_of 9) "again" ToastKind_Err plain 300;
   ToastsSwept 3100].

Lemma toast_stack_sound_witness :
  toast_id <$> toasts (cards (foldl toast_step toast_store demo_toasts)) = [card_of 9; card_of 5]
  /\ StronglySorted (fun a b => raised_order a < raised_order b) (toasts (cards (foldl toast_step toast_store demo_toasts))).
Proof.
  split; [by vm_compute|]. exact (proj1 (toast_stack_sound demo_toasts toast_store eq_refl eq_refl)).
Defined.

Lemma held_card_keeps_window_witness :
  let s := toast_step toast_store (ToastRaised (card_of 9) "first" ToastKind_Err plain 0) in
  let s3 := fst (release_toast_dismiss (fst (hold_toast_dismiss s (card_of 9) 5000)) (card_of 9) 60000) in
  is_Some (stack (cards (fst (expire_due_toasts s3 62999))) !! card_of 9).
Proof.
  set (s := toast_step toast_store (ToastRaised (card_of 9) "first" ToastKind_Err plain 0)).
  assert (Hok : stack_ok (cards s)).
  { apply (toast_run_ok [ToastRaised (card_of 9) "first" ToastKind_Err plain 0] toast_store); [constructor; cbn; done|done]. }
  destruct (held_card_keeps_window s (card_of 9)
              (mkToast (card_of 9) "first" ToastKind_Err None None None (Some 8000) 8000 false 0) 8000 5000 [] 60000)
    as (_ & _ & Hsweep); [done|by vm_compute|done|done|done|].
  apply Hsweep. split; [done|]. cbn. lia.
Defined.

Lemma raising_again_moves_window_witness :
  let s := toast_step toast_store (ToastRaised (card_of 9) "first" ToastKind_Err plain 0) in
  Toasts.expires_at_ms <$> stack (cards (add_toast s (card_of 9) "again" ToastKind_Err plain 7999)) !! card_of 9 = Some (Some 15999).
Proof.
  set (s := toast_step toast_store (ToastRaised (card_of 9) "first" ToastKind_Err plain 0)).
  destruct (raising_again_moves_window s (card_of 9)
              (mkToast (card_of 9) "first" ToastKind_Err None None None (Some 8000) 8000 false 0) "again" ToastKind_Err 7999)
    as [Hagain _]; [by vm_compute|]. cbv zeta. rewrite Hagain by done. by vm_compute.
Defined.
