(* ===== verification/InputRouter.v ===== *)
(** * InputRouter: what a document types, until its fate is known

    Models [src/crates/roost-client-core/src/terminal]: [input.rs],
    [input/outcome_feed.rs], [input/router/mod.rs], [input/router/claim.rs],
    [input/router/settlement.rs] and [input/router/route_loss.rs].  A router is a
    value; a [BTreeMap] of lanes is a [gmap] walked in the order of its keys.
    The observer of a smoke build and the log lines are left out. *)
From S2P Require Export TerminalToken.
#[local] Open Scope Z_scope.

Definition MAX_INPUT_BYTES : Z := 64 * 1024.
Definition MAX_PENDING_INPUTS_PER_SESSION : Z := 200.
Definition MAX_PENDING_INPUT_BYTES_PER_SESSION : Z := 256 * 1024.
Definition MAX_STARTED_INPUTS_PER_SESSION : Z := 8.
Definition HELD_INPUT_ADMISSION_TIMEOUT_MS : Z := 10000.
Definition INPUT_RESULT_TIMEOUT_MS : Z := 10000.
Definition MAX_TERMINAL_INPUT_ROUTE_REVISION : Z := 2 ^ 63 - 1.
Definition INPUT_ROUTE_CHANGED_REASON : string := "terminal input route changed".

(** ** The vocabulary of a batch ([input.rs]) *)

Inductive InputOutcome :=
| Accepted (input_seq written_bytes : Z)
| Rejected (input_seq : Z) (reason : string)
| Ambiguous (input_seq written_bytes : Z) (reason : string).

#[global] Instance InputOutcome_eq_dec : EqDecision InputOutcome.
Proof. solve_decision. Defined.

Definition outcome_seq (outcome : InputOutcome) : Z :=
  match outcome with Accepted seq _ | Rejected seq _ | Ambiguous seq _ _ => seq end.

Definition is_ambiguous (outcome : InputOutcome) : bool :=
  match outcome with Ambiguous _ _ _ => true | _ => false end.

Definition status_name (outcome : InputOutcome) : string :=
  match outcome with Accepted _ _ => "accepted" | Rejected _ _ => "rejected" | Ambiguous _ _ _ => "ambiguous" end.

Record InputRefusal := mkInputRefusal { refusal_reason : string }.

Record TerminalFence := mkTerminalFence { fence_token : TerminalToken }.

Record PendingInput := mkPendingInput {
  input_session : string;
  input_view : option string;
  input_seq : Z;
  input_bytes : list byte;
  fence : option TerminalFence;
  started : bool;
  admitted_at_ms : Z;
  started_at_ms : Z;
}.

Inductive InputPhase := Sending | Holding | Claiming | Blocked | Closed.

#[global] Instance InputPhase_eq_dec : EqDecision InputPhase.
Proof. solve_decision. Defined.

(** ** The claim of an input route ([claim.rs]) *)

Definition ROUTE_CLAIM_TIMEOUT_MS : Z := 8000.
Definition INPUT_HANDOFF_DRAIN_MS : Z := 10000.
Definition FALLBACK_CLAIM_ATTEMPTS : Z := 120.
Definition FALLBACK_CLAIM_RETRY_MS : Z := 250.

Record RouteClaim := mkRouteClaim {
  request_id : string;
  claim_session : string;
  revision : Z;
  claim_token : TerminalToken;
  claim_worker_epoch : string;
  claim_attempt_id : option Z;
  sent_at_ms : Z;
  retried : bool;
}.

Record PromotionHold := mkPromotionHold {
  hold_attempt_id : Z;
  hold_token : TerminalToken;
  held_at_ms : Z;
  claim_sent : bool;
}.

Record FallbackRecovery := mkFallbackRecovery {
  fallback_worker_fp : string;
  fallback_worker_epoch : string;
  attempts : Z;
  next_at_ms : Z;
}.

Record RouteClaimState := mkRouteClaimState {
  required : bool;
  in_flight : option RouteClaim;
  promotion : option PromotionHold;
  fallback : option FallbackRecovery;
  acknowledged_epoch : string;
}.

Definition RouteClaimState_default : RouteClaimState := mkRouteClaimState false None None None EmptyString.

Record InputLane := mkInputLane {
  lane_session : string;
  phase : InputPhase;
  pending : list PendingInput;
  pending_bytes : Z;
  route_epoch : string;
  route_revision : Z;
  route_epoch_token : option TerminalToken;
  ambiguous : list Z;
  claims : RouteClaimState;
}.

Definition InputLane_new (session_id : string) : InputLane :=
  mkInputLane session_id Sending [] 0 EmptyString 0 None [] RouteClaimState_default.

Definition with_phase (l : InputLane) (p : InputPhase) : InputLane :=
  mkInputLane (lane_session l) p (pending l) (pending_bytes l) (route_epoch l) (route_revision l)
    (route_epoch_token l) (ambiguous l) (claims l).

Definition with_pending (l : InputLane) (batches : list PendingInput) (bytes : Z) : InputLane :=
  mkInputLane (lane_session l) (phase l) batches bytes (route_epoch l) (route_revision l)
    (route_epoch_token l) (ambiguous l) (claims l).

Definition with_route (l : InputLane) (epoch : string) (rev : Z) (token : option TerminalToken) : InputLane :=
  mkInputLane (lane_session l) (phase l) (pending l) (pending_bytes l) epoch rev token (ambiguous l) (claims l).

Definition with_ambiguous (l : InputLane) (seqs : list Z) : InputLane :=
  mkInputLane (lane_session l) (phase l) (pending l) (pending_bytes l) (route_epoch l) (route_revision l)
    (route_epoch_token l) seqs (claims l).

Definition with_claims (l : InputLane) (c : RouteClaimState) : InputLane :=
  mkInputLane (lane_session l) (phase l) (pending l) (pending_bytes l) (route_epoch l) (route_revision l)
    (route_epoch_token l) (ambiguous l) c.

Definition with_in_flight (c : RouteClaimState) (claim : option RouteClaim) : RouteClaimState :=
  mkRouteClaimState (required c) claim (promotion c) (fallback c) (acknowledged_epoch c).

(** Nothing claims, promotes or recovers the route any more. *)
Definition without_holds (c : RouteClaimState) : RouteClaimState :=
  mkRouteClaimState (required c) None None None (acknowledged_epoch c).

(** ** The feed of outcomes to the panes ([outcome_feed.rs]) *)

Definition SETTLED_PER_VIEW_CAPACITY : Z := 256.

Inductive ViewAdmission :=
| ViewAdmitted (input_seq : Z)
| ViewRefused (reason : string).

Record InputOutcomeFeed := mkInputOutcomeFeed {
  watched : gmap Z string;
  admissions : gmap string ViewAdmission;
  settled : gmap string (list InputOutcome);
}.

Definition InputOutcomeFeed_new : InputOutcomeFeed := mkInputOutcomeFeed ∅ ∅ ∅.

Definition note_admission (f : InputOutcomeFeed) (view_id : option string)
    (admission : result PendingInput InputRefusal) : InputOutcomeFeed :=
  match view_id with
  | None => f
  | Some view_id =>
      match admission with
      | Ok batch =>
          mkInputOutcomeFeed (<[input_seq batch := view_id]> (watched f))
            (<[view_id := ViewAdmitted (input_seq batch)]> (admissions f)) (settled f)
      | Err refusal =>
          mkInputOutcomeFeed (watched f) (<[view_id := ViewRefused (refusal_reason refusal)]> (admissions f)) (settled f)
      end
  end.

Definition observe_outcome (f : InputOutcomeFeed) (outcome : InputOutcome) : InputOutcomeFeed :=
  match watched f !! outcome_seq outcome with
  | None => f
  | Some view_id =>
      let queue := default [] (settled f !! view_id) in
      let queue := if SETTLED_PER_VIEW_CAPACITY <=? len queue then tail queue else queue in
      mkInputOutcomeFeed (base.delete (outcome_seq outcome) (watched f)) (admissions f)
        (<[view_id := queue ++ [outcome]]> (settled f))
  end.

Definition take_admission (f : InputOutcomeFeed) (view_id : string) : option ViewAdmission * InputOutcomeFeed :=
  (admissions f !! view_id, mkInputOutcomeFeed (watched f) (base.delete view_id (admissions f)) (settled f)).

Definition take_outcomes (f : InputOutcomeFeed) (view_id : string) : list InputOutcome * InputOutcomeFeed :=
  (default [] (settled f !! view_id),
   mkInputOutcomeFeed (watched f) (admissions f) (base.delete view_id (settled f))).

Definition forget_view (f : InputOutcomeFeed) (view_id : string) : InputOutcomeFeed :=
  mkInputOutcomeFeed (base.filter (fun kv => snd kv <> view_id) (watched f))
    (base.delete view_id (admissions f)) (base.delete view_id (settled f)).

(** ** The router ([router/mod.rs]) *)

Record InputRouter := mkInputRouter {
  lanes : gmap string InputLane;
  next_input_seq : Z;
  next_claim_id : Z;
  outcome_feed : InputOutcomeFeed;
}.

Definition InputRouter_new : InputRouter := mkInputRouter ∅ 0 0 InputOutcomeFeed_new.

Definition with_lanes (r : InputRouter) (all : gmap string InputLane) : InputRouter :=
  mkInputRouter all (next_input_seq r) (next_claim_id r) (outcome_feed r).

Definition put_lane (r : InputRouter) (session_id : string) (l : InputLane) : InputRouter :=
  with_lanes r (<[session_id := l]> (lanes r)).

Definition with_feed (r : InputRouter) (f : InputOutcomeFeed) : InputRouter :=
  mkInputRouter (lanes r) (next_input_seq r) (next_claim_id r) f.

(** [InputRouter::lane_mut]: the lane, opened if the session had none. *)
Definition lane_mut (r : InputRouter) (session_id : string) : InputLane :=
  default (InputLane_new session_id) (lanes r !! session_id).

Definition refuse_input (reason : string) : result PendingInput InputRefusal := Err (mkInputRefusal reason).

(** [InputRouter::]admit.  A refused batch leaves the lane it opened. *)
Definition admit_input (r : InputRouter) (session_id : string) (view_id : option string) (bytes : list byte)
    (now_ms : Z) : result PendingInput InputRefusal * InputRouter :=
  let lane := lane_mut r session_id in
  let r := put_lane r session_id lane in
  match phase lane with
  | Closed => (refuse_input "terminal session is closed", r)
  | Blocked => (refuse_input "terminal input route is reconnecting", r)
  | Sending | Holding | Claiming =>
      if MAX_INPUT_BYTES <? len bytes
      then (refuse_input ("input exceeds " +:+ pretty MAX_INPUT_BYTES +:+ " bytes"), r)
      else
        let seq := u64 (next_input_seq r + 1) in
        let r := mkInputRouter (lanes r) seq (next_claim_id r) (outcome_feed r) in
        if bool_decide (bytes = []) then (refuse_input "input batch is empty", r)
        else
          let batch := mkPendingInput session_id view_id seq bytes None false now_ms 0 in
          if (MAX_PENDING_INPUTS_PER_SESSION <=? len (pending lane))
             || (MAX_PENDING_INPUT_BYTES_PER_SESSION <? pending_bytes lane + len bytes)
          then (refuse_input ("terminal input lane is full (" +:+ pretty MAX_PENDING_INPUTS_PER_SESSION
                        +:+ " batches, " +:+ pretty MAX_PENDING_INPUT_BYTES_PER_SESSION +:+ " bytes)"), r)
          else (Ok batch, put_lane r session_id
                            (with_pending lane (pending lane ++ [batch]) (pending_bytes lane + len bytes)))
  end.

(** [InputRouter::route_epoch_for]: an epoch counts on its connection alone. *)
Definition route_epoch_for (r : InputRouter) (session_id : string) (token : TerminalToken) : string :=
  match lanes r !! session_id with
  | Some lane =>
      match route_epoch_token lane with
      | Some acknowledged => if same_connection acknowledged token then route_epoch lane else EmptyString
      | None => EmptyString
      end
  | None => EmptyString
  end.

Definition is_blocked (r : InputRouter) (session_id : string) : bool :=
  match lanes r !! session_id with Some lane => bool_decide (phase lane = Blocked) | None => false end.

Definition install_route_epoch (r : InputRouter) (session_id : string) (token : TerminalToken) (epoch : string)
    (rev : Z) : InputRouter * bool :=
  if (rev =? 0) || (MAX_TERMINAL_INPUT_ROUTE_REVISION <? rev) then (r, false)
  else
    let lane := lane_mut r session_id in
    if rev <? route_revision lane then (put_lane r session_id lane, false)
    else (put_lane r session_id (with_route lane epoch rev (Some token)), true).

(** ** Settling ([router/settlement.rs]) *)

(** The batch of a sequence, with its place. *)
Definition find_input (batches : list PendingInput) (seq : Z) : option (nat * PendingInput) :=
  list_find (fun batch => input_seq batch = seq) batches.

Definition settle_in (l : InputLane) (seq : Z) : option InputLane :=
  match find_input (pending l) seq with
  | None => None
  | Some (position, batch) =>
      Some (with_pending l (base.delete position (pending l)) (saturating_sub (pending_bytes l) (len (input_bytes batch))))
  end.

(** The feed part of [InputRouter::observe_settled]. *)
Definition observe_settled (r : InputRouter) (outcomes : list InputOutcome) : InputRouter :=
  with_feed r (foldl observe_outcome (outcome_feed r) outcomes).

(** [values_mut().any(..)]: the first lane, in the order of the keys, that
    settles it. *)
Fixpoint settle_first (all : list (string * InputLane)) (seq : Z) : option (string * InputLane) :=
  match all with
  | [] => None
  | (session_id, lane) :: rest =>
      match settle_in lane seq with
      | Some lane => Some (session_id, lane)
      | None => settle_first rest seq
      end
  end.

Definition settle (r : InputRouter) (seq : Z) (outcome : InputOutcome) : InputRouter * bool :=
  if negb (outcome_seq outcome =? seq) then (r, false)
  else
    match settle_first (bindings (lanes r)) seq with
    | None => (r, false)
    | Some (session_id, lane) => (observe_settled (put_lane r session_id lane) [outcome], true)
    end.

(** Whether a batch was handed to a carrier this test names. *)
Definition carried_by (test : TerminalToken -> bool) (batch : PendingInput) : bool :=
  match fence batch with Some f => test (fence_token f) | None => false end.

Definition settle_from (r : InputRouter) (session_id : string) (token : TerminalToken) (seq : Z)
    (outcome : InputOutcome) : InputRouter * bool :=
  if negb (outcome_seq outcome =? seq) then (r, false)
  else
    match lanes r !! session_id with
    | None => (r, false)
    | Some lane =>
        match find_input (pending lane) seq with
        | Some (_, batch) =>
            if carried_by (fun fenced => bool_decide (fenced = token)) batch
            then match settle_in lane seq with
                 | Some lane => (observe_settled (put_lane r session_id lane) [outcome], true)
                 | None => (r, false)
                 end
            else (r, false)
        | None => (r, false)
        end
    end.

(** The loop a sweep ends with: one outcome for each sequence. *)
Definition settle_all (r : InputRouter) (seqs : list Z) (outcome : Z -> InputOutcome) :
    InputRouter * list InputOutcome :=
  (foldl (fun r seq => fst (settle r seq (outcome seq))) r seqs, outcome <$> seqs).

(** A lane whose unsent batches wait for a route, not for a slot. *)
Definition waits_for_route (l : InputLane) : bool :=
  negb (bool_decide (phase l = Sending)) || negb (existsb started (pending l)).

Definition held_too_long (now_ms : Z) (batch : PendingInput) : bool :=
  negb (started batch) && (HELD_INPUT_ADMISSION_TIMEOUT_MS <=? saturating_sub now_ms (admitted_at_ms batch)).

Definition sweep_held (r : InputRouter) (now_ms : Z) : InputRouter * list InputOutcome :=
  settle_all r
    (input_seq <$> (List.filter waits_for_route (values (lanes r)) ≫= fun l => List.filter (held_too_long now_ms) (pending l)))
    (fun seq => Rejected seq "terminal input route is reconnecting").

Definition unanswered (now_ms : Z) (batch : PendingInput) : bool :=
  started batch && (INPUT_RESULT_TIMEOUT_MS <=? saturating_sub now_ms (started_at_ms batch)).

Definition sweep_unanswered (r : InputRouter) (now_ms : Z) : InputRouter * list InputOutcome :=
  settle_all r
    (input_seq <$> (values (lanes r) ≫= fun l => List.filter (unanswered now_ms) (pending l)))
    (fun seq => Ambiguous seq 0 "input result timed out; the batch will not be retried").

(** What a carrier's retirement says of one batch it was handed. *)
Definition retirement (reason : string) (seq : Z) (was_started : bool) : InputOutcome :=
  if was_started
  then Ambiguous seq 0 (reason +:+ " after input was sent; the batch will not be retried")
  else Rejected seq (reason +:+ " before input was sent").

(** One batch of a lane a retirement walks. *)
Definition retire_one (reason : string) (acc : InputLane * list InputOutcome) (batch : Z * bool) :
    InputLane * list InputOutcome :=
  let '(lane, outcomes) := acc in
  let outcome := retirement reason (fst batch) (snd batch) in
  match settle_in lane (fst batch) with
  | None => acc
  | Some lane =>
      ((if is_ambiguous outcome then with_ambiguous lane (ambiguous lane ++ [fst batch]) else lane),
       outcomes ++ [outcome])
  end.

Definition retire_lane (retired : TerminalToken -> bool) (reason : string) (lane : InputLane) :
    InputLane * list InputOutcome :=
  foldl (retire_one reason) (lane, [])
    ((fun batch => (input_seq batch, started batch)) <$> List.filter (carried_by retired) (pending lane)).

(** Lanes are retired one by one; none reads another. *)
Definition retire_fenced (r : InputRouter) (retired : TerminalToken -> bool) (reason : string) :
    InputRouter * list InputOutcome :=
  let outcomes := values (lanes r) ≫= fun lane => snd (retire_lane retired reason lane) in
  (observe_settled (with_lanes r ((fun lane => fst (retire_lane retired reason lane)) <$> lanes r)) outcomes, outcomes).

Definition retire_token (r : InputRouter) (token : TerminalToken) (reason : string) :
    InputRouter * list InputOutcome :=
  retire_fenced r (fun fenced => bool_decide (fenced = token)) reason.

(** Carried by the Sync socket of one generation, whatever its domain. *)
Definition on_sync_socket (generation : Z) (token : TerminalToken) : bool :=
  bool_decide (transport token = Sync) && (socket_generation token =? generation).

Definition retire_sync_generation (r : InputRouter) (generation : Z) (reason : string) :
    InputRouter * list InputOutcome :=
  retire_fenced r (on_sync_socket generation) reason.

(** ** Phases, hand-over and the window ([router/mod.rs]) *)

(** The walk of [refuse_unstarted] over the sequences it found. *)
Definition refuse_one (reason : string) (acc : InputLane * list InputOutcome) (seq : Z) :
    InputLane * list InputOutcome :=
  let '(lane, outcomes) := acc in
  match settle_in lane seq with
  | Some lane => (lane, outcomes ++ [Rejected seq reason])
  | None => acc
  end.

Definition refuse_unstarted (r : InputRouter) (session_id : string) (reason : string) :
    InputRouter * list InputOutcome :=
  match lanes r !! session_id with
  | None => (r, [])
  | Some lane =>
      let '(lane, outcomes) :=
        foldl (refuse_one reason) (lane, []) (input_seq <$> List.filter (fun batch => negb (started batch)) (pending lane)) in
      (observe_settled (put_lane r session_id lane) outcomes, outcomes)
  end.

Definition set_phase (r : InputRouter) (session_id : string) (p : InputPhase) : InputRouter * list InputOutcome :=
  let r := put_lane r session_id (with_phase (lane_mut r session_id) p) in
  match p with
  | Closed => refuse_unstarted r session_id "terminal session is closed"
  | Blocked => refuse_unstarted r session_id "terminal input route is reconnecting"
  | Sending | Holding | Claiming => (r, [])
  end.

(** A batch on its way out on [token]; a batch that was started keeps its timer. *)
Definition start_batch (token : TerminalToken) (now_ms : Z) (batch : PendingInput) : PendingInput :=
  mkPendingInput (input_session batch) (input_view batch) (input_seq batch) (input_bytes batch)
    (Some (mkTerminalFence token)) true (admitted_at_ms batch)
    (if started batch then started_at_ms batch else now_ms).

(** A batch put back unsent. *)
Definition unstart_batch (batch : PendingInput) : PendingInput :=
  mkPendingInput (input_session batch) (input_view batch) (input_seq batch) (input_bytes batch)
    None false (admitted_at_ms batch) 0.

(** The first batch of a sequence, updated in place. *)
Definition update_input (change : PendingInput -> PendingInput) (l : InputLane) (seq : Z) : option InputLane :=
  match find_input (pending l) seq with
  | None => None
  | Some (position, batch) => Some (with_pending l (<[position := change batch]> (pending l)) (pending_bytes l))
  end.

Fixpoint update_first (change : PendingInput -> PendingInput) (all : list (string * InputLane)) (seq : Z) :
    option (string * InputLane) :=
  match all with
  | [] => None
  | (session_id, lane) :: rest =>
      match update_input change lane seq with
      | Some lane => Some (session_id, lane)
      | None => update_first change rest seq
      end
  end.

Definition mark_started (r : InputRouter) (seq : Z) (token : TerminalToken) (now_ms : Z) : InputRouter * bool :=
  match update_first (start_batch token now_ms) (bindings (lanes r)) seq with
  | None => (r, false)
  | Some (session_id, lane) => (put_lane r session_id lane, true)
  end.

Definition outstanding (r : InputRouter) (session_id : string) : list PendingInput :=
  match lanes r !! session_id with Some lane => pending lane | None => [] end.

Definition unsent (l : InputLane) : list PendingInput := List.filter (fun batch => negb (started batch)) (pending l).

Definition startable (r : InputRouter) (session_id : string) : list PendingInput :=
  match lanes r !! session_id with
  | Some lane =>
      if bool_decide (phase lane = Sending)
      then take (Z.to_nat (saturating_sub MAX_STARTED_INPUTS_PER_SESSION (len (List.filter started (pending lane)))))
             (unsent lane)
      else []
  | None => []
  end.

Definition queued_sessions (r : InputRouter) : list string :=
  lane_session <$> List.filter (fun lane => bool_decide (phase lane = Sending) && existsb (fun batch => negb (started batch)) (pending lane))
                     (values (lanes r)).

Definition has_ambiguity (r : InputRouter) (session_id : string) : bool :=
  match lanes r !! session_id with Some lane => negb (bool_decide (ambiguous lane = [])) | None => false end.

(** ** Claims ([router/claim.rs]) *)

Definition is_holding (r : InputRouter) (session_id : string) : bool :=
  match lanes r !! session_id with
  | Some lane => match phase lane with Holding | Claiming => true | _ => false end
  | None => false
  end.

Definition claim_state (r : InputRouter) (session_id : string) : option RouteClaimState :=
  claims <$> lanes r !! session_id.

Definition hold_for_promotion (r : InputRouter) (session_id : string) (attempt_id : Z) (token : TerminalToken)
    (now_ms : Z) : InputRouter :=
  let lane := lane_mut r session_id in
  if bool_decide (phase lane = Closed) then put_lane r session_id lane
  else
    let c := claims lane in
    put_lane r session_id
      (with_claims (with_phase lane Holding)
         (mkRouteClaimState (required c) None (Some (mkPromotionHold attempt_id token now_ms false)) None
            (acknowledged_epoch c))).

Definition begin_fallback (r : InputRouter) (session_id worker_fp worker_epoch : string) (now_ms : Z) : InputRouter :=
  let lane := lane_mut r session_id in
  if bool_decide (phase lane = Closed) then put_lane r session_id lane
  else
    let c := claims lane in
    put_lane r session_id
      (with_claims (with_phase lane Holding)
         (mkRouteClaimState (required c) None None (Some (mkFallbackRecovery worker_fp worker_epoch 0 now_ms))
            (acknowledged_epoch c))).

Definition has_unsettled_on (r : InputRouter) (session_id : string) (token : TerminalToken) : bool :=
  existsb (fun batch => started batch && carried_by (fun fenced => bool_decide (fenced = token)) batch)
    (outstanding r session_id).

(** The next claim's request id, and the count it is made of. *)
Definition mint_request (r : InputRouter) : string * InputRouter :=
  let id := u64 (next_claim_id r + 1) in
  (("route-claim-" +:+ pretty id)%string, mkInputRouter (lanes r) (next_input_seq r) id (outcome_feed r)).

(** The hold of a promotion, its claim sent. *)
Definition mark_claim_sent (h : PromotionHold) : PromotionHold :=
  mkPromotionHold (hold_attempt_id h) (hold_token h) (held_at_ms h) true.

Definition begin_route_claim (r : InputRouter) (session_id : string) (token : TerminalToken) (worker_epoch : string)
    (attempt_id : option Z) (now_ms : Z) : result RouteClaim string * InputRouter :=
  let '(request, r) := mint_request r in
  let lane := lane_mut r session_id in
  let c := claims lane in
  let lane := with_route lane EmptyString (route_revision lane) None in
  if MAX_TERMINAL_INPUT_ROUTE_REVISION <=? route_revision lane then
    (Err "terminal input route revision exhausted",
     put_lane r session_id
       (with_claims (with_phase lane Blocked)
          (mkRouteClaimState true (in_flight c) (promotion c) (fallback c) (acknowledged_epoch c))))
  else
    let rev := route_revision lane + 1 in
    let claim := mkRouteClaim request session_id rev token worker_epoch attempt_id now_ms false in
    (Ok claim,
     put_lane r session_id
       (with_claims (with_phase (with_route lane EmptyString rev None) Claiming)
          (mkRouteClaimState true (Some claim) (mark_claim_sent <$> promotion c) (fallback c) (acknowledged_epoch c)))).

(** [crate::sync::inbound::InputRouteResult]: a worker's answer to a claim. *)
Record InputRouteResult := mkInputRouteResult {
  result_session : string;
  result_request_id : string;
  result_revision : Z;
  result_worker_epoch : string;
  result_accepted : bool;
  input_route_epoch : string;
  result_reason : string;
  latest_revision : Z;
}.

Inductive ClaimSettlement :=
| ClaimAccepted (claim : RouteClaim)
| ClaimRetry (claim : RouteClaim)
| ClaimRefused (claim : RouteClaim) (reason : string).

Definition non_empty_or (value other : string) : string := if bool_decide (value = EmptyString) then other else value.

(** Whether an answer is the one the claim in flight waits for. *)
Definition answers_claim (token : TerminalToken) (answer : InputRouteResult) (claim : RouteClaim) : bool :=
  bool_decide (request_id claim = result_request_id answer) && same_connection (claim_token claim) token.

(** The lane of a claim that was taken and refused. *)
Definition end_claim (l : InputLane) : InputLane :=
  with_phase (with_claims l (with_in_flight (claims l) None)) Holding.

(** A claim issued again, above the latest revision of the worker. *)
Definition retry_claim (claim : RouteClaim) (request : string) (rev now_ms : Z) : RouteClaim :=
  mkRouteClaim request (claim_session claim) rev (claim_token claim) (claim_worker_epoch claim)
    (claim_attempt_id claim) now_ms true.

Definition settle_route_claim (r : InputRouter) (token : TerminalToken) (answer : InputRouteResult) (now_ms : Z) :
    InputRouter * option ClaimSettlement :=
  let session_id := result_session answer in
  match lanes r !! session_id with
  | None => (r, None)
  | Some lane =>
      match in_flight (claims lane) with
      | None => (r, None)
      | Some claim =>
          if negb (answers_claim token answer claim) then (r, None)
          else if negb (result_revision answer =? revision claim)
                  || negb (bool_decide (result_worker_epoch answer = claim_worker_epoch claim)) then
            (put_lane r session_id (end_claim lane),
             Some (ClaimRefused claim "terminal input route claim response was invalid"))
          else if result_accepted answer && negb (bool_decide (input_route_epoch answer = EmptyString)) then
            let lane := end_claim lane in
            let c := claims lane in
            (put_lane r session_id
               (with_claims (with_route lane (input_route_epoch answer) (route_revision lane) (Some (claim_token claim)))
                  (mkRouteClaimState (required c) (in_flight c) (promotion c) (fallback c) (claim_worker_epoch claim))),
             Some (ClaimAccepted claim))
          else
            let stale := bool_decide (result_reason answer = "stale_route_revision") && negb (retried claim) in
            if negb stale || (latest_revision answer <? revision claim)
               || (MAX_TERMINAL_INPUT_ROUTE_REVISION <=? latest_revision answer) then
              (put_lane r session_id (end_claim lane),
               Some (ClaimRefused claim
                       (if stale then "terminal input route revision is unavailable"
                        else non_empty_or (result_reason answer) "terminal input route claim was rejected")))
            else
              let rev := latest_revision answer + 1 in
              let '(request, r) := mint_request r in
              let again := retry_claim claim request rev now_ms in
              (put_lane r session_id
                 (with_claims (with_route lane (route_epoch lane) rev (route_epoch_token lane))
                    (with_in_flight (claims lane) (Some again))),
               Some (ClaimRetry again))
      end
  end.

(** [InputRouter::take_claims]: every claim in flight that ends, taken. *)
Definition takes_claim (ended : RouteClaim -> bool) (l : InputLane) : option RouteClaim :=
  match in_flight (claims l) with Some claim => if ended claim then Some claim else None | None => None end.

Definition take_claims (r : InputRouter) (ended : RouteClaim -> bool) : InputRouter * list RouteClaim :=
  (with_lanes r ((fun lane => if takes_claim ended lane then end_claim lane else lane) <$> lanes r),
   omap (takes_claim ended) (values (lanes r))).

Definition expire_route_claims (r : InputRouter) (now_ms : Z) : InputRouter * list RouteClaim :=
  take_claims r (fun claim => ROUTE_CLAIM_TIMEOUT_MS <=? saturating_sub now_ms (sent_at_ms claim)).

Definition reject_sync_claims (r : InputRouter) (generation : Z) : InputRouter * list RouteClaim :=
  take_claims r (fun claim => on_sync_socket generation (claim_token claim)).

Definition release_held (r : InputRouter) (session_id : string) : InputRouter * list PendingInput :=
  match lanes r !! session_id with
  | None => (r, [])
  | Some lane =>
      if bool_decide (phase lane = Closed) then (r, [])
      else (put_lane r session_id (with_claims (with_phase lane Sending) (without_holds (claims lane))), unsent lane)
  end.

Definition block_route (r : InputRouter) (session_id : string) : InputRouter * list InputOutcome :=
  match lanes r !! session_id with
  | None => (r, [])
  | Some lane =>
      if bool_decide (phase lane = Closed) then (r, [])
      else set_phase (put_lane r session_id (with_claims lane (without_holds (claims lane)))) session_id Blocked
  end.

Definition defer_fallback (r : InputRouter) (session_id : string) (now_ms : Z) : InputRouter * bool :=
  match lanes r !! session_id with
  | None => (r, false)
  | Some lane =>
      let c := claims lane in
      match fallback c with
      | None => (r, false)
      | Some f =>
          let tried := u32 (attempts f + 1) in
          let next := mkFallbackRecovery (fallback_worker_fp f) (fallback_worker_epoch f) tried
                        (saturating_add64 now_ms FALLBACK_CLAIM_RETRY_MS) in
          let keeps := tried <? FALLBACK_CLAIM_ATTEMPTS in
          (put_lane r session_id
             (with_claims lane
                (mkRouteClaimState (required c) (in_flight c) (promotion c) (if keeps then Some next else None)
                   (acknowledged_epoch c))),
           keeps)
      end
  end.

Definition due_fallbacks (r : InputRouter) (now_ms : Z) : list (string * FallbackRecovery) :=
  omap (fun '(session_id, lane) =>
          match fallback (claims lane), in_flight (claims lane) with
          | Some f, None => if next_at_ms f <=? now_ms then Some (session_id, f) else None
          | _, _ => None
          end) (bindings (lanes r)).

Definition held_promotions (r : InputRouter) : list (string * PromotionHold) :=
  omap (fun '(session_id, lane) => (fun hold => (session_id, hold)) <$> promotion (claims lane)) (bindings (lanes r)).

(** ** A route the worker no longer honours ([router/route_loss.rs]) *)

(** The outcomes of the batches it refuses are dropped by the source too; the
    feed has observed them. *)
Definition forget_route (r : InputRouter) (session_id : string) : InputRouter :=
  let r := match lanes r !! session_id with
           | Some lane => put_lane r session_id (with_route lane EmptyString (route_revision lane) None)
           | None => r
           end in
  fst (set_phase r session_id Blocked).

Definition routed_on_socket (generation : Z) (l : InputLane) : bool :=
  bool_decide (phase l = Sending)
  && match route_epoch_token l with Some token => on_sync_socket generation token | None => false end.

Definition block_routes_on_sync_socket (r : InputRouter) (generation : Z) : InputRouter * list string :=
  let blocked := fst <$> List.filter (fun kv => routed_on_socket generation (snd kv)) (bindings (lanes r)) in
  (foldl forget_route r blocked, blocked).

(** A batch the Sync socket carries, started. *)
Definition started_on_sync (seq : Z) (batch : PendingInput) : bool :=
  (input_seq batch =? seq) && started batch && carried_by (fun fenced => bool_decide (transport fenced = Sync)) batch.

Definition requeue_moved_sync_batch (r : InputRouter) (session_id : string) (seq : Z) : InputRouter * bool :=
  match lanes r !! session_id with
  | None => (r, false)
  | Some lane =>
      let routed_direct :=
        match route_epoch_token lane with Some token => negb (bool_decide (transport token = Sync)) | None => false end in
      if routed_direct || negb (existsb (started_on_sync seq) (pending lane)) || bool_decide (phase lane = Closed)
      then (r, false)
      else
        let r := if bool_decide (phase lane = Sending) then forget_route r session_id else r in
        match lanes r !! session_id with
        | None => (r, false)
        | Some lane =>
            match update_input unstart_batch lane seq with
            | None => (r, false)
            | Some lane => (put_lane r session_id lane, true)
            end
        end
  end.

Definition acknowledged_worker_epoch (r : InputRouter) (session_id : string) : string :=
  match lanes r !! session_id with Some lane => acknowledged_epoch (claims lane) | None => EmptyString end.
