(* ===== verification/InputDispatch.v ===== *)
(** * InputDispatch: the path of a keystroke through a client

    Models [src/crates/roost-client-core/src]: [handle_input.rs],
    [handle_sync/promotion.rs], [handle_sync/promotion/deadlines.rs], and the
    input parts of [handle_sync.rs], [handle_sync/lifecycle.rs] and
    [handle_sweep/mod.rs].  The rest of the client's store is behind the class
    [InputHost]: what the path reads of it, and the calls it makes into it.
    [out], the list of effects a handler appends to, is threaded with the
    store. *)
From S2P Require Export InputRouter.
#[local] Open Scope Z_scope.

(** ** What the path sees of the rest of the store *)

(** [DirectGrant], as far as it is read here. *)
Record LiveGrant := mkLiveGrant { grant_worker_epoch : string; input_route_supported : bool }.

(** The reads are the source's: the elected route of a session, its replica's
    generation, worker and wire ids, its worker in the session plane, the Sync
    socket and its terminal domain, a worker's grant, and the staged candidate.
    The calls are the promotion's commit and cancellation, and the loss of an
    elected route, and the close of a Sync link, which says whether the link
    was the client's; what they send is theirs. *)
Class InputHost (Rest : Type) := mkInputHost {
  has_route : Rest -> string -> bool;
  replica_generation : Rest -> string -> option TerminalToken;
  replica_worker_fp : Rest -> string -> option string;
  replica_wire_view_id : Rest -> string -> string -> option string;
  session_worker_fp : Rest -> string -> option string;
  sync_terminal_token : Rest -> option TerminalToken;
  terminal_domain_is_ready : Rest -> bool;
  live_grant : Rest -> string -> Z -> option LiveGrant;
  staged_attempt : Rest -> string -> option Z;
  promotable : Rest -> string -> Z -> TerminalToken -> bool;
  promote_and_commit : Rest -> string -> Z -> TerminalToken -> Z -> Rest;
  cancel_staged_candidate : Rest -> string -> string -> Rest;
  drop_route : Rest -> string -> TerminalToken -> Rest;
  recover_views : Rest -> string -> TerminalToken -> Rest;
  close_link : Rest -> Z -> Rest * bool;
}.

(** ** Effects ([effect.rs]) *)

Inductive InputEffect :=
| SendSyncInput (session_id : string) (view_id : option string) (input_seq : Z) (bytes : list byte)
    (input_route_epoch : string) (token : TerminalToken)
| SendDirectInput (token : TerminalToken) (session_id : string) (view_id : option string) (input_seq : Z)
    (bytes : list byte) (input_route_epoch : string)
| SendSyncClaim (session_id request_id : string) (revision : Z) (worker_epoch : string) (token : TerminalToken)
| SendDirectClaim (token : TerminalToken) (session_id request_id : string) (revision : Z) (worker_epoch : string)
    (domain_generation : Z).

Section Dispatch.
Context {Rest : Type} `{InputHost Rest}.

Record InputStore := mkInputStore { input : InputRouter; rest : Rest; input_revision : Z }.

(** A store and the effects of the handler that runs. *)
Definition Handler : Type := InputStore * list InputEffect.

Definition with_input (s : InputStore) (r : InputRouter) : InputStore := mkInputStore r (rest s) (input_revision s).

Definition with_rest (s : InputStore) (w : Rest) : InputStore := mkInputStore (input s) w (input_revision s).

Definition note_change (s : InputStore) : InputStore := mkInputStore (input s) (rest s) (u64 (input_revision s + 1)).

(** ** Hand-over ([handle_input.rs]) *)

Definition input_destination (s : InputStore) (session_id : string) : option TerminalToken :=
  match replica_generation (rest s) session_id with
  | Some token => Some token
  | None => sync_terminal_token (rest s)
  end.

Definition input_effect (s : InputStore) (admitted : PendingInput) (token : TerminalToken) : InputEffect :=
  let session_id := input_session admitted in
  let view := input_view admitted ≫= replica_wire_view_id (rest s) session_id in
  let epoch := route_epoch_for (input s) session_id token in
  if bool_decide (transport token = Sync)
  then SendSyncInput session_id view (input_seq admitted) (input_bytes admitted) epoch token
  else SendDirectInput token session_id view (input_seq admitted) (input_bytes admitted) epoch.

Definition dispatch_batch (h : Handler) (admitted : PendingInput) (token : TerminalToken) (now_ms : Z) : Handler :=
  let '(s, out) := h in
  (with_input s (fst (mark_started (input s) (input_seq admitted) token now_ms)),
   out ++ [input_effect s admitted token]).

Definition dispatch_startable (h : Handler) (session_id : string) (token : TerminalToken) (now_ms : Z) : Handler :=
  foldl (fun h batch => dispatch_batch h batch token now_ms) h (startable (input (fst h)) session_id).

Definition settle_as_unsent (s : InputStore) (session_id : string) (seq : Z) (reason : string) : InputStore :=
  note_change (with_input s (fst (settle (input s) seq (Rejected seq reason)))).

Definition send_queued_input (h : Handler) (session_id : string) (now_ms : Z) : Handler :=
  let '(s, out) := h in
  if is_holding (input s) session_id then h
  else match input_destination s session_id with
       | Some token => dispatch_startable h session_id token now_ms
       | None => h
       end.

(** The worker of a session: its replica's, when it names one, or the plane's. *)
Definition worker_of (s : InputStore) (session_id : string) : option string :=
  match replica_worker_fp (rest s) session_id with
  | Some worker_fp => if bool_decide (worker_fp = EmptyString) then session_worker_fp (rest s) session_id else Some worker_fp
  | None => session_worker_fp (rest s) session_id
  end.

Definition reclaim_lost_route (s : InputStore) (session_id : string) (now_ms : Z) : InputStore * bool :=
  if negb (is_blocked (input s) session_id) || has_route (rest s) session_id then (s, false)
  else
    match worker_of s session_id with
    | None => (s, false)
    | Some worker_fp =>
        let epoch := acknowledged_worker_epoch (input s) session_id in
        (note_change (with_input s (begin_fallback (input s) session_id worker_fp epoch now_ms)), true)
    end.

(** ** Claims ([promotion.rs]) *)

Definition claim_effect (claim : RouteClaim) : InputEffect :=
  let token := claim_token claim in
  if bool_decide (transport token = Sync)
  then SendSyncClaim (claim_session claim) (request_id claim) (revision claim) (claim_worker_epoch claim) token
  else SendDirectClaim token (claim_session claim) (request_id claim) (revision claim) (claim_worker_epoch claim)
         (domain_generation token).

Definition claims_input_route (s : InputStore) (candidate : TerminalToken) (now_ms : Z) : bool :=
  match token_worker_fp candidate ≫= fun worker_fp => live_grant (rest s) worker_fp now_ms with
  | Some grant => input_route_supported grant
  | None => bool_decide (transport candidate = Peer)
  end.

Definition block_lane (s : InputStore) (session_id : string) : InputStore :=
  note_change (with_input s (fst (block_route (input s) session_id))).

Definition claim_required (s : InputStore) (session_id : string) : bool :=
  match claim_state (input s) session_id with Some c => required c | None => false end.

Definition release_held_onto (h : Handler) (session_id : string) (route : TerminalToken) (now_ms : Z) : Handler :=
  let '(s, out) := h in
  if claim_required s session_id && bool_decide (route_epoch_for (input s) session_id route = EmptyString)
  then (block_lane s session_id, out)
  else dispatch_startable (with_input s (fst (release_held (input s) session_id)), out) session_id route now_ms.

Definition defer_or_block_fallback (s : InputStore) (session_id : string) (now_ms : Z) : InputStore :=
  let '(r, keeps) := defer_fallback (input s) session_id now_ms in
  if keeps then with_input s r else block_lane (with_input s r) session_id.

Definition promotion_of (s : InputStore) (session_id : string) : option PromotionHold :=
  claim_state (input s) session_id ≫= promotion.

Definition is_staged (s : InputStore) (session_id : string) (attempt_id : Z) : bool :=
  bool_decide (staged_attempt (rest s) session_id = Some attempt_id).

Definition abandon_promotion (h : Handler) (session_id reason : string) (now_ms : Z) : Handler :=
  let '(s, out) := h in
  match promotion_of s session_id with
  | None => h
  | Some hold =>
      let s := if is_staged s session_id (hold_attempt_id hold)
               then with_rest s (cancel_staged_candidate (rest s) session_id reason) else s in
      match (if claim_sent hold then token_worker_fp (hold_token hold) else None) with
      | Some worker_fp =>
          (with_input s (begin_fallback (input s) session_id worker_fp (process_epoch (hold_token hold)) now_ms), out)
      | None =>
          match input_destination s session_id with
          | Some current => release_held_onto (s, out) session_id current now_ms
          | None => (block_lane s session_id, out)
          end
      end
  end.

(** Whether a batch handed to the route in charge is still unanswered. *)
Definition old_route_drains (s : InputStore) (session_id : string) : bool :=
  match replica_generation (rest s) session_id with
  | Some old_route => has_unsettled_on (input s) session_id old_route
  | None => false
  end.

(** From the hold on: wait out the old route, then claim. *)
Definition drain_then_claim (h : Handler) (session_id : string) (attempt_id : Z) (candidate : TerminalToken)
    (held_at now_ms : Z) : Handler :=
  let '(s, out) := h in
  if old_route_drains s session_id then
    if INPUT_HANDOFF_DRAIN_MS <=? saturating_sub now_ms held_at
    then abandon_promotion h session_id "terminal input route did not drain before the promotion deadline" now_ms
    else h
  else
    match begin_route_claim (input s) session_id candidate (process_epoch candidate) (Some attempt_id) now_ms with
    | (Ok claim, r) => (with_input s r, out ++ [claim_effect claim])
    | (Err reason, r) => abandon_promotion (with_input s r, out) session_id reason now_ms
    end.

Definition commit_candidate (s : InputStore) (session_id : string) (attempt_id : Z) (candidate : TerminalToken)
    (now_ms : Z) : InputStore :=
  if promotable (rest s) session_id attempt_id candidate
  then note_change (with_rest s (promote_and_commit (rest s) session_id attempt_id candidate now_ms))
  else s.

Definition advance_promotion (h : Handler) (session_id : string) (attempt_id : Z) (candidate : TerminalToken)
    (now_ms : Z) : Handler :=
  let '(s, out) := h in
  if negb (promotable (rest s) session_id attempt_id candidate) then h
  else
    let held := match promotion_of s session_id with
                | Some hold => if hold_attempt_id hold =? attempt_id then Some hold else None
                | None => None
                end in
    match held with
    | Some hold =>
        if claim_sent hold then h
        else drain_then_claim h session_id attempt_id candidate (held_at_ms hold) now_ms
    | None =>
        if negb (claims_input_route s candidate now_ms) then
          if claim_required s session_id
          then abandon_promotion h session_id "terminal peer input-route capability is unavailable" now_ms
          else (commit_candidate s session_id attempt_id candidate now_ms, out)
        else
          let s := note_change (with_input s (hold_for_promotion (input s) session_id attempt_id candidate now_ms)) in
          drain_then_claim (s, out) session_id attempt_id candidate now_ms now_ms
    end.

Definition settle_route_result (h : Handler) (token : TerminalToken) (answer : InputRouteResult) (now_ms : Z) : Handler :=
  let '(s, out) := h in
  let session_id := result_session answer in
  match settle_route_claim (input s) token answer now_ms with
  | (r, None) => (with_input s r, out)
  | (r, Some settlement) =>
      let s := note_change (with_input s r) in
      match settlement with
      | ClaimAccepted claim =>
          match claim_attempt_id claim with
          | Some attempt_id =>
              if negb (promotable (rest s) session_id attempt_id (claim_token claim))
              then abandon_promotion (s, out) session_id "candidate promotion was superseded" now_ms
              else release_held_onto (commit_candidate s session_id attempt_id (claim_token claim) now_ms, out)
                     session_id (claim_token claim) now_ms
          | None => release_held_onto (s, out) session_id token now_ms
          end
      | ClaimRetry claim => (s, out ++ [claim_effect claim])
      | ClaimRefused claim reason =>
          match claim_attempt_id claim with
          | Some _ => abandon_promotion (s, out) session_id reason now_ms
          | None => (defer_or_block_fallback s session_id now_ms, out)
          end
      end
  end.

(** ** The ends of a claim that no answer settles ([promotion/deadlines.rs]) *)

Definition end_unanswered_claim (h : Handler) (reason : string) (now_ms : Z) (claim : RouteClaim) : Handler :=
  let '(s, out) := h in
  match claim_attempt_id claim with
  | Some _ => abandon_promotion h (claim_session claim) reason now_ms
  | None => (defer_or_block_fallback s (claim_session claim) now_ms, out)
  end.

Definition end_unanswered_claims (h : Handler) (claims : list RouteClaim) (reason : string) (now_ms : Z) : Handler :=
  foldl (fun h claim => end_unanswered_claim h reason now_ms claim) h claims.

Definition resume_held_promotion (h : Handler) (session_id : string) (now_ms : Z) : Handler :=
  let '(s, out) := h in
  match promotion_of s session_id with
  | None => h
  | Some hold =>
      if negb (is_staged s session_id (hold_attempt_id hold))
      then abandon_promotion h session_id "candidate was cancelled" now_ms
      else if negb (claim_sent hold)
      then advance_promotion h session_id (hold_attempt_id hold) (hold_token hold) now_ms
      else h
  end.

(** The Sync socket a fallback may claim on, and the worker epoch it names. *)
Definition fallback_claim (s : InputStore) (f : FallbackRecovery) (now_ms : Z) : option (TerminalToken * string) :=
  let sync := if terminal_domain_is_ready (rest s) then sync_terminal_token (rest s) else None in
  let granted := grant_worker_epoch <$> live_grant (rest s) (fallback_worker_fp f) now_ms in
  let epoch := match granted with
               | Some epoch => if bool_decide (epoch = EmptyString) then fallback_worker_epoch f else epoch
               | None => fallback_worker_epoch f
               end in
  match sync with
  | Some token => if bool_decide (epoch = EmptyString) then None else Some (token, epoch)
  | None => None
  end.

Definition claim_fallback (now_ms : Z) (h : Handler) (due : string * FallbackRecovery) : Handler :=
  let '(s, out) := h in
  let '(session_id, f) := due in
  match fallback_claim s f now_ms with
  | None => (defer_or_block_fallback s session_id now_ms, out)
  | Some (sync, epoch) =>
      match begin_route_claim (input s) session_id sync epoch None now_ms with
      | (Ok claim, r) => (with_input s r, out ++ [claim_effect claim])
      | (Err _, r) => (block_lane (with_input s r) session_id, out)
      end
  end.

Definition claim_due_fallbacks (h : Handler) (now_ms : Z) : Handler :=
  foldl (claim_fallback now_ms) h (due_fallbacks (input (fst h)) now_ms).

Definition sweep_route_claims (h : Handler) (now_ms : Z) : Handler :=
  let '(s, out) := h in
  let '(r, claims) := expire_route_claims (input s) now_ms in
  let h := end_unanswered_claims (with_input s r, out) claims "terminal input route claim was not confirmed" now_ms in
  let h := foldl (fun h held => resume_held_promotion h (fst held) now_ms) h (held_promotions (input (fst h))) in
  claim_due_fallbacks h now_ms.

(** ** Keystrokes and their results ([handle_input.rs]) *)

Definition handle_terminal_input (h : Handler) (session_id : string) (view_id : option string) (bytes : list byte)
    (now_ms : Z) : Handler :=
  let '(s, out) := h in
  let '(s, reclaiming) := reclaim_lost_route s session_id now_ms in
  let '(answer, r) := admit_input (input s) session_id view_id bytes now_ms in
  let s := with_input s (with_feed r (note_admission (outcome_feed r) view_id answer)) in
  match answer with
  | Err _ => (s, out)
  | Ok batch =>
      let s := note_change s in
      if is_holding (input s) session_id
      then if reclaiming then claim_due_fallbacks (s, out) now_ms else (s, out)
      else
        match input_destination s session_id with
        | None =>
            (settle_as_unsent s session_id (input_seq batch) "no terminal transport is connected for this session", out)
        | Some token => dispatch_startable (s, out) session_id token now_ms
        end
  end.

(** The batch of a session that a sequence names was handed to Sync. *)
Definition carried_on_sync (s : InputStore) (session_id : string) (seq : Z) : bool :=
  match find_input (outstanding (input s) session_id) seq with
  | Some (_, batch) => carried_by (fun fenced => bool_decide (transport fenced = Sync)) batch
  | None => false
  end.

Definition says_route_changed (outcome : InputOutcome) : bool :=
  match outcome with Rejected _ reason => bool_decide (reason = INPUT_ROUTE_CHANGED_REASON) | _ => false end.

(** The end of [handle_input_result], for an answer that ends its batch. *)
Definition end_input (h : Handler) (session_id : string) (seq : Z) (outcome : InputOutcome) (now_ms : Z) : Handler :=
  let '(s, out) := h in
  match settle (input s) seq outcome with
  | (_, false) => h
  | (r, true) =>
      let h := send_queued_input (note_change (with_input s r), out) session_id now_ms in
      match promotion_of (fst h) session_id with
      | Some hold => if claim_sent hold then h else resume_held_promotion h session_id now_ms
      | None => h
      end
  end.

Definition handle_input_result (h : Handler) (session_id : string) (seq : Z) (outcome : InputOutcome) (now_ms : Z) :
    Handler :=
  let '(s, out) := h in
  let moved := carried_on_sync s session_id seq && negb (has_route (rest s) session_id) && says_route_changed outcome in
  let '(r, requeued) := if moved then requeue_moved_sync_batch (input s) session_id seq else (input s, false) in
  if requeued then
    let s := note_change (with_input s r) in
    let '(s, claims) :=
      if is_holding (input s) session_id then (s, true) else reclaim_lost_route s session_id now_ms in
    if claims then claim_due_fallbacks (s, out) now_ms
    else end_input (s, out) session_id seq outcome now_ms
  else end_input h session_id seq outcome now_ms.

(** [SyncFrame::InputResult] off a direct carrier ([handle_sync.rs]). *)
Definition handle_direct_result (h : Handler) (token : TerminalToken) (session_id : string) (seq : Z)
    (outcome : InputOutcome) (now_ms : Z) : Handler :=
  let '(s, out) := h in
  match settle_from (input s) session_id token seq outcome with
  | (_, false) => h
  | (r, true) => send_queued_input (note_change (with_input s r), out) session_id now_ms
  end.

(** [retire_route]; a direct route's fallback is due at once. *)
Definition retire_route (s : InputStore) (session_id : string) (token : TerminalToken) (reason : string) : InputStore :=
  let s := note_change (with_rest s (drop_route (rest s) session_id token)) in
  let s := with_input s (fst (retire_token (input s) token reason)) in
  let s := match transport token, token_worker_fp token with
           | Sync, _ | _, None => s
           | _, Some worker_fp => with_input s (begin_fallback (input s) session_id worker_fp (process_epoch token) 0)
           end in
  with_rest s (recover_views (rest s) session_id token).

(** The input half of a closed Sync link ([handle_sync/lifecycle.rs],
    [handle_event.rs]). *)
Definition release_sync_generation (s : InputStore) (generation : Z) : InputStore :=
  let '(r, _) := retire_sync_generation (input s) generation "Sync closed" in
  let '(r, _) := block_routes_on_sync_socket r generation in
  with_input s r.

Definition sync_link_closed (h : Handler) (generation now_ms : Z) : Handler :=
  let '(s, out) := h in
  let '(w, ours) := close_link (rest s) generation in
  let s := with_rest s w in
  let s := if ours then release_sync_generation (note_change s) generation else s in
  let '(r, claims) := reject_sync_claims (input s) generation in
  end_unanswered_claims (with_input s r, out) claims "terminal Sync closed" now_ms.

(** The input half of a sweep ([handle_sweep/mod.rs]). *)
Definition sweep_input (h : Handler) (now_ms : Z) : Handler :=
  let '(s, out) := sweep_route_claims h now_ms in
  let '(r, held) := sweep_held (input s) now_ms in
  let '(r, overdue) := sweep_unanswered r now_ms in
  let s := with_input s r in
  let s := if bool_decide (held = []) && bool_decide (overdue = []) then s else note_change s in
  foldl (fun h session_id => send_queued_input h session_id now_ms) (s, out) (queued_sessions (input s)).

(** The input half of [Store::forget_session] ([store.rs]). *)
Definition close_input (s : InputStore) (session_id : string) : InputStore :=
  with_input s (fst (set_phase (input s) session_id Closed)).
End Dispatch.
Arguments InputStore : clear implicits.
Arguments Handler : clear implicits.
