(* ===== verification/InputOperations.v ===== *)
(** * InputOperations: what every operation of the router does to its batches

    An operation of [InputRouter], whatever else it does, is a list of elementary
    changes of the batches outstanding: one is taken, handed over, put back or
    settled.  The invariant of the router is proved once, over those. *)
From S2P Require Export InputRouter.
#[local] Open Scope Z_scope.

(** ** Elementary changes *)

(** [Done reported batch outcome]: the batch as it was when it was settled, and
    whether a carrier reported the outcome.  [Burned]: a sequence is spent on a
    batch that is refused.  [Fed]: a pane's feed is written, read or left. *)
Inductive FeedNote :=
| Noted (view_id : option string) (admission : result PendingInput InputRefusal)
| ReadOutcomes (view_id : string)
| ReadAdmission (view_id : string)
| LeftView (view_id : string).

Definition apply_note (f : InputOutcomeFeed) (note : FeedNote) : InputOutcomeFeed :=
  match note with
  | Noted view_id admission => note_admission f view_id admission
  | ReadOutcomes view_id => snd (take_outcomes f view_id)
  | ReadAdmission view_id => snd (take_admission f view_id)
  | LeftView view_id => forget_view f view_id
  end.

Inductive Fact :=
| Took (batch : PendingInput)
| Sent (batch : PendingInput) (token : TerminalToken) (at_ms : Z)
| PutBack (batch : PendingInput)
| Done (reported : bool) (batch : PendingInput) (outcome : InputOutcome)
| Burned
| Fed (note : FeedNote).

Definition lane_bytes (r : InputRouter) (session_id : string) : Z :=
  match lanes r !! session_id with Some lane => pending_bytes lane | None => 0 end.

(** What the router says of a batch when no carrier answered. *)
Definition truthful (batch : PendingInput) (outcome : InputOutcome) : Prop :=
  if started batch then is_ambiguous outcome = true
  else match outcome with Rejected _ _ => True | _ => False end.

(** Everything but one lane's batches stays. *)
Record others_same (session_id : string) (r r' : InputRouter) : Prop := {
  os_batches other : other <> session_id -> outstanding r' other = outstanding r other;
  os_bytes other : other <> session_id -> lane_bytes r' other = lane_bytes r other;
}.

(** No batch changes: phases, claims, routes, or an empty lane that is opened. *)
Record quiet (r r' : InputRouter) : Prop := {
  q_batches session_id : outstanding r' session_id = outstanding r session_id;
  q_bytes session_id : lane_bytes r' session_id = lane_bytes r session_id;
  q_seq : next_input_seq r' = next_input_seq r;
  q_feed : outcome_feed r' = outcome_feed r;
}.

Inductive change (r : InputRouter) : Fact -> InputRouter -> Prop :=
| change_take r' session_id batch :
    others_same session_id r r' ->
    outstanding r' session_id = outstanding r session_id ++ [batch] ->
    lane_bytes r' session_id = lane_bytes r session_id + len (input_bytes batch) ->
    len (outstanding r session_id) < MAX_PENDING_INPUTS_PER_SESSION ->
    lane_bytes r session_id + len (input_bytes batch) <= MAX_PENDING_INPUT_BYTES_PER_SESSION ->
    input_session batch = session_id -> input_seq batch = next_input_seq r' ->
    next_input_seq r' = u64 (next_input_seq r + 1) ->
    input_bytes batch <> [] -> len (input_bytes batch) <= MAX_INPUT_BYTES ->
    started batch = false -> fence batch = None ->
    outcome_feed r' = outcome_feed r ->
    change r (Took batch) r'
| change_send r' session_id position batch token now_ms :
    others_same session_id r r' ->
    outstanding r session_id !! position = Some batch -> started batch = false ->
    (forall older, older ∈ outstanding r session_id -> input_seq older < input_seq batch -> started older = true) ->
    len (List.filter started (outstanding r session_id)) < MAX_STARTED_INPUTS_PER_SESSION ->
    outstanding r' session_id = <[position := start_batch token now_ms batch]> (outstanding r session_id) ->
    lane_bytes r' session_id = lane_bytes r session_id ->
    next_input_seq r' = next_input_seq r -> outcome_feed r' = outcome_feed r ->
    change r (Sent batch token now_ms) r'
| change_back r' session_id position batch :
    others_same session_id r r' ->
    outstanding r session_id !! position = Some batch -> started batch = true ->
    outstanding r' session_id = <[position := unstart_batch batch]> (outstanding r session_id) ->
    lane_bytes r' session_id = lane_bytes r session_id ->
    next_input_seq r' = next_input_seq r -> outcome_feed r' = outcome_feed r ->
    change r (PutBack batch) r'
| change_done r' session_id position batch reported outcome :
    others_same session_id r r' ->
    outstanding r session_id !! position = Some batch ->
    outcome_seq outcome = input_seq batch -> (reported = true \/ truthful batch outcome) ->
    outstanding r' session_id = base.delete position (outstanding r session_id) ->
    lane_bytes r' session_id = saturating_sub (lane_bytes r session_id) (len (input_bytes batch)) ->
    next_input_seq r' = next_input_seq r ->
    outcome_feed r' = observe_outcome (outcome_feed r) outcome ->
    change r (Done reported batch outcome) r'
| change_burn r' :
    (forall session_id, outstanding r' session_id = outstanding r session_id) ->
    (forall session_id, lane_bytes r' session_id = lane_bytes r session_id) ->
    next_input_seq r' = u64 (next_input_seq r + 1) -> outcome_feed r' = outcome_feed r ->
    change r Burned r'
| change_feed r' note :
    (forall session_id, outstanding r' session_id = outstanding r session_id) ->
    (forall session_id, lane_bytes r' session_id = lane_bytes r session_id) ->
    next_input_seq r' = next_input_seq r ->
    outcome_feed r' = apply_note (outcome_feed r) note ->
    (match note with
     | Noted (Some view) (Ok batch) => batch ∈ outstanding r (input_session batch) /\ input_view batch = Some view
     | _ => True
     end) ->
    change r (Fed note) r'.

Inductive changes (r : InputRouter) : list Fact -> InputRouter -> Prop :=
| changes_quiet r' : quiet r r' -> changes r [] r'
| changes_step fact facts r1 r' : change r fact r1 -> changes r1 facts r' -> changes r (fact :: facts) r'.

Lemma quiet_refl r : quiet r r.
Proof. by constructor. Qed.

Lemma quiet_trans r1 r2 r3 : quiet r1 r2 -> quiet r2 r3 -> quiet r1 r3.
Proof. intros [A1 A2 A3 A4] [B1 B2 B3 B4]. constructor; congruence. Qed.

Lemma quiet_sym r1 r2 : quiet r1 r2 -> quiet r2 r1.
Proof. intros [A1 A2 A3 A4]. by constructor. Qed.

Lemma quiet_change r r1 fact r' : quiet r r1 -> change r1 fact r' -> change r fact r'.
Proof.
  intros [Q1 Q2 Q3 Q4] Hc.
  inversion Hc as [? s b [O1 O2]|? s p b t n [O1 O2]|? s p b [O1 O2]|? s p b rep o [O1 O2]| |? note ? ? ? ? Hw]; subst;
    [eapply change_take|eapply change_send|eapply change_back|eapply change_done|eapply change_burn|eapply change_feed];
    try (constructor; intros other Hne; [rewrite <- Q1; by apply O1|rewrite <- Q2; by apply O2]);
    try (intros session_id; rewrite <- ?Q1, <- ?Q2; by auto);
    rewrite <- ?Q1, <- ?Q2, <- ?Q3, <- ?Q4; eauto.
  destruct note as [[view|] [batch|]| | |]; try done. by rewrite <- Q1.
Qed.

Lemma changes_before r r1 facts r' : quiet r r1 -> changes r1 facts r' -> changes r facts r'.
Proof.
  intros Hq Hc. destruct Hc as [r' Hq'|fact facts r2 r' Hf Hc].
  - apply changes_quiet. by eapply quiet_trans.
  - eapply changes_step; [by eapply quiet_change|done].
Qed.

Lemma changes_app r facts1 r1 facts2 r' : changes r facts1 r1 -> changes r1 facts2 r' -> changes r (facts1 ++ facts2) r'.
Proof.
  induction 1 as [r r1 Hq|r fact facts r2 r1 Hf Hc IH]; intros H2; [by eapply changes_before|].
  cbn. eapply changes_step; [done|by apply IH].
Qed.

Lemma changes_one r fact r' : change r fact r' -> changes r [fact] r'.
Proof. intros Hf. eapply changes_step; [done|apply changes_quiet, quiet_refl]. Qed.

Lemma changes_nil r : changes r [] r.
Proof. apply changes_quiet, quiet_refl. Qed.

(** ** The ledger of a run *)

(** What stays of a batch through its life. *)
Definition stamp (batch : PendingInput) : string * option string * Z * list byte :=
  (input_session batch, input_view batch, input_seq batch, input_bytes batch).

Definition taken (facts : list Fact) : list PendingInput :=
  omap (fun fact => match fact with Took batch => Some batch | _ => None end) facts.

(** The settled batches with their outcomes. *)
Definition settlements (facts : list Fact) : list (PendingInput * InputOutcome) :=
  omap (fun fact => match fact with Done _ batch outcome => Some (batch, outcome) | _ => None end) facts.

Definition done_seqs (facts : list Fact) : list Z := (fun d => input_seq (fst d)) <$> settlements facts.

Definition sent (facts : list Fact) : list PendingInput :=
  omap (fun fact => match fact with Sent batch _ _ => Some batch | _ => None end) facts.

Definition put_backs (facts : list Fact) : list Z :=
  omap (fun fact => match fact with PutBack batch => Some (input_seq batch) | _ => None end) facts.

(** What goes out for the first time is younger than all its session sent. *)
Definition sends_in_order (facts : list Fact) : Prop :=
  forall before batch token at_ms after, facts = before ++ Sent batch token at_ms :: after -> input_seq batch ∉ put_backs before ->
    forall earlier, earlier ∈ sent before -> input_session earlier = input_session batch -> input_seq earlier < input_seq batch.

(** How often a batch is out of hand: its hand-overs since it was last put back. *)
Definition hand_step (seq : Z) (n : nat) (fact : Fact) : nat :=
  match fact with
  | Sent batch _ _ => if input_seq batch =? seq then S n else n
  | PutBack batch => if input_seq batch =? seq then 0%nat else n
  | _ => n
  end.

Definition hand (facts : list Fact) (seq : Z) : nat := foldl (hand_step seq) 0%nat facts.

Definition total_bytes (batches : list PendingInput) : Z := foldr (fun batch n => len (input_bytes batch) + n) 0 batches.

Record batch_ok (facts : list Fact) (next : Z) (session_id : string) (batch : PendingInput) : Prop := {
  bo_session : input_session batch = session_id;
  bo_seq : 1 <= input_seq batch <= next;
  bo_bytes : input_bytes batch <> [] /\ len (input_bytes batch) <= MAX_INPUT_BYTES;
  bo_fence : started batch = bool_decide (is_Some (fence batch));
  bo_hand : hand facts (input_seq batch) = if started batch then 1%nat else 0%nat;
  bo_taken : stamp batch ∈ stamp <$> taken facts;
}.

Record queue_ok (facts : list Fact) (next : Z) (session_id : string) (batches : list PendingInput) (bytes : Z) : Prop := {
  qo_batches : Forall (batch_ok facts next session_id) batches;
  qo_sorted : StronglySorted Z.lt (input_seq <$> batches);
  qo_total : bytes = total_bytes batches;
  qo_count : len batches <= MAX_PENDING_INPUTS_PER_SESSION;
  qo_cap : bytes <= MAX_PENDING_INPUT_BYTES_PER_SESSION;
  qo_window : len (List.filter started batches) <= MAX_STARTED_INPUTS_PER_SESSION;
}.

(** The batches of all the lanes. *)
Definition held (r : InputRouter) (seq : Z) : Prop :=
  exists session_id, seq ∈ input_seq <$> outstanding r session_id.

Record ledger (facts : list Fact) (r : InputRouter) : Prop := {
  lg_next : 0 <= next_input_seq r;
  lg_queue session_id : queue_ok facts (next_input_seq r) session_id (outstanding r session_id) (lane_bytes r session_id);
  lg_apart s1 s2 seq : seq ∈ input_seq <$> outstanding r s1 -> seq ∈ input_seq <$> outstanding r s2 -> s1 = s2;
  lg_taken : NoDup (input_seq <$> taken facts);
  lg_kept batch : batch ∈ taken facts ->
    1 <= input_seq batch <= next_input_seq r /\ (held r (input_seq batch) \/ input_seq batch ∈ done_seqs facts);
  lg_done_once : NoDup (done_seqs facts);
  lg_done batch outcome : (batch, outcome) ∈ settlements facts ->
    ~ held r (input_seq batch) /\ outcome_seq outcome = input_seq batch /\ stamp batch ∈ stamp <$> taken facts;
  lg_hand seq : (hand facts seq <= 1)%nat;
  lg_fresh seq : next_input_seq r < seq -> hand facts seq = 0%nat;
  lg_order session_id batch : batch ∈ outstanding r session_id -> started batch = false -> input_seq batch ∉ put_backs facts ->
    forall earlier, earlier ∈ sent facts -> input_session earlier = session_id -> input_seq earlier < input_seq batch;
  lg_sent batch : batch ∈ sent facts -> input_seq batch <= next_input_seq r /\ stamp batch ∈ stamp <$> taken facts;
  lg_in_order : sends_in_order facts;
  lg_watched seq view : watched (outcome_feed r) !! seq = Some view ->
    exists session_id batch, batch ∈ outstanding r session_id /\ input_seq batch = seq /\ input_view batch = Some view;
}.

Lemma batch_bytes_app a b : total_bytes (a ++ b) = total_bytes a + total_bytes b.
Proof. unfold total_bytes. induction a as [|x a IH]; cbn; [done|]. rewrite IH. lia. Qed.

Lemma batch_bytes_nonneg l : 0 <= total_bytes l.
Proof. unfold total_bytes. induction l as [|x l IH]; cbn; [done|]. pose proof (len_nonneg (input_bytes x)). lia. Qed.

Lemma total_bytes_delete l i x : l !! i = Some x -> total_bytes (base.delete i l) = total_bytes l - len (input_bytes x).
Proof.
  intros E. rewrite delete_take_drop. pose proof (f_equal total_bytes (take_drop_middle l i x E)) as Ht.
  rewrite !batch_bytes_app in *. unfold total_bytes in *. cbn in Ht. lia.
Qed.

Lemma total_bytes_insert l i x y :
  l !! i = Some x -> input_bytes y = input_bytes x -> total_bytes (<[i := y]> l) = total_bytes l.
Proof.
  intros E Hb. rewrite (insert_take_drop l i y) by (by eapply lookup_lt_Some).
  pose proof (f_equal total_bytes (take_drop_middle l i x E)) as Ht.
  rewrite !batch_bytes_app in *. unfold total_bytes in *. cbn in *. rewrite Hb. lia.
Qed.

Lemma fmap_insert_same {A B} (f : A -> B) (l : list A) i x y : l !! i = Some x -> f y = f x -> f <$> <[i := y]> l = f <$> l.
Proof. intros E Hf. rewrite list_fmap_insert, Hf. apply list_insert_id. by rewrite list_lookup_fmap, E. Qed.

Lemma taken_app a b : taken (a ++ b) = taken a ++ taken b.
Proof. apply omap_app. Qed.

Lemma settlements_app a b : settlements (a ++ b) = settlements a ++ settlements b.
Proof. apply omap_app. Qed.

Lemma done_seqs_app a b : done_seqs (a ++ b) = done_seqs a ++ done_seqs b.
Proof. unfold done_seqs. by rewrite settlements_app, fmap_app. Qed.

Lemma hand_app a b seq : hand (a ++ b) seq = foldl (hand_step seq) (hand a seq) b.
Proof. apply foldl_app. Qed.

Lemma sorted_nodup l : StronglySorted Z.lt l -> NoDup l.
Proof.
  induction 1 as [|x l Hs IH Hx]; constructor; [|done].
  intros Hin. rewrite Forall_forall in Hx. specialize (Hx x Hin). lia.
Qed.

Lemma sorted_lt_snoc l x : StronglySorted Z.lt l -> Forall (fun y => y < x) l -> StronglySorted Z.lt (l ++ [x]).
Proof.
  induction 1 as [|y l Hs IH Hy]; intros Hx; cbn; [by repeat constructor|].
  inversion Hx as [|? ? Hyx Hx']; subst. constructor; [by apply IH|]. apply Forall_app. by repeat constructor.
Qed.

Lemma sorted_delete (l : list Z) i : StronglySorted Z.lt l -> StronglySorted Z.lt (base.delete i l).
Proof.
  intros Hs. revert i. induction Hs as [|x l Hs IH Hx]; intros i; [by destruct i; constructor|].
  destruct i; cbn; [done|]. constructor; [apply IH|].
  rewrite Forall_forall in *. intros y Hy. apply Hx. by eapply list_elem_of_delete_inv.
Qed.

(** ** Every elementary change keeps the ledger *)

Lemma batch_ok_later facts next session_id batch fact next' :
  batch_ok facts next session_id batch -> next <= next' ->
  hand_step (input_seq batch) (hand facts (input_seq batch)) fact = hand facts (input_seq batch) ->
  batch_ok (facts ++ [fact]) next' session_id batch.
Proof.
  intros [B1 B2 B3 B4 B5 B6] Hn Hh. constructor; try done; [lia| |].
  - rewrite hand_app. cbn. by rewrite Hh.
  - rewrite taken_app, fmap_app. by apply elem_of_app; left.
Qed.

Lemma queue_ok_later facts next session_id batches bytes fact next' :
  queue_ok facts next session_id batches bytes -> next <= next' ->
  (forall batch, batch ∈ batches -> hand_step (input_seq batch) (hand facts (input_seq batch)) fact = hand facts (input_seq batch)) ->
  queue_ok (facts ++ [fact]) next' session_id batches bytes.
Proof.
  intros [Q1 Q2 Q3 Q4 Q5 Q6] Hn Hh. constructor; try done. rewrite Forall_forall in *. intros batch Hin.
  eapply batch_ok_later; eauto.
Qed.

Lemma held_spec r seq : held r seq <-> exists session_id batch, batch ∈ outstanding r session_id /\ input_seq batch = seq.
Proof.
  unfold held. setoid_rewrite list_elem_of_fmap. split.
  - intros (s & b & -> & Hin). by exists s, b.
  - intros (s & b & Hin & <-). by exists s, b.
Qed.

Lemma queue_seq_le facts next session_id batches bytes seq :
  queue_ok facts next session_id batches bytes -> seq ∈ input_seq <$> batches -> 1 <= seq <= next.
Proof.
  intros Hq (batch & -> & Hin)%list_elem_of_fmap. pose proof (qo_batches _ _ _ _ _ Hq) as Hb.
  rewrite Forall_forall in Hb. by apply Hb.
Qed.

Lemma hand_step_le seq n fact :
  (match fact with Sent batch _ _ => input_seq batch = seq -> n = 0%nat | _ => True end) -> (n <= 1)%nat ->
  (hand_step seq n fact <= 1)%nat.
Proof. intros Hs Hn. 
  destruct fact; cbn in *; try done; destruct (Z.eqb_spec (input_seq batch) seq); lia.
Qed.

Lemma sent_app a b : sent (a ++ b) = sent a ++ sent b.
Proof. apply omap_app. Qed.

Lemma put_backs_app a b : put_backs (a ++ b) = put_backs a ++ put_backs b.
Proof. apply omap_app. Qed.

Lemma in_held r session_id batch : batch ∈ outstanding r session_id -> held r (input_seq batch).
Proof. intros Hin. apply held_spec. by exists session_id, batch. Qed.

Lemma sends_snoc facts fact :
  sends_in_order facts ->
  (match fact with
   | Sent batch _ _ => input_seq batch ∉ put_backs facts ->
       forall earlier, earlier ∈ sent facts -> input_session earlier = input_session batch -> input_seq earlier < input_seq batch
   | _ => True
   end) ->
  sends_in_order (facts ++ [fact]).
Proof.
  intros Hs Hf before batch token at_ms after Heq. destruct after as [|x after _] using rev_ind.
  - apply app_inj_tail in Heq as [-> ->]. exact Hf.
  - rewrite app_comm_cons, app_assoc in Heq. apply app_inj_tail in Heq as [-> _]. by apply (Hs before batch token at_ms after).
Qed.

Lemma filter_insert_len (f : PendingInput -> bool) l i x y :
  l !! i = Some x -> len (List.filter f (<[i := y]> l)) = len (List.filter f l) - (if f x then 1 else 0) + (if f y then 1 else 0).
Proof.
  intros E. rewrite (insert_take_drop l i y) by (by eapply lookup_lt_Some).
  pose proof (f_equal (fun l => len (List.filter f l)) (take_drop_middle l i x E)) as Ht. cbn beta in Ht.
  rewrite !List.filter_app in *. cbn in *. destruct (f x), (f y); autorewrite with lens in *; lia.
Qed.

Lemma filter_delete_len (f : PendingInput -> bool) l i : len (List.filter f (base.delete i l)) <= len (List.filter f l).
Proof.
  rewrite delete_take_drop. destruct (l !! i) as [x|] eqn:E.
  2:{ apply lookup_ge_None in E. rewrite take_ge, drop_ge, app_nil_r by lia. lia. }
 pose proof (f_equal (fun l => len (List.filter f l)) (take_drop_middle l i x E)) as Ht. cbn beta in Ht.
  rewrite !List.filter_app in *. cbn in *. destruct (f x); autorewrite with lens in *; lia.
Qed.

(** The changes that move no batch in or out. *)
Lemma ledger_in_place facts r fact r' :
  ledger facts r -> taken [fact] = [] -> settlements [fact] = [] -> next_input_seq r <= next_input_seq r' ->
  (forall session_id, input_seq <$> outstanding r' session_id = input_seq <$> outstanding r session_id) ->
  (forall session_id, queue_ok (facts ++ [fact]) (next_input_seq r') session_id (outstanding r' session_id) (lane_bytes r' session_id)) ->
  (match fact with
   | Sent batch _ _ => batch ∈ outstanding r (input_session batch) /\ started batch = false /\ hand facts (input_seq batch) = 0%nat
   | PutBack batch => held r (input_seq batch)
   | _ => True
   end) ->
  (forall session_id batch, batch ∈ outstanding r' session_id -> started batch = false -> input_seq batch ∉ put_backs (facts ++ [fact]) ->
     forall earlier, earlier ∈ sent (facts ++ [fact]) -> input_session earlier = session_id -> input_seq earlier < input_seq batch) ->
  (forall seq view, watched (outcome_feed r') !! seq = Some view ->
     exists session_id batch, batch ∈ outstanding r' session_id /\ input_seq batch = seq /\ input_view batch = Some view) ->
  ledger (facts ++ [fact]) r'.
Proof.
  intros L Ht Hd Hn Hs Hq Hf Hord Hw. destruct L as [L0 L1 L2 L3 L4 L5 L6 L7 L8 LO LS LI L9].
  assert (Hheld : forall seq, held r' seq <-> held r seq) by (intros seq; unfold held; by setoid_rewrite Hs).
  assert (Hle : forall seq, held r seq -> seq <= next_input_seq r).
  { intros seq [s Hin]. pose proof (queue_seq_le _ _ _ _ _ _ (L1 s) Hin). lia. }
  constructor; try done.
  - lia.
  - intros s1 s2 seq. rewrite !Hs. apply L2.
  - by rewrite taken_app, Ht, app_nil_r.
  - rewrite taken_app, Ht, app_nil_r, done_seqs_app. intros batch Hin. rewrite Hheld.
    destruct (L4 batch Hin) as [? [?|?]]; (split; [lia|]); [by left|right; apply elem_of_app; by left].
  - rewrite done_seqs_app. unfold done_seqs at 2. by rewrite Hd, app_nil_r.
  - rewrite settlements_app, taken_app, Hd, Ht, !app_nil_r. intros batch outcome. rewrite Hheld. apply L6.
  - intros seq. rewrite hand_app. cbn. apply hand_step_le; [|done]. destruct fact; try done. intros <-. by apply Hf.
  - intros seq Hlt. rewrite hand_app. cbn. rewrite L8 by lia. destruct fact; try done; cbn;
      destruct (Z.eqb_spec (input_seq batch) seq) as [<-|]; try done.
    destruct Hf as [Hh _]. apply in_held, Hle in Hh. lia.
  - rewrite sent_app, taken_app, Ht, app_nil_r. intros b [Hb|Hb]%elem_of_app; [destruct (LS b Hb); split; [lia|done]|]. destruct fact; cbn in Hb; try by apply not_elem_of_nil in Hb.
    apply list_elem_of_singleton in Hb as ->. destruct Hf as [Hh _]. split; [apply in_held, Hle in Hh; lia|].
    pose proof (qo_batches _ _ _ _ _ (L1 (input_session batch))) as Hall. rewrite Forall_forall in Hall. by apply Hall.
  - apply sends_snoc; [done|]. destruct fact; try done. intros Hno. apply LO; [apply Hf|apply Hf|done].
Qed.

(** In a lane, the place of a batch is the place of its sequence. *)
Lemma place_unique facts next session_id batches bytes i j a b :
  queue_ok facts next session_id batches bytes -> batches !! i = Some a -> batches !! j = Some b ->
  input_seq a = input_seq b -> i = j.
Proof.
  intros Hq Ha Hb He. eapply (NoDup_lookup (input_seq <$> batches)); [apply sorted_nodup, Hq| |].
  - rewrite list_lookup_fmap, Ha. done.
  - rewrite list_lookup_fmap, Hb. cbn. by rewrite He.
Qed.

(** One batch of a lane replaced by the same batch, handed over or put back. *)
Lemma queue_ok_update facts next session_id batches bytes position batch new fact :
  queue_ok facts next session_id batches bytes -> batches !! position = Some batch ->
  stamp new = stamp batch -> started new = bool_decide (is_Some (fence new)) ->
  (forall seq n, hand_step seq n fact
     = if input_seq batch =? seq then (if started new then S n else 0%nat) else n) ->
  (started new = true -> started batch = false /\ len (List.filter started batches) < MAX_STARTED_INPUTS_PER_SESSION) ->
  queue_ok (facts ++ [fact]) next session_id (<[position := new]> batches) bytes.
Proof.
  intros Hq E Hst Hf Hh Hflip. pose proof Hq as [Q1 Q2 Q3 Q4 Q5 Q6]. injection Hst as S1 S2 S3 S4. constructor.
  - rewrite Forall_forall in *. intros b (j & Hj)%list_elem_of_lookup.
    apply list_lookup_insert_Some in Hj as [(-> & <- & _)|[Hne Hj]].
    + assert (Hb : batch_ok facts next session_id batch) by (apply Q1; by eapply list_elem_of_lookup_2).
      destruct Hb as [B1 B2 B3 B4 B5 B6]. constructor; rewrite ?S3, ?S1, ?S4; try done.
      * rewrite hand_app. cbn. rewrite Hh, Z.eqb_refl, B5.
        destruct (started new) eqn:En; [by rewrite (proj1 (Hflip eq_refl))|done].
      * rewrite taken_app, fmap_app. apply elem_of_app. left. unfold stamp. rewrite S1, S2, S3, S4. apply B6.
    + eapply batch_ok_later; [apply Q1; by eapply list_elem_of_lookup_2|done|].
      rewrite Hh. destruct (Z.eqb_spec (input_seq batch) (input_seq b)) as [He|]; [|done].
      by destruct (Hne (place_unique _ _ _ _ _ _ _ _ _ Hq E Hj He)).
  - by rewrite (fmap_insert_same input_seq batches position batch new).
  - by rewrite (total_bytes_insert batches position batch new).
  - unfold len. by rewrite length_insert.
  - done.
  - rewrite (filter_insert_len started _ _ _ new E). destruct (started new); [destruct (Hflip eq_refl) as [-> ?]; lia|].
    destruct (started batch); lia.
Qed.

(** What another lane owes when only one lane changes. *)
Lemma queue_ok_other facts r fact r' session_id other :
  ledger facts r -> others_same session_id r r' -> other <> session_id -> next_input_seq r <= next_input_seq r' ->
  (forall batch, batch ∈ outstanding r other ->
     hand_step (input_seq batch) (hand facts (input_seq batch)) fact = hand facts (input_seq batch)) ->
  queue_ok (facts ++ [fact]) (next_input_seq r') other (outstanding r' other) (lane_bytes r' other).
Proof.
  intros L [O1 O2] Hne Hn Hh. rewrite O1, O2 by done. eapply queue_ok_later; [apply L|done|done].
Qed.

(** A change of one batch in place, in one lane. *)
Lemma ledger_update facts r fact r' session_id position batch new :
  ledger facts r -> others_same session_id r r' ->
  outstanding r session_id !! position = Some batch ->
  outstanding r' session_id = <[position := new]> (outstanding r session_id) ->
  lane_bytes r' session_id = lane_bytes r session_id ->
  next_input_seq r' = next_input_seq r -> outcome_feed r' = outcome_feed r ->
  taken [fact] = [] -> settlements [fact] = [] ->
  stamp new = stamp batch -> started new = bool_decide (is_Some (fence new)) ->
  (forall seq n, hand_step seq n fact = if input_seq batch =? seq then (if started new then S n else 0%nat) else n) ->
  (match fact with
   | Sent b _ _ => b = batch /\ started new = true /\ started batch = false
       /\ (forall older, older ∈ outstanding r session_id -> input_seq older < input_seq batch -> started older = true)
       /\ len (List.filter started (outstanding r session_id)) < MAX_STARTED_INPUTS_PER_SESSION
   | PutBack b => b = batch /\ started new = false
   | _ => False
   end) ->
  ledger (facts ++ [fact]) r'.
Proof.
  intros L Ho E Hl Hb Hn Hf Ht Hd Hst Hfence Hh Hfact. pose proof L as [L0 L1 L2 L3 L4 L5 L6 L7 L8 LO LS LI L9].
  pose proof Hst as Hseq. injection Hseq as S1 S2 S3 _.
  assert (Hin0 : batch ∈ outstanding r session_id) by (by eapply list_elem_of_lookup_2).
  pose proof (qo_batches _ _ _ _ _ (L1 session_id)) as Hall. rewrite Forall_forall in Hall.
  pose proof (Hall batch Hin0) as Hbo.
  apply (ledger_in_place facts r fact r' L Ht Hd); [lia| | | | |].
  - intros other. destruct (decide (other = session_id)) as [->|Hne]; [|by rewrite (os_batches _ _ _ Ho)].
    rewrite Hl. by apply (fmap_insert_same input_seq _ position batch).
  - intros other. destruct (decide (other = session_id)) as [->|Hne].
    + rewrite Hl, Hb, Hn. eapply queue_ok_update; try done. intros En. destruct fact; try done; [|by destruct Hfact; congruence].
      by destruct Hfact as (-> & _ & ? & _ & ?).
    + eapply queue_ok_other; [done|done|done|lia|]. intros b Hin. rewrite Hh.
      destruct (Z.eqb_spec (input_seq batch) (input_seq b)) as [He|]; [|done].
      destruct Hne. apply (L2 other session_id (input_seq b)); apply list_elem_of_fmap; [by exists b|by exists batch].
  - destruct fact as [|b t|b| | |]; try done; [destruct Hfact as (-> & Hs & Hu & _)|destruct Hfact as [-> _]; by eapply in_held].
    rewrite (bo_session _ _ _ _ Hbo). split_and!; [done|done|]. by rewrite (bo_hand _ _ _ _ Hbo), Hu.
  - intros s b Hin Hu Hno earlier. rewrite sent_app, put_backs_app in *.
    assert (Hold : b ∈ outstanding r s /\ input_seq b <> input_seq batch).
    { destruct (decide (s = session_id)) as [->|Hne].
      - rewrite Hl in Hin. apply list_elem_of_lookup in Hin as [j Hj].
        apply list_lookup_insert_Some in Hj as [(-> & <- & _)|[Hj Hb']].
        + destruct fact; try done; destruct Hfact as [-> Hs]; [by destruct Hs as [? _]; congruence|].
          destruct Hno. apply elem_of_app. right. cbn. rewrite S3. by apply list_elem_of_singleton.
        + split; [by eapply list_elem_of_lookup_2|]. intros He. apply Hj.
          by eapply (place_unique _ _ _ _ _ _ _ _ _ (L1 session_id) E Hb').
      - rewrite (os_batches _ _ _ Ho) in Hin by done. split; [done|]. intros He. apply Hne.
        apply (L2 s session_id (input_seq b)); apply list_elem_of_fmap; [by exists b|by exists batch]. }
    destruct Hold as [Hold Hdiff]. intros [He|He]%elem_of_app Hse.
    + apply (LO s b Hold Hu); [|done|done]. intros Hp. apply Hno. by apply elem_of_app; left.
    + destruct fact as [|b0 t|b0| | |]; try done; cbn in He; [|by apply not_elem_of_nil in He].
      apply list_elem_of_singleton in He as ->. destruct Hfact as (-> & _ & _ & Hyoung & _).
      rewrite (bo_session _ _ _ _ Hbo) in Hse. subst s.
      destruct (Z.lt_trichotomy (input_seq batch) (input_seq b)) as [?|[?|Hlt]]; [done|congruence|].
      specialize (Hyoung b Hold Hlt). congruence.
  - rewrite Hf. intros seq view Hw. destruct (L9 seq view Hw) as (s & b & Hin & Hs & Hv).
    destruct (decide (s = session_id)) as [->|Hne]; [|exists s, b; by rewrite (os_batches _ _ _ Ho)].
    apply list_elem_of_lookup in Hin as [j Hj]. destruct (decide (position = j)) as [<-|Hp].
    + rewrite E in Hj. injection Hj as ->. exists session_id, new. rewrite Hl, S3, S2. split_and!; [|done|done].
      eapply list_elem_of_lookup_2, list_lookup_insert_eq. by eapply lookup_lt_Some.
    + exists session_id, b. rewrite Hl. split_and!; [|done|done]. eapply list_elem_of_lookup_2.
      by rewrite list_lookup_insert_ne.
Qed.

Lemma ledger_take facts r batch r' :
  ledger facts r -> change r (Took batch) r' -> next_input_seq r + 1 < 2 ^ 64 -> ledger (facts ++ [Took batch]) r'.
Proof.
  intros L Hc Hw. inversion Hc as [? session_id ? Ho Hl Hb Hcount Hcap Hses Hseq Hnext Hne Hmax Hs Hfence Hf| | | | |]; subst.
  pose proof L as [L0 L1 L2 L3 L4 L5 L6 L7 L8 LO LS LI L9].
  assert (Hn : next_input_seq r' = next_input_seq r + 1) by (rewrite Hnext; apply wrap_small; split; lia).
  rewrite Hn in Hseq.
  assert (Hle : forall seq, held r seq -> 1 <= seq <= next_input_seq r).
  { intros seq [s Hin]. exact (queue_seq_le _ _ _ _ _ _ (L1 s) Hin). }
  assert (Hnew : ~ held r (input_seq batch)) by (intros Hh; specialize (Hle _ Hh); lia).
  assert (Hheld : forall seq, held r' seq <-> held r seq \/ seq = input_seq batch).
  { intros seq. unfold held. split.
    - intros [s Hin]. destruct (decide (s = input_session batch)) as [->|Hne'].
      + rewrite Hl, fmap_app, elem_of_app in Hin. cbn in Hin. rewrite list_elem_of_singleton in Hin. destruct Hin as [?| ->]; [left; by eexists|by right].
      + left. exists s. by rewrite <- (os_batches _ _ _ Ho).
    - intros [[s Hin]| ->].
      + exists s. destruct (decide (s = input_session batch)) as [->|Hne']; [|by rewrite (os_batches _ _ _ Ho)].
        rewrite Hl, fmap_app. by apply elem_of_app; left.
      + exists (input_session batch). rewrite Hl, fmap_app. apply elem_of_app. right. by apply list_elem_of_singleton. }
  assert (Hapart : forall s seq, seq ∈ input_seq <$> outstanding r' s ->
            seq ∈ input_seq <$> outstanding r s \/ (s = input_session batch /\ seq = input_seq batch)).
  { intros s seq Hin. destruct (decide (s = input_session batch)) as [->|Hne']; [|left; by rewrite <- (os_batches _ _ _ Ho)].
    rewrite Hl, fmap_app, elem_of_app in Hin. cbn in Hin. rewrite list_elem_of_singleton in Hin. naive_solver. }
  constructor.
  - lia.
  - intros other. destruct (decide (other = input_session batch)) as [->|Hne'].
    + rewrite Hl, Hb, Hn. pose proof (L1 (input_session batch)) as [Q1 Q2 Q3 Q4 Q5 Q6]. constructor.
      * apply Forall_app. split.
        -- eapply Forall_impl; [exact Q1|]. intros b Hbo. by apply (batch_ok_later _ (next_input_seq r)); [|lia|].
        -- constructor; [|constructor]. constructor; [done|lia|done| | |].
           ++ by rewrite Hs, Hfence.
           ++ rewrite hand_app. cbn. rewrite Hs. apply L8. lia.
           ++ rewrite taken_app, fmap_app. apply elem_of_app. right. by apply list_elem_of_singleton.
      * rewrite fmap_app. apply sorted_lt_snoc; [done|]. apply Forall_forall. intros seq Hin.
        assert (seq <= next_input_seq r) by (apply Hle; by eexists). lia.
      * rewrite batch_bytes_app, Q3. unfold total_bytes at 3. cbn. lia.
      * autorewrite with lens. lia.
      * done.
      * rewrite List.filter_app. cbn. by rewrite Hs, app_nil_r.
    + eapply queue_ok_other; [done|done|done|lia|done].
  - intros s1 s2 seq H1 H2. apply Hapart in H1 as [H1|[-> E1]], H2 as [H2|[-> E2]]; [by eapply L2| | |done];
      destruct Hnew; subst seq; by eexists.
  - rewrite taken_app, fmap_app. cbn. apply NoDup_app. split_and!; [done| |apply NoDup_singleton].
    intros seq (b & -> & Hin)%list_elem_of_fmap E%list_elem_of_singleton. destruct (L4 b Hin) as [? _]. lia.
  - rewrite taken_app, done_seqs_app. intros b [Hin|Hin%list_elem_of_singleton]%elem_of_app.
    + destruct (L4 b Hin) as [? [?|?]]; (split; [lia|]); [left; apply Hheld; by left|right; by apply elem_of_app; left].
    + subst b. split; [lia|]. left. apply Hheld. by right.
  - rewrite done_seqs_app. cbn. by rewrite app_nil_r.
  - rewrite settlements_app, taken_app, fmap_app. cbn. rewrite app_nil_r. intros b o Hin. destruct (L6 b o Hin) as (H1 & H2 & H3).
    split_and!; [|done|by apply elem_of_app; left]. intros [Hh|He]%Hheld; [done|].
    apply list_elem_of_fmap in H3 as (b0 & Hst & Hin0). injection Hst as _ _ Hsq _.
    destruct (L4 b0 Hin0) as [? _]. lia.
  - intros seq. rewrite hand_app. apply L7.
  - intros seq Hlt. rewrite hand_app. apply L8. lia.
  - intros s b Hin Hu. rewrite sent_app, put_backs_app. cbn. rewrite !app_nil_r. intros Hno earlier He Hse.
    destruct (decide (s = input_session batch)) as [->|Hne'].
    + rewrite Hl in Hin. apply elem_of_app in Hin as [Hin| ->%list_elem_of_singleton]; [by apply (LO _ b Hin)|].
      destruct (LS earlier He). lia.
    + rewrite (os_batches _ _ _ Ho) in Hin by done. by apply (LO s b Hin).
  - rewrite sent_app. cbn. rewrite app_nil_r. intros b Hb1. destruct (LS b Hb1). split; [lia|].
    rewrite taken_app, fmap_app. by apply elem_of_app; left.
  - by apply sends_snoc.
  - rewrite Hf. intros seq view Hv. destruct (L9 seq view Hv) as (s & b & Hin & ? & ?). exists s, b. split_and!; [|done|done].
    destruct (decide (s = input_session batch)) as [->|Hne']; [|by rewrite (os_batches _ _ _ Ho)].
    rewrite Hl. by apply elem_of_app; left.
Qed.

(** A lane that lost the batch at one place holds the others. *)
Lemma delete_place facts next session_id batches bytes position batch b :
  queue_ok facts next session_id batches bytes -> batches !! position = Some batch ->
  b ∈ base.delete position batches <-> b ∈ batches /\ input_seq b <> input_seq batch.
Proof.
  intros Hq E. split.
  - intros (j & Hj)%list_elem_of_lookup. split.
    + eapply list_elem_of_delete_inv. by eapply list_elem_of_lookup_2.
    + intros He. destruct (decide (j < position)%nat) as [Hlt|Hge].
      * rewrite list_lookup_delete_lt in Hj by done.
        pose proof (place_unique _ _ _ _ _ _ _ _ _ Hq Hj E He). lia.
      * rewrite list_lookup_delete_ge in Hj by lia.
        pose proof (place_unique _ _ _ _ _ _ _ _ _ Hq Hj E He). lia.
  - intros [(j & Hj)%list_elem_of_lookup Hne]. destruct (decide (j < position)%nat) as [Hlt|Hge].
    + eapply list_elem_of_lookup_2. by rewrite list_lookup_delete_lt.
    + destruct (decide (j = position)) as [->|]; [congruence|].
      apply (list_elem_of_lookup_2 _ (j - 1)). rewrite list_lookup_delete_ge by lia. by replace (S (j - 1)) with j by lia.
Qed.

Lemma ledger_done facts r reported batch outcome r' :
  ledger facts r -> change r (Done reported batch outcome) r' -> ledger (facts ++ [Done reported batch outcome]) r'.
Proof.
  intros L Hc. inversion Hc as [| | |? session_id position ? ? ? Ho E Hout Htrue Hl Hb Hn Hf| |]; subst.
  pose proof L as [L0 L1 L2 L3 L4 L5 L6 L7 L8 LO LS LI L9].
  pose proof (L1 session_id) as Hq. pose proof (fun b => delete_place _ _ _ _ _ _ _ b Hq E) as Hdel.
  assert (Hin : batch ∈ outstanding r session_id) by (by eapply list_elem_of_lookup_2).
  pose proof (qo_batches _ _ _ _ _ Hq) as Hall. rewrite Forall_forall in Hall. pose proof (Hall batch Hin) as Hbo.
  assert (Hhere : held r (input_seq batch)) by (apply held_spec; by exists session_id, batch).
  assert (Hb' : forall s b, b ∈ outstanding r' s <-> b ∈ outstanding r s /\ input_seq b <> input_seq batch).
  { intros s b. destruct (decide (s = session_id)) as [->|Hne]; [by rewrite Hl|].
    rewrite (os_batches _ _ _ Ho) by done. split; [|by intros []]. intros Hb1. split; [done|]. intros He. apply Hne.
    apply (L2 s session_id (input_seq b)); apply list_elem_of_fmap; [by exists b|by exists batch]. }
  assert (Hheld : forall seq, held r' seq <-> held r seq /\ seq <> input_seq batch).
  { intros seq. rewrite !held_spec. setoid_rewrite Hb'. naive_solver. }
  assert (Hsub : forall s, input_seq <$> outstanding r' s ⊆ input_seq <$> outstanding r s).
  { intros s seq (b & -> & [Hb1 _]%Hb')%list_elem_of_fmap. apply list_elem_of_fmap. by exists b. }
  constructor.
  - by rewrite Hn.
  - intros other. destruct (decide (other = session_id)) as [->|Hne].
    + rewrite Hl, Hb, Hn. destruct Hq as [Q1 Q2 Q3 Q4 Q5 Q6]. constructor.
      * apply Forall_forall. intros b [Hb1 _]%Hdel. apply (batch_ok_later _ (next_input_seq r)); [by apply Hall|lia|done].
      * rewrite list_fmap_delete. by apply sorted_delete.
      * rewrite (total_bytes_delete _ _ _ E), Q3. unfold saturating_sub.
        pose proof (total_bytes_delete _ _ _ E). pose proof (batch_bytes_nonneg (base.delete position (outstanding r session_id))). lia.
      * unfold len in *. rewrite length_delete by (by eexists). lia.
      * unfold saturating_sub. pose proof (len_nonneg (input_bytes batch)). unfold MAX_PENDING_INPUT_BYTES_PER_SESSION in *. lia.
      * etransitivity; [apply filter_delete_len|done].
    + eapply queue_ok_other; [done|done|done|lia|done].
  - intros s1 s2 seq H1 H2. eapply L2; by apply Hsub.
  - rewrite taken_app. cbn. by rewrite app_nil_r.
  - rewrite taken_app, done_seqs_app. cbn. rewrite app_nil_r. intros b Hb1. destruct (L4 b Hb1) as [? Hor]. split; [lia|].
    destruct (decide (input_seq b = input_seq batch)) as [He|He].
    + right. apply elem_of_app. right. rewrite He. by apply list_elem_of_singleton.
    + destruct Hor as [?|?]; [left; by apply Hheld|right; apply elem_of_app; by left].
  - rewrite done_seqs_app. apply NoDup_app. split_and!; [done| |apply NoDup_singleton].
    intros seq Hseq Heq%list_elem_of_singleton. subst seq. unfold done_seqs in Hseq.
    apply list_elem_of_fmap in Hseq as ([b o] & He & Hbo'). cbn in He. destruct (L6 b o Hbo') as [Hno _]. by rewrite <- He in Hno.
  - rewrite settlements_app, taken_app. cbn. rewrite app_nil_r. intros b o [Hb1|Heq%list_elem_of_singleton]%elem_of_app.
    + destruct (L6 b o Hb1) as (H1 & H2 & H3). split_and!; [|done|done]. by intros [? _]%Hheld.
    + injection Heq as -> ->. split_and!; [by intros [_ ?]%Hheld|done|apply Hbo].
  - intros seq. rewrite hand_app. apply L7.
  - intros seq Hlt. rewrite hand_app. apply L8. lia.
  - intros s b [Hin' _]%Hb' Hu. rewrite sent_app, put_backs_app. cbn. rewrite !app_nil_r. by apply LO.
  - rewrite sent_app, taken_app, Hn. cbn. by rewrite !app_nil_r.
  - by apply sends_snoc.
  - rewrite Hf. intros seq view Hw. assert (Hold : watched (outcome_feed r) !! seq = Some view /\ seq <> input_seq batch).
    { revert Hw. unfold observe_outcome. rewrite Hout. destruct (watched (outcome_feed r) !! input_seq batch) as [v|] eqn:Ew.
      - cbn. intros [? ?]%lookup_delete_Some. done.
      - intros Hw. split; [done|]. intros ->. congruence. }
    destruct Hold as [Hold Hne]. destruct (L9 seq view Hold) as (s & b & Hb1 & <- & Hv). exists s, b. split_and!; [|done|done].
    by apply Hb'.
Qed.

Lemma note_watched f note seq view :
  watched (apply_note f note) !! seq = Some view ->
  watched f !! seq = Some view \/ exists batch, note = Noted (Some view) (Ok batch) /\ input_seq batch = seq.
Proof.
  destruct note as [[v|] [batch|refusal]|v|v|v]; cbn; intros Hw; auto.
  - apply lookup_insert_Some in Hw as [[<- <-]|[_ Hw]]; [right; by exists batch|by left].
  - apply map_lookup_filter_Some in Hw as [Hw _]. by left.
Qed.

Lemma ledger_feed facts r note r' : ledger facts r -> change r (Fed note) r' -> ledger (facts ++ [Fed note]) r'.
Proof.
  intros L Hc. inversion Hc as [| | | | |? ? Hb Hy Hn Hf Hok]; subst.
  apply (ledger_in_place facts r (Fed note) r'); try done; [lia|by intros s; rewrite Hb| | |].
  - intros s. rewrite Hb, Hy. eapply queue_ok_later; [apply L|lia|done].
  - setoid_rewrite Hb. rewrite sent_app, put_backs_app. cbn. rewrite !app_nil_r. apply L.
  - rewrite Hf. intros seq view Hv. setoid_rewrite Hb. apply note_watched in Hv as [Hv|(batch & -> & <-)]; [by apply (lg_watched _ _ L)|].
    destruct Hok as [Hin Hview]. by exists (input_session batch), batch.
Qed.

Lemma ledger_change facts r fact r' :
  ledger facts r -> change r fact r' -> next_input_seq r + 1 < 2 ^ 64 -> ledger (facts ++ [fact]) r'.
Proof.
  intros L Hc Hw. pose proof L as [L0 L1 L2 L3 L4 L5 L6 L7 L8 LO LS LI L9].
  destruct fact as [batch|batch token at_ms|batch|reported batch outcome| |note].
  - by apply (ledger_take facts r).
  - inversion Hc; subst. by eapply ledger_update.
  - inversion Hc; subst. by eapply ledger_update.
  - by apply (ledger_done facts r).
  - inversion Hc as [| | | |? Hb Hy Hn Hf|]; subst.
    assert (Hn' : next_input_seq r' = next_input_seq r + 1) by (rewrite Hn; apply wrap_small; split; lia).
    apply (ledger_in_place facts r Burned r'); try done; [lia|by intros s; rewrite Hb| | |].
    + intros s. rewrite Hb, Hy. eapply queue_ok_later; [apply L1|lia|done].
    + setoid_rewrite Hb. rewrite sent_app, put_backs_app. cbn. by rewrite !app_nil_r.
    + rewrite Hf. by setoid_rewrite Hb.
  - by apply (ledger_feed facts r).
Qed.

Lemma ledger_quiet facts r r' : ledger facts r -> quiet r r' -> ledger facts r'.
Proof.
  intros [L0 L1 L2 L3 L4 L5 L6 L7 L8 LO LS LI L9] [Q1 Q2 Q3 Q4].
  assert (Hheld : forall seq, held r' seq <-> held r seq) by (intros seq; unfold held; by setoid_rewrite Q1).
  constructor; try done; try (setoid_rewrite Hheld); try (setoid_rewrite Q1); try rewrite Q3; try rewrite Q4; try done.
  intros s. rewrite Q2. apply L1.
Qed.

(** The sequences a list of facts spends. *)
Definition spends (facts : list Fact) : Z :=
  len (List.filter (fun fact => match fact with Took _ | Burned => true | _ => false end) facts).

Lemma spends_app a b : spends (a ++ b) = spends a + spends b.
Proof. unfold spends. rewrite List.filter_app. by autorewrite with lens. Qed.

Lemma change_next r fact r' :
  change r fact r' -> next_input_seq r' = (if spends [fact] =? 0 then next_input_seq r else u64 (next_input_seq r + 1)).
Proof. by destruct 1. Qed.

(** ** The router's operations as changes of the ledger

    Which batches each operation of [InputRouter] takes, hands over, puts back
    or settles, and with which outcomes. *)
(** ** Lanes *)

Lemma outstanding_put r session_id lane other :
  outstanding (put_lane r session_id lane) other = if decide (other = session_id) then pending lane else outstanding r other.
Proof.
  unfold outstanding, put_lane, with_lanes. cbn. case_decide as He; [subst; by rewrite lookup_insert_eq|by rewrite lookup_insert_ne].
Qed.

Lemma lane_bytes_put r session_id lane other :
  lane_bytes (put_lane r session_id lane) other = if decide (other = session_id) then pending_bytes lane else lane_bytes r other.
Proof.
  unfold lane_bytes, put_lane, with_lanes. cbn. case_decide as He; [subst; by rewrite lookup_insert_eq|by rewrite lookup_insert_ne].
Qed.

Lemma outstanding_mut r session_id : pending (lane_mut r session_id) = outstanding r session_id.
Proof. unfold lane_mut, outstanding. by destruct (lanes r !! session_id). Qed.

Lemma lane_bytes_mut r session_id : pending_bytes (lane_mut r session_id) = lane_bytes r session_id.
Proof. unfold lane_mut, lane_bytes. by destruct (lanes r !! session_id). Qed.

Lemma lane_mut_Some r session_id lane : lanes r !! session_id = Some lane -> lane_mut r session_id = lane.
Proof. unfold lane_mut. by intros ->. Qed.

Lemma put_others r session_id lane : others_same session_id r (put_lane r session_id lane).
Proof. constructor; intros other Hne; [rewrite outstanding_put|rewrite lane_bytes_put]; by rewrite decide_False. Qed.

(** A lane written back with its batches. *)
Lemma put_quiet r session_id lane :
  pending lane = outstanding r session_id -> pending_bytes lane = lane_bytes r session_id -> quiet r (put_lane r session_id lane).
Proof.
  intros Hp Hb. constructor; try done; intros other; [rewrite outstanding_put|rewrite lane_bytes_put]; by case_decide; subst.
Qed.

Lemma map_quiet r (f : InputLane -> InputLane) :
  (forall lane, pending (f lane) = pending lane /\ pending_bytes (f lane) = pending_bytes lane) ->
  quiet r (with_lanes r (f <$> lanes r)).
Proof.
  intros Hf. constructor; try done; intros s; unfold outstanding, lane_bytes, with_lanes; cbn; rewrite lookup_fmap;
    destruct (lanes r !! s) as [lane|]; cbn; try done; apply Hf.
Qed.

(** ** Settling many batches at once *)

Definition drop_seqs (seqs : list Z) (batches : list PendingInput) : list PendingInput :=
  List.filter (fun batch => negb (bool_decide (input_seq batch ∈ seqs))) batches.

Lemma elem_of_filter_b {A} (f : A -> bool) l x : x ∈ List.filter f l <-> x ∈ l /\ f x = true.
Proof. rewrite !list_elem_of_In. apply filter_In. Qed.

Lemma elem_of_drop_seqs seqs batches b : b ∈ drop_seqs seqs batches <-> b ∈ batches /\ input_seq b ∉ seqs.
Proof. unfold drop_seqs. rewrite elem_of_filter_b, negb_true_iff, bool_decide_eq_false. done. Qed.

Lemma drop_seqs_app a b batches : drop_seqs b (drop_seqs a batches) = drop_seqs (a ++ b) batches.
Proof.
  unfold drop_seqs. induction batches as [|x l IH]; [done|]. cbn.
  destruct (bool_decide_reflect (input_seq x ∈ a)) as [Ha|Ha]; cbn.
  - rewrite bool_decide_eq_true_2 by (by apply elem_of_app; left). done.
  - rewrite (bool_decide_ext (input_seq x ∈ a ++ b) (input_seq x ∈ b)) by (rewrite elem_of_app; naive_solver).
    case_bool_decide; cbn; by rewrite IH.
Qed.

Lemma drop_seqs_none seqs batches : (forall b, b ∈ batches -> input_seq b ∉ seqs) -> drop_seqs seqs batches = batches.
Proof.
  intros Hn. unfold drop_seqs. induction batches as [|x l IH]; [done|]. cbn.
  rewrite bool_decide_eq_false_2 by (apply Hn; by left). cbn. f_equal. apply IH. intros b Hb. apply Hn. by right.
Qed.

Lemma drop_one batches position batch :
  NoDup (input_seq <$> batches) -> batches !! position = Some batch ->
  base.delete position batches = drop_seqs [input_seq batch] batches.
Proof.
  intros Hnd E. rewrite delete_take_drop. pose proof (take_drop_middle batches position batch E) as Hm.
  rewrite <- Hm in Hnd at 1. rewrite <- Hm at 3. rewrite fmap_app in Hnd. cbn in Hnd.
  apply NoDup_app in Hnd as (_ & Hno & Hnd). apply NoDup_cons in Hnd as [Hno2 _].
  unfold drop_seqs. rewrite List.filter_app. cbn.
  rewrite bool_decide_eq_true_2 by (by apply list_elem_of_singleton). cbn. f_equal; symmetry.
  - apply (drop_seqs_none [input_seq batch]). intros b Hb He%list_elem_of_singleton.
    apply (Hno (input_seq b)); [apply list_elem_of_fmap; by exists b|rewrite He; by left].
  - apply (drop_seqs_none [input_seq batch]). intros b Hb He%list_elem_of_singleton. apply Hno2.
    rewrite <- He. apply list_elem_of_fmap. by exists b.
Qed.

Lemma ledger_unique facts r s1 s2 b1 b2 :
  ledger facts r -> b1 ∈ outstanding r s1 -> b2 ∈ outstanding r s2 -> input_seq b1 = input_seq b2 -> s1 = s2 /\ b1 = b2.
Proof.
  intros L H1 H2 He.
  assert (Hs : s1 = s2).
  { eapply (lg_apart _ _ L); apply list_elem_of_fmap; [by exists b1|by exists b2]. }
  subst s2. split; [done|]. apply list_elem_of_lookup in H1 as [i Hi], H2 as [j Hj].
  pose proof (place_unique _ _ _ _ _ _ _ _ _ (lg_queue _ _ L s1) Hi Hj He). subst j. congruence.
Qed.

Lemma ledger_nodup facts r session_id : ledger facts r -> NoDup (input_seq <$> outstanding r session_id).
Proof. intros L. eapply sorted_nodup, qo_sorted, (lg_queue _ _ L). Qed.

(** The settlement of one batch, as it is made of any operation. *)
Definition settled_one (r : InputRouter) (session_id : string) (batch : PendingInput) (outcome : InputOutcome) : InputRouter :=
  let batches := drop_seqs [input_seq batch] (outstanding r session_id) in
  observe_settled (put_lane r session_id (with_pending (lane_mut r session_id) batches (total_bytes batches))) [outcome].

Lemma settled_one_change facts r session_id batch reported outcome :
  ledger facts r -> batch ∈ outstanding r session_id -> outcome_seq outcome = input_seq batch ->
  (reported = true \/ truthful batch outcome) ->
  change r (Done reported batch outcome) (settled_one r session_id batch outcome).
Proof.
  intros L (position & E)%list_elem_of_lookup Ho Ht. pose proof (ledger_nodup _ _ session_id L) as Hnd.
  pose proof (lg_queue _ _ L session_id) as [_ _ Htot _ _].
  apply (change_done _ _ session_id position); try done.
  - unfold settled_one. set (lane := with_pending _ _ _). destruct (put_others r session_id lane) as [O1 O2].
    constructor; [apply O1|apply O2].
  - unfold settled_one. rewrite (drop_one _ position batch Hnd E). unfold observe_settled, with_feed, outstanding at 1. cbn.
    by rewrite lookup_insert_eq.
  - unfold settled_one, observe_settled, with_feed, lane_bytes at 1. cbn. rewrite lookup_insert_eq. cbn.
    rewrite <- (drop_one _ position batch Hnd E), (total_bytes_delete _ _ _ E), Htot. unfold saturating_sub.
    pose proof (batch_bytes_nonneg (base.delete position (outstanding r session_id))).
    rewrite (total_bytes_delete _ _ _ E) in *. lia.
Qed.

Lemma settled_one_outstanding r session_id batch outcome other :
  outstanding (settled_one r session_id batch outcome) other
  = if decide (other = session_id) then drop_seqs [input_seq batch] (outstanding r other) else outstanding r other.
Proof. unfold settled_one. change (outstanding (observe_settled ?r' ?o)) with (outstanding r'). rewrite outstanding_put. by case_decide; subst. Qed.

(** A settlement: whose, and what is said of it. *)
Record Settlement := mkSettlement { st_session : string; st_batch : PendingInput; st_outcome : InputOutcome }.

Definition st_seq (d : Settlement) : Z := input_seq (st_batch d).

Definition as_fact (reported : bool) (d : Settlement) : Fact := Done reported (st_batch d) (st_outcome d).

Definition settles_truly (reported : bool) (r : InputRouter) (d : Settlement) : Prop :=
  st_batch d ∈ outstanding r (st_session d) /\ outcome_seq (st_outcome d) = st_seq d
  /\ (reported = true \/ truthful (st_batch d) (st_outcome d)).

Lemma ledger_settled_one facts r reported d :
  ledger facts r -> settles_truly reported r d -> next_input_seq r + 1 < 2 ^ 64 ->
  ledger (facts ++ [as_fact reported d]) (settled_one r (st_session d) (st_batch d) (st_outcome d)).
Proof.
  intros L (H1 & H2 & H3) Hw. apply (ledger_change facts r); [done| |done]. by eapply settled_one_change.
Qed.

(** Any operation that leaves of the lanes what was not settled, with exact
    bytes, and tells the feed, is that list of settlements. *)
Lemma settle_many reported settlements_made facts r r' :
  ledger facts r -> NoDup (st_seq <$> settlements_made) -> Forall (settles_truly reported r) settlements_made ->
  (forall session_id, outstanding r' session_id = drop_seqs (st_seq <$> settlements_made) (outstanding r session_id)) ->
  (forall session_id, lane_bytes r' session_id = total_bytes (outstanding r' session_id)) ->
  next_input_seq r' = next_input_seq r ->
  outcome_feed r' = foldl observe_outcome (outcome_feed r) (st_outcome <$> settlements_made) ->
  next_input_seq r + 1 < 2 ^ 64 ->
  changes r (as_fact reported <$> settlements_made) r'.
Proof.
  intros L Hnd Htrue Hout Hbytes Hnext Hfeed Hw. revert facts r L Hnd Htrue Hout Hnext Hfeed Hw.
  induction settlements_made as [|d ds IH]; intros facts r L Hnd Htrue Hout Hnext Hfeed Hw; cbn in *.
  - apply changes_quiet. constructor; try done.
    + intros s. rewrite Hout. apply drop_seqs_none. intros b _. apply not_elem_of_nil.
    + intros s. rewrite Hbytes, Hout, drop_seqs_none by (intros b _; apply not_elem_of_nil).
      symmetry. apply (qo_total _ _ _ _ _ (lg_queue _ _ L s)).
  - apply NoDup_cons in Hnd as [Hno Hnd]. apply Forall_cons in Htrue as [Hd Htrue]. destruct Hd as (Hin & Ho & Ht).
    set (r1 := settled_one r (st_session d) (st_batch d) (st_outcome d)).
    eapply changes_step; [by eapply settled_one_change|]. fold r1.
    assert (Hr1 : forall s, outstanding r1 s = drop_seqs [st_seq d] (outstanding r s)).
    { intros s. unfold r1. rewrite settled_one_outstanding. case_decide as Hs; [done|].
      symmetry. apply drop_seqs_none. intros b Hb He%list_elem_of_singleton. apply Hs.
      apply (ledger_unique _ _ _ _ _ _ L Hb Hin He). }
    apply (IH (facts ++ [as_fact reported d]) r1); try done.
    + apply ledger_settled_one; [done|by split_and!|done].
    + eapply Forall_impl; [apply Forall_and; split; [exact Htrue|]|].
      * apply Forall_forall. intros d' Hd'. exact (Hd').
      * cbn. intros d' ((H1 & H2 & H3) & Hd'). split_and!; [|done|done]. rewrite Hr1. apply elem_of_drop_seqs. split; [done|].
        intros He%list_elem_of_singleton. apply Hno. rewrite <- He. apply list_elem_of_fmap. by exists d'.
    + intros s. rewrite Hout, Hr1, drop_seqs_app. done.
Qed.

(** ** One batch taken out of a lane *)

Lemma settle_in_spec lane seq :
  NoDup (input_seq <$> pending lane) ->
  match settle_in lane seq with
  | Some lane' =>
      seq ∈ input_seq <$> pending lane
      /\ lane' = with_pending lane (drop_seqs [seq] (pending lane))
                   (saturating_sub (pending_bytes lane) (total_bytes (pending lane) - total_bytes (drop_seqs [seq] (pending lane))))
  | None => seq ∉ input_seq <$> pending lane
  end.
Proof.
  intros Hnd. unfold settle_in, find_input. destruct (list_find _ (pending lane)) as [[position batch]|] eqn:E.
  - apply list_find_Some in E as (E & He & _). split; [apply list_elem_of_fmap; exists batch; split; [done|by eapply list_elem_of_lookup_2]|].
    subst seq. rewrite <- (drop_one _ _ _ Hnd E). do 2 f_equal. rewrite (total_bytes_delete _ _ _ E). lia.
  - apply list_find_None in E. rewrite Forall_forall in E. intros (b & -> & Hb)%list_elem_of_fmap. by apply (E b).
Qed.

Lemma settle_in_exact lane seq lane' :
  NoDup (input_seq <$> pending lane) -> pending_bytes lane = total_bytes (pending lane) -> settle_in lane seq = Some lane' ->
  seq ∈ input_seq <$> pending lane
  /\ lane' = with_pending lane (drop_seqs [seq] (pending lane)) (total_bytes (drop_seqs [seq] (pending lane))).
Proof.
  intros Hnd Hb E. pose proof (settle_in_spec lane seq Hnd) as Hs. rewrite E in Hs. destruct Hs as [Hin ->]. split; [done|].
  f_equal. rewrite Hb. unfold saturating_sub. pose proof (batch_bytes_nonneg (drop_seqs [seq] (pending lane))). lia.
Qed.

Lemma drop_seqs_nodup seqs batches : NoDup (input_seq <$> batches) -> NoDup (input_seq <$> drop_seqs seqs batches).
Proof.
  intros Hnd. unfold drop_seqs. induction batches as [|x l IH]; [done|]. cbn in *. apply NoDup_cons in Hnd as [Hno Hnd].
  destruct (negb _); cbn; [|by apply IH]. apply NoDup_cons. split; [|by apply IH].
  intros (b & He & [Hb _]%elem_of_filter_b)%list_elem_of_fmap. apply Hno. rewrite He. apply list_elem_of_fmap. by exists b.
Qed.

Lemma settle_in_None lane seq : NoDup (input_seq <$> pending lane) -> seq ∈ input_seq <$> pending lane -> settle_in lane seq <> None.
Proof. intros Hnd Hin E. pose proof (settle_in_spec lane seq Hnd) as Hs. by rewrite E in Hs. Qed.

(** ** Settling by sequence *)

Lemma quiet_outstanding r r' : quiet r r' -> forall s, outstanding r' s = outstanding r s.
Proof. apply q_batches. Qed.

Lemma settle_first_Some all seq session_id lane :
  settle_first all seq = Some (session_id, lane) ->
  exists old, (session_id, old) ∈ all /\ settle_in old seq = Some lane.
Proof.
  induction all as [|[s old] rest IH]; cbn; [done|]. destruct (settle_in old seq) as [new|] eqn:E.
  - intros [= <- <-]. exists old. split; [by left|done].
  - intros (o & Hin & Ho)%IH. exists o. split; [by right|done].
Qed.

Lemma settle_first_None all seq : settle_first all seq = None -> forall s old, (s, old) ∈ all -> settle_in old seq = None.
Proof.
  induction all as [|[s old] rest IH]; cbn; [by intros _ s old ?%not_elem_of_nil|].
  destruct (settle_in old seq) as [new|] eqn:E; [done|]. intros Hn s' old' [[= -> ->]|Hin]%elem_of_cons; [done|by eapply IH].
Qed.

Lemma outstanding_Some r session_id lane : lanes r !! session_id = Some lane -> outstanding r session_id = pending lane.
Proof. unfold outstanding. by intros ->. Qed.

Lemma outstanding_None r session_id : lanes r !! session_id = None -> outstanding r session_id = [].
Proof. unfold outstanding. by intros ->. Qed.

Lemma lane_bytes_Some r session_id lane : lanes r !! session_id = Some lane -> lane_bytes r session_id = pending_bytes lane.
Proof. unfold lane_bytes. by intros ->. Qed.

(** A lane that was found and settled, written back and observed. *)
Lemma settled_lane_change facts r session_id old lane seq outcome reported :
  ledger facts r -> lanes r !! session_id = Some old -> settle_in old seq = Some lane -> outcome_seq outcome = seq ->
  (forall s b, b ∈ outstanding r s -> input_seq b = seq -> reported = true \/ truthful b outcome) ->
  exists batch, batch ∈ outstanding r session_id /\ input_seq batch = seq
    /\ change r (Done reported batch outcome) (observe_settled (put_lane r session_id lane) [outcome])
    /\ forall s, outstanding (observe_settled (put_lane r session_id lane) [outcome]) s = drop_seqs [seq] (outstanding r s).
Proof.
  intros L E Hs Ho Ht. pose proof (ledger_nodup _ _ session_id L) as Hnd.
  pose proof (qo_total _ _ _ _ _ (lg_queue _ _ L session_id)) as Hb.
  rewrite (lane_bytes_Some _ _ _ E), (outstanding_Some _ _ _ E) in Hb. rewrite (outstanding_Some _ _ _ E) in Hnd.
  destruct (settle_in_exact _ _ _ Hnd Hb Hs) as [(batch & -> & Hin)%list_elem_of_fmap ->].
  rewrite <- (outstanding_Some _ _ _ E) in Hin. exists batch.
  assert (Heq : observe_settled (put_lane r session_id
            (with_pending old (drop_seqs [input_seq batch] (pending old)) (total_bytes (drop_seqs [input_seq batch] (pending old))))) [outcome]
          = settled_one r session_id batch outcome).
  { unfold settled_one. by rewrite (lane_mut_Some _ _ _ E), (outstanding_Some _ _ _ E). }
  rewrite Heq. split_and!; [done|done| |].
  - eapply settled_one_change; eauto.
  - intros s. rewrite settled_one_outstanding. case_decide as Hd; [done|]. symmetry. apply drop_seqs_none.
    intros b Hb' He%list_elem_of_singleton. apply Hd. apply (ledger_unique _ _ _ _ _ _ L Hb' Hin He).
Qed.

Lemma settle_changes facts r seq outcome reported :
  ledger facts r -> outcome_seq outcome = seq ->
  (forall s b, b ∈ outstanding r s -> input_seq b = seq -> reported = true \/ truthful b outcome) ->
  let '(r', found) := settle r seq outcome in
  (forall s, outstanding r' s = drop_seqs [seq] (outstanding r s))
  /\ if found then exists s batch, batch ∈ outstanding r s /\ input_seq batch = seq /\ change r (Done reported batch outcome) r'
     else r' = r /\ ~ held r seq.
Proof.
  intros L Ho Ht. unfold settle. rewrite Ho, Z.eqb_refl. cbn [negb].
  destruct (settle_first (bindings (lanes r)) seq) as [[session_id lane]|] eqn:E.
  - apply settle_first_Some in E as (old & Hin & Hs). apply elem_of_bindings in Hin.
    destruct (settled_lane_change _ _ _ _ _ _ _ _ L Hin Hs Ho Ht) as (batch & H1 & H2 & H3 & H4).
    split; [done|]. by exists session_id, batch.
  - assert (Hno : forall s, seq ∉ input_seq <$> outstanding r s).
    { intros s Hin. destruct (lanes r !! s) as [old|] eqn:El; [|rewrite (outstanding_None _ _ El) in Hin; by apply not_elem_of_nil in Hin].
      pose proof (settle_first_None _ _ E s old ltac:(by apply elem_of_bindings)) as Hn.
      rewrite (outstanding_Some _ _ _ El) in Hin. pose proof (ledger_nodup _ _ s L) as Hnd. rewrite (outstanding_Some _ _ _ El) in Hnd.
      by eapply settle_in_None. }
    split_and!; [|done|by intros [s ?%Hno]]. intros s. symmetry. apply drop_seqs_none. intros b Hb He%list_elem_of_singleton.
    apply (Hno s). rewrite <- He. apply list_elem_of_fmap. by exists b.
Qed.

Lemma settle_from_changes facts r session_id token seq outcome :
  ledger facts r ->
  let '(r', found) := settle_from r session_id token seq outcome in
  if found then exists batch, batch ∈ outstanding r session_id /\ input_seq batch = seq /\ outcome_seq outcome = seq
                 /\ fence batch = Some (mkTerminalFence token) /\ change r (Done true batch outcome) r'
  else r' = r.
Proof.
  intros L. unfold settle_from. destruct (Z.eqb_spec (outcome_seq outcome) seq) as [Ho|]; cbn [negb]; [|done].
  destruct (lanes r !! session_id) as [lane|] eqn:El; [|done].
  destruct (find_input (pending lane) seq) as [[position found]|] eqn:Ef; [|done].
  destruct (carried_by _ found) eqn:Ec; [|done]. destruct (settle_in lane seq) as [lane'|] eqn:Es; [|done].
  destruct (settled_lane_change _ _ _ _ _ _ outcome true L El Es Ho ltac:(by left)) as (batch & H1 & H2 & H3 & _).
  exists batch. apply list_find_Some in Ef as (Ef & He & _).
  assert (Hf : batch = found).
  { eapply ledger_unique; [exact L|exact H1| |by rewrite He].
    rewrite (outstanding_Some _ _ _ El). by eapply list_elem_of_lookup_2. }
  subst found. split_and!; try done. unfold carried_by in Ec. destruct (fence batch) as [[t]|]; [|done].
  apply bool_decide_eq_true in Ec. cbn in Ec. by subst.
Qed.

(** A settlement no carrier reported. *)
Definition is_done (fact : Fact) : Prop := match fact with Done reported _ _ => reported = false | _ => False end.

Lemma change_done_next r reported batch outcome r' : change r (Done reported batch outcome) r' -> next_input_seq r' = next_input_seq r.
Proof. by inversion 1. Qed.

(** A sweep: the batches it names are settled, the others stay. *)
Lemma settle_all_changes facts r seqs outcome :
  ledger facts r -> next_input_seq r + 1 < 2 ^ 64 -> (forall seq, outcome_seq (outcome seq) = seq) ->
  (forall seq s b, seq ∈ seqs -> b ∈ outstanding r s -> input_seq b = seq -> truthful b (outcome seq)) ->
  let r' := fst (settle_all r seqs outcome) in
  (exists more, changes r more r' /\ Forall is_done more /\ ledger (facts ++ more) r')
  /\ next_input_seq r' = next_input_seq r
  /\ forall s, outstanding r' s = drop_seqs seqs (outstanding r s).
Proof.
  intros L Hw Ho. unfold settle_all. cbn [fst]. revert facts r L Hw.
  induction seqs as [|seq seqs IH]; intros facts r L Hw Ht; cbn [foldl].
  - split_and!; [exists []; rewrite app_nil_r; by split_and!; [apply changes_nil|constructor|]|done|].
    intros s. symmetry. apply drop_seqs_none. intros b _. apply not_elem_of_nil.
  - pose proof (settle_changes facts r seq (outcome seq) false L (Ho seq) ltac:(intros s b Hb He; right; apply (Ht seq s); [by left|done..])) as Hc.
    destruct (settle r seq (outcome seq)) as [r1 found]. cbn [fst]. destruct Hc as [Hout Hc].
    assert (Ht1 : forall seq' s b, seq' ∈ seqs -> b ∈ outstanding r1 s -> input_seq b = seq' -> truthful b (outcome seq')).
    { intros seq' s b Hs Hb. rewrite Hout in Hb. apply elem_of_drop_seqs in Hb as [Hb _]. apply (Ht seq' s); [by right|done]. }
    assert (Hdrop : forall s, drop_seqs seqs (outstanding r1 s) = drop_seqs (seq :: seqs) (outstanding r s)).
    { intros s. by rewrite Hout, drop_seqs_app. }
    destruct found.
    + destruct Hc as (s & batch & Hin & He & Hch).
      pose proof (ledger_change _ _ _ _ L Hch Hw) as L1. pose proof (change_done_next _ _ _ _ _ Hch) as Hn.
      destruct (IH _ r1 L1 ltac:(by rewrite Hn) Ht1) as ((more & M1 & M2 & M3) & Hn' & Hd).
      split_and!; [|by rewrite Hn'|intros s'; by rewrite Hd, Hdrop].
      exists (Done false batch (outcome seq) :: more). split_and!; [by eapply changes_step|by constructor|].
      by rewrite cons_middle, app_assoc.
    + destruct Hc as [-> _]. destruct (IH facts r L Hw Ht1) as (M & Hn' & Hd). split_and!; [done|done|].
      intros s. by rewrite Hd, Hdrop.
Qed.

(** Of two batches with one sequence there is one, so what holds of a batch a
    sweep found holds of whatever it settles. *)
Lemma sweep_finds facts r (keep : InputLane -> bool) (test : PendingInput -> bool) seq s b :
  ledger facts r ->
  seq ∈ input_seq <$> (List.filter keep (values (lanes r)) ≫= fun l => List.filter test (pending l)) ->
  b ∈ outstanding r s -> input_seq b = seq -> test b = true.
Proof.
  intros L (found & -> & Hin)%list_elem_of_fmap Hb He. apply list_elem_of_bind in Hin as (lane & Hin & Hlane).
  apply elem_of_filter_b in Hin as [Hin Htest], Hlane as [Hlane _]. apply elem_of_values in Hlane as [s' El].
  rewrite <- (outstanding_Some _ _ _ El) in Hin. by destruct (ledger_unique _ _ _ _ _ _ L Hb Hin He) as [_ ->].
Qed.

(** ** Sweeps *)

Lemma sweep_held_changes facts r now_ms :
  ledger facts r -> next_input_seq r + 1 < 2 ^ 64 ->
  let r' := fst (sweep_held r now_ms) in
  (exists more, changes r more r' /\ Forall is_done more /\ ledger (facts ++ more) r') /\ next_input_seq r' = next_input_seq r
  /\ forall s, outstanding r' s
       = drop_seqs (input_seq <$> (List.filter waits_for_route (values (lanes r)) ≫= fun l => List.filter (held_too_long now_ms) (pending l)))
           (outstanding r s).
Proof.
  intros L Hw. apply (settle_all_changes facts); [done|done|done|]. intros seq s b Hin Hb He.
  pose proof (sweep_finds _ _ _ _ _ _ _ L Hin Hb He) as Ht. unfold held_too_long in Ht.
  apply andb_true_iff in Ht as [Ht%negb_true_iff _]. unfold truthful. by rewrite Ht.
Qed.

Lemma filter_all_true {A} (l : list A) : List.filter (fun _ => true) l = l.
Proof. induction l as [|x l IH]; [done|]. cbn. by rewrite IH. Qed.

Lemma sweep_unanswered_changes facts r now_ms :
  ledger facts r -> next_input_seq r + 1 < 2 ^ 64 ->
  let r' := fst (sweep_unanswered r now_ms) in
  (exists more, changes r more r' /\ Forall is_done more /\ ledger (facts ++ more) r') /\ next_input_seq r' = next_input_seq r
  /\ forall s, outstanding r' s
       = drop_seqs (input_seq <$> (values (lanes r) ≫= fun l => List.filter (unanswered now_ms) (pending l))) (outstanding r s).
Proof.
  intros L Hw. apply (settle_all_changes facts); [done|done|done|]. intros seq s b Hin Hb He.
  rewrite <- (filter_all_true (values (lanes r))) in Hin.
  pose proof (sweep_finds _ _ _ _ _ _ _ L Hin Hb He) as Ht. unfold unanswered in Ht.
  apply andb_true_iff in Ht as [Ht _]. unfold truthful. by rewrite Ht.
Qed.

(** ** Walks over one lane *)

(** A walk that settles the batches of a lane one by one, with an outcome each. *)
Definition settle_step (outcome : Z * bool -> InputOutcome) (mark : InputLane -> Z * bool -> InputLane)
    (acc : InputLane * list InputOutcome) (batch : Z * bool) : InputLane * list InputOutcome :=
  let '(lane, outcomes) := acc in
  match settle_in lane (fst batch) with
  | Some lane => (mark lane batch, outcomes ++ [outcome batch])
  | None => acc
  end.

Lemma settle_walk outcome mark batches lane outcomes :
  (forall l b, pending (mark l b) = pending l /\ pending_bytes (mark l b) = pending_bytes l) ->
  NoDup (input_seq <$> pending lane) -> pending_bytes lane = total_bytes (pending lane) ->
  NoDup (fst <$> batches) -> Forall (fun b => fst b ∈ input_seq <$> pending lane) batches ->
  let '(lane', outcomes') := foldl (settle_step outcome mark) (lane, outcomes) batches in
  pending lane' = drop_seqs (fst <$> batches) (pending lane)
  /\ pending_bytes lane' = total_bytes (pending lane') /\ outcomes' = outcomes ++ (outcome <$> batches).
Proof.
  intros Hmark. revert lane outcomes. induction batches as [|b batches IH]; intros lane outcomes Hnd Hb Hnb Hall; cbn [foldl].
  - rewrite app_nil_r. split_and!; [|done|done]. symmetry. apply drop_seqs_none. intros x _. apply not_elem_of_nil.
  - cbn in Hnb. apply NoDup_cons in Hnb as [Hno Hnb]. apply Forall_cons in Hall as [Hin Hall]. cbn [settle_step].
    destruct (settle_in lane (fst b)) as [lane1|] eqn:E; [|by destruct (settle_in_None lane (fst b) Hnd Hin)].
    destruct (settle_in_exact _ _ _ Hnd Hb E) as [_ ->]. set (l1 := with_pending _ _ _). destruct (Hmark l1 b) as [M1 M2].
    specialize (IH (mark l1 b) (outcomes ++ [outcome b])). rewrite M1, M2 in IH. cbn [l1 with_pending pending pending_bytes] in IH.
    destruct (foldl _ _ batches) as [lane' outcomes']. destruct IH as (I1 & I2 & I3).
    + by apply drop_seqs_nodup.
    + done.
    + done.
    + rewrite Forall_forall in *. intros x Hx. destruct (proj1 (list_elem_of_fmap _ _ _) (Hall x Hx)) as (y & Hy & Hyl).
      apply list_elem_of_fmap. exists y. split; [done|]. apply elem_of_drop_seqs. split; [done|].
      rewrite <- Hy. intros He%list_elem_of_singleton. apply Hno. rewrite <- He. apply list_elem_of_fmap. by exists x.
    + split_and!; [by rewrite I1, drop_seqs_app|done|]. by rewrite I3, <- app_assoc.
Qed.

Lemma filter_seqs_nodup f batches : NoDup (input_seq <$> batches) -> NoDup (input_seq <$> List.filter f batches).
Proof.
  intros Hnd. induction batches as [|x l IH]; [done|]. cbn in *. apply NoDup_cons in Hnd as [Hno Hnd].
  destruct (f x); cbn; [|by apply IH]. apply NoDup_cons. split; [|by apply IH].
  intros (b & He & [Hb _]%elem_of_filter_b)%list_elem_of_fmap. apply Hno. rewrite He. apply list_elem_of_fmap. by exists b.
Qed.

Lemma refuse_unstarted_walk reason lane :
  foldl (refuse_one reason) (lane, []) (input_seq <$> unsent lane)
  = foldl (settle_step (fun b => Rejected (fst b) reason) (fun l _ => l)) (lane, [])
      ((fun b => (input_seq b, started b)) <$> unsent lane).
Proof.
  generalize (@nil InputOutcome). intros outcomes. generalize (unsent lane). intros batches. revert lane outcomes.
  induction batches as [|b batches IH]; intros lane outcomes; [done|]. cbn [fmap list_fmap foldl].
  cbn [refuse_one settle_step fst]. destruct (settle_in lane (input_seq b)); apply IH.
Qed.

(** The settlements of one lane's batches. *)
Definition lane_settlements (session_id : string) (outcome : PendingInput -> InputOutcome) (batches : list PendingInput) :
    list Settlement :=
  (fun b => mkSettlement session_id b (outcome b)) <$> batches.

Lemma lane_settlements_seqs session_id outcome batches :
  st_seq <$> lane_settlements session_id outcome batches = input_seq <$> batches.
Proof. unfold lane_settlements. by rewrite <- list_fmap_compose. Qed.

Lemma unsent_truthful r session_id reason lane :
  lanes r !! session_id = Some lane ->
  Forall (settles_truly false r) (lane_settlements session_id (fun b => Rejected (input_seq b) reason) (unsent lane)).
Proof.
  intros El. apply Forall_forall. intros d (b & -> & Hb)%list_elem_of_fmap. apply elem_of_filter_b in Hb as [Hb Hu%negb_true_iff].
  unfold settles_truly. cbn. rewrite (outstanding_Some _ _ _ El). split_and!; [done|done|]. right. unfold truthful. by rewrite Hu.
Qed.

Lemma refuse_unstarted_changes facts r session_id reason :
  ledger facts r -> next_input_seq r + 1 < 2 ^ 64 ->
  let '(r', outcomes) := refuse_unstarted r session_id reason in
  (exists more, changes r more r' /\ Forall is_done more)
  /\ outcomes = (fun b => Rejected (input_seq b) reason) <$> List.filter (fun b => negb (started b)) (outstanding r session_id)
  /\ forall s, outstanding r' s
       = if decide (s = session_id) then List.filter started (outstanding r s) else outstanding r s.
Proof.
  intros L Hw. unfold refuse_unstarted. destruct (lanes r !! session_id) as [lane|] eqn:El.
  2:{ split_and!; [exists []; split; [apply changes_nil|constructor]|by rewrite (outstanding_None _ _ El)|].
      intros s. case_decide as Hs; [|done]. subst. by rewrite (outstanding_None _ _ El). }
  pose proof (ledger_nodup _ _ session_id L) as Hnd. rewrite (outstanding_Some _ _ _ El) in Hnd.
  pose proof (qo_total _ _ _ _ _ (lg_queue _ _ L session_id)) as Hb. rewrite (outstanding_Some _ _ _ El), (lane_bytes_Some _ _ _ El) in Hb.
  change (List.filter (fun batch => negb (started batch)) (pending lane)) with (unsent lane).
  rewrite refuse_unstarted_walk.
  pose proof (settle_walk (fun b => Rejected (fst b) reason) (fun l _ => l) ((fun b => (input_seq b, started b)) <$> unsent lane) lane []) as Hwalk.
  destruct (foldl _ _ _) as [lane' outcomes]. destruct Hwalk as (W1 & W2 & W3); [done|done|done| | |].
  { rewrite <- list_fmap_compose. by apply filter_seqs_nodup. }
  { apply Forall_fmap, Forall_forall. intros b [Hin _]%elem_of_filter_b. cbn. apply list_elem_of_fmap. by exists b. }
  rewrite <- list_fmap_compose in W1, W3. cbn in W3. change (fst ∘ _) with input_seq in W1.
  assert (Hpend : pending lane' = List.filter started (pending lane)).
  { rewrite W1. unfold drop_seqs, unsent. apply List.filter_ext_in. intros b Hb'%list_elem_of_In.
    apply eq_true_iff_eq. rewrite negb_true_iff, bool_decide_eq_false. split.
    - intros Hno. destruct (started b) eqn:Es; [done|]. destruct Hno. apply list_elem_of_fmap. exists b. split; [done|].
      apply elem_of_filter_b. by rewrite Es.
    - intros Es (b' & He & [Hb2 Hu]%elem_of_filter_b)%list_elem_of_fmap. rewrite <- (outstanding_Some _ _ _ El) in Hb', Hb2.
      destruct (ledger_unique _ _ _ _ _ _ L Hb' Hb2 He) as [_ ->]. by rewrite Es in Hu. }
  assert (Hout : forall s, outstanding (observe_settled (put_lane r session_id lane') outcomes) s
            = if decide (s = session_id) then List.filter started (outstanding r s) else outstanding r s).
  { intros s. change (outstanding (observe_settled ?a ?o)) with (outstanding a). rewrite outstanding_put.
    case_decide as Hs; [|done]. subst. by rewrite Hpend, (outstanding_Some _ _ _ El). }
  split_and!; [|by rewrite W3, (outstanding_Some _ _ _ El)|done].
  exists (as_fact false <$> lane_settlements session_id (fun b => Rejected (input_seq b) reason) (unsent lane)). split.
  - apply (settle_many false _ facts); try done.
    + rewrite lane_settlements_seqs. by apply filter_seqs_nodup.
    + by apply unsent_truthful.
    + intros s. rewrite lane_settlements_seqs. change (outstanding (observe_settled ?a ?o)) with (outstanding a).
      rewrite outstanding_put. case_decide as Hs; [subst; by rewrite W1, (outstanding_Some _ _ _ El)|].
      symmetry. apply drop_seqs_none. intros b Hb1 (b2 & He & [Hb2 _]%elem_of_filter_b)%list_elem_of_fmap. apply Hs.
      rewrite <- (outstanding_Some _ _ _ El) in Hb2. apply (ledger_unique _ _ _ _ _ _ L Hb1 Hb2 He).
    + intros s. change (outstanding (observe_settled ?a ?o)) with (outstanding a).
      change (lane_bytes (observe_settled ?a ?o)) with (lane_bytes a). rewrite outstanding_put, lane_bytes_put.
      case_decide; [done|]. apply (qo_total _ _ _ _ _ (lg_queue _ _ L s)).
    + cbn. rewrite W3. unfold lane_settlements. by rewrite <- list_fmap_compose.
  - apply Forall_fmap, Forall_forall. done.
Qed.

Lemma set_phase_changes facts r session_id p :
  ledger facts r -> next_input_seq r + 1 < 2 ^ 64 ->
  let '(r', outcomes) := set_phase r session_id p in
  (exists more, changes r more r' /\ Forall is_done more)
  /\ forall s, outstanding r' s
       = if decide (s = session_id /\ (p = Blocked \/ p = Closed)) then List.filter started (outstanding r s) else outstanding r s.
Proof.
  intros L Hw. unfold set_phase. set (r1 := put_lane r session_id (with_phase (lane_mut r session_id) p)).
  assert (Hq : quiet r r1) by (apply put_quiet; [apply outstanding_mut|apply lane_bytes_mut]).
  pose proof (ledger_quiet _ _ _ L Hq) as L1.
  assert (Hw1 : next_input_seq r1 + 1 < 2 ^ 64) by by rewrite (q_seq _ _ Hq).
  destruct p; try (split; [exists []; split; [by apply changes_quiet|constructor]|intros s; rewrite (q_batches _ _ Hq), decide_False; [done|naive_solver]]).
  - pose proof (refuse_unstarted_changes facts r1 session_id "terminal input route is reconnecting" L1 Hw1) as Hr.
    destruct (refuse_unstarted _ _ _) as [r' outcomes]. destruct Hr as ((more & M1 & M2) & _ & Hout).
    split; [exists more; split; [by eapply changes_before|done]|].
    intros s. rewrite Hout, !(q_batches _ _ Hq). do 2 case_decide; naive_solver.
  - pose proof (refuse_unstarted_changes facts r1 session_id "terminal session is closed" L1 Hw1) as Hr.
    destruct (refuse_unstarted _ _ _) as [r' outcomes]. destruct Hr as ((more & M1 & M2) & _ & Hout).
    split; [exists more; split; [by eapply changes_before|done]|].
    intros s. rewrite Hout, !(q_batches _ _ Hq). do 2 case_decide; naive_solver.
Qed.

(** ** Retirement *)

Lemma fmap_bind_list {A B C} (f : A -> list B) (g : B -> C) l : g <$> (l ≫= f) = l ≫= fun x => g <$> f x.
Proof. induction l as [|x l IH]; [done|]. cbn. by rewrite fmap_app, IH. Qed.

Lemma bind_ext_in {A B} (f g : A -> list B) l : (forall x, x ∈ l -> f x = g x) -> l ≫= f = l ≫= g.
Proof.
  induction l as [|x l IH]; intros Hf; [done|]. cbn. rewrite Hf by by left. f_equal. apply IH. intros y Hy. apply Hf. by right.
Qed.

Lemma list_fmap_bind_values {K V B} (l : list (K * V)) (f : V -> list B) : (snd <$> l) ≫= f = l ≫= fun kv => f (snd kv).
Proof. induction l as [|x l IH]; [done|]. cbn. by rewrite IH. Qed.

Lemma retire_walk reason lane batches :
  foldl (retire_one reason) (lane, []) batches
  = foldl (settle_step (fun b => retirement reason (fst b) (snd b))
             (fun l b => if is_ambiguous (retirement reason (fst b) (snd b)) then with_ambiguous l (ambiguous l ++ [fst b]) else l))
      (lane, []) batches.
Proof.
  generalize (@nil InputOutcome). revert lane. induction batches as [|b batches IH]; intros lane outcomes; [done|].
  cbn [foldl]. cbn [retire_one settle_step]. destruct (settle_in lane (fst b)); apply IH.
Qed.

Lemma retire_lane_spec retired reason lane :
  NoDup (input_seq <$> pending lane) -> pending_bytes lane = total_bytes (pending lane) ->
  let '(lane', outcomes) := retire_lane retired reason lane in
  pending lane' = drop_seqs (input_seq <$> List.filter (carried_by retired) (pending lane)) (pending lane)
  /\ pending_bytes lane' = total_bytes (pending lane')
  /\ outcomes = (fun b => retirement reason (input_seq b) (started b)) <$> List.filter (carried_by retired) (pending lane).
Proof.
  intros Hnd Hb. unfold retire_lane. rewrite retire_walk. set (batches := List.filter _ _).
  pose proof (settle_walk (fun b => retirement reason (fst b) (snd b))
    (fun l b => if is_ambiguous (retirement reason (fst b) (snd b)) then with_ambiguous l (ambiguous l ++ [fst b]) else l)
    ((fun b => (input_seq b, started b)) <$> batches) lane []) as Hwalk.
  destruct (foldl _ _ _) as [lane' outcomes]. destruct Hwalk as (W1 & W2 & W3); [|done|done| | |].
  - intros l b. by destruct (is_ambiguous _).
  - rewrite <- list_fmap_compose. by apply filter_seqs_nodup.
  - apply Forall_fmap, Forall_forall. intros b [Hin _]%elem_of_filter_b. cbn. apply list_elem_of_fmap. by exists b.
  - rewrite <- list_fmap_compose in W1, W3. split_and!; [by rewrite W1|done|]. by rewrite W3.
Qed.

Lemma retire_fenced_changes facts r retired reason :
  ledger facts r -> next_input_seq r + 1 < 2 ^ 64 ->
  let '(r', _) := retire_fenced r retired reason in
  (exists more, changes r more r' /\ Forall is_done more)
  /\ forall s, outstanding r' s = List.filter (fun b => negb (carried_by retired b)) (outstanding r s).
Proof.
  intros L Hw. unfold retire_fenced.
  set (outcome := fun b => retirement reason (input_seq b) (started b)).
  set (carried := fun lane => List.filter (carried_by retired) (pending lane)).
  set (ds := bindings (lanes r) ≫= fun kv => lane_settlements (fst kv) outcome (carried (snd kv))).
  set (r' := observe_settled _ _).
  assert (Hlane : forall s lane, lanes r !! s = Some lane ->
            NoDup (input_seq <$> pending lane) /\ pending_bytes lane = total_bytes (pending lane)).
  { intros s lane El. pose proof (ledger_nodup _ _ s L) as H1. pose proof (qo_total _ _ _ _ _ (lg_queue _ _ L s)) as H2.
    by rewrite ?(outstanding_Some _ _ _ El), ?(lane_bytes_Some _ _ _ El) in *. }
  assert (Hds : forall d, d ∈ ds -> exists lane, lanes r !! st_session d = Some lane
            /\ st_batch d ∈ pending lane /\ carried_by retired (st_batch d) = true /\ st_outcome d = outcome (st_batch d)).
  { intros d ([s lane] & Hd & Hin)%list_elem_of_bind. apply elem_of_bindings in Hin.
    apply list_elem_of_fmap in Hd as (b & -> & [Hb Hc]%elem_of_filter_b). by exists lane. }
  assert (Hseqs : st_seq <$> ds = bindings (lanes r) ≫= fun kv => input_seq <$> carried (snd kv)).
  { unfold ds. rewrite fmap_bind_list.
    apply bind_ext_in. intros kv _. apply lane_settlements_seqs. }
  assert (Hdrop : forall s lane, lanes r !! s = Some lane ->
            drop_seqs (st_seq <$> ds) (pending lane) = List.filter (fun b => negb (carried_by retired b)) (pending lane)).
  { intros s lane El. apply List.filter_ext_in. intros b Hb%list_elem_of_In. f_equal. apply eq_true_iff_eq.
    rewrite bool_decide_eq_true. split.
    - intros (d & He & Hd)%list_elem_of_fmap. destruct (Hds d Hd) as (lane2 & E2 & Hb2 & Hc & _).
      rewrite <- (outstanding_Some _ _ _ El) in Hb. rewrite <- (outstanding_Some _ _ _ E2) in Hb2.
      by destruct (ledger_unique _ _ _ _ _ _ L Hb Hb2 He) as [_ ->].
    - intros Hc. rewrite Hseqs. apply list_elem_of_bind. exists (s, lane). split; [|by apply elem_of_bindings].
      apply list_elem_of_fmap. exists b. split; [done|]. by apply elem_of_filter_b. }
  assert (Hout : forall s, outstanding r' s = drop_seqs (st_seq <$> ds) (outstanding r s)
                           /\ lane_bytes r' s = total_bytes (outstanding r' s)).
  { intros s. unfold r', outstanding, lane_bytes, observe_settled, with_feed, with_lanes. cbn. rewrite lookup_fmap.
    destruct (lanes r !! s) as [lane|] eqn:El; cbn; [|done]. destruct (Hlane s lane El) as [H1 H2].
    pose proof (retire_lane_spec retired reason lane H1 H2) as Hl. destruct (retire_lane retired reason lane) as [lane' o].
    destruct Hl as (Hp & Hbytes & _). cbn. split; [|done]. rewrite Hp, (Hdrop s lane El). fold (carried lane).
    apply List.filter_ext_in. intros b Hb%list_elem_of_In. f_equal. apply eq_true_iff_eq. rewrite bool_decide_eq_true. split.
    - intros (b2 & He & [Hb2 Hc]%elem_of_filter_b)%list_elem_of_fmap. rewrite <- (outstanding_Some _ _ _ El) in Hb, Hb2.
      by destruct (ledger_unique _ _ _ _ _ _ L Hb Hb2 He) as [_ ->].
    - intros Hc. apply list_elem_of_fmap. exists b. split; [done|]. by apply elem_of_filter_b. }
  split.
  - exists (as_fact false <$> ds). split; [|by apply Forall_fmap, Forall_forall].
    apply (settle_many false _ facts); try done.
    + rewrite Hseqs. apply NoDup_bind.
      * intros [s1 l1] [s2 l2] seq H1%elem_of_bindings H2%elem_of_bindings Hs1 Hs2. cbn in *.
        apply list_elem_of_fmap in Hs1 as (b1 & -> & [Hb1 _]%elem_of_filter_b), Hs2 as (b2 & He & [Hb2 _]%elem_of_filter_b).
        rewrite <- (outstanding_Some _ _ _ H1) in Hb1. rewrite <- (outstanding_Some _ _ _ H2) in Hb2.
        destruct (ledger_unique _ _ _ _ _ _ L Hb1 Hb2 He) as [-> _]. congruence.
      * intros [s lane] E%elem_of_bindings. cbn. by apply filter_seqs_nodup, (Hlane s).
      * eapply NoDup_fmap_1, NoDup_bindings_keys.
    + apply Forall_forall. intros d Hd. destruct (Hds d Hd) as (lane & El & Hb & Hc & Ho).
      unfold settles_truly. rewrite (outstanding_Some _ _ _ El), Ho. unfold outcome, retirement, st_seq, truthful.
      split_and!; [done|by destruct (started _)|]. right. by destruct (started (st_batch d)).
    + intros s. apply Hout.
    + intros s. apply Hout.
    + cbn. f_equal. unfold ds, values. rewrite fmap_bind_list.
      rewrite (list_fmap_bind_values (bindings (lanes r))). apply bind_ext_in. intros [s lane] E%elem_of_bindings.
      cbn. destruct (Hlane s lane E) as [H1 H2]. pose proof (retire_lane_spec retired reason lane H1 H2) as Hl.
      destruct (retire_lane retired reason lane). destruct Hl as (_ & _ & ->).
      unfold lane_settlements. by rewrite <- list_fmap_compose.
  - intros s. rewrite (proj1 (Hout s)). destruct (lanes r !! s) as [lane|] eqn:El.
    + rewrite (outstanding_Some _ _ _ El). by apply (Hdrop s).
    + by rewrite (outstanding_None _ _ El).
Qed.

(** ** Admission *)

Lemma admit_input_changes facts r session_id view bytes now_ms :
  ledger facts r ->
  let '(answer, r') := admit_input r session_id view bytes now_ms in
  outcome_feed r' = outcome_feed r
  /\ match answer with
     | Ok batch =>
         changes r [Took batch] r' /\ batch = mkPendingInput session_id view (input_seq batch) bytes None false now_ms 0
         /\ outstanding r' session_id = outstanding r session_id ++ [batch]
     | Err _ => changes r [] r' \/ changes r [Burned] r'
     end.
Proof.
  intros L. unfold admit_input. set (lane := lane_mut r session_id).
  assert (Hq : quiet r (put_lane r session_id lane)) by (apply put_quiet; [apply outstanding_mut|apply lane_bytes_mut]).
  assert (Hburn : forall id, id = u64 (next_input_seq r + 1) ->
            change r Burned (mkInputRouter (lanes (put_lane r session_id lane)) id (next_claim_id r) (outcome_feed r))).
  { intros id ->. apply change_burn; try done; intros s; [apply (q_batches _ _ Hq)|apply (q_bytes _ _ Hq)]. }
  set (r1 := mkInputRouter (lanes (put_lane r session_id lane)) (u64 (next_input_seq r + 1)) (next_claim_id r) (outcome_feed r)).
  assert (H1 : forall s, outstanding r1 s = outstanding r s) by (intros s; apply (q_batches _ _ Hq)).
  assert (H2 : forall s, lane_bytes r1 s = lane_bytes r s) by (intros s; apply (q_bytes _ _ Hq)).
  assert (Htake : MAX_INPUT_BYTES <? len bytes = false -> bytes <> [] ->
    (MAX_PENDING_INPUTS_PER_SESSION <=? len (pending lane))
      || (MAX_PENDING_INPUT_BYTES_PER_SESSION <? pending_bytes lane + len bytes) = false ->
    let batch := mkPendingInput session_id view (next_input_seq r1) bytes None false now_ms 0 in
    let r' := put_lane r1 session_id (with_pending lane (pending lane ++ [batch]) (pending_bytes lane + len bytes)) in
    changes r [Took batch] r' /\ outstanding r' session_id = outstanding r session_id ++ [batch]).
  { intros Hmax Hne Hfull batch r'. bool_to_prop.
    pose proof (outstanding_mut r session_id) as Hp. pose proof (lane_bytes_mut r session_id) as Hb.
    change (lane_mut r session_id) with lane in Hp, Hb.
    assert (Hout : outstanding r' session_id = outstanding r session_id ++ [batch]).
    { unfold r'. rewrite outstanding_put, decide_True by done. cbn. by rewrite Hp. }
    split; [|done]. apply changes_one, (change_take _ _ session_id); try done.
    - constructor; intros other Hother; unfold r'; [rewrite outstanding_put|rewrite lane_bytes_put]; rewrite decide_False by done;
        [apply H1|apply H2].
    - unfold r'. rewrite lane_bytes_put, decide_True by done. cbn. by rewrite Hb.
    - by rewrite <- Hp.
    - by rewrite <- Hb. }
  destruct (phase lane); try (split; [done|left; by apply changes_quiet]);
    (destruct (MAX_INPUT_BYTES <? len bytes) eqn:Hmax; [split; [done|left; by apply changes_quiet]|];
     destruct (bool_decide_reflect (bytes = [])) as [|Hne]; [split; [done|right; by apply changes_one, Hburn]|];
     destruct ((_ <=? _) || _) eqn:Hfull; [split; [done|right; by apply changes_one, Hburn]|];
     split; [done|]; destruct (Htake eq_refl Hne eq_refl) as [T1 T2]; split_and!; [exact T1|done|exact T2]).
Qed.

(** ** Hand-over and back *)

Lemma update_first_Some change_batch all seq session_id lane :
  update_first change_batch all seq = Some (session_id, lane) ->
  exists old, (session_id, old) ∈ all /\ update_input change_batch old seq = Some lane.
Proof.
  induction all as [|[s old] rest IH]; cbn; [done|]. destruct (update_input change_batch old seq) as [new|] eqn:E.
  - intros [= <- <-]. exists old. split; [by left|done].
  - intros (o & Hin & Ho)%IH. exists o. split; [by right|done].
Qed.

Lemma update_first_None change_batch all seq :
  update_first change_batch all seq = None -> forall s old, (s, old) ∈ all -> update_input change_batch old seq = None.
Proof.
  induction all as [|[s old] rest IH]; cbn; [by intros _ s old ?%not_elem_of_nil|].
  destruct (update_input change_batch old seq) as [new|] eqn:E; [done|].
  intros Hn s' old' [[= -> ->]|Hin]%elem_of_cons; [done|by eapply IH].
Qed.

Lemma find_input_Some batches seq position batch :
  find_input batches seq = Some (position, batch) -> batches !! position = Some batch /\ input_seq batch = seq.
Proof. intros (E & He & _)%list_find_Some. done. Qed.

Lemma find_input_in batches batch : batch ∈ batches -> find_input batches (input_seq batch) <> None.
Proof. intros Hin E. apply list_find_None in E. rewrite Forall_forall in E. by apply (E batch). Qed.

(** The lane a batch is found in is its own. *)
Lemma update_input_found facts r session_id lane change_batch batch :
  ledger facts r -> batch ∈ outstanding r session_id -> lanes r !! session_id = Some lane ->
  exists position, outstanding r session_id !! position = Some batch
    /\ update_input change_batch lane (input_seq batch)
       = Some (with_pending lane (<[position := change_batch batch]> (pending lane)) (pending_bytes lane)).
Proof.
  intros L Hin El. rewrite (outstanding_Some _ _ _ El) in *. unfold update_input.
  destruct (find_input (pending lane) (input_seq batch)) as [[position found]|] eqn:E; [|by destruct (find_input_in _ _ Hin)].
  apply find_input_Some in E as [E He]. assert (Hf : batch = found).
  { eapply (ledger_unique _ _ session_id session_id); [exact L| | |by rewrite He];
      rewrite (outstanding_Some _ _ _ El); [done|by eapply list_elem_of_lookup_2]. }
  subst found. by exists position.
Qed.

Lemma lane_of_batch r session_id batch : batch ∈ outstanding r session_id -> exists lane, lanes r !! session_id = Some lane.
Proof.
  intros Hin. destruct (lanes r !! session_id) as [lane|] eqn:El; [by exists lane|].
  rewrite (outstanding_None _ _ El) in Hin. by apply not_elem_of_nil in Hin.
Qed.

Lemma mark_started_changes facts r session_id batch token now_ms :
  ledger facts r -> batch ∈ outstanding r session_id -> started batch = false ->
  (forall older, older ∈ outstanding r session_id -> input_seq older < input_seq batch -> started older = true) ->
  len (List.filter started (outstanding r session_id)) < MAX_STARTED_INPUTS_PER_SESSION ->
  let r' := fst (mark_started r (input_seq batch) token now_ms) in
  change r (Sent batch token now_ms) r'
  /\ forall s, outstanding r' s = (fun b => if input_seq b =? input_seq batch then start_batch token now_ms b else b) <$> outstanding r s.
Proof.
  intros L Hin Hu Holder Hroom. unfold mark_started.
  destruct (lane_of_batch _ _ _ Hin) as [lane El].
  destruct (update_first (start_batch token now_ms) (bindings (lanes r)) (input_seq batch)) as [[s lane']|] eqn:E.
  2:{ pose proof (update_first_None _ _ _ E session_id lane ltac:(by apply elem_of_bindings)) as Hn.
      destruct (update_input_found _ _ _ _ (start_batch token now_ms) _ L Hin El) as (p & _ & Hp). congruence. }
  apply update_first_Some in E as (old & Hold%elem_of_bindings & Hup).
  assert (Hs : s = session_id).
  { unfold update_input in Hup. destruct (find_input (pending old) (input_seq batch)) as [[p b]|] eqn:Ef; [|done].
    apply find_input_Some in Ef as [Ef He]. eapply ledger_unique; [exact L| |exact Hin|exact He].
    rewrite (outstanding_Some _ _ _ Hold). by eapply list_elem_of_lookup_2. }
  subst s. rewrite El in Hold. injection Hold as <-.
  destruct (update_input_found _ _ _ _ (start_batch token now_ms) _ L Hin El) as (position & Hpos & Hp).
  rewrite Hup in Hp. injection Hp as ->. cbn [fst].
  set (lane' := with_pending _ _ _). split.
  - apply (change_send _ _ session_id position _ _ now_ms); try done.
    + apply put_others.
    + rewrite outstanding_put, decide_True by done. by rewrite (outstanding_Some _ _ _ El).
    + rewrite lane_bytes_put, decide_True by done. by rewrite (lane_bytes_Some _ _ _ El).
  - intros s. rewrite outstanding_put. destruct (decide (s = session_id)) as [->|Hne].
    + cbn. rewrite (outstanding_Some _ _ _ El) in *. apply list_eq. intros i.
      rewrite list_lookup_fmap. destruct (decide (position = i)) as [<-|Hi].
      * rewrite list_lookup_insert_eq by (by eapply lookup_lt_Some). rewrite Hpos. cbn. by rewrite Z.eqb_refl.
      * rewrite list_lookup_insert_ne by done. destruct (pending lane !! i) as [b|] eqn:Ei; [|done]. cbn.
        destruct (Z.eqb_spec (input_seq b) (input_seq batch)) as [He|]; [|done]. destruct Hi.
        pose proof (lg_queue _ _ L session_id) as Hq. rewrite (outstanding_Some _ _ _ El) in Hq.
        by eapply (place_unique _ _ _ _ _ _ _ _ _ Hq Hpos Ei).
    + symmetry. rewrite (list_fmap_ext _ id); [by rewrite list_fmap_id|]. 
      intros i b Hb%list_elem_of_lookup_2. destruct (Z.eqb_spec (input_seq b) (input_seq batch)) as [He|]; [|done].
      destruct Hne. apply (ledger_unique _ _ _ _ _ _ L Hb Hin He).
Qed.

(** ** Operations that touch no batch *)

Lemma hold_for_promotion_quiet r session_id attempt_id token now_ms : quiet r (hold_for_promotion r session_id attempt_id token now_ms).
Proof. unfold hold_for_promotion. case_bool_decide; apply put_quiet; first [apply outstanding_mut|apply lane_bytes_mut]. Qed.

Lemma begin_fallback_quiet r session_id worker_fp epoch now_ms : quiet r (begin_fallback r session_id worker_fp epoch now_ms).
Proof. unfold begin_fallback. case_bool_decide; apply put_quiet; first [apply outstanding_mut|apply lane_bytes_mut]. Qed.

Lemma mint_request_quiet r : quiet r (snd (mint_request r)).
Proof. by constructor. Qed.

Lemma begin_route_claim_quiet r session_id token epoch attempt_id now_ms :
  quiet r (snd (begin_route_claim r session_id token epoch attempt_id now_ms)).
Proof.
  unfold begin_route_claim. pose proof (mint_request_quiet r) as Hq. destruct (mint_request r) as [request r1]. cbn [snd] in *.
  eapply quiet_trans; [exact Hq|]. case_if; cbn [snd]; apply put_quiet; cbn; first [apply outstanding_mut|apply lane_bytes_mut].
Qed.

Lemma put_same_quiet r session_id lane lane' :
  lanes r !! session_id = Some lane -> pending lane' = pending lane -> pending_bytes lane' = pending_bytes lane ->
  quiet r (put_lane r session_id lane').
Proof. intros El Hp Hb. apply put_quiet; [by rewrite (outstanding_Some _ _ _ El)|by rewrite (lane_bytes_Some _ _ _ El)]. Qed.

Lemma settle_route_claim_quiet r token answer now_ms : quiet r (fst (settle_route_claim r token answer now_ms)).
Proof.
  unfold settle_route_claim. destruct (lanes r !! result_session answer) as [lane|] eqn:El; [|apply quiet_refl].
  destruct (in_flight (claims lane)) as [claim|]; [|apply quiet_refl].
  case_if; [apply quiet_refl|]. case_if; [by apply (put_same_quiet _ _ lane)|]. case_if; [by apply (put_same_quiet _ _ lane)|].
  case_if; [by apply (put_same_quiet _ _ lane)|]. pose proof (mint_request_quiet r) as Hq.
  destruct (mint_request r) as [request r1] eqn:Em. cbn [fst snd] in *. eapply quiet_trans; [exact Hq|].
  apply (put_same_quiet _ _ lane); [|done|done]. injection Em as _ <-. done.
Qed.

Lemma take_claims_quiet r ended : quiet r (fst (take_claims r ended)).
Proof. apply map_quiet. intros lane. by destruct (takes_claim ended lane). Qed.

Lemma release_held_quiet r session_id : quiet r (fst (release_held r session_id)).
Proof.
  unfold release_held. destruct (lanes r !! session_id) as [lane|] eqn:El; [|apply quiet_refl].
  case_bool_decide; [apply quiet_refl|]. by apply (put_same_quiet _ _ lane).
Qed.

Lemma defer_fallback_quiet r session_id now_ms : quiet r (fst (defer_fallback r session_id now_ms)).
Proof.
  unfold defer_fallback. destruct (lanes r !! session_id) as [lane|] eqn:El; [|apply quiet_refl].
  destruct (fallback (claims lane)); [|apply quiet_refl]. by apply (put_same_quiet _ _ lane).
Qed.

(** ** Routes that end *)

Lemma changes_next r more r' : changes r more r' -> Forall is_done more -> next_input_seq r' = next_input_seq r.
Proof.
  induction 1 as [r r' Hq|r fact more r1 r' Hf Hc IH]; intros Hd; [apply (q_seq _ _ Hq)|].
  apply Forall_cons in Hd as [Hd Hm]. rewrite IH by done. destruct fact; try done. by apply change_done_next in Hf.
Qed.

Lemma ledger_dones facts r more r' :
  ledger facts r -> next_input_seq r + 1 < 2 ^ 64 -> changes r more r' -> Forall is_done more -> ledger (facts ++ more) r'.
Proof.
  intros L Hw Hc. revert facts L Hw. induction Hc as [r r' Hq|r fact more r1 r' Hf Hc IH]; intros facts L Hw Hd.
  - rewrite app_nil_r. by eapply ledger_quiet.
  - apply Forall_cons in Hd as [Hd Hm]. rewrite cons_middle, app_assoc.
    apply IH; [by apply (ledger_change facts r)| |done].
    destruct fact; try done. by rewrite (change_done_next _ _ _ _ _ Hf).
Qed.

Lemma block_route_changes facts r session_id :
  ledger facts r -> next_input_seq r + 1 < 2 ^ 64 ->
  exists more, changes r more (fst (block_route r session_id)) /\ Forall is_done more.
Proof.
  intros L Hw. unfold block_route. destruct (lanes r !! session_id) as [lane|] eqn:El; [|exists []; split; [apply changes_nil|constructor]].
  case_bool_decide; [exists []; split; [apply changes_nil|constructor]|].
  set (r1 := put_lane r session_id _). assert (Hq : quiet r r1) by (by apply (put_same_quiet _ _ lane)).
  pose proof (set_phase_changes facts r1 session_id Blocked) as Hs. destruct (set_phase r1 session_id Blocked) as [r' o].
  destruct Hs as ((more & M1 & M2) & _); [by eapply ledger_quiet|by rewrite (q_seq _ _ Hq)|].
  exists more. split; [by eapply changes_before|done].
Qed.

Lemma forget_route_changes facts r session_id :
  ledger facts r -> next_input_seq r + 1 < 2 ^ 64 ->
  (exists more, changes r more (forget_route r session_id) /\ Forall is_done more)
  /\ forall s, outstanding (forget_route r session_id) s
       = if decide (s = session_id) then List.filter started (outstanding r s) else outstanding r s.
Proof.
  intros L Hw. unfold forget_route.
  set (r1 := match lanes r !! session_id with Some lane => _ | None => r end).
  assert (Hq : quiet r r1).
  { unfold r1. destruct (lanes r !! session_id) as [lane|] eqn:El; [by apply (put_same_quiet _ _ lane)|apply quiet_refl]. }
  pose proof (set_phase_changes facts r1 session_id Blocked) as Hs. destruct (set_phase r1 session_id Blocked) as [r' o].
  destruct Hs as ((more & M1 & M2) & Hout); [by eapply ledger_quiet|by rewrite (q_seq _ _ Hq)|]. cbn [fst].
  split; [exists more; split; [by eapply changes_before|done]|].
  intros s. rewrite Hout, !(q_batches _ _ Hq).
  destruct (decide (s = session_id)) as [->|Hne]; [by rewrite decide_True by auto|by rewrite decide_False by naive_solver].
Qed.

Lemma forget_routes_changes facts r sessions :
  ledger facts r -> next_input_seq r + 1 < 2 ^ 64 ->
  exists more, changes r more (foldl forget_route r sessions) /\ Forall is_done more.
Proof.
  revert facts r. induction sessions as [|s sessions IH]; intros facts r L Hw; cbn [foldl].
  - exists []. split; [apply changes_nil|constructor].
  - destruct (forget_route_changes facts r s L Hw) as [(more & M1 & M2) _].
    destruct (IH (facts ++ more) (forget_route r s)) as (more2 & N1 & N2).
    + by apply (ledger_dones facts r).
    + by rewrite (changes_next _ _ _ M1 M2).
    + exists (more ++ more2). split; [by eapply changes_app|by apply Forall_app].
Qed.

(** A batch put back: the queue that waited behind it is refused when the lane
    was sending, and the batch alone is taken back. *)
Lemma requeue_changes facts r session_id seq :
  ledger facts r -> next_input_seq r + 1 < 2 ^ 64 ->
  let '(r', requeued) := requeue_moved_sync_batch r session_id seq in
  if requeued then
    exists more batch, changes r (more ++ [PutBack batch]) r' /\ Forall is_done more
      /\ batch ∈ outstanding r session_id /\ input_seq batch = seq /\ started batch = true
  else r' = r.
Proof.
  intros L Hw. unfold requeue_moved_sync_batch. destruct (lanes r !! session_id) as [lane|] eqn:El; [|done].
  destruct (existsb (started_on_sync seq) (pending lane)) eqn:Ex; [|by rewrite orb_true_r].
  destruct (_ || _ || _); [done|].
  apply existsb_exists in Ex as (batch & Hin & Hon). apply list_elem_of_In in Hin.
  unfold started_on_sync in Hon. bool_to_prop. rewrite <- (outstanding_Some _ _ _ El) in Hin.
  set (r1 := if bool_decide (phase lane = Sending) then forget_route r session_id else r).
  assert (Hr1 : (exists more, changes r more r1 /\ Forall is_done more) /\ batch ∈ outstanding r1 session_id).
  { unfold r1. case_bool_decide.
    - destruct (forget_route_changes facts r session_id L Hw) as [Hm Ho]. split; [done|].
      rewrite Ho, decide_True by done. by apply elem_of_filter_b.
    - split; [exists []; split; [apply changes_nil|constructor]|done]. }
  destruct Hr1 as [(more & M1 & M2) Hin1]. pose proof (ledger_dones _ _ _ _ L Hw M1 M2) as L1.
  destruct (lane_of_batch _ _ _ Hin1) as [lane1 El1]. rewrite El1. subst seq.
  destruct (update_input_found _ _ _ _ unstart_batch _ L1 Hin1 El1) as (position & Hpos & ->).
  exists more, batch. split_and!; [|done..]. eapply changes_app; [exact M1|]. apply changes_one.
  apply (change_back _ _ session_id position); try done.
  - apply put_others.
  - rewrite outstanding_put, decide_True by done. cbn. by rewrite (outstanding_Some _ _ _ El1).
  - rewrite lane_bytes_put, decide_True by done. cbn. by rewrite (lane_bytes_Some _ _ _ El1).
Qed.
