(* ===== verification/InputPaths.v ===== *)
(** * InputPaths: what each handler of the input path does to the ledger

    Every handler of [InputDispatch] is a list of ledger changes, and the inputs
    among its effects are the batches it handed over, in that order. *)
From S2P Require Export InputOperations InputDispatch.
#[local] Open Scope Z_scope.

(** What of a batch a frame carries. *)
Definition batch_key (batch : PendingInput) : string * Z * list byte :=
  (input_session batch, input_seq batch, input_bytes batch).

Definition effect_key (e : InputEffect) : option (string * Z * list byte) :=
  match e with
  | SendSyncInput session_id _ seq bytes _ _ | SendDirectInput _ session_id _ seq bytes _ => Some (session_id, seq, bytes)
  | SendSyncClaim _ _ _ _ _ | SendDirectClaim _ _ _ _ _ _ => None
  end.

(** The inputs among a list of effects. *)
Definition inputs (effects : list InputEffect) : list (string * Z * list byte) := omap effect_key effects.

(** A hand-over at this instant, or a settlement: of the answer a carrier gave,
    when it is reported as one. *)
Definition onward (answer : option InputOutcome) (now_ms : Z) (fact : Fact) : Prop :=
  match fact with
  | Sent _ _ at_ms => at_ms = now_ms
  | Done reported _ outcome => reported = true -> answer = Some outcome
  | _ => False
  end.

Section Paths.
Context {Rest : Type} `{InputHost Rest} {answer : option InputOutcome}.

Record does (h : Handler Rest) (facts : list Fact) (h' : Handler Rest) : Prop := {
  does_changes : changes (input (fst h)) facts (input (fst h'));
  does_out : exists new, snd h' = snd h ++ new /\ inputs new = batch_key <$> sent facts;
}.

(** From wherever the ledger holds, only hand-overs and settlements. *)
Definition goes (now_ms : Z) (h h' : Handler Rest) : Prop :=
  forall facts, ledger facts (input (fst h)) -> next_input_seq (input (fst h)) + 1 < 2 ^ 64 ->
    exists more, does h more h' /\ Forall (onward answer now_ms) more.

Lemma onward_next {now_ms} r more r' : changes r more r' -> Forall (onward answer now_ms) more -> next_input_seq r' = next_input_seq r.
Proof.
  induction 1 as [r r' Hq|r fact more r1 r' Hf Hc IH]; intros Hd; [apply (q_seq _ _ Hq)|].
  apply Forall_cons in Hd as [Hd Hm]. rewrite IH by done. destruct fact; try done; by inversion Hf.
Qed.

Lemma ledger_onward {now_ms} facts r more r' :
  ledger facts r -> next_input_seq r + 1 < 2 ^ 64 -> changes r more r' -> Forall (onward answer now_ms) more -> ledger (facts ++ more) r'.
Proof.
  intros L Hw Hc. revert facts L Hw. induction Hc as [r r' Hq|r fact more r1 r' Hf Hc IH]; intros facts L Hw Hd.
  - rewrite app_nil_r. by eapply ledger_quiet.
  - apply Forall_cons in Hd as [Hd Hm]. rewrite cons_middle, app_assoc.
    apply IH; [by apply (ledger_change facts r)| |done].
    assert (next_input_seq r1 = next_input_seq r) as -> by (destruct fact; try done; by inversion Hf). done.
Qed.

Lemma does_nil h : does h [] h.
Proof. constructor; [apply changes_nil|]. exists []. by rewrite app_nil_r. Qed.

Lemma does_app h1 facts1 h2 facts2 h3 : does h1 facts1 h2 -> does h2 facts2 h3 -> does h1 (facts1 ++ facts2) h3.
Proof.
  intros [C1 (n1 & E1 & S1)] [C2 (n2 & E2 & S2)]. constructor; [by eapply changes_app|].
  exists (n1 ++ n2). split; [by rewrite E2, E1, app_assoc|]. unfold inputs in *. by rewrite omap_app, sent_app, fmap_app, S1, S2.
Qed.

Lemma goes_refl {now_ms} h : goes now_ms h h.
Proof. intros facts _ _. exists []. split; [apply does_nil|constructor]. Qed.

Lemma goes_trans {now_ms} h1 h2 h3 : goes now_ms h1 h2 -> goes now_ms h2 h3 -> goes now_ms h1 h3.
Proof.
  intros G1 G2 facts L Hw. destruct (G1 facts L Hw) as (m1 & D1 & F1).
  destruct (G2 (facts ++ m1)) as (m2 & D2 & F2).
  - eapply ledger_onward; [exact L|done|apply D1|done].
  - by rewrite (onward_next _ _ _ (does_changes _ _ _ D1) F1).
  - exists (m1 ++ m2). split; [by eapply does_app|by apply Forall_app].
Qed.

(** A router change that sends nothing. *)
Lemma goes_router {now_ms} (s s' : InputStore Rest) out :
  (forall facts, ledger facts (input s) -> next_input_seq (input s) + 1 < 2 ^ 64 ->
     exists more, changes (input s) more (input s') /\ Forall is_done more) ->
  goes now_ms (s, out) (s', out).
Proof.
  intros Hc facts L Hw. destruct (Hc facts L Hw) as (more & M1 & M2). exists more. split.
  - constructor; [done|]. exists []. split; [by rewrite app_nil_r|]. cbn.
    assert (sent more = []) as ->; [|done]. clear -M2. induction M2 as [|f l Hf _ IH]; [done|]. by destruct f.
  - eapply Forall_impl; [exact M2|]. intros [| | |? ? ?| |]; cbn; by try intros ->.
Qed.

Lemma goes_quiet {now_ms} (s s' : InputStore Rest) out : quiet (input s) (input s') -> goes now_ms (s, out) (s', out).
Proof. intros Hq. apply goes_router. intros facts _ _. exists []. split; [by apply changes_quiet|constructor]. Qed.

(** An effect that is no input. *)
Lemma goes_claim {now_ms} (s s' : InputStore Rest) out e : quiet (input s) (input s') -> effect_key e = None -> goes now_ms (s, out) (s', out ++ [e]).
Proof.
  intros Hq He facts _ _. exists []. split; [|constructor]. constructor; [by apply changes_quiet|].
  exists [e]. split; [done|]. unfold inputs. cbn. by rewrite He.
Qed.

(** ** Hand-over *)

Lemma filter_split_len {A} (f : A -> bool) l : len l = len (List.filter f l) + len (List.filter (fun x => negb (f x)) l).
Proof. induction l as [|x l IH]; [done|]. cbn. destruct (f x); cbn; autorewrite with lens; lia. Qed.

Lemma start_unsent token now_ms batch batches rest :
  NoDup (input_seq <$> batches) -> batch ∈ batches ->
  List.filter (fun b => negb (started b)) batches = batch :: rest ->
  List.filter (fun b => negb (started b))
    ((fun b => if input_seq b =? input_seq batch then start_batch token now_ms b else b) <$> batches) = rest.
Proof.
  revert rest. induction batches as [|x l IH]; intros rest Hnd Hin Hf; [done|]. cbn in *. apply NoDup_cons in Hnd as [Hno Hnd].
  assert (Hsame : x = batch -> List.filter (fun b => negb (started b))
            ((fun b => if input_seq b =? input_seq batch then start_batch token now_ms b else b) <$> l)
          = List.filter (fun b => negb (started b)) l).
  { intros ->. rewrite (list_fmap_ext _ id); [by rewrite list_fmap_id|]. intros i b Hb%list_elem_of_lookup_2.
    destruct (Z.eqb_spec (input_seq b) (input_seq batch)) as [He|]; [|done]. destruct Hno. rewrite <- He.
    apply list_elem_of_fmap. by exists b. }
  destruct (started x) eqn:Ex; cbn in *.
  - assert (Hx : x <> batch).
    { intros ->. assert (Hb : batch ∈ List.filter (fun b => negb (started b)) l) by (rewrite Hf; by left).
      apply elem_of_filter_b in Hb as [_ Hb]. by rewrite Ex in Hb. }
    apply elem_of_cons in Hin as [|Hin]; [congruence|].
    destruct (Z.eqb_spec (input_seq x) (input_seq batch)) as [He|].
    + destruct Hno. rewrite He. apply list_elem_of_fmap. by exists batch.
    + rewrite Ex. cbn. by apply IH.
  - injection Hf as -> Hrest. rewrite Z.eqb_refl. cbn. by rewrite Hsame.
Qed.

(** What a hand-over of [batches] may rely on. *)
Definition ready_to_send (r : InputRouter) (session_id : string) (batches : list PendingInput) : Prop :=
  (exists tail, List.filter (fun b => negb (started b)) (outstanding r session_id) = batches ++ tail)
  /\ len (List.filter started (outstanding r session_id)) + len batches <= MAX_STARTED_INPUTS_PER_SESSION.

Lemma startable_ready facts r session_id : ledger facts r -> ready_to_send r session_id (startable r session_id).
Proof.
  intros L. unfold ready_to_send, startable. pose proof (qo_window _ _ _ _ _ (lg_queue _ _ L session_id)) as Hwin.
  destruct (lanes r !! session_id) as [lane|] eqn:El; [|split; [by eexists|rewrite (outstanding_None _ _ El); done]].
  rewrite (outstanding_Some _ _ _ El) in *. case_bool_decide; [|split; [by eexists|autorewrite with lens; lia]]. split.
  - eexists. symmetry. apply take_drop.
  - unfold len at 2. rewrite length_take. unfold saturating_sub. lia.
Qed.

Lemma sorted_filter (f : PendingInput -> bool) l :
  StronglySorted Z.lt (input_seq <$> l) -> StronglySorted Z.lt (input_seq <$> List.filter f l).
Proof.
  induction l as [|x l IH]; intros Hs; [done|]. cbn in *. inversion Hs as [|? ? Hs' Hx]; subst.
  destruct (f x); [|by apply IH]. cbn. constructor; [by apply IH|]. rewrite Forall_forall in *. intros seq Hin.
  apply Hx. apply list_elem_of_fmap in Hin as (b & -> & [Hb _]%elem_of_filter_b). apply list_elem_of_fmap. by exists b.
Qed.

Lemma dispatch_list_goes (s : InputStore Rest) out session_id batches token now_ms :
  ready_to_send (input s) session_id batches ->
  goes now_ms (s, out) (foldl (fun h batch => dispatch_batch h batch token now_ms) (s, out) batches).
Proof.
  revert s out. induction batches as [|batch batches IH]; intros s out Hr; [apply goes_refl|].
  cbn [foldl dispatch_batch]. set (s1 := with_input s _).
  intros facts L Hw. cbn [fst] in *. destruct Hr as [[tail Ht] Hroom].
  assert (Hb : batch ∈ List.filter (fun b => negb (started b)) (outstanding (input s) session_id)) by (rewrite Ht; by left).
  apply elem_of_filter_b in Hb as [Hin Hu%negb_true_iff].
  pose proof (lg_queue _ _ L session_id) as Hq. pose proof (ledger_nodup _ _ session_id L) as Hnd.
  rewrite len_cons in Hroom. pose proof (len_nonneg batches).
  assert (Holder : forall older, older ∈ outstanding (input s) session_id -> input_seq older < input_seq batch -> started older = true).
  { intros older Ho Hlt. destruct (started older) eqn:Eo; [done|]. exfalso.
    assert (Ho' : older ∈ List.filter (fun b => negb (started b)) (outstanding (input s) session_id)).
    { apply elem_of_filter_b. by rewrite Eo. }
    pose proof (sorted_filter (fun b => negb (started b)) _ (qo_sorted _ _ _ _ _ Hq)) as Hs. rewrite Ht in Ho', Hs. cbn in Hs.
    inversion Hs as [|? ? _ Hall]; subst. rewrite Forall_forall in Hall.
    apply elem_of_cons in Ho' as [->|Ho']; [lia|]. 
    assert (input_seq batch < input_seq older); [apply Hall, list_elem_of_fmap; by exists older|lia]. }
  destruct (mark_started_changes facts (input s) session_id batch token now_ms L Hin Hu Holder ltac:(lia)) as [Hc Hout].
  change (fst (mark_started (input s) (input_seq batch) token now_ms)) with (input s1) in Hc, Hout.
  pose proof (ledger_change _ _ _ _ L Hc Hw) as L1.
  assert (Hn : next_input_seq (input s1) = next_input_seq (input s)) by by inversion Hc.
  destruct (IH s1 (out ++ [input_effect s batch token])) with (facts := facts ++ [Sent batch token now_ms]) as (more & D & F).
  - split.
    + exists tail. rewrite Hout. by apply (start_unsent token now_ms batch _ (batches ++ tail)).
    + rewrite Hout. pose proof (filter_split_len started (outstanding (input s) session_id)) as H1.
      pose proof (filter_split_len started ((fun b => if input_seq b =? input_seq batch then start_batch token now_ms b else b)
                                              <$> outstanding (input s) session_id)) as H2.
      rewrite (start_unsent token now_ms batch _ (batches ++ tail) Hnd Hin Ht) in H2. rewrite Ht in H1.
      unfold len in *. rewrite length_fmap in H2. cbn [length app] in *. lia.
  - done.
  - cbn [fst]. by rewrite Hn.
  - exists (Sent batch token now_ms :: more). split; [|by constructor]. destruct D as [D1 (new & D2 & D3)]. constructor.
    + by eapply changes_step.
    + exists (input_effect s batch token :: new). cbn [snd] in *. split; [by rewrite D2, <- app_assoc|].
      unfold inputs in *. cbn. rewrite D3. unfold input_effect. pose proof (qo_batches _ _ _ _ _ Hq) as Hall.
      rewrite Forall_forall in Hall. by case_bool_decide.
Qed.

Lemma dispatch_startable_goes h session_id token now_ms : goes now_ms h (dispatch_startable h session_id token now_ms).
Proof.
  destruct h as [s out]. intros facts L Hw. by apply (dispatch_list_goes s out session_id) with (facts := facts);
    [eapply startable_ready|..].
Qed.

Lemma send_queued_goes h session_id now_ms : goes now_ms h (send_queued_input h session_id now_ms).
Proof.
  destruct h as [s out]. unfold send_queued_input. case_if; [apply goes_refl|].
  destruct (input_destination s session_id); [apply dispatch_startable_goes|apply goes_refl].
Qed.

(** ** Claims and recovery *)

Lemma reclaim_goes (s : InputStore Rest) out session_id now_ms : goes now_ms (s, out) (fst (reclaim_lost_route s session_id now_ms), out).
Proof.
  unfold reclaim_lost_route. case_if; [apply goes_refl|]. destruct (worker_of s session_id); [|apply goes_refl].
  apply goes_quiet, begin_fallback_quiet.
Qed.

Lemma block_lane_goes {now_ms} (s : InputStore Rest) out session_id : goes now_ms (s, out) (block_lane s session_id, out).
Proof. apply goes_router. intros facts L Hw. by apply (block_route_changes facts). Qed.

Lemma release_goes h session_id route now_ms : goes now_ms h (release_held_onto h session_id route now_ms).
Proof.
  destruct h as [s out]. unfold release_held_onto. case_if; [apply block_lane_goes|].
  eapply goes_trans; [|apply dispatch_startable_goes]. apply goes_quiet, release_held_quiet.
Qed.

Lemma defer_goes (s : InputStore Rest) out session_id now_ms : goes now_ms (s, out) (defer_or_block_fallback s session_id now_ms, out).
Proof.
  unfold defer_or_block_fallback. pose proof (defer_fallback_quiet (input s) session_id now_ms) as Hq.
  destruct (defer_fallback (input s) session_id now_ms) as [r keeps]. cbn [fst] in Hq.
  destruct keeps; [by apply goes_quiet|]. eapply goes_trans; [|apply block_lane_goes]. by apply goes_quiet.
Qed.

Lemma abandon_goes h session_id reason now_ms : goes now_ms h (abandon_promotion h session_id reason now_ms).
Proof.
  destruct h as [s out]. unfold abandon_promotion. destruct (promotion_of s session_id) as [hold|]; [|apply goes_refl].
  set (s1 := if is_staged s session_id (hold_attempt_id hold) then _ else s).
  eapply (goes_trans _ (s1, out)); [apply goes_quiet; unfold s1; by case_if; apply quiet_refl|].
  destruct (if claim_sent hold then _ else _) as [worker_fp|]; [apply goes_quiet, begin_fallback_quiet|].
  destruct (input_destination s1 session_id); [apply release_goes|apply block_lane_goes].
Qed.

Lemma claim_effect_key claim : effect_key (claim_effect claim) = None.
Proof. unfold claim_effect. by case_bool_decide. Qed.

(** A claim that begins, or the recovery from one that cannot. *)
Lemma begin_claim_goes (s : InputStore Rest) out session_id token epoch attempt_id now_ms (refused : InputStore Rest -> Handler Rest) :
  (forall s1 : InputStore Rest, goes now_ms (s1, out) (refused s1)) ->
  goes now_ms (s, out)
    match begin_route_claim (input s) session_id token epoch attempt_id now_ms with
    | (Ok claim, r) => (with_input s r, out ++ [claim_effect claim])
    | (Err _, r) => refused (with_input s r)
    end.
Proof.
  intros Hr. pose proof (begin_route_claim_quiet (input s) session_id token epoch attempt_id now_ms) as Hq.
  destruct (begin_route_claim _ _ _ _ _ _) as [[claim|reason] r]; cbn [snd] in Hq.
  - apply goes_claim; [done|apply claim_effect_key].
  - eapply goes_trans; [|apply Hr]. by apply goes_quiet.
Qed.

Lemma drain_goes h session_id attempt_id candidate held_at now_ms :
  goes now_ms h (drain_then_claim h session_id attempt_id candidate held_at now_ms).
Proof.
  destruct h as [s out]. unfold drain_then_claim. case_if; [case_if; [apply abandon_goes|apply goes_refl]|].
  pose proof (begin_route_claim_quiet (input s) session_id candidate (process_epoch candidate) (Some attempt_id) now_ms) as Hq.
  destruct (begin_route_claim _ _ _ _ _ _) as [[claim|reason] r]; cbn [snd] in Hq.
  - apply goes_claim; [done|apply claim_effect_key].
  - eapply goes_trans; [|apply abandon_goes]. by apply goes_quiet.
Qed.

Lemma commit_goes (s : InputStore Rest) out session_id attempt_id candidate now_ms :
  goes now_ms (s, out) (commit_candidate s session_id attempt_id candidate now_ms, out).
Proof. apply goes_quiet. unfold commit_candidate. by case_if; apply quiet_refl. Qed.

Lemma advance_goes h session_id attempt_id candidate now_ms : goes now_ms h (advance_promotion h session_id attempt_id candidate now_ms).
Proof.
  destruct h as [s out]. unfold advance_promotion. case_if; [apply goes_refl|].
  destruct (match promotion_of s session_id with Some hold => _ | None => None end) as [hold|].
  - case_if; [apply goes_refl|apply drain_goes].
  - case_if; [case_if; [apply abandon_goes|apply commit_goes]|].
    eapply goes_trans; [|apply drain_goes]. apply goes_quiet, hold_for_promotion_quiet.
Qed.

Lemma settle_route_result_goes h token reply now_ms : goes now_ms h (settle_route_result h token reply now_ms).
Proof.
  destruct h as [s out]. unfold settle_route_result.
  pose proof (settle_route_claim_quiet (input s) token reply now_ms) as Hq.
  destruct (settle_route_claim (input s) token reply now_ms) as [r [settlement|]]; cbn [fst] in Hq; [|by apply goes_quiet].
  set (s1 := note_change (with_input s r)). assert (G : goes now_ms (s, out) (s1, out)) by (by apply goes_quiet).
  destruct settlement as [claim|claim|claim reason].
  - destruct (claim_attempt_id claim).
    + case_if; [eapply goes_trans; [exact G|apply abandon_goes]|].
      eapply goes_trans; [exact G|]. eapply goes_trans; [apply commit_goes|apply release_goes].
    + eapply goes_trans; [exact G|apply release_goes].
  - apply goes_claim; [done|apply claim_effect_key].
  - destruct (claim_attempt_id claim); (eapply goes_trans; [exact G|]); [apply abandon_goes|apply defer_goes].
Qed.

Lemma end_claim_goes h reason now_ms claim : goes now_ms h (end_unanswered_claim h reason now_ms claim).
Proof. destruct h as [s out]. unfold end_unanswered_claim. destruct (claim_attempt_id claim); [apply abandon_goes|apply defer_goes]. Qed.

(** A loop whose turns go goes. *)
Lemma foldl_goes {now_ms} {A} (f : Handler Rest -> A -> Handler Rest) l h : (forall h x, goes now_ms h (f h x)) -> goes now_ms h (foldl f h l).
Proof. intros Hf. revert h. induction l as [|x l IH]; intros h; [apply goes_refl|]. cbn. eapply goes_trans; [apply Hf|apply IH]. Qed.

Lemma end_claims_goes h claims reason now_ms : goes now_ms h (end_unanswered_claims h claims reason now_ms).
Proof. apply foldl_goes. intros h' claim. apply end_claim_goes. Qed.

Lemma resume_goes h session_id now_ms : goes now_ms h (resume_held_promotion h session_id now_ms).
Proof.
  destruct h as [s out]. unfold resume_held_promotion. destruct (promotion_of s session_id) as [hold|]; [|apply goes_refl].
  case_if; [apply abandon_goes|]. case_if; [apply advance_goes|apply goes_refl].
Qed.

Lemma claim_fallback_goes now_ms h due : goes now_ms h (claim_fallback now_ms h due).
Proof.
  destruct h as [s out], due as [session_id f]. unfold claim_fallback.
  destruct (fallback_claim s f now_ms) as [[sync epoch]|]; [|apply defer_goes].
  apply (begin_claim_goes s out session_id sync epoch None now_ms (fun s1 => (block_lane s1 session_id, out))).
  intros s1. apply block_lane_goes.
Qed.

Lemma claim_due_goes h now_ms : goes now_ms h (claim_due_fallbacks h now_ms).
Proof. apply foldl_goes. intros h' due. apply claim_fallback_goes. Qed.

Lemma sweep_claims_goes h now_ms : goes now_ms h (sweep_route_claims h now_ms).
Proof.
  destruct h as [s out]. unfold sweep_route_claims. pose proof (take_claims_quiet (input s)
    (fun claim => ROUTE_CLAIM_TIMEOUT_MS <=? saturating_sub now_ms (sent_at_ms claim))) as Hq.
  change (take_claims _ _) with (expire_route_claims (input s) now_ms) in Hq.
  destruct (expire_route_claims (input s) now_ms) as [r claims]. cbn [fst] in Hq.
  eapply goes_trans; [by apply (goes_quiet s (with_input s r))|]. eapply goes_trans; [apply end_claims_goes|].
  eapply goes_trans; [|apply claim_due_goes]. apply foldl_goes. intros h' held. apply resume_goes.
Qed.

Lemma sweep_input_goes h now_ms : goes now_ms h (sweep_input h now_ms).
Proof.
  unfold sweep_input. eapply goes_trans; [apply (sweep_claims_goes h now_ms)|]. destruct (sweep_route_claims h now_ms) as [s out].
  destruct (sweep_held (input s) now_ms) as [r1 o1] eqn:E1. destruct (sweep_unanswered r1 now_ms) as [r2 o2] eqn:E2.
  eapply goes_trans; [|apply foldl_goes; intros h' session_id; apply send_queued_goes].
  apply goes_router. intros facts L Hw.
  destruct (sweep_held_changes facts (input s) now_ms L Hw) as ((m1 & C1 & F1 & L1) & N1 & _). rewrite E1 in *. cbn [fst] in *.
  destruct (sweep_unanswered_changes (facts ++ m1) r1 now_ms L1 ltac:(lia)) as ((m2 & C2 & F2 & _) & _ & _). rewrite E2 in *. cbn [fst] in *.
  exists (m1 ++ m2). split; [|by apply Forall_app].
  assert (input (if bool_decide (o1 = []) && bool_decide (o2 = []) then with_input s r2 else note_change (with_input s r2)) = r2)
    as -> by by case_if. by eapply changes_app.
Qed.

(** ** Routes and links *)

Lemma retire_route_goes {now_ms} (s : InputStore Rest) out session_id token reason : goes now_ms (s, out) (retire_route s session_id token reason, out).
Proof.
  unfold retire_route. set (s1 := note_change _). set (s2 := with_input s1 _).
  apply (goes_trans _ (s2, out)).
  - apply goes_router. intros facts L Hw.
    pose proof (retire_fenced_changes facts (input s) (fun fenced => bool_decide (fenced = token)) reason L Hw) as Hr.
    change (retire_fenced _ _ _) with (retire_token (input s1) token reason) in Hr. unfold s2.
    destruct (retire_token (input s1) token reason). by destruct Hr as [Hr _].
  - apply goes_quiet. cbn [with_rest input].
    destruct (transport token), (token_worker_fp token); first [apply begin_fallback_quiet|apply quiet_refl].
Qed.

Lemma sync_link_goes h generation now_ms : goes now_ms h (sync_link_closed h generation now_ms).
Proof.
  destruct h as [s out]. unfold sync_link_closed. destruct (close_link (rest s) generation) as [w ours].
  set (s1 := with_rest s w). set (s2 := if ours then _ else s1).
  assert (G : goes now_ms (s, out) (s2, out)).
  { unfold s2. destruct ours; [|by apply goes_quiet, quiet_refl]. apply goes_router. intros facts L Hw.
    unfold release_sync_generation.
    pose proof (retire_fenced_changes facts (input s) (on_sync_socket generation) "Sync closed" L Hw) as Hr.
    change (retire_fenced _ _ _) with (retire_sync_generation (input (note_change s1)) generation "Sync closed") in Hr.
    destruct (retire_sync_generation _ _ _) as [r1 o1]. destruct Hr as [(m1 & C1 & F1) _].
    unfold block_routes_on_sync_socket.
    destruct (forget_routes_changes (facts ++ m1) r1
      (fst <$> List.filter (fun kv => routed_on_socket generation (snd kv)) (bindings (lanes r1)))) as (m2 & C2 & F2).
    - by apply (ledger_dones facts (input s)).
    - by rewrite (changes_next _ _ _ C1 F1).
    - exists (m1 ++ m2). split; [by eapply changes_app|by apply Forall_app]. }
  eapply goes_trans; [exact G|]. pose proof (take_claims_quiet (input s2) (fun claim => on_sync_socket generation (claim_token claim))) as Hq.
  change (take_claims _ _) with (reject_sync_claims (input s2) generation) in Hq.
  destruct (reject_sync_claims (input s2) generation) as [r claims]. cbn [fst] in Hq.
  eapply goes_trans; [by apply (goes_quiet s2 (with_input s2 r))|apply end_claims_goes].
Qed.

Lemma close_input_goes {now_ms} (s : InputStore Rest) out session_id : goes now_ms (s, out) (close_input s session_id, out).
Proof.
  apply goes_router. intros facts L Hw. pose proof (set_phase_changes facts (input s) session_id Closed L Hw) as Hs.
  unfold close_input. cbn [with_input input]. destruct (set_phase (input s) session_id Closed). by destruct Hs as [Hs _].
Qed.

(** ** Answers *)

Lemma end_input_goes h session_id seq outcome now_ms :
  answer = Some outcome -> goes now_ms h (end_input h session_id seq outcome now_ms).
Proof.
  intros Ha. destruct h as [s out]. unfold end_input. destruct (settle (input s) seq outcome) as [r found] eqn:E. destruct found; [|apply goes_refl].
  assert (Ho : outcome_seq outcome = seq).
  { unfold settle in E. destruct (Z.eqb_spec (outcome_seq outcome) seq); [done|done]. }
  set (s1 := note_change (with_input s r)). eapply (goes_trans _ (s1, out)).
  - intros facts L Hw. pose proof (settle_changes facts (input s) seq outcome true L Ho ltac:(by left)) as Hc. rewrite E in Hc.
    destruct Hc as [_ (s' & batch & _ & _ & Hc)]. exists [Done true batch outcome]. split; [|apply Forall_singleton; cbn; by intros _].
    constructor; [by apply changes_one|]. exists []. split; [by rewrite app_nil_r|done].
  - eapply goes_trans; [apply send_queued_goes|]. destruct (promotion_of _ session_id) as [hold|]; [|apply goes_refl].
    case_if; [apply goes_refl|apply resume_goes].
Qed.

Lemma direct_result_goes h token session_id seq outcome now_ms :
  answer = Some outcome -> goes now_ms h (handle_direct_result h token session_id seq outcome now_ms).
Proof.
  intros Ha. destruct h as [s out]. unfold handle_direct_result. destruct (settle_from (input s) session_id token seq outcome) as [r found] eqn:E.
  destruct found; [|apply goes_refl]. eapply goes_trans; [|apply send_queued_goes]. intros facts L Hw.
  pose proof (settle_from_changes facts (input s) session_id token seq outcome L) as Hc. rewrite E in Hc.
  destruct Hc as (batch & _ & _ & _ & _ & Hc). exists [Done true batch outcome]. split; [|apply Forall_singleton; cbn; by intros _].
  constructor; [by apply changes_one|]. exists []. split; [by rewrite app_nil_r|done].
Qed.
End Paths.
#[global] Arguments goes {Rest} answer now_ms h h'.
