(* ===== verification/InputRuns.v ===== *)
(** * InputRuns: a client's input path over a run of events

    The events that reach the input path, in any order and at any instants, with
    the rest of the client moving between them as it likes; what each makes the
    client do; and the ledger of a run. *)
From S2P Require Export InputPaths.
#[local] Open Scope Z_scope.

Section Runs.
Context {Rest : Type} `{InputHost Rest}.

Inductive InputEvent :=
| Typed (session_id : string) (view_id : option string) (bytes : list byte)
| Answered (session_id : string) (seq : Z) (outcome : InputOutcome)
| AnsweredDirect (token : TerminalToken) (session_id : string) (seq : Z) (outcome : InputOutcome)
| ClaimAnswered (token : TerminalToken) (answer : InputRouteResult)
| CandidateReady (session_id : string) (attempt_id : Z) (candidate : TerminalToken)
| RouteRetired (session_id : string) (token : TerminalToken) (reason : string)
| SyncClosed (generation : Z)
| Swept
| SessionEnded (session_id : string)
| PaneReads (view_id : string)
| PaneReadsAdmission (view_id : string)
| PaneLeft (view_id : string)
| HostMoved (move : Rest -> Rest).

(** What an event makes the client do: the batch it takes, its effects, and the
    outcomes it tells a pane. *)
Record Reaction := mkReaction {
  reaction_taken : option PendingInput;
  reaction_effects : list InputEffect;
  reaction_told : list InputOutcome;
}.

Definition reacts (h : Handler Rest) : InputStore Rest * Reaction := (fst h, mkReaction None (snd h) []).

(** The batch a keystroke becomes. *)
Definition batch_taken (s : InputStore Rest) (session_id : string) (view_id : option string) (bytes : list byte) (now_ms : Z) :
    option PendingInput :=
  match fst (admit_input (input (fst (reclaim_lost_route s session_id now_ms))) session_id view_id bytes now_ms) with
  | Ok batch => Some batch
  | Err _ => None
  end.

Definition with_outcomes (s : InputStore Rest) (f : InputOutcomeFeed) : InputStore Rest := with_input s (with_feed (input s) f).

Definition input_step (s : InputStore Rest) (event : InputEvent) (now_ms : Z) : InputStore Rest * Reaction :=
  match event with
  | Typed session_id view_id bytes =>
      let '(s', out) := handle_terminal_input (s, []) session_id view_id bytes now_ms in
      (s', mkReaction (batch_taken s session_id view_id bytes now_ms) out [])
  | Answered session_id seq outcome => reacts (handle_input_result (s, []) session_id seq outcome now_ms)
  | AnsweredDirect token session_id seq outcome => reacts (handle_direct_result (s, []) token session_id seq outcome now_ms)
  | ClaimAnswered token answer => reacts (settle_route_result (s, []) token answer now_ms)
  | CandidateReady session_id attempt_id candidate => reacts (advance_promotion (s, []) session_id attempt_id candidate now_ms)
  | RouteRetired session_id token reason => reacts (retire_route s session_id token reason, [])
  | SyncClosed generation => reacts (sync_link_closed (s, []) generation now_ms)
  | Swept => reacts (sweep_input (s, []) now_ms)
  | SessionEnded session_id => reacts (close_input s session_id, [])
  | PaneReads view_id =>
      let '(told, f) := take_outcomes (outcome_feed (input s)) view_id in
      (with_outcomes s f, mkReaction None [] told)
  | PaneReadsAdmission view_id => (with_outcomes s (snd (take_admission (outcome_feed (input s)) view_id)), mkReaction None [] [])
  | PaneLeft view_id => (with_outcomes s (forget_view (outcome_feed (input s)) view_id), mkReaction None [] [])
  | HostMoved move => (with_rest s (move (rest s)), mkReaction None [] [])
  end.

Fixpoint input_run (events : list (InputEvent * Z)) (s : InputStore Rest) : InputStore Rest * list (InputEvent * Reaction) :=
  match events with
  | [] => (s, [])
  | (event, now_ms) :: rest =>
      let '(s1, reaction) := input_step s event now_ms in
      let '(s2, trace) := input_run rest s1 in
      (s2, (event, reaction) :: trace)
  end.

(** A worker's proof that it wrote nothing of a batch. *)
Definition refuses (event : InputEvent) (seq : Z) : bool :=
  match event with Answered _ s outcome => (s =? seq) && says_route_changed outcome | _ => false end.

(** ** One event *)

(** The outcome a carrier's frame reports. *)
Definition event_answer (event : InputEvent) : option InputOutcome :=
  match event with Answered _ _ outcome | AnsweredDirect _ _ _ outcome => Some outcome | _ => None end.

(** What may come before an event hands anything over. *)
Definition opening (event : InputEvent) (now_ms : Z) (fact : Fact) : Prop :=
  match fact with
  | Took batch => admitted_at_ms batch = now_ms
  | Sent _ _ _ => False
  | PutBack batch => refuses event (input_seq batch) = true
  | Done reported _ _ => reported = false
  | Burned => True
  | Fed (ReadOutcomes view) => event = PaneReads view
  | Fed (LeftView view) => event = PaneLeft view
  | Fed _ => True
  end.

(** What the panes were told, by the reads of a list of facts. *)
Definition tell_step (st : InputOutcomeFeed * list (string * InputOutcome)) (fact : Fact) :
    InputOutcomeFeed * list (string * InputOutcome) :=
  let '(f, told) := st in
  match fact with
  | Done _ _ outcome => (observe_outcome f outcome, told)
  | Fed note =>
      (apply_note f note,
       match note with ReadOutcomes view => told ++ ((fun o => (view, o)) <$> fst (take_outcomes f view)) | _ => told end)
  | _ => st
  end.

Definition tell (f : InputOutcomeFeed) (facts : list Fact) : InputOutcomeFeed * list (string * InputOutcome) :=
  foldl tell_step (f, []) facts.

(** What an event tells the pane that reads. *)
Definition event_told (event : InputEvent) (reaction : Reaction) : list (string * InputOutcome) :=
  match event with PaneReads view => (fun o => (view, o)) <$> reaction_told reaction | _ => [] end.

(** The batches the panes' feed was told of, and those it should be. *)
Definition notes (facts : list Fact) : list PendingInput :=
  omap (fun fact => match fact with Fed (Noted (Some _) (Ok batch)) => Some batch | _ => None end) facts.

Definition typed_in_pane (batch : PendingInput) : bool := bool_decide (is_Some (input_view batch)).

(** An event as changes of the ledger of a run. *)
Record unfolds (facts : list Fact) (s : InputStore Rest) (event : InputEvent) (now_ms : Z) (s' : InputStore Rest) (reaction : Reaction)
    (pre more : list Fact) : Prop := {
  un_ledger : ledger (facts ++ pre ++ more) (input s');
  un_changes : changes (input s) (pre ++ more) (input s');
  un_next : next_input_seq (input s) <= next_input_seq (input s') <= next_input_seq (input s) + 1;
  un_spent : spends (pre ++ more) <= 1;
  un_effects : inputs (reaction_effects reaction) = batch_key <$> sent more;
  un_opening : Forall (opening event now_ms) pre;
  un_onward : Forall (onward (event_answer event) now_ms) more;
  un_typed batch : reaction_taken reaction = Some batch ->
    event = Typed (input_session batch) (input_view batch) (input_bytes batch);
  un_taken : taken pre = option_list (reaction_taken reaction);
  un_notes : notes pre = List.filter typed_in_pane (option_list (reaction_taken reaction));
  un_told : tell (outcome_feed (input s)) (pre ++ more) = (outcome_feed (input s'), event_told event reaction);
}.

Lemma tell_told f told facts :
  foldl tell_step (f, told) facts = (fst (tell f facts), told ++ snd (tell f facts)).
Proof.
  unfold tell. revert f told. induction facts as [|fact facts IH]; intros f told; cbn [foldl]; [by rewrite app_nil_r|].
  destruct (tell_step (f, told) fact) as [f1 t1] eqn:E1. destruct (tell_step (f, []) fact) as [f2 t2] eqn:E2.
  assert (f1 = f2 /\ t1 = told ++ t2) as [-> ->].
  { destruct fact as [| | | | |note]; cbn in E1, E2; simplify_eq; rewrite ?app_nil_r; try done.
    destruct note; cbn; by rewrite ?app_nil_r. }
  rewrite (IH f2 (told ++ t2)), (IH f2 t2). cbn. by rewrite app_assoc.
Qed.

Lemma tell_app f a b :
  tell f (a ++ b) = (fst (tell (fst (tell f a)) b), snd (tell f a) ++ snd (tell (fst (tell f a)) b)).
Proof. unfold tell at 1. rewrite foldl_app. fold (tell f a). destruct (tell f a) as [f1 t1]. by rewrite tell_told. Qed.

(** The feed of a router is the one the facts tell of. *)
Lemma tell_feed r facts r' : changes r facts r' -> fst (tell (outcome_feed r) facts) = outcome_feed r'.
Proof.
  induction 1 as [r r' Hq|r fact facts r1 r' Hf Hc IH]; [by rewrite (q_feed _ _ Hq)|].
  rewrite <- IH. unfold tell at 1. cbn [foldl].
  assert (fst (tell_step (outcome_feed r, []) fact) = outcome_feed r1) as He by (destruct Hf; cbn; congruence).
  destruct (tell_step (outcome_feed r, []) fact) as [f t]. cbn in He. rewrite tell_told. by rewrite He.
Qed.

Definition unread (fact : Fact) : Prop := match fact with Fed (ReadOutcomes _) => False | _ => True end.

Lemma tell_unread f facts : Forall unread facts -> snd (tell f facts) = [].
Proof.
  unfold tell. intros Hu. revert f. induction Hu as [|fact facts Hf _ IH]; intros f; [done|]. cbn [foldl].
  destruct fact as [| | | | |note]; cbn; try apply IH. destruct note; try done; cbn; apply IH.
Qed.

Lemma onward_unread answer now_ms facts : Forall (onward answer now_ms) facts -> Forall unread facts.
Proof. intros Hf. eapply Forall_impl; [exact Hf|]. by intros [| | | | |]. Qed.

Lemma onward_spends answer now_ms facts : Forall (onward answer now_ms) facts -> spends facts = 0.
Proof. unfold spends. induction 1 as [|fact facts Hf _ IH]; [done|]. destruct fact; try done. Qed.

(** After what opens an event, the rest goes. *)
Lemma opened_unfolds facts (s s1 : InputStore Rest) event now_ms took pre h' :
  ledger (facts ++ pre) (input s1) -> changes (input s) pre (input s1) ->
  next_input_seq (input s) <= next_input_seq (input s1) <= next_input_seq (input s) + 1 ->
  next_input_seq (input s1) + 1 < 2 ^ 64 -> Forall (opening event now_ms) pre -> Forall unread pre ->
  taken pre = option_list took -> spends pre <= 1 ->
  (forall batch, took = Some batch -> event = Typed (input_session batch) (input_view batch) (input_bytes batch)) ->
  notes pre = List.filter typed_in_pane (option_list took) ->
  goes (event_answer event) now_ms (s1, []) h' ->
  exists more, unfolds facts s event now_ms (fst h') (mkReaction took (snd h') []) pre more.
Proof.
  intros L C Hn Hw Hop Hun Ht Hsp Htyped Hnote G. destruct (G _ L Hw) as (more & [Hc (new & E & Hs)] & F). exists more. cbn in *.
  assert (Hall : changes (input s) (pre ++ more) (input (fst h'))) by (by eapply changes_app).
  constructor; try done.
  - rewrite app_assoc. by eapply ledger_onward.
  - by rewrite (onward_next _ _ _ Hc F).
  - rewrite spends_app, (onward_spends _ _ _ F). lia.
  - cbn. by rewrite E.
  - rewrite (surjective_pairing (tell _ _)). f_equal; [by apply tell_feed|].
    rewrite tell_unread by (apply Forall_app; split; [done|by eapply onward_unread]). by destruct event.
Qed.

(** A handler that takes no batch and puts none back. *)
Lemma goes_unfolds facts (s : InputStore Rest) event now_ms h' :
  goes (event_answer event) now_ms (s, []) h' -> ledger facts (input s) -> next_input_seq (input s) + 1 < 2 ^ 64 ->
  exists more, unfolds facts s event now_ms (fst h') (mkReaction None (snd h') []) [] more.
Proof. intros G L Hw. apply (opened_unfolds facts s s); try done; [by rewrite app_nil_r|apply changes_nil|lia]. Qed.

Lemma changes_split r facts1 facts2 r' : changes r (facts1 ++ facts2) r' -> exists r1, changes r facts1 r1 /\ changes r1 facts2 r'.
Proof.
  revert r. induction facts1 as [|f facts1 IH]; intros r Hc; [by exists r; split; [apply changes_nil|]|].
  cbn in Hc. inversion Hc as [|? ? r1 ? Hch Hrest]; subst. destruct (IH _ Hrest) as (r2 & H1 & H2).
  exists r2. split; [by eapply changes_step|done].
Qed.

(** An event that only reads a pane's feed, or leaves it. *)
Lemma feed_unfolds facts (s : InputStore Rest) event now_ms note told :
  match note with Noted _ _ => False | _ => True end -> opening event now_ms (Fed note) ->
  snd (tell (outcome_feed (input s)) [Fed note]) = event_told event (mkReaction None [] told) ->
  ledger facts (input s) ->
  unfolds facts s event now_ms (with_outcomes s (apply_note (outcome_feed (input s)) note)) (mkReaction None [] told) [Fed note] [].
Proof.
  intros Hk Hop Ht L.
  assert (Hc : change (input s) (Fed note) (input (with_outcomes s (apply_note (outcome_feed (input s)) note)))).
  { apply change_feed; try done. by destruct note. }
  constructor; try done.
  - by apply (ledger_feed facts (input s)).
  - by apply changes_one.
  - cbn. lia.
  - by repeat constructor.
  - by destruct note.
  - rewrite (surjective_pairing (tell _ _)). f_equal. exact Ht.
Qed.

Lemma changes_one_next r fact r' : changes r [fact] r' -> exists r1, change r fact r1 /\ quiet r1 r'.
Proof.
  intros Hc. inversion Hc as [|f fs r1 r2 Hch Hrest]; subst. inversion Hrest as [r2 Hq|]; subst. by exists r1.
Qed.

(** A keystroke's admission, told to its pane. *)
Definition admit_and_note (s : InputStore Rest) (session_id : string) (view_id : option string) (bytes : list byte) (now_ms : Z) :
    result PendingInput InputRefusal * InputStore Rest :=
  let '(answer, r) := admit_input (input s) session_id view_id bytes now_ms in
  (answer, with_input s (with_feed r (note_admission (outcome_feed r) view_id answer))).

Lemma admitted_opens facts (s : InputStore Rest) session_id view_id bytes now_ms :
  ledger facts (input s) -> next_input_seq (input s) + 1 < 2 ^ 64 ->
  let '(admission, s1) := admit_and_note s session_id view_id bytes now_ms in
  exists pre, ledger (facts ++ pre) (input s1) /\ changes (input s) pre (input s1)
    /\ next_input_seq (input s) <= next_input_seq (input s1) <= next_input_seq (input s) + 1
    /\ Forall (opening (Typed session_id view_id bytes) now_ms) pre /\ Forall unread pre /\ spends pre <= 1
    /\ match admission with
       | Ok batch => taken pre = [batch] /\ notes pre = List.filter typed_in_pane [batch]
                     /\ batch ∈ outstanding (input s1) session_id /\ started batch = false
                     /\ input_session batch = session_id /\ input_view batch = view_id /\ input_bytes batch = bytes
       | Err _ => taken pre = [] /\ notes pre = []
       end.
Proof.
  intros L Hw. unfold admit_and_note. pose proof (admit_input_changes facts (input s) session_id view_id bytes now_ms L) as Ha.
  assert (Hu : u64 (next_input_seq (input s) + 1) = next_input_seq (input s) + 1).
  { apply wrap_small. pose proof (lg_next _ _ L). split; lia. }
  destruct (admit_input (input s) session_id view_id bytes now_ms) as [admission r]. destruct Ha as [Hfeed Ha].
  set (r' := with_feed r (note_admission (outcome_feed r) view_id admission)).
  assert (Hend : forall pre, changes (input s) pre r -> ledger (facts ++ pre) r -> change r (Fed (Noted view_id admission)) r' ->
            ledger (facts ++ pre ++ [Fed (Noted view_id admission)]) r' /\ changes (input s) (pre ++ [Fed (Noted view_id admission)]) r').
  { intros pre C L2 Hf. split; [rewrite app_assoc; by eapply ledger_feed|eapply changes_app; [exact C|by apply changes_one]]. }
  destruct admission as [batch|refusal].
  - destruct Ha as (Hc & Hb & Hout).
    assert (Hin : batch ∈ outstanding r session_id) by (rewrite Hout; apply elem_of_app; right; by apply list_elem_of_singleton).
    destruct (changes_one_next _ _ _ Hc) as (r1 & Hch & Hq).
    assert (Hn : next_input_seq r = next_input_seq (input s) + 1) by (rewrite (q_seq _ _ Hq), <- Hu; by inversion Hch).
    pose proof (ledger_quiet _ _ _ (ledger_change _ _ _ _ L Hch Hw) Hq) as L2.
    assert (Hs : input_session batch = session_id) by by rewrite Hb.
    assert (Hv : input_view batch = view_id) by by rewrite Hb.
    assert (Ht : admitted_at_ms batch = now_ms) by by rewrite Hb.
    destruct (Hend [Took batch] Hc L2) as [L3 C3].
    { apply change_feed; try done. destruct view_id; [|done]. by rewrite Hs. }
    exists ([Took batch] ++ [Fed (Noted view_id (Ok batch))]). split_and!; try done;
      [cbn; lia|cbn; lia|by repeat constructor|by repeat constructor| |by rewrite Hb|by rewrite Hb].
    unfold typed_in_pane. cbn. rewrite Hv. by destruct view_id.
  - assert (Hf : change r (Fed (Noted view_id (Err refusal))) r') by (apply change_feed; try done; by destruct view_id).
    assert (Hpre : exists pre, changes (input s) pre r /\ ledger (facts ++ pre) r /\ (pre = [] \/ pre = [Burned])
              /\ next_input_seq (input s) <= next_input_seq r <= next_input_seq (input s) + 1).
    { destruct Ha as [Hc|Hc].
      - exists []. inversion Hc as [r2 Hq|]; subst. rewrite app_nil_r. pose proof (q_seq _ _ Hq).
        split_and!; [done|by eapply ledger_quiet|by left|lia|lia].
      - exists [Burned]. destruct (changes_one_next _ _ _ Hc) as (r1 & Hch & Hq).
        assert (Hn : next_input_seq r = next_input_seq (input s) + 1) by (rewrite (q_seq _ _ Hq), <- Hu; by inversion Hch).
        split_and!; [done| |by right|lia|lia]. exact (ledger_quiet _ _ _ (ledger_change _ _ _ _ L Hch Hw) Hq). }
    destruct Hpre as (pre & C & L2 & Hcase & Hn). destruct (Hend pre C L2 Hf) as [L3 C3]. exists (pre ++ [Fed (Noted view_id (Err refusal))]).
    destruct Hcase as [->| ->]; split_and!; try done; try (by destruct view_id); cbn; try lia; by repeat constructor.
Qed.

Lemma settle_as_unsent_goes answer now_ms (s : InputStore Rest) out session_id batch reason :
  batch ∈ outstanding (input s) session_id -> started batch = false ->
  goes answer now_ms (s, out) (settle_as_unsent s session_id (input_seq batch) reason, out).
Proof.
  intros Hin Hu. apply goes_router. intros facts L Hw. set (outcome := Rejected (input_seq batch) reason).
  pose proof (settle_changes facts (input s) (input_seq batch) outcome false L eq_refl) as Hs.
  unfold settle_as_unsent. cbn [note_change with_input input]. fold outcome.
  destruct (settle (input s) (input_seq batch) outcome) as [r [|]]; cbn [fst].
  - destruct Hs as [_ (s1 & b & Hb & He & Hc)].
    + intros s1 b Hb He. right. destruct (ledger_unique _ _ _ _ _ _ L Hb Hin He) as [_ ->]. unfold truthful. by rewrite Hu.
    + exists [Done false b outcome]. split; [by apply changes_one|by repeat constructor].
  - destruct Hs as [_ [-> _]].
    + intros s1 b Hb He. right. destruct (ledger_unique _ _ _ _ _ _ L Hb Hin He) as [_ ->]. unfold truthful. by rewrite Hu.
    + exists []. split; [apply changes_nil|constructor].
Qed.

Lemma reclaim_quiet (s : InputStore Rest) session_id now_ms : quiet (input s) (input (fst (reclaim_lost_route s session_id now_ms))).
Proof.
  unfold reclaim_lost_route. case_if; [apply quiet_refl|].
  destruct (worker_of s session_id); [apply begin_fallback_quiet|apply quiet_refl].
Qed.

Lemma typed_unfolds facts (s : InputStore Rest) session_id view_id bytes now_ms :
  ledger facts (input s) -> next_input_seq (input s) + 2 < 2 ^ 64 ->
  exists pre more, unfolds facts s (Typed session_id view_id bytes) now_ms
    (fst (input_step s (Typed session_id view_id bytes) now_ms)) (snd (input_step s (Typed session_id view_id bytes) now_ms)) pre more.
Proof.
  intros L Hw. cbn [input_step]. unfold handle_terminal_input, batch_taken.
  pose proof (reclaim_quiet s session_id now_ms) as Hr.
  destruct (reclaim_lost_route s session_id now_ms) as [s1 reclaiming]. cbn [fst] in *.
  pose proof (ledger_quiet _ _ _ L Hr) as L1. pose proof (q_seq _ _ Hr) as Hn1.
  pose proof (admitted_opens facts s1 session_id view_id bytes now_ms L1 ltac:(lia)) as Ha. unfold admit_and_note in Ha.
  destruct (admit_input (input s1) session_id view_id bytes now_ms) as [admission r]. cbn [fst snd].
  set (s2 := with_input s1 _) in *. destruct Ha as (pre & L2 & C2 & Hn & Hop & Hun & Hsp & Ht). exists pre.
  pose proof (changes_before _ _ _ _ Hr C2) as C.
  destruct admission as [batch|refusal].
  - destruct Ht as (Ht & Hnote & Hin & Hu & Hs & Hv & Hb). cbn zeta.
    assert (G : forall h', goes None now_ms (note_change s2, []) h' ->
      exists more, unfolds facts s (Typed session_id view_id bytes) now_ms (fst h') (mkReaction (Some batch) (snd h') []) pre more).
    { intros h' G. apply (opened_unfolds facts s (note_change s2)); try done; [cbn [note_change input]; lia..|].
      intros b [= <-]. by rewrite Hs, Hv, Hb. }
    case_if; [case_if; [|by apply (G (note_change s2, [])), goes_refl]|].
    + destruct (claim_due_fallbacks (note_change s2, []) now_ms) as [s3 out] eqn:E. apply (G (s3, out)). rewrite <- E. apply claim_due_goes.
    + destruct (input_destination (note_change s2) session_id) as [token|].
      * destruct (dispatch_startable (note_change s2, []) session_id token now_ms) as [s3 out] eqn:E. apply (G (s3, out)).
        rewrite <- E. apply dispatch_startable_goes.
      * apply (G (_, [])). by apply (settle_as_unsent_goes None now_ms (note_change s2) [] session_id batch).
  - destruct Ht as [Ht Hnote]. apply (opened_unfolds facts s s2 _ _ None pre (s2, [])); try done; [lia|lia|apply goes_refl].
Qed.

Lemma answered_unfolds facts (s : InputStore Rest) session_id seq outcome now_ms :
  ledger facts (input s) -> next_input_seq (input s) + 2 < 2 ^ 64 ->
  exists pre more, unfolds facts s (Answered session_id seq outcome) now_ms
    (fst (handle_input_result (s, []) session_id seq outcome now_ms))
    (mkReaction None (snd (handle_input_result (s, []) session_id seq outcome now_ms)) []) pre more.
Proof.
  intros L Hw. unfold handle_input_result.
  set (moved := carried_on_sync s session_id seq && negb (has_route (rest s) session_id) && says_route_changed outcome).
  assert (Hend : exists more, unfolds facts s (Answered session_id seq outcome) now_ms (fst (end_input (s, []) session_id seq outcome now_ms))
            (mkReaction None (snd (end_input (s, []) session_id seq outcome now_ms)) []) [] more).
  { apply goes_unfolds; [by apply end_input_goes|done|lia]. }
  destruct moved eqn:Em; [|by exists []].
  pose proof (requeue_changes facts (input s) session_id seq L ltac:(lia)) as Hq.
  destruct (requeue_moved_sync_batch (input s) session_id seq) as [r requeued]. destruct requeued; [|by exists []].
  destruct Hq as (dones & batch & Hc & Hd & Hin & Hseq & Hst). exists (dones ++ [PutBack batch]).
  assert (Hopen : Forall (opening (Answered session_id seq outcome) now_ms) (dones ++ [PutBack batch])).
  { apply Forall_app. split; [eapply Forall_impl; [exact Hd|by intros [| | | | |]]|]. constructor; [|constructor]. cbn.
    rewrite Hseq, Z.eqb_refl. unfold moved in Em. by bool_to_prop. }
  assert (Hun : Forall unread (dones ++ [PutBack batch])).
  { apply Forall_app. split; [eapply Forall_impl; [exact Hd|by intros [| | | | |]]|by repeat constructor]. }
  destruct (changes_split _ _ _ _ Hc) as (r1 & C1 & C2). pose proof (ledger_dones facts (input s) _ _ L ltac:(lia) C1 Hd) as L1.
  pose proof (changes_next _ _ _ C1 Hd) as N1. destruct (changes_one_next _ _ _ C2) as (r2 & Hch & Hqt).
  pose proof (ledger_quiet _ _ _ (ledger_change _ _ _ _ L1 Hch ltac:(lia)) Hqt) as L2.
  assert (N2 : next_input_seq r = next_input_seq (input s)) by (rewrite (q_seq _ _ Hqt), <- N1; by inversion Hch).
  assert (Ht : taken (dones ++ [PutBack batch]) = []).
  { rewrite taken_app. cbn. rewrite app_nil_r. clear -Hd. induction Hd as [|f l Hf _ IH]; [done|]. by destruct f. }
  assert (Hnt : notes (dones ++ [PutBack batch]) = []).
  { unfold notes. rewrite omap_app. cbn. rewrite app_nil_r. clear -Hd. induction Hd as [|f l Hf _ IH]; [done|]. by destruct f. }
  assert (Hsp : spends (dones ++ [PutBack batch]) <= 1).
  { rewrite spends_app. cut (spends dones = 0); [by intros ->|]. clear -Hd. unfold spends.
    induction Hd as [|f l Hf _ IH]; [done|]. by destruct f. }
  set (s1 := note_change (with_input s r)).
  apply (opened_unfolds facts s s1); [by rewrite <- app_assoc in L2|done|cbn; lia|cbn; lia|done..|].
  set (after := if is_holding (input s1) session_id then (s1, true) else reclaim_lost_route s1 session_id now_ms).
  assert (G : goes (Some outcome) now_ms (s1, []) (fst after, [])) by (unfold after; case_if; [apply goes_refl|apply reclaim_goes]).
  destruct after as [s2 claims]. cbn [fst] in G. destruct claims; (eapply goes_trans; [exact G|]); [apply claim_due_goes|by apply end_input_goes].
Qed.

(** Every event. *)
Lemma step_unfolds facts (s : InputStore Rest) event now_ms :
  ledger facts (input s) -> next_input_seq (input s) + 2 < 2 ^ 64 ->
  exists pre more, unfolds facts s event now_ms (fst (input_step s event now_ms)) (snd (input_step s event now_ms)) pre more.
Proof.
  intros L Hw.
  assert (G : forall h', goes (event_answer event) now_ms (s, []) h' ->
            exists pre more, unfolds facts s event now_ms (fst (reacts h')) (snd (reacts h')) pre more).
  { intros h' G. exists []. apply goes_unfolds; [done|done|lia]. }
  destruct event as [session_id view bytes|session_id seq outcome|token session_id seq outcome|token reply|session_id attempt candidate
    |session_id token reason|generation| |session_id|view|view|view|move].
  - by apply typed_unfolds.
  - by apply answered_unfolds.
  - apply G. by apply direct_result_goes.
  - apply G. apply settle_route_result_goes.
  - apply G. apply advance_goes.
  - apply G. apply retire_route_goes.
  - apply G. apply sync_link_goes.
  - apply G. apply sweep_input_goes.
  - apply G. apply close_input_goes.
  - exists [Fed (ReadOutcomes view)], []. by apply (feed_unfolds facts s _ now_ms (ReadOutcomes view) (default [] (settled (outcome_feed (input s)) !! view))).
  - exists [Fed (ReadAdmission view)], []. by apply (feed_unfolds facts s _ now_ms (ReadAdmission view) []).
  - exists [Fed (LeftView view)], []. by apply (feed_unfolds facts s _ now_ms (LeftView view) []).
  - exists []. apply (goes_unfolds facts s _ _ (with_rest s (move (rest s)), [])); [|done|lia]. by apply goes_quiet.
Qed.
End Runs.
Arguments InputEvent : clear implicits.

(** ** The input path over whole runs

    A run of events as one list of ledger changes, the batches a trace shows out
    of hand, and what the panes are told of theirs. *)

Definition block_facts (blocks : list (list Fact * list Fact)) : list Fact := blocks ≫= fun block => fst block ++ snd block.

(** ** What the panes are told *)

Definition told_to (view : string) (told : list (string * InputOutcome)) : list InputOutcome :=
  omap (fun t => if bool_decide (fst t = view) then Some (snd t) else None) told.

Definition queued_for (f : InputOutcomeFeed) (view : string) : list InputOutcome := default [] (settled f !! view).

(** The outcomes of the batches a pane typed. *)
Definition outcomes_of (view : string) (facts : list Fact) : list InputOutcome :=
  omap (fun d => if bool_decide (input_view (fst d) = Some view) then Some (snd d) else None) (settlements facts).

Definition noted_for (view : string) (facts : list Fact) : list Z :=
  input_seq <$> List.filter (fun batch => bool_decide (input_view batch = Some view)) (notes facts).

Record feeds (facts : list Fact) (r : InputRouter) (told : list (string * InputOutcome)) : Prop := {
  fe_sub view : told_to view told ++ queued_for (outcome_feed r) view `sublist_of` outcomes_of view facts;
  fe_queued view outcome : outcome ∈ queued_for (outcome_feed r) view -> outcome_seq outcome ∈ noted_for view facts;
  fe_watched view seq : watched (outcome_feed r) !! seq = Some view -> seq ∈ noted_for view facts;
  fe_kept view seq : len (noted_for view facts) <= SETTLED_PER_VIEW_CAPACITY -> Fed (LeftView view) ∉ facts ->
    seq ∈ noted_for view facts ->
    watched (outcome_feed r) !! seq = Some view
    \/ seq ∈ outcome_seq <$> told_to view told ++ queued_for (outcome_feed r) view;
}.

Lemma outcomes_of_app view a b : outcomes_of view (a ++ b) = outcomes_of view a ++ outcomes_of view b.
Proof. unfold outcomes_of. by rewrite settlements_app, omap_app. Qed.

Lemma noted_for_app view a b : noted_for view (a ++ b) = noted_for view a ++ noted_for view b.
Proof. unfold noted_for, notes. by rewrite omap_app, List.filter_app, fmap_app. Qed.

Lemma told_to_app view a b : told_to view (a ++ b) = told_to view a ++ told_to view b.
Proof. apply omap_app. Qed.

(** Each outcome is told of once: its batch is settled once. *)
Lemma outcomes_of_seqs facts r view :
  ledger facts r -> (outcome_seq <$> outcomes_of view facts) `sublist_of` done_seqs facts.
Proof.
  intros L. assert (Hs : forall d, d ∈ settlements facts -> outcome_seq (snd d) = input_seq (fst d)).
  { intros [b o] Hd. apply (lg_done _ _ L b o Hd). }
  unfold outcomes_of, done_seqs. revert Hs. generalize (settlements facts). intros l Hs. induction l as [|d l IH]; [constructor|].
  cbn. case_bool_decide; cbn.
  - rewrite Hs by by left. constructor. apply IH. intros d' Hd. apply Hs. by right.
  - constructor. apply IH. intros d' Hd. apply Hs. by right.
Qed.

Lemma told_nodup facts r told view :
  ledger facts r -> feeds facts r told -> NoDup (outcome_seq <$> told_to view told ++ queued_for (outcome_feed r) view).
Proof.
  intros L F. eapply sublist_NoDup; [apply (lg_done_once _ _ L)|]. etransitivity; [|by apply (outcomes_of_seqs facts r view)].
  apply (fmap_sublist outcome_seq), F.
Qed.

(** A change that leaves the feed alone. *)
Lemma feeds_same facts r fact r' told :
  feeds facts r told -> outcome_feed r' = outcome_feed r -> settlements [fact] = [] ->
  (forall view, noted_for view [fact] = []) -> (forall view, fact <> Fed (LeftView view)) -> feeds (facts ++ [fact]) r' told.
Proof.
  intros [F1 F2 F3 F4] Hf Hs Hn Hl. constructor; intros view; rewrite ?Hf, ?noted_for_app, ?Hn, ?app_nil_r; auto.
  - rewrite outcomes_of_app. unfold outcomes_of at 2. by rewrite Hs, app_nil_r.
  - intros seq Hlen Hleft. apply F4; [done|]. intros Hin. apply Hleft. apply elem_of_app. by left.
Qed.

Lemma queued_insert w a s view v l :
  queued_for (mkInputOutcomeFeed w a (<[v := l]> s)) view
  = if decide (v = view) then l else default [] (s !! view).
Proof. unfold queued_for. cbn. case_decide; [subst; by rewrite lookup_insert_eq|by rewrite lookup_insert_ne]. Qed.

Lemma queued_delete w a s view v :
  queued_for (mkInputOutcomeFeed w a (base.delete v s)) view = if decide (v = view) then [] else default [] (s !! view).
Proof. unfold queued_for. cbn. case_decide; [subst; by rewrite lookup_delete_eq|by rewrite lookup_delete_ne]. Qed.

(** A settlement reaches the pane that watches it. *)
Lemma feeds_done facts r reported batch outcome r' told :
  ledger facts r -> ledger (facts ++ [Done reported batch outcome]) r' -> change r (Done reported batch outcome) r' ->
  feeds facts r told -> feeds (facts ++ [Done reported batch outcome]) r' told.
Proof.
  intros L L' Hc [F1 F2 F3 F4]. inversion Hc as [| | |? session_id position ? ? ? Ho E Hout Htrue Hl Hb Hn Hf| |]; subst.
  assert (Hn0 : forall view, noted_for view (facts ++ [Done reported batch outcome]) = noted_for view facts).
  { intros view. rewrite noted_for_app. cbn. by rewrite app_nil_r. }
  assert (Hleft : forall view, Fed (LeftView view) ∉ facts ++ [Done reported batch outcome] -> Fed (LeftView view) ∉ facts).
  { intros view Hno Hin. apply Hno, elem_of_app. by left. }
  assert (Hin : batch ∈ outstanding r session_id) by (by eapply list_elem_of_lookup_2).
  unfold observe_outcome in Hf.
  destruct (watched (outcome_feed r) !! outcome_seq outcome) as [v|] eqn:Ew.
  2:{ constructor; intros view; rewrite Hf, ?Hn0; auto.
      - rewrite outcomes_of_app. apply sublist_inserts_r, F1. }
  assert (Hv : input_view batch = Some v).
  { destruct (lg_watched _ _ L _ _ Ew) as (s & b & Hb1 & He & Hv). rewrite Hout in He.
    by destruct (ledger_unique _ _ _ _ _ _ L Hb1 Hin He) as [_ ->]. }
  set (queue := default [] (settled (outcome_feed r) !! v)) in *.
  set (kept := if SETTLED_PER_VIEW_CAPACITY <=? len queue then tail queue else queue) in *.
  assert (Hq : forall view, queued_for (outcome_feed r') view = if decide (v = view) then kept ++ [outcome] else queued_for (outcome_feed r) view).
  { intros view. rewrite Hf. apply queued_insert. }
  assert (Hkept : kept `sublist_of` queue) by (unfold kept; case_if; [by destruct queue; [|constructor]|done]).
  assert (Hsub : told_to v told ++ queue ++ [outcome] `sublist_of` outcomes_of v (facts ++ [Done reported batch outcome])).
  { rewrite app_assoc, outcomes_of_app. apply sublist_app; [apply F1|]. cbn. by rewrite Hv, bool_decide_true. }
  constructor; intros view; rewrite ?Hq.
  - case_decide; [subst view|].
    + etransitivity; [|exact Hsub]. apply sublist_app; [done|]. by apply sublist_app.
    + rewrite outcomes_of_app. apply sublist_inserts_r, F1.
  - rewrite Hn0. intros o. case_decide; [subst view|by apply F2]. rewrite elem_of_app. intros [Ho1| ->%list_elem_of_singleton].
    + apply F2. by eapply sublist_subseteq.
    + by apply F3.
  - rewrite Hn0, Hf. cbn. intros seq [_ Hw]%lookup_delete_Some. by apply F3.
  - rewrite Hn0. intros seq Hlen Hno%Hleft Hseq.
    assert (Hfull : v = view -> kept = queue).
    { intros ->. unfold kept. destruct (Z.leb_spec SETTLED_PER_VIEW_CAPACITY (len queue)) as [Hfull|]; [|done]. exfalso.
      assert (Hnd : NoDup (outcome_seq <$> queue ++ [outcome])).
      { eapply sublist_NoDup; [apply (lg_done_once _ _ L')|]. etransitivity; [|by apply (outcomes_of_seqs _ r' view)].
        apply fmap_sublist. etransitivity; [|exact Hsub]. by apply sublist_inserts_l. }
      assert (Hincl : outcome_seq <$> queue ++ [outcome] ⊆ noted_for view facts).
      { intros q (o & -> & Ho1)%list_elem_of_fmap. apply elem_of_app in Ho1 as [Ho1| ->%list_elem_of_singleton]; [by apply F2|by apply F3]. }
      pose proof (submseteq_length _ _ (NoDup_submseteq _ _ Hnd Hincl)) as Hl2. rewrite length_fmap, length_app in Hl2. unfold len in *. cbn in Hl2. lia. }
    rewrite Hf. cbn [watched]. destruct (F4 view seq Hlen Hno Hseq) as [Hw|Ht].
    + destruct (decide (seq = outcome_seq outcome)) as [->|Hne].
      * right. rewrite Hw in Ew. injection Ew as ->. rewrite decide_True by done. rewrite app_assoc, fmap_app. apply elem_of_app. right.
        by apply list_elem_of_singleton.
      * left. by rewrite lookup_delete_ne.
    + right. case_decide as Hcase; [|done]. rewrite (Hfull Hcase). subst view. rewrite app_assoc, fmap_app. apply elem_of_app. by left.
Qed.

(** What a pane's note does. *)
Lemma feeds_note facts r note r' told :
  ledger facts r -> change r (Fed note) r' -> feeds facts r told -> 
  feeds (facts ++ [Fed note]) r' (snd (tell_step (outcome_feed r, told) (Fed note))).
Proof.
  intros L Hc [F1 F2 F3 F4]. inversion Hc as [| | | | |? ? Hb Hy Hn Hf Hok]; subst.
  assert (Ho : forall view, outcomes_of view (facts ++ [Fed note]) = outcomes_of view facts).
  { intros view. rewrite outcomes_of_app. cbn. by rewrite app_nil_r. }
  assert (Hleft : forall view, Fed (LeftView view) ∉ facts ++ [Fed note] -> Fed (LeftView view) ∉ facts /\ note <> LeftView view).
  { intros view Hno. split; [intros Hin; apply Hno, elem_of_app; by left|]. intros ->. apply Hno, elem_of_app. right. by apply list_elem_of_singleton. }
  destruct note as [[v|] [batch|refusal]|v|v|v]; cbn [tell_step snd apply_note note_admission] in *.
  - destruct Hok as [Hin Hv].
    assert (Hnew : forall view, noted_for view (facts ++ [Fed (Noted (Some v) (Ok batch))])
                     = noted_for view facts ++ (if bool_decide (v = view) then [input_seq batch] else [])).
    { intros view. rewrite noted_for_app. f_equal. unfold noted_for. cbn. rewrite Hv.
      destruct (decide (v = view)) as [->|Hne]; [by rewrite !bool_decide_true|by rewrite !bool_decide_false by congruence]. }
    constructor; intros view; rewrite Hf; change (queued_for _ view) with (queued_for (outcome_feed r) view).
    + rewrite Ho. apply F1.
    + intros o Hq%F2. rewrite Hnew. apply elem_of_app. by left.
    + cbn. intros seq [[<- <-]|[_ Hw]]%lookup_insert_Some; rewrite Hnew; apply elem_of_app; [|left; by apply F3].
      right. rewrite bool_decide_true by done. by apply list_elem_of_singleton.
    + intros seq Hlen [Hno _]%Hleft Hseq. cbn [watched]. rewrite Hnew in *. autorewrite with lens in Hlen.
      destruct (decide (seq = input_seq batch)) as [->|Hne].
      * assert (Hsame : forall v', watched (outcome_feed r) !! input_seq batch = Some v' -> v' = v).
        { intros v' Hw. destruct (lg_watched _ _ L _ _ Hw) as (s & b & Hb1 & He & Hv').
          destruct (ledger_unique _ _ _ _ _ _ L Hb1 Hin He) as [_ ->]. congruence. }
        apply elem_of_app in Hseq as [Hseq|Hseq].
        -- destruct (F4 view (input_seq batch)) as [Hw|Ht]; try done.
           { pose proof (len_nonneg (if bool_decide (v = view) then [input_seq batch] else [])). lia. }
           ++ left. rewrite (Hsame _ Hw). by rewrite lookup_insert_eq.
           ++ by right.
        -- case_bool_decide; [|by apply not_elem_of_nil in Hseq]. subst view. left. by rewrite lookup_insert_eq.
      * apply elem_of_app in Hseq as [Hseq|Hseq].
        -- rewrite lookup_insert_ne by done. apply F4; [|done|done].
           pose proof (len_nonneg (if bool_decide (v = view) then [input_seq batch] else [])). lia.
        -- case_bool_decide; [by apply list_elem_of_singleton in Hseq|by apply not_elem_of_nil in Hseq].
  - constructor; intros view; rewrite Hf, ?Ho, ?noted_for_app; cbn; rewrite ?app_nil_r; auto.
    intros seq Hlen [Hno _]%Hleft. by apply F4.
  - constructor; intros view; rewrite Hf, ?Ho, ?noted_for_app; cbn; rewrite ?app_nil_r; auto.
    intros seq Hlen [Hno _]%Hleft. by apply F4.
  - constructor; intros view; rewrite Hf, ?Ho, ?noted_for_app; cbn; rewrite ?app_nil_r; auto.
    intros seq Hlen [Hno _]%Hleft. by apply F4.
  - assert (Ht : forall view, told_to view (told ++ ((fun o => (v, o)) <$> default [] (settled (outcome_feed r) !! v)))
                   ++ queued_for (outcome_feed r') view = told_to view told ++ queued_for (outcome_feed r) view).
    { intros view. rewrite Hf. cbn [take_outcomes snd]. rewrite queued_delete, told_to_app, <- app_assoc. f_equal.
      unfold queued_for. case_decide as Hv.
      - subst view. rewrite app_nil_r. generalize (default [] (settled (outcome_feed r) !! v)). intros l.
        induction l as [|o l IH]; [done|]. cbn. rewrite bool_decide_true by done. cbn. f_equal. exact IH.
      - generalize (default [] (settled (outcome_feed r) !! v)). intros l. induction l as [|o l IH]; [done|].
        cbn. rewrite bool_decide_false by congruence. exact IH. }
    constructor; intros view; cbn [fst take_outcomes]; rewrite ?Ht, ?Ho, ?noted_for_app; cbn; rewrite ?app_nil_r; auto.
    + rewrite Hf. cbn [take_outcomes snd]. rewrite queued_delete. intros o. case_decide; [by intros ?%not_elem_of_nil|apply F2].
    + rewrite Hf. cbn. apply F3.
    + intros seq Hlen [Hno _]%Hleft Hseq. rewrite Hf. cbn. rewrite Hf in Ht. cbn [take_outcomes snd] in Ht. by apply F4.
  - constructor; intros view; rewrite Hf, ?Ho, ?noted_for_app; cbn; rewrite ?app_nil_r; auto.
    intros seq Hlen [Hno _]%Hleft. by apply F4.
  - constructor; intros view; rewrite Hf, ?Ho, ?noted_for_app; unfold forget_view; rewrite ?queued_delete; cbn; rewrite ?app_nil_r.
    + case_decide; [|apply F1]. rewrite app_nil_r. etransitivity; [|apply F1]. by apply sublist_inserts_r.
    + intros o. case_decide; [by intros ?%not_elem_of_nil|apply F2].
    + intros seq [Hw _]%map_lookup_filter_Some. by apply F3.
    + intros seq Hlen [Hno Hne]%Hleft Hseq. destruct (F4 view seq Hlen Hno Hseq) as [Hw|Ht].
      * left. apply map_lookup_filter_Some. split; [done|]. cbn. intros ->. by apply Hne.
      * right. rewrite decide_False by (intros ->; by apply Hne). done.
Qed.

Lemma feeds_change facts r fact r' told :
  ledger facts r -> ledger (facts ++ [fact]) r' -> change r fact r' -> feeds facts r told ->
  feeds (facts ++ [fact]) r' (snd (tell_step (outcome_feed r, told) fact)).
Proof.
  intros L L' Hc F. destruct fact as [batch|batch token at_ms|batch|reported batch outcome| |note];
    [| | |by eapply feeds_done| |by apply feeds_note]; apply (feeds_same facts r); try done; by inversion Hc.
Qed.

Lemma feeds_quiet facts r r' told : feeds facts r told -> quiet r r' -> feeds facts r' told.
Proof. intros [F1 F2 F3 F4] [_ _ _ Q]. by constructor; rewrite Q. Qed.

(** The feed of the panes over a list of changes. *)
Lemma feeds_changes facts r more r' told :
  ledger facts r -> changes r more r' -> next_input_seq r + spends more + 1 < 2 ^ 64 ->
  feeds facts r told -> feeds (facts ++ more) r' (told ++ snd (tell (outcome_feed r) more)).
Proof.
  intros L Hc. revert facts L told. induction Hc as [r r' Hq|r fact more r1 r' Hf Hc IH]; intros facts L told Hw F.
  - cbn. rewrite !app_nil_r. by eapply feeds_quiet.
  - change (fact :: more) with ([fact] ++ more) in *. rewrite spends_app in Hw. assert (0 <= spends more) by apply len_nonneg.
    assert (Hone : 0 <= spends [fact] <= 1) by (by destruct fact). pose proof (lg_next _ _ L).
    pose proof (ledger_change _ _ _ _ L Hf ltac:(lia)) as L1.
    pose proof (feeds_change _ _ _ _ _ L L1 Hf F) as F1. rewrite app_assoc.
    assert (Hn : next_input_seq r1 + spends more + 1 < 2 ^ 64).
    { rewrite (change_next _ _ _ Hf). destruct (Z.eqb_spec (spends [fact]) 0); [lia|]. rewrite (wrap_small 64) by (split; lia). lia. }
    specialize (IH _ L1 _ Hn F1). rewrite tell_app. cbn [fst snd].
    assert (Hf1 : fst (tell (outcome_feed r) [fact]) = outcome_feed r1) by (apply tell_feed; by apply changes_one).
    rewrite Hf1, app_assoc. replace (told ++ snd (tell (outcome_feed r) [fact])) with (snd (tell_step (outcome_feed r, told) fact)); [done|].
    destruct fact as [| | | | |[| | |]]; cbn; by rewrite ?app_nil_r.
Qed.

(** ** A run *)

Section History.
Context {Rest : Type} `{InputHost Rest}.

Notation Step := (InputEvent Rest * Reaction)%type.

(** A step of a trace, and the facts behind it. *)
Record step_ok (step : Step) (block : list Fact * list Fact) : Prop := {
  so_opening : exists now_ms, Forall (opening (fst step) now_ms) (fst block);
  so_onward : exists now_ms, Forall (onward (event_answer (fst step)) now_ms) (snd block);
  so_effects : inputs (reaction_effects (snd step)) = batch_key <$> sent (snd block);
  so_typed batch : reaction_taken (snd step) = Some batch ->
    fst step = Typed (input_session batch) (input_view batch) (input_bytes batch);
  so_taken : taken (fst block) = option_list (reaction_taken (snd step));
  so_notes : notes (fst block) = List.filter typed_in_pane (option_list (reaction_taken (snd step)));
}.

Definition trace_told (trace : list Step) : list (string * InputOutcome) := trace ≫= fun step => event_told (fst step) (snd step).

(** A run from where a history leads, as one more stretch of it. *)
Record recounts (facts : list Fact) (s : InputStore Rest) (s' : InputStore Rest) (trace : list Step)
    (blocks : list (list Fact * list Fact)) : Prop := {
  rc_steps : Forall2 step_ok trace blocks;
  rc_ledger : ledger (facts ++ block_facts blocks) (input s');
  rc_changes : changes (input s) (block_facts blocks) (input s');
  rc_spent : spends (block_facts blocks) <= len trace;
  rc_told : tell (outcome_feed (input s)) (block_facts blocks) = (outcome_feed (input s'), trace_told trace);
}.

Lemma run_recounts facts (s : InputStore Rest) events :
  ledger facts (input s) -> next_input_seq (input s) + len events + 1 < 2 ^ 64 ->
  exists blocks, recounts facts s (fst (input_run events s)) (snd (input_run events s)) blocks.
Proof.
  revert facts s. induction events as [|[event now_ms] events IH]; intros facts s L Hw.
  - exists []. constructor; [constructor|by cbn; rewrite app_nil_r|apply changes_nil|done|done].
  - cbn [input_run]. rewrite len_cons in Hw. pose proof (len_nonneg events).
    destruct (step_unfolds facts s event now_ms L ltac:(lia)) as (pre & more & [U1 U2 U3 U4 U5 U6 U7 U8 U9 U10 U11]).
    destruct (input_step s event now_ms) as [s1 reaction]. cbn [fst snd] in *.
    destruct (IH (facts ++ pre ++ more) s1 U1 ltac:(lia)) as (blocks & [R1 R2 R3 RS R4]).
    destruct (input_run events s1) as [s2 trace]. cbn [fst snd] in *. exists ((pre, more) :: blocks). constructor.
    + constructor; [|done]. constructor; [by exists now_ms|by exists now_ms|done..].
    + unfold block_facts in *. cbn. by rewrite app_assoc.
    + unfold block_facts in *. cbn. by eapply changes_app.
    + change (block_facts ((pre, more) :: blocks)) with ((pre ++ more) ++ block_facts blocks). rewrite spends_app, len_cons. lia.
    + change (block_facts ((pre, more) :: blocks)) with ((pre ++ more) ++ block_facts blocks). rewrite tell_app, U11. cbn [fst snd].
      rewrite R4. done.
Qed.

Lemma input_run_next facts (s : InputStore Rest) events :
  ledger facts (input s) -> next_input_seq (input s) + len events + 1 < 2 ^ 64 ->
  next_input_seq (input s) <= next_input_seq (input (fst (input_run events s))) <= next_input_seq (input s) + len events.
Proof.
  revert facts s. induction events as [|[event now_ms] events IH]; intros facts s L Hw.
  { cbn [input_run fst]. pose proof (len_nonneg ([] : list (InputEvent Rest * Z))). lia. }
  cbn [input_run]. rewrite len_cons in *. pose proof (len_nonneg events).
  destruct (step_unfolds facts s event now_ms L ltac:(lia)) as (pre & more & U).
  pose proof (un_ledger _ _ _ _ _ _ _ _ U) as L1. pose proof (un_next _ _ _ _ _ _ _ _ U) as N1.
  destruct (input_step s event now_ms) as [s1 reaction]. cbn [fst] in *. specialize (IH _ s1 L1 ltac:(lia)).
  destruct (input_run events s1). cbn [fst] in *. lia.
Qed.

Lemma ledger_new : ledger [] InputRouter_new.
Proof.
  constructor; try done.
  - intros s. constructor; [constructor|constructor|done..].
  - intros s1 s2 seq Hin. by apply not_elem_of_nil in Hin.
  - constructor.
  - intros b Hin. by apply not_elem_of_nil in Hin.
  - constructor.
  - intros b o Hin. by apply not_elem_of_nil in Hin.
  - intros seq. cbn. lia.
  - intros s b Hin. by apply not_elem_of_nil in Hin.
  - intros b Hin. by apply not_elem_of_nil in Hin.
  - intros before b token at_ms after Heq. by destruct before.
Qed.

(** A client that opens its store. *)
Definition opened (w : Rest) (rev : Z) : InputStore Rest := mkInputStore InputRouter_new w rev.

(** A run from there: its history, with all the ledger says of it. *)
Lemma opened_recounts (w : Rest) rev events :
  len events + 1 < 2 ^ 64 ->
  exists blocks, recounts [] (opened w rev) (fst (input_run events (opened w rev))) (snd (input_run events (opened w rev))) blocks.
Proof. intros Hw. apply run_recounts; [apply ledger_new|]. cbn [opened input InputRouter_new next_input_seq]. lia. Qed.

(** ** What leaves *)

Definition step_inputs (step : Step) : list (string * Z * list byte) := inputs (reaction_effects (snd step)).

Definition trace_inputs (trace : list Step) : list (string * Z * list byte) := trace ≫= step_inputs.

(** How often a batch was handed over since a worker last refused it. *)
Definition out_step (seq : Z) (n : nat) (step : Step) : nat :=
  ((if refuses (fst step) seq then 0 else n)
   + length (List.filter (fun key => snd (fst key) =? seq)%Z (step_inputs step)))%nat.

Definition times_out (trace : list Step) (seq : Z) : nat := foldl (out_step seq) 0%nat trace.

Lemma opening_hand seq (event : InputEvent Rest) now_ms pre n m :
  Forall (opening event now_ms) pre -> (n <= m)%nat ->
  ((if refuses event seq then 0 else n) <= foldl (hand_step seq) m pre)%nat.
Proof.
  intros Hop Hle. destruct (refuses event seq) eqn:Er; [lia|]. revert m Hle. induction Hop as [|fact pre Hf _ IH]; intros m Hle; [done|].
  cbn. apply IH. destruct fact as [| |batch| | |]; cbn in *; try done. destruct (Z.eqb_spec (input_seq batch) seq); [congruence|done].
Qed.

Lemma onward_hand answer now_ms seq more n :
  Forall (onward answer now_ms) more ->
  foldl (hand_step seq) n more = (n + length (List.filter (fun key => snd (fst key) =? seq)%Z (batch_key <$> sent more)))%nat.
Proof.
  intros Hm. revert n. induction Hm as [|fact more Hf _ IH]; intros n; [cbn; lia|].
  cbn [foldl]. rewrite IH. destruct fact as [|batch token at_ms| | | |]; try done. cbn. destruct (input_seq batch =? seq); cbn; unfold sent; lia.
Qed.

Lemma times_out_hand trace blocks seq n m :
  Forall2 step_ok trace blocks -> (n <= m)%nat ->
  (foldl (out_step seq) n trace <= foldl (hand_step seq) m (block_facts blocks))%nat.
Proof.
  intros Hs. revert n m. induction Hs as [|step [pre more] trace blocks Hstep _ IH]; intros n m Hle; [done|].
  destruct Hstep as [(t1 & Hop) (t2 & Hon) He _ _ _]. cbn [fst snd] in *.
  change (block_facts ((pre, more) :: blocks)) with ((pre ++ more) ++ block_facts blocks). rewrite !foldl_app. cbn [foldl].
  apply IH. rewrite (onward_hand _ _ _ _ _ Hon). unfold out_step, step_inputs. rewrite He.
  pose proof (opening_hand seq _ _ _ _ _ Hop Hle). lia.
Qed.

(** The hand-over behind a frame. *)
Lemma sent_split more x key y :
  batch_key <$> sent more = x ++ key :: y ->
  exists m1 batch token at_ms m2, more = m1 ++ Sent batch token at_ms :: m2 /\ batch_key batch = key /\ batch_key <$> sent m1 = x.
Proof.
  revert x. induction more as [|fact more IH]; intros x Heq; [by destruct x|].
  assert (Hskip : sent [fact] = [] -> exists m1 batch token at_ms m2,
            fact :: more = m1 ++ Sent batch token at_ms :: m2 /\ batch_key batch = key /\ batch_key <$> sent m1 = x).
  { intros Hn. change (fact :: more) with ([fact] ++ more) in Heq. rewrite sent_app, Hn in Heq.
    destruct (IH x Heq) as (m1 & b & tok & t & m2 & -> & H2 & H3). exists (fact :: m1), b, tok, t, m2. split_and!; [done|done|].
    change (fact :: m1) with ([fact] ++ m1). by rewrite sent_app, Hn. }
  destruct fact as [|batch token at_ms| | | |]; try (by apply Hskip). cbn in Heq. destruct x as [|k x].
  - injection Heq as Hk _. by exists [], batch, token, at_ms, more.
  - injection Heq as <- Heq. destruct (IH x Heq) as (m1 & b & tok & t & m2 & -> & H2 & H3).
    exists (Sent batch token at_ms :: m1), b, tok, t, m2. split_and!; [done|done|]. unfold sent in H3 |- *. cbn. by rewrite H3.
Qed.

Lemma opening_quiet (event : InputEvent Rest) now_ms pre : Forall (opening event now_ms) pre -> sent pre = [] /\ forall seq, seq ∈ put_backs pre -> refuses event seq = true.
Proof.
  induction 1 as [|fact pre Hf _ [IH1 IH2]]; [split; [done|by intros seq ?%not_elem_of_nil]|].
  destruct fact as [| |batch| | |]; cbn in *; try done. split; [done|].
  intros seq [->|Hin]%elem_of_cons; [done|by apply IH2].
Qed.

Lemma onward_put_backs answer now_ms more : Forall (onward answer now_ms) more -> put_backs more = [].
Proof. induction 1 as [|fact more Hf _ IH]; [done|]. by destruct fact. Qed.

Lemma blocks_outgoing trace blocks :
  Forall2 step_ok trace blocks ->
  batch_key <$> sent (block_facts blocks) = trace_inputs trace
  /\ forall seq, seq ∈ put_backs (block_facts blocks) -> exists step, step ∈ trace /\ refuses (fst step) seq = true.
Proof.
  induction 1 as [|step [pre more] trace blocks Hstep _ [IH1 IH2]]; [split; [done|by intros seq ?%not_elem_of_nil]|].
  destruct Hstep as [(t1 & Hop) (t2 & Hon) He _ _ _]. cbn [fst snd] in *. destruct (opening_quiet _ _ _ Hop) as [Hs Hp].
  change (block_facts ((pre, more) :: blocks)) with ((pre ++ more) ++ block_facts blocks).
  rewrite !sent_app, !put_backs_app, Hs, (onward_put_backs _ _ _ Hon), app_nil_r, fmap_app, IH1. split.
  - cbn. unfold step_inputs at 1. by rewrite He.
  - intros seq [Hin|Hin]%elem_of_app; [exists step; split; [by left|by apply Hp]|].
    destruct (IH2 seq Hin) as (st & ? & ?). exists st. split; [by right|done].
Qed.

(** The takings of a run are its keystrokes. *)
Lemma blocks_taken trace blocks :
  Forall2 step_ok trace blocks -> taken (block_facts blocks) = omap (fun step => reaction_taken (snd step)) trace.
Proof.
  induction 1 as [|step [pre more] trace blocks Hstep _ IH]; [done|].
  destruct Hstep as [_ (t2 & Hon) _ _ Ht _]. cbn [fst snd] in *.
  change (block_facts ((pre, more) :: blocks)) with ((pre ++ more) ++ block_facts blocks). rewrite !taken_app, Ht, IH.
  assert (taken more = []) as -> by (clear -Hon; induction Hon as [|fact more Hf _ IH]; [done|by destruct fact]).
  rewrite app_nil_r. cbn. by destruct (reaction_taken (snd step)).
Qed.

Lemma blocks_typed trace blocks batch :
  Forall2 step_ok trace blocks -> batch ∈ taken (block_facts blocks) ->
  exists reaction, (Typed (input_session batch) (input_view batch) (input_bytes batch), reaction) ∈ trace /\ reaction_taken reaction = Some batch.
Proof.
  intros Hs Hin. rewrite (blocks_taken _ _ Hs) in Hin. apply list_elem_of_omap in Hin as ([event reaction] & Hin & Ht).
  exists reaction. split; [|done]. cbn in Ht.
  apply list_elem_of_lookup in Hin as (i & Hi). destruct (Forall2_lookup_l _ _ _ _ _ Hs Hi) as (block & _ & Hok).
  apply list_elem_of_lookup_2 in Hi as Hin. by rewrite <- (so_typed _ _ Hok batch Ht).
Qed.

(** The panes are told of the batches typed in them. *)
Lemma blocks_notes trace blocks view :
  Forall2 step_ok trace blocks ->
  noted_for view (block_facts blocks)
  = input_seq <$> List.filter (fun batch => bool_decide (input_view batch = Some view)) (omap (fun step => reaction_taken (snd step)) trace).
Proof.
  induction 1 as [|step [pre more] trace blocks Hstep _ IH]; [done|].
  destruct Hstep as [_ (t2 & Hon) _ _ _ Hn]. cbn [fst snd] in *.
  change (block_facts ((pre, more) :: blocks)) with ((pre ++ more) ++ block_facts blocks). rewrite !noted_for_app, IH.
  assert (noted_for view more = []) as -> by (clear -Hon; induction Hon as [|fact more Hf _ IH]; [done|by destruct fact]).
  unfold noted_for. rewrite Hn, app_nil_r. cbn. destruct (reaction_taken (snd step)) as [batch|]; [|done].
  cbn. unfold typed_in_pane. destruct (input_view batch) as [v|] eqn:Ev; cbn; [|by rewrite bool_decide_false].
  rewrite Ev. by case_bool_decide.
Qed.

Lemma blocks_left trace blocks view :
  Forall2 step_ok trace blocks -> Fed (LeftView view) ∈ block_facts blocks -> exists step, step ∈ trace /\ fst step = PaneLeft view.
Proof.
  intros Hs (block & Hin & Hb)%list_elem_of_bind. apply list_elem_of_lookup in Hb as (i & Hi).
  destruct (Forall2_lookup_r _ _ _ _ _ Hs Hi) as (step & Hst & [(t1 & Hop) (t2 & Hon) _ _ _ _]).
  exists step. split; [by eapply list_elem_of_lookup_2|]. rewrite Forall_forall in Hop, Hon.
  apply elem_of_app in Hin as [Hin|Hin]; [exact (Hop _ Hin)|destruct (Hon _ Hin)].
Qed.

(** Every settlement is a carrier's report, or the truth about the batch. *)
Lemma blocks_settled trace blocks r r' batch outcome :
  Forall2 step_ok trace blocks -> changes r (block_facts blocks) r' -> (batch, outcome) ∈ settlements (block_facts blocks) ->
  (exists step, step ∈ trace /\ event_answer (fst step) = Some outcome) \/ truthful batch outcome.
Proof.
  intros Hs Hc Hin. unfold settlements in Hin. apply list_elem_of_omap in Hin as (fact & Hin & He).
  destruct fact as [| | |reported b o| |]; try done. injection He as -> ->. destruct reported.
  - left. apply list_elem_of_bind in Hin as (block & Hin & Hb). apply list_elem_of_lookup in Hb as (i & Hi).
    destruct (Forall2_lookup_r _ _ _ _ _ Hs Hi) as (step & Hst & [(t1 & Hop) (t2 & Hon) _ _ _ _]).
    exists step. split; [by eapply list_elem_of_lookup_2|]. rewrite Forall_forall in Hop, Hon.
    apply elem_of_app in Hin as [Hin|Hin]; [by specialize (Hop _ Hin)|by apply (Hon _ Hin)].
  - right. clear -Hc Hin. induction Hc as [|r fact facts r1 r' Hf Hc IH]; [by apply not_elem_of_nil in Hin|].
    apply elem_of_cons in Hin as [<-|Hin]; [|by apply IH]. inversion Hf; subst. naive_solver.
Qed.
End History.
