(* ===== verification/InputClaims.v ===== *)
(** * InputClaims: what a client promises of the keystrokes it takes

    The timers of a router's batches over a run and the progress of every sweep
    that finds them all due; then the properties of the input path. *)
From S2P Require Export InputRuns.
#[local] Open Scope Z_scope.

(** No timer of an outstanding batch runs from later than this instant. *)
Definition timed (r : InputRouter) (at_ms : Z) : Prop :=
  forall session_id batch, batch ∈ outstanding r session_id ->
    admitted_at_ms batch <= at_ms /\ (started batch = true -> started_at_ms batch <= at_ms).

(** The instants a fact's timers are set at. *)
Definition clocked (at_ms : Z) (fact : Fact) : Prop :=
  match fact with Took batch => admitted_at_ms batch <= at_ms | Sent _ _ sent_at => sent_at <= at_ms | _ => True end.

Lemma timed_quiet r r' at_ms : timed r at_ms -> quiet r r' -> timed r' at_ms.
Proof. intros Ht [Q _ _ _] session_id batch. rewrite Q. apply Ht. Qed.

Lemma timed_later r at_ms at_ms' : timed r at_ms -> at_ms <= at_ms' -> timed r at_ms'.
Proof. intros Ht Hle session_id batch Hin. destruct (Ht _ _ Hin) as [H1 H2]. split; [lia|]. intros Hs. specialize (H2 Hs). lia. Qed.

(** One lane changed, its batches from the old ones or timed themselves. *)
Lemma timed_others r r' at_ms session_id :
  timed r at_ms -> others_same session_id r r' ->
  (forall batch, batch ∈ outstanding r' session_id ->
     batch ∈ outstanding r session_id \/ (admitted_at_ms batch <= at_ms /\ (started batch = true -> started_at_ms batch <= at_ms))) ->
  timed r' at_ms.
Proof.
  intros Ht [O _] Hb s batch Hin. destruct (decide (s = session_id)) as [->|Hne].
  - destruct (Hb batch Hin) as [Hold|?]; [by apply (Ht session_id)|done].
  - rewrite O in Hin by done. by apply (Ht s).
Qed.

Lemma timed_change r fact r' at_ms : timed r at_ms -> change r fact r' -> clocked at_ms fact -> timed r' at_ms.
Proof.
  intros Ht Hc Hk.
  destruct Hc as [r' s b Ho Hl _ _ _ _ _ _ _ _ Hs _ _|r' s p b token t Ho E Hs _ _ Hl _ _ _|r' s p b Ho E Hs Hl _ _ _
    |r' s p b rep o Ho E _ _ Hl _ _ _|r' Hb _ _ _|r' note Hb _ _ _ _].
  - apply (timed_others r r' at_ms s Ht Ho). intros b'. rewrite Hl, elem_of_app, list_elem_of_singleton.
    intros [?| ->]; [by left|right]. split; [done|]. by rewrite Hs.
  - apply (timed_others r r' at_ms s Ht Ho). intros b'. rewrite Hl. intros Hin%list_elem_of_lookup. destruct Hin as [i Hi].
    apply list_lookup_insert_Some in Hi as [(-> & <- & _)|[_ Hi]]; [right|left; by eapply list_elem_of_lookup_2].
    cbn. rewrite Hs. split; [|done]. apply (Ht s b). by eapply list_elem_of_lookup_2.
  - apply (timed_others r r' at_ms s Ht Ho). intros b'. rewrite Hl. intros Hin%list_elem_of_lookup. destruct Hin as [i Hi].
    apply list_lookup_insert_Some in Hi as [(-> & <- & _)|[_ Hi]]; [right|left; by eapply list_elem_of_lookup_2].
    cbn. split; [|done]. apply (Ht s b). by eapply list_elem_of_lookup_2.
  - apply (timed_others r r' at_ms s Ht Ho). intros b'. rewrite Hl. intros Hin. left. by eapply list_elem_of_delete_inv.
  - intros s b. rewrite Hb. apply Ht.
  - intros s b. rewrite Hb. apply Ht.
Qed.

Lemma timed_changes r facts r' at_ms : timed r at_ms -> changes r facts r' -> Forall (clocked at_ms) facts -> timed r' at_ms.
Proof.
  intros Ht Hc. revert Ht. induction Hc as [r r' Hq|r fact facts r1 r' Hf Hc IH]; intros Ht Hk; [by eapply timed_quiet|].
  apply Forall_cons in Hk as [Hk Hks]. apply IH; [by eapply timed_change|done].
Qed.

Section Sweeps.
Context {Rest : Type} `{InputHost Rest}.

Lemma onward_clocked answer now_ms facts : Forall (onward answer now_ms) facts -> Forall (clocked now_ms) facts.
Proof. intros Hf. eapply Forall_impl; [exact Hf|]. intros [| | | | |]; cbn; try done; lia. Qed.

Lemma opening_clocked (event : InputEvent Rest) now_ms facts : Forall (opening event now_ms) facts -> Forall (clocked now_ms) facts.
Proof. intros Hf. eapply Forall_impl; [exact Hf|]. intros [| | | | |]; cbn; try done; lia. Qed.

Lemma run_timed facts (s : InputStore Rest) events at_ms :
  ledger facts (input s) -> next_input_seq (input s) + len events + 1 < 2 ^ 64 ->
  Forall (fun event => snd event <= at_ms) events -> timed (input s) at_ms -> timed (input (fst (input_run events s))) at_ms.
Proof.
  revert facts s. induction events as [|[event now_ms] events IH]; intros facts s L Hw Hall Ht; [done|].
  cbn [input_run]. rewrite len_cons in Hw. pose proof (len_nonneg events). apply Forall_cons in Hall as [Hnow Hall]. cbn in Hnow.
  destruct (step_unfolds facts s event now_ms L ltac:(lia)) as (pre & more & U).
  assert (T1 : timed (input (fst (input_step s event now_ms))) at_ms).
  { apply (timed_changes (input s) (pre ++ more)); [done|apply U|]. apply Forall_app. split; (eapply Forall_impl;
      [first [by eapply opening_clocked, (un_opening _ _ _ _ _ _ _ _ U)|by eapply onward_clocked, (un_onward _ _ _ _ _ _ _ _ U)]|]);
      intros [| | | | |]; cbn; try done; lia. }
  pose proof (un_ledger _ _ _ _ _ _ _ _ U) as L1. pose proof (un_next _ _ _ _ _ _ _ _ U) as N1.
  destruct (input_step s event now_ms) as [s1 reaction]. cbn [fst] in *.
  pose proof (IH _ s1 L1 ltac:(lia) Hall T1) as IH'. by destruct (input_run events s1).
Qed.

Lemma drop_seqs_stays seqs batches batch : drop_seqs seqs batches = batches -> batch ∈ batches -> input_seq batch ∉ seqs.
Proof. intros Hd Hin. rewrite <- Hd in Hin. by apply elem_of_drop_seqs in Hin as [_ ?]. Qed.

(** A sweep that settles nothing it holds, nothing it waits for, finds nothing. *)
Lemma nothing_due r r1 now_ms at_ms session_id batch :
  timed r at_ms -> at_ms + 10000 <= now_ms -> quiet r r1 -> batch ∈ outstanding r session_id ->
  (forall s, outstanding r s = drop_seqs (input_seq <$> (List.filter waits_for_route (values (lanes r)) ≫= fun l => List.filter (held_too_long now_ms) (pending l))) (outstanding r s)) ->
  (forall s, outstanding r1 s = drop_seqs (input_seq <$> (values (lanes r1) ≫= fun l => List.filter (unanswered now_ms) (pending l))) (outstanding r1 s)) ->
  False.
Proof.
  intros Ht Hnow Q Hin Hheld Hdue.
  assert (Hwait : forall b, b ∈ outstanding r session_id -> started b = false).
  { intros b Hb. destruct (started b) eqn:Es; [|done]. exfalso. rewrite <- (q_batches _ _ Q) in Hb.
    apply (drop_seqs_stays _ _ _ (eq_sym (Hdue session_id)) Hb). destruct (lane_of_batch _ _ _ Hb) as [lane El].
    apply list_elem_of_fmap. exists b. split; [done|]. apply list_elem_of_bind. exists lane. split; [|apply elem_of_values; by exists session_id].
    rewrite (outstanding_Some _ _ _ El) in Hb. apply elem_of_filter_b. split; [done|]. unfold unanswered. rewrite Es. cbn.
    apply Z.leb_le. rewrite <- (outstanding_Some _ _ _ El), (q_batches _ _ Q) in Hb. destruct (Ht _ _ Hb) as [_ Hst].
    specialize (Hst Es). unfold saturating_sub, INPUT_RESULT_TIMEOUT_MS. lia. }
  apply (drop_seqs_stays _ _ _ (eq_sym (Hheld session_id)) Hin). destruct (lane_of_batch _ _ _ Hin) as [lane El].
  rewrite (outstanding_Some _ _ _ El) in Hwait.
  apply list_elem_of_fmap. exists batch. split; [done|]. apply list_elem_of_bind. exists lane. split.
  - rewrite (outstanding_Some _ _ _ El) in Hin. apply elem_of_filter_b. split; [done|]. unfold held_too_long. rewrite Hwait by done. cbn.
    apply Z.leb_le. rewrite <- (outstanding_Some _ _ _ El) in Hin. destruct (Ht _ _ Hin) as [Ha _].
    unfold saturating_sub, HELD_INPUT_ADMISSION_TIMEOUT_MS. lia.
  - apply elem_of_filter_b. split; [apply elem_of_values; by exists session_id|]. unfold waits_for_route.
    apply orb_true_iff. right. apply negb_true_iff. apply not_true_is_false. intros (b & Hb & Hs)%existsb_exists.
    apply list_elem_of_In in Hb. by rewrite Hwait in Hs.
Qed.

Lemma changes_nil_quiet r r' : changes r [] r' -> quiet r r'.
Proof. by inversion 1. Qed.

(** A sweep that finds every timer due moves something, if anything waits. *)
Lemma sweep_progress facts (s : InputStore Rest) now_ms at_ms :
  ledger facts (input s) -> next_input_seq (input s) + 1 < 2 ^ 64 -> timed (input s) at_ms -> at_ms + 10000 <= now_ms ->
  exists more, changes (input s) more (input (fst (sweep_input (s, []) now_ms))) /\ Forall (onward None now_ms) more
    /\ forall seq, held (input s) seq -> more <> [].
Proof.
  intros L Hw Ht Hnow. unfold sweep_input. destruct (sweep_claims_goes (answer := None) (s, []) now_ms facts L Hw) as (m0 & [C0 _] & F0).
  destruct (sweep_route_claims (s, []) now_ms) as [s0 out]. cbn [fst] in *.
  pose proof (ledger_onward _ _ _ _ L Hw C0 F0) as L0. pose proof (onward_next _ _ _ C0 F0) as N0.
  destruct (sweep_held_changes _ _ now_ms L0 ltac:(lia)) as ((m1 & C1 & F1 & L1) & N1 & O1).
  destruct (sweep_held (input s0) now_ms) as [r1 o1]. cbn [fst] in *.
  destruct (sweep_unanswered_changes _ r1 now_ms L1 ltac:(lia)) as ((m2 & C2 & F2 & L2) & N2 & O2).
  destruct (sweep_unanswered r1 now_ms) as [r2 o2]. cbn [fst] in *.
  set (s2 := if bool_decide (o1 = []) && bool_decide (o2 = []) then with_input s0 r2 else note_change (with_input s0 r2)).
  assert (E2 : input s2 = r2) by (unfold s2; by case_if).
  assert (G : goes None now_ms (s2, out) (foldl (fun h session_id => send_queued_input h session_id now_ms) (s2, out) (queued_sessions (input s2)))).
  { apply foldl_goes. intros h session_id. apply send_queued_goes. }
  rewrite <- E2 in L2.
  destruct (G _ L2 ltac:(cbn [fst]; rewrite E2; lia)) as (m3 & [C3 _] & F3). cbn [fst] in *.
  exists (m0 ++ m1 ++ m2 ++ m3). split; [|split].
  - eapply changes_app; [exact C0|]. eapply changes_app; [exact C1|]. eapply changes_app; [exact C2|]. rewrite <- E2. exact C3.
  - assert (Hd : forall l, Forall is_done l -> Forall (onward None now_ms) l).
    { intros l Hl. eapply Forall_impl; [exact Hl|]. intros [| | |? ? ?| |]; cbn; by try intros ->. }
    rewrite !Forall_app. auto.
  - intros seq [session_id (batch & -> & Hin)%list_elem_of_fmap] Hnil.
    apply app_eq_nil in Hnil as [-> [-> [-> ->]%app_eq_nil]%app_eq_nil].
    apply changes_nil_quiet in C0, C1, C2. rewrite <- (q_batches _ _ C0) in Hin.
    apply (nothing_due (input s0) r1 now_ms at_ms session_id batch); try done.
    + by eapply timed_quiet.
    + intros s1. by rewrite <- O1, (q_batches _ _ C1).
    + intros s1. by rewrite <- O2, (q_batches _ _ C2).
Qed.

(** ** Sweeps alone *)

(** A hand-over or a settlement, at whatever instant. *)
Definition moves_on (fact : Fact) : Prop := match fact with Sent _ _ _ | Done _ _ _ => True | _ => False end.

Lemma onward_moves_on answer now_ms facts : Forall (onward answer now_ms) facts -> Forall moves_on facts.
Proof. intros Hf. eapply Forall_impl; [exact Hf|]. by intros [| | | | |]. Qed.

Lemma others_held r r' session_id seq :
  others_same session_id r r' -> held r' seq ->
  (seq ∈ input_seq <$> outstanding r' session_id -> seq ∈ input_seq <$> outstanding r session_id) -> held r seq.
Proof.
  intros [O _] [s Hin] Hs. destruct (decide (s = session_id)) as [->|Hne]; [exists session_id; by apply Hs|].
  exists s. by rewrite <- O.
Qed.

Lemma moves_on_held r facts r' seq : changes r facts r' -> Forall moves_on facts -> held r' seq -> held r seq.
Proof.
  induction 1 as [r r' Q|r fact facts r1 r' Hf Hc IH]; intros Hm Hh.
  - destruct Hh as [s Hin]. exists s. by rewrite <- (q_batches _ _ Q).
  - apply Forall_cons in Hm as [Hm Hms]. specialize (IH Hms Hh). destruct fact; try done.
    + inversion Hf as [|? s p b tk n O E _ _ _ Hl| | | |]; subst.
      eapply others_held; [done|exact IH|]. by rewrite Hl, (fmap_insert_same input_seq _ _ _ _ E).
    + inversion Hf as [| | |? s p b rep o O E _ _ Hl| |]; subst.
      eapply others_held; [done|exact IH|]. rewrite Hl, list_fmap_delete. apply list_elem_of_delete_inv.
Qed.

Lemma moves_on_from r facts r' :
  changes r facts r' -> Forall moves_on facts -> forall seq, seq ∈ done_seqs facts \/ seq ∈ input_seq <$> sent facts -> held r seq.
Proof.
  induction 1 as [r r' Q|r fact facts r1 r' Hf Hc IH]; intros Hm seq Hin.
  - destruct Hin as [Hin|Hin]; by apply not_elem_of_nil in Hin.
  - apply Forall_cons in Hm as [Hm Hms].
    assert (Hfirst : done_seqs [fact] = [seq] \/ input_seq <$> sent [fact] = [seq] -> held r seq).
    { destruct fact; try done; inversion Hf; subst; cbn; intros [[= <-]|[= <-]]; eapply in_held, list_elem_of_lookup_2; eassumption. }
    assert (Hrest : seq ∈ done_seqs facts \/ seq ∈ input_seq <$> sent facts -> held r seq).
    { intros Hr. eapply (moves_on_held r [fact] r1); [by apply changes_one|by constructor|by apply IH]. }
    change (fact :: facts) with ([fact] ++ facts) in Hin. rewrite done_seqs_app, sent_app, fmap_app, !elem_of_app in Hin.
    destruct fact; try done; cbn in Hin; rewrite ?list_elem_of_singleton in Hin; cbn in Hfirst;
      destruct Hin as [[Hin|?]|[Hin|?]]; try (by apply not_elem_of_nil in Hin); try (by apply Hrest; auto); subst; apply Hfirst; auto.
Qed.

Lemma moves_on_hand facts seq n :
  Forall moves_on facts ->
  foldl (hand_step seq) n facts = (n + length (List.filter (fun q => q =? seq)%Z (input_seq <$> sent facts)))%nat.
Proof.
  intros Hm. revert n. induction Hm as [|fact facts Hf _ IH]; intros n; [cbn; lia|].
  cbn [foldl]. rewrite IH. destruct fact as [|batch token at_ms| | | |]; try done. cbn.
  destruct (input_seq batch =? seq); cbn; unfold sent; lia.
Qed.

Lemma filter_count_nodup (l : list Z) :
  (forall seq, (length (List.filter (fun q => q =? seq)%Z l) <= 1)%nat) -> NoDup l.
Proof.
  induction l as [|x l IH]; intros Hc; constructor.
  - intros Hin. specialize (Hc x). cbn in Hc. rewrite Z.eqb_refl in Hc. cbn in Hc.
    assert (Hx : x ∈ List.filter (fun q => q =? x)%Z l) by (apply elem_of_filter_b; by rewrite Z.eqb_refl).
    destruct (List.filter (fun q => q =? x)%Z l); [by apply not_elem_of_nil in Hx|cbn in Hc; lia].
  - apply IH. intros seq. specialize (Hc seq). cbn in Hc. destruct (x =? seq); cbn in Hc; lia.
Qed.

(** Each batch is handed over once and settled once, so what moves on is bounded
    by what waits; it stays below twice that while anything is left. *)
Lemma moves_on_bounded facts r more r' (seqs : list Z) seq :
  changes r more r' -> Forall moves_on more -> ledger (facts ++ more) r' ->
  (forall q, held r q -> q ∈ seqs) -> held r' seq -> len more < 2 * len seqs.
Proof.
  intros Hc Hm L Hall Hleft.
  assert (Hlen : len more = len (done_seqs more) + len (input_seq <$> sent more)).
  { clear -Hm. unfold done_seqs, len. rewrite !length_fmap. induction Hm as [|fact more Hf _ IH]; [done|].
    destruct fact; try done; unfold settlements, sent in *; cbn [length omap list_omap] in *; lia. }
  pose proof (moves_on_from r more r' Hc Hm) as Hfrom.
  assert (Hd : NoDup (seq :: done_seqs more)).
  { constructor.
    - intros (d & Hs & Hin)%list_elem_of_fmap. destruct d as [b o]. cbn in Hs.
      destruct (lg_done _ _ L b o) as [Hgone _]; [rewrite settlements_app; apply elem_of_app; by right|]. apply Hgone. by rewrite <- Hs.
    - pose proof (lg_done_once _ _ L) as Hd. rewrite done_seqs_app in Hd. by apply NoDup_app in Hd as (_ & _ & ?). }
  assert (Hs : NoDup (input_seq <$> sent more)).
  { apply filter_count_nodup. intros q. pose proof (lg_hand _ _ L q) as Hh. rewrite hand_app, moves_on_hand in Hh by done. lia. }
  assert (len (seq :: done_seqs more) <= len seqs).
  { apply Nat2Z.inj_le, submseteq_length, NoDup_submseteq; [done|]. intros q [->|Hq]%elem_of_cons; apply Hall; [|apply Hfrom; by left].
    by eapply moves_on_held. }
  assert (len (input_seq <$> sent more) <= len seqs).
  { apply Nat2Z.inj_le, submseteq_length, NoDup_submseteq; [done|]. intros q Hq. apply Hall, Hfrom. by right. }
  rewrite len_cons in *. lia.
Qed.

(** The client sweeps, its host moving as it likes between. *)
Definition sweeping (moves : list ((Rest -> Rest) * Z)) : list (InputEvent Rest * Z) :=
  moves ≫= fun move => [(HostMoved (fst move), snd move); (Swept, snd move)].

(** Each at least ten seconds after the one before. *)
Fixpoint spaced (at_ms : Z) (moves : list ((Rest -> Rest) * Z)) : Prop :=
  match moves with
  | [] => True
  | move :: moves => at_ms + 10000 <= snd move /\ spaced (snd move) moves
  end.

Lemma sweeping_moves facts (s : InputStore Rest) at_ms moves :
  ledger facts (input s) -> next_input_seq (input s) + 1 < 2 ^ 64 -> timed (input s) at_ms -> spaced at_ms moves ->
  let s' := fst (input_run (sweeping moves) s) in
  exists more, changes (input s) more (input s') /\ Forall moves_on more /\ ledger (facts ++ more) (input s')
    /\ forall seq, held (input s') seq -> len moves <= len more.
Proof.
  revert facts s at_ms. induction moves as [|[move now_ms] moves IH]; intros facts s at_ms L Hw Ht Hsp.
  - exists []. rewrite app_nil_r. split_and!; [apply changes_nil|constructor|done|by intros].
  - destruct Hsp as [Hnow Hsp]. cbn [snd] in *. set (s1 := with_rest s (move (rest s))).
    destruct (sweep_progress facts s1 now_ms at_ms L Hw Ht Hnow) as (more & C & F & Hsome).
    pose proof (ledger_onward _ _ _ _ L Hw C F) as L1. pose proof (onward_next _ _ _ C F) as N1. cbn [s1 with_rest input] in N1.
    pose proof (timed_changes _ _ _ now_ms (timed_later _ _ now_ms Ht ltac:(lia)) C (onward_clocked _ _ _ F)) as T1.
    change (sweeping ((move, now_ms) :: moves)) with ((HostMoved move, now_ms) :: (Swept, now_ms) :: sweeping moves).
    cbn [input_run input_step]. unfold reacts. fold s1.
    set (s2 := fst (sweep_input (s1, []) now_ms)) in *.
    destruct (IH _ s2 now_ms L1 ltac:(lia) T1 Hsp) as (rest_facts & C2 & M2 & L2 & Hlen).
    destruct (input_run (sweeping moves) s2) as [s3 trace]. cbn [fst] in *.
    exists (more ++ rest_facts). split_and!.
    + by eapply changes_app.
    + apply Forall_app. split; [by eapply onward_moves_on|done].
    + by rewrite app_assoc.
    + intros seq Hh. specialize (Hlen seq Hh). autorewrite with lens.
      assert (Hh1 : held (input s1) seq).
      { eapply (moves_on_held _ (more ++ rest_facts)); [by eapply changes_app| |exact Hh].
        apply Forall_app. split; [by eapply onward_moves_on|done]. }
      specialize (Hsome seq Hh1). destruct more; [done|]. rewrite !len_cons. pose proof (len_nonneg more). lia.
Qed.

(** The batches of all the lanes. *)
Definition all_outstanding (r : InputRouter) : list PendingInput := values (lanes r) ≫= pending.

Lemma held_outstanding r seq : held r seq -> seq ∈ input_seq <$> all_outstanding r.
Proof.
  intros [session_id (batch & -> & Hin)%list_elem_of_fmap]. apply list_elem_of_fmap. exists batch. split; [done|].
  destruct (lane_of_batch _ _ _ Hin) as [lane El]. rewrite (outstanding_Some _ _ _ El) in Hin.
  apply list_elem_of_bind. exists lane. split; [done|]. apply elem_of_values. by exists session_id.
Qed.
End Sweeps.

(** ** What a run told, and what its lanes hold *)

(** What the feeds of a run hold, from where they were empty. *)
Lemma opened_feeds {Rest} `{InputHost Rest} (w : Rest) rev events blocks :
  len events + 1 < 2 ^ 64 ->
  recounts [] (opened w rev) (fst (input_run events (opened w rev))) (snd (input_run events (opened w rev))) blocks ->
  len (snd (input_run events (opened w rev))) = len events ->
  feeds (block_facts blocks) (input (fst (input_run events (opened w rev)))) (trace_told (snd (input_run events (opened w rev)))).
Proof.
  intros Hw [R1 R2 R3 R4 R5] Hlen.
  pose proof (feeds_changes [] InputRouter_new (block_facts blocks) _ [] ledger_new R3) as Hf. cbn [app next_input_seq InputRouter_new] in Hf.
  change (outcome_feed (input (opened w rev))) with (outcome_feed InputRouter_new) in R5. rewrite R5 in Hf. apply Hf; [lia|].
  constructor; intros view; cbn; try done; [by intros ? ?%not_elem_of_nil|].
  by intros ? _ _ ?%not_elem_of_nil.
Qed.

Lemma trace_len {Rest} `{InputHost Rest} events (s : InputStore Rest) : len (snd (input_run events s)) = len events.
Proof.
  revert s. induction events as [|[event now_ms] events IH]; intros s; [done|]. cbn. destruct (input_step s event now_ms) as [s1 reaction].
  specialize (IH s1). destruct (input_run events s1) as [s2 trace]. cbn in *. rewrite !len_cons. lia.
Qed.

Section Claims.
Context {Rest : Type} `{InputHost Rest}.
Implicit Types (w : Rest).

(** C6: A keystroke is handed to a carrier at most once: over any run of a
    client, whatever its host does and however answers, claims, promotions,
    closes and sweeps interleave, no batch is out twice unless a worker's
    answer in between said that it wrote none of it; and every frame carries
    the very bytes of a keystroke of that session, under the sequence the
    client gave it. *)
Theorem input_never_doubled w rev events :
  len events + 1 < 2 ^ 64 ->
  let trace := snd (input_run events (opened w rev)) in
  (forall seq, times_out trace seq <= 1)%nat
  /\ forall session_id seq bytes, (session_id, seq, bytes) ∈ trace_inputs trace ->
       exists view_id reaction batch, (Typed session_id view_id bytes, reaction) ∈ trace
         /\ reaction_taken reaction = Some batch /\ input_seq batch = seq.
Proof.
  intros Hw trace. destruct (opened_recounts w rev events Hw) as [blocks [R1 R2 R3 R4 R5]]. cbn [app] in R2. split.
  - intros seq. etransitivity; [by apply (times_out_hand _ blocks seq 0 0)|]. apply (lg_hand _ _ R2).
  - intros session_id seq bytes Hin. destruct (blocks_outgoing _ _ R1) as [Hs _]. unfold trace in Hin. rewrite <- Hs in Hin.
    apply list_elem_of_fmap in Hin as (b & [= -> -> ->] & Hin). destruct (lg_sent _ _ R2 b Hin) as [_ Hst].
    apply list_elem_of_fmap in Hst as (b' & [= H1 H2 H3 H4] & Hin'). destruct (blocks_typed _ _ _ R1 Hin') as (reaction & Htr & Htk).
    exists (input_view b'), reaction, b'. rewrite H1, H3, H4. done.
Qed.

(** C7: What a session types leaves in the order it was typed: a batch handed
    over for the first time is younger than every batch of its session handed
    over before it, across routes that change, windows that fill and queues
    that drain. *)
Theorem input_leaves_in_order w rev events before step after sent_before session_id seq bytes sent_after :
  len events + 1 < 2 ^ 64 ->
  snd (input_run events (opened w rev)) = before ++ step :: after ->
  step_inputs step = sent_before ++ (session_id, seq, bytes) :: sent_after ->
  existsb (fun earlier => refuses (fst earlier) seq) (before ++ [step]) = false ->
  forall seq' bytes', (session_id, seq', bytes') ∈ trace_inputs before ++ sent_before -> seq' < seq.
Proof.
  intros Hw Htr Hstep Hnone seq' bytes' Hin.
  assert (Hno : forall earlier, earlier ∈ before ++ [step] -> refuses (fst earlier) seq = false).
  { intros earlier He. apply not_true_is_false. intros Hr. apply not_true_iff_false in Hnone. apply Hnone, existsb_exists.
    exists earlier. by rewrite <- list_elem_of_In. }
  destruct (opened_recounts w rev events Hw) as [blocks [R1 R2 R3 R4 R5]]. cbn [app] in R2.
  rewrite Htr in R1. apply Forall2_app_inv_l in R1 as (blocks1 & blocks2 & Hb1 & Hb2 & ->).
  apply Forall2_cons_inv_l in Hb2 as ([pre more] & blocks3 & Hok & Hb3 & ->).
  destruct Hok as [(t1 & Hop) (t2 & Hon) He _ _ _]. cbn [fst snd] in *. unfold step_inputs in Hstep. rewrite He in Hstep.
  destruct (sent_split _ _ _ _ Hstep) as (m1 & b & token & at_ms & m2 & -> & [= <- <- <-] & Hm1).
  destruct (opening_quiet _ _ _ Hop) as [Hs Hp]. destruct (blocks_outgoing _ _ Hb1) as [Ho1 Hp1].
  apply Forall_app in Hon as [Hon _].
  assert (Hfacts : block_facts (blocks1 ++ (pre, m1 ++ Sent b token at_ms :: m2) :: blocks3)
            = (block_facts blocks1 ++ pre ++ m1) ++ Sent b token at_ms :: (m2 ++ block_facts blocks3)).
  { unfold block_facts. rewrite bind_app. cbn. by rewrite <- !app_assoc. }
  assert (Hearlier : exists earlier, earlier ∈ sent (block_facts blocks1 ++ pre ++ m1) /\ batch_key earlier = (input_session b, seq', bytes')).
  { rewrite <- Ho1, <- Hm1, <- fmap_app in Hin. apply list_elem_of_fmap in Hin as (earlier & Hk & Hin). exists earlier.
    rewrite !sent_app, Hs. cbn. by rewrite <- Hk. }
  destruct Hearlier as (earlier & Hin' & [= Hses <- _]).
  apply (lg_in_order _ _ R2 _ _ _ _ _ Hfacts); [|done|done].
  rewrite !put_backs_app, (onward_put_backs _ _ _ Hon), app_nil_r. intros [Hback|Hback]%elem_of_app.
  - destruct (Hp1 _ Hback) as (st & Hst & Hr). rewrite Hno in Hr; [done|]. apply elem_of_app. by left.
  - apply Hp in Hback. rewrite Hno in Hback; [done|]. apply elem_of_app. right. by apply list_elem_of_singleton.
Qed.

(** C10: A lane stays within its bounds over any run: a session's outstanding
    batches are its own, in the order typed, none empty or above 64 KiB, at
    most 200 of them with at most 8 out, and the byte count the caps are
    checked against is exactly theirs, at most 256 KiB. *)
Theorem lanes_stay_bounded w rev events session_id :
  len events + 1 < 2 ^ 64 ->
  let r := input (fst (input_run events (opened w rev))) in
  StronglySorted Z.lt (input_seq <$> outstanding r session_id)
  /\ Forall (fun batch => input_session batch = session_id /\ 1 <= len (input_bytes batch) <= 64 * 1024) (outstanding r session_id)
  /\ len (outstanding r session_id) <= 200
  /\ lane_bytes r session_id = total_bytes (outstanding r session_id) /\ lane_bytes r session_id <= 256 * 1024
  /\ len (List.filter started (outstanding r session_id)) <= 8.
Proof.
  intros Hw r. destruct (opened_recounts w rev events Hw) as [blocks [R1 R2 R3 R4 R5]]. cbn [app] in R2.
  destruct (lg_queue _ _ R2 session_id) as [Q1 Q2 Q3 Q4 Q5 Q6]. split_and!; [done| |done..].
  eapply Forall_impl; [exact Q1|]. intros b [B1 B2 [Hne Hmax] B4 B5 B6]. split; [done|]. unfold MAX_INPUT_BYTES in Hmax.
  split; [|done]. destruct (input_bytes b); [done|]. rewrite len_cons. pose proof (len_nonneg l). lia.
Qed.

(** C9: A pane is told of each batch it typed once, and of no other: over any
    run, the outcomes a pane read and those still queued for it name distinct
    batches, each one it typed and no longer outstanding; an acceptance among
    them is one a carrier reported; and a pane that never left, and typed no
    more than the 256 its queue holds, is told of every batch it typed that is
    no longer outstanding. *)
Theorem outcomes_told_once w rev events view :
  len events + 1 < 2 ^ 64 ->
  let s := fst (input_run events (opened w rev)) in
  let trace := snd (input_run events (opened w rev)) in
  let typed := List.filter (fun batch => bool_decide (input_view batch = Some view)) (omap (fun step => reaction_taken (snd step)) trace) in
  let told := told_to view (trace_told trace) ++ queued_for (outcome_feed (input s)) view in
  NoDup (outcome_seq <$> told)
  /\ (forall outcome, outcome ∈ told ->
        outcome_seq outcome ∈ input_seq <$> typed /\ ~ held (input s) (outcome_seq outcome)
        /\ match outcome with
           | Accepted _ _ => exists step, step ∈ trace /\ event_answer (fst step) = Some outcome
           | Rejected _ _ | Ambiguous _ _ _ => True
           end)
  /\ (len typed <= 256 -> (forall step, step ∈ trace -> fst step <> PaneLeft view) ->
      forall batch, batch ∈ typed -> ~ held (input s) (input_seq batch) -> input_seq batch ∈ outcome_seq <$> told).
Proof.
  intros Hw s trace typed told. destruct (opened_recounts w rev events Hw) as [blocks R]. pose proof R as [R1 R2 R3 R4 R5]. cbn [app] in R2.
  pose proof (opened_feeds w rev events blocks Hw R (trace_len events _)) as F. fold s trace in R1, R2, R3, F.
  pose proof (blocks_notes trace blocks view R1) as Hn. fold typed in Hn. split_and!.
  - by apply (told_nodup (block_facts blocks)).
  - intros outcome Hin. assert (Hout : outcome ∈ outcomes_of view (block_facts blocks)).
    { eapply sublist_subseteq; [apply (fe_sub _ _ _ F view)|done]. }
    apply list_elem_of_omap in Hout as ([batch o] & Hd & Ho). cbn in Ho. case_bool_decide as Hv; [|done]. injection Ho as ->.
    destruct (lg_done _ _ R2 _ _ Hd) as (Hgone & Hseq & Hst). rewrite Hseq. split_and!; [|done|].
    + apply list_elem_of_fmap in Hst as (b & [= H1 H2 H3 H4] & Hb). rewrite H3. apply list_elem_of_fmap. exists b. split; [done|].
      rewrite (blocks_taken _ _ R1) in Hb. apply elem_of_filter_b. by rewrite bool_decide_true by congruence.
    + destruct (blocks_settled _ _ _ _ _ _ R1 R3 Hd) as [Hrep|Htrue]; destruct outcome; try done.
      unfold truthful in Htrue. by destruct (started batch).
  - intros Hlen Hnever batch Hin Hgone. destruct (fe_kept _ _ _ F view (input_seq batch)) as [Hwatch|Htold]; [| | | |done].
    + rewrite Hn. unfold len. by rewrite length_fmap.
    + intros Hl. destruct (blocks_left _ _ _ R1 Hl) as (step & Hst & He). by destruct (Hnever step Hst).
    + rewrite Hn. apply list_elem_of_fmap. by exists batch.
    + destruct (lg_watched _ _ R2 _ _ Hwatch) as (sess & b & Hb & He & _). destruct Hgone. rewrite <- He. by eapply in_held.
Qed.

(** C8: No keystroke waits for ever: from wherever a run leads, sweeps alone
    settle all that is outstanding. After at most twice as many sweeps as there
    are outstanding batches, each ten seconds after the one before, no session
    has an outstanding batch, whatever routes, grants and carriers the rest of
    the client gains or loses between them, and though no worker ever answers. *)
Theorem sweeps_settle_everything w rev events at_ms moves :
  len events + 1 < 2 ^ 64 -> Forall (fun event => snd event <= at_ms) events -> spaced at_ms moves ->
  let s := fst (input_run events (opened w rev)) in
  2 * len (all_outstanding (input s)) <= len moves ->
  forall session_id, outstanding (input (fst (input_run (sweeping moves) s))) session_id = [].
Proof.
  intros Hw Hat Hsp s Hmany session_id. destruct (opened_recounts w rev events Hw) as [blocks [R1 R2 R3 R4 R5]]. cbn [app] in R2. fold s in R2.
  assert (Ht : timed (input s) at_ms).
  { apply (run_timed [] (opened w rev) events at_ms ledger_new); [cbn; lia|done|]. intros sess b Hin. by apply not_elem_of_nil in Hin. }
  assert (Hn : next_input_seq (input s) + 1 < 2 ^ 64).
  { pose proof (input_run_next [] (opened w rev) events ledger_new) as Hn. cbn [opened input InputRouter_new next_input_seq] in Hn. fold s in Hn.
    specialize (Hn ltac:(lia)). lia. }
  destruct (sweeping_moves _ s at_ms moves R2 Hn Ht Hsp) as (more & C & M & L & Hlen).
  destruct (outstanding (input (fst (input_run (sweeping moves) s))) session_id) as [|batch rest_batches] eqn:Eo; [done|]. exfalso.
  assert (Hh : held (input (fst (input_run (sweeping moves) s))) (input_seq batch)).
  { apply (in_held _ session_id). rewrite Eo. by left. }
  specialize (Hlen _ Hh).
  pose proof (moves_on_bounded _ _ _ _ (input_seq <$> all_outstanding (input s)) _ C M L (held_outstanding (input s)) Hh) as Hb.
  unfold len in *. rewrite length_fmap in Hb. lia.
Qed.
End Claims.

(** ** A client on one Sync link *)

(** A host whose only carrier is its Sync link. *)
#[local] Instance link_host : InputHost (option TerminalToken) := {|
  has_route _ _ := false;
  replica_generation _ _ := None;
  replica_worker_fp _ _ := None;
  replica_wire_view_id _ _ view_id := Some view_id;
  session_worker_fp _ _ := Some "worker";
  sync_terminal_token link := link;
  terminal_domain_is_ready link := bool_decide (is_Some link);
  live_grant _ _ _ := Some (mkLiveGrant "epoch" true);
  staged_attempt _ _ := None;
  promotable _ _ _ _ := false;
  promote_and_commit link _ _ _ _ := link;
  cancel_staged_candidate link _ _ := link;
  drop_route link _ _ := link;
  recover_views link _ _ := link;
  close_link _ _ := (None, true);
|}.

Definition demo_link : option TerminalToken := Some (sync_token 1 "process" 1).

(** Two panes type; one batch is answered, one times out. *)
Definition demo_input : list (InputEvent (option TerminalToken) * Z) :=
  [(Typed "s" (Some "pane") [Byte.x61], 100); (Typed "s" (Some "pane") [Byte.x62; Byte.x63], 200); (Typed "s" None [Byte.x64], 300);
   (Answered "s" 1 (Accepted 1 1), 400); (Swept, 10200); (PaneReads "pane", 10300)].

Notation demo_run := (input_run demo_input (opened demo_link 0)).

Lemma input_never_doubled_witness :
  times_out (snd demo_run) 2 = 1%nat /\ (forall seq, times_out (snd demo_run) seq <= 1)%nat.
Proof. split; [by vm_compute|]. apply (input_never_doubled demo_link 0 demo_input). by vm_compute. Defined.

Lemma input_leaves_in_order_witness :
  trace_inputs (snd demo_run) = [("s"%string, 1, [Byte.x61]); ("s"%string, 2, [Byte.x62; Byte.x63]); ("s"%string, 3, [Byte.x64])]
  /\ forall seq bytes, ("s"%string, seq, bytes) ∈ trace_inputs (take 2 (snd demo_run)) -> seq < 3.
Proof.
  split; [by vm_compute|]. intros seq bytes Hin.
  apply (input_leaves_in_order demo_link 0 demo_input (take 2 (snd demo_run))
           (nth 2 (snd demo_run) (Swept, mkReaction None [] [])) (drop 3 (snd demo_run)) [] "s" 3 [Byte.x64] []) with (bytes' := bytes).
  - by vm_compute.
  - by vm_compute.
  - by vm_compute.
  - by vm_compute.
  - by rewrite app_nil_r.
Defined.

Lemma lanes_stay_bounded_witness :
  input_seq <$> outstanding (input (fst (input_run (take 4 demo_input) (opened demo_link 0)))) "s" = [2; 3]
  /\ len (outstanding (input (fst demo_run)) "s") <= 200.
Proof. split; [by vm_compute|]. destruct (lanes_stay_bounded demo_link 0 demo_input "s") as (_ & _ & H & _); [by vm_compute|exact H]. Defined.

Lemma outcomes_told_once_witness :
  outcome_seq <$> told_to "pane" (trace_told (snd demo_run)) = [1; 2]
  /\ NoDup (outcome_seq <$> told_to "pane" (trace_told (snd demo_run)) ++ queued_for (outcome_feed (input (fst demo_run))) "pane").
Proof. split; [by vm_compute|]. destruct (outcomes_told_once demo_link 0 demo_input "pane") as [H _]; [by vm_compute|exact H]. Defined.

(** The link is lost; nobody answers. *)
Definition demo_sweeps : list ((option TerminalToken -> option TerminalToken) * Z) :=
  [(fun _ => None, 11000); (fun link => link, 21000); (fun link => link, 31000); (fun link => link, 41000)].

Lemma sweeps_settle_everything_witness :
  len (all_outstanding (input (fst (input_run (take 4 demo_input) (opened demo_link 0))))) = 2
  /\ outstanding (input (fst (input_run (sweeping demo_sweeps) (fst (input_run (take 4 demo_input) (opened demo_link 0)))))) "s" = [].
Proof.
  split; [by vm_compute|]. apply (sweeps_settle_everything demo_link 0 (take 4 demo_input) 400 demo_sweeps).
  - by vm_compute.
  - by repeat (constructor; [cbn; lia|]).
  - cbn. lia.
  - by vm_compute.
Defined.
