(* ===== verification/PacketStream.v ===== *)
(** * PacketStream: one ordered lane of packets, and what travels on it

    The terminal peer and the attachment carrier each cut logical messages into
    packets and put them together again ([PeerPackets], [AttachmentPackets]).
    This file holds what both are measured by: the packets a sequence of
    messages is on an ordered lane, the byte accounting a quota promises its
    lane, and, between the sending and the receiving half, an interface whose
    laws give the delivery theorem once for both. *)
From S2P Require Export Prelude.

(** ** Little-endian words *)

(** [u32::to_le_bytes], for an [n]-byte integer. *)
Definition to_le_bytes (n : nat) (v : Z) : list byte := LittleEndianList.le_split n v.

(** [u32::from_le_bytes]. *)
Definition from_le_bytes (l : list byte) : Z := LittleEndianList.le_combine l.

(** [slice[from..to].copy_from_slice(src)]; [None] is its panic. *)
Definition copy_into {A} (l : list A) (from to : Z) (src : list A) : option (list A) :=
  match slice_get l (Z.to_nat from) (Z.to_nat to) with
  | Some old =>
      if len old =? len src
      then Some (take (Z.to_nat from) l ++ src ++ drop (Z.to_nat to) l) else None
  | None => None
  end.

Lemma length_to_le_bytes n v : length (to_le_bytes n v) = n.
Proof. apply LittleEndianList.length_le_split. Qed.

Lemma len_to_le_bytes n v : len (to_le_bytes n v) = Z.of_nat n.
Proof. unfold len. by rewrite length_to_le_bytes. Qed.
#[export] Hint Rewrite len_to_le_bytes : lens.

Lemma from_to_le_bytes v : fits 32 v -> from_le_bytes (to_le_bytes 4 v) = v.
Proof.
  intros H. unfold from_le_bytes, to_le_bytes.
  rewrite LittleEndianList.le_combine_split. by apply Z.mod_small.
Qed.

Lemma to_from_le_bytes l : length l = 4%nat -> to_le_bytes 4 (from_le_bytes l) = l.
Proof.
  intros H. unfold from_le_bytes, to_le_bytes. rewrite <- H.
  apply LittleEndianList.split_le_combine.
Qed.

Lemma from_le_bytes_fits l : length l = 4%nat -> fits 32 (from_le_bytes l).
Proof.
  intros H. unfold fits, from_le_bytes.
  pose proof (LittleEndianList.le_combine_bound l) as Hb. by rewrite H in Hb.
Qed.

Lemma copy_into_at {A} (l : list A) from src :
  0 <= from -> from + len src <= len l ->
  copy_into l from (from + len src) src =
  Some (take (Z.to_nat from) l ++ src ++ drop (Z.to_nat (from + len src)) l).
Proof.
  intros Hf Hl. pose proof (len_nonneg src). unfold copy_into.
  rewrite slice_get_range by lia. rewrite len_take, Z.add_simpl_l, Z.eqb_refl; [done|].
  rewrite len_drop; lia.
Qed.

(** Words of four bytes and a body after them. *)
Definition words (ws : list Z) (body : list byte) : list byte :=
  concat (to_le_bytes 4 <$> ws) ++ body.

Definition read_word (l : list byte) (at_ : nat) : option Z :=
  from_le_bytes <$> slice_get l at_ (at_ + 4).

Lemma length_words ws body : length (words ws body) = (4 * length ws + length body)%nat.
Proof.
  unfold words. rewrite length_app. f_equal.
  induction ws as [|w ws IH]; [done|]. cbn [fmap list_fmap concat length].
  rewrite length_app, IH, length_to_le_bytes. lia.
Qed.

Lemma len_words ws body : len (words ws body) = 4 * len ws + len body.
Proof. unfold len. rewrite length_words. lia. Qed.

Lemma words_cons w ws body : words (w :: ws) body = to_le_bytes 4 w ++ words ws body.
Proof. unfold words. cbn [fmap list_fmap concat]. by rewrite app_assoc. Qed.

Lemma read_word_words ws body i w :
  ws !! i = Some w -> fits 32 w -> read_word (words ws body) (4 * i) = Some w.
Proof.
  intros Hi Hw. unfold read_word. revert i Hi. induction ws as [|v ws IH]; intros i Hi; [done|].
  rewrite words_cons. destruct i as [|i]; cbn [lookup list_lookup] in Hi.
  - simplify_eq. pose proof (slice_get_prefix (to_le_bytes 4 w) (words ws body)) as Hp.
    rewrite length_to_le_bytes in Hp. cbn [Nat.mul Nat.add]. rewrite Hp. cbn [fmap option_fmap option_map].
    by rewrite from_to_le_bytes.
  - rewrite <- (IH i Hi). f_equal.
    rewrite <- (slice_get_app_skip (to_le_bytes 4 v) (words ws body)), length_to_le_bytes.
    by replace (4 * Datatypes.S i)%nat with (4 + 4 * i)%nat by lia.
Qed.

Lemma words_body ws body :
  slice_get (words ws body) (4 * length ws) (length (words ws body)) = Some body.
Proof.
  rewrite length_words. unfold words.
  assert (length (concat (to_le_bytes 4 <$> ws)) = 4 * length ws)%nat as <-.
  { pose proof (length_words ws []) as Hl. unfold words in Hl. rewrite app_nil_r in Hl.
    cbn [length] in Hl. lia. }
  rewrite <- (Nat.add_0_r (length (concat _))) at 1. rewrite slice_get_app_skip.
  rewrite <- (app_nil_r body) at 1. apply slice_get_prefix.
Qed.

(** Enough bytes are so many words and the rest. *)
Lemma words_of_bytes n l :
  (4 * n <= length l)%nat ->
  exists ws, length ws = n /\ Forall (fits 32) ws /\ l = words ws (drop (4 * n) l).
Proof.
  revert l. induction n as [|n IH]; intros l Hl.
  - exists []. split; [done|]. split; [constructor|]. by cbn.
  - destruct (IH (drop 4 l)) as (ws & Hn & Hf & Heq); [rewrite length_drop; lia|].
    exists (from_le_bytes (take 4 l) :: ws).
    assert (length (take 4 l) = 4%nat) as H4 by (rewrite length_take; lia).
    split; [cbn; lia|]. split; [constructor; [by apply from_le_bytes_fits|done]|].
    rewrite words_cons, (to_from_le_bytes (take 4 l)) by done.
    rewrite drop_drop in Heq. replace (4 + 4 * n)%nat with (4 * Datatypes.S n)%nat in Heq by lia.
    rewrite <- Heq. symmetry. apply take_drop.
Qed.

(** ** The packets of a message *)

Section Packets.
Context (frame : Z -> Z -> Z -> list byte -> list byte) (max_payload : Z).

(** The packets of what is left of message [id], of [total] bytes, from
    [offset] on: each takes as much as a packet carries. *)
Fixpoint cut (fuel : nat) (id total offset : Z) (rest : list byte) : list (list byte) :=
  match fuel, rest with
  | S fuel, _ :: _ =>
      let payload := take (Z.to_nat max_payload) rest in
      frame id total offset payload ::
      cut fuel id total (offset + len payload) (drop (Z.to_nat max_payload) rest)
  | _, _ => []
  end.

Definition packets_from (id : Z) (message : list byte) (offset : Z) : list (list byte) :=
  let rest := drop (Z.to_nat offset) message in
  cut (length rest) id (len message) offset rest.

Definition packets (id : Z) (message : list byte) : list (list byte) :=
  packets_from id message 0.

(** What a lane carries for these messages, the first of them numbered [id]. *)
Fixpoint wire (id : Z) (messages : list (list byte)) : list (list byte) :=
  match messages with
  | [] => []
  | message :: rest => packets id message ++ wire (id + 1) rest
  end.

Hypothesis max_pos : 0 < max_payload.

(** The fuel is enough whenever it is the length of the rest. *)
Lemma cut_fuel fuel fuel' id total offset rest :
  (length rest <= fuel)%nat -> (length rest <= fuel')%nat ->
  cut fuel id total offset rest = cut fuel' id total offset rest.
Proof.
  revert fuel' offset rest. induction fuel as [|fuel IH]; intros fuel' offset rest H H'.
  - destruct rest; cbn in H; [|lia]. by destruct fuel'.
  - destruct fuel' as [|fuel']; [destruct rest; cbn in H'; [done|lia]|].
    cbn [cut]. destruct rest as [|b rest]; [done|]. f_equal.
    assert (length (drop (Z.to_nat max_payload) (b :: rest)) <= length rest)%nat
      by (rewrite length_drop; cbn [length]; lia).
    apply IH; cbn [length] in *; lia.
Qed.

Lemma packets_from_done id message offset :
  len message <= offset -> packets_from id message offset = [].
Proof.
  intros H. unfold packets_from. rewrite drop_ge by (unfold len in H; lia). done.
Qed.

(** The payload of the packet at [offset]. *)
Definition payload_at (message : list byte) (offset : Z) : list byte :=
  take (Z.to_nat max_payload) (drop (Z.to_nat offset) message).

Lemma len_payload_at message offset :
  0 <= offset <= len message ->
  len (payload_at message offset) = Z.min max_payload (len message - offset).
Proof.
  intros H. unfold payload_at, len in *. rewrite length_take, length_drop. lia.
Qed.

(** A prefix and the next payload are a longer prefix. *)
Lemma payload_taken message offset :
  0 <= offset <= len message ->
  take (Z.to_nat offset) message ++ payload_at message offset =
  take (Z.to_nat (offset + len (payload_at message offset))) message.
Proof.
  intros H. rewrite len_payload_at by done.
  rewrite (take_split message (Z.to_nat offset) (Z.to_nat (offset + _))) by lia. f_equal.
  replace (Z.to_nat (offset + Z.min max_payload (len message - offset)) - Z.to_nat offset)%nat
    with (Z.to_nat (Z.min max_payload (len message - offset))) by lia.
  unfold payload_at.
  destruct (Z.min_spec max_payload (len message - offset)) as [[? ->]|[? ->]]; [done|].
  rewrite !take_ge; [done| |]; unfold len in *; rewrite length_drop; lia.
Qed.

Lemma packets_from_step id message offset :
  0 <= offset < len message ->
  packets_from id message offset =
  frame id (len message) offset (payload_at message offset) ::
  packets_from id message (offset + len (payload_at message offset)).
Proof.
  intros H. pose proof (len_payload_at message offset) as Hp. unfold packets_from at 1.
  assert (Hn : (0 < length (drop (Z.to_nat offset) message))%nat)
    by (rewrite length_drop; unfold len in H; lia).
  destruct (drop (Z.to_nat offset) message) as [|b rest] eqn:Hd; [cbn in Hn; lia|].
  cbn [length cut]. rewrite <- Hd. f_equal. unfold packets_from.
  replace (drop (Z.to_nat max_payload) (drop (Z.to_nat offset) message))
    with (drop (Z.to_nat (offset + len (payload_at message offset))) message).
  - apply cut_fuel; [|done]. rewrite length_drop. rewrite Hp by lia.
    assert (length (b :: rest) = length message - Z.to_nat offset)%nat as Hl
      by (by rewrite <- Hd, length_drop).
    cbn [length] in Hl. unfold len in *. lia.
  - rewrite drop_drop, Hp by lia. unfold len in *.
    destruct (Z.min_spec max_payload (Z.of_nat (length message) - offset)) as [[? ->]|[? ->]].
    + f_equal. lia.
    + rewrite !drop_ge; [done| |]; lia.
Qed.

Lemma wire_app id ms ms' :
  wire id (ms ++ ms') = wire id ms ++ wire (id + len ms) ms'.
Proof.
  revert id. induction ms as [|m ms IH]; intros id; cbn [wire app].
  - by rewrite Z.add_0_r.
  - rewrite IH, <- app_assoc, len_cons. do 3 f_equal. lia.
Qed.

Lemma wire_snoc id ms m : wire id (ms ++ [m]) = wire id ms ++ packets (id + len ms) m.
Proof. rewrite wire_app. cbn [wire]. by rewrite app_nil_r. Qed.

(** How many packets a message takes. *)
Lemma packets_count id message offset :
  0 <= offset <= len message ->
  len (packets_from id message offset) = (len message - offset + max_payload - 1) / max_payload.
Proof.
  intros H. remember (Z.to_nat (len message - offset)) as n eqn:Hn.
  revert offset H Hn. induction n as [n IH] using lt_wf_ind. intros offset H Hn.
  destruct (decide (offset = len message)) as [->|Hne].
  - rewrite packets_from_done, len_nil by lia. symmetry. apply Z.div_small. lia.
  - rewrite packets_from_step, len_cons by lia. rewrite len_payload_at by lia.
    pose proof (Z.min_spec max_payload (len message - offset)) as Hm.
    rewrite (IH (Z.to_nat (len message - (offset + Z.min max_payload (len message - offset)))))
      by lia.
    destruct Hm as [[Hm ->]|[Hm ->]].
    + replace (len message - offset + max_payload - 1)
        with (len message - (offset + max_payload) + max_payload - 1 + 1 * max_payload) by lia.
      rewrite Z.div_add by lia. lia.
    + replace (len message - (offset + (len message - offset)) + max_payload - 1)
        with (max_payload - 1) by lia.
      rewrite (Z.div_small (max_payload - 1)) by lia.
      replace (len message - offset + max_payload - 1)
        with (len message - offset - 1 + 1 * max_payload) by lia.
      rewrite Z.div_add, Z.div_small by lia. lia.
Qed.
End Packets.

(** ** Retained-byte accounting

    [Q] is the handle a lane holds and [S] the store the handle reaches, which
    other lanes may share. *)
Class PacketQuota (Q S : Type) := mkPacketQuota {
  reserve : Q -> Z -> S -> S * bool;
  release : Q -> Z -> S -> S;
}.

(** What a lane relies on: a handle is charged exactly what it was granted and
    has not given back. *)
Class PacketQuotaLaws (Q S : Type) `{PacketQuota Q S} := {
  quota_ok : S -> Prop;
  held : Q -> S -> Z;
  held_nonneg : forall q s, quota_ok s -> 0 <= held q s;
  reserve_law : forall q n s s' granted,
    quota_ok s -> 0 < n -> reserve q n s = (s', granted) ->
    quota_ok s' /\ held q s' = held q s + (if granted then n else 0);
  release_law : forall q n s,
    quota_ok s -> 0 < n <= held q s ->
    quota_ok (release q n s) /\ held q (release q n s) = held q s - n;
}.

(** A quota of a handle's own, that grants whatever fits [limit]. *)
Definition Counter : Type := Z.

#[global] Instance counter_quota : PacketQuota Z Counter := {|
  reserve limit n s := if s + n <=? limit then (s + n, true) else (s, false);
  release _ n s := s - n;
|}.

#[global, program] Instance counter_laws : PacketQuotaLaws Z Counter := {|
  quota_ok s := 0 <= s;
  held _ s := s;
|}.
Next Obligation. done. Qed.
Next Obligation.
  cbn. intros q n s s' granted Hs Hn E. destruct (s + n <=? q); simplify_eq; lia.
Qed.
Next Obligation. cbn. lia. Qed.

(** ** The messages of a queue

    [M] is a queued message: its number, its bytes, and how many were sent. *)
Section Queued.
Context {M : Type} (item_id : M -> Z) (item_bytes : M -> list byte) (item_offset : M -> Z).

(** The packets the messages still owe. *)
Fixpoint owed (frame : Z -> Z -> Z -> list byte -> list byte) (max_payload : Z) (ms : list M)
    : list (list byte) :=
  match ms with
  | [] => []
  | m :: ms =>
      packets_from frame max_payload (item_id m) (item_bytes m) (item_offset m) ++
      owed frame max_payload ms
  end.

(** Messages that fit [cap], numbered from [id] on, none but the first begun. *)
Fixpoint numbered (cap id : Z) (ms : list M) : Prop :=
  match ms with
  | [] => True
  | m :: ms =>
      item_id m = id /\ 1 <= len (item_bytes m) <= cap /\
      0 <= item_offset m < len (item_bytes m) /\
      Forall (fun m => item_offset m = 0) ms /\ numbered cap (id + 1) ms
  end.

(** Their bytes. *)
Definition queued_total (ms : list M) : Z := foldr (fun m n => len (item_bytes m) + n) 0 ms.

Lemma owed_app frame max_payload ms ms' :
  owed frame max_payload (ms ++ ms') = owed frame max_payload ms ++ owed frame max_payload ms'.
Proof. induction ms as [|m ms IH]; [done|]. cbn [owed app]. by rewrite IH, app_assoc. Qed.

Lemma queued_total_cons m ms : queued_total (m :: ms) = len (item_bytes m) + queued_total ms.
Proof. done. Qed.

Lemma queued_total_app ms ms' : queued_total (ms ++ ms') = queued_total ms + queued_total ms'.
Proof.
  unfold queued_total. induction ms as [|m ms IH]; cbn [app foldr]; [done|]. rewrite IH. lia.
Qed.

Lemma queued_total_nonneg ms : 0 <= queued_total ms.
Proof.
  unfold queued_total. induction ms as [|m ms IH]; cbn [foldr]; [done|].
  pose proof (len_nonneg (item_bytes m)). lia.
Qed.

Lemma numbered_snoc cap id ms m :
  numbered cap id ms -> item_id m = id + len ms -> item_offset m = 0 ->
  1 <= len (item_bytes m) <= cap -> numbered cap id (ms ++ [m]).
Proof.
  revert id. induction ms as [|m' ms IH]; intros id H Hid Hoff Hb; cbn [numbered app] in *.
  - rewrite len_nil, Z.add_0_r in Hid. rewrite Hoff. split_and!; [done|lia..|constructor|done].
  - destruct H as (Hid' & Hm & Ho & Hz & H). split; [done|]. split; [done|]. split; [done|].
    split; [apply Forall_app; split; [done|by constructor]|].
    rewrite len_cons in Hid. apply IH; [done|lia|done|done].
Qed.

(** A quota that gives back every message is charged nothing for them. *)
Lemma release_all {Q S : Type} `{PacketQuotaLaws Q S} (quota : Q) (base : Z) ms (s : S) :
  0 <= base -> quota_ok s -> held quota s = base + queued_total ms ->
  Forall (fun m => 1 <= len (item_bytes m)) ms ->
  let s' := fold_left (fun s m => release quota (len (item_bytes m)) s) ms s in
  quota_ok s' /\ held quota s' = base.
Proof.
  intros Hbase. revert s. induction ms as [|m ms IH]; intros s Hok Hheld Hms; cbn [fold_left].
  - split; [done|]. rewrite Hheld. change (queued_total []) with 0. lia.
  - rewrite queued_total_cons in Hheld.
    apply Forall_cons in Hms as [Hm Hms]. pose proof (queued_total_nonneg ms).
    destruct (release_law quota (len (item_bytes m)) s Hok ltac:(lia)) as [? ?].
    apply IH; [done|lia|done].
Qed.
End Queued.
#[global] Arguments queued_total : simpl never.

(** ** The sending half *)

(** What a queue offers its owner: messages are offered, the next packet is
    looked at, and a packet that was handed to the transport is committed.
    [sd_drained]: it is open and holds no message. *)
Class Sender (St E : Type) := mkSender {
  sd_offer : St -> list byte -> bool -> St * result bool E;
  sd_next : St -> bool -> option (St * result (option (list byte)) E);
  sd_commit : St -> option St;
  sd_clear : St -> St;
  sd_reset : St -> St;
  sd_closed : St -> bool;
  sd_drained : St -> bool;
}.

(** [owes st n ps]: the queue is open, [n] messages were taken since it was
    opened, and [ps] are the packets it has not yet handed out. *)
Class SenderLaws (St E : Type) `{!Sender St E}
    (frame : Z -> Z -> Z -> list byte -> list byte) (max_payload cap : Z) := {
  owes : St -> Z -> list (list byte) -> Prop;
  shut : St -> Prop;
  offer_law : forall st n ps m grow st' r,
    owes st n ps -> sd_offer st m grow = (st', r) ->
    (r = Ok true /\ 1 <= len m <= cap /\ n + 1 < 2 ^ 32 /\
     owes st' (n + 1) (ps ++ packets frame max_payload (n + 1) m)) \/
    (r <> Ok true /\ owes st' n ps);
  next_law : forall st n ps alloc, owes st n ps ->
    exists st' r, sd_next st alloc = Some (st', r) /\
      ((r = Ok (head ps) /\ owes st' n ps /\
        (is_Some (head ps) -> forall alloc', sd_next st' alloc' = Some (st', r))) \/
       ((exists e, r = Err e) /\ shut st' /\ alloc = false));
  commit_law : forall st n ps alloc st' p, owes st n ps ->
    sd_next st alloc = Some (st', Ok (Some p)) ->
    exists st'', sd_commit st' = Some st'' /\ owes st'' n (tail ps);
  shut_offer : forall st m grow st' r,
    shut st -> sd_offer st m grow = (st', r) -> r <> Ok true /\ shut st';
  shut_next : forall st alloc, shut st ->
    exists st', sd_next st alloc = Some (st', Ok None) /\ shut st';
  clear_law : forall st n ps, owes st n ps \/ shut st -> shut (sd_clear st);
  reset_law : forall st n ps, owes st n ps \/ shut st -> owes (sd_reset st) 0 [];
  drained_law : forall st n ps, owes st n ps -> sd_drained st = true <-> ps = [];
  owes_open : forall st n ps, owes st n ps -> sd_closed st = false;
  shut_closed : forall st, shut st -> sd_closed st = true /\ sd_drained st = false;
}.

Inductive SendOp :=
| Offer (message : list byte) (grow : bool)
| Look (alloc : bool)
| Transmit (alloc : bool)
| ClearLane
| ResetLane.

(** The messages taken and the packets handed to the transport since the lane
    was opened. *)
Record SendLog := mkSendLog {
  taken : list (list byte);
  sent : list (list byte);
}.

Section Sending.
Context {St E : Type} `{!Sender St E}.

Definition send_step (st : St) (log : SendLog) (op : SendOp) : option (St * SendLog) :=
  match op with
  | Offer message grow =>
      match sd_offer st message grow with
      | (st, Ok true) => Some (st, mkSendLog (taken log ++ [message]) (sent log))
      | (st, _) => Some (st, log)
      end
  | Look alloc => '(st, _) ← sd_next st alloc; Some (st, log)
  | Transmit alloc =>
      '(st, r) ← sd_next st alloc;
      match r with
      | Ok (Some packet) =>
          st ← sd_commit st; Some (st, mkSendLog (taken log) (sent log ++ [packet]))
      | _ => Some (st, log)
      end
  | ClearLane => Some (sd_clear st, log)
  | ResetLane => Some (sd_reset st, mkSendLog [] [])
  end.

Fixpoint send_run (st : St) (log : SendLog) (ops : list SendOp) : option (St * SendLog) :=
  match ops with
  | [] => Some (st, log)
  | op :: ops => '(st, log) ← send_step st log op; send_run st log ops
  end.

(** What every operation keeps, a run of them keeps. *)
Lemma send_run_keeps (P : St -> Prop) :
  (forall st m grow st' r, P st -> sd_offer st m grow = (st', r) -> P st') ->
  (forall st alloc st' r, P st -> sd_next st alloc = Some (st', r) -> P st') ->
  (forall st st', P st -> sd_commit st = Some st' -> P st') ->
  (forall st, P st -> P (sd_clear st)) -> (forall st, P st -> P (sd_reset st)) ->
  forall ops st log st' log', P st -> send_run st log ops = Some (st', log') -> P st'.
Proof.
  intros Hoffer Hnext Hcommit Hclear Hreset. induction ops as [|op ops IH]; intros st log st' log' HP Hrun.
  - by simplify_eq/=.
  - cbn [send_run] in Hrun. destruct (send_step st log op) as [[st1 log1]|] eqn:Hstep; [|done].
    cbn [mbind option_bind] in Hrun. apply (IH st1 log1 st' log'); [|done].
    destruct op as [m grow|alloc|alloc| |]; cbn [send_step] in Hstep; simplify_eq; auto.
    + destruct (sd_offer st m grow) as [st2 r] eqn:Ho. apply Hoffer in Ho; [|done].
      destruct r as [[]|]; by simplify_eq.
    + destruct (sd_next st alloc) as [[st2 r]|] eqn:Hn; [|done]. apply Hnext in Hn; [|done].
      by simplify_eq/=.
    + destruct (sd_next st alloc) as [[st2 r]|] eqn:Hn; [|done]. apply Hnext in Hn; [|done].
      cbn [mbind option_bind] in Hstep. destruct r as [[p|]|]; try by simplify_eq.
      destruct (sd_commit st2) as [st3|] eqn:Hco; [|done]. apply Hcommit in Hco; [|done].
      by simplify_eq/=.
Qed.

Context (frame : Z -> Z -> Z -> list byte -> list byte) (max_payload cap : Z).
Context `{!SenderLaws St E frame max_payload cap}.

(** The messages taken fit the lane and the ids. *)
Definition fitting (ms : list (list byte)) : Prop :=
  Forall (fun m => 1 <= len m <= cap) ms /\ len ms < 2 ^ 32.

(** What was sent and what is owed are the packets of what was taken. *)
Definition streaming (st : St) (log : SendLog) : Prop :=
  fitting (taken log) /\
  exists ps, sent log ++ ps = wire frame max_payload 1 (taken log) /\
    (owes st (len (taken log)) ps \/ shut st).

Lemma streaming_step st log op :
  streaming st log -> exists st' log', send_step st log op = Some (st', log') /\ streaming st' log'.
Proof.
  intros (Hf & ps & Hs & Ho). destruct op as [m grow|alloc|alloc| |]; cbn [send_step].
  - destruct (sd_offer st m grow) as [st' r] eqn:Hoffer.
    destruct Ho as [Ho|Hshut].
    + destruct (offer_law _ _ _ _ _ _ _ Ho Hoffer) as [(-> & Hm & Hn & Ho')|[Hr Ho']].
      * do 2 eexists. split; [done|]. split; cbn [taken sent].
        { destruct Hf as [Hfa Hlen]. split; [apply Forall_app; split; [done|by constructor]|].
          rewrite len_app, len_cons, len_nil. lia. }
        exists (ps ++ packets frame max_payload (len (taken log) + 1) m).
        rewrite wire_snoc, <- Hs, (app_assoc (sent log)), (Z.add_comm 1).
        split; [done|]. left. rewrite len_app, len_cons, len_nil. by replace (1 + 0) with 1 by lia.
      * exists st', log. split; [by destruct r as [[]|]|]. split; [done|]. by exists ps; auto.
    + destruct (shut_offer _ _ _ _ _ Hshut Hoffer) as [Hr Hsh].
      exists st', log. split; [by destruct r as [[]|]|]. split; [done|]. by exists ps; auto.
  - destruct Ho as [Ho|Hshut].
    + destruct (next_law _ _ _ alloc Ho) as (st' & r & -> & [(_ & Ho' & _)|(_ & Hsh & _)]);
        exists st', log; (split; [done|]; split; [done|]; exists ps; auto).
    + destruct (shut_next _ alloc Hshut) as (st' & -> & Hsh).
      exists st', log. split; [done|]; split; [done|]; exists ps; auto.
  - destruct Ho as [Ho|Hshut].
    + destruct (next_law _ _ _ alloc Ho) as (st' & r & Hnext & [(-> & Ho' & _)|([e ->] & Hsh & _)]);
        rewrite Hnext; cbn [mbind option_bind].
      * destruct ps as [|p ps]; cbn [head] in *.
        { exists st', log. split; [done|]; split; [done|]; exists []; auto. }
        destruct (commit_law _ _ _ _ _ _ Ho Hnext) as (st'' & -> & Ho'').
        do 2 eexists. split; [done|]. split; [done|]. exists ps. cbn [taken sent].
        rewrite <- app_assoc. auto.
      * exists st', log. split; [done|]; split; [done|]; exists ps; auto.
    + destruct (shut_next _ alloc Hshut) as (st' & -> & Hsh).
      exists st', log. split; [done|]; split; [done|]; exists ps; auto.
  - do 2 eexists. split; [done|]; split; [done|]; exists ps. split; [done|]. right.
    by eapply clear_law.
  - do 2 eexists. split; [done|]. split; [split; [constructor|done]|].
    exists []. split; [done|]. left. by eapply reset_law.
Qed.

Lemma streaming_run ops st log :
  streaming st log -> exists st' log', send_run st log ops = Some (st', log') /\ streaming st' log'.
Proof.
  revert st log. induction ops as [|op ops IH]; intros st log H; [by do 2 eexists|].
  cbn [send_run]. destruct (streaming_step _ _ op H) as (st' & log' & -> & H'). by apply IH.
Qed.

(** As many transmissions as packets are owed empty the queue. *)
Lemma transmits_drain ps st log n k :
  owes st n ps -> (length ps <= k)%nat ->
  exists st', send_run st log (replicate k (Transmit true)) =
                Some (st', mkSendLog (taken log) (sent log ++ ps)) /\
    owes st' n [] /\ sd_drained st' = true.
Proof.
  revert ps st log. induction k as [|k IH]; intros ps st log Ho Hk.
  - destruct ps; [|cbn in Hk; lia]. exists st. rewrite app_nil_r. destruct log.
    split; [done|]. split; [done|]. by apply (drained_law _ _ _ Ho).
  - cbn [replicate send_run send_step].
    destruct (next_law _ _ _ true Ho) as (st' & r & Hnext & [(-> & Ho' & _)|(_ & _ & ?)]); [|done].
    rewrite Hnext. cbn [mbind option_bind]. destruct ps as [|p ps]; cbn [head].
    + cbn [mbind option_bind]. destruct (IH [] st' log Ho') as (st'' & -> & ? & ?); [cbn; lia|]. by exists st''.
    + destruct (commit_law _ _ _ _ _ _ Ho Hnext) as (st'' & -> & Ho''). cbn [mbind option_bind].
      cbn [mbind option_bind]. destruct (IH ps st'' (mkSendLog (taken log) (sent log ++ [p])) Ho'') as (st3 & -> & ? & ?);
        [cbn [length] in Hk; lia|].
      exists st3. cbn [taken sent]. by rewrite <- app_assoc.
Qed.
End Sending.

(** ** The receiving half *)

Class Receiver (St E : Type) := mkReceiver {
  rc_push : St -> list byte -> Z -> bool -> option (St * result (option (list byte)) E);
}.

(** [expects st id message offset since]: the receiver took the first [offset]
    bytes of [message], numbered [id], the last of them at [since]; with none
    taken, any message may be the next.  [room]: its quota has room for any one
    message.  A packet it was to take is refused only for want of memory, for
    want of quota, or because it came [stall] after the one before. *)
Class ReceiverLaws (St E : Type) `{!Receiver St E}
    (frame : Z -> Z -> Z -> list byte -> list byte) (max_payload cap stall : Z) := {
  expects : St -> Z -> list byte -> Z -> Z -> Prop;
  dead : St -> Prop;
  room : Prop;
  push_law : forall st id message offset since now alloc,
    expects st id message offset since ->
    1 <= id < 2 ^ 32 -> 0 <= offset < len message -> len message <= cap ->
    let payload := payload_at max_payload message offset in
    exists st' r, rc_push st (frame id (len message) offset payload) now alloc = Some (st', r) /\
      ((offset + len payload < len message /\ r = Ok None /\
        expects st' id message (offset + len payload) now) \/
       (offset + len payload = len message /\ r = Ok (Some message) /\
        forall next, expects st' (id + 1) next 0 now) \/
       ((exists e, r = Err e) /\ dead st' /\ (alloc = false \/ stall <= now - since \/ ~ room)));
  dead_push : forall st packet now alloc, dead st ->
    exists e, rc_push st packet now alloc = Some (st, Err e);
}.

Record Arrival := mkArrival {
  ar_packet : list byte;
  ar_now : Z;
  ar_alloc : bool;
}.

Section Receiving.
Context {St E : Type} `{!Receiver St E}.

(** Every packet that arrives is pushed; the answers are kept. *)
Fixpoint receive (st : St) (arrivals : list Arrival)
    : option (St * list (result (option (list byte)) E)) :=
  match arrivals with
  | [] => Some (st, [])
  | a :: arrivals =>
      '(st, r) ← rc_push st (ar_packet a) (ar_now a) (ar_alloc a);
      '(st, rs) ← receive st arrivals;
      Some (st, r :: rs)
  end.

Definition completed (r : result (option (list byte)) E) : option (list byte) :=
  match r with Ok m => m | Err _ => None end.

(** The messages the receiver gave its owner. *)
Definition delivered (rs : list (result (option (list byte)) E)) : list (list byte) :=
  omap completed rs.

(** Each packet comes less than [stall] after the one before, the first after
    [since], and the allocator never refuses. *)
Fixpoint prompt (stall since : Z) (arrivals : list Arrival) : Prop :=
  match arrivals with
  | [] => True
  | a :: arrivals => ar_now a - since < stall /\ ar_alloc a = true /\ prompt stall (ar_now a) arrivals
  end.

Context (frame : Z -> Z -> Z -> list byte -> list byte) (max_payload cap stall : Z).
Context `{!ReceiverLaws St E frame max_payload cap stall}.
Hypothesis max_pos : 0 < max_payload.

Lemma receive_dead st arrivals : dead st ->
  exists rs, receive st arrivals = Some (st, rs) /\ delivered rs = [] /\
    (arrivals <> [] -> ~ Forall (fun r => is_ok r = true) rs).
Proof.
  intros Hd. induction arrivals as [|a arrivals (rs & IH & Hdel & _)]; [by exists []|].
  destruct (dead_push _ (ar_packet a) (ar_now a) (ar_alloc a) Hd) as [e He].
  exists (Err e :: rs). cbn [receive]. rewrite He. cbn [mbind option_bind]. rewrite IH.
  split; [done|]. split; [done|]. intros _ Hall. by inversion Hall.
Qed.

(** The packets still to come of [messages], the first of them numbered [id] and
    taken up to [offset]. *)
Definition to_come (id offset : Z) (messages : list (list byte)) : list (list byte) :=
  match messages with
  | [] => []
  | message :: rest =>
      packets_from frame max_payload id message offset ++ wire frame max_payload (id + 1) rest
  end.

Lemma to_come_wire id messages : to_come id 0 messages = wire frame max_payload id messages.
Proof. by destruct messages. Qed.

Lemma to_come_step id offset message rest :
  0 <= offset < len message ->
  to_come id offset (message :: rest) =
  let payload := payload_at max_payload message offset in
  frame id (len message) offset payload ::
  (if offset + len payload <? len message
   then to_come id (offset + len payload) (message :: rest) else to_come (id + 1) 0 rest).
Proof.
  intros H. cbn [to_come]. rewrite packets_from_step by done. cbn zeta. case_if; bool_to_prop.
  - done.
  - rewrite (packets_from_done _ _ _ message) by lia. by rewrite to_come_wire.
Qed.

(** What a receiver makes of the packets of [messages], cut off anywhere. *)
Lemma receive_stream arrivals : forall st id offset since messages,
  match messages with
  | message :: _ => expects st id message offset since /\ 0 <= offset < len message
  | [] => forall m, expects st id m 0 since
  end ->
  Forall (fun m => 1 <= len m <= cap) messages -> 1 <= id -> id + len messages <= 2 ^ 32 ->
  map ar_packet arrivals `prefix_of` to_come id offset messages ->
  exists st' rs, receive st arrivals = Some (st', rs) /\
    delivered rs `prefix_of` messages /\
    (Forall (fun r => is_ok r = true) rs ->
     map ar_packet arrivals = to_come id offset messages -> delivered rs = messages) /\
    (room -> prompt stall since arrivals -> Forall (fun r => is_ok r = true) rs).
Proof.
  induction arrivals as [|a arrivals IH]; intros st id offset since messages Hexp Hfit Hid Hids Hpre.
  - exists st, []. split; [done|]. split; [by exists messages|]. split; [|by constructor].
    intros _ Hnil. destruct messages as [|m ms]; [done|]. destruct Hexp as [_ Hoff].
    by rewrite to_come_step in Hnil by done.
  - destruct messages as [|m ms]; [by apply prefix_nil_inv in Hpre|].
    destruct Hexp as [Hexp Hoff]. rewrite to_come_step in Hpre |- * by done.
    cbn [map] in Hpre |- *. cbn zeta in Hpre |- *.
    pose proof (prefix_cons_inv_1 _ _ _ _ Hpre) as Hhd. apply prefix_cons_inv_2 in Hpre as Htl.
    rewrite len_cons in Hids. pose proof (len_nonneg ms).
    apply Forall_cons in Hfit as Hfit'. destruct Hfit' as [Hm Hms].
    destruct (push_law _ _ _ _ _ (ar_now a) (ar_alloc a) Hexp) as (st' & r & Hpush & Hcases); [lia..|].
    cbn [receive]. rewrite Hhd, Hpush. cbn [mbind option_bind].
    pose proof (len_payload_at max_payload max_pos m offset) as Hpl.
    destruct Hcases as [(Hlt & -> & Hexp')|[(Heq & -> & Hexp')|([e ->] & Hdead & Hwhy)]].
    + apply Z.ltb_lt in Hlt as Hltb. rewrite Hltb in Htl |- *.
      destruct (IH st' id (offset + len (payload_at max_payload m offset)) (ar_now a) (m :: ms))
        as (st'' & rs & -> & Hdel & Hall & Hok); [split; [done|lia]|done|lia|rewrite len_cons; lia|done|].
      exists st'', (Ok None :: rs). split; [done|]. split; [done|]. split.
      * intros Hf Hmap. injection Hmap as Hmap. apply Forall_cons in Hf as [_ Hf]. by apply Hall.
      * intros Hr (_ & _ & Hp). constructor; [done|by apply Hok].
    + rewrite (proj2 (Z.ltb_ge _ _)) in Htl |- * by lia.
      destruct (IH st' (id + 1) 0 (ar_now a) ms) as (st'' & rs & -> & Hdel & Hall & Hok);
        [destruct ms as [|m' ms']; [done|split; [done|]] | done | lia | lia | done |].
      { apply Forall_cons in Hms as [? _]. lia. }
      exists st'', (Ok (Some m) :: rs). split; [done|]. split; [by apply prefix_cons|]. split.
      * intros Hf Hmap. injection Hmap as Hmap. apply Forall_cons in Hf as [_ Hf].
        cbn [delivered omap list_omap completed]. f_equal. by apply Hall.
      * intros Hr (_ & _ & Hp). constructor; [done|by apply Hok].
    + destruct (receive_dead st' arrivals Hdead) as (rs & -> & Hdel & _).
      exists st', (Err e :: rs). split; [done|].
      assert (delivered (Err e :: rs) = []) as -> by done.
      split; [by exists (m :: ms)|]. split.
      * intros Hf. by inversion Hf.
      * intros Hr (Hnow & Hal & _). destruct Hwhy as [?|[?|?]]; [congruence|lia|done].
Qed.
End Receiving.

(** ** The two halves *)

Section Lane.
Context {Tx Rx E E' : Type} `{!Sender Tx E} `{!Receiver Rx E'}.
Context (frame : Z -> Z -> Z -> list byte -> list byte) (max_payload cap stall : Z).
Context `{!SenderLaws Tx E frame max_payload cap} `{!ReceiverLaws Rx E' frame max_payload cap stall}.
Hypothesis max_pos : 0 < max_payload.

(** What the two halves promise over an ordered transport: whatever is done with
    [tx], and however much of what it sent arrives, [rx] hands over a prefix of
    the messages [tx] took; all of them when [tx] is drained and all it sent
    arrived; it refuses nothing while [roomy], and as many transmissions as
    packets are left drain an open [tx]. *)
Definition delivers (roomy : Prop) (tx : Tx) (rx : Rx) : Prop :=
  forall ops arrivals since,
  exists tx' log, send_run tx (mkSendLog [] []) ops = Some (tx', log) /\
    (map ar_packet arrivals `prefix_of` sent log ->
     exists rx' rs, receive rx arrivals = Some (rx', rs) /\
       delivered rs `prefix_of` taken log /\
       (Forall (fun r => is_ok r = true) rs -> sd_drained tx' = true ->
        map ar_packet arrivals = sent log -> delivered rs = taken log) /\
       (roomy -> prompt stall since arrivals -> Forall (fun r => is_ok r = true) rs)) /\
    (sd_closed tx' = false ->
     exists left tx'', wire frame max_payload 1 (taken log) = sent log ++ left /\
       send_run tx' log (replicate (length left) (Transmit true)) =
         Some (tx'', mkSendLog (taken log) (sent log ++ left)) /\
       sd_drained tx'' = true).

Lemma lane_delivers tx rx :
  owes tx 0 [] -> (forall since m, expects rx 1 m 0 since) -> delivers room tx rx.
Proof.
  intros Htx Hrx ops arrivals since.
  destruct (streaming_run frame max_payload cap ops tx (mkSendLog [] []))
    as (tx' & log & Hrun & [Hfit Hlen] & ps & Hps & Howes).
  { split; [split; [constructor|done]|]. exists []. split; [done|]. by left. }
  exists tx', log. split; [done|]. split.
  - intros Hpre.
    destruct (receive_stream frame max_payload cap stall max_pos arrivals rx 1 0 since (taken log))
      as (rx' & rs & Hrec & Hdel & Hall & Hok); [|done|lia|lia| |].
    + destruct (taken log) as [|m ms]; [done|]. split; [done|].
      apply Forall_cons in Hfit as [? _]. lia.
    + rewrite to_come_wire, <- Hps. by apply prefix_app_r.
    + exists rx', rs. split; [done|]. split; [done|]. split; [|done].
      intros Hf Hdr Heq. apply Hall; [done|].
      destruct Howes as [Howes|Hsh]; [|by rewrite (proj2 (shut_closed _ Hsh)) in Hdr].
      apply (drained_law _ _ _ Howes) in Hdr as ->.
      by rewrite to_come_wire, Heq, <- Hps, app_nil_r.
  - intros Hopen. destruct Howes as [Howes|Hsh]; [|by rewrite (proj1 (shut_closed _ Hsh)) in Hopen].
    destruct (transmits_drain frame max_payload cap ps tx' log _ (length ps) Howes)
      as (tx'' & Hdrain & _ & Hd); [done|].
    by exists ps, tx''.
Qed.
End Lane.

(** ** Any packets at all *)

(** [took st id part total]: the receiver is open, completed [id] messages and
    holds [part] of the next, of [total] bytes; [spent]: it refused a packet.
    Of the packets there are, it takes the next of the message it holds. *)
Class CarefulReceiver (St E : Type) `{!Receiver St E}
    (frame : Z -> Z -> Z -> list byte -> list byte) (max_payload cap : Z) := {
  took : St -> Z -> list byte -> Z -> Prop;
  spent : St -> Prop;
  any_push : forall st id part total packet now alloc, took st id part total ->
    exists st' r, rc_push st packet now alloc = Some (st', r) /\
      (((exists e, r = Err e) /\ spent st') \/
       exists total' body,
         packet = frame (id + 1) total' (len part) body /\ (part = [] \/ total' = total) /\
         1 <= len body <= max_payload /\ total' <= cap /\
         ((len (part ++ body) < total' /\ r = Ok None /\ took st' id (part ++ body) total') \/
          (len (part ++ body) = total' /\ r = Ok (Some (part ++ body)) /\ took st' (id + 1) [] 0)));
  spent_push : forall st packet now alloc, spent st ->
    exists e, rc_push st packet now alloc = Some (st, Err e);
}.

Section AnyPackets.
Context {St E : Type} `{!Receiver St E}.
Context (frame : Z -> Z -> Z -> list byte -> list byte) (max_payload cap : Z).

(** The packets of message [id], of [total] bytes, that carry [bodies]. *)
Fixpoint framed (id total offset : Z) (bodies : list (list byte)) : list (list byte) :=
  match bodies with
  | [] => []
  | body :: bodies => frame id total offset body :: framed id total (offset + len body) bodies
  end.

(** Whole messages, each cut in some way, the first of them numbered [id]. *)
Fixpoint framed_all (id : Z) (cuts : list (list (list byte))) : list (list byte) :=
  match cuts with
  | [] => []
  | bodies :: cuts => framed id (len (concat bodies)) 0 bodies ++ framed_all (id + 1) cuts
  end.

Lemma framed_app id total offset bodies bodies' :
  framed id total offset (bodies ++ bodies') =
  framed id total offset bodies ++ framed id total (offset + len (concat bodies)) bodies'.
Proof.
  revert offset. induction bodies as [|b bodies IH]; intros offset; cbn [framed app concat].
  - by rewrite len_nil, Z.add_0_r.
  - rewrite IH, len_app. by rewrite Z.add_assoc.
Qed.

Lemma framed_all_snoc id cuts bodies :
  framed_all id (cuts ++ [bodies]) =
  framed_all id cuts ++ framed (id + len cuts) (len (concat bodies)) 0 bodies.
Proof.
  revert id. induction cuts as [|c cuts IH]; intros id; cbn [framed_all app].
  - rewrite app_nil_r. f_equal. unfold len. cbn [length]. lia.
  - rewrite IH, <- app_assoc, len_cons. do 3 f_equal. lia.
Qed.

(** A body a packet carries. *)
Definition carried (body : list byte) : Prop := 1 <= len body <= max_payload.

Context `{!CarefulReceiver St E frame max_payload cap}.

Lemma receive_spent st arrivals : spent st ->
  exists rs, receive st arrivals = Some (st, rs) /\ delivered rs = [] /\
    Forall (fun r => is_ok r = false) rs.
Proof.
  intros Hd. induction arrivals as [|a arrivals (rs & IH & Hdel & Hall)]; [by exists []|].
  destruct (spent_push _ (ar_packet a) (ar_now a) (ar_alloc a) Hd) as [e He].
  exists (Err e :: rs). cbn [receive]. rewrite He. cbn [mbind option_bind]. rewrite IH.
  split; [done|]. split; [done|]. by constructor.
Qed.

(** What is behind the packets that were taken: whole messages, and a part of
    one more. *)
Record so_far (packets : list (list byte)) (messages : list (list byte))
    (part : list byte) (total : Z) : Prop := {
  sf_cuts : exists cuts bodies,
    packets = framed_all 1 cuts ++ framed (len cuts + 1) total 0 bodies /\
    messages = map (@concat byte) cuts /\ part = concat bodies /\
    Forall (Forall carried) cuts /\ Forall carried bodies;
  sf_whole : Forall (fun m => 1 <= len m <= cap) messages;
  sf_part : part = [] \/ len part < total <= cap;
}.

Lemma receive_any arrivals : forall st packets messages part total,
  took st (len messages) part total -> so_far packets messages part total ->
  exists st' rs good bad, receive st arrivals = Some (st', rs) /\
    map ar_packet arrivals = good ++ bad /\
    (exists oks errs, rs = oks ++ errs /\ length oks = length good /\
       Forall (fun r => is_ok r = true) oks /\ Forall (fun r => is_ok r = false) errs) /\
    exists part' total', so_far (packets ++ good) (messages ++ delivered rs) part' total' /\
      ((bad = [] /\ took st' (len (messages ++ delivered rs)) part' total') \/ (bad <> [] /\ spent st')).
Proof.
  induction arrivals as [|a arrivals IH]; intros st packets messages part total Htook Hsf.
  - exists st, [], [], []. split; [done|]. split; [done|]. split; [by exists [], []|].
    exists part, total. cbn [delivered omap list_omap]. rewrite !app_nil_r. auto.
  - destruct (any_push _ _ _ _ (ar_packet a) (ar_now a) (ar_alloc a) Htook) as (st' & r & Hpush & Hcase).
    cbn [receive map]. rewrite Hpush. cbn [mbind option_bind].
    destruct Hcase as [([e ->] & Hspent)|(total' & body & Hpk & Htot & Hbody & Hcap & Hcase)].
    + destruct (receive_spent st' arrivals Hspent) as (rs & -> & Hdel & Herrs).
      exists st', (Err e :: rs), [], (ar_packet a :: map ar_packet arrivals).
      split; [done|]. split; [done|]. split.
      { exists [], (Err e :: rs). split_and!; try done. by constructor. }
      exists part, total. assert (delivered (Err e :: rs) = []) as -> by done.
      rewrite !app_nil_r. auto.
    + destruct Hsf as [Hcuts Hwhole Hpart]; destruct Hcuts as (cuts & bodies & -> & -> & -> & Hcuts & Hbodies).
      assert (framed (len cuts + 1) total 0 bodies = framed (len cuts + 1) total' 0 bodies) as Hsame.
      { destruct Htot as [Hnil| ->]; [|done]. destruct bodies as [|b bodies]; [done|].
        apply Forall_cons in Hbodies as [Hb _]. unfold carried in Hb. cbn in Hnil.
        apply app_eq_nil in Hnil as [-> _]. rewrite len_nil in Hb. lia. }
      assert (Hnext : framed_all 1 cuts ++ framed (len cuts + 1) total' 0 (bodies ++ [body]) =
                (framed_all 1 cuts ++ framed (len cuts + 1) total 0 bodies) ++ [ar_packet a]).
      { rewrite framed_app, Hsame, <- app_assoc. cbn [framed]. rewrite Z.add_0_l, Hpk.
        do 3 f_equal. unfold len. by rewrite length_map. }
      assert (Hconcat : concat (bodies ++ [body]) = concat bodies ++ body)
        by (rewrite concat_app; cbn; by rewrite app_nil_r).
      assert (Hbs : Forall carried (bodies ++ [body])) by (apply Forall_app; split; [done|by constructor]).
      destruct Hcase as [(Hlt & -> & Htook')|(Heq & -> & Htook')].
      * destruct (IH st' (framed_all 1 cuts ++ framed (len cuts + 1) total' 0 (bodies ++ [body]))
                    (map (@concat byte) cuts) (concat bodies ++ body) total' Htook')
          as (st'' & rs & good & bad & -> & Hmap & (oks & errs & -> & Hlen & Hoks & Herrs) & Hrest).
        { constructor; [|done|right; lia]. exists cuts, (bodies ++ [body]). by rewrite Hconcat. }
        exists st'', (Ok None :: oks ++ errs), (ar_packet a :: good), bad.
        rewrite Hnext, <- app_assoc in Hrest. rewrite Hmap.
        split; [done|]. split; [done|]. split; [|done].
        exists (Ok None :: oks), errs. split; [done|]. split; [cbn; lia|]. split; [by constructor|done].
      * pose proof (len_nonneg (concat bodies)). rewrite len_app in Heq.
        assert (Hn : len (map (@concat byte) (cuts ++ [bodies ++ [body]])) = len (map (@concat byte) cuts) + 1).
        { rewrite map_app, len_app. done. }
        rewrite <- Hn in Htook'. rewrite map_app in Htook'. cbn [map] in Htook'.
        rewrite Hconcat in Htook'.
        destruct (IH st' (framed_all 1 (cuts ++ [bodies ++ [body]])) ((map (@concat byte) cuts) ++ [concat bodies ++ body])
                    [] 0 Htook')
          as (st'' & rs & good & bad & -> & Hmap & (oks & errs & -> & Hlen & Hoks & Herrs) & Hrest).
        { constructor; [|apply Forall_app; split; [done|constructor; [rewrite len_app; lia|done]]|by left].
          exists (cuts ++ [bodies ++ [body]]), []. cbn [framed]. rewrite app_nil_r, map_app.
          cbn [map]. rewrite Hconcat. split_and!; try done.
          apply Forall_app; split; [done|by constructor]. }
        exists st'', (Ok (Some (concat bodies ++ body)) :: oks ++ errs), (ar_packet a :: good), bad.
        rewrite framed_all_snoc, Hconcat, len_app, Heq, (Z.add_comm 1), Hnext, <- app_assoc in Hrest.
        cbn [delivered omap list_omap completed]. rewrite Hmap.
        rewrite <- !app_assoc in Hrest. rewrite <- (app_assoc (framed_all 1 cuts)).
        split; [done|]. split; [done|]. split; [|exact Hrest].
        exists (Ok (Some (concat bodies ++ body)) :: oks), errs.
        split; [done|]. split; [cbn; lia|]. split; [by constructor|done].
Qed.

(** Of any packets the receiver takes a number of them and refuses the rest;
    those it takes are whole messages, each cut in some way, and a part of one
    more, and it hands over just the whole ones.  [charge] is what its quota holds
    for it, [open] whether it still takes packets. *)
Definition takes_exact (charge : St -> Z) (open : St -> bool) (st : St) : Prop :=
  forall arrivals, exists st' rs good bad, receive st arrivals = Some (st', rs) /\
    map ar_packet arrivals = good ++ bad /\
    (exists oks errs, rs = oks ++ errs /\ length oks = length good /\
       Forall (fun r => is_ok r = true) oks /\ Forall (fun r => is_ok r = false) errs) /\
    exists part total, so_far good (delivered rs) part total /\
      open st' = bool_decide (bad = []) /\
      charge st' = charge st + (if bool_decide (bad = [] /\ part <> []) then total else 0).

Lemma takes_exact_intro charge open base st :
  took st 0 [] 0 ->
  (forall st id part total, took st id part total ->
     open st = true /\ charge st = base + (if bool_decide (part = []) then 0 else total)) ->
  (forall st, spent st -> open st = false /\ charge st = base) ->
  takes_exact charge open st.
Proof.
  intros Htook Hcharge Hspent arrivals.
  destruct (receive_any arrivals st [] [] [] 0 Htook)
    as (st' & rs & good & bad & Hrec & Hmap & Hrs & part & total & Hsf & Hend).
  { constructor; [|constructor|by left]. exists [], []. split_and!; done. }
  cbn [app] in *. exists st', rs, good, bad. split; [done|]. split; [done|]. split; [done|].
  exists part, total. split; [done|].
  destruct (Hcharge _ _ _ _ Htook) as [_ Hbase]. rewrite bool_decide_true in Hbase by done.
  destruct Hend as [[-> Ht]|[Hbad Hsp]].
  - destruct (Hcharge _ _ _ _ Ht) as [-> ->]. split; [by rewrite bool_decide_true|]. rewrite Hbase.
    destruct (decide (part = [])) as [->|Hp];
      [rewrite bool_decide_true, bool_decide_false by naive_solver|
       rewrite bool_decide_false, bool_decide_true by naive_solver]; lia.
  - destruct (Hspent _ Hsp) as [-> ->]. split; [by rewrite bool_decide_false|]. rewrite Hbase.
    rewrite bool_decide_false by naive_solver. lia.
Qed.
End AnyPackets.
