(* ===== verification/PeerPackets.v ===== *)
(** * PeerPackets: the packets of the direct terminal carrier

    [roost-protocol/src/terminal_peer]: the sixteen byte header and its parser
    ([packets.rs], [peer.rs]), the assembler that puts a lane's messages
    together again, and the queue in front of it ([packet_queue.rs]).  [None]
    is a panic of slice indexing or of an integer; the answers of the allocator
    ([alloc], [grow]) and the clock's reading ([now_ms]) are arguments. *)
From S2P Require Export PacketStream.

(** ** Lanes and limits *)

Inductive TerminalPeerPacketLane := Control | Terminal | History.

#[global] Instance TerminalPeerPacketLane_eq_dec : EqDecision TerminalPeerPacketLane.
Proof. solve_decision. Defined.

Definition TERMINAL_PEER_MAX_MESSAGE_SIZE : Z := 16 * 1024.
Definition TERMINAL_PEER_PACKET_STALL_MS : Z := 10000.
Definition TERMINAL_PEER_PACKET_MAGIC : Z := 0x31505452.
Definition TERMINAL_PEER_PACKET_HEADER_BYTES : Z := 16.
Definition TERMINAL_PEER_PACKET_MAX_BYTES : Z := TERMINAL_PEER_MAX_MESSAGE_SIZE.
Definition TERMINAL_PEER_PACKET_MAX_PAYLOAD_BYTES : Z :=
  TERMINAL_PEER_PACKET_MAX_BYTES - TERMINAL_PEER_PACKET_HEADER_BYTES.

(** [TerminalPeerLaneByteCaps::for_lane]. *)
Definition for_lane (lane : TerminalPeerPacketLane) : Z :=
  match lane with
  | Control => 128 * 1024
  | Terminal => 2 * 1024 * 1024
  | History => 64 * 1024 * 1024
  end.

(** ** One packet *)

Inductive TerminalPeerPacketErrorCode :=
| Closed
| FragmentStalled
| MessageIdWrap
| MessageId
| MessageSize
| PacketSize
| PacketMagic
| PacketHeader
| FragmentOrder
| Quota
| Allocation.

Record TerminalPeerPacketHeader := mkHeader {
  message_id : Z;
  total_bytes : Z;
  offset_bytes : Z;
}.

Record TerminalPeerPacket := mkPacket {
  header : TerminalPeerPacketHeader;
  payload : list byte;
}.

(** [assert_packet_fields]. *)
Definition assert_packet_fields (lane : TerminalPeerPacketLane)
    (header : TerminalPeerPacketHeader) (payload_bytes : Z)
    : result unit TerminalPeerPacketErrorCode :=
  if message_id header <? 1 then Err MessageId
  else if (total_bytes header <? 1) || (for_lane lane <? total_bytes header) then Err MessageSize
  else if (total_bytes header <=? offset_bytes header)
       || negb ((1 <=? payload_bytes) && (payload_bytes <=? TERMINAL_PEER_PACKET_MAX_PAYLOAD_BYTES))
       || (total_bytes header <? offset_bytes header + payload_bytes)
  then Err PacketHeader
  else Ok tt.

(** [encode_terminal_peer_packet]: the four fields and the payload are copied
    one after the other into a buffer of exactly their size. *)
Definition encode_terminal_peer_packet (lane : TerminalPeerPacketLane)
    (header : TerminalPeerPacketHeader) (payload : list byte)
    : result (list byte) TerminalPeerPacketErrorCode :=
  let? _ := assert_packet_fields lane header (len payload) in
  Ok (to_le_bytes 4 TERMINAL_PEER_PACKET_MAGIC ++
      to_le_bytes 4 (message_id header) ++
      to_le_bytes 4 (total_bytes header) ++
      to_le_bytes 4 (offset_bytes header) ++ payload).

(** [read_u32]; [None] is the panic of indexing past the packet. *)
Definition read_u32 (packet : list byte) (offset : nat) : option Z :=
  from_le_bytes <$> slice_get packet offset (offset + 4).

(** [parse_terminal_peer_packet]. *)
Definition parse_terminal_peer_packet (lane : TerminalPeerPacketLane) (packet : list byte)
    : option (result TerminalPeerPacket TerminalPeerPacketErrorCode) :=
  if negb ((TERMINAL_PEER_PACKET_HEADER_BYTES + 1 <=? len packet)
           && (len packet <=? TERMINAL_PEER_PACKET_MAX_BYTES))
  then Some (Err PacketSize) else
  magic ← read_u32 packet 0;
  if negb (magic =? TERMINAL_PEER_PACKET_MAGIC) then Some (Err PacketMagic) else
  id ← read_u32 packet 4;
  total ← read_u32 packet 8;
  offset ← read_u32 packet 12;
  payload ← slice_get packet (Z.to_nat TERMINAL_PEER_PACKET_HEADER_BYTES) (length packet);
  let header := mkHeader id total offset in
  Some (let? _ := assert_packet_fields lane header (len payload) in
        Ok (mkPacket header payload)).

(** ** The assembler *)

Record PartialMessage := mkPartial {
  pm_message_id : Z;
  pm_total_bytes : Z;
  pm_bytes : list byte;
  pm_next_offset : Z;
  pm_last_fragment_at_ms : Z;
}.

Section Assembler.
Context {Q S : Type} `{!PacketQuota Q S}.

Record TerminalPeerPacketAssembler := mkAssembler {
  as_lane : TerminalPeerPacketLane;
  as_quota : Q;
  as_partial : option PartialMessage;
  last_completed_message_id : Z;
  as_closed : bool;
}.

(** [TerminalPeerPacketAssembler::new]. *)
Definition assembler_new (lane : TerminalPeerPacketLane) (quota : Q) : TerminalPeerPacketAssembler :=
  mkAssembler lane quota None 0 false.

(** [has_partial_message], [is_closed], [last_message_id]. *)
Definition has_partial_message (a : TerminalPeerPacketAssembler) : bool :=
  if as_partial a then true else false.
Definition is_closed (a : TerminalPeerPacketAssembler) : bool := as_closed a.
Definition last_message_id (a : TerminalPeerPacketAssembler) : Z := last_completed_message_id a.

Definition with_partial (p : option PartialMessage) (a : TerminalPeerPacketAssembler) :=
  mkAssembler (as_lane a) (as_quota a) p (last_completed_message_id a) (as_closed a).
Definition with_last_id (id : Z) (a : TerminalPeerPacketAssembler) :=
  mkAssembler (as_lane a) (as_quota a) (as_partial a) id (as_closed a).
Definition with_closed (c : bool) (a : TerminalPeerPacketAssembler) :=
  mkAssembler (as_lane a) (as_quota a) (as_partial a) (last_completed_message_id a) c.

(** [release_partial]. *)
Definition release_partial (s : S) (a : TerminalPeerPacketAssembler) : S * TerminalPeerPacketAssembler :=
  match as_partial a with
  | Some partial => (release (as_quota a) (pm_total_bytes partial) s, with_partial None a)
  | None => (s, a)
  end.

(** [close]. *)
Definition close (s : S) (a : TerminalPeerPacketAssembler) : S * TerminalPeerPacketAssembler :=
  release_partial s (with_closed true a).

(** [reset]. *)
Definition reset (s : S) (a : TerminalPeerPacketAssembler) : S * TerminalPeerPacketAssembler :=
  let '(s, a) := release_partial s a in
  (s, with_closed false (with_last_id 0 a)).

Definition stalled (a : TerminalPeerPacketAssembler) (now_ms : Z) : bool :=
  match as_partial a with
  | Some partial =>
      TERMINAL_PEER_PACKET_STALL_MS <=? saturating_sub now_ms (pm_last_fragment_at_ms partial)
  | None => false
  end.

(** [expire]. *)
Definition expire (s : S) (a : TerminalPeerPacketAssembler) (now_ms : Z)
    : S * TerminalPeerPacketAssembler * bool :=
  match as_partial a with
  | None => (s, a, false)
  | Some _ => if negb (stalled a now_ms) then (s, a, false) else (close s a, true)
  end.

Definition Pushed : Type :=
  option (S * TerminalPeerPacketAssembler * result (option (list byte)) TerminalPeerPacketErrorCode).

(** [copy_single_packet]; [alloc] is [try_reserve_exact]'s answer. *)
Definition copy_single_packet (s : S) (a : TerminalPeerPacketAssembler)
    (packet : TerminalPeerPacket) (alloc : bool) : Pushed :=
  let total := total_bytes (header packet) in
  let '(s, granted) := reserve (as_quota a) total s in
  if negb granted then Some (s, a, Err Quota) else
  let s := release (as_quota a) total s in
  if negb alloc then Some (s, a, Err Allocation) else
  Some (s, with_last_id (message_id (header packet)) a, Ok (Some (payload packet))).

(** [allocate_logical]. *)
Definition allocate_logical (total : Z) (first_fragment : list byte) (alloc : bool)
    : option (result (list byte) TerminalPeerPacketErrorCode) :=
  if negb alloc then Some (Err Allocation) else
  bytes ← copy_into (replicate (Z.to_nat total) Corelib.Init.Byte.x00) 0 (len first_fragment) first_fragment;
  Some (Ok bytes).

(** [begin]. *)
Definition begin_message (s : S) (a : TerminalPeerPacketAssembler)
    (packet : TerminalPeerPacket) (now_ms : Z) (alloc : bool) : Pushed :=
  if last_completed_message_id a =? 2 ^ 32 - 1 then Some (s, a, Err MessageIdWrap)
  else if negb (message_id (header packet) =? last_completed_message_id a + 1)
  then Some (s, a, Err MessageId)
  else if negb (offset_bytes (header packet) =? 0) then Some (s, a, Err FragmentOrder)
  else
  let total := total_bytes (header packet) in
  if len (payload packet) =? total then copy_single_packet s a packet alloc else
  let '(s, granted) := reserve (as_quota a) total s in
  if negb granted then Some (s, a, Err Quota) else
  allocated ← allocate_logical total (payload packet) alloc;
  match allocated with
  | Err e => Some (release (as_quota a) total s, a, Err e)
  | Ok bytes =>
      Some (s, with_partial (Some (mkPartial (message_id (header packet)) total bytes
                                     (len (payload packet)) now_ms)) a, Ok None)
  end.

(** [complete_partial]. *)
Definition complete_partial (s : S) (a : TerminalPeerPacketAssembler)
    : S * TerminalPeerPacketAssembler * result (list byte) TerminalPeerPacketErrorCode :=
  match as_partial a with
  | None => (s, a, Err FragmentOrder)
  | Some partial =>
      (release (as_quota a) (pm_total_bytes partial) s,
       with_last_id (pm_message_id partial) (with_partial None a), Ok (pm_bytes partial))
  end.

(** The part of [accept] after the packet is parsed and a partial is held. *)
Definition continue_message (s : S) (a : TerminalPeerPacketAssembler) (partial : PartialMessage)
    (parsed : TerminalPeerPacket) (now_ms : Z) : Pushed :=
  if negb (message_id (header parsed) =? pm_message_id partial)
     || negb (total_bytes (header parsed) =? pm_total_bytes partial)
     || negb (offset_bytes (header parsed) =? pm_next_offset partial)
  then Some (s, a, Err FragmentOrder)
  else
  let finish := pm_next_offset partial + len (payload parsed) in
  bytes ← copy_into (pm_bytes partial) (pm_next_offset partial) finish (payload parsed);
  let a := with_partial (Some (mkPartial (pm_message_id partial) (pm_total_bytes partial)
                                 bytes finish now_ms)) a in
  if negb (finish =? pm_total_bytes partial) then Some (s, a, Ok None) else
  let '(s, a, completed) := complete_partial s a in
  Some (s, a, let? message := completed in Ok (Some message)).

(** [accept]. *)
Definition accept (s : S) (a : TerminalPeerPacketAssembler) (packet : list byte)
    (now_ms : Z) (alloc : bool) : Pushed :=
  if stalled a now_ms then Some (s, a, Err FragmentStalled) else
  parsed ← parse_terminal_peer_packet (as_lane a) packet;
  match parsed with
  | Err e => Some (s, a, Err e)
  | Ok parsed =>
      match as_partial a with
      | None => begin_message s a parsed now_ms alloc
      | Some partial => continue_message s a partial parsed now_ms
      end
  end.

(** [push]. *)
Definition push (s : S) (a : TerminalPeerPacketAssembler) (packet : list byte)
    (now_ms : Z) (alloc : bool) : Pushed :=
  if as_closed a then Some (s, a, Err Closed) else
  accepted ← accept s a packet now_ms alloc;
  match accepted with
  | (s, a, Ok message) => Some (s, a, Ok message)
  | (s, a, Err error) => Some (close s a, Err error)
  end.
End Assembler.
Arguments TerminalPeerPacketAssembler : clear implicits.
Arguments Pushed : clear implicits.

(** ** The queue *)

Record QueuedMessage := mkQueued {
  qm_message_id : Z;
  qm_bytes : list byte;
  qm_offset_bytes : Z;
}.

Record PendingFragment := mkPending {
  pf_message_id : Z;
  pf_payload_bytes : Z;
  pf_final_fragment : bool;
}.

Record TerminalPeerPacketQueueFragment := mkFragment {
  fr_lane : TerminalPeerPacketLane;
  fr_message_id : Z;
  fr_final_fragment : bool;
}.

Section Queue.
Context {Q S : Type} `{!PacketQuota Q S}.

Record TerminalPeerPacketQueue := mkQueue {
  q_lane : TerminalPeerPacketLane;
  q_quota : Q;
  q_messages : list QueuedMessage;
  q_pending : option PendingFragment;
  q_pending_bytes : list byte;
  q_next_message_id : Z;
  q_retained_bytes : Z;
  q_closed : bool;
}.

(** [TerminalPeerPacketQueue::new]. *)
Definition queue_new (lane : TerminalPeerPacketLane) (quota : Q) : TerminalPeerPacketQueue :=
  mkQueue lane quota [] None [] 1 0 false.

(** [queued_bytes], [message_count]. *)
Definition queued_bytes (q : TerminalPeerPacketQueue) : Z := q_retained_bytes q.
Definition message_count (q : TerminalPeerPacketQueue) : Z := len (q_messages q).

(** [enqueue]; [grow] is [try_reserve]'s answer. *)
Definition enqueue (s : S) (q : TerminalPeerPacketQueue) (bytes : list byte) (grow : bool)
    : S * TerminalPeerPacketQueue * result bool TerminalPeerPacketErrorCode :=
  if q_closed q then (s, q, Err Closed) else
  let length := len bytes in
  if (length <? 1) || (for_lane (q_lane q) <? length) then (s, q, Err MessageSize) else
  if q_next_message_id q =? 0 then (s, q, Err MessageIdWrap) else
  let '(s, granted) := reserve (q_quota q) length s in
  if negb granted then (s, q, Ok false) else
  if negb grow then (release (q_quota q) length s, q, Err Allocation) else
  let id := q_next_message_id q in
  (s, mkQueue (q_lane q) (q_quota q) (q_messages q ++ [mkQueued id bytes 0])
        (q_pending q) (q_pending_bytes q)
        (if id =? 2 ^ 32 - 1 then 0 else id + 1)
        (q_retained_bytes q + length) (q_closed q), Ok true).

(** [encode_next_fragment]; [None] is the underflow of [total_bytes - start] or
    a slice out of range. *)
Definition encode_next_fragment (q : TerminalPeerPacketQueue)
    : option (result (option (PendingFragment * list byte)) TerminalPeerPacketErrorCode) :=
  match q_messages q with
  | [] => Some (Ok None)
  | message :: _ =>
      let start := qm_offset_bytes message in
      let total := len (qm_bytes message) in
      if total <? start then None else
      let payload_bytes := Z.min TERMINAL_PEER_PACKET_MAX_PAYLOAD_BYTES (total - start) in
      let header := mkHeader (qm_message_id message) (u32 total) (qm_offset_bytes message) in
      payload ← slice_get (qm_bytes message) (Z.to_nat start) (Z.to_nat (start + payload_bytes));
      Some (let? bytes := encode_terminal_peer_packet (q_lane q) header payload in
            Ok (Some (mkPending (qm_message_id message) payload_bytes
                        (start + payload_bytes =? total), bytes)))
  end.

(** [clear]. *)
Definition clear (s : S) (q : TerminalPeerPacketQueue) : S * TerminalPeerPacketQueue :=
  (fold_left (fun s message => release (q_quota q) (len (qm_bytes message)) s) (q_messages q) s,
   mkQueue (q_lane q) (q_quota q) [] None [] (q_next_message_id q) 0 true).

(** [reset] of the queue. *)
Definition queue_reset (s : S) (q : TerminalPeerPacketQueue) : S * TerminalPeerPacketQueue :=
  let '(s, q) := clear s q in
  (s, mkQueue (q_lane q) (q_quota q) (q_messages q) (q_pending q) (q_pending_bytes q)
        1 (q_retained_bytes q) false).

(** The fragment handed out for what is pending. *)
Definition fragment_of (q : TerminalPeerPacketQueue) : option TerminalPeerPacketQueueFragment :=
  (fun pending => mkFragment (q_lane q) (pf_message_id pending) (pf_final_fragment pending))
  <$> q_pending q.

(** [next_fragment]. *)
Definition next_fragment (s : S) (q : TerminalPeerPacketQueue)
    : option (S * TerminalPeerPacketQueue *
              result (option TerminalPeerPacketQueueFragment) TerminalPeerPacketErrorCode) :=
  match q_pending q with
  | Some _ => Some (s, q, Ok (fragment_of q))
  | None =>
      encoded ← encode_next_fragment q;
      match encoded with
      | Ok (Some (pending, bytes)) =>
          let q := mkQueue (q_lane q) (q_quota q) (q_messages q) (Some pending) bytes
                     (q_next_message_id q) (q_retained_bytes q) (q_closed q) in
          Some (s, q, Ok (fragment_of q))
      | Ok None => Some (s, q, Ok None)
      | Err error => Some (clear s q, Err error)
      end
  end.

(** [TerminalPeerPacketQueueFragment::bytes]: the queue keeps them. *)
Definition fragment_bytes (q : TerminalPeerPacketQueue) : list byte := q_pending_bytes q.

(** [TerminalPeerPacketQueueFragment::commit]; [None] is the overflow of the
    offset or the underflow of the retained count. *)
Definition commit (s : S) (q : TerminalPeerPacketQueue) : option (S * TerminalPeerPacketQueue) :=
  match q_pending q with
  | None => Some (s, q)
  | Some pending =>
      let left messages retained :=
        mkQueue (q_lane q) (q_quota q) messages None (q_pending_bytes q)
          (q_next_message_id q) retained (q_closed q) in
      match q_messages q with
      | [] => Some (s, left [] (q_retained_bytes q))
      | message :: rest =>
          let offset := qm_offset_bytes message + u32 (pf_payload_bytes pending) in
          if 2 ^ 32 <=? offset then None else
          let total := len (qm_bytes message) in
          if negb (offset =? total)
          then Some (s, left (mkQueued (qm_message_id message) (qm_bytes message) offset :: rest)
                          (q_retained_bytes q))
          else if q_retained_bytes q <? total then None
          else Some (release (q_quota q) total s, left rest (q_retained_bytes q - total))
      end
  end.
End Queue.
Arguments TerminalPeerPacketQueue : clear implicits.

(** ** The framing *)

Definition frame (id total offset : Z) (payload : list byte) : list byte :=
  words [TERMINAL_PEER_PACKET_MAGIC; id; total; offset] payload.

Notation MAX := TERMINAL_PEER_PACKET_MAX_PAYLOAD_BYTES.

(** The limits as numbers. *)
Ltac numbers :=
  change MAX with 16368 in *; change TERMINAL_PEER_PACKET_MAX_BYTES with 16384 in *;
  change TERMINAL_PEER_PACKET_HEADER_BYTES with 16 in *;
  change TERMINAL_PEER_PACKET_STALL_MS with 10000 in *.

(** A header and the payload it may carry. *)
Definition fields_ok (lane : TerminalPeerPacketLane) (h : TerminalPeerPacketHeader) (n : Z) : Prop :=
  1 <= message_id h /\ 0 <= offset_bytes h < total_bytes h /\ total_bytes h <= for_lane lane /\
  1 <= n <= MAX /\ offset_bytes h + n <= total_bytes h.

Lemma for_lane_bound lane : 128 * 1024 <= for_lane lane <= 64 * 1024 * 1024.
Proof. destruct lane; cbn; lia. Qed.

Lemma assert_packet_fields_ok lane h n :
  0 <= offset_bytes h ->
  assert_packet_fields lane h n = Ok tt <-> fields_ok lane h n.
Proof.
  intros H0. unfold assert_packet_fields, fields_ok.
  destruct (Z.ltb_spec (message_id h) 1); [split; [done|lia]|].
  destruct (Z.ltb_spec (total_bytes h) 1); [split; [done|lia]|].
  destruct (Z.ltb_spec (for_lane lane) (total_bytes h)); [split; [done|lia]|]. cbn [orb].
  destruct (Z.leb_spec (total_bytes h) (offset_bytes h)); [split; [done|lia]|].
  destruct (Z.leb_spec 1 n), (Z.leb_spec n MAX); cbn [andb negb orb]; try (split; [done|lia]).
  destruct (Z.ltb_spec (total_bytes h) (offset_bytes h + n)); split; try done; lia.
Qed.

Lemma encode_ok lane h body :
  fields_ok lane h (len body) ->
  encode_terminal_peer_packet lane h body =
  Ok (frame (message_id h) (total_bytes h) (offset_bytes h) body).
Proof.
  intros H. unfold encode_terminal_peer_packet.
  rewrite (proj2 (assert_packet_fields_ok lane h (len body) ltac:(destruct H; lia)) H).
  unfold frame, words. cbn [fmap list_fmap concat]. by rewrite <- !app_assoc.
Qed.

Lemma len_frame id total offset body : len (frame id total offset body) = 16 + len body.
Proof. apply len_words. Qed.

(** What the parser makes of four words and a body. *)
Lemma parse_words lane magic id total offset body :
  Forall (fits 32) [magic; id; total; offset] ->
  parse_terminal_peer_packet lane (words [magic; id; total; offset] body) =
  Some (if negb ((1 <=? len body) && (len body <=? MAX)) then Err PacketSize
        else if negb (magic =? TERMINAL_PEER_PACKET_MAGIC) then Err PacketMagic
        else let? _ := assert_packet_fields lane (mkHeader id total offset) (len body) in
             Ok (mkPacket (mkHeader id total offset) body)).
Proof.
  intros Hf. rewrite !Forall_cons in Hf. destruct Hf as (Hmagic & Hid & Htotal & Hoff & _).
  unfold parse_terminal_peer_packet. set (ws := [_; _; _; _]).
  rewrite len_words. change (4 * len ws) with 16.
  replace (TERMINAL_PEER_PACKET_HEADER_BYTES + 1 <=? 16 + len body) with (1 <=? len body)
    by (numbers; destruct (Z.leb_spec 1 (len body)), (Z.leb_spec (16 + 1) (16 + len body)); lia).
  replace (16 + len body <=? TERMINAL_PEER_PACKET_MAX_BYTES) with (len body <=? MAX)
    by (numbers; destruct (Z.leb_spec (len body) 16368), (Z.leb_spec (16 + len body) 16384); lia).
  destruct (negb _); [done|].
  assert (forall n i w, n = (4 * i)%nat -> ws !! i = Some w -> fits 32 w ->
            read_u32 (words ws body) n = Some w) as Hr
    by (intros n i w ->; apply read_word_words).
  rewrite (Hr 0%nat 0%nat magic) by done. cbn [mbind option_bind]. destruct (negb _); [done|].
  rewrite (Hr 4%nat 1%nat id), (Hr 8%nat 2%nat total), (Hr 12%nat 3%nat offset) by done.
  cbn [mbind option_bind].
  change (Z.to_nat TERMINAL_PEER_PACKET_HEADER_BYTES) with (4 * length ws)%nat.
  by rewrite (words_body ws body).
Qed.

Lemma magic_fits : fits 32 TERMINAL_PEER_PACKET_MAGIC.
Proof. cbv. split; congruence. Qed.

(** Every field of a packet is read back. *)
Lemma parse_frame lane h body :
  fields_ok lane h (len body) -> fits 32 (message_id h) ->
  parse_terminal_peer_packet lane (frame (message_id h) (total_bytes h) (offset_bytes h) body) =
  Some (Ok (mkPacket h body)).
Proof.
  intros Hok Hid. pose proof (for_lane_bound lane). unfold frame. rewrite parse_words.
  - pose proof Hok as (? & ? & ? & ? & ?).
    rewrite !(proj2 (Z.leb_le _ _)), Z.eqb_refl by lia. cbn [andb negb].
    destruct h as [id total offset]. cbn [message_id total_bytes offset_bytes] in *.
    by rewrite (proj2 (assert_packet_fields_ok lane (mkHeader id total offset) (len body)
                         ltac:(cbn; lia)) Hok).
  - destruct Hok as (? & ? & ? & ? & ?).
    rewrite !Forall_cons. split_and!; [apply magic_fits|done|unfold fits; lia..|done].
Qed.

(** What a packet must be to be taken, and what becomes of any other. *)
Lemma parse_any lane packet :
  exists r, parse_terminal_peer_packet lane packet = Some r /\
    match r with
    | Ok p => fields_ok lane (header p) (len (payload p)) /\ fits 32 (message_id (header p)) /\
        packet = frame (message_id (header p)) (total_bytes (header p)) (offset_bytes (header p)) (payload p)
    | Err e => e ∈ [PacketSize; PacketMagic; MessageId; MessageSize; PacketHeader]
    end.
Proof.
  destruct (decide (16 <= length packet)%nat) as [Hlong|Hshort].
  - destruct (words_of_bytes 4 packet) as (ws & Hws & Hf & Heq); [lia|].
    destruct ws as [|magic [|id [|total [|offset [|]]]]]; try done.
    set (body := drop (4 * 4) packet) in *.
    rewrite Heq, parse_words by done. eexists. split; [done|].
    rewrite !Forall_cons in Hf. destruct Hf as (Hmagic & Hid & Htotal & Hoff & _).
    destruct (negb _); [set_solver|].
    destruct (Z.eqb_spec magic TERMINAL_PEER_PACKET_MAGIC) as [->|]; [cbn [negb]|set_solver].
    destruct (assert_packet_fields lane (mkHeader id total offset) (len body)) as [[]|e] eqn:Ha.
    + apply assert_packet_fields_ok in Ha; [by split|cbn; unfold fits in Hoff; lia].
    + unfold assert_packet_fields in Ha. repeat (case_if; [simplify_eq; set_solver|]). done.
  - exists (Err PacketSize). split; [|set_solver].
    unfold parse_terminal_peer_packet. unfold len. numbers.
    rewrite (proj2 (Z.leb_gt _ _)); [done|lia].
Qed.

(** ** The assembler on the packets of its peer *)

Section AssemblerLaws.
Context {Q S : Type} `{PL : PacketQuotaLaws Q S}.
Context (lane : TerminalPeerPacketLane) (quota : Q).
Implicit Types (s : S) (a : TerminalPeerPacketAssembler Q) (st : S * TerminalPeerPacketAssembler Q).

Definition peer_push st (packet : list byte) (now_ms : Z) (alloc : bool) :=
  push st.1 st.2 packet now_ms alloc.

#[export] Instance peer_receiver :
    Receiver (S * TerminalPeerPacketAssembler Q) TerminalPeerPacketErrorCode :=
  mkReceiver _ _ peer_push.

(** The quota has room for any one message of the lane. *)
Definition peer_room : Prop :=
  forall s n, quota_ok s -> held quota s = 0 -> 0 < n <= for_lane lane -> (reserve quota n s).2 = true.

(** The partial message, if any, is the first [offset] bytes of [message]. *)
Definition partial_is (p : option PartialMessage) (id : Z) (message : list byte) (offset since : Z) : Prop :=
  match p with
  | None => offset = 0
  | Some p => 0 < offset /\ exists rest, len message = offset + len rest /\
      p = mkPartial id (len message) (take (Z.to_nat offset) message ++ rest) offset since
  end.

Definition peer_expects st (id : Z) (message : list byte) (offset since : Z) : Prop :=
  let '(s, a) := st in
  as_lane a = lane /\ as_quota a = quota /\ as_closed a = false /\
  last_completed_message_id a = id - 1 /\ quota_ok s /\
  held quota s = (if as_partial a then len message else 0) /\
  partial_is (as_partial a) id message offset since.

Definition peer_dead st : Prop := as_closed st.2 = true.

Lemma close_closed s a : as_closed (close s a).2 = true.
Proof. unfold close, release_partial. cbn. by destruct (as_partial a). Qed.

Lemma payload_start message : payload_at MAX message 0 = take (Z.to_nat MAX) message.
Proof. unfold payload_at. by rewrite drop_0. Qed.

Lemma begin_genuine s a id message now alloc :
  peer_expects (s, a) id message 0 now -> as_partial a = None ->
  1 <= id < 2 ^ 32 -> 0 < len message <= for_lane lane ->
  let body := payload_at MAX message 0 in
  exists s' a' r,
    begin_message s a (mkPacket (mkHeader id (len message) 0) body) now alloc = Some (s', a', r) /\
    ((len body < len message /\ r = Ok None /\ peer_expects (s', a') id message (len body) now) \/
     (len body = len message /\ r = Ok (Some message) /\
      forall next, peer_expects (s', a') (id + 1) next 0 now) \/
     ((exists e, r = Err e) /\ (alloc = false \/ ~ peer_room))).
Proof.
  intros (Hl & Hq & Hc & Hlast & Hok & Hheld & _) Hnone Hid Hm body.
  pose proof (len_payload_at MAX ltac:(by cbv) message 0 ltac:(lia)) as Hb. fold body in Hb.
  change (Z.min MAX) with (Z.min 16368) in Hb.
  assert (Hbody : body = take (Z.to_nat MAX) message) by apply payload_start.
  rewrite Hnone in Hheld. unfold begin_message. cbn [header payload message_id total_bytes offset_bytes].
  rewrite (proj2 (Z.eqb_neq _ _)) by lia.
  rewrite Hlast, (proj2 (Z.eqb_eq id _)) by lia. cbn [negb Z.eqb].
  destruct (Z.eqb_spec (len body) (len message)) as [Heq|Hne].
  - unfold copy_single_packet. cbn [header payload message_id total_bytes]. rewrite Hq.
    destruct (reserve quota (len message) s) as [s' granted] eqn:Hres.
    destruct (reserve_law quota (len message) s _ _ Hok ltac:(lia) Hres) as [Hok' Hheld'].
    destruct granted; cbn [negb].
    + destruct (release_law quota (len message) s' Hok' ltac:(lia)) as [Hok'' Hheld''].
      destruct alloc; cbn [negb].
      * assert (body = message) as ->.
        { rewrite Hbody. apply take_ge. unfold len in *. rewrite Hbody, length_take in Heq. lia. }
        do 3 eexists. split; [done|]. right. left. split; [done|]. split; [done|]. intros next.
        unfold peer_expects. cbn. rewrite Hnone. repeat split; try done; lia.
      * do 3 eexists. split; [done|]. right. right. split; [by eexists|auto].
    + do 3 eexists. split; [done|]. right. right. split; [by eexists|]. right. intros Hroom.
      specialize (Hroom s (len message) Hok Hheld ltac:(lia)). by rewrite Hres in Hroom.
  - rewrite Hq. destruct (reserve quota (len message) s) as [s' granted] eqn:Hres.
    destruct (reserve_law quota (len message) s _ _ Hok ltac:(lia) Hres) as [Hok' Hheld'].
    destruct granted; cbn [negb].
    + unfold allocate_logical. destruct alloc; cbn [negb mbind option_bind].
      * set (zeros := replicate (Z.to_nat (len message)) Corelib.Init.Byte.x00).
        assert (len zeros = len message) as Hz by (unfold zeros, len; rewrite length_replicate; lia).
        replace (len body) with (0 + len body) by lia.
        rewrite copy_into_at by lia. cbn [mbind option_bind]. rewrite take_0, Z.add_0_l.
        do 3 eexists. split; [done|]. left. split; [lia|]. split; [done|].
        unfold peer_expects. cbn. repeat split; try done; [lia|lia|].
        exists (drop (Z.to_nat (len body)) zeros). split; [rewrite len_drop; lia|].
        do 2 f_equal. rewrite Hbody at 1. f_equal. numbers. lia.
      * do 3 eexists. split; [done|]. right. right. split; [by eexists|auto].
    + do 3 eexists. split; [done|]. right. right. split; [by eexists|]. right. intros Hroom.
      specialize (Hroom s (len message) Hok Hheld ltac:(lia)). by rewrite Hres in Hroom.
Qed.

Lemma continue_genuine s a p id message offset since now :
  peer_expects (s, a) id message offset since -> as_partial a = Some p ->
  0 <= offset < len message ->
  let body := payload_at MAX message offset in
  exists s' a' r,
    continue_message s a p (mkPacket (mkHeader id (len message) offset) body) now = Some (s', a', r) /\
    ((offset + len body < len message /\ r = Ok None /\
      peer_expects (s', a') id message (offset + len body) now) \/
     (offset + len body = len message /\ r = Ok (Some message) /\
      forall next, peer_expects (s', a') (id + 1) next 0 now)).
Proof.
  intros (Hl & Hq & Hc & Hlast & Hok & Hheld & Hpart) Hsome Hoff body.
  rewrite Hsome in Hheld, Hpart. destruct Hpart as (Hpos & rest & Hrest & ->).
  pose proof (len_payload_at MAX ltac:(by cbv) message offset ltac:(lia)) as Hb. fold body in Hb.
  change (Z.min MAX) with (Z.min 16368) in Hb.
  unfold continue_message.
  cbn [header payload message_id total_bytes offset_bytes pm_message_id pm_total_bytes pm_next_offset pm_bytes].
  rewrite !Z.eqb_refl. cbn [negb orb].
  assert (len (take (Z.to_nat offset) message ++ rest) = len message) as Hlen
    by (rewrite len_app, len_take; lia).
  rewrite copy_into_at by lia. cbn [mbind option_bind].
  rewrite take_app_le by (unfold len in *; rewrite length_take; lia). rewrite take_take, Nat.min_id.
  set (tail := drop _ (_ ++ rest)).
  pose proof (payload_taken MAX ltac:(by cbv) message offset ltac:(lia)) as Htake. fold body in Htake.
  rewrite app_assoc, Htake.
  assert (len tail = len message - (offset + len body)) as Htail.
  { unfold tail. rewrite len_drop; lia. }
  destruct (Z.eqb_spec (offset + len body) (len message)) as [Heq|Hne]; cbn [negb].
  - unfold complete_partial. cbn [as_partial with_partial as_quota pm_total_bytes]. rewrite Hq.
    destruct (release_law quota (len message) s Hok ltac:(lia)) as [Hok' Hheld'].
    rewrite Heq in *. assert (tail = []) as -> by (apply len_zero_nil; lia).
    do 3 eexists. split; [done|]. right. split; [done|]. split.
    + do 3 f_equal. rewrite app_nil_r. apply take_ge. unfold len. lia.
    + intros next. unfold peer_expects. cbn. repeat split; try done; lia.
  - do 3 eexists. split; [done|]. left. split; [lia|]. split; [done|].
    unfold peer_expects. cbn. repeat split; try done; [lia|].
    exists tail. split; [lia|done].
Qed.

Lemma peer_push_law st id message offset since now alloc :
  peer_expects st id message offset since ->
  1 <= id < 2 ^ 32 -> 0 <= offset < len message -> len message <= for_lane lane ->
  let body := payload_at MAX message offset in
  exists st' r, peer_push st (frame id (len message) offset body) now alloc = Some (st', r) /\
    ((offset + len body < len message /\ r = Ok None /\
      peer_expects st' id message (offset + len body) now) \/
     (offset + len body = len message /\ r = Ok (Some message) /\
      forall next, peer_expects st' (id + 1) next 0 now) \/
     ((exists e, r = Err e) /\ peer_dead st' /\
      (alloc = false \/ TERMINAL_PEER_PACKET_STALL_MS <= now - since \/ ~ peer_room))).
Proof.
  destruct st as [s a]. intros Hexp Hid Hoff Hcap body.
  pose proof Hexp as (Hl & Hq & Hc & Hlast & Hok & Hheld & Hpart).
  pose proof (len_payload_at MAX ltac:(by cbv) message offset ltac:(lia)) as Hb. fold body in Hb.
  unfold peer_push, push. cbn [fst snd]. rewrite Hc. unfold accept.
  destruct (stalled a now) eqn:Hst.
  - cbn [mbind option_bind]. do 2 eexists. split; [done|]. right. right.
    split; [by eexists|]. split; [apply close_closed|]. right. left.
    unfold stalled in Hst. destruct (as_partial a) as [p|]; [|done].
    destruct Hpart as (_ & rest & _ & ->). cbn in Hst. apply Z.leb_le in Hst.
    unfold saturating_sub in Hst. numbers. lia.
  - rewrite Hl. pose proof (parse_frame lane (mkHeader id (len message) offset) body) as Hparse.
    cbn [message_id total_bytes offset_bytes] in Hparse.
    rewrite Hparse; [|unfold fields_ok; cbn; numbers; lia|unfold fits; lia].
    cbn [mbind option_bind].
    destruct (as_partial a) as [p|] eqn:Hp.
    + destruct (continue_genuine s a p id message offset since now Hexp Hp Hoff)
        as (s' & a' & r & Hrun & Hcases). fold body in Hrun, Hcases. rewrite Hrun. cbn [mbind option_bind].
      destruct Hcases as [(? & -> & ?)|(? & -> & ?)]; do 2 eexists; (split; [done|]); auto.
    + cbn in Hpart. subst offset.
      destruct (begin_genuine s a id message now alloc) as (s' & a' & r & Hrun & Hcases);
        [by unfold peer_expects; rewrite Hp|done..|lia|].
      fold body in Hrun, Hcases. rewrite Hrun. cbn [mbind option_bind]. rewrite !Z.add_0_l in *.
      destruct Hcases as [(? & -> & ?)|[(? & -> & ?)|([e ->] & Hwhy)]]; do 2 eexists; (split; [done|]); auto.
      right. right. split; [by eexists|]. split; [apply close_closed|]. tauto.
Qed.

#[export, program] Instance peer_receiver_laws :
    ReceiverLaws (S * TerminalPeerPacketAssembler Q) TerminalPeerPacketErrorCode
      frame MAX (for_lane lane) TERMINAL_PEER_PACKET_STALL_MS := {|
  expects := peer_expects;
  dead := peer_dead;
  room := peer_room;
|}.
Next Obligation. intros. by apply peer_push_law. Qed.
Next Obligation.
  intros [s a] packet now alloc Hd. exists Closed. cbn [rc_push peer_receiver].
  unfold peer_push, push. cbn [fst snd]. unfold peer_dead in Hd. cbn in Hd. by rewrite Hd.
Qed.
End AssemblerLaws.

(** ** The queue in front of it *)

Notation total_queued := (queued_total qm_bytes).

Section QueueLaws.
Context {Q S : Type} `{!PacketQuota Q S} (lane : TerminalPeerPacketLane).
Implicit Types (s : S) (q : TerminalPeerPacketQueue Q) (st : S * TerminalPeerPacketQueue Q).

Notation owes_packets := (owed qm_message_id qm_bytes qm_offset_bytes frame MAX).
Notation numbered_from := (numbered qm_message_id qm_bytes qm_offset_bytes (for_lane lane)).

Record queue_ok q (n : Z) : Prop := {
  qk_lane : q_lane q = lane;
  qk_open : q_closed q = false;
  qk_count : len (q_messages q) <= n < 2 ^ 32;
  qk_next : q_next_message_id q = (if n =? 2 ^ 32 - 1 then 0 else n + 1);
  qk_messages : numbered_from (n - len (q_messages q) + 1) (q_messages q);
  qk_retained : q_retained_bytes q = total_queued (q_messages q);
  qk_pending : forall p, q_pending q = Some p ->
    encode_next_fragment q = Some (Ok (Some (p, q_pending_bytes q)));
}.

(** The packet of the first message's next bytes. *)
Lemma encode_next_ok q m ms :
  q_lane q = lane -> q_messages q = m :: ms ->
  1 <= qm_message_id m -> 1 <= len (qm_bytes m) <= for_lane lane ->
  0 <= qm_offset_bytes m < len (qm_bytes m) ->
  let body := payload_at MAX (qm_bytes m) (qm_offset_bytes m) in
  encode_next_fragment q =
  Some (Ok (Some (mkPending (qm_message_id m) (len body)
                    (qm_offset_bytes m + len body =? len (qm_bytes m)),
                  frame (qm_message_id m) (len (qm_bytes m)) (qm_offset_bytes m) body))).
Proof.
  intros Hl Hms Hid Hlen Hoff body. pose proof (for_lane_bound lane).
  pose proof (len_payload_at MAX ltac:(by cbv) (qm_bytes m) (qm_offset_bytes m) ltac:(lia)) as Hb.
  fold body in Hb. unfold encode_next_fragment. rewrite Hms, Hl.
  rewrite (proj2 (Z.ltb_ge _ _)) by lia. rewrite <- Hb.
  rewrite slice_get_range by (pose proof (len_nonneg body); change (Z.min MAX) with (Z.min 16368) in Hb; lia).
  assert (take (Z.to_nat (qm_offset_bytes m + len body - qm_offset_bytes m))
            (drop (Z.to_nat (qm_offset_bytes m)) (qm_bytes m)) = body) as ->.
  { rewrite Z.add_simpl_l, Hb. unfold body, payload_at.
    destruct (Z.min_spec MAX (len (qm_bytes m) - qm_offset_bytes m)) as [[? ->]|[Hm ->]]; [done|].
    rewrite !take_ge; [done| |]; unfold len in *; rewrite length_drop; numbers; lia. }
  cbn [mbind option_bind]. change (Z.min MAX) with (Z.min 16368) in Hb.
  rewrite (wrap_small 32) by (unfold fits; lia).
  by rewrite encode_ok by (unfold fields_ok; cbn; numbers; lia).
Qed.

Definition peer_owes st (n : Z) (ps : list (list byte)) : Prop :=
  queue_ok st.2 n /\ ps = owes_packets (q_messages st.2).

(** Cleared: closed, and holding nothing. *)
Definition peer_shut st : Prop :=
  q_closed st.2 = true /\ q_messages st.2 = [] /\ q_pending st.2 = None /\ q_lane st.2 = lane.

Definition peer_offer st (m : list byte) (grow : bool) := enqueue st.1 st.2 m grow.

Definition peer_next st (alloc : bool)
    : option (S * TerminalPeerPacketQueue Q * result (option (list byte)) TerminalPeerPacketErrorCode) :=
  '(st, r) ← next_fragment st.1 st.2;
  Some (st, match r with
            | Ok (Some _) => Ok (Some (fragment_bytes st.2))
            | Ok None => Ok None
            | Err e => Err e
            end).

Definition peer_drained st : bool := negb (q_closed st.2) && (len (q_messages st.2) =? 0).

#[export] Instance peer_sender : Sender (S * TerminalPeerPacketQueue Q) TerminalPeerPacketErrorCode := {|
  sd_offer := peer_offer;
  sd_next := peer_next;
  sd_commit st := commit st.1 st.2;
  sd_clear st := clear st.1 st.2;
  sd_reset st := queue_reset st.1 st.2;
  sd_closed st := q_closed st.2;
  sd_drained := peer_drained;
|}.

Lemma peer_offer_law st n ps m grow st' r :
  peer_owes st n ps -> peer_offer st m grow = (st', r) ->
  (r = Ok true /\ 1 <= len m <= for_lane lane /\ n + 1 < 2 ^ 32 /\
   peer_owes st' (n + 1) (ps ++ packets frame MAX (n + 1) m)) \/
  (r <> Ok true /\ peer_owes st' n ps).
Proof.
  destruct st as [s q]. unfold peer_owes, peer_offer, enqueue. cbn [fst snd].
  intros [Hqk ->]. pose proof Hqk as [Hl Ho Hc Hn Hm Hr Hp]. rewrite Ho, Hl, Hn.
  destruct (_ || _) eqn:Hsize; [intros ?; simplify_eq; by right|]. bool_to_prop.
  destruct (Z.eqb_spec n (2 ^ 32 - 1)) as [->|Hwrap];
    [rewrite Z.eqb_refl; intros ?; simplify_eq; by right|].
  rewrite (proj2 (Z.eqb_neq (n + 1) 0)) by (pose proof (len_nonneg (q_messages q)); lia).
  destruct (reserve _ _ s) as [s' []]; cbn [negb]; [|intros ?; simplify_eq; by right].
  destruct grow; cbn [negb]; intros ?; simplify_eq; [left|by right].
  split; [done|]. split; [lia|]. split; [lia|]. cbn [snd q_messages]. split.
  - constructor; cbn; try done.
    + rewrite len_app, len_cons, len_nil. lia.
    + rewrite len_app, len_cons, len_nil.
      replace (n + 1 - (len (q_messages q) + (1 + 0)) + 1) with (n - len (q_messages q) + 1) by lia.
      replace (n + 1) with (n - len (q_messages q) + 1 + len (q_messages q)) by lia.
      apply numbered_snoc; [done|done|done|cbn; lia].
    + rewrite queued_total_app, queued_total_cons, Hr. change (total_queued []) with 0. cbn. lia.
    + intros p Hpend. specialize (Hp p Hpend). unfold encode_next_fragment in Hp |- *. cbn.
      rewrite Hl in Hp. destruct (q_messages q); [done|exact Hp].
  - rewrite owed_app. cbn [owed qm_message_id qm_bytes qm_offset_bytes]. by rewrite app_nil_r.
Qed.

(** What is pending is the first message's next packet. *)
Lemma pending_first q n m ms :
  queue_ok q n -> q_messages q = m :: ms ->
  let body := payload_at MAX (qm_bytes m) (qm_offset_bytes m) in
  encode_next_fragment q =
  Some (Ok (Some (mkPending (qm_message_id m) (len body)
                    (qm_offset_bytes m + len body =? len (qm_bytes m)),
                  frame (qm_message_id m) (len (qm_bytes m)) (qm_offset_bytes m) body))).
Proof.
  intros [Hl Ho Hc Hn Hm Hr Hp] Hms. rewrite Hms, len_cons in Hm. cbn [numbered] in Hm.
  destruct Hm as (Hid & Hb & Hoff & _). rewrite Hms, len_cons in Hc.
  eapply encode_next_ok; try done. lia.
Qed.

Lemma next_empty s q n :
  queue_ok q n -> q_messages q = [] -> next_fragment s q = Some (s, q, Ok None) /\ q_pending q = None.
Proof.
  intros Hqk Hms. unfold next_fragment. destruct (q_pending q) as [p|] eqn:Hp.
  - pose proof (qk_pending _ _ Hqk p Hp) as He. unfold encode_next_fragment in He. by rewrite Hms in He.
  - unfold encode_next_fragment. by rewrite Hms.
Qed.

Lemma next_first s q n m ms :
  queue_ok q n -> q_messages q = m :: ms ->
  let body := payload_at MAX (qm_bytes m) (qm_offset_bytes m) in
  let p := mkPending (qm_message_id m) (len body) (qm_offset_bytes m + len body =? len (qm_bytes m)) in
  let q' := mkQueue (q_lane q) (q_quota q) (q_messages q) (Some p)
              (frame (qm_message_id m) (len (qm_bytes m)) (qm_offset_bytes m) body)
              (q_next_message_id q) (q_retained_bytes q) (q_closed q) in
  next_fragment s q = Some (s, q', Ok (fragment_of q')) /\ queue_ok q' n.
Proof.
  intros Hqk Hms body p q'. pose proof (pending_first q n m ms Hqk Hms) as He.
  fold body in He. fold p in He. split.
  - unfold next_fragment. destruct (q_pending q) as [p0|] eqn:Hp.
    + pose proof (qk_pending _ _ Hqk p0 Hp) as He'. rewrite He in He'. injection He' as Hp0 Hbytes.
      assert (q' = q) as -> by (unfold q', p; rewrite Hbytes, Hp0, <- Hp; by destruct q).
      done.
    + rewrite He. done.
  - destruct Hqk as [Hl Ho Hc Hn Hm Hr Hp]. constructor; try done.
    cbn. intros p1 ?. simplify_eq. exact He.
Qed.

Lemma peer_next_law st n ps alloc :
  peer_owes st n ps ->
  exists st', peer_next st alloc = Some (st', Ok (head ps)) /\ peer_owes st' n ps /\
    (is_Some (head ps) -> forall alloc', peer_next st' alloc' = Some (st', Ok (head ps))).
Proof.
  destruct st as [s q]. intros [Hqk ->]. cbn [snd] in *. unfold peer_next. cbn [fst snd].
  destruct (q_messages q) as [|m ms] eqn:Hms.
  - destruct (next_empty s q n Hqk Hms) as [-> _]. cbn [mbind option_bind].
    exists (s, q). split; [done|]. split; [by split; [|cbn; rewrite Hms]|]. by intros [? ?].
  - destruct (next_first s q n m ms Hqk Hms) as [-> Hqk'].
    cbn [mbind option_bind]. eexists. split.
    { cbn. rewrite packets_from_step; [done|by cbv|].
      pose proof (qk_messages _ _ Hqk) as Hm. rewrite Hms in Hm. cbn in Hm. tauto. }
    split; [split; [done|cbn; by rewrite Hms]|]. intros _ alloc'. cbn [fst snd].
    unfold next_fragment. cbn. rewrite packets_from_step; [done|by cbv|].
    pose proof (qk_messages _ _ Hqk) as Hm. rewrite Hms in Hm. cbn in Hm. tauto.
Qed.

Lemma peer_commit_ok s q n m ms :
  queue_ok q n -> q_messages q = m :: ms -> is_Some (q_pending q) ->
  let body := payload_at MAX (qm_bytes m) (qm_offset_bytes m) in
  exists s' q', commit s q = Some (s', q') /\ queue_ok q' n /\
    owes_packets (q_messages q') = tail (owes_packets (m :: ms)).
Proof.
  intros Hqk Hms [p Hp] body. pose proof (pending_first q n m ms Hqk Hms) as He. fold body in He.
  pose proof (qk_pending _ _ Hqk p Hp) as He'. rewrite He in He'. injection He' as <- _.
  pose proof Hqk as [Hl Ho Hc Hn Hm Hr _]. rewrite Hms in Hm. cbn [numbered] in Hm.
  rewrite Hms, len_cons in Hc. rewrite len_cons in Hm. destruct Hm as (Hid & Hb & Hoff & Hz & Hrest).
  pose proof (for_lane_bound lane). pose proof (queued_total_nonneg qm_bytes ms).
  pose proof (len_payload_at MAX ltac:(by cbv) (qm_bytes m) (qm_offset_bytes m) ltac:(lia)) as Hbody.
  fold body in Hbody. change (Z.min MAX) with (Z.min 16368) in Hbody.
  unfold commit. rewrite Hp, Hms. cbn [pf_payload_bytes].
  rewrite (wrap_small 32) by (unfold fits; lia). rewrite (proj2 (Z.leb_gt _ _)) by lia.
  cbn [owed]. rewrite packets_from_step by (done || by cbv). fold body. cbn [tail app].
  rewrite Hms in Hr. rewrite queued_total_cons in Hr.
  destruct (Z.eqb_spec (qm_offset_bytes m + len body) (len (qm_bytes m))) as [Heq|Hne]; cbn [negb].
  - rewrite (proj2 (Z.ltb_ge _ _)) by lia.
    do 2 eexists. split; [done|]. split.
    + constructor; cbn; try done; [lia| |lia].
      by replace (n - len ms + 1) with (n - (1 + len ms) + 1 + 1) by lia.
    + cbn. by rewrite (packets_from_done _ _ _ (qm_bytes m)) by lia.
  - do 2 eexists. split; [done|]. split; [|done].
    constructor; cbn; try done.
    + rewrite len_cons. lia.
    + rewrite len_cons. repeat split; try done; lia.
Qed.

Lemma peer_commit_law st n ps alloc st' p :
  peer_owes st n ps -> peer_next st alloc = Some (st', Ok (Some p)) ->
  exists st'', commit st'.1 st'.2 = Some st'' /\ peer_owes st'' n (tail ps).
Proof.
  destruct st as [s q]. intros [Hqk ->] Hnext. unfold peer_next in Hnext. cbn [fst snd] in *.
  destruct (q_messages q) as [|m ms] eqn:Hms.
  - destruct (next_empty s q n Hqk Hms) as [He _]. rewrite He in Hnext. by cbn in Hnext.
  - destruct (next_first s q n m ms Hqk Hms) as [He Hqk']. rewrite He in Hnext. cbn in Hnext.
    injection Hnext as <- <-. cbn [fst snd].
    destruct (peer_commit_ok s _ n m ms Hqk') as (s'' & q'' & Hc & Hok & Howed); [done|by eexists|].
    exists (s'', q''). split; [done|]. by split.
Qed.

#[export, program] Instance peer_sender_laws :
    SenderLaws (S * TerminalPeerPacketQueue Q) TerminalPeerPacketErrorCode frame MAX (for_lane lane) := {|
  owes := peer_owes;
  shut := peer_shut;
|}.
Next Obligation. intros. by eapply peer_offer_law. Qed.
Next Obligation.
  intros st n ps alloc Ho. destruct (peer_next_law st n ps alloc Ho) as (st' & ? & ? & ?).
  do 2 eexists. split; [done|]. by left.
Qed.
Next Obligation. intros st n ps alloc st' p. apply peer_commit_law. Qed.
Next Obligation.
  intros [s q] m grow st' r (Hc & Hsh). cbn. unfold peer_offer, enqueue. cbn in *. rewrite Hc.
  intros ?; simplify_eq. by split.
Qed.
Next Obligation.
  intros [s q] alloc (Hc & Hm & Hp & Hl). exists (s, q). cbn in *. unfold peer_next, next_fragment.
  cbn [fst snd]. rewrite Hp. unfold encode_next_fragment. rewrite Hm. by repeat split.
Qed.
Next Obligation.
  intros [s q] n ps [[Hqk _]|(_ & _ & _ & Hl)]; repeat split; cbn in *; by try apply Hqk.
Qed.
Next Obligation.
  intros [s q] n ps H. cbn. split; [|done].
  assert (q_lane q = lane) as Hl by (destruct H as [[Hqk _]|(_ & _ & _ & ?)]; [apply Hqk|done]).
  by constructor.
Qed.
Next Obligation.
  intros [s q] n ps [Hqk ->]. cbn [snd] in *. cbn. unfold peer_drained. cbn. rewrite (qk_open _ _ Hqk). cbn.
  rewrite Z.eqb_eq, len_zero_nil. destruct (q_messages q) as [|m ms] eqn:Hms; [done|].
  split; [done|]. cbn [owed]. pose proof (qk_messages _ _ Hqk) as Hm. rewrite Hms in Hm. cbn in Hm.
  rewrite packets_from_step; [done|by cbv|tauto].
Qed.
Next Obligation. intros [s q] n ps [Hqk _]. apply Hqk. Qed.
Next Obligation. intros [s q] (Hc & _). cbn in *. unfold peer_drained. cbn. by rewrite Hc. Qed.
End QueueLaws.

(** ** The assembler on any packets *)

Section AssemblerAny.
Context {Q S : Type} `{PL : PacketQuotaLaws Q S}.
Context (lane : TerminalPeerPacketLane) (quota : Q) (base : Z).
Implicit Types (s : S) (a : TerminalPeerPacketAssembler Q) (st : S * TerminalPeerPacketAssembler Q).

(** What the partial message is charged. *)
Definition charged (p : option PartialMessage) : Z :=
  match p with Some p => pm_total_bytes p | None => 0 end.

Definition part_of (p : option PartialMessage) (id : Z) (part : list byte) (total : Z) : Prop :=
  match p with
  | None => part = []
  | Some p => exists rest since,
      p = mkPartial id total (part ++ rest) (len part) since /\ len (part ++ rest) = total /\
      0 < len part < total /\ total <= for_lane lane /\ id < 2 ^ 32
  end.

Definition peer_took st (id : Z) (part : list byte) (total : Z) : Prop :=
  let '(s, a) := st in
  as_lane a = lane /\ as_quota a = quota /\ as_closed a = false /\
  last_completed_message_id a = id /\ 0 <= id < 2 ^ 32 /\
  quota_ok s /\ held quota s = base + charged (as_partial a) /\
  part_of (as_partial a) (id + 1) part total.

Definition peer_spent st : Prop :=
  let '(s, a) := st in
  as_closed a = true /\ as_partial a = None /\ quota_ok s /\ held quota s = base.

Lemma close_spent s a :
  as_quota a = quota -> quota_ok s -> 0 <= base -> held quota s = base + charged (as_partial a) ->
  (forall p, as_partial a = Some p -> 0 < pm_total_bytes p) -> peer_spent (close s a).
Proof.
  intros Hq Hok Hbase Hheld Hpos. unfold close, release_partial, with_closed, with_partial. cbn.
  destruct (as_partial a) as [p|]; cbn in *.
  - specialize (Hpos p eq_refl). rewrite Hq.
    destruct (release_law quota (pm_total_bytes p) s Hok ltac:(lia)) as [? ?].
    repeat split; try done. lia.
  - repeat split; try done. lia.
Qed.

Lemma begin_any s a id p now alloc :
  0 <= base -> peer_took (s, a) id [] 0 -> as_partial a = None ->
  fields_ok lane (header p) (len (payload p)) -> fits 32 (message_id (header p)) ->
  exists s' a' r, begin_message s a p now alloc = Some (s', a', r) /\
    (((exists e, r = Err e) /\ peer_spent (close s' a')) \/
     (message_id (header p) = id + 1 /\ offset_bytes (header p) = 0 /\
      ((len (payload p) < total_bytes (header p) /\ r = Ok None /\
        peer_took (s', a') id (payload p) (total_bytes (header p))) \/
       (len (payload p) = total_bytes (header p) /\ r = Ok (Some (payload p)) /\
        peer_took (s', a') (id + 1) [] 0)))).
Proof.
  intros Hbase (Hl & Hq & Hc & Hlast & Hid & Hok & Hheld & _) Hnone Hf Hfit.
  pose proof Hf as (Hid1 & Hoff & Htot & Hlen & Hend).
  destruct p as [[mid total offset] body]. cbn [header payload message_id total_bytes offset_bytes] in *.
  rewrite Hnone in Hheld. cbn [charged] in Hheld. unfold fits in Hfit.
  assert (Hclose : forall s', quota_ok s' -> held quota s' = base -> peer_spent (close s' a)).
  { intros s' ? ?. apply close_spent; try done; rewrite Hnone; [cbn; lia|done]. }
  unfold begin_message. rewrite Hlast, Hq. cbn [header payload message_id total_bytes offset_bytes].
  destruct (Z.eqb_spec id (2 ^ 32 - 1)); [do 3 eexists; split; [done|]; left; split; [by eexists|apply Hclose; [done|lia]]|].
  destruct (Z.eqb_spec mid (id + 1)) as [->|]; cbn [negb];
    [|do 3 eexists; split; [done|]; left; split; [by eexists|apply Hclose; [done|lia]]].
  destruct (Z.eqb_spec offset 0) as [->|]; cbn [negb];
    [|do 3 eexists; split; [done|]; left; split; [by eexists|apply Hclose; [done|lia]]].
  unfold copy_single_packet. rewrite Hq. cbn [header payload message_id total_bytes offset_bytes].
  destruct (reserve quota total s) as [s' granted] eqn:Hres.
  destruct (reserve_law quota total s _ _ Hok ltac:(lia) Hres) as [Hok' Hheld'].
  destruct granted; cbn [negb] in *.
  2: { destruct (_ =? _); (do 3 eexists; split; [done|]; left; split; [by eexists|apply Hclose; [done|lia]]). }
  destruct (release_law quota total s' Hok' ltac:(lia)) as [Hok'' Hheld''].
  destruct (Z.eqb_spec (len body) total) as [Heq|Hne].
  - destruct alloc; cbn [negb];
      [|do 3 eexists; split; [done|]; left; split; [by eexists|apply Hclose; [done|lia]]].
    do 3 eexists. split; [done|]. right. split; [done|]. split; [done|]. right.
    split; [done|]. split; [done|]. unfold peer_took. cbn. rewrite Hnone. cbn.
    repeat split; try done; lia.
  - unfold allocate_logical. destruct alloc; cbn [negb mbind option_bind];
      [|do 3 eexists; split; [done|]; left; split; [by eexists|apply Hclose; [done|lia]]].
    set (zeros := replicate (Z.to_nat total) Corelib.Init.Byte.x00).
    assert (len zeros = total) as Hz by (unfold zeros, len; rewrite length_replicate; lia).
    replace (len body) with (0 + len body) by lia.
    rewrite copy_into_at by lia. cbn [mbind option_bind]. rewrite take_0, Z.add_0_l.
    do 3 eexists. split; [done|]. right. split; [done|]. split; [done|]. left.
    split; [lia|]. split; [done|]. unfold peer_took. cbn. repeat split; try done; [lia..|].
    exists (drop (Z.to_nat (len body)) zeros), now. split; [done|].
    rewrite len_app, len_drop by lia. lia.
Qed.

Lemma continue_any s a pm id part total p now :
  0 <= base -> peer_took (s, a) id part total -> as_partial a = Some pm ->
  fields_ok lane (header p) (len (payload p)) ->
  exists s' a' r, continue_message s a pm p now = Some (s', a', r) /\
    (((exists e, r = Err e) /\ peer_spent (close s' a')) \/
     (message_id (header p) = id + 1 /\ offset_bytes (header p) = len part /\
      total_bytes (header p) = total /\
      ((len (part ++ payload p) < total /\ r = Ok None /\ peer_took (s', a') id (part ++ payload p) total) \/
       (len (part ++ payload p) = total /\ r = Ok (Some (part ++ payload p)) /\
        peer_took (s', a') (id + 1) [] 0)))).
Proof.
  intros Hbase (Hl & Hq & Hc & Hlast & Hid & Hok & Hheld & Hpart) Hsome Hf.
  pose proof Hf as (Hid1 & Hoff & Htot & Hlen & Hend).
  destruct p as [[mid total' offset] body]. cbn [header payload message_id total_bytes offset_bytes] in *.
  rewrite Hsome in Hheld, Hpart. destruct Hpart as (rest & since & -> & Hrest & Hpos & Hcap & Hids).
  cbn [charged pm_total_bytes] in Hheld. unfold continue_message.
  cbn [header payload message_id total_bytes offset_bytes pm_message_id pm_total_bytes pm_next_offset pm_bytes].
  destruct (_ || _ || _) eqn:Hchk.
  { do 3 eexists. split; [done|]. left. split; [by eexists|].
    apply close_spent; try done; rewrite Hsome; cbn; [lia|]. intros ? ?. simplify_eq. cbn. lia. }
  bool_to_prop. subst mid total' offset. rewrite len_app in Hrest.
  pose proof (len_nonneg part). rewrite copy_into_at by (rewrite ?len_app; lia).
  cbn [mbind option_bind]. replace (Z.to_nat (len part)) with (length part) by (unfold len; lia).
  rewrite take_app_length. set (tail := drop _ _).
  assert (len tail = total - (len part + len body)) as Htail.
  { unfold tail. rewrite len_drop, len_app by (rewrite ?len_app; lia). lia. }
  rewrite (app_assoc part). rewrite len_app.
  destruct (Z.eqb_spec (len part + len body) total) as [Heq|Hne]; cbn [negb].
  - unfold complete_partial. cbn [as_partial with_partial as_quota pm_total_bytes]. rewrite Hq.
    destruct (release_law quota total s Hok ltac:(lia)) as [Hok' Hheld'].
    assert (tail = []) as -> by (apply len_zero_nil; lia). rewrite app_nil_r.
    do 3 eexists. split; [done|]. right. split; [done|]. split; [done|]. split; [done|]. right.
    split; [done|]. split; [done|]. unfold peer_took. cbn. repeat split; try done; lia.
  - do 3 eexists. split; [done|]. right. split; [done|]. split; [done|]. split; [done|]. left.
    split; [lia|]. split; [done|]. unfold peer_took. cbn. repeat split; try done; [lia..|].
    exists tail, now. rewrite !len_app. split; [done|]. lia.
Qed.

Lemma peer_any_push st id part total packet now alloc :
  0 <= base -> peer_took st id part total ->
  exists st' r, peer_push st packet now alloc = Some (st', r) /\
    (((exists e, r = Err e) /\ peer_spent st') \/
     exists total' body,
       packet = frame (id + 1) total' (len part) body /\ (part = [] \/ total' = total) /\
       1 <= len body <= MAX /\ total' <= for_lane lane /\
       ((len (part ++ body) < total' /\ r = Ok None /\ peer_took st' id (part ++ body) total') \/
        (len (part ++ body) = total' /\ r = Ok (Some (part ++ body)) /\ peer_took st' (id + 1) [] 0))).
Proof.
  destruct st as [s a]. intros Hbase Htook. pose proof Htook as (Hl & Hq & Hc & Hlast & Hid & Hok & Hheld & Hpart).
  assert (Hclose : peer_spent (close s a)).
  { apply close_spent; try done. intros p Hp. rewrite Hp in Hpart.
    destruct Hpart as (? & ? & -> & ? & ? & ?). cbn. lia. }
  unfold peer_push, push. cbn [fst snd]. rewrite Hc. unfold accept.
  destruct (stalled a now).
  { cbn [mbind option_bind]. do 2 eexists. split; [done|]. left. split; [by eexists|done]. }
  rewrite Hl. destruct (parse_any lane packet) as (r & -> & Hr). cbn [mbind option_bind].
  destruct r as [p|e].
  2: { cbn [mbind option_bind]. do 2 eexists. split; [done|]. left. split; [by eexists|done]. }
  destruct Hr as (Hf & Hfit & ->). pose proof Hf as (_ & _ & Hcap & Hbody & _).
  destruct (as_partial a) as [pm|] eqn:Hpm.
  - destruct (continue_any s a pm id part total p now Hbase Htook Hpm Hf)
      as (s' & a' & r & -> & [([e ->] & Hsp)|(Hmid & Hoff & Htot & Hcase)]); cbn [mbind option_bind].
    + do 2 eexists. split; [done|]. left. split; [by eexists|done].
    + rewrite Hmid, Hoff, Htot in *.
      destruct Hcase as [(? & -> & ?)|(? & -> & ?)]; do 2 eexists; (split; [done|]); right;
        exists total, (payload p); (split; [done|]); split_and!; auto; try lia.
  - cbn in Hpart. subst part.
    destruct (begin_any s a id p now alloc Hbase) as (s' & a' & r & -> & Hcase); try done.
    { unfold peer_took. by rewrite Hpm. }
    cbn [mbind option_bind]. destruct Hcase as [([e ->] & Hsp)|(Hmid & Hoff & Hcase)].
    + do 2 eexists. split; [done|]. left. split; [by eexists|done].
    + rewrite Hmid, Hoff in *. cbn [app].
      destruct Hcase as [(? & -> & ?)|(? & -> & ?)]; do 2 eexists; (split; [done|]); right;
        exists (total_bytes (header p)), (payload p); (split; [done|]); split_and!; auto; try lia.
Qed.

Hypothesis base_nonneg : 0 <= base.

#[export, program] Instance peer_careful :
    CarefulReceiver (S * TerminalPeerPacketAssembler Q) TerminalPeerPacketErrorCode
      frame MAX (for_lane lane) := {|
  took := peer_took;
  spent := peer_spent;
|}.
Next Obligation. intros. by apply peer_any_push. Qed.
Next Obligation.
  intros [s a] packet now alloc (Hc & _). exists Closed. cbn [rc_push peer_receiver].
  unfold peer_push, push. cbn [fst snd]. by rewrite Hc.
Qed.
End AssemblerAny.

(** ** The queue's bytes *)


Section QueueBytes.
Context {Q S : Type} `{PL : PacketQuotaLaws Q S} (quota : Q) (base : Z).
Implicit Types (s : S) (q : TerminalPeerPacketQueue Q) (st : S * TerminalPeerPacketQueue Q).

(** The queue is charged what it counts, and counts what it holds. *)
Definition bytes_held st : Prop :=
  let '(s, q) := st in
  q_quota q = quota /\ quota_ok s /\ held quota s = base + q_retained_bytes q /\
  q_retained_bytes q = total_queued (q_messages q) /\
  Forall (fun m => 1 <= len (qm_bytes m)) (q_messages q).

Hypothesis base_nonneg : 0 <= base.

Lemma bytes_clear st : bytes_held st -> bytes_held (clear st.1 st.2).
Proof.
  destruct st as [s q]. intros (Hq & Hok & Hheld & Hr & Hms). cbn. rewrite Hq, Hr in *.
  destruct (release_all qm_bytes quota base (q_messages q) s base_nonneg Hok Hheld Hms) as [? ?].
  split_and!; try done; lia.
Qed.

Lemma bytes_offer st m grow st' r : bytes_held st -> peer_offer st m grow = (st', r) -> bytes_held st'.
Proof.
  destruct st as [s q]. intros Hb. pose proof Hb as (Hq & Hok & Hheld & Hr & Hms).
  unfold peer_offer, enqueue. cbn [fst snd]. rewrite Hq.
  destruct (q_closed q); [intros; by simplify_eq|].
  destruct (_ || _) eqn:Hsize; [intros; by simplify_eq|]. bool_to_prop.
  destruct (q_next_message_id q =? 0); [intros; by simplify_eq|].
  destruct (reserve quota (len m) s) as [s1 granted] eqn:Hres.
  destruct (reserve_law quota (len m) s _ _ Hok ltac:(lia) Hres) as [Hok1 Hheld1].
  destruct granted; cbn [negb]; [|intros; simplify_eq; split_and!; try done; lia].
  pose proof (queued_total_nonneg qm_bytes (q_messages q)).
  destruct grow; cbn [negb]; intros; simplify_eq; cbn.
  - split_and!; try done; [lia| |].
    + rewrite queued_total_app, queued_total_cons, Hr. change (total_queued []) with 0. cbn. lia.
    + apply Forall_app. split; [done|]. constructor; [cbn; lia|done].
  - destruct (release_law quota (len m) s1 Hok1 ltac:(lia)) as [? ?]. split_and!; try done; lia.
Qed.

Lemma bytes_next st alloc st' r : bytes_held st -> peer_next st alloc = Some (st', r) -> bytes_held st'.
Proof.
  destruct st as [s q]. intros Hb. unfold peer_next, next_fragment. cbn [fst snd].
  destruct (q_pending q) as [p|]; [intros; by simplify_eq/=|].
  destruct (encode_next_fragment q) as [[[[p bytes]|]|e]|]; cbn; intros; simplify_eq; try done.
  by apply (bytes_clear (s, q)).
Qed.

Lemma bytes_commit st st' : bytes_held st -> commit st.1 st.2 = Some st' -> bytes_held st'.
Proof.
  destruct st as [s q]. intros Hb. pose proof Hb as (Hq & Hok & Hheld & Hr & Hms). unfold commit.
  cbn [fst snd]. destruct (q_pending q) as [p|]; [|intros; by simplify_eq].
  destruct (q_messages q) as [|m ms] eqn:Hm; [intros; simplify_eq; by split_and!|].
  rewrite queued_total_cons in Hr.
  pose proof (queued_total_nonneg qm_bytes ms). apply Forall_cons in Hms as [Hm1 Hms].
  case_if; [done|]. destruct (negb _) eqn:Hdone; [intros; simplify_eq; split_and!; try done; by constructor|].
  case_if; [done|]. rewrite Hq. intros; simplify_eq. cbn.
  destruct (release_law quota (len (qm_bytes m)) s Hok ltac:(lia)) as [? ?].
  split_and!; try done; lia.
Qed.

Lemma bytes_reset st : bytes_held st -> bytes_held (queue_reset st.1 st.2).
Proof. intros Hb. apply bytes_clear in Hb. destruct st as [s q]. exact Hb. Qed.

Lemma bytes_run ops st log st' log' :
  bytes_held st -> send_run st log ops = Some (st', log') -> bytes_held st'.
Proof.
  apply send_run_keeps; [apply bytes_offer|apply bytes_next|apply bytes_commit|apply bytes_clear|apply bytes_reset].
Qed.
End QueueBytes.

(** ** The order of the refusals

    [Closed] and [FragmentStalled] come first, but the packet's own codes are
    decided before [MessageIdWrap] and [MessageId], which are declared before
    them: an empty packet after the last id, and a packet whose offset is past its
    end and whose id is not the next. *)
Lemma packet_refused_before_its_id :
  (let wrapped := mkAssembler Control 100 None (2 ^ 32 - 1) false in
   push (0 : Counter) wrapped [] 0 true = Some (0, with_closed true wrapped, Err PacketSize)) /\
  (let fresh := assembler_new Control 100 in
   push (0 : Counter) fresh (frame 7 2 2 [Corelib.Init.Byte.x61]) 0 true =
     Some (0, with_closed true fresh, Err PacketHeader)).
Proof. by split. Qed.
