(* ===== verification/AttachmentPackets.v ===== *)
(** * AttachmentPackets: the packets of the direct attachment carrier

    [roost-protocol/src/attachment_transfer]: the twenty byte header with its
    version ([packets.rs], [mod.rs]), the assembler and the queue
    ([packet_queue.rs]) of one attachment channel.  The framing shares no magic,
    lane or state with [PeerPackets]; its quota counts each direction apart. *)
From Stdlib Require Import Ascii String.
From S2P Require Export PacketStream.

(** ** Limits *)

Definition CHUNK_SHA256_HEX_LENGTH : Z := 64.
Definition PACKET_MAGIC : Z := 0x31505441.
Definition PACKET_VERSION : Z := 1.
Definition PACKET_HEADER_BYTES : Z := 20.
Definition PACKET_MAX_BYTES : Z := 16384.
Definition PACKET_MAX_PAYLOAD_BYTES : Z := PACKET_MAX_BYTES - PACKET_HEADER_BYTES.
Definition PACKET_LOGICAL_FRAME_MAX_BYTES : Z := 1024 * 1024.
Definition PACKET_STALL_MS : Z := 10000.
Definition PEER_CONTROL_QUEUE_MAX_BYTES : Z := 128 * 1024.
Definition PEER_DATA_QUEUE_MAX_BYTES : Z := 1024 * 1024.
Definition PEER_WORKER_DATA_QUEUE_MAX_BYTES : Z := 32 * 1024 * 1024.

(** [PeerChannelLane]. *)
Inductive PeerChannelLane := Control | Data.

#[global] Instance PeerChannelLane_eq_dec : EqDecision PeerChannelLane.
Proof. solve_decision. Defined.

(** [is_chunk_sha256]. *)
Definition is_chunk_sha256 (value : string) : bool :=
  (Z.of_nat (String.length value) =? CHUNK_SHA256_HEX_LENGTH) &&
  forallb (fun c => let n := Z.of_nat (nat_of_ascii c) in
             ((48 <=? n) && (n <=? 57)) || ((97 <=? n) && (n <=? 102)))
    (list_ascii_of_string value).

(** ** One packet *)

Inductive AttachmentTransferPacketDirection := Incoming | Outgoing.

#[global] Instance AttachmentTransferPacketDirection_eq_dec :
  EqDecision AttachmentTransferPacketDirection.
Proof. solve_decision. Defined.

Inductive AttachmentTransferPacketError :=
| PacketSize
| PacketMagic
| PacketVersion
| PacketHeader
| MessageId
| MessageIdWrap
| MessageSize
| FragmentOrder
| FragmentStalled
| Quota
| Allocation
| Closed.

Record AttachmentTransferPacketHeader := mkHeader {
  message_id : Z;
  total_bytes : Z;
  offset_bytes : Z;
}.

Record AttachmentTransferPacket := mkPacket {
  header : AttachmentTransferPacketHeader;
  payload : list byte;
}.

(** [assert_packet_fields]. *)
Definition assert_packet_fields (header : AttachmentTransferPacketHeader) (payload_bytes : Z)
    : result unit AttachmentTransferPacketError :=
  if message_id header <? 1 then Err MessageId
  else if negb ((1 <=? total_bytes header) && (total_bytes header <=? PACKET_LOGICAL_FRAME_MAX_BYTES))
  then Err MessageSize
  else if (total_bytes header <=? offset_bytes header)
       || negb ((1 <=? payload_bytes) && (payload_bytes <=? PACKET_MAX_PAYLOAD_BYTES))
       || (total_bytes header <? offset_bytes header + payload_bytes)
  then Err PacketHeader
  else Ok tt.

(** The packet of a header and its payload: five fields, then the payload. *)
Definition packet_bytes (header : AttachmentTransferPacketHeader) (payload : list byte) : list byte :=
  concat (to_le_bytes 4 <$> [PACKET_MAGIC; PACKET_VERSION; message_id header;
                             total_bytes header; offset_bytes header]) ++ payload.

(** [encode_attachment_transfer_packet]; [alloc] is [try_reserve_exact]'s answer. *)
Definition encode_attachment_transfer_packet (header : AttachmentTransferPacketHeader)
    (payload : list byte) (alloc : bool) : result (list byte) AttachmentTransferPacketError :=
  let? _ := assert_packet_fields header (len payload) in
  if negb alloc then Err Allocation else Ok (packet_bytes header payload).

(** [read_u32]; [None] is the panic of indexing past the packet. *)
Definition read_u32 (packet : list byte) (offset : nat) : option Z :=
  from_le_bytes <$> slice_get packet offset (offset + 4).

(** [parse_attachment_transfer_packet]. *)
Definition parse_attachment_transfer_packet (packet : list byte)
    : option (result AttachmentTransferPacket AttachmentTransferPacketError) :=
  if (len packet <=? PACKET_HEADER_BYTES) || (PACKET_MAX_BYTES <? len packet)
  then Some (Err PacketSize) else
  magic ← read_u32 packet 0;
  if negb (magic =? PACKET_MAGIC) then Some (Err PacketMagic) else
  version ← read_u32 packet 4;
  if negb (version =? PACKET_VERSION) then Some (Err PacketVersion) else
  id ← read_u32 packet 8;
  total ← read_u32 packet 12;
  offset ← read_u32 packet 16;
  payload ← slice_get packet (Z.to_nat PACKET_HEADER_BYTES) (length packet);
  let header := mkHeader id total offset in
  Some (let? _ := assert_packet_fields header (len payload) in
        Ok (mkPacket header payload)).

(** ** The quota *)

(** [AttachmentTransferPacketQuota]: one handle counts two directions. *)
Class AttachmentTransferPacketQuota (Q S : Type) := mkQuota {
  quota_reserve : Q -> AttachmentTransferPacketDirection -> Z -> S -> S * bool;
  quota_release : Q -> AttachmentTransferPacketDirection -> Z -> S -> S;
}.

(** A channel's direction of a handle is a handle of its own. *)
#[global] Instance directed_quota {Q S : Type} `{!AttachmentTransferPacketQuota Q S} :
    PacketQuota (Q * AttachmentTransferPacketDirection) S := {|
  reserve q n s := quota_reserve q.1 q.2 n s;
  release q n s := quota_release q.1 q.2 n s;
|}.

(** ** The assembler *)

Record PartialMessage := mkPartial {
  pm_message_id : Z;
  pm_total_bytes : Z;
  pm_bytes : list byte;
  pm_last_fragment_at_ms : Z;
}.

Section Assembler.
Context {Q S : Type} `{!AttachmentTransferPacketQuota Q S}.

Record AttachmentTransferPacketAssembler := mkAssembler {
  as_direction : AttachmentTransferPacketDirection;
  as_quota : Q;
  as_partial : option PartialMessage;
  last_completed_message_id : Z;
  as_closed : bool;
}.

(** [AttachmentTransferPacketAssembler::new]. *)
Definition assembler_new (direction : AttachmentTransferPacketDirection) (quota : Q)
    : AttachmentTransferPacketAssembler :=
  mkAssembler direction quota None 0 false.

(** [has_partial_message], [is_closed], [last_message_id]. *)
Definition has_partial_message (a : AttachmentTransferPacketAssembler) : bool :=
  if as_partial a then true else false.
Definition is_closed (a : AttachmentTransferPacketAssembler) : bool := as_closed a.
Definition last_message_id (a : AttachmentTransferPacketAssembler) : Z := last_completed_message_id a.

Definition with_partial (p : option PartialMessage) (a : AttachmentTransferPacketAssembler) :=
  mkAssembler (as_direction a) (as_quota a) p (last_completed_message_id a) (as_closed a).
Definition with_last_id (id : Z) (a : AttachmentTransferPacketAssembler) :=
  mkAssembler (as_direction a) (as_quota a) (as_partial a) id (as_closed a).
Definition with_closed (c : bool) (a : AttachmentTransferPacketAssembler) :=
  mkAssembler (as_direction a) (as_quota a) (as_partial a) (last_completed_message_id a) c.

(** [release_partial]. *)
Definition release_partial (s : S) (a : AttachmentTransferPacketAssembler)
    : S * AttachmentTransferPacketAssembler :=
  match as_partial a with
  | Some partial =>
      (quota_release (as_quota a) (as_direction a) (pm_total_bytes partial) s, with_partial None a)
  | None => (s, a)
  end.

(** [close_internal]. *)
Definition close_internal (s : S) (a : AttachmentTransferPacketAssembler)
    : S * AttachmentTransferPacketAssembler :=
  release_partial s (with_closed true a).

(** [reset]. *)
Definition reset (s : S) (a : AttachmentTransferPacketAssembler)
    : S * AttachmentTransferPacketAssembler :=
  let '(s, a) := release_partial s a in
  (s, with_closed false (with_last_id 0 a)).

(** [stalled]. *)
Definition stalled (a : AttachmentTransferPacketAssembler) (now_ms : Z)
    : result unit AttachmentTransferPacketError :=
  match as_partial a with
  | Some partial =>
      if PACKET_STALL_MS <=? saturating_sub now_ms (pm_last_fragment_at_ms partial)
      then Err FragmentStalled else Ok tt
  | None => Ok tt
  end.

(** [expire]. *)
Definition expire (s : S) (a : AttachmentTransferPacketAssembler) (now_ms : Z)
    : S * AttachmentTransferPacketAssembler * bool :=
  match as_partial a with
  | None => (s, a, false)
  | Some partial =>
      if saturating_sub now_ms (pm_last_fragment_at_ms partial) <? PACKET_STALL_MS
      then (s, a, false) else (close_internal s a, true)
  end.

Definition Pushed : Type :=
  S * AttachmentTransferPacketAssembler * result (option (list byte)) AttachmentTransferPacketError.

(** [begin]; [alloc] is [try_reserve_exact]'s answer. *)
Definition begin_message (s : S) (a : AttachmentTransferPacketAssembler)
    (packet : AttachmentTransferPacket) (now_ms : Z) (alloc : bool) : Pushed :=
  if last_completed_message_id a =? 2 ^ 32 - 1 then (s, a, Err MessageIdWrap)
  else if negb (message_id (header packet) =? last_completed_message_id a + 1)
          || negb (offset_bytes (header packet) =? 0)
  then (s, a, Err MessageId)
  else
  let total := total_bytes (header packet) in
  let '(s, granted) := quota_reserve (as_quota a) (as_direction a) total s in
  if negb granted then (s, a, Err Quota) else
  if len (payload packet) =? total
  then (quota_release (as_quota a) (as_direction a) total s,
        with_last_id (message_id (header packet)) a, Ok (Some (payload packet)))
  else if negb alloc
  then (quota_release (as_quota a) (as_direction a) total s, a, Err Allocation)
  else (s, with_partial (Some (mkPartial (message_id (header packet)) total
                                 (payload packet) now_ms)) a, Ok None).

(** [complete_partial]. *)
Definition complete_partial (s : S) (a : AttachmentTransferPacketAssembler)
    : S * AttachmentTransferPacketAssembler * list byte :=
  match as_partial a with
  | None => (s, a, [])
  | Some partial =>
      (quota_release (as_quota a) (as_direction a) (pm_total_bytes partial) s,
       with_last_id (pm_message_id partial) (with_partial None a), pm_bytes partial)
  end.

(** [accept]. *)
Definition accept (s : S) (a : AttachmentTransferPacketAssembler)
    (packet : AttachmentTransferPacket) (now_ms : Z) (alloc : bool) : Pushed :=
  match as_partial a with
  | None => begin_message s a packet now_ms alloc
  | Some partial =>
      if negb (message_id (header packet) =? pm_message_id partial)
         || negb (total_bytes (header packet) =? pm_total_bytes partial)
         || negb (offset_bytes (header packet) =? len (pm_bytes partial))
      then (s, a, Err FragmentOrder)
      else
      let bytes := pm_bytes partial ++ payload packet in
      let a := with_partial (Some (mkPartial (pm_message_id partial) (pm_total_bytes partial)
                                     bytes now_ms)) a in
      if negb (len bytes =? pm_total_bytes partial) then (s, a, Ok None) else
      let '(s, a, message) := complete_partial s a in
      (s, a, Ok (Some message))
  end.

(** [push]; [None] is the panic of a read past the packet. *)
Definition push (s : S) (a : AttachmentTransferPacketAssembler) (packet : list byte)
    (now_ms : Z) (alloc : bool) : option Pushed :=
  if as_closed a then Some (s, a, Err Closed) else
  match stalled a now_ms with
  | Err e => Some (close_internal s a, Err e)
  | Ok _ =>
      parsed ← parse_attachment_transfer_packet packet;
      match parsed with
      | Err e => Some (close_internal s a, Err e)
      | Ok parsed =>
          match accept s a parsed now_ms alloc with
          | (s, a, Err e) => Some (close_internal s a, Err e)
          | accepted => Some accepted
          end
      end
  end.
End Assembler.
Arguments AttachmentTransferPacketAssembler : clear implicits.
Arguments Pushed : clear implicits.

(** ** The queue *)

Record QueuedMessage := mkQueued {
  qm_message_id : Z;
  qm_bytes : list byte;
  qm_offset_bytes : Z;
}.

Record PendingFragment := mkPending {
  pf_message_id : Z;
  pf_payload_bytes : Z;
  pf_final_fragment : bool;
  pf_bytes : list byte;
}.

Record AttachmentTransferPacketQueueFragment := mkFragment {
  fr_message_id : Z;
  fr_final_fragment : bool;
}.

Section Queue.
Context {Q S : Type} `{!AttachmentTransferPacketQuota Q S}.

Record AttachmentTransferPacketQueue := mkQueue {
  q_direction : AttachmentTransferPacketDirection;
  q_quota : Q;
  q_messages : list QueuedMessage;
  q_pending : option PendingFragment;
  q_next_message_id : Z;
  q_retained_bytes : Z;
  q_closed : bool;
}.

(** [AttachmentTransferPacketQueue::new]. *)
Definition queue_new (direction : AttachmentTransferPacketDirection) (quota : Q)
    : AttachmentTransferPacketQueue :=
  mkQueue direction quota [] None 1 0 false.

(** [queued_bytes], [message_count]. *)
Definition queued_bytes (q : AttachmentTransferPacketQueue) : Z := q_retained_bytes q.
Definition message_count (q : AttachmentTransferPacketQueue) : Z := len (q_messages q).

(** [enqueue]; [grow] is [try_reserve]'s answer. *)
Definition enqueue (s : S) (q : AttachmentTransferPacketQueue) (bytes : list byte) (grow : bool)
    : S * AttachmentTransferPacketQueue * result bool AttachmentTransferPacketError :=
  if q_closed q then (s, q, Err Closed) else
  let length := len bytes in
  if negb ((1 <=? length) && (length <=? PACKET_LOGICAL_FRAME_MAX_BYTES))
  then (s, q, Err MessageSize) else
  if q_next_message_id q =? 0 then (s, q, Err MessageIdWrap) else
  let '(s, granted) := quota_reserve (q_quota q) (q_direction q) length s in
  if negb granted then (s, q, Ok false) else
  if negb grow
  then (quota_release (q_quota q) (q_direction q) length s, q, Err Allocation) else
  let id := q_next_message_id q in
  (s, mkQueue (q_direction q) (q_quota q) (q_messages q ++ [mkQueued id bytes 0])
        (q_pending q) (if id =? 2 ^ 32 - 1 then 0 else id + 1)
        (q_retained_bytes q + length) (q_closed q), Ok true).

(** [encode_next_fragment]; [None] is the underflow of [total_bytes - start] or
    a slice out of range. *)
Definition encode_next_fragment (q : AttachmentTransferPacketQueue) (alloc : bool)
    : option (result (option PendingFragment) AttachmentTransferPacketError) :=
  match q_messages q with
  | [] => Some (Ok None)
  | message :: _ =>
      let start := qm_offset_bytes message in
      let total := len (qm_bytes message) in
      if total <? start then None else
      let payload_bytes := Z.min PACKET_MAX_PAYLOAD_BYTES (total - start) in
      if 2 ^ 32 <=? total then Some (Err MessageSize) else
      if 2 ^ 32 <=? start then Some (Err PacketHeader) else
      payload ← slice_get (qm_bytes message) (Z.to_nat start) (Z.to_nat (start + payload_bytes));
      Some (let? bytes := encode_attachment_transfer_packet
                            (mkHeader (qm_message_id message) total start) payload alloc in
            Ok (Some (mkPending (qm_message_id message) payload_bytes
                        (start + payload_bytes =? total) bytes)))
  end.

(** [clear]. *)
Definition clear (s : S) (q : AttachmentTransferPacketQueue) : S * AttachmentTransferPacketQueue :=
  (fold_left (fun s message =>
      quota_release (q_quota q) (q_direction q) (len (qm_bytes message)) s) (q_messages q) s,
   mkQueue (q_direction q) (q_quota q) [] None (q_next_message_id q) 0 true).

(** [reset] of the queue. *)
Definition queue_reset (s : S) (q : AttachmentTransferPacketQueue) : S * AttachmentTransferPacketQueue :=
  let '(s, q) := clear s q in
  (s, mkQueue (q_direction q) (q_quota q) (q_messages q) (q_pending q) 1
        (q_retained_bytes q) false).

(** The fragment handed out for what is pending. *)
Definition fragment_of (q : AttachmentTransferPacketQueue) : option AttachmentTransferPacketQueueFragment :=
  (fun pending => mkFragment (pf_message_id pending) (pf_final_fragment pending)) <$> q_pending q.

(** [next_fragment]; [alloc] is the encoder's allocation. *)
Definition next_fragment (s : S) (q : AttachmentTransferPacketQueue) (alloc : bool)
    : option (S * AttachmentTransferPacketQueue *
              result (option AttachmentTransferPacketQueueFragment) AttachmentTransferPacketError) :=
  match q_pending q with
  | Some _ => Some (s, q, Ok (fragment_of q))
  | None =>
      encoded ← encode_next_fragment q alloc;
      match encoded with
      | Ok pending =>
          let q := mkQueue (q_direction q) (q_quota q) (q_messages q) pending
                     (q_next_message_id q) (q_retained_bytes q) (q_closed q) in
          Some (s, q, Ok (fragment_of q))
      | Err error => Some (clear s q, Err error)
      end
  end.

(** [AttachmentTransferPacketQueueFragment::bytes]. *)
Definition fragment_bytes (q : AttachmentTransferPacketQueue) : list byte :=
  match q_pending q with Some pending => pf_bytes pending | None => [] end.

(** [AttachmentTransferPacketQueueFragment::commit]; [None] is the underflow of
    the retained count. *)
Definition commit (s : S) (q : AttachmentTransferPacketQueue)
    : option (S * AttachmentTransferPacketQueue) :=
  match q_pending q with
  | None => Some (s, q)
  | Some pending =>
      let left messages retained :=
        mkQueue (q_direction q) (q_quota q) messages None (q_next_message_id q) retained (q_closed q) in
      match q_messages q with
      | [] => Some (s, left [] (q_retained_bytes q))
      | message :: rest =>
          let offset := qm_offset_bytes message + pf_payload_bytes pending in
          let total := len (qm_bytes message) in
          if negb (offset =? total)
          then Some (s, left (mkQueued (qm_message_id message) (qm_bytes message) offset :: rest)
                          (q_retained_bytes q))
          else if q_retained_bytes q <? total then None
          else Some (quota_release (q_quota q) (q_direction q) total s,
                     left rest (q_retained_bytes q - total))
      end
  end.
End Queue.
Arguments AttachmentTransferPacketQueue : clear implicits.

(** ** The framing *)

Definition frame (id total offset : Z) (payload : list byte) : list byte :=
  words [PACKET_MAGIC; PACKET_VERSION; id; total; offset] payload.

Notation MAX := PACKET_MAX_PAYLOAD_BYTES.
Notation CAP := PACKET_LOGICAL_FRAME_MAX_BYTES.

(** The limits as numbers. *)
Ltac numbers :=
  change MAX with 16364 in *; change PACKET_MAX_BYTES with 16384 in *;
  change PACKET_HEADER_BYTES with 20 in *; change PACKET_STALL_MS with 10000 in *;
  change CAP with 1048576 in *.

(** A header and the payload it may carry. *)
Definition fields_ok (h : AttachmentTransferPacketHeader) (n : Z) : Prop :=
  1 <= message_id h /\ 0 <= offset_bytes h < total_bytes h /\ total_bytes h <= CAP /\
  1 <= n <= MAX /\ offset_bytes h + n <= total_bytes h.

Lemma attachment_assert_packet_fields_ok h n :
  0 <= offset_bytes h -> assert_packet_fields h n = Ok tt <-> fields_ok h n.
Proof.
  intros H0. unfold assert_packet_fields, fields_ok.
  destruct (Z.ltb_spec (message_id h) 1); [split; [done|lia]|].
  destruct (Z.leb_spec 1 (total_bytes h)); [|split; [done|lia]].
  destruct (Z.leb_spec (total_bytes h) CAP); [|split; [done|lia]]. cbn [andb negb].
  destruct (Z.leb_spec (total_bytes h) (offset_bytes h)); [split; [done|lia]|].
  destruct (Z.leb_spec 1 n), (Z.leb_spec n MAX); cbn [andb negb orb]; try (split; [done|lia]).
  destruct (Z.ltb_spec (total_bytes h) (offset_bytes h + n)); split; try done; lia.
Qed.

Lemma attachment_encode_ok h body alloc :
  fields_ok h (len body) ->
  encode_attachment_transfer_packet h body alloc =
  if alloc then Ok (frame (message_id h) (total_bytes h) (offset_bytes h) body) else Err Allocation.
Proof.
  intros H. unfold encode_attachment_transfer_packet.
  rewrite (proj2 (attachment_assert_packet_fields_ok h (len body) ltac:(destruct H; lia)) H).
  by destruct alloc.
Qed.

Lemma attachment_len_frame id total offset body : len (frame id total offset body) = 20 + len body.
Proof. apply len_words. Qed.

(** What the parser makes of five words and a body. *)
Lemma attachment_parse_words magic version id total offset body :
  Forall (fits 32) [magic; version; id; total; offset] ->
  parse_attachment_transfer_packet (words [magic; version; id; total; offset] body) =
  Some (if (len body <=? 0) || (MAX <? len body) then Err PacketSize
        else if negb (magic =? PACKET_MAGIC) then Err PacketMagic
        else if negb (version =? PACKET_VERSION) then Err PacketVersion
        else let? _ := assert_packet_fields (mkHeader id total offset) (len body) in
             Ok (mkPacket (mkHeader id total offset) body)).
Proof.
  intros Hf. rewrite !Forall_cons in Hf. destruct Hf as (Hmagic & Hversion & Hid & Htotal & Hoff & _).
  unfold parse_attachment_transfer_packet. set (ws := [_; _; _; _; _]).
  rewrite len_words. change (4 * len ws) with 20.
  replace (20 + len body <=? PACKET_HEADER_BYTES) with (len body <=? 0)
    by (numbers; destruct (Z.leb_spec (len body) 0), (Z.leb_spec (20 + len body) 20); lia).
  replace (PACKET_MAX_BYTES <? 20 + len body) with (MAX <? len body)
    by (numbers; destruct (Z.ltb_spec 16364 (len body)), (Z.ltb_spec 16384 (20 + len body)); lia).
  destruct (_ || _); [done|].
  assert (forall n i w, n = (4 * i)%nat -> ws !! i = Some w -> fits 32 w ->
            read_u32 (words ws body) n = Some w) as Hr
    by (intros n i w ->; apply read_word_words).
  rewrite (Hr 0%nat 0%nat magic) by done. cbn [mbind option_bind]. destruct (negb _); [done|].
  rewrite (Hr 4%nat 1%nat version) by done. cbn [mbind option_bind]. destruct (negb _); [done|].
  rewrite (Hr 8%nat 2%nat id), (Hr 12%nat 3%nat total), (Hr 16%nat 4%nat offset) by done.
  cbn [mbind option_bind].
  change (Z.to_nat PACKET_HEADER_BYTES) with (4 * length ws)%nat.
  by rewrite (words_body ws body).
Qed.

Lemma attachment_magic_fits : fits 32 PACKET_MAGIC /\ fits 32 PACKET_VERSION.
Proof. cbv. repeat split; congruence. Qed.

(** Every field of a packet is read back. *)
Lemma attachment_parse_frame h body :
  fields_ok h (len body) -> fits 32 (message_id h) ->
  parse_attachment_transfer_packet (frame (message_id h) (total_bytes h) (offset_bytes h) body) =
  Some (Ok (mkPacket h body)).
Proof.
  intros Hok Hid. unfold frame. pose proof Hok as (? & ? & ? & ? & ?).
  rewrite attachment_parse_words.
  - rewrite (proj2 (Z.leb_gt _ _)), (proj2 (Z.ltb_ge _ _)), !Z.eqb_refl by lia. cbn [orb negb].
    destruct h as [id total offset]. cbn [message_id total_bytes offset_bytes] in *.
    by rewrite (proj2 (attachment_assert_packet_fields_ok (mkHeader id total offset) (len body)
                         ltac:(cbn; lia)) Hok).
  - rewrite !Forall_cons. split_and!; [apply attachment_magic_fits|apply attachment_magic_fits|done|unfold fits; numbers; lia..|done].
Qed.

(** What a packet must be to be taken, and what becomes of any other. *)
Lemma attachment_parse_any packet :
  exists r, parse_attachment_transfer_packet packet = Some r /\
    match r with
    | Ok p => fields_ok (header p) (len (payload p)) /\ fits 32 (message_id (header p)) /\
        packet = frame (message_id (header p)) (total_bytes (header p)) (offset_bytes (header p)) (payload p)
    | Err e => e ∈ [PacketSize; PacketMagic; PacketVersion; MessageId; MessageSize; PacketHeader]
    end.
Proof.
  destruct (decide (20 <= length packet)%nat) as [Hlong|Hshort].
  - destruct (words_of_bytes 5 packet) as (ws & Hws & Hf & Heq); [lia|].
    destruct ws as [|magic [|version [|id [|total [|offset [|]]]]]]; try done.
    set (body := drop (4 * 5) packet) in *.
    rewrite Heq, attachment_parse_words by done. eexists. split; [done|].
    rewrite !Forall_cons in Hf. destruct Hf as (Hmagic & Hversion & Hid & Htotal & Hoff & _).
    destruct (_ || _); [set_solver|].
    destruct (Z.eqb_spec magic PACKET_MAGIC) as [->|]; [cbn [negb]|set_solver].
    destruct (Z.eqb_spec version PACKET_VERSION) as [->|]; [cbn [negb]|set_solver].
    destruct (assert_packet_fields (mkHeader id total offset) (len body)) as [[]|e] eqn:Ha.
    + apply attachment_assert_packet_fields_ok in Ha; [by split|cbn; unfold fits in Hoff; lia].
    + unfold assert_packet_fields in Ha. repeat (case_if; [simplify_eq; set_solver|]). done.
  - exists (Err PacketSize). split; [|set_solver].
    unfold parse_attachment_transfer_packet. unfold len. numbers.
    by rewrite (proj2 (Z.leb_le _ _)) by lia.
Qed.

(** ** One direction of a handle *)

Section Directed.
Context {Q S : Type} `{!AttachmentTransferPacketQuota Q S}.
Context `{PL : !PacketQuotaLaws (Q * AttachmentTransferPacketDirection) S}.
Context (direction : AttachmentTransferPacketDirection) (quota : Q).

(** What the handle holds in its direction. *)
Definition held_in (s : S) : Z := held (quota, direction) s.

Lemma reserve_in n s s' granted :
  quota_ok s -> 0 < n -> quota_reserve quota direction n s = (s', granted) ->
  quota_ok s' /\ held_in s' = held_in s + (if granted then n else 0).
Proof. intros H1 H2 H3. exact (reserve_law (quota, direction) n s s' granted H1 H2 H3). Qed.

Lemma release_in n s :
  quota_ok s -> 0 < n <= held_in s ->
  quota_ok (quota_release quota direction n s) /\
  held_in (quota_release quota direction n s) = held_in s - n.
Proof. intros H1 H2. exact (release_law (quota, direction) n s H1 H2). Qed.
End Directed.

(** ** The assembler on the packets of its peer *)

Section AssemblerLaws.
Context {Q S : Type} `{!AttachmentTransferPacketQuota Q S}.
Context `{PL : !PacketQuotaLaws (Q * AttachmentTransferPacketDirection) S}.
Context (direction : AttachmentTransferPacketDirection) (quota : Q).
Notation held_here := (held_in direction quota).
Implicit Types (s : S) (a : AttachmentTransferPacketAssembler Q).
Implicit Types (st : S * AttachmentTransferPacketAssembler Q).

Definition attachment_push st (packet : list byte) (now_ms : Z) (alloc : bool) :=
  push st.1 st.2 packet now_ms alloc.

#[export] Instance attachment_receiver :
    Receiver (S * AttachmentTransferPacketAssembler Q) AttachmentTransferPacketError :=
  mkReceiver _ _ attachment_push.

(** The quota has room for any one message. *)
Definition attachment_room : Prop :=
  forall s n, quota_ok s -> held_here s = 0 -> 0 < n <= CAP ->
    (quota_reserve quota direction n s).2 = true.

(** The partial message, if any, is the first [offset] bytes of [message]. *)
Definition partial_is (p : option PartialMessage) (id : Z) (message : list byte) (offset since : Z) : Prop :=
  match p with
  | None => offset = 0
  | Some p => 0 < offset /\ p = mkPartial id (len message) (take (Z.to_nat offset) message) since
  end.

Definition attachment_expects st (id : Z) (message : list byte) (offset since : Z) : Prop :=
  let '(s, a) := st in
  as_direction a = direction /\ as_quota a = quota /\ as_closed a = false /\
  last_completed_message_id a = id - 1 /\ quota_ok s /\
  held_here s = (if as_partial a then len message else 0) /\
  partial_is (as_partial a) id message offset since.

Definition attachment_dead st : Prop := as_closed st.2 = true.

Lemma attachment_close_closed s a : as_closed (close_internal s a).2 = true.
Proof. unfold close_internal, release_partial. cbn. by destruct (as_partial a). Qed.

Lemma attachment_begin_genuine s a id message now alloc :
  attachment_expects (s, a) id message 0 now -> as_partial a = None ->
  1 <= id < 2 ^ 32 -> 0 < len message <= CAP ->
  let body := payload_at MAX message 0 in
  exists s' a' r,
    begin_message s a (mkPacket (mkHeader id (len message) 0) body) now alloc = (s', a', r) /\
    ((len body < len message /\ r = Ok None /\ attachment_expects (s', a') id message (len body) now) \/
     (len body = len message /\ r = Ok (Some message) /\
      forall next, attachment_expects (s', a') (id + 1) next 0 now) \/
     ((exists e, r = Err e) /\ (alloc = false \/ ~ attachment_room))).
Proof.
  intros (Hd & Hq & Hc & Hlast & Hok & Hheld & _) Hnone Hid Hm body.
  pose proof (len_payload_at MAX ltac:(by cbv) message 0 ltac:(lia)) as Hb. fold body in Hb.
  change (Z.min MAX) with (Z.min 16364) in Hb.
  pose proof (payload_taken MAX ltac:(by cbv) message 0 ltac:(lia)) as Hbody. fold body in Hbody.
  rewrite take_0, Z.add_0_l in Hbody. cbn [app] in Hbody.
  rewrite Hnone in Hheld. unfold begin_message. cbn [header payload message_id total_bytes offset_bytes].
  rewrite (proj2 (Z.eqb_neq _ _)) by lia.
  rewrite Hlast, (proj2 (Z.eqb_eq id _)), Hq, Hd by lia. cbn [negb orb Z.eqb].
  destruct (quota_reserve quota direction (len message) s) as [s' granted] eqn:Hres.
  destruct (reserve_in direction quota (len message) s _ _ Hok ltac:(lia) Hres) as [Hok' Hheld'].
  destruct granted; cbn [negb].
  2: { do 3 eexists. split; [done|]. right. right. split; [by eexists|]. right. intros Hroom.
       specialize (Hroom s (len message) Hok Hheld ltac:(lia)). by rewrite Hres in Hroom. }
  destruct (release_in direction quota (len message) s' Hok' ltac:(lia)) as [Hok'' Hheld''].
  destruct (Z.eqb_spec (len body) (len message)) as [Heq|Hne].
  - do 3 eexists. split; [done|]. right. left. split; [done|]. split.
    + rewrite Hbody, Heq. do 2 f_equal. apply take_ge. unfold len. lia.
    + intros next. unfold attachment_expects. cbn. rewrite Hnone. repeat split; try done; lia.
  - destruct alloc; cbn [negb].
    + do 3 eexists. split; [done|]. left. split; [lia|]. split; [done|].
      unfold attachment_expects. cbn. repeat split; try done; [lia|lia|]. by rewrite Hbody at 1.
    + do 3 eexists. split; [done|]. right. right. split; [by eexists|auto].
Qed.

Lemma accept_genuine s a p id message offset since now alloc :
  attachment_expects (s, a) id message offset since -> as_partial a = Some p ->
  0 <= offset < len message ->
  let body := payload_at MAX message offset in
  exists s' a' r,
    accept s a (mkPacket (mkHeader id (len message) offset) body) now alloc = (s', a', r) /\
    ((offset + len body < len message /\ r = Ok None /\
      attachment_expects (s', a') id message (offset + len body) now) \/
     (offset + len body = len message /\ r = Ok (Some message) /\
      forall next, attachment_expects (s', a') (id + 1) next 0 now)).
Proof.
  intros (Hd & Hq & Hc & Hlast & Hok & Hheld & Hpart) Hsome Hoff body.
  pose proof (len_payload_at MAX ltac:(by cbv) message offset ltac:(lia)) as Hb.
  pose proof (payload_taken MAX ltac:(by cbv) message offset ltac:(lia)) as Htake. fold body in Hb, Htake.
  change (Z.min MAX) with (Z.min 16364) in Hb.
  rewrite Hsome in Hheld, Hpart. destruct Hpart as (Hpos & ->).
  unfold accept. rewrite Hsome.
  cbn [header payload message_id total_bytes offset_bytes pm_message_id pm_total_bytes pm_bytes].
  rewrite len_take, !Z.eqb_refl by lia. cbn [negb orb]. rewrite Htake, len_take by lia.
  destruct (Z.eqb_spec (offset + len body) (len message)) as [Heq|Hne]; cbn [negb].
  - unfold complete_partial. cbn [as_partial with_partial as_quota as_direction pm_total_bytes].
    rewrite Hq, Hd.
    destruct (release_in direction quota (len message) s Hok ltac:(lia)) as [Hok' Hheld'].
    do 3 eexists. split; [done|]. right. split; [done|]. split.
    + cbn [pm_bytes]. rewrite Heq. do 2 f_equal. apply take_ge. unfold len. lia.
    + intros next. unfold attachment_expects. cbn. repeat split; try done; lia.
  - do 3 eexists. split; [done|]. left. split; [lia|]. split; [done|].
    unfold attachment_expects. cbn. repeat split; try done; lia.
Qed.

Lemma attachment_push_law st id message offset since now alloc :
  attachment_expects st id message offset since ->
  1 <= id < 2 ^ 32 -> 0 <= offset < len message -> len message <= CAP ->
  let body := payload_at MAX message offset in
  exists st' r, attachment_push st (frame id (len message) offset body) now alloc = Some (st', r) /\
    ((offset + len body < len message /\ r = Ok None /\
      attachment_expects st' id message (offset + len body) now) \/
     (offset + len body = len message /\ r = Ok (Some message) /\
      forall next, attachment_expects st' (id + 1) next 0 now) \/
     ((exists e, r = Err e) /\ attachment_dead st' /\
      (alloc = false \/ PACKET_STALL_MS <= now - since \/ ~ attachment_room))).
Proof.
  destruct st as [s a]. intros Hexp Hid Hoff Hcap body.
  pose proof Hexp as (Hd & Hq & Hc & Hlast & Hok & Hheld & Hpart).
  pose proof (len_payload_at MAX ltac:(by cbv) message offset ltac:(lia)) as Hb. fold body in Hb.
  unfold attachment_push, push. cbn [fst snd]. rewrite Hc.
  destruct (stalled a now) as [[]|e] eqn:Hst.
  - pose proof (attachment_parse_frame (mkHeader id (len message) offset) body) as Hparse.
    cbn [message_id total_bytes offset_bytes] in Hparse.
    rewrite Hparse; [|unfold fields_ok; cbn; numbers; lia|unfold fits; lia].
    cbn [mbind option_bind].
    destruct (as_partial a) as [p|] eqn:Hp.
    + destruct (accept_genuine s a p id message offset since now alloc Hexp Hp Hoff)
        as (s' & a' & r & Hrun & Hcases). fold body in Hrun, Hcases. rewrite Hrun.
      destruct Hcases as [(? & -> & ?)|(? & -> & ?)]; do 2 eexists; (split; [done|]); auto.
    + cbn in Hpart. subst offset. unfold accept. rewrite Hp.
      destruct (attachment_begin_genuine s a id message now alloc) as (s' & a' & r & Hrun & Hcases);
        [by unfold attachment_expects; rewrite Hp|done..|lia|].
      fold body in Hrun, Hcases. rewrite Hrun. rewrite !Z.add_0_l in *.
      destruct Hcases as [(? & -> & ?)|[(? & -> & ?)|([e ->] & Hwhy)]]; do 2 eexists; (split; [done|]); auto.
      right. right. split; [by eexists|]. split; [apply attachment_close_closed|]. tauto.
  - do 2 eexists. split; [done|]. right. right.
    split; [by eexists|]. split; [apply attachment_close_closed|]. right. left.
    unfold stalled in Hst. destruct (as_partial a) as [p|]; [|done].
    destruct Hpart as (_ & ->). cbn [pm_last_fragment_at_ms] in Hst.
    destruct (Z.leb_spec PACKET_STALL_MS (saturating_sub now since)) as [Hle|]; [|done].
    unfold saturating_sub in Hle. numbers. lia.
Qed.

#[export, program] Instance attachment_receiver_laws :
    ReceiverLaws (S * AttachmentTransferPacketAssembler Q) AttachmentTransferPacketError
      frame MAX CAP PACKET_STALL_MS := {|
  expects := attachment_expects;
  dead := attachment_dead;
  room := attachment_room;
|}.
Next Obligation. intros. by apply attachment_push_law. Qed.
Next Obligation.
  intros [s a] packet now alloc Hd. exists Closed. cbn [rc_push attachment_receiver].
  unfold attachment_push, push. cbn [fst snd]. unfold attachment_dead in Hd. cbn in Hd. by rewrite Hd.
Qed.
End AssemblerLaws.

(** ** The queue in front of it *)

Notation total_queued := (queued_total qm_bytes).

Section QueueLaws.
Context {Q S : Type} `{!AttachmentTransferPacketQuota Q S}.
Implicit Types (s : S) (q : AttachmentTransferPacketQueue Q) (st : S * AttachmentTransferPacketQueue Q).

Notation owes_packets := (owed qm_message_id qm_bytes qm_offset_bytes frame MAX).
Notation numbered_from := (numbered qm_message_id qm_bytes qm_offset_bytes CAP).

Record queue_ok q (n : Z) : Prop := {
  qk_open : q_closed q = false;
  qk_count : len (q_messages q) <= n < 2 ^ 32;
  qk_next : q_next_message_id q = (if n =? 2 ^ 32 - 1 then 0 else n + 1);
  qk_messages : numbered_from (n - len (q_messages q) + 1) (q_messages q);
  qk_retained : q_retained_bytes q = total_queued (q_messages q);
  qk_pending : forall p, q_pending q = Some p ->
    encode_next_fragment q true = Some (Ok (Some p));
}.

(** What a message owes next. *)
Definition first_fragment (m : QueuedMessage) : PendingFragment :=
  let body := payload_at MAX (qm_bytes m) (qm_offset_bytes m) in
  mkPending (qm_message_id m) (len body) (qm_offset_bytes m + len body =? len (qm_bytes m))
    (frame (qm_message_id m) (len (qm_bytes m)) (qm_offset_bytes m) body).

(** It is what the queue encodes. *)
Lemma attachment_encode_next_ok q m ms alloc :
  q_messages q = m :: ms ->
  1 <= qm_message_id m -> 1 <= len (qm_bytes m) <= CAP ->
  0 <= qm_offset_bytes m < len (qm_bytes m) ->
  encode_next_fragment q alloc = Some (if alloc then Ok (Some (first_fragment m)) else Err Allocation).
Proof.
  intros Hms Hid Hlen Hoff. unfold first_fragment. set (body := payload_at _ _ _).
  pose proof (len_payload_at MAX ltac:(by cbv) (qm_bytes m) (qm_offset_bytes m) ltac:(lia)) as Hb.
  fold body in Hb. unfold encode_next_fragment. rewrite Hms.
  rewrite (proj2 (Z.ltb_ge _ _)) by lia. rewrite <- Hb.
  rewrite !(proj2 (Z.leb_gt _ _)) by (numbers; lia).
  rewrite slice_get_range by (pose proof (len_nonneg body); change (Z.min MAX) with (Z.min 16364) in Hb; lia).
  assert (take (Z.to_nat (qm_offset_bytes m + len body - qm_offset_bytes m))
            (drop (Z.to_nat (qm_offset_bytes m)) (qm_bytes m)) = body) as ->.
  { rewrite Z.add_simpl_l, Hb. unfold body, payload_at.
    destruct (Z.min_spec MAX (len (qm_bytes m) - qm_offset_bytes m)) as [[? ->]|[Hm ->]]; [done|].
    rewrite !take_ge; [done| |]; unfold len in *; rewrite length_drop; numbers; lia. }
  cbn [mbind option_bind]. change (Z.min MAX) with (Z.min 16364) in Hb.
  rewrite attachment_encode_ok by (unfold fields_ok; cbn; numbers; lia). by destruct alloc.
Qed.

Definition attachment_owes st (n : Z) (ps : list (list byte)) : Prop :=
  queue_ok st.2 n /\ ps = owes_packets (q_messages st.2).

(** Cleared: closed, and holding nothing. *)
Definition attachment_shut st : Prop :=
  q_closed st.2 = true /\ q_messages st.2 = [] /\ q_pending st.2 = None.

Definition attachment_offer st (m : list byte) (grow : bool) := enqueue st.1 st.2 m grow.

Definition attachment_next st (alloc : bool)
    : option (S * AttachmentTransferPacketQueue Q * result (option (list byte)) AttachmentTransferPacketError) :=
  '(st, r) ← next_fragment st.1 st.2 alloc;
  Some (st, match r with
            | Ok (Some _) => Ok (Some (fragment_bytes st.2))
            | Ok None => Ok None
            | Err e => Err e
            end).

Definition attachment_drained st : bool := negb (q_closed st.2) && (len (q_messages st.2) =? 0).

#[export] Instance attachment_sender : Sender (S * AttachmentTransferPacketQueue Q) AttachmentTransferPacketError := {|
  sd_offer := attachment_offer;
  sd_next := attachment_next;
  sd_commit st := commit st.1 st.2;
  sd_clear st := clear st.1 st.2;
  sd_reset st := queue_reset st.1 st.2;
  sd_closed st := q_closed st.2;
  sd_drained := attachment_drained;
|}.

Lemma attachment_offer_law st n ps m grow st' r :
  attachment_owes st n ps -> attachment_offer st m grow = (st', r) ->
  (r = Ok true /\ 1 <= len m <= CAP /\ n + 1 < 2 ^ 32 /\
   attachment_owes st' (n + 1) (ps ++ packets frame MAX (n + 1) m)) \/
  (r <> Ok true /\ attachment_owes st' n ps).
Proof.
  destruct st as [s q]. unfold attachment_owes, attachment_offer, enqueue. cbn [fst snd].
  intros [Hqk ->]. pose proof Hqk as [Ho Hc Hn Hm Hr Hp]. rewrite Ho, Hn.
  destruct (negb _) eqn:Hsize; [intros ?; simplify_eq; by right|]. bool_to_prop.
  destruct (Z.eqb_spec n (2 ^ 32 - 1)) as [->|Hwrap];
    [rewrite Z.eqb_refl; intros ?; simplify_eq; by right|].
  rewrite (proj2 (Z.eqb_neq (n + 1) 0)) by (pose proof (len_nonneg (q_messages q)); lia).
  destruct (quota_reserve _ _ _ s) as [s' []]; cbn [negb]; [|intros ?; simplify_eq; by right].
  destruct grow; cbn [negb]; intros ?; simplify_eq; [left|by right].
  split; [done|]. split; [lia|]. split; [lia|]. cbn [snd q_messages]. split.
  - constructor; cbn; try done.
    + rewrite len_app, len_cons, len_nil. lia.
    + rewrite len_app, len_cons, len_nil.
      replace (n + 1 - (len (q_messages q) + (1 + 0)) + 1) with (n - len (q_messages q) + 1) by lia.
      replace (n + 1) with (n - len (q_messages q) + 1 + len (q_messages q)) by lia.
      apply numbered_snoc; [done|done|done|cbn; lia].
    + rewrite queued_total_app, queued_total_cons, Hr. change (total_queued []) with 0. cbn. lia.
    + intros p Hpend. specialize (Hp p Hpend). unfold encode_next_fragment in Hp |- *. cbn.
      destruct (q_messages q); [done|exact Hp].
  - rewrite owed_app. cbn [owed qm_message_id qm_bytes qm_offset_bytes]. by rewrite app_nil_r.
Qed.

(** What is pending is the first message's next packet. *)
Lemma attachment_pending_first q n m ms alloc :
  queue_ok q n -> q_messages q = m :: ms ->
  encode_next_fragment q alloc = Some (if alloc then Ok (Some (first_fragment m)) else Err Allocation).
Proof.
  intros [Ho Hc Hn Hm Hr Hp] Hms. rewrite Hms, len_cons in Hm. cbn [numbered] in Hm.
  destruct Hm as (Hid & Hb & Hoff & _). rewrite Hms, len_cons in Hc.
  eapply attachment_encode_next_ok; try done. lia.
Qed.

Lemma attachment_next_empty s q n alloc :
  queue_ok q n -> q_messages q = [] ->
  exists q', next_fragment s q alloc = Some (s, q', Ok None) /\ queue_ok q' n /\ q_messages q' = [].
Proof.
  intros Hqk Hms. assert (q_pending q = None) as Hp.
  { destruct (q_pending q) as [p|] eqn:Hp; [|done].
    pose proof (qk_pending _ _ Hqk p Hp) as He. unfold encode_next_fragment in He. by rewrite Hms in He. }
  unfold next_fragment. rewrite Hp. unfold encode_next_fragment. rewrite Hms. cbn.
  eexists. split; [done|]. split; [|done]. destruct Hqk. constructor; cbn; rewrite ?Hms in *; done.
Qed.

Lemma attachment_next_first s q n m ms alloc :
  queue_ok q n -> q_messages q = m :: ms ->
  let q' := mkQueue (q_direction q) (q_quota q) (q_messages q) (Some (first_fragment m))
              (q_next_message_id q) (q_retained_bytes q) (q_closed q) in
  queue_ok q' n /\
  (next_fragment s q alloc = Some (s, q', Ok (fragment_of q')) \/
   (alloc = false /\ next_fragment s q alloc = Some (clear s q, Err Allocation))).
Proof.
  intros Hqk Hms q'. pose proof (attachment_pending_first q n m ms alloc Hqk Hms) as He. split.
  - pose proof (attachment_pending_first q n m ms true Hqk Hms) as He'.
    destruct Hqk as [Ho Hc Hn Hm Hr Hp]. constructor; try done.
    cbn. intros p1 ?. simplify_eq. exact He'.
  - unfold next_fragment. destruct (q_pending q) as [p0|] eqn:Hp.
    + pose proof (qk_pending _ _ Hqk p0 Hp) as He'. rewrite (attachment_pending_first q n m ms true Hqk Hms) in He'.
      injection He' as Hp0. left.
      assert (q' = q) as -> by (unfold q'; rewrite Hp0, <- Hp; by destruct q). done.
    + rewrite He. destruct alloc; [by left|by right].
Qed.

Lemma attachment_next_law st n ps alloc :
  attachment_owes st n ps ->
  exists st' r, attachment_next st alloc = Some (st', r) /\
    ((r = Ok (head ps) /\ attachment_owes st' n ps /\
      (is_Some (head ps) -> forall alloc', attachment_next st' alloc' = Some (st', r))) \/
     ((exists e, r = Err e) /\ attachment_shut st' /\ alloc = false)).
Proof.
  destruct st as [s q]. intros [Hqk ->]. cbn [snd] in *. unfold attachment_next. cbn [fst snd].
  destruct (q_messages q) as [|m ms] eqn:Hms.
  - destruct (attachment_next_empty s q n alloc Hqk Hms) as (q' & -> & Hqk' & Hms'). cbn [mbind option_bind].
    do 2 eexists. split; [done|]. left. split; [done|].
    split; [by split; [|cbn; rewrite Hms']|]. by intros [? ?].
  - pose proof (qk_messages _ _ Hqk) as Hm. rewrite Hms in Hm. cbn in Hm.
    destruct (attachment_next_first s q n m ms alloc Hqk Hms) as [Hqk' [-> | [-> ->]]].
    + cbn [mbind option_bind]. do 2 eexists. split; [done|]. left. split.
      { cbn. rewrite packets_from_step; [done|by cbv|tauto]. }
      split; [split; [done|cbn; by rewrite Hms]|]. by intros _ alloc'.
    + cbn [mbind option_bind]. do 2 eexists. split; [done|]. right. by split; [eexists|].
Qed.

Lemma attachment_commit_ok s q n m ms :
  queue_ok q n -> q_messages q = m :: ms -> is_Some (q_pending q) ->
  let body := payload_at MAX (qm_bytes m) (qm_offset_bytes m) in
  exists s' q', commit s q = Some (s', q') /\ queue_ok q' n /\
    owes_packets (q_messages q') = tail (owes_packets (m :: ms)).
Proof.
  intros Hqk Hms [p Hp] body.
  pose proof (qk_pending _ _ Hqk p Hp) as He'. rewrite (attachment_pending_first q n m ms true Hqk Hms) in He'.
  injection He' as <-.
  pose proof Hqk as [Ho Hc Hn Hm Hr _]. rewrite Hms in Hm. cbn [numbered] in Hm.
  rewrite Hms, len_cons in Hc. rewrite len_cons in Hm. destruct Hm as (Hid & Hb & Hoff & Hz & Hrest).
  pose proof (queued_total_nonneg qm_bytes ms).
  pose proof (len_payload_at MAX ltac:(by cbv) (qm_bytes m) (qm_offset_bytes m) ltac:(lia)) as Hbody.
  fold body in Hbody. change (Z.min MAX) with (Z.min 16364) in Hbody.
  unfold commit. rewrite Hp, Hms. cbn [pf_payload_bytes first_fragment]. fold body.
  cbn [owed]. rewrite packets_from_step by (done || by cbv). fold body. cbn [tail app].
  rewrite Hms in Hr. rewrite queued_total_cons in Hr.
  destruct (Z.eqb_spec (qm_offset_bytes m + len body) (len (qm_bytes m))) as [Heq|Hne]; cbn [negb].
  - rewrite (proj2 (Z.ltb_ge _ _)) by lia.
    do 2 eexists. split; [done|]. split.
    + constructor; cbn; try done; [lia| |lia].
      by replace (n - len ms + 1) with (n - (1 + len ms) + 1 + 1) by lia.
    + cbn. by rewrite (packets_from_done _ _ _ (qm_bytes m)) by lia.
  - do 2 eexists. split; [done|]. split; [|done].
    constructor; cbn; try done.
    + rewrite len_cons. lia.
    + rewrite len_cons. repeat split; try done; lia.
Qed.

Lemma attachment_commit_law st n ps alloc st' p :
  attachment_owes st n ps -> attachment_next st alloc = Some (st', Ok (Some p)) ->
  exists st'', commit st'.1 st'.2 = Some st'' /\ attachment_owes st'' n (tail ps).
Proof.
  destruct st as [s q]. intros [Hqk ->] Hnext. unfold attachment_next in Hnext. cbn [fst snd] in *.
  destruct (q_messages q) as [|m ms] eqn:Hms.
  - destruct (attachment_next_empty s q n alloc Hqk Hms) as (q' & He & _). rewrite He in Hnext. by cbn in Hnext.
  - destruct (attachment_next_first s q n m ms alloc Hqk Hms) as [Hqk' [He|[_ He]]]; rewrite He in Hnext; cbn in Hnext; [|done].
    injection Hnext as <- <-. cbn [fst snd].
    destruct (attachment_commit_ok s _ n m ms Hqk') as (s'' & q'' & Hc & Hok & Howed); [done|by eexists|].
    exists (s'', q''). split; [done|]. by split.
Qed.

#[export, program] Instance attachment_sender_laws :
    SenderLaws (S * AttachmentTransferPacketQueue Q) AttachmentTransferPacketError frame MAX CAP := {|
  owes := attachment_owes;
  shut := attachment_shut;
|}.
Next Obligation. intros. by eapply attachment_offer_law. Qed.
Next Obligation. intros. by apply attachment_next_law. Qed.
Next Obligation. intros st n ps alloc st' p. apply attachment_commit_law. Qed.
Next Obligation.
  intros [s q] m grow st' r (Hc & Hsh). cbn. unfold attachment_offer, enqueue. cbn in *. rewrite Hc.
  intros ?; simplify_eq. by split.
Qed.
Next Obligation.
  intros [s q] alloc (Hc & Hm & Hp). exists (s, q). cbn in *. unfold attachment_next, next_fragment.
  cbn [fst snd]. rewrite Hp. unfold encode_next_fragment. rewrite Hm. destruct q; cbn in *. by subst.
Qed.
Next Obligation. by intros [s q] n ps _. Qed.
Next Obligation. intros [s q] n ps _. split; [by constructor|done]. Qed.
Next Obligation.
  intros [s q] n ps [Hqk ->]. cbn [snd] in *. cbn. unfold attachment_drained. cbn. rewrite (qk_open _ _ Hqk). cbn.
  rewrite Z.eqb_eq, len_zero_nil. destruct (q_messages q) as [|m ms] eqn:Hms; [done|].
  split; [done|]. cbn [owed]. pose proof (qk_messages _ _ Hqk) as Hm. rewrite Hms in Hm. cbn in Hm.
  rewrite packets_from_step; [done|by cbv|tauto].
Qed.
Next Obligation. intros [s q] n ps [Hqk _]. apply Hqk. Qed.
Next Obligation. intros [s q] (Hc & _). cbn in *. unfold attachment_drained. cbn. by rewrite Hc. Qed.
End QueueLaws.


(** ** The assembler on any packets *)

Section AssemblerAny.
Context {Q S : Type} `{!AttachmentTransferPacketQuota Q S}.
Context `{PL : !PacketQuotaLaws (Q * AttachmentTransferPacketDirection) S}.
Context (direction : AttachmentTransferPacketDirection) (quota : Q) (base : Z).
Notation held_here := (held_in direction quota).
Implicit Types (s : S) (a : AttachmentTransferPacketAssembler Q) (st : S * AttachmentTransferPacketAssembler Q).

(** What the partial message is charged. *)
Definition charged (p : option PartialMessage) : Z :=
  match p with Some p => pm_total_bytes p | None => 0 end.

Definition part_of (p : option PartialMessage) (id : Z) (part : list byte) (total : Z) : Prop :=
  match p with
  | None => part = []
  | Some p => exists since, p = mkPartial id total part since /\
      0 < len part < total /\ total <= CAP /\ id < 2 ^ 32
  end.

Definition attachment_took st (id : Z) (part : list byte) (total : Z) : Prop :=
  let '(s, a) := st in
  as_direction a = direction /\ as_quota a = quota /\ as_closed a = false /\
  last_completed_message_id a = id /\ 0 <= id < 2 ^ 32 /\
  quota_ok s /\ held_here s = base + charged (as_partial a) /\
  part_of (as_partial a) (id + 1) part total.

Definition attachment_spent st : Prop :=
  let '(s, a) := st in
  as_closed a = true /\ as_partial a = None /\ quota_ok s /\ held_here s = base.

Lemma attachment_close_spent s a :
  as_direction a = direction -> as_quota a = quota -> quota_ok s -> 0 <= base -> held_here s = base + charged (as_partial a) ->
  (forall p, as_partial a = Some p -> 0 < pm_total_bytes p) -> attachment_spent (close_internal s a).
Proof.
  intros Hd Hq Hok Hbase Hheld Hpos. unfold close_internal, release_partial, with_closed, with_partial. cbn.
  destruct (as_partial a) as [p|]; cbn in *.
  - specialize (Hpos p eq_refl). rewrite Hq, Hd.
    destruct (release_in direction quota (pm_total_bytes p) s Hok ltac:(lia)) as [? ?].
    repeat split; try done. lia.
  - repeat split; try done. lia.
Qed.

Lemma attachment_begin_any s a id p now alloc :
  0 <= base -> attachment_took (s, a) id [] 0 -> as_partial a = None ->
  fields_ok (header p) (len (payload p)) -> fits 32 (message_id (header p)) ->
  exists s' a' r, begin_message s a p now alloc = (s', a', r) /\
    (((exists e, r = Err e) /\ attachment_spent (close_internal s' a')) \/
     (message_id (header p) = id + 1 /\ offset_bytes (header p) = 0 /\
      ((len (payload p) < total_bytes (header p) /\ r = Ok None /\
        attachment_took (s', a') id (payload p) (total_bytes (header p))) \/
       (len (payload p) = total_bytes (header p) /\ r = Ok (Some (payload p)) /\
        attachment_took (s', a') (id + 1) [] 0)))).
Proof.
  intros Hbase (Hl & Hq & Hc & Hlast & Hid & Hok & Hheld & _) Hnone Hf Hfit.
  pose proof Hf as (Hid1 & Hoff & Htot & Hlen & Hend).
  destruct p as [[mid total offset] body]. cbn [header payload message_id total_bytes offset_bytes] in *.
  rewrite Hnone in Hheld. cbn [charged] in Hheld. unfold fits in Hfit.
  assert (Hclose : forall s', quota_ok s' -> held_here s' = base -> attachment_spent (close_internal s' a)).
  { intros s' ? ?. apply attachment_close_spent; try done; rewrite Hnone; [cbn; lia|done]. }
  unfold begin_message. rewrite Hlast, Hq, Hl. cbn [header payload message_id total_bytes offset_bytes].
  destruct (Z.eqb_spec id (2 ^ 32 - 1)); [do 3 eexists; split; [done|]; left; split; [by eexists|apply Hclose; [done|lia]]|].
  destruct (Z.eqb_spec mid (id + 1)) as [->|], (Z.eqb_spec offset 0) as [->|]; cbn [negb orb];
    try (do 3 eexists; split; [done|]; left; split; [by eexists|apply Hclose; [done|lia]]).
  destruct (quota_reserve quota direction total s) as [s' granted] eqn:Hres.
  destruct (reserve_in direction quota total s _ _ Hok ltac:(lia) Hres) as [Hok' Hheld'].
  destruct granted; cbn [negb] in *.
  2: { do 3 eexists; split; [done|]; left; split; [by eexists|apply Hclose; [done|lia]]. }
  destruct (release_in direction quota total s' Hok' ltac:(lia)) as [Hok'' Hheld''].
  destruct (Z.eqb_spec (len body) total) as [Heq|Hne].
  - do 3 eexists. split; [done|]. right. split; [done|]. split; [done|]. right.
    split; [done|]. split; [done|]. unfold attachment_took. cbn. rewrite Hnone. cbn.
    repeat split; try done; lia.
  - destruct alloc; cbn [negb];
      [|do 3 eexists; split; [done|]; left; split; [by eexists|apply Hclose; [done|lia]]].
    do 3 eexists. split; [done|]. right. split; [done|]. split; [done|]. left.
    split; [lia|]. split; [done|]. unfold attachment_took. cbn. repeat split; try done; [lia..|].
    exists now. split; [done|]. lia.
Qed.

Lemma accept_any s a pm id part total p now alloc :
  0 <= base -> attachment_took (s, a) id part total -> as_partial a = Some pm ->
  fields_ok (header p) (len (payload p)) ->
  exists s' a' r, accept s a p now alloc = (s', a', r) /\
    (((exists e, r = Err e) /\ attachment_spent (close_internal s' a')) \/
     (message_id (header p) = id + 1 /\ offset_bytes (header p) = len part /\
      total_bytes (header p) = total /\
      ((len (part ++ payload p) < total /\ r = Ok None /\ attachment_took (s', a') id (part ++ payload p) total) \/
       (len (part ++ payload p) = total /\ r = Ok (Some (part ++ payload p)) /\
        attachment_took (s', a') (id + 1) [] 0)))).
Proof.
  intros Hbase (Hl & Hq & Hc & Hlast & Hid & Hok & Hheld & Hpart) Hsome Hf.
  pose proof Hf as (Hid1 & Hoff & Htot & Hlen & Hend).
  destruct p as [[mid total' offset] body]. cbn [header payload message_id total_bytes offset_bytes] in *.
  rewrite Hsome in Hheld, Hpart. destruct Hpart as (since & -> & Hpos & Hcap & Hids).
  cbn [charged pm_total_bytes] in Hheld. unfold accept. rewrite Hsome.
  cbn [header payload message_id total_bytes offset_bytes pm_message_id pm_total_bytes pm_bytes].
  destruct (_ || _ || _) eqn:Hchk.
  { do 3 eexists. split; [done|]. left. split; [by eexists|].
    apply attachment_close_spent; try done; rewrite Hsome; cbn; [lia|]. intros ? ?. simplify_eq. cbn. lia. }
  bool_to_prop. subst mid total' offset. rewrite len_app.
  destruct (Z.eqb_spec (len part + len body) total) as [Heq|Hne]; cbn [negb].
  - unfold complete_partial. cbn [as_partial with_partial as_quota as_direction pm_total_bytes]. rewrite Hq, Hl.
    destruct (release_in direction quota total s Hok ltac:(lia)) as [Hok' Hheld'].
    do 3 eexists. split; [done|]. right. split; [done|]. split; [done|]. split; [done|]. right.
    split; [done|]. split; [done|]. unfold attachment_took. cbn. repeat split; try done; lia.
  - do 3 eexists. split; [done|]. right. split; [done|]. split; [done|]. split; [done|]. left.
    split; [lia|]. split; [done|]. unfold attachment_took. cbn. repeat split; try done; [lia..|].
    exists now. rewrite !len_app. split; [done|]. lia.
Qed.

Lemma attachment_any_push st id part total packet now alloc :
  0 <= base -> attachment_took st id part total ->
  exists st' r, attachment_push st packet now alloc = Some (st', r) /\
    (((exists e, r = Err e) /\ attachment_spent st') \/
     exists total' body,
       packet = frame (id + 1) total' (len part) body /\ (part = [] \/ total' = total) /\
       1 <= len body <= MAX /\ total' <= CAP /\
       ((len (part ++ body) < total' /\ r = Ok None /\ attachment_took st' id (part ++ body) total') \/
        (len (part ++ body) = total' /\ r = Ok (Some (part ++ body)) /\ attachment_took st' (id + 1) [] 0))).
Proof.
  destruct st as [s a]. intros Hbase Htook. pose proof Htook as (Hl & Hq & Hc & Hlast & Hid & Hok & Hheld & Hpart).
  assert (Hclose : attachment_spent (close_internal s a)).
  { apply attachment_close_spent; try done. intros p Hp. rewrite Hp in Hpart.
    destruct Hpart as (? & -> & ? & ?). cbn. lia. }
  unfold attachment_push, push. cbn [fst snd]. rewrite Hc.
  destruct (stalled a now) as [[]|e].
  2: { do 2 eexists. split; [done|]. left. split; [by eexists|done]. }
  destruct (attachment_parse_any packet) as (r & -> & Hr). cbn [mbind option_bind].
  destruct r as [p|e].
  2: { do 2 eexists. split; [done|]. left. split; [by eexists|done]. }
  destruct Hr as (Hf & Hfit & ->). pose proof Hf as (_ & _ & Hcap & Hbody & _).
  destruct (as_partial a) as [pm|] eqn:Hpm.
  - destruct (accept_any s a pm id part total p now alloc Hbase Htook Hpm Hf)
      as (s' & a' & r & -> & [([e ->] & Hsp)|(Hmid & Hoff & Htot & Hcase)]).
    + do 2 eexists. split; [done|]. left. split; [by eexists|done].
    + rewrite Hmid, Hoff, Htot in *.
      destruct Hcase as [(? & -> & ?)|(? & -> & ?)]; do 2 eexists; (split; [done|]); right;
        exists total, (payload p); (split; [done|]); split_and!; auto; try lia.
  - cbn in Hpart. subst part. unfold accept. rewrite Hpm.
    destruct (attachment_begin_any s a id p now alloc Hbase) as (s' & a' & r & -> & Hcase); try done.
    { unfold attachment_took. by rewrite Hpm. }
    destruct Hcase as [([e ->] & Hsp)|(Hmid & Hoff & Hcase)].
    + do 2 eexists. split; [done|]. left. split; [by eexists|done].
    + rewrite Hmid, Hoff in *. cbn [app].
      destruct Hcase as [(? & -> & ?)|(? & -> & ?)]; do 2 eexists; (split; [done|]); right;
        exists (total_bytes (header p)), (payload p); (split; [done|]); split_and!; auto; try lia.
Qed.

Hypothesis base_nonneg : 0 <= base.

#[export, program] Instance attachment_careful :
    CarefulReceiver (S * AttachmentTransferPacketAssembler Q) AttachmentTransferPacketError
      frame MAX CAP := {|
  took := attachment_took;
  spent := attachment_spent;
|}.
Next Obligation. intros. by apply attachment_any_push. Qed.
Next Obligation.
  intros [s a] packet now alloc (Hc & _). exists Closed. cbn [rc_push attachment_receiver].
  unfold attachment_push, push. cbn [fst snd]. by rewrite Hc.
Qed.
End AssemblerAny.


(** ** The queue's bytes *)


Section QueueBytes.
Context {Q S : Type} `{!AttachmentTransferPacketQuota Q S}.
Context `{PL : !PacketQuotaLaws (Q * AttachmentTransferPacketDirection) S}.
Context (direction : AttachmentTransferPacketDirection) (quota : Q) (base : Z).
Notation held_here := (held_in direction quota).
Implicit Types (s : S) (q : AttachmentTransferPacketQueue Q) (st : S * AttachmentTransferPacketQueue Q).

(** The queue is charged what it counts, and counts what it holds. *)
Definition bytes_held st : Prop :=
  let '(s, q) := st in
  q_direction q = direction /\ q_quota q = quota /\ quota_ok s /\ held_here s = base + q_retained_bytes q /\
  q_retained_bytes q = total_queued (q_messages q) /\
  Forall (fun m => 1 <= len (qm_bytes m)) (q_messages q).

Hypothesis base_nonneg : 0 <= base.

Lemma attachment_bytes_clear st : bytes_held st -> bytes_held (clear st.1 st.2).
Proof.
  destruct st as [s q]. intros (Hd & Hq & Hok & Hheld & Hr & Hms). cbn. rewrite Hq, Hd, Hr in *.
  destruct (release_all qm_bytes (quota, direction) base (q_messages q) s base_nonneg Hok Hheld Hms) as [Hok' Hheld'].
  rewrite Z.add_0_r. split_and!; [done|done|exact Hok'|exact Hheld'|done|constructor].
Qed.

Lemma attachment_bytes_offer st m grow st' r : bytes_held st -> attachment_offer st m grow = (st', r) -> bytes_held st'.
Proof.
  destruct st as [s q]. intros Hb. pose proof Hb as (Hd & Hq & Hok & Hheld & Hr & Hms).
  unfold attachment_offer, enqueue. cbn [fst snd]. rewrite Hq, Hd.
  destruct (q_closed q); [intros; by simplify_eq|].
  destruct (negb _) eqn:Hsize; [intros; by simplify_eq|]. bool_to_prop.
  destruct (q_next_message_id q =? 0); [intros; by simplify_eq|].
  destruct (quota_reserve quota direction (len m) s) as [s1 granted] eqn:Hres.
  destruct (reserve_in direction quota (len m) s _ _ Hok ltac:(lia) Hres) as [Hok1 Hheld1].
  destruct granted; cbn [negb]; [|intros; simplify_eq; split_and!; try done; lia].
  pose proof (queued_total_nonneg qm_bytes (q_messages q)).
  destruct grow; cbn [negb]; intros; simplify_eq; cbn.
  - split_and!; try done; [lia| |].
    + rewrite queued_total_app, queued_total_cons, Hr. change (total_queued []) with 0. cbn. lia.
    + apply Forall_app. split; [done|]. constructor; [cbn; lia|done].
  - destruct (release_in direction quota (len m) s1 Hok1 ltac:(lia)) as [? ?]. split_and!; try done; lia.
Qed.

Lemma attachment_bytes_next st alloc st' r : bytes_held st -> attachment_next st alloc = Some (st', r) -> bytes_held st'.
Proof.
  destruct st as [s q]. intros Hb. unfold attachment_next, next_fragment. cbn [fst snd].
  destruct (q_pending q) as [p|]; [intros; by simplify_eq/=|].
  destruct (encode_next_fragment q alloc) as [[p|e]|]; cbn; intros; simplify_eq; try done.
  by apply (attachment_bytes_clear (s, q)).
Qed.

Lemma attachment_bytes_commit st st' : bytes_held st -> commit st.1 st.2 = Some st' -> bytes_held st'.
Proof.
  destruct st as [s q]. intros Hb. pose proof Hb as (Hd & Hq & Hok & Hheld & Hr & Hms). unfold commit.
  cbn [fst snd]. destruct (q_pending q) as [p|]; [|intros; by simplify_eq].
  destruct (q_messages q) as [|m ms] eqn:Hm; [intros; simplify_eq; by split_and!|].
  rewrite queued_total_cons in Hr.
  pose proof (queued_total_nonneg qm_bytes ms). apply Forall_cons in Hms as [Hm1 Hms].
  destruct (negb _) eqn:Hdone; [intros; simplify_eq; split_and!; try done; by constructor|].
  case_if; [done|]. rewrite Hq, Hd. intros; simplify_eq. cbn.
  destruct (release_in direction quota (len (qm_bytes m)) s Hok ltac:(lia)) as [? ?].
  split_and!; try done; lia.
Qed.

Lemma attachment_bytes_reset st : bytes_held st -> bytes_held (queue_reset st.1 st.2).
Proof. intros Hb. apply attachment_bytes_clear in Hb. destruct st as [s q]. exact Hb. Qed.

Lemma attachment_bytes_run ops st log st' log' :
  bytes_held st -> send_run st log ops = Some (st', log') -> bytes_held st'.
Proof.
  apply send_run_keeps; [apply attachment_bytes_offer|apply attachment_bytes_next|apply attachment_bytes_commit|apply attachment_bytes_clear|apply attachment_bytes_reset].
Qed.
End QueueBytes.

(** ** Only through its handle

    What the reserves and releases of its own handle keep, every operation of an
    assembler and of a queue keeps. *)
Section Through.
Context {Q S : Type} `{!AttachmentTransferPacketQuota Q S}.
Context (P : S -> Prop) (quota : Q) (direction : AttachmentTransferPacketDirection).
Hypothesis reserve_keeps : forall n s, P s -> P (quota_reserve quota direction n s).1.
Hypothesis release_keeps : forall n s, P s -> P (quota_release quota direction n s).
Implicit Types (s : S) (a : AttachmentTransferPacketAssembler Q) (q : AttachmentTransferPacketQueue Q).

Definition its_assembler a : Prop := as_quota a = quota /\ as_direction a = direction.
Definition its_queue q : Prop := q_quota q = quota /\ q_direction q = direction.

Lemma release_partial_through s a :
  its_assembler a -> P s -> P (release_partial s a).1 /\ its_assembler (release_partial s a).2.
Proof.
  intros [Hq Hd] HP. unfold release_partial. destruct (as_partial a); cbn; [|done].
  rewrite Hq, Hd. split; [by apply release_keeps|done].
Qed.

Lemma reset_through s a :
  its_assembler a -> P s -> P (reset s a).1 /\ its_assembler (reset s a).2.
Proof.
  intros Ha HP. destruct (release_partial_through s a Ha HP) as [HP' Ha']. unfold reset.
  by destruct (release_partial s a).
Qed.

Lemma close_internal_through s a :
  its_assembler a -> P s -> P (close_internal s a).1 /\ its_assembler (close_internal s a).2.
Proof. intros Ha. by apply release_partial_through. Qed.

Lemma expire_through s a now_ms :
  its_assembler a -> P s -> P (expire s a now_ms).1.1 /\ its_assembler (expire s a now_ms).1.2.
Proof.
  intros Ha HP. unfold expire. destruct (as_partial a); [|done]. case_if; [done|].
  by apply close_internal_through.
Qed.

Lemma begin_through s a packet now_ms alloc :
  its_assembler a -> P s ->
  P (begin_message s a packet now_ms alloc).1.1 /\ its_assembler (begin_message s a packet now_ms alloc).1.2.
Proof.
  intros [Hq Hd] HP. unfold begin_message. rewrite Hq, Hd. repeat (case_if; [done|]).
  pose proof (reserve_keeps (total_bytes (header packet)) s HP) as HP'.
  destruct (quota_reserve _ _ _ s) as [s' granted]. cbn in HP'.
  repeat (case_if; [split; cbn; [by auto|by split]|]). split; cbn; [by auto|by split].
Qed.

Lemma accept_through s a packet now_ms alloc :
  its_assembler a -> P s ->
  P (accept s a packet now_ms alloc).1.1 /\ its_assembler (accept s a packet now_ms alloc).1.2.
Proof.
  intros Ha HP. unfold accept. destruct (as_partial a); [|by apply begin_through].
  destruct Ha as [Hq Hd]. repeat (case_if; [done|]). cbn. rewrite Hq, Hd.
  split; [by auto|by split].
Qed.

Lemma push_through s a packet now_ms alloc s' a' r :
  push s a packet now_ms alloc = Some (s', a', r) -> its_assembler a -> P s -> P s' /\ its_assembler a'.
Proof.
  intros Hpush Ha HP. pose proof (close_internal_through s a Ha HP) as Hc. unfold push in Hpush.
  case_if; [by simplify_eq|]. destruct (stalled a now_ms); [|by destruct (close_internal s a); simplify_eq].
  destruct (parse_attachment_transfer_packet packet) as [[p|e]|]; cbn in Hpush; [| |done];
    [|by destruct (close_internal s a); simplify_eq].
  destruct (accept_through s a p now_ms alloc Ha HP) as [HP1 Ha1].
  destruct (accept s a p now_ms alloc) as [[s1 a1] [m|e]]; cbn in *; [by simplify_eq|].
  pose proof (close_internal_through s1 a1 Ha1 HP1) as Hc1.
  by destruct (close_internal s1 a1); simplify_eq.
Qed.

Lemma clear_through s q : its_queue q -> P s -> P (clear s q).1 /\ its_queue (clear s q).2.
Proof.
  intros [Hq Hd] HP. unfold clear. cbn. rewrite Hq, Hd. split; [|done].
  clear Hq Hd. revert s HP. induction (q_messages q) as [|m ms IH]; intros s HP; [done|]. cbn. auto.
Qed.

Lemma enqueue_through s q bytes grow :
  its_queue q -> P s -> P (enqueue s q bytes grow).1.1 /\ its_queue (enqueue s q bytes grow).1.2.
Proof.
  intros [Hq Hd] HP. unfold enqueue. rewrite Hq, Hd. repeat (case_if; [done|]).
  pose proof (reserve_keeps (len bytes) s HP) as HP'.
  destruct (quota_reserve _ _ _ s) as [s' granted]. cbn in HP'.
  repeat (case_if; [split; cbn; [by auto|by split]|]). split; cbn; [by auto|by split].
Qed.

Lemma next_through s q alloc s' q' r :
  next_fragment s q alloc = Some (s', q', r) -> its_queue q -> P s -> P s' /\ its_queue q'.
Proof.
  intros Hn Hq HP. pose proof (clear_through s q Hq HP) as Hc. unfold next_fragment in Hn.
  destruct (q_pending q); [by simplify_eq|].
  destruct (encode_next_fragment q alloc) as [[p|e]|]; cbn in Hn; [by simplify_eq| |done].
  by destruct (clear s q); simplify_eq.
Qed.

Lemma commit_through s q s' q' :
  commit s q = Some (s', q') -> its_queue q -> P s -> P s' /\ its_queue q'.
Proof.
  intros Hn [Hq Hd] HP. unfold commit in Hn. rewrite Hq, Hd in Hn.
  destruct (q_pending q); [|by simplify_eq]. destruct (q_messages q); [by simplify_eq|].
  case_if; [by simplify_eq|]. case_if; [done|]. simplify_eq. split; [by auto|by split].
Qed.
End Through.
