(* ===== verification/AttachmentPort.v ===== *)
(** * AttachmentPort: one upload's port and the bytes it may hold

    [roost-worker/src/attachments]: the retained-byte quotas of the attachment
    peers ([peer_budget.rs]) and the port over them, two lanes of queues and
    assemblers with its deadlines, its gates and its close
    ([peer_packet_port.rs], [peer_packet_egress.rs]).  What the native peer
    answers is a class; the tasks that wait for a deadline are events. *)
From Stdlib Require Import Ascii String.
From S2P Require Export AttachmentPackets.

(** ** The quotas of every peer *)

(** [WorkerData], [LaneBytes]. *)
Record WorkerData := mkWorkerData {
  wd_retained : Z;
  wd_disposed : bool;
}.

Record LaneBytes := mkLaneBytes {
  lb_incoming : Z;
  lb_outgoing : Z;
  lb_disposed : bool;
}.

#[global] Instance PeerChannelLane_countable : Countable PeerChannelLane.
Proof.
  refine (inj_countable' (fun l => match l with Control => false | Data => true end)
            (fun b : bool => if b then Data else Control) _). by intros [].
Defined.

(** What the shared counters hold: the worker's, and each lane's of each peer. *)
Record Budgets := mkBudgets {
  worker_data : WorkerData;
  lane_bytes : gmap (Z * PeerChannelLane) LaneBytes;
}.

(** [AttachmentPeerPacketBudget::new]. *)
Definition budget_new : Budgets := mkBudgets (mkWorkerData 0 false) ∅.

(** [AttachmentPeerLaneQuota]: a reference to the bytes of a lane of a peer. The
    bound and whether the worker's ceiling counts too are fixed by the lane, in
    [create_peer_budget]. *)
Record AttachmentPeerLaneQuota := mkLaneQuota {
  lq_peer : Z;
  lq_lane : PeerChannelLane;
}.

Definition max_bytes (q : AttachmentPeerLaneQuota) : Z :=
  match lq_lane q with
  | Control => PEER_CONTROL_QUEUE_MAX_BYTES
  | Data => PEER_DATA_QUEUE_MAX_BYTES
  end.

Definition shared (q : AttachmentPeerLaneQuota) : bool :=
  match lq_lane q with Control => false | Data => true end.

Definition lane_key (q : AttachmentPeerLaneQuota) : Z * PeerChannelLane := (lq_peer q, lq_lane q).

(** [create_peer_budget]: two lanes of a peer that has none. *)
Definition create_peer_budget (s : Budgets) (peer : Z) : Budgets :=
  mkBudgets (worker_data s)
    (<[(peer, Control) := mkLaneBytes 0 0 false]>
     (<[(peer, Data) := mkLaneBytes 0 0 false]> (lane_bytes s))).

Definition with_worker (f : WorkerData -> WorkerData) (s : Budgets) : Budgets :=
  mkBudgets (f (worker_data s)) (lane_bytes s).

Definition lane_of (s : Budgets) (q : AttachmentPeerLaneQuota) : LaneBytes :=
  default (mkLaneBytes 0 0 true) (lane_bytes s !! lane_key q).

Definition with_lane (q : AttachmentPeerLaneQuota) (f : LaneBytes -> LaneBytes) (s : Budgets) : Budgets :=
  mkBudgets (worker_data s) (alter f (lane_key q) (lane_bytes s)).

Definition direction_bytes (direction : AttachmentTransferPacketDirection) (lane : LaneBytes) : Z :=
  match direction with Incoming => lb_incoming lane | Outgoing => lb_outgoing lane end.

Definition set_direction (direction : AttachmentTransferPacketDirection) (n : Z) (lane : LaneBytes) : LaneBytes :=
  match direction with
  | Incoming => mkLaneBytes n (lb_outgoing lane) (lb_disposed lane)
  | Outgoing => mkLaneBytes (lb_incoming lane) n (lb_disposed lane)
  end.

(** [AttachmentPeerPacketBudget::dispose]. *)
Definition budget_dispose (s : Budgets) : Budgets :=
  with_worker (fun _ => mkWorkerData 0 true) s.

(** [retained_data_bytes]. *)
Definition retained_data_bytes (s : Budgets) : Z := wd_retained (worker_data s).

(** [reserve_worker_data]. *)
Definition reserve_worker_data (bytes : Z) (s : Budgets) : Budgets * bool :=
  let w := worker_data s in
  if wd_disposed w || (saturating_sub PEER_WORKER_DATA_QUEUE_MAX_BYTES (wd_retained w) <? bytes)
  then (s, false)
  else (with_worker (fun w => mkWorkerData (wd_retained w + bytes) (wd_disposed w)) s, true).

(** [release_worker_data]. *)
Definition release_worker_data (bytes : Z) (s : Budgets) : Budgets :=
  with_worker (fun w => mkWorkerData (saturating_sub (wd_retained w) bytes) (wd_disposed w)) s.

(** [AttachmentPeerLaneQuota::reserve]: the worker's counter is taken under the
    lane's lock. *)
Definition lane_reserve (q : AttachmentPeerLaneQuota) (direction : AttachmentTransferPacketDirection)
    (bytes : Z) (s : Budgets) : Budgets * bool :=
  let lane := lane_of s q in
  let retained := direction_bytes direction lane in
  if lb_disposed lane || (saturating_sub (max_bytes q) retained <? bytes) then (s, false) else
  let '(s, granted) := if shared q then reserve_worker_data bytes s else (s, true) in
  if negb granted then (s, false) else
  (with_lane q (fun lane => set_direction direction (direction_bytes direction lane + bytes) lane) s, true).

(** The part of [AttachmentPeerLaneQuota::release] under the lane's lock. *)
Definition release_lane (q : AttachmentPeerLaneQuota) (direction : AttachmentTransferPacketDirection)
    (bytes : Z) (s : Budgets) : Budgets :=
  with_lane q (fun lane =>
    set_direction direction (saturating_sub (direction_bytes direction lane) bytes) lane) s.

(** [AttachmentPeerLaneQuota::release]: that, then the worker's counter. *)
Definition lane_release (q : AttachmentPeerLaneQuota) (direction : AttachmentTransferPacketDirection)
    (bytes : Z) (s : Budgets) : Budgets :=
  let s := release_lane q direction bytes s in
  if shared q then release_worker_data bytes s else s.

(** The part of [AttachmentPeerLaneQuota::dispose] under the lane's lock: what it
    gives back, unless it was disposed before. *)
Definition dispose_lane (q : AttachmentPeerLaneQuota) (s : Budgets) : Budgets * option Z :=
  let lane := lane_of s q in
  if lb_disposed lane then (s, None)
  else (with_lane q (fun _ => mkLaneBytes 0 0 true) s, Some (lb_incoming lane + lb_outgoing lane)).

(** [AttachmentPeerLaneQuota::dispose]. *)
Definition lane_dispose (q : AttachmentPeerLaneQuota) (s : Budgets) : Budgets :=
  match dispose_lane q s with
  | (s, Some released) => if shared q then release_worker_data released s else s
  | (s, None) => s
  end.

(** [AttachmentPeerPacketPeerBudget::control], [data], [dispose]. *)
Definition control_quota (peer : Z) : AttachmentPeerLaneQuota := mkLaneQuota peer Control.
Definition data_quota (peer : Z) : AttachmentPeerLaneQuota := mkLaneQuota peer Data.
Definition peer_dispose (peer : Z) (s : Budgets) : Budgets :=
  lane_dispose (data_quota peer) (lane_dispose (control_quota peer) s).

#[global] Instance lane_quota : AttachmentTransferPacketQuota AttachmentPeerLaneQuota Budgets := {|
  quota_reserve := lane_reserve;
  quota_release := lane_release;
|}.

(** ** The counters agree *)

(** What a lane counts towards the worker's ceiling. *)
Definition share (key : Z * PeerChannelLane) (lane : LaneBytes) : Z :=
  match key.2 with Control => 0 | Data => lb_incoming lane + lb_outgoing lane end.

Definition data_total (lanes : gmap (Z * PeerChannelLane) LaneBytes) : Z :=
  map_fold (fun key lane n => share key lane + n) 0 lanes.

Lemma data_total_insert lanes key lane :
  lanes !! key = None -> data_total (<[key := lane]> lanes) = share key lane + data_total lanes.
Proof. intros H. unfold data_total. rewrite map_fold_insert_L; [done| |done]. intros. lia. Qed.

Lemma data_total_delete lanes key lane :
  lanes !! key = Some lane -> data_total lanes = share key lane + data_total (delete key lanes).
Proof.
  intros H. unfold data_total.
  rewrite (map_fold_delete_L _ _ key lane lanes); [done| |done]. intros. lia.
Qed.

Lemma data_total_alter f lanes key lane :
  lanes !! key = Some lane ->
  data_total (alter f key lanes) = data_total lanes - share key lane + share key (f lane).
Proof.
  intros H. rewrite (data_total_delete (alter f key lanes) key (f lane)) by (by rewrite lookup_alter_eq, H).
  rewrite delete_alter_eq. rewrite (data_total_delete lanes key lane H). lia.
Qed.

(** A lane's counters are within its bound, and a disposed lane counts nothing. *)
Definition lane_sane (key : Z * PeerChannelLane) (lane : LaneBytes) : Prop :=
  let bound := max_bytes (mkLaneQuota key.1 key.2) in
  0 <= lb_incoming lane <= bound /\ 0 <= lb_outgoing lane <= bound /\
  (lb_disposed lane = true -> lb_incoming lane = 0 /\ lb_outgoing lane = 0).

(** [flight] bytes were taken off a lane and are not yet off the worker's counter.
    The worker's counter is what its lanes and that make, within its ceiling. *)
Record counters_agree (flight : Z) (s : Budgets) : Prop := {
  ca_lanes : map_Forall lane_sane (lane_bytes s);
  ca_flight : 0 <= flight;
  ca_worker : if wd_disposed (worker_data s) then wd_retained (worker_data s) = 0
    else wd_retained (worker_data s) = data_total (lane_bytes s) + flight /\
         wd_retained (worker_data s) <= PEER_WORKER_DATA_QUEUE_MAX_BYTES;
}.

Lemma share_nonneg key lane : lane_sane key lane -> 0 <= share key lane.
Proof. intros (? & ? & _). unfold share. destruct key.2; lia. Qed.

Lemma data_total_nonneg lanes : map_Forall lane_sane lanes -> 0 <= data_total lanes.
Proof.
  induction lanes as [|key lane lanes Hnone IH] using map_ind; intros H.
  - unfold data_total. by rewrite map_fold_empty.
  - apply map_Forall_insert in H as [Hl H]; [|done]. rewrite data_total_insert by done.
    apply share_nonneg in Hl. specialize (IH H). lia.
Qed.

Lemma data_total_share lanes key lane :
  map_Forall lane_sane lanes -> lanes !! key = Some lane -> share key lane <= data_total lanes.
Proof.
  intros H Hk. rewrite (data_total_delete lanes key lane Hk).
  pose proof (data_total_nonneg (delete key lanes) (map_Forall_delete _ _ _ H)). lia.
Qed.

(** What a handle holds in a direction. *)
Definition lane_held (q : AttachmentPeerLaneQuota) (direction : AttachmentTransferPacketDirection)
    (s : Budgets) : Z :=
  direction_bytes direction (lane_of s q).

Lemma lane_of_sane flight s q :
  counters_agree flight s ->
  lane_sane (lane_key q) (lane_of s q) /\
  (lb_disposed (lane_of s q) = false -> lane_bytes s !! lane_key q = Some (lane_of s q)).
Proof.
  intros [Hl _ _]. unfold lane_of. destruct (lane_bytes s !! lane_key q) as [lane|] eqn:Hk; cbn.
  - split; [by apply (Hl _ _ Hk)|done].
  - split; [|done]. unfold lane_sane, max_bytes. cbn.
    by destruct (lq_lane q); split_and!; vm_compute.
Qed.

Lemma direction_set d n lane d' :
  direction_bytes d' (set_direction d n lane) =
  if decide (d = d') then n else direction_bytes d' lane.
Proof. by destruct d, d'. Qed.

Lemma share_set key d n lane :
  share key (set_direction d n lane) =
  share key lane + (match key.2 with Control => 0 | Data => n - direction_bytes d lane end).
Proof. unfold share. destruct key.2, d; cbn; lia. Qed.

(** Setting one counter of one lane. *)
Lemma set_agrees flight s q d n lane w flight' :
  counters_agree flight s -> lane_bytes s !! lane_key q = Some lane -> lb_disposed lane = false ->
  0 <= n <= max_bytes q -> 0 <= flight' ->
  (if wd_disposed w then wd_retained w = 0
   else wd_retained w = data_total (lane_bytes s) +
          (if shared q then n - direction_bytes d lane else 0) + flight' /\
        wd_retained w <= PEER_WORKER_DATA_QUEUE_MAX_BYTES) ->
  counters_agree flight'
    (mkBudgets w (alter (fun lane => set_direction d n lane) (lane_key q) (lane_bytes s))).
Proof.
  intros [Hl _ _] Hk Hd Hn Hf Hw. constructor; cbn.
  - intros key lane' Hk'. destruct (decide (key = lane_key q)) as [->|Hne].
    + rewrite lookup_alter_eq, Hk in Hk'. cbn in Hk'. simplify_eq.
      pose proof (Hl _ _ Hk) as (Hi & Ho & _). unfold lane_sane in *. cbn in *.
      destruct q, d; cbn in *; rewrite Hd; split_and!; try lia; done.
    + rewrite lookup_alter_ne in Hk' by done. by apply Hl.
  - done.
  - destruct (wd_disposed w); [done|]. destruct Hw as [Hw Hmax]. split; [|done].
    rewrite (data_total_alter _ _ _ lane) by done. rewrite share_set.
    unfold shared in Hw. cbn [lane_key snd] in *. destruct (lq_lane q); lia.
Qed.

(** The lane a handle finds after its own counter was set. *)
Lemma held_after q d n s s' lane :
  lane_bytes s !! lane_key q = Some lane ->
  lane_bytes s' = alter (fun lane => set_direction d n lane) (lane_key q) (lane_bytes s) ->
  forall q' d', lane_held q' d' s' = if decide (lane_key q' = lane_key q /\ d = d') then n else lane_held q' d' s.
Proof.
  intros Hk Hs' q' d'. unfold lane_held, lane_of. rewrite Hs'.
  destruct (decide (lane_key q' = lane_key q)) as [Heq|Hne].
  - rewrite Heq, lookup_alter_eq, Hk. cbn. rewrite direction_set.
    destruct (decide (d = d')); [rewrite decide_True by done|rewrite decide_False by tauto]; done.
  - rewrite lookup_alter_ne by congruence. by rewrite decide_False by tauto.
Qed.

Lemma reserve_agrees flight s q d n s' granted :
  counters_agree flight s -> 0 < n -> lane_reserve q d n s = (s', granted) ->
  counters_agree flight s' /\
  forall q' d', lane_held q' d' s' =
    lane_held q' d' s + (if decide (granted = true /\ lane_key q' = lane_key q /\ d = d') then n else 0).
Proof.
  intros Hca Hn. destruct (lane_of_sane flight s q Hca) as [Hsane Hk].
  assert (Hno : forall q' d', lane_held q' d' s =
            lane_held q' d' s + (if decide (false = true /\ lane_key q' = lane_key q /\ d = d') then n else 0))
    by (intros; rewrite decide_False by naive_solver; lia).
  unfold lane_reserve. destruct (lb_disposed (lane_of s q)) eqn:Hd; cbn [orb];
    [intros ?; simplify_eq; by split|]. specialize (Hk eq_refl).
  destruct (Z.ltb_spec (saturating_sub (max_bytes q) (direction_bytes d (lane_of s q))) n) as [|Hfit];
    [intros ?; simplify_eq; by split|].
  assert (Hrange : 0 <= direction_bytes d (lane_of s q) <= max_bytes q).
  { destruct Hsane as (? & ? & _). destruct q, d; cbn in *; lia. }
  unfold saturating_sub in Hfit.
  assert (Hset : forall w, (if wd_disposed w then wd_retained w = 0
            else wd_retained w = data_total (lane_bytes s) + (if shared q then n else 0) + flight /\
                 wd_retained w <= PEER_WORKER_DATA_QUEUE_MAX_BYTES) ->
          let s1 := mkBudgets w (alter (fun lane => set_direction d (direction_bytes d lane + n) lane)
                                   (lane_key q) (lane_bytes s)) in
          counters_agree flight s1 /\
          forall q' d', lane_held q' d' s1 = lane_held q' d' s +
            (if decide (true = true /\ lane_key q' = lane_key q /\ d = d') then n else 0)).
  { intros w Hw s1.
    assert (Halter : lane_bytes s1 = alter (fun lane => set_direction d (direction_bytes d (lane_of s q) + n) lane)
              (lane_key q) (lane_bytes s)).
    { cbn. apply map_eq. intros key. destruct (decide (key = lane_key q)) as [->|Hne].
      - by rewrite !lookup_alter_eq, Hk.
      - by rewrite !lookup_alter_ne by done. }
    split.
    - replace s1 with (mkBudgets w (lane_bytes s1)) by done. rewrite Halter.
      eapply set_agrees; [done|done|done|lia|apply Hca|].
      destruct (wd_disposed w); [done|]. by rewrite Z.add_simpl_l.
    - intros q' d'. rewrite (held_after q d _ s s1 _ Hk Halter).
      destruct (decide (lane_key q' = lane_key q /\ d = d')) as [[He ->]|Hne].
      + rewrite decide_True by done. unfold lane_held at 1. f_equal. unfold lane_of. by rewrite He.
      + rewrite decide_False by tauto. lia. }
  pose proof (ca_worker _ _ Hca) as Hw.
  destruct (shared q) eqn:Hshared.
  - unfold reserve_worker_data.
    destruct (wd_disposed (worker_data s)) eqn:Hwd; cbn [orb]; [cbn; intros ?; simplify_eq; by split|].
    destruct (Z.ltb_spec (saturating_sub PEER_WORKER_DATA_QUEUE_MAX_BYTES (wd_retained (worker_data s))) n)
      as [|Hroom]; cbn; intros ?; simplify_eq; [by split|].
    apply Hset. cbn. rewrite Hwd. unfold saturating_sub in Hroom. lia.
  - cbn. intros ?; simplify_eq. apply Hset. destruct (wd_disposed (worker_data s)); [done|lia].
Qed.

Lemma release_lane_agrees flight s q d n :
  counters_agree flight s -> 0 < n <= lane_held q d s ->
  counters_agree (flight + if shared q then n else 0) (release_lane q d n s) /\
  forall q' d', lane_held q' d' (release_lane q d n s) =
    lane_held q' d' s - (if decide (lane_key q' = lane_key q /\ d = d') then n else 0).
Proof.
  intros Hca Hn. destruct (lane_of_sane flight s q Hca) as [Hsane Hk]. unfold lane_held in Hn.
  destruct (lb_disposed (lane_of s q)) eqn:Hd.
  { destruct Hsane as (_ & _ & Hz). destruct (Hz Hd). destruct d; cbn in Hn; lia. }
  specialize (Hk eq_refl).
  assert (Hrange : direction_bytes d (lane_of s q) <= max_bytes q).
  { destruct Hsane as (? & ? & _). destruct q, d; cbn in *; lia. }
  assert (Halter : lane_bytes (release_lane q d n s) =
            alter (fun lane => set_direction d (direction_bytes d (lane_of s q) - n) lane)
              (lane_key q) (lane_bytes s)).
  { cbn. apply map_eq. intros key. destruct (decide (key = lane_key q)) as [->|Hne].
    - rewrite !lookup_alter_eq, Hk. cbn. do 2 f_equal. unfold saturating_sub. lia.
    - by rewrite !lookup_alter_ne by done. }
  pose proof (ca_worker _ _ Hca) as Hw. pose proof (ca_flight _ _ Hca). split.
  - replace (release_lane q d n s) with (mkBudgets (worker_data s) (lane_bytes (release_lane q d n s))) by done.
    rewrite Halter. eapply set_agrees; [done|done|done|lia|destruct (shared q); lia|].
    destruct (wd_disposed (worker_data s)); [done|]. destruct (shared q); lia.
  - intros q' d'. rewrite (held_after q d _ s _ _ Hk Halter).
    destruct (decide _) as [[He ->]|Hne]; [|lia].
    unfold lane_held. f_equal. f_equal. unfold lane_of. by rewrite He.
Qed.

Lemma release_worker_agrees flight s n :
  counters_agree flight s -> 0 <= n <= flight ->
  counters_agree (flight - n) (release_worker_data n s).
Proof.
  intros Hca Hn. destruct Hca as [Hl Hf Hw]. pose proof (data_total_nonneg _ Hl).
  constructor; cbn; [done|lia|]. unfold saturating_sub.
  destruct (wd_disposed (worker_data s)); lia.
Qed.

Lemma held_worker q d f s : lane_held q d (with_worker f s) = lane_held q d s.
Proof. done. Qed.

Lemma release_agrees flight s q d n :
  counters_agree flight s -> 0 < n <= lane_held q d s ->
  counters_agree flight (lane_release q d n s) /\
  forall q' d', lane_held q' d' (lane_release q d n s) =
    lane_held q' d' s - (if decide (lane_key q' = lane_key q /\ d = d') then n else 0).
Proof.
  intros Hca Hn. destruct (release_lane_agrees flight s q d n Hca Hn) as [Hca' Hheld].
  unfold lane_release. pose proof (ca_flight _ _ Hca). destruct (shared q).
  - split; [|exact Hheld]. replace flight with (flight + n - n) by lia.
    by apply release_worker_agrees; [|lia].
  - by rewrite Z.add_0_r in Hca'.
Qed.

(** The accounting the carriers' laws ask for. *)
#[global, program] Instance lane_quota_laws :
    PacketQuotaLaws (AttachmentPeerLaneQuota * AttachmentTransferPacketDirection) Budgets := {|
  quota_ok := counters_agree 0;
  held q s := lane_held q.1 q.2 s;
|}.
Next Obligation.
  intros [q d] s Hca. destruct (lane_of_sane 0 s q Hca) as [(? & ? & _) _].
  unfold lane_held. cbn. destruct d; cbn; lia.
Qed.
Next Obligation.
  intros [q d] n s s' granted Hca Hn Hres. cbn in *.
  destruct (reserve_agrees 0 s q d n s' granted Hca Hn Hres) as [Hca' Hheld]. split; [done|].
  rewrite Hheld. destruct granted; [rewrite decide_True by done|rewrite decide_False by naive_solver]; done.
Qed.
Next Obligation.
  intros [q d] n s Hca Hn. cbn in *.
  destruct (release_agrees 0 s q d n Hca Hn) as [Hca' Hheld]. split; [done|].
  rewrite Hheld, decide_True by done. done.
Qed.

(** ** The port *)

(** What the native peer answers; sending and closing move it. *)
Class NativePeer (N : Type) := mkNativePeer {
  is_open : N -> Z -> bool;
  buffered_amount : N -> Z -> Z;
  native_send : N -> Z -> list byte -> N * bool;
  close_channel : N -> Z -> N;
}.

(** [lane_index]. *)
Definition lane_index (lane : PeerChannelLane) : Z :=
  match lane with Control => 0 | Data => 1 end.

Notation LaneQueue := (AttachmentTransferPacketQueue AttachmentPeerLaneQuota).
Notation LaneAssembler := (AttachmentTransferPacketAssembler AttachmentPeerLaneQuota).

(** A timer is the time its task wakes at. *)
Record LaneState := mkLaneState {
  ln_queue : LaneQueue;
  ln_assembler : LaneAssembler;
  ln_partial_timer : option Z;
}.

(** What a port tells its owner: a frame for the ingress, and why it closed. *)
Inductive PortEvent :=
| OnMessage (lane : PeerChannelLane) (bytes : list byte)
| ClosedBecause (reason : string).

(** [SendResult]. *)
Inductive SendResult := Accepted | Backpressured | Refused.

(** [PortState], with the port's peer, its native peer and what it told. *)
Record Port (N : Type) := mkPort {
  pt_peer : Z;
  pt_native : N;
  pt_control : LaneState;
  pt_data : LaneState;
  pt_ingress : bool;
  pt_authenticated : bool;
  pt_closed : bool;
  pt_hello_timer : bool;
  pt_drain_timer : bool;
  pt_close_when_drained : option string;
  pt_told : list PortEvent;
}.
Arguments mkPort {N}.
Arguments pt_peer {N}.
Arguments pt_native {N}.
Arguments pt_control {N}.
Arguments pt_data {N}.
Arguments pt_ingress {N}.
Arguments pt_authenticated {N}.
Arguments pt_closed {N}.
Arguments pt_hello_timer {N}.
Arguments pt_drain_timer {N}.
Arguments pt_close_when_drained {N}.
Arguments pt_told {N}.

Section Port.
Context {N : Type} `{!NativePeer N}.
Implicit Types (p : Port N) (s : Budgets).

Definition port_lane p (lane : PeerChannelLane) : LaneState :=
  match lane with Control => pt_control p | Data => pt_data p end.

Definition with_native (n : N) p : Port N :=
  mkPort (pt_peer p) n (pt_control p) (pt_data p) (pt_ingress p) (pt_authenticated p) (pt_closed p)
    (pt_hello_timer p) (pt_drain_timer p) (pt_close_when_drained p) (pt_told p).
Definition with_port_lane (lane : PeerChannelLane) (l : LaneState) p : Port N :=
  let '(control, data) :=
    match lane with Control => (l, pt_data p) | Data => (pt_control p, l) end in
  mkPort (pt_peer p) (pt_native p) control data (pt_ingress p) (pt_authenticated p) (pt_closed p)
    (pt_hello_timer p) (pt_drain_timer p) (pt_close_when_drained p) (pt_told p).
Definition with_ingress (b : bool) p : Port N :=
  mkPort (pt_peer p) (pt_native p) (pt_control p) (pt_data p) b (pt_authenticated p) (pt_closed p)
    (pt_hello_timer p) (pt_drain_timer p) (pt_close_when_drained p) (pt_told p).
Definition with_authenticated (b : bool) p : Port N :=
  mkPort (pt_peer p) (pt_native p) (pt_control p) (pt_data p) (pt_ingress p) b (pt_closed p)
    (pt_hello_timer p) (pt_drain_timer p) (pt_close_when_drained p) (pt_told p).
Definition with_port_closed (b : bool) p : Port N :=
  mkPort (pt_peer p) (pt_native p) (pt_control p) (pt_data p) (pt_ingress p) (pt_authenticated p) b
    (pt_hello_timer p) (pt_drain_timer p) (pt_close_when_drained p) (pt_told p).
Definition with_timers (hello drain : bool) p : Port N :=
  mkPort (pt_peer p) (pt_native p) (pt_control p) (pt_data p) (pt_ingress p) (pt_authenticated p)
    (pt_closed p) hello drain (pt_close_when_drained p) (pt_told p).
Definition with_close_when_drained (r : option string) p : Port N :=
  mkPort (pt_peer p) (pt_native p) (pt_control p) (pt_data p) (pt_ingress p) (pt_authenticated p)
    (pt_closed p) (pt_hello_timer p) (pt_drain_timer p) r (pt_told p).
Definition tell (e : PortEvent) p : Port N :=
  mkPort (pt_peer p) (pt_native p) (pt_control p) (pt_data p) (pt_ingress p) (pt_authenticated p)
    (pt_closed p) (pt_hello_timer p) (pt_drain_timer p) (pt_close_when_drained p) (pt_told p ++ [e]).

Definition with_queue (q : LaneQueue) (l : LaneState) : LaneState :=
  mkLaneState q (ln_assembler l) (ln_partial_timer l).
Definition with_assembler (a : LaneAssembler) (l : LaneState) : LaneState :=
  mkLaneState (ln_queue l) a (ln_partial_timer l).
Definition with_partial_timer (t : option Z) (l : LaneState) : LaneState :=
  mkLaneState (ln_queue l) (ln_assembler l) t.

(** [AttachmentPeerPacketPort::new]. *)
Definition lane_state (q : AttachmentPeerLaneQuota) : LaneState :=
  mkLaneState (queue_new Outgoing q) (assembler_new Incoming q) None.

Definition port_new (peer : Z) (native : N) : Port N :=
  mkPort peer native (lane_state (control_quota peer)) (lane_state (data_quota peer))
    false false false false false None [].

(** One lane of [close_locked]. *)
Definition close_lane s p (lane : PeerChannelLane) : Budgets * Port N :=
  let l := with_partial_timer None (port_lane p lane) in
  let '(s, q) := clear s (ln_queue l) in
  let '(s, a) := reset s (ln_assembler l) in
  (s, with_native (close_channel (pt_native p) (lane_index lane))
        (with_port_lane lane (with_assembler a (with_queue q l)) p)).

(** [close_locked]. *)
Definition close_locked s p (reason : string) : Budgets * Port N :=
  if pt_closed p then (s, p) else
  let p := with_timers false false (with_port_closed true p) in
  let '(s, p) := close_lane s p Control in
  let '(s, p) := close_lane s p Data in
  (peer_dispose (pt_peer p) s, tell (ClosedBecause reason) p).

(** [is_open]. *)
Definition port_is_open p : bool := negb (pt_closed p) && is_open (pt_native p) (lane_index Control).

(** [attach_ingress], [take_ingress]. *)
Definition attach_ingress p : Port N * bool :=
  if pt_closed p || pt_ingress p then (p, false) else (with_ingress true p, true).
Definition take_ingress p : Port N * bool := (with_ingress false p, pt_ingress p).

(** The inner loop of [flush]; the answer is false when the flush returned.
    [allocs] are the encoder's allocations; [None] is a panic. *)
Fixpoint flush_lane (fuel : nat) (allocs : list bool) s p (lane : PeerChannelLane)
    : option (list bool * Budgets * Port N * bool) :=
  match fuel with
  | O => None
  | S fuel =>
      if pt_closed p || negb (is_open (pt_native p) (lane_index lane))
      then Some (allocs, s, p, true) else
      '(s, q, next) ← next_fragment s (ln_queue (port_lane p lane)) (default true (head allocs));
      let allocs := tail allocs in
      let p := with_port_lane lane (with_queue q (port_lane p lane)) p in
      match next with
      | Ok None => Some (allocs, s, p, true)
      | Err _ => let '(s, p) := close_locked s p "packet_rejected" in Some (allocs, s, p, false)
      | Ok (Some fragment) =>
          let '(native, sent) := native_send (pt_native p) (lane_index lane) (fragment_bytes q) in
          let p := with_native native p in
          if negb sent
          then let '(s, p) := close_locked s p "native_send_failed" in Some (allocs, s, p, false)
          else
            '(s, q) ← commit s q;
            flush_lane fuel allocs s (with_port_lane lane (with_queue q (port_lane p lane)) p) lane
      end
  end.

(** As many turns as a lane holds bytes, and one more. *)
Definition flush_fuel p (lane : PeerChannelLane) : nat :=
  S (Z.to_nat (queued_bytes (ln_queue (port_lane p lane)))).

(** [close_if_drained]. *)
Definition close_if_drained s p : Budgets * Port N :=
  let drained :=
    (message_count (ln_queue (pt_control p)) =? 0) && (message_count (ln_queue (pt_data p)) =? 0) &&
    (buffered_amount (pt_native p) (lane_index Control) =? 0) &&
    (buffered_amount (pt_native p) (lane_index Data) =? 0) in
  if pt_closed p || negb drained then (s, p) else
  match pt_close_when_drained p with
  | Some reason => close_locked s p reason
  | None => (s, p)
  end.

(** [flush]. *)
Definition flush (allocs : list bool) s p : option (Budgets * Port N) :=
  '(allocs, s, p, go) ← flush_lane (flush_fuel p Control) allocs s p Control;
  if negb go then Some (s, p) else
  '(_, s, p, go) ← flush_lane (flush_fuel p Data) allocs s p Data;
  if negb go then Some (s, p) else Some (close_if_drained s p).

(** [channel_opened], [buffered_amount_low], [channel_failed]. *)
Definition channel_opened (allocs : list bool) s p (lane : PeerChannelLane) : option (Budgets * Port N) :=
  if pt_closed p then Some (s, p) else
  let arms := match lane with Control => negb (pt_authenticated p) && negb (pt_hello_timer p) | Data => false end in
  let p := if arms then with_timers true (pt_drain_timer p) p else p in
  flush allocs s p.
Definition buffered_amount_low (allocs : list bool) s p : option (Budgets * Port N) := flush allocs s p.
Definition channel_failed s p (reason : string) : Budgets * Port N := close_locked s p reason.

(** [arm_partial_deadline]. *)
Definition arm_partial_deadline (now_ms : Z) (l : LaneState) : LaneState :=
  with_partial_timer (if has_partial_message (ln_assembler l) then Some (now_ms + PACKET_STALL_MS) else None) l.

(** The gates of [reassemble], in their order: why a message closes the port. *)
Definition refuses p (lane : PeerChannelLane) (binary : bool) (data : list byte) : option (option string) :=
  if negb (pt_ingress p && negb (pt_closed p) && binary) then Some (Some "unexpected_client_data"%string) else
  if negb (pt_authenticated p) && negb (bool_decide (lane = Control))
  then Some (Some "unauthenticated_client_data"%string) else
  if PACKET_MAX_BYTES <? len data then Some (Some "packet_too_large"%string) else
  if pt_authenticated p then Some None else
  parsed ← parse_attachment_transfer_packet data;
  Some (match parsed with
        | Ok packet =>
            if PACKET_MAX_BYTES <? total_bytes (header packet)
            then Some "unauthenticated_frame_too_large"%string else None
        | Err _ => Some "packet_rejected"%string
        end).

(** [reassemble] and [channel_message]: [alloc] is the assembler's allocation. *)
Definition channel_message s p (lane : PeerChannelLane) (binary : bool) (data : list byte)
    (now_ms : Z) (alloc : bool) : option (Budgets * Port N) :=
  refusal ← refuses p lane binary data;
  match refusal with
  | Some reason => Some (close_locked s p reason)
  | None =>
      '(s, a, pushed) ← push s (ln_assembler (port_lane p lane)) data now_ms alloc;
      let p := with_port_lane lane (with_assembler a (port_lane p lane)) p in
      match pushed with
      | Err _ => Some (close_locked s p "packet_rejected")
      | Ok complete =>
          let p := with_port_lane lane (arm_partial_deadline now_ms (port_lane p lane)) p in
          Some (s, match complete with Some frame => tell (OnMessage lane frame) p | None => p end)
      end
  end.

(** The three tasks that wait: a partial message, the hello, the drain. *)
Definition partial_deadline s p (lane : PeerChannelLane) (now_ms : Z) : Budgets * Port N :=
  let l := with_partial_timer None (port_lane p lane) in
  let '(s, a, expired) := expire s (ln_assembler l) now_ms in
  let p := with_port_lane lane (with_assembler a l) p in
  if expired then close_locked s p "packet_stalled" else (s, p).
Definition hello_deadline s p : Budgets * Port N :=
  let p := with_timers false (pt_drain_timer p) p in
  if pt_authenticated p then (s, p) else close_locked s p "hello_timeout".
Definition drain_deadline s p : Budgets * Port N :=
  close_locked s (with_timers (pt_hello_timer p) false p) "ack_timeout".

(** [send]; [grow] is the queue's allocation. *)
Definition send (allocs : list bool) s p (bytes : list byte) (lane : PeerChannelLane) (grow : bool)
    : option (Budgets * Port N * SendResult) :=
  if pt_closed p then Some (s, p, Refused) else
  let queued_before := queued_bytes (ln_queue (port_lane p lane)) in
  let '(s, q, taken) := enqueue s (ln_queue (port_lane p lane)) bytes grow in
  let p := with_port_lane lane (with_queue q (port_lane p lane)) p in
  match taken with
  | Ok true =>
      let was_backpressured :=
        (0 <? queued_before) || negb (is_open (pt_native p) (lane_index lane)) ||
        (0 <? buffered_amount (pt_native p) (lane_index lane)) in
      '(s, p) ← flush allocs s p;
      Some (s, p, if pt_closed p then Refused else if was_backpressured then Backpressured else Accepted)
  | _ => Some (s, p, Refused)
  end.

(** [close]. *)
Definition port_close s p (reason : string) : Budgets * Port N := close_locked s p reason.

(** [close_after_drain]. *)
Definition close_after_drain (allocs : list bool) s p (reason : string) : option (Budgets * Port N) :=
  if pt_closed p then Some (s, p) else
  '(s, p) ← flush allocs s (with_close_when_drained (Some reason) p);
  Some (s, if pt_closed p || pt_drain_timer p then p else with_timers (pt_hello_timer p) true p).

(** [mark_authenticated]. *)
Definition mark_authenticated p : Port N :=
  if pt_closed p || negb (pt_ingress p) then p
  else with_timers false (pt_drain_timer p) (with_authenticated true p).

(** ** Every port of a worker *)

(** The calls of a port: its owner's and its native peer's, and the three tasks
    that wait.  [NativeMoves]: a channel opens, closes or sends what it buffered. *)
Inductive PortCall :=
| AttachIngress
| TakeIngress
| ChannelOpened (allocs : list bool) (lane : PeerChannelLane)
| BufferedAmountLow (allocs : list bool)
| ChannelFailed (reason : string)
| ChannelMessage (lane : PeerChannelLane) (binary : bool) (data : list byte) (now_ms : Z) (alloc : bool)
| PartialDeadline (lane : PeerChannelLane) (now_ms : Z)
| HelloDeadline
| DrainDeadline
| Send (allocs : list bool) (bytes : list byte) (lane : PeerChannelLane) (grow : bool)
| Close (reason : string)
| CloseAfterDrain (allocs : list bool) (reason : string)
| MarkAuthenticated
| NativeMoves (native : N).

Definition port_call s p (call : PortCall) : option (Budgets * Port N) :=
  match call with
  | AttachIngress => Some (s, (attach_ingress p).1)
  | TakeIngress => Some (s, (take_ingress p).1)
  | ChannelOpened allocs lane => channel_opened allocs s p lane
  | BufferedAmountLow allocs => buffered_amount_low allocs s p
  | ChannelFailed reason => Some (channel_failed s p reason)
  | ChannelMessage lane binary data now_ms alloc => channel_message s p lane binary data now_ms alloc
  | PartialDeadline lane now_ms => Some (partial_deadline s p lane now_ms)
  | HelloDeadline => Some (hello_deadline s p)
  | DrainDeadline => Some (drain_deadline s p)
  | Send allocs bytes lane grow => '(s, p, _) ← send allocs s p bytes lane grow; Some (s, p)
  | Close reason => Some (port_close s p reason)
  | CloseAfterDrain allocs reason => close_after_drain allocs s p reason
  | MarkAuthenticated => Some (s, mark_authenticated p)
  | NativeMoves native => Some (s, with_native native p)
  end.

(** The ports of a worker share its counters; a peer's number is taken once. *)
Record Worker := mkWorker {
  wk_budgets : Budgets;
  wk_ports : gmap Z (Port N);
}.

Definition worker_new : Worker := mkWorker budget_new ∅.

Inductive WorkerOp :=
| OpenPort (peer : Z) (native : N)
| OnPort (peer : Z) (call : PortCall)
| DisposeBudget.

Definition worker_step (w : Worker) (op : WorkerOp) : option Worker :=
  match op with
  | OpenPort peer native =>
      Some match wk_ports w !! peer with
           | Some _ => w
           | None => mkWorker (create_peer_budget (wk_budgets w) peer)
                       (<[peer := port_new peer native]> (wk_ports w))
           end
  | OnPort peer call =>
      match wk_ports w !! peer with
      | None => Some w
      | Some p =>
          '(s, p) ← port_call (wk_budgets w) p call;
          Some (mkWorker s (<[peer := p]> (wk_ports w)))
      end
  | DisposeBudget => Some (mkWorker (budget_dispose (wk_budgets w)) (wk_ports w))
  end.

Fixpoint worker_run (w : Worker) (ops : list WorkerOp) : option Worker :=
  match ops with
  | [] => Some w
  | op :: ops => w ← worker_step w op; worker_run w ops
  end.
End Port.
Arguments PortCall : clear implicits.
Arguments Worker : clear implicits.
Arguments WorkerOp : clear implicits.
