(* ===== verification/AttachmentAccounts.v ===== *)
(** * AttachmentAccounts: the bytes of every upload's port

    What one operation of a lane does to the shared counters, that every call of
    a port answers and keeps its accounts, and what holds of the ports of a worker
    however they are used ([AttachmentPort]). *)
From Stdlib Require Import Ascii String.
From S2P Require Export AttachmentPort.

(** What a handle's reserves and releases in a direction may have changed. *)
Definition touches (q : AttachmentPeerLaneQuota) (d : AttachmentTransferPacketDirection) (s s' : Budgets) : Prop :=
  wd_disposed (worker_data s') = wd_disposed (worker_data s) /\
  exists n, lane_bytes s' = alter (set_direction d n) (lane_key q) (lane_bytes s).

Lemma set_direction_twice d n n' lane : set_direction d n (set_direction d n' lane) = set_direction d n lane.
Proof. by destruct d. Qed.

Lemma alter_set_twice (d : AttachmentTransferPacketDirection) (key : Z * PeerChannelLane) (f : LaneBytes -> Z) (n : Z) (lanes : gmap (Z * PeerChannelLane) LaneBytes) :
  exists n' : Z, alter (fun lane => set_direction d (f lane) lane) key (alter (set_direction d n) key lanes) =
    alter (set_direction d n') key lanes.
Proof.
  destruct (lanes !! key) as [lane|] eqn:Hk.
  - exists (f (set_direction d n lane)). apply map_eq. intros key'.
    destruct (decide (key' = key)) as [->|Hne].
    + rewrite !lookup_alter_eq, Hk. cbn. by rewrite set_direction_twice.
    + by rewrite !lookup_alter_ne.
  - exists 0. apply map_eq. intros key'. destruct (decide (key' = key)) as [->|Hne].
    + by rewrite !lookup_alter_eq, Hk.
    + by rewrite !lookup_alter_ne.
Qed.

Lemma touches_refl q d s : touches q d s s.
Proof.
  split; [done|]. exists (lane_held q d s). apply map_eq. intros key.
  destruct (decide (key = lane_key q)) as [->|Hne]; [|by rewrite lookup_alter_ne].
  rewrite lookup_alter_eq. unfold lane_held, lane_of.
  destruct (lane_bytes s !! lane_key q) as [lane|]; [|done]. cbn. by destruct d, lane.
Qed.

Lemma touches_set q d s s' w (f : LaneBytes -> Z) :
  touches q d s s' -> wd_disposed w = wd_disposed (worker_data s') ->
  touches q d s (mkBudgets w (alter (fun lane => set_direction d (f lane) lane) (lane_key q) (lane_bytes s'))).
Proof.
  intros [Hw [n Hn]] Hw'. split; [cbn; congruence|]. cbn. rewrite Hn. apply alter_set_twice.
Qed.

Lemma reserve_touches q d s0 n s : touches q d s0 s -> touches q d s0 (quota_reserve q d n s).1.
Proof.
  intros H. cbn [quota_reserve lane_quota]. unfold lane_reserve, reserve_worker_data.
  destruct (_ || _); [done|]. destruct (shared q); [destruct (_ || _); [done|]|]; cbn [negb fst];
    by apply touches_set.
Qed.

Lemma release_touches q d s0 n s : touches q d s0 s -> touches q d s0 (quota_release q d n s).
Proof. intros H. cbn [quota_release lane_quota]. unfold lane_release, release_lane. destruct (shared q); by apply touches_set. Qed.

(** What the handle finds afterwards, and that no other lane has changed. *)
Lemma touched_lane q d s s' lane :
  touches q d s s' -> lane_bytes s !! lane_key q = Some lane ->
  lane_bytes s' !! lane_key q = Some (set_direction d (lane_held q d s') lane).
Proof.
  intros [_ [n Hn]] Hk. unfold lane_held, lane_of. rewrite Hn, lookup_alter_eq, Hk. cbn.
  rewrite direction_set. by rewrite decide_True.
Qed.

Lemma touched_other q d s s' key :
  touches q d s s' -> key <> lane_key q -> lane_bytes s' !! key = lane_bytes s !! key.
Proof. intros [_ [n Hn]] Hne. by rewrite Hn, lookup_alter_ne. Qed.

(** ** A lane *)

(** The queue counts what it holds, in messages numbered in order; or it is shut. *)
Record queue_sound (q : LaneQueue) : Prop := {
  qs_retained : q_retained_bytes q = queued_total qm_bytes (q_messages q);
  qs_messages : Forall (fun m => 1 <= len (qm_bytes m)) (q_messages q);
  qs_owes : (exists n ps, attachment_owes (tt, q) n ps) \/ attachment_shut (tt, q);
}.

(** The assembler holds a part of the next message; or it was shut. *)
Definition assembler_sound (a : LaneAssembler) : Prop :=
  (as_closed a = false /\ exists part total, 0 <= last_completed_message_id a < 2 ^ 32 /\
     part_of (as_partial a) (last_completed_message_id a + 1) part total) \/
  (as_closed a = true /\ as_partial a = None).

(** What a lane counts for its assembler and its queue. *)
Definition lane_books (l : LaneState) (disposed : bool) : LaneBytes :=
  mkLaneBytes (charged (as_partial (ln_assembler l))) (queued_bytes (ln_queue l)) disposed.

Record lane_fit (s : Budgets) (quota : AttachmentPeerLaneQuota) (disposed : bool) (l : LaneState) : Prop := {
  lf_agree : counters_agree 0 s;
  lf_books : lane_bytes s !! lane_key quota = Some (lane_books l disposed);
  lf_queue : its_queue quota Outgoing (ln_queue l) /\ queue_sound (ln_queue l);
  lf_assembler : its_assembler quota Incoming (ln_assembler l) /\ assembler_sound (ln_assembler l);
}.

(** Another lane fits as before. *)
Lemma fit_elsewhere s s' quota disposed l :
  lane_fit s quota disposed l -> counters_agree 0 s' ->
  lane_bytes s' !! lane_key quota = lane_bytes s !! lane_key quota -> lane_fit s' quota disposed l.
Proof. intros [H1 H2 H3 H4] Hca Hk. constructor; [done|congruence|done|done]. Qed.

Lemma fit_timer s quota disposed l t : lane_fit s quota disposed l -> lane_fit s quota disposed (with_partial_timer t l).
Proof. by intros []. Qed.

Lemma fit_held s quota disposed l :
  lane_fit s quota disposed l ->
  held_in Incoming quota s = charged (as_partial (ln_assembler l)) /\
  held_in Outgoing quota s = queued_bytes (ln_queue l).
Proof.
  intros [_ Hk _ _]. unfold held_in, held. cbn. unfold lane_held, lane_of. by rewrite Hk.
Qed.

(** The queue's half of the accounting. *)
Lemma fit_bytes s quota disposed l :
  lane_fit s quota disposed l -> bytes_held Outgoing quota 0 (s, ln_queue l).
Proof.
  intros H. destruct (fit_held s quota disposed l H) as [_ Ho].
  destruct H as [Hca Hk [[Hq Hd] [Hr Hm _]] _]. split_and!; done.
Qed.

(** What an operation on the queue leaves. *)
Lemma queue_fit s s' quota disposed l q :
  lane_fit s quota disposed l -> bytes_held Outgoing quota 0 (s', q) -> touches quota Outgoing s s' ->
  (exists n ps, attachment_owes (tt, q) n ps) \/ attachment_shut (tt, q) ->
  lane_fit s' quota disposed (with_queue q l).
Proof.
  intros [Hca Hk Hq Ha] (Hd & Hquota & Hok & Hheld & Hr & Hms) Ht Ho.
  constructor; [done| |by split|done].
  rewrite (touched_lane _ _ _ _ _ Ht Hk). cbn. unfold held_in, held in Hheld. cbn in Hheld. by rewrite Hheld.
Qed.

Lemma enqueue_fits s quota disposed l bytes grow s' q r :
  lane_fit s quota disposed l -> enqueue s (ln_queue l) bytes grow = (s', q, r) ->
  lane_fit s' quota disposed (with_queue q l) /\ touches quota Outgoing s s'.
Proof.
  intros H He. pose proof (lf_queue _ _ _ _ H) as [Hits [_ _ Ho]].
  destruct (enqueue_through (touches quota Outgoing s) quota Outgoing
              (fun n s1 => reserve_touches quota Outgoing s n s1)
              (fun n s1 => release_touches quota Outgoing s n s1) s (ln_queue l) bytes grow Hits
              (touches_refl _ _ _)) as [Ht _].
  pose proof (attachment_bytes_offer Outgoing quota 0 ltac:(lia) (s, ln_queue l) bytes grow (s', q) r
                (fit_bytes _ _ _ _ H) He) as Hb.
  rewrite He in Ht. split; [|exact Ht]. eapply queue_fit; [done|done|done|].
  destruct Ho as [(n & ps & Ho)|Hsh].
  - left. destruct (attachment_offer_law (s, ln_queue l) n ps bytes grow (s', q) r Ho He) as [(_ & _ & _ & Ho')|[_ Ho']];
      by do 2 eexists.
  - right. destruct (shut_offer (SenderLaws := attachment_sender_laws) (s, ln_queue l) bytes grow (s', q) r Hsh He) as [_ ?]. done.
Qed.

Lemma clear_fits s quota disposed l s' q :
  lane_fit s quota disposed l -> clear s (ln_queue l) = (s', q) ->
  lane_fit s' quota disposed (with_queue q l) /\ touches quota Outgoing s s' /\ attachment_shut (tt, q).
Proof.
  intros H He. pose proof (lf_queue _ _ _ _ H) as [Hits [_ _ Ho]].
  destruct (clear_through (touches quota Outgoing s) quota Outgoing
              (fun n s1 => release_touches quota Outgoing s n s1) s (ln_queue l) Hits
              (touches_refl _ _ _)) as [Ht _].
  pose proof (attachment_bytes_clear Outgoing quota 0 ltac:(lia) (s, ln_queue l) (fit_bytes _ _ _ _ H)) as Hb.
  cbn [fst snd] in Hb. rewrite He in Ht, Hb. assert (attachment_shut (tt, q)) as Hsh by (by unfold clear in He; simplify_eq).
  split; [|by split]. eapply queue_fit; [done|done|exact Ht|by right].
Qed.

(** The packets a queue has still to hand out. *)
Definition packets_left (q : LaneQueue) : nat :=
  length (owed qm_message_id qm_bytes qm_offset_bytes frame MAX (q_messages q)).

(** The next fragment: the first of those packets, and what its commit leaves. *)
Lemma next_fits s quota disposed l alloc :
  lane_fit s quota disposed l ->
  exists s' q r, next_fragment s (ln_queue l) alloc = Some (s', q, r) /\
    lane_fit s' quota disposed (with_queue q l) /\ touches quota Outgoing s s' /\
    match r with
    | Ok (Some _) => exists s2 q2, commit s' q = Some (s2, q2) /\
        packets_left (ln_queue l) = Datatypes.S (packets_left q2) /\
        lane_fit s2 quota disposed (with_queue q2 l) /\ touches quota Outgoing s s2
    | _ => True
    end.
Proof.
  intros H. pose proof (lf_queue _ _ _ _ H) as [Hits [_ _ Ho]].
  pose proof (fit_bytes _ _ _ _ H) as Hb.
  assert (Hnext : exists s' q r, next_fragment s (ln_queue l) alloc = Some (s', q, r) /\
    ((exists n ps, attachment_owes (tt, q) n ps) \/ attachment_shut (tt, q)) /\
    match r with
    | Ok (Some _) => exists n p ps s2 q2, attachment_owes (tt, ln_queue l) n (p :: ps) /\
        commit s' q = Some (s2, q2) /\ attachment_owes (tt, q2) n ps
    | _ => True
    end).
  { destruct Ho as [(n & ps & Ho)|Hsh].
    - destruct (attachment_next_law (s, ln_queue l) n ps alloc Ho) as ([s' q] & r & Hn & Hcase).
      pose proof Hn as Hn'. unfold attachment_next in Hn. cbn [fst snd] in Hn.
      destruct (next_fragment s (ln_queue l) alloc) as [[[s1 q1] r1]|]; [|done].
      cbn [mbind option_bind] in Hn. injection Hn as -> -> Hr. exists s', q, r1. split; [done|].
      destruct Hcase as [(-> & Ho' & _)|([e ->] & Hsh & _)].
      + split; [left; by do 2 eexists|]. destruct r1 as [[fr|]|e]; [|done..].
        destruct ps as [|p ps]; [done|]. cbn [head] in Hn'.
        destruct (attachment_commit_law (s, ln_queue l) n (p :: ps) alloc (s', q) p Ho Hn')
          as ([s2 q2] & Hco & Ho2). by exists n, p, ps, s2, q2.
      + split; [by right|]. destruct r1 as [[fr|]|e']; done.
    - destruct (shut_next (SenderLaws := attachment_sender_laws) (s, ln_queue l) alloc Hsh) as ([s' q] & Hn & Hsh').
      cbn [sd_next attachment_sender] in Hn. unfold attachment_next in Hn. cbn [fst snd] in Hn.
      destruct (next_fragment s (ln_queue l) alloc) as [[[s1 q1] r1]|]; [|done].
      cbn [mbind option_bind] in Hn. injection Hn as -> -> Hr. exists s', q, r1. split; [done|].
      split; [by right|]. by destruct r1 as [[fr|]|e']. }
  destruct Hnext as (s' & q & r & Hn & Ho' & Hr). exists s', q, r. split; [done|].
  assert (bytes_held Outgoing quota 0 (s', q)) as Hb'.
  { eapply (attachment_bytes_next Outgoing quota 0 ltac:(lia) (s, ln_queue l) alloc (s', q));
      [done|]. unfold attachment_next. cbn [fst snd]. by rewrite Hn. }
  destruct (next_through (touches quota Outgoing s) quota Outgoing
              (fun n s1 => release_touches quota Outgoing s n s1) s (ln_queue l) alloc s' q r Hn Hits
              (touches_refl _ _ _)) as [Ht Hits'].
  split; [by eapply queue_fit|]. split; [done|]. destruct r as [[fr|]|e]; [|done..].
  destruct Hr as (n & p & ps & s2 & q2 & Howes & Hco & Ho2). exists s2, q2. split; [done|].
  pose proof (f_equal length (proj2 Howes)) as E1. pose proof (f_equal length (proj2 Ho2)) as E2.
  cbn [length snd] in E1, E2. split; [unfold packets_left; lia|].
  pose proof (attachment_bytes_commit Outgoing quota 0 ltac:(lia) (s', q) (s2, q2) Hb' Hco) as Hb2.
  destruct (commit_through (touches quota Outgoing s) quota Outgoing
              (fun n s1 => release_touches quota Outgoing s n s1) s' q s2 q2 Hco Hits' Ht) as [Ht2 _].
  split; [|done]. eapply queue_fit; [done|done|done|]. left. by do 2 eexists.
Qed.

(** The packets left are at most the bytes held. *)
Lemma packets_left_bound q : queue_sound q -> (packets_left q <= Z.to_nat (queued_bytes q))%nat.
Proof.
  intros [Hr Hm Ho]. destruct Ho as [(n & ps & Hk & _)|(_ & Hnil & _)].
  - unfold packets_left, queued_bytes. rewrite Hr. pose proof (qk_messages _ _ Hk) as Hnum. cbn in Hnum.
    clear Hr Hm Hk. revert Hnum. generalize (n - len (q_messages q) + 1).
    induction (q_messages q) as [|m ms IH]; intros id Hnum; [cbn; lia|].
    destruct Hnum as (_ & Hlen & Hoff & _ & Hnum). specialize (IH _ Hnum).
    cbn [owed]. rewrite length_app, queued_total_cons.
    pose proof (packets_count frame MAX ltac:(by cbv) (qm_message_id m) (qm_bytes m) (qm_offset_bytes m) ltac:(lia)) as Hc.
    pose proof (queued_total_nonneg qm_bytes ms).
    assert ((len (qm_bytes m) - qm_offset_bytes m + MAX - 1) / MAX <= len (qm_bytes m)).
    { numbers. apply Z.div_le_upper_bound; lia. }
    unfold len in *. lia.
  - cbn in Hnil. unfold packets_left. rewrite Hnil. cbn. lia.
Qed.

(** The assembler's half. *)
Lemma assembler_fit s s' quota disposed l a :
  lane_fit s quota disposed l -> counters_agree 0 s' -> its_assembler quota Incoming a -> assembler_sound a ->
  touches quota Incoming s s' -> held_in Incoming quota s' = charged (as_partial a) ->
  lane_fit s' quota disposed (with_assembler a l).
Proof.
  intros [Hca Hk Hq Ha] Hca' Hits Hs Ht Hheld. constructor; [done| |done|by split].
  rewrite (touched_lane _ _ _ _ _ Ht Hk). cbn. unfold held_in, held in Hheld. cbn in Hheld. by rewrite Hheld.
Qed.

Lemma fit_took s quota disposed l :
  lane_fit s quota disposed l ->
  (exists id part total, attachment_took Incoming quota 0 (s, ln_assembler l) id part total) \/
  attachment_spent Incoming quota 0 (s, ln_assembler l).
Proof.
  intros H. destruct (fit_held s quota disposed l H) as [Hheld _].
  destruct H as [Hca _ _ [[Hq Hd] [(Hc & part & total & Hid & Hp)|(Hc & Hp)]]].
  - left. exists (last_completed_message_id (ln_assembler l)), part, total. unfold attachment_took.
    split_and!; done || lia.
  - right. rewrite Hp in Hheld. unfold attachment_spent. by split_and!.
Qed.

Lemma took_sound s a id part total :
  attachment_took Incoming (as_quota a) 0 (s, a) id part total -> assembler_sound a.
Proof. intros (_ & _ & Hc & <- & Hid & _ & _ & Hp). left. split; [done|]. by exists part, total. Qed.

Lemma push_fits s quota disposed l packet now_ms alloc :
  lane_fit s quota disposed l ->
  exists s' a r, push s (ln_assembler l) packet now_ms alloc = Some (s', a, r) /\
    lane_fit s' quota disposed (with_assembler a l) /\ touches quota Incoming s s'.
Proof.
  intros H. pose proof (lf_assembler _ _ _ _ H) as [Hits _].
  assert (Hpush : exists s' a r, push s (ln_assembler l) packet now_ms alloc = Some (s', a, r) /\
    ((exists id part total, attachment_took Incoming quota 0 (s', a) id part total) \/
     attachment_spent Incoming quota 0 (s', a))).
  { destruct (fit_took s quota disposed l H) as [(id & part & total & Ht)|Hsp].
    - destruct (attachment_any_push Incoming quota 0 (s, ln_assembler l) id part total packet now_ms alloc
                  ltac:(lia) Ht) as ([s' a] & r & Hp & Hcase). exists s', a, r. split; [done|].
      destruct Hcase as [[_ ?]|(total' & body & _ & _ & _ & _ & [(_ & _ & ?)|(_ & _ & ?)])];
        [by right|left; by do 3 eexists..].
    - exists s, (ln_assembler l), (Err Closed). split; [|by right].
      unfold push. destruct Hsp as (Hc & _). by rewrite Hc. }
  destruct Hpush as (s' & a & r & Hp & Hcase). exists s', a, r. split; [done|].
  destruct (push_through (touches quota Incoming s) quota Incoming
              (fun n s1 => reserve_touches quota Incoming s n s1)
              (fun n s1 => release_touches quota Incoming s n s1)
              s (ln_assembler l) packet now_ms alloc s' a r Hp Hits (touches_refl _ _ _)) as [Ht Hits'].
  split; [|done]. destruct Hcase as [(id & part & total & Hcase)|(Hc & Hpart & Hok & Hheld)].
  - pose proof Hcase as (_ & Hq & _ & _ & _ & Hok & Hheld & _).
    eapply assembler_fit; [done|done|done| |done|done]. rewrite <- Hq in Hcase. by eapply took_sound.
  - eapply assembler_fit; [done|done|done| |done|by rewrite Hheld, Hpart]. by right.
Qed.

Lemma release_partial_fits s quota disposed l s' a :
  lane_fit s quota disposed l -> release_partial s (ln_assembler l) = (s', a) ->
  counters_agree 0 s' /\ held_in Incoming quota s' = 0 /\ as_partial a = None /\
  its_assembler quota Incoming a /\ touches quota Incoming s s'.
Proof.
  intros H Hr. pose proof (lf_assembler _ _ _ _ H) as [Hits Hs]. destruct (fit_held _ _ _ _ H) as [Hheld _].
  destruct (release_partial_through (touches quota Incoming s) quota Incoming
              (fun n s1 => release_touches quota Incoming s n s1) s (ln_assembler l) Hits
              (touches_refl _ _ _)) as [Ht Hits']. rewrite Hr in Ht, Hits'.
  unfold release_partial in Hr. unfold assembler_sound in Hs. destruct Hits as [Hq Hd].
  destruct (as_partial (ln_assembler l)) as [p|] eqn:Hp.
  - destruct Hs as [(_ & part & total & _ & Hpart)|[_ ?]]; [|done]. destruct Hpart as (since & -> & Hpos & _).
    injection Hr as <- <-. cbn [charged pm_total_bytes] in Hheld. rewrite Hq, Hd in *.
    destruct (release_in (PL := lane_quota_laws) Incoming quota total s (lf_agree _ _ _ _ H) ltac:(lia)) as [Hok Hzero].
    split_and!; [exact Hok|rewrite Hheld, Z.sub_diag in Hzero; exact Hzero|done|exact Hits'|exact Ht].
  - injection Hr as <- <-. split_and!; [apply (lf_agree _ _ _ _ H)|by rewrite Hheld|done|exact Hits'|exact Ht].
Qed.

Lemma reset_fits s quota disposed l s' a :
  lane_fit s quota disposed l -> reset s (ln_assembler l) = (s', a) ->
  lane_fit s' quota disposed (with_assembler a l) /\ touches quota Incoming s s' /\ as_partial a = None.
Proof.
  intros H. unfold reset. destruct (release_partial s (ln_assembler l)) as [s1 a1] eqn:Hr.
  destruct (release_partial_fits _ _ _ _ _ _ H Hr) as (Hok & Hheld & Hp & [Hq Hd] & Ht).
  intros Heq. injection Heq as <- <-. split; [|by split]. cbn.
  eapply assembler_fit; [done|done|by split| |done|cbn; by rewrite Hp].
  left. split; [done|]. exists [], 0. cbn. rewrite Hp. split; [lia|done].
Qed.

Lemma expire_fits s quota disposed l now_ms s' a expired :
  lane_fit s quota disposed l -> expire s (ln_assembler l) now_ms = (s', a, expired) ->
  lane_fit s' quota disposed (with_assembler a l) /\ touches quota Incoming s s'.
Proof.
  intros H. pose proof (lf_assembler _ _ _ _ H) as [Hits Hs].
  assert (Hsame : lane_fit s quota disposed (with_assembler (ln_assembler l) l)) by (by destruct H).
  unfold expire. destruct (as_partial (ln_assembler l)) as [p|] eqn:Hpart.
  2: { intros; simplify_eq. split; [done|apply touches_refl]. }
  case_if; [intros; simplify_eq; split; [done|apply touches_refl]|].
  destruct (release_partial s (ln_assembler l)) as [s1 a1] eqn:Hr.
  destruct (release_partial_fits _ _ _ _ _ _ H Hr) as (Hok & Hheld & Hp & Hits' & Ht).
  assert (close_internal s (ln_assembler l) = (s1, with_closed true a1)) as ->.
  { unfold close_internal, release_partial in *. cbn. rewrite Hpart in *. by injection Hr as <- <-. }
  intros; simplify_eq. split; [|done].
  eapply assembler_fit; [done|done|done| |done|cbn; by rewrite Hp]. by right.
Qed.

(** ** The counters when a peer comes and goes *)

(** Disposing a lane that holds nothing. *)
Lemma dispose_fits s quota l :
  lane_fit s quota false l -> charged (as_partial (ln_assembler l)) = 0 -> queued_bytes (ln_queue l) = 0 ->
  lane_fit (lane_dispose quota s) quota true l /\
  (forall key, key <> lane_key quota -> lane_bytes (lane_dispose quota s) !! key = lane_bytes s !! key).
Proof.
  intros H Hc Hqb. destruct H as [Hca Hk Hq Ha].
  assert (Hof : lane_of s quota = mkLaneBytes 0 0 false).
  { unfold lane_of. rewrite Hk. cbn. unfold lane_books. by rewrite Hc, Hqb. }
  assert (Hs : exists w, lane_dispose quota s =
     mkBudgets w (alter (fun _ => mkLaneBytes 0 0 true) (lane_key quota) (lane_bytes s)) /\
     wd_disposed w = wd_disposed (worker_data s) /\ wd_retained w = wd_retained (worker_data s) ).
  { unfold lane_dispose, dispose_lane. rewrite Hof. cbn [lb_disposed lb_incoming lb_outgoing].
    pose proof (data_total_nonneg _ (ca_lanes _ _ Hca)). pose proof (ca_worker _ _ Hca) as Hw.
    destruct (shared quota); eexists; (split; [reflexivity|]); cbn; split; try done.
    unfold saturating_sub. destruct (wd_disposed _); lia. }
  destruct Hs as (w & -> & Hwd & Hwr). split.
  - constructor; [|cbn; by rewrite lookup_alter_eq, Hk; cbn; unfold lane_books; rewrite Hc, Hqb|done|done].
    destruct Hca as [Hl Hf Hw]. constructor; cbn; [|done|].
    + intros key lane Hkey. destruct (decide (key = lane_key quota)) as [->|Hne].
      * rewrite lookup_alter_eq, Hk in Hkey. cbn in Hkey. simplify_eq. unfold lane_sane, max_bytes. cbn.
        by destruct (lq_lane quota).
      * rewrite lookup_alter_ne in Hkey by done. by apply Hl.
    + rewrite Hwd, Hwr, (data_total_alter _ _ _ _ Hk).
      assert (share (lane_key quota) (lane_books l false) = 0) as ->.
      { unfold share, lane_books. rewrite Hc, Hqb. by destruct (_.2). }
      assert (share (lane_key quota) (mkLaneBytes 0 0 true) = 0) as -> by (unfold share; by destruct (_.2)).
      destruct (wd_disposed _); [done|]. lia.
  - intros key Hne. cbn. by rewrite lookup_alter_ne.
Qed.

(** ** A port *)

Section OnePort.
Context {N : Type} `{!NativePeer N}.
Implicit Types (s : Budgets) (p : Port N).

Definition lanes_fit s p (disposed : bool) : Prop :=
  forall lane, lane_fit s (mkLaneQuota (pt_peer p) lane) disposed (port_lane p lane).

Definition port_fit s p : Prop := lanes_fit s p (pt_closed p).

(** No other peer's counters have changed. *)
Definition around (peer : Z) s s' : Prop :=
  forall key, key.1 <> peer -> lane_bytes s' !! key = lane_bytes s !! key.

(** A port goes on as it was, or has closed and told why. *)
Record follows p p' : Prop := {
  fo_peer : pt_peer p' = pt_peer p;
  fo_authenticated : pt_authenticated p' = pt_authenticated p;
  fo_told : (pt_closed p' = pt_closed p /\ pt_told p' = pt_told p) \/
    (pt_closed p = false /\ pt_closed p' = true /\
     exists reason, pt_told p' = pt_told p ++ [ClosedBecause reason]);
}.

#[export] Instance follows_preorder : PreOrder follows.
Proof.
  split.
  - intros p. constructor; auto.
  - intros p1 p2 p3 [? ? H1] [? ? H2]. constructor; [congruence..|].
    destruct H1 as [[H1 T1]|(H1 & H1' & T1)], H2 as [[H2 T2]|(H2 & H2' & T2)]; rewrite ?H1 in *; try congruence.
    + left. split; congruence.
    + right. rewrite <- T1. split_and!; done.
    + right. rewrite T2. split_and!; congruence.
Qed.

#[export] Instance around_preorder peer : PreOrder (around peer).
Proof. split; [by intros s key|]. intros s1 s2 s3 H1 H2 key Hne. rewrite H2, H1; done. Qed.

(** What a call that delivers nothing leaves. *)
Definition moves s p (next : Budgets * Port N) : Prop :=
  port_fit next.1 next.2 /\ around (pt_peer p) s next.1 /\ follows p next.2.

Lemma moves_trans s p s1 p1 next :
  around (pt_peer p) s s1 -> follows p p1 -> moves s1 p1 next -> moves s p next.
Proof.
  intros Ha Hf (Hp & Ha' & Hf'). rewrite (fo_peer _ _ Hf) in Ha'.
  split; [done|]. split; [by etrans|by etrans].
Qed.

Lemma touches_around q d s s' : touches q d s s' -> around (lq_peer q) s s'.
Proof.
  intros H key Hne. apply (touched_other q d s s' key H). intros ->. by apply Hne.
Qed.

(** One lane's operation. *)
Lemma lanes_fit_set s s' p disposed lane l d :
  lanes_fit s p disposed -> lane_fit s' (mkLaneQuota (pt_peer p) lane) disposed l ->
  touches (mkLaneQuota (pt_peer p) lane) d s s' ->
  lanes_fit s' (with_port_lane lane l p) disposed /\ around (pt_peer p) s s'.
Proof.
  intros H Hl Ht. split; [|exact (touches_around _ _ _ _ Ht)]. intros lane'.
  destruct (decide (lane' = lane)) as [->|Hne]; [by destruct lane|].
  assert (port_lane (with_port_lane lane l p) lane' = port_lane p lane') as -> by (by destruct lane, lane').
  assert (pt_peer (with_port_lane lane l p) = pt_peer p) as -> by (by destruct lane).
  eapply fit_elsewhere; [apply H|apply Hl|].
  apply (touched_other _ _ _ _ _ Ht). unfold lane_key. cbn. congruence.
Qed.

Lemma with_port_lane_follows lane l p : follows p (with_port_lane lane l p).
Proof. destruct lane; constructor; auto. Qed.

(** Setting fields that are no lane. *)
Lemma port_lane_same p p' :
  pt_peer p' = pt_peer p -> pt_control p' = pt_control p -> pt_data p' = pt_data p ->
  forall s disposed, lanes_fit s p disposed -> lanes_fit s p' disposed.
Proof.
  intros Hp Hc Hd s disposed H lane. specialize (H lane). rewrite Hp.
  destruct lane; cbn in *; by rewrite ?Hc, ?Hd.
Qed.

(** A lane that holds nothing. *)
Definition lane_empty (l : LaneState) : Prop :=
  charged (as_partial (ln_assembler l)) = 0 /\ queued_bytes (ln_queue l) = 0.

Lemma close_lane_fits s p disposed lane s' p' :
  lanes_fit s p disposed -> close_lane s p lane = (s', p') ->
  lanes_fit s' p' disposed /\ around (pt_peer p) s s' /\ follows p p' /\
  lane_empty (port_lane p' lane) /\
  (forall lane', lane' <> lane -> port_lane p' lane' = port_lane p lane').
Proof.
  intros H. unfold close_lane. set (l := with_partial_timer None (port_lane p lane)).
  assert (Hl : lane_fit s (mkLaneQuota (pt_peer p) lane) disposed l) by (apply fit_timer, H).
  destruct (clear s (ln_queue l)) as [s1 q1] eqn:Hclear.
  destruct (clear_fits _ _ _ _ _ _ Hl Hclear) as (Hl1 & Ht1 & _ & Hq1 & _). cbn in Hq1.
  destruct (reset s1 (ln_assembler l)) as [s2 a2] eqn:Hreset.
  destruct (reset_fits _ _ _ (with_queue q1 l) s2 a2 Hl1 Hreset) as (Hl2 & Ht2 & Ha2).
  intros Heq. injection Heq as <- <-. cbn [ln_assembler with_queue] in *.
  destruct (lanes_fit_set s s1 p disposed lane _ _ H Hl1 Ht1) as [Hf1 Hr1].
  assert (Hpeer : forall l', pt_peer (with_port_lane lane l' p) = pt_peer p) by (by destruct lane).
  destruct (lanes_fit_set s1 s2 (with_port_lane lane (with_queue q1 l) p) disposed lane
              (with_assembler a2 (with_queue q1 l)) Incoming Hf1) as [Hf2 Hr2];
    [by rewrite Hpeer|by rewrite Hpeer|].
  rewrite Hpeer in Hr2. split; [by destruct lane; eapply port_lane_same; [..|exact Hf2]|].
  split; [by etrans|]. split; [destruct lane; constructor; auto|]. split.
  - pose proof (qs_retained _ (proj2 (lf_queue _ _ _ _ Hl1))) as Hr. cbn in Hr. rewrite Hq1 in Hr.
    destruct lane; (split; [cbn; by rewrite Ha2|exact Hr]).
  - intros lane' Hne. by destruct lane, lane'.
Qed.

Lemma close_locked_moves s p reason : port_fit s p -> moves s p (close_locked s p reason).
Proof.
  intros H. unfold close_locked. destruct (pt_closed p) eqn:Hc; [by split; [|split]|].
  unfold port_fit in H. rewrite Hc in H.
  set (p0 := with_timers false false (with_port_closed true p)).
  assert (H0 : lanes_fit s p0 false) by (by eapply port_lane_same; [..|exact H]).
  destruct (close_lane s p0 Control) as [s1 p1] eqn:H1.
  destruct (close_lane_fits _ _ _ _ _ _ H0 H1) as (Hf1 & Hr1 & Hw1 & He1 & Hs1).
  destruct (close_lane s1 p1 Data) as [s2 p2] eqn:H2.
  destruct (close_lane_fits _ _ _ _ _ _ Hf1 H2) as (Hf2 & Hr2 & Hw2 & He2 & Hs2).
  assert (Hpeer1 : pt_peer p1 = pt_peer p) by (by rewrite (fo_peer _ _ Hw1)).
  assert (Hpeer2 : pt_peer p2 = pt_peer p) by (by rewrite (fo_peer _ _ Hw2)).
  assert (Hw : follows p0 p2) by (by etrans).
  rewrite <- (Hs2 Control) in He1 by done.
  assert (Hcl2 : pt_closed p2 = true /\ pt_told p2 = pt_told p).
  { destruct (fo_told _ _ Hw) as [[? ?]|(? & _)]; done. }
  destruct Hcl2 as [Hcl2 Ht2].
  pose proof (Hf2 Control) as Hc2. pose proof (Hf2 Data) as Hd2.
  rewrite Hpeer2 in Hc2, Hd2. rewrite Hpeer1 in *.
  cbn [fst snd]. unfold peer_dispose. rewrite Hpeer2.
  destruct (dispose_fits _ _ _ Hc2 (proj1 He1) (proj2 He1)) as [Hc3 Hr3].
  assert (Hd3 : lane_fit (lane_dispose (control_quota (pt_peer p)) s2) (data_quota (pt_peer p)) false (port_lane p2 Data)).
  { eapply fit_elsewhere; [exact Hd2|apply Hc3|]. by apply Hr3. }
  destruct (dispose_fits _ _ _ Hd3 (proj1 He2) (proj2 He2)) as [Hd4 Hr4].
  split; [|split].
  - intros lane. cbn. rewrite Hcl2, Hpeer2. destruct lane; [|exact Hd4].
    eapply fit_elsewhere; [exact Hc3|apply Hd4|]. by apply Hr4.
  - intros key Hne. cbn [fst]. rewrite Hr4, Hr3 by (intros ->; by apply Hne).
    rewrite (Hr2 key Hne). by apply Hr1.
  - constructor; cbn; [done|by rewrite (fo_authenticated _ _ Hw)|].
    right. split_and!; [done|done|]. exists reason. by rewrite Ht2.
Qed.

Lemma moves_refl s p : port_fit s p -> moves s p (s, p).
Proof. intros H. by split; [|split]. Qed.

(** A lane's operation leaves a port that fits. *)
Lemma moves_set s s' p lane l d :
  port_fit s p -> lane_fit s' (mkLaneQuota (pt_peer p) lane) (pt_closed p) l ->
  touches (mkLaneQuota (pt_peer p) lane) d s s' -> moves s p (s', with_port_lane lane l p).
Proof.
  intros H Hl Ht. destruct (lanes_fit_set s s' p _ lane l d H Hl Ht) as [Hf Hr].
  split; [|by split; [|apply with_port_lane_follows]]. unfold port_fit. cbn [fst snd].
  assert (pt_closed (with_port_lane lane l p) = pt_closed p) as -> by (by destruct lane). done.
Qed.

Lemma moves_then s p s1 p1 next : moves s p (s1, p1) -> (port_fit s1 p1 -> moves s1 p1 next) -> moves s p next.
Proof. intros (Hf & Ha & Hw) Hn. by eapply moves_trans; [exact Ha|exact Hw|apply Hn]. Qed.

(** Setting a field that is neither a lane nor one of the gates. *)
Lemma moves_same s p p' :
  port_fit s p -> pt_peer p' = pt_peer p -> pt_control p' = pt_control p -> pt_data p' = pt_data p ->
  pt_closed p' = pt_closed p -> pt_authenticated p' = pt_authenticated p -> pt_told p' = pt_told p ->
  moves s p (s, p').
Proof.
  intros H Hp Hc Hd Hcl Hau Hto. split; [|split; [done|]].
  - unfold port_fit. cbn [fst snd]. rewrite Hcl. by eapply port_lane_same.
  - constructor; cbn [snd]; auto.
Qed.

(** The fuel of a lane's flush is enough, and every commit succeeds. *)
Lemma flush_lane_moves fuel : forall allocs s p lane,
  port_fit s p -> (packets_left (ln_queue (port_lane p lane)) < fuel)%nat ->
  exists allocs' s' p' go, flush_lane fuel allocs s p lane = Some (allocs', s', p', go) /\
    moves s p (s', p').
Proof.
  induction fuel as [|fuel IH]; intros allocs s p lane H Hfuel; [lia|]. cbn [flush_lane].
  destruct (pt_closed p) eqn:Hc; cbn [orb]; [do 4 eexists; split; [done|by apply moves_refl]|].
  destruct (negb (is_open _ _)); [do 4 eexists; split; [done|by apply moves_refl]|].
  destruct (next_fits s _ _ _ (default true (head allocs)) (H lane)) as (s1 & q & r & -> & Hl & Ht & Hr).
  cbn [mbind option_bind].
  pose proof (moves_set s s1 p lane (with_queue q (port_lane p lane)) _ H Hl Ht) as Hm1.
  set (p1 := with_port_lane lane (with_queue q (port_lane p lane)) p) in *.
  destruct r as [[fr|]|e].
  - destruct Hr as (s2 & q2 & Hco & Hleft & Hl2 & Ht2).
    destruct (native_send (pt_native p1) (lane_index lane) (fragment_bytes q)) as [n sent].
    assert (Hm2 : moves s p (s1, with_native n p1)) by (eapply moves_then; [exact Hm1|intros; by apply moves_same]).
    destruct sent; cbn [negb].
    + rewrite Hco. cbn [mbind option_bind].
      pose proof (moves_set s s2 p lane (with_queue q2 (port_lane p lane)) _ H Hl2 Ht2) as Hm3.
      set (p3 := with_port_lane lane (with_queue q2 (port_lane (with_native n p1) lane)) (with_native n p1)).
      assert (Hm : moves s p (s2, p3)).
      { eapply moves_then; [exact Hm3|]. intros. apply moves_same; by destruct lane. }
      destruct (IH (tail allocs) s2 p3 lane) as (al & s4 & p4 & go & -> & Hm4);
        [apply Hm|by destruct lane; cbn in *; lia|].
      do 4 eexists. split; [done|]. by eapply moves_then.
    + destruct (close_locked s1 (with_native n p1) "native_send_failed"%string) as [s4 p4] eqn:Hcl.
      do 4 eexists. split; [done|]. eapply moves_then; [exact Hm2|]. intros Hf. rewrite <- Hcl.
      by apply close_locked_moves.
  - do 4 eexists. split; [done|exact Hm1].
  - destruct (close_locked s1 p1 "packet_rejected"%string) as [s4 p4] eqn:Hcl.
    do 4 eexists. split; [done|]. eapply moves_then; [exact Hm1|]. intros Hf. rewrite <- Hcl.
    by apply close_locked_moves.
Qed.

Lemma flush_fuel_enough s p lane :
  port_fit s p -> (packets_left (ln_queue (port_lane p lane)) < flush_fuel p lane)%nat.
Proof.
  intros H. pose proof (packets_left_bound _ (proj2 (lf_queue _ _ _ _ (H lane)))). unfold flush_fuel. lia.
Qed.

Lemma close_if_drained_moves s p : port_fit s p -> moves s p (close_if_drained s p).
Proof.
  intros H. unfold close_if_drained. destruct (_ || _); [by apply moves_refl|].
  destruct (pt_close_when_drained p); [by apply close_locked_moves|by apply moves_refl].
Qed.

Lemma flush_moves allocs s p :
  port_fit s p -> exists next, flush allocs s p = Some next /\ moves s p next.
Proof.
  intros H. unfold flush.
  destruct (flush_lane_moves _ allocs s p Control H (flush_fuel_enough s p Control H))
    as (al & s1 & p1 & go & -> & Hm1). cbn [mbind option_bind].
  destruct go; cbn [negb]; [|by eexists].
  destruct (flush_lane_moves _ al s1 p1 Data (proj1 Hm1) (flush_fuel_enough s1 p1 Data (proj1 Hm1)))
    as (al2 & s2 & p2 & go & -> & Hm2). cbn [mbind option_bind].
  assert (Hm : moves s p (s2, p2)) by (by eapply moves_then).
  destruct go; cbn [negb]; [|by eexists].
  eexists. split; [done|]. eapply moves_then; [exact Hm|]. apply close_if_drained_moves.
Qed.

Lemma send_moves allocs s p bytes lane grow :
  port_fit s p -> exists s' p' r, send allocs s p bytes lane grow = Some (s', p', r) /\ moves s p (s', p').
Proof.
  intros H. unfold send. destruct (pt_closed p) eqn:Hc; [do 3 eexists; split; [done|by apply moves_refl]|].
  destruct (enqueue s (ln_queue (port_lane p lane)) bytes grow) as [[s1 q] taken] eqn:He.
  destruct (enqueue_fits s _ _ _ bytes grow s1 q taken (H lane) He) as [Hl Ht].
  pose proof (moves_set s s1 p lane _ _ H Hl Ht) as Hm1.
  destruct taken as [[]|e]; [|do 3 eexists; by split..].
  destruct (flush_moves allocs s1 _ (proj1 Hm1)) as ([s2 p2] & Hfl & Hm2). cbn [fst snd] in Hfl. rewrite Hfl.
  cbn [mbind option_bind]. do 3 eexists. split; [done|]. by eapply moves_then.
Qed.

(** What a call may deliver: a frame of a bounded length. *)
Definition frame_event (e : PortEvent) : Prop :=
  exists lane bytes, e = OnMessage lane bytes /\ 1 <= len bytes <= CAP.

(** What may be delivered before the hello: a control frame of one packet's size. *)
Definition gated_event (e : PortEvent) : Prop :=
  exists bytes, e = OnMessage Control bytes /\ len bytes <= PACKET_MAX_BYTES.

(** What a port told: frames, and at the end why it closed, if it has. *)
Definition story p : Prop :=
  exists frames, Forall frame_event frames /\
    (pt_authenticated p = false -> Forall gated_event frames) /\
    if pt_closed p then exists reason, pt_told p = frames ++ [ClosedBecause reason]
    else pt_told p = frames.

Lemma follows_story p p' : follows p p' -> story p -> story p'.
Proof.
  intros [_ Ha Ht] (frames & Hf & Hg & Hs). exists frames. rewrite Ha. split; [done|]. split; [done|].
  destruct Ht as [[-> ->]|(Hc & -> & reason & ->)]; [done|]. rewrite Hc in Hs. exists reason. by rewrite Hs.
Qed.

(** A frame is as long as its last packet says. *)
Lemma push_frame s (a : LaneAssembler) packet now_ms alloc s' a' m :
  push s a packet now_ms alloc = Some (s', a', Ok (Some m)) ->
  exists pk, parse_attachment_transfer_packet packet = Some (Ok pk) /\
    len m = total_bytes (header pk) /\ 1 <= len m <= CAP.
Proof.
  unfold push. destruct (as_closed a); [done|]. destruct (stalled a now_ms); [|done].
  destruct (attachment_parse_any packet) as (r & Hp & Hr). rewrite Hp. cbn [mbind option_bind].
  destruct r as [pk|e]; [|done]. destruct Hr as (Hf & _).
  destruct (accept s a pk now_ms alloc) as [[s1 a1] [m1|e]] eqn:Ha; [|done]. intros Heq. simplify_eq.
  exists pk. split; [done|]. assert (len m = total_bytes (header pk)) as ->; [|by destruct Hf as (_ & ? & ? & _); lia].
  unfold accept, begin_message, complete_partial in Ha. destruct (as_partial a) as [pm|].
  - destruct (_ || _ || _) eqn:Hchk; [done|]. bool_to_prop.
    destruct (negb (len (pm_bytes pm ++ payload pk) =? pm_total_bytes pm)) eqn:Hlen; [done|]. bool_to_prop.
    cbn in Ha. simplify_eq. lia.
  - repeat (case_if; [done|]). destruct (quota_reserve _ _ _ s) as [s2 granted].
    case_if; [done|]. destruct (len (payload pk) =? total_bytes (header pk)) eqn:Hlen; [|by case_if].
    bool_to_prop. by simplify_eq.
Qed.

(** A call either delivers nothing or one frame that passed the gates. *)
Lemma message_moves s p lane binary data now_ms alloc :
  port_fit s p ->
  exists s' p', channel_message s p lane binary data now_ms alloc = Some (s', p') /\
    (moves s p (s', p') \/
     exists p1 frame, moves s p (s', p1) /\ p' = tell (OnMessage lane frame) p1 /\ pt_closed p1 = false /\
       1 <= len frame <= CAP /\
       (pt_authenticated p = false -> lane = Control /\ len frame <= PACKET_MAX_BYTES)).
Proof.
  intros H. unfold channel_message.
  assert (Hrefuse : forall reason, exists s' p', Some (close_locked s p reason) = Some (s', p') /\ moves s p (s', p')).
  { intros reason. destruct (close_locked s p reason) as [s' p'] eqn:Hc. exists s', p'. split; [done|].
    rewrite <- Hc. by apply close_locked_moves. }
  destruct (refuses p lane binary data) as [[reason|]|] eqn:Href; cbn [mbind option_bind].
  - destruct (Hrefuse reason) as (s' & p' & -> & Hm). exists s', p'. by auto.
  - destruct (push_fits s _ _ _ data now_ms alloc (H lane)) as (s1 & a & r & Hpush & Hl & Ht).
    rewrite Hpush. cbn [mbind option_bind].
    pose proof (moves_set s s1 p lane _ _ H Hl Ht) as Hm.
    set (p1 := with_port_lane lane (with_assembler a (port_lane p lane)) p) in *.
    destruct r as [complete|e].
    + set (p2 := with_port_lane lane (arm_partial_deadline now_ms (port_lane p1 lane)) p1).
      assert (Hm2 : moves s p (s1, p2)).
      { eapply (moves_set _ _ _ _ (arm_partial_deadline now_ms (port_lane p1 lane))) in H;
          [|apply fit_timer; destruct lane; exact Hl|exact Ht]. by destruct lane. }
      destruct complete as [m|]; [|do 2 eexists; split; [done|by left]].
      do 2 eexists. split; [done|]. right. exists p2, m. split; [done|]. split; [done|].
      unfold refuses in Href. destruct (negb (_ && _)) eqn:Hopen; [done|].
      rewrite negb_false_iff, !andb_true_iff, negb_true_iff in Hopen. destruct Hopen as [[_ Hopen] _].
      split; [by destruct lane|]. destruct (push_frame _ _ _ _ _ _ _ _ Hpush) as (pk & Hpk & Hlen & Hcap).
      split; [done|]. intros Hau. rewrite Hau in Href. cbn [negb andb] in Href.
      destruct (negb (bool_decide (lane = Control))) eqn:Hlane; [done|].
      rewrite negb_false_iff, bool_decide_eq_true in Hlane. split; [done|].
      case_if; [done|]. rewrite Hpk in Href. cbn in Href.
      destruct (Z.ltb_spec PACKET_MAX_BYTES (total_bytes (header pk))); [done|]. lia.
    + destruct (close_locked s1 p1 "packet_rejected"%string) as [s2 p2] eqn:Hc. exists s2, p2. split; [done|]. left.
      eapply moves_then; [exact Hm|]. intros Hf. rewrite <- Hc. by apply close_locked_moves.
  - exfalso. unfold refuses in Href. repeat (case_if; [done|]).
    destruct (attachment_parse_any data) as (r & Hp & _). rewrite Hp in Href. by destruct r.
Qed.

Lemma partial_deadline_moves s p lane now_ms : port_fit s p -> moves s p (partial_deadline s p lane now_ms).
Proof.
  intros H. unfold partial_deadline. set (l := with_partial_timer None (port_lane p lane)).
  assert (Hl : lane_fit s (mkLaneQuota (pt_peer p) lane) (pt_closed p) l) by (apply fit_timer, H).
  destruct (expire s (ln_assembler l) now_ms) as [[s1 a] expired] eqn:He.
  destruct (expire_fits _ _ _ _ _ _ _ _ Hl He) as [Hl1 Ht].
  pose proof (moves_set s s1 p lane _ _ H Hl1 Ht) as Hm.
  destruct expired; [|done]. eapply moves_then; [exact Hm|]. apply close_locked_moves.
Qed.

(** Every call answers, keeps the accounts of its port and touches no other's. *)
Lemma port_call_fits s p call :
  port_fit s p -> story p ->
  exists s' p', port_call s p call = Some (s', p') /\ port_fit s' p' /\ around (pt_peer p) s s' /\
    pt_peer p' = pt_peer p /\ story p'.
Proof.
  intros H Hst.
  assert (Hmoves : forall next, moves s p next -> exists s' p', Some next = Some (s', p') /\ port_fit s' p' /\
            around (pt_peer p) s s' /\ pt_peer p' = pt_peer p /\ story p').
  { intros [s' p'] (Hf & Ha & Hw). exists s', p'. split_and!; try done; [apply Hw|by eapply follows_story]. }
  destruct call as [| |allocs lane|allocs|reason|lane binary data now_ms alloc|lane now_ms| | |allocs bytes lane grow
                   |reason|allocs reason| |native]; cbn [port_call].
  - apply (Hmoves (s, _)). unfold attach_ingress. destruct (_ || _); [by apply moves_refl|by apply moves_same].
  - apply (Hmoves (s, _)). by apply moves_same.
  - unfold channel_opened. destruct (pt_closed p); [by apply Hmoves, moves_refl|].
    set (p0 := if (match lane with Control => _ | Data => _ end : bool) then _ else p).
    assert (Hm0 : moves s p (s, p0)) by (unfold p0; case_match; [by apply moves_same|by apply moves_refl]).
    destruct (flush_moves allocs s p0 (proj1 Hm0)) as (next & -> & Hm). apply Hmoves. by eapply moves_then.
  - unfold buffered_amount_low. destruct (flush_moves allocs s p H) as (next & -> & Hm). by apply Hmoves.
  - by apply Hmoves, close_locked_moves.
  - destruct (message_moves s p lane binary data now_ms alloc H) as (s' & p' & -> & [Hm|Hm]); [by apply Hmoves|].
    destruct Hm as (p1 & frame & (Hf & Ha & Hw) & -> & Hc & Hlen & Hgate). cbn [fst snd] in *.
    do 2 eexists. split; [done|]. split; [exact Hf|]. split; [done|]. split; [apply Hw|].
    destruct (follows_story _ _ Hw Hst) as (frames & Hfr & Hg & Hto). rewrite Hc in Hto.
    exists (frames ++ [OnMessage lane frame]). cbn. rewrite Hc, Hto. split_and!; [|intros Hau|done].
    + apply Forall_app. split; [done|]. constructor; [by exists lane, frame|done].
    + apply Forall_app. split; [by apply Hg|]. constructor; [|done].
      rewrite (fo_authenticated _ _ Hw) in Hau. destruct (Hgate Hau) as [-> ?]. by exists frame.
  - by apply Hmoves, partial_deadline_moves.
  - apply Hmoves. unfold hello_deadline. set (p0 := with_timers false (pt_drain_timer p) p).
    assert (Hm0 : moves s p (s, p0)) by (by apply moves_same).
    destruct (pt_authenticated p0); [done|]. eapply moves_then; [exact Hm0|]. apply close_locked_moves.
  - apply Hmoves. unfold drain_deadline.
    eapply (moves_then s p s (with_timers (pt_hello_timer p) false p)); [by apply moves_same|]. apply close_locked_moves.
  - destruct (send_moves allocs s p bytes lane grow H) as (s' & p' & r & -> & Hm). cbn [mbind option_bind].
    by apply Hmoves.
  - by apply Hmoves, close_locked_moves.
  - unfold close_after_drain. destruct (pt_closed p); [by apply Hmoves, moves_refl|].
    set (p0 := with_close_when_drained (Some reason) p).
    assert (Hm0 : moves s p (s, p0)) by (by apply moves_same).
    destruct (flush_moves allocs s p0 (proj1 Hm0)) as ([s1 p1] & -> & Hm). cbn [mbind option_bind].
    apply Hmoves. eapply moves_then; [exact Hm0|]. intros _. eapply moves_then; [exact Hm|]. intros Hf.
    destruct (_ || _); [by apply moves_refl|by apply moves_same].
  - exists s, (mark_authenticated p). split; [done|]. unfold mark_authenticated.
    destruct (_ || _) eqn:Hgate; [by split_and!|]. split; [|split_and!; try done].
    + by eapply (port_lane_same p); [..|exact H].
    + destruct Hst as (frames & Hf & _ & Ht). by exists frames.
  - apply (Hmoves (s, _)). by apply moves_same.
Qed.

(** ** A worker *)

Implicit Types (w : Worker N).

Record worker_fit w : Prop := {
  wf_agree : counters_agree 0 (wk_budgets w);
  wf_ports : forall peer p, wk_ports w !! peer = Some p ->
    pt_peer p = peer /\ port_fit (wk_budgets w) p /\ story p;
  wf_keys : forall key, is_Some (lane_bytes (wk_budgets w) !! key) -> is_Some (wk_ports w !! key.1);
}.

(** A new peer's lanes count nothing. *)
Lemma create_fits s peer native :
  counters_agree 0 s -> (forall lane, lane_bytes s !! (peer, lane) = None) ->
  port_fit (create_peer_budget s peer) (port_new peer native) /\ around peer s (create_peer_budget s peer).
Proof.
  intros [Hl Hf Hw] Hnone.
  assert (Hca : counters_agree 0 (create_peer_budget s peer)).
  { assert (Hsane : forall lane, lane_sane (peer, lane) (mkLaneBytes 0 0 false)).
    { intros []; unfold lane_sane, max_bytes; cbn; by split_and!. }
    assert (Hd : (<[(peer, Data) := mkLaneBytes 0 0 false]> (lane_bytes s)) !! (peer, Control) = None)
      by (rewrite lookup_insert_ne by done; apply Hnone).
    constructor; cbn; [|done|].
    - by apply map_Forall_insert_2; [|apply map_Forall_insert_2].
    - rewrite !data_total_insert by done. done. }
  split.
  - intros lane. assert (Hq : queue_sound (queue_new Outgoing (mkLaneQuota peer lane))).
    { constructor; [done|constructor|]. left. exists 0, []. split; [by constructor|done]. }
    assert (Ha : assembler_sound (assembler_new Incoming (mkLaneQuota peer lane))).
    { left. split; [done|]. by exists [], 0. }
    destruct lane; constructor; try done; cbn; [by rewrite lookup_insert_eq|].
    rewrite lookup_insert_ne, lookup_insert_eq by done. done.
  - intros key Hne. cbn. rewrite !lookup_insert_ne; [done|intros <-; by apply Hne..].
Qed.

Lemma worker_step_fits w op : worker_fit w -> exists w', worker_step w op = Some w' /\ worker_fit w'.
Proof.
  intros Hw. destruct op as [peer native|peer call|]; cbn [worker_step].
  - eexists. split; [done|]. destruct (wk_ports w !! peer) as [p|] eqn:Hp; [done|].
    destruct Hw as [Hca Hports Hkeys].
    destruct (create_fits (wk_budgets w) peer native Hca) as [Hnew Ha].
    { intros lane. destruct (lane_bytes (wk_budgets w) !! (peer, lane)) eqn:Hk; [|done].
      destruct (Hkeys (peer, lane)) as [? Hsome]; [by eexists|]. cbn in Hsome. congruence. }
    constructor; [apply (Hnew Control)| |].
    + intros peer' p' Hp'. cbn in *. destruct (decide (peer' = peer)) as [->|Hne].
      * rewrite lookup_insert_eq in Hp'. simplify_eq. split; [done|]. split; [done|]. by exists [].
      * rewrite lookup_insert_ne in Hp' by done. destruct (Hports _ _ Hp') as (<- & Hf & Hst).
        split; [done|]. split; [|done]. intros lane. eapply fit_elsewhere; [apply Hf|apply (Hnew Control)|].
        by apply Ha.
    + intros key Hk. cbn [wk_budgets wk_ports] in *. destruct (decide (key.1 = peer)) as [Heq|Hne]; [rewrite Heq, lookup_insert_eq; by eexists|].
      rewrite lookup_insert_ne by done. apply Hkeys. by rewrite (Ha key Hne) in Hk.
  - destruct (wk_ports w !! peer) as [p|] eqn:Hp; [|by exists w].
    destruct Hw as [Hca Hports Hkeys]. destruct (Hports _ _ Hp) as (<- & Hf & Hst).
    destruct (port_call_fits (wk_budgets w) p call Hf Hst) as (s' & p' & -> & Hf' & Ha & Hpeer & Hst').
    cbn [mbind option_bind]. eexists. split; [done|]. constructor; [apply (Hf' Control)| |].
    + intros peer' p0 Hp0. cbn in *. destruct (decide (peer' = pt_peer p)) as [->|Hne].
      * rewrite lookup_insert_eq in Hp0. by simplify_eq.
      * rewrite lookup_insert_ne in Hp0 by done. destruct (Hports _ _ Hp0) as (<- & Hf0 & Hst0).
        split; [done|]. split; [|done]. intros lane. eapply fit_elsewhere; [apply Hf0|apply (Hf' Control)|].
        by apply Ha.
    + intros key Hk. cbn in *. destruct (decide (key.1 = pt_peer p)) as [Heq|Hne]; [rewrite Heq, lookup_insert_eq; by eexists|].
      rewrite lookup_insert_ne by done. apply Hkeys. by rewrite (Ha key Hne) in Hk.
  - eexists. split; [done|]. destruct Hw as [[Hl Hf Hw] Hports Hkeys].
    assert (Hca : counters_agree 0 (budget_dispose (wk_budgets w))) by (by constructor).
    constructor; [done| |done]. intros peer p Hp. destruct (Hports _ _ Hp) as (Hpe & Hfit & Hst).
    split; [done|]. split; [|done]. intros lane. by eapply fit_elsewhere; [apply Hfit|..].
Qed.

Lemma worker_run_fits ops w : worker_fit w -> exists w', worker_run w ops = Some w' /\ worker_fit w'.
Proof.
  revert w. induction ops as [|op ops IH]; intros w Hw; [by exists w|]. cbn [worker_run].
  destruct (worker_step_fits w op Hw) as (w' & -> & Hw'). cbn [mbind option_bind]. by apply IH.
Qed.

Lemma worker_new_fits : worker_fit worker_new.
Proof.
  constructor; [by constructor| |]; cbn; [intros peer p Hp|intros key Hk].
  - by rewrite lookup_empty in Hp.
  - rewrite lookup_empty in Hk. by destruct Hk.
Qed.

(** What a port's data lane holds: the whole of the message it is taking, and the
    messages it has still to send. *)
Definition port_data_bytes p : Z :=
  charged (as_partial (ln_assembler (pt_data p))) + queued_total qm_bytes (q_messages (ln_queue (pt_data p))).

Definition ports_data_bytes (ports : gmap Z (Port N)) : Z :=
  map_fold (fun _ p n => port_data_bytes p + n) 0 ports.

Lemma ports_data_insert ports peer p :
  ports !! peer = None -> ports_data_bytes (<[peer := p]> ports) = port_data_bytes p + ports_data_bytes ports.
Proof. intros H. unfold ports_data_bytes. rewrite map_fold_insert_L; [done| |done]. intros. lia. Qed.

(** The lanes' counters are what the ports hold. *)
Lemma lanes_of_ports ports : forall lanes,
  (forall peer p, ports !! peer = Some p -> exists control data,
     lanes !! (peer, Control) = Some control /\ lanes !! (peer, Data) = Some data /\
     lb_incoming data + lb_outgoing data = port_data_bytes p) ->
  (forall key, is_Some (lanes !! key) -> is_Some (ports !! key.1)) ->
  data_total lanes = ports_data_bytes ports.
Proof.
  induction ports as [|peer p ports Hnone IH] using map_ind; intros lanes Hports Hkeys.
  - assert (lanes = ∅) as ->; [|done]. apply map_empty. intros key.
    destruct (lanes !! key) eqn:Hk; [|done]. destruct (Hkeys key) as [? Hs]; [by eexists|].
    by rewrite lookup_empty in Hs.
  - destruct (Hports peer p) as (control & data & Hc & Hd & Hsum); [by rewrite lookup_insert_eq|].
    rewrite ports_data_insert by done. rewrite (data_total_delete _ _ _ Hd).
    rewrite (data_total_delete _ (peer, Control) control) by (by rewrite lookup_delete_ne).
    rewrite <- (IH (delete (peer, Control) (delete (peer, Data) lanes))).
    + unfold share. cbn. lia.
    + intros peer' p' Hp'. assert (peer' <> peer) by (intros ->; congruence).
      rewrite !lookup_delete_ne by congruence. apply Hports. by rewrite lookup_insert_ne.
    + intros key Hk. assert (key.1 <> peer).
      { intros Heq. destruct key as [k []]; cbn in Heq; subst k.
        - rewrite lookup_delete_eq in Hk. by destruct Hk.
        - rewrite lookup_delete_ne, lookup_delete_eq in Hk by done. by destruct Hk. }
      rewrite !lookup_delete_ne in Hk by (intros <-; done).
      destruct (Hkeys key Hk) as [p' Hp']. rewrite lookup_insert_ne in Hp' by done. by eexists.
Qed.

Lemma fit_data_total w : worker_fit w -> data_total (lane_bytes (wk_budgets w)) = ports_data_bytes (wk_ports w).
Proof.
  intros [Hca Hports Hkeys]. apply lanes_of_ports; [|done]. intros peer p Hp.
  destruct (Hports _ _ Hp) as (<- & Hf & _).
  pose proof (lf_books _ _ _ _ (Hf Control)) as Hc. pose proof (lf_books _ _ _ _ (Hf Data)) as Hd.
  do 2 eexists. split; [exact Hc|]. split; [exact Hd|]. unfold port_data_bytes, lane_books. cbn.
  pose proof (qs_retained _ (proj2 (lf_queue _ _ _ _ (Hf Data)))) as Hr. cbn in Hr. unfold queued_bytes. lia.
Qed.

(** A disposed lane is empty. *)
Lemma disposed_empty s quota l :
  lane_fit s quota true l -> as_partial (ln_assembler l) = None /\ q_messages (ln_queue l) = [].
Proof.
  intros [Hca Hk [_ [Hr Hm _]] [_ Hs]]. pose proof (ca_lanes _ _ Hca _ _ Hk) as (_ & _ & Hz).
  destruct (Hz eq_refl) as [Hi Ho]. cbn in Hi, Ho. unfold queued_bytes in Ho. rewrite Hr in Ho. split.
  - unfold assembler_sound in Hs. destruct (as_partial (ln_assembler l)) as [pm|]; [|done].
    destruct Hs as [(_ & part & total & _ & since & -> & ? & _)|[_ ?]]; [cbn in Hi; lia|done].
  - destruct (q_messages (ln_queue l)) as [|m ms]; [done|]. rewrite queued_total_cons in Ho.
    apply Forall_cons in Hm as [Hm _]. pose proof (queued_total_nonneg qm_bytes ms). lia.
Qed.

(** C20: However the ports of a worker are opened, called, failed and disposed,
    no call panics or runs out of fuel, and the shared counters are exact.  Each
    lane's incoming counter is the whole length of the message its assembler has
    begun, its outgoing counter the bytes of the messages its queue has not sent,
    both within the lane's bound; a closed port holds neither and its lanes are
    disposed.  The worker's data counter is what the data lanes of all ports hold
    together, never past 32 MiB, until the budget is disposed. *)
Theorem ports_account ops :
  exists w, worker_run worker_new ops = Some w /\
    (forall peer p lane, wk_ports w !! peer = Some p ->
       let l := port_lane p lane in
       let incoming := charged (as_partial (ln_assembler l)) in
       let outgoing := queued_total qm_bytes (q_messages (ln_queue l)) in
       let bound := max_bytes (mkLaneQuota peer lane) in
       lane_bytes (wk_budgets w) !! (peer, lane) = Some (mkLaneBytes incoming outgoing (pt_closed p)) /\
       0 <= incoming <= bound /\ 0 <= outgoing <= bound /\
       (pt_closed p = true -> as_partial (ln_assembler l) = None /\ q_messages (ln_queue l) = [])) /\
    retained_data_bytes (wk_budgets w) =
      (if wd_disposed (worker_data (wk_budgets w)) then 0 else ports_data_bytes (wk_ports w)) /\
    retained_data_bytes (wk_budgets w) <= PEER_WORKER_DATA_QUEUE_MAX_BYTES.
Proof.
  destruct (worker_run_fits ops worker_new worker_new_fits) as (w & Hrun & Hw). exists w. split; [done|].
  split.
  - intros peer p lane Hp. destruct (wf_ports _ Hw _ _ Hp) as (<- & Hf & _). specialize (Hf lane).
    pose proof (lf_books _ _ _ _ Hf) as Hk. pose proof (qs_retained _ (proj2 (lf_queue _ _ _ _ Hf))) as Hr.
    unfold lane_books, queued_bytes in Hk. rewrite Hr in Hk.
    destruct (ca_lanes _ _ (wf_agree _ Hw) _ _ Hk) as (Hi & Ho & _).
    split_and!; [exact Hk|apply Hi..|apply Ho|apply Ho|]. intros Hc. rewrite Hc in Hf. by eapply disposed_empty.
  - pose proof (ca_worker _ _ (wf_agree _ Hw)) as Hd. rewrite (fit_data_total w Hw) in Hd.
    unfold retained_data_bytes. destruct (wd_disposed _); [by rewrite Hd|]. lia.
Qed.

(** C23: Whatever native messages, deadlines and calls reach the ports of a worker
    and in whatever order, a port hands its ingress frames of 1 byte to 1 MiB and
    nothing after it closed, and tells once why it closed.  Until it was told that
    the hello was accepted, every frame it handed over came on the control lane
    and is no longer than one packet, 16 KiB. *)
Theorem ports_gated ops :
  exists w, worker_run worker_new ops = Some w /\
    forall peer p, wk_ports w !! peer = Some p ->
      exists frames,
        Forall (fun e => exists lane bytes, e = OnMessage lane bytes /\ 1 <= len bytes <= CAP) frames /\
        (pt_authenticated p = false ->
         Forall (fun e => exists bytes, e = OnMessage Control bytes /\ len bytes <= PACKET_MAX_BYTES) frames) /\
        if pt_closed p then exists reason, pt_told p = frames ++ [ClosedBecause reason]
        else pt_told p = frames.
Proof.
  destruct (worker_run_fits ops worker_new worker_new_fits) as (w & Hrun & Hw). exists w. split; [done|].
  intros peer p Hp. apply (wf_ports _ Hw _ _ Hp).
Qed.
End OnePort.

(** A channel that is shut until it is told to be open. *)
#[local] Instance switch : NativePeer bool := {|
  is_open n _ := n;
  buffered_amount _ _ := 0;
  native_send n _ _ := (n, true);
  close_channel _ _ := false;
|}.

(** A worker whose first port takes two of five bytes and has three to send, and
    whose second is sent data before its hello. *)
Definition two_ports : list (WorkerOp bool) :=
  [OpenPort 1 false; OpenPort 2 false; OnPort 1 AttachIngress; OnPort 2 AttachIngress;
   OnPort 1 MarkAuthenticated;
   OnPort 1 (ChannelMessage Data true (frame 1 5 0 [Byte.x61; Byte.x62]) 0 true);
   OnPort 1 (Send [] [Byte.x63; Byte.x64; Byte.x65] Data true);
   OnPort 2 (ChannelMessage Control true (frame 1 1 0 [Byte.x68]) 0 true);
   OnPort 2 (ChannelMessage Data true (frame 1 1 0 [Byte.x68]) 0 true)].

Lemma ports_account_witness :
  exists w, worker_run worker_new two_ports = Some w /\ retained_data_bytes (wk_budgets w) = 8.
Proof.
  destruct (ports_account two_ports) as (w & Hrun & _ & Hret & _). exists w. split; [done|].
  assert (match worker_run worker_new two_ports with
          | Some w => negb (wd_disposed (worker_data (wk_budgets w))) && (ports_data_bytes (wk_ports w) =? 8)
          | None => false end = true) as Hcheck by by vm_compute.
  rewrite Hrun in Hcheck. apply andb_true_iff in Hcheck as [Hd Hp]. apply negb_true_iff in Hd.
  rewrite Hd in Hret. by apply Z.eqb_eq in Hp as <-.
Defined.

Lemma ports_gated_witness :
  exists w p reason, worker_run worker_new two_ports = Some w /\ wk_ports w !! 2 = Some p /\
    pt_told p = [OnMessage Control [Byte.x68]; ClosedBecause reason].
Proof.
  destruct (ports_gated two_ports) as (w & Hrun & Hports).
  assert (match worker_run worker_new two_ports with
          | Some w => match wk_ports w !! 2 with
                      | Some p => pt_closed p = true /\ exists e, pt_told p = [OnMessage Control [Byte.x68]; e]
                      | None => False end
          | None => False end) as Hcheck by (vm_compute; split; [done|by eexists]).
  rewrite Hrun in Hcheck. destruct (wk_ports w !! 2) as [p|] eqn:Hp; [|done].
  destruct Hcheck as [Hc [e He]]. destruct (Hports 2 p Hp) as (frames & _ & _ & Htold).
  rewrite Hc in Htold. destruct Htold as [reason Htold].
  exists w, p, reason. split; [done|]. split; [done|]. rewrite He in Htold |- *.
  change [OnMessage Control [Byte.x68]; e] with ([OnMessage Control [Byte.x68]] ++ [e]) in Htold.
  apply app_inj_tail in Htold as [_ ->]. done.
Defined.
