(* ===== verification/PacketClaims.v ===== *)
(** * PacketClaims: what the packet lanes promise

    The theorems of [PacketStream] at the two carriers: [Peer] is the direct
    terminal carrier ([PeerPackets]), [Attachment] the attachment carrier
    ([AttachmentPackets]). *)
From S2P Require Export PacketStream.
From S2P Require PeerPackets AttachmentPackets.
Import (hints) PeerPackets AttachmentPackets.

(** ** The terminal carrier *)

Module Peer.
Import PeerPackets.

Lemma peer_lane_works {Q S Q' S' : Type} `{PacketQuotaLaws Q S} `{PacketQuota Q' S'}
    lane (q : Q) (q' : Q') (s : S) (s' : S') :
  quota_ok s -> held q s = 0 ->
  delivers frame MAX TERMINAL_PEER_PACKET_STALL_MS (peer_room lane q)
    (s', queue_new lane q') (s, assembler_new lane q).
Proof.
  intros Hok Hheld.
  exact (lane_delivers frame MAX (for_lane lane) TERMINAL_PEER_PACKET_STALL_MS
           (SenderLaws0 := peer_sender_laws lane) (ReceiverLaws0 := peer_receiver_laws lane q) eq_refl
           (s', queue_new lane q') (s, assembler_new lane q)
           ltac:(by repeat constructor) ltac:(by repeat split)).
Qed.

Lemma peer_assembler_takes {Q S : Type} `{PacketQuotaLaws Q S} lane (q : Q) (s : S) :
  quota_ok s ->
  takes_exact frame MAX (for_lane lane) (fun st => held q st.1) (fun st => negb (is_closed st.2))
    (s, assembler_new lane q).
Proof.
  intros Hok.
  apply (takes_exact_intro frame MAX (for_lane lane)
           (CarefulReceiver0 := peer_careful lane q (held q s) (held_nonneg q s Hok)) _ _ (held q s)).
  - cbn. repeat split; try done. lia.
  - intros [s1 a] id part total (_ & _ & Hc & _ & _ & _ & Hh & Hp). cbn. unfold is_closed.
    rewrite Hc, Hh. split; [done|]. destruct (as_partial a) as [p|]; cbn in *.
    + destruct Hp as (? & ? & -> & ? & ? & _). cbn. rewrite bool_decide_false; [done|].
      intros ->. rewrite len_nil in *. lia.
    + subst. by rewrite bool_decide_true.
  - intros [s1 a] (Hc & _ & _ & Hh). cbn. unfold is_closed. by rewrite Hc.
Qed.
End Peer.

(** ** The attachment carrier *)

Module Attachment.
Import AttachmentPackets.

Section Lane.
Context {Q S Q' S' : Type} `{!AttachmentTransferPacketQuota Q S} `{!AttachmentTransferPacketQuota Q' S'}.
Context `{!PacketQuotaLaws (Q * AttachmentTransferPacketDirection) S}.

Lemma attachment_lane_works direction direction' (q : Q) (q' : Q') (s : S) (s' : S') :
  quota_ok s -> held_in direction q s = 0 ->
  delivers frame MAX PACKET_STALL_MS (attachment_room direction q)
    (s', queue_new direction' q') (s, assembler_new direction q).
Proof.
  intros Hok Hheld.
  exact (lane_delivers frame MAX CAP PACKET_STALL_MS
           (SenderLaws0 := attachment_sender_laws) (ReceiverLaws0 := attachment_receiver_laws direction q)
           eq_refl (s', queue_new direction' q') (s, assembler_new direction q)
           ltac:(by repeat constructor) ltac:(by repeat split)).
Qed.

Lemma attachment_assembler_takes direction (q : Q) (s : S) :
  quota_ok s ->
  takes_exact frame MAX CAP (fun st => held_in direction q st.1) (fun st => negb (is_closed st.2))
    (s, assembler_new direction q).
Proof.
  intros Hok.
  apply (takes_exact_intro frame MAX CAP
           (CarefulReceiver0 := attachment_careful direction q (held_in direction q s)
                                  (held_nonneg (q, direction) s Hok)) _ _ (held_in direction q s)).
  - cbn. repeat split; try done. lia.
  - intros [s1 a] id part total (_ & _ & Hc & _ & _ & _ & Hh & Hp). cbn. unfold is_closed.
    rewrite Hc, Hh. split; [done|]. destruct (as_partial a) as [p|]; cbn in *.
    + destruct Hp as (? & -> & ? & _). cbn. rewrite bool_decide_false; [done|].
      intros ->. unfold len in *. cbn in *. lia.
    + subst. by rewrite bool_decide_true.
  - intros [s1 a] (Hc & _ & _ & Hh). cbn. unfold is_closed. by rewrite Hc.
Qed.
End Lane.
End Attachment.

(** ** The claims of both carriers *)

(** Two packets of each carrier, on quotas that count. *)
#[local] Instance counted_both : AttachmentPackets.AttachmentTransferPacketQuota Z Counter := {|
  AttachmentPackets.quota_reserve limit _ n s := if s + n <=? limit then (s + n, true) else (s, false);
  AttachmentPackets.quota_release _ _ n s := s - n;
|}.

#[local, program] Instance counted_both_laws :
    PacketQuotaLaws (Z * AttachmentPackets.AttachmentTransferPacketDirection) Counter := {|
  quota_ok s := 0 <= s;
  held _ s := s;
|}.
Next Obligation. done. Qed.
Next Obligation. cbn. intros [q d] n s s' granted Hs Hn E. cbn in E. destruct (s + n <=? q); simplify_eq; lia. Qed.
Next Obligation. cbn. lia. Qed.

Definition long_message : list byte := repeat Byte.x2a (Z.to_nat 17000).
Definition two_packets : list SendOp := [Offer long_message true; Look true; Transmit true; Transmit true].

(** Packets that arrive at one time. *)
Definition arrive (packets : list (list byte)) : list Arrival :=
  map (fun packet => mkArrival packet 5 true) packets.

(** What to evaluate of the two halves: both packets sent and taken. *)
Definition carry_check {Tx Rx E E' : Type} `{!Sender Tx E} `{!Receiver Rx E'} (tx : Tx) (rx : Rx) : bool :=
  match send_run tx (mkSendLog [] []) two_packets with
  | Some (tx, log) =>
      sd_drained tx && (len (concat (taken log)) =? 17000) &&
      match receive rx (arrive (sent log)) with
      | Some (_, rs) => forallb is_ok rs && (length rs =? 2)%nat
      | None => false
      end
  | None => false
  end.

Lemma carry_ok {Tx Rx E E' : Type} `{!Sender Tx E} `{!Receiver Rx E'} frame max_payload stall roomy
    (tx : Tx) (rx : Rx) :
  delivers frame max_payload stall roomy tx rx -> carry_check tx rx = true ->
  exists tx' log rx' rs, send_run tx (mkSendLog [] []) two_packets = Some (tx', log) /\
    receive rx (arrive (sent log)) = Some (rx', rs) /\
    length rs = 2%nat /\ len (concat (taken log)) = 17000 /\ delivered rs = taken log.
Proof.
  intros H Hcheck. unfold carry_check in Hcheck.
  destruct (send_run tx _ two_packets) as [[tx' log]|] eqn:Hrun; [|done].
  rewrite !andb_true_iff in Hcheck. destruct Hcheck as ((Hdr & Hlen) & Hrec).
  destruct (H two_packets (arrive (sent log)) 0) as (tx1 & log1 & Hrun1 & Hrecv & _).
  rewrite Hrun in Hrun1. simplify_eq.
  assert (Hsent : map ar_packet (arrive (sent log1)) = sent log1)
    by (unfold arrive; rewrite map_map; apply map_id).
  destruct Hrecv as (rx' & rs & Hrx & _ & Hall & _); [by rewrite Hsent|].
  rewrite Hrx in Hrec. apply andb_true_iff in Hrec as [Hok Hn].
  exists tx1, log1, rx', rs. split_and!; [done|done|by apply Nat.eqb_eq|by apply Z.eqb_eq|].
  apply Hall; [|done|done]. rewrite List.Forall_forall. by rewrite forallb_forall in Hok.
Qed.

(** C21: A packet lane is an ordered channel, for the terminal carrier's three lanes
    and for the attachment carrier, whatever their quotas.  However a fresh queue
    is used (messages offered, packets looked at and sent, the lane cleared and
    reset) no operation panics; if what its peer receives is a prefix of the
    packets sent since the lane was opened, the peer's assembler hands over, whole
    and in order, a prefix of the messages taken since then.  It hands over all of
    them when the queue is drained and it refused none of the packets sent; it
    refuses none while its quota has room for a message, its memory is granted and
    the packets come less than the stall bound apart.  An open queue is drained by
    as many transmissions as packets are left to send. *)
Theorem packet_lanes_deliver :
  (forall (Q S Q' S' : Type) (rq : PacketQuota Q S) (laws : PacketQuotaLaws Q S) (tq : PacketQuota Q' S')
     (lane : PeerPackets.TerminalPeerPacketLane) (q : Q) (q' : Q') (s : S) (s' : S'),
   quota_ok s -> held q s = 0 ->
   delivers PeerPackets.frame PeerPackets.TERMINAL_PEER_PACKET_MAX_PAYLOAD_BYTES
     PeerPackets.TERMINAL_PEER_PACKET_STALL_MS (PeerPackets.peer_room lane q)
     (s', PeerPackets.queue_new lane q') (s, PeerPackets.assembler_new lane q)) /\
  (forall (Q S Q' S' : Type) (rq : AttachmentPackets.AttachmentTransferPacketQuota Q S)
     (laws : PacketQuotaLaws (Q * AttachmentPackets.AttachmentTransferPacketDirection) S)
     (tq : AttachmentPackets.AttachmentTransferPacketQuota Q' S')
     (direction direction' : AttachmentPackets.AttachmentTransferPacketDirection)
     (q : Q) (q' : Q') (s : S) (s' : S'),
   quota_ok s -> held (q, direction) s = 0 ->
   delivers AttachmentPackets.frame AttachmentPackets.PACKET_MAX_PAYLOAD_BYTES
     AttachmentPackets.PACKET_STALL_MS (AttachmentPackets.attachment_room direction q)
     (s', AttachmentPackets.queue_new direction' q') (s, AttachmentPackets.assembler_new direction q)).
Proof.
  split; intros.
  - by apply Peer.peer_lane_works.
  - by apply Attachment.attachment_lane_works.
Qed.

(** C22: Whatever packets an assembler is given, in whatever order and at whatever
    times, it answers every one, takes a first part of them and refuses the rest.
    What it takes is exactly whole messages in order, numbered from 1, each cut
    anywhere into fragments no longer than a packet carries, then perhaps a part
    of one more; it hands over just the whole messages, each of 1 byte to the
    bound of its lane; it is open if and only if it refused nothing; and its quota is
    charged the whole length of the message it holds a part of, and nothing when
    it holds none or has refused a packet.  Nothing forged, reordered, repeated,
    overlapping or late is taken for a message. *)
Theorem assemblers_take_exactly :
  (forall (Q S : Type) (rq : PacketQuota Q S) (laws : PacketQuotaLaws Q S)
     (lane : PeerPackets.TerminalPeerPacketLane) (q : Q) (s : S),
   quota_ok s ->
   takes_exact PeerPackets.frame PeerPackets.TERMINAL_PEER_PACKET_MAX_PAYLOAD_BYTES (PeerPackets.for_lane lane)
     (fun st => held q st.1) (fun st => negb (PeerPackets.is_closed st.2))
     (s, PeerPackets.assembler_new lane q)) /\
  (forall (Q S : Type) (rq : AttachmentPackets.AttachmentTransferPacketQuota Q S)
     (laws : PacketQuotaLaws (Q * AttachmentPackets.AttachmentTransferPacketDirection) S)
     (direction : AttachmentPackets.AttachmentTransferPacketDirection) (q : Q) (s : S),
   quota_ok s ->
   takes_exact AttachmentPackets.frame AttachmentPackets.PACKET_MAX_PAYLOAD_BYTES
     AttachmentPackets.PACKET_LOGICAL_FRAME_MAX_BYTES
     (fun st => held (q, direction) st.1) (fun st => negb (AttachmentPackets.is_closed st.2))
     (s, AttachmentPackets.assembler_new direction q)).
Proof.
  split; intros.
  - by apply Peer.peer_assembler_takes.
  - by apply Attachment.attachment_assembler_takes.
Qed.

Lemma packet_lanes_deliver_witness :
  (exists tx log rx rs,
     send_run (0, PeerPackets.queue_new PeerPackets.Terminal 20000) (mkSendLog [] []) two_packets = Some (tx, log) /\
     receive (0, PeerPackets.assembler_new PeerPackets.Terminal 20000) (arrive (sent log)) = Some (rx, rs) /\
     length rs = 2%nat /\ len (concat (taken log)) = 17000 /\ delivered rs = taken log) /\
  (exists tx log rx rs,
     send_run (0, AttachmentPackets.queue_new AttachmentPackets.Outgoing 20000) (mkSendLog [] []) two_packets =
       Some (tx, log) /\
     receive (0, AttachmentPackets.assembler_new AttachmentPackets.Incoming 20000) (arrive (sent log)) = Some (rx, rs) /\
     length rs = 2%nat /\ len (concat (taken log)) = 17000 /\ delivered rs = taken log).
Proof.
  destruct packet_lanes_deliver as [Hpeer Hattachment]. split.
  - eapply (carry_ok PeerPackets.frame PeerPackets.TERMINAL_PEER_PACKET_MAX_PAYLOAD_BYTES
              PeerPackets.TERMINAL_PEER_PACKET_STALL_MS); [|by vm_compute].
    by apply (Hpeer Z Counter Z Counter counter_quota counter_laws counter_quota PeerPackets.Terminal).
  - eapply (carry_ok AttachmentPackets.frame AttachmentPackets.PACKET_MAX_PAYLOAD_BYTES
              AttachmentPackets.PACKET_STALL_MS); [|by vm_compute].
    by apply (Hattachment Z Counter Z Counter counted_both counted_both_laws counted_both
                AttachmentPackets.Incoming AttachmentPackets.Outgoing).
Defined.

(** A good packet, then the same again: the first is taken, the second refused. *)
Definition twice (packet : list byte) : list Arrival := [mkArrival packet 0 true; mkArrival packet 1 true].

Lemma refuse_ok {St E : Type} `{!Receiver St E} frame max_payload cap charge open (st : St) packet :
  takes_exact frame max_payload cap charge open st ->
  match receive st (twice packet) with
  | Some (st', rs) => bool_decide (map is_ok rs = [true; false]) && negb (open st')
  | None => false
  end = true ->
  exists st' rs, receive st (twice packet) = Some (st', rs) /\
    map is_ok rs = [true; false] /\ open st' = false /\ charge st' = charge st.
Proof.
  intros H Hcheck.
  destruct (H (twice packet)) as (st' & rs & good & bad & Hrec & _ & _ & part & total & _ & Hopen & Hcharge).
  rewrite Hrec in Hcheck |- *. apply andb_true_iff in Hcheck as [Hrs Hclosed].
  apply bool_decide_eq_true in Hrs. apply negb_true_iff in Hclosed.
  rewrite Hclosed in Hopen. symmetry in Hopen. apply bool_decide_eq_false in Hopen.
  rewrite bool_decide_eq_false_2 in Hcharge by naive_solver. exists st', rs. split_and!; done || lia.
Qed.

Lemma assemblers_take_exactly_witness :
  (exists st rs, receive (0, PeerPackets.assembler_new PeerPackets.History 100)
       (twice (PeerPackets.frame 1 2 0 [Byte.x61; Byte.x62])) = Some (st, rs) /\
     map is_ok rs = [true; false] /\ negb (PeerPackets.is_closed st.2) = false /\ st.1 = 0) /\
  (exists st rs, receive (0, AttachmentPackets.assembler_new AttachmentPackets.Incoming 100)
       (twice (AttachmentPackets.frame 1 2 0 [Byte.x61; Byte.x62])) = Some (st, rs) /\
     map is_ok rs = [true; false] /\ negb (AttachmentPackets.is_closed st.2) = false /\ st.1 = 0).
Proof.
  destruct assemblers_take_exactly as [Hpeer Hattachment]. split.
  - pose proof (Hpeer Z Counter counter_quota counter_laws PeerPackets.History 100 0 ltac:(done)) as H.
    refine (refuse_ok _ _ _ _ (fun st => negb (PeerPackets.is_closed st.2)) _ _ H _). by vm_compute.
  - pose proof (Hattachment Z Counter counted_both counted_both_laws AttachmentPackets.Incoming 100 0 ltac:(done)) as H.
    refine (refuse_ok _ _ _ _ (fun st => negb (AttachmentPackets.is_closed st.2)) _ _ H _). by vm_compute.
Defined.
