(* ===== verification/UploadStore.v ===== *)
(** * UploadStore: what an upload is described by, and the files beneath it

    [roost-worker/src/attachments].  First what is pure: the descriptor and its
    carrier ([mod.rs]), the refusals, receipts and statuses ([receipts.rs]), the
    journal record and the checks a journal passes when it is read back
    ([journal.rs]), the name a file lands under ([naming.rs]) and the paths of
    one upload ([store_paths.rs], [journal.rs]).  Then what the store does to
    the disk ([file_store.rs], [file_hash.rs], [journal.rs]).

    A [String] is its [char]s ([text]) except a digest and an error code, which
    are ASCII and kept as [string]s; an absolute, folded path is the list of its
    components from the root.  An optional path is [None] where the journal
    spells the empty string. *)
From Stdlib Require Import Ascii String.
From stdpp Require Import pretty.
From S2P Require Export CellTypes.
From S2P Require AttachmentPackets.
From S2P Require KeeperServer.

(** An ASCII literal of the source. *)
Definition chars (s : string) : text :=
  (fun c => Z.of_nat (nat_of_ascii c)) <$> list_ascii_of_string s.

(** The decimal digits [format!] writes. *)
Definition decimal (n : nat) : text := chars (pretty n).

(** ** Descriptors and carriers *)

Inductive Carrier := Coordinator | Direct.

#[global] Instance Carrier_eq_dec : EqDecision Carrier.
Proof. solve_decision. Defined.

Record OperationDescriptor := mkDescriptor {
  od_request_id : text;
  od_session_id : text;
  od_filename : text;
  od_short_path : bool;
  od_total_bytes : option Z;
}.

#[global] Instance OperationDescriptor_eq_dec : EqDecision OperationDescriptor.
Proof. solve_decision. Defined.

(** [operation_owner.rs]: one chunk offered to an operation. *)
Record AttachmentOperationChunk := mkOperationChunk {
  oc_descriptor : OperationDescriptor;
  oc_carrier : Carrier;
  oc_carrier_id : text;
  oc_seq : Z;
  oc_offset : Z;
  oc_data : list byte;
  oc_last : bool;
  oc_chunk_sha256 : option string;
}.

(** ** Refusals *)

Inductive AttachmentOperationError :=
| UploadNotFound
| UploadMismatch
| ChunkOutOfOrder
| ChunkOffsetMismatch
| ChunkSha256Mismatch
| TotalBytesMismatch
| WriteFailed.

#[global] Instance AttachmentOperationError_eq_dec : EqDecision AttachmentOperationError.
Proof. solve_decision. Defined.

Definition AttachmentOperationError_ALL : list AttachmentOperationError :=
  [UploadNotFound; UploadMismatch; ChunkOutOfOrder; ChunkOffsetMismatch;
   ChunkSha256Mismatch; TotalBytesMismatch; WriteFailed].

(** [AttachmentOperationError::as_str]: the spelling of its transfer refusal. *)
Definition error_as_str (e : AttachmentOperationError) : string :=
  match e with
  | UploadNotFound => "upload_not_found"
  | UploadMismatch => "upload_mismatch"
  | ChunkOutOfOrder => "chunk_out_of_order"
  | ChunkOffsetMismatch => "chunk_offset_mismatch"
  | ChunkSha256Mismatch => "chunk_sha256_mismatch"
  | TotalBytesMismatch => "total_bytes_mismatch"
  | WriteFailed => "write_failed"
  end.

(** [AttachmentOperationError::parse]. *)
Definition error_parse (value : string) : option AttachmentOperationError :=
  find (fun e => String.eqb (error_as_str e) value) AttachmentOperationError_ALL.

(** ** The journal record *)

Abbreviation Path := (list text).

(** [AttachmentOperationJournal]. *)
Record AttachmentOperationJournal := mkJournal {
  aj_version : Z;
  aj_request_id : text;
  aj_session_id : text;
  aj_filename : text;
  aj_media_dir : option Path;
  aj_short_path : bool;
  aj_total_bytes : option Z;
  aj_last_chunk_final : bool;
  aj_carrier : Carrier;
  aj_carrier_id : text;
  aj_next_seq : Z;
  aj_bytes_written : Z;
  aj_last_chunk_sha256 : string;
  aj_final_name : text;
  aj_content_sha256 : string;
  aj_committed : bool;
  aj_abs_path : option Path;
  aj_error : string;
}.

(** The descriptor a journal was opened with. *)
Definition journal_descriptor (j : AttachmentOperationJournal) : OperationDescriptor :=
  mkDescriptor (aj_request_id j) (aj_session_id j) (aj_filename j) (aj_short_path j)
    (aj_total_bytes j).

(** [AttachmentOperationJournal::same_descriptor]. *)
Definition same_descriptor (j : AttachmentOperationJournal) (d : OperationDescriptor) : bool :=
  bool_decide (aj_session_id j = od_session_id d) &&
  bool_decide (aj_filename j = od_filename d) &&
  bool_decide (aj_short_path j = od_short_path d) &&
  bool_decide (aj_total_bytes j = od_total_bytes d).

(** [AttachmentOperationJournal::same_carrier]. *)
Definition same_carrier (j : AttachmentOperationJournal) (carrier : Carrier)
    (carrier_id : text) : bool :=
  bool_decide (aj_carrier j = carrier) && bool_decide (aj_carrier_id j = carrier_id).

(** The fields [advance] moves when a chunk's bytes were written. *)
Definition with_chunk (j : AttachmentOperationJournal) (length : Z) (claimed : string)
    (last : bool) : AttachmentOperationJournal :=
  mkJournal (aj_version j) (aj_request_id j) (aj_session_id j) (aj_filename j)
    (aj_media_dir j) (aj_short_path j) (aj_total_bytes j) last (aj_carrier j)
    (aj_carrier_id j) (aj_next_seq j + 1) (aj_bytes_written j + length) claimed
    (aj_final_name j) (aj_content_sha256 j) (aj_committed j) (aj_abs_path j) (aj_error j).

(** [journal.final_name = name; journal.content_sha256 = digest]. *)
Definition with_final (j : AttachmentOperationJournal) (name : text) (digest : string)
    : AttachmentOperationJournal :=
  mkJournal (aj_version j) (aj_request_id j) (aj_session_id j) (aj_filename j)
    (aj_media_dir j) (aj_short_path j) (aj_total_bytes j) (aj_last_chunk_final j)
    (aj_carrier j) (aj_carrier_id j) (aj_next_seq j) (aj_bytes_written j)
    (aj_last_chunk_sha256 j) name digest (aj_committed j) (aj_abs_path j) (aj_error j).

(** [journal.abs_path = path; journal.committed = true]. *)
Definition with_committed (j : AttachmentOperationJournal) (path : Path)
    : AttachmentOperationJournal :=
  mkJournal (aj_version j) (aj_request_id j) (aj_session_id j) (aj_filename j)
    (aj_media_dir j) (aj_short_path j) (aj_total_bytes j) (aj_last_chunk_final j)
    (aj_carrier j) (aj_carrier_id j) (aj_next_seq j) (aj_bytes_written j)
    (aj_last_chunk_sha256 j) (aj_final_name j) (aj_content_sha256 j) true (Some path)
    (aj_error j).

(** [journal.committed = false]. *)
Definition with_uncommitted (j : AttachmentOperationJournal) : AttachmentOperationJournal :=
  mkJournal (aj_version j) (aj_request_id j) (aj_session_id j) (aj_filename j)
    (aj_media_dir j) (aj_short_path j) (aj_total_bytes j) (aj_last_chunk_final j)
    (aj_carrier j) (aj_carrier_id j) (aj_next_seq j) (aj_bytes_written j)
    (aj_last_chunk_sha256 j) (aj_final_name j) (aj_content_sha256 j) false (aj_abs_path j)
    (aj_error j).

(** [journal.error = error.as_str().to_owned()]. *)
Definition with_error (j : AttachmentOperationJournal) (e : AttachmentOperationError)
    : AttachmentOperationJournal :=
  mkJournal (aj_version j) (aj_request_id j) (aj_session_id j) (aj_filename j)
    (aj_media_dir j) (aj_short_path j) (aj_total_bytes j) (aj_last_chunk_final j)
    (aj_carrier j) (aj_carrier_id j) (aj_next_seq j) (aj_bytes_written j)
    (aj_last_chunk_sha256 j) (aj_final_name j) (aj_content_sha256 j) (aj_committed j)
    (aj_abs_path j) (error_as_str e).

(** ** Receipts and statuses *)

Record AttachmentOperationReceipt := mkReceipt {
  re_seq : Z;
  re_next_seq : Z;
  re_bytes_received : Z;
  re_chunk_sha256 : string;
  re_committed : bool;
  re_abs_path : option Path;
}.

Record AttachmentOperationStatus := mkStatus {
  as_upload_id : text;
  as_next_seq : Z;
  as_bytes_received : Z;
  as_last_chunk_sha256 : string;
  as_committed : bool;
  as_abs_path : option Path;
  as_error : option AttachmentOperationError;
}.

Abbreviation AttachmentOperationResult :=
  (result AttachmentOperationReceipt AttachmentOperationError).

(** [wire_seq]: [u32::try_from], saturating. *)
Definition wire_seq (value : Z) : Z := if value <? 2 ^ 32 then value else 2 ^ 32 - 1.

Definition receipt_from_journal (j : AttachmentOperationJournal) : AttachmentOperationReceipt :=
  mkReceipt (wire_seq (saturating_sub (aj_next_seq j) 1)) (wire_seq (aj_next_seq j))
    (aj_bytes_written j) (aj_last_chunk_sha256 j) (aj_committed j) (aj_abs_path j).

Definition journal_error (j : AttachmentOperationJournal) : AttachmentOperationError :=
  default WriteFailed (error_parse (aj_error j)).

Definition status_from_journal (j : AttachmentOperationJournal) : AttachmentOperationStatus :=
  mkStatus (aj_request_id j) (wire_seq (aj_next_seq j)) (aj_bytes_written j)
    (aj_last_chunk_sha256 j) (aj_committed j) (aj_abs_path j)
    (if String.eqb (aj_error j) "" then None else Some (journal_error j)).

Definition empty_status (upload_id : text) (e : AttachmentOperationError)
    : AttachmentOperationStatus :=
  mkStatus upload_id 0 0 "" false None (Some e).

(** ** The checks of a journal *)

Definition MAX_SAFE_INTEGER : Z := 2 ^ 53 - 1.
Definition JOURNAL_VERSION : Z := 1.
Definition MAX_OPAQUE_ID_BYTES : Z := 128.
Definition MAX_TEXT_BYTES : Z := 1024.
Definition MAX_CARRIER_ID_BYTES : Z := 128.
Definition MAX_FINAL_NAME_BYTES : Z := 255.
Definition MAX_MEDIA_DIR_BYTES : Z := 4096.

Definition SLASH : Z := 47.
Definition BACKSLASH : Z := 92.
Definition DOT : Z := 46.

(** [has_control]: no byte of a multi-byte [char] is one of these. *)
Definition has_control (value : text) : bool :=
  existsb (fun c => (c <=? 0x1f) || (c =? 0x7f)) value.

(** [value.contains(['/', '\\'])]. *)
Definition has_separator (value : text) : bool :=
  existsb (fun c => (c =? SLASH) || (c =? BACKSLASH)) value.

Definition valid_opaque_id (value : text) : bool :=
  (1 <=? str_len value) && (str_len value <=? MAX_OPAQUE_ID_BYTES) &&
  negb (has_separator value) && negb (has_control value).

Definition valid_digest (value : string) : bool :=
  String.eqb value "" || AttachmentPackets.is_chunk_sha256 value.

Definition valid_final_name (value : text) : bool :=
  bool_decide (value = []) ||
  (str_len value <=? MAX_FINAL_NAME_BYTES) && negb (bool_decide (value = [DOT])) &&
  negb (bool_decide (value = [DOT; DOT])) && negb (has_separator value) &&
  negb (has_control value).

(** The length and the bytes of a path as the journal spells it. *)
Definition path_len (p : Path) : Z := foldr (fun c n => 1 + str_len c + n) 0 p.
Definition path_has_control (p : Path) : bool := existsb has_control p.

(** [Option::is_none_or]. *)
Definition is_none_or {A} (o : option A) (f : A -> bool) : bool :=
  match o with None => true | Some a => f a end.

(** The tests [parse_journal] makes of what [serde_json] read. *)
Definition parse_journal (j : AttachmentOperationJournal) : option AttachmentOperationJournal :=
  if (aj_version j =? JOURNAL_VERSION) &&
     valid_opaque_id (aj_request_id j) &&
     (str_len (aj_session_id j) <=? MAX_TEXT_BYTES) &&
     (str_len (aj_filename j) <=? MAX_TEXT_BYTES) &&
     is_none_or (aj_total_bytes j) (fun total => total <=? MAX_SAFE_INTEGER) &&
     (aj_next_seq j <=? MAX_SAFE_INTEGER) &&
     (aj_bytes_written j <=? MAX_SAFE_INTEGER) &&
     (str_len (aj_carrier_id j) <=? MAX_CARRIER_ID_BYTES) &&
     negb (has_control (aj_carrier_id j)) &&
     valid_digest (aj_last_chunk_sha256 j) &&
     valid_final_name (aj_final_name j) &&
     valid_digest (aj_content_sha256 j) &&
     (from_option path_len 0 (aj_media_dir j) <=? MAX_MEDIA_DIR_BYTES) &&
     negb (from_option path_has_control false (aj_media_dir j))
  then Some j else None.

(** ** The name a file lands under ([naming.rs]) *)

Definition NAME_MAX_UNITS : Z := 80.
Definition EMPTY_STEM : text := chars "file".

(** [char::len_utf16], and [str::encode_utf16().count()]. *)
Definition len_utf16 (c : Z) : Z := if c <? 0x10000 then 1 else 2.
Definition utf16_len (s : text) : Z := foldr (fun c n => len_utf16 c + n) 0 s.

Definition is_stripped_control (c : Z) : bool :=
  (c <=? 0x1f) || ((0x7f <=? c) && (c <=? 0x9f)).

(** [str::trim_start_matches] and [str::trim_end_matches] of one [char]. *)
Fixpoint trim_start_matches (c : Z) (s : text) : text :=
  match s with
  | x :: rest => if x =? c then trim_start_matches c rest else s
  | [] => []
  end.

Definition trim_end_matches (c : Z) (s : text) : text :=
  reverse (trim_start_matches c (reverse s)).

(** The longest prefix without [c]. *)
Fixpoint until (c : Z) (s : text) : text :=
  match s with
  | x :: rest => if x =? c then [] else x :: until c rest
  | [] => []
  end.

(** [last_segment]: what [rsplit('/')] yields first. *)
Definition last_segment (path : text) : text :=
  reverse (until SLASH (reverse (trim_end_matches SLASH path))).

(** [rposition] of a dot. *)
Definition last_dot (leaf : text) : option nat :=
  (fun found => length leaf - 1 - found.1)%nat <$> list_find (fun c => c = DOT) (reverse leaf).

(** [node_extname]. *)
Definition node_extname (leaf : text) : text :=
  match last_dot leaf with
  | None => []
  | Some at_dot =>
      if (at_dot =? 0)%nat || bool_decide (leaf = [DOT; DOT]) then [] else drop at_dot leaf
  end.

(** [truncate_utf16]: [used] counts the units kept so far. *)
Fixpoint truncate_utf16_from (text_left : text) (used max_units : Z) : text :=
  match text_left with
  | [] => []
  | c :: rest =>
      if max_units <? used + len_utf16 c
      then if used <? max_units then [0xFFFD] else []
      else c :: truncate_utf16_from rest (used + len_utf16 c) max_units
  end.

Definition truncate_utf16 (s : text) (max_units : Z) : text := truncate_utf16_from s 0 max_units.

(** [sanitize_attachment_name]. *)
Definition sanitize_attachment_name (raw : text) : text :=
  let clean := List.filter (fun c => negb (is_stripped_control c)) raw in
  let leaf := last_segment clean in
  let extension := node_extname leaf in
  let stem_max := Z.max (saturating_sub NAME_MAX_UNITS (utf16_len extension)) 1 in
  let stem_source := take (length leaf - length extension) leaf in
  let stem := truncate_utf16 (trim_start_matches DOT stem_source) stem_max in
  if bool_decide (stem = []) then EMPTY_STEM ++ extension else stem ++ extension.

(** ** Paths *)

Definition MANIFEST_NAME : text := chars ".roost-manifest.json".
Definition ATTACHMENT_OPERATION_DIR_NAME : text := chars ".operations".
Definition SHORTCUT_DIR_NAME : text := chars ".shortcuts".

(** [str::split('/')]. *)
Fixpoint split_slash (s : text) : list text :=
  match s with
  | [] => [[]]
  | c :: rest =>
      if c =? SLASH then [] :: split_slash rest
      else match split_slash rest with
           | first :: others => (c :: first) :: others
           | [] => [[c]]
           end
  end.

(** [normalize] continued from a folded path: [PathBuf::pop] drops the last
    component and nothing at the root. *)
Definition fold_component (folded : Path) (part : text) : Path :=
  if bool_decide (part = []) || bool_decide (part = [DOT]) then folded
  else if bool_decide (part = [DOT; DOT]) then take (length folded - 1) folded
  else folded ++ [part].

(** [join_lexically]. *)
Definition join_lexically (base : Path) (tail : text) : Path :=
  foldl fold_component base (split_slash tail).

(** [Path::starts_with], component by component. *)
Definition path_starts_with (p base : Path) : bool := bool_decide (base `prefix_of` p).

(** [Path::parent] of a path that has one. *)
Definition parent (p : Path) : Path := take (length p - 1) p.

(** [AttachmentBase::resolve_session_dir] of the base [root]. *)
Definition resolve_session_dir (root : Path) (session_id : text) : option Path :=
  let dir := join_lexically root session_id in
  if path_starts_with dir root then Some dir else None.

(** [project_media_dir], and [is_project_media_dir] of an absolute path. *)
Definition project_media_dir (folder : Path) : Path := folder ++ [chars ".roost"; chars "media"].

Definition is_project_media_dir (dir : Path) : bool :=
  bool_decide ([chars ".roost"; chars "media"] `suffix_of` dir).

(** [AttachmentOperationPaths]. *)
Record AttachmentOperationPaths := mkPaths {
  ap_session_dir : Path;
  ap_operation_dir : Path;
  ap_journal_path : Path;
  ap_media_dir : Path;
  ap_temp_dir : Path;
  ap_temp_path : Path;
}.

(** [create_attachment_operation_paths]. *)
Definition create_attachment_operation_paths (root : Path) (session_id request_id : text)
    (media_dir : Path) : option AttachmentOperationPaths :=
  if negb (valid_opaque_id request_id) then None else
  session_dir ← resolve_session_dir root session_id;
  let operation_dir := session_dir ++ [ATTACHMENT_OPERATION_DIR_NAME] in
  let temp_dir := media_dir ++ [ATTACHMENT_OPERATION_DIR_NAME] in
  Some (mkPaths session_dir operation_dir (operation_dir ++ [request_id ++ chars ".json"])
          media_dir temp_dir (temp_dir ++ [request_id ++ chars ".part"])).

(** [recorded_media_dir]. *)
Definition recorded_media_dir (session_dir : Path) (recorded : option Path) : option Path :=
  match recorded with
  | None => Some session_dir
  | Some dir =>
      if bool_decide (dir = session_dir) || is_project_media_dir dir then Some dir else None
  end.

(** [valid_receipt_path]. *)
Definition valid_receipt_path (media_dir : Path) (value : option Path) : bool :=
  is_none_or value (fun path => path_starts_with path media_dir).

(** [operation_key]. *)
Definition operation_key (session_id request_id : text) : text := session_id ++ 0 :: request_id.

(** ** What a sanitized name is *)

Lemma trim_start_head c s : head (trim_start_matches c s) <> Some c.
Proof.
  induction s as [|x s IH]; cbn; [done|]. destruct (Z.eqb_spec x c); [done|].
  cbn. congruence.
Qed.

Lemma trim_start_incl c s x : x ∈ trim_start_matches c s -> x ∈ s.
Proof.
  induction s as [|y s IH]; cbn; [done|]. case_match; [|done].
  intros Hx. apply elem_of_cons. auto.
Qed.

Lemma until_incl c s x : x ∈ until c s -> x ∈ s /\ x <> c.
Proof.
  induction s as [|y s IH]; cbn; [by intros ?%elem_of_nil|].
  destruct (Z.eqb_spec y c); [by intros ?%elem_of_nil|].
  rewrite !elem_of_cons. intros [->|H]; [auto|]. destruct (IH H). auto.
Qed.

Lemma last_segment_incl path x : x ∈ last_segment path -> x ∈ path /\ x <> SLASH.
Proof.
  unfold last_segment, trim_end_matches. rewrite elem_of_reverse. intros [H Hs]%until_incl.
  split; [|done]. rewrite !elem_of_reverse in H. apply trim_start_incl in H.
  by rewrite elem_of_reverse in H.
Qed.

Lemma truncate_head s max_units x :
  0 < max_units -> head (truncate_utf16 s max_units) = Some x -> head s = Some x \/ x = 0xFFFD.
Proof.
  unfold truncate_utf16. intros Hm. destruct s as [|c s]; cbn; [done|].
  repeat case_match; cbn; intros; simplify_eq; auto.
Qed.

Lemma truncate_incl s used max_units x :
  x ∈ truncate_utf16_from s used max_units -> x ∈ s \/ x = 0xFFFD.
Proof.
  revert used. induction s as [|c s IH]; intros used; cbn; [by intros ?%elem_of_nil|].
  rewrite elem_of_cons. repeat case_match.
  - intros ?%list_elem_of_singleton. auto.
  - by intros ?%elem_of_nil.
  - intros [->|Hx]%elem_of_cons; [auto|]. destruct (IH _ Hx); auto.
Qed.

Lemma len_utf16_pos c : 1 <= len_utf16 c <= 2.
Proof. unfold len_utf16. case_match; lia. Qed.

Lemma truncate_bound s used max_units :
  used <= max_units -> used + utf16_len (truncate_utf16_from s used max_units) <= max_units.
Proof.
  revert used. induction s as [|c s IH]; intros used Hu; cbn -[len_utf16]; [lia|].
  repeat case_match; bool_to_prop.
  - cbn. lia.
  - cbn. lia.
  - cbn [utf16_len foldr]. fold (utf16_len (truncate_utf16_from s (used + len_utf16 c) max_units)).
    specialize (IH (used + len_utf16 c) ltac:(lia)). lia.
Qed.

Lemma node_extname_suffix leaf : exists stem, leaf = stem ++ node_extname leaf /\
  (node_extname leaf <> [] -> stem <> []).
Proof.
  unfold node_extname. destruct (last_dot leaf) as [i|] eqn:E; [|exists leaf; by rewrite app_nil_r].
  case_match eqn:Hc; [exists leaf; by rewrite app_nil_r|].
  apply orb_false_iff in Hc as [Hi _]. apply Nat.eqb_neq in Hi.
  exists (take i leaf). split; [by rewrite take_drop|].
  unfold last_dot in E. apply fmap_Some in E as ([k c] & E & ->).
  apply list_find_Some in E as (E & _ & _). apply lookup_lt_Some in E.
  rewrite length_reverse in E. cbn [fst] in *. destruct leaf as [|x leaf]; [cbn in E; lia|].
  destruct (length (x :: leaf) - 1 - k)%nat eqn:Ek; [lia|]. cbn [take]. done.
Qed.

Lemma stem_take leaf stem :
  leaf = stem ++ node_extname leaf -> take (length leaf - length (node_extname leaf)) leaf = stem.
Proof.
  intros E. rewrite E at 1 3. rewrite length_app.
  replace (length stem + _ - _)%nat with (length stem) by lia. by rewrite take_app_length.
Qed.

(** The parts of a sanitized name. *)
Lemma sanitize_parts raw :
  let leaf := last_segment (List.filter (fun c => negb (is_stripped_control c)) raw) in
  exists stem, sanitize_attachment_name raw = stem ++ node_extname leaf /\
    stem <> [] /\ head stem <> Some DOT /\
    (forall x, x ∈ stem -> x ∈ leaf \/ x = 0xFFFD \/ x ∈ EMPTY_STEM) /\
    utf16_len stem <= Z.max 4 (80 - utf16_len (node_extname leaf)).
Proof.
  intros leaf. unfold sanitize_attachment_name. fold leaf.
  destruct (node_extname_suffix leaf) as (source & Es & Hne).
  rewrite (stem_take _ _ Es). set (extension := node_extname leaf) in *.
  set (stem_max := Z.max _ 1).
  case_bool_decide as Hst.
  - exists EMPTY_STEM. split; [done|]. split; [done|]. split; [done|].
    split; [auto|]. change (utf16_len EMPTY_STEM) with 4. lia.
  - exists (truncate_utf16 (trim_start_matches DOT source) stem_max). split; [done|]. split; [done|].
    split; [|split].
    + intros Hh. apply truncate_head in Hh; [|unfold stem_max; lia].
      destruct Hh as [Hh|Hh]; [by apply trim_start_head in Hh|done].
    + intros x Hx. apply truncate_incl in Hx as [Hx|Hx]; [|auto].
      apply trim_start_incl in Hx. left. rewrite Es. apply elem_of_app. auto.
    + pose proof (truncate_bound (trim_start_matches DOT source) 0 stem_max
        ltac:(unfold stem_max; lia)) as Hb.
      unfold truncate_utf16. unfold stem_max, saturating_sub, NAME_MAX_UNITS in *. lia.
Qed.

Lemma sanitize_head raw : exists x rest, sanitize_attachment_name raw = x :: rest /\ x <> DOT.
Proof.
  destruct (sanitize_parts raw) as (stem & -> & Hne & Hh & _). destruct stem as [|x stem]; [done|].
  exists x, (stem ++ node_extname (last_segment (List.filter (fun c => negb (is_stripped_control c)) raw))).
  split; [done|]. cbn in Hh. congruence.
Qed.

Abbreviation Sha256 := KeeperServer.Sha256.

(** ** The disk

    The file system calls that [file_store.rs] and [journal.rs] make.  A [Disk]
    holds what every path names now, which of it was never flushed ([d_dirty]:
    bytes, [d_loose]: the directory entry), under which name each file the worker
    keeps open is by now ([d_opened]), and what the calls to come will meet: each call takes the next [Fault], fails (a write after some
    of its bytes) or is the one in which the process dies, after which no call
    has an effect.  Metadata reads ([exists], [metadata]) always answer.  What
    [serde_json] writes and reads is a parameter ([Serde]): a file the worker
    wrote holds the value, and its bytes are that value's text. *)

Abbreviation ManifestMap := (gmap string (option text)).

Inductive Node :=
| Bytes (bytes : list byte)
| JournalText (journal : AttachmentOperationJournal)
| ManifestText (manifest : ManifestMap).

Inductive Fault := Passes | Fails (written : nat) | Dies (written : nat).

Record Disk := mkDisk {
  d_files : gmap Path Node;
  d_dirs : gset Path;
  d_links : gmap Path Path;
  d_dirty : gset Path;
  d_loose : gset Path;
  d_faults : list Fault;
  d_alive : bool;
  d_opened : gmap nat Path;
}.

Class Serde := {
  journal_bytes : AttachmentOperationJournal -> list byte;
  manifest_bytes : ManifestMap -> list byte;
  read_journal : list byte -> option AttachmentOperationJournal;
  read_manifest : list byte -> option ManifestMap;
}.

Section Store.
Context `{SD : Serde} `{SH : Sha256}.

Definition contents (n : Node) : list byte :=
  match n with
  | Bytes b => b
  | JournalText j => journal_bytes j
  | ManifestText m => manifest_bytes m
  end.

Definition as_journal (n : Node) : option AttachmentOperationJournal :=
  match n with JournalText j => Some j | _ => read_journal (contents n) end.

Definition as_manifest (n : Node) : option ManifestMap :=
  match n with ManifestText m => Some m | _ => read_manifest (contents n) end.

Definition set_files (d : Disk) files : Disk :=
  mkDisk files (d_dirs d) (d_links d) (d_dirty d) (d_loose d) (d_faults d) (d_alive d)
    (d_opened d).
Definition set_dirs (d : Disk) dirs : Disk :=
  mkDisk (d_files d) dirs (d_links d) (d_dirty d) (d_loose d) (d_faults d) (d_alive d)
    (d_opened d).
Definition set_links (d : Disk) links : Disk :=
  mkDisk (d_files d) (d_dirs d) links (d_dirty d) (d_loose d) (d_faults d) (d_alive d)
    (d_opened d).
Definition set_unflushed (d : Disk) dirty loose : Disk :=
  mkDisk (d_files d) (d_dirs d) (d_links d) dirty loose (d_faults d) (d_alive d)
    (d_opened d).
Definition set_faults (d : Disk) faults : Disk :=
  mkDisk (d_files d) (d_dirs d) (d_links d) (d_dirty d) (d_loose d) faults (d_alive d)
    (d_opened d).
Definition set_alive (d : Disk) alive : Disk :=
  mkDisk (d_files d) (d_dirs d) (d_links d) (d_dirty d) (d_loose d) (d_faults d) alive
    (d_opened d).
Definition set_opened (d : Disk) opened : Disk :=
  mkDisk (d_files d) (d_dirs d) (d_links d) (d_dirty d) (d_loose d) (d_faults d) (d_alive d) opened.

(** [path.exists()]. *)
Definition path_exists (d : Disk) (p : Path) : bool :=
  bool_decide (is_Some (d_files d !! p)) || bool_decide (p ∈ d_dirs d) ||
  bool_decide (is_Some (d_links d !! p)).

(** ** Calls *)

Definition Io (A : Type) : Type := Disk -> result A unit * Disk.

Definition ret {A} (a : A) : Io A := fun d => (Ok a, d).
Definition io_error {A} : Io A := fun d => (Err tt, d).

(** The [?] operator. *)
Definition bind {A B} (m : Io A) (k : A -> Io B) : Io B := fun d =>
  match m d with
  | (Ok a, d') => k a d'
  | (Err e, d') => (Err e, d')
  end.

(** One call of the system: its effect, or what it leaves when it stops after
    [n] bytes. *)
Definition call {A} (torn : nat -> Disk -> Disk) (effect : Io A) : Io A := fun d =>
  if negb (d_alive d) then (Err tt, d)
  else match d_faults d with
       | [] => effect d
       | Passes :: rest => effect (set_faults d rest)
       | Fails n :: rest => (Err tt, torn n (set_faults d rest))
       | Dies n :: rest => (Err tt, set_alive (torn n (set_faults d rest)) false)
       end.

Definition untorn (_ : nat) (d : Disk) : Disk := d.

(** A file's node, its bytes and its entry not flushed yet. *)
Definition put_node (d : Disk) (p : Path) (n : Node) : Disk :=
  set_unflushed (set_files d (<[p := n]> (d_files d))) ({[p]} ∪ d_dirty d) (d_loose d).

(** [create_truncate_private_file]. *)
Definition create_truncate_private_file (p : Path) : Io unit :=
  call untorn (fun d =>
    if bool_decide (p ∈ d_dirs d) || negb (bool_decide (parent p ∈ d_dirs d)) then (Err tt, d)
    else let d' := put_node d p (Bytes []) in
         (Ok tt, set_unflushed d' (d_dirty d') ({[p]} ∪ d_loose d'))).

(** [write_all] of a whole file just truncated. *)
Definition write_node (p : Path) (n : Node) : Io unit :=
  call (fun k d => put_node d p (Bytes (take k (contents n))))
       (fun d => (Ok tt, put_node d p n)).

(** [write_private_file]. *)
Definition write_private_file (p : Path) (n : Node) : Io unit :=
  bind (create_truncate_private_file p) (fun _ => write_node p n).

(** Every directory from the root down to [p]. *)
Definition path_prefixes (p : Path) : list Path :=
  (fun n => take n p) <$> seq 0 (S (length p)).

(** [create_private_dir_all]: a file on the way refuses it. *)
Definition create_private_dir (p : Path) : Io unit :=
  call untorn (fun d =>
    if existsb (fun q => bool_decide (is_Some (d_files d !! q))) (path_prefixes p)
    then (Err tt, d)
    else (Ok tt, set_dirs d (list_to_set (path_prefixes p) ∪ d_dirs d))).

(** [OpenOptions::open(path)?.sync_all()]. *)
Definition sync_file (p : Path) : Io unit :=
  call untorn (fun d =>
    if bool_decide (is_Some (d_files d !! p))
    then (Ok tt, set_unflushed d (d_dirty d ∖ {[p]}) (d_loose d)) else (Err tt, d)).

(** [sync_attachment_directory]. *)
Definition sync_directory (dir : Path) : Io unit :=
  call untorn (fun d =>
    if bool_decide (dir ∈ d_dirs d)
    then (Ok tt, set_unflushed d (d_dirty d) (filter (fun p => parent p <> dir) (d_loose d)))
    else (Err tt, d)).

(** A file stays open under the name it is given, and without one. *)
Definition renamed (from to q : Path) : option Path :=
  if bool_decide (q = from) then Some to else if bool_decide (q = to) then None else Some q.
Definition removed (p q : Path) : option Path := if bool_decide (q = p) then None else Some q.

(** The file at [p], open from now on. *)
Definition open_file (p : Path) : Io nat := fun d =>
  let k := S (foldr Nat.max 0%nat (map_to_list (d_opened d)).*1) in
  (Ok k, set_opened d (<[k := p]> (d_opened d))).

(** [fs::rename] over no directory: the entry of both names is new, and the
    bytes are as flushed as they were. *)
Definition rename (from to : Path) : Io unit :=
  call untorn (fun d =>
    match d_files d !! from with
    | None => (Err tt, d)
    | Some n =>
        if bool_decide (to ∈ d_dirs d) || negb (bool_decide (parent to ∈ d_dirs d))
        then (Err tt, d)
        else let dirty := if bool_decide (from ∈ d_dirty d)
                          then {[to]} ∪ (d_dirty d ∖ {[from]}) else d_dirty d ∖ {[to]} in
             (Ok tt, set_opened (set_unflushed (set_files d (<[to := n]> (delete from (d_files d))))
                                   dirty ({[to; from]} ∪ d_loose d))
                       (omap (renamed from to) (d_opened d)))
    end).

(** [fs::remove_file]. *)
Definition remove_file (p : Path) : Io unit :=
  call untorn (fun d =>
    match d_files d !! p with
    | None => (Err tt, d)
    | Some _ => (Ok tt, set_opened (set_unflushed (set_files d (delete p (d_files d)))
                                      (d_dirty d ∖ {[p]}) ({[p]} ∪ d_loose d))
                          (omap (removed p) (d_opened d)))
    end).

(** [File::open] and reading to the end. *)
Definition read_file (p : Path) : Io (list byte) :=
  call untorn (fun d =>
    match d_files d !! p with
    | None => (Err tt, d)
    | Some n => (Ok (contents n), d)
    end).

(** ** Digests ([file_hash.rs]) *)

Definition HEX_DIGITS : list ascii := list_ascii_of_string "0123456789abcdef".

(** One byte of [digest_hex]. *)
Definition hex_byte (b : byte) : string :=
  let n := N.to_nat (Byte.to_N b) in
  String (default zero (HEX_DIGITS !! (n / 16)%nat))
    (String (default zero (HEX_DIGITS !! (n mod 16)%nat)) EmptyString).

(** [digest_hex] of the bytes a hasher was fed. *)
Definition sha256_hex (fed : list byte) : string :=
  foldr (fun b s => String.append (hex_byte b) s) EmptyString (KeeperServer.sha256 fed).

(** [hash_attachment_file]: the hasher after the file's bytes. *)
Definition hash_attachment_file (p : Path) : Io (list byte) := read_file p.

(** [sha256_attachment_file]. *)
Definition sha256_attachment_file (p : Path) : Io string :=
  bind (hash_attachment_file p) (fun fed => ret (sha256_hex fed)).

(** ** Reserving and occupying a name *)

Definition UNIQUE_SUFFIX_LIMIT : nat := 10000.

(** [format!("{stem} ({index}){extension}")]. *)
Definition numbered_name (stem : text) (index : nat) (extension : text) : text :=
  stem ++ chars " (" ++ decimal index ++ chars ")" ++ extension.

(** The loop over [2..UNIQUE_SUFFIX_LIMIT], [fuel] candidates left. *)
Fixpoint free_candidate (d : Disk) (dir : Path) (stem extension : text) (index fuel : nat)
    : option text :=
  match fuel with
  | O => None
  | S fuel =>
      let candidate := numbered_name stem index extension in
      if negb (path_exists d (dir ++ [candidate])) then Some candidate
      else free_candidate d dir stem extension (S index) fuel
  end.

(** [unique_name]; [millis] is the clock the last name is stamped with. *)
Definition unique_name (d : Disk) (dir : Path) (sanitized : text) (millis : nat) : text :=
  if negb (path_exists d (dir ++ [sanitized])) then sanitized
  else
    let extension := node_extname sanitized in
    let stem := take (length sanitized - length extension) sanitized in
    default (numbered_name stem millis extension)
      (free_candidate d dir stem extension 2 (UNIQUE_SUFFIX_LIMIT - 2)).

(** [reserve_attachment_destination]: its [file_name]. *)
Definition reserve_attachment_destination (d : Disk) (dir : Path) (filename : text)
    (millis : nat) : text :=
  unique_name d dir (sanitize_attachment_name filename) millis.

(** [place_attachment_destination]: whether the name held these bytes. *)
Definition place_attachment_destination (dir temp_path : Path) (file_name : text)
    (digest : string) : Io bool := fun d =>
  let file_path := dir ++ [file_name] in
  if path_exists d file_path
  then bind (sha256_attachment_file file_path)
         (fun actual => if String.eqb actual digest then ret true else io_error) d
  else bind (rename temp_path file_path) (fun _ => ret false) d.

(** ** The manifest *)

(** [load_manifest]: unreadable is empty. *)
Definition load_manifest (dir : Path) : Disk -> ManifestMap * Disk := fun d =>
  match call untorn (fun d => (ok_or (d_files d !! (dir ++ [MANIFEST_NAME])) tt, d)) d with
  | (Ok n, d') => (default ∅ (as_manifest n), d')
  | (Err _, d') => (∅, d')
  end.

(** [save_manifest]: a failure is logged. *)
Definition save_manifest (dir : Path) (manifest : ManifestMap) (d : Disk) : Disk :=
  (write_private_file (dir ++ [MANIFEST_NAME]) (ManifestText manifest) d).2.

(** [record_attachment_hash]. *)
Definition record_attachment_hash (dir : Path) (digest : string) (file_name : text) (d : Disk)
    : Disk :=
  let '(manifest, d) := load_manifest dir d in
  save_manifest dir
    (<[digest := Some file_name]> (filter (fun entry => entry.2 <> Some file_name) manifest)) d.

(** [commit_attachment_destination]. *)
Definition commit_attachment_destination (dir temp_path : Path) (file_name : text)
    (digest : string) : Io bool :=
  bind (place_attachment_destination dir temp_path file_name digest) (fun verified =>
  bind (sync_file (dir ++ [file_name])) (fun _ =>
  bind (sync_directory dir) (fun _ d =>
  (Ok verified, record_attachment_hash dir digest file_name d)))).

(** ** The path a receipt names *)

(** [p{index}]. *)
Definition shortcut_name (index : nat) : text := chars "p" ++ decimal index.

(** The lowest index from [index] whose name is not [occupied]. *)
Fixpoint lowest_free (occupied : gset text) (index fuel : nat) : nat :=
  match fuel with
  | O => index
  | S fuel =>
      if bool_decide (shortcut_name index ∈ occupied)
      then lowest_free occupied (S index) fuel else index
  end.

(** [is_shortcut_name]. *)
Definition is_shortcut_name (name : text) : bool :=
  match name with
  | c :: digits =>
      (c =? 112) && negb (bool_decide (digits = [])) &&
      forallb (fun d => (48 <=? d) && (d <=? 57)) digits
  | [] => false
  end.

(** The names [read_dir] lists beneath [dir]. *)
Definition entries (d : Disk) (dir : Path) : list text :=
  omap (fun p => if bool_decide (parent p = dir) then last p else None)
    (elements (dom (d_files d) ∪ d_dirs d ∪ dom (d_links d))).

(** [link_shortcut]. *)
Definition link_shortcut (dir file_path : Path) : Io Path :=
  let shortcuts := dir ++ [SHORTCUT_DIR_NAME] in
  bind (create_private_dir shortcuts) (fun _ =>
  bind (call untorn (fun d => (Ok (entries d shortcuts), d))) (fun names =>
  let occupied := list_to_set (List.filter is_shortcut_name names) in
  let shortcut := shortcuts ++ [shortcut_name (lowest_free occupied 1 (S (size occupied)))] in
  call untorn (fun d =>
    if path_exists d shortcut then (Err tt, d)
    else (Ok shortcut, set_links d (<[shortcut := file_path]> (d_links d)))))).

(** [short_attachment_path]: the full path when no link can be made. *)
Definition short_attachment_path (dir file_path : Path) : Disk -> Path * Disk := fun d =>
  match link_shortcut dir file_path d with
  | (Ok shortcut, d') => (shortcut, d')
  | (Err _, d') => (file_path, d')
  end.

(** [attachment_reply_path]. *)
Definition attachment_reply_path (dir file_path : Path) (short_path : bool)
    : Disk -> Path * Disk := fun d =>
  if short_path then short_attachment_path dir file_path d else (file_path, d).

(** [probe_attachment] of the session's media directory. *)
Definition probe_attachment (media_dir : option Path) (digest : string) (short_path : bool)
    : Disk -> option Path * Disk := fun d =>
  match media_dir with
  | None => (None, d)
  | Some dir =>
      let '(manifest, d) := load_manifest dir d in
      match manifest !! digest with
      | Some (Some file_name) =>
          if bool_decide (file_name = []) then (None, d)
          else
            let file_path := join_lexically dir file_name in
            if negb (path_exists d file_path) then (None, d)
            else let '(p, d) := attachment_reply_path dir file_path short_path d in (Some p, d)
      | _ => (None, d)
      end
  end.

(** ** The journal on disk *)

Definition journal_next (journal_path : Path) : Path :=
  parent journal_path ++ [default [] (last journal_path) ++ chars ".next"].

(** [persist_attachment_operation]. *)
Definition persist_attachment_operation (paths : AttachmentOperationPaths)
    (j : AttachmentOperationJournal) (sync : bool) : Io unit :=
  let pending := journal_next (ap_journal_path paths) in
  bind (create_private_dir (ap_operation_dir paths)) (fun _ =>
  bind (write_private_file pending (JournalText j)) (fun _ =>
  bind (if sync then sync_file pending else ret tt) (fun _ =>
  bind (rename pending (ap_journal_path paths)) (fun _ =>
  if sync then sync_directory (ap_operation_dir paths) else ret tt)))).

Inductive AttachmentOperationLoad :=
| Missing
| Invalid
| Loaded (paths : AttachmentOperationPaths) (journal : AttachmentOperationJournal).

(** [load_attachment_operation]. *)
Definition load_attachment_operation (root : Path) (session_id request_id : text)
    : Disk -> AttachmentOperationLoad * Disk := fun d =>
  match (if valid_opaque_id request_id then resolve_session_dir root session_id else None) with
  | None => (Missing, d)
  | Some session_dir =>
      let journal_path :=
        session_dir ++ [ATTACHMENT_OPERATION_DIR_NAME; request_id ++ chars ".json"] in
      if negb (path_exists d journal_path) then (Missing, d) else
      match call untorn (fun d => (ok_or (d_files d !! journal_path) tt, d)) d with
      | (Err _, d) => (Invalid, d)
      | (Ok n, d) =>
          match mbind parse_journal (as_journal n) with
          | None => (Invalid, d)
          | Some j =>
              match mbind (create_attachment_operation_paths root session_id request_id)
                      (recorded_media_dir session_dir (aj_media_dir j)) with
              | None => (Invalid, d)
              | Some paths =>
                  if negb (bool_decide (aj_session_id j = session_id)) ||
                     negb (bool_decide (aj_request_id j = request_id)) ||
                     negb (valid_receipt_path (ap_media_dir paths) (aj_abs_path j))
                  then (Invalid, d) else (Loaded paths j, d)
              end
          end
      end
  end.

(** [AttachmentBase::project_media_dir]: [folder] is what [SessionFolders]
    answers and whether it is a directory. *)
Definition usable_project_dir (root : Path) (folder : option (Path * bool)) : option Path :=
  '(f, is_dir) ← folder;
  if negb (path_starts_with f root) && is_dir then Some (project_media_dir f) else None.

(** [AttachmentBase::prepare_media_dir]; [prepared] is whether
    [prepare_project_media_dir] and the registry took the directory. *)
Definition prepare_media_dir (root : Path) (session_id : text) (folder : option (Path * bool))
    (prepared : bool) : option Path :=
  private ← resolve_session_dir root session_id;
  match usable_project_dir root folder with
  | None => Some private
  | Some dir => Some (if prepared then dir else private)
  end.

(** [create_attachment_operation]; [Ok None] names no operation. *)
Definition create_attachment_operation (root : Path) (descriptor : OperationDescriptor)
    (carrier : Carrier) (carrier_id : text) (media_dir : option Path)
    : Io (option (AttachmentOperationPaths * AttachmentOperationJournal)) :=
  match mbind (create_attachment_operation_paths root (od_session_id descriptor)
                 (od_request_id descriptor)) media_dir with
  | None => ret None
  | Some paths =>
      bind (create_private_dir (ap_operation_dir paths)) (fun _ =>
      bind (create_private_dir (ap_temp_dir paths)) (fun _ =>
      let j := mkJournal JOURNAL_VERSION (od_request_id descriptor) (od_session_id descriptor)
                 (od_filename descriptor) (Some (ap_media_dir paths)) (od_short_path descriptor)
                 (od_total_bytes descriptor) false carrier carrier_id 0 0 "" [] "" false None "" in
      bind (persist_attachment_operation paths j false) (fun _ => ret (Some (paths, j)))))
  end.

(** [sync_attachment_operation_progress]: the flushes run together and the
    first failure is the answer. *)
Definition sync_attachment_operation_progress (root : Path) (session_id request_id : text)
    : Io unit := fun d =>
  match load_attachment_operation root session_id request_id d with
  | (Loaded paths _, d) =>
      bind (sync_file (ap_temp_path paths)) (fun _ =>
      bind (sync_file (ap_journal_path paths)) (fun _ =>
      bind (sync_directory (ap_operation_dir paths)) (fun _ =>
      bind (sync_directory (ap_session_dir paths)) (fun _ =>
      bind (sync_directory (ap_temp_dir paths)) (fun _ =>
      sync_directory (ap_media_dir paths)))))) d
  | (_, d) => (Err tt, d)
  end.

(** [remove_attachment_temp]. *)
Definition remove_attachment_temp (paths : AttachmentOperationPaths) (d : Disk) : Disk :=
  (remove_file (ap_temp_path paths) d).2.

End Store.

(** ** The number of a shortcut is free *)

#[global] Instance chars_inj : Inj (=) (=) chars.
Proof.
  intros s s' H. rewrite <- (string_of_list_ascii_of_string s), <- (string_of_list_ascii_of_string s').
  f_equal. eapply (list_fmap_eq_inj (fun c => Z.of_nat (nat_of_ascii c))); [|exact H].
  intros a b E. rewrite <- (ascii_nat_embedding a), <- (ascii_nat_embedding b). f_equal. lia.
Qed.

#[global] Instance shortcut_name_inj : Inj (=) (=) shortcut_name.
Proof. intros i j H. unfold shortcut_name, decimal in H. by apply (inj _), (inj chars), (inj pretty) in H. Qed.

Lemma lowest_free_stops occupied index fuel :
  shortcut_name (lowest_free occupied index fuel) ∉ occupied \/
  Forall (fun k => shortcut_name k ∈ occupied) (seq index fuel).
Proof.
  induction fuel as [|fuel IH] in index |- *; cbn; [by right|].
  case_bool_decide as E; [|by left]. destruct (IH (S index)); [by left|right; by constructor].
Qed.

(** The fuel of [link_shortcut] is enough: the link it makes has a name that was
    not there. *)
Lemma lowest_free_fresh occupied index :
  shortcut_name (lowest_free occupied index (S (size occupied))) ∉ occupied.
Proof.
  destruct (lowest_free_stops occupied index (S (size occupied))) as [H|H]; [done|]. exfalso.
  assert (list_to_set (C := gset text) (shortcut_name <$> seq index (S (size occupied))) ⊆ occupied) as Hs.
  { intros x. rewrite elem_of_list_to_set. intros (k & -> & Hk)%list_elem_of_fmap.
    rewrite Forall_forall in H. by apply H. }
  apply subseteq_size in Hs. rewrite size_list_to_set, length_fmap, length_seq in Hs; [lia|].
  apply NoDup_fmap_2; [apply _|apply NoDup_seq].
Qed.
