(* ===== verification/UploadOwner.v ===== *)
(** * UploadOwner: the owner of every attachment operation

    [roost-worker/src/attachments/operation_owner.rs], [operation_open.rs],
    [operation_commit.rs] and the facade of [upload.rs].  The table of active
    operations and the disk are passed explicitly; everything a call does under
    the table's lock is one definition.  A commit's two rounds of flushes are
    the two steps [flush_first] and [flush_second], so every other call may fall
    before, between and after them.  The clock, the folder a session's shell
    stands in and the milliseconds a name may be stamped with are in [Env].

    An open [File] is its number on the disk, which knows the name the file has by
    now, and where it writes: a new temp at its own position, a resumed one at the
    end. *)
From Stdlib Require Import Ascii String.
From stdpp Require Import pretty.
From S2P Require Export UploadStore.

(** ** The table *)

Inductive Handle := Cursor (file position : nat) | AtEnd (file : nat).

(** How far a commit's flushes are. *)
Inductive CommitPhase := FirstFlush | SecondFlush.

Record ActiveOperation := mkOperation {
  op_key : text;
  op_paths : AttachmentOperationPaths;
  op_journal : AttachmentOperationJournal;
  op_file : option Handle;
  op_hasher : list byte;
  op_last_activity : Z;
  op_commit : option CommitPhase;
  op_registered : bool;
}.

Abbreviation ActiveTable := (gmap text ActiveOperation).

Record Env := mkEnv {
  env_now : Z;
  env_folder : option (Path * bool);
  env_prepared : bool;
  env_millis : nat;
}.

Inductive Step := Settle (r : AttachmentOperationResult) | Wait | Committing.

Inductive Advance :=
| Answer (r : AttachmentOperationResult)
| Fail (e : AttachmentOperationError)
| AwaitCommit
| Commit.

Definition ATTACHMENT_OPERATION_IDLE : Z := 5 * 60 * 1000.
Definition MAX_CARRIER_ID_UNITS : Z := 128.

Definition set_journal (op : ActiveOperation) (j : AttachmentOperationJournal) : ActiveOperation :=
  mkOperation (op_key op) (op_paths op) j (op_file op) (op_hasher op) (op_last_activity op)
    (op_commit op) (op_registered op).
Definition set_last_activity (op : ActiveOperation) (now : Z) : ActiveOperation :=
  mkOperation (op_key op) (op_paths op) (op_journal op) (op_file op) (op_hasher op) now
    (op_commit op) (op_registered op).
Definition set_file (op : ActiveOperation) (h : option Handle) : ActiveOperation :=
  mkOperation (op_key op) (op_paths op) (op_journal op) h (op_hasher op) (op_last_activity op)
    (op_commit op) (op_registered op).
Definition set_hasher (op : ActiveOperation) (fed : list byte) : ActiveOperation :=
  mkOperation (op_key op) (op_paths op) (op_journal op) (op_file op) fed (op_last_activity op)
    (op_commit op) (op_registered op).
Definition set_commit (op : ActiveOperation) (c : option CommitPhase) : ActiveOperation :=
  mkOperation (op_key op) (op_paths op) (op_journal op) (op_file op) (op_hasher op)
    (op_last_activity op) c (op_registered op).

Section Owner.
Context `{SD : Serde} `{SH : Sha256} (root : Path).

(** ** Writing through a handle *)

Definition handle_at (h : Handle) (held : list byte) : nat :=
  match h with Cursor _ position => position | AtEnd _ => length held end.

Definition handle_file (h : Handle) : nat :=
  match h with Cursor file _ => file | AtEnd file => file end.

(** The bytes of a file after [data] was written at [at_byte]; a gap reads as
    zeros. *)
Definition overwrite (held : list byte) (at_byte : nat) (data : list byte) : list byte :=
  take at_byte (held ++ replicate (at_byte - length held) Byte.x00) ++ data ++
  drop (at_byte + length data) held.

(** [file.write_all]: into the file that is open, under the name it has by now;
    one whose name is gone takes the bytes unseen. *)
Definition write_all (h : Handle) (data : list byte) : Io unit :=
  let put d bytes :=
    match d_opened d !! handle_file h with
    | None => d
    | Some p =>
        match d_files d !! p with
        | None => d
        | Some n => put_node d p (Bytes (overwrite (contents n) (handle_at h (contents n)) bytes))
        end
    end in
  call (fun k d => put d (take k data)) (fun d => (Ok tt, put d data)).

Definition advance_handle (h : Handle) (data : list byte) : Handle :=
  match h with
  | Cursor file position => Cursor file (position + length data)
  | AtEnd file => AtEnd file
  end.

(** ** Failing ([operation_commit.rs]) *)

(** [fail_journal]: the journal that was tried, whatever became of it. *)
Definition fail_journal (paths : AttachmentOperationPaths) (j : AttachmentOperationJournal)
    (e : AttachmentOperationError) (d : Disk) : AttachmentOperationJournal * Disk :=
  let j := with_error j e in
  let d := (persist_attachment_operation paths j true d).2 in
  (j, remove_attachment_temp paths d).

(** [fail_operation]. *)
Definition fail_operation (op : ActiveOperation) (e : AttachmentOperationError) (d : Disk)
    : AttachmentOperationError * Disk :=
  (e, (fail_journal (op_paths op) (op_journal op) e d).2).

(** A commit interrupted after its journal named the final file. *)
Definition unfinished (j : AttachmentOperationJournal) : bool :=
  negb (bool_decide (aj_final_name j = [])) && negb (aj_committed j) &&
  String.eqb (aj_error j) "".

(** [commit_failed]. *)
Definition commit_failed (op : ActiveOperation) (d : Disk) : AttachmentOperationError * Disk :=
  if unfinished (op_journal op) then (WriteFailed, d)
  else fail_operation (set_journal op (with_uncommitted (op_journal op))) WriteFailed d.

Definition final_path (paths : AttachmentOperationPaths) (j : AttachmentOperationJournal) : Path :=
  ap_media_dir paths ++ [aj_final_name j].

(** [recover_finalization]. *)
Definition recover_finalization (paths : AttachmentOperationPaths)
    (j : AttachmentOperationJournal) (d : Disk) : bool * AttachmentOperationJournal * Disk :=
  let failed j d := let '(j, d) := fail_journal paths j WriteFailed d in (false, j, d) in
  match commit_attachment_destination (ap_media_dir paths) (ap_temp_path paths)
          (aj_final_name j) (aj_content_sha256 j) d with
  | (Err _, d) => failed j d
  | (Ok verified, d) =>
      let '(same, d) :=
        if verified then (true, d)
        else match sha256_attachment_file (final_path paths j) d with
             | (Ok digest, d) => (String.eqb digest (aj_content_sha256 j), d)
             | (Err _, d) => (false, d)
             end in
      if negb same then failed j d
      else
        let '(reply, d) :=
          attachment_reply_path (ap_media_dir paths) (final_path paths j) (aj_short_path j) d in
        let j := with_committed j reply in
        match persist_attachment_operation paths j true d with
        | (Err _, d) => failed j d
        | (Ok _, d) => (true, j, d)
        end
  end.

(** ** Opening ([operation_open.rs]) *)

(** [temp_matches_journal]. *)
Definition temp_matches_journal (d : Disk) (temp_path : Path) (j : AttachmentOperationJournal)
    : bool :=
  match d_files d !! temp_path with
  | Some n => len (contents n) =? aj_bytes_written j
  | None => false
  end.

(** [resume_temp]: the open temp, and the hasher after its bytes. *)
Definition resume_temp (temp_path : Path) (j : AttachmentOperationJournal) : Io (nat * list byte) :=
  fun d =>
  if negb (temp_matches_journal d temp_path j) then (Err tt, d)
  else bind (call untorn (fun d => (ok_or (d_files d !! temp_path) tt, d)))
         (fun _ => bind (open_file temp_path) (fun file =>
            bind (hash_attachment_file temp_path) (fun fed => ret (file, fed)))) d.

(** [activate]. *)
Definition activate (env : Env) (key : text) (paths : AttachmentOperationPaths)
    (j : AttachmentOperationJournal) (file : option Handle) (fed : list byte)
    (registered : bool) : ActiveOperation :=
  mkOperation key paths j file fed (env_now env) None registered.

(** A journal that takes no more bytes. *)
Definition terminal (j : AttachmentOperationJournal) : bool :=
  negb (String.eqb (aj_error j) "") || aj_committed j ||
  negb (bool_decide (aj_final_name j = [])).

(** [open_loaded]. *)
Definition open_loaded (env : Env) (key : text) (paths : AttachmentOperationPaths)
    (j : AttachmentOperationJournal) (d : Disk)
    : result ActiveOperation AttachmentOperationError * Disk :=
  if terminal j then (Ok (activate env key paths j None [] false), d)
  else match resume_temp (ap_temp_path paths) j d with
       | (Ok (file, fed), d) => (Ok (activate env key paths j (Some (AtEnd file)) fed true), d)
       | (Err _, d) => (Err WriteFailed, (fail_journal paths j WriteFailed d).2)
       end.

Definition same_upload (j : AttachmentOperationJournal) (chunk : AttachmentOperationChunk) : bool :=
  same_descriptor j (oc_descriptor chunk) && same_carrier j (oc_carrier chunk) (oc_carrier_id chunk).

Definition chunk_key (chunk : AttachmentOperationChunk) : text :=
  operation_key (od_session_id (oc_descriptor chunk)) (od_request_id (oc_descriptor chunk)).

(** [prepare]: the operation to go on with, out of the table; the outer [Err]
    is an I/O error. *)
Definition prepare (env : Env) (active : ActiveTable) (chunk : AttachmentOperationChunk)
    (d : Disk) : result (result ActiveOperation AttachmentOperationError) unit
                 * ActiveTable * Disk :=
  let descriptor := oc_descriptor chunk in
  let key := chunk_key chunk in
  match active !! key with
  | Some existing =>
      if negb (same_upload (op_journal existing) chunk)
      then (Ok (Err UploadMismatch), active, d)
      else (Ok (Ok existing), delete key active, d)
  | None =>
      match load_attachment_operation root (od_session_id descriptor)
              (od_request_id descriptor) d with
      | (Invalid, d) => (Ok (Err WriteFailed), active, d)
      | (Missing, d) =>
          if negb (oc_seq chunk =? 0) then (Ok (Err ChunkOutOfOrder), active, d)
          else if negb (oc_offset chunk =? 0) then (Ok (Err ChunkOffsetMismatch), active, d)
          else
            match create_attachment_operation root descriptor (oc_carrier chunk)
                    (oc_carrier_id chunk)
                    (prepare_media_dir root (od_session_id descriptor) (env_folder env)
                       (env_prepared env)) d with
            | (Err _, d) => (Err tt, active, d)
            | (Ok None, d) => (Ok (Err UploadNotFound), active, d)
            | (Ok (Some (paths, j)), d) =>
                match bind (create_truncate_private_file (ap_temp_path paths))
                        (fun _ => open_file (ap_temp_path paths)) d with
                | (Ok file, d) =>
                    (Ok (Ok (activate env key paths j (Some (Cursor file 0)) [] true)), active, d)
                | (Err _, d) =>
                    (Ok (Err WriteFailed), active, (fail_journal paths j WriteFailed d).2)
                end
            end
      | (Loaded paths j, d) =>
          if negb (same_upload j chunk) then (Ok (Err UploadMismatch), active, d)
          else let '(opened, d) := open_loaded env key paths j d in (Ok opened, active, d)
      end
  end.

(** [restore]. *)
Definition restore (active : ActiveTable) (op : ActiveOperation) : ActiveTable :=
  if op_registered op then <[op_key op := op]> active else active.

(** ** Taking a chunk ([operation_owner.rs]) *)

(** [valid_chunk]. *)
Definition valid_chunk (chunk : AttachmentOperationChunk) : bool :=
  (oc_offset chunk <=? MAX_SAFE_INTEGER) &&
  is_none_or (od_total_bytes (oc_descriptor chunk)) (fun total => total <=? MAX_SAFE_INTEGER) &&
  (utf16_len (oc_carrier_id chunk) <=? MAX_CARRIER_ID_UNITS).

(** [is_last_accepted_duplicate]. *)
Definition is_last_accepted_duplicate (j : AttachmentOperationJournal)
    (chunk : AttachmentOperationChunk) (claimed : string) : bool :=
  (0 <? aj_next_seq j) && (oc_seq chunk =? aj_next_seq j - 1) &&
  (saturating_add64 (oc_offset chunk) (len (oc_data chunk)) =? aj_bytes_written j) &&
  String.eqb claimed (aj_last_chunk_sha256 j) &&
  Bool.eqb (oc_last chunk) (aj_last_chunk_final j).

(** [advance] from the digest on: the checks of a chunk and its writing. *)
Definition take_chunk (op : ActiveOperation) (chunk : AttachmentOperationChunk) (d : Disk)
    : result Advance unit * ActiveOperation * Disk :=
  let j := op_journal op in
  let actual := sha256_hex (oc_data chunk) in
  let claimed := default actual (oc_chunk_sha256 chunk) in
  if negb (String.eqb actual claimed) then (Ok (Fail ChunkSha256Mismatch), op, d)
  else if is_last_accepted_duplicate j chunk claimed
  then (Ok (Answer (Ok (receipt_from_journal j))), op, d)
  else if aj_committed j || negb (oc_seq chunk =? aj_next_seq j)
  then (Ok (Fail ChunkOutOfOrder), op, d)
  else if negb (oc_offset chunk =? aj_bytes_written j)
  then (Ok (Fail ChunkOffsetMismatch), op, d)
  else
    let length := len (oc_data chunk) in
    if negb (is_none_or (aj_total_bytes j)
               (fun total => length <=? saturating_sub total (aj_bytes_written j)))
    then (Ok (Fail TotalBytesMismatch), op, d)
    else match op_file op with
         | None => (Err tt, op, d)
         | Some h =>
             match write_all h (oc_data chunk) d with
             | (Err _, d) => (Err tt, op, d)
             | (Ok _, d) =>
                 let j := with_chunk j length claimed (oc_last chunk) in
                 let op := set_journal (set_hasher (set_file op
                             (Some (advance_handle h (oc_data chunk))))
                             (op_hasher op ++ oc_data chunk)) j in
                 if negb (oc_last chunk) then
                   match oc_carrier chunk with
                   | Coordinator => (Ok (Answer (Ok (receipt_from_journal j))), op, d)
                   | Direct =>
                       match persist_attachment_operation (op_paths op) j false d with
                       | (Ok _, d) => (Ok (Answer (Ok (receipt_from_journal j))), op, d)
                       | (Err _, d) => (Err tt, op, d)
                       end
                   end
                 else if negb (is_none_or (aj_total_bytes j)
                                 (fun total => aj_bytes_written j =? total))
                 then (Ok (Fail TotalBytesMismatch), op, d)
                 else (Ok Commit, op, d)
             end
         end.

(** [advance]. *)
Definition advance (env : Env) (op : ActiveOperation) (chunk : AttachmentOperationChunk)
    (d : Disk) : result Advance unit * ActiveOperation * Disk :=
  match op_commit op with
  | Some _ => (Ok AwaitCommit, op, d)
  | None =>
      let op := set_last_activity op (env_now env) in
      let j := op_journal op in
      if negb (String.eqb (aj_error j) "") then (Ok (Answer (Err (journal_error j))), op, d)
      else if negb (bool_decide (aj_final_name j = [])) && negb (aj_committed j) then
        let '(recovered, j, d) := recover_finalization (op_paths op) j d in
        let op := set_journal op j in
        if negb recovered then (Ok (Answer (Err (journal_error j))), op, d)
        else take_chunk op chunk d
      else take_chunk op chunk d
  end.

(** [begin_commit]. *)
Definition begin_commit (env : Env) (active : ActiveTable) (op : ActiveOperation) (d : Disk)
    : Step * ActiveTable * Disk :=
  let paths := op_paths op in
  let name := reserve_attachment_destination d (ap_media_dir paths)
                (aj_filename (op_journal op)) (env_millis env) in
  let j := with_final (op_journal op) name (sha256_hex (op_hasher op)) in
  let op := set_journal (set_hasher (set_file op None) []) j in
  match bind (persist_attachment_operation paths j false)
          (fun _ => place_attachment_destination (ap_media_dir paths) (ap_temp_path paths)
                      (aj_final_name j) (aj_content_sha256 j)) d with
  | (Err _, d) => let '(e, d) := commit_failed op d in (Settle (Err e), active, d)
  | (Ok _, d) => (Committing, <[op_key op := set_commit op (Some FirstFlush)]> active, d)
  end.

(** [accept_locked]. *)
Definition accept_locked (env : Env) (active : ActiveTable) (chunk : AttachmentOperationChunk)
    (d : Disk) : Step * ActiveTable * Disk :=
  if negb (valid_chunk chunk) then (Settle (Err UploadMismatch), active, d)
  else if negb (is_none_or (oc_chunk_sha256 chunk) AttachmentPackets.is_chunk_sha256)
  then (Settle (Err ChunkSha256Mismatch), active, d)
  else match prepare env active chunk d with
       | (Err _, active, d) => (Settle (Err WriteFailed), active, d)
       | (Ok (Err e), active, d) => (Settle (Err e), active, d)
       | (Ok (Ok op), active, d) =>
           match advance env op chunk d with
           | (Ok (Answer r), op, d) => (Settle r, restore active op, d)
           | (Ok AwaitCommit, op, d) => (Wait, restore active op, d)
           | (Ok (Fail e), op, d) =>
               let '(e, d) := fail_operation op e d in (Settle (Err e), active, d)
           | (Ok Commit, op, d) => begin_commit env active op d
           | (Err _, op, d) =>
               if unfinished (op_journal op) then (Settle (Err WriteFailed), active, d)
               else let '(e, d) := fail_operation op WriteFailed d in
                    (Settle (Err e), active, d)
           end
       end.

(** ** The commit's flushes ([finish_commit], [flush_commit]) *)

(** The first round and the committed journal; [None] goes on to the second. *)
Definition flush_first (key : text) (active : ActiveTable) (d : Disk)
    : option AttachmentOperationResult * ActiveTable * Disk :=
  match active !! key with
  | None => (Some (Err WriteFailed), active, d)
  | Some op =>
      let paths := op_paths op in
      let j := op_journal op in
      let failed op d :=
        let '(e, d) := commit_failed op d in (Some (Err e), delete key active, d) in
      match bind (sync_file (final_path paths j))
              (fun _ => sync_directory (ap_media_dir paths)) d with
      | (Err _, d) => failed op d
      | (Ok _, d) =>
          let d := record_attachment_hash (ap_media_dir paths) (aj_content_sha256 j)
                     (aj_final_name j) d in
          let '(reply, d) :=
            attachment_reply_path (ap_media_dir paths) (final_path paths j) (aj_short_path j) d in
          let op := set_journal op (with_committed j reply) in
          match persist_attachment_operation paths (op_journal op) false d with
          | (Err _, d) => failed op d
          | (Ok _, d) => (None, <[key := set_commit op (Some SecondFlush)]> active, d)
          end
      end
  end.

(** The second round and the outcome. *)
Definition flush_second (key : text) (active : ActiveTable) (d : Disk)
    : AttachmentOperationResult * ActiveTable * Disk :=
  match active !! key with
  | None => (Err WriteFailed, active, d)
  | Some op =>
      let paths := op_paths op in
      match bind (sync_file (ap_journal_path paths))
              (fun _ => sync_directory (ap_operation_dir paths)) d with
      | (Ok _, d) => (Ok (receipt_from_journal (op_journal op)), delete key active, d)
      | (Err _, d) => let '(e, d) := commit_failed op d in (Err e, delete key active, d)
      end
  end.

(** ** Status, detaching and the idle sweep *)

(** [status]. *)
Definition status (active : ActiveTable) (session_id upload_id : text) (d : Disk)
    : AttachmentOperationStatus * Disk :=
  match active !! operation_key session_id upload_id with
  | Some op => (status_from_journal (op_journal op), d)
  | None =>
      match load_attachment_operation root session_id upload_id d with
      | (Missing, d) => (empty_status upload_id UploadNotFound, d)
      | (Invalid, d) => (empty_status upload_id WriteFailed, d)
      | (Loaded paths j, d) =>
          if unfinished j
          then let '(_, j, d) := recover_finalization paths j d in (status_from_journal j, d)
          else if String.eqb (aj_error j) "" && bool_decide (aj_final_name j = []) &&
                  negb (temp_matches_journal d (ap_temp_path paths) j)
          then let '(j, d) := fail_journal paths j WriteFailed d in (status_from_journal j, d)
          else (status_from_journal j, d)
      end
  end.

(** [detach_direct_carrier]. *)
Definition detaches (carrier_id : text) (op : ActiveOperation) : bool :=
  bool_decide (aj_carrier (op_journal op) = Direct) &&
  bool_decide (aj_carrier_id (op_journal op) = carrier_id) &&
  match op_commit op with None => true | Some _ => false end.

Definition detach_direct_carrier (carrier_id : text) (active : ActiveTable) : ActiveTable :=
  filter (fun entry => detaches carrier_id entry.2 = false) active.

(** The operations [sweep_idle] drops. *)
Definition is_idle (now : Z) (op : ActiveOperation) : bool :=
  match op_commit op with
  | Some _ => false
  | None => ATTACHMENT_OPERATION_IDLE <? saturating_sub now (op_last_activity op)
  end.

(** One idle operation's end: a relay fails, a direct one is parked. *)
Definition sweep_one (table_and_disk : ActiveTable * Disk) (entry : text * ActiveOperation)
    : ActiveTable * Disk :=
  let '(active, d) := table_and_disk in
  let op := entry.2 in
  (delete entry.1 active,
   match aj_carrier (op_journal op) with
   | Coordinator => (fail_operation op UploadNotFound d).2
   | Direct => d
   end).

(** [sweep_idle]. *)
Definition sweep_idle (now : Z) (active : ActiveTable) (d : Disk) : ActiveTable * Disk :=
  foldl sweep_one (active, d) (List.filter (fun entry => is_idle now entry.2) (map_to_list active)).

(** ** The facade ([upload.rs]) *)

(** [DAttachmentChunk], as far as it is read. *)
Record RelayChunk := mkRelayChunk {
  rc_request_id : text;
  rc_session_id : text;
  rc_filename : text;
  rc_short_path : bool;
  rc_data : list byte;
  rc_last : bool;
  rc_seq : Z;
}.

Record DirectChunk := mkDirectChunk {
  dc_upload_id : text;
  dc_session_id : text;
  dc_filename : text;
  dc_short_path : bool;
  dc_total_bytes : Z;
  dc_data : list byte;
  dc_last : bool;
  dc_seq : Z;
  dc_offset : Z;
  dc_chunk_sha256 : string;
  dc_carrier_id : text;
}.

(** [accept_relay_chunk]: the chunk it offers, after the status it may read. *)
Definition relay_operation_chunk (active : ActiveTable) (c : RelayChunk) (d : Disk)
    : AttachmentOperationChunk * Disk :=
  let '(offset, d) :=
    if rc_seq c =? 0 then (0, d)
    else let '(st, d) := status active (rc_session_id c) (rc_request_id c) d in
         (as_bytes_received st, d) in
  (mkOperationChunk
     (mkDescriptor (rc_request_id c) (rc_session_id c) (rc_filename c) (rc_short_path c) None)
     Coordinator [] (rc_seq c) offset (rc_data c) (rc_last c) None, d).

(** The chunk [accept_direct_chunk] offers. *)
Definition direct_operation_chunk (c : DirectChunk) : AttachmentOperationChunk :=
  mkOperationChunk
    (mkDescriptor (dc_upload_id c) (dc_session_id c) (dc_filename c) (dc_short_path c)
       (Some (dc_total_bytes c)))
    Direct (dc_carrier_id c) (dc_seq c) (dc_offset c) (dc_data c) (dc_last c)
    (Some (dc_chunk_sha256 c)).

Inductive RelayChunkOutcome :=
| RelayProgress
| RelaySaved (abs_path : option Path)
| RelayFailed (e : AttachmentOperationError).

(** What [accept_relay_chunk] makes of the owner's outcome. *)
Definition relay_outcome (r : AttachmentOperationResult) : RelayChunkOutcome :=
  match r with
  | Err e => RelayFailed e
  | Ok receipt => if re_committed receipt then RelaySaved (re_abs_path receipt) else RelayProgress
  end.

Inductive DirectChunkOutcome :=
| DirectProgress (receipt : AttachmentOperationReceipt)
| DirectCommitted (abs_path : option Path) (receipt : AttachmentOperationReceipt)
| DirectFailed (e : AttachmentOperationError).

(** What [accept_direct_chunk] makes of it: progress is told after its flush. *)
Definition direct_outcome (session_id upload_id : text) (r : AttachmentOperationResult) (d : Disk)
    : DirectChunkOutcome * Disk :=
  match r with
  | Err e => (DirectFailed e, d)
  | Ok receipt =>
      if re_committed receipt then (DirectCommitted (re_abs_path receipt) receipt, d)
      else match sync_attachment_operation_progress root session_id upload_id d with
           | (Err _, d) => (DirectFailed WriteFailed, d)
           | (Ok _, d) => (DirectProgress receipt, d)
           end
  end.

End Owner.
