(* ===== verification/UploadFrames.v ===== *)
(** * UploadFrames: what an operation's calls leave alone

    The calls one upload makes touch its own journal and temp, the manifests,
    and names nothing holds: [evolves].  Each call of [UploadStore] and
    [UploadOwner] is shown to stay within that, whatever faults it meets, and
    what it leaves at the paths it does touch is stated beside it. *)
From Stdlib Require Import Ascii String.
From stdpp Require Import pretty.
From S2P Require Export UploadOwner.

(** ** Paths *)

Lemma parent_snoc (p : Path) x : parent (p ++ [x]) = p.
Proof.
  unfold parent. rewrite length_app. cbn [length].
  replace (length p + 1 - 1)%nat with (length p) by lia. by rewrite take_app_length.
Qed.

Lemma journal_next_snoc (dir : Path) name : journal_next (dir ++ [name]) = dir ++ [name ++ chars ".next"].
Proof. unfold journal_next. by rewrite parent_snoc, last_snoc. Qed.

(** A path inside a [.operations] directory. *)
Definition private (p : Path) : Prop := last (parent p) = Some ATTACHMENT_OPERATION_DIR_NAME.

Definition is_manifest (p : Path) : Prop := last p = Some MANIFEST_NAME /\ ~ private p.

(** The files only the operation of [rid] writes. *)
Definition own_names (rid : text) : list text :=
  [rid ++ chars ".json"; rid ++ chars ".json.next"; rid ++ chars ".part"].

Definition footprint (rid : text) (p : Path) : Prop :=
  private p /\ exists name, name ∈ own_names rid /\ last p = Some name.

Lemma own_names_disjoint rid rid' name :
  name ∈ own_names rid -> name ∈ own_names rid' -> rid = rid'.
Proof.
  unfold own_names. rewrite !list_elem_of_In. cbn [In].
  assert (split5 : forall (a b x y : text),
    length x = length y -> a ++ x = b ++ y -> a = b /\ x = y).
  { intros a b x y Hl E. apply app_inj_2 in E; auto. }
  intros [<-|[<-|[<-|[]]]] [E|[E|[E|[]]]].
  all: try (change (chars ".json.next") with (chars ".json" ++ chars ".next") in E).
  all: rewrite ?app_assoc in E; apply split5 in E as [E1 E2]; try reflexivity; try discriminate E2; auto.
  by apply split5 in E1 as [? _].
Qed.

Lemma footprint_disjoint rid rid' p : footprint rid p -> footprint rid' p -> rid = rid'.
Proof.
  intros [_ (n & Hn & E)] [_ (n' & Hn' & E')]. rewrite E in E'. simplify_eq.
  eapply own_names_disjoint; eauto.
Qed.

(** ** Frames *)

Section Frames.
Context `{SD : Serde} `{SH : Sha256}.

Record evolves (rid : text) (d d' : Disk) : Prop := mkEvolves {
  ev_kept : forall p n, ~ footprint rid p -> ~ is_manifest p ->
    d_files d !! p = Some n -> d_files d' !! p = Some n;
  ev_private : forall p, ~ footprint rid p -> private p ->
    d_files d' !! p = d_files d !! p;
  ev_dirty : forall p, ~ footprint rid p -> ~ is_manifest p -> is_Some (d_files d !! p) ->
    p ∈ d_dirty d' -> p ∈ d_dirty d;
  ev_loose : forall p, ~ footprint rid p -> ~ is_manifest p -> is_Some (d_files d !! p) ->
    p ∈ d_loose d' -> p ∈ d_loose d;
  ev_links : d_links d ⊆ d_links d';
  ev_opened : forall file p, ~ footprint rid p -> private p ->
    d_opened d !! file = Some p -> d_opened d' !! file = Some p;
}.

#[global] Instance evolves_is_preorder rid : PreOrder (evolves rid).
Proof.
  split.
  - intros d. split; auto.
  - intros d1 d2 d3 [k1 p1 i1 l1 s1 o1] [k2 p2 i2 l2 s2 o2]. split.
    + eauto.
    + intros p Hf Hp. by rewrite p2, p1.
    + intros p Hf Hm [n E]. eauto.
    + intros p Hf Hm [n E]. eauto.
    + by transitivity (d_links d2).
    + eauto.
Qed.

(** A change at [p] alone. *)
Record at_most (ps : gset Path) (d d' : Disk) : Prop := mkAtMost {
  am_files : forall p, p ∉ ps -> d_files d' !! p = d_files d !! p;
  am_dirty : d_dirty d' ⊆ ps ∪ d_dirty d;
  am_loose : d_loose d' ⊆ ps ∪ d_loose d;
  am_links : d_links d' = d_links d;
  am_opened : forall file p, p ∉ ps -> d_opened d !! file = Some p -> d_opened d' !! file = Some p;
}.

#[global] Instance at_most_preorder ps : PreOrder (at_most ps).
Proof.
  split.
  - intros d. split; [done|set_solver|set_solver|done|done].
  - intros d1 d2 d3 [f1 i1 l1 s1 o1] [f2 i2 l2 s2 o2]. split.
    + intros p Hp. by rewrite f2, f1.
    + set_solver.
    + set_solver.
    + congruence.
    + eauto.
Qed.

Lemma at_most_mono ps ps' d d' : ps ⊆ ps' -> at_most ps d d' -> at_most ps' d d'.
Proof.
  intros Hs [f i l s o].
  split; [intros; apply f; set_solver|set_solver|set_solver|done|intros; apply o; set_solver].
Qed.

Lemma at_most_evolves rid ps d d' :
  (forall p, p ∈ ps -> footprint rid p \/ is_manifest p) -> at_most ps d d' -> evolves rid d d'.
Proof.
  intros Hin [f i l s o]. split.
  - intros p n Hf Hm E. rewrite f; [done|]. intros Hp. destruct (Hin p Hp); tauto.
  - intros p Hf Hp. apply f. intros Hq. destruct (Hin p Hq) as [|[_ ?]]; tauto.
  - intros p Hf Hm _ Hd. apply i in Hd. apply elem_of_union in Hd as [Hd|Hd]; [|done].
    destruct (Hin p Hd); tauto.
  - intros p Hf Hm _ Hd. apply l in Hd. apply elem_of_union in Hd as [Hd|Hd]; [|done].
    destruct (Hin p Hd); tauto.
  - by rewrite s.
  - intros file p Hf Hp. apply o. intros Hq. destruct (Hin p Hq) as [|[_ ?]]; tauto.
Qed.

(** ** Calls *)

Lemma bind_inv {A B} (m : Io A) (k : A -> Io B) d r d' :
  bind m k d = (r, d') ->
  (exists e, m d = (Err e, d') /\ r = Err e) \/
  (exists a d1, m d = (Ok a, d1) /\ k a d1 = (r, d')).
Proof.
  unfold bind. destruct (m d) as [[a|e] d1]; intros E; [right; eauto|left].
  simplify_eq. eauto.
Qed.

(** A call fails, or has its effect on a disk that differs in its faults. *)
Lemma call_inv {A} torn (effect : Io A) d r d' :
  call torn effect d = (r, d') ->
  (exists fs, effect (set_faults d fs) = (r, d')) \/
  (r = Err tt /\ (d' = d \/ exists k fs alive, d' = set_alive (torn k (set_faults d fs)) alive)).
Proof.
  unfold call. destruct (d_alive d) eqn:Ha; cbn [negb].
  2:{ intros E. simplify_eq. auto. }
  destruct (d_faults d) as [|[|k|k] rest] eqn:Hf; intros E.
  - left. exists []. destruct d; cbn in *; by subst.
  - eauto.
  - simplify_eq. right. split; [done|right]. exists k, rest, (d_alive (torn k (set_faults d rest))).
    by destruct (torn k (set_faults d rest)).
  - simplify_eq. right. eauto 7.
Qed.

Lemma at_most_same ps d d' :
  d_files d' = d_files d -> d_dirty d' ⊆ d_dirty d -> d_loose d' ⊆ d_loose d ->
  d_links d' = d_links d -> d_opened d' = d_opened d -> at_most ps d d'.
Proof. intros Hf Hd Hl Hs Ho. split; [by rewrite Hf|set_solver|set_solver|done|by rewrite Ho]. Qed.

Lemma at_most_put p n d fs alive :
  at_most {[p]} d (set_alive (put_node (set_faults d fs) p n) alive).
Proof.
  split; cbn; [|set_solver|set_solver|done|done].
  intros q Hq. rewrite lookup_insert_ne; [done|set_solver].
Qed.

(** Every call: inverts it, and decides what failing leaves. *)
Ltac call_cases H :=
  apply call_inv in H as [[? H]|[-> [->|(? & ? & ? & ->)]]].

Lemma create_truncate_spec p d r d' :
  create_truncate_private_file p d = (r, d') ->
  at_most {[p]} d d' /\ (r = Ok tt -> d_files d' !! p = Some (Bytes [])).
Proof.
  intros H. call_cases H.
  - cbn in H. case_match; simplify_eq.
    + split; [|done]. by apply at_most_same.
    + split; [|intros _; cbn; by rewrite lookup_insert_eq].
      split; cbn; [|set_solver|set_solver|done|done].
      intros q Hq. rewrite lookup_insert_ne; [done|set_solver].
  - done.
  - split; [|done]. by apply at_most_same.
Qed.

Lemma write_node_spec p n d r d' :
  write_node p n d = (r, d') ->
  at_most {[p]} d d' /\ (r = Ok tt -> d_files d' !! p = Some n).
Proof.
  intros H. call_cases H.
  - cbn in H. simplify_eq. split; [apply (at_most_put p n d x (d_alive d))|].
    intros _. cbn. by rewrite lookup_insert_eq.
  - done.
  - split; [|done]. apply at_most_put.
Qed.

Lemma write_private_file_spec p n d r d' :
  write_private_file p n d = (r, d') ->
  at_most {[p]} d d' /\ (r = Ok tt -> d_files d' !! p = Some n).
Proof.
  intros H. apply bind_inv in H as [(e & H & ->)|([] & d1 & H1 & H)].
  - apply create_truncate_spec in H as [H _]. done.
  - apply create_truncate_spec in H1 as [H1 _]. apply write_node_spec in H as [H ?].
    split; [by transitivity d1|done].
Qed.

(** A call that only flushes, reads or makes a directory. *)
Record quiet (d d' : Disk) : Prop := mkQuiet {
  qu_files : d_files d' = d_files d;
  qu_dirty : d_dirty d' ⊆ d_dirty d;
  qu_loose : d_loose d' ⊆ d_loose d;
  qu_links : d_links d' = d_links d;
  qu_opened : d_opened d ⊆ d_opened d';
}.

#[global] Instance quiet_preorder : PreOrder quiet.
Proof.
  split.
  - intros d. by split.
  - intros d1 d2 d3 [f1 i1 l1 s1 o1] [f2 i2 l2 s2 o2].
    split; [congruence|set_solver|set_solver|congruence|by transitivity (d_opened d2)].
Qed.

Lemma quiet_at_most ps d d' : quiet d d' -> at_most ps d d'.
Proof.
  intros [f i l s o]. split; [by rewrite f|set_solver|set_solver|done|].
  intros file p _ E. by eapply lookup_weaken.
Qed.

Lemma quiet_evolves rid d d' : quiet d d' -> evolves rid d d'.
Proof. intros Q. apply (at_most_evolves rid ∅); [set_solver|by apply quiet_at_most]. Qed.

(** A call that only reads. *)
Lemma read_quiet {A} (effect : Io A) d r d' :
  (forall d, (effect d).2 = d) -> call untorn effect d = (r, d') -> quiet d d'.
Proof.
  intros He H. apply call_inv in H as [[fs H]|[_ [->|(? & ? & ? & ->)]]].
  - pose proof (He (set_faults d fs)) as E. rewrite H in E. cbn in E. subst. by split.
  - done.
  - by split.
Qed.

Lemma create_private_dir_quiet p d r d' : create_private_dir p d = (r, d') -> quiet d d'.
Proof. intros H. call_cases H; [cbn in H; case_match; simplify_eq| |]; by split. Qed.

Lemma sync_file_quiet p d r d' :
  sync_file p d = (r, d') -> quiet d d' /\ (r = Ok tt -> p ∉ d_dirty d').
Proof.
  intros H. call_cases H.
  - cbn in H. case_match; simplify_eq; (split; [split; cbn; set_solver|]); [|done].
    intros _. cbn. set_solver.
  - done.
  - split; [by split|done].
Qed.

Lemma sync_directory_quiet dir d r d' :
  sync_directory dir d = (r, d') ->
  quiet d d' /\ (r = Ok tt -> forall p, parent p = dir -> p ∉ d_loose d').
Proof.
  intros H. call_cases H.
  - cbn in H. case_match; simplify_eq; (split; [split; cbn; set_solver|]); [|done].
    intros _ p Hp. cbn. rewrite elem_of_filter. tauto.
  - done.
  - split; [by split|done].
Qed.

Lemma read_file_quiet p d r d' :
  read_file p d = (r, d') ->
  quiet d d' /\ (forall b, r = Ok b -> exists n, d_files d !! p = Some n /\ contents n = b).
Proof.
  intros H. call_cases H.
  - cbn in H. case_match eqn:E; simplify_eq; (split; [by split|]); [|done].
    intros b Hb. simplify_eq. eauto.
  - split; [done|done].
  - split; [by split|done].
Qed.

Lemma sha256_file_quiet p d r d' :
  sha256_attachment_file p d = (r, d') ->
  quiet d d' /\ (forall s, r = Ok s ->
    exists n, d_files d !! p = Some n /\ sha256_hex (contents n) = s).
Proof.
  intros H. apply bind_inv in H as [(e & H & ->)|(b & d1 & H1 & H)].
  - apply read_file_quiet in H as [H _]. split; done.
  - apply read_file_quiet in H1 as [Q F]. unfold ret in H. simplify_eq. split; [done|].
    intros s Hs. simplify_eq. destruct (F b eq_refl) as (n & E & <-). eauto.
Qed.

Lemma rename_spec from to d r d' :
  rename from to d = (r, d') ->
  at_most {[from; to]} d d' /\
  (r <> Ok tt -> quiet d d') /\
  (r = Ok tt -> from <> to -> exists n, d_files d !! from = Some n /\
     d_files d' !! to = Some n /\ d_files d' !! from = None).
Proof.
  intros H. call_cases H.
  - cbn in H. destruct (d_files d !! from) as [n|] eqn:E.
    + case_match; simplify_eq.
      * split; [by apply at_most_same|split; [by split|done]].
      * split; [|split; [done|]].
        -- split; cbn.
           ++ intros q Hq. rewrite lookup_insert_ne, lookup_delete_ne; set_solver.
           ++ case_match; set_solver.
           ++ set_solver.
           ++ done.
           ++ intros file p Hp Eo. rewrite lookup_omap, Eo. cbn. unfold renamed.
              by rewrite !bool_decide_eq_false_2 by set_solver.
        -- intros _ Hne. exists n. cbn. rewrite lookup_insert_eq, lookup_insert_ne by done.
           by rewrite lookup_delete_eq.
    + simplify_eq. split; [by apply at_most_same|split; [by split|done]].
  - by split; [|split].
  - split; [by apply at_most_same|split; [by split|done]].
Qed.

Lemma remove_file_spec p d r d' :
  remove_file p d = (r, d') ->
  at_most {[p]} d d' /\ (d_files d' !! p = d_files d !! p \/ d_files d' !! p = None).
Proof.
  intros H. call_cases H.
  - cbn in H. destruct (d_files d !! p) eqn:E; simplify_eq.
    + split; [|right; cbn; by rewrite lookup_delete_eq].
      split; cbn; [|set_solver|set_solver|done|].
      * intros q Hq. rewrite lookup_delete_ne; [done|set_solver].
      * intros file q Hq E'. rewrite lookup_omap, E'. cbn. unfold removed.
        by rewrite bool_decide_eq_false_2 by set_solver.
    + split; [by apply at_most_same|left]. cbn. by rewrite E.
  - split; [done|by left].
  - split; [by apply at_most_same|by left].
Qed.

(** ** The paths of an operation *)

Record laid_out (rid : text) (paths : AttachmentOperationPaths) : Prop := mkLaidOut {
  lo_media : last (ap_media_dir paths) <> Some ATTACHMENT_OPERATION_DIR_NAME;
  lo_operation : ap_operation_dir paths = ap_session_dir paths ++ [ATTACHMENT_OPERATION_DIR_NAME];
  lo_journal : ap_journal_path paths = ap_operation_dir paths ++ [rid ++ chars ".json"];
  lo_temp_dir : ap_temp_dir paths = ap_media_dir paths ++ [ATTACHMENT_OPERATION_DIR_NAME];
  lo_temp : ap_temp_path paths = ap_temp_dir paths ++ [rid ++ chars ".part"];
}.

Lemma paths_laid_out root sid rid media paths :
  create_attachment_operation_paths root sid rid media = Some paths ->
  last media <> Some ATTACHMENT_OPERATION_DIR_NAME ->
  laid_out rid paths /\ ap_media_dir paths = media /\
  resolve_session_dir root sid = Some (ap_session_dir paths).
Proof.
  unfold create_attachment_operation_paths. intros H Hm. case_match; [done|].
  destruct (resolve_session_dir root sid) eqn:E; cbn in H; [|done]. simplify_eq.
  by repeat split.
Qed.

Lemma private_in_operations (dir : Path) x :
  private ((dir ++ [ATTACHMENT_OPERATION_DIR_NAME]) ++ [x]).
Proof. unfold private. by rewrite parent_snoc, last_snoc. Qed.

Section Laid.
Context (rid : text) (paths : AttachmentOperationPaths) (L : laid_out rid paths).

Lemma journal_next_eq :
  journal_next (ap_journal_path paths) = ap_operation_dir paths ++ [rid ++ chars ".json.next"].
Proof.
  rewrite (lo_journal _ _ L), journal_next_snoc, <- app_assoc. done.
Qed.

Lemma own_paths p :
  p ∈ ({[journal_next (ap_journal_path paths); ap_journal_path paths; ap_temp_path paths]} : gset Path) ->
  footprint rid p.
Proof.
  rewrite journal_next_eq, (lo_journal _ _ L), (lo_operation _ _ L), (lo_temp _ _ L), (lo_temp_dir _ _ L).
  rewrite !elem_of_union, !elem_of_singleton.
  unfold footprint, own_names.
  intros [[->| ->]| ->]; (split; [apply private_in_operations|]); rewrite last_snoc; eexists;
    (split; [|reflexivity]); rewrite list_elem_of_In; cbn; auto.
Qed.

Lemma own_paths_differ :
  journal_next (ap_journal_path paths) <> ap_journal_path paths /\
  ap_temp_path paths <> ap_journal_path paths /\
  ap_temp_path paths <> journal_next (ap_journal_path paths).
Proof.
  rewrite journal_next_eq, (lo_journal _ _ L), (lo_temp _ _ L).
  repeat split; intros E; apply app_inj_tail in E as [_ E]; apply app_inv_head in E; discriminate E.
Qed.

Lemma final_public j : ~ private (final_path paths j).
Proof. unfold private, final_path. rewrite parent_snoc. apply L. Qed.

Lemma persist_spec j sync d r d' :
  persist_attachment_operation paths j sync d = (r, d') ->
  at_most {[journal_next (ap_journal_path paths); ap_journal_path paths]} d d' /\
  (d_files d' !! ap_journal_path paths = d_files d !! ap_journal_path paths \/
   d_files d' !! ap_journal_path paths = Some (JournalText j)) /\
  (r = Ok tt -> d_files d' !! ap_journal_path paths = Some (JournalText j)).
Proof.
  set (jp := ap_journal_path paths). set (nx := journal_next jp).
  destruct own_paths_differ as (Hne & _ & _). fold jp nx in Hne.
  intros H. unfold persist_attachment_operation in H. fold jp nx in H.
  apply bind_inv in H as [(e & H & ->)|([] & d1 & H1 & H)].
  { apply create_private_dir_quiet in H. split; [by apply quiet_at_most|].
    split; [left; by rewrite (qu_files _ _ H)|done]. }
  apply create_private_dir_quiet in H1.
  assert (A1 : at_most {[nx; jp]} d d1) by by apply quiet_at_most.
  assert (J1 : d_files d1 !! jp = d_files d !! jp) by by rewrite (qu_files _ _ H1).
  apply bind_inv in H as [(e & H & ->)|([] & d2 & H2 & H)].
  { apply write_private_file_spec in H as [H _].
    split; [transitivity d1; [done|]; eapply at_most_mono, H; set_solver|].
    split; [left; rewrite <- J1; apply (am_files _ _ _ H); set_solver|done]. }
  apply write_private_file_spec in H2 as [H2 W].
  assert (A2 : at_most {[nx; jp]} d d2)
    by (transitivity d1; [done|]; eapply at_most_mono, H2; set_solver).
  assert (J2 : d_files d2 !! jp = d_files d !! jp)
    by (rewrite <- J1; apply (am_files _ _ _ H2); set_solver).
  assert (S3 : forall r3 d3, (if sync then sync_file nx else ret tt) d2 = (r3, d3) -> quiet d2 d3).
  { intros r3 d3 E. destruct sync; [by apply sync_file_quiet in E as [E _]|].
    unfold ret in E. by simplify_eq. }
  apply bind_inv in H as [(e & H & ->)|([] & d3 & H3 & H)].
  { apply S3 in H. split; [transitivity d2; [done|by apply quiet_at_most]|].
    split; [left; by rewrite (qu_files _ _ H)|done]. }
  apply S3 in H3.
  assert (A3 : at_most {[nx; jp]} d d3) by (transitivity d2; [done|by apply quiet_at_most]).
  assert (J3 : d_files d3 !! jp = d_files d !! jp) by by rewrite (qu_files _ _ H3).
  apply bind_inv in H as [(e & H & ->)|([] & d4 & H4 & H)].
  { apply rename_spec in H as (H & Hq & _). split; [by transitivity d3|].
    split; [left|done]. rewrite (qu_files _ _ (Hq ltac:(done))). done. }
  apply rename_spec in H4 as (H4 & _ & M). destruct (M eq_refl Hne) as (n & E & E' & _).
  rewrite (qu_files _ _ H3), (W eq_refl) in E. injection E as <-.
  assert (Q5 : quiet d4 d').
  { destruct sync; [by apply sync_directory_quiet in H as [H _]|]. unfold ret in H. by simplify_eq. }
  split; [transitivity d3; [done|]; transitivity d4; [done|by apply quiet_at_most]|].
  rewrite (qu_files _ _ Q5), E'. auto.
Qed.

Lemma persist_evolves j sync d r d' :
  persist_attachment_operation paths j sync d = (r, d') -> evolves rid d d'.
Proof.
  intros H. apply persist_spec in H as (H & _). eapply at_most_evolves, H.
  intros p Hp. left. apply own_paths. set_solver.
Qed.

Lemma persist_temp j sync d r d' :
  persist_attachment_operation paths j sync d = (r, d') ->
  d_files d' !! ap_temp_path paths = d_files d !! ap_temp_path paths.
Proof.
  intros H. apply persist_spec in H as (H & _). apply (am_files _ _ _ H).
  destruct own_paths_differ as (_ & ? & ?). set_solver.
Qed.


Lemma persist_opened j sync d r d' file :
  persist_attachment_operation paths j sync d = (r, d') ->
  d_opened d !! file = Some (ap_temp_path paths) -> d_opened d' !! file = Some (ap_temp_path paths).
Proof.
  intros H. apply persist_spec in H as (H & _). apply (am_opened _ _ _ H).
  destruct own_paths_differ as (_ & ? & ?). set_solver.
Qed.

(** What a call that may end the operation leaves: its journal as it was or one
    of [js], its temp as it was or gone. *)
Record leaves (js : list AttachmentOperationJournal) (d d' : Disk) : Prop := mkLeaves {
  le_evolves : evolves rid d d';
  le_journal : d_files d' !! ap_journal_path paths = d_files d !! ap_journal_path paths \/
    exists j, j ∈ js /\ d_files d' !! ap_journal_path paths = Some (JournalText j);
  le_temp : d_files d' !! ap_temp_path paths = d_files d !! ap_temp_path paths \/
    d_files d' !! ap_temp_path paths = None;
}.

#[global] Instance leaves_preorder js : PreOrder (leaves js).
Proof.
  split.
  - intros d. split; [done|auto|auto].
  - intros d1 d2 d3 [e1 j1 t1] [e2 j2 t2]. split.
    + by transitivity d2.
    + destruct j2 as [->|]; auto.
    + destruct t2 as [->|]; auto.
Qed.

Lemma leaves_mono js js' d d' : js ⊆ js' -> leaves js d d' -> leaves js' d d'.
Proof. intros Hs [e j t]. split; [done| |done]. destruct j as [|(j & ? & ?)]; [auto|right; eauto]. Qed.

Lemma quiet_leaves js d d' : quiet d d' -> leaves js d d'.
Proof.
  intros Q. split; [by apply quiet_evolves| |]; left; by rewrite (qu_files _ _ Q).
Qed.

Lemma persist_leaves j sync d r d' :
  persist_attachment_operation paths j sync d = (r, d') -> leaves [j] d d'.
Proof.
  intros H. split.
  - by eapply persist_evolves.
  - apply persist_spec in H as (_ & [J|J] & _); [auto|]. right. exists j. split; [set_solver|done].
  - left. by eapply persist_temp.
Qed.

Lemma remove_temp_leaves js d : leaves js d (remove_attachment_temp paths d).
Proof.
  unfold remove_attachment_temp. destruct (remove_file _ d) as [r d'] eqn:E.
  apply remove_file_spec in E as [A T]. cbn. split.
  - eapply at_most_evolves, A. intros p Hp. left. apply own_paths. set_solver.
  - left. apply (am_files _ _ _ A). destruct own_paths_differ as (_ & ? & _). set_solver.
  - done.
Qed.

Lemma fail_journal_spec j e d j' d' :
  fail_journal paths j e d = (j', d') -> j' = with_error j e /\ leaves [with_error j e] d d'.
Proof.
  unfold fail_journal. intros H. injection H as <- <-. split; [done|].
  destruct (persist_attachment_operation _ _ _ d) as [r d1] eqn:E. cbn.
  transitivity d1; [by eapply persist_leaves|apply remove_temp_leaves].
Qed.

Lemma fail_operation_spec op e d e' d' :
  op_paths op = paths ->
  fail_operation op e d = (e', d') ->
  e' = e /\ leaves [with_error (op_journal op) e] d d'.
Proof.
  unfold fail_operation. intros ->.
  destruct (fail_journal paths (op_journal op) e d) as [j' d1] eqn:E. cbn.
  apply fail_journal_spec in E as [_ Hl]. intros H. by injection H as <- <-.
Qed.

Lemma commit_failed_spec op d e d' :
  op_paths op = paths ->
  commit_failed op d = (e, d') ->
  e = WriteFailed /\ leaves [with_error (with_uncommitted (op_journal op)) WriteFailed] d d'.
Proof.
  unfold commit_failed. intros Hp H. case_match.
  - injection H as <- <-. done.
  - by eapply fail_operation_spec in H.
Qed.

Lemma not_exists_free d p : path_exists d p = false -> d_files d !! p = None.
Proof.
  unfold path_exists. rewrite !orb_false_iff, !bool_decide_eq_false.
  intros [[H _] _]. destruct (d_files d !! p); [|done]. destruct H. eauto.
Qed.

Lemma own_not_public p q : footprint rid p -> ~ private q -> p <> q.
Proof. intros [Hp _] Hq ->. done. Qed.

Lemma place_spec j d r d' :
  place_attachment_destination (ap_media_dir paths) (ap_temp_path paths) (aj_final_name j)
    (aj_content_sha256 j) d = (r, d') ->
  leaves [] d d' /\
  (forall v, r = Ok v -> exists n, d_files d' !! final_path paths j = Some n /\
     if v then sha256_hex (contents n) = aj_content_sha256 j
     else d_files d !! ap_temp_path paths = Some n).
Proof.
  unfold place_attachment_destination. fold (final_path paths j).
  assert (Hft : footprint rid (ap_temp_path paths)) by (apply own_paths; set_solver).
  assert (Hfj : footprint rid (ap_journal_path paths)) by (apply own_paths; set_solver).
  pose proof (final_public j) as Hpub.
  destruct (path_exists d (final_path paths j)) eqn:Ex; intros H;
    apply bind_inv in H as [(e & H & ->)|(a & d1 & H1 & H)].
  - apply sha256_file_quiet in H as [Q _]. split; [by apply quiet_leaves|done].
  - apply sha256_file_quiet in H1 as [Q F]. case_match eqn:Es; unfold ret, io_error in H; simplify_eq.
    + split; [by apply quiet_leaves|]. intros v Hv. simplify_eq.
      destruct (F a eq_refl) as (n & E & En). exists n.
      rewrite (qu_files _ _ Q). split; [done|]. apply String.eqb_eq in Es. congruence.
    + split; [by apply quiet_leaves|done].
  - apply rename_spec in H as (_ & Q & _). split; [apply quiet_leaves, Q; done|done].
  - unfold ret in H. simplify_eq. destruct a.
    apply rename_spec in H1 as (A & _ & M).
    destruct (M eq_refl (own_not_public _ _ Hft Hpub)) as (n & E1 & E2 & E3).
    apply not_exists_free in Ex. split.
    + split.
      * split.
        -- intros p m Hf Hm E. rewrite (am_files _ _ _ A); [done|].
           rewrite elem_of_union, !elem_of_singleton. intros [->| ->]; [done|congruence].
        -- intros p Hf Hp. apply (am_files _ _ _ A).
           rewrite elem_of_union, !elem_of_singleton. intros [->| ->]; done.
        -- intros p Hf Hm [m E] Hd. apply (am_dirty _ _ _ A) in Hd.
           rewrite !elem_of_union, !elem_of_singleton in Hd. destruct Hd as [[->| ->]|]; [done|congruence|done].
        -- intros p Hf Hm [m E] Hd. apply (am_loose _ _ _ A) in Hd.
           rewrite !elem_of_union, !elem_of_singleton in Hd. destruct Hd as [[->| ->]|]; [done|congruence|done].
        -- by rewrite (am_links _ _ _ A).
        -- intros file p Hf Hp. apply (am_opened _ _ _ A).
           rewrite elem_of_union, !elem_of_singleton. intros [->| ->]; done.
      * left. apply (am_files _ _ _ A). destruct own_paths_differ as (_ & ? & _).
        rewrite elem_of_union, !elem_of_singleton. intros [?|Heq]; [congruence|].
        by apply (own_not_public _ _ Hfj Hpub).
      * auto.
    + intros v Hv. simplify_eq. eauto.
Qed.

(** ** The manifest and the reply *)

Definition manifest_path : Path := ap_media_dir paths ++ [MANIFEST_NAME].

Lemma manifest_path_is : is_manifest manifest_path.
Proof.
  unfold is_manifest, manifest_path, private. rewrite last_snoc, parent_snoc. split; [done|apply L].
Qed.

Lemma at_manifest_leaves js d d' : at_most {[manifest_path]} d d' -> leaves js d d'.
Proof.
  intros A. split.
  - eapply at_most_evolves, A. intros p Hp%elem_of_singleton. subst. right. apply manifest_path_is.
  - left. apply (am_files _ _ _ A). rewrite elem_of_singleton.
    apply own_not_public; [apply own_paths; set_solver|apply manifest_path_is].
  - left. apply (am_files _ _ _ A). rewrite elem_of_singleton.
    apply own_not_public; [apply own_paths; set_solver|apply manifest_path_is].
Qed.

Lemma load_manifest_quiet dir d m d' : load_manifest dir d = (m, d') -> quiet d d'.
Proof.
  unfold load_manifest. destruct (call _ _ d) as [r d1] eqn:E.
  assert (quiet d d1).
  { by apply read_quiet in E. }
  destruct r; intros; by simplify_eq.
Qed.

Lemma record_hash_at_most digest name d :
  at_most {[manifest_path]} d (record_attachment_hash (ap_media_dir paths) digest name d).
Proof.
  unfold record_attachment_hash. destruct (load_manifest _ d) as [m d1] eqn:E.
  apply load_manifest_quiet in E. unfold save_manifest. fold manifest_path.
  destruct (write_private_file _ _ d1) as [r d2] eqn:E2. cbn.
  apply write_private_file_spec in E2 as [A _].
  transitivity d1; [by apply quiet_at_most|done].
Qed.

(** The reply is the file, or a link to it. *)
Definition reply_to (d : Disk) (file_path reply : Path) : Prop :=
  reply = file_path \/ d_links d !! reply = Some file_path.

Record linked (d d' : Disk) : Prop := mkLinked {
  li_files : d_files d' = d_files d;
  li_dirty : d_dirty d' ⊆ d_dirty d;
  li_loose : d_loose d' ⊆ d_loose d;
  li_links : d_links d ⊆ d_links d';
  li_opened : d_opened d ⊆ d_opened d';
}.

Lemma quiet_linked d d' : quiet d d' -> linked d d'.
Proof. intros [f i l s o]. split; [done..|by rewrite s|done]. Qed.

Lemma linked_leaves js d d' : linked d d' -> leaves js d d'.
Proof.
  intros [f i l s o]. split; [|left; by rewrite f|left; by rewrite f].
  split; [by rewrite f|by rewrite f|intros p _ _ _; set_solver..|done|].
  intros file p _ _ E. by eapply lookup_weaken.
Qed.

Lemma link_shortcut_spec dir file_path d r d' :
  link_shortcut dir file_path d = (r, d') ->
  linked d d' /\ (forall p, r = Ok p -> d_links d' !! p = Some file_path).
Proof.
  intros H. apply bind_inv in H as [(e & H & ->)|([] & d1 & H1 & H)].
  { apply create_private_dir_quiet in H. split; [by apply quiet_linked|done]. }
  apply create_private_dir_quiet in H1.
  apply bind_inv in H as [(e & H & ->)|(names & d2 & H2 & H)].
  { apply read_quiet in H; [|done]. split; [|done]. apply quiet_linked. by transitivity d1. }
  apply read_quiet in H2; [|done].
  assert (Q2 : quiet d d2) by by transitivity d1.
  call_cases H.
  - cbn in H. case_match eqn:Ex; simplify_eq.
    + split; [|done]. apply quiet_linked. transitivity d2; [done|by split].
    + split.
      * destruct Q2 as [f i l s o]. split; cbn; [done..| |done].
        rewrite <- s. apply insert_subseteq.
        unfold path_exists in Ex. rewrite !orb_false_iff, !bool_decide_eq_false in Ex.
        destruct Ex as [_ Ex]. cbn in Ex. destruct (d_links d2 !! _); [destruct Ex; eauto|done].
      * intros p Hp. simplify_eq. cbn. by rewrite lookup_insert_eq.
  - split; [by apply quiet_linked|done].
  - split; [|done]. apply quiet_linked. transitivity d2; [done|by split].
Qed.

Lemma reply_path_spec dir file_path short d reply d' :
  attachment_reply_path dir file_path short d = (reply, d') ->
  linked d d' /\ reply_to d' file_path reply.
Proof.
  unfold attachment_reply_path, short_attachment_path, reply_to. intros H. destruct short.
  - destruct (link_shortcut dir file_path d) as [[p|e] d1] eqn:E;
      apply link_shortcut_spec in E as [Li F]; simplify_eq; split; auto.
  - simplify_eq. split; [by apply quiet_linked|auto].
Qed.


(** ** Occupying the final name *)

(** The final file holds these bytes, flushed with its entry. *)
Definition placed (d : Disk) (j : AttachmentOperationJournal) : Prop :=
  exists n, d_files d !! final_path paths j = Some n /\
    sha256_hex (contents n) = aj_content_sha256 j /\
    final_path paths j ∉ d_dirty d /\ final_path paths j ∉ d_loose d.

Lemma final_kept other j : aj_final_name j <> MANIFEST_NAME ->
  ~ footprint other (final_path paths j) /\ ~ is_manifest (final_path paths j).
Proof.
  intros Hn. split.
  - intros [Hp _]. by apply (final_public j).
  - intros [Hm _]. unfold final_path in Hm. rewrite last_snoc in Hm. congruence.
Qed.

Lemma placed_evolves other d d' j :
  aj_final_name j <> MANIFEST_NAME -> evolves other d d' -> placed d j -> placed d' j.
Proof.
  intros Hn [k p i l s _] (n & E & H & Hd & Hl).
  destruct (final_kept other j Hn) as [Hf Hm]. exists n. repeat split; eauto.
Qed.

Lemma reply_to_evolves other d d' file reply :
  evolves other d d' -> reply_to d file reply -> reply_to d' file reply.
Proof.
  intros E [->|H]; [by left|right]. eapply lookup_weaken; [exact H|apply E].
Qed.

Lemma commit_destination_spec j d r d' :
  aj_final_name j <> MANIFEST_NAME ->
  commit_attachment_destination (ap_media_dir paths) (ap_temp_path paths) (aj_final_name j)
    (aj_content_sha256 j) d = (r, d') ->
  leaves [] d d' /\
  (forall v, r = Ok v ->
     (v = true -> placed d' j) /\
     exists n, d_files d' !! final_path paths j = Some n /\
       final_path paths j ∉ d_dirty d' /\ final_path paths j ∉ d_loose d').
Proof.
  intros Hn H. unfold commit_attachment_destination in H. fold (final_path paths j) in H.
  apply bind_inv in H as [(e & H & ->)|(v & d1 & H1 & H)].
  { apply place_spec in H as [Le _]. done. }
  apply place_spec in H1 as [L1 F]. destruct (F v eq_refl) as (n & E & En).
  apply bind_inv in H as [(e & H & ->)|([] & d2 & H2 & H)].
  { apply sync_file_quiet in H as [Q _]. split; [transitivity d1; [done|by apply quiet_leaves]|done]. }
  apply sync_file_quiet in H2 as [Q2 S2]. specialize (S2 eq_refl).
  apply bind_inv in H as [(e & H & ->)|([] & d3 & H3 & H)].
  { apply sync_directory_quiet in H as [Q _]. split; [|done].
    transitivity d1; [done|]. transitivity d2; by apply quiet_leaves. }
  apply sync_directory_quiet in H3 as [Q3 S3].
  specialize (S3 eq_refl (final_path paths j) (parent_snoc _ _)).
  injection H as <- <-.
  pose proof (record_hash_at_most (aj_content_sha256 j) (aj_final_name j) d3) as A4.
  assert (Hnm : final_path paths j ∉ ({[manifest_path]} : gset Path)).
  { rewrite elem_of_singleton. unfold final_path, manifest_path. intros Eq.
    apply app_inj_tail in Eq as [_ ?]. done. }
  split.
  - transitivity d1; [done|]. transitivity d2; [by apply quiet_leaves|].
    transitivity d3; [by apply quiet_leaves|by apply at_manifest_leaves].
  - intros v' Hv. injection Hv as <-.
    assert (E4 : d_files (record_attachment_hash (ap_media_dir paths) (aj_content_sha256 j)
                   (aj_final_name j) d3) !! final_path paths j = Some n).
    { rewrite (am_files _ _ _ A4 _ Hnm), (qu_files _ _ Q3), (qu_files _ _ Q2). done. }
    assert (D4 : final_path paths j ∉ d_dirty (record_attachment_hash (ap_media_dir paths)
                   (aj_content_sha256 j) (aj_final_name j) d3)).
    { intros Hd. apply (am_dirty _ _ _ A4), elem_of_union in Hd as [Hd|Hd]; [done|].
      by apply (qu_dirty _ _ Q3) in Hd. }
    assert (L4 : final_path paths j ∉ d_loose (record_attachment_hash (ap_media_dir paths)
                   (aj_content_sha256 j) (aj_final_name j) d3)).
    { intros Hd. apply (am_loose _ _ _ A4), elem_of_union in Hd as [Hd|Hd]; done. }
    split; [intros ->; exists n; auto|eauto].
Qed.

(** What recovery makes of the journal [j]. *)
Inductive recovered (d : Disk) (j : AttachmentOperationJournal)
    : AttachmentOperationJournal -> Prop :=
| recovered_failed : recovered d j (with_error j WriteFailed)
| recovered_committed reply : placed d j -> reply_to d (final_path paths j) reply ->
    recovered d j (with_committed j reply)
| recovered_unjournaled reply : placed d j -> reply_to d (final_path paths j) reply ->
    recovered d j (with_error (with_committed j reply) WriteFailed).

Lemma recover_spec j d ok j' d' :
  aj_final_name j <> MANIFEST_NAME ->
  recover_finalization paths j d = (ok, j', d') ->
  exists js, leaves js d d' /\ (forall jx, jx ∈ j' :: js -> recovered d' j jx) /\
    (if ok then exists reply, j' = with_committed j reply else aj_error j' <> ""%string).
Proof.
  intros Hn. unfold recover_finalization.
  destruct (commit_attachment_destination _ _ _ _ d) as [[v|e] d1] eqn:E1;
    apply commit_destination_spec in E1 as [L1 F1]; try done.
  2:{ destruct (fail_journal paths j WriteFailed d1) as [jf df] eqn:Ef.
      apply fail_journal_spec in Ef as [-> Lf]. intros H. injection H as <- <- <-.
      exists [with_error j WriteFailed]. split; [|split; [|done]].
      - transitivity d1; [eapply leaves_mono, L1; set_solver|done].
      - intros jx Hx. rewrite !elem_of_cons, elem_of_nil in Hx.
        assert (jx = with_error j WriteFailed) as -> by tauto. constructor. }
  destruct (F1 v eq_refl) as [P1 (n & En & Dn & Ln)].
  destruct (if v then (true, d1) else _) as [same d2] eqn:E2.
  assert (quiet d1 d2 /\ (same = true -> placed d2 j)) as [Q2 P2].
  { destruct v.
    - injection E2 as <- <-. split; [done|intros _; by apply P1].
    - destruct (sha256_attachment_file _ d1) as [[digest|e] dx] eqn:Eh;
        apply sha256_file_quiet in Eh as [Q F]; injection E2 as <- <-; (split; [done|]); [|done].
      intros Hs%String.eqb_eq. destruct (F _ eq_refl) as (m & Em & Hm).
      exists m. rewrite (qu_files _ _ Q). split; [done|]. split; [congruence|].
      split; intros Hx; [apply (qu_dirty _ _ Q) in Hx|apply (qu_loose _ _ Q) in Hx]; done. }
  assert (L2 : leaves [] d d2) by (transitivity d1; [done|by apply quiet_leaves]).
  destruct same; cbn [negb].
  2:{ destruct (fail_journal paths j WriteFailed d2) as [jf df] eqn:Ef.
      apply fail_journal_spec in Ef as [-> Lf]. intros H. injection H as <- <- <-.
      exists [with_error j WriteFailed]. split; [|split; [|done]].
      - transitivity d2; [eapply leaves_mono, L2; set_solver|done].
      - intros jx Hx. rewrite !elem_of_cons, elem_of_nil in Hx.
        assert (jx = with_error j WriteFailed) as -> by tauto. constructor. }
  specialize (P2 eq_refl).
  destruct (attachment_reply_path _ _ _ d2) as [reply d3] eqn:Erep.
  apply reply_path_spec in Erep as [L3 R3].
  apply (linked_leaves [] _ _) in L3.
  assert (P3 : placed d3 j) by (eapply placed_evolves; [done|apply L3|done]).
  destruct (persist_attachment_operation _ _ _ d3) as [[[]|e] d4] eqn:E4;
    apply persist_leaves in E4.
  - intros H. injection H as <- <- <-. exists [with_committed j reply].
    assert (P4 : placed d4 j) by (eapply placed_evolves; [done|apply E4|done]).
    assert (R4 : reply_to d4 (final_path paths j) reply)
      by (eapply reply_to_evolves; [apply E4|done]).
    split; [|split; [|eauto]].
    + transitivity d3; [|done]. eapply leaves_mono; [|by transitivity d2]. set_solver.
    + intros jx Hx. rewrite !elem_of_cons, elem_of_nil in Hx.
      assert (jx = with_committed j reply) as -> by tauto. by constructor.
  - destruct (fail_journal paths (with_committed j reply) WriteFailed d4) as [jf df] eqn:Ef.
    apply fail_journal_spec in Ef as [-> Lf]. intros H. injection H as <- <- <-.
    exists [with_committed j reply; with_error (with_committed j reply) WriteFailed].
    assert (P5 : placed df j).
    { eapply placed_evolves; [done|apply Lf|]. eapply placed_evolves; [done|apply E4|done]. }
    assert (R5 : reply_to df (final_path paths j) reply).
    { eapply reply_to_evolves; [apply Lf|]. eapply reply_to_evolves; [apply E4|done]. }
    split; [|split; [|done]].
    + transitivity d2; [eapply leaves_mono, L2; set_solver|].
      transitivity d3; [eapply leaves_mono, L3; set_solver|].
      transitivity d4; [eapply leaves_mono, E4; set_solver|].
      eapply leaves_mono, Lf. set_solver.
    + intros jx Hx. rewrite !elem_of_cons, elem_of_nil in Hx.
      destruct Hx as [->|[->|[->|[]]]]; by constructor.
Qed.

End Laid.

(** ** Reading a journal back *)

Lemma load_spec root sid rid d l d' :
  load_attachment_operation root sid rid d = (l, d') ->
  quiet d d' /\
  match l with
  | Missing =>
      valid_opaque_id rid = false \/ resolve_session_dir root sid = None \/
      exists dir, resolve_session_dir root sid = Some dir /\
        d_files d !! (dir ++ [ATTACHMENT_OPERATION_DIR_NAME; rid ++ chars ".json"]) = None
  | Invalid => True
  | Loaded paths j =>
      exists dir media n, resolve_session_dir root sid = Some dir /\
        d_files d !! (dir ++ [ATTACHMENT_OPERATION_DIR_NAME; rid ++ chars ".json"]) = Some n /\
        as_journal n = Some j /\ recorded_media_dir dir (aj_media_dir j) = Some media /\
        create_attachment_operation_paths root sid rid media = Some paths /\
        aj_session_id j = sid /\ aj_request_id j = rid
  end.
Proof.
  unfold load_attachment_operation.
  destruct (if valid_opaque_id rid then _ else None) as [dir|] eqn:Edir.
  2:{ intros H. injection H as <- <-. split; [done|]. destruct (valid_opaque_id rid); auto. }
  destruct (valid_opaque_id rid) eqn:Ev; [|done].
  destruct (path_exists d _) eqn:Ex; cbn [negb].
  2:{ intros H. injection H as <- <-. split; [done|]. right; right. exists dir. split; [done|].
      by apply not_exists_free. }
  destruct (call _ _ d) as [[n|e] d1] eqn:Ec.
  2:{ apply read_quiet in Ec; [|done]. intros H. by injection H as <- <-. }
  assert (En : d_files d !! (dir ++ [ATTACHMENT_OPERATION_DIR_NAME; rid ++ chars ".json"]) = Some n).
  { apply call_inv in Ec as [[fs Ec]|[Ec _]]; [|done]. cbn in Ec.
    destruct (d_files d !! _); cbn in Ec; [by injection Ec as ->|done]. }
  apply read_quiet in Ec; [|done].
  destruct (mbind parse_journal (as_journal n)) as [j|] eqn:Ep.
  2:{ intros H. by injection H as <- <-. }
  assert (as_journal n = Some j) as Ej.
  { destruct (as_journal n) as [j'|]; cbn in Ep; [|done]. unfold parse_journal in Ep.
    case_match; [done|done]. }
  destruct (recorded_media_dir dir (aj_media_dir j)) as [media|] eqn:Em; cbn.
  2:{ intros H. by injection H as <- <-. }
  destruct (create_attachment_operation_paths root sid rid media) as [paths|] eqn:Ea.
  2:{ intros H. by injection H as <- <-. }
  destruct (_ || _ || _) eqn:Eg.
  { intros H. by injection H as <- <-. }
  rewrite !orb_false_iff, !negb_false_iff, !bool_decide_eq_true in Eg.
  destruct Eg as [[Es Er] _].
  intros H. injection H as <- <-. split; [done|]. exists dir, media, n. auto 10.
Qed.

(** ** Opening and writing *)

(** The first journal of an operation. *)
Definition first_journal (descriptor : OperationDescriptor) (carrier : Carrier)
    (carrier_id : text) (media : Path) : AttachmentOperationJournal :=
  mkJournal JOURNAL_VERSION (od_request_id descriptor) (od_session_id descriptor)
    (od_filename descriptor) (Some media) (od_short_path descriptor)
    (od_total_bytes descriptor) false carrier carrier_id 0 0 "" [] "" false None "".

Lemma create_operation_spec root descriptor carrier carrier_id media d r d' :
  (forall m, media = Some m -> last m <> Some ATTACHMENT_OPERATION_DIR_NAME) ->
  create_attachment_operation root descriptor carrier carrier_id media d = (r, d') ->
  (d' = d /\ r = Ok None) \/
  exists m paths, media = Some m /\
    create_attachment_operation_paths root (od_session_id descriptor) (od_request_id descriptor) m
      = Some paths /\
    let j := first_journal descriptor carrier carrier_id m in
    leaves (od_request_id descriptor) paths [j] d d' /\
    (forall o, r = Ok o -> o = Some (paths, j) /\
       d_files d' !! ap_journal_path paths = Some (JournalText j)).
Proof.
  intros Hm. unfold create_attachment_operation.
  destruct media as [m|]; cbn [mbind option_bind].
  2:{ intros H. injection H as <- <-. auto. }
  destruct (create_attachment_operation_paths _ _ _ m) as [paths|] eqn:Ep.
  2:{ intros H. injection H as <- <-. auto. }
  destruct (paths_laid_out _ _ _ _ _ Ep (Hm m eq_refl)) as (Lo & Hmd & _).
  intros H. right. exists m, paths. split; [done|]. split; [done|]. set (j := first_journal descriptor carrier carrier_id m).
  apply bind_inv in H as [(e & H & ->)|([] & d1 & H1 & H)].
  { apply create_private_dir_quiet in H. split; [by apply quiet_leaves|done]. }
  apply create_private_dir_quiet in H1.
  apply bind_inv in H as [(e & H & ->)|([] & d2 & H2 & H)].
  { apply create_private_dir_quiet in H.
    split; [apply quiet_leaves; by transitivity d1|done]. }
  apply create_private_dir_quiet in H2. rewrite Hmd in H. cbv zeta in H.
  change (mkJournal _ _ _ _ _ _ _ _ _ _ _ _ _ _ _ _ _ _) with j in H.
  assert (Q : leaves (od_request_id descriptor) paths [j] d d2)
    by (apply quiet_leaves; by transitivity d1).
  apply bind_inv in H as [(e & H & ->)|([] & d3 & H3 & H)].
  { apply (persist_leaves _ _ Lo) in H. split; [by transitivity d2|done]. }
  pose proof (persist_spec _ _ Lo _ _ _ _ _ H3) as (_ & _ & P).
  apply (persist_leaves _ _ Lo) in H3. unfold ret in H. injection H as <- <-.
  split; [by transitivity d2|]. intros o Ho. injection Ho as <-. auto.
Qed.

(** What writing [data] at the end of the bytes [held] leaves: all of it when
    it answers, a beginning of it when it stops. *)
Lemma overwrite_end held h data :
  handle_at h held = length held -> overwrite held (handle_at h held) data = held ++ data.
Proof.
  unfold overwrite. intros ->. rewrite Nat.sub_diag. cbn [replicate]. rewrite app_nil_r.
  rewrite firstn_all, (skipn_all2 held) by lia. by rewrite app_nil_r.
Qed.

Lemma write_all_spec p h data d r d' n :
  d_opened d !! handle_file h = Some p ->
  d_files d !! p = Some n -> handle_at h (contents n) = length (contents n) ->
  write_all h data d = (r, d') ->
  at_most {[p]} d d' /\ d_opened d' = d_opened d /\
  exists n' more, d_files d' !! p = Some n' /\ contents n' = contents n ++ more /\
    (r = Ok tt -> more = data).
Proof.
  intros Eo E Hh H. unfold write_all in H.
  apply call_inv in H as [[fs H]|[-> [->|(k & fs & alive & ->)]]].
  - cbn in H. rewrite Eo, E in H. injection H as <- <-.
    split; [apply (at_most_put p _ d fs (d_alive d))|]. split; [done|].
    eexists _, data. cbn. rewrite lookup_insert_eq. split; [done|].
    split; [by apply overwrite_end|done].
  - split; [done|]. split; [done|]. exists n, []. by rewrite app_nil_r.
  - cbn. rewrite Eo, E. split; [apply at_most_put|]. split; [done|].
    eexists _, (take k data). cbn. rewrite lookup_insert_eq. split; [done|].
    split; [by apply overwrite_end|done].
Qed.

(** Opening a file numbers it. *)
Lemma open_file_spec p d r d' :
  open_file p d = (r, d') ->
  quiet d d' /\ d_files d' = d_files d /\ d_dirs d' = d_dirs d /\ d_links d' = d_links d /\
  exists file, r = Ok file /\ d_opened d' !! file = Some p.
Proof.
  unfold open_file. intros H. injection H as <- <-. cbn.
  assert (Hnew : d_opened d !! S (foldr Nat.max 0%nat (map_to_list (d_opened d)).*1) = None).
  { destruct (d_opened d !! S _) as [q|] eqn:E; [|done]. exfalso.
    apply elem_of_map_to_list in E. apply (list_elem_of_fmap_2 fst) in E. cbn [fst] in E.
    assert (Hmax : forall k l, k ∈ l -> (k <= foldr Nat.max 0%nat l)%nat).
    { intros k l. induction l as [|x l IH]; [by intros ?%elem_of_nil|]. cbn.
      intros [->|Hin]%elem_of_cons; [lia|]. specialize (IH Hin). lia. }
    apply Hmax in E. cbn in E. lia. }
  split; [|split_and!; try done; eexists; split; [done|apply lookup_insert_eq]].
  split; cbn; try done. by apply insert_subseteq.
Qed.

(** A new temp, open. *)
Lemma create_open_spec p d r d' :
  bind (create_truncate_private_file p) (fun _ => open_file p) d = (r, d') ->
  at_most {[p]} d d' /\
  forall file, r = Ok file -> d_opened d' !! file = Some p /\ d_files d' !! p = Some (Bytes []).
Proof.
  intros H. apply bind_inv in H as [(e & H & ->)|([] & d1 & H1 & H)].
  - by apply create_truncate_spec in H as [A _].
  - apply create_truncate_spec in H1 as [A F]. apply open_file_spec in H as (Q & Ef & _ & _ & file & -> & Ho).
    split; [transitivity d1; [done|by apply quiet_at_most]|].
    intros file' [= <-]. by rewrite Ef, F.
Qed.

End Frames.
