(* ===== verification/UploadInvariant.v ===== *)
(** * UploadInvariant: what every journal and every operation stands for

    The pieces an upload took ([assembled]), the invariant of the journals on
    disk ([journals_hold]) and of the table ([table_holds]), and that each call
    of [UploadOwner] keeps both, under any faults and any interleaving with the
    other uploads' calls. *)
From Stdlib Require Import Ascii String.
From stdpp Require Import pretty.
From S2P Require Export UploadFrames.

Lemma snoc_pair (dir : Path) a b : dir ++ [a; b] = (dir ++ [a]) ++ [b].
Proof. by rewrite <- app_assoc. Qed.

(** ** The reserved name *)

Lemma numbered_head stem index extension x rest :
  stem = x :: rest -> head (numbered_name stem index extension) = Some x.
Proof. by intros ->. Qed.

Lemma free_candidate_numbered d dir stem extension index fuel name :
  free_candidate d dir stem extension index fuel = Some name ->
  path_exists d (dir ++ [name]) = false /\ exists i, name = numbered_name stem i extension.
Proof.
  revert index. induction fuel as [|fuel IH]; intros index; cbn; [done|].
  destruct (path_exists d (dir ++ [numbered_name stem index extension])) eqn:E; cbn; [apply IH|].
  intros H. injection H as <-. eauto.
Qed.

Lemma unique_head d dir x rest millis : head (unique_name d dir (x :: rest) millis) = Some x.
Proof.
  unfold unique_name. case_match; [done|].
  destruct (node_extname_suffix (x :: rest)) as (stem & Es & Hne).
  rewrite (stem_take _ _ Es).
  assert (exists more, stem = x :: more) as [more ->].
  { destruct stem as [|y stem]; [|cbn in Es; injection Es as <- _; eauto].
    cbn in Es. exfalso. apply Hne; [rewrite <- Es|]; done. }
  destruct (free_candidate _ _ _ _ _ _) as [name|] eqn:E; cbn [default].
  - apply free_candidate_numbered in E as [_ [i ->]]. by eapply numbered_head.
  - by eapply numbered_head.
Qed.

(** A name a final file may have: the worker's own files begin with a dot. *)
Definition public_name (name : text) : Prop := exists x rest, name = x :: rest /\ x <> DOT.

Lemma reserved_public d dir filename millis :
  public_name (reserve_attachment_destination d dir filename millis).
Proof.
  unfold reserve_attachment_destination.
  destruct (sanitize_head filename) as (x & rest & -> & Hx).
  pose proof (unique_head d dir x rest millis) as H.
  destruct (unique_name _ _ _ _) as [|y name]; [done|]. injection H as ->.
  by exists x, name.
Qed.

Lemma public_not_manifest name : public_name name -> name <> MANIFEST_NAME.
Proof. intros (x & rest & -> & Hx) E. by injection E. Qed.

Lemma public_not_nil name : public_name name -> name <> [].
Proof. by intros (x & rest & -> & _). Qed.

(** ** What an upload took *)

Section Invariant.
Context `{SD : Serde} `{SH : Sha256} (root : Path) (session_of : text -> text).

(** A session's id and a request's: a request is one session's, and the
    session's directory is no [.operations] directory of another. *)
Record proper (sid rid : text) : Prop := mkProper {
  pr_session : session_of rid = sid;
  pr_nul : 0 ∉ sid;
  pr_dir : forall dir, resolve_session_dir root sid = Some dir ->
    last dir <> Some ATTACHMENT_OPERATION_DIR_NAME;
}.

(** The chunk that comes after [count] chunks of [held] bytes. *)
Record follows (descriptor : OperationDescriptor) (carrier : Carrier) (carrier_id : text)
    (count held : Z) (c : AttachmentOperationChunk) : Prop := mkFollows {
  fo_descriptor : od_session_id (oc_descriptor c) = od_session_id descriptor /\
    od_request_id (oc_descriptor c) = od_request_id descriptor /\
    od_filename (oc_descriptor c) = od_filename descriptor /\
    od_short_path (oc_descriptor c) = od_short_path descriptor /\
    od_total_bytes (oc_descriptor c) = od_total_bytes descriptor;
  fo_carrier : oc_carrier c = carrier /\ oc_carrier_id c = carrier_id;
  fo_seq : oc_seq c = count;
  fo_offset : oc_offset c = held;
  fo_digest : default (sha256_hex (oc_data c)) (oc_chunk_sha256 c) = sha256_hex (oc_data c);
}.

(** The chunks of one upload in sequence, their bytes end to end, and whether
    the last of them was marked so. *)
Inductive assembled (descriptor : OperationDescriptor) (carrier : Carrier) (carrier_id : text)
    : list AttachmentOperationChunk -> list byte -> bool -> Prop :=
| assembled_nil : assembled descriptor carrier carrier_id [] [] false
| assembled_snoc pieces bytes c :
    assembled descriptor carrier carrier_id pieces bytes false ->
    follows descriptor carrier carrier_id (len pieces) (len bytes) c ->
    assembled descriptor carrier carrier_id (pieces ++ [c]) (bytes ++ oc_data c) (oc_last c).

(** A journal of this upload, on disk or in the table. *)
Record held (offers : list AttachmentOperationChunk) (d : Disk) (sid rid : text)
    (paths : AttachmentOperationPaths) (j : AttachmentOperationJournal)
    (pieces : list AttachmentOperationChunk) (bytes : list byte) (final : bool) : Prop := mkHeld {
  he_ids : aj_session_id j = sid /\ aj_request_id j = rid;
  he_laid : laid_out rid paths;
  he_media : aj_media_dir j = Some (ap_media_dir paths);
  he_session : resolve_session_dir root sid = Some (ap_session_dir paths);
  he_offered : pieces `sublist_of` offers;
  he_assembled : assembled (journal_descriptor j) (aj_carrier j) (aj_carrier_id j)
                   pieces bytes final;
  he_seq : aj_next_seq j = len pieces;
  he_bytes : aj_bytes_written j = len bytes;
  he_final : aj_final_name j <> [] ->
    final = true /\ aj_content_sha256 j = sha256_hex bytes /\
    is_none_or (aj_total_bytes j) (fun total => len bytes =? total) = true /\
    public_name (aj_final_name j);
  he_committed : aj_committed j = true ->
    aj_final_name j <> [] /\ placed paths d j /\
    exists reply, aj_abs_path j = Some reply /\ reply_to d (final_path paths j) reply;
  he_open : aj_error j = ""%string -> aj_final_name j = [] ->
    final = false /\
    forall n, d_files d !! ap_temp_path paths = Some n -> len (contents n) = len bytes ->
      contents n = bytes;
}.

Lemma laid_out_eq rid p1 p2 :
  laid_out rid p1 -> laid_out rid p2 -> ap_media_dir p1 = ap_media_dir p2 ->
  ap_session_dir p1 = ap_session_dir p2 -> p1 = p2.
Proof.
  destruct p1, p2. intros [_ o1 j1 t1 p1] [_ o2 j2 t2 p2] Hm Hs. cbn in *. by subst.
Qed.

Lemma held_step other offers offers' d d' sid rid paths j ps b f :
  evolves other d d' ->
  d_files d' !! ap_temp_path paths = d_files d !! ap_temp_path paths \/
    d_files d' !! ap_temp_path paths = None ->
  offers `sublist_of` offers' ->
  held offers d sid rid paths j ps b f -> held offers' d' sid rid paths j ps b f.
Proof.
  intros Ev Ht Ho [ids laid media session offered asm sq by_ fin com open]. split; try done.
  - by transitivity offers.
  - intros Hc. destruct (com Hc) as (Hn & Hp & reply & Ha & Hr). split; [done|].
    destruct (fin Hn) as (_ & _ & _ & Hpub). split.
    + eapply placed_evolves; [done|by apply public_not_manifest|done|done].
    + exists reply. split; [done|]. eapply reply_to_evolves; done.
  - intros He Hn. destruct (open He Hn) as [-> Hopen]. split; [done|].
    intros n E. destruct Ht as [Ht|Ht]; rewrite Ht in E; [auto|done].
Qed.

Lemma held_error offers d sid rid paths j e ps b f :
  held offers d sid rid paths j ps b f -> held offers d sid rid paths (with_error j e) ps b f.
Proof.
  intros [ids laid media session offered asm sq by_ fin com open]. split; try done.
  cbn. intros E. by destruct e.
Qed.

(** The disk journal of [rid], if there is one, is of these paths and counts
    no more than [bound] bytes. *)
Definition tracks (d : Disk) (paths : AttachmentOperationPaths) (bound : Z) : Prop :=
  forall n, d_files d !! ap_journal_path paths = Some n ->
    exists j, n = JournalText j /\ aj_media_dir j = Some (ap_media_dir paths) /\
      aj_bytes_written j <= bound.

Definition journal_holds (offers : list AttachmentOperationChunk) (d : Disk) (sid rid : text)
    : Prop :=
  forall dir n, resolve_session_dir root sid = Some dir ->
    d_files d !! (dir ++ [ATTACHMENT_OPERATION_DIR_NAME; rid ++ chars ".json"]) = Some n ->
    exists j paths ps b f, n = JournalText j /\ held offers d sid rid paths j ps b f.

Definition journals_hold (offers : list AttachmentOperationChunk) (d : Disk) : Prop :=
  forall sid rid, proper sid rid -> journal_holds offers d sid rid.

Lemma journal_path_eq rid paths :
  laid_out rid paths ->
  ap_session_dir paths ++ [ATTACHMENT_OPERATION_DIR_NAME; rid ++ chars ".json"] = ap_journal_path paths.
Proof. intros L. by rewrite (lo_journal _ _ L), (lo_operation _ _ L), <- app_assoc. Qed.

(** Another upload's journal is left alone. *)
Lemma journal_holds_other rid' offers offers' d d' sid rid :
  rid' <> rid -> evolves rid' d d' -> offers `sublist_of` offers' ->
  journal_holds offers d sid rid -> journal_holds offers' d' sid rid.
Proof.
  intros Hne Ev Ho H dir n Hd En.
  assert (Hj : footprint rid (dir ++ [ATTACHMENT_OPERATION_DIR_NAME; rid ++ chars ".json"])).
  { split.
    - unfold private. by rewrite snoc_pair, parent_snoc, last_snoc.
    - rewrite snoc_pair, last_snoc. eexists. split; [|done].
      unfold own_names. set_solver. }
  rewrite (ev_private _ _ _ Ev) in En;
    [|intros Hx; apply Hne; by eapply footprint_disjoint|apply Hj].
  destruct (H dir n Hd En) as (j & paths & ps & b & f & -> & He).
  exists j, paths, ps, b, f. split; [done|]. eapply held_step; [done| |done|done]. left.
  assert (Ht : footprint rid (ap_temp_path paths))
    by (eapply own_paths; [apply He|set_solver]).
  apply (ev_private _ _ _ Ev); [|apply Ht]. intros Hx. apply Hne. by eapply footprint_disjoint.
Qed.

(** This upload's own journal, after a call that left one of [js]. *)
Lemma journal_holds_own offers offers' d d' sid rid paths js bound :
  leaves rid paths js d d' -> offers `sublist_of` offers' -> laid_out rid paths ->
  resolve_session_dir root sid = Some (ap_session_dir paths) ->
  (forall j, j ∈ js -> aj_bytes_written j <= bound /\
     exists ps b f, held offers' d' sid rid paths j ps b f) ->
  tracks d paths bound -> journal_holds offers d sid rid ->
  journal_holds offers' d' sid rid /\ tracks d' paths bound.
Proof.
  intros Le Ho La Hs Hjs Htr H.
  assert (Hcase : forall n, d_files d' !! ap_journal_path paths = Some n ->
    d_files d !! ap_journal_path paths = Some n \/ exists j, j ∈ js /\ n = JournalText j).
  { intros n En. destruct (le_journal _ _ _ _ _ Le) as [E|(j & Hj & E)]; rewrite E in En; [auto|].
    injection En as <-. eauto. }
  split.
  - intros dir n Hd En. assert (dir = ap_session_dir paths) as -> by congruence.
    rewrite (journal_path_eq _ _ La) in En.
    destruct (Hcase n En) as [E|(j & Hj & ->)].
    + destruct (Htr n E) as (jd & -> & Hm & _). rewrite <- (journal_path_eq _ _ La) in E.
      destruct (H _ _ Hs E) as (j0 & p0 & ps & b & f & Ej & He). injection Ej as <-.
      assert (p0 = paths) as ->.
      { eapply laid_out_eq; [apply He|done| |].
        - pose proof (he_media _ _ _ _ _ _ _ _ _ He). congruence.
        - pose proof (he_session _ _ _ _ _ _ _ _ _ He). congruence. }
      exists jd, paths, ps, b, f. split; [done|].
      eapply held_step; [apply Le|apply Le|done|done].
    + destruct (Hjs j Hj) as (_ & ps & b & f & He). exists j, paths, ps, b, f. done.
  - intros n En. destruct (Hcase n En) as [E|(j & Hj & ->)]; [by apply Htr|].
    destruct (Hjs j Hj) as (Hb & ps & b & f & He). exists j. split; [done|].
    split; [apply He|done].
Qed.

Lemma journals_step offers offers' d d' sid rid :
  proper sid rid -> evolves rid d d' -> offers `sublist_of` offers' ->
  journal_holds offers' d' sid rid -> journals_hold offers d -> journals_hold offers' d'.
Proof.
  intros Hp Ev Ho Hown H sid' rid' Hp'. destruct (decide (rid' = rid)) as [->|Hne].
  - assert (sid' = sid) as -> by (destruct Hp, Hp'; congruence). done.
  - eapply journal_holds_other; [|done|done|by apply H]. congruence.
Qed.

(** ** The table *)

Definition live_phase (d : Disk) (op : ActiveOperation) (bytes : list byte) (final : bool)
    : Prop :=
  let j := op_journal op in
  match op_commit op with
  | None =>
      aj_final_name j = [] /\ aj_committed j = false /\ final = false /\ op_hasher op = bytes /\
      exists h n, op_file op = Some h /\ handle_at h bytes = length bytes /\
        d_opened d !! handle_file h = Some (ap_temp_path (op_paths op)) /\
        d_files d !! ap_temp_path (op_paths op) = Some n /\ contents n = bytes
  | Some FirstFlush =>
      aj_final_name j <> [] /\ aj_committed j = false /\
      exists n, d_files d !! final_path (op_paths op) j = Some n /\
        sha256_hex (contents n) = aj_content_sha256 j
  | Some SecondFlush => aj_committed j = true
  end.

(** An operation at hand, in the table or not. *)
Record at_hand (offers : list AttachmentOperationChunk) (d : Disk) (op : ActiveOperation)
    (sid rid : text) (pieces : list AttachmentOperationChunk) (bytes : list byte)
    (final : bool) : Prop := mkAtHand {
  ah_proper : proper sid rid;
  ah_key : op_key op = operation_key sid rid;
  ah_held : held offers d sid rid (op_paths op) (op_journal op) pieces bytes final;
  ah_tracks : tracks d (op_paths op) (len bytes);
}.

Record live (offers : list AttachmentOperationChunk) (d : Disk) (op : ActiveOperation)
    (sid rid : text) (pieces : list AttachmentOperationChunk) (bytes : list byte)
    (final : bool) : Prop := mkLive {
  lv_at_hand : at_hand offers d op sid rid pieces bytes final;
  lv_registered : op_registered op = true;
  lv_error : aj_error (op_journal op) = ""%string;
  lv_phase : live_phase d op bytes final;
}.

Definition table_holds (offers : list AttachmentOperationChunk) (d : Disk)
    (active : ActiveTable) : Prop :=
  forall key op, active !! key = Some op ->
    op_key op = key /\ exists sid rid ps b f, live offers d op sid rid ps b f.

Lemma key_inj sid rid sid' rid' :
  0 ∉ sid -> 0 ∉ sid' -> operation_key sid rid = operation_key sid' rid' ->
  sid = sid' /\ rid = rid'.
Proof.
  unfold operation_key. revert sid'. induction sid as [|x sid IH]; intros [|y sid'] H H' E; cbn in E.
  - by injection E as ->.
  - injection E as Hy _. exfalso. apply H'. rewrite Hy. by left.
  - injection E as Hx _. exfalso. apply H. rewrite Hx. by left.
  - injection E as -> E. rewrite not_elem_of_cons in H, H'. destruct H as [_ H], H' as [_ H'].
    by destruct (IH sid' H H' E) as [-> ->].
Qed.

Lemma final_not_own other rid paths j :
  laid_out rid paths -> public_name (aj_final_name j) ->
  ~ footprint other (final_path paths j) /\ ~ is_manifest (final_path paths j).
Proof. intros La Hp. apply (final_kept rid); [done|by apply public_not_manifest]. Qed.

(** Another upload's operation is left alone. *)
Lemma live_other rid' offers offers' d d' op sid rid ps b f :
  rid' <> rid -> evolves rid' d d' -> offers `sublist_of` offers' ->
  live offers d op sid rid ps b f -> live offers' d' op sid rid ps b f.
Proof.
  intros Hne Ev Ho [[Hp Hk He Ht] Hr Herr Hph].
  pose proof (he_laid _ _ _ _ _ _ _ _ _ He) as La.
  assert (Hown : forall p, footprint rid p -> d_files d' !! p = d_files d !! p).
  { intros p Hf. apply (ev_private _ _ _ Ev); [|apply Hf].
    intros Hx. apply Hne. by eapply footprint_disjoint. }
  assert (Htemp : d_files d' !! ap_temp_path (op_paths op) = d_files d !! ap_temp_path (op_paths op))
    by (apply Hown; eapply own_paths; [done|set_solver]).
  split; [|done|done|].
  - split; [done|done| |].
    + eapply held_step; [done|by left|done|done].
    + intros n En. rewrite Hown in En; [by apply Ht|]. eapply own_paths; [done|set_solver].
  - unfold live_phase in *. destruct (op_commit op) as [[]|].
    + destruct Hph as (Hn & Hc & n & En & Hs). split; [done|]. split; [done|]. exists n.
      split; [|done].
      destruct (he_final _ _ _ _ _ _ _ _ _ He Hn) as (_ & _ & _ & Hpub).
      destruct (final_not_own rid' rid _ _ La Hpub). by apply (ev_kept _ _ _ Ev).
    + done.
    + destruct Hph as (Hn & Hc & Hf & Hh & h & n & E1 & E2 & E0 & E3 & E4).
      rewrite <- Htemp in E3. do 4 (split; [done|]). exists h, n. split_and!; try done.
      assert (Hft : footprint rid (ap_temp_path (op_paths op)))
        by (eapply own_paths; [done|set_solver]).
      apply (ev_opened _ _ _ Ev); [|apply Hft|done]. intros Hx. apply Hne. by eapply footprint_disjoint.
Qed.

Lemma table_step offers offers' d d' active sid rid :
  proper sid rid -> evolves rid d d' -> offers `sublist_of` offers' ->
  table_holds offers d active -> table_holds offers' d' (delete (operation_key sid rid) active).
Proof.
  intros Hp Ev Ho H key op E. apply lookup_delete_Some in E as [Hk E].
  destruct (H key op E) as [Hkey (sid' & rid' & ps & b & f & Hl)]. split; [done|].
  exists sid', rid', ps, b, f. eapply live_other; [|done|done|done].
  intros ->. apply Hk.
  pose proof (lv_at_hand _ _ _ _ _ _ _ _ Hl) as Ha.
  assert (sid = sid') as -> by (pose proof (pr_session _ _ (ah_proper _ _ _ _ _ _ _ _ Ha)); destruct Hp; congruence).
  rewrite <- Hkey. symmetry. apply Ha.
Qed.

Lemma table_insert offers d active op sid rid ps b f :
  live offers d op sid rid ps b f -> table_holds offers d active ->
  table_holds offers d (<[op_key op := op]> active).
Proof.
  intros Hl H key op' E. destruct (decide (op_key op = key)) as [<-|Hne].
  - rewrite lookup_insert_eq in E. injection E as <-. split; [done|]. eauto 10.
  - rewrite lookup_insert_ne in E by done. by apply H.
Qed.

(** ** Taking a chunk *)

(** The journal after the chunk [c], whatever it says of the outcome. *)
Lemma held_chunk offers d1 sid rid paths j ps b c j' d :
  held offers d sid rid paths j ps b false ->
  follows (journal_descriptor j) (aj_carrier j) (aj_carrier_id j) (len ps) (len b) c ->
  journal_descriptor j' = journal_descriptor j -> aj_media_dir j' = aj_media_dir j ->
  aj_carrier j' = aj_carrier j -> aj_carrier_id j' = aj_carrier_id j ->
  aj_next_seq j' = aj_next_seq j + 1 ->
  aj_bytes_written j' = aj_bytes_written j + len (oc_data c) -> aj_committed j' = false ->
  (aj_final_name j' <> [] -> oc_last c = true /\
     aj_content_sha256 j' = sha256_hex (b ++ oc_data c) /\
     is_none_or (aj_total_bytes j') (fun total => len (b ++ oc_data c) =? total) = true /\
     public_name (aj_final_name j')) ->
  (aj_error j' = ""%string -> aj_final_name j' = [] -> oc_last c = false /\
     forall n, d_files d1 !! ap_temp_path paths = Some n ->
       len (contents n) = len (b ++ oc_data c) -> contents n = b ++ oc_data c) ->
  held (offers ++ [c]) d1 sid rid paths j' (ps ++ [c]) (b ++ oc_data c) (oc_last c).
Proof.
  intros [ids laid media session offered asm sq by_ fin com open] Hfo Hd Hm Hc Hci Hs Hb Hco Hf Ho.
  assert (aj_session_id j' = aj_session_id j /\ aj_request_id j' = aj_request_id j) as [E1 E2].
  { unfold journal_descriptor in Hd. by injection Hd. }
  split; try done.
  - by rewrite E1, E2.
  - by rewrite Hm.
  - by apply sublist_app.
  - rewrite Hd, Hc, Hci. by constructor.
  - rewrite Hs, sq, len_app. done.
  - rewrite Hb, by_, len_app. done.
  - rewrite Hco. done.
Qed.

Lemma held_temp_grew offers d d1 sid rid paths j ps b f n n' more bound :
  held offers d sid rid paths j ps b f -> at_most {[ap_temp_path paths]} d d1 ->
  d_files d !! ap_temp_path paths = Some n -> d_files d1 !! ap_temp_path paths = Some n' ->
  contents n' = contents n ++ more -> len (contents n) = bound -> len b <= bound ->
  held offers d1 sid rid paths j ps b f.
Proof.
  intros [ids laid media session offered asm sq by_ fin com open] A En En' Hc Hb Hle.
  assert (Ev : evolves rid d d1).
  { eapply at_most_evolves, A. intros p Hp. left. eapply own_paths; [done|set_solver]. }
  split; try done.
  - intros Hco. destruct (com Hco) as (Hn & Hp & reply & Ha & Hr). split; [done|].
    destruct (fin Hn) as (_ & _ & _ & Hpub). split.
    + eapply placed_evolves; [done|by apply public_not_manifest|done|done].
    + exists reply. split; [done|]. by eapply reply_to_evolves.
  - intros He Hn. destruct (open He Hn) as [-> Hopen]. split; [done|].
    intros m Em. rewrite En' in Em. injection Em as <-. rewrite Hc, len_app. intros Hl.
    assert (more = []) as -> by (destruct more; [done|unfold len in *; cbn in *; lia]).
    rewrite app_nil_r in *. apply Hopen; [done|]. rewrite len_nil in Hl. lia.
Qed.

Lemma write_holds offers d op sid rid ps b h n d1 r data :
  at_hand offers d op sid rid ps b false -> journal_holds offers d sid rid ->
  d_files d !! ap_temp_path (op_paths op) = Some n -> contents n = b ->
  handle_at h b = length b -> d_opened d !! handle_file h = Some (ap_temp_path (op_paths op)) ->
  write_all h data d = (r, d1) ->
  evolves rid d d1 /\ journal_holds offers d1 sid rid /\ tracks d1 (op_paths op) (len b) /\
  held offers d1 sid rid (op_paths op) (op_journal op) ps b false /\ d_opened d1 = d_opened d /\
  exists n' more, d_files d1 !! ap_temp_path (op_paths op) = Some n' /\
    contents n' = b ++ more /\ (r = Ok tt -> more = data).
Proof.
  intros [Hp Hk He Ht] Hj En Hc Hh Hop H. pose proof (he_laid _ _ _ _ _ _ _ _ _ He) as La.
  apply write_all_spec with (p := ap_temp_path (op_paths op)) (n := n) in H; [|done|done|by rewrite Hc].
  destruct H as (A & Eop & n' & more & En' & Hc' & Hm).
  assert (Ev : evolves rid d d1).
  { eapply at_most_evolves, A. intros p Hpp. left. eapply own_paths; [done|set_solver]. }
  assert (Hsame : d_files d1 !! ap_journal_path (op_paths op) = d_files d !! ap_journal_path (op_paths op)).
  { apply (am_files _ _ _ A). destruct (own_paths_differ _ _ La) as (_ & ? & _). set_solver. }
  split; [done|]. split; [|split; [|split; [|split]]].
  - intros dir m Hd Em. pose proof (he_session _ _ _ _ _ _ _ _ _ He) as Hs.
    assert (dir = ap_session_dir (op_paths op)) as -> by congruence.
    rewrite (journal_path_eq _ _ La), Hsame in Em.
    destruct (Ht m Em) as (jd & -> & Hmd & Hbd). rewrite <- (journal_path_eq _ _ La) in Em.
    destruct (Hj _ _ Hs Em) as (j0 & p0 & psd & bd & fd & Ej & Hd0). injection Ej as <-.
    assert (p0 = op_paths op) as ->.
    { eapply laid_out_eq; [apply Hd0|done| |].
      - pose proof (he_media _ _ _ _ _ _ _ _ _ Hd0). congruence.
      - pose proof (he_session _ _ _ _ _ _ _ _ _ Hd0). congruence. }
    exists jd, (op_paths op), psd, bd, fd. split; [done|].
    eapply held_temp_grew; [done|done|done|done|done|by rewrite Hc|].
    by rewrite <- (he_bytes _ _ _ _ _ _ _ _ _ Hd0).
  - intros m Em. rewrite Hsame in Em. by apply Ht.
  - eapply held_temp_grew; [done|done|done|done|done|by rewrite Hc|done].
  - done.
  - exists n', more. rewrite <- Hc. auto.
Qed.


(** A call that may end the operation at hand. *)
Lemma leaves_holds offers offers' d d' sid rid paths js bound :
  leaves rid paths js d d' -> offers `sublist_of` offers' -> laid_out rid paths ->
  resolve_session_dir root sid = Some (ap_session_dir paths) ->
  (forall j, j ∈ js -> aj_bytes_written j <= bound /\
     exists ps b f, held offers' d sid rid paths j ps b f) ->
  tracks d paths bound -> journal_holds offers d sid rid ->
  evolves rid d d' /\ journal_holds offers' d' sid rid /\ tracks d' paths bound.
Proof.
  intros Le Ho La Hs Hjs Ht Hj. split; [apply Le|].
  eapply journal_holds_own; try done. intros j Hin. destruct (Hjs j Hin) as (Hb & ps & b & f & He).
  split; [done|]. exists ps, b, f. eapply held_step; [apply Le|apply Le|reflexivity|done].
Qed.

Lemma held_offers offers offers' d sid rid paths j ps b f :
  offers `sublist_of` offers' -> held offers d sid rid paths j ps b f ->
  held offers' d sid rid paths j ps b f.
Proof. intros Ho. apply (held_step rid); [done|by left|done]. Qed.

Lemma tracks_mono d paths bound bound' :
  bound <= bound' -> tracks d paths bound -> tracks d paths bound'.
Proof. intros Hle Ht n E. destruct (Ht n E) as (j & ? & ? & ?). exists j. repeat split; try done. lia. Qed.

(** Failing the operation, whatever its journal says besides. *)
Definition failing (offers : list AttachmentOperationChunk) (d : Disk) (op : ActiveOperation)
    (sid rid : text) : Prop :=
  exists ps b f, tracks d (op_paths op) (len b) /\
    forall e, held offers d sid rid (op_paths op) (with_error (op_journal op) e) ps b f.

Lemma fail_holds offers d op sid rid e e' d' :
  failing offers d op sid rid -> journal_holds offers d sid rid ->
  fail_operation op e d = (e', d') -> evolves rid d d' /\ journal_holds offers d' sid rid.
Proof.
  intros (ps & b & f & Ht & He) Hj H. pose proof (he_laid _ _ _ _ _ _ _ _ _ (He e)) as La.
  eapply fail_operation_spec in H as [_ Le]; [|done|done].
  eapply leaves_holds in Le as (Ev & Hj' & _); [|reflexivity|done|apply (He e)| |done|done]; [done|].
  intros j Hin. apply list_elem_of_singleton in Hin as ->.
  split; [rewrite (he_bytes _ _ _ _ _ _ _ _ _ (He e)); lia|eauto].
Qed.

Lemma at_hand_failing offers d op sid rid ps b f :
  at_hand offers d op sid rid ps b f -> failing offers d op sid rid.
Proof.
  intros [Hp Hk He Ht]. exists ps, b, f. split; [done|]. intros e. by apply held_error.
Qed.

(** An operation whose last byte was written. *)
Definition ready (offers : list AttachmentOperationChunk) (d : Disk) (op : ActiveOperation)
    (sid rid : text) : Prop :=
  aj_final_name (op_journal op) = [] /\ aj_committed (op_journal op) = false /\
  aj_error (op_journal op) = ""%string /\
  (forall n, d_files d !! ap_temp_path (op_paths op) = Some n -> contents n = op_hasher op) /\
  exists ps b, tracks d (op_paths op) (len b) /\
    forall name, public_name name ->
      held offers d sid rid (op_paths op)
        (with_final (op_journal op) name (sha256_hex (op_hasher op))) ps b true.

(** [op'] is [op] further on. *)
Definition same_operation (op op' : ActiveOperation) : Prop :=
  op_key op' = op_key op /\ op_paths op' = op_paths op /\ op_commit op' = op_commit op /\
  op_registered op' = op_registered op.

Lemma same_upload_follows offers d op sid rid ps b f c claimed :
  at_hand offers d op sid rid ps b f ->
  same_upload (op_journal op) c = true -> chunk_key c = operation_key sid rid ->
  od_session_id (oc_descriptor c) = sid -> od_request_id (oc_descriptor c) = rid ->
  claimed = default (sha256_hex (oc_data c)) (oc_chunk_sha256 c) ->
  sha256_hex (oc_data c) = claimed ->
  oc_seq c = aj_next_seq (op_journal op) -> oc_offset c = aj_bytes_written (op_journal op) ->
  follows (journal_descriptor (op_journal op)) (aj_carrier (op_journal op))
    (aj_carrier_id (op_journal op)) (len ps) (len b) c.
Proof.
  intros [Hp Hk He Ht] Hsame _ Hsid Hrid -> Hclaim Hseq Hoff.
  unfold same_upload, same_descriptor, same_carrier in Hsame.
  rewrite !andb_true_iff, !bool_decide_eq_true in Hsame.
  destruct Hsame as [[[[H1 H2] H3] H4] [H5 H6]].
  destruct (he_ids _ _ _ _ _ _ _ _ _ He) as [I1 I2].
  split; cbn; try done.
  - rewrite I2. auto.
  - by rewrite Hseq, (he_seq _ _ _ _ _ _ _ _ _ He).
  - by rewrite Hoff, (he_bytes _ _ _ _ _ _ _ _ _ He).
Qed.

Lemma take_live offers d op sid rid ps b c adv op' d' :
  live offers d op sid rid ps b false -> op_commit op = None ->
  same_upload (op_journal op) c = true ->
  od_session_id (oc_descriptor c) = sid -> od_request_id (oc_descriptor c) = rid ->
  journal_holds offers d sid rid ->
  take_chunk op c d = (adv, op', d') ->
  evolves rid d d' /\ journal_holds (offers ++ [c]) d' sid rid /\ same_operation op op' /\
  match adv with
  | Ok (Answer r) => r = Ok (receipt_from_journal (op_journal op')) /\
      aj_committed (op_journal op') = false /\
      exists ps b f, live (offers ++ [c]) d' op' sid rid ps b f
  | Ok AwaitCommit => False
  | Ok (Fail _) | Err _ => unfinished (op_journal op') = false /\ failing (offers ++ [c]) d' op' sid rid
  | Ok Commit => ready (offers ++ [c]) d' op' sid rid
  end.
Proof.
  intros [Ha Hr Herr Hph] Hcm Hsame Hsid Hrid Hj.
  assert (Hoff : offers `sublist_of` offers ++ [c]) by (apply sublist_inserts_r; reflexivity).
  assert (Hj' : journal_holds (offers ++ [c]) d sid rid).
  { intros dir n Hd En. destruct (Hj dir n Hd En) as (j & p & q & bb & f & -> & He).
    exists j, p, q, bb, f. split; [done|]. by eapply held_offers. }
  unfold live_phase in Hph. rewrite Hcm in Hph.
  destruct Hph as (Hfn & Hco & _ & Hh & h & n & Efile & Hat & Hop & En & Ec).
  assert (Ha' : at_hand (offers ++ [c]) d op sid rid ps b false).
  { destruct Ha. split; try done. by eapply held_offers. }
  assert (Hunf : unfinished (op_journal op) = false).
  { unfold unfinished. by rewrite bool_decide_eq_true_2. }
  assert (Hsameop : same_operation op op) by done.
  unfold take_chunk. set (claimed := default _ _).
  destruct (String.eqb (sha256_hex (oc_data c)) claimed) eqn:Hcl; cbn [negb].
  2:{ intros H. injection H as <- <- <-. split; [done|]. split; [done|]. split; [done|].
      split; [done|]. by eapply at_hand_failing. }
  apply String.eqb_eq in Hcl.
  destruct (is_last_accepted_duplicate _ _ _) eqn:Hdup.
  { intros H. injection H as <- <- <-. split; [done|]. split; [done|]. split; [done|].
    split; [done|]. split; [done|]. exists ps, b, false. split; try done.
    unfold live_phase. rewrite Hcm. repeat split; try done. eauto 10. }
  rewrite Hco. cbn [orb].
  destruct (oc_seq c =? aj_next_seq (op_journal op)) eqn:Hseq; cbn [negb].
  2:{ intros H. injection H as <- <- <-. split; [done|]. split; [done|]. split; [done|].
      split; [done|]. by eapply at_hand_failing. }
  destruct (oc_offset c =? aj_bytes_written (op_journal op)) eqn:Hofs; cbn [negb].
  2:{ intros H. injection H as <- <- <-. split; [done|]. split; [done|]. split; [done|].
      split; [done|]. by eapply at_hand_failing. }
  destruct (is_none_or (aj_total_bytes (op_journal op)) _) eqn:Htot; cbn [negb].
  2:{ intros H. injection H as <- <- <-. split; [done|]. split; [done|]. split; [done|].
      split; [done|]. by eapply at_hand_failing. }
  rewrite Efile.
  assert (Hfo : follows (journal_descriptor (op_journal op)) (aj_carrier (op_journal op))
                  (aj_carrier_id (op_journal op)) (len ps) (len b) c).
  { eapply same_upload_follows; try done; [|by apply Z.eqb_eq|by apply Z.eqb_eq].
    unfold chunk_key. by rewrite Hsid, Hrid. }
  destruct (write_all h (oc_data c) d) as [[[]|e] d1] eqn:Ew;
    pose proof (write_holds _ _ _ _ _ _ _ _ _ _ _ _ Ha' Hj' En Ec Hat Hop Ew)
      as (Ev1 & Hj1 & Ht1 & He1 & Hop1 & n1 & more & En1 & Ec1 & Hmore).
  2:{ intros H. injection H as <- <- <-. split; [done|]. split; [done|]. split; [done|].
      split; [done|]. exists ps, b, false. split; [done|]. intros e'. by apply held_error. }
  rewrite (Hmore eq_refl) in Ec1. clear more Hmore.
  pose proof (ah_held _ _ _ _ _ _ _ _ Ha) as He.
  set (j1 := with_chunk (op_journal op) (len (oc_data c)) claimed (oc_last c)).
  set (op1 := set_journal _ j1).
  assert (Hmono : len b <= len (b ++ oc_data c)) by (rewrite len_app; pose proof (len_nonneg (oc_data c)); lia).
  assert (Hso : same_operation op op1) by done.
  (* the journal after the chunk, while it is not the last *)
  assert (Hheld : oc_last c = false ->
    held (offers ++ [c]) d1 sid rid (op_paths op) j1 (ps ++ [c]) (b ++ oc_data c) (oc_last c)).
  { intros Hl. eapply held_chunk; try done.
    intros _ _. split; [done|]. intros m Em. rewrite En1 in Em. injection Em as <-. by rewrite Ec1. }
  assert (Hfailing : failing (offers ++ [c]) d1 op1 sid rid).
  { exists (ps ++ [c]), (b ++ oc_data c), (oc_last c). split; [by eapply tracks_mono|].
    intros e. eapply held_chunk; try done. by destruct e. }
  assert (Hunf1 : unfinished (op_journal op1) = false).
  { unfold unfinished. cbn. by rewrite Hfn. }
  assert (Hlive : forall d2, evolves rid d1 d2 ->
    d_files d2 !! ap_temp_path (op_paths op) = d_files d1 !! ap_temp_path (op_paths op) ->
    d_opened d2 !! handle_file h = Some (ap_temp_path (op_paths op)) ->
    tracks d2 (op_paths op) (len (b ++ oc_data c)) -> oc_last c = false ->
    live (offers ++ [c]) d2 op1 sid rid (ps ++ [c]) (b ++ oc_data c) false).
  { intros d2 Ev2 Et2 Eo2 Ht2 Hl. split; [|done|done|].
    - destruct Ha. split; [done|done| |done]. rewrite <- Hl.
      eapply held_step; [exact Ev2|by left|reflexivity|]. by apply Hheld.
    - unfold live_phase, op1. cbn. rewrite Hcm. split; [done|]. split; [done|]. split; [done|].
      split; [by rewrite Hh|]. exists (advance_handle h (oc_data c)), n1. split; [done|].
      split; [destruct h; cbn in Hat |- *; rewrite ?length_app; lia|].
      split; [by destruct h|by rewrite Et2]. }
  destruct (oc_last c) eqn:Hlast; cbn [negb].
  - change (aj_total_bytes j1) with (aj_total_bytes (op_journal op)).
    destruct (is_none_or (aj_total_bytes (op_journal op)) (fun total => aj_bytes_written j1 =? total))
      eqn:Htot1; cbn [negb]; intros H; injection H as <- <- <-;
      (split; [done|]; split; [done|]; split; [done|]); [|done].
    split; [done|]. split; [done|]. split; [done|].
    split; [intros m Em; change (op_paths op1) with (op_paths op) in Em; cbn; congruence|].
    exists (ps ++ [c]), (b ++ oc_data c). split; [by eapply tracks_mono|].
    intros name Hname.
    enough (Hgoal : held (offers ++ [c]) d1 sid rid (op_paths op)
      (with_final j1 name (sha256_hex (op_hasher op ++ oc_data c))) (ps ++ [c])
      (b ++ oc_data c) (oc_last c)) by by rewrite Hlast in Hgoal.
    eapply held_chunk; try done.
    + cbn. intros _. split; [done|]. split; [by rewrite Hh|]. split; [|done].
      rewrite len_app, <- (he_bytes _ _ _ _ _ _ _ _ _ He). exact Htot1.
    + cbn. intros _ Hnil. destruct Hname as (? & ? & -> & _). done.
  - destruct (oc_carrier c).
    + intros H. injection H as <- <- <-. split; [done|]. split; [done|]. split; [done|].
      split; [done|]. split; [done|]. exists (ps ++ [c]), (b ++ oc_data c), false.
      apply Hlive; try done; [by rewrite Hop1|by eapply tracks_mono].
    + destruct (persist_attachment_operation _ j1 false d1) as [[[]|e] d2] eqn:Ep;
        intros H; injection H as <- <- <-;
        pose proof (persist_temp _ _ (he_laid _ _ _ _ _ _ _ _ _ He) _ _ _ _ _ Ep) as Etp;
        pose proof (fun file => persist_opened _ _ (he_laid _ _ _ _ _ _ _ _ _ He) _ _ _ _ _ file Ep) as Eop;
        apply (persist_leaves _ _ (he_laid _ _ _ _ _ _ _ _ _ He)) in Ep;
        (eapply leaves_holds in Ep as (Ev2 & Hj2 & Ht2);
         [|reflexivity|apply He|apply He| |eapply tracks_mono; [exact Hmono|exact Ht1]|exact Hj1];
         [|intros j Hin; apply list_elem_of_singleton in Hin as ->;
           split; [cbn; rewrite (he_bytes _ _ _ _ _ _ _ _ _ He), len_app; lia|]; eauto]).
      * split; [by transitivity d1|]. split; [done|]. split; [done|]. split; [done|]. split; [done|].
        exists (ps ++ [c]), (b ++ oc_data c), false. apply Hlive; try done.
        apply Eop. by rewrite Hop1.
      * split; [by transitivity d1|]. split; [done|]. split; [done|]. split; [done|].
        exists (ps ++ [c]), (b ++ oc_data c), false. split; [done|].
        intros e'. apply held_error. eapply held_step; [exact Ev2|by left|reflexivity|].
        by apply Hheld.
Qed.


(** ** What a committed answer promises *)

(** The upload [rid] of [sid]: the chunks it took in sequence are [bytes], and
    the file in its media directory holds bytes of their digest, flushed with
    its entry; [reply] is that file or a link to it. *)
Definition stored (offers : list AttachmentOperationChunk) (d : Disk) (sid rid : text)
    (next_seq bytes_received : Z) (reply : option Path) : Prop :=
  exists paths descriptor carrier carrier_id pieces bytes name n path,
    laid_out rid paths /\ resolve_session_dir root sid = Some (ap_session_dir paths) /\
    od_session_id descriptor = sid /\ od_request_id descriptor = rid /\
    pieces `sublist_of` offers /\
    assembled descriptor carrier carrier_id pieces bytes true /\
    next_seq = wire_seq (len pieces) /\ bytes_received = len bytes /\
    is_none_or (od_total_bytes descriptor) (fun total => len bytes =? total) = true /\
    public_name name /\
    let file := ap_media_dir paths ++ [name] in
    d_files d !! file = Some n /\ sha256_hex (contents n) = sha256_hex bytes /\
    file ∉ d_dirty d /\ file ∉ d_loose d /\
    reply = Some path /\ reply_to d file path.

Lemma held_stored offers d sid rid paths j ps b f :
  held offers d sid rid paths j ps b f -> aj_committed j = true ->
  stored offers d sid rid (wire_seq (aj_next_seq j)) (aj_bytes_written j) (aj_abs_path j).
Proof.
  intros [ids laid media session offered asm sq by_ fin com open] Hc.
  destruct (com Hc) as (Hn & (n & En & Hs & Hd & Hl) & reply & Ha & Hr).
  destruct (fin Hn) as (-> & Hsha & Htot & Hpub).
  exists paths, (journal_descriptor j), (aj_carrier j), (aj_carrier_id j), ps, b, (aj_final_name j), n, reply.
  rewrite sq, by_, Ha. destruct ids as [<- <-]. unfold final_path in *. rewrite Hsha in Hs.
  split_and!; done.
Qed.

Lemma stored_evolves other offers offers' d d' sid rid next bytes reply :
  evolves other d d' -> offers `sublist_of` offers' ->
  stored offers d sid rid next bytes reply -> stored offers' d' sid rid next bytes reply.
Proof.
  intros Ev Ho (paths & de & ca & cid & ps & b & name & n & path & La & Hs & H1 & H2 & Hps & Ha &
    Hn & Hb & Ht & Hp & En & Hh & Hd & Hl & Hr & Hrt).
  assert (Hf : ~ footprint other (ap_media_dir paths ++ [name]) /\
               ~ is_manifest (ap_media_dir paths ++ [name])).
  { split.
    - intros [Hx _]. unfold private in Hx. rewrite parent_snoc in Hx. by apply (lo_media _ _ La).
    - intros [Hx _]. rewrite last_snoc in Hx. injection Hx as Hx.
      by apply public_not_manifest in Hp. }
  destruct Hf as [Hf1 Hf2].
  exists paths, de, ca, cid, ps, b, name, n, path. cbv zeta.
  split_and!; try done.
  - by transitivity offers.
  - by apply (ev_kept _ _ _ Ev).
  - intros Hx. apply Hd. eapply ev_dirty; eauto.
  - intros Hx. apply Hl. eapply ev_loose; eauto.
  - by eapply reply_to_evolves.
Qed.

(** An answer told to a carrier. *)
Definition receipt_good offers d sid rid (r : AttachmentOperationResult) : Prop :=
  forall receipt, r = Ok receipt -> re_committed receipt = true ->
    stored offers d sid rid (re_next_seq receipt) (re_bytes_received receipt) (re_abs_path receipt).

Lemma held_receipt offers d sid rid paths j ps b f :
  held offers d sid rid paths j ps b f ->
  receipt_good offers d sid rid (Ok (receipt_from_journal j)).
Proof. intros He receipt H Hc. injection H as <-. by eapply held_stored. Qed.

(** ** A journal that takes no more bytes *)

Lemma held_recovered offers d0 d sid rid paths j ps b f jx :
  held offers d0 sid rid paths j ps b f -> unfinished j = true -> evolves rid d0 d ->
  d_files d !! ap_temp_path paths = d_files d0 !! ap_temp_path paths \/
    d_files d !! ap_temp_path paths = None ->
  recovered paths d j jx -> held offers d sid rid paths jx ps b f.
Proof.
  intros He Hun Ev Ht Hr.
  pose proof (held_step _ _ offers _ _ _ _ _ _ _ _ _ Ev Ht ltac:(reflexivity) He) as He'.
  unfold unfinished in Hun. rewrite !andb_true_iff, !negb_true_iff in Hun.
  destruct Hun as [[Hn%bool_decide_eq_false Hc] Herr].
  destruct He' as [ids laid media session offered asm sq by_ fin com open].
  destruct (fin Hn) as (Hf & Hsha & Htot & Hpub).
  destruct Hr as [|reply Hp Hrt|reply Hp Hrt]; split; try done.
  - intros _. split; [done|]. split; [done|]. by exists reply.
  - intros _. split; [done|]. split; [done|]. by exists reply.
Qed.

Lemma take_terminal offers d op sid rid ps b f c adv op' d' :
  held offers d sid rid (op_paths op) (op_journal op) ps b f ->
  aj_committed (op_journal op) = true -> take_chunk op c d = (adv, op', d') ->
  op' = op /\ d' = d /\
  match adv with
  | Ok (Answer r) => receipt_good offers d sid rid r
  | Ok (Fail _) => True
  | _ => False
  end.
Proof.
  intros He Hc. unfold take_chunk. rewrite Hc. cbn [orb].
  destruct (negb (String.eqb _ _)); [intros H; by injection H as <- <- <-|].
  destruct (is_last_accepted_duplicate _ _ _); intros H; injection H as <- <- <-;
    (split; [done|]; split; [done|]); [|done].
  by eapply held_receipt.
Qed.

Definition parked (op : ActiveOperation) : Prop :=
  op_registered op = false /\ op_commit op = None /\ terminal (op_journal op) = true.

Lemma recover_holds offers d sid rid paths j ps b f ok j' d' :
  held offers d sid rid paths j ps b f -> unfinished j = true -> tracks d paths (len b) ->
  journal_holds offers d sid rid ->
  recover_finalization paths j d = (ok, j', d') ->
  evolves rid d d' /\ journal_holds offers d' sid rid /\ tracks d' paths (len b) /\
  held offers d' sid rid paths j' ps b f /\
  (if ok then aj_committed j' = true else aj_error j' <> ""%string).
Proof.
  intros He Hun Ht Hj H. pose proof (he_laid _ _ _ _ _ _ _ _ _ He) as La.
  assert (Hpub : public_name (aj_final_name j)).
  { unfold unfinished in Hun. rewrite !andb_true_iff, !negb_true_iff in Hun.
    destruct Hun as [[Hn%bool_decide_eq_false _] _]. by apply (he_final _ _ _ _ _ _ _ _ _ He). }
  apply (recover_spec rid) in H; [|done|by apply public_not_manifest].
  destruct H as (js & Le & Hjs & Hok).
  assert (Hall : forall jx, jx ∈ j' :: js -> held offers d' sid rid paths jx ps b f).
  { intros jx Hx. eapply held_recovered; [done|done|apply Le|apply Le|by apply Hjs]. }
  split; [apply Le|].
  destruct (journal_holds_own offers offers d d' sid rid paths js (len b)) as [Hj' Ht']; try done.
  - apply He.
  - intros jx Hx. assert (held offers d' sid rid paths jx ps b f) as Hh.
    { apply Hall. by right. }
    split; [by rewrite (he_bytes _ _ _ _ _ _ _ _ _ Hh)|eauto].
  - split; [done|]. split; [done|]. split; [apply Hall; by left|].
    destruct ok; [by destruct Hok as [reply ->]|done].
Qed.

Lemma advance_parked offers d env op sid rid ps b f c adv op' d' :
  at_hand offers d op sid rid ps b f -> parked op -> journal_holds offers d sid rid ->
  advance env op c d = (adv, op', d') ->
  evolves rid d d' /\ journal_holds offers d' sid rid /\ same_operation op op' /\
  match adv with
  | Ok (Answer r) => receipt_good offers d' sid rid r
  | Ok (Fail _) => failing offers d' op' sid rid
  | _ => False
  end.
Proof.
  intros [Hp Hk He Ht] (Hr & Hc & Hterm) Hj. unfold advance. rewrite Hc.
  set (op0 := set_last_activity op (env_now env)).
  assert (H0 : at_hand offers d op0 sid rid ps b f) by done.
  assert (Hs0 : same_operation op op0) by done.
  change (op_journal op0) with (op_journal op). change (op_paths op0) with (op_paths op).
  destruct (String.eqb (aj_error (op_journal op)) "") eqn:Herr; cbn [negb].
  2:{ intros H. by injection H as <- <- <-. }
  assert (Hn : aj_final_name (op_journal op) <> []).
  { unfold terminal in Hterm. rewrite Herr in Hterm. cbn in Hterm.
    apply orb_true_iff in Hterm as [Hco|Hn]; [by apply (he_committed _ _ _ _ _ _ _ _ _ He)|].
    apply negb_true_iff, bool_decide_eq_false in Hn. done. }
  rewrite bool_decide_eq_false_2 by done. cbn [negb andb].
  destruct (aj_committed (op_journal op)) eqn:Hco; cbn [negb].
  - intros H. eapply take_terminal in H as (-> & -> & H); [|apply H0|done].
    split; [done|]. split; [done|]. split; [done|].
    destruct adv as [[]|]; try done. by eapply at_hand_failing.
  - destruct (recover_finalization (op_paths op) (op_journal op) d) as [[ok j] d1] eqn:Erec.
    assert (Hun : unfinished (op_journal op) = true).
    { unfold unfinished. rewrite Herr, Hco, bool_decide_eq_false_2 by done. done. }
    pose proof (recover_holds _ _ _ _ _ _ _ _ _ _ _ _ He Hun Ht Hj Erec) as (Ev & Hj1 & Ht1 & He1 & Hok).
    destruct ok; cbn [negb].
    2:{ intros H. by injection H as <- <- <-. }
    intros H. eapply take_terminal in H as (-> & -> & H); [|exact He1|done].
    split; [done|]. split; [done|]. split; [done|].
    destruct adv as [[]|]; try done.
    exists ps, b, f. split; [done|]. intros e'. by apply held_error.
Qed.


(** ** Committing *)

Lemma begin_commit_holds offers d env active op sid rid step active' d' :
  proper sid rid -> op_key op = operation_key sid rid -> op_registered op = true ->
  ready offers d op sid rid -> journal_holds offers d sid rid ->
  begin_commit env active op d = (step, active', d') ->
  evolves rid d d' /\ journal_holds offers d' sid rid /\
  match step with
  | Settle r => active' = active /\ exists e, r = Err e
  | Wait => False
  | Committing => exists op' ps b f, active' = <[op_key op' := op']> active /\
      live offers d' op' sid rid ps b f
  end.
Proof.
  intros Hp Hk Hreg (Hfn & Hco & Herr & Htemp & ps & b & Ht & Hw) Hj. unfold begin_commit.
  set (name := reserve_attachment_destination _ _ _ _).
  pose proof (reserved_public d (ap_media_dir (op_paths op)) (aj_filename (op_journal op))
                (env_millis env) : public_name name) as Hname.
  specialize (Hw name Hname). set (j := with_final (op_journal op) name _) in *.
  cbv zeta. set (op0 := set_journal _ j). intros H.
  pose proof (he_laid _ _ _ _ _ _ _ _ _ Hw) as La.
  assert (Hnil : aj_final_name j <> []) by by apply public_not_nil.
  assert (Hun : unfinished j = true).
  { unfold unfinished. cbn. by rewrite Hco, Herr, bool_decide_eq_false_2. }
  assert (Hfailed : forall d1, commit_failed op0 d1 = (WriteFailed, d1)).
  { intros d1. unfold commit_failed. change (op_journal op0) with j. by rewrite Hun. }
  assert (Hpersist : forall r d0, persist_attachment_operation (op_paths op) j false d = (r, d0) ->
    evolves rid d d0 /\ journal_holds offers d0 sid rid /\ tracks d0 (op_paths op) (len b) /\
    held offers d0 sid rid (op_paths op) j ps b true /\
    forall n, d_files d0 !! ap_temp_path (op_paths op) = Some n -> contents n = op_hasher op).
  { intros r d0 E0. pose proof (persist_temp _ _ La _ _ _ _ _ E0) as Et.
    apply (persist_leaves _ _ La) in E0.
    eapply leaves_holds in E0 as (Ev0 & Hj0 & Ht0);
      [|reflexivity|done|apply Hw| |done|done].
    2:{ intros jx Hx. apply list_elem_of_singleton in Hx as ->.
        split; [rewrite (he_bytes _ _ _ _ _ _ _ _ _ Hw); lia|eauto]. }
    split; [done|]. split; [done|]. split; [done|].
    split; [eapply held_step; [done|by left|reflexivity|done]|by rewrite Et]. }
  assert (Hplaced : forall d0 d1, held offers d0 sid rid (op_paths op) j ps b true ->
    tracks d0 (op_paths op) (len b) -> journal_holds offers d0 sid rid ->
    leaves rid (op_paths op) [] d0 d1 ->
    journal_holds offers d1 sid rid /\ tracks d1 (op_paths op) (len b) /\
    held offers d1 sid rid (op_paths op) j ps b true).
  { intros d0 d1 Hw0 Ht0 Hj0 Le.
    destruct (journal_holds_own offers offers d0 d1 sid rid (op_paths op) [] (len b))
      as [Hj1 Ht1]; [done|reflexivity|done|apply Hw0|by intros ? ?%elem_of_nil|done|done|].
    split; [done|]. split; [done|].
    eapply held_step; [apply Le|apply Le|reflexivity|done]. }
  destruct (bind _ _ d) as [[v|e] d1] eqn:E.
  - apply bind_inv in E as [(e & _ & E)|([] & d0 & E0 & E)]; [done|].
    apply Hpersist in E0 as (Ev0 & Hj0 & Ht0 & Hw0 & Htemp0).
    apply (place_spec rid (op_paths op) La) in E as [Le F].
    destruct (F v eq_refl) as (n & En & Hn). clear F.
    destruct (Hplaced d0 d1 Hw0 Ht0 Hj0 Le) as (Hj1 & Ht1 & Hw1).
    injection H as <- <- <-. split; [transitivity d0; [done|apply Le]|]. split; [done|].
    exists (set_commit op0 (Some FirstFlush)), ps, b, true.
    split; [done|]. split; [by split|done|done|].
    split; [done|]. split; [done|]. exists n. split; [done|].
    destruct v; [done|]. by rewrite (Htemp0 n Hn).
  - rewrite Hfailed in H. injection H as <- <- <-.
    apply bind_inv in E as [(e' & E0 & _)|([] & d0 & E0 & E)].
    + apply Hpersist in E0 as (Ev0 & Hj0 & _). split; [done|]. split; [done|]. eauto.
    + apply Hpersist in E0 as (Ev0 & Hj0 & Ht0 & Hw0 & _).
      apply (place_spec rid (op_paths op) La) in E as [Le _].
      destruct (Hplaced d0 d1 Hw0 Ht0 Hj0 Le) as (Hj1 & _).
      split; [transitivity d0; [done|apply Le]|]. split; [done|]. eauto.
Qed.


(** ** Opening *)

(** The ids a chunk names. *)
Definition chunk_ids (c : AttachmentOperationChunk) (sid rid : text) : Prop :=
  od_session_id (oc_descriptor c) = sid /\ od_request_id (oc_descriptor c) = rid.

Lemma last_project_media folder :
  last (project_media_dir folder) <> Some ATTACHMENT_OPERATION_DIR_NAME.
Proof.
  unfold project_media_dir. rewrite snoc_pair, last_snoc. done.
Qed.

Lemma prepared_media_proper sid rid folder prepared media :
  proper sid rid -> prepare_media_dir root sid folder prepared = Some media ->
  last media <> Some ATTACHMENT_OPERATION_DIR_NAME.
Proof.
  intros Hp. unfold prepare_media_dir.
  destruct (resolve_session_dir root sid) as [dir|] eqn:Ed; cbn; [|done].
  destruct (usable_project_dir root folder) as [dir'|] eqn:Eu.
  - intros H. injection H as <-. destruct prepared; [|by apply Hp].
    unfold usable_project_dir in Eu. destruct folder as [[f is_dir]|]; cbn in Eu; [|done].
    destruct (_ && _); [|done]. injection Eu as <-. apply last_project_media.
  - intros H. injection H as <-. by apply Hp.
Qed.

Lemma held_first d offers descriptor carrier cid media paths sid rid :
  chunk_ids (mkOperationChunk descriptor carrier cid 0 0 [] false None) sid rid ->
  laid_out rid paths -> ap_media_dir paths = media ->
  resolve_session_dir root sid = Some (ap_session_dir paths) ->
  held offers d sid rid paths (first_journal descriptor carrier cid media) [] [] false.
Proof.
  intros [H1 H2] La Hm Hs. cbn in H1, H2. split; try done.
  - cbn. by rewrite Hm.
  - apply sublist_nil_l.
  - constructor.
  - intros _ _. split; [done|]. intros n _ Hl. apply length_zero_iff_nil.
    unfold len in Hl. cbn in Hl. lia.
Qed.

Lemma resume_spec temp j d r d' :
  resume_temp temp j d = (r, d') ->
  quiet d d' /\ forall file fed, r = Ok (file, fed) -> d_opened d' !! file = Some temp /\
    exists n, d_files d !! temp = Some n /\
    contents n = fed /\ len (contents n) = aj_bytes_written j.
Proof.
  unfold resume_temp, temp_matches_journal. destruct (d_files d !! temp) as [n|] eqn:En; cbn [negb].
  2:{ intros H. injection H as <- <-. done. }
  destruct (len (contents n) =? aj_bytes_written j) eqn:El; cbn [negb].
  2:{ intros H. injection H as <- <-. done. }
  apply Z.eqb_eq in El.
  intros H. apply bind_inv in H as [(e & H & ->)|(m & d1 & H1 & H)].
  { apply read_quiet in H; [|done]. done. }
  apply read_quiet in H1; [|done].
  apply bind_inv in H as [(e & H & ->)|(file & d2 & H2 & H)];
    apply open_file_spec in H || apply open_file_spec in H2.
  { destruct H as (Q & _). split; [by transitivity d1|done]. }
  destruct H2 as (Q2 & _ & _ & _ & file' & [= <-] & Ho).
  apply bind_inv in H as [(e & H & ->)|(fed & d3 & H3 & H)].
  { apply read_file_quiet in H as [Q _]. split; [|done]. transitivity d1; [done|by transitivity d2]. }
  apply read_file_quiet in H3 as [Q F]. unfold ret in H. injection H as <- <-.
  split; [transitivity d1; [done|by transitivity d2]|]. intros file' fed' [= <- <-].
  split; [eapply lookup_weaken; [exact Ho|apply Q]|].
  destruct (F fed eq_refl) as (n' & E' & Ec).
  rewrite (qu_files _ _ Q2), (qu_files _ _ H1), En in E'. injection E' as <-. eauto.
Qed.

(** An operation that takes the chunk: in the table, resumed or new, or a
    journal that only answers. *)
Definition opened (offers : list AttachmentOperationChunk) (d : Disk) (op : ActiveOperation)
    (sid rid : text) : Prop :=
  (exists ps b f, live offers d op sid rid ps b f) \/
  (exists ps b f, at_hand offers d op sid rid ps b f /\ parked op).

Lemma quiet_journal_holds offers d d' sid rid :
  quiet d d' -> journal_holds offers d sid rid -> journal_holds offers d' sid rid.
Proof.
  intros Q H dir n Hd En. rewrite (qu_files _ _ Q) in En.
  destruct (H dir n Hd En) as (j & p & ps & b & f & -> & He). exists j, p, ps, b, f.
  split; [done|]. eapply (held_step rid); [by apply quiet_evolves|left; by rewrite (qu_files _ _ Q)|reflexivity|done].
Qed.

Lemma open_loaded_holds offers env d sid rid paths j ps b f r d' :
  proper sid rid -> held offers d sid rid paths j ps b f -> tracks d paths (len b) ->
  journal_holds offers d sid rid ->
  open_loaded env (operation_key sid rid) paths j d = (r, d') ->
  evolves rid d d' /\ journal_holds offers d' sid rid /\
  (forall op, r = Ok op -> op_journal op = j /\ op_key op = operation_key sid rid /\
     opened offers d' op sid rid).
Proof.
  intros Hp He Ht Hj. unfold open_loaded. destruct (terminal j) eqn:Hterm.
  { intros H. injection H as <- <-. split; [done|]. split; [done|]. intros op Ho.
    injection Ho as <-. split; [done|]. split; [done|]. right. exists ps, b, f. by split. }
  unfold terminal in Hterm. rewrite !orb_false_iff, !negb_false_iff in Hterm.
  destruct Hterm as [[Herr%String.eqb_eq Hco] Hn%bool_decide_eq_true].
  destruct (he_open _ _ _ _ _ _ _ _ _ He Herr Hn) as [-> Hopen].
  pose proof (he_laid _ _ _ _ _ _ _ _ _ He) as La.
  destruct (resume_temp (ap_temp_path paths) j d) as [[[file fed]|e] d1] eqn:E;
    apply resume_spec in E as [Q F].
  - intros H. injection H as <- <-. destruct (F file fed eq_refl) as (Eo & n & En & Ec & El).
    assert (Hb : contents n = b).
    { apply Hopen; [done|]. by rewrite El, (he_bytes _ _ _ _ _ _ _ _ _ He). }
    split; [by apply quiet_evolves|]. split; [by eapply quiet_journal_holds|].
    intros op Ho. injection Ho as <-. split; [done|]. split; [done|]. left.
    exists ps, b, false. split; [|done|done|].
    + split; [done|done| |].
      * eapply (held_step rid); [by apply quiet_evolves|left; by rewrite (qu_files _ _ Q)|reflexivity|done].
      * intros m Em. rewrite (qu_files _ _ Q) in Em. by apply Ht.
    + cbn. split; [done|]. split; [done|]. split; [done|]. split; [congruence|].
      exists (AtEnd file), n. rewrite (qu_files _ _ Q). repeat split; try done.
  - destruct (fail_journal paths j WriteFailed d1) as [jf df] eqn:Ef. cbn.
    apply (fail_journal_spec rid paths La) in Ef as [_ Le].
    intros H. injection H as <- <-.
    assert (Le' : leaves rid paths [with_error j WriteFailed] d df)
      by (transitivity d1; [by apply quiet_leaves|done]).
    eapply leaves_holds in Le' as (Ev & Hj' & _);
      [|reflexivity|done|apply He| |done|done]; [split_and!; [done|done|intros ? [=]]|].
    intros jx Hx. apply list_elem_of_singleton in Hx as ->.
    split; [cbn; rewrite (he_bytes _ _ _ _ _ _ _ _ _ He); lia|].
    exists ps, b, false. by apply held_error.
Qed.

Lemma open_new_holds offers env d c sid rid r d' :
  proper sid rid -> chunk_ids c sid rid -> journal_holds offers d sid rid ->
  (valid_opaque_id rid = false \/ resolve_session_dir root sid = None \/
   exists dir, resolve_session_dir root sid = Some dir /\
     d_files d !! (dir ++ [ATTACHMENT_OPERATION_DIR_NAME; rid ++ chars ".json"]) = None) ->
  create_attachment_operation root (oc_descriptor c) (oc_carrier c) (oc_carrier_id c)
    (prepare_media_dir root sid (env_folder env) (env_prepared env)) d = (r, d') ->
  evolves rid d d' /\ journal_holds offers d' sid rid /\
  (forall paths j, r = Ok (Some (paths, j)) ->
     j = first_journal (oc_descriptor c) (oc_carrier c) (oc_carrier_id c) (ap_media_dir paths) /\
     laid_out rid paths /\ resolve_session_dir root sid = Some (ap_session_dir paths) /\
     d_files d' !! ap_journal_path paths = Some (JournalText j)).
Proof.
  intros Hp [H1 H2] Hempty Hmissing H.
  apply create_operation_spec in H as [[-> ->]|(m & paths & Em & Ep & Le & F)].
  - done.
  - rewrite H1, H2 in Ep.
    destruct (paths_laid_out _ _ _ _ _ Ep (prepared_media_proper _ _ _ _ _ Hp Em)) as (La & Hm & Hs).
    rewrite H2 in Le.
    assert (Hnone : d_files d !! ap_journal_path paths = None).
    { rewrite <- (journal_path_eq _ _ La). destruct Hmissing as [Hv|[Hv|(dir & Hd & E)]].
      - unfold create_attachment_operation_paths in Ep. by rewrite Hv in Ep.
      - congruence.
      - congruence. }
    assert (Hfirst : forall dx, held offers dx sid rid paths
      (first_journal (oc_descriptor c) (oc_carrier c) (oc_carrier_id c) m) [] [] false)
      by (intros dx; by apply held_first).
    destruct (journal_holds_own offers offers d d' sid rid paths
      [first_journal (oc_descriptor c) (oc_carrier c) (oc_carrier_id c) m] 0) as [Hj' _]; try done.
    + intros j Hx. apply list_elem_of_singleton in Hx as ->. split; [done|]. eauto.
    + intros n En. by rewrite Hnone in En.
    + split; [apply Le|]. split; [done|]. intros p j Hr. destruct (F _ Hr) as [Ho En].
      injection Ho as -> ->. rewrite Hm. auto.
  - intros m Em. by eapply prepared_media_proper.
Qed.

Lemma same_upload_first c media :
  same_upload (first_journal (oc_descriptor c) (oc_carrier c) (oc_carrier_id c) media) c = true.
Proof.
  unfold same_upload, same_descriptor, same_carrier. cbn. by rewrite !bool_decide_eq_true_2.
Qed.

Lemma truncate_holds offers d sid rid paths j r d' :
  proper sid rid -> laid_out rid paths -> resolve_session_dir root sid = Some (ap_session_dir paths) ->
  (forall dx, held offers dx sid rid paths j [] [] false) ->
  d_files d !! ap_journal_path paths = Some (JournalText j) ->
  bind (create_truncate_private_file (ap_temp_path paths))
    (fun _ => open_file (ap_temp_path paths)) d = (r, d') ->
  evolves rid d d' /\ journal_holds offers d' sid rid /\ tracks d' paths 0 /\
  (forall file, r = Ok file -> d_opened d' !! file = Some (ap_temp_path paths) /\
     d_files d' !! ap_temp_path paths = Some (Bytes [])).
Proof.
  intros Hp La Hs He En H. apply create_open_spec in H as [A F].
  assert (En' : d_files d' !! ap_journal_path paths = Some (JournalText j)).
  { rewrite (am_files _ _ _ A); [done|]. destruct (own_paths_differ _ _ La) as (_ & ? & _). set_solver. }
  split; [|split; [|split; [|done]]].
  - eapply at_most_evolves, A. intros p Hx. left. eapply own_paths; [done|set_solver].
  - intros dir n Hd Em. assert (dir = ap_session_dir paths) as -> by congruence.
    rewrite (journal_path_eq _ _ La), En' in Em. injection Em as <-.
    exists j, paths, [], [], false. auto.
  - intros n Em. rewrite En' in Em. injection Em as <-. exists j. split; [done|].
    specialize (He d'). split; [apply He|]. rewrite (he_bytes _ _ _ _ _ _ _ _ _ He). done.
Qed.


(** Reading the journal of an upload back finds the journal that holds. *)
Lemma loaded_holds offers d sid rid paths j :
  proper sid rid -> journal_holds offers d sid rid ->
  (exists dir media n, resolve_session_dir root sid = Some dir /\
     d_files d !! (dir ++ [ATTACHMENT_OPERATION_DIR_NAME; rid ++ chars ".json"]) = Some n /\
     as_journal n = Some j /\ recorded_media_dir dir (aj_media_dir j) = Some media /\
     create_attachment_operation_paths root sid rid media = Some paths /\
     aj_session_id j = sid /\ aj_request_id j = rid) ->
  exists ps b f, held offers d sid rid paths j ps b f /\ tracks d paths (len b).
Proof.
  intros Hp Hj (dir & media & n & Hd & En & Ej & Hm & Ep & _).
  destruct (Hj dir n Hd En) as (j0 & p0 & ps & b & f & -> & He). cbn in Ej. injection Ej as ->.
  pose proof (he_laid _ _ _ _ _ _ _ _ _ He) as La0.
  rewrite (he_media _ _ _ _ _ _ _ _ _ He) in Hm.
  assert (media = ap_media_dir p0) as ->.
  { unfold recorded_media_dir in Hm. case_match; congruence. }
  destruct (paths_laid_out _ _ _ _ _ Ep (lo_media _ _ La0)) as (La & Hmd & Hs).
  assert (p0 = paths) as ->.
  { eapply laid_out_eq; [done|done|done|]. pose proof (he_session _ _ _ _ _ _ _ _ _ He). congruence. }
  exists ps, b, f. split; [done|]. intros m Em.
  assert (dir = ap_session_dir paths) as -> by congruence.
  rewrite (journal_path_eq _ _ La) in En. rewrite En in Em. injection Em as <-.
  exists j. split; [done|]. split; [apply He|]. rewrite (he_bytes _ _ _ _ _ _ _ _ _ He). lia.
Qed.

Lemma create_holds (offers : list AttachmentOperationChunk) (env : Env) (active active' : ActiveTable)
    c (d d' : Disk) sid rid (res : result (result ActiveOperation AttachmentOperationError) unit) :
  proper sid rid -> chunk_ids c sid rid -> journal_holds offers d sid rid ->
  (valid_opaque_id rid = false \/ resolve_session_dir root sid = None \/
   exists dir, resolve_session_dir root sid = Some dir /\
     d_files d !! (dir ++ [ATTACHMENT_OPERATION_DIR_NAME; rid ++ chars ".json"]) = None) ->
  match create_attachment_operation root (oc_descriptor c) (oc_carrier c) (oc_carrier_id c)
          (prepare_media_dir root sid (env_folder env) (env_prepared env)) d with
  | (Err _, d) => (Err tt, active, d)
  | (Ok None, d) => (Ok (Err UploadNotFound), active, d)
  | (Ok (Some (paths, j)), d) =>
      match bind (create_truncate_private_file (ap_temp_path paths))
              (fun _ => open_file (ap_temp_path paths)) d with
      | (Ok file, d) =>
          (Ok (Ok (activate env (operation_key sid rid) paths j (Some (Cursor file 0)) [] true)),
           active, d)
      | (Err _, d) => (Ok (Err WriteFailed), active, (fail_journal paths j WriteFailed d).2)
      end
  end = (res, active', d') ->
  evolves rid d d' /\ journal_holds offers d' sid rid /\ active' = active /\
  forall op, res = Ok (Ok op) ->
    same_upload (op_journal op) c = true /\ op_key op = operation_key sid rid /\
    opened offers d' op sid rid.
Proof.
  intros Hp Hids Hj Hmiss.
  destruct (create_attachment_operation _ _ _ _ _ d) as [r d1] eqn:Ec.
  pose proof (open_new_holds offers env d c sid rid r d1 Hp Hids Hj Hmiss Ec) as (Ev1 & Hj1 & F).
  clear Ec. destruct r as [[[paths j]|]|e].
  2,3: intros H; injection H as <- <- <-; split_and!; [done|done|done|by intros ? [=]].
  destruct (F paths j eq_refl) as (Ej & La & Hs & En).
  assert (Hfirst : forall dx, held offers dx sid rid paths j [] [] false).
  { intros dx. rewrite Ej. by apply held_first. }
  destruct (bind (create_truncate_private_file _) _ d1) as [[file|e] d2] eqn:Et;
    pose proof (truncate_holds offers d1 sid rid paths j _ d2 Hp La Hs Hfirst En Et)
      as (Ev2 & Hj2 & Ht2 & Hn2).
  - intros H. injection H as <- <- <-.
    split; [by transitivity d1|]. split; [done|]. split; [done|].
    intros op Ho. injection Ho as <-. cbn [op_journal op_key activate].
    split; [rewrite Ej; apply same_upload_first|]. split; [done|].
    left. exists [], [], false. split.
    + split; [done|done|apply Hfirst|done].
    + done.
    + by rewrite Ej.
    + cbn. rewrite Ej. cbn. split_and!; try done.
      exists (Cursor file 0), (Bytes []). destruct (Hn2 file eq_refl). auto.
  - destruct (fail_journal paths j WriteFailed d2) as [jf df] eqn:Ef. cbn.
    apply (fail_journal_spec rid paths La) in Ef as [_ Le].
    intros H. injection H as <- <- <-.
    eapply leaves_holds in Le as (Ev & Hj' & _);
      [|reflexivity|done|done| |done|done].
    + split; [transitivity d1; [done|by transitivity d2]|]. split; [done|]. split; [done|].
      by intros ? [=].
    + intros jx Hx. apply list_elem_of_singleton in Hx as ->.
      split; [cbn; rewrite (he_bytes _ _ _ _ _ _ _ _ _ (Hfirst d)); done|].
      exists [], [], false. apply held_error, Hfirst.
Qed.

Lemma prepare_holds offers env active c d sid rid res active' d' :
  proper sid rid -> chunk_ids c sid rid -> journals_hold offers d -> table_holds offers d active ->
  prepare root env active c d = (res, active', d') ->
  evolves rid d d' /\ journal_holds offers d' sid rid /\
  match res with
  | Ok (Ok op) => active' = delete (operation_key sid rid) active /\
      same_upload (op_journal op) c = true /\ op_key op = operation_key sid rid /\
      opened offers d' op sid rid
  | _ => active' = active /\ (d' = d \/ active !! operation_key sid rid = None)
  end.
Proof.
  intros Hp Hids Hj Ht. pose proof Hids as [H1 H2].
  unfold prepare, chunk_key. rewrite H1, H2.
  pose proof (Hj sid rid Hp) as Hjr.
  destruct (active !! operation_key sid rid) as [op|] eqn:Eop.
  { destruct (same_upload (op_journal op) c) eqn:Hs; cbn [negb]; intros H; injection H as <- <- <-.
    2:{ split_and!; [reflexivity|done|done|by left]. }
    split; [done|]. split; [done|]. split; [done|]. split; [done|].
    destruct (Ht _ _ Eop) as [Hk (sid' & rid' & ps & b & f & Hl)]. split; [done|]. left.
    pose proof (lv_at_hand _ _ _ _ _ _ _ _ Hl) as Ha.
    pose proof (ah_key _ _ _ _ _ _ _ _ Ha) as Hk'. rewrite Hk in Hk'.
    destruct (key_inj _ _ _ _ (pr_nul _ _ Hp) (pr_nul _ _ (ah_proper _ _ _ _ _ _ _ _ Ha)) Hk') as [-> ->].
    eauto. }
  assert (Hdel : delete (operation_key sid rid) active = active) by by apply delete_id.
  rewrite Hdel.
  destruct (load_attachment_operation root sid rid d) as [[| |paths j] d1] eqn:El;
    apply load_spec in El as [Q El];
    pose proof (quiet_journal_holds _ _ _ _ _ Q Hjr) as Hj1;
    pose proof (quiet_evolves rid _ _ Q) as Ev1.
  - destruct (oc_seq c =? 0); cbn [negb].
    2:{ intros H. injection H as <- <- <-. auto. }
    destruct (oc_offset c =? 0); cbn [negb].
    2:{ intros H. injection H as <- <- <-. auto. }
    intros H. eapply (create_holds offers) in H as (Ev & Hj' & -> & F); [|done|done|done|].
    2:{ by rewrite (qu_files _ _ Q). }
    split; [by transitivity d1|]. split; [done|].
    destruct res as [[op|e]|e]; [|by auto|by auto]. split; [done|]. by apply F.
  - intros H. injection H as <- <- <-. auto.
  - destruct (loaded_holds offers d sid rid paths j Hp Hjr El) as (ps & b & f & He & Htr).
    destruct (same_upload j c) eqn:Hs; cbn [negb].
    2:{ intros H. injection H as <- <- <-. auto. }
    destruct (open_loaded env _ paths j d1) as [r d2] eqn:Eo.
    assert (He1 : held offers d1 sid rid paths j ps b f)
      by (eapply (held_step rid); [done|left; by rewrite (qu_files _ _ Q)|reflexivity|done]).
    assert (Ht1 : tracks d1 paths (len b)).
    { intros m Em. rewrite (qu_files _ _ Q) in Em. by apply Htr. }
    pose proof (open_loaded_holds _ _ _ _ _ _ _ _ _ _ _ _ Hp He1 Ht1 Hj1 Eo) as (Ev2 & Hj2 & F).
    intros H. injection H as <- <- <-.
    split; [by transitivity d1|]. split; [done|].
    destruct r as [op|e]; [|by auto]. destruct (F op eq_refl) as (-> & Hk & Ho). done.
Qed.


(** ** Accepting a chunk *)

Lemma journal_holds_offers offers offers' d sid rid :
  offers `sublist_of` offers' -> journal_holds offers d sid rid -> journal_holds offers' d sid rid.
Proof.
  intros Ho H dir n Hd En. destruct (H dir n Hd En) as (j & p & ps & b & f & -> & He).
  exists j, p, ps, b, f. split; [done|]. by eapply held_offers.
Qed.

Lemma table_offers offers offers' d active :
  offers `sublist_of` offers' -> table_holds offers d active -> table_holds offers' d active.
Proof.
  intros Ho H key op E. destruct (H key op E) as [Hk (sid & rid & ps & b & f & [Ha Hr He Hph])].
  split; [done|]. exists sid, rid, ps, b, f. split; try done.
  destruct Ha. split; try done. by eapply held_offers.
Qed.

(** The invariant of everything, before and after a call for one upload. *)
Definition everything_holds offers d active : Prop :=
  journals_hold offers d /\ table_holds offers d active.

Lemma everything_step offers offers' d d' active active' sid rid :
  proper sid rid -> offers `sublist_of` offers' -> everything_holds offers d active ->
  evolves rid d d' -> journal_holds offers' d' sid rid ->
  (active' = delete (operation_key sid rid) active \/
   (exists op ps b f, active' = <[op_key op := op]> (delete (operation_key sid rid) active) /\
      live offers' d' op sid rid ps b f) \/
   (active' = active /\ (d' = d \/ active !! operation_key sid rid = None))) ->
  everything_holds offers' d' active'.
Proof.
  intros Hp Ho [Hj Ht] Ev Hj' Hcase. split; [by eapply journals_step|].
  pose proof (table_step _ _ _ _ _ _ _ Hp Ev Ho Ht) as Hdel.
  destruct Hcase as [->|[(op & ps & b & f & -> & Hl)|[-> [->|Hnone]]]].
  - done.
  - by eapply table_insert.
  - by eapply table_offers.
  - by rewrite delete_id in Hdel by done.
Qed.

Lemma live_unflushed offers d op sid rid ps b f :
  live offers d op sid rid ps b f -> op_commit op = None ->
  f = false /\ aj_final_name (op_journal op) = [] /\ aj_committed (op_journal op) = false.
Proof.
  intros [_ _ _ Hph] Hc. unfold live_phase in Hph. rewrite Hc in Hph. tauto.
Qed.

Lemma advance_live offers env d op sid rid ps b f c adv op' d' :
  live offers d op sid rid ps b f -> same_upload (op_journal op) c = true ->
  chunk_ids c sid rid -> journal_holds offers d sid rid ->
  advance env op c d = (adv, op', d') ->
  evolves rid d d' /\ journal_holds (offers ++ [c]) d' sid rid /\ same_operation op op' /\
  match adv with
  | Ok (Answer r) => receipt_good (offers ++ [c]) d' sid rid r /\
      exists ps b f, live (offers ++ [c]) d' op' sid rid ps b f
  | Ok AwaitCommit => exists ps b f, live (offers ++ [c]) d' op' sid rid ps b f
  | Ok (Fail _) | Err _ => unfinished (op_journal op') = false /\ failing (offers ++ [c]) d' op' sid rid
  | Ok Commit => ready (offers ++ [c]) d' op' sid rid
  end.
Proof.
  intros Hl Hs [H1 H2] Hj. unfold advance.
  assert (Ho : offers `sublist_of` offers ++ [c]) by (apply sublist_inserts_r; reflexivity).
  destruct (op_commit op) eqn:Hc.
  - intros H. injection H as <- <- <-. split; [done|].
    split; [by eapply journal_holds_offers|]. split; [done|].
    exists ps, b, f. destruct Hl as [[] ? ? ?]. split; try done. split; try done. by eapply held_offers.
  - destruct (live_unflushed _ _ _ _ _ _ _ _ Hl Hc) as (-> & Hn & Hco).
    set (op0 := set_last_activity op (env_now env)).
    assert (Hl0 : live offers d op0 sid rid ps b false).
    { destruct Hl as [[] Hr He Hph]. split; [by split|done|done|done]. }
    change (op_journal op0) with (op_journal op). rewrite (lv_error _ _ _ _ _ _ _ _ Hl), Hn. cbn -[take_chunk].
    intros H. eapply take_live in H as (Ev & Hj' & Hso & H); [|exact Hl0|done|done|done|done|done].
    split; [done|]. split; [done|]. split; [done|].
    destruct adv as [[r| | |]|]; try done. destruct H as (-> & Hc' & ps' & b' & f' & Hl').
    split; [|eauto]. intros receipt Hr Hrc. injection Hr as <-. cbn in Hrc. congruence.
Qed.

Lemma accept_holds offers env active c d sid rid step active' d' :
  proper sid rid -> chunk_ids c sid rid -> everything_holds offers d active ->
  accept_locked root env active c d = (step, active', d') ->
  evolves rid d d' /\ everything_holds (offers ++ [c]) d' active' /\
  match step with
  | Settle r => receipt_good (offers ++ [c]) d' sid rid r
  | _ => True
  end.
Proof.
  intros Hp Hids Hall.
  assert (Ho : offers `sublist_of` offers ++ [c]) by (apply sublist_inserts_r; reflexivity).
  assert (Hgood : forall e dx, receipt_good (offers ++ [c]) dx sid rid (Err e)) by by intros ? ? ? [=].
  assert (Hself : everything_holds (offers ++ [c]) d active).
  { eapply (everything_step offers _ d _ active _ sid rid); [done|done|done|reflexivity| |by right; right; auto].
    eapply journal_holds_offers; [done|by apply Hall]. }
  unfold accept_locked. destruct (valid_chunk c); cbn [negb].
  2:{ intros H. injection H as <- <- <-. split_and!; [reflexivity|done|by apply Hgood]. }
  destruct (is_none_or _ _); cbn [negb].
  2:{ intros H. injection H as <- <- <-. split_and!; [reflexivity|done|by apply Hgood]. }
  destruct Hall as [Hj Ht].
  destruct (prepare root env active c d) as [[[[op|e]|e] active1] d1] eqn:Epr;
    pose proof (prepare_holds _ _ _ _ _ _ _ _ _ _ Hp Hids Hj Ht Epr) as (Ev1 & Hj1 & Hres).
  2,3: destruct Hres as [-> Hres]; intros H; injection H as <- <- <-;
    (split; [done|]; split; [|done]);
    (eapply (everything_step offers _ d _ active _ sid rid); [done|exact Ho|by split|done|by eapply journal_holds_offers|tauto]).
  destruct Hres as (-> & Hsame & Hkey & Hopen).
  destruct (advance env op c d1) as [[adv op'] d2] eqn:Ead.
  assert (Hfin : forall d3 active3, evolves rid d1 d3 ->
    journal_holds (offers ++ [c]) d3 sid rid ->
    (active3 = delete (operation_key sid rid) active \/
     exists op3 ps b f, active3 = <[op_key op3 := op3]> (delete (operation_key sid rid) active) /\
       live (offers ++ [c]) d3 op3 sid rid ps b f) ->
    evolves rid d d3 /\ everything_holds (offers ++ [c]) d3 active3).
  { intros d3 active3 Ev3 Hj3 Hcase. split; [by transitivity d1|].
    eapply (everything_step offers _ d _ active _ sid rid); [done|exact Ho|by split|by transitivity d1|done|]. tauto. }
  destruct Hopen as [(ps & b & f & Hl)|(ps & b & f & Ha & Hpark)].
  - pose proof (advance_live _ _ _ _ _ _ _ _ _ _ _ _ _ Hl Hsame Hids Hj1 Ead) as (Ev2 & Hj2 & Hso & Hadv).
    destruct Hso as (Hk' & Hpa' & Hc' & Hr').
    assert (Hreg : op_registered op' = true) by (rewrite Hr'; apply Hl).
    destruct adv as [[r|e| |]|e]; intros H.
    + destruct Hadv as [Hg (ps' & b' & f' & Hl')]. injection H as <- <- <-.
      apply Logic.and_assoc. split; [|done]. apply Hfin; [done|done|]. right.
      unfold restore. rewrite Hreg. eauto 10.
    + destruct Hadv as [_ Hf]. destruct (fail_operation op' e d2) as [e' d3] eqn:Ef.
      injection H as <- <- <-. pose proof (fail_holds _ _ _ _ _ _ _ _ Hf Hj2 Ef) as [Ev3 Hj3].
      apply Logic.and_assoc. split; [|done]. apply Hfin; [by transitivity d2|done|by left].
    + destruct Hadv as (ps' & b' & f' & Hl'). injection H as <- <- <-.
      apply Logic.and_assoc. split; [|done]. apply Hfin; [done|done|]. right.
      unfold restore. rewrite Hreg. eauto 10.
    + apply (begin_commit_holds (offers ++ [c]) d2 env _ op' sid rid) in H as (Ev3 & Hj3 & Hst);
        [|done|by rewrite Hk', Hkey|done|done|done].
      apply Logic.and_assoc. destruct step as [r| |]; [|done|].
      * destruct Hst as [-> [e ->]]. split; [|done]. apply Hfin; [by transitivity d2|done|by left].
      * split; [|done]. apply Hfin; [by transitivity d2|done|]. right. done.
    + destruct Hadv as [Hun Hf]. rewrite Hun in H.
      destruct (fail_operation op' WriteFailed d2) as [e' d3] eqn:Ef.
      injection H as <- <- <-. pose proof (fail_holds _ _ _ _ _ _ _ _ Hf Hj2 Ef) as [Ev3 Hj3].
      apply Logic.and_assoc. split; [|done]. apply Hfin; [by transitivity d2|done|by left].
  - pose proof (advance_parked _ _ _ _ _ _ _ _ _ _ _ _ _ Ha Hpark Hj1 Ead) as (Ev2 & Hj2 & Hso & Hadv).
    destruct Hso as (Hk' & Hpa' & Hc' & Hr').
    assert (Hreg : op_registered op' = false) by (rewrite Hr'; apply Hpark).
    pose proof (journal_holds_offers _ _ _ _ _ Ho Hj2) as Hj2'.
    destruct adv as [[r|e| |]|e]; intros H; try done.
    + injection H as <- <- <-. apply Logic.and_assoc. split.
      * apply Hfin; [done|done|left]. unfold restore. by rewrite Hreg.
      * intros receipt Hr Hrc. eapply (stored_evolves rid); [reflexivity|exact Ho|]. by apply Hadv.
    + destruct (fail_operation op' e d2) as [e' d3] eqn:Ef.
      injection H as <- <- <-. pose proof (fail_holds _ _ _ _ _ _ _ _ Hadv Hj2 Ef) as [Ev3 Hj3].
      apply Logic.and_assoc. split; [|done].
      apply Hfin; [by transitivity d2|by eapply journal_holds_offers|by left].
Qed.


(** ** Flushing *)

Lemma held_uncommitted offers d sid rid paths j ps b f :
  held offers d sid rid paths j ps b f ->
  held offers d sid rid paths (with_error (with_uncommitted j) WriteFailed) ps b f.
Proof.
  intros [ids laid media session offered asm sq by_ fin com open]. by split.
Qed.

Lemma commit_failed_holds offers d op sid rid ps b f e d' :
  at_hand offers d op sid rid ps b f -> journal_holds offers d sid rid ->
  commit_failed op d = (e, d') -> evolves rid d d' /\ journal_holds offers d' sid rid.
Proof.
  intros [Hp Hk He Ht] Hj H. pose proof (he_laid _ _ _ _ _ _ _ _ _ He) as La.
  apply (commit_failed_spec rid (op_paths op) La) in H as [_ Le]; [|done].
  eapply leaves_holds in Le as (Ev & Hj' & _);
    [|reflexivity|done|apply He| |done|done]; [done|].
  intros j Hin. apply list_elem_of_singleton in Hin as ->.
  split; [cbn; rewrite (he_bytes _ _ _ _ _ _ _ _ _ He); lia|].
  exists ps, b, f. by apply held_uncommitted.
Qed.

Lemma quiet_at_hand offers d d' op sid rid ps b f :
  quiet d d' -> at_hand offers d op sid rid ps b f -> at_hand offers d' op sid rid ps b f.
Proof.
  intros Q [Hp Hk He Ht]. split; [done|done| |].
  - eapply (held_step rid); [by apply quiet_evolves|left; by rewrite (qu_files _ _ Q)|reflexivity|done].
  - intros n En. rewrite (qu_files _ _ Q) in En. by apply Ht.
Qed.

(** The table's entry under a key, and the upload it is of. *)
Lemma table_entry offers d active key op :
  table_holds offers d active -> active !! key = Some op ->
  exists sid rid ps b f, key = operation_key sid rid /\ proper sid rid /\
    live offers d op sid rid ps b f.
Proof.
  intros H E. destruct (H key op E) as [<- (sid & rid & ps & b & f & Hl)].
  exists sid, rid, ps, b, f. split; [apply Hl|]. split; [apply Hl|done].
Qed.

Lemma flush_first_live offers d key active op sid rid ps b f r active' d' :
  active !! key = Some op -> op_commit op = Some FirstFlush ->
  live offers d op sid rid ps b f -> key = operation_key sid rid -> journal_holds offers d sid rid ->
  flush_first key active d = (r, active', d') ->
  evolves rid d d' /\ journal_holds offers d' sid rid /\
  match r with
  | Some r => active' = delete key active /\ exists e, r = Err e
  | None => exists op', active' = <[op_key op' := op']> active /\ op_key op' = key /\
      live offers d' op' sid rid ps b f
  end.
Proof.
  intros Eop Hc Hl Hkey Hj. unfold flush_first. rewrite Eop.
  destruct Hl as [Ha Hreg Herr Hph]. pose proof Ha as [Hp Hk He Ht].
  pose proof (he_laid _ _ _ _ _ _ _ _ _ He) as La.
  unfold live_phase in Hph. rewrite Hc in Hph. destruct Hph as (Hn & Hco & n & En & Hsha).
  destruct (he_final _ _ _ _ _ _ _ _ _ He Hn) as (_ & _ & _ & Hpub).
  set (j := op_journal op) in *. set (paths := op_paths op) in *.
  assert (Hun : unfinished j = true).
  { unfold unfinished. by rewrite Hco, Herr, bool_decide_eq_false_2. }
  destruct (bind (sync_file _) _ d) as [[[]|e] d1] eqn:Esync.
  2:{ assert (Q : quiet d d1).
      { apply bind_inv in Esync as [(e' & Es & _)|([] & d0 & Es0 & Es)].
        - by apply sync_file_quiet in Es as [Q _].
        - apply sync_file_quiet in Es0 as [Q0 _]. apply sync_directory_quiet in Es as [Q1 _].
          by transitivity d0. }
      destruct (commit_failed op d1) as [e' d2] eqn:Ecf.
      pose proof (commit_failed_holds _ _ _ _ _ _ _ _ _ _ (quiet_at_hand _ _ _ _ _ _ _ _ _ Q Ha)
        (quiet_journal_holds _ _ _ _ _ Q Hj) Ecf) as [Ev2 Hj2].
      intros H. injection H as <- <- <-.
      split; [transitivity d1; [by apply quiet_evolves|done]|]. split; [done|]. eauto. }
  apply bind_inv in Esync as [(e' & _ & Es)|([] & d0 & Es0 & Es)]; [done|].
  apply sync_file_quiet in Es0 as [Q0 D0]. apply sync_directory_quiet in Es as [Q1 L1].
  specialize (D0 eq_refl). specialize (L1 eq_refl (final_path paths j) (parent_snoc _ _)).
  assert (Q : quiet d d1) by by transitivity d0.
  assert (P1 : placed paths d1 j).
  { exists n. rewrite (qu_files _ _ Q). split; [done|]. split; [done|].
    split; [|done]. intros Hd. by apply (qu_dirty _ _ Q1) in Hd. }
  pose proof (record_hash_at_most paths (aj_content_sha256 j) (aj_final_name j) d1) as A2.
  set (d2 := record_attachment_hash _ _ _ d1) in *.
  apply (at_manifest_leaves rid paths La []) in A2.
  destruct (attachment_reply_path _ _ _ d2) as [reply d3] eqn:Er.
  apply reply_path_spec in Er as [L3 R3]. apply (linked_leaves rid paths La []) in L3.
  assert (Le : leaves rid paths [] d d3).
  { transitivity d1; [by apply quiet_leaves|]. by transitivity d2. }
  assert (P3 : placed paths d3 j).
  { eapply placed_evolves; [done|by apply public_not_manifest|transitivity d2; [apply A2|apply L3]|done]. }
  assert (He3 : held offers d3 sid rid paths (with_committed j reply) ps b f).
  { eapply held_recovered; [exact He|done|apply Le|apply Le|by constructor]. }
  destruct (journal_holds_own offers offers d d3 sid rid paths [] (len b)) as [Hj3 Ht3];
    [done|reflexivity|done|apply He|by intros ? ?%elem_of_nil|done|done|].
  set (op1 := set_journal op (with_committed j reply)).
  change (op_journal op1) with (with_committed j reply).
  destruct (persist_attachment_operation _ _ false d3) as [rp d4] eqn:Ep.
  apply (persist_leaves rid paths La) in Ep. pose proof Ep as Le4.
  eapply leaves_holds in Ep as (Ev4 & Hj4 & Ht4);
    [|reflexivity|done|apply He| |done|done].
  2:{ intros jx Hx. apply list_elem_of_singleton in Hx as ->.
      split; [rewrite (he_bytes _ _ _ _ _ _ _ _ _ He3); lia|eauto]. }
  assert (He4 : held offers d4 sid rid paths (with_committed j reply) ps b f)
    by (eapply held_step; [apply Le4|apply Le4|reflexivity|done]).
  assert (Ev : evolves rid d d4) by (transitivity d3; [apply Le|done]).
  assert (Ha4 : at_hand offers d4 op1 sid rid ps b f) by by split.
  destruct rp as [[]|e].
  - intros H. injection H as <- <- <-. split; [done|]. split; [done|].
    exists (set_commit op1 (Some SecondFlush)). split; [by rewrite Hkey, <- Hk|].
    split; [by rewrite Hkey, <- Hk|]. by split.
  - destruct (commit_failed op1 d4) as [e' d5] eqn:Ecf.
    pose proof (commit_failed_holds _ _ _ _ _ _ _ _ _ _ Ha4 Hj4 Ecf) as [Ev5 Hj5].
    intros H. injection H as <- <- <-. split; [by transitivity d4|]. split; [done|]. eauto.
Qed.

Lemma insert_delete_table (active : ActiveTable) key op :
  <[key := op]> active = <[key := op]> (delete key active).
Proof. by rewrite insert_delete_eq. Qed.

Lemma flush_first_holds offers d key active op r active' d' :
  active !! key = Some op -> op_commit op = Some FirstFlush -> everything_holds offers d active ->
  flush_first key active d = (r, active', d') ->
  exists rid, evolves rid d d' /\ everything_holds offers d' active' /\
    forall res, r = Some res -> exists e, res = Err e.
Proof.
  intros Eop Hc Hall H.
  destruct (table_entry _ _ _ _ _ (proj2 Hall) Eop) as (sid & rid & ps & b & f & Hkey & Hp & Hl).
  pose proof (flush_first_live _ _ _ _ _ _ _ _ _ _ _ _ _ Eop Hc Hl Hkey (proj1 Hall sid rid Hp) H)
    as (Ev & Hj & Hr).
  exists rid. split; [done|]. split.
  - eapply everything_step; [done|reflexivity|done|done|done|].
    destruct r as [res|].
    + left. rewrite <- Hkey. apply Hr.
    + right; left. destruct Hr as (op' & -> & Hk' & Hl'). exists op', ps, b, f.
      split; [|done]. by rewrite <- Hkey, Hk', <- insert_delete_table.
  - intros res ->. apply Hr.
Qed.

Lemma flush_second_holds offers d key active op r active' d' :
  active !! key = Some op -> op_commit op = Some SecondFlush -> everything_holds offers d active ->
  flush_second key active d = (r, active', d') ->
  exists sid rid, aj_session_id (op_journal op) = sid /\ aj_request_id (op_journal op) = rid /\
    proper sid rid /\ evolves rid d d' /\ everything_holds offers d' active' /\
    receipt_good offers d' sid rid r.
Proof.
  intros Eop Hc Hall H.
  destruct (table_entry _ _ _ _ _ (proj2 Hall) Eop) as (sid & rid & ps & b & f & Hkey & Hp & Hl).
  destruct (he_ids _ _ _ _ _ _ _ _ _ (ah_held _ _ _ _ _ _ _ _ (lv_at_hand _ _ _ _ _ _ _ _ Hl)))
    as [Hi1 Hi2].
  exists sid, rid. split; [done|]. split; [done|]. split; [done|].
  revert H. unfold flush_second. rewrite Eop.
  destruct (bind _ _ d) as [r0 d1] eqn:Es.
  assert (Q : quiet d d1).
  { apply bind_inv in Es as [(e' & Es & _)|([] & d0 & Es0 & Es)].
    - by apply sync_file_quiet in Es as [Q _].
    - apply sync_file_quiet in Es0 as [Q0 _]. apply sync_directory_quiet in Es as [Q1 _].
      by transitivity d0. }
  pose proof (quiet_at_hand _ _ _ _ _ _ _ _ _ Q (lv_at_hand _ _ _ _ _ _ _ _ Hl)) as Ha1.
  pose proof (quiet_journal_holds _ _ _ _ _ Q (proj1 Hall sid rid Hp)) as Hj1.
  destruct r0 as [[]|e].
  - intros H. injection H as <- <- <-. split; [by apply quiet_evolves|]. split.
    + eapply everything_step; [done|reflexivity|done|by apply quiet_evolves|done|left; by rewrite Hkey].
    + eapply held_receipt. apply Ha1.
  - destruct (commit_failed op d1) as [e' d2] eqn:Ecf.
    pose proof (commit_failed_holds _ _ _ _ _ _ _ _ _ _ Ha1 Hj1 Ecf) as [Ev2 Hj2].
    assert (Ev : evolves rid d d2) by (transitivity d1; [by apply quiet_evolves|done]).
    intros H. injection H as <- <- <-. split; [done|]. split; [|by intros ? [=]].
    eapply everything_step; [done|reflexivity|done|done|done|left; by rewrite Hkey].
Qed.


(** ** Status, detaching and sweeping *)

Definition status_good offers d sid rid (st : AttachmentOperationStatus) : Prop :=
  as_committed st = true ->
  stored offers d sid rid (as_next_seq st) (as_bytes_received st) (as_abs_path st).

Lemma held_status offers d sid rid paths j ps b f :
  held offers d sid rid paths j ps b f -> status_good offers d sid rid (status_from_journal j).
Proof. intros He Hc. by eapply held_stored. Qed.

Lemma status_loaded_holds offers d sid rid paths j ps b f st d' :
  held offers d sid rid paths j ps b f -> tracks d paths (len b) -> journal_holds offers d sid rid ->
  (if unfinished j
   then let '(_, j, d) := recover_finalization paths j d in (status_from_journal j, d)
   else if String.eqb (aj_error j) "" && bool_decide (aj_final_name j = []) &&
           negb (temp_matches_journal d (ap_temp_path paths) j)
   then let '(j, d) := fail_journal paths j WriteFailed d in (status_from_journal j, d)
   else (status_from_journal j, d)) = (st, d') ->
  evolves rid d d' /\ journal_holds offers d' sid rid /\ status_good offers d' sid rid st.
Proof.
  intros He Ht Hj. destruct (unfinished j) eqn:Hun.
  - destruct (recover_finalization paths j d) as [[ok j'] d1] eqn:Er.
    destruct (recover_holds _ _ _ _ _ _ _ _ _ _ _ _ He Hun Ht Hj Er) as (Ev & Hj1 & _ & He1 & _).
    intros H. injection H as <- <-. split; [done|]. split; [done|]. by eapply held_status.
  - destruct (_ && _ && _) eqn:Hm.
    + destruct (fail_journal paths j WriteFailed d) as [j' d1] eqn:Ef.
      apply (fail_journal_spec rid paths (he_laid _ _ _ _ _ _ _ _ _ He)) in Ef as [-> Le].
      intros H. injection H as <- <-.
      pose proof (held_step rid _ offers _ _ _ _ _ _ _ _ _ (le_evolves _ _ _ _ _ Le)
        (le_temp _ _ _ _ _ Le) ltac:(reflexivity) (held_error _ _ _ _ _ _ WriteFailed _ _ _ He)) as He1.
      eapply leaves_holds in Le as (Ev & Hj' & _);
        [|reflexivity|apply He|apply He| |done|done].
      * split; [done|]. split; [done|]. by eapply held_status.
      * intros jx Hx. apply list_elem_of_singleton in Hx as ->.
        split; [cbn; rewrite (he_bytes _ _ _ _ _ _ _ _ _ He); lia|].
        exists ps, b, f. by apply held_error.
    + intros H. injection H as <- <-. split; [done|]. split; [done|]. by eapply held_status.
Qed.

Lemma status_holds offers d active sid rid st d' :
  proper sid rid -> everything_holds offers d active ->
  status root active sid rid d = (st, d') ->
  evolves rid d d' /\ everything_holds offers d' active /\ status_good offers d' sid rid st.
Proof.
  intros Hp Hall. unfold status.
  destruct (active !! operation_key sid rid) as [op|] eqn:Eop.
  { intros H. injection H as <- <-. split; [done|]. split; [done|].
    destruct (table_entry _ _ _ _ _ (proj2 Hall) Eop) as (sid' & rid' & ps & b & f & Hkey & Hp' & Hl).
    destruct (key_inj _ _ _ _ (pr_nul _ _ Hp) (pr_nul _ _ Hp') Hkey) as [-> ->].
    eapply held_status, Hl. }
  destruct (load_attachment_operation root sid rid d) as [[| |paths j] d1] eqn:El;
    apply load_spec in El as [Q El];
    pose proof (quiet_journal_holds _ _ _ _ _ Q (proj1 Hall sid rid Hp)) as Hj1;
    pose proof (quiet_evolves rid _ _ Q) as Ev1.
  1,2: intros H; injection H as <- <-; split; [done|]; split; [|by intros [=]];
    (eapply everything_step; [done|reflexivity|done|done|done|by auto]).
  destruct (loaded_holds offers d sid rid paths j Hp (proj1 Hall sid rid Hp) El) as (ps & b & f & He & Htr).
  assert (He1 : held offers d1 sid rid paths j ps b f)
    by (eapply (held_step rid); [done|left; by rewrite (qu_files _ _ Q)|reflexivity|done]).
  assert (Ht1 : tracks d1 paths (len b)).
  { intros m Em. rewrite (qu_files _ _ Q) in Em. by apply Htr. }
  intros H. eapply status_loaded_holds in H as (Ev & Hj' & Hg); [|done..].
  assert (Ev' : evolves rid d d') by by transitivity d1.
  split; [done|]. split; [|done].
  eapply everything_step; [done|reflexivity|done|done|done|by auto].
Qed.

Lemma table_subset (offers : list AttachmentOperationChunk) (d : Disk) (active active' : ActiveTable) :
  active' ⊆ active -> table_holds offers d active -> table_holds offers d active'.
Proof. intros Hs H key op E. apply H. by eapply lookup_weaken. Qed.

(** What every call leaves alone, whichever upload it is for. *)
Record untouched (d d' : Disk) : Prop := mkUntouched {
  un_kept : forall p n, ~ private p -> last p <> Some MANIFEST_NAME ->
    d_files d !! p = Some n -> d_files d' !! p = Some n;
  un_dirty : forall p, ~ private p -> last p <> Some MANIFEST_NAME -> is_Some (d_files d !! p) ->
    p ∈ d_dirty d' -> p ∈ d_dirty d;
  un_loose : forall p, ~ private p -> last p <> Some MANIFEST_NAME -> is_Some (d_files d !! p) ->
    p ∈ d_loose d' -> p ∈ d_loose d;
  un_links : d_links d ⊆ d_links d';
}.

#[global] Instance untouched_preorder : PreOrder untouched.
Proof.
  split.
  - intros d. by split.
  - intros d1 d2 d3 [k1 i1 l1 s1] [k2 i2 l2 s2]. split.
    + eauto.
    + intros p Hp Hm [n E]. eauto.
    + intros p Hp Hm [n E]. eauto.
    + by transitivity (d_links d2).
Qed.

Lemma evolves_untouched rid d d' : evolves rid d d' -> untouched d d'.
Proof.
  intros [k p i l s].
  assert (Hf : forall q, ~ private q -> ~ footprint rid q) by (intros q Hq [Hx _]; done).
  assert (Hm : forall q : Path, last q <> Some MANIFEST_NAME -> ~ is_manifest q) by (intros q Hq [Hx _]; done).
  split; eauto.
Qed.

Lemma stored_untouched offers offers' d d' sid rid next bytes reply :
  untouched d d' -> offers `sublist_of` offers' ->
  stored offers d sid rid next bytes reply -> stored offers' d' sid rid next bytes reply.
Proof.
  intros [k i l s] Ho (paths & de & ca & cid & ps & b & name & n & path & La & Hs & H1 & H2 & Hps & Ha &
    Hn & Hb & Ht & Hp & En & Hh & Hd & Hl & Hr & Hrt).
  assert (Hf : ~ private (ap_media_dir paths ++ [name])).
  { unfold private. rewrite parent_snoc. apply La. }
  assert (Hm : last (ap_media_dir paths ++ [name]) <> Some MANIFEST_NAME).
  { rewrite last_snoc. intros [= Hx]. by apply public_not_manifest in Hp. }
  exists paths, de, ca, cid, ps, b, name, n, path. cbv zeta.
  split_and!; try done.
  - by transitivity offers.
  - eauto.
  - intros Hx. apply Hd. eauto.
  - intros Hx. apply Hl. eauto.
  - destruct Hrt as [->|Hrt]; [by left|right]. by eapply lookup_weaken.
Qed.

Lemma sweep_one_holds offers d active key op active' d' :
  active !! key = Some op -> everything_holds offers d active ->
  sweep_one (active, d) (key, op) = (active', d') ->
  active' = delete key active /\ untouched d d' /\ everything_holds offers d' active'.
Proof.
  intros Eop Hall. unfold sweep_one. cbn [fst snd].
  destruct (table_entry _ _ _ _ _ (proj2 Hall) Eop) as (sid & rid & ps & b & f & Hkey & Hp & Hl).
  pose proof (proj1 Hall sid rid Hp) as Hj.
  destruct (aj_carrier (op_journal op)).
  - destruct (fail_operation op UploadNotFound d) as [e d1] eqn:Ef. cbn [snd].
    intros H. injection H as <- <-.
    pose proof (fail_holds _ _ _ _ _ _ _ _ (at_hand_failing _ _ _ _ _ _ _ _ (lv_at_hand _ _ _ _ _ _ _ _ Hl)) Hj Ef)
      as [Ev Hj'].
    split; [done|]. split; [by eapply evolves_untouched|].
    eapply everything_step; [done|reflexivity|done|done|done|left; by rewrite Hkey].
  - intros H. injection H as <- <-. split; [done|]. split; [done|].
    split; [apply Hall|]. eapply table_subset; [apply delete_subseteq|apply Hall].
Qed.

Lemma sweep_list_holds offers entries_left d active active' d' :
  NoDup entries_left.*1 -> (forall key op, (key, op) ∈ entries_left -> active !! key = Some op) ->
  everything_holds offers d active ->
  foldl sweep_one (active, d) entries_left = (active', d') ->
  untouched d d' /\ everything_holds offers d' active'.
Proof.
  revert active d. induction entries_left as [|[key op] rest IH]; intros active d Hnd Hin Hall.
  { intros H. injection H as <- <-. done. }
  cbn [foldl]. destruct (sweep_one (active, d) (key, op)) as [active1 d1] eqn:E.
  cbn in Hnd. apply NoDup_cons in Hnd as [Hk Hnd].
  apply (sweep_one_holds offers) in E as (-> & U & Hall1); [|apply Hin; by left|done].
  intros H. apply IH in H as [U' Hall']; [split; [by transitivity d1|done]|done| |done].
  intros key' op' Hin'. rewrite lookup_delete_ne.
  - apply Hin. by right.
  - intros ->. apply Hk. by apply (list_elem_of_fmap_2 fst) in Hin'.
Qed.

Lemma sweep_holds offers now d active active' d' :
  everything_holds offers d active -> sweep_idle now active d = (active', d') ->
  untouched d d' /\ everything_holds offers d' active'.
Proof.
  intros Hall. unfold sweep_idle. apply sweep_list_holds; [| |done].
  - apply (sublist_NoDup _ (map_to_list active).*1); [apply NoDup_fst_map_to_list|].
    generalize (map_to_list active).
    induction l as [|x l IH]; cbn; [done|]. destruct (is_idle now x.2); cbn; by constructor.
  - intros key op Hin. rewrite list_elem_of_In, filter_In, <- list_elem_of_In in Hin.
    destruct Hin as [Hin _]. by apply elem_of_map_to_list in Hin.
Qed.

Lemma detach_holds offers d active carrier_id :
  everything_holds offers d active ->
  everything_holds offers d (detach_direct_carrier carrier_id active).
Proof.
  intros [Hj Ht]. split; [done|]. eapply table_subset; [|exact Ht]. apply map_filter_subseteq.
Qed.

Lemma everything_quiet offers d d' active :
  quiet d d' -> everything_holds offers d active -> everything_holds offers d' active.
Proof.
  intros Q [Hj Ht]. split.
  - intros sid' rid' Hp'. eapply quiet_journal_holds; [done|by apply Hj].
  - intros key op E. destruct (Ht key op E) as [Hk (sid' & rid' & ps & b & f & [Ha Hr He Hph])].
    split; [done|]. exists sid', rid', ps, b, f. split; try done.
    + by eapply quiet_at_hand.
    + unfold live_phase in *. destruct (op_commit op) as [[]|]; rewrite ?(qu_files _ _ Q); try done.
      destruct Hph as (H1 & H2 & H3 & H4 & h & n & H5 & H6 & H7 & H8).
      do 4 (split; [done|]). exists h, n. do 2 (split; [done|]). split; [|by apply H8].
      eapply lookup_weaken; [exact H7|apply Q].
Qed.

End Invariant.
