(* ===== verification/UploadClaims.v ===== *)
(** * UploadClaims: uploads through faults, restarts and each other's calls

    Runs of the upload owner: every call the worker's carriers, link, flush
    tasks and sweep make, in any order, each with the faults its system calls
    meet; the process may die inside any of them and start again.  The claims
    are that a committed answer is the truth about the file, that no stored file
    is ever written again, and that an undisturbed upload ends committed. *)
From Stdlib Require Import Ascii String.
From stdpp Require Import pretty.
From S2P Require Export UploadInvariant.

(** ** Runs *)

Record UploadState := mkUploads {
  us_active : ActiveTable;
  us_disk : Disk;
}.

Inductive Event :=
| RelayOffered (env : Env) (c : RelayChunk)
| DirectOffered (env : Env) (c : DirectChunk)
| ProgressFlushed (session_id upload_id : text)
| StatusAsked (session_id upload_id : text)
| FirstFlushed (key : text)
| SecondFlushed (key : text)
| CarrierDetached (carrier_id : text)
| IdleSwept (now : Z)
| Restarted.

Inductive Reply :=
| Receipt (session_id upload_id : text) (r : AttachmentOperationResult)
| Told (session_id upload_id : text) (st : AttachmentOperationStatus)
| Progressed (session_id upload_id : text) (flushed : bool).

Section Runs.
Context `{SD : Serde} `{SH : Sha256} (root : Path).

Definition reply_of (sid rid : text) (step : Step) : list Reply :=
  match step with Settle r => [Receipt sid rid r] | Wait | Committing => [] end.

(** One event on a live process: its reply, and the chunk it offered. *)
Definition perform (ev : Event) (st : UploadState)
    : list Reply * list AttachmentOperationChunk * UploadState :=
  let active := us_active st in
  let d := us_disk st in
  match ev with
  | RelayOffered env c =>
      let '(chunk, d) := relay_operation_chunk root active c d in
      let '(step, active, d) := accept_locked root env active chunk d in
      (reply_of (rc_session_id c) (rc_request_id c) step, [chunk], mkUploads active d)
  | DirectOffered env c =>
      let '(step, active, d) := accept_locked root env active (direct_operation_chunk c) d in
      (reply_of (dc_session_id c) (dc_upload_id c) step, [direct_operation_chunk c],
       mkUploads active d)
  | ProgressFlushed sid rid =>
      let '(r, d) := sync_attachment_operation_progress root sid rid d in
      ([Progressed sid rid (is_ok r)], [], mkUploads active d)
  | StatusAsked sid rid =>
      let '(answer, d) := status root active sid rid d in
      ([Told sid rid answer], [], mkUploads active d)
  | FirstFlushed key =>
      match active !! key with
      | Some op =>
          match op_commit op with
          | Some FirstFlush =>
              let '(r, active, d) := flush_first key active d in
              (from_option (fun r => [Receipt (aj_session_id (op_journal op))
                                        (aj_request_id (op_journal op)) r]) [] r,
               [], mkUploads active d)
          | _ => ([], [], st)
          end
      | None => ([], [], st)
      end
  | SecondFlushed key =>
      match active !! key with
      | Some op =>
          match op_commit op with
          | Some SecondFlush =>
              let '(r, active, d) := flush_second key active d in
              ([Receipt (aj_session_id (op_journal op)) (aj_request_id (op_journal op)) r],
               [], mkUploads active d)
          | _ => ([], [], st)
          end
      | None => ([], [], st)
      end
  | CarrierDetached carrier_id => ([], [], mkUploads (detach_direct_carrier carrier_id active) d)
  | IdleSwept now =>
      let '(active, d) := sweep_idle now active d in ([], [], mkUploads active d)
  | Restarted => ([], [], mkUploads ∅ (set_alive d true))
  end.

Definition is_restart (ev : Event) : bool := match ev with Restarted => true | _ => false end.

(** An event with the faults its calls meet; a process that died does nothing
    until it starts again, and what it was about to say is not said. *)
Definition happen (faults : list Fault) (ev : Event) (st : UploadState)
    : list Reply * list AttachmentOperationChunk * UploadState :=
  if negb (d_alive (us_disk st)) && negb (is_restart ev) then ([], [], st)
  else
    let '(replies, offers, st) :=
      perform ev (mkUploads (us_active st) (set_faults (us_disk st) faults)) in
    (if d_alive (us_disk st) then replies else [], offers, st).

Fixpoint run (events : list (list Fault * Event)) (st : UploadState)
    : list Reply * list AttachmentOperationChunk * UploadState :=
  match events with
  | [] => ([], [], st)
  | (faults, ev) :: rest =>
      let '(replies, offers, st) := happen faults ev st in
      let '(replies', offers', st) := run rest st in
      (replies ++ replies', offers ++ offers', st)
  end.

(** ** The invariant along a run *)

Context (session_of : text -> text).

(** The events of one assignment of requests to sessions. *)
Definition admissible (ev : Event) : Prop :=
  match ev with
  | RelayOffered _ c => proper root session_of (rc_session_id c) (rc_request_id c)
  | DirectOffered _ c => proper root session_of (dc_session_id c) (dc_upload_id c)
  | ProgressFlushed sid rid | StatusAsked sid rid => proper root session_of sid rid
  | _ => True
  end.

(** The promise of a reply that says committed. *)
Definition reply_true (offers : list AttachmentOperationChunk) (d : Disk) (reply : Reply) : Prop :=
  match reply with
  | Receipt sid rid r => receipt_good root offers d sid rid r
  | Told sid rid answer => status_good root offers d sid rid answer
  | Progressed _ _ _ => True
  end.

Lemma reply_true_untouched offers offers' d d' reply :
  untouched d d' -> offers `sublist_of` offers' -> reply_true offers d reply ->
  reply_true offers' d' reply.
Proof.
  intros U Ho. destruct reply as [sid rid r|sid rid answer|]; cbn; [|..|done].
  - intros H receipt Hr Hc. eapply stored_untouched; eauto.
  - intros H Hc. eapply stored_untouched; eauto.
Qed.

Lemma quiet_untouched d d' : quiet d d' -> untouched d d'.
Proof. intros Q. eapply evolves_untouched, (quiet_evolves []), Q. Qed.

Lemma sync_progress_quiet sid rid d r d' :
  sync_attachment_operation_progress root sid rid d = (r, d') -> quiet d d'.
Proof.
  unfold sync_attachment_operation_progress.
  destruct (load_attachment_operation root sid rid d) as [[| |paths j] d1] eqn:El;
    apply load_spec in El as [Q _].
  1,2: intros H; by injection H as <- <-.
  assert (Hb : forall (m : Io unit) (k : unit -> Io unit) da ra db,
    (forall ra db, m da = (ra, db) -> quiet da db) ->
    (forall dx ra db, k tt dx = (ra, db) -> quiet dx db) -> bind m k da = (ra, db) -> quiet da db).
  { intros m k da ra db Hm Hk H. apply bind_inv in H as [(e & H & _)|([] & dx & H1 & H)]; [by eapply Hm|].
    transitivity dx; [by eapply Hm|by eapply Hk]. }
  intros H. transitivity d1; [done|]. revert H.
  apply Hb; [intros ? ? E; by apply sync_file_quiet in E as [? _]|intros ? ? ?].
  apply Hb; [intros ? ? E; by apply sync_file_quiet in E as [? _]|intros ? ? ?].
  do 3 (apply Hb; [intros ? ? E; by apply sync_directory_quiet in E as [? _]|intros ? ? ?]).
  intros E. by apply sync_directory_quiet in E as [? _].
Qed.

Notation everything := (everything_holds root session_of).

Lemma accept_reply offers env active c d sid rid step active' d' :
  proper root session_of sid rid -> chunk_ids c sid rid -> everything offers d active ->
  accept_locked root env active c d = (step, active', d') ->
  untouched d d' /\ everything (offers ++ [c]) d' active' /\
  Forall (reply_true (offers ++ [c]) d') (reply_of sid rid step).
Proof.
  intros Hp Hi Hall H. eapply accept_holds in H as (Ev & Hall' & Hr); [|done..].
  split; [by eapply evolves_untouched|]. split; [done|].
  destruct step; cbn; [|constructor..]. constructor; [done|constructor].
Qed.

Lemma perform_holds offers ev st replies offered st' :
  admissible ev -> everything offers (us_disk st) (us_active st) ->
  perform ev st = (replies, offered, st') ->
  untouched (us_disk st) (us_disk st') /\
  everything (offers ++ offered) (us_disk st') (us_active st') /\
  Forall (reply_true (offers ++ offered) (us_disk st')) replies.
Proof.
  destruct st as [active d]. cbn [us_active us_disk]. intros Ha Hall.
  destruct ev as [env c|env c|sid rid|sid rid|key|key|cid|now|]; cbn [perform us_active us_disk] in *;
    cbn [admissible] in Ha.
  - unfold relay_operation_chunk.
    destruct (if rc_seq c =? 0 then (0, d) else _) as [offset d1] eqn:Eo.
    assert (untouched d d1 /\ everything offers d1 active) as [U1 Hall1].
    { destruct (rc_seq c =? 0).
      - by injection Eo as <- <-.
      - destruct (status root active (rc_session_id c) (rc_request_id c) d) as [answer dx] eqn:Es.
        eapply status_holds in Es as (Ev & Hx & _); [|done..]. injection Eo as <- <-.
        split; [by eapply evolves_untouched|done]. }
    destruct (accept_locked root env active _ d1) as [[step active2] d2] eqn:Eacc.
    intros H. injection H as <- <- <-. cbn [us_active us_disk].
    eapply accept_reply in Eacc as (U2 & Hall2 & Hr); [|done|done|done].
    split; [by transitivity d1|done].
  - destruct (accept_locked root env active _ d) as [[step active2] d2] eqn:Eacc.
    intros H. injection H as <- <- <-. cbn [us_active us_disk].
    by eapply accept_reply in Eacc.
  - destruct (sync_attachment_operation_progress root sid rid d) as [r d1] eqn:Es.
    apply sync_progress_quiet in Es. intros H. injection H as <- <- <-. cbn [us_active us_disk].
    rewrite app_nil_r. split; [by apply quiet_untouched|].
    split; [by eapply everything_quiet|by repeat constructor].
  - destruct (status root active sid rid d) as [answer d1] eqn:Es.
    eapply status_holds in Es as (Ev & Hx & Hg); [|done..].
    intros H. injection H as <- <- <-. cbn [us_active us_disk]. rewrite app_nil_r.
    split; [by eapply evolves_untouched|]. split; [done|]. by repeat constructor.
  - destruct (active !! key) as [op|] eqn:Eop; [destruct (op_commit op) as [[]|] eqn:Ec|].
    2-4: intros H; injection H as <- <- <-; cbn [us_active us_disk]; by rewrite app_nil_r.
    destruct (flush_first key active d) as [[r active1] d1] eqn:Ef.
    eapply flush_first_holds in Ef as (rid & Ev & Hx & Hr); [|done..].
    intros H. injection H as <- <- <-. cbn [us_active us_disk]. rewrite app_nil_r.
    split; [by eapply evolves_untouched|]. split; [done|].
    destruct r as [r|]; cbn; [|constructor]. destruct (Hr r eq_refl) as [e ->].
    repeat constructor. cbn. by intros ? [=].
  - destruct (active !! key) as [op|] eqn:Eop; [destruct (op_commit op) as [[]|] eqn:Ec|].
    1,3,4: intros H; injection H as <- <- <-; cbn [us_active us_disk]; by rewrite app_nil_r.
    destruct (flush_second key active d) as [[r active1] d1] eqn:Ef.
    eapply flush_second_holds in Ef as (sid & rid & -> & -> & Hp & Ev & Hx & Hr); [|done..].
    intros H. injection H as <- <- <-. cbn [us_active us_disk]. rewrite app_nil_r.
    split; [by eapply evolves_untouched|]. split; [done|]. by repeat constructor.
  - intros H. injection H as <- <- <-. cbn [us_active us_disk]. rewrite app_nil_r.
    split; [done|]. split; [by apply detach_holds|done].
  - destruct (sweep_idle now active d) as [active1 d1] eqn:Es.
    eapply sweep_holds in Es as [U Hx]; [|done].
    intros H. injection H as <- <- <-. cbn [us_active us_disk]. by rewrite app_nil_r.
  - intros H. injection H as <- <- <-. cbn [us_active us_disk]. rewrite app_nil_r.
    split; [by apply quiet_untouched|]. split; [|done]. split.
    + intros sid rid Hp. eapply quiet_journal_holds; [|by apply Hall]. by split.
    + intros key op E. by rewrite lookup_empty in E.
Qed.

Lemma happen_holds offers faults ev st replies offered st' :
  admissible ev -> everything offers (us_disk st) (us_active st) ->
  happen faults ev st = (replies, offered, st') ->
  untouched (us_disk st) (us_disk st') /\
  everything (offers ++ offered) (us_disk st') (us_active st') /\
  Forall (reply_true (offers ++ offered) (us_disk st')) replies.
Proof.
  intros Ha Hall. unfold happen. destruct (negb _ && _).
  { intros H. injection H as <- <- <-. by rewrite app_nil_r. }
  assert (Q : quiet (us_disk st) (set_faults (us_disk st) faults)) by by split.
  destruct (perform ev _) as [[replies1 offered1] st1] eqn:E.
  eapply perform_holds in E as (U & Hx & Hr); [|done|by eapply everything_quiet].
  intros H. injection H as <- <- <-. cbn [us_disk] in U.
  split; [transitivity (set_faults (us_disk st) faults); [by apply quiet_untouched|done]|].
  split; [done|]. case_match; [done|constructor].
Qed.

Lemma run_holds events offers st replies offered st' :
  Forall (fun event => admissible event.2) events -> everything offers (us_disk st) (us_active st) ->
  run events st = (replies, offered, st') ->
  untouched (us_disk st) (us_disk st') /\
  everything (offers ++ offered) (us_disk st') (us_active st') /\
  Forall (reply_true (offers ++ offered) (us_disk st')) replies.
Proof.
  revert offers st replies offered. induction events as [|[faults ev] rest IH];
    intros offers st replies offered Hadm Hall; cbn [run].
  { intros H. injection H as <- <- <-. by rewrite app_nil_r. }
  apply Forall_cons in Hadm as [Hev Hrest].
  destruct (happen faults ev st) as [[replies1 offered1] st1] eqn:E1.
  eapply happen_holds in E1 as (U1 & Hall1 & Hr1); [|done|done].
  destruct (run rest st1) as [[replies2 offered2] st2] eqn:E2.
  intros H. injection H as <- <- ->.
  eapply IH in E2 as (U2 & Hall2 & Hr2); [|done|done]. rewrite app_assoc.
  split; [by transitivity (us_disk st1)|]. split; [done|].
  apply Forall_app. split; [|done]. eapply Forall_impl; [exact Hr1|].
  intros reply. apply reply_true_untouched; [done|]. by apply sublist_inserts_r.
Qed.

(** A disk no operation was ever made on. *)
Definition fresh (d : Disk) : Prop := forall p n, d_files d !! p = Some n -> ~ private p.

Lemma fresh_holds d : fresh d -> everything [] d ∅.
Proof.
  intros Hf. split.
  - intros sid rid Hp dir n Hd En. exfalso. eapply Hf; [exact En|].
    unfold private. by rewrite snoc_pair, parent_snoc, last_snoc.
  - intros key op E. by rewrite lookup_empty in E.
Qed.

End Runs.

(** ** An undisturbed disk *)

Section Undisturbed.
Context `{SD : Serde} `{SH : Sha256}.

Definition good (d : Disk) : Prop := d_alive d = true /\ d_faults d = [].

Lemma call_good {A} torn (effect : Io A) d : good d -> call torn effect d = effect d.
Proof. unfold call. intros [-> ->]. done. Qed.

Lemma bind_ok {A B} (m : Io A) (k : A -> Io B) d a d1 :
  m d = (Ok a, d1) -> bind m k d = k a d1.
Proof. unfold bind. by intros ->. Qed.

(** The call answers, and leaves the disk undisturbed with the same directories. *)
Definition answers {A} (m : Io A) (a : A) (d : Disk) : Prop :=
  exists d', m d = (Ok a, d') /\ good d' /\ d_dirs d' = d_dirs d.

Lemma create_truncate_answers p d :
  good d -> p ∉ d_dirs d -> parent p ∈ d_dirs d -> answers (create_truncate_private_file p) tt d.
Proof.
  intros G Hp Hq. unfold answers, create_truncate_private_file. rewrite call_good by done.
  rewrite (bool_decide_eq_false_2 _ Hp), (bool_decide_eq_true_2 _ Hq). cbn. eauto.
Qed.

Lemma write_node_answers p n d : good d -> answers (write_node p n) tt d.
Proof. intros G. unfold answers, write_node. rewrite call_good by done. eauto. Qed.

Lemma write_private_file_answers p n d :
  good d -> p ∉ d_dirs d -> parent p ∈ d_dirs d -> answers (write_private_file p n) tt d.
Proof.
  intros G Hp Hq. destruct (create_truncate_answers p d G Hp Hq) as (d1 & E1 & G1 & D1).
  destruct (write_node_answers p n d1 G1) as (d2 & E2 & G2 & D2).
  exists d2. unfold write_private_file, bind. rewrite E1. split; [done|]. split; [done|congruence].
Qed.

Lemma sync_file_answers p d : good d -> is_Some (d_files d !! p) -> answers (sync_file p) tt d.
Proof.
  intros G Hp. unfold answers, sync_file. rewrite call_good, (bool_decide_eq_true_2 _ Hp) by done. eauto.
Qed.

Lemma sync_directory_answers dir d : good d -> dir ∈ d_dirs d -> answers (sync_directory dir) tt d.
Proof.
  intros G Hp. unfold answers, sync_directory. rewrite call_good, (bool_decide_eq_true_2 _ Hp) by done. eauto.
Qed.

Lemma rename_answers from to d :
  good d -> is_Some (d_files d !! from) -> to ∉ d_dirs d -> parent to ∈ d_dirs d ->
  answers (rename from to) tt d.
Proof.
  intros G [n E] Hp Hq. unfold answers, rename. rewrite call_good, E by done.
  rewrite (bool_decide_eq_false_2 _ Hp), (bool_decide_eq_true_2 _ Hq). cbn. eauto.
Qed.

Lemma write_all_answers h data d : good d -> answers (write_all h data) tt d.
Proof.
  intros G. unfold answers, write_all. rewrite call_good by done.
  eexists. split; [done|]. by repeat case_match.
Qed.

Lemma record_hash_good dir digest name d :
  good d -> good (record_attachment_hash dir digest name d) /\
  d_dirs (record_attachment_hash dir digest name d) = d_dirs d.
Proof.
  intros G. unfold record_attachment_hash, load_manifest. rewrite call_good by done.
  assert (W : forall p n, good (write_private_file p n d).2 /\
                d_dirs (write_private_file p n d).2 = d_dirs d).
  { intros p n. unfold write_private_file, bind, create_truncate_private_file.
    rewrite call_good by done. destruct (_ || _); cbn; [done|].
    unfold write_node. by rewrite call_good. }
  destruct (d_files d !! _); cbn; apply W.
Qed.

Lemma path_prefixes_spec p q : q ∈ path_prefixes p <-> q `prefix_of` p.
Proof.
  unfold path_prefixes. rewrite list_elem_of_fmap. split.
  - intros (n & -> & _). apply prefix_take.
  - intros [rest ->]. exists (length q). split; [by rewrite take_app_length|].
    apply elem_of_seq. rewrite length_app. lia.
Qed.

Lemma path_prefixes_self p : p ∈ path_prefixes p.
Proof. by apply path_prefixes_spec. Qed.

(** An upload's directories: the session's own, where its journal goes, and the
    media directory, where its temp and its file go; the two are one or stand
    apart. *)
Record apart (sdir mdir : Path) : Prop := mkApart {
  ap_down : sdir = mdir \/ ~ mdir `prefix_of` sdir;
  ap_up : sdir = mdir \/ ~ sdir `prefix_of` mdir;
}.

(** No path two levels beneath one is on the way to a path one level beneath. *)
Lemma apart_deep sdir mdir base base' rest y :
  apart sdir mdir -> base ∈ [sdir; mdir] -> base' ∈ [sdir; mdir] -> (1 < length rest)%nat ->
  ~ (base ++ rest) `prefix_of` (base' ++ [y]).
Proof.
  intros [Hd Hu] Hb Hb' Hlen Hpre.
  assert (Hshort : base `prefix_of` base' /\ (length base < length base')%nat).
  { pose proof (prefix_length _ _ Hpre) as Hl. rewrite !length_app in Hl. cbn in Hl. split; [|lia].
    assert (H0 : base `prefix_of` base' ++ [y]) by (etrans; [apply prefix_app_r; reflexivity|exact Hpre]).
    destruct H0 as [k Hk]. exists (take (length base' - length base) k).
    apply (f_equal (take (length base'))) in Hk. rewrite take_app_length, take_app in Hk.
    by rewrite firstn_all2 in Hk by lia. }
  rewrite !elem_of_cons, elem_of_nil in Hb, Hb'. destruct Hshort as [Hs Hlt].
  destruct Hb as [->|[->|[]]], Hb' as [->|[->|[]]]; try lia.
  - destruct Hu as [->|Hu]; [lia|done].
  - destruct Hd as [->|Hd]; [lia|done].
Qed.

(** Nor is a path one level beneath of another name. *)
Lemma apart_sibling sdir mdir base base' x y :
  apart sdir mdir -> base ∈ [sdir; mdir] -> base' ∈ [sdir; mdir] -> x <> y ->
  ~ (base ++ [x]) `prefix_of` (base' ++ [y]).
Proof.
  intros Ha Hb Hb' Hne [k Hk]. destruct k as [|z k].
  - rewrite app_nil_r in Hk. apply app_inj_tail in Hk as [_ ?]. congruence.
  - apply (apart_deep sdir mdir base base' [x; z] y Ha Hb Hb'); [cbn; lia|].
    exists k. by rewrite Hk, <- !app_assoc.
Qed.

(** The directories an operation's files stand in, with room for them. *)
Definition ways (paths : AttachmentOperationPaths) : list Path :=
  path_prefixes (ap_operation_dir paths) ++ path_prefixes (ap_temp_dir paths).

Definition specials (paths : AttachmentOperationPaths) : gset Path :=
  {[journal_next (ap_journal_path paths); ap_journal_path paths; ap_temp_path paths]}.

Record room (paths : AttachmentOperationPaths) (d : Disk) : Prop := mkRoom {
  ro_good : good d;
  ro_clear : forall q, q ∈ ways paths -> d_files d !! q = None;
  ro_files : forall q, q ∈ specials paths -> q ∉ d_dirs d;
}.

Lemma ways_dirs (paths : AttachmentOperationPaths) (dir : Path) (dirs : gset Path) :
  dir ∈ [ap_operation_dir paths; ap_temp_dir paths] ->
  list_to_set (path_prefixes dir) ∪ dirs ⊆ list_to_set (ways paths) ∪ dirs.
Proof.
  intros Hd. apply union_mono_r. intros q. rewrite !elem_of_list_to_set. unfold ways.
  rewrite elem_of_app, !elem_of_cons, elem_of_nil in *. destruct Hd as [->|[->|[]]]; auto.
Qed.

Lemma create_dir_answers paths dir d :
  room paths d -> dir ∈ [ap_operation_dir paths; ap_temp_dir paths] ->
  exists d', create_private_dir dir d = (Ok tt, d') /\ good d' /\
    d_files d' = d_files d /\ d_dirs d' = list_to_set (path_prefixes dir) ∪ d_dirs d.
Proof.
  intros [G C F] Hdir. unfold create_private_dir. rewrite call_good by done.
  destruct (existsb _ _) eqn:E; [|eauto].
  apply existsb_exists in E as (q & Hq & Hs). rewrite <- list_elem_of_In in Hq.
  apply bool_decide_eq_true in Hs. rewrite C in Hs; [by destruct Hs|].
  unfold ways. rewrite elem_of_app. rewrite !elem_of_cons, elem_of_nil in Hdir.
  destruct Hdir as [->|[->|[]]]; auto.
Qed.

(** One operation whose directories stand apart. *)
Section Apart.
Context (rid : text) (paths : AttachmentOperationPaths) (L : laid_out rid paths).
Context (Ha : apart (ap_session_dir paths) (ap_media_dir paths)).

Lemma specials_parent q :
  q ∈ specials paths ->
  (parent q = ap_operation_dir paths \/ parent q = ap_temp_dir paths) /\
  exists base x, base ∈ [ap_session_dir paths; ap_media_dir paths] /\
    q = base ++ [ATTACHMENT_OPERATION_DIR_NAME; x].
Proof.
  unfold specials.
  rewrite (journal_next_eq _ _ L), (lo_journal _ _ L), (lo_temp _ _ L), (lo_temp_dir _ _ L), (lo_operation _ _ L).
  rewrite !elem_of_union, !elem_of_singleton.
  intros [[->| ->]| ->]; (split; [rewrite parent_snoc; by (left + right)|]);
    eexists _, _; (split; [|by rewrite <- app_assoc]); set_solver.
Qed.

Lemma ways_spec q :
  q ∈ ways paths <-> q `prefix_of` ap_operation_dir paths \/ q `prefix_of` ap_temp_dir paths.
Proof. unfold ways. by rewrite elem_of_app, !path_prefixes_spec. Qed.

Lemma beneath_free base rest q :
  base ∈ [ap_session_dir paths; ap_media_dir paths] -> (1 < length rest)%nat \/
    (exists x, rest = [x] /\ x <> ATTACHMENT_OPERATION_DIR_NAME) ->
  q = base ++ rest -> q ∉ ways paths.
Proof.
  intros Hb Hrest -> [Hq|Hq]%ways_spec; rewrite ?(lo_operation _ _ L), ?(lo_temp_dir _ _ L) in Hq;
    (destruct Hrest as [Hl|(x & -> & Hx)];
     [eapply apart_deep in Hq|eapply apart_sibling in Hq]); try done; set_solver.
Qed.

Lemma specials_free q : q ∈ specials paths -> q ∉ ways paths.
Proof.
  intros Hq. destruct (specials_parent _ Hq) as (_ & base & x & Hb & E).
  eapply beneath_free; [exact Hb| |exact E]. cbn. left. lia.
Qed.

Lemma room_step d d' :
  room paths d -> good d' ->
  (forall q, q ∈ ways paths -> d_files d' !! q = d_files d !! q) ->
  d_dirs d' ⊆ list_to_set (ways paths) ∪ d_dirs d -> room paths d'.
Proof.
  intros [G C F] G' Hf Hd. split; [done| |].
  - intros q Hq. rewrite Hf by done. by apply C.
  - intros q Hq Hin. apply Hd, elem_of_union in Hin as [Hin|Hin].
    + apply elem_of_list_to_set in Hin. by apply (specials_free q).
    + by apply (F q Hq).
Qed.

Lemma room_at_most ps d d' :
  room paths d -> good d' -> at_most ps d d' -> (forall q, q ∈ ps -> q ∉ ways paths) ->
  d_dirs d' = d_dirs d -> room paths d'.
Proof.
  intros R G A Hps Hd. eapply room_step; [done|done| |rewrite Hd; set_solver].
  intros q Hq. apply (am_files _ _ _ A). intros Hx. by apply (Hps q Hx).
Qed.

Lemma persist_answers j sync d :
  room paths d ->
  exists d', persist_attachment_operation paths j sync d = (Ok tt, d') /\ room paths d' /\
    d_dirs d' = list_to_set (path_prefixes (ap_operation_dir paths)) ∪ d_dirs d.
Proof.
  intros R. set (nx := journal_next (ap_journal_path paths)). set (jp := ap_journal_path paths).
  assert (Hnx : nx ∈ specials paths) by (unfold specials; set_solver).
  assert (Hjp : jp ∈ specials paths) by (unfold specials; set_solver).
  assert (Pnx : parent nx = ap_operation_dir paths)
    by (unfold nx; by rewrite (journal_next_eq _ _ L), parent_snoc).
  assert (Pjp : parent jp = ap_operation_dir paths) by (unfold jp; by rewrite (lo_journal _ _ L), parent_snoc).
  destruct (create_dir_answers paths (ap_operation_dir paths) d R) as (d1 & E1 & G1 & F1 & D1); [set_solver|].
  assert (R1 : room paths d1).
  { eapply room_step; [done|done|by rewrite F1|rewrite D1; apply ways_dirs; by left]. }
  assert (Hin : ap_operation_dir paths ∈ d_dirs d1).
  { rewrite D1, elem_of_union, elem_of_list_to_set. left. apply path_prefixes_self. }
  destruct (write_private_file_answers nx (JournalText j) d1) as (d2 & E2 & G2 & D2);
    [done|by apply R1|by rewrite Pnx|].
  pose proof (write_private_file_spec _ _ _ _ _ E2) as [A2 W2]. specialize (W2 eq_refl).
  assert (exists d3, (if sync then sync_file nx else ret tt) d2 = (Ok tt, d3) /\ good d3 /\
    d_dirs d3 = d_dirs d2 /\ quiet d2 d3) as (d3 & E3 & G3 & D3 & Q3).
  { destruct sync; [|by exists d2].
    destruct (sync_file_answers nx d2 G2 ltac:(eauto)) as (d3 & E3 & G3 & D3). exists d3.
    split; [done|]. split; [done|]. split; [done|]. by apply sync_file_quiet in E3 as [Q _]. }
  destruct (rename_answers nx jp d3) as (d4 & E4 & G4 & D4); [done| | | |].
  { rewrite (qu_files _ _ Q3), W2. eauto. }
  { rewrite D3, D2. by apply R1. }
  { by rewrite Pjp, D3, D2. }
  assert (exists d5, (if sync then sync_directory (ap_operation_dir paths) else ret tt) d4 = (Ok tt, d5)
    /\ good d5 /\ d_dirs d5 = d_dirs d4) as (d5 & E5 & G5 & D5).
  { destruct sync; [|by exists d4]. apply sync_directory_answers; [done|]. by rewrite D4, D3, D2. }
  exists d5. assert (E : persist_attachment_operation paths j sync d = (Ok tt, d5)).
  { unfold persist_attachment_operation. fold jp nx.
    rewrite (bind_ok _ _ _ _ _ E1), (bind_ok _ _ _ _ _ E2), (bind_ok _ _ _ _ _ E3).
    by rewrite (bind_ok _ _ _ _ _ E4). }
  split; [done|]. assert (D : d_dirs d5 = d_dirs d1) by congruence.
  split; [|by rewrite D, D1].
  apply (persist_spec _ _ L) in E as (A & _).
  apply (room_step d); [done|done| |rewrite D, D1; apply ways_dirs; by left].
  intros q Hq. apply (am_files _ _ _ A). fold nx jp.
  rewrite elem_of_union, !elem_of_singleton.
  intros [Eq|Eq]; subst q; [by apply (specials_free nx)|by apply (specials_free jp)].
Qed.

(** The reply's link, where the client asked for one. *)
Lemma reply_answers file short d :
  room paths d ->
  exists reply d', attachment_reply_path (ap_media_dir paths) file short d = (reply, d') /\
    room paths d' /\ d_files d' = d_files d /\ d_dirs d ⊆ d_dirs d' /\ reply_to d' file reply /\
    (short = false -> reply = file).
Proof.
  intros R. destruct (attachment_reply_path _ file short d) as [reply d'] eqn:E. exists reply, d'.
  pose proof (reply_path_spec _ _ _ _ _ _ E) as [Li Hr]. split; [done|].
  unfold attachment_reply_path in E. destruct short; [|injection E as <- <-; by split_and!].
  assert (Hgd : good d' /\ d_dirs d ⊆ d_dirs d' /\
    d_dirs d' ⊆ list_to_set (path_prefixes (ap_media_dir paths ++ [SHORTCUT_DIR_NAME])) ∪ d_dirs d).
  { pose proof (ro_good _ _ R) as G. unfold short_attachment_path, link_shortcut, bind in E.
    unfold create_private_dir in E. rewrite call_good in E by done.
    destruct (existsb _ _); cbv beta iota in E; [injection E as <- <-; split_and!; [done|done|set_solver]|].
    set (d1 := set_dirs d _) in E. assert (G1 : good d1) by done.
    rewrite call_good in E by done. cbv beta iota in E. rewrite call_good in E by done.
    destruct (path_exists d1 _); injection E as <- <-; split_and!; try done; cbn; set_solver. }
  destruct Hgd as (G' & Hsub & Hdirs). split_and!; [|apply Li|done|done|done].
  split; [done| |].
  - intros q Hq. rewrite (li_files _ _ Li). by apply (ro_clear _ _ R).
  - intros q Hq Hin. apply Hdirs, elem_of_union in Hin as [Hin|Hin]; [|by apply (ro_files _ _ R q)].
    apply elem_of_list_to_set, path_prefixes_spec in Hin.
    destruct (specials_parent _ Hq) as (_ & base & x & Hb & ->).
    eapply apart_deep in Hin; try done; [set_solver|cbn; lia].
Qed.

End Apart.

(** Every digest this worker writes is one it accepts. *)
Lemma hex_byte_valid b :
  String.length (hex_byte b) = 2%nat /\
  forallb (fun c => let n := Z.of_nat (nat_of_ascii c) in
             ((48 <=? n) && (n <=? 57)) || ((97 <=? n) && (n <=? 102)))
    (list_ascii_of_string (hex_byte b)) = true.
Proof. by destruct b; vm_compute. Qed.

Lemma sha256_hex_valid fed : AttachmentPackets.is_chunk_sha256 (sha256_hex fed) = true.
Proof.
  unfold sha256_hex. pose proof (KeeperServer.sha256_len fed) as Hlen.
  set (l := KeeperServer.sha256 fed) in *. clearbody l.
  assert (H : forall l, Z.of_nat (String.length (foldr (fun b s => String.append (hex_byte b) s) EmptyString l))
      = 2 * len l /\
    forallb (fun c => let n := Z.of_nat (nat_of_ascii c) in
             ((48 <=? n) && (n <=? 57)) || ((97 <=? n) && (n <=? 102)))
      (list_ascii_of_string (foldr (fun b s => String.append (hex_byte b) s) EmptyString l)) = true).
  { clear. induction l as [|b l [IH1 IH2]]; [done|]. cbn [foldr].
    destruct (hex_byte_valid b) as [H1 H2].
    destruct (hex_byte b) as [|x [|y [|]]]; try done.
    set (s := foldr _ _ l) in *. clearbody s.
    change (String.append (String x (String y "")) s) with (String x (String y s)).
    cbn [String.length list_ascii_of_string forallb] in *.
    split; [rewrite len_cons; lia|].
    rewrite andb_true_r in H2. by rewrite andb_assoc, H2, IH2. }
  destruct (H l) as [H1 H2]. apply andb_true_intro. split; [|exact H2].
  rewrite H1. unfold len. by rewrite Hlen.
Qed.

(** ** One undisturbed upload *)

(** The chunks a client sends on either carrier. *)
Definition client_chunk (sid rid filename : text) (short : bool) (carrier_id : text) (total seq offset : Z)
    (data : list byte) (final : bool) : DirectChunk :=
  mkDirectChunk rid sid filename short total data final seq offset (sha256_hex data) carrier_id.

(** What a journal that is read back may hold of a session's id, a name, a
    carrier's id and a media directory. *)
Definition recordable (sid filename carrier_id : text) (mdir : Path) : bool :=
  (str_len sid <=? MAX_TEXT_BYTES) && (str_len filename <=? MAX_TEXT_BYTES)
  && (str_len carrier_id <=? MAX_CARRIER_ID_BYTES) && negb (has_control carrier_id)
  && (path_len mdir <=? MAX_MEDIA_DIR_BYTES) && negb (path_has_control mdir).

Section Upload.
Context (root sdir mdir : Path) (sid rid filename : text) (short : bool).
Context (carrier : Carrier) (carrier_id : text) (total count : Z) (env : Env).
Context (paths : AttachmentOperationPaths).
Context (Hpaths : create_attachment_operation_paths root sid rid mdir = Some paths).
Context (Hdir : resolve_session_dir root sid = Some sdir).
Context (Hmedia : prepare_media_dir root sid (env_folder env) (env_prepared env) = Some mdir).
Context (Hapart : apart sdir mdir).
Context (Hlast : last mdir <> Some ATTACHMENT_OPERATION_DIR_NAME).
Context (Htotal : total <= MAX_SAFE_INTEGER).
Context (Hcarrier : carrier = Direct -> utf16_len carrier_id <= MAX_CARRIER_ID_UNITS).
Context (Hrecord : carrier = Direct ->
  recordable sid filename carrier_id mdir = true /\ count <= MAX_SAFE_INTEGER).

Let key := operation_key sid rid.
Let cid : text := match carrier with Direct => carrier_id | Coordinator => [] end.
Let declared : option Z := match carrier with Direct => Some total | Coordinator => None end.

Definition offer (seq offset : Z) (data : list byte) (final : bool) : Event :=
  match carrier with
  | Direct => DirectOffered env (client_chunk sid rid filename short carrier_id total seq offset data final)
  | Coordinator => RelayOffered env (mkRelayChunk rid sid filename short data final seq)
  end.

(** The events of one upload: its chunks, each the carrier tells the progress of
    flushed first, and the two rounds of its commit. *)
Fixpoint upload_events (seq offset : Z) (parts : list (list byte)) : list Event :=
  match parts with
  | [] => []
  | [data] => [offer seq offset data true; FirstFlushed key; SecondFlushed key]
  | data :: rest =>
      offer seq offset data false ::
      match carrier with Direct => [ProgressFlushed sid rid] | Coordinator => [] end ++
      upload_events (seq + 1) (offset + len data) rest
  end.

(** The chunk the owner is offered. *)
Definition offered (seq offset : Z) (data : list byte) (final : bool) : AttachmentOperationChunk :=
  mkOperationChunk (mkDescriptor rid sid filename short declared) carrier cid seq offset data final
    (match carrier with Direct => Some (sha256_hex data) | Coordinator => None end).

Lemma upload_laid : laid_out rid paths /\ ap_media_dir paths = mdir /\ ap_session_dir paths = sdir.
Proof.
  destruct (paths_laid_out _ _ _ _ _ Hpaths Hlast) as (L & Hm & Hs). split; [done|]. split; [done|]. congruence.
Qed.

Lemma upload_apart : apart (ap_session_dir paths) (ap_media_dir paths).
Proof. by destruct upload_laid as (_ & -> & ->). Qed.

(** What a name in the media directory is on both disks. *)
Definition same_names (d d' : Disk) : Prop :=
  forall x, public_name x -> path_exists d' (mdir ++ [x]) = path_exists d (mdir ++ [x]).

Lemma free_candidate_same d d' stem extension index fuel x rest :
  same_names d d' -> stem = x :: rest -> x <> DOT ->
  free_candidate d' mdir stem extension index fuel = free_candidate d mdir stem extension index fuel.
Proof.
  intros S E Hx. revert index. induction fuel as [|fuel IH]; intros index; cbn; [done|].
  rewrite IH, S; [done|]. unfold numbered_name. rewrite E. by eexists _, _.
Qed.

Lemma reserve_same d d' millis :
  same_names d d' ->
  reserve_attachment_destination d' mdir filename millis
  = reserve_attachment_destination d mdir filename millis.
Proof.
  intros S. unfold reserve_attachment_destination.
  destruct (sanitize_head filename) as (x & rest & -> & Hx). unfold unique_name.
  rewrite S by (by eexists _, _). case_match; [done|].
  destruct (node_extname_suffix (x :: rest)) as (stem & Es & Hne).
  rewrite (stem_take _ _ Es).
  destruct stem as [|y stem].
  { cbn in Es. exfalso. apply Hne; [rewrite <- Es|]; done. }
  assert (y = x) as -> by by injection Es.
  by rewrite (free_candidate_same d d' _ _ _ _ x stem S).
Qed.

(** The operation after [seq] chunks of [bytes], with everything in place for
    the next. *)
Record building (d0 d : Disk) (op : ActiveOperation) (seq : Z) (bytes : list byte) : Prop := mkBuilding {
  bu_key : op_key op = key;
  bu_paths : op_paths op = paths;
  bu_registered : op_registered op = true;
  bu_commit : op_commit op = None;
  bu_hasher : op_hasher op = bytes;
  bu_file : exists file, op_file op = Some (Cursor file (length bytes)) /\
    d_opened d !! file = Some (ap_temp_path paths);
  bu_descriptor : journal_descriptor (op_journal op) = mkDescriptor rid sid filename short declared;
  bu_carrier : aj_carrier (op_journal op) = carrier /\ aj_carrier_id (op_journal op) = cid;
  bu_open : aj_error (op_journal op) = ""%string /\ aj_final_name (op_journal op) = [] /\
    aj_committed (op_journal op) = false;
  bu_seq : aj_next_seq (op_journal op) = seq /\ 0 <= seq;
  bu_bytes : aj_bytes_written (op_journal op) = len bytes;
  bu_temp : exists n, d_files d !! ap_temp_path paths = Some n /\ contents n = bytes;
  bu_room : room paths d;
  bu_dirs : mdir ∈ d_dirs d /\ sdir ∈ d_dirs d /\ ap_operation_dir paths ∈ d_dirs d /\
    ap_temp_dir paths ∈ d_dirs d;
  bu_names : same_names d0 d;
  bu_record : carrier = Direct -> d_files d !! ap_journal_path paths = Some (JournalText (op_journal op));
  bu_fields : aj_version (op_journal op) = JOURNAL_VERSION /\ aj_media_dir (op_journal op) = Some mdir /\
    AttachmentPackets.is_chunk_sha256 (aj_last_chunk_sha256 (op_journal op)) ||
      String.eqb (aj_last_chunk_sha256 (op_journal op)) "" = true /\
    aj_content_sha256 (op_journal op) = ""%string /\ aj_abs_path (op_journal op) = None;
}.

Lemma names_at_most d d' :
  (forall x, public_name x -> d_files d' !! (mdir ++ [x]) = d_files d !! (mdir ++ [x])) ->
  d_links d' = d_links d ->
  d_dirs d ⊆ d_dirs d' -> d_dirs d' ⊆ list_to_set (ways paths) ∪ d_dirs d ->
  same_names d d'.
Proof.
  destruct upload_laid as (L & Hm & Hs).
  intros Hf Hl Hd Hd' x Hx. unfold path_exists. rewrite Hf, Hl by done. f_equal. f_equal.
  apply bool_decide_ext. split; [|by intros H; apply Hd].
  intros H. apply Hd', elem_of_union in H as [H|H]; [|done].
  apply elem_of_list_to_set in H. exfalso. revert H.
  eapply (beneath_free rid paths L upload_apart mdir [x]); [rewrite Hm; set_solver|right|done].
  exists x. split; [done|]. destruct Hx as (y & rest & -> & Hy). intros [=]. done.
Qed.

Lemma public_not_special x q : public_name x -> q ∈ specials paths -> mdir ++ [x] <> q.
Proof.
  destruct upload_laid as (L & Hm & Hs). intros Hx Hq E.
  apply (own_paths rid paths L) in Hq as [Hq _]. subst q. unfold private in Hq. by rewrite parent_snoc in Hq.
Qed.

Lemma same_names_trans d1 d2 d3 : same_names d1 d2 -> same_names d2 d3 -> same_names d1 d3.
Proof. intros H1 H2 x Hx. by rewrite H2, H1. Qed.

Lemma same_names_special d d' ps :
  at_most ps d d' -> ps ⊆ specials paths -> d_dirs d' = d_dirs d -> same_names d d'.
Proof.
  intros A Hps D. apply names_at_most; [|apply A|by rewrite D|rewrite D; set_solver].
  intros x Hx. apply (am_files _ _ _ A). intros Hin. by apply (public_not_special x _ Hx (Hps _ Hin)).
Qed.

(** A persisted journal moves nothing else. *)
Lemma persist_building d j sync :
  room paths d ->
  exists d', persist_attachment_operation paths j sync d = (Ok tt, d') /\ room paths d' /\
    sdir ∈ d_dirs d' /\ ap_operation_dir paths ∈ d_dirs d' /\ same_names d d' /\
    d_files d' !! ap_temp_path paths = d_files d !! ap_temp_path paths /\
    d_files d' !! ap_journal_path paths = Some (JournalText j) /\
    (forall x, public_name x -> d_files d' !! (mdir ++ [x]) = d_files d !! (mdir ++ [x])) /\
    d_dirs d ⊆ d_dirs d' /\ d_links d' = d_links d /\
    (forall file, d_opened d !! file = Some (ap_temp_path paths) ->
       d_opened d' !! file = Some (ap_temp_path paths)).
Proof.
  destruct upload_laid as (L & Hm & Hs). intros R.
  destruct (persist_answers rid paths L upload_apart j sync d R) as (d' & E & R' & D).
  exists d'. split; [done|]. split; [done|].
  pose proof (persist_spec _ _ L _ _ _ _ _ E) as (A & _ & J).
  pose proof (persist_temp _ _ L _ _ _ _ _ E) as T.
  pose proof (fun file => persist_opened _ _ L _ _ _ _ _ file E) as O.
  assert (F : forall x, public_name x -> d_files d' !! (mdir ++ [x]) = d_files d !! (mdir ++ [x])).
  { intros x Hx. apply (am_files _ _ _ A). intros Hin. eapply (public_not_special x); [done| |reflexivity].
    unfold specials. set_solver. }
  assert (Hin : forall q, q `prefix_of` ap_operation_dir paths -> q ∈ d_dirs d').
  { intros q Hq. rewrite D, elem_of_union, elem_of_list_to_set. left. by apply path_prefixes_spec. }
  split_and!; try done.
  - apply Hin. rewrite (lo_operation _ _ L), Hs. by apply prefix_app_r.
  - by apply Hin.
  - apply names_at_most; [done|apply A|set_solver|rewrite D; apply ways_dirs; by left].
  - by apply J.
  - set_solver.
  - apply A.
Qed.

(** *** Opening *)

Lemma offered_valid seq offset data final :
  offset <= total -> valid_chunk (offered seq offset data final) = true /\
  is_none_or (oc_chunk_sha256 (offered seq offset data final)) AttachmentPackets.is_chunk_sha256 = true.
Proof.
  intros Ho. unfold valid_chunk. cbn. split; [|destruct carrier; [done|apply sha256_hex_valid]].
  rewrite !andb_true_iff. split_and!.
  - apply Z.leb_le. by etransitivity.
  - unfold declared. destruct carrier; [done|]. by apply Z.leb_le.
  - apply Z.leb_le. revert Hcarrier. unfold cid. case carrier; [done|intros H; by apply H].
Qed.

Lemma paths_valid : valid_opaque_id rid = true.
Proof.
  unfold create_attachment_operation_paths in Hpaths. destruct (valid_opaque_id rid); done.
Qed.

Lemma prepare_new (active : ActiveTable) d data final :
  active !! key = None -> room paths d -> d_files d !! ap_journal_path paths = None ->
  d_links d !! ap_journal_path paths = None ->
  exists op d', prepare root env active (offered 0 0 data final) d = (Ok (Ok op), active, d') /\
    building d d' op 0 [].
Proof.
  destruct upload_laid as (L & Hm & Hs). intros Ha R Hj Hl.
  assert (Spec : ap_temp_path paths ∈ specials paths) by (unfold specials; set_solver).
  unfold prepare. change (chunk_key (offered 0 0 data final)) with key. rewrite Ha.
  change (od_session_id (oc_descriptor (offered 0 0 data final))) with sid.
  change (od_request_id (oc_descriptor (offered 0 0 data final))) with rid.
  unfold load_attachment_operation. rewrite paths_valid, Hdir.
  assert (Ep : sdir ++ [ATTACHMENT_OPERATION_DIR_NAME; rid ++ chars ".json"] = ap_journal_path paths).
  { rewrite <- Hs. by apply journal_path_eq. }
  assert (Ex : path_exists d (ap_journal_path paths) = false).
  { unfold path_exists. rewrite !orb_false_iff, !bool_decide_eq_false, Hj, Hl.
    split_and!; [by intros [? ?]| |by intros [? ?]]. apply R. unfold specials. set_solver. }
  rewrite Ep, Ex. cbn [negb].
  change (oc_seq (offered 0 0 data final) =? 0) with true.
  change (oc_offset (offered 0 0 data final) =? 0) with true. cbn [negb].
  rewrite Hmedia. unfold create_attachment_operation. cbn [mbind option_bind].
  change (od_session_id _) with sid. change (od_request_id _) with rid. rewrite Hpaths.
  destruct (create_dir_answers paths (ap_operation_dir paths) d R) as (d1 & E1 & G1 & F1 & D1); [set_solver|].
  assert (R1 : room paths d1).
  { apply (room_step rid paths L upload_apart d); [done|done|by rewrite F1|rewrite D1; apply ways_dirs; by left]. }
  destruct (create_dir_answers paths (ap_temp_dir paths) d1 R1) as (d2 & E2 & G2 & F2 & D2); [set_solver|].
  assert (R2 : room paths d2).
  { apply (room_step rid paths L upload_apart d1); [done|done|by rewrite F2|rewrite D2; apply ways_dirs; by right; left]. }
  rewrite (bind_ok _ _ _ _ _ E1), (bind_ok _ _ _ _ _ E2).
  set (j := mkJournal _ _ _ _ _ _ _ _ _ _ _ _ _ _ _ _ _ _). cbv zeta.
  destruct (persist_building d2 j false R2) as (d3 & E3 & R3 & I3 & O3 & S3 & T3 & J3 & F3 & Sub3 & K3 & Op3).
  rewrite (bind_ok _ _ _ _ _ E3). cbn [ret].
  assert (Htd : ap_temp_dir paths ∈ d_dirs d3 /\ mdir ∈ d_dirs d3).
  { assert (Hin : forall q, q `prefix_of` ap_temp_dir paths -> q ∈ d_dirs d3).
    { intros q Hq. apply Sub3. rewrite D2, elem_of_union, elem_of_list_to_set. left. by apply path_prefixes_spec. }
    split; [by apply Hin|]. apply Hin. rewrite (lo_temp_dir _ _ L), Hm. by apply prefix_app_r. }
  destruct (create_truncate_answers (ap_temp_path paths) d3) as (d4 & E4 & G4 & D4);
    [apply R3|by apply R3| |].
  { rewrite (lo_temp _ _ L), parent_snoc. apply Htd. }
  destruct (open_file (ap_temp_path paths) d4) as [r5 d5] eqn:E5.
  destruct (open_file_spec _ _ _ _ E5) as (Q5 & F5 & D5 & K5 & file & -> & Ho5).
  rewrite (bind_ok _ _ _ _ _ E4), E5.
  pose proof (create_truncate_spec _ _ _ _ E4) as [A4 W4]. specialize (W4 eq_refl).
  assert (A5 : at_most {[ap_temp_path paths]} d3 d5) by (transitivity d4; [done|by apply quiet_at_most]).
  assert (G5 : good d5) by (unfold open_file in E5; injection E5 as <- <-; exact G4).
  assert (D35 : d_dirs d5 = d_dirs d3) by congruence.
  eexists _, d5. split; [done|]. split; try done.
  - exists file. by split.
  - cbn. rewrite F5. eauto.
  - apply (room_at_most rid paths L upload_apart {[ap_temp_path paths]} d3); [done..| |done].
    intros q ->%elem_of_singleton. by apply (specials_free rid paths L upload_apart).
  - rewrite D35. split_and!; [apply Htd|done|done|apply Htd].
  - assert (Hmade : forall da db dir0 ra, create_private_dir dir0 da = (ra, db) ->
      dir0 ∈ [ap_operation_dir paths; ap_temp_dir paths] -> d_files db = d_files da ->
      d_dirs db = list_to_set (path_prefixes dir0) ∪ d_dirs da -> same_names da db).
    { intros da db dir0 ra E Hin F D. apply names_at_most; [by rewrite F| |rewrite D; set_solver|].
      - apply create_private_dir_quiet in E. apply E.
      - rewrite D. by apply ways_dirs. }
    apply (same_names_trans _ d1); [by eapply Hmade; [exact E1|set_solver| |]|].
    apply (same_names_trans _ d2); [by eapply Hmade; [exact E2|set_solver| |]|].
    apply (same_names_trans _ d3); [done|].
    apply (same_names_special _ _ {[ap_temp_path paths]}); [done|set_solver|done].
  - intros _. rewrite (am_files _ _ _ A5), J3; [done|]. rewrite elem_of_singleton.
    destruct (own_paths_differ _ _ L) as (_ & ? & _). congruence.
  - cbn. by rewrite Hm.
Qed.

(** *** Each chunk *)

Lemma building_step d0 d d' op seq bytes data file final :
  building d0 d op seq bytes -> op_file op = Some (Cursor file (length bytes)) ->
  room paths d' -> d_dirs d ⊆ d_dirs d' -> same_names d d' ->
  (exists n, d_files d' !! ap_temp_path paths = Some n /\ contents n = bytes ++ data) ->
  d_opened d' !! file = Some (ap_temp_path paths) ->
  let op' :=
    set_journal (set_hasher (set_file op (Some (advance_handle (Cursor file (length bytes)) data)))
       (bytes ++ data)) (with_chunk (op_journal op) (len data) (sha256_hex data) final) in
  (carrier = Direct -> d_files d' !! ap_journal_path paths = Some (JournalText (op_journal op'))) ->
  building d0 d' op' (seq + 1) (bytes ++ data).
Proof.
  intros [k p r c h f de ca o [s s0] by_ t ro (di & di1 & di2 & di3) na re (f1 & f2 & f3 & f4 & f5)]
    Ef R D S T O op' J. split; cbn; try done.
  - exists file. rewrite length_app. by split.
  - rewrite s. split; [done|lia].
  - by rewrite by_, len_app.
  - set_solver.
  - by apply (same_names_trans _ d).
  - split_and!; try done. by rewrite sha256_hex_valid.
Qed.

(** An operation whose commit takes the last byte: its temp and its names, but
    no journal on disk yet. *)
Record complete (d0 d : Disk) (op : ActiveOperation) (bytes : list byte) : Prop := mkComplete {
  cp_key : op_key op = key;
  cp_paths : op_paths op = paths;
  cp_journal : aj_filename (op_journal op) = filename /\ aj_short_path (op_journal op) = short /\
    aj_session_id (op_journal op) = sid /\ aj_request_id (op_journal op) = rid;
  cp_bytes : aj_bytes_written (op_journal op) = len bytes;
  cp_temp : exists n, d_files d !! ap_temp_path paths = Some n /\ contents n = bytes;
  cp_room : room paths d;
  cp_dirs : mdir ∈ d_dirs d;
  cp_names : same_names d0 d;
}.

Lemma advance_building d0 d op seq bytes data final :
  building d0 d op seq bytes -> len bytes + len data <= total ->
  (final = true -> len bytes + len data = total) ->
  exists adv op' d', advance env op (offered seq (len bytes) data final) d = (Ok adv, op', d') /\
    if final then adv = Commit /\ complete d0 d' op' (bytes ++ data)
    else (exists receipt, adv = Answer (Ok receipt) /\ re_committed receipt = false) /\
      building d0 d' op' (seq + 1) (bytes ++ data).
Proof.
  destruct upload_laid as (L & Hm & Hs). intros B Hle Hfin.
  set (op0 := set_last_activity op (env_now env)).
  assert (B0 : building d0 d op0 seq bytes) by (by destruct B). clear B. rename B0 into B.
  pose proof B as [k p r c h (file & f & fo) de ca (Herr & Hfn & Hco) [s s0] by_ (n & En & Ec) ro di na re fi].
  unfold advance. change (op_commit op) with (op_commit op0). rewrite c. fold op0.
  rewrite Herr, Hfn. cbn [String.eqb negb bool_decide decide_rel andb].
  rewrite bool_decide_eq_true_2 by done. cbn [negb andb].
  unfold take_chunk. cbn [offered oc_chunk_sha256 oc_data oc_seq oc_offset oc_last oc_carrier].
  assert (Hclaim : default (sha256_hex data) (match carrier with Direct => Some (sha256_hex data) | Coordinator => None end)
      = sha256_hex data) by by case carrier.
  rewrite Hclaim, String.eqb_refl. cbn [negb].
  assert (Hdup : forall cl, is_last_accepted_duplicate (op_journal op0) (offered seq (len bytes) data final) cl = false).
  { intros cl. unfold is_last_accepted_duplicate. cbn [offered oc_seq].
    rewrite s. assert (seq =? seq - 1 = false) as -> by (apply Z.eqb_neq; lia).
    by rewrite andb_false_r. }
  unfold offered in Hdup. rewrite Hdup. rewrite Hco, s, Z.eqb_refl. cbn [orb negb].
  rewrite by_, Z.eqb_refl. cbn [negb].
  assert (Et : aj_total_bytes (op_journal op0) = declared) by (unfold journal_descriptor in de; congruence).
  rewrite Et.
  assert (Hfit : is_none_or declared (fun total => len data <=? saturating_sub total (len bytes)) = true).
  { unfold declared. case carrier; [done|]. cbn. apply Z.leb_le. unfold saturating_sub. lia. }
  rewrite Hfit. cbn [negb]. rewrite f.
  destruct (write_all_answers (Cursor file (length bytes)) data d) as (d1 & E1 & G1 & D1); [apply ro|].
  rewrite E1.
  assert (Hat : handle_at (Cursor file (length bytes)) (contents n) = length (contents n)) by (cbn; by rewrite Ec).
  pose proof (write_all_spec _ (Cursor file (length bytes)) _ _ _ _ _ fo En Hat E1) as (A1 & Op1 & n1 & more & En1 & Ec1 & Hmore).
  rewrite (Hmore eq_refl), Ec in Ec1.
  assert (Spec : ap_temp_path paths ∈ specials paths) by (unfold specials; set_solver).
  assert (R1 : room paths d1).
  { apply (room_at_most rid paths L upload_apart {[ap_temp_path paths]} d); [done..| |done].
    intros q ->%elem_of_singleton. by apply (specials_free rid paths L upload_apart). }
  assert (S1 : same_names d d1)
    by (apply (same_names_special _ _ {[ap_temp_path paths]}); [done|set_solver|done]).
  rewrite h.
  pose proof (fun d' => building_step d0 d d' op0 seq bytes data file final B f) as Hnext. cbv zeta in Hnext.
  unfold journal_descriptor in de. injection de as de1 de2 de3 de4 de5.
  destruct final; cbn [negb].
  - cbn [aj_total_bytes with_chunk aj_bytes_written]. rewrite Et, by_, (Hfin eq_refl).
    assert (Hall : is_none_or declared (fun total0 => total =? total0) = true).
    { unfold declared. case carrier; [done|]. cbn. apply Z.eqb_refl. }
    rewrite Hall. cbn [negb]. eexists Commit, _, d1. split; [done|]. split; [done|].
    split; cbn; try done.
    + by rewrite len_app, <- by_.
    + eauto.
    + rewrite D1. apply di.
    + by apply (same_names_trans _ d).
  - assert (Hcase : carrier = Coordinator \/ carrier = Direct) by (case carrier; auto).
    destruct Hcase as [Hcase|Hcase]; rewrite Hcase.
    + eexists _, _, d1. split; [done|]. split.
      * eexists. split; [done|]. exact Hco.
      * apply Hnext; [done|by rewrite D1|done|eauto|by rewrite Op1|congruence].
    + destruct (persist_building d1 (with_chunk (op_journal op0) (len data) (sha256_hex data) false) false R1)
        as (d2 & E2 & R2 & I2 & O2 & S2 & T2 & J2 & F2 & Sub2 & K2 & Op2).
      cbn [op_paths set_journal set_hasher set_file]. rewrite p, E2.
      eexists _, _, d2. split; [done|]. split.
      * eexists. split; [done|]. exact Hco.
      * apply Hnext; [done|set_solver|by apply (same_names_trans _ d1)|rewrite T2; eauto| |done].
        apply Op2. by rewrite Op1.
Qed.

(** *** The progress a direct carrier tells *)

Lemma building_quiet d0 d d' op seq bytes :
  quiet d d' -> good d' -> d_dirs d' = d_dirs d -> building d0 d op seq bytes -> building d0 d' op seq bytes.
Proof.
  intros [Qf Qi Ql Qs Qo] G D [k p r c h (file & f & fo) de ca o s by_ t ro di na re fi].
  split; rewrite ?Qf, ?D; try done.
  - exists file. split; [done|]. by eapply lookup_weaken.
  - destruct ro as [_ C F]. split; [done|by rewrite Qf|by rewrite D].
  - intros x Hx. unfold path_exists. rewrite Qf, D, Qs. by apply na.
Qed.

(** The journal of an upload under way can be read back. *)
Lemma building_loads d0 d op seq bytes :
  building d0 d op seq bytes -> carrier = Direct -> len bytes <= total -> seq <= count ->
  load_attachment_operation root sid rid d = (Loaded paths (op_journal op), d).
Proof.
  destruct upload_laid as (L & Hm & Hs). intros B Hcase Hle Hseq.
  destruct (Hrecord Hcase) as [Hrec Hcount]. unfold recordable in Hrec.
  rewrite !andb_true_iff in Hrec. destruct Hrec as [[[[[Rs Rf] Rc] Rcc] Rm] Rmc].
  pose proof B as [k p r c h _ de [ca ca'] (Herr & Hfn & Hco) [s s0] by_ t ro di na re (f1 & f2 & f3 & f4 & f5)].
  specialize (re Hcase). unfold journal_descriptor in de. injection de as de1 de2 de3 de4 de5.
  unfold load_attachment_operation. rewrite paths_valid, Hdir.
  assert (Ep : sdir ++ [ATTACHMENT_OPERATION_DIR_NAME; rid ++ chars ".json"] = ap_journal_path paths).
  { rewrite <- Hs. by apply journal_path_eq. }
  rewrite Ep. unfold path_exists. rewrite re. cbn [is_Some bool_decide]. rewrite bool_decide_eq_true_2 by eauto.
  cbn [orb negb]. rewrite call_good by apply ro. rewrite re. cbn [ok_or as_journal mbind option_bind].
  assert (Hparse : parse_journal (op_journal op) = Some (op_journal op)).
  { unfold parse_journal. rewrite f1, de1, de2, de3, de5, by_, s, ca', Hfn, f4, f2, paths_valid, Rs, Rf.
    unfold cid, declared. rewrite Hcase. cbn [is_none_or from_option].
    rewrite (proj2 (Z.leb_le total _) Htotal), (proj2 (Z.leb_le seq _)) by lia.
    rewrite (proj2 (Z.leb_le (len bytes) _)) by lia.
    unfold id. rewrite Rc, Rcc, Rm, Rmc. unfold valid_digest at 1. rewrite orb_comm, f3. done. }
  rewrite Hparse, f2. cbn [recorded_media_dir].
  assert (Hmd : bool_decide (mdir = sdir) || is_project_media_dir mdir = true).
  { unfold prepare_media_dir in Hmedia. rewrite Hdir in Hmedia. cbn [mbind option_bind] in Hmedia.
    destruct (usable_project_dir root (env_folder env)) as [dir|] eqn:Eu.
    - destruct (env_prepared env); injection Hmedia as <-; [|by rewrite bool_decide_eq_true_2].
      unfold usable_project_dir in Eu. destruct (env_folder env) as [[folder is_dir]|]; [|done].
      cbn in Eu. destruct (_ && _); [|done]. injection Eu as <-. apply orb_true_intro. right.
      unfold is_project_media_dir, project_media_dir. apply bool_decide_eq_true. by exists folder.
    - injection Hmedia as <-. by rewrite bool_decide_eq_true_2. }
  rewrite Hmd. cbn [mbind option_bind]. rewrite Hpaths, de1, de2, f5.
  rewrite !bool_decide_eq_true_2 by done. done.
Qed.

Lemma progress_flushed d0 d op seq bytes :
  building d0 d op seq bytes -> carrier = Direct -> len bytes <= total -> seq <= count ->
  exists d', sync_attachment_operation_progress root sid rid d = (Ok tt, d') /\ building d0 d' op seq bytes.
Proof.
  destruct upload_laid as (L & Hm & Hs). intros B Hcase Hle Hseq.
  pose proof (building_loads _ _ _ _ _ B Hcase Hle Hseq) as Hload.
  destruct (bu_dirs _ _ _ _ _ B) as (I1 & I2 & I3 & I4).
  assert (exists d', sync_attachment_operation_progress root sid rid d = (Ok tt, d') /\ good d' /\
            d_dirs d' = d_dirs d) as (d' & E & G & D).
  { unfold sync_attachment_operation_progress. rewrite Hload.
    destruct (bu_temp _ _ _ _ _ B) as (n & En & _). pose proof (ro_good _ _ (bu_room _ _ _ _ _ B)) as G0.
    destruct (sync_file_answers (ap_temp_path paths) d G0 ltac:(eauto)) as (d1 & E1 & G1 & D1).
    pose proof (sync_file_quiet _ _ _ _ E1) as [Q1 _].
    destruct (sync_file_answers (ap_journal_path paths) d1 G1) as (d2 & E2 & G2 & D2).
    { rewrite (qu_files _ _ Q1), (bu_record _ _ _ _ _ B Hcase). eauto. }
    rewrite (bind_ok _ _ _ _ _ E1), (bind_ok _ _ _ _ _ E2).
    destruct (sync_directory_answers (ap_operation_dir paths) d2 G2) as (d3 & E3 & G3 & D3); [by rewrite D2, D1|].
    destruct (sync_directory_answers (ap_session_dir paths) d3 G3) as (d4 & E4 & G4 & D4);
      [by rewrite Hs, D3, D2, D1|].
    destruct (sync_directory_answers (ap_temp_dir paths) d4 G4) as (d5 & E5 & G5 & D5); [by rewrite D4, D3, D2, D1|].
    destruct (sync_directory_answers (ap_media_dir paths) d5 G5) as (d6 & E6 & G6 & D6);
      [by rewrite Hm, D5, D4, D3, D2, D1|].
    rewrite (bind_ok _ _ _ _ _ E3), (bind_ok _ _ _ _ _ E4), (bind_ok _ _ _ _ _ E5).
    exists d6. split_and!; [done|done|congruence]. }
  exists d'. split; [done|]. apply (building_quiet d0 d); [by eapply sync_progress_quiet|done|done|done].
Qed.

(** *** The commit *)

(** The file is under its name, the journal says so or is about to. *)
Record filed (d : Disk) (op : ActiveOperation) (phase : CommitPhase) (name : text)
    (bytes : list byte) : Prop := mkFiled {
  fi_key : op_key op = key;
  fi_paths : op_paths op = paths;
  fi_commit : op_commit op = Some phase;
  fi_journal : aj_final_name (op_journal op) = name /\ aj_bytes_written (op_journal op) = len bytes /\
    aj_short_path (op_journal op) = short /\ aj_session_id (op_journal op) = sid /\
    aj_request_id (op_journal op) = rid;
  fi_file : exists n, d_files d !! (mdir ++ [name]) = Some n /\ contents n = bytes;
  fi_room : room paths d;
  fi_dirs : mdir ∈ d_dirs d;
  fi_done : phase = SecondFlush -> aj_committed (op_journal op) = true /\
    (exists reply, aj_abs_path (op_journal op) = Some reply /\ reply_to d (mdir ++ [name]) reply /\
       (short = false -> reply = mdir ++ [name])) /\
    is_Some (d_files d !! ap_journal_path paths) /\ ap_operation_dir paths ∈ d_dirs d;
}.

Lemma public_room x : public_name x -> mdir ++ [x] ∉ ways paths.
Proof.
  destruct upload_laid as (L & Hm & Hs). intros (y & rest & -> & Hy).
  eapply (beneath_free rid paths L upload_apart mdir); [rewrite Hm; set_solver|right|reflexivity].
  eexists. split; [reflexivity|]. intros [=]. done.
Qed.

Lemma begin_commit_files d0 d active op bytes :
  let name := reserve_attachment_destination d0 mdir filename (env_millis env) in
  complete d0 d op bytes -> path_exists d0 (mdir ++ [name]) = false ->
  exists op' d', begin_commit env active op d = (Committing, <[key := op']> active, d') /\
    filed d' op' FirstFlush name bytes.
Proof.
  destruct upload_laid as (L & Hm & Hs). intros name [k p (jf & js & ji & jr) by_ (n & En & Ec) ro di na] Hfree.
  assert (Hpub : public_name name) by apply reserved_public.
  unfold begin_commit. rewrite p, Hm, jf, (reserve_same d0 d _ na). fold name.
  set (j := with_final (op_journal op) name _). cbv zeta.
  destruct (persist_building d j false ro) as (d1 & E1 & R1 & I1 & O1 & S1 & T1 & J1 & F1 & Sub1 & K1 & Op1).
  rewrite (bind_ok _ _ _ _ _ E1). unfold place_attachment_destination.
  change (aj_final_name j) with name.
  assert (Hfree1 : path_exists d1 (mdir ++ [name]) = false) by by rewrite S1, na.
  rewrite Hfree1.
  destruct (rename_answers (ap_temp_path paths) (mdir ++ [name]) d1) as (d2 & E2 & G2 & D2).
  { apply R1. } { rewrite T1. eauto. }
  { unfold path_exists in Hfree1. rewrite !orb_false_iff, !bool_decide_eq_false in Hfree1. tauto. }
  { rewrite parent_snoc. by apply Sub1. }
  rewrite (bind_ok _ _ _ _ _ E2). unfold ret. cbn [op_key set_journal set_hasher set_file]. rewrite k.
  apply rename_spec in E2 as (A2 & _ & M2).
  assert (Spec : ap_temp_path paths ∈ specials paths) by (unfold specials; set_solver).
  destruct (M2 eq_refl) as (n2 & En2 & En2' & _).
  { intros E. by apply (public_not_special name _ Hpub Spec). }
  rewrite T1, En in En2. injection En2 as <-.
  eexists _, d2. split; [done|]. split; cbn; try done.
  - eauto.
  - apply (room_at_most rid paths L upload_apart _ d1 _ R1 G2 A2); [|done].
    intros q. rewrite elem_of_union, !elem_of_singleton. intros [->| ->].
    + by apply (specials_free rid paths L upload_apart).
    + by apply public_room.
  - rewrite D2. by apply Sub1.
Qed.

Lemma flush_first_files d active op name bytes :
  active !! key = Some op -> public_name name -> filed d op FirstFlush name bytes ->
  exists op' d', flush_first key active d = (None, <[key := op']> active, d') /\
    filed d' op' SecondFlush name bytes.
Proof.
  destruct upload_laid as (L & Hm & Hs).
  intros Ea Hpub [k p c (jn & jb & js & ji & jr) (n & En & Ec) ro di _].
  unfold flush_first. rewrite Ea, p. unfold final_path. rewrite jn, Hm.
  destruct (sync_file_answers (mdir ++ [name]) d) as (d1 & E1 & G1 & D1); [apply ro|eauto|].
  rewrite (bind_ok _ _ _ _ _ E1). pose proof (sync_file_quiet _ _ _ _ E1) as [Q1 _].
  destruct (sync_directory_answers mdir d1) as (d2 & E2 & G2 & D2); [done|by rewrite D1|].
  rewrite E2. pose proof (sync_directory_quiet _ _ _ _ E2) as [Q2 _].
  assert (Q : quiet d d2) by by transitivity d1.
  set (d3 := record_attachment_hash _ _ _ d2).
  destruct (record_hash_good mdir (aj_content_sha256 (op_journal op)) name d2 G2) as [G3 D3]. fold d3 in G3, D3.
  pose proof (record_hash_at_most paths (aj_content_sha256 (op_journal op)) name d2) as A3.
  rewrite Hm in A3. fold d3 in A3.
  assert (R3 : room paths d3).
  { apply (room_at_most rid paths L upload_apart {[manifest_path paths]} d).
    - done.
    - done.
    - transitivity d2; [by apply quiet_at_most|done].
    - intros q ->%elem_of_singleton.
      eapply (beneath_free rid paths L upload_apart (ap_media_dir paths)); [set_solver|right|reflexivity].
      by eexists.
    - congruence. }
  destruct (reply_answers rid paths L upload_apart (mdir ++ [name]) short d3 R3)
    as (reply & d4 & E4 & R4 & F4 & Sub4 & Hto & Hshort). rewrite Hm in E4. rewrite js, E4.
  destruct (persist_building d4 (with_committed (op_journal op) reply) false R4)
    as (d5 & E5 & R5 & I5 & O5 & S5 & T5 & J5 & F5 & Sub5 & K5 & Op5).
  cbn [op_journal set_journal]. rewrite E5.
  eexists _, d5. split; [done|]. split; cbn; try done.
  - exists n. split; [|done]. rewrite F5, F4 by done. rewrite (am_files _ _ _ A3), (qu_files _ _ Q); [done|].
    rewrite elem_of_singleton. unfold manifest_path. rewrite Hm. intros E%app_inj_tail.
    destruct E as [_ E]. by apply public_not_manifest in Hpub.
  - apply Sub5, Sub4. rewrite D3, D2, D1. done.
  - intros _. split; [done|]. split; [|split; [by rewrite J5|done]]. exists reply. split; [done|].
    split; [|done]. unfold reply_to. by rewrite K5.
Qed.

Lemma flush_second_files d active op name bytes :
  active !! key = Some op -> filed d op SecondFlush name bytes ->
  exists receipt reply d', flush_second key active d = (Ok receipt, delete key active, d') /\
    re_committed receipt = true /\ re_bytes_received receipt = len bytes /\
    re_abs_path receipt = Some reply /\ reply_to d' (mdir ++ [name]) reply /\
    (short = false -> reply = mdir ++ [name]) /\
    good d' /\ exists n, d_files d' !! (mdir ++ [name]) = Some n /\ contents n = bytes.
Proof.
  intros Ea [k p c (jn & jb & js & ji & jr) (n & En & Ec) ro di Hdone].
  destruct (Hdone eq_refl) as (Hco & (reply & Hap & Hto & Hshort) & Hj & di').
  unfold flush_second. rewrite Ea, p.
  destruct (sync_file_answers (ap_journal_path paths) d) as (d1 & E1 & G1 & D1); [apply ro|done|].
  rewrite (bind_ok _ _ _ _ _ E1). pose proof (sync_file_quiet _ _ _ _ E1) as [Q1 _].
  destruct (sync_directory_answers (ap_operation_dir paths) d1) as (d2 & E2 & G2 & D2); [done|by rewrite D1|].
  rewrite E2. pose proof (sync_directory_quiet _ _ _ _ E2) as [Q2 _].
  eexists _, reply, d2. split; [done|]. cbn. do 3 (split; [done|]).
  split; [unfold reply_to; by rewrite (qu_links _ _ Q2), (qu_links _ _ Q1)|].
  split; [done|]. split; [done|]. exists n. by rewrite (qu_files _ _ Q2), (qu_files _ _ Q1).
Qed.

(** *** The whole upload *)

Lemma offer_step (d0 d d1 : Disk) (op : ActiveOperation) (seq : Z) (bytes data : list byte) (final : bool)
    (active active1 : ActiveTable) :
  prepare root env active (offered seq (len bytes) data final) d = (Ok (Ok op), active1, d1) ->
  building d0 d1 op seq bytes -> len bytes + len data <= total ->
  (final = true -> len bytes + len data = total) ->
  let name := reserve_attachment_destination d0 mdir filename (env_millis env) in
  path_exists d0 (mdir ++ [name]) = false ->
  exists step op' d', accept_locked root env active (offered seq (len bytes) data final) d =
      (step, <[key := op']> active1, d') /\
    if final then step = Committing /\ filed d' op' FirstFlush name (bytes ++ data)
    else (exists receipt, step = Settle (Ok receipt)) /\ building d0 d' op' (seq + 1) (bytes ++ data).
Proof.
  intros Ep B Hle Hfin name Hfree. unfold accept_locked.
  destruct (offered_valid seq (len bytes) data final) as [-> ->]; [pose proof (len_nonneg data); lia|].
  cbn [negb]. rewrite Ep.
  destruct (advance_building d0 d1 op seq bytes data final B Hle Hfin) as (adv & op' & d2 & E & Hadv).
  rewrite E. destruct final.
  - destruct Hadv as [-> C]. destruct (begin_commit_files d0 d2 active1 op' _ C Hfree) as (op2 & d3 & -> & F).
    exists Committing, op2, d3. auto.
  - destruct Hadv as [(receipt & -> & _) B']. exists (Settle (Ok receipt)), op', d2.
    unfold restore. rewrite (bu_registered _ _ _ _ _ B'), (bu_key _ _ _ _ _ B'). eauto.
Qed.

Lemma prepare_again d0 d op seq bytes data final :
  building d0 d op seq bytes ->
  prepare root env {[key := op]} (offered seq (len bytes) data final) d = (Ok (Ok op), ∅, d).
Proof.
  intros B. unfold prepare. change (chunk_key (offered seq (len bytes) data final)) with key.
  rewrite lookup_singleton_eq.
  assert (same_upload (op_journal op) (offered seq (len bytes) data final) = true) as ->.
  { pose proof (bu_descriptor _ _ _ _ _ B) as de. pose proof (bu_carrier _ _ _ _ _ B) as [c1 c2].
    unfold journal_descriptor in de. injection de as H1 H2 H3 H4 H5.
    unfold same_upload, same_descriptor, same_carrier. rewrite H2, H3, H4, H5, c1, c2. cbn.
    by rewrite !bool_decide_eq_true_2. }
  cbn [negb]. by rewrite delete_singleton_eq.
Qed.

(** Where the next chunk goes: the table knows how far a relay is. *)
Definition next_offer (active : ActiveTable) (seq : Z) (bytes : list byte) : Prop :=
  seq = 0 /\ bytes = [] \/
  seq <> 0 /\ exists op, active !! key = Some op /\ aj_bytes_written (op_journal op) = len bytes.

Lemma perform_offer active d seq bytes data final :
  next_offer active seq bytes ->
  perform root (offer seq (len bytes) data final) (mkUploads active d)
  = (let '(step, active', d') := accept_locked root env active (offered seq (len bytes) data final) d in
     (reply_of sid rid step, [offered seq (len bytes) data final], mkUploads active' d')).
Proof.
  intros Hnext. unfold offer.
  assert (Hcase : carrier = Coordinator \/ carrier = Direct) by (case carrier; auto).
  unfold offered, declared, cid. destruct Hcase as [Hcase|Hcase]; rewrite Hcase; [|done].
  cbn [perform us_active us_disk]. unfold relay_operation_chunk. cbn [rc_seq rc_session_id rc_request_id].
  assert (E : (if seq =? 0 then (0, d)
               else let '(st, d) := status root active sid rid d in (as_bytes_received st, d)) = (len bytes, d)).
  { destruct Hnext as [[-> ->]|(Hseq & op & Eop & Eb)]; [done|].
    rewrite (proj2 (Z.eqb_neq _ _) Hseq). unfold status. fold key. rewrite Eop. cbn. by rewrite Eb. }
  by rewrite E.
Qed.

Lemma happen_good ev st replies offers st' :
  good (us_disk st) -> perform root ev st = (replies, offers, st') -> d_alive (us_disk st') = true ->
  happen root [] ev st = (replies, offers, st').
Proof.
  intros [G1 G2] E Ha. unfold happen. rewrite G1. cbn [negb andb].
  assert (mkUploads (us_active st) (set_faults (us_disk st) []) = st) as ->.
  { destruct st as [a d]. cbn in *. destruct d. cbn in *. by subst. }
  by rewrite E, Ha.
Qed.

Definition calm (events : list Event) : list (list Fault * Event) := (fun ev => ([], ev)) <$> events.

(** How an upload ends: every reply a receipt or a progress that was flushed,
    the last one committed under its name or a link to it, and the file its
    chunks end to end. *)
Definition finished_as (name : text) (bytes : list byte) (outcome :
    list Reply * list AttachmentOperationChunk * UploadState) : Prop :=
  let '(replies, _, st) := outcome in
  exists progress receipt reply, replies = progress ++ [Receipt sid rid (Ok receipt)] /\
    Forall (fun told => (exists r, told = Receipt sid rid (Ok r)) \/ told = Progressed sid rid true) progress /\
    re_committed receipt = true /\ re_bytes_received receipt = len bytes /\
    re_abs_path receipt = Some reply /\ reply_to (us_disk st) (mdir ++ [name]) reply /\
    (short = false -> reply = mdir ++ [name]) /\ us_active st = ∅ /\
    exists n, d_files (us_disk st) !! (mdir ++ [name]) = Some n /\ contents n = bytes.

(** One undisturbed event before the rest. *)
Lemma run_calm_cons ev events st replies offers st' :
  good (us_disk st) -> perform root ev st = (replies, offers, st') -> d_alive (us_disk st') = true ->
  run root (calm (ev :: events)) st =
    let '(replies', offers', st'') := run root (calm events) st' in
    (replies ++ replies', offers ++ offers', st'').
Proof.
  intros G E Ha. unfold calm. cbn [fmap list_fmap run].
  by rewrite (happen_good ev st replies offers st').
Qed.

(** More progress before the end. *)
Lemma finished_after name bytes more offers outcome :
  Forall (fun told => (exists r, told = Receipt sid rid (Ok r)) \/ told = Progressed sid rid true) more ->
  finished_as name bytes outcome ->
  finished_as name bytes
    (let '(replies', offers', st') := outcome in (more ++ replies', offers ++ offers', st')).
Proof.
  intros Hm. destruct outcome as [[replies offers'] st].
  intros (progress & receipt & reply & -> & Hp & Hrest). exists (more ++ progress), receipt, reply.
  split; [by rewrite app_assoc|]. split; [by apply Forall_app|done].
Qed.

Lemma run_flushes d op name bytes :
  public_name name -> filed d op FirstFlush name bytes ->
  finished_as name bytes
    (run root (calm [FirstFlushed key; SecondFlushed key]) (mkUploads {[key := op]} d)).
Proof.
  intros Hpub F.
  destruct (flush_first_files d {[key := op]} op name bytes (lookup_singleton_eq _ _) Hpub F)
    as (op1 & d1 & E1 & F1).
  destruct (flush_second_files d1 {[key := op1]} op1 name bytes (lookup_singleton_eq _ _) F1)
    as (receipt & reply & d2 & E2 & Hc & Hb & Ha & Hto & Hs & G2 & Hn).
  rewrite (run_calm_cons (FirstFlushed key) _ _ [] [] (mkUploads {[key := op1]} d1));
    [|apply F| |apply F1].
  2:{ cbn [perform us_active us_disk]. rewrite lookup_singleton_eq, (fi_commit _ _ _ _ _ F), E1.
      by rewrite insert_singleton_eq. }
  rewrite (run_calm_cons (SecondFlushed key) _ _ [Receipt sid rid (Ok receipt)] [] (mkUploads ∅ d2));
    [|apply F1| |apply G2].
  2:{ cbn [perform us_active us_disk]. rewrite lookup_singleton_eq, (fi_commit _ _ _ _ _ F1), E2.
      rewrite delete_singleton_eq. destruct (fi_journal _ _ _ _ _ F1) as (_ & _ & _ & -> & ->). done. }
  exists [], receipt, reply. split; [done|]. split; [constructor|]. auto 10.
Qed.

(** The run from a state whose next chunk is prepared for. *)
Lemma run_chunks (d0 d : Disk) (parts : list (list byte)) (seq : Z) (bytes : list byte) (active : ActiveTable) :
  let name := reserve_attachment_destination d0 mdir filename (env_millis env) in
  path_exists d0 (mdir ++ [name]) = false ->
  parts <> [] -> len bytes + len (concat parts) = total -> 0 <= seq -> seq + len parts <= count -> good d ->
  next_offer active seq bytes ->
  (forall data final, exists op d1,
     prepare root env active (offered seq (len bytes) data final) d = (Ok (Ok op), ∅, d1) /\
     building d0 d1 op seq bytes) ->
  finished_as name (bytes ++ concat parts)
    (run root (calm (upload_events seq (len bytes) parts)) (mkUploads active d)).
Proof.
  intros name Hfree. revert d seq bytes active.
  induction parts as [|data rest IH]; intros d seq bytes active Hne Htot Hpos Hcnt G Hnext Hprep; [done|].
  assert (Hpub : public_name name) by apply reserved_public.
  cbn [concat] in *. rewrite len_app in Htot. pose proof (len_nonneg (concat rest)).
  rewrite len_cons in Hcnt. pose proof (len_nonneg rest).
  set (final := bool_decide (rest = [])).
  destruct (Hprep data final) as (op & d1 & Ep & B).
  destruct (offer_step d0 d d1 op seq bytes data final active ∅ Ep B ltac:(lia)) as
    (step & op' & d2 & E & Hstep); [|done|].
  { intros Hf. apply bool_decide_eq_true in Hf. subst rest. cbn in Htot. unfold len in *. cbn in *. lia. }
  rewrite insert_empty in E. unfold final in *. clear final.
  destruct rest as [|data' rest].
  - rewrite bool_decide_eq_true_2 in Hstep, E by done. destruct Hstep as [-> F].
    cbn [concat] in *. rewrite app_nil_r.
    change (upload_events seq (len bytes) [data]) with
      (offer seq (len bytes) data true :: [FirstFlushed key; SecondFlushed key]).
    rewrite (run_calm_cons _ _ _ [] [offered seq (len bytes) data true] (mkUploads {[key := op']} d2));
      [|done| |apply F].
    + by apply (finished_after name _ [] _ _ (Forall_nil_2 _)), run_flushes.
    + by rewrite (perform_offer _ _ _ _ _ _ Hnext), E.
  - rewrite bool_decide_eq_false_2 in Hstep, E by done. destruct Hstep as [[receipt ->] B'].
    assert (Hlen : len (bytes ++ data) = len bytes + len data) by apply len_app.
    assert (Hgo : forall d3, building d0 d3 op' (seq + 1) (bytes ++ data) ->
      finished_as name (bytes ++ data ++ concat (data' :: rest))
        (run root (calm (upload_events (seq + 1) (len bytes + len data) (data' :: rest)))
           (mkUploads {[key := op']} d3))).
    { intros d3 B3. rewrite app_assoc, <- Hlen. apply IH; try done; [rewrite Hlen; lia|lia|lia| | |].
      - apply (bu_room _ _ _ _ _ B3).
      - right. split; [lia|]. exists op'. split; [apply lookup_singleton_eq|apply B3].
      - intros data2 final2. exists op', d3. split; [|done]. by apply (prepare_again d0). }
    change (upload_events seq (len bytes) (data :: data' :: rest)) with
      (offer seq (len bytes) data false ::
       match carrier with Direct => [ProgressFlushed sid rid] | Coordinator => [] end ++
       upload_events (seq + 1) (len bytes + len data) (data' :: rest)).
    rewrite (run_calm_cons _ _ _ [Receipt sid rid (Ok receipt)]
      [offered seq (len bytes) data false] (mkUploads {[key := op']} d2)); [|done| |apply B'].
    2:{ by rewrite (perform_offer _ _ _ _ _ _ Hnext), E. }
    apply finished_after; [constructor; [left; eauto|constructor]|].
    assert (Hcase : carrier = Coordinator \/ carrier = Direct) by (case carrier; auto).
    destruct Hcase as [Hcase|Hcase]; rewrite Hcase; cbn [app]; [by apply Hgo|].
    destruct (progress_flushed d0 d2 op' (seq + 1) (bytes ++ data) B' Hcase) as (d3 & E3 & B3); [lia|lia|].
    rewrite (run_calm_cons _ _ _ [Progressed sid rid true] [] (mkUploads {[key := op']} d3));
      [|apply B'| |apply B3].
    + apply finished_after; [constructor; [by right|constructor]|by apply Hgo].
    + cbn [perform us_active us_disk]. by rewrite E3.
Qed.

End Upload.

End Undisturbed.

(** ** Claims *)

Section Claims.
Context `{SD : Serde} `{SH : Sha256}.

(** C11: In every run of the upload owner in which no two sessions use one upload
    id ([admissible], [proper]: an id is one session's, a session's id holds no
    NUL and does not name an [.operations] directory) - any chunks, statuses,
    detachments and sweeps in any order, any system call failing or being the one
    the process dies in, and starting again, from a disk without an earlier
    operation - an answer that says committed is true for ever: the upload's
    file, under the answered path, holds the bytes of chunks that were offered for
    it with consecutive sequence numbers and running offsets (up to its digest),
    exactly its declared total, and bytes and entry were flushed.  Two sessions of
    one project that use one id share a temp, and the answer is not true
    ([shared_upload_id_mixes]). *)
Theorem uploads_stored_as_offered root session_of d0 events replies offers st :
  fresh d0 -> Forall (fun event => admissible root session_of event.2) events ->
  run root events (mkUploads ∅ d0) = (replies, offers, st) ->
  Forall (reply_true root offers (us_disk st)) replies.
Proof.
  intros Hf Ha H. eapply (run_holds root session_of events []) in H as (_ & _ & Hr); [done|done|].
  by apply fresh_holds.
Qed.

(** C12: Whatever uploads do, fail at or are interrupted in, from a disk without an
    earlier operation and as long as no two sessions use one upload id
    ([admissible]), a file outside the [.operations]
    directories - one an upload stored or one that was there before - is never
    written, moved or removed again by any of them, except the
    [.roost-manifest.json] of a media directory, which every commit rewrites. *)
Theorem stored_files_stay root session_of d0 before after replies offers st1 replies' offers' st2 :
  fresh d0 -> Forall (fun event => admissible root session_of event.2) (before ++ after) ->
  run root before (mkUploads ∅ d0) = (replies, offers, st1) ->
  run root after st1 = (replies', offers', st2) ->
  forall p n, ~ private p -> last p <> Some MANIFEST_NAME ->
    d_files (us_disk st1) !! p = Some n -> d_files (us_disk st2) !! p = Some n.
Proof.
  intros Hf [Ha1 Ha2]%Forall_app H1 H2 p n.
  eapply (run_holds root session_of before []) in H1 as (_ & Hall & _); [|done|by apply fresh_holds].
  eapply (run_holds root session_of after) in H2 as (U & _); [|done|exact Hall].
  apply U.
Qed.

(** The media directory is the session's own or a project's. *)
Lemma prepared_last root sid folder prepared sdir mdir :
  resolve_session_dir root sid = Some sdir -> last sdir <> Some ATTACHMENT_OPERATION_DIR_NAME ->
  prepare_media_dir root sid folder prepared = Some mdir -> last mdir <> Some ATTACHMENT_OPERATION_DIR_NAME.
Proof.
  intros Hd Hl. unfold prepare_media_dir. rewrite Hd. cbn [mbind option_bind].
  unfold usable_project_dir. destruct folder as [[f is_dir]|]; cbn; [|by intros [= <-]].
  destruct (_ && _); [|by intros [= <-]]. destruct prepared; [|by intros [= <-]]. intros [= <-].
  unfold project_media_dir. rewrite last_app. by vm_compute.
Qed.


End Claims.

(** *** At concrete inputs *)

#[global] Instance demo_serde : Serde := {
  journal_bytes := fun _ => [];
  manifest_bytes := fun _ => [];
  read_journal := fun _ => None;
  read_manifest := fun _ => None;
}.

Definition demo_root : Path := [chars "base"].
Definition demo_session : text := chars "s1".
Definition demo_request : text := chars "u1".
Definition demo_dir : Path := [chars "base"; chars "s1"].
Definition demo_env : Env := mkEnv 0 None false 7.
Definition demo_disk : Disk := mkDisk ∅ ∅ ∅ ∅ ∅ [] true ∅.

(** Two chunks; the process dies inside the commit's last flush, and the status
    asked after it started again tells of the commit. *)
Definition demo_chunk (seq offset : Z) (data : list byte) (final : bool) : DirectChunk :=
  client_chunk demo_session demo_request (chars "a.txt") false (chars "c") 3 seq offset data final.

Definition demo_events : list (list Fault * Event) :=
  [([], DirectOffered demo_env (demo_chunk 0 0 [Byte.x61; Byte.x62] false));
   ([], ProgressFlushed demo_session demo_request);
   ([], DirectOffered demo_env (demo_chunk 1 2 [Byte.x63] true));
   ([], FirstFlushed (operation_key demo_session demo_request));
   ([Passes; Dies 0], SecondFlushed (operation_key demo_session demo_request));
   ([], Restarted);
   ([], StatusAsked demo_session demo_request)].

Lemma demo_proper : proper demo_root (fun _ => demo_session) demo_session demo_request.
Proof.
  split; [done|vm_compute; intros H; repeat (apply elem_of_cons in H as [H|H]; [done|]); by apply elem_of_nil in H|].
  intros dir H. assert (dir = demo_dir) as -> by (vm_compute in H; by injection H as <-). done.
Qed.

Lemma demo_disk_fresh : fresh demo_disk.
Proof. intros p n H. cbn in H. by rewrite lookup_empty in H. Qed.

Lemma demo_admissible :
  Forall (fun event => admissible demo_root (fun _ => demo_session) event.2) demo_events.
Proof. repeat constructor; apply demo_proper. Qed.

Lemma uploads_stored_as_offered_witness :
  let outcome := run demo_root demo_events (mkUploads ∅ demo_disk) in
  Forall (reply_true demo_root outcome.1.2 (us_disk outcome.2)) outcome.1.1 /\
  existsb (fun reply => match reply with Told _ _ answer => as_committed answer | _ => false end)
    outcome.1.1 = true.
Proof.
  split; [|vm_compute; reflexivity].
  apply (uploads_stored_as_offered demo_root (fun _ => demo_session) demo_disk demo_events);
    [apply demo_disk_fresh|apply demo_admissible|].
  by destruct (run demo_root demo_events (mkUploads ∅ demo_disk)) as [[replies offers] st].
Defined.

Lemma stored_files_stay_witness :
  let first := run demo_root (take 4 demo_events) (mkUploads ∅ demo_disk) in
  let second := run demo_root (drop 4 demo_events) first.2 in
  let file := demo_dir ++ [chars "a.txt"] in
  (exists n, d_files (us_disk first.2) !! file = Some n) /\
  forall n, d_files (us_disk first.2) !! file = Some n -> d_files (us_disk second.2) !! file = Some n.
Proof.
  split.
  - eexists. vm_compute. reflexivity.
  - intros n. apply (stored_files_stay demo_root (fun _ => demo_session) demo_disk
      (take 4 demo_events) (drop 4 demo_events)
      (run demo_root (take 4 demo_events) (mkUploads ∅ demo_disk)).1.1
      (run demo_root (take 4 demo_events) (mkUploads ∅ demo_disk)).1.2
      (run demo_root (take 4 demo_events) (mkUploads ∅ demo_disk)).2
      (run demo_root (drop 4 demo_events) (run demo_root (take 4 demo_events) (mkUploads ∅ demo_disk)).2).1.1
      (run demo_root (drop 4 demo_events) (run demo_root (take 4 demo_events) (mkUploads ∅ demo_disk)).2).1.2).
    + apply demo_disk_fresh.
    + apply demo_admissible.
    + by destruct (run demo_root (take 4 demo_events) (mkUploads ∅ demo_disk)) as [[? ?] ?].
    + by destruct (run demo_root (drop 4 demo_events) _) as [[? ?] ?].
    + by vm_compute.
    + by vm_compute.
Defined.

(** A relayed upload into a project's folder, answered with a link, and a direct
    one into the session's own directory. *)
Definition demo_project : Env := mkEnv 0 (Some ([chars "proj"], true)) true 7.
Definition demo_parts : list (list byte) := [[Byte.x61; Byte.x62]; []; [Byte.x63]].


(** *** What modelling showed *)

(** The name tests of [naming.rs], and one with a backslash, which stays in the
    name and which a journal that is read back may not hold. *)
Example sanitized_names :
  (fun s => sanitize_attachment_name (chars s)) <$>
    [".bashrc"; "..a.txt"; ".txt"; ""; "dir/"; "..."; ".."; "ignored/a.tar.gz"; "a\b.txt"]%string =
  chars <$> ["bashrc"; "a.txt"; "txt"; "file"; "dir"; "file."; "file"; "a.tar.gz"; "a\b.txt"]%string.
Proof. vm_compute. reflexivity. Qed.

(** An upload of one chunk, committed; then the process starts again and is
    asked for its status. *)
Definition committed_then_asked (filename : text) : list Reply :=
  (run demo_root
     (calm (upload_events demo_session demo_request filename false Direct (chars "c") 1 demo_env 0 0 [[Byte.x61]] ++
        [Restarted; StatusAsked demo_session demo_request])) (mkUploads ∅ demo_disk)).1.1.

Definition committed_receipt (reply : Reply) : bool :=
  match reply with Receipt _ _ (Ok receipt) => re_committed receipt | _ => false end.

Definition told_error (reply : Reply) : option AttachmentOperationError :=
  match reply with Told _ _ answer => as_error answer | _ => None end.

(** A committed upload whose name holds a backslash is [write_failed] to every
    status after a restart. *)
Theorem backslash_upload_lost :
  existsb committed_receipt (committed_then_asked (chars "a\b.txt")) = true /\
  omap told_error (committed_then_asked (chars "a\b.txt")) = [WriteFailed] /\
  omap told_error (committed_then_asked (chars "a-b.txt")) = [].
Proof. vm_compute. done. Qed.

(** A chunk out of order, sent to an upload that is committed, writes its
    refusal into the committed journal: the status then says both. *)
Theorem committed_upload_spoilt :
  let replies := (run demo_root
     (calm (upload_events demo_session demo_request (chars "a.txt") false Direct (chars "c") 1 demo_env 0 0 [[Byte.x61]] ++
        [DirectOffered demo_env (client_chunk demo_session demo_request (chars "a.txt") false (chars "c") 1
           7 7 [Byte.x62] false);
         StatusAsked demo_session demo_request])) (mkUploads ∅ demo_disk)).1.1 in
  omap (fun reply => match reply with
        | Told _ _ answer => Some (as_committed answer, as_error answer) | _ => None end) replies =
  [(true, Some ChunkOutOfOrder)].
Proof. vm_compute. done. Qed.

(** A parked operation is refused to a carrier of another id. *)
Theorem other_carrier_refused `{SD : Serde} `{SH : Sha256} (root : Path) (env : Env) (active : ActiveTable)
    c (d d1 : Disk) paths j :
  active !! chunk_key c = None ->
  load_attachment_operation root (od_session_id (oc_descriptor c)) (od_request_id (oc_descriptor c)) d
    = (Loaded paths j, d1) ->
  aj_carrier_id j <> oc_carrier_id c ->
  prepare root env active c d = (Ok (Err UploadMismatch), active, d1).
Proof.
  intros Ha El Hne. unfold prepare. rewrite Ha, El.
  unfold same_upload, same_carrier. rewrite (bool_decide_eq_false_2 (aj_carrier_id j = _)) by done.
  by rewrite !andb_false_r.
Qed.

(** Two sessions of one project that use one upload id: the temp, which is named
    by the id alone, is truncated under the first, which commits the second's
    bytes as its own. *)
Definition shared_chunk (session : string) (seq offset : Z) (data : list byte) (final : bool) : Event :=
  DirectOffered demo_project
    (client_chunk (chars session) demo_request (chars "a.txt") false (chars "c") 3 seq offset data final).

Theorem shared_upload_id_mixes :
  let key := operation_key (chars "s1") demo_request in
  let '(replies, _, st) := run demo_root
    (calm [shared_chunk "s1" 0 0 [Byte.x61; Byte.x62] false;
           shared_chunk "s2" 0 0 [Byte.x78; Byte.x79] false;
           shared_chunk "s1" 1 2 [Byte.x63] true; FirstFlushed key; SecondFlushed key])
    (mkUploads ∅ demo_disk) in
  existsb committed_receipt replies = true /\
  contents <$> d_files (us_disk st) !! (project_media_dir [chars "proj"] ++ [chars "a.txt"])
  = Some [Byte.x78; Byte.x79; Byte.x63].
Proof. vm_compute. done. Qed.
